(* ===== verification/_CoqProject ===== *)
-Q . S2P
Prelude.v
Comparators.v
Json.v
JsonText.v
Doubles.v
JsNumber.v
KvCodec.v
KvTask.v
SwarmKv.v
KvStore.v
KvRefine.v
KvCorrect.v
KvWriters.v
AbacModel.v
AbacPolicy.v
AbacEngine.v
DnsSteer.v
DnsAnswer.v
DnsResolve.v
DnsCompose.v
DnsServe.v
Lease.v
LeaseSystem.v
RestoreSelect.v
Failover.v
SqlLex.v
SqlBuild.v
SqlClassify.v
NoSqlClassify.v
Interpolate.v
Calendar.v
Schedule.v
Storage.v
Upgrade.v
UpgradePlan.v
NetPolicy.v
AppPlan.v
DecomPicker.v
Decommission.v
ServiceSpec.v
SecretEnv.v
SpecRead.v
Effects.v
ServicePatch.v
Routes.v
Canary.v
AppSecrets.v
SecretRotation.v
SecretSweep.v
SecretCarry.v
PgMembers.v
PgPlacement.v
PgReconcile.v
PgPromote.v
PgIntent.v
PgBoot.v
