(* ===== verification/Prelude.v ===== *)
(** * Verification of the decision cores of swarmy

    swarmy is a control plane for Docker Swarm clusters: an API server (the
    controller, apps/api), an agent per node (apps/agent), an authoritative DNS
    server (apps/dns), a web console, and shared packages.  Most of its code
    moves data between a database, Docker and the agents.  What decides is kept
    apart in pure modules, and those are what this library models, with the
    protocols that run on them where the order of events matters: the lease
    between controllers, the failover and the storage worker from one pass to
    the next, the query pipeline of the nameserver, and the requests and workers
    that read a service back from Docker, change it and deploy it again.

    ** Parts

    Access control (packages/abac).  AbacModel.v: attribute paths and values,
    groups, ReBAC grants, principals and resources (types.ts, attrs.ts,
    grants.ts, build.ts).  AbacPolicy.v: the policy parser and the matcher
    (policy.ts).  AbacEngine.v: [evaluate] and the seeded default policies
    (engine.ts, defaults.ts), and the context handed to Cedar (cedar.ts).  Shown:
    a matching forbid wins and the decision is complete and independent of the
    order of the policies; a well-formed document survives the parser and only
    such documents do; what members, admins and owners may do under the
    defaults; grants give exactly the relations of the edges; the groups of a
    principal are closed; where Cedar's notion of owner is narrower.

    DNS (packages/dns, apps/dns).  DnsSteer.v: the choice of the closest healthy
    addresses (steer.ts).  DnsAnswer.v and DnsResolve.v: resolution over a zone
    snapshot (answer.ts; the records of core/src/protocol/dns.ts) and its
    properties.  DnsCompose.v: the snapshot made of ingress hosts and manual
    records (compose.ts).  DnsServe.v: packets, the query pipeline and the
    snapshot store (wire.ts, geoip.ts, query.ts, store.ts).  Composition feeds
    resolution ([composed_host_resolves] goes through both), which steers, and
    the pipeline wraps resolution.  Shown: which names exist, which wildcard may
    answer and the response codes; the answers of
    steered names, when a chase of CNAMEs ends, precedence of manual records,
    what goes back on the wire and how it is truncated, that the served snapshot
    never goes back.

    The controller's lease (apps/api/src/controller-store, apps/agent).  Lease.v:
    the decisions of both sides and the version-checked write.  LeaseSystem.v: the
    controllers as a transition system over an unreliable network, each step
    taking its decision from Lease.v.  RestoreSelect.v: which copy of the
    database a new leader starts from, by the last writer the lease recorded.
    Shown: one leader at a time, inside its TTL; epochs are fencing tokens; a
    takeover ends in success; the write is a compare-and-swap; no copy with
    newer data is discarded.

    Platform upgrades (packages/trpc/src/services).  Upgrade.v: the step engine,
    driven over handlers that are parameters, its persistence at every
    checkpoint, crashes, resumption and retry as a step relation on rows.
    UpgradePlan.v: what the controller step decides, which system services are
    rolled, the shell scripts that roll them and the reading of their output.
    Shown: finished steps stay finished across any history and the rest are
    untouched; a drive enters exactly the unfinished steps, in order; the
    controller update is requested once; an update that landed leaves nothing to
    do; the scripts quote whatever they are given.

    Application planning (packages/app-config).  AppPlan.v: the difference
    between a declared application and what runs, gated and ordered (plan.ts).
    Shown: exactly which actions go without a human, and that fewer replicas and fewer
    kept backups are among them; the empty plan is exactly the state in sync, to which planning converges; deploys come after the builds
    they wait for.

    Retiring a server (packages/trpc/src/services/node-decommission.plan.ts).
    DecomPicker.v: the choice of destinations, with the space already promised.
    Decommission.v: the plan, as folds over an accumulator.  Shown: what happens to
    each thing that runs on the server before it drains, the few that are dropped or
    restart empty with a warning included; stale volumes are backed up
    first, disks are not promised past the pressure line by volumes of known size, roles keep a reachable
    host, and the steps are in a safe order.

    Networks (packages/core/src/network-policy.ts).  NetPolicy.v: who may join
    which network, reserved names and labels, overlay options, links between
    applications.

    The document store (packages/core/src/swarm-kv.ts).  JsonText.v: JSON texts.
    KvCodec.v: names, limits, fingerprint and base64.  KvTask.v: asynchronous code
    over the configs of a swarm, with a weakest precondition for runs among other
    tasks and a runner that can be stopped by a crash.  SwarmKv.v: the methods of
    the store as such tasks.  KvStore.v: the abstract versioned store and what it
    means that a swarm stands for one.  KvRefine.v: each method refines its
    specification.  KvCorrect.v and KvWriters.v: histories, budget, undo, crashes,
    and other writers.  Shown: one instance is the abstract store on any driver that
    keeps Docker's contract; a crash leaves the version before or after; an update
    among appending writers extends the newest version; what may be written
    whatever the driver answers; and, run on examples, where an outdated cache, a
    fingerprint collision, a recreated document or a refused removal breaks it.

    Managed services (apps/api/src/workers).  Failover.v: promotion of a Postgres
    replica and the worker's memory across passes.  Storage.v: the Garage layout,
    its convergence and the retries of the worker.

    The database studio (packages/core/src/studio).  SqlLex.v: the lexer.
    SqlBuild.v: the statements the studio writes.  SqlClassify.v and
    NoSqlClassify.v: may a command run, and as what.  Builder and classifier meet
    in the lexer: the statements built lex to their intended tokens whatever the
    names and values, and classify as intended; what is classified as a read is exact
    ([classifySql_read]), with the statements that pass for one and are none.

    Services on Docker (packages/core/src, apps/agent).  Doubles.v: finite doubles,
    in which limits and reservations become nanoseconds and bytes, and JsNumber.v:
    numbers read from text, which SRV and CAA records of DNS use too.  ServiceSpec.v:
    the specification of a service and the bodies of Docker's create and update
    calls (protocol/commands.ts, docker.ts).  SecretEnv.v: variables delivered
    through the shim, the wrap, its inverse and the fallback to files
    (app-secrets.ts, the agent's secret-env.ts).  SpecRead.v: the reader that makes
    a specification of an inspected service (service-inspect.ts).  Shown: the
    agent's wrap can always be undone, a service it refuses is refused for a stated
    reason, and deploying what was read back leaves a service that reads the same:
    the loop read, deploy, read is stable after the first round, which forgets a short
    list of fields (records [forgotten] and [reads_as]).

    Requests and workers over live services (packages/trpc/src/services,
    apps/api/src/workers).  Effects.v: programs that call out, and their traces.
    ServicePatch.v: the calls, and the patch of one aspect of a live service
    (service-patch.ts).  Routes.v: ingress
    routes on a service's label, their reader, validator and write
    (ingress-routes.ts, ingress-routes-api.ts).  Canary.v: canary deploys, started
    and ended from the console and judged by a worker (releases.service.ts,
    deploy-canary.ts).  AppSecrets.v: secret variables of applications, versions,
    deploys, collection and carry (app-secrets.ts, app-secrets.service.ts,
    app-secret-gc.ts), with properties in SecretRotation.v, SecretSweep.v and
    SecretCarry.v.  The layers compose: a request is a program of Effects.v whose
    read is SpecRead.v and whose deploy is the body of ServiceSpec.v wrapped by
    SecretEnv.v.  Shown: a patch changes its aspect and nothing else, also through
    Docker and back; the label of routes holds only typed routes, and rereads as
    written; a worker's promotion and rollback are justified by what it read, and a
    tick serves every canary of each organisation before the first whose error rates
    cannot be had; ending a canary restores the label, a dropped toggle of monitoring apart; a rotation deploys exactly the
    abstract merge of the variables; a version is removed exactly when nothing can
    need it; a compose deploy carries exactly the variables the new file leaves
    alone, as plain files where the image has no shell.

    Managed Postgres (packages/core/src, apps/api/src/workers).  PgMembers.v: the
    credentials, storage labels and specifications of the members of a cluster
    (manageddb-pg.ts, manageddb-storage.ts, and the builders of
    manageddb-reconcile.ts and manageddb-pitr.core.ts).  PgPlacement.v: data disks
    and the server of a new primary (disk-inventory.ts, manageddb-storage.ts).
    PgReconcile.v: a pass of the reconcile worker over a cluster, a program of
    Effects.v (manageddb-reconcile.ts up to its step 5, manageddb-reconcile.core.ts,
    manageddb-pitr.core.ts).  PgPromote.v: its last steps, the samples of replication
    lag and the promotion, which run Failover.v on what containers print.  PgIntent.v:
    what passes achieve, and cases in which one works against itself.  PgBoot.v: the
    entrypoint of a member as a program over the directories of its volume, with a
    crash logic for scripts.  The pass deploys the
    specifications of PgMembers.v, which the boot script starts.  Shown: a pass never
    deploys a member away from its declared data, nor a primary whose data is not on a
    volume; backup intent reaches the live primary whatever fails on the way; the
    storage step settles the layout and later calls that spare its two members keep it so; the choice of a server is the best eligible
    one; a member that is started, killed and started again loses no data (a drill may
    drop the copy of the drill before it), and a finished start leaves what its role asks; a replica becomes the primary only on
    what the containers printed, or on an admin's word.

    Compose and schedules.  Interpolate.v: variables of compose documents.
    Calendar.v: the calendar behind JavaScript's dates.  Schedule.v: intervals and
    cron expressions, their search and the rules for what is due.

    Comparators.v holds the interface through which the sources sort: the class
    [Comparator] of consistent comparators, its instances, and the laws of
    [js_sort] that every client uses.  Json.v holds JavaScript values.  This file
    holds notations, results, list, option, string and integer lemmas.

    ** Reading the models

    Names are the source's, with a prefix on the fields of a record.  An
    operation that returns early or throws is a function to an option or to
    [result]; a loop that changes variables is a fold or a step function on a
    record of them; what several parties do at once is a step relation.  A string
    is a sequence of code units below 256; case mapping is the one of Latin-1, from
    which JavaScript's [toUpperCase] differs in three letters (sharp s, micro sign
    and y with diaeresis leave Latin-1).
    Integers are [Z]: the sources stay below 2^53, and where they may not
    (Failover.v) or compute with fractions (Doubles.v, JsNumber.v, DnsAnswer.v, Canary.v,
    AppSecrets.v) the rounding of doubles is written out.  A JavaScript object used
    as a map is a list of entries, or a [gmap] where no order is read.  A program
    that calls out is a tree of calls (Effects.v); its theorems speak of every
    trace, whatever the answers are, and of interrupted runs as prefixes.

    ** Fuel

    Recursion that is not structural takes fuel, and [None] stands for running
    out of it.  The lexer gets a quadratic bound and always
    ends in it ([lexSql_terminates]); interpolation gets the length of the text
    ([interpolateString_correct] includes that it is enough); resolution gets the
    number of static records of the zone plus one, enough exactly when the CNAMEs do not run
    in a circle ([answerQuery_termination]).  The parser of JSON gets twice the
    length of the text, which suffices for what [json_stringify] writes
    ([json_parse_stringify]).  The search for a free version of a secret gets as
    many steps as there are names, which is enough ([free_version_fresh]).
    The cron searches scan the source's own limit of 366 days of minutes.

    ** Parameters

    The sealing of stored documents, great-circle distance, the byte codec of DNS
    packets and its flag masks, the location database, [localeCompare],
    [Date.parse], the regular-expression engine that tells whether a pattern
    compiles, the keyed digest of a secret value, the hash that names contents, the
    host of a URL, the opening of sealed credentials, the entrypoint of an image, the
    handlers of an upgrade, the hash of a plan and Garage's own layout update are
    not code of the repository (or, the distance, floating-point trigonometry).
    They are arguments; the theorems hold for all of them, or
    under hypotheses that state their documented behaviour.  The text of the boot
    script is an argument of the specifications that carry it, since they only copy it;
    what it does is modelled in PgBoot.v.

    ** Not modelled, and next

    The routers and services of the API other than those named above, persistence,
    the agent's Docker handlers, the workers' I/O, the console and the other
    languages are effects on outside systems.  The sentences of the decommission
    plan and the signatures of application units are left out of their models; of
    the document store, the texts of errors and the two refreshes of one instance
    that would overlap; of canaries and routes, the texts of records and alerts; of
    managed Postgres, what the queries of a promotion do in the server and the sweep of
    scheduled backups.  Next in line are further pure cores: the pins of data volumes, the
    normalisation of swarmy.yaml, environment files, the traffic sampling of the
    edge, the parsers of MongoDB and Redis input, and the rendering of policies as
    Cedar text. *)

From Stdlib Require Export Ascii String ZArith Lia Bool.
From stdpp Require Export base list strings gmap pretty sorting.
#[export] Set Default Proof Using "Type".

Open Scope string_scope.
Open Scope list_scope.
Open Scope Z_scope.

(** * Automation shared by every file *)

Create HintDb swarmy.

#[global] Arguments String.append !_ _ / : simpl nomatch.

(** Splits every [match]/[if] scrutinee in sight and discards the absurd cases. *)
Ltac break_match :=
  match goal with
  | |- context [match ?x with _ => _ end] => destruct x eqn:?
  | H : context [match ?x with _ => _ end] |- _ => destruct x eqn:?
  end.

Ltac crush := repeat (break_match; simplify_eq/=); try done; try lia.

(** Turns boolean connectives and comparisons of the hypotheses into
    propositions. *)
Ltac b2p :=
  repeat match goal with
  | H : _ && _ = true |- _ => apply andb_true_iff in H; destruct H
  | H : _ || _ = false |- _ => apply orb_false_iff in H; destruct H
  | H : negb _ = true |- _ => apply negb_true_iff in H
  | H : negb _ = false |- _ => apply negb_false_iff in H
  | H : String.eqb _ _ = true |- _ => apply String.eqb_eq in H
  | H : String.eqb _ _ = false |- _ => apply String.eqb_neq in H
  | H : Z.eqb _ _ = true |- _ => apply Z.eqb_eq in H
  | H : Z.eqb _ _ = false |- _ => apply Z.eqb_neq in H
  | H : Z.ltb _ _ = true |- _ => apply Z.ltb_lt in H
  | H : Z.ltb _ _ = false |- _ => apply Z.ltb_ge in H
  | H : Z.leb _ _ = true |- _ => apply Z.leb_le in H
  | H : Z.leb _ _ = false |- _ => apply Z.leb_gt in H
  | H : Nat.eqb _ _ = true |- _ => apply Nat.eqb_eq in H
  | H : Nat.eqb _ _ = false |- _ => apply Nat.eqb_neq in H
  | H : Nat.ltb _ _ = true |- _ => apply Nat.ltb_lt in H
  | H : Nat.ltb _ _ = false |- _ => apply Nat.ltb_ge in H
  | H : Nat.leb _ _ = true |- _ => apply Nat.leb_le in H
  | H : Nat.leb _ _ = false |- _ => apply Nat.leb_gt in H
  | H : bool_decide _ = true |- _ => apply bool_decide_eq_true_1 in H
  | H : bool_decide _ = false |- _ => apply bool_decide_eq_false_1 in H
  end.

(** * Fallible code: a value or the message of the thrown error *)

Inductive res (A : Type) : Type :=
  | Ok (a : A)
  | Err (msg : string).
Arguments Ok {A} a.
Arguments Err {A} msg.

Definition res_bind {A B} (r : res A) (f : A -> res B) : res B :=
  match r with Ok a => f a | Err m => Err m end.

Declare Scope res_scope.
Notation "'let!' x ':=' r 'in' k" := (res_bind r (fun x => k))
  (at level 10, x pattern, r at level 100, k at level 200) : res_scope.
Open Scope res_scope.

Lemma res_bind_Ok {A B} (r : res A) (f : A -> res B) b :
  res_bind r f = Ok b <-> exists a, r = Ok a /\ f a = Ok b.
Proof. destruct r; simpl; naive_solver. Qed.

(** [xs.map(f)] where [f] may throw: the first error wins. *)
Fixpoint res_map {A B} (f : A -> res B) (l : list A) : res (list B) :=
  match l with
  | [] => Ok []
  | x :: l' => let! y := f x in let! ys := res_map f l' in Ok (y :: ys)
  end.

Lemma res_map_Ok {A B} (f : A -> res B) l ys :
  res_map f l = Ok ys <-> Forall2 (fun x y => f x = Ok y) l ys.
Proof.
  revert ys. induction l as [|x l IH]; intros ys; simpl.
  - split; [intros [= <-]; constructor | by inversion 1].
  - rewrite res_bind_Ok. setoid_rewrite res_bind_Ok. split.
    + intros (y & Hy & ys' & Hys & [= <-]). constructor; [done|by apply IH].
    + inversion 1 as [|? y ? ys' Hy Hys]; subst. exists y; split; [done|].
      exists ys'; split; [by apply IH|done].
Qed.

(** * Strings

    A TypeScript string is modelled by a [string] whose characters are its
    code units; the model covers strings of code units below 256. *)

Definition mem (x : string) (l : list string) : bool := existsb (String.eqb x) l.
#[global] Arguments mem : simpl never.

Lemma mem_In x l : mem x l = true <-> x ∈ l.
Proof.
  unfold mem. rewrite existsb_exists. setoid_rewrite String.eqb_eq.
  rewrite list_elem_of_In. naive_solver.
Qed.

Lemma mem_false x l : mem x l = false <-> x ∉ l.
Proof. rewrite <- mem_In. destruct (mem x l); naive_solver. Qed.

Lemma mem_spec x l : reflect (x ∈ l) (mem x l).
Proof. apply iff_reflect. by rewrite mem_In. Qed.


Definition code (c : ascii) : N := N_of_ascii c.

(** [toLowerCase] / [toUpperCase] of one code unit. *)
Definition lower_char (c : ascii) : ascii :=
  let n := code c in
  if ((65 <=? n) && (n <=? 90) || (192 <=? n) && (n <=? 222) && negb (n =? 215))%N
  then ascii_of_N (n + 32) else c.

Definition upper_char (c : ascii) : ascii :=
  let n := code c in
  if ((97 <=? n) && (n <=? 122) || (224 <=? n) && (n <=? 254) && negb (n =? 247))%N
  then ascii_of_N (n - 32) else c.

Fixpoint smap (f : ascii -> ascii) (s : string) : string :=
  match s with EmptyString => EmptyString | String c s' => String (f c) (smap f s') end.

Definition toLowerCase (s : string) : string := smap lower_char s.
Definition toUpperCase (s : string) : string := smap upper_char s.

(** The white space of [\s] and [trim] below code unit 256. *)
Definition is_space (c : ascii) : bool :=
  let n := code c in ((9 <=? n) && (n <=? 13) || (n =? 32) || (n =? 160))%N.

Definition is_digit (c : ascii) : bool := let n := code c in ((48 <=? n) && (n <=? 57))%N.

Definition is_alpha (c : ascii) : bool :=
  let n := code c in ((65 <=? n) && (n <=? 90) || (97 <=? n) && (n <=? 122))%N.

Fixpoint trim_start (s : string) : string :=
  match s with
  | EmptyString => EmptyString
  | String c s' => if is_space c then trim_start s' else s
  end.

(** Drops the longest suffix of characters satisfying [p]. *)
Fixpoint drop_suffix_while (p : ascii -> bool) (s : string) : string :=
  match s with
  | EmptyString => EmptyString
  | String c s' =>
      match drop_suffix_while p s' with
      | EmptyString => if p c then EmptyString else String c EmptyString
      | r => String c r
      end
  end.

Definition trim (s : string) : string := drop_suffix_while is_space (trim_start s).

Fixpoint startsWith (p s : string) : bool :=
  match p, s with
  | EmptyString, _ => true
  | String a p', String b s' => Ascii.eqb a b && startsWith p' s'
  | _, _ => false
  end.

Definition sdrop (n : nat) (s : string) : string := String.substring n (String.length s - n) s.

(** [s.endsWith(p)] *)
Definition endsWith (p s : string) : bool :=
  (String.length p <=? String.length s)%nat &&
  String.eqb (sdrop (String.length s - String.length p) s) p.

(** [xs.join(sep)] *)
Fixpoint join (sep : string) (l : list string) : string :=
  match l with
  | [] => ""
  | [x] => x
  | x :: l' => (x ++ sep ++ join sep l')%string
  end.

(** [s] between double quotes. *)
Definition dq : string := String (ascii_of_nat 34) EmptyString.
Definition quoted (s : string) : string := dq +:+ s +:+ dq.

Lemma string_app_assoc (a b c : string) : ((a ++ b) ++ c = a ++ (b ++ c))%string.
Proof. induction a; simpl; congruence. Qed.

Lemma string_app_nil_r (a : string) : (a ++ "" = a)%string.
Proof. induction a; simpl; congruence. Qed.

Lemma string_length_app (a b : string) :
  String.length (a ++ b)%string = (String.length a + String.length b)%nat.
Proof. induction a; simpl; congruence. Qed.

Lemma startsWith_spec p s : startsWith p s = true <-> exists r, s = (p ++ r)%string.
Proof.
  revert s. induction p as [|a p IH]; intros [|b s]; simpl; split; try done; eauto.
  - intros [r Hr]; discriminate.
  - intros H; b2p. apply Ascii.eqb_eq in H as ->. apply IH in H0 as [r ->]. by exists r.
  - intros [r [= -> ->]]. rewrite Ascii.eqb_refl. simpl. apply IH; eauto.
Qed.

Lemma substring_all (s : string) : String.substring 0 (String.length s) s = s.
Proof. induction s as [|c s IH]; simpl; [done|]. by rewrite IH. Qed.

Lemma sdrop_app (a b : string) : sdrop (String.length a) (a ++ b)%string = b.
Proof.
  unfold sdrop. rewrite string_length_app.
  replace (String.length a + String.length b - String.length a)%nat with (String.length b) by lia.
  induction a as [|x a IH]; simpl; [apply substring_all|done].
Qed.

Lemma sdrop_split n s : (n <= String.length s)%nat ->
  exists a, s = (a ++ sdrop n s)%string /\ String.length a = n.
Proof.
  revert s. induction n as [|n IH]; intros s Hn.
  - exists "". unfold sdrop. rewrite Nat.sub_0_r.
    split; [|done]. symmetry. apply substring_all.
  - destruct s as [|c s]; simpl in Hn; [lia|].
    destruct (IH s) as (a & Ha & Hl); [lia|].
    exists (String c a). simpl. split; [|lia]. f_equal. exact Ha.
Qed.

Lemma substring_app a b c : String.substring (String.length a) (String.length b) (a +:+ (b +:+ c)) = b.
Proof.
  induction a as [|x a IH]; simpl; [|done].
  induction b as [|y b IH]; simpl; [by destruct c|]. by rewrite IH.
Qed.

Lemma sdrop_length n s : String.length (sdrop n s) = (String.length s - n)%nat.
Proof.
  revert s. induction n as [|n IH]; intros s.
  - unfold sdrop. by rewrite Nat.sub_0_r, substring_all.
  - destruct s as [|c s]; [done|]. change (sdrop (S n) (String c s)) with (sdrop n s). by rewrite IH.
Qed.

Lemma sdrop_succ n c s : sdrop (S n) (String c s) = sdrop n s.
Proof. reflexivity. Qed.

Lemma sdrop_0 s : sdrop 0 s = s.
Proof. unfold sdrop. by rewrite Nat.sub_0_r, substring_all. Qed.

Lemma endsWith_spec p s : endsWith p s = true <-> exists r, s = (r ++ p)%string.
Proof.
  unfold endsWith. split.
  - intros H; b2p.
    destruct (sdrop_split (String.length s - String.length p) s) as (a & Ha & _); [lia|].
    exists a. congruence.
  - intros [r ->]. rewrite string_length_app, andb_true_iff, Nat.leb_le, String.eqb_eq.
    split; [lia|].
    replace (String.length r + String.length p - String.length p)%nat with (String.length r) by lia.
    apply sdrop_app.
Qed.

(** * Trimming and case mapping *)

Lemma smap_trim_start f s : (forall c, is_space (f c) = is_space c) ->
  trim_start (smap f s) = smap f (trim_start s).
Proof. intros Hf. induction s as [|c s IH]; simpl; [done|]. rewrite Hf. by destruct (is_space c). Qed.

Lemma smap_drop_suffix f p s : (forall c, p (f c) = p c) ->
  drop_suffix_while p (smap f s) = smap f (drop_suffix_while p s).
Proof.
  intros Hf. induction s as [|c s IH]; simpl; [done|]. rewrite IH, Hf.
  destruct (drop_suffix_while p s); simpl; [by destruct (p c)|done].
Qed.

Lemma drop_suffix_idemp p s : drop_suffix_while p (drop_suffix_while p s) = drop_suffix_while p s.
Proof.
  induction s as [|c s IH]; simpl; [done|].
  destruct (drop_suffix_while p s) as [|c' s'] eqn:E; simpl in *.
  - destruct (p c) eqn:Ec; simpl; by rewrite ?Ec.
  - destruct (drop_suffix_while p s') eqn:E'; simpl in *.
    + destruct (p c') eqn:Ec; simplify_eq. done.
    + by simplify_eq.
Qed.

Lemma trim_start_drop_suffix p s :
  trim_start s = s -> trim_start (drop_suffix_while p s) = drop_suffix_while p s.
Proof.
  destruct s as [|c s]; simpl; [done|]. destruct (is_space c) eqn:E.
  - intros H. exfalso. assert (Hl : forall u, (String.length (trim_start u) <= String.length u)%nat).
    { induction u as [|x u IH]; simpl; [lia|]. destruct (is_space x); simpl; lia. }
    specialize (Hl s). rewrite H in Hl. simpl in Hl. lia.
  - intros _. destruct (drop_suffix_while p s); simpl; [destruct (p c); simpl|]; by rewrite ?E.
Qed.

Lemma trim_start_idemp s : trim_start (trim_start s) = trim_start s.
Proof. induction s as [|c s IH]; simpl; [done|]. destruct (is_space c) eqn:E; [done|]. simpl. by rewrite E. Qed.

Lemma trim_idemp s : trim (trim s) = trim s.
Proof.
  unfold trim. rewrite (trim_start_drop_suffix is_space (trim_start s)) by apply trim_start_idemp.
  apply drop_suffix_idemp.
Qed.

Lemma lower_char_space c : is_space (lower_char c) = is_space c.
Proof. destruct c as [[] [] [] [] [] [] [] []]; reflexivity. Qed.

Lemma lower_char_idemp c : lower_char (lower_char c) = lower_char c.
Proof. destruct c as [[] [] [] [] [] [] [] []]; reflexivity. Qed.

Lemma toLowerCase_idemp s : toLowerCase (toLowerCase s) = toLowerCase s.
Proof. induction s as [|c s IH]; [done|]. unfold toLowerCase in *. simpl. by rewrite lower_char_idemp, IH. Qed.

Lemma trim_lower s : trim (toLowerCase s) = toLowerCase (trim s).
Proof.
  unfold trim, toLowerCase. rewrite smap_trim_start by apply lower_char_space.
  by rewrite smap_drop_suffix by apply lower_char_space.
Qed.

(** * Filtering by a boolean test *)

Lemma bfilter_elem {A} (f : A -> bool) (x : A) l : x ∈ List.filter f l <-> x ∈ l /\ f x = true.
Proof. by rewrite !list_elem_of_In, filter_In. Qed.

Lemma bfilter_nil {A} (f : A -> bool) l : List.filter f l = [] <-> forall x, x ∈ l -> f x = false.
Proof.
  split.
  - intros H x Hx. destruct (f x) eqn:E; [|done].
    assert (Hf : x ∈ List.filter f l) by by rewrite bfilter_elem.
    rewrite H in Hf. by apply not_elem_of_nil in Hf.
  - intros H. destruct (List.filter f l) as [|x r] eqn:E; [done|].
    assert (Hf : x ∈ List.filter f l) by (rewrite E; left).
    apply bfilter_elem in Hf as [Hx Hf]. rewrite H in Hf; done.
Qed.

Lemma bfilter_perm {A} (f : A -> bool) (l l' : list A) :
  l ≡ₚ l' -> List.filter f l ≡ₚ List.filter f l'.
Proof.
  induction 1 as [| x l l' _ IH | x y l | l l' l'' _ IH1 _ IH2]; simpl; [done| | |by etrans].
  - destruct (f x); [by constructor|done].
  - destruct (f x), (f y); try done. apply Permutation_swap.
Qed.

Lemma bfilter_sorted {A} (R : A -> A -> Prop) (f : A -> bool) l :
  StronglySorted R l -> StronglySorted R (List.filter f l).
Proof.
  induction 1 as [|x l Hs IH Hx]; simpl; [constructor|]. destruct (f x); [|done].
  constructor; [done|]. rewrite Forall_forall in Hx |- *.
  intros y [Hy _]%bfilter_elem. by apply Hx.
Qed.

Lemma take_elem {A} (x : A) n l : x ∈ take n l -> x ∈ l.
Proof. intros (i & Hi & _)%elem_of_take. by eapply list_elem_of_lookup_2. Qed.

(** * Sets as lists *)

(** [Set.add] *)
Definition set_add {A} `{EqDecision A} (x : A) (s : list A) : list A :=
  if decide (x ∈ s) then s else s ++ [x].

Lemma set_add_elem {A} `{EqDecision A} (x y : A) s : y ∈ set_add x s <-> y = x \/ y ∈ s.
Proof. unfold set_add. case_decide; set_solver. Qed.

Lemma set_add_NoDup {A} `{EqDecision A} (x : A) s : NoDup s -> NoDup (set_add x s).
Proof.
  unfold set_add. case_decide; [done|]. intros. apply NoDup_app. split_and!; [done| |apply NoDup_singleton].
  intros y Hy ->%list_elem_of_singleton. done.
Qed.

#[export] Hint Resolve set_add_NoDup : swarmy.

(** * Bounded checks *)

(** [p] on the [n] integers from [lo]. *)
Fixpoint check_range (p : Z -> bool) (lo : Z) (n : nat) : bool :=
  match n with O => true | S n' => p lo && check_range p (lo + 1) n' end.

Lemma check_range_spec p lo n :
  check_range p lo n = true -> forall z, lo <= z < lo + Z.of_nat n -> p z = true.
Proof.
  revert lo. induction n as [|n IH]; simpl; intros lo H z Hz; [lia|].
  apply andb_true_iff in H as [H0 H]. destruct (Z.eq_dec z lo) as [->|]; [done|].
  apply (IH (lo + 1)); [done|lia].
Qed.

(** The first of the [n] points [t], [t + step], ... that satisfies [p]. *)
Fixpoint first_point (p : Z -> bool) (step : Z) (n : nat) (t : Z) : option Z :=
  match n with O => None | S n' => if p t then Some t else first_point p step n' (t + step) end.

Lemma first_point_Some p step n t r :
  first_point p step n t = Some r ->
  exists k, 0 <= k < Z.of_nat n /\ r = t + k * step /\ p r = true /\
    forall j, 0 <= j < k -> p (t + j * step) = false.
Proof.
  revert t. induction n as [|n IH]; intros t; simpl; [done|].
  destruct (p t) eqn:E.
  - intros [= <-]. exists 0. split_and!; [lia|lia|lia|done|lia].
  - intros (k & Hk & -> & Hp & Hlt)%IH. exists (k + 1). split_and!; [lia|lia|lia| |].
    + by replace (t + (k + 1) * step) with (t + step + k * step) by lia.
    + intros j Hj. destruct (Z.eq_dec j 0) as [->|]; [by rewrite Z.mul_0_l, Z.add_0_r|].
      replace (t + j * step) with (t + step + (j - 1) * step) by lia. apply Hlt. lia.
Qed.

Lemma first_point_None p step n t :
  first_point p step n t = None -> forall k, 0 <= k < Z.of_nat n -> p (t + k * step) = false.
Proof.
  revert t. induction n as [|n IH]; intros t; simpl; [lia|].
  destruct (p t) eqn:E; [done|]. intros H k Hk.
  destruct (Z.eq_dec k 0) as [->|]; [by rewrite Z.mul_0_l, Z.add_0_r|].
  replace (t + k * step) with (t + step + (k - 1) * step) by lia. apply IH; [done|lia].
Qed.

(** * Scanning *)

Definition next_is (p : ascii -> bool) (s : string) : bool :=
  match s with String c _ => p c | EmptyString => false end.

Definition str1 (c : ascii) : string := String c EmptyString.

(** The longest prefix of characters satisfying [p]. *)
Fixpoint span (p : ascii -> bool) (s : string) : string :=
  match s with
  | EmptyString => EmptyString
  | String c s' => if p c then String c (span p s') else EmptyString
  end.

Fixpoint all_chars (p : ascii -> bool) (s : string) : bool :=
  match s with EmptyString => true | String c s' => p c && all_chars p s' end.

Fixpoint take_while (p : ascii -> bool) (s : string) : string :=
  match s with
  | EmptyString => EmptyString
  | String c s' => if p c then String c (take_while p s') else EmptyString
  end.

Fixpoint drop_while (p : ascii -> bool) (s : string) : string :=
  match s with
  | EmptyString => EmptyString
  | String c s' => if p c then drop_while p s' else s
  end.

(** [s.split(/\s+/)] *)
Fixpoint split_spaces_aux (fuel : nat) (s : string) : list string :=
  match fuel with
  | O => [s]
  | S fuel' =>
      let piece := take_while (fun c => negb (is_space c)) s in
      match drop_while (fun c => negb (is_space c)) s with
      | EmptyString => [piece]
      | rest => piece :: split_spaces_aux fuel' (drop_while is_space rest)
      end
  end.

Definition split_spaces (s : string) : list string := split_spaces_aux (String.length s) s.

(** [s.split(c)] for one character. *)
Fixpoint split_at (c : ascii) (s : string) : list string :=
  match s with
  | EmptyString => [""]
  | String x s' =>
      if Ascii.eqb x c then "" :: split_at c s'
      else match split_at c s' with piece :: l => String x piece :: l | [] => [str1 x] end
  end.

Fixpoint decimal_from (acc : Z) (s : string) : Z :=
  match s with EmptyString => acc | String c s' => decimal_from (acc * 10 + Z.of_N (code c) - 48) s' end.

(** [Number.parseInt(s, 10)] on a string of digits. *)
Definition decimal (s : string) : Z := decimal_from 0 s.

(** [/^\d+$/] *)
Definition all_digits (s : string) : bool := negb (String.eqb s "") && all_chars is_digit s.

Definition is_hex_lower (c : ascii) : bool :=
  is_digit c || (let n := code c in (97 <=? n) && (n <=? 102))%N.

(** [Number(s)] of a numeral without sign, point or exponent; [None] is [NaN]. *)
Definition js_number (s : string) : option Z := if all_digits s then Some (decimal s) else None.

Lemma span_app p s r : all_chars p s = true -> next_is p r = false -> span p (s +:+ r) = s.
Proof.
  induction s as [|c s IH]; simpl.
  - intros _. destruct r as [|c r]; simpl; [done|]. by intros ->.
  - intros [-> H]%andb_true_iff Hr. by rewrite IH.
Qed.

Lemma all_chars_impl (p q : ascii -> bool) s :
  (forall c, p c = true -> q c = true) -> all_chars p s = true -> all_chars q s = true.
Proof. intros H. induction s as [|c s IH]; simpl; [done|]. rewrite !andb_true_iff. intros [? ?]. auto. Qed.

Lemma span_length p s : (String.length (span p s) <= String.length s)%nat.
Proof. induction s as [|c s IH]; simpl; [done|]. destruct (p c); simpl; lia. Qed.

Lemma all_chars_app p a b : all_chars p (a +:+ b) = all_chars p a && all_chars p b.
Proof. induction a as [|c a IH]; [done|]. cbn [String.append all_chars]. by rewrite IH, andb_assoc. Qed.

(** * Splitting *)

Definition no_char (c : ascii) (s : string) : bool := all_chars (fun x => negb (Ascii.eqb x c)) s.

Lemma split_at_none c s : no_char c s = true -> split_at c s = [s].
Proof.
  unfold no_char. induction s as [|x s IH]; [done|]. cbn [all_chars split_at]. intros [Hx Hs]%andb_true_iff. b2p.
  by rewrite Hx, (IH Hs).
Qed.

Lemma split_at_cons c s : exists p l, split_at c s = p :: l.
Proof.
  induction s as [|x s (p & l & E)]; cbn [split_at]; [by eexists _, _|]. destruct (Ascii.eqb x c); [by eexists _, _|].
  rewrite E. by eexists _, _.
Qed.

Lemma split_at_app c a b : split_at c (a +:+ String c b) = split_at c a ++ split_at c b.
Proof.
  induction a as [|x a IH]; cbn [String.append split_at].
  - by rewrite Ascii.eqb_refl.
  - destruct (Ascii.eqb x c); [by rewrite IH|]. rewrite IH. by destruct (split_at_cons c a) as (p & l & ->).
Qed.

Definition word_char (c : ascii) : bool := negb (is_space c).

Lemma take_while_app p a r : all_chars p a = true -> next_is p r = false -> take_while p (a +:+ r) = a /\ drop_while p (a +:+ r) = r.
Proof.
  intros Ha Hr. induction a as [|c a IH]; cbn [String.append all_chars take_while drop_while] in *.
  - destruct r as [|x r]; [done|]. simpl in *. by rewrite Hr.
  - apply andb_true_iff in Ha as [-> Ha]. destruct (IH Ha) as [-> ->]. done.
Qed.

Lemma split_words_step n w r :
  all_chars word_char w = true -> next_is word_char r = true ->
  split_spaces_aux (S n) (w +:+ String " " r) = w :: split_spaces_aux n r.
Proof.
  intros Hw Hr. cbn [split_spaces_aux].
  destruct (take_while_app word_char w (String " " r) Hw eq_refl) as [E1 E2]. unfold word_char in E1, E2. rewrite E1, E2.
  f_equal. f_equal. destruct r as [|c r]; [done|]. simpl in Hr. unfold word_char in Hr. b2p. cbn [drop_while]. by rewrite Hr.
Qed.

Lemma split_words_last n w : all_chars word_char w = true -> split_spaces_aux n w = [w].
Proof.
  intros Hw. destruct n as [|n]; [done|]. cbn [split_spaces_aux].
  destruct (take_while_app word_char w "" Hw eq_refl) as [E1 E2]. rewrite string_app_nil_r in E1, E2.
  unfold word_char in E1, E2. by rewrite E1, E2.
Qed.

Lemma word_starts w : all_chars word_char w = true -> w <> "" -> forall r, next_is word_char (w +:+ r) = true.
Proof. destruct w as [|c w]; [done|]. intros [H _]%andb_true_iff _ r. exact H. Qed.

Lemma drop_suffix_app p a b : drop_suffix_while p b = b -> b <> "" -> drop_suffix_while p (a +:+ b) = a +:+ b.
Proof.
  intros Hb Hne. induction a as [|c a IH]; [done|]. cbn [String.append drop_suffix_while]. rewrite IH.
  destruct (a +:+ b) as [|x y] eqn:E; [|done]. destruct a; simpl in E; by subst.
Qed.

Lemma drop_suffix_word w : all_chars word_char w = true -> drop_suffix_while is_space w = w.
Proof.
  induction w as [|c w IH]; [done|]. cbn [all_chars drop_suffix_while]. intros [Hc Hw]%andb_true_iff. rewrite (IH Hw).
  unfold word_char in Hc. b2p. destruct w; [by rewrite Hc|done].
Qed.

(** * Objects and optional strings *)

(** [if (x)] on a string that may be missing. *)
Definition truthy_str (o : option string) : option string :=
  match o with Some s => if String.eqb s "" then None else Some s | None => None end.

(** [obj[k] = v] on an object kept as the list of its entries. *)
Fixpoint obj_set {A} (k : string) (v : A) (m : list (string * A)) : list (string * A) :=
  match m with
  | [] => [(k, v)]
  | (k', v') :: m' => if String.eqb k k' then (k', v) :: m' else (k', v') :: obj_set k v m'
  end.

Lemma obj_set_elem {A} k (v : A) m x : x ∈ obj_set k v m -> x = (k, v) \/ x ∈ m.
Proof.
  induction m as [|[k' v'] m IH]; simpl; [by intros ->%list_elem_of_singleton; left|].
  destruct (String.eqb_spec k k') as [->|Hk]; rewrite !elem_of_cons; [intros [->|H]; auto|].
  intros [->|H]; [auto|]. destruct (IH H); auto.
Qed.

Lemma obj_set_keys_elem {A} k (v : A) m x : x ∈ map fst (obj_set k v m) <-> x = k \/ x ∈ map fst m.
Proof.
  induction m as [|[k' v'] m IH]; simpl; [set_solver|].
  destruct (String.eqb_spec k k') as [->|Hk]; simpl; [set_solver|]. rewrite !elem_of_cons, IH. tauto.
Qed.

Lemma obj_set_NoDup {A} k (v : A) m : NoDup (map fst m) -> NoDup (map fst (obj_set k v m)).
Proof.
  induction m as [|[k' v'] m IH]; simpl; [intros _; apply NoDup_singleton|]. intros [Hn Hd]%NoDup_cons.
  destruct (String.eqb_spec k k') as [->|Hk]; simpl; apply NoDup_cons; split; auto.
  rewrite obj_set_keys_elem. by intros [->|?].
Qed.

(** [[...new Set(xs)]] *)
Definition js_uniq {A} `{EqDecision A} (xs : list A) : list A := foldl (fun s x => set_add x s) [] xs.

Lemma js_uniq_foldl {A} `{EqDecision A} (xs s : list A) :
  NoDup s -> NoDup (foldl (fun s x => set_add x s) s xs) /\
  forall y, y ∈ foldl (fun s x => set_add x s) s xs <-> y ∈ s \/ y ∈ xs.
Proof.
  revert s. induction xs as [|x xs IH]; intros s Hs; simpl.
  - split; [done|]. intros y. set_solver.
  - destruct (IH (set_add x s)) as [H1 H2]; [by apply set_add_NoDup|]. split; [done|].
    intros y. rewrite H2, set_add_elem. set_solver.
Qed.

Lemma js_uniq_NoDup {A} `{EqDecision A} (xs : list A) : NoDup (js_uniq xs).
Proof. apply js_uniq_foldl. constructor. Qed.

Lemma js_uniq_elem {A} `{EqDecision A} (y : A) xs : y ∈ js_uniq xs <-> y ∈ xs.
Proof. unfold js_uniq. rewrite (proj2 (js_uniq_foldl xs [] (NoDup_nil_2))). set_solver. Qed.

#[export] Hint Resolve js_uniq_NoDup : swarmy.

Lemma flat_map_nil {A B} (f : A -> list B) l : flat_map f l = [] <-> forall x, x ∈ l -> f x = [].
Proof.
  induction l as [|x l IH]; simpl; [set_solver|]. rewrite app_nil, IH. set_solver.
Qed.

(** * Order in a list *)

(** [x] comes somewhere before [y]. *)
Definition before {A} (x y : A) (l : list A) : Prop := exists l1 l2 l3, l = l1 ++ x :: l2 ++ y :: l3.

Lemma sorted_before {A} (R : A -> A -> Prop) (x y : A) l :
  StronglySorted R l -> x ∈ l -> y ∈ l -> ~ R y x -> x <> y -> before x y l.
Proof.
  intros Hs Hx Hy Hn Hne. apply list_elem_of_split in Hy as (l1 & l2 & ->).
  apply elem_of_app in Hx as [Hx|Hx].
  - apply list_elem_of_split in Hx as (m1 & m2 & ->). exists m1, m2, l2. by rewrite <- app_assoc.
  - apply elem_of_cons in Hx as [->|Hx]; [done|]. exfalso. apply Hn. clear Hn.
    induction l1 as [|z l1 IH]; simpl in Hs; apply StronglySorted_inv in Hs as [Hs Hf]; [|by apply IH].
    rewrite Forall_forall in Hf. by apply Hf.
Qed.

Lemma before_app_l {A} (x y : A) l l' : before x y l -> before x y (l ++ l').
Proof. intros (a & b & c & ->). exists a, b, (c ++ l'). by repeat (rewrite <- ?app_assoc; simpl). Qed.

Lemma before_cons {A} (x y z : A) l : before x y l -> before x y (z :: l).
Proof. intros (a & b & c & ->). by exists (z :: a), b, c. Qed.

Lemma before_head {A} (x y : A) l : y ∈ l -> before x y (x :: l).
Proof. intros (a & b & ->)%list_elem_of_split. by exists [], a, b. Qed.

Lemma before_cons_inv {A} (x y z : A) l : before x y (z :: l) -> (z = x /\ y ∈ l) \/ before x y l.
Proof.
  intros ([|w a] & b & c & H); simpl in H; injection H as <- ->.
  - left. split; [done|]. apply elem_of_app. right. left.
  - right. by exists a, b, c.
Qed.

Lemma before_map {A B} (f : A -> B) x y l : before x y l -> before (f x) (f y) (map f l).
Proof.
  intros (a & b & c & ->). exists (map f a), (map f b), (map f c). by rewrite map_app; simpl; rewrite map_app.
Qed.

Lemma before_flat_map {A B} (f : A -> list B) x y x' y' l :
  before x y l -> x' ∈ f x -> y' ∈ f y -> before x' y' (flat_map f l).
Proof.
  intros (a & b & c & ->) (u & v & Hu)%list_elem_of_split (w & z & Hw)%list_elem_of_split.
  exists (flat_map f a ++ u), (v ++ flat_map f b ++ w), (z ++ flat_map f c).
  rewrite flat_map_app. simpl. rewrite flat_map_app. simpl. rewrite Hu, Hw. by repeat (rewrite <- ?app_assoc; simpl).
Qed.

(** Elements that a key tells apart are equal when their keys are. *)
Lemma map_key_inj {A B} (f : A -> B) l x y : NoDup (map f l) -> x ∈ l -> y ∈ l -> f x = f y -> x = y.
Proof.
  induction l as [|a l IH]; simpl; [by intros _ ?%not_elem_of_nil|].
  intros [Hn Hd]%NoDup_cons. rewrite !elem_of_cons. intros [->|Hx] [->|Hy] E; [done|exfalso..|by apply IH];
    apply Hn, list_elem_of_fmap; eauto.
Qed.

(** * Maps built from a list *)

(** [new Map(xs.map((x) => [key(x), x])).get(k)]: of two entries the last counts. *)
Definition by_key {A} (key : A -> string) (xs : list A) (k : string) : option A :=
  List.find (fun x => String.eqb (key x) k) (rev xs).

Lemma by_key_some {A} (key : A -> string) xs k x : by_key key xs k = Some x -> x ∈ xs /\ key x = k.
Proof.
  unfold by_key. intros [H E]%find_some. apply String.eqb_eq in E. split; [|done].
  apply list_elem_of_In. by apply in_rev.
Qed.

Lemma by_key_none {A} (key : A -> string) xs k : by_key key xs k = None <-> k ∉ map key xs.
Proof.
  unfold by_key. split.
  - intros H Hin. apply list_elem_of_fmap in Hin as (x & -> & Hx). eapply find_none in H.
    2: { apply in_rev. rewrite rev_involutive. by apply list_elem_of_In. }
    by rewrite String.eqb_refl in H.
  - intros H. destruct (List.find _ _) as [x|] eqn:E; [|done]. exfalso. apply H.
    destruct (by_key_some key xs k x E) as [Hx <-]. apply list_elem_of_fmap. by exists x.
Qed.

Lemma by_key_unique {A} (key : A -> string) xs x : NoDup (map key xs) -> x ∈ xs -> by_key key xs (key x) = Some x.
Proof.
  intros Hd Hx. destruct (by_key key xs (key x)) as [y|] eqn:E.
  - apply by_key_some in E as [Hy Hk]. f_equal. by apply (map_key_inj key xs).
  - apply by_key_none in E. exfalso. apply E, list_elem_of_fmap. by exists x.
Qed.

Lemma by_key_mapped {A B} (key : A -> string) (f : A -> B) (key' : B -> string) l x :
  (forall y, key' (f y) = key y) -> NoDup (map key l) -> x ∈ l -> by_key key' (map f l) (key x) = Some (f x).
Proof.
  intros Hk Hd Hx. rewrite <- (Hk x). apply by_key_unique.
  - rewrite map_map. by rewrite (map_ext _ key Hk).
  - apply list_elem_of_fmap. by exists x.
Qed.


Lemma before_app {A} (x y : A) l l' : x ∈ l -> y ∈ l' -> before x y (l ++ l').
Proof.
  intros (a & b & ->)%list_elem_of_split (c & d & ->)%list_elem_of_split. exists a, (b ++ c), d.
  by repeat (rewrite <- ?app_assoc; simpl).
Qed.

Lemma before_app_r {A} (x y : A) l l' : before x y l' -> before x y (l ++ l').
Proof. intros H. induction l as [|z l IH]; simpl; [done|by apply before_cons]. Qed.

(** * Hashes and hexadecimal text *)

Definition nul : string := String (ascii_of_nat 0) "".

(** [Math.imul(h ^ c, m) >>> 0] on a 32-bit [h]. *)
Definition imul32 (h c m : Z) : Z := (Z.lxor h c * m) mod 2 ^ 32.

Lemma imul32_range h c m : 0 <= imul32 h c m < 2 ^ 32.
Proof. apply Z.mod_pos_bound. done. Qed.

Definition hex_char (d : Z) : ascii := ascii_of_nat (Z.to_nat (if d <? 10 then 48 + d else 87 + d)).

(** [h.toString(16).padStart(8, '0')] of a 32-bit [h]: its eight digits. *)
Fixpoint hex_digits (n : nat) (h : Z) : string :=
  match n with O => EmptyString | S n' => hex_digits n' (h / 16) +:+ str1 (hex_char (h mod 16)) end.

(** The inverse of [hex_digits]. *)
Definition hex_value (c : ascii) : Z := let n := Z.of_N (code c) in if n <? 58 then n - 48 else n - 87.

Fixpoint from_hex (acc : Z) (s : string) : Z :=
  match s with EmptyString => acc | String c s' => from_hex (acc * 16 + hex_value c) s' end.

Lemma from_hex_snoc acc s c : from_hex acc (s +:+ str1 c) = from_hex acc s * 16 + hex_value c.
Proof. revert acc. induction s as [|x s IH]; intros acc; simpl; [done|]. by rewrite IH. Qed.

Lemma hex_char_value d : 0 <= d < 16 -> hex_value (hex_char d) = d.
Proof.
  intros Hd. pose proof (check_range_spec (fun d => hex_value (hex_char d) =? d) 0 16 eq_refl d) as H.
  apply Z.eqb_eq, H. lia.
Qed.

Lemma hex_char_ok d : 0 <= d < 16 -> is_hex_lower (hex_char d) = true.
Proof. intros Hd. apply (check_range_spec (fun d => is_hex_lower (hex_char d)) 0 16 eq_refl d). lia. Qed.

Lemma hex_digits_ok n h : 0 <= h < 16 ^ Z.of_nat n ->
  String.length (hex_digits n h) = n /\ all_chars is_hex_lower (hex_digits n h) = true /\ from_hex 0 (hex_digits n h) = h.
Proof.
  revert h. induction n as [|n IH]; intros h Hh.
  - simpl in *. split_and!; [done|done|]. change (16 ^ 0) with 1 in Hh. lia.
  - rewrite Nat2Z.inj_succ, Z.pow_succ_r in Hh by lia. cbn [hex_digits].
    assert (Hm : 0 <= h mod 16 < 16) by by apply Z.mod_pos_bound.
    destruct (IH (h / 16)) as (L & C & V).
    { split; [apply Z.div_pos; lia|apply Z.div_lt_upper_bound; lia]. }
    rewrite string_length_app, all_chars_app, from_hex_snoc, L, C, V, hex_char_value by done. simpl.
    rewrite hex_char_ok by done. split_and!; [lia|done|]. pose proof (Z.div_mod h 16). lia.
Qed.

(** * Printing and reading integers *)

(** [Number.parseInt(s, 10)]; [None] is [NaN]. *)
Definition parse_int (s : string) : option Z :=
  let s := trim_start s in
  let '(sign, t) := match s with
                    | String c r => if Ascii.eqb c "-" then (-1, r) else if Ascii.eqb c "+" then (1, r) else (1, s)
                    | EmptyString => (1, s)
                    end in
  let d := take_while is_digit t in if String.eqb d "" then None else Some (sign * decimal d).

Lemma decimal_from_app acc a b : decimal_from acc (a +:+ b) = decimal_from (decimal_from acc a) b.
Proof. revert acc. induction a as [|c a IH]; intros acc; simpl; [done|]. by rewrite IH. Qed.

Lemma pretty_go_digits x : exists d, (forall s, pretty_N_go x s = d +:+ s) /\ all_chars is_digit d = true /\
  decimal_from 0 d = Z.of_N x /\ ((0 < x)%N -> d <> "") /\
  forall n, (Z.of_N x < 10 ^ Z.of_nat n) -> (String.length d <= n)%nat.
Proof.
  induction (N.lt_wf_0 x) as [x _ IH]. destruct (decide (x = 0%N)) as [->|Hx].
  { exists "". split_and!; try done. intros n _. simpl. lia. }
  destruct (IH (x / 10)%N) as (d & H1 & H2 & H3 & _ & H5); [by apply N.div_lt; lia|].
  assert (Hm : (x mod 10 < 10)%N) by by apply N.mod_lt.
  assert (Hc : is_digit (pretty_N_char (x mod 10)) = true /\ Z.of_N (code (pretty_N_char (x mod 10))) - 48 = Z.of_N (x mod 10)).
  { pose proof (check_range_spec (fun z => is_digit (pretty_N_char (Z.to_N z)) && (Z.of_N (code (pretty_N_char (Z.to_N z))) - 48 =? z)) 0 10 eq_refl
      (Z.of_N (x mod 10))) as H. clear IH H1 H2 H3 H5.
    assert (Hr : 0 <= Z.of_N (x mod 10) < 10) by (split; [apply N2Z.is_nonneg|change 10 with (Z.of_N 10); by apply N2Z.inj_lt]). specialize (H Hr). cbv beta in H. rewrite N2Z.id in H. by b2p. }
  exists (d +:+ str1 (pretty_N_char (x mod 10))). split_and!.
  - intros s. rewrite pretty_N_go_step by lia. by rewrite H1, string_app_assoc.
  - rewrite all_chars_app, H2. simpl. by rewrite (proj1 Hc).
  - rewrite decimal_from_app, H3. simpl. rewrite N2Z.inj_div. destruct Hc as [_ Hc].
    rewrite N2Z.inj_mod in Hc. change (Z.of_N 10) with 10 in *. pose proof (Z.div_mod (Z.of_N x) 10). lia.
  - destruct d; done.
  - intros n Hn. rewrite string_length_app. simpl. destruct n as [|n]; [simpl in Hn; lia|].
    rewrite Nat2Z.inj_succ, Z.pow_succ_r in Hn by lia.
    assert (String.length d <= n)%nat; [|lia]. apply H5. rewrite N2Z.inj_div. apply Z.div_lt_upper_bound; lia.
Qed.

Lemma pretty_pos z : 0 < z -> all_digits (pretty z) = true /\ decimal (pretty z) = z /\
  forall n, z < 10 ^ Z.of_nat n -> (String.length (pretty z) <= n)%nat.
Proof.
  destruct z as [|p|p]; intros Hz; try lia. destruct (pretty_go_digits (Npos p)) as (d & H1 & H2 & H3 & H4 & H5).
  assert (E : pretty (Zpos p) = d).
  { unfold pretty, pretty_Z, pretty, pretty_positive, pretty, pretty_N. rewrite decide_False by done. by rewrite H1, string_app_nil_r. }
  rewrite E. unfold all_digits, decimal. rewrite H2, H3. split_and!; [|done|intros n Hn; by apply H5].
  rewrite andb_true_r. apply negb_true_iff, String.eqb_neq, H4. lia.
Qed.

Lemma parse_int_pretty z : 0 <= z -> parse_int (pretty z) = Some z.
Proof.
  intros Hz. destruct (decide (z = 0)) as [->|Hne]; [done|]. destruct (pretty_pos z) as (Hd & Hv & _); [lia|].
  unfold all_digits in Hd. b2p. destruct (take_while_app is_digit (pretty z) "" ltac:(done) eq_refl) as [Ht _].
  rewrite string_app_nil_r in Ht. unfold parse_int. destruct (pretty z) as [|c s] eqn:E; [done|].
  assert (Hc : is_digit c = true) by (simpl in *; by b2p).
  assert (trim_start (String c s) = String c s) as ->.
  { simpl. assert (is_space c = false) as ->; [|done]. clear -Hc. destruct c as [[] [] [] [] [] [] [] []]; vm_compute in *; done. }
  assert (Ascii.eqb c "-" = false /\ Ascii.eqb c "+" = false) as [-> ->].
  { clear -Hc. destruct c as [[] [] [] [] [] [] [] []]; vm_compute in *; done. }
  rewrite Ht, Hv. cbn [String.eqb]. f_equal. lia.
Qed.
