(* ===== verification/Comparators.v ===== *)
(** Comparators of [Array.prototype.sort] and the stable sort itself.

    A comparator is a function to [Z] read by its sign, as JavaScript reads
    it; [a || b] between two comparators is [cmp_then].  [Comparator] states
    what the callers of [sort] rely on: swapping the arguments flips the sign
    and "not after" is transitive.  The instances cover the shapes the sources
    use, so a comparator written with them is consistent by type-class search.
    The lemmas on [js_sort] are the ones the clients apply. *)

From Stdlib Require Import QArith.
From S2P Require Import Prelude.
Open Scope Z_scope.

Class Comparator {A} (c : A -> A -> Z) : Prop := {
  cmp_opp : forall a b, Z.sgn (c b a) = - Z.sgn (c a b);
  cmp_trans : forall a b d, c a b <= 0 -> c b d <= 0 -> c a d <= 0
}.

Section facts.
Context {A : Type} (c : A -> A -> Z) `{!Comparator c}.

Lemma cmp_refl a : c a a = 0.
Proof using Type*. pose proof (cmp_opp (c:=c) a a). lia. Qed.

Lemma cmp_total a b : c a b <= 0 \/ c b a <= 0.
Proof using Type*. pose proof (cmp_opp (c:=c) a b). lia. Qed.

Lemma cmp_lt_trans a b d : c a b < 0 -> c b d <= 0 -> c a d < 0.
Proof using Type*.
  intros H1 H2. pose proof (cmp_opp (c:=c) a d) as Ho. pose proof (cmp_opp (c:=c) a b).
  destruct (Z.lt_ge_cases (c a d) 0); [done|].
  assert (c b a <= 0) by (apply (cmp_trans b d a); lia). lia.
Qed.

Lemma cmp_le_lt_trans a b d : c a b <= 0 -> c b d < 0 -> c a d < 0.
Proof using Type*.
  intros H1 H2. pose proof (cmp_opp (c:=c) a d) as Ho. pose proof (cmp_opp (c:=c) b d).
  destruct (Z.lt_ge_cases (c a d) 0); [done|].
  assert (c d b <= 0) by (apply (cmp_trans d a b); lia). lia.
Qed.

Lemma cmp_eq_trans a b d : c a b = 0 -> c b d = 0 -> c a d = 0.
Proof using Type*.
  intros H1 H2. pose proof (cmp_opp (c:=c) a b). pose proof (cmp_opp (c:=c) b d).
  pose proof (cmp_opp (c:=c) a d).
  assert (c a d <= 0) by (apply (cmp_trans a b d); lia).
  assert (c d a <= 0) by (apply (cmp_trans d b a); lia). lia.
Qed.
End facts.

(** * The comparator shapes of the sources *)

(** [f(a) - f(b)] *)
Definition cmp_asc {A} (f : A -> Z) (a b : A) : Z := f a - f b.

(** [f(b) - f(a)] *)
Definition cmp_desc {A} (f : A -> Z) (a b : A) : Z := f b - f a.

(** [c1(a, b) || c2(a, b)] *)
Definition cmp_then {A} (c1 c2 : A -> A -> Z) (a b : A) : Z :=
  if c1 a b =? 0 then c2 a b else c1 a b.

(** [a < b ? -1 : a > b ? 1 : 0] on strings: code-unit order. *)
Fixpoint str_cmp (a b : string) : Z :=
  match a, b with
  | EmptyString, EmptyString => 0
  | EmptyString, _ => -1
  | _, EmptyString => 1
  | String x a', String y b' =>
      if (code x <? code y)%N then -1 else if (code y <? code x)%N then 1 else str_cmp a' b'
  end.

Definition cmp_on {A B} (f : A -> B) (c : B -> B -> Z) (a b : A) : Z := c (f a) (f b).

(** [f(a) === f(b) ? 0 : f(a) ? -1 : 1] *)
Definition cmp_true_first {A} (f : A -> bool) (a b : A) : Z :=
  if Bool.eqb (f a) (f b) then 0 else if f a then -1 else 1.

(** [(f(a) ?? Infinity) - (f(b) ?? Infinity)]; [Infinity - Infinity] is [NaN],
    which [||] and [sort] read as zero. *)
Definition cmp_opt_inf {A} (f : A -> option Z) (a b : A) : Z :=
  match f a, f b with
  | Some x, Some y => x - y
  | Some _, None => -1
  | None, Some _ => 1
  | None, None => 0
  end.

#[export] Instance cmp_asc_comparator {A} (f : A -> Z) : Comparator (cmp_asc f).
Proof. split; unfold cmp_asc; lia. Qed.

#[export] Instance cmp_desc_comparator {A} (f : A -> Z) : Comparator (cmp_desc f).
Proof. split; unfold cmp_desc; lia. Qed.

#[export] Instance cmp_on_comparator {A B} (f : A -> B) c :
  Comparator c -> Comparator (cmp_on f c).
Proof.
  intros Hc. split; unfold cmp_on; intros.
  - apply cmp_opp.
  - by eapply cmp_trans.
Qed.

#[export] Instance cmp_true_first_comparator {A} (f : A -> bool) : Comparator (cmp_true_first f).
Proof.
  split; unfold cmp_true_first; intros.
  - destruct (f a), (f b); done.
  - destruct (f a), (f b), (f d); done.
Qed.

#[export] Instance cmp_opt_inf_comparator {A} (f : A -> option Z) : Comparator (cmp_opt_inf f).
Proof.
  split; unfold cmp_opt_inf; intros.
  - destruct (f a), (f b); simpl; lia.
  - destruct (f a), (f b), (f d); simpl in *; lia.
Qed.

#[export] Instance cmp_then_comparator {A} (c1 c2 : A -> A -> Z) :
  Comparator c1 -> Comparator c2 -> Comparator (cmp_then c1 c2).
Proof.
  intros H1 H2. split.
  - intros a b. unfold cmp_then.
    pose proof (cmp_opp (c:=c1) a b). pose proof (cmp_opp (c:=c2) a b).
    destruct (Z.eqb_spec (c1 a b) 0), (Z.eqb_spec (c1 b a) 0); lia.
  - intros a b d. unfold cmp_then.
    destruct (Z.eqb_spec (c1 a b) 0) as [E1|E1], (Z.eqb_spec (c1 b d) 0) as [E2|E2]; intros L1 L2.
    + rewrite (cmp_eq_trans c1 a b d) by done. simpl. by eapply cmp_trans.
    + assert (c1 a d < 0) by (eapply (cmp_le_lt_trans c1 a b d); lia).
      destruct (Z.eqb_spec (c1 a d) 0); lia.
    + assert (c1 a d < 0) by (eapply (cmp_lt_trans c1 a b d); lia).
      destruct (Z.eqb_spec (c1 a d) 0); lia.
    + assert (c1 a d < 0) by (eapply (cmp_lt_trans c1 a b d); lia).
      destruct (Z.eqb_spec (c1 a d) 0); lia.
Qed.

(** Numbers that are not integers are rationals. *)
Definition q_cmp (a b : Q) : Z :=
  match Qcompare a b with Lt => -1 | Eq => 0 | Gt => 1 end.

#[export] Instance q_cmp_comparator : Comparator q_cmp.
Proof.
  split.
  - intros a b. unfold q_cmp. rewrite <- (Qcompare_antisym a b). by destruct (Qcompare a b).
  - intros a b d. unfold q_cmp.
    destruct (Qcompare_spec a b) as [H1|H1|H1], (Qcompare_spec b d) as [H2|H2|H2],
      (Qcompare_spec a d) as [H3|H3|H3]; try lia; exfalso.
    + rewrite H1, H2 in H3. by apply Qlt_irrefl in H3.
    + rewrite H1 in H3. by apply (Qlt_irrefl b), (Qlt_trans _ d).
    + rewrite H2 in H1. by apply (Qlt_irrefl a), (Qlt_trans _ d).
    + apply (Qlt_irrefl a), (Qlt_trans _ b); [done|]. by apply (Qlt_trans _ d).
Qed.

(** [(f(a) ?? Infinity) - (f(b) ?? Infinity)] on rationals. *)
Definition cmp_opt_q {A} (f : A -> option Q) (a b : A) : Z :=
  match f a, f b with
  | Some x, Some y => q_cmp x y
  | Some _, None => -1
  | None, Some _ => 1
  | None, None => 0
  end.

#[export] Instance cmp_opt_q_comparator {A} (f : A -> option Q) : Comparator (cmp_opt_q f).
Proof.
  split; unfold cmp_opt_q; intros.
  - destruct (f a), (f b); simpl; try lia. apply (cmp_opp (c:=q_cmp)).
  - destruct (f a), (f b), (f d); simpl in *; try lia. by eapply (cmp_trans (c:=q_cmp)).
Qed.

Lemma code_inj x y : code x = code y -> x = y.
Proof.
  unfold code. intros H. rewrite <- (ascii_N_embedding x), <- (ascii_N_embedding y). congruence.
Qed.

Lemma str_cmp_eq a b : str_cmp a b = 0 <-> a = b.
Proof.
  revert b. induction a as [|x a IH]; intros [|y b]; simpl; split; try done.
  - destruct (N.ltb_spec (code x) (code y)); [done|].
    destruct (N.ltb_spec (code y) (code x)); [done|].
    intros H1%IH. f_equal; [apply code_inj; lia|done].
  - intros [= -> ->]. rewrite N.ltb_irrefl. by apply IH.
Qed.

#[export] Instance str_cmp_comparator : Comparator str_cmp.
Proof.
  split.
  - induction a as [|x a IH]; intros [|y b]; simpl; try done.
    destruct (N.ltb_spec (code x) (code y)), (N.ltb_spec (code y) (code x)); try done; lia.
  - induction a as [|x a IH]; intros [|y b] [|z d]; simpl; try done; try lia.
    destruct (N.ltb_spec (code x) (code y)), (N.ltb_spec (code y) (code x)),
      (N.ltb_spec (code y) (code z)), (N.ltb_spec (code z) (code y)),
      (N.ltb_spec (code x) (code z)), (N.ltb_spec (code z) (code x)); try lia; eauto.
Qed.

(** * The sort *)

Fixpoint insert_by {A} (c : A -> A -> Z) (x : A) (l : list A) : list A :=
  match l with
  | [] => [x]
  | y :: l' => if 0 <? c x y then y :: insert_by c x l' else x :: y :: l'
  end.

(** [l.sort(c)]: stable, so an element stays before the later ones it ties with. *)
Definition js_sort {A} (c : A -> A -> Z) (l : list A) : list A := foldr (insert_by c) [] l.

Section sort.
Context {A : Type} (c : A -> A -> Z).

Lemma insert_by_perm x l : insert_by c x l ≡ₚ x :: l.
Proof.
  induction l as [|y l IH]; simpl; [done|].
  destruct (0 <? c x y); [|done]. rewrite IH. apply Permutation_swap.
Qed.

Lemma js_sort_perm l : js_sort c l ≡ₚ l.
Proof. induction l as [|x l IH]; simpl; [done|]. by rewrite insert_by_perm, IH. Qed.

Lemma js_sort_elem x l : x ∈ js_sort c l <-> x ∈ l.
Proof. by rewrite js_sort_perm. Qed.

Lemma js_sort_length l : length (js_sort c l) = length l.
Proof. by rewrite js_sort_perm. Qed.

Lemma js_sort_nil l : js_sort c l = [] <-> l = [].
Proof.
  split; [|by intros ->]. intros H. apply length_zero_iff_nil.
  by rewrite <- js_sort_length, H.
Qed.

(** The sort is stable: what ties, or is smaller, stays in front. *)
Lemma js_sort_stable x y l : before x y l -> c x y <= 0 -> before x y (js_sort c l).
Proof.
  intros Hb Hc. induction l as [|z l IH]; simpl; [by destruct Hb as ([] & ? & ? & ?)|].
  apply before_cons_inv in Hb as [[-> Hy]|Hb].
  - rewrite <- (js_sort_elem y l) in Hy. clear IH. induction (js_sort c l) as [|w m IHm]; simpl; [by apply not_elem_of_nil in Hy|].
    destruct (Z.ltb_spec 0 (c x w)); [|by apply before_head]. apply elem_of_cons in Hy as [->|Hy]; [lia|].
    by apply before_cons, IHm.
  - specialize (IH Hb). induction (js_sort c l) as [|w m IHm]; simpl; [by destruct IH as ([] & ? & ? & ?)|].
    destruct (0 <? c z w); [|by apply before_cons]. apply before_cons_inv in IH as [[-> Hy]|IH].
    + apply before_head. rewrite insert_by_perm. by right.
    + by apply before_cons, IHm.
Qed.

(** A comparator that decides by a rank first sorts by the rank, consistent or not. *)
Lemma js_sort_ranked (f : A -> Z) l :
  (forall a b, 0 < c a b -> f b <= f a) -> (forall a b, c a b <= 0 -> f a <= f b) ->
  StronglySorted (fun a b => f a <= f b) (js_sort c l).
Proof.
  intros Hgt Hle. induction l as [|x l IH]; simpl; [constructor|].
  induction IH as [|y m Hs IH Hy]; simpl; [repeat constructor|]. destruct (Z.ltb_spec 0 (c x y)) as [H|H].
  - constructor; [done|]. rewrite insert_by_perm. constructor; [by apply Hgt|done].
  - apply Hle in H. constructor; [by constructor|]. constructor; [done|].
    eapply Forall_impl; [exact Hy|]. simpl. intros z Hz. lia.
Qed.

Context `{!Comparator c}.

Definition le_by (a b : A) : Prop := c a b <= 0.

Lemma insert_by_sorted x l : StronglySorted le_by l -> StronglySorted le_by (insert_by c x l).
Proof using Type*.
  induction 1 as [|y l Hs IH Hy]; simpl; [repeat constructor|].
  destruct (Z.ltb_spec 0 (c x y)) as [Hlt|Hge].
  - constructor; [done|]. rewrite insert_by_perm. constructor; [|done].
    unfold le_by. pose proof (cmp_opp (c:=c) x y). lia.
  - constructor; [by constructor|]. constructor; [done|].
    eapply Forall_impl; [exact Hy|]. intros z Hz. unfold le_by in *.
    by apply (cmp_trans x y z).
Qed.

Lemma js_sort_sorted l : StronglySorted le_by (js_sort c l).
Proof using Type*.
  induction l as [|x l IH]; simpl; [constructor|by apply insert_by_sorted].
Qed.

Lemma js_sort_id l : StronglySorted le_by l -> js_sort c l = l.
Proof.
  induction 1 as [|x l Hs IH Hx]; simpl; [done|]. rewrite IH.
  destruct l as [|y l]; simpl; [done|].
  apply Forall_cons_1 in Hx as [Hxy _]. unfold le_by in Hxy.
  destruct (Z.ltb_spec 0 (c x y)); [lia|done].
Qed.

(** The head is a minimum, and nothing that precedes it in [l] ties with it. *)
Lemma js_sort_head l x r : js_sort c l = x :: r ->
  x ∈ l /\ (forall y, y ∈ l -> c x y <= 0) /\
  (exists l1 l2, l = l1 ++ x :: l2 /\ forall y, y ∈ l1 -> c x y < 0).
Proof using Type*.
  revert x r. induction l as [|z l IH]; simpl; intros x r H; [done|].
  destruct (js_sort c l) as [|y s] eqn:E; simpl in H.
  - apply js_sort_nil in E as ->. injection H as <- <-.
    split; [by left|]. split.
    + intros y Hy%list_elem_of_singleton. subst. rewrite cmp_refl; done.
    + exists [], []. split; [done|]. intros y Hy. by apply not_elem_of_nil in Hy.
  - destruct (IH y s eq_refl) as (Hy & Hmin & l1 & l2 & -> & Hfirst).
    destruct (Z.ltb_spec 0 (c z y)) as [Hlt|Hge]; injection H as <- <-.
    + pose proof (cmp_opp (c:=c) z y).
      split; [by right|]. split.
      * intros w [->|Hw]%elem_of_cons; [lia|auto].
      * exists (z :: l1), l2. split; [done|].
        intros w [->|Hw]%elem_of_cons; [lia|auto].
    + split; [by left|]. split.
      * intros w [->|Hw]%elem_of_cons; [rewrite cmp_refl; done|].
        apply (cmp_trans z y w); auto.
      * exists [], (l1 ++ y :: l2). split; [done|].
        intros w Hw. by apply not_elem_of_nil in Hw.
Qed.

Lemma sorted_unique l1 l2 :
  (forall a b, a ∈ l1 -> b ∈ l1 -> c a b = 0 -> a = b) ->
  StronglySorted le_by l1 -> StronglySorted le_by l2 -> l1 ≡ₚ l2 -> l1 = l2.
Proof using Type*.
  intros Heq Hs1. revert l2 Heq. induction Hs1 as [|x l1 Hs1 IH Hx]; intros l2 Heq Hs2 Hp.
  - apply Permutation_nil_l in Hp. done.
  - destruct Hs2 as [|y l2 Hs2 Hy]; [by apply Permutation_nil_r in Hp|].
    assert (x = y) as <-.
    { assert (Hyin : y ∈ x :: l1) by (rewrite Hp; left).
      assert (Hxin : x ∈ y :: l2) by (rewrite <- Hp; left).
      apply elem_of_cons in Hxin as [->|Hxin]; [done|].
      rewrite Forall_forall in Hx, Hy. specialize (Hy _ Hxin).
      apply elem_of_cons in Hyin as [->|Hyin]; [done|]. specialize (Hx _ Hyin).
      apply Heq; [by left|by right|]. unfold le_by in *.
      pose proof (cmp_opp (c:=c) x y). lia. }
    f_equal. apply IH; [|done|by apply Permutation_cons_inv in Hp].
    intros a b Ha Hb. apply Heq; by right.
Qed.

(** Inputs that are permutations of each other sort alike when only equal
    elements tie. *)
Lemma js_sort_canonical l1 l2 :
  (forall a b, a ∈ l1 -> b ∈ l1 -> c a b = 0 -> a = b) ->
  l1 ≡ₚ l2 -> js_sort c l1 = js_sort c l2.
Proof using Type*.
  intros Heq Hp. apply sorted_unique.
  - intros a b. rewrite !js_sort_elem. apply Heq.
  - apply js_sort_sorted.
  - apply js_sort_sorted.
  - by rewrite !js_sort_perm.
Qed.
End sort.
