(* ===== verification/Json.v ===== *)
(** JavaScript values as the sources read them from JSON and YAML documents.

    A JavaScript object used as a record of attributes is an association list
    read by [get]; [undefined] is [None].  A JSON number is identified by its
    canonical decimal rendering, which [String(n)] returns and on which [===]
    between numbers agrees. *)

From S2P Require Import Prelude.

Inductive value : Type :=
  | VNull
  | VBool (b : bool)
  | VNum (s : string)
  | VStr (s : string)
  | VArr (l : list value)
  | VObj (m : list (string * value)).

Abbreviation attrs := (list (string * value)).

Fixpoint get {A} (k : string) (m : list (string * A)) : option A :=
  match m with
  | [] => None
  | (k', v) :: m' => if String.eqb k k' then Some v else get k m'
  end.

Definition is_null (v : value) : bool := match v with VNull => true | _ => false end.

(** [String(v)] *)
Fixpoint to_string (v : value) : string :=
  match v with
  | VNull => "null"
  | VBool b => if b then "true" else "false"
  | VNum s => s
  | VStr s => s
  | VArr l =>
      join "," ((fix go (l : list value) : list string :=
        match l with
        | [] => []
        | x :: l' => (if is_null x then "" else to_string x) :: go l'
        end) l)
  | VObj _ => "[object Object]"
  end.

(** [a === v] for a property read [a] and a value [v] of another JSON
    document: arrays and objects are compared by identity, so they differ. *)
Definition strict_eq (a : option value) (v : value) : bool :=
  match a, v with
  | Some VNull, VNull => true
  | Some (VBool x), VBool y => Bool.eqb x y
  | Some (VNum x), VNum y => String.eqb x y
  | Some (VStr x), VStr y => String.eqb x y
  | _, _ => false
  end.

(** Depth of a document: [explain] goes one object down at a time. *)
Fixpoint depth_of (v : value) : nat :=
  match v with
  | VObj m => S ((fix go (m : list (string * value)) : nat :=
                    match m with [] => O | (_, x) :: m' => Nat.max (depth_of x) (go m') end) m)
  | _ => O
  end.

Lemma depth_get k m v : get k m = Some v -> (S (depth_of v) <= depth_of (VObj m))%nat.
Proof.
  induction m as [|[k' x] m IH]; simpl; [done|].
  destruct (String.eqb k k'); [intros [= <-]; lia|]. intros H%IH. simpl in H. lia.
Qed.

(** [JSON.stringify(a) === JSON.stringify(b)] on JSON documents: the same value,
    with its keys in the same order. *)
Fixpoint value_eqb (a b : value) : bool :=
  match a, b with
  | VNull, VNull => true
  | VBool x, VBool y => Bool.eqb x y
  | VNum x, VNum y => String.eqb x y
  | VStr x, VStr y => String.eqb x y
  | VArr l, VArr l' =>
      (fix go (l l' : list value) : bool :=
        match l, l' with
        | [], [] => true
        | x :: l, y :: l' => value_eqb x y && go l l'
        | _, _ => false
        end) l l'
  | VObj m, VObj m' =>
      (fix go (m m' : list (string * value)) : bool :=
        match m, m' with
        | [], [] => true
        | (k, x) :: m, (k', y) :: m' => String.eqb k k' && value_eqb x y && go m m'
        | _, _ => false
        end) m m'
  | _, _ => false
  end.

Fixpoint value_eqb_eq (a b : value) {struct a} : value_eqb a b = true <-> a = b.
Proof.
  destruct a as [|x|x|x|l|m], b as [|y|y|y|l'|m']; simpl; try (split; congruence).
  - rewrite eqb_true_iff. split; congruence.
  - rewrite String.eqb_eq. split; congruence.
  - rewrite String.eqb_eq. split; congruence.
  - revert l'. induction l as [|x l IH]; intros [|y l']; try (split; congruence).
    rewrite andb_true_iff, (value_eqb_eq x y), IH. split; [intros [-> [= ->]]; done|intros [= -> ->]; done].
  - revert m'. induction m as [|[k x] m IH]; intros [|[k' y] m']; try (split; congruence).
    rewrite !andb_true_iff, String.eqb_eq, (value_eqb_eq x y), IH.
    split; [intros [[-> ->] [= ->]]; done|intros [= -> -> ->]; done].
Qed.

#[export] Instance value_eq_dec : EqDecision value.
Proof. intros a b. refine (cast_if (decide (value_eqb a b = true))); by rewrite <- value_eqb_eq. Defined.

(** Induction on documents. *)
Section value_ind.
Context (P : value -> Prop) (Hnull : P VNull) (Hbool : forall b, P (VBool b)) (Hnum : forall s, P (VNum s))
  (Hstr : forall s, P (VStr s)) (Harr : forall l, Forall P l -> P (VArr l))
  (Hobj : forall m, Forall (fun kv => P (snd kv)) m -> P (VObj m)).

Fixpoint doc_ind (v : value) : P v :=
  match v with
  | VNull => Hnull
  | VBool b => Hbool b
  | VNum s => Hnum s
  | VStr s => Hstr s
  | VArr l => Harr l ((fix go (l : list value) : Forall P l :=
      match l with [] => Forall_nil_2 _ | x :: l' => Forall_cons_2 _ _ _ (doc_ind x) (go l') end) l)
  | VObj m => Hobj m ((fix go (m : list (string * value)) : Forall (fun kv => P (snd kv)) m :=
      match m with [] => Forall_nil_2 _ | kv :: m' => Forall_cons_2 _ _ _ (doc_ind (snd kv)) (go m') end) m)
  end.
End value_ind.

(** The JSON of an integer. *)
Definition vint (z : Z) : value := VNum (pretty z).

(** * Reading the entries of an object *)

Lemma get_obj_set {A} k k' (v : A) m : get k (obj_set k' v m) = if String.eqb k k' then Some v else get k m.
Proof.
  induction m as [|[a w] m IH]; simpl; [done|].
  destruct (String.eqb_spec k' a) as [->|Hne]; simpl.
  - by destruct (String.eqb_spec k a).
  - rewrite IH. destruct (String.eqb_spec k a) as [->|]; [|done]. by destruct (String.eqb_spec a k'); subst.
Qed.

Lemma get_elem {A} k (m : list (string * A)) v : get k m = Some v -> (k, v) ∈ m.
Proof.
  induction m as [|[k' w] m IH]; simpl; [done|]. destruct (String.eqb_spec k k') as [->|Hk]; [intros [= ->]; left|].
  intros H. right. by apply IH.
Qed.

Lemma get_keys {A} k (m : list (string * A)) : is_Some (get k m) <-> k ∈ map fst m.
Proof.
  induction m as [|[k' w] m IH]; simpl; [split; [by intros [? ?]|by intros ?%not_elem_of_nil]|].
  rewrite elem_of_cons. destruct (String.eqb_spec k k') as [->|Hk]; [split; [by left|by eexists]|]. rewrite IH. tauto.
Qed.

Lemma get_unique {A} k (m : list (string * A)) v : NoDup (map fst m) -> (k, v) ∈ m -> get k m = Some v.
Proof.
  intros Hd Hin. destruct (get k m) as [w|] eqn:E.
  - apply get_elem in E. f_equal. cut ((k, w) = (k, v)); [by intros [= ->]|]. by apply (map_key_inj fst m).
  - assert (Hk : k ∈ map fst m) by (apply list_elem_of_fmap; by exists (k, v)).
    apply get_keys in Hk as [w Hw]. by rewrite E in Hw.
Qed.
