(* ===== verification/JsonText.v ===== *)
(** JSON texts: [JSON.stringify] and [JSON.parse] on the documents of Json.v.

    [json_stringify] writes a document without spaces, as [JSON.stringify] does;
    [json_parse] reads the whole grammar, white space included.  A number is kept
    by its text, which is exact for the canonical texts that [JSON.stringify]
    writes; an escape of a code unit above 255 is not a character of the model's
    strings and reads as unreadable.  An object lists its properties in
    JavaScript's own order: array indices first, ascending, then the other keys as
    they were added.  The parser takes fuel, twice the length of the text. *)

From S2P Require Import Prelude Comparators Json.

(** * Property order *)

(** A canonical array index, below 2^32 - 1. *)
Definition array_index (k : string) : option Z :=
  if all_digits k && (String.eqb k "0" || negb (next_is (Ascii.eqb "0") k)) && (decimal k <? 2 ^ 32 - 1)
  then Some (decimal k) else None.

Definition is_index (k : string) : bool := bool_decide (is_Some (array_index k)).
Definition index_of (k : string) : Z := default 0 (array_index k).

(** The properties of an object in the order [Object.keys] lists them. *)
Definition own_order {A} (m : list (string * A)) : list (string * A) :=
  js_sort (cmp_asc (fun kv => index_of (fst kv))) (List.filter (fun kv => is_index (fst kv)) m) ++
  List.filter (fun kv => negb (is_index (fst kv))) m.

(** The object built by defining the properties one after the other. *)
Definition from_entries {A} (m : list (string * A)) : list (string * A) :=
  own_order (foldl (fun o kv => obj_set (fst kv) (snd kv) o) [] m).

(** * Writing *)

Definition bs : string := str1 (ascii_of_nat 92).
Definition dquote : ascii := ascii_of_nat 34.
Definition backslash : ascii := ascii_of_nat 92.

(** A character of a JSON string: the two-letter escapes, [\u00xx] for the other
    control characters, everything else as it is. *)
Definition json_char (c : ascii) : string :=
  let n := Z.of_N (code c) in
  if n =? 34 then bs +:+ dq
  else if n =? 92 then bs +:+ bs
  else if n =? 8 then bs +:+ "b"
  else if n =? 12 then bs +:+ "f"
  else if n =? 10 then bs +:+ "n"
  else if n =? 13 then bs +:+ "r"
  else if n =? 9 then bs +:+ "t"
  else if n <? 32 then bs +:+ "u00" +:+ hex_digits 2 n
  else str1 c.

Fixpoint json_chars (s : string) : string :=
  match s with EmptyString => EmptyString | String c s' => json_char c +:+ json_chars s' end.

Definition json_string (s : string) : string := dq +:+ json_chars s +:+ dq.

Fixpoint json_stringify (v : value) : string :=
  match v with
  | VNull => "null"
  | VBool b => if b then "true" else "false"
  | VNum s => s
  | VStr s => json_string s
  | VArr l => "[" +:+ join "," (map json_stringify l) +:+ "]"
  | VObj m => "{" +:+ join "," (map (fun kv => json_string (fst kv) +:+ ":" +:+ json_stringify (snd kv)) m) +:+ "}"
  end.

(** * Reading *)

Definition is_ws (c : ascii) : bool := let n := code c in ((n =? 32) || (n =? 9) || (n =? 10) || (n =? 13))%N.

Definition is_num_char (c : ascii) : bool :=
  is_digit c || mem (str1 c) ["-"; "+"; "."; "e"; "E"].

(** The exponent, the fraction and the integer part of a number: what is left
    after them. *)
Definition eat_digits (s : string) : option string :=
  if next_is is_digit s then Some (drop_while is_digit s) else None.

Definition eat_exp (s : string) : option string :=
  match s with
  | String c r =>
      if mem (str1 c) ["e"; "E"] then
        match r with
        | String d r' => if mem (str1 d) ["+"; "-"] then eat_digits r' else eat_digits r
        | _ => None
        end
      else Some s
  | EmptyString => Some s
  end.

Definition eat_frac (s : string) : option string :=
  match s with
  | String c r => if Ascii.eqb c "." then eat_digits r else Some s
  | EmptyString => Some s
  end.

Definition eat_int (s : string) : option string :=
  match s with
  | String c r => if Ascii.eqb c "0" then Some r else eat_digits s
  | EmptyString => None
  end.

(** A JSON number, the whole of [s]. *)
Definition json_number (s : string) : bool :=
  let s := match s with String c r => if Ascii.eqb c "-" then r else s | EmptyString => s end in
  match eat_int s ≫= (fun r => eat_frac r ≫= eat_exp) with Some EmptyString => true | _ => false end.

Definition unescape (c : ascii) : option ascii :=
  let n := Z.of_N (code c) in
  if (n =? 34) || (n =? 92) || (n =? 47) then Some c
  else if n =? 98 then Some (ascii_of_nat 8)
  else if n =? 102 then Some (ascii_of_nat 12)
  else if n =? 110 then Some (ascii_of_nat 10)
  else if n =? 114 then Some (ascii_of_nat 13)
  else if n =? 116 then Some (ascii_of_nat 9)
  else None.

Definition hex_val (c : ascii) : option Z :=
  if is_digit c then Some (Z.of_N (code c) - 48)
  else let l := lower_char c in if is_hex_lower l then Some (hex_value l) else None.

(** The code unit of four hexadecimal digits, when it is below 256. *)
Definition unicode_escape (a b c d : ascii) : option ascii :=
  match hex_val a, hex_val b, hex_val c, hex_val d with
  | Some a, Some b, Some c, Some d =>
      let n := ((a * 16 + b) * 16 + c) * 16 + d in
      if n <? 256 then Some (ascii_of_nat (Z.to_nat n)) else None
  | _, _, _, _ => None
  end.

(** The characters up to the closing quote, and what follows it. *)
Fixpoint parse_chars (s : string) : option (string * string) :=
  let push (c : ascii) (o : option (string * string)) := (fun p => (String c (fst p), snd p)) <$> o in
  match s with
  | EmptyString => None
  | String c r =>
      if Ascii.eqb c dquote then Some ("", r)
      else if Ascii.eqb c backslash then
        match r with
        | EmptyString => None
        | String e r' =>
            if Ascii.eqb e "u" then
              match r' with
              | String h1 (String h2 (String h3 (String h4 r4))) =>
                  match unicode_escape h1 h2 h3 h4 with Some x => push x (parse_chars r4) | None => None end
              | _ => None
              end
            else match unescape e with Some x => push x (parse_chars r') | None => None end
        end
      else if (code c <? 32)%N then None
      else push c (parse_chars r)
  end.

Definition skip_ws (s : string) : string := drop_while is_ws s.

(** After a value of a list: the rest after a comma, or after the closing
    bracket. *)
Definition after_item (close : ascii) (s : string) : option (bool * string) :=
  match skip_ws s with
  | String c r => if Ascii.eqb c "," then Some (true, r) else if Ascii.eqb c close then Some (false, r) else None
  | EmptyString => None
  end.

Definition parse_key (s : string) : option (string * string) :=
  match skip_ws s with
  | String c r =>
      if Ascii.eqb c dquote then
        match parse_chars r with
        | Some (k, r') => match skip_ws r' with
                          | String c' r'' => if Ascii.eqb c' ":" then Some (k, r'') else None
                          | EmptyString => None
                          end
        | None => None
        end
      else None
  | EmptyString => None
  end.

Definition parse_atom (s : string) : option (value * string) :=
  if startsWith "null" s then Some (VNull, sdrop 4 s)
  else if startsWith "true" s then Some (VBool true, sdrop 4 s)
  else if startsWith "false" s then Some (VBool false, sdrop 5 s)
  else let t := take_while is_num_char s in
       if json_number t then Some (VNum t, drop_while is_num_char s) else None.

Definition closes (close : ascii) (s : string) : option string :=
  match skip_ws s with String c r => if Ascii.eqb c close then Some r else None | EmptyString => None end.

Fixpoint parse_value (fuel : nat) (s : string) {struct fuel} : option (value * string) :=
  match fuel with
  | O => None
  | S n =>
      match skip_ws s with
      | EmptyString => None
      | String c r =>
          if Ascii.eqb c dquote then (fun p => (VStr (fst p), snd p)) <$> parse_chars r
          else if Ascii.eqb c "[" then
            match closes "]" r with
            | Some r' => Some (VArr [], r')
            | None => (fun p => (VArr (fst p), snd p)) <$> parse_elems n r
            end
          else if Ascii.eqb c "{" then
            match closes "}" r with
            | Some r' => Some (VObj [], r')
            | None => (fun p => (VObj (from_entries (fst p)), snd p)) <$> parse_members n r
            end
          else parse_atom (String c r)
      end
  end
with parse_elems (fuel : nat) (s : string) {struct fuel} : option (list value * string) :=
  match fuel with
  | O => None
  | S n =>
      match parse_value n s with
      | Some (v, r) =>
          match after_item "]" r with
          | Some (true, r') => (fun p => (v :: fst p, snd p)) <$> parse_elems n r'
          | Some (false, r') => Some ([v], r')
          | None => None
          end
      | None => None
      end
  end
with parse_members (fuel : nat) (s : string) {struct fuel} : option (list (string * value) * string) :=
  match fuel with
  | O => None
  | S n =>
      match parse_key s with
      | Some (k, r0) =>
          match parse_value n r0 with
          | Some (v, r) =>
              match after_item "}" r with
              | Some (true, r') => (fun p => ((k, v) :: fst p, snd p)) <$> parse_members n r'
              | Some (false, r') => Some ([(k, v)], r')
              | None => None
              end
          | None => None
          end
      | None => None
      end
  end.

(** [JSON.parse(s)]; [None] where it throws. *)
Definition json_parse (s : string) : option value :=
  match parse_value (2 * String.length s) s with
  | Some (v, r) => if String.eqb (skip_ws r) "" then Some v else None
  | None => None
  end.

Example json_text : json_stringify (VObj [("a", VArr [VNum "1"; VNull; VStr "x y"]); ("b", VObj [])]) =
  "{" +:+ quoted "a" +:+ ":[1,null," +:+ quoted "x y" +:+ "]," +:+ quoted "b" +:+ ":{}}".
Proof. reflexivity. Qed.

Example json_read :
  json_parse (" {" +:+ quoted "b" +:+ " : -1.5e+3 ," +:+ quoted "10" +:+ ":[ true ]," +:+ quoted "9" +:+ ":" +:+ dq +:+ bs +:+ "u0041" +:+ bs +:+ "n" +:+ dq +:+ "} ")
  = Some (VObj [("9", VStr (String "A" (str1 (ascii_of_nat 10)))); ("10", VArr [VBool true]); ("b", VNum "-1.5e+3")]).
Proof. vm_compute. reflexivity. Qed.

(** * Documents *)

(** Numbers are JSON numbers and no object repeats a key. *)
Fixpoint wf_doc (v : value) : bool :=
  match v with
  | VNull | VBool _ | VStr _ => true
  | VNum s => all_chars is_num_char s && json_number s
  | VArr l => forallb wf_doc l
  | VObj m => bool_decide (NoDup (map fst m)) && forallb (fun kv => wf_doc (snd kv)) m
  end.

(** Every object lists its properties in their own order, as a JavaScript object
    always does. *)
Fixpoint in_order (v : value) : bool :=
  match v with
  | VArr l => forallb in_order l
  | VObj m => bool_decide (own_order m = m) && forallb (fun kv => in_order (snd kv)) m
  | _ => true
  end.

Lemma obj_set_fresh {A} k (v : A) m : k ∉ map fst m -> obj_set k v m = m ++ [(k, v)].
Proof.
  induction m as [|[k' w] m IH]; simpl; [done|]. intros [Hk Hm]%not_elem_of_cons.
  apply String.eqb_neq in Hk as ->. by rewrite IH.
Qed.

Lemma obj_set_all {A} (m acc : list (string * A)) : NoDup (map fst (acc ++ m)) ->
  foldl (fun o kv => obj_set (fst kv) (snd kv) o) acc m = acc ++ m.
Proof.
  revert acc. induction m as [|[k v] m IH]; intros acc; simpl; [by rewrite app_nil_r|]. intros Hd.
  assert (Hk : k ∉ map fst acc).
  { rewrite map_app in Hd. apply NoDup_app in Hd as (_ & Hd & _). intros Hin. apply (Hd _ Hin). left. }
  rewrite obj_set_fresh by done. rewrite IH; by rewrite <- app_assoc.
Qed.

Lemma from_entries_id {A} (m : list (string * A)) : NoDup (map fst m) -> own_order m = m -> from_entries m = m.
Proof. intros Hd Ho. unfold from_entries. by rewrite obj_set_all. Qed.

(** * Reading back what was written *)

Lemma parse_char c t :
  parse_chars (json_char c +:+ t) = (fun p => (String c (fst p), snd p)) <$> parse_chars t.
Proof. destruct c as [[] [] [] [] [] [] [] []]; reflexivity. Qed.

Lemma parse_chars_ok s r : parse_chars (json_chars s +:+ String dquote r) = Some (s, r).
Proof.
  induction s as [|c s IH]; [reflexivity|]. cbn [json_chars]. by rewrite string_app_assoc, parse_char, IH.
Qed.

(** How a written value begins. *)
Definition opens (c : ascii) : bool := negb (is_ws c) && negb (Ascii.eqb c "]") && negb (Ascii.eqb c "}").

Lemma num_char_opens c : is_num_char c = true -> opens c = true /\ c <> dquote /\ c <> "["%char /\ c <> "{"%char
  /\ c <> "n"%char /\ c <> "t"%char /\ c <> "f"%char.
Proof. destruct c as [[] [] [] [] [] [] [] []]; cbn; intros H; try discriminate H; done. Qed.

Lemma wf_number s : wf_doc (VNum s) = true -> all_chars is_num_char s = true /\ json_number s = true /\
  exists c t, s = String c t /\ is_num_char c = true.
Proof.
  cbn [wf_doc]. intros [Ha Hn]%andb_true_iff. split_and!; [done|done|]. destruct s as [|c t]; [done|].
  exists c, t. split; [done|]. by apply andb_true_iff in Ha as [? _].
Qed.

Lemma stringify_opens v r : wf_doc v = true -> next_is opens (json_stringify v +:+ r) = true.
Proof.
  destruct v as [|[]|s|s|l|m]; intros Hw; try done.
  apply wf_number in Hw as (_ & _ & c & t & -> & Hc). by apply num_char_opens.
Qed.

Lemma opens_skip s : next_is opens s = true -> skip_ws s = s /\ closes "]" s = None /\ closes "}" s = None.
Proof.
  destruct s as [|c s]; [done|]. unfold opens. cbn [next_is]. intros H. b2p. unfold closes, skip_ws. cbn [drop_while].
  repeat match goal with H : _ = false |- _ => rewrite H; clear H end. done.
Qed.

Lemma parse_atom_number s r : wf_doc (VNum s) = true -> next_is is_num_char r = false ->
  parse_atom (s +:+ r) = Some (VNum s, r).
Proof.
  intros Hw Hr. apply wf_number in Hw as (Ha & Hn & c & t & E & Hc). unfold parse_atom.
  destruct (take_while_app is_num_char s r Ha Hr) as [-> ->]. rewrite Hn.
  pose proof (num_char_opens c Hc) as (_ & _ & _ & _ & Hcn & Hct & Hcf). subst s. cbn [startsWith String.append].
  apply not_eq_sym, Ascii.eqb_neq in Hcn, Hct, Hcf. by rewrite Hcn, Hct, Hcf.
Qed.

Definition reads_back (v : value) : Prop := forall n r,
  (2 * String.length (json_stringify v) <= n)%nat -> next_is is_num_char r = false ->
  parse_value n (json_stringify v +:+ r) = Some (v, r).

Lemma json_string_app s r : json_string s +:+ r = String dquote (json_chars s +:+ String dquote r).
Proof. unfold json_string. by rewrite !string_app_assoc. Qed.

Lemma parse_key_ok k r : parse_key (json_string k +:+ String ":" r) = Some (k, r).
Proof.
  rewrite json_string_app. unfold parse_key, skip_ws. cbn [drop_while]. change (is_ws dquote) with false. cbv iota.
  rewrite Ascii.eqb_refl, parse_chars_ok. reflexivity.
Qed.

Lemma join_cons sep x l : join sep (x :: l) = x +:+ match l with [] => "" | _ => sep +:+ join sep l end.
Proof. destruct l; simpl; [by rewrite string_app_nil_r|done]. Qed.

Lemma parse_elems_ok l n r : Forall reads_back l -> l <> [] ->
  (2 * String.length (join "," (map json_stringify l)) + 1 <= n)%nat ->
  parse_elems n (join "," (map json_stringify l) +:+ String "]" r) = Some (l, r).
Proof.
  intros Hl. revert n. induction Hl as [|x l Hx Hl IH]; intros n Hne Hn; [done|]. destruct n as [|n]; [lia|].
  cbn [map] in *. rewrite join_cons in *. rewrite string_length_app in Hn. rewrite string_app_assoc. cbn [parse_elems].
  destruct l as [|y l].
  - simpl. rewrite Hx by (done || lia). done.
  - change (map json_stringify (y :: l)) with (json_stringify y :: map json_stringify l) in *. cbv iota in *.
    rewrite Hx by (done || lia). cbn [String.append]. unfold after_item, skip_ws. cbn [drop_while]. change (is_ws ",") with false.
    cbv iota. rewrite Ascii.eqb_refl. cbn [String.append String.length] in Hn. by rewrite IH by (done || lia).
Qed.

Definition member (kv : string * value) : string := json_string (fst kv) +:+ ":" +:+ json_stringify (snd kv).

Lemma parse_members_ok m n r : Forall (fun kv => reads_back (snd kv)) m -> m <> [] ->
  (2 * String.length (join "," (map member m)) + 1 <= n)%nat ->
  parse_members n (join "," (map member m) +:+ String "}" r) = Some (m, r).
Proof.
  intros Hl. revert n. induction Hl as [|[k v] l Hx Hl IH]; intros n Hne Hn; [done|]. destruct n as [|n]; [lia|].
  cbn [map] in *. rewrite join_cons in *. unfold member at 1. unfold member at 1 in Hn. cbn [fst snd] in *.
  rewrite !string_length_app in Hn. rewrite !string_app_assoc. cbn [parse_members String.append]. rewrite parse_key_ok.
  cbn [String.length] in Hn. destruct l as [|y l].
  - simpl. rewrite Hx by (done || lia). done.
  - change (map member (y :: l)) with (member y :: map member l) in *. cbv iota in *.
    rewrite Hx by (done || lia). cbn [String.append]. unfold after_item, skip_ws. cbn [drop_while]. change (is_ws ",") with false.
    cbv iota. rewrite Ascii.eqb_refl. cbn [String.append String.length] in Hn. by rewrite IH by (done || lia).
Qed.

Lemma stringify_length v : wf_doc v = true -> (0 < String.length (json_stringify v))%nat.
Proof. intros Hw. pose proof (stringify_opens v "" Hw) as H. destruct (json_stringify v); [done|simpl; lia]. Qed.

Lemma parse_words r :
  parse_atom ("null" +:+ r) = Some (VNull, r) /\ parse_atom ("true" +:+ r) = Some (VBool true, r) /\
  parse_atom ("false" +:+ r) = Some (VBool false, r).
Proof.
  pose proof (sdrop_app "null" r) as H1. pose proof (sdrop_app "true" r) as H2. pose proof (sdrop_app "false" r) as H3.
  cbn [String.length] in H1, H2, H3. unfold parse_atom. rewrite H1, H2, H3. by split_and!.
Qed.

Lemma parse_value_ok v : wf_doc v = true -> in_order v = true -> reads_back v.
Proof.
  induction v as [|b|s|s|l IH|m IH] using doc_ind; intros Hw Ho n r Hn Hr;
    (destruct n as [|n]; [pose proof (stringify_length _ Hw); lia|]); cbn [parse_value].
  - change (parse_atom ("null" +:+ r) = Some (VNull, r)). apply parse_words.
  - destruct b; [change (parse_atom ("true" +:+ r) = Some (VBool true, r))|change (parse_atom ("false" +:+ r) = Some (VBool false, r))];
      apply parse_words.
  - pose proof (stringify_opens _ r Hw) as (-> & _ & _)%opens_skip. cbn [json_stringify].
    rewrite <- (parse_atom_number s r Hw Hr). apply wf_number in Hw as (_ & _ & c & t & -> & Hc).
    apply num_char_opens in Hc as (_ & H1 & H2 & H3 & _). cbn [String.append].
    apply Ascii.eqb_neq in H1, H2, H3. by rewrite H1, H2, H3.
  - cbn [json_stringify]. rewrite json_string_app. unfold skip_ws. cbn [drop_while]. change (is_ws dquote) with false. cbv iota.
    by rewrite Ascii.eqb_refl, parse_chars_ok.
  - cbn [wf_doc in_order] in *. cbn [json_stringify String.append String.length] in *. rewrite string_app_assoc.
    unfold skip_ws. cbn [drop_while]. change (is_ws "[") with false. cbv iota. change (Ascii.eqb "[" dquote) with false.
    rewrite Ascii.eqb_refl. cbv iota. destruct l as [|x l]; [reflexivity|].
    assert (Hc : next_is opens (join "," (map json_stringify (x :: l)) +:+ "]" +:+ r) = true).
    { cbn [map]. rewrite join_cons, string_app_assoc. apply stringify_opens. cbn [forallb] in Hw. by apply andb_true_iff in Hw as [? _]. }
    apply opens_skip in Hc as (_ & -> & _). rewrite string_length_app in Hn. cbn [String.length] in Hn. cbn [String.append].
    rewrite parse_elems_ok; [done| |done|lia]. rewrite Forall_forall in IH |- *. rewrite forallb_forall in Hw, Ho.
    intros y Hy. apply IH; [done| |]; [apply Hw|apply Ho]; by apply list_elem_of_In.
  - cbn [wf_doc in_order] in *. apply andb_true_iff in Hw as [Hd Hw], Ho as [Hm Ho]. b2p.
    cbn [json_stringify] in *. change (fun kv => json_string (fst kv) +:+ ":" +:+ json_stringify (snd kv)) with member in *.
    cbn [String.append String.length] in *. rewrite string_app_assoc.
    unfold skip_ws. cbn [drop_while]. change (is_ws "{") with false. cbv iota. change (Ascii.eqb "{" dquote) with false.
    change (Ascii.eqb "{" "[") with false. rewrite Ascii.eqb_refl. cbv iota. destruct m as [|x m]; [reflexivity|].
    rewrite string_length_app in Hn. cbn [String.length] in Hn.
    assert (Hc : closes "}" (join "," (map member (x :: m)) +:+ "}" +:+ r) = None).
    { cbn [map]. rewrite join_cons. unfold member. rewrite !string_app_assoc, json_string_app. reflexivity. }
    rewrite Hc. cbn [String.append]. rewrite parse_members_ok; [|..|done|lia].
    + cbn [fmap option_fmap option_map fst snd]. by rewrite from_entries_id.
    + rewrite Forall_forall in IH |- *. rewrite forallb_forall in Hw, Ho.
      intros y Hy. apply IH; [done| |]; [apply Hw|apply Ho]; by apply list_elem_of_In.
Qed.

Lemma json_parse_stringify v : wf_doc v = true -> in_order v = true -> json_parse (json_stringify v) = Some v.
Proof.
  intros Hw Ho. unfold json_parse. pose proof (parse_value_ok v Hw Ho _ "" (le_n _) eq_refl) as H.
  rewrite string_app_nil_r in H. by rewrite H.
Qed.

(** * The text with sorted keys (swarm-kv.ts) *)

(** What the replacer of [stableJson] makes of a document. *)
Fixpoint stable (v : value) : value :=
  match v with
  | VArr l => VArr (map stable l)
  | VObj m => VObj (from_entries (js_sort (cmp_on fst str_cmp) (map (fun kv => (fst kv, stable (snd kv))) m)))
  | _ => v
  end.

Definition stableJson (v : value) : string := json_stringify (stable v).

Lemma filter_split {A} (f : A -> bool) (l : list A) :
  List.filter f l ++ List.filter (fun x => negb (f x)) l ≡ₚ l.
Proof.
  induction l as [|x l IH]; simpl; [done|]. destruct (f x); simpl; [by rewrite IH|].
  rewrite <- Permutation_middle. by rewrite IH.
Qed.

Lemma own_order_perm {A} (m : list (string * A)) : own_order m ≡ₚ m.
Proof. unfold own_order. rewrite js_sort_perm. apply filter_split. Qed.

Lemma filter_all {A} (f : A -> bool) l : Forall (fun x => f x = true) l -> List.filter f l = l.
Proof. induction 1 as [|x l Hx _ IH]; simpl; [done|]. by rewrite Hx, IH. Qed.

Lemma own_order_idemp {A} (m : list (string * A)) : own_order (own_order m) = own_order m.
Proof.
  unfold own_order. set (f := fun kv : string * A => is_index (fst kv)). set (g := fun kv : string * A => negb (is_index (fst kv))).
  set (c := cmp_asc (fun kv : string * A => index_of (fst kv))). set (xs := List.filter f m). set (ys := List.filter g m).
  assert (Hx : Forall (fun x => f x = true) (js_sort c xs)).
  { apply Forall_forall. intros x Hx%js_sort_elem. by apply bfilter_elem in Hx as [_ ?]. }
  assert (Hy : Forall (fun x => g x = true) ys).
  { apply Forall_forall. intros x Hx'. by apply bfilter_elem in Hx' as [_ ?]. }
  rewrite !List.filter_app, (filter_all f _ Hx), (filter_all g ys Hy). rewrite Forall_forall in Hx, Hy.
  rewrite (proj2 (bfilter_nil g (js_sort c xs))) by (intros x Hin; unfold g; fold (f x); by rewrite Hx).
  rewrite (proj2 (bfilter_nil f ys)) by (intros x Hin; by apply negb_true_iff, Hy).
  rewrite app_nil_r. simpl. f_equal. apply js_sort_id, js_sort_sorted. typeclasses eauto.
Qed.

Lemma own_order_keys {A} (m : list (string * A)) : map fst (own_order m) ≡ₚ map fst m.
Proof. by rewrite own_order_perm. Qed.

Section entries.
Context {A : Type} (m : list (string * A)) (Hd : NoDup (map fst m)).

Lemma from_entries_own : from_entries m = own_order m.
Proof using Hd. unfold from_entries. by rewrite obj_set_all. Qed.

Lemma from_entries_perm : from_entries m ≡ₚ m.
Proof using Hd. rewrite from_entries_own. apply own_order_perm. Qed.
End entries.

Definition with_stable (m : attrs) : attrs := map (fun kv => (fst kv, stable (snd kv))) m.

Lemma with_stable_keys m : map fst (js_sort (cmp_on fst str_cmp) (with_stable m)) ≡ₚ map fst m.
Proof. rewrite js_sort_perm. unfold with_stable. by rewrite map_map. Qed.

Lemma stable_entries m : NoDup (map fst m) ->
  from_entries (js_sort (cmp_on fst str_cmp) (with_stable m)) = own_order (js_sort (cmp_on fst str_cmp) (with_stable m)) /\
  NoDup (map fst (js_sort (cmp_on fst str_cmp) (with_stable m))).
Proof.
  intros Hd. assert (Hs : NoDup (map fst (js_sort (cmp_on fst str_cmp) (with_stable m)))) by by rewrite with_stable_keys.
  by rewrite from_entries_own.
Qed.

Lemma forallb_perm {A} (f : A -> bool) l l' : l ≡ₚ l' -> forallb f l = forallb f l'.
Proof.
  induction 1 as [|x l l' _ IH|x y l|l l' l'' _ IH1 _ IH2]; simpl; [done|by rewrite IH| |congruence].
  by rewrite !andb_assoc, (andb_comm (f x)).
Qed.

Lemma forallb_map {A B} (f : A -> B) (g : B -> bool) l : forallb g (map f l) = forallb (fun x => g (f x)) l.
Proof. induction l as [|x l IH]; simpl; [done|]. by rewrite IH. Qed.

Lemma stable_ok v : wf_doc v = true -> wf_doc (stable v) = true /\ in_order (stable v) = true.
Proof.
  induction v as [|b|s|s|l IH|m IH] using doc_ind; cbn [stable wf_doc in_order]; try done.
  - rewrite !forallb_map, !forallb_forall. rewrite Forall_forall in IH.
    intros H; split; intros x Hx; apply IH; [by apply list_elem_of_In|by apply H|by apply list_elem_of_In|by apply H].
  - intros [Hd Hw]%andb_true_iff. b2p. fold (with_stable m). destruct (stable_entries m Hd) as [-> Hs].
    rewrite !andb_true_iff, !bool_decide_eq_true, own_order_idemp, own_order_keys.
    rewrite !(forallb_perm _ _ _ (own_order_perm _)), !(forallb_perm _ _ _ (js_sort_perm _ _)).
    rewrite forallb_forall in Hw. rewrite Forall_forall in IH.
    split_and!; [done| |done|]; unfold with_stable; rewrite forallb_map, forallb_forall; intros x Hx; apply IH;
      [by apply list_elem_of_In|by apply Hw|by apply list_elem_of_In|by apply Hw].
Qed.

Lemma parse_stableJson v : wf_doc v = true -> json_parse (stableJson v) = Some (stable v).
Proof. intros [Hw Ho]%stable_ok. by apply json_parse_stringify. Qed.

(** The same document, up to the order of the properties at every depth. *)
Inductive same_doc : value -> value -> Prop :=
  | same_refl v : same_doc v v
  | same_arr l l' : Forall2 same_doc l l' -> same_doc (VArr l) (VArr l')
  | same_obj m m1 m' : m ≡ₚ m1 -> Forall2 (fun a b => fst a = fst b /\ same_doc (snd a) (snd b)) m1 m' ->
      same_doc (VObj m) (VObj m').

Lemma Forall2_use {A B} (R Q : A -> B -> Prop) l k :
  Forall (fun x => forall y, R x y -> Q x y) l -> Forall2 R l k -> Forall2 Q l k.
Proof. intros Hl. induction 1 as [|x y l k Hxy _ IH]; constructor; apply Forall_cons in Hl as [??]; auto. Qed.

Lemma map_Forall2 {A B C} (f : A -> C) (g : B -> C) l k : Forall2 (fun x y => f x = g y) l k <-> map f l = map g k.
Proof.
  split; [induction 1; simpl; congruence|]. revert k. induction l as [|x l IH]; intros [|y k]; simpl; try done.
  intros [= ? ?]. constructor; auto.
Qed.

Lemma stable_perm m m1 : NoDup (map fst m) -> m ≡ₚ m1 ->
  js_sort (cmp_on fst str_cmp) (with_stable m) = js_sort (cmp_on fst str_cmp) (with_stable m1).
Proof.
  intros Hd Hp. apply js_sort_canonical; [typeclasses eauto| |unfold with_stable; by rewrite Hp].
  intros a b Ha Hb Hk%str_cmp_eq. assert (Hd' : NoDup (map fst (with_stable m))) by (unfold with_stable; by rewrite map_map).
  by apply (map_key_inj fst (with_stable m)).
Qed.

Lemma same_doc_stable v w : wf_doc v = true -> same_doc v w -> stable v = stable w.
Proof.
  revert w. induction v as [|b|s|s|l IH|m IH] using doc_ind; intros w Hw H;
    inversion H as [|? l' Hf|? m1 m' Hp Hf]; subst; try done; cbn [stable wf_doc] in *; f_equal.
  - apply map_Forall2. rewrite forallb_forall in Hw. eapply Forall2_use; [|exact Hf]. rewrite Forall_forall in IH |- *.
    intros x Hx y. apply IH; [done|]. by apply Hw, list_elem_of_In.
  - apply andb_true_iff in Hw as [Hd Hw]. b2p. f_equal. fold (with_stable m) (with_stable m'). rewrite (stable_perm m m1 Hd Hp).
    f_equal. apply map_Forall2. rewrite forallb_forall in Hw. eapply Forall2_use; [|exact Hf].
    rewrite Forall_forall in IH |- *. intros x Hx y [-> Hxy]. rewrite <- Hp in Hx. f_equal. apply IH; [done| |done]. by apply Hw, list_elem_of_In.
Qed.

Lemma stable_same_doc v w : wf_doc v = true -> wf_doc w = true -> stable v = stable w -> same_doc v w.
Proof.
  revert w. induction v as [|b|s|s|l IH|m IH] using doc_ind; intros [|b'|s'|s'|l'|m'] Hv Hw; cbn [stable wf_doc] in *; try done;
    try (intros _; by apply same_refl); try (intros [= ->]; by apply same_refl).
  - intros [= H%map_Forall2]. constructor. rewrite forallb_forall in Hv, Hw.
    apply Forall2_same_length_lookup_2; [by apply Forall2_length in H|]. intros i x y Hx Hy.
    rewrite Forall_forall in IH. apply IH.
    + by eapply list_elem_of_lookup_2.
    + eapply Hv, list_elem_of_In, list_elem_of_lookup_2, Hx.
    + eapply Hw, list_elem_of_In, list_elem_of_lookup_2, Hy.
    + eapply Forall2_lookup_lr in H; [|done|done]. done.
  - intros [= H]. fold (with_stable m) (with_stable m') in H. apply andb_true_iff in Hv as [Hd Hv], Hw as [Hd' Hw]. b2p.
    destruct (stable_entries m Hd) as [E _], (stable_entries m' Hd') as [E' _]. rewrite E, E' in H.
    assert (Hp : with_stable m' ≡ₚ with_stable m).
    { rewrite <- (js_sort_perm (cmp_on fst str_cmp) (with_stable m')), <- (own_order_perm (js_sort _ (with_stable m'))), <- H.
      by rewrite own_order_perm, js_sort_perm. }
    apply Permutation_map_inv in Hp as (m1 & Hm & Hp). symmetry in Hm. apply (same_obj m m1 m'); [done|].
    apply map_Forall2 in Hm. rewrite forallb_forall in Hv, Hw.
    apply Forall2_same_length_lookup_2; [by apply Forall2_length in Hm|]. intros i x y Hx Hy.
    eapply Forall2_lookup_lr in Hm; [|done|done]. injection Hm as Hk Hs. split; [done|]. rewrite Forall_forall in IH.
    assert (Hin : x ∈ m) by (rewrite Hp; by eapply list_elem_of_lookup_2).
    apply IH; [done|by apply Hv, list_elem_of_In| |done]. eapply Hw, list_elem_of_In, list_elem_of_lookup_2, Hy.
Qed.

Lemma stable_idemp v : wf_doc v = true -> stable (stable v) = stable v.
Proof.
  induction v as [|b|s|s|l IH|m IH] using doc_ind; intros Hw; cbn [stable wf_doc] in *; try done; f_equal.
  - rewrite map_map. apply map_Forall2, Forall_Forall2_diag. rewrite forallb_forall in Hw. rewrite Forall_forall in IH |- *.
    intros x Hx. apply IH; [done|]. by apply Hw, list_elem_of_In.
  - apply andb_true_iff in Hw as [Hd Hw]. b2p. fold (with_stable m). destruct (stable_entries m Hd) as [-> Hs].
    set (m2 := js_sort _ (with_stable m)) in *. fold (with_stable (own_order m2)).
    assert (Hst : with_stable m2 = m2).
    { unfold with_stable. rewrite <- (map_id m2) at 2. apply map_Forall2, Forall_Forall2_diag.
      rewrite forallb_forall in Hw. rewrite Forall_forall in IH |- *. intros x Hx%js_sort_elem.
      apply list_elem_of_fmap in Hx as (kv & -> & Hkv). simpl. f_equal. apply IH; [done|]. by apply Hw, list_elem_of_In. }
    rewrite <- (stable_perm m2 (own_order m2)) by (done || by rewrite own_order_perm). rewrite Hst.
    unfold m2 at 1. rewrite (js_sort_id _ _ (js_sort_sorted _ _)). fold m2. by rewrite from_entries_own.
Qed.

(** [stableJson] is a text of the document that [JSON.parse] reads back, and two
    documents have the same text exactly when they are the same up to the order
    of their properties. *)
Theorem stableJson_canonical v w : wf_doc v = true -> wf_doc w = true ->
  (exists v', json_parse (stableJson v) = Some v' /\ same_doc v v') /\
  (stableJson v = stableJson w <-> same_doc v w).
Proof.
  intros Hv Hw. split.
  - exists (stable v). split; [by apply parse_stableJson|]. apply stable_same_doc; [done|by apply stable_ok|].
    symmetry. by apply stable_idemp.
  - split; [|intros H; unfold stableJson; by rewrite (same_doc_stable v w)]. intros H. apply stable_same_doc; [done..|].
    pose proof (parse_stableJson v Hv) as Ev. rewrite H, (parse_stableJson w Hw) in Ev. congruence.
Qed.

Lemma stableJson_canonical_witness :
  let v := VObj [("b", VNum "1"); ("a", VArr [VStr "x"; VObj [("d", VNull); ("10", VBool true)]])] in
  let w := VObj [("a", VArr [VStr "x"; VObj [("10", VBool true); ("d", VNull)]]); ("b", VNum "1")] in
  (exists v', json_parse (stableJson v) = Some v' /\ same_doc v v') /\ (stableJson v = stableJson w <-> same_doc v w).
Proof. intros v w. apply (stableJson_canonical v w); vm_compute; reflexivity. Defined.

(** * What is read is a document *)

Definition read_ok (v : value) : Prop := wf_doc v = true /\ in_order v = true.

Lemma take_while_all p s : all_chars p (take_while p s) = true.
Proof. induction s as [|c s IH]; simpl; [done|]. destruct (p c) eqn:E; simpl; [by rewrite E|done]. Qed.

Lemma parse_atom_read s v r : parse_atom s = Some (v, r) -> read_ok v.
Proof.
  unfold parse_atom. repeat case_match; intros [= <- <-]; split; try done. simpl. rewrite take_while_all. by simpl.
Qed.

Lemma set_all_keys {A} (m acc : list (string * A)) : NoDup (map fst acc) ->
  NoDup (map fst (foldl (fun o kv => obj_set (fst kv) (snd kv) o) acc m)).
Proof. revert acc. induction m as [|kv m IH]; intros acc Hd; simpl; [done|]. by apply IH, obj_set_NoDup. Qed.

Lemma set_all_elem {A} (m acc : list (string * A)) x :
  x ∈ foldl (fun o kv => obj_set (fst kv) (snd kv) o) acc m -> x ∈ acc \/ x ∈ m.
Proof.
  revert acc. induction m as [|[k v] m IH]; intros acc; simpl; [by left|]. intros [H|H]%IH.
  - apply obj_set_elem in H as [->|H]; [right; left|by left].
  - right. by right.
Qed.

Lemma from_entries_read (m : list (string * value)) : Forall (fun kv => read_ok (snd kv)) m -> read_ok (VObj (from_entries m)).
Proof.
  intros Hm. unfold from_entries. set (o := foldl _ [] m).
  assert (Hd : NoDup (map fst o)) by (apply set_all_keys; constructor).
  assert (Ho : Forall (fun kv => read_ok (snd kv)) (own_order o)).
  { apply Forall_forall. intros x Hx. rewrite own_order_perm in Hx. apply set_all_elem in Hx as [Hx%elem_of_nil|Hx]; [done|].
    rewrite Forall_forall in Hm. by apply Hm. }
  split; simpl; apply andb_true_iff; split.
  - apply bool_decide_eq_true. by rewrite own_order_keys.
  - apply forallb_forall. intros x Hx%list_elem_of_In. rewrite Forall_forall in Ho. by apply Ho.
  - apply bool_decide_eq_true, own_order_idemp.
  - apply forallb_forall. intros x Hx%list_elem_of_In. rewrite Forall_forall in Ho. by apply Ho.
Qed.

Lemma list_read l : Forall read_ok l -> read_ok (VArr l).
Proof.
  intros H. split; simpl; apply forallb_forall; intros x Hx%list_elem_of_In; rewrite Forall_forall in H; by apply H.
Qed.

Lemma parse_read n :
  (forall s v r, parse_value n s = Some (v, r) -> read_ok v) /\
  (forall s l r, parse_elems n s = Some (l, r) -> Forall read_ok l) /\
  (forall s m r, parse_members n s = Some (m, r) -> Forall (fun kv => read_ok (snd kv)) m).
Proof.
  induction n as [|n (IHv & IHe & IHm)]; [done|]. split; [|split].
  - intros s v r. simpl. destruct (skip_ws s) as [|c t]; [done|]. repeat case_match; intros E; simplify_eq/=; try done; try by split.
    + apply fmap_Some in E as ([s0 r0] & _ & [= -> ->]). by split.
    + apply fmap_Some in E as ([l r0] & E & [= -> ->]). by apply list_read, (IHe _ _ _ E).
    + apply fmap_Some in E as ([m r0] & E & [= -> ->]). by apply from_entries_read, (IHm _ _ _ E).
    + by eapply parse_atom_read.
  - intros s l r. simpl. repeat case_match; intros E; simplify_eq/=; try done.
    + apply fmap_Some in E as ([l0 r0] & E & [= -> ->]). constructor; [by eapply IHv|by eapply IHe].
    + constructor; [by eapply IHv|constructor].
  - intros s m r. simpl. repeat case_match; intros E; simplify_eq/=; try done.
    + apply fmap_Some in E as ([l0 r0] & E & [= -> ->]). constructor; [by eapply IHv|by eapply IHm].
    + constructor; [by eapply IHv|constructor].
Qed.

(** JSON.parse gives documents: numbers are JSON numbers, keys are unique and
    listed in their own order. *)
Lemma json_parse_read s v : json_parse s = Some v -> read_ok v.
Proof.
  unfold json_parse. destruct (parse_value _ s) as [[w r]|] eqn:E; [|done]. case_match; intros [= <-].
  by eapply (proj1 (parse_read _)).
Qed.
