(* ===== verification/Doubles.v ===== *)
(** JavaScript numbers: finite doubles with the operations the sources apply to
    them.

    A number is [sig * 2^exp] with [sig] odd, or zero, so that equal numbers are
    equal records.  [rnd p q] is the double nearest to [p / q], ties to even, and
    quotient, product and sum are the rounding of the exact result, as IEEE 754 has
    them.  Exponents are not bounded: the amounts of processor time and memory of a
    service stay between 2^-60 and 2^70, far from underflow and overflow. *)

From Stdlib Require Import QArith Qpower Qround Qabs Lqa.
From S2P Require Import Prelude.

Record number := Num { sig : Z; exp : Z }.

#[export] Instance number_eq_dec : EqDecision number.
Proof. solve_decision. Defined.

(** Moves the factors two of a positive significand to the exponent. *)
Fixpoint strip (p : positive) (e : Z) : number :=
  match p with xO p' => strip p' (e + 1) | _ => Num (Zpos p) e end.

Definition canon (m e : Z) : number :=
  match m with
  | Z0 => Num 0 0
  | Zpos p => strip p e
  | Zneg p => let n := strip p e in Num (- sig n) (exp n)
  end.

(** [p / q] for [q > 0] to the nearest integer, ties to even. *)
Definition round_div (p q : Z) : Z :=
  let d := p / q in
  let r := 2 * (p - d * q) in
  if r <? q then d else if q <? r then d + 1 else if Z.even d then d else d + 1.

(** [p / (q * 2^e)] as a fraction of integers. *)
Definition scaled (p q e : Z) : Z * Z := if 0 <=? e then (p, q * 2 ^ e) else (p * 2 ^ (- e), q).

(** The double nearest to [p / q], for [q > 0]. *)
Definition rnd_pos (p q : Z) : number :=
  let e0 := Z.log2 p - Z.log2 q - 53 in
  let e := if 2 ^ 53 <=? (let s := scaled p q e0 in fst s / snd s) then e0 + 1 else e0 in
  let s := scaled p q e in
  canon (round_div (fst s) (snd s)) e.

Definition neg (n : number) : number := Num (- sig n) (exp n).

Definition rnd (p q : Z) : number :=
  if p =? 0 then Num 0 0 else if 0 <? p then rnd_pos p q else neg (rnd_pos (- p) q).

(** The number an integer literal stands for. *)
Definition num (z : Z) : number := rnd z 1.

(** [sig * 2^exp] as a fraction. *)
Definition num_of (n : number) : Z := sig n * 2 ^ Z.max 0 (exp n).
Definition den_of (n : number) : Z := 2 ^ Z.max 0 (- exp n).

Definition mul (x y : number) : number := rnd (num_of x * num_of y) (den_of x * den_of y).

(** [x / y] for a divisor other than zero. *)
Definition div (x y : number) : number :=
  if 0 <? sig y then rnd (num_of x * den_of y) (den_of x * num_of y)
  else rnd (- (num_of x * den_of y)) (den_of x * - num_of y).

Definition add (x y : number) : number := rnd (num_of x * den_of y + num_of y * den_of x) (den_of x * den_of y).
Definition sub (x y : number) : number := rnd (num_of x * den_of y - num_of y * den_of x) (den_of x * den_of y).

(** [Math.round]: the integer nearest, a half rounded up. *)
Definition js_round (x : number) : number := num ((2 * num_of x + den_of x) / (2 * den_of x)).

Definition nlt (x y : number) : bool := num_of x * den_of y <? num_of y * den_of x.
Definition nle (x y : number) : bool := negb (nlt y x).

(** [Math.max] *)
Definition js_max (x y : number) : number := if nlt x y then y else x.

Example half_div : div (num 500000000) (num 1000000000) = Num 1 (-1).
Proof. vm_compute. reflexivity. Qed.

(** * The value of a number *)

Open Scope Q_scope.

Definition val (n : number) : Q := inject_Z (sig n) * 2 ^ exp n.

Lemma two_pow_pos e : 0 < 2 ^ e.
Proof. apply Qpower_0_lt. reflexivity. Qed.

Lemma two_pow_add a b : 2 ^ (a + b) == 2 ^ a * 2 ^ b.
Proof. apply Qpower_plus. discriminate. Qed.

Lemma two_pow_Z e : (0 <= e)%Z -> 2 ^ e == inject_Z (2 ^ e).
Proof. intros He. change 2 with (inject_Z 2). by rewrite Zpower_Qpower. Qed.

Lemma strip_val p e : val (strip p e) == inject_Z (Zpos p) * 2 ^ e.
Proof.
  revert e. induction p as [p IH|p IH|]; intros e; simpl; try reflexivity.
  rewrite IH, two_pow_add. change (Zpos p~0) with (2 * Zpos p)%Z. rewrite inject_Z_mult. simpl. ring.
Qed.

Lemma canon_val m e : val (canon m e) == inject_Z m * 2 ^ e.
Proof.
  destruct m as [|p|p]; simpl; [unfold val; simpl; ring|apply strip_val|].
  pose proof (strip_val p e) as H. unfold val in *. simpl. change (Zneg p) with (- Zpos p)%Z.
  rewrite !inject_Z_opp. transitivity (- (inject_Z (sig (strip p e)) * 2 ^ exp (strip p e))); [ring|]. rewrite H. ring.
Qed.

Lemma round_div_near p q : (0 < q)%Z -> (Z.abs (2 * (round_div p q * q - p)) <= q)%Z.
Proof.
  intros Hq. unfold round_div. pose proof (Z.div_mod p q) as Hd. pose proof (Z.mod_pos_bound p q Hq) as Hm.
  set (d := (p / q)%Z) in *. destruct (Z.ltb_spec (2 * (p - d * q)) q); [lia|].
  destruct (Z.ltb_spec q (2 * (p - d * q))); [lia|]. destruct (Z.even d); lia.
Qed.

Lemma inject_pos z : (0 < z)%Z -> 0 < inject_Z z.
Proof. intros Hz. change 0 with (inject_Z 0). by rewrite <- Zlt_Qlt. Qed.

Lemma pos_nonzero x : 0 < x -> ~ x == 0.
Proof. intros Hx E. rewrite E in Hx. by apply (Qlt_irrefl 0). Qed.

Lemma scaled_val p q e : (0 < q)%Z -> (0 < snd (scaled p q e))%Z /\
  inject_Z (fst (scaled p q e)) / inject_Z (snd (scaled p q e)) * 2 ^ e == inject_Z p / inject_Z q.
Proof.
  intros Hq. pose proof (pos_nonzero _ (inject_pos q Hq)). pose proof (pos_nonzero _ (two_pow_pos e)).
  unfold scaled. destruct (Z.leb_spec 0 e) as [He|He]; simpl.
  - split; [apply Z.mul_pos_pos; [done|apply Z.pow_pos_nonneg; lia]|].
    rewrite inject_Z_mult, <- two_pow_Z by done. field. done.
  - split; [done|]. rewrite inject_Z_mult, <- two_pow_Z, Qpower_opp by lia. field. done.
Qed.

(** The significand before rounding has at least 53 bits. *)
Lemma scaled_large p q : (0 < p)%Z -> (0 < q)%Z -> let e0 := (Z.log2 p - Z.log2 q - 53)%Z in
  let e := if (2 ^ 53 <=? (let s := scaled p q e0 in fst s / snd s))%Z then (e0 + 1)%Z else e0 in
  inject_Z (2 ^ 52) * 2 ^ e <= inject_Z p / inject_Z q.
Proof.
  intros Hp Hq e0 e. destruct (scaled_val p q e0 Hq) as [Hs Hv]. pose proof (inject_pos q Hq) as Hq'.
  pose proof (two_pow_pos e0) as He0. subst e. destruct (Z.leb_spec (2 ^ 53) (let s := scaled p q e0 in fst s / snd s)%Z) as [Hl|_].
  - set (s := scaled p q e0) in *. cbv zeta in Hl. rewrite <- Hv, two_pow_add.
    assert (Hm : (2 ^ 53 * snd s <= fst s)%Z) by (pose proof (Z.mul_div_le (fst s) (snd s) Hs); nia).
    assert (H53 : inject_Z (2 ^ 53) <= inject_Z (fst s) / inject_Z (snd s)).
    { apply Qle_shift_div_l; [by apply inject_pos|]. rewrite <- inject_Z_mult, <- Zle_Qle. done. }
    apply Qle_trans with (inject_Z (2 ^ 53) * 2 ^ e0); [|by apply Qmult_le_compat_r; [|apply Qlt_le_weak]].
    apply Qle_lteq; right. change (inject_Z (2 ^ 53)) with (inject_Z (2 ^ 52) * 2). change (2 ^ 1) with 2. ring.
  - apply Qle_shift_div_l; [done|]. destruct (Z.log2_spec p Hp) as [Hlp _]. destruct (Z.log2_spec q Hq) as [_ Hlq].
    apply Qle_trans with (inject_Z (2 ^ 52) * 2 ^ e0 * inject_Z (2 ^ Z.succ (Z.log2 q))).
    { apply Qmult_le_l; [apply Qmult_lt_0_compat; [reflexivity|done]|]. rewrite <- Zle_Qle. lia. }
    pose proof (Z.log2_nonneg p). pose proof (Z.log2_nonneg q).
    assert (E : inject_Z (2 ^ 52) * 2 ^ e0 * inject_Z (2 ^ Z.succ (Z.log2 q)) == inject_Z (2 ^ Z.log2 p)).
    { rewrite <- (two_pow_Z 52), <- (two_pow_Z (Z.succ _)), <- (two_pow_Z (Z.log2 p)), <- !two_pow_add by lia.
      replace (52 + e0 + Z.succ (Z.log2 q))%Z with (Z.log2 p) by (subst e0; lia). reflexivity. }
    rewrite E. by rewrite <- Zle_Qle.
Qed.

(** The relative error of rounding. *)
Definition ulp2 : Q := 1 # (2 ^ 53).

Lemma rnd_pos_error p q : (0 < p)%Z -> (0 < q)%Z ->
  Qabs (val (rnd_pos p q) - inject_Z p / inject_Z q) <= inject_Z p / inject_Z q * ulp2.
Proof.
  intros Hp Hq. pose proof (scaled_large p q Hp Hq) as Hl. unfold rnd_pos. cbv zeta in *.
  set (e := if (_ <=? _)%Z then _ else _) in *. destruct (scaled_val p q e Hq) as [Hs Hv].
  set (s := scaled p q e) in *. pose proof (inject_pos _ Hs) as Hs'. pose proof (two_pow_pos e) as He.
  rewrite canon_val. pose proof (round_div_near (fst s) (snd s) Hs) as Hr. set (m := round_div _ _) in *.
  set (x := inject_Z p / inject_Z q) in *.
  assert (Hd : Qabs (inject_Z m - inject_Z (fst s) / inject_Z (snd s)) <= 1 # 2).
  { assert (Heq : inject_Z m - inject_Z (fst s) / inject_Z (snd s) == inject_Z (2 * (m * snd s - fst s)) / inject_Z (2 * snd s)).
    { unfold Z.sub. rewrite !inject_Z_mult, inject_Z_plus, inject_Z_opp, inject_Z_mult. field. by apply pos_nonzero. }
    rewrite Heq. apply Qabs_Qle_condition. split; [apply Qle_shift_div_l|apply Qle_shift_div_r];
      try (apply inject_pos; lia); unfold Qle; simpl; lia. }
  assert (E : inject_Z m * 2 ^ e - x == (inject_Z m - inject_Z (fst s) / inject_Z (snd s)) * 2 ^ e) by (rewrite <- Hv; ring).
  rewrite E. clear E.
  rewrite Qabs_Qmult, (Qabs_pos (2 ^ e)) by (by apply Qlt_le_weak).
  apply Qle_trans with ((1 # 2) * 2 ^ e); [by apply Qmult_le_compat_r; [|apply Qlt_le_weak]|].
  apply Qle_trans with (inject_Z (2 ^ 52) * 2 ^ e * ulp2); [|by apply Qmult_le_compat_r].
  apply Qle_lteq; right. transitivity (inject_Z (2 ^ 52) * ulp2 * 2 ^ e); [|ring]. apply Qmult_comp; reflexivity.
Qed.

Lemma den_pos x : (0 < den_of x)%Z.
Proof. apply Z.pow_pos_nonneg; lia. Qed.

Lemma val_frac x : val x == inject_Z (num_of x) / inject_Z (den_of x).
Proof.
  unfold val, num_of, den_of. destruct (Z.le_gt_cases 0 (exp x)) as [H|H].
  - rewrite Z.max_r, (Z.max_l 0 (- exp x)), inject_Z_mult, <- two_pow_Z by lia. change (inject_Z (2 ^ 0)) with 1. field.
  - rewrite Z.max_l, (Z.max_r 0 (- exp x)), <- (two_pow_Z (- exp x)), Qpower_opp by lia. change (2 ^ 0)%Z with 1%Z.
    rewrite Z.mul_1_r. field. apply pos_nonzero, two_pow_pos.
Qed.

Lemma num_pos x : 0 < val x -> (0 < num_of x)%Z.
Proof.
  rewrite val_frac. intros H. pose proof (inject_pos _ (den_pos x)) as Hd.
  assert (E : inject_Z (num_of x) == inject_Z (num_of x) / inject_Z (den_of x) * inject_Z (den_of x)) by (field; by apply pos_nonzero).
  rewrite Zlt_Qlt, E. by apply Qmult_lt_0_compat.
Qed.

Lemma rnd_error p q : (0 < p)%Z -> (0 < q)%Z ->
  Qabs (val (rnd p q) - inject_Z p / inject_Z q) <= inject_Z p / inject_Z q * ulp2.
Proof.
  intros Hp Hq. unfold rnd. destruct (Z.eqb_spec p 0); [lia|]. destruct (Z.ltb_spec 0 p); [|lia]. by apply rnd_pos_error.
Qed.

(** Integers below 2^53 are exact. *)
Lemma num_exact z : (0 <= z < 2 ^ 53)%Z -> val (num z) == inject_Z z.
Proof.
  intros Hz. unfold num, rnd. destruct (Z.eqb_spec z 0) as [->|]; [reflexivity|]. destruct (Z.ltb_spec 0 z); [|lia].
  unfold rnd_pos. cbv zeta. set (e := if (_ <=? _)%Z then _ else _). assert (He : (e <= 0)%Z).
  { assert (Z.log2 z < 53)%Z by (apply Z.log2_lt_pow2; lia). change (Z.log2 1) with 0%Z in e. subst e. destruct (_ <=? _)%Z; lia. }
  assert (Hs : scaled z 1 e = ((z * 2 ^ (- e))%Z, 1%Z)).
  { unfold scaled. destruct (Z.leb_spec 0 e); [|done]. replace e with 0%Z by lia. f_equal; lia. }
  rewrite Hs, canon_val. simpl. unfold round_div. rewrite Z.div_1_r.
  set (a := (z * 2 ^ (- e))%Z). replace (2 * (a - a * 1))%Z with 0%Z by lia. simpl. subst a.
  rewrite inject_Z_mult, <- two_pow_Z, Qpower_opp by lia. field. apply pos_nonzero, two_pow_pos.
Qed.

Lemma mul_error x y : 0 < val x -> 0 < val y -> Qabs (val (mul x y) - val x * val y) <= val x * val y * ulp2.
Proof.
  intros Hx Hy. pose proof (rnd_error (num_of x * num_of y) (den_of x * den_of y)
    (Z.mul_pos_pos _ _ (num_pos x Hx) (num_pos y Hy)) (Z.mul_pos_pos _ _ (den_pos x) (den_pos y))) as H.
  assert (E : val x * val y == inject_Z (num_of x * num_of y) / inject_Z (den_of x * den_of y)).
  { rewrite !val_frac, !inject_Z_mult. pose proof (inject_pos _ (den_pos x)). pose proof (inject_pos _ (den_pos y)).
    field. split; by apply pos_nonzero. }
  by rewrite E.
Qed.

Lemma div_error x y : 0 < val x -> 0 < val y -> Qabs (val (div x y) - val x / val y) <= val x / val y * ulp2.
Proof.
  intros Hx Hy. pose proof (num_pos y Hy) as Hn. pose proof (rnd_error (num_of x * den_of y) (den_of x * num_of y)
    (Z.mul_pos_pos _ _ (num_pos x Hx) (den_pos y)) (Z.mul_pos_pos _ _ (den_pos x) Hn)) as H.
  assert (E : val x / val y == inject_Z (num_of x * den_of y) / inject_Z (den_of x * num_of y)).
  { rewrite !val_frac, !inject_Z_mult. pose proof (inject_pos _ (den_pos x)). pose proof (inject_pos _ (den_pos y)).
    pose proof (inject_pos _ Hn). field. repeat split; by apply pos_nonzero. }
  unfold div. assert (Hs : (0 <? sig y)%Z = true); [|by rewrite Hs, E].
  apply Z.ltb_lt. unfold num_of in Hn. pose proof (Z.pow_pos_nonneg 2 (Z.max 0 (exp y))). nia.
Qed.

Lemma js_round_near x n : Qabs (val x - inject_Z n) < 1 # 2 -> js_round x = num n.
Proof.
  intros [Hl Hh]%Qabs_Qlt_condition. unfold js_round. f_equal. pose proof (inject_pos _ (den_pos x)) as Hd.
  rewrite val_frac in Hl, Hh.
  assert (E : inject_Z (num_of x) == inject_Z (num_of x) / inject_Z (den_of x) * inject_Z (den_of x)) by (field; by apply pos_nonzero).
  set (v := inject_Z (num_of x) / inject_Z (den_of x)) in *.
  assert (Hlo : (2 * (n * den_of x) - den_of x < 2 * num_of x)%Z).
  { rewrite Zlt_Qlt. unfold Z.sub. rewrite inject_Z_plus, inject_Z_opp, !inject_Z_mult, E. change (inject_Z 2) with 2. nra. }
  assert (Hhi : (2 * num_of x < 2 * (n * den_of x) + den_of x)%Z).
  { rewrite Zlt_Qlt. rewrite inject_Z_plus, !inject_Z_mult, E. change (inject_Z 2) with 2. nra. }
  pose proof (den_pos x). symmetry. apply Z.div_unique with (r := (2 * num_of x + den_of x - 2 * den_of x * n)%Z); lia.
Qed.

Lemma scale_zero b : js_round (mul (div (num 0) (num b)) (num b)) = num 0.
Proof.
  assert (E : div (num 0) (num b) = Num 0 0) by (unfold div; simpl; by destruct (0 <? sig (num b))%Z).
  by rewrite E.
Qed.

Lemma scale_roundtrip n b : (0 <= n <= 2 ^ 50)%Z -> (0 < b < 2 ^ 53)%Z -> js_round (mul (div (num n) (num b)) (num b)) = num n.
Proof.
  intros [[H0| <-]%Zle_lt_or_eq Hn] Hb; [|apply scale_zero].
  pose proof (num_exact n ltac:(lia)) as En. pose proof (num_exact b ltac:(lia)) as Eb.
  pose proof (inject_pos n H0) as HN. pose proof (inject_pos b ltac:(lia)) as HB.
  assert (HNu : inject_Z n <= inject_Z (2 ^ 50)) by (by rewrite <- Zle_Qle).
  pose proof (div_error (num n) (num b)) as Hd. rewrite En, Eb in Hd. specialize (Hd HN HB).
  set (x := div (num n) (num b)) in *. assert (Hq : 0 < inject_Z n / inject_Z b) by (by apply Qlt_shift_div_l; [|rewrite Qmult_0_l]).
  assert (Hu : 0 < ulp2 /\ ulp2 <= 1 # 1024) by (split; [reflexivity|by unfold ulp2, Qle]).
  apply Qabs_Qle_condition in Hd as [Hd1 Hd2].
  assert (Hx : 0 < val x) by nra.
  pose proof (mul_error x (num b) Hx) as Hm. rewrite Eb in Hm. specialize (Hm HB).
  apply Qabs_Qle_condition in Hm as [Hm1 Hm2].
  assert (EN : inject_Z n / inject_Z b * inject_Z b == inject_Z n) by (field; by apply pos_nonzero).
  assert (Hlo : inject_Z n - inject_Z n * ulp2 <= val x * inject_Z b).
  { rewrite <- EN. set (q := inject_Z n / inject_Z b) in *. clearbody q. nra. }
  assert (Hhi : val x * inject_Z b <= inject_Z n + inject_Z n * ulp2).
  { rewrite <- EN. set (q := inject_Z n / inject_Z b) in *. clearbody q. nra. }
  set (w := val x * inject_Z b) in *. assert (Hnu : inject_Z n * ulp2 <= 1 # 8).
  { apply Qle_trans with (inject_Z (2 ^ 50) * ulp2); [apply Qmult_le_compat_r; [done|by apply Qlt_le_weak]|]. by unfold ulp2, Qle. }
  apply js_round_near, Qabs_Qlt_condition. set (y := val (mul x (num b))) in *. clearbody y w. split; nra.
Qed.

Close Scope Q_scope.

Definition NANO : number := num (10 ^ 9).

(** Processor shares: nanoseconds per second on the wire, fractions of a processor
    in a specification. *)
Definition toNanoCpus (cpus : number) : number := js_round (mul cpus NANO).
Definition ofNanoCpus (nano : number) : number := div nano NANO.

Lemma nano_roundtrip n : 0 <= n <= 2 ^ 50 -> toNanoCpus (ofNanoCpus (num n)) = num n.
Proof. intros Hn. unfold toNanoCpus, ofNanoCpus, NANO. apply scale_roundtrip; lia. Qed.

Example tenth : exists c, c = div (num 1) (num 10) /\ ofNanoCpus (toNanoCpus c) = c /\ toNanoCpus c = num 100000000.
Proof. eexists. split; [done|]. split; by vm_compute. Qed.
