(* ===== verification/JsNumber.v ===== *)
(** Numbers read from text: the values that JSON.parse and Number(...) give to
    decimal literals and to the other values of JavaScript.

    A result is a finite double, an infinity or NaN; minus zero is identified with
    zero.  Literals below the least normal double are rounded to a multiple of
    2^-1074, those from 2^1024 are infinite. *)

From Stdlib Require Import QArith Qabs.
From S2P Require Import Prelude Json JsonText Doubles.

Inductive jsnum := Fin (n : number) | PInf | NInf | NaN.

(** The double nearest to [p / q], both positive. *)
Definition to_double (p q : Z) : jsnum :=
  if p * 2 ^ 1022 <? q then Fin (canon (round_div (p * 2 ^ 1074) q) (-1074))
  else let n := rnd_pos p q in if 2 ^ 1024 * den_of n <=? num_of n then PInf else Fin n.

Definition opposite (x : jsnum) : jsnum :=
  match x with Fin n => Fin (neg n) | PInf => NInf | NInf => PInf | NaN => NaN end.

(** [m * 10^e], for a digit string read as [m]. *)
Definition scale10 (m e : Z) : jsnum :=
  if m =? 0 then Fin (num 0)
  else if 0 <=? e then to_double (m * 10 ^ e) 1 else to_double m (10 ^ (- e)).

(** What follows the digits: nothing, or an exponent. *)
Definition exponent (s : string) : option Z :=
  match s with
  | EmptyString => Some 0
  | String c r =>
      if mem (str1 c) ["e"; "E"] then
        match r with
        | String d r' =>
            if Ascii.eqb d "-" then Z.opp <$> js_number r'
            else if Ascii.eqb d "+" then js_number r' else js_number r
        | EmptyString => None
        end
      else None
  end.

(** A decimal literal without a sign: digits, a fraction, an exponent. *)
Definition unsigned_decimal (s : string) : jsnum :=
  let i := take_while is_digit s in
  let r := drop_while is_digit s in
  let (f, r) := match r with
                | String c r' => if Ascii.eqb c "." then (take_while is_digit r', drop_while is_digit r') else ("", r)
                | EmptyString => ("", r)
                end in
  match i +:+ f, exponent r with
  | EmptyString, _ | _, None => NaN
  | digits, Some e => scale10 (decimal digits) (e - Z.of_nat (String.length f))
  end.

(** The value of a number of a JSON document. *)
Definition of_text (s : string) : jsnum :=
  match s with
  | String c r => if Ascii.eqb c "-" then opposite (unsigned_decimal r) else unsigned_decimal s
  | EmptyString => NaN
  end.

(** ** Number(v) *)

Definition digit_val (c : ascii) : option Z :=
  let n := Z.of_N (code c) in
  if (48 <=? n) && (n <=? 57) then Some (n - 48)
  else if (97 <=? n) && (n <=? 102) then Some (n - 87)
  else if (65 <=? n) && (n <=? 70) then Some (n - 55)
  else None.

Fixpoint in_base (b acc : Z) (s : string) : option Z :=
  match s with
  | EmptyString => Some acc
  | String c r => match digit_val c with Some d => if d <? b then in_base b (acc * b + d) r else None | None => None end
  end.

(** [0x], [0o] and [0b] literals. *)
Definition radix_literal (s : string) : option Z :=
  match s with
  | String c (String x (String d r)) =>
      if Ascii.eqb c "0" then
        if mem (str1 x) ["x"; "X"] then in_base 16 0 (String d r)
        else if mem (str1 x) ["o"; "O"] then in_base 8 0 (String d r)
        else if mem (str1 x) ["b"; "B"] then in_base 2 0 (String d r) else None
      else None
  | _ => None
  end.

Definition unsigned_number (s : string) : jsnum := if String.eqb s "Infinity" then PInf else unsigned_decimal s.

Definition string_number (s : string) : jsnum :=
  let s := trim s in
  if String.eqb s "" then Fin (num 0)
  else match radix_literal s with
       | Some z => if z =? 0 then Fin (num 0) else to_double z 1
       | None =>
           match s with
           | String c r =>
               if Ascii.eqb c "-" then opposite (unsigned_number r)
               else if Ascii.eqb c "+" then unsigned_number r else unsigned_number s
           | EmptyString => NaN
           end
       end.

(** [Number(v)], [undefined] being [None]. *)
Definition js_Number (v : option value) : jsnum :=
  match v with
  | None => NaN
  | Some VNull => Fin (num 0)
  | Some (VBool b) => Fin (num (if b then 1 else 0))
  | Some (VNum s) => of_text s
  | Some (VStr s) => string_number s
  | Some (VArr l) => string_number (to_string (VArr l))
  | Some (VObj _) => NaN
  end.

(** [Number.isFinite] of a property of a document. *)
Definition finite (s : string) : bool := match of_text s with Fin _ => true | _ => false end.

(** [Number.isInteger] *)
Definition integer (n : number) : option Z := if 0 <=? exp n then Some (num_of n) else None.

(** [if (v)] *)
Definition truthy_value (v : value) : bool :=
  match v with
  | VNull => false
  | VBool b => b
  | VNum s => match of_text s with Fin n => negb (sig n =? 0) | NaN => false | _ => true end
  | VStr s => negb (String.eqb s "")
  | VArr _ | VObj _ => true
  end.

Example of_text_ex : of_text "-12.5e-1" = Fin (Num (-5) (-2)) /\ of_text "1e400" = PInf /\ of_text "0.1" = Fin (div (num 1) (num 10)) /\
  string_number " 0x1F " = Fin (num 31) /\ string_number "" = Fin (num 0) /\ string_number "12px" = NaN /\
  js_Number (Some (VArr [VNum "7"])) = Fin (num 7) /\ of_text "1e-400" = Fin (num 0).
Proof. vm_compute. done. Qed.

(** * Integers *)

Lemma digits_only s : all_digits s = true -> take_while is_digit s = s /\ drop_while is_digit s = "" /\ next_is is_digit s = true.
Proof.
  unfold all_digits. intros [Hne Hd]%andb_true_iff. apply negb_true_iff in Hne.
  destruct (take_while_app is_digit s "" Hd eq_refl) as [Ht Hr]. rewrite string_app_nil_r in Ht, Hr. split; [done|]. split; [done|].
  destruct s as [|c s]; [done|]. simpl in Hd. by apply andb_true_iff in Hd as [Hc _].
Qed.

Lemma num_frac z : 0 <= z < 2 ^ 53 -> num_of (num z) = z * den_of (num z).
Proof.
  intros Hz. pose proof (num_exact z Hz) as Hv. rewrite val_frac in Hv. apply inject_Z_injective. rewrite inject_Z_mult, <- Hv.
  field. by apply pos_nonzero, inject_pos, den_pos.
Qed.

Lemma to_double_Z z : 0 < z < 2 ^ 53 -> to_double z 1 = Fin (num z).
Proof.
  intros Hz. unfold to_double. pose proof (Z.pow_pos_nonneg 2 1022 eq_refl ltac:(lia)) as Hp.
  assert (E1 : (z * 2 ^ 1022 <? 1) = false) by (apply Z.ltb_ge; nia). rewrite E1.
  assert (En : num z = rnd_pos z 1).
  { unfold num, rnd. destruct (Z.eqb_spec z 0); [lia|]. by destruct (Z.ltb_spec 0 z); [|lia]. }
  rewrite <- En. assert (E2 : (2 ^ 1024 * den_of (num z) <=? num_of (num z)) = false); [|by rewrite E2].
  apply Z.leb_gt. pose proof (den_pos (num z)) as Hd.
  rewrite num_frac by lia. apply Z.mul_lt_mono_pos_r; [done|]. apply Z.lt_trans with (2 ^ 53); [lia|]. apply Z.pow_lt_mono_r; lia.
Qed.

(** An integer that a document spells out is read back as itself. *)
Lemma of_text_pretty z : 0 < z < 2 ^ 53 -> of_text (pretty z) = Fin (num z).
Proof.
  intros Hz. destruct (pretty_pos z ltac:(lia)) as (Hd & Hv & _). destruct (digits_only _ Hd) as (Ht & Hr & Hn).
  assert (E : unsigned_decimal (pretty z) = Fin (num z)).
  { unfold unsigned_decimal. rewrite Ht, Hr. cbn [exponent String.length]. rewrite string_app_nil_r.
    destruct (pretty z) as [|c s]; [done|]. rewrite Hv. unfold scale10. destruct (Z.eqb_spec z 0); [lia|]. simpl (0 <=? _).
    rewrite Z.mul_1_r. by apply to_double_Z. }
  unfold of_text. destruct (pretty z) as [|c s]; [done|]. simpl in Hn.
  assert (Ascii.eqb c "-" = false) as -> by (destruct (Ascii.eqb_spec c "-") as [->|]; done). done.
Qed.

Lemma js_round_num z : 0 <= z < 2 ^ 53 -> js_round (num z) = num z.
Proof.
  intros Hz. apply js_round_near. rewrite num_exact by done.
  assert (E : (inject_Z z - inject_Z z == 0)%Q) by ring. by rewrite E.
Qed.

Lemma nlt_num a b : 0 <= a < 2 ^ 53 -> 0 <= b < 2 ^ 53 -> nlt (num a) (num b) = (a <? b).
Proof.
  intros Ha Hb. unfold nlt. rewrite (num_frac a), (num_frac b) by done.
  pose proof (den_pos (num a)) as Da. pose proof (den_pos (num b)) as Db.
  set (x := den_of (num a)) in *. set (y := den_of (num b)) in *. clearbody x y.
  assert (Hxy : 0 < x * y) by nia. replace (a * x * y) with (a * (x * y)) by ring. replace (b * y * x) with (b * (x * y)) by ring.
  destruct (Z.ltb_spec a b); [apply Z.ltb_lt|apply Z.ltb_ge]; nia.
Qed.

(** * An integer's text is a number of a document *)

Lemma decimal_from_bound s acc : all_chars is_digit s = true -> 0 <= acc ->
  0 <= decimal_from acc s < (acc + 1) * 10 ^ Z.of_nat (String.length s).
Proof.
  revert acc. induction s as [|c s IH]; intros acc; simpl; [lia|]. intros [Hc Hs]%andb_true_iff Ha.
  assert (Hv : 0 <= Z.of_N (code c) - 48 <= 9).
  { unfold is_digit in Hc. apply andb_true_iff in Hc as [H1%N.leb_le H2%N.leb_le]. lia. }
  specialize (IH (acc * 10 + Z.of_N (code c) - 48) Hs ltac:(lia)). rewrite Nat2Z.inj_succ, Z.pow_succ_r by lia. nia.
Qed.

Lemma pretty_leading z : 0 < z -> next_is (fun c => is_digit c && negb (Ascii.eqb c "0")) (pretty z) = true.
Proof.
  intros Hz. destruct (pretty_pos z Hz) as (Hd & Hv & Hl). destruct (digits_only _ Hd) as (_ & _ & Hn).
  destruct (pretty z) as [|c s] eqn:E; [done|]. simpl in *. rewrite Hn. simpl. apply negb_true_iff. destruct (Ascii.eqb_spec c "0") as [->|]; [|done].
  exfalso. unfold all_digits in Hd. simpl in Hd. unfold decimal in Hv. simpl in Hv.
  pose proof (decimal_from_bound s 0 Hd ltac:(lia)) as Hb. specialize (Hl (String.length s)). change (decimal_from 0 s = z) in Hv. rewrite Hv in Hb. lia.
Qed.

Lemma digits_num_chars s : all_chars is_digit s = true -> all_chars is_num_char s = true.
Proof. apply all_chars_impl. intros c Hc. unfold is_num_char. by rewrite Hc. Qed.

Lemma vint_wf z : 0 <= z -> wf_doc (vint z) = true.
Proof.
  intros Hz. destruct (decide (z = 0)) as [->|Hne]; [done|]. assert (Hp : 0 < z) by lia.
  pose proof (pretty_leading z Hp) as Hn. destruct (pretty_pos z Hp) as (Hd & _ & _). destruct (digits_only _ Hd) as (_ & Hr & Hn').
  simpl. unfold vint. unfold all_digits in Hd. apply andb_true_iff in Hd as [_ Hd]. rewrite digits_num_chars by done. cbn [andb].
  unfold json_number. destruct (pretty z) as [|c s] eqn:E; [done|]. simpl in Hn, Hn'. apply andb_true_iff in Hn as [Hc H0]. apply negb_true_iff in H0.
  assert (Hm : Ascii.eqb c "-" = false) by (destruct (Ascii.eqb_spec c "-") as [->|]; done). rewrite Hm.
  unfold eat_int. rewrite H0. unfold eat_digits. cbn [next_is]. rewrite Hc, Hr. done.
Qed.
