(* ===== verification/KvCodec.v ===== *)
(** Names, limits and encodings of the document store on Docker configs
    (packages/core/src/swarm-kv.ts, the part without state).

    A stored payload is the base64 of the UTF-8 bytes of a sealed text; bytes are
    integers below 256.  Decoding ignores what is not of the base64 alphabet, as
    Node does, and gives [None] on bytes that are not the UTF-8 of a string of the
    model. *)

From S2P Require Import Prelude Comparators Json JsonText.

(** * Limits *)

Definition KV_MAX_DOC_BYTES : Z := 64 * 1024.
Definition KV_MAX_TOTAL_BYTES : Z := 2 * 1024 * 1024.
Definition KV_KEEP_VERSIONS : Z := 3.
Definition KV_NAME_MAX : Z := 64.
Definition KV_NAME_PREFIX : string := "swarmy-kv".
Definition KV_MAX_SEQ : Z := 999999.

Definition KV_LABEL : string := "swarmy.kv".
Definition KV_LABEL_ORG : string := "swarmy.kv.org".
Definition KV_LABEL_COLLECTION : string := "swarmy.kv.collection".
Definition KV_LABEL_ID : string := "swarmy.kv.id".
Definition KV_LABEL_SEQ : string := "swarmy.kv.seq".
Definition KV_LABEL_SHA : string := "swarmy.kv.sha".
Definition KV_LABEL_BYTES : string := "swarmy.kv.bytes".

(** * Patterns *)

Definition is_lower_ascii (c : ascii) : bool := let n := code c in ((97 <=? n) && (n <=? 122))%N.
Definition is_upper_ascii (c : ascii) : bool := let n := code c in ((65 <=? n) && (n <=? 90))%N.
Definition is_alnum (c : ascii) : bool := is_alpha c || is_digit c.

(** [\w] *)
Definition is_word (c : ascii) : bool := is_alnum c || Ascii.eqb c "_".

(** [^first rest{0,n}$] for two classes of characters. *)
Definition class_re (first rest : ascii -> bool) (n : nat) (s : string) : bool :=
  match s with String c r => first c && all_chars rest r && (String.length r <=? n)%nat | EmptyString => false end.

Definition is_collection_char (c : ascii) : bool := is_lower_ascii c || is_digit c || Ascii.eqb c "-".
Definition is_id_char (c : ascii) : bool := is_alnum c || Ascii.eqb c "_" || Ascii.eqb c "-".

Definition COLLECTION_RE : string -> bool := class_re is_lower_ascii is_collection_char 11.
Definition ID_RE : string -> bool := class_re is_alnum is_id_char 39.

(** [/^(updatedAt|last[A-Z]\w*|next[A-Z]\w*At)$/] *)
Definition FORBIDDEN_FIELD_RE (k : string) : bool :=
  let after p := if startsWith p k then Some (sdrop 4 k) else None in
  String.eqb k "updatedAt" ||
  match after "last" with Some (String c r) => is_upper_ascii c && all_chars is_word r | _ => false end ||
  match after "next" with Some (String c r) => is_upper_ascii c && all_chars is_word r && endsWith "At" r | _ => false end.

(** [s.includes(p)] *)
Fixpoint includes (p s : string) : bool :=
  startsWith p s || match s with String _ r => includes p r | EmptyString => false end.

(** [/\bp\b/.test(s)] for a word [p]: [prev] says that a word character comes before. *)
Fixpoint includes_word (prev : bool) (p s : string) : bool :=
  (negb prev && startsWith p s && negb (next_is is_word (sdrop (String.length p) s))) ||
  match s with String c r => includes_word (is_word c) p r | EmptyString => false end.

(** * Errors *)

Inductive KvCode := UNAVAILABLE | TOO_LARGE | BUDGET | CONFLICT | INVALID | NOT_FOUND.

(** A [KvError], or what the driver or the caller's function threw (its message). *)
Inductive KvErr := KvError (c : KvCode) | Thrown (msg : string).

#[export] Instance kvcode_eq_dec : EqDecision KvCode.
Proof. solve_decision. Defined.

Definition isKvError (e : KvErr) (code : option KvCode) : bool :=
  match e with KvError c => match code with Some c' => bool_decide (c = c') | None => true end | Thrown _ => false end.

(** [isNameConflict], on the message of an error. *)
Definition isNameConflict (msg : string) : bool :=
  let m := toLowerCase msg in
  includes "already exists" m || includes "conflicts with an existing" m || includes "name conflict" m ||
  includes "code = alreadyexists" m || includes_word false "409" m.

(** [/not found|no such/i] *)
Definition isMissing (msg : string) : bool := let m := toLowerCase msg in includes "not found" m || includes "no such" m.

(** * Names *)

Definition kvConfigName (collection id : string) (seq : Z) : string :=
  KV_NAME_PREFIX +:+ "." +:+ collection +:+ "." +:+ id +:+ ".v" +:+ pretty seq.

(** The groups of [NAME_RE]. *)
Definition name_groups (name : string) : option (string * string * string) :=
  match split_at "." name with
  | [p; c; i; String v digits] =>
      if String.eqb p KV_NAME_PREFIX && COLLECTION_RE c && ID_RE i && Ascii.eqb v "v" && all_digits digits &&
         (String.length digits <=? 6)%nat
      then Some (c, i, digits) else None
  | _ => None
  end.

Definition parseKvConfigName (name : string) : option (string * string * Z) :=
  match name_groups name with
  | Some (c, i, digits) => let seq := decimal digits in if seq <? 1 then None else Some (c, i, seq)
  | None => None
  end.

Definition assertKvKey (collection id : string) : option KvErr :=
  if negb (COLLECTION_RE collection) then Some (KvError INVALID)
  else if negb (ID_RE id) then Some (KvError INVALID)
  else if KV_NAME_MAX <? Z.of_nat (String.length (kvConfigName collection id KV_MAX_SEQ)) then Some (KvError INVALID)
  else None.

(** [keyOf], and [k.split('\u0000')]. *)
Definition keyOf (collection id : string) : string := collection +:+ nul +:+ id.
Definition unkey (k : string) : string * string :=
  match split_at (ascii_of_nat 0) k with c :: i :: _ => (c, i) | [c] => (c, "") | [] => ("", "") end.

(** * Fingerprint, base64, run state *)

Fixpoint fnv32 (h : Z) (s : string) : Z :=
  match s with EmptyString => h | String c r => fnv32 (imul32 h (Z.of_N (code c)) 16777619) r end.

Definition kvFingerprint (s : string) : string := hex_digits 8 (fnv32 2166136261 s).

(** The UTF-8 bytes of a string of code units below 256. *)
Fixpoint utf8 (s : string) : list Z :=
  match s with
  | EmptyString => []
  | String c r =>
      let n := Z.of_N (code c) in (if n <? 128 then [n] else [192 + n / 64; 128 + n mod 64]) ++ utf8 r
  end.

Fixpoint of_utf8 (l : list Z) : option string :=
  match l with
  | [] => Some ""
  | a :: l' =>
      if a <? 128 then String (ascii_of_nat (Z.to_nat a)) <$> of_utf8 l'
      else match l' with
           | b :: l'' =>
               if (194 <=? a) && (a <=? 195) && (128 <=? b) && (b <=? 191)
               then String (ascii_of_nat (Z.to_nat ((a - 192) * 64 + (b - 128)))) <$> of_utf8 l'' else None
           | [] => None
           end
  end.

Definition b64_char (n : Z) : ascii :=
  ascii_of_nat (Z.to_nat (if n <? 26 then 65 + n else if n <? 52 then 71 + n else if n <? 62 then n - 4
                          else if n =? 62 then 43 else 47)).

Definition b64_value (c : ascii) : option Z :=
  let n := Z.of_N (code c) in
  if (65 <=? n) && (n <=? 90) then Some (n - 65)
  else if (97 <=? n) && (n <=? 122) then Some (n - 71)
  else if (48 <=? n) && (n <=? 57) then Some (n + 4)
  else if (n =? 43) || (n =? 45) then Some 62
  else if (n =? 47) || (n =? 95) then Some 63
  else None.

Fixpoint b64_encode (l : list Z) : string :=
  match l with
  | a :: b :: c :: r =>
      String (b64_char (a / 4)) (String (b64_char (a mod 4 * 16 + b / 16)) (String (b64_char (b mod 16 * 4 + c / 64))
        (String (b64_char (c mod 64)) (b64_encode r))))
  | [a; b] =>
      String (b64_char (a / 4)) (String (b64_char (a mod 4 * 16 + b / 16)) (String (b64_char (b mod 16 * 4)) "="))
  | [a] => String (b64_char (a / 4)) (String (b64_char (a mod 4 * 16)) "==")
  | [] => ""
  end.

Fixpoint b64_values (s : string) : list Z :=
  match s with
  | EmptyString => []
  | String c r => match b64_value c with Some v => v :: b64_values r | None => b64_values r end
  end.

Fixpoint b64_decode (l : list Z) : list Z :=
  match l with
  | a :: b :: c :: d :: r => [a * 4 + b / 16; b mod 16 * 16 + c / 4; c mod 4 * 64 + d] ++ b64_decode r
  | [a; b; c] => [a * 4 + b / 16; b mod 16 * 16 + c / 4]
  | [a; b] => [a * 4 + b / 16]
  | _ => []
  end.

Definition toB64 (s : string) : string := b64_encode (utf8 s).
Definition fromB64 (s : string) : option string := of_utf8 (b64_decode (b64_values s)).

Definition assertNoRunState (v : value) : option KvErr :=
  match v with
  | VObj m => if existsb (fun kv => FORBIDDEN_FIELD_RE (fst kv)) m then Some (KvError INVALID) else None
  | _ => None
  end.

Example ex_name : kvConfigName "ingress" "main" 12 = "swarmy-kv.ingress.main.v12" /\
  parseKvConfigName "swarmy-kv.ingress.main.v12" = Some ("ingress", "main", 12) /\
  parseKvConfigName "swarmy-kv.ingress.main.v0" = None /\ parseKvConfigName "swarmy-kv.Ingress.main.v1" = None.
Proof. by vm_compute. Qed.

Example ex_b64 : toB64 "hello" = "aGVsbG8=" /\ fromB64 "aGVsbG8=" = Some "hello" /\ kvFingerprint "" = "811c9dc5" /\
  kvFingerprint "a" = "e40c292c".
Proof. by vm_compute. Qed.

Example ex_forbidden : map FORBIDDEN_FIELD_RE ["updatedAt"; "lastRun"; "nextRunAt"; "nextAt"; "last"; "nextRun"; "lastrun"] =
  [true; true; true; false; false; false; false].
Proof. reflexivity. Qed.

Example ex_conflict : map isNameConflict ["rpc error: code = AlreadyExists desc = x"; "HTTP 409: no"; "x409"; "Config ALREADY EXISTS"; "timeout"] =
  [true; true; false; true; false].
Proof. reflexivity. Qed.

(** * The codec *)

Lemma class_re_chars (p q r : ascii -> bool) n s : (forall c, p c = true -> r c = true) -> (forall c, q c = true -> r c = true) ->
  class_re p q n s = true -> all_chars r s = true /\ (1 <= String.length s <= S n)%nat.
Proof.
  intros Hp Hq. destruct s as [|c s]; [done|]. unfold class_re. cbn [all_chars String.length]. intros H. b2p.
  rewrite (Hp c) by done. rewrite (all_chars_impl q r s) by done. split; [done|lia].
Qed.

Lemma class_chars_no x (p q : ascii -> bool) n s : p x = false -> q x = false -> class_re p q n s = true -> no_char x s = true.
Proof.
  intros Hp Hq H. unfold no_char. eapply (class_re_chars p q); [..|exact H]; intros c Hc; apply negb_true_iff, Ascii.eqb_neq; congruence.
Qed.

Lemma collection_no_dot c : COLLECTION_RE c = true -> no_char "." c = true.
Proof. by apply class_chars_no. Qed.
Lemma id_no_dot i : ID_RE i = true -> no_char "." i = true.
Proof. by apply class_chars_no. Qed.
Lemma collection_no_nul c : COLLECTION_RE c = true -> no_char (ascii_of_nat 0) c = true.
Proof. by apply class_chars_no. Qed.
Lemma id_no_nul i : ID_RE i = true -> no_char (ascii_of_nat 0) i = true.
Proof. by apply class_chars_no. Qed.

Lemma digits_no_dot d : all_chars is_digit d = true -> no_char "." d = true.
Proof. apply all_chars_impl. intros c. destruct c as [[] [] [] [] [] [] [] []]; vm_compute; done. Qed.

Lemma split_at_piece x a b : no_char x a = true -> split_at x (a +:+ String x b) = a :: split_at x b.
Proof. intros Ha. by rewrite split_at_app, split_at_none. Qed.

Definition valid_key (c i : string) : bool := match assertKvKey c i with None => true | Some _ => false end.

Lemma valid_key_spec c i : valid_key c i = true <->
  COLLECTION_RE c = true /\ ID_RE i = true /\ (String.length c + String.length i <= 45)%nat.
Proof.
  unfold valid_key, assertKvKey, kvConfigName, KV_NAME_PREFIX, KV_NAME_MAX, KV_MAX_SEQ.
  rewrite !string_length_app. change (String.length (pretty 999999)) with 6%nat. cbn [String.length].
  destruct (COLLECTION_RE c), (ID_RE i); cbn [negb]; try (split; [done|naive_solver]).
  destruct (Z.ltb_spec 64 (Z.of_nat (9 + (1 + (String.length c + (1 + (String.length i + (2 + 6)))))))); split; intros; try done; lia.
Qed.

Lemma unkey_keyOf c i : COLLECTION_RE c = true -> ID_RE i = true -> unkey (keyOf c i) = (c, i).
Proof.
  intros Hc%collection_no_nul Hi%id_no_nul. unfold unkey, keyOf, nul. cbn [String.append].
  by rewrite (split_at_piece _ _ _ Hc), (split_at_none _ _ Hi).
Qed.

Lemma kvConfigName_parses c i seq : COLLECTION_RE c = true -> ID_RE i = true -> 1 <= seq < 1000000 ->
  parseKvConfigName (kvConfigName c i seq) = Some (c, i, seq).
Proof.
  intros Hc Hi Hs. destruct (pretty_pos seq) as (Hd & Hn & Hlen); [lia|].
  specialize (Hlen 6%nat ltac:(change (10 ^ Z.of_nat 6) with 1000000; lia)).
  assert (Hdot : no_char "." (String "v" (pretty seq)) = true).
  { unfold no_char. cbn [all_chars]. apply andb_true_iff. split; [done|]. apply digits_no_dot. unfold all_digits in Hd. by b2p. }
  assert (Hg : name_groups (kvConfigName c i seq) = Some (c, i, pretty seq)).
  { unfold name_groups, kvConfigName. cbn [String.append].
    rewrite (split_at_piece "." KV_NAME_PREFIX) by done. rewrite (split_at_piece "." c) by by apply collection_no_dot.
    rewrite (split_at_piece "." i) by by apply id_no_dot. rewrite (split_at_none _ _ Hdot), Hc, Hi, Hd.
    by rewrite (proj2 (Nat.leb_le _ _) Hlen). }
  unfold parseKvConfigName. rewrite Hg, Hn. by rewrite (proj2 (Z.ltb_ge _ _)) by lia.
Qed.

(** The names of the versions of a checked key parse back to it, and fit in the
    64 characters Docker allows. *)
Lemma kvConfigName_roundtrip c i seq : assertKvKey c i = None -> 1 <= seq <= KV_MAX_SEQ ->
  parseKvConfigName (kvConfigName c i seq) = Some (c, i, seq) /\
  Z.of_nat (String.length (kvConfigName c i seq)) <= KV_NAME_MAX.
Proof.
  intros Hk Hs. assert (Hv : valid_key c i = true) by (unfold valid_key; by rewrite Hk).
  apply valid_key_spec in Hv as (Hc & Hi & Hl). unfold KV_MAX_SEQ in Hs.
  destruct (pretty_pos seq) as (Hd & Hn & Hlen); [lia|]. specialize (Hlen 6%nat ltac:(change (10 ^ Z.of_nat 6) with 1000000; lia)). split.
  - apply kvConfigName_parses; done || lia.
  - unfold kvConfigName, KV_NAME_MAX, KV_NAME_PREFIX. rewrite !string_length_app. cbn [String.length]. lia.
Qed.

Lemma kvConfigName_roundtrip_witness :
  parseKvConfigName (kvConfigName "compose" "my_stack-1" 41) = Some ("compose", "my_stack-1", 41) /\
  Z.of_nat (String.length (kvConfigName "compose" "my_stack-1" 41)) <= KV_NAME_MAX.
Proof. apply (kvConfigName_roundtrip "compose" "my_stack-1" 41); [vm_compute; reflexivity|unfold KV_MAX_SEQ; lia]. Defined.

Definition byte (n : Z) : Prop := 0 <= n < 256.

Lemma char_of_code c : ascii_of_nat (Z.to_nat (Z.of_N (code c))) = c.
Proof. unfold code. rewrite <- N_nat_Z, Nat2Z.id. apply ascii_nat_embedding. Qed.

Lemma code_byte c : byte (Z.of_N (code c)).
Proof. unfold byte, code. pose proof (N_ascii_bounded c). lia. Qed.

Lemma utf8_bytes s : Forall byte (utf8 s).
Proof.
  induction s as [|c s IH]; cbn [utf8]; [constructor|]. apply Forall_app. split; [|done].
  pose proof (code_byte c) as H. unfold byte in *. destruct (Z.ltb_spec (Z.of_N (code c)) 128); repeat constructor; try lia.
  all: Z.div_mod_to_equations; lia.
Qed.

Lemma of_utf8_utf8 s : of_utf8 (utf8 s) = Some s.
Proof.
  induction s as [|c s IH]; [done|]. cbn [utf8]. pose proof (code_byte c) as H. unfold byte in H. pose proof (char_of_code c) as Hc.
  set (n := Z.of_N (code c)) in *. destruct (Z.ltb_spec n 128) as [Hn|Hn]; cbn [app of_utf8].
  - rewrite (proj2 (Z.ltb_lt _ _) Hn), IH. by rewrite Hc.
  - assert (Hq : 2 <= n / 64 < 4) by (Z.div_mod_to_equations; lia). assert (Hm : 0 <= n mod 64 < 64) by by apply Z.mod_pos_bound.
    rewrite (proj2 (Z.ltb_ge _ _)) by lia.
    assert ((194 <=? 192 + n / 64) && (192 + n / 64 <=? 195) && (128 <=? 128 + n mod 64) && (128 + n mod 64 <=? 191) = true) as ->.
    { rewrite !andb_true_iff, !Z.leb_le. lia. }
    rewrite IH. replace ((192 + n / 64 - 192) * 64 + (128 + n mod 64 - 128)) with n by (pose proof (Z.div_mod n 64); lia).
    by rewrite Hc.
Qed.

Lemma b64_value_char n : 0 <= n < 64 -> b64_value (b64_char n) = Some n.
Proof.
  intros Hn. pose proof (check_range_spec (fun n => bool_decide (b64_value (b64_char n) = Some n)) 0 64) as H.
  specialize (H ltac:(vm_compute; reflexivity) n Hn). by apply bool_decide_eq_true in H.
Qed.

Lemma b64_values_cons n s : 0 <= n < 64 -> b64_values (String (b64_char n) s) = n :: b64_values s.
Proof. intros Hn. cbn [b64_values]. by rewrite b64_value_char. Qed.

(** Induction three bytes at a time. *)
Lemma list_ind3 {A} (P : list A -> Prop) :
  P [] -> (forall a, P [a]) -> (forall a b, P [a; b]) -> (forall a b c l, P l -> P (a :: b :: c :: l)) -> forall l, P l.
Proof.
  intros H0 H1 H2 H3 l. assert (H : forall n l, (length l <= n)%nat -> P l).
  { clear l. induction n as [|n IH]; intros [|a [|b [|c l]]] Hl; simpl in Hl; try done; try lia. apply H3, IH. lia. }
  by apply (H (length l)).
Qed.

Lemma b64_roundtrip l : Forall byte l -> b64_decode (b64_values (b64_encode l)) = l.
Proof.
  unfold byte. induction l as [|a|a b|a b c l IH] using list_ind3; [done|..]; rewrite !Forall_cons; intros H; decompose [and] H; clear H;
    cbn [b64_encode]; rewrite !b64_values_cons by (Z.div_mod_to_equations; lia).
  - change (b64_values "==") with (@nil Z). cbn [b64_decode]. f_equal. Z.div_mod_to_equations; lia.
  - change (b64_values "=") with (@nil Z). cbn [b64_decode]. f_equal; [|f_equal]; Z.div_mod_to_equations; lia.
  - cbn [b64_decode app]. rewrite IH by done. f_equal; [|f_equal; [|f_equal]]; Z.div_mod_to_equations; lia.
Qed.

Lemma b64_length l : Z.of_nat (String.length (b64_encode l)) = 4 * ((Z.of_nat (length l) + 2) / 3).
Proof.
  induction l as [|a|a b|a b c l IH] using list_ind3; try done. cbn [b64_encode String.length length].
  rewrite !Nat2Z.inj_succ, IH. Z.div_mod_to_equations; lia.
Qed.

(** A stored payload reads back, and takes four characters per three bytes. *)
Lemma toB64_roundtrip s :
  fromB64 (toB64 s) = Some s /\ Z.of_nat (String.length (toB64 s)) = 4 * ((Z.of_nat (length (utf8 s)) + 2) / 3).
Proof. split; [|apply b64_length]. unfold fromB64, toB64. rewrite b64_roundtrip by apply utf8_bytes. apply of_utf8_utf8. Qed.
