(* ===== verification/KvTask.v ===== *)
(** Asynchronous code over the Docker configs of a swarm (packages/core/src/swarm-kv.ts).

    A [task] is the rest of an asynchronous function: finished, a synchronous
    piece that runs to completion on the clock and the shared fields of the
    instance (what it writes, and what comes next), or a call it awaits.  Other tasks and other controllers act only
    where a task awaits.  [wp] says what every run of a task ends in, whatever they
    do there; [run] executes a task on a driver, [crash] stops it after some calls.

    [docker] states what the driver promises: names are unique and a create of a
    taken name is refused.  The in-memory driver of the source keeps the promise. *)

From S2P Require Import Prelude Json KvCodec.

(** * The driver *)

Record KvConfigInfo := { ci_name : string; ci_createdAt : Z; ci_labels : list (string * string) }.

(** What Docker keeps of a config. *)
Record Config := { cf_dataB64 : string; cf_labels : list (string * string); cf_createdAt : Z }.

(** The operations of [KvDriver], and waiting for anything else. *)
Inductive request : Type -> Type :=
  | QList : request (list KvConfigInfo)
  | QRead (name : string) : request string
  | QCreate (name dataB64 : string) (labels : list (string * string)) : request unit
  | QRemove (name : string) : request unit
  | QTick : request unit.

Definition info_of (nc : string * Config) : KvConfigInfo :=
  {| ci_name := fst nc; ci_createdAt := cf_createdAt (snd nc); ci_labels := cf_labels (snd nc) |}.

Abbreviation Configs := (gmap string Config).

(** Docker's answers: a listing in any order, unique names, immutable contents. *)
Definition docker {X} (q : request X) (m : Configs) : res X -> Configs -> Prop :=
  match q in request X return res X -> Configs -> Prop with
  | QList => fun r m' => m' = m /\ exists l, r = Ok l /\ l ≡ₚ map info_of (map_to_list m)
  | QRead name => fun r m' => m' = m /\
      match m !! name with Some c => r = Ok (cf_dataB64 c) | None => exists e, r = Err e end
  | QCreate name data labels => fun r m' =>
      match m !! name with
      | None => r = Ok tt /\ exists t, m' = <[name := {| cf_dataB64 := data; cf_labels := labels; cf_createdAt := t |}]> m
      | Some _ => m' = m /\ exists e, r = Err e /\ isNameConflict e = true
      end
  | QRemove name => fun r m' =>
      match m !! name with
      | Some _ => r = Ok tt /\ m' = delete name m
      | None => m' = m /\ exists e, r = Err e /\ isMissing e = true
      end
  | QTick => fun r m' => r = Ok tt /\ m' = m
  end.

(** A driver as a state machine, its contract, and the configs it stands for. *)
Class KvDriver (St : Type) := {
  handle : forall {X}, request X -> St -> res X * St;
  view : St -> Configs;
  drv_ok : St -> Prop
}.

Class KvDriverLaws (St : Type) `{KvDriver St} : Prop :=
  drv_docker : forall X (q : request X) (st : St), drv_ok st ->
    docker q (view st) (fst (handle q st)) (view (snd (handle q st))) /\ drv_ok (snd (handle q st)).

(** * Tasks *)

Section task.
Context {Fields : Type}.

Inductive task (A : Type) : Type :=
  | Done (r : A + KvErr)
  | Sync (upd : Z -> Fields -> Fields) (next : Z -> Fields -> task A)
  | Await {X : Type} (q : request X) (k : res X -> task A).
Arguments Done {A}.
Arguments Sync {A}.
Arguments Await {A X}.

Definition ret {A} (a : A) : task A := Done (inl a).
Definition throw {A} (e : KvErr) : task A := Done (inr e).

(** [t.then(k, k)] *)
Fixpoint settle {A B} (t : task A) (k : A + KvErr -> task B) : task B :=
  match t with
  | Done r => k r
  | Sync upd next => Sync upd (fun now c => settle (next now c) k)
  | Await q g => Await q (fun r => settle (g r) k)
  end.

Definition bind {A B} (t : task A) (f : A -> task B) : task B :=
  settle t (fun r => match r with inl a => f a | inr e => throw e end).

(** A synchronous piece. *)
Definition sync {A} (f : Z -> Fields -> Fields * A) : task A :=
  Sync (fun now c => fst (f now c)) (fun now c => ret (snd (f now c))).

Definition await {X} (q : request X) : task X :=
  Await q (fun r => match r with Ok x => ret x | Err m => throw (Thrown m) end).

(** * What every run ends in *)

Record World := { w_configs : Configs; w_fields : Fields; w_now : Z }.

Definition set_fields (w : World) (c : Fields) : World := {| w_configs := w_configs w; w_fields := c; w_now := w_now w |}.
Definition set_configs (w : World) (m : Configs) : World := {| w_configs := m; w_fields := w_fields w; w_now := w_now w |}.

(** Each call [q] is made in a world that [R] lets the present one become; it is
    answered as [D] allows, and [G] holds of it. *)
Section wp.
Context (D : forall X, request X -> Configs -> res X -> Configs -> Prop) (R : World -> World -> Prop)
  (G : forall X, World -> request X -> res X -> Prop).

Fixpoint wp {A} (t : task A) (Q : A + KvErr -> World -> Prop) (w : World) : Prop :=
  match t with
  | Done r => Q r w
  | Sync upd next => wp (next (w_now w) (w_fields w)) Q (set_fields w (upd (w_now w) (w_fields w)))
  | Await q k => forall w1 r m, R w w1 -> D _ q (w_configs w1) r m -> G _ w1 q r /\ wp (k r) Q (set_configs w1 m)
  end.

Lemma wp_mono {A} (t : task A) (Q Q' : A + KvErr -> World -> Prop) w :
  (forall r w', Q r w' -> Q' r w') -> wp t Q w -> wp t Q' w.
Proof.
  intros HQ. revert w. induction t as [r|upd next IH|X q k IH]; intros w; cbn [wp]; [apply HQ| |].
  - apply IH.
  - intros H w1 r m HR HD. destruct (H w1 r m HR HD) as [HG Hk]. auto.
Qed.

Lemma wp_settle {A B} (t : task A) (k : A + KvErr -> task B) Q w :
  wp t (fun r w' => wp (k r) Q w') w -> wp (settle t k) Q w.
Proof.
  revert w. induction t as [r|upd next IH|X q g IH]; intros w; cbn [wp settle]; [done| |].
  - apply IH.
  - intros H w1 r m HR HD. destruct (H w1 r m HR HD) as [HG Hk]. auto.
Qed.

Lemma wp_bind {A B} (t : task A) (f : A -> task B) Q w :
  wp t (fun r w' => match r with inl a => wp (f a) Q w' | inr e => Q (inr e) w' end) w -> wp (bind t f) Q w.
Proof. intros H. apply wp_settle. eapply wp_mono; [|exact H]. by intros [a|e] w'. Qed.
End wp.

(** What holds of all runs holds of fewer. *)
Lemma wp_weaken (D D' : forall X, request X -> Configs -> res X -> Configs -> Prop) (R R' : World -> World -> Prop) G {A} (t : task A) Q w :
  (forall X q m r m', D' X q m r m' -> D X q m r m') -> (forall w w1, R' w w1 -> R w w1) -> wp D R G t Q w -> wp D' R' G t Q w.
Proof.
  intros HD HR. revert w. induction t as [r|upd next IH|X q k IH]; intros w; cbn [wp]; [done|apply IH|].
  intros Hw w1 r m HR1 HD1. destruct (Hw w1 r m (HR _ _ HR1) (HD _ _ _ _ _ HD1)) as [Hg Hk]. auto.
Qed.

(** * Runs *)

Section run.
Context {St : Type} `{KvDriver St}.

(** A state of the driver, the fields and the clock; the calls made so far select
    what the environment does before the next one. *)
Record Run := { r_st : St; r_fields : Fields; r_now : Z; r_calls : nat }.

Definition world (s : Run) : World := {| w_configs := view (r_st s); w_fields := r_fields s; w_now := r_now s |}.

Context (env : nat -> Run -> Run).

(** The answer to a call, and the state after it. *)
Definition answer {X} (q : request X) (s : Run) : res X * Run :=
  let s1 := env (r_calls s) s in
  let '(r, st) := handle q (r_st s1) in
  (r, {| r_st := st; r_fields := r_fields s1; r_now := r_now s1; r_calls := S (r_calls s) |}).

Definition put_fields (s : Run) (c : Fields) : Run :=
  {| r_st := r_st s; r_fields := c; r_now := r_now s; r_calls := r_calls s |}.

Fixpoint run {A} (t : task A) (s : Run) : (A + KvErr) * Run :=
  match t with
  | Done r => (r, s)
  | Sync upd next => run (next (r_now s) (r_fields s)) (put_fields s (upd (r_now s) (r_fields s)))
  | Await q k => let '(r, s') := answer q s in run (k r) s'
  end.

(** The state in which the process dies, after [n] calls at most. *)
Fixpoint crash {A} (n : nat) (t : task A) (s : Run) : Run :=
  match t with
  | Done _ => s
  | Sync upd next => crash n (next (r_now s) (r_fields s)) (put_fields s (upd (r_now s) (r_fields s)))
  | Await q k => match n with O => s | S n' => let '(r, s') := answer q s in crash n' (k r) s' end
  end.

(** [P] of every call of a run, with the world it is made in and its answer. *)
Fixpoint each_call (P : forall X, World -> request X -> res X -> Prop) {A} (t : task A) (s : Run) : Prop :=
  match t with
  | Done _ => True
  | Sync upd next => each_call P (next (r_now s) (r_fields s)) (put_fields s (upd (r_now s) (r_fields s)))
  | Await q k => P _ (world (env (r_calls s) s)) q (fst (answer q s)) /\ each_call P (k (fst (answer q s))) (snd (answer q s))
  end.

(** Whatever the driver promises. *)
Theorem wp_calls D (R : World -> World -> Prop) G (I : St -> Prop) {A} (t : task A) Q s :
  (forall X (q : request X) st, I st -> D X q (view st) (fst (handle q st)) (view (snd (handle q st))) /\ I (snd (handle q st))) ->
  (forall n s, I (r_st s) -> I (r_st (env n s)) /\ R (world s) (world (env n s))) ->
  I (r_st s) -> wp D R G t Q (world s) -> each_call G t s.
Proof using Type*.
  intros HD HR. revert s. induction t as [r|upd next IH|X q k IH]; intros s Hok Hwp; cbn [wp each_call] in *; [done|by apply IH|].
  destruct (HR (r_calls s) s Hok) as [Hok1 HR1]. destruct (HD X q (r_st (env (r_calls s) s)) Hok1) as [Hd Hok2].
  unfold answer. destruct (handle q (r_st (env (r_calls s) s))) as [r st]. cbn [fst snd] in *.
  destruct (Hwp _ _ _ HR1 Hd) as [Hg Hk]. split; [done|]. by apply IH.
Qed.

Context `{!KvDriverLaws St} (R : World -> World -> Prop) (G : forall X, World -> request X -> res X -> Prop).
Context (Henv : forall n s, drv_ok (r_st s) -> drv_ok (r_st (env n s)) /\ R (world s) (world (env n s))).

Lemma answer_world {X} (q : request X) s : drv_ok (r_st s) -> let s1 := env (r_calls s) s in
  R (world s) (world s1) /\ docker q (w_configs (world s1)) (fst (answer q s)) (view (r_st (snd (answer q s)))) /\
  world (snd (answer q s)) = set_configs (world s1) (view (r_st (snd (answer q s)))) /\ drv_ok (r_st (snd (answer q s))).
Proof using Type*.
  intros Hok. destruct (Henv (r_calls s) s Hok) as [Hok1 HR]. unfold answer.
  pose proof (drv_docker X q (r_st (env (r_calls s) s)) Hok1) as [Hd Hok2].
  destruct (handle q (r_st (env (r_calls s) s))) as [r st]. simpl in *. done.
Qed.

Theorem wp_run {A} (t : task A) Q s : drv_ok (r_st s) -> wp (@docker) R G t Q (world s) ->
  Q (fst (run t s)) (world (snd (run t s))) /\ drv_ok (r_st (snd (run t s))).
Proof using Type*.
  revert s. induction t as [r|upd next IH|X q k IH]; intros s Hok Hwp; cbn [wp run] in *; [done| |].
  - by apply IH.
  - destruct (answer_world q s Hok) as (HR & Hd & Hw & Hok2). destruct (answer q s) as [r s']. simpl in *.
    destruct (Hwp _ _ _ HR Hd) as [_ Hk]. apply IH; [done|]. by rewrite Hw.
Qed.

(** What holds before every call and at the end holds after a crash. *)
Theorem wp_crash {A} (t : task A) n (C : Configs -> Prop) Q s :
  (forall w w1, R w w1 -> w_configs w1 = w_configs w) ->
  (forall X w1 (q : request X) r, G X w1 q r -> C (w_configs w1)) -> (forall r w, Q r w -> C (w_configs w)) ->
  drv_ok (r_st s) -> wp (@docker) R G t Q (world s) -> C (view (r_st (crash n t s))).
Proof using Type*.
  intros HR' HG HQ. revert n s. induction t as [r|upd next IH|X q k IH]; intros n s Hok Hwp; cbn [wp crash] in *.
  - by apply HQ in Hwp.
  - by apply IH.
  - destruct (answer_world q s Hok) as (HR & Hd & Hw & Hok2). destruct n as [|n].
    + destruct (Hwp _ _ _ HR Hd) as [Hg _]. apply HG in Hg. rewrite (HR' _ _ HR) in Hg. exact Hg.
    + destruct (answer q s) as [r s']. simpl in *.
      destruct (Hwp _ _ _ HR Hd) as [_ Hk]. apply IH; [done|]. by rewrite Hw.
Qed.
End run.
End task.

Arguments task : clear implicits.
Arguments World : clear implicits.
Arguments Run : clear implicits.
#[global] Arguments Done {Fields A}.
#[global] Arguments Sync {Fields A}.
#[global] Arguments Await {Fields A X}.
#[global] Arguments wp {Fields} D R G {A} !t Q w / : simpl nomatch.
#[global] Arguments settle {Fields A B} !t k / : simpl nomatch.

Declare Scope task_scope.
Notation "'let*' x ':=' t 'in' k" := (bind t (fun x => k)) (at level 10, x pattern, t at level 100, k at level 200) : task_scope.
Notation "'do*' t 'in' k" := (bind t (fun _ => k)) (at level 10, t at level 100, k at level 200) : task_scope.

(** * The in-memory driver *)

(** [memoryKvDriver]: the map of configs in insertion order, the log of calls and
    the clock. *)
Record MemoryKv := { mk_configs : list (string * Config); mk_calls : list string; mk_now : Z }.

Fixpoint map_delete {A} (k : string) (m : list (string * A)) : list (string * A) :=
  match m with [] => [] | (k', v) :: m' => if String.eqb k k' then m' else (k', v) :: map_delete k m' end.

Definition log (s : MemoryKv) (call : string) : MemoryKv :=
  {| mk_configs := mk_configs s; mk_calls := mk_calls s ++ [call]; mk_now := mk_now s |}.
Definition with_configs (s : MemoryKv) (m : list (string * Config)) : MemoryKv :=
  {| mk_configs := m; mk_calls := mk_calls s; mk_now := mk_now s |}.

Definition memoryKvDriver {X} (q : request X) (s : MemoryKv) : res X * MemoryKv :=
  match q in request X return res X * MemoryKv with
  | QList => (Ok (map info_of (mk_configs s)), log s "list")
  | QRead name =>
      let s := log s ("read " +:+ name) in
      match get name (mk_configs s) with
      | Some c => (Ok (cf_dataB64 c), s)
      | None => (Err ("config " +:+ name +:+ " not found"), s)
      end
  | QCreate name data labels =>
      let s := log s ("create " +:+ name) in
      match get name (mk_configs s) with
      | Some _ => (Err ("rpc error: code = AlreadyExists desc = config " +:+ name +:+ " already exists"), s)
      | None => (Ok tt, with_configs s (obj_set name {| cf_dataB64 := data; cf_labels := labels; cf_createdAt := mk_now s |} (mk_configs s)))
      end
  | QRemove name =>
      let s := log s ("remove " +:+ name) in
      match get name (mk_configs s) with
      | Some _ => (Ok tt, with_configs s (map_delete name (mk_configs s)))
      | None => (Err ("config " +:+ name +:+ " not found"), s)
      end
  | QTick => (Ok tt, s)
  end.

#[export] Instance memory_driver : KvDriver MemoryKv := {
  handle := @memoryKvDriver;
  view s := list_to_map (mk_configs s);
  drv_ok s := NoDup (map fst (mk_configs s))
}.

Lemma map_get {A} k (m : list (string * A)) : (list_to_map m : gmap string A) !! k = get k m.
Proof.
  induction m as [|[k' v] m IH]; simpl; [apply lookup_empty|].
  destruct (String.eqb_spec k k') as [->|Hk]; [by rewrite lookup_insert_eq|by rewrite lookup_insert_ne].
Qed.

Lemma get_map_delete {A} k k' (m : list (string * A)) : NoDup (map fst m) ->
  get k' (map_delete k m) = if String.eqb k' k then None else get k' m.
Proof.
  induction m as [|[a v] m IH]; cbn [map_delete get map fst]; [by destruct (String.eqb k' k)|].
  intros [Ha Hd]%NoDup_cons. destruct (String.eqb_spec k a) as [->|Hk]; cbn [get].
  - destruct (String.eqb_spec k' a) as [->|]; [|done]. destruct (get a m) eqn:E; [|done]. exfalso. apply Ha, get_keys. by eexists.
  - rewrite IH by done. destruct (String.eqb_spec k' a) as [->|]; [|done]. by destruct (String.eqb_spec a k); subst.
Qed.

Lemma map_delete_keys {A} k (m : list (string * A)) x : x ∈ map fst (map_delete k m) -> x ∈ map fst m.
Proof.
  induction m as [|[a v] m IH]; simpl; [done|]. destruct (String.eqb k a); simpl; rewrite ?elem_of_cons; [tauto|].
  intros [?|?%IH]; tauto.
Qed.

Lemma map_delete_NoDup {A} k (m : list (string * A)) : NoDup (map fst m) -> NoDup (map fst (map_delete k m)).
Proof.
  induction m as [|[a v] m IH]; simpl; [done|]. intros [Ha Hd]%NoDup_cons. destruct (String.eqb k a); simpl; [done|].
  apply NoDup_cons. split; [by intros ?%map_delete_keys|auto].
Qed.

Lemma map_of_set {A} k (v : A) m : (list_to_map (obj_set k v m) : gmap string A) = <[k := v]> (list_to_map m).
Proof.
  apply map_eq. intros k'. rewrite map_get, get_obj_set. destruct (String.eqb_spec k' k) as [->|Hk].
  - by rewrite lookup_insert_eq.
  - by rewrite lookup_insert_ne, map_get.
Qed.

Lemma map_of_delete {A} k (m : list (string * A)) : NoDup (map fst m) ->
  (list_to_map (map_delete k m) : gmap string A) = delete k (list_to_map m).
Proof.
  intros Hd. apply map_eq. intros k'. rewrite map_get, get_map_delete by done. destruct (String.eqb_spec k' k) as [->|Hk].
  - by rewrite lookup_delete_eq.
  - by rewrite lookup_delete_ne, map_get.
Qed.

Lemma includes_middle p a b : includes p (a +:+ p +:+ b) = true.
Proof.
  induction a as [|c a IH].
  - cbn [String.append]. assert (Hs : startsWith p (p +:+ b) = true) by (apply startsWith_spec; by exists b).
    destruct (p +:+ b); cbn [includes]; by rewrite Hs.
  - cbn [String.append includes]. by rewrite IH, orb_true_r.
Qed.

Lemma toLowerCase_app a b : toLowerCase (a +:+ b) = toLowerCase a +:+ toLowerCase b.
Proof. unfold toLowerCase. induction a as [|c a IH]; [done|]. cbn [String.append smap]. by rewrite IH. Qed.

Lemma not_found_missing name : isMissing ("config " +:+ name +:+ " not found") = true.
Proof.
  unfold isMissing. rewrite !toLowerCase_app. change (toLowerCase " not found") with (" " +:+ "not found" +:+ "").
  rewrite <- (string_app_assoc (toLowerCase name)), <- (string_app_assoc (toLowerCase "config ")).
  by rewrite includes_middle.
Qed.

Lemma exists_conflict name : isNameConflict ("rpc error: code = AlreadyExists desc = config " +:+ name +:+ " already exists") = true.
Proof.
  unfold isNameConflict. rewrite !toLowerCase_app. change (toLowerCase " already exists") with (" " +:+ "already exists" +:+ "").
  rewrite <- (string_app_assoc (toLowerCase name)), <- (string_app_assoc (toLowerCase "rpc error: code = AlreadyExists desc = config ")).
  by rewrite includes_middle.
Qed.

(** The driver of the tests keeps Docker's contract. *)
#[export] Instance memory_driver_laws : KvDriverLaws MemoryKv.
Proof.
  intros X q st Hok. cbn [drv_ok memory_driver] in Hok. cbn [handle view memory_driver].
  destruct q as [|name|name data labels|name|]; cbn [memoryKvDriver mk_configs log docker].
  - split; [|done]. split; [done|]. eexists. split; [done|]. by rewrite map_to_list_to_map.
  - rewrite map_get. destruct (get name (mk_configs st)) as [c|]; cbn [fst snd mk_configs log]; (split; [|done]); split; eauto.
  - rewrite map_get. destruct (get name (mk_configs st)) as [c|]; cbn [fst snd mk_configs log with_configs].
    + split; [|done]. split; [done|]. eexists. split; [done|apply exists_conflict].
    + split; [|by apply obj_set_NoDup]. split; [done|]. rewrite map_of_set. eauto.
  - rewrite map_get. destruct (get name (mk_configs st)) as [c|]; cbn [fst snd mk_configs log with_configs].
    + split; [|by apply map_delete_NoDup]. split; [done|]. by apply map_of_delete.
    + split; [|done]. split; [done|]. eexists. split; [done|apply not_found_missing].
  - done.
Qed.
