(* ===== verification/SwarmKv.v ===== *)
(** The document store on Docker configs (packages/core/src/swarm-kv.ts): the
    class [SwarmKv].

    A method is a task on the fields of the instance (KvTask.v).  The
    text of errors is left out; the function given to [update] takes the current
    value and gives the next one, [None] for [undefined], or throws.  [serial] is
    not a definition: it makes the writes of one instance run one after the other,
    each as it is here.  A stale read starts a refresh in the background, recorded
    in [c_loading] with the generation at its start; [backgroundRefresh] is that
    task.  Waiting for a refresh in flight is running it. *)

From S2P Require Import Prelude Comparators Json JsonText KvCodec KvTask.
Open Scope task_scope.

Record VersionMeta := { vm_seq : Z; vm_bytes : Z; vm_sha : string; vm_createdAt : Z }.
Record Entry := { e_versions : list VersionMeta; e_value : value }.
Record KvDoc := { kd_collection : string; kd_id : string; kd_seq : Z; kd_value : value; kd_updatedAt : Z }.
Record KvExportDoc := { ex_collection : string; ex_id : string; ex_value : value }.

(** Payload encryption; [open_sealed] may throw. *)
Record KvSealer := { seal : string -> string; open_sealed : string -> option string }.

Definition plainKvSealer : KvSealer := {| seal := fun s => s; open_sealed := Some |}.

Record SwarmKvOptions := {
  o_orgId : string; o_sealer : KvSealer; o_collections : option (list string); o_maxDocBytes : option Z;
  o_maxTotalBytes : option Z; o_keepVersions : option Z; o_refreshMs : option Z; o_maxRetries : option Z
}.

(** The fields of an instance that change. *)
Record Cache := {
  c_entries : list (string * Entry); c_loadedAt : option Z; c_loading : option Z; c_gen : Z; c_touched : list (string * Z)
}.

Definition new_cache : Cache := {| c_entries := []; c_loadedAt := None; c_loading := None; c_gen := 0; c_touched := [] |}.

Definition set_entries (c : Cache) (m : list (string * Entry)) : Cache :=
  {| c_entries := m; c_loadedAt := c_loadedAt c; c_loading := c_loading c; c_gen := c_gen c; c_touched := c_touched c |}.
Definition set_loading (c : Cache) (l : option Z) : Cache :=
  {| c_entries := c_entries c; c_loadedAt := c_loadedAt c; c_loading := l; c_gen := c_gen c; c_touched := c_touched c |}.

Abbreviation Task := (task Cache).

(** [xs[xs.length - 1]] *)
Definition latest (vs : list VersionMeta) : option VersionMeta := last vs.

Definition sum (l : list Z) : Z := foldr Z.add 0 l.
Definition bytes_of (vs : list VersionMeta) : Z := sum (map vm_bytes vs).

Definition footprint (c : Cache) : Z := sum (map (fun ke => bytes_of (e_versions (snd ke))) (c_entries c)).

Definition entry_of (c : Cache) (k : string) : option Entry := get k (c_entries c).
Definition curLatest (c : Cache) (k : string) : option VersionMeta := entry_of c k ≫= fun e => latest (e_versions e).

Definition touch (k : string) (c : Cache) : Cache :=
  {| c_entries := c_entries c; c_loadedAt := c_loadedAt c; c_loading := c_loading c;
     c_gen := c_gen c + 1; c_touched := obj_set k (c_gen c + 1) (c_touched c) |}.

Definition docOf (c : Cache) (collection id : string) : option KvDoc :=
  match entry_of c (keyOf collection id) with
  | Some e =>
      (fun l => {| kd_collection := collection; kd_id := id; kd_seq := vm_seq l; kd_value := e_value e; kd_updatedAt := vm_createdAt l |})
        <$> latest (e_versions e)
  | None => None
  end.

Section store.
Context (o : SwarmKvOptions).

Definition maxDocBytes : Z := default KV_MAX_DOC_BYTES (o_maxDocBytes o).
Definition maxTotalBytes : Z := default KV_MAX_TOTAL_BYTES (o_maxTotalBytes o).
Definition keep : Z := Z.max 1 (default KV_KEEP_VERSIONS (o_keepVersions o)).
Definition refreshMs : Z := default 60000 (o_refreshMs o).
Definition maxRetries : Z := default 5 (o_maxRetries o).

Definition allowed (collection : string) : bool :=
  match o_collections o with Some l => mem collection l | None => true end.

Definition checkCollection (collection : string) : option KvErr :=
  if negb (allowed collection) then Some (KvError INVALID)
  else if negb (COLLECTION_RE collection) then Some (KvError INVALID) else None.

Definition check (collection id : string) : option KvErr :=
  match checkCollection collection with Some e => Some e | None => assertKvKey collection id end.

(** A check that throws, before the rest. *)
Definition guard {A} (e : option KvErr) (t : Task A) : Task A := match e with Some e => throw e | None => t end.

(** * Reading the swarm *)

Definition label (k : string) (c : KvConfigInfo) : option string := get k (ci_labels c).

Definition is_mine (c : KvConfigInfo) : bool :=
  bool_decide (label KV_LABEL c = Some "1") && bool_decide (label KV_LABEL_ORG c = Some (o_orgId o)).

Definition meta_of (c : KvConfigInfo) (seq : Z) : VersionMeta :=
  {| vm_seq := seq; vm_bytes := default 0 (parse_int (default "0" (label KV_LABEL_BYTES c)));
     vm_sha := default "" (label KV_LABEL_SHA c); vm_createdAt := ci_createdAt c |}.

(** The key and version of a listed config, when it is one of this store. *)
Definition listed_version (c : KvConfigInfo) : option (string * VersionMeta) :=
  if is_mine c then
    match parseKvConfigName (ci_name c) with
    | Some (collection, id, seq) => if allowed collection then Some (keyOf collection id, meta_of c seq) else None
    | None => None
    end
  else None.

Definition group_step (byKey : list (string * list VersionMeta)) (c : KvConfigInfo) : list (string * list VersionMeta) :=
  match listed_version c with
  | Some (k, m) => obj_set k (default [] (get k byKey) ++ [m]) byKey
  | None => byKey
  end.

Definition by_seq : VersionMeta -> VersionMeta -> Z := cmp_asc vm_seq.

Definition group (all : list KvConfigInfo) : list (string * list VersionMeta) :=
  map (fun kl => (fst kl, js_sort by_seq (snd kl))) (foldl group_step [] all).

Definition listMine : Task (list (string * list VersionMeta)) :=
  let* all := await QList in ret (group all).

(** [JSON.parse(this.sealer.open(fromB64(dataB64)))] *)
Definition open_payload (dataB64 : string) : option value := fromB64 dataB64 ≫= fun s => open_sealed (o_sealer o) s ≫= json_parse.

Definition readVersion (collection id : string) (seq : Z) : Task value :=
  let* dataB64 := await (QRead (kvConfigName collection id seq)) in
  match open_payload dataB64 with Some v => ret v | None => throw (KvError INVALID) end.

(** The loop of [doRefresh] over the listing. *)
Fixpoint load_all (listed : list (string * list VersionMeta)) (next : list (string * Entry)) : Task (list (string * Entry)) :=
  match listed with
  | [] => ret next
  | (k, versions) :: rest =>
      let* known := sync (fun _ c => (c,
        match entry_of c k, curLatest c k, latest versions with
        | Some cur, Some cl, Some l => if vm_seq cl =? vm_seq l then Some (e_value cur) else None
        | _, _, _ => None
        end)) in
      match known with
      | Some v => load_all rest (obj_set k {| e_versions := versions; e_value := v |} next)
      | None =>
          let '(collection, id) := unkey k in
          let* v := readVersion collection id (default 0 (vm_seq <$> latest versions)) in
          load_all rest (obj_set k {| e_versions := versions; e_value := v |} next)
      end
  end.

(** A local write or delete since the listing began wins over the listing. *)
Definition merge_touched (startGen : Z) (c : Cache) (next : list (string * Entry)) : list (string * Entry) :=
  foldl (fun next kg =>
    if snd kg <=? startGen then next
    else match entry_of c (fst kg) with
         | Some cur => obj_set (fst kg) cur next
         | None => map_delete (fst kg) next
         end) next (c_touched c).

Definition finish_refresh (startGen : Z) (next : list (string * Entry)) (now : Z) (c : Cache) : Cache :=
  {| c_entries := merge_touched startGen c next; c_loadedAt := Some now; c_loading := c_loading c;
     c_gen := c_gen c; c_touched := [] |}.

Definition doRefresh (startGen : Z) : Task unit :=
  let* listed := listMine in
  let* next := load_all listed [] in
  sync (fun now c => (finish_refresh startGen next now c, tt)).

(** [.finally(() => { this.loading = null })] *)
Definition finally_loaded (t : Task unit) : Task unit :=
  settle t (fun r => do* sync (fun _ c => (set_loading c None, tt)) in Done r).

Definition refresh : Task unit :=
  let* startGen := sync (fun _ c => let g := default (c_gen c) (c_loading c) in (set_loading c (Some g), g)) in
  finally_loaded (doRefresh startGen).

(** The refresh that a stale read has started. *)
Definition backgroundRefresh : Task unit :=
  let* l := sync (fun _ c => (c, c_loading c)) in
  match l with
  | Some startGen => settle (finally_loaded (doRefresh startGen)) (fun _ => ret tt)
  | None => ret tt
  end.

Definition is_stale (now : Z) (c : Cache) : bool :=
  match c_loadedAt c with Some t => (refreshMs <=? now - t) && negb (bool_decide (is_Some (c_loading c))) | None => false end.

Definition ensureFresh : Task unit :=
  let* first := sync (fun now c =>
    (if is_stale now c then set_loading c (Some (c_gen c)) else c, negb (bool_decide (is_Some (c_loadedAt c))))) in
  if first then refresh else ret tt.

(** * Reads *)

Definition getDoc (collection id : string) : Task (option KvDoc) :=
  guard (check collection id) (do* ensureFresh in sync (fun _ c => (c, docOf c collection id))).

Definition get_ (collection id : string) : Task (option value) :=
  let* d := getDoc collection id in ret (kd_value <$> d).

Definition by_id : KvDoc -> KvDoc -> Z := cmp_on kd_id str_cmp.

Definition list_ (collection : string) : Task (list KvDoc) :=
  guard (checkCollection collection) (
    do* ensureFresh in
    sync (fun _ c => (c, js_sort by_id (flat_map (fun ke =>
      let '(cl, id) := unkey (fst ke) in
      if String.eqb cl collection then match docOf c cl id with Some d => [d] | None => [] end else []) (c_entries c))))).

Definition versions (collection id : string) : Task (list (Z * Z)) :=
  guard (check collection id) (
    do* ensureFresh in
    sync (fun _ c => (c, rev (map (fun v => (vm_seq v, vm_createdAt v))
                                  (default [] (e_versions <$> entry_of c (keyOf collection id))))))).

Definition getVersion (collection id : string) (seq : Z) : Task value :=
  guard (check collection id) (readVersion collection id seq).

(** * Writes *)

(** [/not found|no such/i] counts as removed. *)
Definition removeQuietly (name : string) : Task bool :=
  settle (await (QRemove name)) (fun r =>
    match r with inl _ => ret true | inr (Thrown m) => ret (isMissing m) | inr (KvError _) => ret false end).

(** The loop of [gc]: the versions still in raft are put back in front. *)
Fixpoint remove_versions (collection id : string) (drop kept : list VersionMeta) : Task (list VersionMeta) :=
  match drop with
  | [] => ret kept
  | v :: drop' =>
      let* ok := removeQuietly (kvConfigName collection id (vm_seq v)) in
      remove_versions collection id drop' (if ok then kept else v :: kept)
  end.

Definition keep_n : nat := Z.to_nat keep.

Definition gc (collection id : string) : Task unit :=
  let k := keyOf collection id in
  let* found := sync (fun _ c => (c, entry_of c k)) in
  match found with
  | None => ret tt
  | Some e =>
      let n := length (e_versions e) in
      if (n <=? keep_n)%nat then ret tt
      else
        let* kept := remove_versions collection id (take (n - keep_n) (e_versions e)) (drop (n - keep_n) (e_versions e)) in
        sync (fun _ c => (set_entries c (obj_set k {| e_versions := js_sort by_seq kept; e_value := e_value e |} (c_entries c)), tt))
  end.

Definition refreshKey (collection id : string) : Task unit :=
  let k := keyOf collection id in
  let* listed := listMine in
  do* sync (fun _ c => (touch k c, tt)) in
  match get k listed ≫= fun vs => (fun l => (vs, l)) <$> latest vs with
  | None => sync (fun _ c => (set_entries c (map_delete k (c_entries c)), tt))
  | Some (versions, l) =>
      let* v := readVersion collection id (vm_seq l) in
      sync (fun _ c => (set_entries c (obj_set k {| e_versions := versions; e_value := v |} (c_entries c)), tt))
  end.

Definition labels_for (collection id : string) (seq : Z) (sha : string) (bytes : Z) : list (string * string) :=
  [(KV_LABEL, "1"); (KV_LABEL_ORG, o_orgId o); (KV_LABEL_COLLECTION, collection); (KV_LABEL_ID, id);
   (KV_LABEL_SEQ, pretty seq); (KV_LABEL_SHA, sha); (KV_LABEL_BYTES, pretty bytes)].

(** What [update] settles on before it writes: the version to create, or an end. *)
Record Write := { wr_seq : Z; wr_data : string; wr_meta : Z -> VersionMeta; wr_json : string; wr_prior : list VersionMeta }.

(** From the value [fn] returned to the version to create.  [cur] and [cl] are the
    entry and its latest version as read before [fn] was awaited, [total] the
    footprint after it; [Ok None] says there is nothing to write. *)
Definition plan_write (cur : option Entry) (cl : option VersionMeta) (next : value) (total : Z) : option Write + KvErr :=
  match assertNoRunState next with
  | Some e => inr e
  | None =>
      let json := stableJson next in
      let sha := kvFingerprint json in
      if bool_decide (vm_sha <$> cl = Some sha) then inl None
      else
        let dataB64 := toB64 (seal (o_sealer o) json) in
        let bytes := Z.of_nat (String.length dataB64) in
        if maxDocBytes <? bytes then inr (KvError TOO_LARGE)
        else
          let seq := default 0 (vm_seq <$> cl) + 1 in
          if KV_MAX_SEQ <? seq then inr (KvError INVALID)
          else
            let prior := default [] (e_versions <$> cur) in
            let pruned := take (length prior + 1 - keep_n) prior in
            let projected := total + bytes - bytes_of pruned in
            if maxTotalBytes <? projected then inr (KvError BUDGET)
            else inl (Some {| wr_seq := seq; wr_data := dataB64; wr_json := json; wr_prior := prior;
                              wr_meta := fun now => {| vm_seq := seq; vm_bytes := bytes; vm_sha := sha; vm_createdAt := now |} |})
  end.

(** The cache after the write. *)
Definition commit (k : string) (w : Write) (now : Z) (c : Cache) : Cache :=
  touch k (set_entries c (obj_set k {| e_versions := wr_prior w ++ [wr_meta w now];
                                       e_value := default VNull (json_parse (wr_json w)) |} (c_entries c))).

Definition Fn : Type := option value -> option value + KvErr.

(** One pass of the loop of [update]; [lost] is what follows a lost race. *)
Definition update_once (collection id : string) (fn : Fn) (lost : Task (option KvDoc)) : Task (option KvDoc) :=
  let k := keyOf collection id in
  let* cur := sync (fun _ c => (c, entry_of c k)) in
  let cl := cur ≫= fun e => latest (e_versions e) in
  match fn (match cl with Some _ => e_value <$> cur | None => None end) with
  | inr e => throw e
  | inl next =>
      do* await QTick in
      match next with
      | None => sync (fun _ c => (c, docOf c collection id))
      | Some next =>
          let* total := sync (fun _ c => (c, footprint c)) in
          match plan_write cur cl next total with
          | inr e => throw e
          | inl None => sync (fun _ c => (c, docOf c collection id))
          | inl (Some w) =>
              let sha := vm_sha (wr_meta w 0) in
              let bytes := vm_bytes (wr_meta w 0) in
              settle (await (QCreate (kvConfigName collection id (wr_seq w)) (wr_data w) (labels_for collection id (wr_seq w) sha bytes)))
                (fun r =>
                  match r with
                  | inr e => if match e with Thrown m => isNameConflict m | KvError _ => false end then lost else throw e
                  | inl _ =>
                      do* sync (fun now c => (commit k w now c, tt)) in
                      do* gc collection id in
                      sync (fun _ c => (c, docOf c collection id))
                  end)
          end
      end
  end.

(** The loop; [retries] is what is left of [maxRetries]. *)
Fixpoint update_loop (collection id : string) (fn : Fn) (retries : nat) : Task (option KvDoc) :=
  update_once collection id fn
    match retries with
    | O => throw (KvError CONFLICT)
    | S retries' => do* refreshKey collection id in do* await QTick in update_loop collection id fn retries'
    end.

Definition update (collection id : string) (fn : Fn) : Task (option KvDoc) :=
  guard (check collection id) (do* ensureFresh in update_loop collection id fn (Z.to_nat maxRetries)).

(** [doc!] *)
Definition put (collection id : string) (v : value) : Task (option KvDoc) := update collection id (fun _ => inl (Some v)).

Fixpoint remove_all (collection id : string) (vs : list VersionMeta) : Task unit :=
  match vs with
  | [] => ret tt
  | v :: vs' => do* removeQuietly (kvConfigName collection id (vm_seq v)) in remove_all collection id vs'
  end.

Definition delete_ (collection id : string) : Task bool :=
  let k := keyOf collection id in
  guard (check collection id) (
    do* ensureFresh in
    do* refreshKey collection id in
    let* found := sync (fun _ c => (c, entry_of c k)) in
    match found with
    | None => ret false
    | Some e =>
        do* remove_all collection id (e_versions e) in
        sync (fun _ c => (touch k (set_entries c (map_delete k (c_entries c))), true))
    end).

Definition revert (collection id : string) (seq : Z) : Task (option KvDoc) :=
  let* old := getVersion collection id seq in put collection id old.

(** * Backup and restore *)

Definition export_cmp (a b : KvExportDoc) : Z :=
  if String.eqb (ex_collection a) (ex_collection b) then (if str_cmp (ex_id a) (ex_id b) <? 0 then -1 else 1)
  else if str_cmp (ex_collection a) (ex_collection b) <? 0 then -1 else 1.

Definition export_entry (ke : string * Entry) : KvExportDoc :=
  let '(collection, id) := unkey (fst ke) in {| ex_collection := collection; ex_id := id; ex_value := e_value (snd ke) |}.

Definition exportAll : Task (list KvExportDoc) :=
  settle refresh (fun r =>
    let* loaded := sync (fun _ c => (c, bool_decide (is_Some (c_loadedAt c)))) in
    match r with
    | inr e => if loaded then sync (fun _ c => (c, js_sort export_cmp (map export_entry (c_entries c)))) else throw e
    | inl _ => sync (fun _ c => (c, js_sort export_cmp (map export_entry (c_entries c))))
    end).

Fixpoint importAll (docs : list KvExportDoc) : Task Z :=
  match docs with
  | [] => ret 0
  | d :: rest =>
      if negb (allowed (ex_collection d)) then importAll rest
      else do* put (ex_collection d) (ex_id d) (ex_value d) in
           let* n := importAll rest in ret (n + 1)
  end.
End store.
