(* ===== verification/KvStore.v ===== *)
(** What the document store promises (packages/core/src/swarm-kv.ts).

    [Store] maps a key to its retained versions, oldest first; the [spec_] functions are
    the methods of [SwarmKv] on it, without names, labels, payloads, cache, retries
    or garbage collection.  [swarm_rel] says which configs of a swarm represent a
    store, [cache_rel] when the fields of an instance agree with it.  This file has
    the specification, its invariants, and the reading of a listing. *)

From S2P Require Import Prelude Comparators Json JsonText KvCodec KvTask SwarmKv.

(** * The abstract store *)

Record Version := { a_seq : Z; a_val : value }.

Abbreviation Store := (gmap string (list Version)).

#[export] Instance version_eq_dec : EqDecision Version.
Proof. solve_decision. Defined.

Section spec.
Context (o : SwarmKvOptions).

Definition payload (v : value) : string := toB64 (seal (o_sealer o) (stableJson v)).
Definition size (v : value) : Z := Z.of_nat (String.length (payload v)).
Definition print (v : value) : string := kvFingerprint (stableJson v).

Definition doc_size (vs : list Version) : Z := sum (map (fun v => size (a_val v)) vs).
Definition stored (s : Store) : Z := sum (map (fun kv => doc_size (snd kv)) (map_to_list s)).

Definition newest (s : Store) (k : string) : option Version := s !! k ≫= last.

(** A document as callers see it: its version and value. *)
Definition SDoc : Type := Z * value.
Definition sdoc (v : Version) : SDoc := (a_seq v, a_val v).

(** The last [keep] versions. *)
Definition retain (vs : list Version) : list Version := drop (length vs - keep_n o) vs.

(** The new version, or why there is none; [inl None]: the value is unchanged. *)
Definition spec_write (s : Store) (k : string) (next : value) : option Version + KvErr :=
  let vs := default [] (s !! k) in
  match assertNoRunState next with
  | Some e => inr e
  | None =>
      if bool_decide ((fun v => print (a_val v)) <$> last vs = Some (print next)) then inl None
      else if maxDocBytes o <? size next then inr (KvError TOO_LARGE)
      else if KV_MAX_SEQ <? default 0 (a_seq <$> last vs) + 1 then inr (KvError INVALID)
      else if maxTotalBytes o <? stored s + size next - doc_size (take (length vs + 1 - keep_n o) vs) then inr (KvError BUDGET)
      else inl (Some {| a_seq := default 0 (a_seq <$> last vs) + 1; a_val := stable next |})
  end.

Definition spec_commit (s : Store) (k : string) (v : Version) : Store := <[k := retain (default [] (s !! k) ++ [v])]> s.

Definition spec_guard {A} (e : option KvErr) (s : Store) (r : (A + KvErr) * Store) : (A + KvErr) * Store :=
  match e with Some e => (inr e, s) | None => r end.

Definition spec_update_key (k : string) (fn : Fn) (s : Store) : (option SDoc + KvErr) * Store :=
  match fn (a_val <$> newest s k) with
  | inr e => (inr e, s)
  | inl None => (inl (sdoc <$> newest s k), s)
  | inl (Some next) =>
      match spec_write s k next with
      | inr e => (inr e, s)
      | inl None => (inl (sdoc <$> newest s k), s)
      | inl (Some v) => (inl (Some (sdoc v)), spec_commit s k v)
      end
  end.

Definition spec_update (c i : string) (fn : Fn) (s : Store) : (option SDoc + KvErr) * Store :=
  spec_guard (check o c i) s (spec_update_key (keyOf c i) fn s).

Definition spec_put (c i : string) (v : value) : Store -> (option SDoc + KvErr) * Store := spec_update c i (fun _ => inl (Some v)).

Definition spec_getDoc (c i : string) (s : Store) : (option SDoc + KvErr) * Store :=
  spec_guard (check o c i) s (inl (sdoc <$> newest s (keyOf c i)), s).

Definition spec_get (c i : string) (s : Store) : (option value + KvErr) * Store :=
  spec_guard (check o c i) s (inl (a_val <$> newest s (keyOf c i)), s).

Definition spec_versions (c i : string) (s : Store) : (list Z + KvErr) * Store :=
  spec_guard (check o c i) s (inl (rev (map a_seq (default [] (s !! keyOf c i)))), s).

(** The first version [seq] of a document, which is the only one. *)
Definition version_at (vs : list Version) (seq : Z) : option Version := List.find (fun v => a_seq v =? seq) vs.

Definition spec_getVersion (c i : string) (seq : Z) (s : Store) : (value + KvErr) * Store :=
  spec_guard (check o c i) s
    (match s !! keyOf c i ≫= fun vs => version_at vs seq with Some v => inl (a_val v) | None => inr (Thrown "") end, s).

Definition spec_delete (c i : string) (s : Store) : (bool + KvErr) * Store :=
  spec_guard (check o c i) s (inl (bool_decide (is_Some (s !! keyOf c i))), delete (keyOf c i) s).

Definition spec_revert (c i : string) (seq : Z) (s : Store) : (option SDoc + KvErr) * Store :=
  match spec_getVersion c i seq s with (inl v, s) => spec_put c i v s | (inr e, s) => (inr e, s) end.

(** The documents of a collection, by id. *)
Definition spec_list (c : string) (s : Store) : (list (string * SDoc) + KvErr) * Store :=
  spec_guard (checkCollection o c) s
    (inl (js_sort (cmp_on fst str_cmp) (flat_map (fun kv =>
       let '(cl, id) := unkey (fst kv) in
       if String.eqb cl c then match last (snd kv) with Some v => [(id, sdoc v)] | None => [] end else []) (map_to_list s))), s).

(** Every document, by collection and id. *)
Definition spec_export (s : Store) : (list KvExportDoc + KvErr) * Store :=
  (inl (js_sort (cmp_then (cmp_on ex_collection str_cmp) (cmp_on ex_id str_cmp)) (flat_map (fun kv =>
     let '(cl, id) := unkey (fst kv) in
     match last (snd kv) with Some v => [{| ex_collection := cl; ex_id := id; ex_value := a_val v |}] | None => [] end)
     (map_to_list s))), s).

Fixpoint spec_import (docs : list KvExportDoc) (s : Store) : (Z + KvErr) * Store :=
  match docs with
  | [] => (inl 0, s)
  | d :: rest =>
      if negb (allowed o (ex_collection d)) then spec_import rest s
      else match spec_put (ex_collection d) (ex_id d) (ex_value d) s with
           | (inr e, s) => (inr e, s)
           | (inl _, s) => match spec_import rest s with (inl n, s) => (inl (n + 1), s) | r => r end
           end
  end.

(** * Well-formed stores *)

Definition version_ok (v : Version) : Prop :=
  1 <= a_seq v <= KV_MAX_SEQ /\ wf_doc (a_val v) = true /\ stable (a_val v) = a_val v.

Definition seq_lt (v w : Version) : Prop := a_seq v < a_seq w.

Definition versions_ok (vs : list Version) : Prop := vs <> [] /\ StronglySorted seq_lt vs /\ Forall version_ok vs.

Definition store_ok (s : Store) : Prop := forall k vs, s !! k = Some vs ->
  versions_ok vs /\ exists c i, k = keyOf c i /\ valid_key c i = true /\ allowed o c = true.

(** What swarmy has written and not removed: at most [keep] versions of each
    document, within the budget. *)
Definition bounded (s : Store) : Prop :=
  (forall k vs, s !! k = Some vs -> (length vs <= keep_n o)%nat) /\ stored s <= maxTotalBytes o.

(** * What a swarm and a cache stand for *)

Definition config_ok (v : Version) (cfg : Config) : Prop :=
  cf_dataB64 cfg = payload (a_val v) /\ get KV_LABEL (cf_labels cfg) = Some "1" /\
  get KV_LABEL_ORG (cf_labels cfg) = Some (o_orgId o) /\ get KV_LABEL_SHA (cf_labels cfg) = Some (print (a_val v)) /\
  get KV_LABEL_BYTES (cf_labels cfg) = Some (pretty (size (a_val v))).

(** Every config whose name is one of this store's is a version of the store, and
    every version has its config. *)
Definition swarm_rel (m : Configs) (s : Store) : Prop :=
  (forall name cfg c i n, m !! name = Some cfg -> parseKvConfigName name = Some (c, i, n) -> allowed o c = true ->
     valid_key c i = true /\ exists vs v, s !! keyOf c i = Some vs /\ v ∈ vs /\ name = kvConfigName c i (a_seq v) /\ config_ok v cfg) /\
  (forall c i vs v, valid_key c i = true -> s !! keyOf c i = Some vs -> v ∈ vs ->
     exists cfg, m !! kvConfigName c i (a_seq v) = Some cfg /\ config_ok v cfg).

Definition meta_ok (mt : VersionMeta) (v : Version) : Prop :=
  vm_seq mt = a_seq v /\ vm_bytes mt = size (a_val v) /\ vm_sha mt = print (a_val v).

Definition entry_ok (e : Entry) (vs : list Version) : Prop :=
  Forall2 meta_ok (e_versions e) vs /\ a_val <$> last vs = Some (e_value e).

Definition entries_rel (m : list (string * Entry)) (s : Store) : Prop :=
  NoDup (map fst m) /\ forall k, option_Forall2 entry_ok (get k m) (s !! k).

Definition cache_rel (c : Cache) (s : Store) : Prop :=
  match c_loadedAt c with
  | None => c_entries c = [] /\ c_touched c = []
  | Some _ => entries_rel (c_entries c) s
  end.

(** * Sizes *)

Lemma sum_app a b : sum (a ++ b) = sum a + sum b.
Proof. induction a as [|x a IH]; simpl; [lia|]. rewrite IH. lia. Qed.

Lemma sum_perm a b : a ≡ₚ b -> sum a = sum b.
Proof. induction 1; simpl; lia. Qed.

Lemma payload_size_nonneg v : 0 <= size v.
Proof. unfold size. lia. Qed.

Lemma doc_size_app a b : doc_size (a ++ b) = doc_size a + doc_size b.
Proof. unfold doc_size. by rewrite map_app, sum_app. Qed.

Lemma stored_delete s k : stored (delete k s) = stored s - doc_size (default [] (s !! k)).
Proof.
  destruct (s !! k) as [vs|] eqn:E; simpl.
  - rewrite <- (insert_delete_id s k vs E) at 2. unfold stored at 2.
    rewrite (sum_perm _ (map (fun kv => doc_size (snd kv)) ((k, vs) :: map_to_list (delete k s)))).
    + simpl. unfold stored. lia.
    + apply Permutation_map, map_to_list_insert, lookup_delete_eq.
  - rewrite delete_id by done. unfold doc_size. simpl. lia.
Qed.

Lemma stored_insert s k vs : stored (<[k := vs]> s) = stored s - doc_size (default [] (s !! k)) + doc_size vs.
Proof.
  rewrite <- stored_delete. unfold stored. rewrite <- insert_delete_eq.
  rewrite (sum_perm _ (map (fun kv => doc_size (snd kv)) ((k, vs) :: map_to_list (delete k s)))).
  - simpl. lia.
  - apply Permutation_map, map_to_list_insert, lookup_delete_eq.
Qed.

(** * The specification keeps stores well formed *)

Lemma check_None c i : check o c i = None <-> valid_key c i = true /\ allowed o c = true.
Proof.
  unfold check, checkCollection, valid_key. destruct (allowed o c); simpl; [|split; [done|naive_solver]].
  unfold assertKvKey. destruct (COLLECTION_RE c); simpl; [|split; [done|naive_solver]].
  destruct (ID_RE i); simpl; [|split; [done|naive_solver]]. destruct (_ <? _); split; naive_solver.
Qed.


Lemma keep_pos : (1 <= keep_n o)%nat.
Proof. unfold keep_n, keep. lia. Qed.

Lemma retain_app vs v : retain (vs ++ [v]) = drop (length vs + 1 - keep_n o) vs ++ [v].
Proof.
  unfold retain. rewrite length_app. simpl. pose proof keep_pos. rewrite drop_app_le by lia. done.
Qed.

Lemma sorted_last_lt vs v w : StronglySorted seq_lt vs -> last vs = Some w -> a_seq w < a_seq v ->
  StronglySorted seq_lt (vs ++ [v]).
Proof.
  intros Hs Hl Hlt. induction Hs as [|x vs Hs IH Hx]; [done|]. simpl. constructor.
  - destruct vs as [|y vs]; [repeat constructor|]. apply IH. exact Hl.
  - apply Forall_app. split; [done|]. constructor; [|done]. destruct vs as [|y vs]; [injection Hl as ->; done|].
    rewrite last_cons_cons in Hl. apply last_Some_elem_of in Hl. rewrite Forall_forall in Hx. specialize (Hx _ Hl).
    unfold seq_lt in *. lia.
Qed.

Lemma sorted_drop n vs : StronglySorted seq_lt vs -> StronglySorted seq_lt (drop n vs).
Proof.
  intros H. revert n. induction H as [|x vs Hs IH Hx]; intros [|n]; simpl; [constructor|constructor|by constructor|apply IH].
Qed.

Lemma version_of_write s k next v : store_ok s -> wf_doc next = true -> spec_write s k next = inl (Some v) ->
  version_ok v /\ versions_ok (default [] (s !! k) ++ [v]) /\
  size (a_val v) = size next /\
  stored s + size next - doc_size (take (length (default [] (s !! k)) + 1 - keep_n o) (default [] (s !! k))) <= maxTotalBytes o /\
  size next <= maxDocBytes o.
Proof.
  intros Hok Hw H. unfold spec_write in H. destruct (assertNoRunState next); [done|].
  destruct (bool_decide _); [done|]. destruct (Z.ltb_spec (maxDocBytes o) (size next)) as [|Hd]; [done|].
  destruct (Z.ltb_spec KV_MAX_SEQ (default 0 (a_seq <$> last (default [] (s !! k))) + 1)) as [|Hm]; [done|].
  destruct (Z.ltb_spec (maxTotalBytes o) (stored s + size next - doc_size (take (length (default [] (s !! k)) + 1 - keep_n o) (default [] (s !! k))))) as [|Ht]; [done|].
  injection H as <-. set (vs := default [] (s !! k)) in *.
  assert (Hvs : StronglySorted seq_lt vs /\ Forall version_ok vs).
  { unfold vs. destruct (s !! k) as [l|] eqn:E; simpl; [|repeat constructor]. destruct (Hok k l E) as [(_ & ? & ?) _]. done. }
  destruct Hvs as [Hs Hf].
  assert (Hv : version_ok {| a_seq := default 0 (a_seq <$> last vs) + 1; a_val := stable next |}).
  { split_and!; simpl; [|done|by apply stable_ok|by apply stable_idemp].
    destruct (last vs) as [w|] eqn:E; simpl; [|lia]. apply last_Some_elem_of in E. rewrite Forall_forall in Hf.
    destruct (Hf _ E) as [? _]. lia. }
  split_and!; try done.
  - split_and!; [by destruct vs| |apply Forall_app; by split; [|constructor]].
    destruct (last vs) as [w|] eqn:E.
    + apply (sorted_last_lt vs _ w); [done..|]. simpl. lia.
    + apply last_None in E as ->. repeat constructor.
  - unfold size, payload, stableJson. simpl. by rewrite stable_idemp.
Qed.

Lemma versions_ok_drop n vs : versions_ok vs -> drop n vs <> [] -> versions_ok (drop n vs).
Proof. intros (_ & Hs & Hf) Hne. split_and!; [done|by apply sorted_drop|by apply Forall_drop]. Qed.

Lemma spec_commit_ok s c i next v : check o c i = None -> store_ok s -> wf_doc next = true ->
  spec_write s (keyOf c i) next = inl (Some v) -> store_ok (spec_commit s (keyOf c i) v).
Proof.
  intros Hc Hok Hw Hwr. destruct (version_of_write _ _ _ _ Hok Hw Hwr) as (Hv & Hvs & _).
  intros k vs Hk. unfold spec_commit in Hk. destruct (decide (k = keyOf c i)) as [->|Hne].
  - rewrite lookup_insert_eq in Hk. injection Hk as <-. split.
    + apply versions_ok_drop; [done|]. fold (retain (default [] (s !! keyOf c i) ++ [v])). rewrite retain_app. by destruct (drop _ _).
    + exists c, i. split; [done|]. by apply check_None.
  - rewrite lookup_insert_ne in Hk by done. by apply Hok.
Qed.

(** * Reading a listing *)

(** The versions of [k] in a listing, in its order. *)
Definition picks (k : string) (l : list KvConfigInfo) : list VersionMeta :=
  omap (fun c => match listed_version o c with Some (k', m) => if String.eqb k' k then Some m else None | None => None end) l.

Lemma get_group k l acc : get k (foldl (group_step o) acc l) =
  match picks k l with [] => get k acc | ms => Some (default [] (get k acc) ++ ms) end.
Proof.
  revert acc. induction l as [|c l IH]; intros acc; [done|]. cbn [foldl picks omap list_omap]. rewrite IH. unfold group_step.
  destruct (listed_version o c) as [[k' m]|]; [|done]. rewrite get_obj_set.
  destruct (String.eqb_spec k' k) as [->|Hk].
  - rewrite String.eqb_refl. cbn [default]. fold (picks k l). destruct (picks k l) as [|x ms]; cbn [default]; [done|].
    simpl. by rewrite <- app_assoc.
  - assert (String.eqb k k' = false) as -> by (by apply String.eqb_neq). done.
Qed.

Lemma group_get k l : get k (group o l) = match picks k l with [] => None | ms => Some (js_sort by_seq ms) end.
Proof.
  unfold group. assert (E : forall m, get k (map (fun kl : string * list VersionMeta => (fst kl, js_sort by_seq (snd kl))) m) = js_sort by_seq <$> get k m).
  { induction m as [|[a v] m IH]; simpl; [done|]. by destruct (String.eqb k a). }
  rewrite E, get_group. simpl. by destruct (picks k l).
Qed.

Lemma group_NoDup l : NoDup (map fst (group o l)).
Proof.
  unfold group. rewrite map_map. simpl. change (NoDup (map fst (foldl (group_step o) [] l))).
  assert (H : forall acc, NoDup (map fst acc) -> NoDup (map fst (foldl (group_step o) acc l))); [|apply H; constructor].
  induction l as [|c l IH]; intros acc Hd; simpl; [done|]. apply IH. unfold group_step.
  destruct (listed_version o c) as [[k m]|]; [by apply obj_set_NoDup|done].
Qed.

Lemma picks_elem k l m : m ∈ picks k l <-> exists c, c ∈ l /\ listed_version o c = Some (k, m).
Proof.
  unfold picks. rewrite list_elem_of_omap. split; intros (c & Hc & H); exists c; (split; [done|]).
  - destruct (listed_version o c) as [[k' m']|]; [|done]. destruct (String.eqb_spec k' k) as [->|]; congruence.
  - by rewrite H, String.eqb_refl.
Qed.

Lemma listed_version_Some c k m : listed_version o c = Some (k, m) <->
  is_mine o c = true /\ exists cl i n, parseKvConfigName (ci_name c) = Some (cl, i, n) /\ allowed o cl = true /\ k = keyOf cl i /\ m = meta_of c n.
Proof.
  unfold listed_version. destruct (is_mine o c); [|split; [done|by intros [? _]]].
  destruct (parseKvConfigName (ci_name c)) as [[[cl i] n]|]; [|split; [done|naive_solver]].
  destruct (allowed o cl) eqn:Ha; split.
  - intros [= <- <-]. split; [done|by exists cl, i, n].
  - intros (_ & ? & ? & ? & [= -> -> ->] & _ & -> & ->). done.
  - done.
  - intros (_ & ? & ? & ? & [= -> -> ->] & ? & _). congruence.
Qed.

Lemma config_listed v cfg c i : config_ok v cfg -> version_ok v -> valid_key c i = true -> allowed o c = true ->
  let info := info_of (kvConfigName c i (a_seq v), cfg) in
  listed_version o info = Some (keyOf c i, meta_of info (a_seq v)) /\ meta_ok (meta_of info (a_seq v)) v.
Proof.
  intros (Hd & Hl & Ho & Hs & Hb) [Hr _] Hk Ha info. split.
  - apply listed_version_Some. split.
    + unfold is_mine, label. simpl. rewrite Hl, Ho. apply andb_true_iff. by rewrite !bool_decide_eq_true.
    + exists c, i, (a_seq v). apply valid_key_spec in Hk as (Hc & Hi & _). split_and!; try done.
      apply kvConfigName_parses; [done|done|]. unfold KV_MAX_SEQ in Hr. lia.
  - unfold meta_ok, meta_of, label. simpl. rewrite Hs, Hb. simpl. rewrite parse_int_pretty by apply payload_size_nonneg. done.
Qed.

Section listing.
Context (m : Configs) (s : Store) (Hm : swarm_rel m s) (Hs : store_ok s) (l : list KvConfigInfo)
  (Hl : l ≡ₚ map info_of (map_to_list m)).

Lemma listed_elem c : c ∈ l <-> exists name cfg, m !! name = Some cfg /\ c = info_of (name, cfg).
Proof using Hl.
  rewrite Hl, list_elem_of_fmap. split.
  - intros ([name cfg] & -> & H%elem_of_map_to_list). by exists name, cfg.
  - intros (name & cfg & H & ->). exists (name, cfg). by rewrite elem_of_map_to_list.
Qed.

(** What a listed version is. *)
Lemma pick_version k mt : mt ∈ picks k l -> exists c i vs v, k = keyOf c i /\ valid_key c i = true /\
  s !! k = Some vs /\ v ∈ vs /\ meta_ok mt v.
Proof using Type*.
  intros (c & Hc & (_ & cl & i & n & Hp & Ha & -> & ->)%listed_version_Some)%picks_elem.
  apply listed_elem in Hc as (name & cfg & Hn & ->). destruct Hm as [H1 _].
  destruct (H1 _ _ _ _ _ Hn Hp Ha) as (Hk & vs & v & Hvs & Hv & -> & Hcfg).
  destruct (Hs _ _ Hvs) as [(_ & _ & Hf) _]. rewrite Forall_forall in Hf.
  destruct (config_listed v cfg cl i Hcfg (Hf v Hv) Hk Ha) as [Hlv Hmeta].
  exists cl, i, vs, v. split_and!; [done..|]. apply listed_version_Some in Hlv as (_ & ? & ? & n' & Hp' & _ & _ & He).
  simpl in Hp, Hp'. rewrite Hp in Hp'. injection Hp' as <- <- <-. by rewrite <- He.
Qed.

Lemma version_picked k vs v : s !! k = Some vs -> v ∈ vs -> exists mt, mt ∈ picks k l /\ meta_ok mt v.
Proof using Type*.
  intros Hk Hv. destruct (Hs _ _ Hk) as [(_ & _ & Hf) (c & i & -> & Hval & Ha)]. destruct Hm as [_ H2].
  destruct (H2 _ _ _ _ Hval Hk Hv) as (cfg & Hn & Hcfg). rewrite Forall_forall in Hf.
  destruct (config_listed v cfg c i Hcfg (Hf v Hv) Hval Ha) as [Hlv Hmeta]. eexists. split; [|exact Hmeta].
  apply picks_elem. eexists. split; [|exact Hlv]. apply listed_elem. by eexists _, _.
Qed.

Lemma picks_NoDup k : NoDup (map vm_seq (picks k l)).
Proof using Type*.
  assert (Hname : forall c mt, c ∈ l -> listed_version o c = Some (k, mt) -> ci_name c = kvConfigName (fst (unkey k)) (snd (unkey k)) (vm_seq mt)).
  { intros c mt Hc (_ & cl & i & n & Hp & Ha & -> & ->)%listed_version_Some.
    apply listed_elem in Hc as (name & cfg & Hn & ->). destruct Hm as [H1 _].
    destruct (H1 _ _ _ _ _ Hn Hp Ha) as (Hk & vs & v & Hvs & Hv & -> & Hcfg).
    pose proof Hk as (Hc & Hi & _)%valid_key_spec. rewrite unkey_keyOf by done. simpl. f_equal.
    destruct (Hs _ _ Hvs) as [(_ & _ & Hf) _]. rewrite Forall_forall in Hf. destruct (Hf v Hv) as [Hr _]. unfold KV_MAX_SEQ in Hr.
    simpl in Hp. rewrite kvConfigName_parses in Hp by (done || lia). congruence. }
  assert (Hd : NoDup (map ci_name l)).
  { rewrite Hl, map_map. change (NoDup (map fst (map_to_list m))). apply NoDup_fst_map_to_list. }
  clear Hl. induction l as [|c l' IH]; [constructor|]. cbn [map] in Hd. apply NoDup_cons in Hd as [Hc Hd].
  assert (IH' : NoDup (map vm_seq (picks k l'))) by (apply IH; [intros; apply Hname; [by right|done]|done]). clear IH.
  unfold picks. cbn [omap list_omap]. fold (picks k l'). destruct (listed_version o c) as [[k' mt]|] eqn:E; [|done].
  destruct (String.eqb_spec k' k) as [->|]; [|done]. cbn [map]. apply NoDup_cons. split; [|done].
  intros (mt' & Hseq & (c' & Hc' & E')%picks_elem)%list_elem_of_fmap. apply Hc. apply list_elem_of_fmap. exists c'. split; [|done].
  rewrite (Hname c mt), (Hname c' mt'), Hseq; [done|by right|done|by left|done].
Qed.

Lemma seq_sorted_unique vs v w : StronglySorted seq_lt vs -> v ∈ vs -> w ∈ vs -> a_seq v = a_seq w -> v = w.
Proof.
  clear. induction 1 as [|x vs Hss IH Hx]; [by intros ?%not_elem_of_nil|]. rewrite Forall_forall in Hx. unfold seq_lt in Hx.
  rewrite !elem_of_cons. intros [->|Hv] [->|Hw] He; auto.
  - specialize (Hx _ Hw). lia.
  - specialize (Hx _ Hv). lia.
Qed.

Lemma listing_agrees k : option_Forall2 (Forall2 meta_ok) (get k (group o l)) (s !! k).
Proof using Type*.
  rewrite group_get. destruct (s !! k) as [vs|] eqn:E.
  - destruct (Hs _ _ E) as [(Hne & Hsort & _) _].
    assert (Hp : picks k l <> []).
    { destruct vs as [|v vs]; [done|]. destruct (version_picked k _ v E) as (mt & Hin & _); [left|].
      intros H. rewrite H in Hin. by apply not_elem_of_nil in Hin. }
    assert (Hms : map vm_seq (js_sort by_seq (picks k l)) = map a_seq vs).
    { apply (sorted_unique (cmp_asc id)).
      - intros a b _ _. unfold cmp_asc, id. lia.
      - pose proof (js_sort_sorted by_seq (picks k l)) as H. induction H as [|x ms Hss IH Hx]; simpl; constructor; [done|].
        apply Forall_map. eapply Forall_impl; [exact Hx|]. done.
      - clear -Hsort. induction Hsort as [|x vs Hss IH Hx]; simpl; constructor; [done|]. apply Forall_map.
        eapply Forall_impl; [exact Hx|]. unfold seq_lt, le_by, cmp_asc, id. simpl. intros; lia.
      - apply NoDup_Permutation.
        + rewrite js_sort_perm. apply picks_NoDup.
        + clear -Hsort. induction Hsort as [|x vs Hss IH Hx]; simpl; constructor; [|done].
          intros (y & Hy & Hin)%list_elem_of_fmap. rewrite Forall_forall in Hx. specialize (Hx _ Hin). unfold seq_lt in Hx. lia.
        + intros n. rewrite js_sort_perm, !list_elem_of_fmap. split.
          * intros (mt & -> & (c & i & vs' & v & -> & _ & Hv & Hin & Hmt)%pick_version).
            rewrite E in Hv. injection Hv as <-. exists v. split; [apply Hmt|done].
          * intros (v & -> & Hv). destruct (version_picked k vs v E Hv) as (mt & Hin & Hmt). exists mt. split; [symmetry; apply Hmt|done]. }
    destruct (picks k l) as [|x0 ms0] eqn:Ep; [done|]. constructor. rewrite <- Ep in *.
    apply map_Forall2 in Hms. apply Forall2_same_length_lookup_2; [by apply Forall2_length in Hms|]. intros i mt v Hi Hj.
    pose proof (Forall2_lookup_lr _ _ _ _ _ _ Hms Hi Hj) as Hseq. simpl in Hseq.
    assert (Hin : mt ∈ picks k l) by (rewrite <- (js_sort_elem by_seq); by eapply list_elem_of_lookup_2).
    apply pick_version in Hin as (c & i' & vs' & w & _ & _ & Hv' & Hw & Hmt). rewrite E in Hv'. injection Hv' as <-.
    assert (v = w) as ->; [|done]. apply (seq_sorted_unique vs); [done|by eapply list_elem_of_lookup_2|done|].
    destruct Hmt as [He _]. congruence.
  - destruct (picks k l) as [|mt ms] eqn:Ep; [constructor|]. exfalso.
    assert (Hin : mt ∈ picks k l) by (rewrite Ep; left). apply pick_version in Hin as (? & ? & ? & ? & _ & _ & H & _). congruence.
Qed.
End listing.
End spec.
