(* ===== verification/KvRefine.v ===== *)
(** The document store refines its specification (packages/core/src/swarm-kv.ts).

    Runs of the methods of [SwarmKv] by the only writer of a swarm, on any driver
    that keeps Docker's contract, give what the [spec_] functions of KvStore.v give, and
    leave the swarm and the cache standing for the resulting store.  [C] holds of the
    configs before every call: with it the same proofs say what a crash leaves. *)

From S2P Require Import Prelude Comparators Json JsonText KvCodec KvTask SwarmKv KvStore.
Open Scope task_scope.

(** Nobody else writes and no other task of the instance runs; time may pass. *)
Definition still (w w1 : World Cache) : Prop := w_configs w1 = w_configs w /\ w_fields w1 = w_fields w.

(** The new sealed text opens again. *)
Definition sealer_ok (o : SwarmKvOptions) : Prop := forall x, open_sealed (o_sealer o) (seal (o_sealer o) x) = Some x.

Section refine.
Implicit Types (w : World Cache) (s : Store).
Context (o : SwarmKvOptions) (Hseal : sealer_ok o) (C : Configs -> Prop).

Definition before_call (X : Type) (w1 : World Cache) (q : request X) (r : res X) : Prop := C (w_configs w1).

Abbreviation qwp := (wp (@docker) still before_call).

(** The swarm and the cache stand for [s]. *)
Definition stands (w : World Cache) (s : Store) : Prop :=
  swarm_rel o (w_configs w) s /\ store_ok o s /\ cache_rel o (w_fields w) s.

(** ... and the cache has been loaded. *)
Definition loaded_with (w : World Cache) (s : Store) : Prop :=
  stands w s /\ is_Some (c_loadedAt (w_fields w)) /\ entries_rel o (c_entries (w_fields w)) s.

Lemma stands_still w w1 s : still w w1 -> stands w s -> stands w1 s.
Proof. unfold stands. intros [-> ->]. done. Qed.

Lemma loaded_still w w1 s : still w w1 -> loaded_with w s -> loaded_with w1 s.
Proof. unfold loaded_with, stands. intros [-> ->]. done. Qed.

Lemma still_refl w : still w w.
Proof. done. Qed.

Lemma still_trans w w1 w2 : still w w1 -> still w1 w2 -> still w w2.
Proof. unfold still. intuition congruence. Qed.

Lemma still_set w w1 : still w w1 -> still w (set_configs w1 (w_configs w1)).
Proof. unfold still. by destruct w1. Qed.

(** * Steps *)

Lemma q_ret {A} (a : A) Q w : Q (inl a) w -> qwp (ret a) Q w.
Proof. done. Qed.

Lemma q_sync {A} (f : Z -> Cache -> Cache * A) Q w :
  Q (inl (snd (f (w_now w) (w_fields w)))) (set_fields w (fst (f (w_now w) (w_fields w)))) -> qwp (sync f) Q w.
Proof. done. Qed.

Lemma q_sync_bind {A B} (f : Z -> Cache -> Cache * A) (g : A -> Task B) Q w :
  qwp (g (snd (f (w_now w) (w_fields w)))) Q (set_fields w (fst (f (w_now w) (w_fields w)))) -> qwp (bind (sync f) g) Q w.
Proof. done. Qed.

Lemma set_fields_id w : set_fields w (w_fields w) = w.
Proof. by destruct w. Qed.

(** A piece that only reads. *)
Lemma q_read {A} (f : Z -> Cache -> A) Q w :
  Q (inl (f (w_now w) (w_fields w))) w -> qwp (sync (fun now c => (c, f now c))) Q w.
Proof. intros H. apply q_sync. cbn [fst snd]. by rewrite set_fields_id. Qed.

Lemma q_read_bind {A B} (f : Z -> Cache -> A) (g : A -> Task B) Q w :
  qwp (g (f (w_now w) (w_fields w))) Q w -> qwp (bind (sync (fun now c => (c, f now c))) g) Q w.
Proof. intros H. apply q_sync_bind. cbn [fst snd]. by rewrite set_fields_id. Qed.

Lemma q_await {X} (q : request X) Q w :
  C (w_configs w) ->
  (forall r m w1, still w w1 -> docker q (w_configs w) r m ->
     Q (match r with Ok x => inl x | Err e => inr (Thrown e) end) (set_configs w1 m)) ->
  qwp (await q) Q w.
Proof.
  intros HC H w1 r m Hst Hd. split; [unfold before_call; by rewrite (proj1 Hst)|]. rewrite (proj1 Hst) in Hd.
  specialize (H r m w1 Hst Hd). by destruct r.
Qed.

(** A call that does not change the configs. *)
Lemma q_await_still {X} (q : request X) Q w :
  C (w_configs w) -> (forall r m, docker q (w_configs w) r m -> m = w_configs w) ->
  (forall r w1, still w w1 -> docker q (w_configs w) r (w_configs w) ->
     Q (match r with Ok x => inl x | Err e => inr (Thrown e) end) w1) ->
  qwp (await q) Q w.
Proof.
  intros HC Hm H. apply q_await; [done|]. intros r m w1 Hst Hd. pose proof (Hm _ _ Hd) as ->.
  apply H; [|done]. rewrite <- (proj1 Hst). by apply still_set.
Qed.

Lemma q_tick {B} (t : Task B) Q w : C (w_configs w) -> (forall w1, still w w1 -> qwp t Q w1) -> qwp (do* await QTick in t) Q w.
Proof.
  intros HC H. apply wp_bind, q_await_still; [done|by intros r m [_ ->]|]. intros r w1 Hst [-> _]. by apply H.
Qed.

(** * Reading *)

Section reading.
Context (w : World Cache) (s : Store) (Hm : swarm_rel o (w_configs w) s) (Hs : store_ok o s) (HC : C (w_configs w)).

Lemma q_listMine Q :
  (forall L w1, still w w1 -> NoDup (map fst L) -> (forall k, option_Forall2 (Forall2 (meta_ok o)) (get k L) (s !! k)) -> Q (inl L) w1) ->
  qwp (listMine o) Q w.
Proof using Type*.
  intros H. unfold listMine. apply wp_bind, q_await_still; [done|by intros r m [-> _]|]. intros r w1 Hst (_ & l & -> & Hl).
  apply H; [done|apply group_NoDup|]. intros k. by eapply listing_agrees.
Qed.

Lemma open_payload_ok v : version_ok v -> open_payload o (payload o (a_val v)) = Some (a_val v).
Proof using Hseal.
  intros (_ & Hw & Hst). unfold open_payload, payload. rewrite (proj1 (toB64_roundtrip _)). simpl. rewrite Hseal. simpl.
  by rewrite parse_stableJson, Hst.
Qed.

Lemma q_readVersion c i vs v Q : valid_key c i = true -> s !! keyOf c i = Some vs -> v ∈ vs ->
  (forall w1, still w w1 -> Q (inl (a_val v)) w1) -> qwp (readVersion o c i (a_seq v)) Q w.
Proof using Type*.
  intros Hk Hvs Hv H. destruct Hm as [_ H2]. destruct (H2 c i vs v Hk Hvs Hv) as (cfg & Hn & Hdata & _).
  unfold readVersion. apply wp_bind, q_await_still; [done|by intros r m [-> _]|]. intros r w1 Hst [_ Hr].
  rewrite Hn in Hr. subst r.
  destruct (Hs _ _ Hvs) as [(_ & _ & Hf) _]. rewrite Forall_forall in Hf. rewrite Hdata, open_payload_ok by auto. by apply H.
Qed.

(** The entry that a listed key gets. *)
Definition ent (kms : string * list VersionMeta) : string * Entry :=
  (fst kms, {| e_versions := snd kms; e_value := default VNull (a_val <$> newest s (fst kms)) |}).
End reading.

Definition listed_ok (s : Store) (L : list (string * list VersionMeta)) : Prop :=
  forall k ms, (k, ms) ∈ L -> exists vs, s !! k = Some vs /\ Forall2 (meta_ok o) ms vs.

Definition known_ok (s : Store) (c : Cache) : Prop :=
  forall k e, entry_of c k = Some e -> exists vs, s !! k = Some vs /\ entry_ok o e vs.

Lemma Forall2_last {A B} (P : A -> B -> Prop) l k y : Forall2 P l k -> last k = Some y -> exists x, last l = Some x /\ P x y.
Proof.
  intros H. induction H as [|a b l k Hab Hl IH]; [done|]. destruct Hl as [|a' b' l k Hab' Hl].
  - intros [= <-]. by exists a.
  - rewrite !last_cons_cons. exact IH.
Qed.

Lemma versions_last vs : versions_ok vs -> exists v, last vs = Some v /\ v ∈ vs.
Proof.
  intros (Hne & _). destruct (last vs) as [v|] eqn:E; [|by apply last_None in E]. exists v. split; [done|].
  by apply last_Some_elem_of.
Qed.

Lemma q_load_all s L next Q w : swarm_rel o (w_configs w) s -> store_ok o s -> C (w_configs w) -> listed_ok s L ->
  known_ok s (w_fields w) ->
  (forall w1, still w w1 -> Q (inl (foldl (fun n ke => obj_set (fst ke) (snd ke) n) next (map (ent s) L))) w1) ->
  qwp (load_all o L next) Q w.
Proof using Type*.
  revert next w. induction L as [|[k ms] L IH]; intros next w Hm Hs HC HL Hkn HQ; [by apply HQ, still_refl|].
  cbn [load_all]. apply q_read_bind. destruct (HL k ms) as (vs & Hvs & Hms); [left|].
  destruct (Hs _ _ Hvs) as [Hvok (c & i & -> & Hkey & _)]. destruct (versions_last vs Hvok) as (v & Hlast & Hv).
  destruct (Forall2_last _ _ _ _ Hms Hlast) as (mt & Hmt & Hmv). unfold latest. rewrite Hmt.
  assert (Hnew : newest s (keyOf c i) = Some v) by (unfold newest; by rewrite Hvs).
  assert (Hnext : forall w1, still w w1 -> forall val, val = a_val v ->
    qwp (load_all o L (obj_set (keyOf c i) {| e_versions := ms; e_value := val |} next)) Q w1).
  { intros w1 Hst val ->. apply IH.
    - by rewrite (proj1 Hst).
    - done.
    - by rewrite (proj1 Hst).
    - intros k' ms' Hin. apply HL. by right.
    - by rewrite (proj2 Hst).
    - intros w2 Hst2. specialize (HQ w2 (still_trans _ _ _ Hst Hst2)). cbn [map foldl ent fst snd] in HQ. by rewrite Hnew in HQ. }
  match goal with |- qwp (match ?x with _ => _ end) _ _ => destruct x as [val|] eqn:E end.
  - apply Hnext; [apply still_refl|]. destruct (entry_of (w_fields w) (keyOf c i)) as [cur|] eqn:Ec; [|done].
    destruct (Hkn _ _ Ec) as (vs' & Hvs' & _ & Hval). rewrite Hvs in Hvs'. injection Hvs' as <-. rewrite Hlast in Hval.
    destruct (curLatest _ _); [|done]. destruct (_ =? _); [|done]. simpl in Hval. congruence.
  - pose proof Hkey as (Hc & Hi & _)%valid_key_spec. rewrite unkey_keyOf by done. cbn [fmap option_fmap option_map default].
    rewrite (proj1 Hmv). apply wp_bind. eapply q_readVersion; try done. intros w1 Hst. by apply Hnext.
Qed.

(** * Refreshing the cache *)

Lemma entries_known c s : entries_rel o (c_entries c) s -> known_ok s c.
Proof. intros [_ He] k e Hk. specialize (He k). unfold entry_of in Hk. rewrite Hk in He. inversion He; subst. by eexists. Qed.

Lemma cache_known c s : cache_rel o c s -> known_ok s c.
Proof.
  unfold cache_rel. destruct (c_loadedAt c); [apply entries_known|]. intros [E _] k e Hk. unfold entry_of in Hk. by rewrite E in Hk.
Qed.

Lemma get_ent s k L : get k (map (ent s) L) = (fun ms => {| e_versions := ms; e_value := default VNull (a_val <$> newest s k) |}) <$> get k L.
Proof.
  induction L as [|[k' ms] L IH]; simpl; [done|]. destruct (String.eqb_spec k k') as [->|]; [done|]. exact IH.
Qed.

Lemma listing_entries s L : store_ok o s -> NoDup (map fst L) ->
  (forall k, option_Forall2 (Forall2 (meta_ok o)) (get k L) (s !! k)) -> entries_rel o (map (ent s) L) s.
Proof.
  intros Hs Hd HL. split; [by rewrite map_map|]. intros k. rewrite get_ent. specialize (HL k).
  destruct (get k L) as [ms|], (s !! k) as [vs|] eqn:E; inversion HL as [? ? Hf|]; subst; simpl; constructor. split; [done|].
  simpl. unfold newest. rewrite E. simpl. destruct (Hs _ _ E) as [Hv _]. by destruct (versions_last _ Hv) as (v & -> & _).
Qed.

Lemma entries_set s k e vs m : entries_rel o m s -> s !! k = Some vs -> entry_ok o e vs -> entries_rel o (obj_set k e m) s.
Proof.
  intros [Hd He] Hk Hok. split; [by apply obj_set_NoDup|]. intros k'. rewrite get_obj_set.
  destruct (String.eqb_spec k' k) as [->|]; [|apply He]. rewrite Hk. by constructor.
Qed.

Lemma entries_delete s k m : entries_rel o m s -> s !! k = None -> entries_rel o (map_delete k m) s.
Proof.
  intros [Hd He] Hk. split; [by apply map_delete_NoDup|]. intros k'. rewrite get_map_delete by done.
  destruct (String.eqb_spec k' k) as [->|]; [|apply He]. rewrite Hk. constructor.
Qed.

Lemma merge_ok s c next g : cache_rel o c s -> entries_rel o next s -> entries_rel o (merge_touched g c next) s.
Proof.
  unfold cache_rel, merge_touched. destruct (c_loadedAt c) as [t|]; [|by intros [_ ->]].
  intros [_ Hc]. revert next. induction (c_touched c) as [|[k n] l IH]; intros next Hn; simpl; [done|]. apply IH.
  destruct (n <=? g); [done|]. specialize (Hc k). unfold entry_of. destruct (get k (c_entries c)) as [cur|].
  - inversion Hc; subst. by eapply entries_set.
  - inversion Hc; subst. by apply entries_delete.
Qed.

Lemma q_doRefresh g w s Q : stands w s -> C (w_configs w) ->
  (forall w', loaded_with w' s -> w_configs w' = w_configs w -> Q (inl tt) w') -> qwp (doRefresh o g) Q w.
Proof using Type*.
  intros (Hm & Hs & Hc) HC HQ. unfold doRefresh. apply wp_bind. eapply q_listMine; try done. intros L w1 Hst Hd HL.
  apply wp_bind. apply (q_load_all s).
  - by rewrite (proj1 Hst).
  - done.
  - by rewrite (proj1 Hst).
  - intros k ms Hin%get_unique; [|done]. specialize (HL k). rewrite Hin in HL. inversion HL; subst. by eexists.
  - rewrite (proj2 Hst). by apply cache_known.
  - intros w2 Hst2. rewrite obj_set_all by (simpl; by rewrite map_map). apply q_sync. cbn [fst snd app].
    destruct (still_trans _ _ _ Hst Hst2) as [E1 E2]. apply HQ; [|done].
    assert (He : entries_rel o (merge_touched g (w_fields w2) (map (ent s) L)) s).
    { apply merge_ok; [by rewrite E2|by apply listing_entries]. }
    unfold loaded_with, stands. cbn [w_configs w_fields set_fields finish_refresh c_loadedAt c_entries]. rewrite E1.
    by split_and!.
Qed.

Lemma loaded_flag w s l : loaded_with w s -> loaded_with (set_fields w (set_loading (w_fields w) l)) s.
Proof. unfold loaded_with, stands, cache_rel. simpl. done. Qed.

Lemma q_finally g w s Q : stands w s -> C (w_configs w) ->
  (forall w', loaded_with w' s -> w_configs w' = w_configs w -> Q (inl tt) w') -> qwp (finally_loaded (doRefresh o g)) Q w.
Proof using Type*.
  intros Hst HC HQ. unfold finally_loaded. apply wp_settle. eapply q_doRefresh; [done|done|].
  intros w' Hl Hw. apply q_sync_bind. cbn [fst snd]. apply HQ; [by apply loaded_flag|done].
Qed.

Lemma stands_loading w s l : stands w s -> stands (set_fields w (set_loading (w_fields w) l)) s.
Proof. unfold stands, cache_rel. done. Qed.

Lemma q_refresh w s Q : stands w s -> C (w_configs w) ->
  (forall w', loaded_with w' s -> w_configs w' = w_configs w -> Q (inl tt) w') -> qwp (refresh o) Q w.
Proof using Type*.
  intros Hst HC HQ. unfold refresh. apply q_sync_bind. cbn [fst snd]. eapply q_finally; [by apply stands_loading|done|].
  intros w' Hl Hw. by apply HQ.
Qed.

Lemma q_backgroundRefresh w s Q : stands w s -> C (w_configs w) ->
  (forall w', stands w' s -> w_configs w' = w_configs w -> Q (inl tt) w') -> qwp (backgroundRefresh o) Q w.
Proof using Type*.
  intros Hst HC HQ. unfold backgroundRefresh. apply q_read_bind. destruct (c_loading (w_fields w)); [|by apply q_ret, HQ].
  apply wp_settle. eapply q_finally; [done|done|]. intros w' [Hl _] Hw. by apply q_ret, HQ.
Qed.

Lemma q_ensureFresh w s Q : stands w s -> C (w_configs w) ->
  (forall w', loaded_with w' s -> w_configs w' = w_configs w -> Q (inl tt) w') -> qwp (ensureFresh o) Q w.
Proof using Type*.
  intros Hst HC HQ. unfold ensureFresh. apply q_sync_bind. cbn [fst snd].
  set (c' := if is_stale o (w_now w) (w_fields w) then _ else _).
  assert (Hst' : stands (set_fields w c') s) by (unfold c'; destruct (is_stale _ _ _); [by apply stands_loading|by rewrite set_fields_id]).
  destruct (c_loadedAt (w_fields w)) as [t|] eqn:E; simpl.
  - apply q_ret, HQ; [|done]. split; [done|].
    assert (E' : c_loadedAt (w_fields (set_fields w c')) = Some t) by (unfold c'; by destruct (is_stale _ _ _)).
    rewrite E'. split; [by eexists|]. destruct Hst' as (_ & _ & Hc). unfold cache_rel in Hc. by rewrite E' in Hc.
  - eapply q_refresh; [exact Hst'|done|]. intros w' Hl Hw. by apply HQ.
Qed.

Lemma q_refreshKey c i w s Q : valid_key c i = true -> loaded_with w s -> C (w_configs w) ->
  (forall w', loaded_with w' s -> w_configs w' = w_configs w -> Q (inl tt) w') -> qwp (refreshKey o c i) Q w.
Proof using Type*.
  intros Hkey ((Hm & Hs & Hc) & Hl & He) HC HQ. unfold refreshKey. apply wp_bind. eapply q_listMine; try done. intros L w1 [E1 E2] Hd HL.
  apply q_sync_bind. cbn [fst snd]. set (w2 := set_fields w1 _).
  assert (Hw2 : w_configs w2 = w_configs w /\ c_entries (w_fields w2) = c_entries (w_fields w) /\ is_Some (c_loadedAt (w_fields w2))).
  { unfold w2, touch. simpl. by rewrite E1, E2. }
  destruct Hw2 as (F1 & F2 & F3). clearbody w2. specialize (HL (keyOf c i)).
  assert (Hfin : forall w3 m, w_configs w3 = w_configs w -> is_Some (c_loadedAt (w_fields w3)) -> entries_rel o m s ->
    loaded_with (set_fields w3 (set_entries (w_fields w3) m)) s).
  { intros w3 m G1 [t G2] G3. unfold loaded_with, stands, cache_rel. simpl. rewrite G1, G2. by split_and!. }
  destruct (get (keyOf c i) L) as [ms|], (s !! keyOf c i) as [vs|] eqn:E; inversion HL as [? ? Hf|]; subst; cbn [mbind option_bind].
  - destruct (Hs _ _ E) as [Hv _]. destruct (versions_last _ Hv) as (v & Hlast & Hin).
    destruct (Forall2_last _ _ _ _ Hf Hlast) as (mt & Hmt & Hmv). unfold latest. rewrite Hmt.
    cbn [fmap option_fmap option_map]. rewrite (proj1 Hmv). apply wp_bind. apply (q_readVersion w2 s) with (vs := vs); try done; [by rewrite F1|by rewrite F1|].
    intros w3 [G1 G2]. apply q_sync. cbn [fst snd]. apply HQ; [|simpl; congruence]. apply Hfin; [congruence|by rewrite G2|].
    rewrite G2, F2. apply (entries_set s _ _ vs); [done|done|]. split; [done|]. simpl. by rewrite Hlast.
  - apply q_sync. cbn [fst snd]. apply HQ; [|simpl; congruence]. apply Hfin; [done|done|]. rewrite F2. by apply entries_delete.
Qed.

(** * Writing to the swarm *)

Lemma keyOf_inj c i c' i' : valid_key c i = true -> valid_key c' i' = true -> keyOf c i = keyOf c' i' -> c = c' /\ i = i'.
Proof.
  intros (H1 & H2 & _)%valid_key_spec (H3 & H4 & _)%valid_key_spec E. apply (f_equal unkey) in E.
  rewrite !unkey_keyOf in E by done. by injection E.
Qed.

Lemma name_parses c i v : valid_key c i = true -> version_ok v -> parseKvConfigName (kvConfigName c i (a_seq v)) = Some (c, i, a_seq v).
Proof. intros (H1 & H2 & _)%valid_key_spec [Hr _]. unfold KV_MAX_SEQ in Hr. apply kvConfigName_parses; done || lia. Qed.

Lemma name_inj c i c' i' v v' : valid_key c i = true -> valid_key c' i' = true -> version_ok v -> version_ok v' ->
  kvConfigName c i (a_seq v) = kvConfigName c' i' (a_seq v') -> c = c' /\ i = i' /\ a_seq v = a_seq v'.
Proof.
  intros Hk Hk' Hv Hv' E. apply (f_equal parseKvConfigName) in E. rewrite !name_parses in E by done. by injection E as -> -> ->.
Qed.

(** The store with the versions [vs] of [k], without [k] when there are none. *)
Definition with_key (k : string) (vs : list Version) (s : Store) : Store :=
  match vs with [] => delete k s | _ => <[k := vs]> s end.

Lemma with_key_same k vs vs' s : with_key k vs (with_key k vs' s) = with_key k vs s.
Proof.
  destruct vs, vs'; simpl; rewrite ?delete_delete_eq, ?delete_insert_eq, ?insert_delete_eq, ?insert_insert_eq; done.
Qed.

Lemma with_key_id k vs s : s !! k = Some vs -> vs <> [] -> with_key k vs s = s.
Proof. intros H Hne. destruct vs; [done|]. by apply insert_id. Qed.

Lemma with_key_lookup k vs s : with_key k vs s !! k = match vs with [] => None | _ => Some vs end.
Proof. destruct vs; simpl; [apply lookup_delete_eq|apply lookup_insert_eq]. Qed.

Lemma with_key_ne k k' vs s : k <> k' -> with_key k vs s !! k' = s !! k'.
Proof. intros. destruct vs; simpl; [by rewrite lookup_delete_ne|by rewrite lookup_insert_ne]. Qed.

Lemma store_ok_with_key c i vs s : store_ok o s -> valid_key c i = true -> allowed o c = true ->
  (vs <> [] -> versions_ok vs) -> store_ok o (with_key (keyOf c i) vs s).
Proof.
  intros Hs Hk Ha Hvs k vs' H. destruct (decide (k = keyOf c i)) as [->|Hne].
  - rewrite with_key_lookup in H. destruct vs; [done|]. injection H as <-. split; [by apply Hvs|]. by exists c, i.
  - rewrite with_key_ne in H by done. by apply Hs.
Qed.

Lemma versions_member s k vs v : store_ok o s -> s !! k = Some vs -> v ∈ vs -> version_ok v.
Proof. intros Hs H Hv. destruct (Hs _ _ H) as [(_ & _ & Hf) _]. rewrite Forall_forall in Hf. auto. Qed.

(** A version newer than those of its key has a free name; creating its config
    adds it. *)
Lemma swarm_create c i m s v cfg : swarm_rel o m s -> store_ok o s -> valid_key c i = true -> allowed o c = true -> version_ok v ->
  (forall v', v' ∈ default [] (s !! keyOf c i) -> a_seq v' < a_seq v) -> config_ok o v cfg ->
  m !! kvConfigName c i (a_seq v) = None /\
  swarm_rel o (<[kvConfigName c i (a_seq v) := cfg]> m) (<[keyOf c i := default [] (s !! keyOf c i) ++ [v]]> s).
Proof.
  intros Hm Hs Hk Ha Hv Hnew Hcfg. pose proof Hm as [H1 H2]. pose proof (name_parses c i v Hk Hv) as Hp. split.
  { destruct (m !! kvConfigName c i (a_seq v)) as [cfg'|] eqn:E; [|done]. exfalso.
    destruct (H1 _ _ _ _ _ E Hp Ha) as (_ & vs & v' & Hvs & Hin & Hn & _).
    apply name_inj in Hn as (_ & _ & Hn); [|done|done|done|by eapply versions_member].
    specialize (Hnew v'). rewrite Hvs in Hnew. specialize (Hnew Hin). lia. }
  split.
  - intros name cfg' c' i' n Hl Hp' Ha'. destruct (decide (name = kvConfigName c i (a_seq v))) as [->|Hne].
    + rewrite lookup_insert_eq in Hl. injection Hl as <-. rewrite Hp in Hp'. injection Hp' as <- <- <-.
      split; [done|]. eexists _, v. rewrite lookup_insert_eq. split_and!; try done. apply elem_of_app. right. left.
    + rewrite lookup_insert_ne in Hl by done. destruct (H1 _ _ _ _ _ Hl Hp' Ha') as (Hk' & vs & v' & Hvs & Hin & Hn & Hok).
      split; [done|]. destruct (decide (keyOf c i = keyOf c' i')) as [E|E].
      * rewrite <- E, lookup_insert_eq. rewrite <- E in Hvs. eexists _, v'. split_and!; [done| |done|done].
        rewrite Hvs. apply elem_of_app. by left.
      * rewrite lookup_insert_ne by done. by exists vs, v'.
  - intros c' i' vs v' Hk' Hvs Hin. destruct (decide (keyOf c i = keyOf c' i')) as [E|E].
    + apply keyOf_inj in E as [<- <-]; [|done|done]. rewrite lookup_insert_eq in Hvs. injection Hvs as <-.
      apply elem_of_app in Hin as [Hin| ->%list_elem_of_singleton]; [|exists cfg; by rewrite lookup_insert_eq].
      destruct (s !! keyOf c i) as [vs|] eqn:Es; [|by apply not_elem_of_nil in Hin]. simpl in *.
      rewrite lookup_insert_ne; [by apply (H2 c i vs)|].
      intros E%name_inj; [|done|done|done|by eapply versions_member]. specialize (Hnew _ Hin). lia.
    + rewrite lookup_insert_ne in Hvs by done. rewrite lookup_insert_ne; [by apply (H2 c' i' vs)|].
      intros Hn. apply name_inj in Hn as (-> & -> & _); [done|done|done|done|by eapply versions_member].
Qed.

(** Removing the config of the oldest version removes that version. *)
Lemma swarm_remove c i m s v vs : swarm_rel o m s -> store_ok o s -> valid_key c i = true -> s !! keyOf c i = Some (v :: vs) ->
  is_Some (m !! kvConfigName c i (a_seq v)) /\
  swarm_rel o (delete (kvConfigName c i (a_seq v)) m) (with_key (keyOf c i) vs s).
Proof.
  intros [H1 H2] Hs Hk Hvs. pose proof (versions_member _ _ _ v Hs Hvs ltac:(left)) as Hv.
  assert (Hnew : forall v', v' ∈ vs -> a_seq v < a_seq v').
  { destruct (Hs _ _ Hvs) as [(_ & Hsort & _) _]. inversion Hsort as [|? ? _ Hf]; subst. rewrite Forall_forall in Hf. exact Hf. }
  split; [destruct (H2 _ _ _ v Hk Hvs ltac:(left)) as (cfg & -> & _); by eexists|]. split.
  - intros name cfg c' i' n Hl Hp' Ha'. apply lookup_delete_Some in Hl as [Hne Hl].
    destruct (H1 _ _ _ _ _ Hl Hp' Ha') as (Hk' & vs' & v' & Hvs' & Hin & Hn & Hok). split; [done|].
    destruct (decide (keyOf c i = keyOf c' i')) as [E|E].
    + apply keyOf_inj in E as [<- <-]; [|done|done]. rewrite Hvs in Hvs'. injection Hvs' as <-.
      apply elem_of_cons in Hin as [->|Hin]; [congruence|]. exists vs, v'. rewrite with_key_lookup.
      destruct vs; [by apply not_elem_of_nil in Hin|done].
    + rewrite with_key_ne by done. by exists vs', v'.
  - intros c' i' vs' v' Hk' Hvs' Hin. destruct (decide (keyOf c i = keyOf c' i')) as [E|E].
    + apply keyOf_inj in E as [<- <-]; [|done|done]. rewrite with_key_lookup in Hvs'.
      assert (vs' = vs) as -> by (destruct vs; congruence).
      rewrite lookup_delete_ne; [apply (H2 c i (v :: vs)); [done|done|by right]|].
      intros E%name_inj; [|done|done|done|by eapply (versions_member s _ (v :: vs)); [..|right]]. specialize (Hnew _ Hin). lia.
    + rewrite with_key_ne in Hvs' by done. rewrite lookup_delete_ne; [by apply (H2 c' i' vs')|].
      intros Hn. apply name_inj in Hn as (-> & -> & _); [done|done|done|done|by eapply versions_member].
Qed.

(** * Removals *)

Lemma tail_ok s k v vs : store_ok o s -> s !! k = Some (v :: vs) -> vs <> [] -> versions_ok vs.
Proof. intros Hs H Hne. destruct (Hs _ _ H) as [Hv _]. by apply (versions_ok_drop 1 (v :: vs)). Qed.

Lemma q_removeQuietly c i v vs w s Q : swarm_rel o (w_configs w) s -> store_ok o s -> valid_key c i = true ->
  s !! keyOf c i = Some (v :: vs) -> C (w_configs w) ->
  (forall w1, w_fields w1 = w_fields w -> swarm_rel o (w_configs w1) (with_key (keyOf c i) vs s) -> Q (inl true) w1) ->
  qwp (removeQuietly (kvConfigName c i (a_seq v))) Q w.
Proof.
  intros Hm Hs Hk Hvs HC HQ. destruct (swarm_remove c i _ s v vs Hm Hs Hk Hvs) as [[cfg Hl] Hm'].
  unfold removeQuietly. apply wp_settle, q_await; [done|]. intros r m w1 Hst Hd. cbn [docker] in Hd. rewrite Hl in Hd.
  destruct Hd as [-> ->]. apply q_ret, HQ; [simpl; by rewrite (proj2 Hst)|done].
Qed.

(** The prefix [ds] of the versions of a key is removed one after the other. *)
Definition while_removing (k : string) (ds ks : list Version) (s : Store) : Prop :=
  forall m l, swarm_rel o m (with_key k (l ++ ks) s) -> store_ok o (with_key k (l ++ ks) s) -> l `suffix_of` ds -> C m.

Lemma q_remove_versions c i mds ds ks kept w s Q : Forall2 (meta_ok o) mds ds -> valid_key c i = true -> allowed o c = true ->
  swarm_rel o (w_configs w) (with_key (keyOf c i) (ds ++ ks) s) -> store_ok o (with_key (keyOf c i) (ds ++ ks) s) ->
  while_removing (keyOf c i) ds ks s ->
  (forall w1, w_fields w1 = w_fields w -> swarm_rel o (w_configs w1) (with_key (keyOf c i) ks s) -> Q (inl kept) w1) ->
  qwp (remove_versions c i mds kept) Q w.
Proof.
  intros Hf Hk Ha. revert w. induction Hf as [|mt v mds ds Hmv Hf IH]; intros w Hm Hs HC HQ; [by apply q_ret, HQ|].
  cbn [remove_versions]. rewrite (proj1 Hmv). apply wp_bind.
  assert (Hl : with_key (keyOf c i) ((v :: ds) ++ ks) s !! keyOf c i = Some (v :: ds ++ ks)) by by rewrite with_key_lookup.
  eapply q_removeQuietly; try done; [by eapply (HC _ (v :: ds))|]. intros w1 E Hm1. rewrite with_key_same in Hm1. apply IH; [done| | |].
  - rewrite <- (with_key_same _ _ ((v :: ds) ++ ks)). apply store_ok_with_key; [done|done|done|]. by eapply tail_ok.
  - intros m l Hml Hsl Hsuf. apply (HC m l Hml Hsl). by apply suffix_cons_r.
  - intros w2 E2 Hm2. apply HQ; [congruence|done].
Qed.

Lemma q_remove_all c i mds ds w s Q : Forall2 (meta_ok o) mds ds -> valid_key c i = true -> allowed o c = true ->
  swarm_rel o (w_configs w) (with_key (keyOf c i) ds s) -> store_ok o (with_key (keyOf c i) ds s) ->
  while_removing (keyOf c i) ds [] s ->
  (forall w1, w_fields w1 = w_fields w -> swarm_rel o (w_configs w1) (delete (keyOf c i) s) -> Q (inl tt) w1) ->
  qwp (remove_all c i mds) Q w.
Proof.
  intros Hf Hk Ha. revert w. induction Hf as [|mt v mds ds Hmv Hf IH]; intros w Hm Hs HC HQ; [by apply q_ret, HQ|].
  cbn [remove_all]. rewrite (proj1 Hmv). apply wp_bind.
  assert (Hl : with_key (keyOf c i) (v :: ds) s !! keyOf c i = Some (v :: ds)) by by rewrite with_key_lookup.
  eapply q_removeQuietly; try done; [by apply (HC _ (v :: ds)); rewrite ?app_nil_r|].
  intros w1 E Hm1. rewrite with_key_same in Hm1. apply IH; [done| | |].
  - rewrite <- (with_key_same _ _ (v :: ds)). apply store_ok_with_key; [done|done|done|]. by eapply tail_ok.
  - intros m l Hml Hsl Hsuf. apply (HC m l Hml Hsl). by apply suffix_cons_r.
  - intros w2 E2 Hm2. apply HQ; [congruence|done].
Qed.

(** * Updates *)

Lemma metas_size ms vs : Forall2 (meta_ok o) ms vs -> bytes_of ms = doc_size o vs.
Proof. unfold bytes_of, doc_size. induction 1 as [|mt v ms vs (_ & Hb & _) _ IH]; simpl; [done|]. by rewrite IH, Hb. Qed.

Lemma metas_take n ms vs : Forall2 (meta_ok o) ms vs -> Forall2 (meta_ok o) (take n ms) (take n vs).
Proof. apply Forall2_take. Qed.

Lemma entries_size m s : entries_rel o m s -> sum (map (fun ke => bytes_of (e_versions (snd ke))) m) = stored o s.
Proof.
  revert s. induction m as [|[k e] m IH]; intros s [Hd He].
  - assert (s = ∅) as ->; [|done]. apply map_eq. intros k. specialize (He k). inversion He. by rewrite lookup_empty.
  - apply NoDup_cons in Hd as [Hk Hd]. pose proof (He k) as Hek. simpl in Hek. rewrite String.eqb_refl in Hek.
    destruct (s !! k) as [vs|] eqn:E; inversion Hek as [? ? [Hms _]|]; subst. simpl. rewrite (IH (delete k s)).
    + rewrite stored_delete, E. simpl. rewrite (metas_size _ _ Hms). lia.
    + split; [done|]. intros k'. destruct (decide (k' = k)) as [->|Hne].
      * rewrite lookup_delete_eq. destruct (get k m) eqn:Eg; [|constructor]. exfalso. apply Hk, get_keys. by eexists.
      * rewrite lookup_delete_ne by done. specialize (He k'). simpl in He. apply String.eqb_neq in Hne. by rewrite Hne in He.
Qed.

Lemma snoc_newest vs v : versions_ok (vs ++ [v]) -> forall v', v' ∈ vs -> a_seq v' < a_seq v.
Proof.
  intros (_ & Hs & _) v' Hin. induction vs as [|x vs IH]; [by apply not_elem_of_nil in Hin|].
  inversion Hs as [|? ? Hs' Hx]; subst. apply elem_of_cons in Hin as [->|Hin]; [|by apply IH].
  rewrite Forall_forall in Hx. apply Hx, elem_of_app. right. left.
Qed.

(** What the entry of a key says of its versions. *)
Lemma entry_facts w s k : loaded_with w s -> let cur := entry_of (w_fields w) k in
  Forall2 (meta_ok o) (default [] (e_versions <$> cur)) (default [] (s !! k)) /\
  option_Forall2 (meta_ok o) (cur ≫= fun e => latest (e_versions e)) (newest s k) /\
  (match cur ≫= (fun e => latest (e_versions e)) with Some _ => e_value <$> cur | None => None end) = a_val <$> newest s k.
Proof.
  intros ((_ & Hs & _) & _ & [_ He]). cbv zeta. specialize (He k). unfold entry_of, newest.
  destruct (get k (c_entries (w_fields w))) as [e|], (s !! k) as [vs|] eqn:E; inversion He as [? ? [Hf Hv]|]; subst; simpl.
  - destruct (Hs _ _ E) as [Hok _]. destruct (versions_last _ Hok) as (v & Hl & _).
    destruct (Forall2_last _ _ _ _ Hf Hl) as (mt & Hmt & Hmv). unfold latest. rewrite Hmt, Hl in *. simpl in *.
    split_and!; [done|by constructor|congruence].
  - split_and!; [constructor|constructor|done].
Qed.

Definition planned (vs : list VersionMeta) (next : value) (v : Version) (w : Write) : Prop :=
  wr_seq w = a_seq v /\ wr_data w = payload o (a_val v) /\ wr_prior w = vs /\
  (forall now, meta_ok o (wr_meta w now) v) /\ json_parse (wr_json w) = Some (a_val v).

Lemma plan_spec w s k next : loaded_with w s -> wf_doc next = true ->
  let cur := entry_of (w_fields w) k in
  match spec_write o s k next with
  | inr e => plan_write o cur (cur ≫= fun e => latest (e_versions e)) next (footprint (w_fields w)) = inr e
  | inl None => plan_write o cur (cur ≫= fun e => latest (e_versions e)) next (footprint (w_fields w)) = inl None
  | inl (Some v) => exists wr, planned (default [] (e_versions <$> cur)) next v wr /\
      plan_write o cur (cur ≫= fun e => latest (e_versions e)) next (footprint (w_fields w)) = inl (Some wr)
  end.
Proof.
  intros Hl Hw. cbv zeta. destruct (entry_facts w s k Hl) as (Hf & Hlast & _).
  assert (Hfoot : footprint (w_fields w) = stored o s) by (apply entries_size, Hl).
  set (cur := entry_of (w_fields w) k) in *. set (cl := cur ≫= fun e => latest (e_versions e)) in *.
  unfold plan_write, spec_write. destruct (assertNoRunState next); [done|].
  assert (Hnew : last (default [] (s !! k)) = newest s k) by (unfold newest; by destruct (s !! k)).
  rewrite Hnew. assert (Hsha : vm_sha <$> cl = (fun v => print (a_val v)) <$> newest s k).
  { inversion Hlast as [mt v (_ & _ & H)|]; subst; simpl; congruence. }
  rewrite Hsha. fold (print next). destruct (bool_decide _); [done|].
  fold (payload o next). fold (size o next). destruct (maxDocBytes o <? size o next); [done|].
  assert (Hseq : default 0 (vm_seq <$> cl) = default 0 (a_seq <$> newest s k)).
  { inversion Hlast as [mt v (H & _)|]; subst; simpl; congruence. }
  rewrite Hseq. destruct (KV_MAX_SEQ <? default 0 (a_seq <$> newest s k) + 1); [done|].
  rewrite (Forall2_length _ _ _ Hf), Hfoot, (metas_size _ _ (metas_take _ _ _ Hf)).
  destruct (maxTotalBytes o <? _); [done|]. eexists. split; [|reflexivity].
  unfold planned, meta_ok, size, payload, print, stableJson. simpl. rewrite stable_idemp by done.
  split_and!; try done. apply json_parse_stringify; by apply stable_ok.
Qed.

(** Documents as callers see them. *)
Definition shown (d : KvDoc) : string * string * SDoc := (kd_collection d, kd_id d, (kd_seq d, kd_value d)).

Definition doc_rel (c i : string) (d : option KvDoc) (x : option SDoc) : Prop := shown <$> d = (fun x => (c, i, x)) <$> x.

Lemma docOf_rel w s c i : loaded_with w s -> doc_rel c i (docOf (w_fields w) c i) (sdoc <$> newest s (keyOf c i)).
Proof.
  intros Hl. destruct (entry_facts w s (keyOf c i) Hl) as (_ & Hlast & Hval). unfold doc_rel, docOf.
  destruct (entry_of (w_fields w) (keyOf c i)) as [e|]; simpl in *.
  - destruct (latest (e_versions e)) as [mt|], (newest s (keyOf c i)) as [v|]; inversion Hlast as [? ? (H & _)|]; subst; simpl in *; [|done].
    unfold shown, sdoc. simpl. injection Hval as ->. by rewrite H.
  - by inversion Hlast.
Qed.

Lemma metas_sorted ms vs : Forall2 (meta_ok o) ms vs -> StronglySorted seq_lt vs -> StronglySorted (le_by by_seq) ms.
Proof.
  intros Hf. induction Hf as [|mt v ms vs (Hmv & _) Hf IH]; intros Hs; constructor; inversion Hs as [|? ? Hs' Hx]; subst; [by apply IH|].
  clear IH Hs Hs'. induction Hf as [|mt' v' ms vs (Hmv' & _) Hf IH]; constructor; inversion Hx; subst; [|by apply IH].
  unfold le_by, by_seq, cmp_asc, seq_lt in *. lia.
Qed.

(** A crash leaves every document at its newest version before or after. *)
Definition between (s s' s1 : Store) : Prop := forall k, newest s1 k = newest s k \/ newest s1 k = newest s' k.

Definition survives (s s' : Store) : Prop := forall m s1, swarm_rel o m s1 -> store_ok o s1 -> between s s' s1 -> C m.

Lemma entries_change k e vs m s s' : entries_rel o m s -> (forall k', k' <> k -> s' !! k' = s !! k') -> s' !! k = Some vs ->
  entry_ok o e vs -> entries_rel o (obj_set k e m) s'.
Proof.
  intros [Hd He] Hne Hk Hok. split; [by apply obj_set_NoDup|]. intros k'. rewrite get_obj_set.
  destruct (String.eqb_spec k' k) as [->|Hn]; [rewrite Hk; by constructor|]. rewrite Hne by done. apply He.
Qed.

Lemma loaded_set w s m : swarm_rel o (w_configs w) s -> store_ok o s -> entries_rel o m s -> is_Some (c_loadedAt (w_fields w)) ->
  loaded_with (set_fields w (set_entries (w_fields w) m)) s.
Proof. intros Hm Hs He [t Ht]. unfold loaded_with, stands, cache_rel. simpl. rewrite Ht. by split_and!. Qed.

Lemma last_snoc_drop {A} n (vs : list A) v : (n <= length vs)%nat -> last (drop n (vs ++ [v])) = Some v.
Proof. intros. rewrite drop_app_le by done. apply last_snoc. Qed.

(** The removal of old versions after a write. *)
Lemma q_gc c i vs v w s Q : let k := keyOf c i in let s' := with_key k (retain o (vs ++ [v])) s in
  valid_key c i = true -> allowed o c = true ->
  loaded_with w (with_key k (vs ++ [v]) s) -> survives s s' ->
  (forall w', loaded_with w' s' -> Q (inl tt) w') -> qwp (gc o c i) Q w.
Proof.
  intros k s' Hk Ha ((Hm & Hs & Hc) & Hl & He) HC HQ. unfold gc. apply q_read_bind. fold k.
  pose proof (proj2 He k) as Hek. rewrite with_key_lookup in Hek. fold (entry_of (w_fields w) k) in Hek.
  assert (Hvs : match vs ++ [v] with [] => None | _ => Some (vs ++ [v]) end = Some (vs ++ [v])) by by destruct vs.
  rewrite Hvs in Hek. destruct (entry_of (w_fields w) k) as [e|]; inversion Hek as [? ? [Hf Hval]|]; subst.
  pose proof (Forall2_length _ _ _ Hf) as Hlen. rewrite Hlen. set (n := length (vs ++ [v])) in *. pose proof (keep_pos o) as Hkeep.
  assert (Hn : n = S (length vs)) by (unfold n; rewrite length_app; simpl; lia).
  destruct (Nat.leb_spec n (keep_n o)) as [Hle|Hgt].
  - apply q_ret, HQ. unfold s', retain. fold n. replace (n - keep_n o)%nat with 0%nat by lia. simpl drop. done.
  - set (ks := retain o (vs ++ [v])) in *. set (ds := take (n - keep_n o) (vs ++ [v])).
    assert (Hks : ks <> [] /\ last ks = Some v).
    { assert (Hlast : last ks = Some v) by (apply last_snoc_drop; fold n; lia). split; [|done]. intros E. by rewrite E in Hlast. }
    assert (Hsplit : vs ++ [v] = ds ++ ks) by (unfold ds, ks, retain; fold n; by rewrite take_drop).
    rewrite Hsplit in Hm, Hs. apply wp_bind. eapply (q_remove_versions c i _ ds ks); try done.
    + by apply metas_take.
    + intros m l Hml Hsl _. apply (HC m _ Hml Hsl). intros k'. destruct (decide (k' = k)) as [->|Hne].
      * right. unfold newest, s'. rewrite !with_key_lookup. destruct (l ++ ks) as [|x xs] eqn:E; [by apply app_eq_nil in E as [_ ?]; destruct Hks|].
        simpl. rewrite <- E, last_app. destruct Hks as [Hne0 Hlast]. rewrite Hlast. destruct ks; [done|]. simpl. by rewrite Hlast.
      * left. unfold newest. by rewrite with_key_ne.
    + intros w1 E1 Hm1. apply q_sync. cbn [fst snd]. apply HQ. apply loaded_set; [done| | |by rewrite E1].
      * apply (store_ok_with_key c i ks) in Hs; [|done|done|].
        { by rewrite with_key_same in Hs. }
        intros Hne0. rewrite <- Hsplit in Hs.
        assert (Hvok : versions_ok (vs ++ [v])) by (destruct (Hs k (vs ++ [v])) as [? _]; [by rewrite with_key_lookup|done]).
        by apply (versions_ok_drop _ _ Hvok).
      * rewrite E1. eapply (entries_change k _ ks); [exact He| | |].
        { intros k' Hne. unfold s'. by rewrite !with_key_ne. }
        { unfold s'. rewrite with_key_lookup. destruct ks; [by destruct Hks|done]. }
        { assert (Hfd : Forall2 (meta_ok o) (drop (n - keep_n o) (e_versions e)) ks) by by apply Forall2_drop.
          rewrite Hsplit in Hval. split; simpl.
          - rewrite js_sort_id; [done|]. eapply metas_sorted; [exact Hfd|]. apply sorted_drop.
            rewrite <- Hsplit in Hs. by destruct (Hs k (vs ++ [v])) as [(_ & Hsort & _) _]; [rewrite with_key_lookup|].
          - rewrite last_app in Hval. destruct Hks as [_ Hlast]. rewrite Hlast in *. done. }
Qed.

(** The result of a run against the one specified; what a driver or a sealer throws
    is any text. *)
Definition err_rel (e e' : KvErr) : Prop :=
  match e, e' with KvError a, KvError b => a = b | Thrown _, Thrown _ => True | _, _ => False end.

Definition res_rel {A B} (R : A -> B -> Prop) (r : A + KvErr) (r' : B + KvErr) : Prop :=
  match r, r' with inl a, inl b => R a b | inr e, inr e' => err_rel e e' | _, _ => False end.

Lemma err_rel_refl e : err_rel e e.
Proof. by destruct e. Qed.

(** A method ends as its specification says. *)
Definition meets {A B} (R : A -> B -> Prop) (spec : (B + KvErr) * Store) (r : A + KvErr) (w : World Cache) : Prop :=
  res_rel R r (fst spec) /\ stands w (snd spec).

(** The function makes documents of documents. *)
Definition fn_ok (fn : Fn) : Prop := forall cur v, (forall u, cur = Some u -> wf_doc u = true) -> fn cur = inl (Some v) -> wf_doc v = true.

Lemma newest_wf s k u : store_ok o s -> a_val <$> newest s k = Some u -> wf_doc u = true.
Proof.
  intros Hs. unfold newest. destruct (s !! k) as [vs|] eqn:E; [|done]. cbn [mbind option_bind]. destruct (last vs) as [v|] eqn:El; [|done].
  intros [= <-]. by destruct (versions_member s k vs v Hs E ltac:(by apply last_Some_elem_of)) as (_ & ? & _).
Qed.

Lemma fn_ok_newest fn s k next : store_ok o s -> fn_ok fn -> fn (a_val <$> newest s k) = inl (Some next) -> wf_doc next = true.
Proof. intros Hs Hfn. apply Hfn. intros u. by apply newest_wf. Qed.

Lemma survives_start s s' w : survives s s' -> stands w s -> C (w_configs w).
Proof. intros HC (Hm & Hs & _). eapply HC; [exact Hm|done|]. intros k. by left. Qed.

Lemma q_docOf c i w s x : loaded_with w s -> x = sdoc <$> newest s (keyOf c i) ->
  qwp (sync (fun _ cc => (cc, docOf cc c i))) (meets (doc_rel c i) (inl x, s)) w.
Proof. intros Hl ->. apply q_read. split; [by apply docOf_rel|apply Hl]. Qed.

Lemma with_key_insert k vs v s : with_key k (vs ++ [v]) s = <[k := vs ++ [v]]> s.
Proof. unfold with_key. by destruct vs. Qed.

(** After the create: the cache, the removals and the answer. *)
Lemma q_commit c i vs v ms next wr w s : let k := keyOf c i in let s' := spec_commit o s k v in
  valid_key c i = true -> allowed o c = true -> vs = default [] (s !! k) -> Forall2 (meta_ok o) ms vs -> planned ms next v wr ->
  versions_ok (vs ++ [v]) -> store_ok o s -> entries_rel o (c_entries (w_fields w)) s -> is_Some (c_loadedAt (w_fields w)) ->
  swarm_rel o (w_configs w) (<[k := vs ++ [v]]> s) -> survives s s' ->
  qwp (do* sync (fun now cc => (commit k wr now cc, tt)) in do* gc o c i in sync (fun _ cc => (cc, docOf cc c i)))
    (meets (doc_rel c i) (inl (Some (sdoc v)), s')) w.
Proof.
  intros k s' Hk Ha Hvs Hf (Hseq & Hdata & Hprior & Hmeta & Hjson) Hvok Hs He Hl Hm HC.
  assert (E : s' = with_key k (retain o (vs ++ [v])) s).
  { unfold s', spec_commit. rewrite <- Hvs. rewrite retain_app. by rewrite with_key_insert. }
  apply q_sync_bind. cbn [fst snd]. apply wp_bind. apply (q_gc c i vs v _ s); fold k; try rewrite <- E; try done.
  - rewrite <- with_key_insert in Hm.
    assert (Hs1 : store_ok o (with_key k (vs ++ [v]) s)) by by apply store_ok_with_key.
    assert (He1 : entries_rel o (c_entries (commit k wr (w_now w) (w_fields w))) (with_key k (vs ++ [v]) s)).
    { unfold commit. cbn [c_entries touch set_entries]. eapply (entries_change k _ (vs ++ [v])); [exact He| | |].
      - intros k' Hne. by rewrite with_key_ne.
      - rewrite with_key_lookup. by destruct vs.
      - split; cbn [e_versions e_value]; [rewrite Hprior; apply Forall2_app; [done|by constructor]|].
        rewrite Hjson, last_snoc. done. }
    destruct Hl as [t Ht]. unfold loaded_with, stands, cache_rel. cbn [w_fields set_fields w_configs]. unfold commit in *. cbn [c_loadedAt touch set_entries] in *.
    rewrite Ht. by split_and!.
  - intros w' Hl'. apply q_docOf; [done|]. unfold newest. rewrite E, with_key_lookup, retain_app.
    destruct (drop _ vs ++ [v]) as [|x xs] eqn:Ex; [by apply app_eq_nil in Ex as [_ ?]|]. rewrite <- Ex. cbn [mbind option_bind].
    by rewrite last_snoc.
Qed.

Lemma q_update_once c i fn lost w s : let k := keyOf c i in
  valid_key c i = true -> allowed o c = true -> fn_ok fn -> loaded_with w s -> survives s (snd (spec_update_key o k fn s)) ->
  qwp (update_once o c i fn lost) (meets (doc_rel c i) (spec_update_key o k fn s)) w.
Proof.
  intros k Hk Ha Hfn Hl HC. pose proof (survives_start _ _ _ HC (proj1 Hl)) as HC0.
  destruct (entry_facts w s k Hl) as (Hf & Hlast & Hval). pose proof (proj1 (proj2 (proj1 Hl))) as Hst0.
  unfold update_once. apply q_read_bind. fold k. rewrite Hval. unfold spec_update_key in *.
  destruct (fn (a_val <$> newest s k)) as [[next|]|e] eqn:Efn;
    [|apply q_tick; [done|]; intros w1 Hst; apply q_docOf; [by eapply loaded_still|done]
     |split; [apply err_rel_refl|apply Hl]].
  apply q_tick; [done|]. intros w1 Hst. pose proof (loaded_still _ _ _ Hst Hl) as Hl1. apply q_read_bind.
  pose proof (plan_spec w1 s k next Hl1 (fn_ok_newest _ _ _ _ Hst0 Hfn Efn)) as Hplan. cbv zeta in Hplan. rewrite (proj2 Hst) in *.
  destruct (spec_write o s k next) as [[v|]|e] eqn:Esw.
  - destruct Hplan as (wr & Hwr & ->). pose proof Hwr as (Hseq & Hdata & _ & Hmeta & _).
    destruct Hl1 as ((Hm1 & Hs1 & Hc1) & Hld & He1). rewrite (proj2 Hst) in *.
    destruct (version_of_write o s k next v Hs1 (fn_ok_newest _ _ _ _ Hst0 Hfn Efn) Esw) as (Hv & Hvok & _).
    apply wp_settle, q_await; [by rewrite (proj1 Hst)|]. intros r m w2 Hst2 Hd. cbn [docker] in Hd. rewrite Hseq, Hdata in Hd.
    assert (Hfresh : forall v', v' ∈ default [] (s !! k) -> a_seq v' < a_seq v) by by apply snoc_newest.
    set (cfg t := {| cf_dataB64 := payload o (a_val v); cf_labels := labels_for o c i (a_seq v) (vm_sha (wr_meta wr 0)) (vm_bytes (wr_meta wr 0)); cf_createdAt := t |}) in *.
    assert (Hcfg : forall t, config_ok o v (cfg t)).
    { intros t. destruct (Hmeta 0) as (_ & Hb & Hsha). unfold config_ok, cfg. cbn [cf_dataB64 cf_labels]. rewrite Hb, Hsha. by split_and!. }
    destruct (swarm_create c i _ s v (cfg 0) Hm1 Hs1 Hk Ha Hv Hfresh (Hcfg 0)) as [Hnone _]. rewrite Hnone in Hd.
    destruct Hd as (-> & t & ->). destruct (swarm_create c i _ s v (cfg t) Hm1 Hs1 Hk Ha Hv Hfresh (Hcfg t)) as [_ Hm2].
    eapply (q_commit c i (default [] (s !! k)) v (default [] (e_versions <$> entry_of (w_fields w) k)) next); try done;
      cbn [w_fields set_configs]; rewrite (proj2 Hst2), (proj2 Hst); done.
  - rewrite Hplan. by apply q_docOf.
  - rewrite Hplan. split; [apply err_rel_refl|apply Hl1].
Qed.

Lemma q_update c i fn w s : fn_ok fn -> stands w s -> survives s (snd (spec_update o c i fn s)) ->
  qwp (update o c i fn) (meets (doc_rel c i) (spec_update o c i fn s)) w.
Proof using Type*.
  intros Hfn Hst HC. unfold update, spec_update in *. destruct (check o c i) as [e|] eqn:E; cbn [guard spec_guard] in *.
  - split; [apply err_rel_refl|done].
  - apply check_None in E as [Hk Ha]. apply wp_bind. eapply q_ensureFresh; [done|by eapply survives_start|].
    intros w' Hl _. destruct (Z.to_nat (maxRetries o)); by apply q_update_once.
Qed.

(** * The other methods *)

(** A method that checks its key and then reads the cache. *)
Lemma q_guarded_read {A B} (R : A -> B -> Prop) e (f : Cache -> A) (x : B) w s :
  stands w s -> C (w_configs w) -> (forall w', loaded_with w' s -> R (f (w_fields w')) x) ->
  qwp (guard e (do* ensureFresh o in sync (fun _ cc => (cc, f cc)))) (meets R (spec_guard e s (inl x, s))) w.
Proof using Type*.
  intros Hst HC HR. destruct e as [e|]; cbn [guard spec_guard]; [by split; [apply err_rel_refl|]|].
  apply wp_bind. eapply q_ensureFresh; [done|done|]. intros w' Hl _. apply q_read. split; [by apply HR|apply Hl].
Qed.

Lemma q_getDoc c i w s : stands w s -> C (w_configs w) -> qwp (getDoc o c i) (meets (doc_rel c i) (spec_getDoc o c i s)) w.
Proof using Type*. intros Hst HC. unfold getDoc, spec_getDoc. apply q_guarded_read; [done|done|]. intros w' Hl. by apply docOf_rel. Qed.

Lemma q_get c i w s : stands w s -> C (w_configs w) -> qwp (get_ o c i) (meets eq (spec_get o c i s)) w.
Proof using Type*.
  intros Hst HC. unfold get_. apply wp_bind. eapply wp_mono; [|by apply q_getDoc].
  unfold spec_getDoc, spec_get, meets, spec_guard. destruct (check o c i); cbn [fst snd].
  - intros [d|e'] w' [Hr Hw]; [done|]. by split.
  - intros [d|e'] w' [Hr Hw]; [|done]. apply q_ret. split; [|done]. cbn [res_rel] in *. unfold doc_rel in Hr.
    destruct d as [d|], (newest s (keyOf c i)) as [v|]; simpl in *; try done. unfold shown, sdoc in Hr. congruence.
Qed.

Lemma q_versions c i w s : stands w s -> C (w_configs w) ->
  qwp (versions o c i) (meets (fun r x => map fst r = x) (spec_versions o c i s)) w.
Proof using Type*.
  intros Hst HC. unfold versions, spec_versions. apply q_guarded_read; [done|done|]. intros w' Hl.
  destruct (entry_facts w' s (keyOf c i) Hl) as (Hf & _). rewrite map_rev, map_map. f_equal. simpl.
  apply map_Forall2. eapply Forall2_impl; [exact Hf|]. by intros mt v [? _].
Qed.

(** The versions of a document by number. *)
Lemma version_at_spec vs n v : version_at vs n = Some v -> v ∈ vs /\ a_seq v = n.
Proof. unfold version_at. intros [Hin E]%find_some. apply list_elem_of_In in Hin. by b2p. Qed.

Lemma version_at_none vs n : version_at vs n = None -> forall v, v ∈ vs -> a_seq v <> n.
Proof. unfold version_at. intros H v Hin. apply list_elem_of_In in Hin. pose proof (find_none _ _ H v Hin) as E. simpl in E. by b2p. Qed.

Lemma q_getVersion c i n w s : 1 <= n <= KV_MAX_SEQ -> stands w s -> C (w_configs w) ->
  qwp (getVersion o c i n) (fun r w' => meets eq (spec_getVersion o c i n s) r w' /\ w_configs w' = w_configs w) w.
Proof using Type*.
  intros Hn Hst HC. pose proof Hst as (Hm & Hs & Hc). unfold getVersion, spec_getVersion.
  destruct (check o c i) as [e|] eqn:E; cbn [guard spec_guard]; [split; [by split; [apply err_rel_refl|]|done]|].
  apply check_None in E as [Hk Ha]. destruct (s !! keyOf c i ≫= fun vs => version_at vs n) as [v|] eqn:Ev.
  - destruct (s !! keyOf c i) as [vs|] eqn:Evs; [|done]. cbn [mbind option_bind] in Ev. apply version_at_spec in Ev as [Hin <-].
    eapply q_readVersion; try done. intros w1 Hw1. split; [split; [done|by eapply stands_still]|apply Hw1].
  - unfold readVersion. apply wp_bind, q_await_still; [done|by intros r m [-> _]|]. intros r w1 Hw1 [_ Hr].
    destruct (w_configs w !! kvConfigName c i n) as [cfg|] eqn:Em.
    + exfalso. destruct Hm as [H1 _]. assert (Hp : parseKvConfigName (kvConfigName c i n) = Some (c, i, n)).
      { pose proof Hk as (? & ? & _)%valid_key_spec. unfold KV_MAX_SEQ in Hn. apply kvConfigName_parses; done || lia. }
      destruct (H1 _ _ _ _ _ Em Hp Ha) as (_ & vs & v & Hvs & Hin & Hname & _). rewrite Hvs in Ev. cbn [mbind option_bind] in Ev.
      apply (version_at_none _ _ Ev v Hin). apply (f_equal parseKvConfigName) in Hname.
      rewrite Hp, name_parses in Hname by (done || by eapply versions_member). congruence.
    + destruct Hr as [e ->]. split; [split; [done|by eapply stands_still]|apply Hw1].
Qed.

Lemma q_put c i v w s : wf_doc v = true -> stands w s -> survives s (snd (spec_put o c i v s)) ->
  qwp (put o c i v) (meets (doc_rel c i) (spec_put o c i v s)) w.
Proof using Type*. intros Hv Hst HC. apply q_update; [|done|done]. by intros cur v' _ [= <-]. Qed.

Lemma spec_getVersion_store c i n s : snd (spec_getVersion o c i n s) = s.
Proof. unfold spec_getVersion, spec_guard. by destruct (check o c i). Qed.

Lemma spec_getVersion_wf c i n s v s' : store_ok o s -> spec_getVersion o c i n s = (inl v, s') -> wf_doc v = true.
Proof.
  intros Hs. unfold spec_getVersion, spec_guard. destruct (check o c i); [done|]. destruct (s !! keyOf c i) as [vs|] eqn:E; [|done].
  cbn [mbind option_bind]. destruct (version_at vs n) as [x|] eqn:Ev; [|done]. apply version_at_spec in Ev as [Hin _].
  intros [= <- _]. by destruct (versions_member _ _ _ _ Hs E Hin) as (_ & ? & _).
Qed.

Lemma q_revert c i n w s : 1 <= n <= KV_MAX_SEQ -> stands w s -> survives s (snd (spec_revert o c i n s)) ->
  qwp (revert o c i n) (meets (doc_rel c i) (spec_revert o c i n s)) w.
Proof using Type*.
  intros Hn Hst HC. unfold revert, spec_revert in *. apply wp_bind.
  eapply wp_mono; [|apply q_getVersion; [done|done|by eapply survives_start]].
  pose proof (spec_getVersion_store c i n s) as Hsame. pose proof (spec_getVersion_wf c i n s) as Hwf.
  destruct (spec_getVersion o c i n s) as [[v|e] s1]; cbn [snd] in Hsame; subst s1.
  - intros [v'|e'] w' [[Hr Hw] Hcf]; [|done]. cbn [res_rel fst] in Hr. subst v'. apply q_put; [by eapply Hwf; [apply Hst|]|done|done].
  - intros [v'|e'] w' [[Hr Hw] Hcf]; [done|]. by split.
Qed.

Lemma q_delete c i w s : stands w s -> survives s (snd (spec_delete o c i s)) ->
  qwp (delete_ o c i) (meets eq (spec_delete o c i s)) w.
Proof using Type*.
  intros Hst HC. unfold delete_, spec_delete in *. destruct (check o c i) as [e|] eqn:E; cbn [guard spec_guard snd] in *.
  { by split; [apply err_rel_refl|]. }
  apply check_None in E as [Hk Ha]. set (k := keyOf c i) in *. apply wp_bind. eapply q_ensureFresh; [done|by eapply survives_start|].
  intros w1 Hl1 _. apply wp_bind. eapply q_refreshKey; [done|done|eapply survives_start; [done|apply Hl1]|].
  intros w2 Hl2 _. apply q_read_bind. fold k. destruct Hl2 as ((Hm & Hs & Hc) & Hld & He). pose proof (proj2 He k) as Hek.
  fold (entry_of (w_fields w2) k) in Hek. destruct (entry_of (w_fields w2) k) as [e|], (s !! k) as [vs|] eqn:Ek;
    inversion Hek as [? ? [Hf _]|]; subst.
  - destruct (Hs _ _ Ek) as [Hvok _]. apply wp_bind. assert (Hid : with_key k vs s = s) by (apply with_key_id; [done|apply Hvok]).
    eapply (q_remove_all c i _ vs _ s); fold k; rewrite ?Hid; try done.
    + intros m l Hml Hsl Hsuf. rewrite app_nil_r in *. apply (HC m _ Hml Hsl). intros k'.
      destruct (decide (k' = k)) as [->|Hne]; [|left; unfold newest; by rewrite with_key_ne].
      unfold newest. rewrite with_key_lookup, lookup_delete_eq. destruct l as [|x l]; [by right|left]. rewrite Ek. cbn [mbind option_bind].
      destruct Hsuf as [l0 ->]. by rewrite last_app_cons.
    + intros w3 E3 Hm3. apply q_sync. cbn [fst snd]. split; [done|]. cbn [snd]. fold k.
      assert (Hs3 : store_ok o (delete k s)).
      { intros k' vs' Hl'. apply lookup_delete_Some in Hl' as [_ Hl']. by apply Hs. }
      destruct Hld as [t Ht]. unfold stands, cache_rel. cbn [w_configs w_fields set_fields touch c_loadedAt c_entries set_entries].
      rewrite E3, Ht. split_and!; [done|done|]. split; [apply map_delete_NoDup, He|]. intros k'.
      rewrite get_map_delete by apply He. destruct (String.eqb_spec k' k) as [->|Hne]; [rewrite lookup_delete_eq; constructor|].
      rewrite lookup_delete_ne by done. apply He.
  - apply q_ret. split; [done|]. cbn [snd]. rewrite delete_id by done. by split_and!.
Qed.

(** * Listings and backups *)

Lemma entries_flat_map {B} (f : string * Entry -> list B) (g : string * list Version -> list B) m s : entries_rel o m s ->
  (forall k e vs, s !! k = Some vs -> entry_ok o e vs -> (k, e) ∈ m -> f (k, e) = g (k, vs)) ->
  flat_map f m ≡ₚ flat_map g (map_to_list s).
Proof.
  revert s. induction m as [|[k e] m IH]; intros s [Hd He] Hfg.
  - assert (s = ∅) as ->; [|by rewrite map_to_list_empty]. apply map_eq. intros k. specialize (He k). inversion He. by rewrite lookup_empty.
  - apply NoDup_cons in Hd as [Hk Hd]. pose proof (He k) as Hek. simpl in Hek. rewrite String.eqb_refl in Hek.
    destruct (s !! k) as [vs|] eqn:E; inversion Hek as [? ? Hok|]; subst.
    assert (Hp : map_to_list s ≡ₚ (k, vs) :: map_to_list (delete k s)).
    { rewrite <- (insert_delete_id s k vs E) at 1. apply map_to_list_insert, lookup_delete_eq. }
    rewrite (Permutation_flat_map g Hp). cbn [flat_map]. rewrite (Hfg k e vs E Hok) by left. apply Permutation_app_head, IH.
    + split; [done|]. intros k'. destruct (decide (k' = k)) as [->|Hne].
      * rewrite lookup_delete_eq. destruct (get k m) eqn:Eg; [|constructor]. exfalso. apply Hk, get_keys. by eexists.
      * rewrite lookup_delete_ne by done. specialize (He k'). simpl in He. apply String.eqb_neq in Hne. by rewrite Hne in He.
    + intros k' e' vs' [_ Hvs']%lookup_delete_Some Hok' Hin. apply Hfg; [done|done|by right].
Qed.

Lemma map_flat_map {A B} (f : A -> B) l : map f l = flat_map (fun x => [f x]) l.
Proof. induction l as [|x l IH]; simpl; congruence. Qed.

Lemma js_sort_map {A B} (f : A -> B) (c : B -> B -> Z) l : map f (js_sort (fun a b => c (f a) (f b)) l) = js_sort c (map f l).
Proof.
  induction l as [|x l IH]; simpl; [done|]. rewrite <- IH. generalize (js_sort (fun a b => c (f a) (f b)) l). intros m.
  induction m as [|y m IHm]; simpl; [done|]. destruct (0 <? c (f x) (f y)); simpl; [by rewrite IHm|done].
Qed.

Lemma js_sort_ext {A} (c1 c2 : A -> A -> Z) l : NoDup l ->
  (forall x y, x ∈ l -> y ∈ l -> x <> y -> (0 <? c1 x y) = (0 <? c2 x y)) -> js_sort c1 l = js_sort c2 l.
Proof.
  induction l as [|x l IH]; intros Hd Hc; [done|]. apply NoDup_cons in Hd as [Hx Hd]. cbn [js_sort foldr].
  fold (js_sort c1 l) (js_sort c2 l). rewrite IH; [|done|intros; apply Hc; [by right|by right|done]].
  assert (Hin : forall y, y ∈ js_sort c2 l -> y ∈ l) by (intros y; by rewrite js_sort_elem). clear IH.
  induction (js_sort c2 l) as [|y m IHm]; [done|]. cbn [insert_by].
  rewrite (Hc x y); [|left|right; apply Hin; left|intros ->; apply Hx, Hin; left].
  destruct (0 <? c2 x y); [|done]. f_equal. apply IHm. intros z Hz. apply Hin. by right.
Qed.

Lemma newest_of_entry s k e vs : store_ok o s -> s !! k = Some vs -> entry_ok o e vs ->
  exists v mt, last vs = Some v /\ latest (e_versions e) = Some mt /\ meta_ok o mt v /\ e_value e = a_val v.
Proof.
  intros Hs Hk [Hf Hval]. destruct (Hs _ _ Hk) as [Hok _]. destruct (versions_last _ Hok) as (v & Hl & _).
  destruct (Forall2_last _ _ _ _ Hf Hl) as (mt & Hmt & Hmv). exists v, mt. rewrite Hl in Hval. simpl in Hval. split_and!; congruence || done.
Qed.

Definition docs_rel (c : string) (r : list KvDoc) (x : list (string * SDoc)) : Prop :=
  map shown r = map (fun y => (c, fst y, snd y)) x.

Lemma store_keys s k : store_ok o s -> is_Some (s !! k) -> keyOf (fst (unkey k)) (snd (unkey k)) = k.
Proof.
  intros Hs [vs Hk]. destruct (Hs _ _ Hk) as [_ (c & i & -> & Hv & _)]. apply valid_key_spec in Hv as (? & ? & _). by rewrite unkey_keyOf.
Qed.

Lemma q_list c w s : stands w s -> C (w_configs w) -> qwp (list_ o c) (meets (docs_rel c) (spec_list o c s)) w.
Proof using Type*.
  intros Hst HC. unfold list_, spec_list. apply q_guarded_read; [done|done|]. intros w' Hl. pose proof Hl as ((_ & Hs & _) & _ & He).
  unfold docs_rel. set (f := flat_map _ (c_entries (w_fields w'))). set (g := flat_map _ (map_to_list s)).
  set (mk := fun y : string * SDoc => (c, fst y, snd y)).
  assert (Hp : map shown f ≡ₚ map mk g).
  { unfold f, g. rewrite !flat_map_concat_map, !concat_map, !map_map, <- !flat_map_concat_map. apply entries_flat_map; [done|].
    intros k e vs Hk Hok Hin. cbn [fst snd]. pose proof (store_keys s k Hs ltac:(by eexists)) as Hkey.
    destruct (unkey k) as [cl id]. cbn [fst snd] in Hkey. destruct (String.eqb_spec cl c) as [->|]; [|done].
    destruct (newest_of_entry s k e vs Hs Hk Hok) as (v & mt & -> & Hmt & Hmv & Hval).
    unfold docOf, entry_of. rewrite Hkey, (get_unique k _ e) by (done || apply He). rewrite Hmt. cbn.
    unfold shown, mk, sdoc. cbn. by rewrite Hval, (proj1 Hmv). }
  set (cmp := cmp_on (fun y : string * string * SDoc => snd (fst y)) str_cmp).
  change by_id with (fun a b => cmp (shown a) (shown b)). rewrite js_sort_map.
  change (cmp_on fst str_cmp) with (fun a b => cmp (mk a) (mk b)). rewrite js_sort_map.
  apply js_sort_canonical; [typeclasses eauto| |done]. intros a b Ha Hb Hid%str_cmp_eq. rewrite Hp in Ha, Hb.
  assert (Hg : forall y, y ∈ map mk g -> y.1.1 = c /\ newest s (keyOf c y.1.2) ≫= (fun v => Some (sdoc v)) = Some y.2).
  { clear -Hs. intros y (z & -> & ([k vs] & Hkv & Hz)%list_elem_of_In%in_flat_map)%list_elem_of_fmap. split; [done|].
    apply list_elem_of_In, elem_of_map_to_list in Hkv. pose proof (store_keys s k Hs ltac:(by eexists)) as Hkey. cbn [fst snd] in Hz.
    destruct (unkey k) as [cl id]. cbn [fst snd] in Hkey. destruct (String.eqb_spec cl c) as [->|]; [|done].
    destruct (last vs) as [v|] eqn:Ev; [|done]. destruct Hz as [<-|[]]. unfold mk. cbn [fst snd].
    unfold newest. rewrite Hkey, Hkv. cbn. by rewrite Ev. }
  destruct (Hg a Ha) as [Ha1 Ha2], (Hg b Hb) as [Hb1 Hb2]. destruct a as [[? ?] ?], b as [[? ?] ?]. simpl in *. congruence.
Qed.

Lemma export_cmp_sign a b : ~ (ex_collection a = ex_collection b /\ ex_id a = ex_id b) ->
  (0 <? export_cmp a b) = (0 <? cmp_then (cmp_on ex_collection str_cmp) (cmp_on ex_id str_cmp) a b).
Proof.
  intros Hne. unfold export_cmp, cmp_then, cmp_on. destruct (String.eqb_spec (ex_collection a) (ex_collection b)) as [E|E].
  - rewrite (proj2 (str_cmp_eq _ _) E). assert (Hi : str_cmp (ex_id a) (ex_id b) <> 0) by (intros ?%str_cmp_eq; tauto).
    simpl. destruct (Z.ltb_spec (str_cmp (ex_id a) (ex_id b)) 0), (Z.ltb_spec 0 (str_cmp (ex_id a) (ex_id b))); done || lia.
  - assert (Hc : str_cmp (ex_collection a) (ex_collection b) <> 0) by by intros ?%str_cmp_eq.
    rewrite (proj2 (Z.eqb_neq _ _) Hc).
    destruct (Z.ltb_spec (str_cmp (ex_collection a) (ex_collection b)) 0), (Z.ltb_spec 0 (str_cmp (ex_collection a) (ex_collection b))); done || lia.
Qed.

Definition export_of (kv : string * list Version) : list KvExportDoc :=
  let '(cl, id) := unkey (fst kv) in
  match last (snd kv) with Some v => [{| ex_collection := cl; ex_id := id; ex_value := a_val v |}] | None => [] end.

Lemma exported_key kv d : d ∈ export_of kv -> unkey (fst kv) = (ex_collection d, ex_id d).
Proof.
  unfold export_of. destruct (unkey (fst kv)) as [cl id]. destruct (last (snd kv)); [|by intros ?%not_elem_of_nil].
  by intros ->%list_elem_of_singleton.
Qed.

Lemma exported_NoDup s : store_ok o s -> NoDup (flat_map export_of (map_to_list s)).
Proof.
  intros Hs. assert (Hk : forall kv, kv ∈ map_to_list s -> keyOf (fst (unkey (fst kv))) (snd (unkey (fst kv))) = fst kv).
  { intros [k vs] H%elem_of_map_to_list. apply (store_keys s); [done|by eexists]. }
  pose proof (NoDup_fst_map_to_list s) as Hd. change (map_to_list s).*1 with (map fst (map_to_list s)) in Hd.
  induction (map_to_list s) as [|kv l IH]; [constructor|]. cbn [flat_map map] in *. apply NoDup_cons in Hd as [Hn Hd].
  apply NoDup_app. split_and!.
  - unfold export_of. destruct (unkey (fst kv)), (last (snd kv)); [apply NoDup_singleton|constructor].
  - intros d Hd1%exported_key (kv' & Hin & Hd2)%list_elem_of_In%in_flat_map. apply Hn. apply list_elem_of_fmap. exists kv'.
    apply list_elem_of_In in Hin, Hd2. apply exported_key in Hd2. split; [|done].
    rewrite <- (Hk kv) by left. rewrite <- (Hk kv') by (right; done). by rewrite Hd1, Hd2.
  - apply IH; [|done]. intros kv' Hin. apply Hk. by right.
Qed.

Lemma q_exportAll w s : stands w s -> C (w_configs w) -> qwp (exportAll o) (meets eq (spec_export s)) w.
Proof using Type*.
  intros Hst HC. unfold exportAll, spec_export. apply wp_settle. eapply q_refresh; [done|done|]. intros w' Hl _.
  apply q_read_bind. apply q_read. split; [|apply Hl]. cbn [res_rel fst]. destruct Hl as ((_ & Hs & _) & _ & He).
  change (fun kv : string * list Version => let '(cl, id) := unkey (fst kv) in
     match last (snd kv) with Some v => [{| ex_collection := cl; ex_id := id; ex_value := a_val v |}] | None => [] end) with export_of.
  assert (Hp : map export_entry (c_entries (w_fields w')) ≡ₚ flat_map export_of (map_to_list s)).
  { rewrite map_flat_map. apply entries_flat_map; [done|]. intros k e vs Hk Hok Hin.
    destruct (newest_of_entry s k e vs Hs Hk Hok) as (v & mt & Hv & _ & _ & Hval). unfold export_of, export_entry. cbn [fst snd].
    destruct (unkey k) as [cl id]. by rewrite Hv, Hval. }
  assert (Hkeys : forall a, a ∈ flat_map export_of (map_to_list s) ->
    (fun v => a_val v) <$> newest s (keyOf (ex_collection a) (ex_id a)) = Some (ex_value a)).
  { clear -Hs. intros a ([k vs] & Hkv & Ha)%list_elem_of_In%in_flat_map. apply list_elem_of_In, elem_of_map_to_list in Hkv.
    pose proof (store_keys s k Hs ltac:(by eexists)) as Hkey. unfold export_of in Ha. cbn [fst snd] in Ha. destruct (unkey k) as [cl id].
    cbn [fst snd] in Hkey. destruct (last vs) as [v|] eqn:Ev; [|done]. destruct Ha as [<-|[]].
    cbn [ex_collection ex_id ex_value]. unfold newest. rewrite Hkey, Hkv. cbn. by rewrite Ev. }
  assert (Hinj : forall a b, a ∈ flat_map export_of (map_to_list s) -> b ∈ flat_map export_of (map_to_list s) ->
    ex_collection a = ex_collection b -> ex_id a = ex_id b -> a = b).
  { intros a b Ha%Hkeys Hb%Hkeys Hc Hi. rewrite Hc, Hi, Hb in Ha. destruct a, b. simpl in *. congruence. }
  assert (Hmem : forall a, a ∈ map export_entry (c_entries (w_fields w')) -> a ∈ flat_map export_of (map_to_list s)) by (intros a; by rewrite Hp).
  rewrite (js_sort_ext export_cmp (cmp_then (cmp_on ex_collection str_cmp) (cmp_on ex_id str_cmp))).
  - apply js_sort_canonical; [typeclasses eauto| |done]. intros a b Ha%Hmem Hb%Hmem. unfold cmp_then, cmp_on.
    destruct (Z.eqb_spec (str_cmp (ex_collection a) (ex_collection b)) 0) as [Hc%str_cmp_eq|]; [|done].
    intros Hi%str_cmp_eq. by apply Hinj.
  - rewrite Hp. by apply exported_NoDup.
  - intros a b Ha%Hmem Hb%Hmem Hne. apply export_cmp_sign. intros [Hc Hi]. apply Hne. by apply Hinj.
Qed.
End refine.
