(* ===== verification/KvCorrect.v ===== *)
(** Theorems about the document store (packages/core/src/swarm-kv.ts).

    A history of calls on one instance gives what the specification gives, keeps
    the swarm within its budget, and loses nothing in a crash.  With other writers:
    what an update may create or remove whatever the driver answers, when it
    extends the newest version, and three ways in which it does not. *)

From S2P Require Import Prelude Comparators Json JsonText KvCodec KvTask SwarmKv KvStore KvRefine.
Open Scope task_scope.

(** * Histories *)

Inductive Op :=
  | OGetDoc (c i : string) | OGet (c i : string) | OList (c : string) | OVersions (c i : string)
  | OGetVersion (c i : string) (n : Z) | OPut (c i : string) (v : value) | OUpdate (c i : string) (fn : Fn)
  | ODelete (c i : string) | ORevert (c i : string) (n : Z) | OExport | OImport (docs : list KvExportDoc)
  | ORefresh | OBackground.

(** Results, without the times of the versions. *)
Inductive Out :=
  | RDoc (d : option (string * string * SDoc)) | RValue (v : option value) | RDocs (l : list (string * string * SDoc))
  | RSeqs (l : list Z) | RBool (b : bool) | RExport (l : list KvExportDoc) | RCount (n : Z) | RUnit.

Definition fmap_task {A B} (f : A -> B) (t : Task A) : Task B := let* a := t in ret (f a).

Section histories.
Context (o : SwarmKvOptions).

Definition exec (op : Op) : Task Out :=
  match op with
  | OGetDoc c i => fmap_task (fun d => RDoc (shown <$> d)) (getDoc o c i)
  | OGet c i => fmap_task RValue (get_ o c i)
  | OList c => fmap_task (fun l => RDocs (map shown l)) (list_ o c)
  | OVersions c i => fmap_task (fun l => RSeqs (map fst l)) (versions o c i)
  | OGetVersion c i n => fmap_task (fun v => RValue (Some v)) (getVersion o c i n)
  | OPut c i v => fmap_task (fun d => RDoc (shown <$> d)) (put o c i v)
  | OUpdate c i fn => fmap_task (fun d => RDoc (shown <$> d)) (update o c i fn)
  | ODelete c i => fmap_task RBool (delete_ o c i)
  | ORevert c i n => fmap_task (fun d => RDoc (shown <$> d)) (revert o c i n)
  | OExport => fmap_task RExport (exportAll o)
  | OImport docs => fmap_task RCount (importAll o docs)
  | ORefresh => fmap_task (fun _ => RUnit) (refresh o)
  | OBackground => fmap_task (fun _ => RUnit) (backgroundRefresh o)
  end.

Definition smap_out {A} (f : A -> Out) (r : (A + KvErr) * Store) : (Out + KvErr) * Store :=
  (match fst r with inl a => inl (f a) | inr e => inr e end, snd r).

Definition spec_doc (c i : string) (x : option SDoc) : Out := RDoc ((fun x => (c, i, x)) <$> x).

Definition spec (op : Op) (s : Store) : (Out + KvErr) * Store :=
  match op with
  | OGetDoc c i => smap_out (spec_doc c i) (spec_getDoc o c i s)
  | OGet c i => smap_out RValue (spec_get o c i s)
  | OList c => smap_out (fun l => RDocs (map (fun y => (c, fst y, snd y)) l)) (spec_list o c s)
  | OVersions c i => smap_out RSeqs (spec_versions o c i s)
  | OGetVersion c i n => smap_out (fun v => RValue (Some v)) (spec_getVersion o c i n s)
  | OPut c i v => smap_out (spec_doc c i) (spec_put o c i v s)
  | OUpdate c i fn => smap_out (spec_doc c i) (spec_update o c i fn s)
  | ODelete c i => smap_out RBool (spec_delete o c i s)
  | ORevert c i n => smap_out (spec_doc c i) (spec_revert o c i n s)
  | OExport => smap_out RExport (spec_export s)
  | OImport docs => smap_out RCount (spec_import o docs s)
  | ORefresh | OBackground => (inl RUnit, s)
  end.

(** Written values are JSON documents, and versions are numbers that the store
    could have given. *)
Definition op_ok (op : Op) : Prop :=
  match op with
  | OPut _ _ v => wf_doc v = true
  | OUpdate _ _ fn => fn_ok fn
  | OGetVersion _ _ n | ORevert _ _ n => 1 <= n <= KV_MAX_SEQ
  | OImport docs => Forall (fun d => wf_doc (ex_value d) = true) docs
  | _ => True
  end.

Section steps.
Context (Hseal : sealer_ok o) (C : Configs -> Prop).

Abbreviation qwp := (wp (@docker) still (before_call C)).

Lemma q_fmap {A B} (R : A -> B -> Prop) (f : A -> Out) (g : B -> Out) (t : Task A) sp w :
  (forall a b, R a b -> f a = g b) -> qwp t (meets o R sp) w -> qwp (fmap_task f t) (meets o eq (smap_out g sp)) w.
Proof.
  intros Hfg Ht. unfold fmap_task. apply wp_bind. eapply wp_mono; [|exact Ht]. unfold meets, smap_out.
  intros [a|e] w' [Hr Hw]; destruct (fst sp) as [b|e']; try done; cbn [fst snd].
  apply q_ret. split; [|done]. by apply Hfg.
Qed.

Lemma q_importAll docs w s : (forall m, C m) -> Forall (fun d => wf_doc (ex_value d) = true) docs -> stands o w s ->
  qwp (importAll o docs) (meets o eq (spec_import o docs s)) w.
Proof using Type*.
  intros HC Hd. revert w s. induction Hd as [|d docs Hw Hd IH]; intros w s Hst; cbn [importAll spec_import]; [by split|].
  destruct (negb (allowed o (ex_collection d))); [by apply IH|]. apply wp_bind.
  eapply wp_mono; [|apply q_put; [done|done|exact Hst|by intros m s1 _ _ _]].
  destruct (spec_put o (ex_collection d) (ex_id d) (ex_value d) s) as [[x|e] s1]; intros [a|e'] w' [Hr Hw']; cbn [fst snd] in *; try done.
  apply wp_bind. eapply wp_mono; [|by apply IH]. destruct (spec_import o docs s1) as [[n|e] s2]; intros [b|e'] w2 [Hr2 Hw2]; try done.
  change (b = n) in Hr2. subst b. by apply q_ret.
Qed.

(** Any method, on a swarm and an instance that stand for [s]. *)
Lemma q_exec_step op w s : op_ok op -> stands o w s -> survives o C s (snd (spec op s)) ->
  (forall docs, op = OImport docs -> forall m, C m) -> qwp (exec op) (meets o eq (spec op s)) w.
Proof using Type*.
  intros Hok Hst Hsv HC. assert (HC0 : C (w_configs w)) by by eapply survives_start.
  destruct op; cbn [exec spec op_ok] in *.
  all: try (apply (q_fmap (doc_rel c i)); [by unfold doc_rel, spec_doc; intros ? ? ->|]).
  - by apply q_getDoc.
  - apply (q_fmap eq); [by intros ? ? <-|]. by apply q_get.
  - apply (q_fmap (docs_rel c)); [by unfold docs_rel; intros ? ? ->|]. by apply q_list.
  - apply (q_fmap (fun r x => map fst r = x)); [by intros ? ? <-|]. by apply q_versions.
  - apply (q_fmap eq); [by intros ? ? <-|]. eapply wp_mono; [|by apply q_getVersion]. by intros r w' [? _].
  - by apply q_put.
  - by apply q_update.
  - apply (q_fmap eq); [by intros ? ? <-|]. by apply q_delete.
  - by apply q_revert.
  - apply (q_fmap eq); [by intros ? ? <-|]. by apply q_exportAll.
  - apply (q_fmap eq); [by intros ? ? <-|]. apply q_importAll; [by eapply HC|done|done].
  - apply wp_bind. eapply q_refresh; [done|done|done|]. intros w' [Hl _] _. by apply q_ret.
  - apply wp_bind. eapply q_backgroundRefresh; [done|done|done|]. intros w' Hl _. by apply q_ret.
Qed.

Lemma q_exec op w s : op_ok op -> stands o w s -> (forall m, C m) -> qwp (exec op) (meets o eq (spec op s)) w.
Proof using Type*. intros Hok Hst HC. apply q_exec_step; [done|done| |by intros]. by intros m s1 _ _ _. Qed.
End steps.

(** Before every call, a crash would leave the documents as before or as after. *)
Definition crash_safe (s s' : Store) (m : Configs) : Prop := exists s1, swarm_rel o m s1 /\ store_ok o s1 /\ between s s' s1.

Lemma q_exec_crash op w s : sealer_ok o -> op_ok op -> (forall docs, op <> OImport docs) -> stands o w s ->
  wp (@docker) still (before_call (crash_safe s (snd (spec op s)))) (exec op) (meets o eq (spec op s)) w.
Proof.
  intros Hseal Hok Hop Hst. apply q_exec_step; [done|done|done| |by intros docs ?%Hop].
  intros m s1 Hm Hs Hb. by exists s1.
Qed.

Section drivers.
Context {St : Type} `{KvDriverLaws St} (env : nat -> Run Cache St -> Run Cache St).

(** Nothing but the clock moves between the calls of this instance. *)
Definition alone : Prop := forall n s, drv_ok (r_st s) -> drv_ok (r_st (env n s)) /\ still (world s) (world (env n s)).

Fixpoint run_all (ops : list Op) (s : Run Cache St) : list (Out + KvErr) * Run Cache St :=
  match ops with
  | [] => ([], s)
  | op :: ops => let '(r, s1) := run env (exec op) s in let '(rs, s2) := run_all ops s1 in (r :: rs, s2)
  end.

Fixpoint spec_all (ops : list Op) (s : Store) : list (Out + KvErr) * Store :=
  match ops with
  | [] => ([], s)
  | op :: ops => let '(r, s1) := spec op s in let '(rs, s2) := spec_all ops s1 in (r :: rs, s2)
  end.

Lemma run_exec op s a : sealer_ok o -> alone -> op_ok op -> drv_ok (r_st s) -> stands o (world s) a ->
  res_rel eq (fst (run env (exec op) s)) (fst (spec op a)) /\ stands o (world (snd (run env (exec op) s))) (snd (spec op a)) /\
  drv_ok (r_st (snd (run env (exec op) s))).
Proof using Type*.
  intros Hseal Henv Hop Hok Hst.
  destruct (wp_run env still (before_call (fun _ => True)) Henv (exec op) (meets o eq (spec op a)) s Hok) as [[H1 H2] H3]; [|done].
  by apply q_exec.
Qed.

Lemma run_history ops s a : sealer_ok o -> alone -> Forall op_ok ops -> drv_ok (r_st s) -> stands o (world s) a ->
  Forall2 (res_rel eq) (fst (run_all ops s)) (fst (spec_all ops a)) /\ stands o (world (snd (run_all ops s))) (snd (spec_all ops a)).
Proof using Type*.
  intros Hseal Henv Hops. revert s a. induction Hops as [|op ops Hop Hops IH]; intros s a Hok Hst; [by split; [constructor|]|].
  cbn [run_all spec_all]. destruct (run_exec op s a Hseal Henv Hop Hok Hst) as (Hr & Hst1 & Hok1).
  destruct (run env (exec op) s) as [r s1], (spec op a) as [r' a1]. cbn [fst snd] in *. destruct (IH s1 a1 Hok1 Hst1) as [Hrs Hst2].
  destruct (run_all ops s1) as [rs s2], (spec_all ops a1) as [rs' a2]. cbn [fst snd] in *. split; [by constructor|done].
Qed.

(** C2: every history of calls on one instance gives the results of the specification,
    and ends in a swarm and a cache that stand for its store. *)
Theorem kv_refines ops s a : sealer_ok o -> alone -> Forall op_ok ops -> drv_ok (r_st s) -> stands o (world s) a ->
  Forall2 (res_rel eq) (fst (run_all ops s)) (fst (spec_all ops a)) /\ stands o (world (snd (run_all ops s))) (snd (spec_all ops a)).
Proof using Type*. apply run_history. Qed.

(** * The budget *)

Lemma bounded_commit k next v a : store_ok o a -> bounded o a -> wf_doc next = true -> spec_write o a k next = inl (Some v) ->
  bounded o (spec_commit o a k v).
Proof.
  intros Hok [Hlen Htot] Hw Hwr. destruct (version_of_write o a k next v Hok Hw Hwr) as (_ & _ & Hsize & Hbud & _). split.
  - intros k' vs Hk. unfold spec_commit in Hk. destruct (decide (k' = k)) as [->|Hne].
    + rewrite lookup_insert_eq in Hk. injection Hk as <-. unfold retain. rewrite length_drop. lia.
    + rewrite lookup_insert_ne in Hk by done. by eapply Hlen.
  - unfold spec_commit. rewrite stored_insert, retain_app, doc_size_app. set (vs := default [] (a !! k)) in *.
    assert (Hsplit : doc_size o vs = doc_size o (take (length vs + 1 - keep_n o) vs) + doc_size o (drop (length vs + 1 - keep_n o) vs)).
    { rewrite <- doc_size_app. by rewrite take_drop. }
    assert (Hone : doc_size o [v] = size o next) by (unfold doc_size; simpl; lia). lia.
Qed.

Lemma bounded_update c i fn a : fn_ok fn -> store_ok o a -> bounded o a ->
  store_ok o (snd (spec_update o c i fn a)) /\ bounded o (snd (spec_update o c i fn a)).
Proof.
  intros Hfn Hok Hb. unfold spec_update, spec_guard. destruct (check o c i) eqn:E; [done|]. unfold spec_update_key.
  destruct (fn _) as [[next|]|] eqn:Efn; [|done..]. destruct (spec_write o a (keyOf c i) next) as [[v|]|] eqn:Ew; [|done..]. cbn [snd].
  split; [eapply spec_commit_ok; [done|done|by eapply fn_ok_newest|done]|eapply bounded_commit; [done|done|by eapply fn_ok_newest|done]].
Qed.

Lemma bounded_delete k a : store_ok o a -> bounded o a -> store_ok o (delete k a) /\ bounded o (delete k a).
Proof.
  intros Hok [Hlen Htot]. split; [|split].
  - intros k' vs [_ Hl]%lookup_delete_Some. by apply Hok.
  - intros k' vs [_ Hl]%lookup_delete_Some. by eapply Hlen.
  - rewrite stored_delete. assert (Hn : forall l, 0 <= doc_size o l); [|specialize (Hn (default [] (a !! k))); lia].
    intros l. unfold doc_size. induction l as [|v l IH]; simpl; [lia|]. pose proof (payload_size_nonneg o (a_val v)). lia.
Qed.

Lemma bounded_import docs a : Forall (fun d => wf_doc (ex_value d) = true) docs -> store_ok o a -> bounded o a ->
  store_ok o (snd (spec_import o docs a)) /\ bounded o (snd (spec_import o docs a)).
Proof.
  intros Hd. revert a. induction Hd as [|d docs Hw Hd IH]; intros a Hok Hb; cbn [spec_import]; [done|].
  destruct (negb _); [by apply IH|]. destruct (bounded_update (ex_collection d) (ex_id d) (fun _ => inl (Some (ex_value d))) a) as [H1 H2]; [|done|done|].
  { by intros ? ? _ [= <-]. }
  unfold spec_put. destruct (spec_update o _ _ _ a) as [[x|e] a1]; cbn [snd] in *; [|done].
  destruct (IH a1 H1 H2) as [H3 H4]. by destruct (spec_import o docs a1) as [[n|e] a2].
Qed.

Lemma bounded_spec op a : op_ok op -> store_ok o a -> bounded o a -> store_ok o (snd (spec op a)) /\ bounded o (snd (spec op a)).
Proof.
  intros Hop Hok Hb. destruct op; cbn [spec smap_out snd op_ok] in *; try done.
  - unfold spec_getDoc, spec_guard. by destruct (check o c i).
  - unfold spec_get, spec_guard. by destruct (check o c i).
  - unfold spec_list, spec_guard. by destruct (checkCollection o c).
  - unfold spec_versions, spec_guard. by destruct (check o c i).
  - by rewrite spec_getVersion_store.
  - apply bounded_update; [|done|done]. by intros ? ? _ [= <-].
  - by apply bounded_update.
  - unfold spec_delete, spec_guard. destruct (check o c i); [done|]. by apply bounded_delete.
  - unfold spec_revert. pose proof (spec_getVersion_store o c i n a) as Hs. pose proof (spec_getVersion_wf o c i n a) as Hw.
    destruct (spec_getVersion o c i n a) as [[v|e] a1]; cbn [snd] in *; subst a1; [|done].
    apply bounded_update; [|done|done]. intros ? ? _ [= <-]. by eapply Hw.
  - by apply bounded_import.
Qed.

Lemma bounded_all ops a : Forall op_ok ops -> store_ok o a -> bounded o a ->
  store_ok o (snd (spec_all ops a)) /\ bounded o (snd (spec_all ops a)).
Proof.
  intros Hops. revert a. induction Hops as [|op ops Hop Hops IH]; intros a Hok Hb; cbn [spec_all]; [done|].
  destruct (bounded_spec op a Hop Hok Hb) as [H1 H2]. destruct (spec op a) as [r a1]. cbn [snd] in *.
  destruct (IH a1 H1 H2) as [H3 H4]. by destruct (spec_all ops a1) as [rs a2].
Qed.

(** What a listing of the swarm shows of this store. *)
Definition in_raft (m : Configs) : list (string * list VersionMeta) := group o (map info_of (map_to_list m)).
Definition raft_bytes (m : Configs) : Z := sum (map (fun kl => bytes_of (snd kl)) (in_raft m)).

Lemma in_raft_agrees m a : swarm_rel o m a -> store_ok o a ->
  raft_bytes m = stored o a /\ forall k vs, (k, vs) ∈ in_raft m -> exists ws, a !! k = Some ws /\ length vs = length ws.
Proof.
  intros Hm Ha. assert (HL : forall k, option_Forall2 (Forall2 (meta_ok o)) (get k (in_raft m)) (a !! k)) by (intros k; by eapply listing_agrees).
  pose proof (group_NoDup o (map info_of (map_to_list m))) as Hd. fold (in_raft m) in Hd. split.
  - pose proof (entries_size o _ _ (listing_entries o a (in_raft m) Ha Hd HL)) as Hsz. rewrite map_map in Hsz. exact Hsz.
  - intros k vs Hin%get_unique; [|done]. specialize (HL k). rewrite Hin in HL. destruct (a !! k) as [ws|]; inversion HL; subst.
    exists ws. split; [done|]. by eapply Forall2_length.
Qed.

(** From a store within its limits, no history of calls takes the swarm over the
    budget or over the number of retained versions. *)
Theorem kv_budget ops s a : sealer_ok o -> alone -> Forall op_ok ops -> drv_ok (r_st s) -> stands o (world s) a -> bounded o a ->
  let m := view (r_st (snd (run_all ops s))) in
  raft_bytes m <= maxTotalBytes o /\ forall k vs, (k, vs) ∈ in_raft m -> (length vs <= keep_n o)%nat.
Proof using Type*.
  intros Hseal Henv Hops Hok Hst Hb m. destruct (run_history ops s a Hseal Henv Hops Hok Hst) as [_ (Hm & Ha & _)].
  destruct (bounded_all ops a Hops (proj1 (proj2 Hst)) Hb) as [_ [Hlen Htot]].
  destruct (in_raft_agrees _ _ Hm Ha) as [Hbytes Hvs]. split.
  - unfold m. change (w_configs (world (snd (run_all ops s)))) with (view (r_st (snd (run_all ops s)))) in Hbytes. by rewrite Hbytes.
  - intros k vs Hin. destruct (Hvs k vs Hin) as (ws & Hws & ->). by eapply Hlen.
Qed.

(** * Undo *)

Lemma spec_put_result c i v a x a' : spec_put o c i v a = (x, a') ->
  (exists d, x = inl d /\ ((newest a (keyOf c i) ≠ None /\ print <$> (a_val <$> newest a (keyOf c i)) = Some (print v) /\ a' = a) \/
     exists w, spec_write o a (keyOf c i) v = inl (Some w) /\ a' = spec_commit o a (keyOf c i) w)) \/
  (exists e, x = inr e /\ a' = a).
Proof.
  unfold spec_put, spec_update, spec_guard, spec_update_key. destruct (check o c i); [intros [= <- <-]; right; eauto|].
  destruct (spec_write o a (keyOf c i) v) as [[w|]|e] eqn:E; intros [= <- <-].
  - left. eexists. split; [done|]. right. by exists w.
  - left. eexists. split; [done|]. left. unfold spec_write in E. destruct (assertNoRunState v); [done|].
    destruct (bool_decide _) eqn:Eb; [|by repeat case_match]. apply bool_decide_eq_true in Eb. unfold newest in *.
    destruct (a !! keyOf c i) as [vs|]; simpl in *; [|done]. destruct (last vs); simpl in *; [|done]. split_and!; congruence.
  - right. eauto.
Qed.

Lemma newest_commit a k w : newest (spec_commit o a k w) k = Some w.
Proof. unfold newest, spec_commit. rewrite lookup_insert_eq, retain_app. cbn [mbind option_bind]. apply last_snoc. Qed.

Lemma version_at_unique vs v n : StronglySorted seq_lt vs -> v ∈ vs -> a_seq v = n -> version_at vs n = Some v.
Proof.
  intros Hs Hin Hn. destruct (version_at vs n) as [u|] eqn:E; [|by destruct (version_at_none _ _ E v Hin)].
  apply version_at_spec in E as [Hu Hn']. f_equal. apply (seq_sorted_unique vs); [done..|congruence].
Qed.

(** The newest version is among those that stay after a write. *)
Lemma newest_retained a k u w : (2 <= keep_n o)%nat -> newest a k = Some u -> u ∈ retain o (default [] (a !! k) ++ [w]).
Proof.
  intros Hkeep Hu. rewrite retain_app. apply elem_of_app. left. unfold newest in Hu. destruct (a !! k) as [vs|]; [|done].
  cbn [mbind option_bind default] in *. set (n := (length vs + 1 - keep_n o)%nat).
  assert (Hn : (n < length vs)%nat) by (destruct vs; [done|simpl in *; lia]).
  rewrite <- (take_drop n vs), last_app in Hu. destruct (last (drop n vs)) as [x|] eqn:E.
  - injection Hu as ->. by apply last_Some_elem_of.
  - apply last_None in E. apply (f_equal length) in E. rewrite length_drop in E. simpl in E. lia.
Qed.

Lemma spec_undo c i v u a x1 a1 d a2 : store_ok o a -> wf_doc v = true -> (2 <= keep_n o)%nat -> newest a (keyOf c i) = Some u ->
  spec_put o c i v a = (x1, a1) -> spec_revert o c i (a_seq u) a1 = (inl d, a2) -> a_val <$> newest a2 (keyOf c i) = Some (a_val u).
Proof.
  intros Hok Hw Hkeep Hu Hput Hrev. set (k := keyOf c i) in *.
  assert (H1 : store_ok o a1 /\ u ∈ default [] (a1 !! k) /\ (newest a1 k = Some u \/ print <$> (a_val <$> newest a1 k) <> Some (print (a_val u)))).
  { unfold newest in Hu. destruct (a !! k) as [vs|] eqn:Ek; [|done]. cbn [mbind option_bind] in Hu.
    assert (Hnew : newest a k = Some u) by (unfold newest; by rewrite Ek).
    destruct (spec_put_result c i v a x1 a1 Hput) as [(d1 & _ & [(_ & _ & ->)|(w & Hwr & ->)])|(e & _ & ->)].
    - rewrite Ek. split_and!; [done|by apply last_Some_elem_of|by left].
    - destruct (check o c i) eqn:Ec; [unfold spec_put, spec_update in Hput; rewrite Ec in Hput; injection Hput as _ <-|].
      + rewrite Ek. split_and!; [done|by apply last_Some_elem_of|by left].
      + split_and!; [by eapply spec_commit_ok| |].
        * unfold spec_commit. rewrite lookup_insert_eq. by apply newest_retained.
        * right. fold k. rewrite newest_commit. simpl. unfold spec_write in Hwr. fold k in Hwr. rewrite Ek in Hwr.
          change (default [] (Some vs)) with vs in Hwr. rewrite Hu in Hwr.
          destruct (assertNoRunState v); [done|]. destruct (bool_decide _) eqn:Eb; [done|]. apply bool_decide_eq_false in Eb.
          repeat case_match; try done. injection Hwr as <-. simpl in *. unfold print, stableJson in *. rewrite stable_idemp by done. congruence.
    - rewrite Ek. split_and!; [done|by apply last_Some_elem_of|by left]. }
  destruct H1 as (Hok1 & Hin & Hnew). unfold spec_revert, spec_getVersion, spec_guard in Hrev.
  destruct (check o c i) eqn:Ec; [done|]. fold k in Hrev. destruct (a1 !! k) as [vs|] eqn:Ek; [|by apply not_elem_of_nil in Hin].
  cbn [mbind option_bind default] in *. destruct (Hok1 _ _ Ek) as [(_ & Hsort & Hf) _].
  rewrite (version_at_unique vs u) in Hrev by done. destruct (spec_put_result c i (a_val u) a1 _ _ Hrev) as [(d1 & _ & Hcase)|(e & He & _)]; [|done].
  rewrite Forall_forall in Hf. destruct (Hf u Hin) as (_ & Hwu & Hst). fold k in Hcase. destruct Hcase as [(_ & Hpr & ->)|(w & Hwr & ->)].
  - destruct Hnew as [->|Hnew]; [done|]. by rewrite Hpr in Hnew.
  - rewrite newest_commit. simpl. f_equal. unfold spec_write in Hwr. repeat case_match; try done. injection Hwr as <-. done.
Qed.

(** Undo: reverting to the version that was the newest before a put, when nothing
    refuses it, brings its value back, whatever was put and whether it was written. *)
Theorem kv_undo c i v u s a r d r' : sealer_ok o -> alone -> wf_doc v = true -> (2 <= keep_n o)%nat -> drv_ok (r_st s) ->
  stands o (world s) a -> newest a (keyOf c i) = Some u ->
  fst (run_all [OPut c i v; ORevert c i (a_seq u); OGet c i] s) = [r; inl d; r'] -> r' = inl (RValue (Some (a_val u))).
Proof using Type*.
  intros Hseal Henv Hw Hkeep Hdrv Hst Hu Hrun. pose proof Hst as (_ & Hok & _).
  assert (Hrange : 1 <= a_seq u <= KV_MAX_SEQ).
  { unfold newest in Hu. destruct (a !! keyOf c i) as [vs|] eqn:Ek; [|done]. cbn [mbind option_bind] in Hu.
    by destruct (versions_member o a _ vs u Hok Ek ltac:(by apply last_Some_elem_of)). }
  destruct (run_history [OPut c i v; ORevert c i (a_seq u); OGet c i] s a) as [Hres _]; try done; [by repeat (apply Forall_cons; split)|].
  rewrite Hrun in Hres. cbn [spec_all spec smap_out] in Hres. destruct (spec_put o c i v a) as [x1 a1] eqn:E1. cbn [fst snd] in Hres.
  destruct (spec_revert o c i (a_seq u) a1) as [[d2|e2] a2] eqn:E2; cbn [fst snd] in Hres.
  - pose proof (spec_undo c i v u a x1 a1 d2 a2 Hok Hw Hkeep Hu E1 E2) as Hget.
    unfold spec_get, spec_guard in Hres. destruct (check o c i) as [e|] eqn:Ec.
    { unfold spec_revert, spec_getVersion in E2. rewrite Ec in E2. done. }
    cbn [fst snd] in Hres. rewrite Hget in Hres. inversion Hres as [|? ? ? ? _ H2]; subst. inversion H2 as [|? ? ? ? _ H3]; subst.
    inversion H3 as [|? ? ? ? H4 _]; subst. destruct r' as [x|e]; [|done]. simpl in H4. by subst.
  - inversion Hres as [|? ? ? ? _ H2]; subst. inversion H2 as [|? ? ? ? Hd _]; subst. done.
Qed.

(** * Crashes *)

(** What the process finds when it starts again. *)
Definition restart (s : Run Cache St) : World Cache := {| w_configs := view (r_st s); w_fields := new_cache; w_now := r_now s |}.

(** C21: a call other than an import that dies after any number of its Docker calls
    leaves every document at its newest version before or after. *)
Theorem kv_crash_atomic op n s a : sealer_ok o -> alone -> op_ok op -> (forall docs, op <> OImport docs) ->
  drv_ok (r_st s) -> stands o (world s) a ->
  exists a', stands o (restart (crash env n (exec op) s)) a' /\
    forall k, newest a' k = newest a k \/ newest a' k = newest (snd (spec op a)) k.
Proof using Type*.
  intros Hseal Henv Hop Himp Hok Hst. set (b := snd (spec op a)).
  assert (HC : crash_safe a b (view (r_st (crash env n (exec op) s)))).
  { apply (wp_crash env still (before_call (crash_safe a b)) Henv (exec op) n (crash_safe a b) (meets o eq (spec op a))); try done.
    - by intros w w1 [? _].
    - intros r w [_ (Hm & Ha & _)]. exists b. split_and!; [done|done|]. intros k. by right.
    - by apply q_exec_crash. }
  destruct HC as (a' & Hm & Ha & Hbt). exists a'. split; [|done]. by split_and!.
Qed.
End drivers.
End histories.

(** * An instance *)

Definition kv_opts : SwarmKvOptions :=
  {| o_orgId := "org1"; o_sealer := plainKvSealer; o_collections := Some ["ingress"; "dns"]; o_maxDocBytes := None;
     o_maxTotalBytes := None; o_keepVersions := None; o_refreshMs := None; o_maxRetries := None |}.

Definition kv_quiet (n : nat) (s : Run Cache MemoryKv) : Run Cache MemoryKv := s.

(** A new instance on an empty swarm. *)
Definition kv_start : Run Cache MemoryKv :=
  {| r_st := {| mk_configs := []; mk_calls := []; mk_now := 7 |}; r_fields := new_cache; r_now := 100; r_calls := 0 |}.

Lemma kv_sealer : sealer_ok kv_opts.
Proof. by intros x. Qed.

Lemma kv_alone : alone kv_quiet.
Proof. done. Qed.

Lemma kv_start_stands : stands kv_opts (world kv_start) ∅.
Proof. by split_and!. Qed.

Lemma kv_start_bounded : bounded kv_opts ∅.
Proof. split; [done|]. vm_compute. done. Qed.

Definition kv_host (h : string) : value := VObj [("host", VStr h); ("ports", VArr [vint 80; vint 443])].

Definition kv_ops : list Op :=
  [OPut "ingress" "web" (kv_host "a"); OPut "ingress" "web" (kv_host "b"); OPut "dns" "lastRun" (VObj [("lastRunAt", vint 3)]);
   OPut "mesh" "x" VNull; OUpdate "ingress" "web" (fun cur => inl cur); OPut "ingress" "web" (kv_host "c");
   OPut "ingress" "web" (kv_host "d"); OVersions "ingress" "web"; ORevert "ingress" "web" 2; OGet "ingress" "web";
   OList "ingress"; ODelete "ingress" "web"; OExport].

(** A run, with the errors of its third and fourth calls. *)
Example kv_run : fst (run_all kv_opts kv_quiet kv_ops kv_start) =
  let doc n h := RDoc (Some ("ingress", "web", (n, kv_host h))) in
  [inl (doc 1 "a"); inl (doc 2 "b"); inr (KvError INVALID); inr (KvError INVALID); inl (doc 2 "b"); inl (doc 3 "c"); inl (doc 4 "d");
   inl (RSeqs [4; 3; 2]); inl (doc 5 "b"); inl (RValue (Some (kv_host "b"))); inl (RDocs [("ingress", "web", (5, kv_host "b"))]);
   inl (RBool true); inl (RExport [])].
Proof. vm_compute. reflexivity. Qed.

Lemma kv_ops_ok : Forall op_ok kv_ops.
Proof. repeat (apply Forall_cons; split); try done. intros [u|] v Hu [= <-]. by apply Hu. Qed.

Lemma kv_refines_witness :
  let r := run_all kv_opts kv_quiet kv_ops kv_start in
  Forall2 (res_rel eq) (fst r) (fst (spec_all kv_opts kv_ops ∅)) /\ stands kv_opts (world (snd r)) (snd (spec_all kv_opts kv_ops ∅)).
Proof.
  apply (kv_refines kv_opts kv_quiet kv_ops kv_start ∅ kv_sealer kv_alone kv_ops_ok); [constructor|exact kv_start_stands].
Defined.

Lemma kv_budget_witness :
  let m := view (r_st (snd (run_all kv_opts kv_quiet kv_ops kv_start))) in
  raft_bytes kv_opts m <= maxTotalBytes kv_opts /\ forall k vs, (k, vs) ∈ in_raft kv_opts m -> (length vs <= keep_n kv_opts)%nat.
Proof.
  apply (kv_budget kv_opts kv_quiet kv_ops kv_start ∅ kv_sealer kv_alone kv_ops_ok); [constructor|exact kv_start_stands|exact kv_start_bounded].
Defined.

(** Putting the numbers from one on. *)
Definition kv_puts (n : nat) : list Op := map (fun k => OPut "dns" "zone" (vint (Z.of_nat k))) (seq 1 n).

Definition kv_after (n : nat) : Run Cache MemoryKv := snd (run_all kv_opts kv_quiet (kv_puts n) kv_start).
Definition kv_store_after (n : nat) : Store := snd (spec_all kv_opts (kv_puts n) ∅).

Lemma kv_after_stands n : Forall op_ok (kv_puts n) -> stands kv_opts (world (kv_after n)) (kv_store_after n).
Proof.
  intros Hops. refine (proj2 (run_history kv_opts kv_quiet (kv_puts n) kv_start ∅ kv_sealer kv_alone Hops _ kv_start_stands)). constructor.
Qed.

Lemma kv_puts_ok : Forall op_ok (kv_puts 1) /\ Forall op_ok (kv_puts 3).
Proof. split; repeat (apply Forall_cons; split); done. Qed.

(** The fourth write of a document dies after its create, before the old version
    is removed. *)
Lemma kv_crash_atomic_witness :
  exists a', stands kv_opts (restart (crash kv_quiet 2 (exec kv_opts (OPut "dns" "zone" (vint 4))) (kv_after 3))) a' /\
    forall k, newest a' k = newest (kv_store_after 3) k \/
      newest a' k = newest (snd (spec kv_opts (OPut "dns" "zone" (vint 4)) (kv_store_after 3))) k.
Proof.
  refine (kv_crash_atomic kv_opts kv_quiet (OPut "dns" "zone" (vint 4)) 2 (kv_after 3) (kv_store_after 3) kv_sealer kv_alone _ _ _ (kv_after_stands 3 (proj2 kv_puts_ok))).
  - reflexivity.
  - discriminate.
  - apply (bool_decide_eq_true_1 (NoDup (map fst (mk_configs (r_st (kv_after 3)))))). vm_compute. reflexivity.
Defined.

Lemma kv_undo_witness :
  let l := [inl (RDoc (Some ("dns", "zone", (2, vint 5)))); inl (RDoc (Some ("dns", "zone", (3, vint 1)))); inl (RValue (Some (vint 1)))] in
  fst (run_all kv_opts kv_quiet [OPut "dns" "zone" (vint 5); ORevert "dns" "zone" 1; OGet "dns" "zone"] (kv_after 1)) = l /\
  inl (RValue (Some (vint 1))) = (inl (RValue (Some (vint 1))) : Out + KvErr).
Proof.
  intros l. assert (E : fst (run_all kv_opts kv_quiet [OPut "dns" "zone" (vint 5); ORevert "dns" "zone" 1; OGet "dns" "zone"] (kv_after 1)) = l)
    by (vm_compute; reflexivity).
  split; [exact E|].
  refine (kv_undo kv_opts kv_quiet "dns" "zone" (vint 5) {| a_seq := 1; a_val := vint 1 |} (kv_after 1) (kv_store_after 1)
    _ _ _ kv_sealer kv_alone eq_refl _ _ (kv_after_stands 1 (proj1 kv_puts_ok)) _ E).
  - apply Nat.leb_le. vm_compute. reflexivity.
  - apply (bool_decide_eq_true_1 (NoDup (map fst (mk_configs (r_st (kv_after 1)))))). vm_compute. reflexivity.
  - vm_compute. reflexivity.
Defined.
