(* ===== verification/KvWriters.v ===== *)
(** The document store with other writers (packages/core/src/swarm-kv.ts).

    What an update or a delete may ask of Docker, whatever Docker answers and
    whatever others do to the swarm or to the cache meanwhile; when a write extends
    the newest version of its document; and what happens when it does not. *)

From S2P Require Import Prelude Comparators Json JsonText KvCodec KvTask SwarmKv KvStore KvRefine KvCorrect.
Open Scope task_scope.

(** * Calls that are allowed at any time *)

Section harmless.
Context (G : forall X, World Cache -> request X -> res X -> Prop).

(** Every call of the task satisfies [G], whatever is answered and whatever happens
    in between. *)
Definition harmless {A} (t : Task A) : Prop :=
  forall w, wp (fun _ _ _ _ _ => True) (fun _ _ => True) G t (fun _ _ => True) w.

Lemma h_done {A} (r : A + KvErr) : harmless (Done r).
Proof. done. Qed.

Lemma h_settle {A B} (t : Task A) (k : A + KvErr -> Task B) : harmless t -> (forall r, harmless (k r)) -> harmless (settle t k).
Proof. intros Ht Hk w. apply wp_settle. eapply wp_mono; [|apply Ht]. intros r w' _. apply Hk. Qed.

Lemma h_bind {A B} (t : Task A) (f : A -> Task B) : harmless t -> (forall a, harmless (f a)) -> harmless (bind t f).
Proof. intros Ht Hf. apply h_settle; [done|]. intros [a|e]; [apply Hf|apply h_done]. Qed.

Lemma h_sync {A} (f : Z -> Cache -> Cache * A) : harmless (sync f).
Proof. done. Qed.

Lemma h_await {X} (q : request X) : (forall w r, G X w q r) -> harmless (await q).
Proof. intros Hq w w1 r m _ _. split; [done|]. by destruct r. Qed.

Lemma h_guard {A} e (t : Task A) : (e = None -> harmless t) -> harmless (guard e t).
Proof. intros Ht. destruct e; [apply h_done|by apply Ht]. Qed.

Context (Glist : forall w r, G _ w QList r) (Gread : forall name w r, G _ w (QRead name) r) (Gtick : forall w r, G _ w QTick r).
Context (o : SwarmKvOptions).

Lemma h_listMine : harmless (listMine o).
Proof using Glist. apply h_bind; [by apply h_await|]. intros a. apply h_done. Qed.

Lemma h_readVersion c i n : harmless (readVersion o c i n).
Proof using Gread. apply h_bind; [by apply h_await|]. intros d. by destruct (open_payload o d). Qed.

Lemma h_load_all L next : harmless (load_all o L next).
Proof using Gread.
  revert next. induction L as [|[k ms] L IH]; intros next; cbn [load_all]; [apply h_done|]. apply h_bind; [apply h_sync|].
  intros [v|]; [apply IH|]. destruct (unkey k). apply h_bind; [apply h_readVersion|]. intros v. apply IH.
Qed.

Lemma h_refresh : harmless (refresh o).
Proof using Glist Gread.
  unfold refresh, finally_loaded, doRefresh. apply h_bind; [apply h_sync|]. intros g. apply h_settle.
  - apply h_bind; [apply h_listMine|]. intros L. apply h_bind; [apply h_load_all|]. intros m. apply h_sync.
  - intros r. apply h_bind; [apply h_sync|]. intros _. apply h_done.
Qed.

Lemma h_ensureFresh : harmless (ensureFresh o).
Proof using Glist Gread. unfold ensureFresh. apply h_bind; [apply h_sync|]. intros [|]; [apply h_refresh|apply h_done]. Qed.

Lemma h_refreshKey c i : harmless (refreshKey o c i).
Proof using Glist Gread.
  unfold refreshKey. apply h_bind; [apply h_listMine|]. intros L. apply h_bind; [apply h_sync|]. intros _.
  destruct (get (keyOf c i) L ≫= _) as [[vs l]|]; [|apply h_sync]. apply h_bind; [apply h_readVersion|]. intros v. apply h_sync.
Qed.

Context (c i : string) (Gremove : forall n w r, G _ w (QRemove (kvConfigName c i n)) r).

Lemma h_removeQuietly n : harmless (removeQuietly (kvConfigName c i n)).
Proof using Gremove. apply h_settle; [by apply h_await|]. by intros [a|[k|m]]. Qed.

Lemma h_remove_versions ds kept : harmless (remove_versions c i ds kept).
Proof using Gremove.
  revert kept. induction ds as [|v ds IH]; intros kept; cbn [remove_versions]; [apply h_done|].
  apply h_bind; [apply h_removeQuietly|]. intros b. apply IH.
Qed.

Lemma h_remove_all ds : harmless (remove_all c i ds).
Proof using Gremove.
  induction ds as [|v ds IH]; cbn [remove_all]; [apply h_done|]. apply h_bind; [apply h_removeQuietly|]. intros b. apply IH.
Qed.

Lemma h_gc : harmless (gc o c i).
Proof using Gremove.
  unfold gc. apply h_bind; [apply h_sync|]. intros [e|]; [|apply h_done]. destruct (_ <=? _)%nat; [apply h_done|].
  apply h_bind; [apply h_remove_versions|]. intros kept. apply h_sync.
Qed.

Lemma h_committed k wr : harmless (do* sync (fun now cc => (commit k wr now cc, tt)) in do* gc o c i in sync (fun _ cc => (cc, docOf cc c i))).
Proof using Gremove. apply h_bind; [apply h_sync|]. intros _. apply h_bind; [apply h_gc|]. intros _. apply h_sync. Qed.
End harmless.

(** * What an update may write *)

(** The version created is within the limits, sealed and labelled as its name says,
    and only configs of the document are created or removed. *)
Definition own_write (o : SwarmKvOptions) (c i : string) (X : Type) (w : World Cache) (q : request X) (r : res X) : Prop :=
  match q with
  | QCreate name data labels =>
      check o c i = None /\ exists n v, name = kvConfigName c i n /\ n <= KV_MAX_SEQ /\ assertNoRunState v = None /\
        data = payload o v /\ size o v <= maxDocBytes o /\ labels = labels_for o c i n (print v) (size o v)
  | QRemove name => check o c i = None /\ exists n, name = kvConfigName c i n
  | _ => True
  end.

Section guarded.
Context (o : SwarmKvOptions) (c i : string).

Abbreviation G := (own_write o c i).

Lemma plan_write_ok cur cl next total wr : plan_write o cur cl next total = inl (Some wr) ->
  wr_seq wr <= KV_MAX_SEQ /\ assertNoRunState next = None /\ wr_data wr = payload o next /\ size o next <= maxDocBytes o /\
  vm_sha (wr_meta wr 0) = print next /\ vm_bytes (wr_meta wr 0) = size o next.
Proof.
  unfold plan_write. fold (print next). fold (payload o next). fold (size o next).
  destruct (assertNoRunState next); [done|]. destruct (bool_decide _); [done|].
  destruct (Z.ltb_spec (maxDocBytes o) (size o next)); [done|]. destruct (Z.ltb_spec KV_MAX_SEQ (default 0 (vm_seq <$> cl) + 1)); [done|].
  destruct (_ <? _); [done|]. intros [= <-]. cbn. by split_and!.
Qed.

Lemma h_update_once fn lost : check o c i = None -> harmless G lost -> harmless G (update_once o c i fn lost).
Proof.
  intros Hc Hlost. unfold update_once. apply h_bind; [apply h_sync|]. intros cur. destruct (fn _) as [next|e]; [|apply h_done].
  apply h_bind; [by apply h_await|]. intros _. destruct next as [next|]; [|apply h_sync]. apply h_bind; [apply h_sync|]. intros total.
  destruct (plan_write o cur _ next total) as [[wr|]|e] eqn:E; [|apply h_sync|apply h_done].
  apply plan_write_ok in E as (H1 & H2 & H3 & H4 & H5 & H6). rewrite H3, H5, H6. apply h_settle.
  - apply h_await. intros w r. split; [done|]. by exists (wr_seq wr), next.
  - intros [u|e].
    + apply h_committed. intros n w r. split; [done|by exists n].
    + destruct (match e with Thrown m => isNameConflict m | KvError _ => false end); [done|apply h_done].
Qed.

Lemma h_update_loop fn n : check o c i = None -> harmless G (update_loop o c i fn n).
Proof.
  intros Hc. induction n as [|n IH]; cbn [update_loop]; apply h_update_once; [done|apply h_done|done|].
  apply h_bind; [by apply h_refreshKey|]. intros _. apply h_bind; [by apply h_await|]. by intros _.
Qed.

Lemma h_update fn : harmless G (update o c i fn).
Proof. apply h_guard. intros Hc. apply h_bind; [by apply h_ensureFresh|]. intros _. by apply h_update_loop. Qed.

Lemma h_delete : harmless G (delete_ o c i).
Proof.
  apply h_guard. intros Hc. apply h_bind; [by apply h_ensureFresh|]. intros _. apply h_bind; [by apply h_refreshKey|]. intros _.
  apply h_bind; [apply h_sync|]. intros [e|]; [|apply h_done]. apply h_bind; [|by intros _].
  apply h_remove_all. intros n w r. split; [done|by exists n].
Qed.
End guarded.

(** C38: whatever the driver answers, and whatever others do to the swarm and the cache
    between two calls, an update or a delete creates and removes only versions of
    its own document, and what it creates is within the limits. *)
Theorem kv_writes_guarded {St} `{KvDriver St} (env : nat -> Run Cache St -> Run Cache St) o c i fn s :
  each_call env (own_write o c i) (update o c i fn) s /\ each_call env (own_write o c i) (delete_ o c i) s.
Proof.
  split; eapply (wp_calls env (fun _ _ _ _ _ => True) (fun _ _ => True) _ (fun _ => True)); try done; [apply h_update|apply h_delete].
Qed.

(** * Lost updates *)

Section concurrent.
Context (o : SwarmKvOptions) (Hseal : sealer_ok o).

(** Versions follow each other without a gap. *)
Definition consecutive (s : Store) : Prop := forall k vs n v w, s !! k = Some vs -> vs !! n = Some v -> vs !! S n = Some w -> a_seq w = a_seq v + 1.

Definition swarm_of (m : Configs) (s : Store) : Prop := swarm_rel o m s /\ store_ok o s /\ consecutive s.

(** Other writers have appended versions to the documents, and started new ones at
    version one. *)
Definition extends (s s1 : Store) : Prop := forall k,
  match s !! k with
  | Some vs => exists ext, s1 !! k = Some (vs ++ ext)
  | None => forall v vs, s1 !! k = Some (v :: vs) -> a_seq v = 1
  end.

(** Between two calls other writers append; no other task of the instance runs. *)
Definition appended (w w1 : World Cache) : Prop :=
  w_fields w1 = w_fields w /\
  forall s, swarm_of (w_configs w) s -> exists s1, swarm_of (w_configs w1) s1 /\ extends s s1.

(** A version that was created follows the newest one of the swarm, and holds what
    the function makes of its value. *)
Definition extends_newest (c i : string) (fn : Fn) (X : Type) (w : World Cache) (q : request X) : res X -> Prop :=
  match q in request X return res X -> Prop with
  | QCreate name data labels => fun r =>
      match r with
      | Ok _ => exists s next, swarm_of (w_configs w) s /\
          name = kvConfigName c i (default 0 (a_seq <$> newest s (keyOf c i)) + 1) /\
          fn (a_val <$> newest s (keyOf c i)) = inl (Some next) /\ data = payload o next
      | Err _ => True
      end
  | _ => fun _ => True
  end.

Lemma extends_refl s : extends s s.
Proof. intros k. destruct (s !! k) as [vs|] eqn:E; [exists []; by rewrite app_nil_r|]. by intros v vs H. Qed.

Lemma extends_trans s s1 s2 : store_ok o s1 -> extends s s1 -> extends s1 s2 -> extends s s2.
Proof.
  intros Hok H1 H2 k. specialize (H1 k). specialize (H2 k). destruct (s !! k) as [vs|].
  - destruct H1 as [ext E]. rewrite E in H2. destruct H2 as [ext' ->]. exists (ext ++ ext'). by rewrite app_assoc.
  - destruct (s1 !! k) as [vs1|] eqn:E; [|done]. destruct H2 as [ext H2]. intros v vs Hv. rewrite H2 in Hv. injection Hv as Hv.
    destruct vs1 as [|v1 vs1]; [by destruct (Hok _ _ E) as [[Hne _] _]|]. simpl in Hv. injection Hv as -> _. by apply (H1 v vs1).
Qed.

(** A cache entry is a state the document has been in. *)
Definition behind (e : option Entry) (s : Store) (k : string) : Prop :=
  match e with
  | Some e => exists vs ext, vs <> [] /\ s !! k = Some (vs ++ ext) /\ entry_ok o e vs
  | None => forall v vs, s !! k = Some (v :: vs) -> a_seq v = 1
  end.

Lemma behind_extends e s s1 k : store_ok o s -> behind e s k -> extends s s1 -> behind e s1 k.
Proof.
  intros Hok Hb Hx. specialize (Hx k). destruct e as [e|]; simpl in *.
  - destruct Hb as (vs & ext & Hne & Hs & He). rewrite Hs in Hx. destruct Hx as [ext' ->]. exists vs, (ext ++ ext').
    by rewrite <- app_assoc.
  - destruct (s !! k) as [vs1|] eqn:E; [|done]. destruct Hx as [ext ->]. intros v vs Hv.
    destruct vs1 as [|v1 vs1]; [by destruct (Hok _ _ E) as [[Hne _] _]|]. simpl in Hv. injection Hv as -> _. by apply (Hb v vs1).
Qed.

(** When the name after the cached version is free, the cached version is the
    newest. *)
Lemma behind_newest e m s c i : swarm_of m s -> valid_key c i = true -> behind e s (keyOf c i) ->
  m !! kvConfigName c i (default 0 (vm_seq <$> (e ≫= fun e => latest (e_versions e))) + 1) = None ->
  option_Forall2 (meta_ok o) (e ≫= fun e => latest (e_versions e)) (newest s (keyOf c i)) /\
  (match e ≫= (fun e => latest (e_versions e)) with Some _ => e_value <$> e | None => None end) = a_val <$> newest s (keyOf c i).
Proof.
  intros ((Hm1 & Hm2) & Hok & Hcons) Hk Hb Hfree. set (k := keyOf c i) in *.
  assert (Hno : forall vs v, s !! k = Some vs -> v ∈ vs ->
    a_seq v <> default 0 (vm_seq <$> (e ≫= fun e => latest (e_versions e))) + 1).
  { intros vs v Hvs Hin E. destruct (Hm2 c i vs v Hk Hvs Hin) as (cfg & Hc & _). rewrite <- E, Hc in Hfree. done. }
  destruct e as [e|]; simpl in Hb.
  - destruct Hb as (vs & ext & Hne & Hs & [Hf Hval]). destruct (last vs) as [v|] eqn:Ev; [|by apply last_None in Ev].
    destruct (Forall2_last _ _ _ _ Hf Ev) as (mt & Hmt & Hmv). unfold latest in *. cbn [mbind option_bind] in *. rewrite Hmt in *.
    assert (ext = []) as ->.
    { destruct ext as [|w ext]; [done|]. exfalso. apply (Hno _ w Hs); [apply elem_of_app; right; left|]. simpl. rewrite (proj1 Hmv).
      apply (Hcons k _ (length vs - 1)%nat v w Hs).
      - rewrite lookup_app_l by (destruct vs; simpl in *; [done|lia]). rewrite last_lookup in Ev. rewrite <- Ev. f_equal. lia.
      - rewrite lookup_app_r by (destruct vs; simpl in *; [done|lia]).
        assert (length vs <> 0)%nat by by destruct vs. by replace (S (length vs - 1) - length vs)%nat with 0%nat by lia. }
    rewrite app_nil_r in Hs. unfold newest. rewrite Hs. cbn [mbind option_bind]. rewrite Ev in *. split; [by constructor|].
    simpl in *. congruence.
  - unfold newest. destruct (s !! k) as [[|v vs]|] eqn:E; [by destruct (Hok _ _ E) as [[Hne _] _]| |split; [constructor|done]].
    exfalso. apply (Hno (v :: vs) v eq_refl); [left|]. simpl. by apply (Hb v vs).
Qed.

(** ** Following an update *)

Lemma appended_of w w1 s : appended w w1 -> swarm_of (w_configs w) s ->
  exists s1, swarm_of (w_configs w1) s1 /\ extends s s1 /\ w_fields w1 = w_fields w.
Proof. intros [Hf H] Hs. destruct (H s Hs) as (s1 & H1 & H2). by exists s1. Qed.

Section following.
Context (c i : string) (fn : Fn).

Abbreviation awp := (wp (@docker) appended (extends_newest c i fn)).

(** A call that does not change the configs, while others append. *)
Lemma a_await {X} (q : request X) Q w s : (forall w1 r, extends_newest c i fn X w1 q r) ->
  (forall m r m', docker q m r m' -> m' = m) -> swarm_of (w_configs w) s ->
  (forall r w1 s1, swarm_of (w_configs w1) s1 -> extends s s1 -> w_fields w1 = w_fields w -> docker q (w_configs w1) r (w_configs w1) ->
     Q (match r with Ok x => inl x | Err e => inr (Thrown e) end) w1) ->
  awp (await q) Q w.
Proof.
  intros HG Hm Hs HQ w1 r m HR HD. split; [apply HG|]. pose proof (Hm _ _ _ HD) as ->.
  destruct (appended_of _ _ _ HR Hs) as (s1 & Hs1 & Hx & Hf).
  assert (E : set_configs w1 (w_configs w1) = w1) by by destruct w1. rewrite E. specialize (HQ r w1 s1 Hs1 Hx Hf HD). by destruct r.
Qed.

Lemma a_harmless {A} (t : Task A) w : harmless (extends_newest c i fn) t -> awp t (fun _ _ => True) w.
Proof. intros Ht. eapply wp_weaken; [| |apply Ht]; done. Qed.

Lemma a_listMine Q w s : swarm_of (w_configs w) s ->
  (forall L w1 s1, swarm_of (w_configs w1) s1 -> extends s s1 -> w_fields w1 = w_fields w ->
     (forall k, option_Forall2 (Forall2 (meta_ok o)) (get k L) (s1 !! k)) -> Q (inl L) w1) ->
  awp (listMine o) Q w.
Proof.
  intros Hs HQ. unfold listMine. apply wp_bind. eapply a_await; [done|by intros m r m' [-> _]|done|].
  intros r w1 s1 Hs1 Hx Hf (_ & l & -> & Hl). apply (HQ _ _ s1); [done..|]. destruct Hs1 as (Hm & Hok & _). intros k. by eapply listing_agrees.
Qed.

Lemma a_readVersion k vs v Q w s : valid_key c i = true -> k = keyOf c i -> swarm_of (w_configs w) s -> s !! k = Some vs -> v ∈ vs ->
  (forall w1 s1, swarm_of (w_configs w1) s1 -> extends s s1 -> w_fields w1 = w_fields w -> Q (inl (a_val v)) w1) ->
  awp (readVersion o c i (a_seq v)) Q w.
Proof using Type*.
  intros Hk -> Hs Hvs Hin HQ. unfold readVersion. apply wp_bind. eapply a_await; [done|by intros m r m' [-> _]|done|].
  intros r w1 s1 Hs1 Hx Hf [_ Hr]. pose proof (Hx (keyOf c i)) as Hxk. rewrite Hvs in Hxk. destruct Hxk as [ext Hvs1].
  destruct Hs1 as ((Hm1 & Hm2) & Hok & Hcons). assert (Hin1 : v ∈ vs ++ ext) by (apply elem_of_app; by left).
  destruct (Hm2 c i _ v Hk Hvs1 Hin1) as (cfg & Hc & Hdata & _). rewrite Hc in Hr. subst r.
  rewrite Hdata, open_payload_ok by (done || by eapply versions_member). by apply (HQ w1 s1).
Qed.

(** The invariant of the loop: the entry of the document is behind the swarm. *)
Definition follows (w : World Cache) : Prop := NoDup (map fst (c_entries (w_fields w))) /\ exists s, swarm_of (w_configs w) s /\ behind (entry_of (w_fields w) (keyOf c i)) s (keyOf c i).

Lemma a_refreshKey Q w s : valid_key c i = true -> NoDup (map fst (c_entries (w_fields w))) -> swarm_of (w_configs w) s ->
  (forall w1, follows w1 -> Q (inl tt) w1) -> awp (refreshKey o c i) Q w.
Proof using Type*.
  intros Hk Hd Hs HQ. unfold refreshKey. apply wp_bind. eapply a_listMine; [done|]. intros L w1 s1 Hs1 Hx Hf HL.
  apply (wp_bind _ _ _ (sync _)). cbn [wp sync fst snd ret]. set (w2 := set_fields w1 _).
  assert (Hw2 : w_configs w2 = w_configs w1 /\ c_entries (w_fields w2) = c_entries (w_fields w)) by (split; [done|by rewrite <- Hf]).
  destruct Hw2 as [Hc2 He2]. clearbody w2. specialize (HL (keyOf c i)). rewrite <- He2 in Hd.
  destruct (get (keyOf c i) L) as [ms|], (s1 !! keyOf c i) as [vs|] eqn:E; inversion HL as [? ? Hf2|]; subst; cbn [mbind option_bind].
  - destruct Hs1 as (Hm & Hok & Hcons). destruct (Hok _ _ E) as [Hvok _]. destruct (versions_last _ Hvok) as (v & Hlast & Hin).
    destruct (Forall2_last _ _ _ _ Hf2 Hlast) as (mt & Hmt & Hmv). unfold latest. rewrite Hmt. cbn [fmap option_fmap option_map].
    rewrite (proj1 Hmv). apply wp_bind. eapply (a_readVersion _ vs v _ w2 s1); [done|done|by rewrite Hc2|done|done|].
    intros w3 s3 Hs3 Hx3 Hf3. apply HQ. split; [apply obj_set_NoDup; by rewrite Hf3|]. exists s3. split; [done|].
    pose proof (Hx3 (keyOf c i)) as Hxk. rewrite E in Hxk. destruct Hxk as [ext Hvs3].
    unfold entry_of. cbn [w_fields set_fields set_entries c_entries fst]. rewrite get_obj_set, String.eqb_refl.
    exists vs, ext. split_and!; [apply Hvok|done|]. split; [done|]. simpl. by rewrite Hlast.
  - apply HQ. split; [by apply map_delete_NoDup|]. exists s1. split; [by cbn [set_fields w_configs]; rewrite Hc2|].
    unfold entry_of. cbn [w_fields set_fields set_entries c_entries fst]. rewrite get_map_delete, String.eqb_refl by done. simpl.
    intros v vs. by rewrite E.
Qed.

Lemma a_tick Q w (t : Task (option KvDoc)) s : swarm_of (w_configs w) s ->
  (forall w1 s1, swarm_of (w_configs w1) s1 -> extends s s1 -> w_fields w1 = w_fields w -> awp t Q w1) -> awp (do* await QTick in t) Q w.
Proof.
  intros Hs HQ. apply wp_bind. eapply a_await; [done|by intros m r m' [_ ->]|done|]. intros r w1 s1 Hs1 Hx Hf [-> _]. by apply (HQ w1 s1).
Qed.

Lemma plan_write_seq cur cl next total wr : plan_write o cur cl next total = inl (Some wr) -> wr_seq wr = default 0 (vm_seq <$> cl) + 1.
Proof.
  unfold plan_write. destruct (assertNoRunState next); [done|]. destruct (bool_decide _); [done|]. destruct (_ <? _); [done|].
  destruct (_ <? _); [done|]. destruct (_ <? _); [done|]. by intros [= <-].
Qed.

Lemma a_update_once lost w : valid_key c i = true -> follows w -> (forall w1, follows w1 -> awp lost (fun _ _ => True) w1) ->
  awp (update_once o c i fn lost) (fun _ _ => True) w.
Proof using Type*.
  intros Hk (Hd & s & Hs & Hb) Hlost. unfold update_once. apply (wp_bind _ _ _ (sync _)). cbn [wp sync fst snd ret]. rewrite set_fields_id.
  set (cur := entry_of (w_fields w) (keyOf c i)) in *.
  destruct (fn _) as [next|e] eqn:Efn; [|done]. eapply a_tick; [done|]. intros w1 s1 Hs1 Hx1 Hf1. destruct next as [next|]; [|done].
  apply (wp_bind _ _ _ (sync _)). cbn [wp sync fst snd ret]. rewrite set_fields_id.
  destruct (plan_write o cur _ next _) as [[wr|]|e] eqn:E; [|done..].
  pose proof (plan_write_seq _ _ _ _ _ E) as Hseq. apply plan_write_ok in E as (_ & _ & Hdata & _).
  apply wp_settle. intros w2 r m HR HD. destruct (appended_of _ _ _ HR Hs1) as (s2 & Hs2 & Hx2 & Hf2).
  pose proof (behind_extends _ _ _ _ (proj1 (proj2 Hs)) Hb (extends_trans _ _ _ (proj1 (proj2 Hs1)) Hx1 Hx2)) as Hb2.
  cbn [docker] in HD. rewrite Hseq, Hdata in *.
  destruct (w_configs w2 !! kvConfigName c i _) as [cfg|] eqn:Ename.
  - destruct HD as (-> & e & -> & He). split; [done|]. cbn [wp throw]. rewrite He. apply Hlost.
    split; [cbn [w_fields set_configs]; by rewrite Hf2, Hf1|]. exists s2. cbn [w_configs w_fields set_configs]. rewrite Hf2, Hf1. by split.
  - destruct HD as (-> & t & ->). split.
    + destruct (behind_newest _ _ _ _ _ Hs2 Hk Hb2 Ename) as [Hlast Hval]. exists s2, next. split_and!; [done| |by rewrite <- Hval|done].
      f_equal. inversion Hlast as [? ? [Hv _]|]; simpl; congruence.
    + apply a_harmless, h_committed. done.
Qed.

Lemma a_update_loop n w : valid_key c i = true -> follows w -> awp (update_loop o c i fn n) (fun _ _ => True) w.
Proof using Type*.
  intros Hk. revert w. induction n as [|n IH]; intros w Hw; cbn [update_loop]; apply a_update_once; try done.
  intros w1 (Hd & s & Hs & _). apply wp_bind. eapply a_refreshKey; [done..|]. intros w2 (Hd2 & s2 & Hs2 & Hb2).
  eapply a_tick; [done|]. intros w3 s3 Hs3 Hx3 Hf3. apply IH. split; [by rewrite Hf3|]. exists s3. split; [done|]. rewrite Hf3.
  by eapply behind_extends; [apply Hs2| |].
Qed.
End following.

(** C22: an update on a loaded cache, with any number of versions added by others
    since and between its calls, none of them removed yet: every version it creates
    follows the newest one there is and holds what the function makes of its value,
    so that no version is lost. *)
Theorem kv_no_lost_update {St} `{KvDriverLaws St} (env : nat -> Run Cache St -> Run Cache St) c i fn n s :
  (forall k s, drv_ok (r_st s) -> drv_ok (r_st (env k s)) /\ appended (world s) (world (env k s))) ->
  drv_ok (r_st s) -> valid_key c i = true -> follows c i (world s) ->
  each_call env (extends_newest c i fn) (update_loop o c i fn n) s.
Proof using Type*.
  intros Henv Hok Hk Hf. eapply (wp_calls env (@docker) appended _ drv_ok); [|exact Henv|done|by apply a_update_loop].
  intros X q st Hst. by apply drv_docker.
Qed.
End concurrent.

(** A loaded cache that has seen an empty swarm. *)
Definition kv_loaded : Run Cache MemoryKv := snd (run kv_quiet (ensureFresh kv_opts) kv_start).

Lemma empty_swarm o : swarm_of o ∅ ∅.
Proof. by split_and!. Qed.

Lemma kv_no_lost_update_witness :
  each_call kv_quiet (extends_newest kv_opts "dns" "zone" (fun cur => inl (Some (VArr (option_list cur)))))
    (update_loop kv_opts "dns" "zone" (fun cur => inl (Some (VArr (option_list cur)))) 5) kv_loaded.
Proof.
  apply (kv_no_lost_update kv_opts kv_sealer kv_quiet).
  - intros k s Hs. split; [exact Hs|]. split; [reflexivity|]. intros a Ha. exists a. split; [exact Ha|apply extends_refl].
  - constructor.
  - reflexivity.
  - split; [constructor|]. exists ∅. split; [apply empty_swarm|]. intros v vs H. discriminate H.
Defined.

(** * Races, run *)

(** Another controller with its own cache writes to the same swarm before the call
    with number [n]. *)
Definition kv_rival (n : nat) (t : Task (option KvDoc)) (k : nat) (s : Run Cache MemoryKv) : Run Cache MemoryKv :=
  if (k =? n)%nat then
    let rival := run kv_quiet t {| r_st := r_st s; r_fields := new_cache; r_now := r_now s; r_calls := 0 |} in
    {| r_st := r_st (snd rival); r_fields := r_fields s; r_now := r_now s; r_calls := r_calls s |}
  else s.

Definition kv_append (x : value) : Fn := fun cur => inl (Some (VArr (match cur with Some (VArr l) => l ++ [x] | _ => [x] end))).

(** The rival's write lands between the function and the create: the create is
    refused, the key read again and the function applied to the rival's value. *)
Example kv_lost_race :
  let s := snd (run kv_quiet (update kv_opts "dns" "zone" (kv_append (vint 1))) kv_start) in
  let rival := kv_rival (r_calls s + 1) (update kv_opts "dns" "zone" (kv_append (vint 2))) in
  (fun d => (kd_seq d, kd_value d)) <$> match fst (run rival (update kv_opts "dns" "zone" (kv_append (vint 3))) s) with inl d => d | inr _ => None end
  = Some (3, VArr [vint 1; vint 2; vint 3]).
Proof. vm_compute. reflexivity. Qed.

(** An instance whose cache is older than the retained versions: the name after its
    version has been removed, so its create succeeds, below the newest version.  The
    write is reported as done and is lost. *)
Definition kv_outdated : Run Cache MemoryKv :=
  {| r_st := r_st (kv_after 5); r_fields := r_fields (kv_after 1); r_now := 100; r_calls := 0 |}.

Lemma outdated_write_is_lost :
  let s := run kv_quiet (put kv_opts "dns" "zone" (vint 99)) kv_outdated in
  let again := {| r_st := r_st (snd s); r_fields := new_cache; r_now := 100; r_calls := 0 |} in
  (fun d => option_map kd_value d = Some (vint 99)) (match fst s with inl d => d | inr _ => None end) /\
  fst (run kv_quiet (get_ kv_opts "dns" "zone") again) = inl (Some (vint 5)).
Proof. vm_compute. split; reflexivity. Qed.

(** Two documents with one fingerprint: the second is not written, and the answer is
    the first. *)
Lemma fingerprint_collision_drops_write :
  let doc h := VObj [("host", VStr h)] in
  fst (run_all kv_opts kv_quiet [OPut "dns" "zone" (doc "cugh"); OPut "dns" "zone" (doc "cddaa"); OGet "dns" "zone"] kv_start) =
  [inl (RDoc (Some ("dns", "zone", (1, doc "cugh")))); inl (RDoc (Some ("dns", "zone", (1, doc "cugh")))); inl (RValue (Some (doc "cugh")))].
Proof. vm_compute. reflexivity. Qed.

(** A document deleted and written again elsewhere starts at version one: a cache
    that holds the version one of before keeps its value through every refresh. *)
Lemma recreated_document_stays_stale :
  let rival := snd (run_all kv_opts kv_quiet [ODelete "dns" "zone"; OPut "dns" "zone" (vint 2)] (kv_after 1)) in
  let mine := {| r_st := r_st rival; r_fields := r_fields (kv_after 1); r_now := 100; r_calls := 0 |} in
  fst (run_all kv_opts kv_quiet [ORefresh; OGet "dns" "zone"] mine) = [inl RUnit; inl (RValue (Some (vint 1)))] /\
  fst (run_all kv_opts kv_quiet [OGet "dns" "zone"] rival) = [inl (RValue (Some (vint 2)))].
Proof. vm_compute. split; reflexivity. Qed.

(** A swarm on which removals time out. *)
Record Stuck := { stuck_kv : MemoryKv }.

Definition stuck_handle {X} (q : request X) (s : Stuck) : res X * Stuck :=
  match q in request X return res X * Stuck with
  | QRemove name => (Err "agent timed out", s)
  | q => let '(r, m) := memoryKvDriver q (stuck_kv s) in (r, {| stuck_kv := m |})
  end.

#[export] Instance stuck_driver : KvDriver Stuck := {
  handle := @stuck_handle; view s := list_to_map (mk_configs (stuck_kv s)); drv_ok _ := True
}.

(** A delete whose removals all fail answers that it deleted, and the document is
    there again after the next refresh. *)
Lemma failed_delete_reports_success :
  let start := {| r_st := {| stuck_kv := r_st (kv_after 1) |}; r_fields := r_fields (kv_after 1); r_now := 100; r_calls := 0 |} in
  fst (run_all kv_opts (fun _ s => s) [ODelete "dns" "zone"; OGet "dns" "zone"; ORefresh; OGet "dns" "zone"] start) =
  [inl (RBool true); inl (RValue None); inl RUnit; inl (RValue (Some (vint 1)))].
Proof. vm_compute. reflexivity. Qed.
