(* ===== verification/AbacModel.v ===== *)
(** The PARC request model of packages/abac: the values an attribute can hold
    (types.ts), attribute resolution (attrs.ts), ReBAC grants (grants.ts) and
    the builders of principals and resources (build.ts). *)

From S2P Require Import Prelude.
From S2P Require Export Json.

(** * Types (types.ts) *)

Definition ACTIONS : list string :=
  [ "node.read"; "node.drain"; "node.remove"; "node.setLabels";
    "service.read"; "service.deploy"; "service.scale"; "service.restart"; "service.remove";
    "stack.read"; "stack.deploy"; "stack.remove";
    "ingress.read"; "ingress.write"; "token.create"; "token.revoke";
    "policy.read"; "policy.write"; "member.read"; "member.write";
    "authconfig.read"; "authconfig.write"; "terminal.open";
    "data.destroy"; "data.restore"; "data.failover"; "backup.remove"; "secret.delete";
    "dns.remove"; "ingress.remove"; "cicd.remove"; "node.disk.format";
    "service.configure"; "secrets.read"; "mesh.connect"; "data.read"; "data.write";
    "app.access"; "ai.use"; "email.write"; "email.send" ].

Definition isAction (v : string) : bool := mem v ACTIONS.

Inductive Role := role_owner | role_admin | role_member.
#[export] Instance Role_eq_dec : EqDecision Role.
Proof. solve_decision. Defined.

Definition role_str (r : Role) : string :=
  match r with role_owner => "owner" | role_admin => "admin" | role_member => "member" end.

Inductive Relation := rel_owner | rel_operator | rel_viewer.
#[export] Instance Relation_eq_dec : EqDecision Relation.
Proof. solve_decision. Defined.

Definition relation_str (r : Relation) : string :=
  match r with rel_owner => "owner" | rel_operator => "operator" | rel_viewer => "viewer" end.

Record Principal := {
  p_userId : string;
  p_memberId : option string;
  p_orgId : string;
  p_roles : list Role;
  p_teamIds : option (list string);
  p_groups : option (list string);
  p_attributes : attrs
}.

Record Resource := {
  r_type : string;
  r_id : string;
  r_orgId : string;
  r_labels : attrs;
  r_env : option string;
  r_ownerMemberId : option string;
  r_ownerTeamId : option string;
  r_principalRelations : option (list Relation)
}.

Record AuthzRequest := {
  q_principal : Principal;
  q_action : string;
  q_resource : option Resource
}.

(** * Sets of strings *)

(** [[...new Set(l)]]: first occurrences, in order. *)
Fixpoint js_set (l : list string) : list string :=
  match l with
  | [] => []
  | x :: l' => x :: filter (fun y => y <> x) (js_set l')
  end.

Lemma js_set_elem x l : x ∈ js_set l <-> x ∈ l.
Proof.
  induction l as [|y l IH]; simpl; [done|].
  rewrite !elem_of_cons, list_elem_of_filter, IH.
  destruct (decide (x = y)); naive_solver.
Qed.

Lemma js_set_NoDup l : NoDup (js_set l).
Proof.
  induction l as [|x l IH]; simpl; constructor.
  - rewrite list_elem_of_filter. naive_solver.
  - by apply NoDup_filter.
Qed.

Lemma filter_all_false {A} (P : A -> Prop) `{!forall x, Decision (P x)} (l : list A) :
  (forall x, x ∈ l -> ~ P x) -> filter P l = [].
Proof.
  induction l as [|x l IH]; intros Hl; [done|].
  rewrite filter_cons_False by (apply Hl; left). apply IH. intros. apply Hl. by right.
Qed.

Lemma filter_all_true {A} (P : A -> Prop) `{!forall x, Decision (P x)} (l : list A) :
  (forall x, x ∈ l -> P x) -> filter P l = l.
Proof.
  induction l as [|x l IH]; intros Hl; [done|].
  rewrite filter_cons_True by (apply Hl; left). f_equal. apply IH. intros. apply Hl. by right.
Qed.

(** Appending elements that are already present leaves a set unchanged. *)
Lemma js_set_app_absorb l l' : NoDup l -> (forall x, x ∈ l' -> x ∈ l) -> js_set (l ++ l') = l.
Proof.
  revert l'. induction l as [|x l IH]; intros l' Hd Hin; simpl.
  - destruct l' as [|y l']; [done|].
    specialize (Hin y (list_elem_of_here _ _)). by apply not_elem_of_nil in Hin.
  - apply NoDup_cons in Hd as [Hx Hd]. f_equal.
    assert (Hrec : js_set (l ++ filter (fun y => y <> x) l') = l).
    { apply IH; [done|]. intros y [Hne Hy]%list_elem_of_filter.
      by apply Hin, elem_of_cons in Hy as [->|?]. }
    rewrite <- Hrec at 2.
    assert (Hcomm : forall m, filter (fun y => y <> x) (js_set m) = js_set (filter (fun y => y <> x) m)).
    { clear. induction m as [|z m IH]; [done|]. rewrite (filter_cons _ z m). simpl.
      rewrite filter_cons. destruct (decide (z <> x)); simpl; rewrite <- ?IH.
      - f_equal. rewrite !list_filter_filter. apply list_filter_iff. intros; tauto.
      - apply dec_stable in n. subst. rewrite list_filter_filter.
        apply list_filter_iff. intros; tauto. }
    rewrite Hcomm, filter_app. do 2 f_equal. apply filter_all_true.
    intros y Hy ->. done.
Qed.

(** * Attribute resolution (attrs.ts) *)

Definition ENV_LABEL := "swarmy.env".
Definition APP_ENV_LABEL := "swarmy.app.environment".
Definition PRODUCTION := "production".

Definition ENV_ALIASES : list (string * string) :=
  [ ("prod", PRODUCTION); ("prd", PRODUCTION); ("production", PRODUCTION); ("live", PRODUCTION);
    ("stage", "staging"); ("staging", "staging"); ("stg", "staging");
    ("dev", "development"); ("development", "development");
    ("preview", "preview"); ("test", "test") ].

Definition normaliseEnv (v : option value) : option string :=
  match v with
  | Some (VStr s) =>
      let v := toLowerCase (trim s) in
      if String.eqb v "" then None
      else Some (match get v ENV_ALIASES with Some e => e | None => v end)
  | _ => None
  end.

#[global] Arguments normaliseEnv : simpl never.

(** [resourceEnv] on the two fields it reads. *)
Definition env_of (env : option string) (labels : attrs) : option string :=
  match env with
  | Some e => normaliseEnv (Some (VStr e))
  | None =>
      match normaliseEnv (get ENV_LABEL labels) with
      | Some e => Some e
      | None => normaliseEnv (get APP_ENV_LABEL labels)
      end
  end.

Definition resourceEnv (r : option Resource) : option string :=
  match r with None => None | Some r => env_of (r_env r) (r_labels r) end.

(** [strings(v)] *)
Definition strings (v : option value) : list string :=
  match v with
  | None | Some VNull => []
  | Some (VStr s) => if String.eqb s "" then [] else [s]
  | Some (VArr l) => map to_string (List.filter (fun x => negb (is_null x)) l)
  | Some (VObj _) => []
  | Some v => [to_string v]
  end.

Definition groupsFromAttributes (a : attrs) : list string :=
  js_set (strings (get "groups" a) ++ strings (get "ssoGroups" a) ++ strings (get "teamIds" a)).

Definition principalGroups (p : Principal) : list string :=
  js_set (default [] (p_groups p) ++ default [] (p_teamIds p) ++ groupsFromAttributes (p_attributes p)).

Definition RESOURCE_ATTRS := ["resource.env"; "resource.type"; "resource.id"].
Definition RESOURCE_LABEL_PREFIX := "resource.label.".
Definition PRINCIPAL_PREFIX := "principal.".

Definition isAttrPath (attr : string) : bool :=
  if mem attr RESOURCE_ATTRS then true
  else if startsWith RESOURCE_LABEL_PREFIX attr
  then (String.length RESOURCE_LABEL_PREFIX <? String.length attr)%nat
  else if startsWith PRINCIPAL_PREFIX attr
  then (String.length PRINCIPAL_PREFIX <? String.length attr)%nat
  else false.

Definition opt_str (o : option string) : option value := option_map VStr o.

Definition lookupAttr (attr : string) (p : Principal) (r : option Resource) : list string :=
  if String.eqb attr "resource.env" then strings (opt_str (resourceEnv r))
  else if String.eqb attr "resource.type" then strings (opt_str (option_map r_type r))
  else if String.eqb attr "resource.id" then strings (opt_str (option_map r_id r))
  else if startsWith RESOURCE_LABEL_PREFIX attr then
    strings (match r with
             | Some r => get (sdrop (String.length RESOURCE_LABEL_PREFIX) attr) (r_labels r)
             | None => None
             end)
  else if String.eqb attr "principal.role" then map role_str (p_roles p)
  else if String.eqb attr "principal.groups" then principalGroups p
  else if startsWith PRINCIPAL_PREFIX attr then
    strings (get (sdrop (String.length PRINCIPAL_PREFIX) attr) (p_attributes p))
  else [].

(** A condition operator together with the operand its grammar gives it: a
    string for [eq]/[ne], a list for [in]/[notIn], nothing for the rest. *)
Inductive ConditionOp :=
  | op_eq (v : string) | op_ne (v : string)
  | op_in (vs : list string) | op_notIn (vs : list string)
  | op_exists | op_notExists.

Record Condition := { c_attr : string; c_op : ConditionOp }.

Definition conditionHolds (c : Condition) (values : list string) : bool :=
  match c_op c with
  | op_eq v => mem v values
  | op_ne v => negb (mem v values)
  | op_in vs => existsb (fun v => mem v vs) values
  | op_notIn vs => negb (existsb (fun v => mem v vs) values)
  | op_exists => (0 <? length values)%nat
  | op_notExists => (length values =? 0)%nat
  end.

(** * ReBAC grants (grants.ts) *)

Inductive PrincipalType := pt_member | pt_team.

Record GrantEdge := {
  g_principalType : PrincipalType;
  g_principalId : string;
  g_resourceType : string;
  g_resourceId : string;
  g_relation : Relation
}.

Definition expandRelations (relations : list Relation) : list Relation :=
  let out := foldl (fun s r => set_add r s) [] relations in
  let out := if decide (rel_owner ∈ out)
             then set_add rel_viewer (set_add rel_operator out) else out in
  if decide (rel_operator ∈ out) then set_add rel_viewer out else out.

(** The member test [memberId && g.principalId === memberId]: an empty id is falsy. *)
Definition is_member (memberId : option string) (id : string) : bool :=
  match memberId with
  | Some m => negb (String.eqb m "") && String.eqb id m
  | None => false
  end.

Definition grant_applies (memberId : option string) (teamIds : list string)
    (type id : string) (g : GrantEdge) : bool :=
  String.eqb (g_resourceType g) type && String.eqb (g_resourceId g) id &&
  match g_principalType g with
  | pt_member => is_member memberId (g_principalId g)
  | pt_team => mem (g_principalId g) teamIds
  end.

Definition resolveRelations (memberId : option string) (teamIds : option (list string))
    (type id : string) (grants : list GrantEdge) : list Relation :=
  let direct :=
    foldl (fun s g => if grant_applies memberId (default [] teamIds) type id g
                      then set_add (g_relation g) s else s) [] grants in
  expandRelations direct.

Definition withRelations (r : Resource) (p : Principal) (grants : list GrantEdge) : Resource :=
  {| r_type := r_type r; r_id := r_id r; r_orgId := r_orgId r; r_labels := r_labels r;
     r_env := r_env r; r_ownerMemberId := r_ownerMemberId r; r_ownerTeamId := r_ownerTeamId r;
     r_principalRelations :=
       Some (resolveRelations (p_memberId p) (p_teamIds p) (r_type r) (r_id r) grants) |}.

(** * Builders (build.ts) *)

Record PrincipalInput := {
  pi_userId : string;
  pi_orgId : string;
  pi_role : Role;
  pi_memberId : option string;
  pi_teamIds : option (list string);
  pi_groups : option (list string);
  pi_attributes : option attrs
}.

(** Later spread entries win, so the caller's attributes are looked up first. *)
Definition buildPrincipal (i : PrincipalInput) : Principal :=
  let attributes := default [] (pi_attributes i) in
  let teamIds := default [] (pi_teamIds i) in
  let principal :=
    {| p_userId := pi_userId i; p_memberId := pi_memberId i; p_orgId := pi_orgId i;
       p_roles := [pi_role i]; p_teamIds := Some teamIds;
       p_groups := Some (default [] (pi_groups i));
       p_attributes := attributes ++
         [ ("memberId", match pi_memberId i with Some m => VStr m | None => VNull end);
           ("teamIds", VArr (map VStr teamIds)) ] |} in
  {| p_userId := p_userId principal; p_memberId := p_memberId principal;
     p_orgId := p_orgId principal; p_roles := p_roles principal;
     p_teamIds := p_teamIds principal; p_groups := Some (principalGroups principal);
     p_attributes := p_attributes principal |}.

Record ResourceInput := {
  ri_type : string;
  ri_id : string;
  ri_orgId : string;
  ri_labels : option attrs;
  ri_env : option string;
  ri_ownerMemberId : option string;
  ri_ownerTeamId : option string
}.

Definition buildResource (i : ResourceInput) (memberId : option string)
    (teamIds : option (list string)) (grants : list GrantEdge) : Resource :=
  {| r_type := ri_type i; r_id := ri_id i; r_orgId := ri_orgId i;
     r_labels := default [] (ri_labels i);
     r_env := env_of (ri_env i) (default [] (ri_labels i));
     r_ownerMemberId := ri_ownerMemberId i; r_ownerTeamId := ri_ownerTeamId i;
     r_principalRelations :=
       Some (resolveRelations memberId teamIds (ri_type i) (ri_id i) grants) |}.

(** * Properties *)

(** Folding conditional [Set.add]s collects exactly the selected images. *)
Lemma foldl_set_add_elem {A B} `{EqDecision B} (P : A -> bool) (f : A -> B) l s y :
  y ∈ foldl (fun s x => if P x then set_add (f x) s else s) s l <->
  y ∈ s \/ exists x, x ∈ l /\ P x = true /\ f x = y.
Proof.
  revert s. induction l as [|x l IH]; intros s; simpl; [set_solver|].
  rewrite IH. destruct (P x) eqn:E; rewrite ?set_add_elem; split.
  - intros [[->|?]|(z & ? & ? & ?)]; [right; exists x|by left|right; exists z];
      by rewrite elem_of_cons; eauto.
  - intros [?|(z & [->|?]%elem_of_cons & ? & <-)]; eauto.
  - intros [?|(z & ? & ? & ?)]; [by left|right; exists z]; by rewrite elem_of_cons; eauto.
  - intros [?|(z & [->|?]%elem_of_cons & ? & <-)]; [by left|congruence|eauto].
Qed.

Lemma foldl_set_add_NoDup {A B} `{EqDecision B} (P : A -> bool) (f : A -> B) l s :
  NoDup s -> NoDup (foldl (fun s x => if P x then set_add (f x) s else s) s l).
Proof.
  revert s. induction l as [|x l IH]; intros s Hs; simpl; [done|].
  apply IH. destruct (P x); auto with swarmy.
Qed.

(** How much a relation grants: owner over operator over viewer. *)
Definition implies (r r' : Relation) : bool :=
  match r, r' with
  | rel_owner, _ => true
  | rel_operator, rel_owner => false
  | rel_operator, _ => true
  | rel_viewer, rel_viewer => true
  | rel_viewer, _ => false
  end.

Lemma expandRelations_elem rs r :
  r ∈ expandRelations rs <-> exists r', r' ∈ rs /\ implies r' r = true.
Proof.
  unfold expandRelations.
  assert (E : forall x, x ∈ foldl (fun s r => set_add r s) [] rs <-> x ∈ rs).
  { intros x. pose proof (foldl_set_add_elem (fun _ => true) (fun r : Relation => r) rs [] x) as H.
    simpl in H. rewrite H. set_solver. }
  remember (foldl (fun s r => set_add r s) [] rs) as out eqn:Eo. clear Eo.
  assert (Hex : (exists r', r' ∈ rs /\ implies r' r = true) <->
                r ∈ out \/ (rel_owner ∈ out) \/ (rel_operator ∈ out /\ r = rel_viewer)).
  { setoid_rewrite <- E. split.
    - intros ([] & Hr & Hi); destruct r; try done; naive_solver.
    - intros [H|[H|[H ->]]]; [exists r; split; [done|by destruct r]|by exists rel_owner|by exists rel_operator]. }
  rewrite Hex. clear Hex E rs.
  repeat case_decide; rewrite ?set_add_elem in *; destruct r; naive_solver.
Qed.

Lemma expandRelations_NoDup rs : NoDup (expandRelations rs).
Proof.
  unfold expandRelations.
  pose proof (foldl_set_add_NoDup (fun _ => true) (fun r : Relation => r) rs [] (NoDup_nil_2)) as H.
  simpl in H. repeat case_decide; auto with swarmy.
Qed.

(** The relations a principal holds on a resource are exactly those implied
    by a grant edge on that resource naming the principal's (non-empty) member
    id or one of its teams, owner implying operator implying viewer; the list
    has no duplicates. *)
Theorem resolveRelations_spec memberId teamIds type id grants :
  NoDup (resolveRelations memberId teamIds type id grants) /\
  forall r, r ∈ resolveRelations memberId teamIds type id grants <->
    exists g, g ∈ grants /\ implies (g_relation g) r = true /\
      g_resourceType g = type /\ g_resourceId g = id /\
      match g_principalType g with
      | pt_member => memberId = Some (g_principalId g) /\ g_principalId g <> ""
      | pt_team => exists ts, teamIds = Some ts /\ g_principalId g ∈ ts
      end.
Proof.
  split; [apply expandRelations_NoDup|]. intros r. unfold resolveRelations.
  rewrite expandRelations_elem.
  setoid_rewrite (foldl_set_add_elem (grant_applies memberId (default [] teamIds) type id) g_relation).
  assert (Ha : forall g, grant_applies memberId (default [] teamIds) type id g = true <->
    g_resourceType g = type /\ g_resourceId g = id /\
    match g_principalType g with
    | pt_member => memberId = Some (g_principalId g) /\ g_principalId g <> ""
    | pt_team => exists ts, teamIds = Some ts /\ g_principalId g ∈ ts
    end).
  { intros g. unfold grant_applies, is_member. rewrite !andb_true_iff, !String.eqb_eq.
    destruct (g_principalType g).
    - destruct memberId as [m|]; [|naive_solver].
      rewrite andb_true_iff, negb_true_iff, String.eqb_eq, String.eqb_neq. naive_solver.
    - rewrite mem_In. destruct teamIds as [ts|]; simpl; [naive_solver|].
      rewrite elem_of_nil. naive_solver. }
  setoid_rewrite Ha. split.
  - intros (r' & [Hn|(g & Hg & Hm & <-)] & Hi); [by apply not_elem_of_nil in Hn|]. naive_solver.
  - intros (g & Hg & Hi & Hm). exists (g_relation g). split; [|done]. right. exists g. naive_solver.
Qed.

(** The groups stored by [buildPrincipal] are final: recomputing the
    principal's groups (as both engines do on every decision) returns the very
    same list, which has no duplicates and contains every explicit group and
    every team id. *)
Theorem buildPrincipal_groups_fixpoint i :
  let p := buildPrincipal i in
  p_groups p = Some (principalGroups p) /\ NoDup (principalGroups p) /\
  (forall g, g ∈ default [] (pi_groups i) \/ g ∈ default [] (pi_teamIds i) ->
     g ∈ principalGroups p).
Proof.
  intros p.
  assert (Hp : p_groups p = Some (principalGroups p)).
  { unfold p, buildPrincipal. simpl. f_equal. symmetry.
    unfold principalGroups at 1. simpl. apply js_set_app_absorb; [apply js_set_NoDup|].
    intros x Hx. unfold principalGroups. simpl. rewrite js_set_elem. set_solver. }
  split; [done|]. split; [apply js_set_NoDup|]. intros g Hg.
  assert (E : principalGroups p = default [] (p_groups p)) by by rewrite Hp.
  rewrite E. unfold p, buildPrincipal. simpl. unfold principalGroups. rewrite js_set_elem. simpl.
  set_solver.
Qed.

Lemma lookupAttr_env p r : lookupAttr "resource.env" p r = strings (opt_str (resourceEnv r)).
Proof. reflexivity. Qed.

Lemma normaliseEnv_nonempty v e : normaliseEnv v = Some e -> e <> "".
Proof.
  destruct v as [[]|]; unfold normaliseEnv; try done.
  destruct (String.eqb_spec (toLowerCase (trim s)) "") as [|Hne]; [done|].
  intros [= <-]. simpl. repeat (destruct (String.eqb _ _); [done|]). done.
Qed.

Lemma resourceEnv_nonempty r e : resourceEnv r = Some e -> e <> "".
Proof.
  destruct r as [r|]; simpl; [|done]. unfold env_of.
  destruct (r_env r); [apply normaliseEnv_nonempty|].
  destruct (normaliseEnv (get ENV_LABEL (r_labels r))) eqn:E; [|apply normaliseEnv_nonempty].
  intros [= <-]. by eapply normaliseEnv_nonempty.
Qed.

(** The condition [resource.env ne production] holds unless the environment is
    known to be production. *)
Lemma env_ne_holds p r v :
  v <> "" ->
  conditionHolds {| c_attr := "resource.env"; c_op := op_ne v |} (lookupAttr "resource.env" p r) = true
  <-> resourceEnv r <> Some v.
Proof.
  intros Hv. rewrite lookupAttr_env. unfold conditionHolds. simpl c_op. cbv iota.
  rewrite negb_true_iff, mem_false.
  destruct (resourceEnv r) as [e|] eqn:E; simpl.
  - pose proof (resourceEnv_nonempty _ _ E). destruct (String.eqb_spec e ""); [done|].
    rewrite list_elem_of_singleton. naive_solver.
  - split; [done|]. intros _. apply not_elem_of_nil.
Qed.

(** * Witnesses *)

Lemma buildPrincipal_groups_fixpoint_witness :
  let p := buildPrincipal
    {| pi_userId := "u"; pi_orgId := "o"; pi_role := role_member; pi_memberId := Some "m";
       pi_teamIds := Some ["t"]; pi_groups := Some ["g"; "t"];
       pi_attributes := Some [("ssoGroups", VArr [VStr "sso"; VStr "g"])] |} in
  "t" ∈ principalGroups p /\ principalGroups p = ["g"; "t"; "sso"].
Proof.
  intros p. split; [|reflexivity].
  apply (buildPrincipal_groups_fixpoint
    {| pi_userId := "u"; pi_orgId := "o"; pi_role := role_member; pi_memberId := Some "m";
       pi_teamIds := Some ["t"]; pi_groups := Some ["g"; "t"];
       pi_attributes := Some [("ssoGroups", VArr [VStr "sso"; VStr "g"])] |}).
  right. simpl. by left.
Defined.
