(* ===== verification/AbacPolicy.v ===== *)
(** Policy documents of packages/abac (policy.ts): the parser and validator of
    a policy source, and the conjunctive matcher.

    [parsePolicyDoc] starts from the result of [JSON.parse]: [None] when it
    throws.  A thrown [PolicyParseError] is [Err] with its message. *)

From S2P Require Import Prelude AbacModel.

Record PolicyDoc := {
  d_actions : option (list string);
  d_roles : option (list string);
  d_resourceTypes : option (list string);
  d_resourceLabels : option attrs;
  d_attributes : option attrs;
  d_ownerOnly : option bool;
  d_relations : option (list string);
  d_groups : option (list string);
  d_members : option (list string);
  d_conditions : option (list Condition)
}.

Definition empty_doc : PolicyDoc :=
  {| d_actions := None; d_roles := None; d_resourceTypes := None; d_resourceLabels := None;
     d_attributes := None; d_ownerOnly := None; d_relations := None; d_groups := None;
     d_members := None; d_conditions := None |}.

Inductive Effect := permit | forbid.
#[export] Instance Effect_eq_dec : EqDecision Effect.
Proof. solve_decision. Defined.

Record ParsedPolicy := {
  pp_id : string;
  pp_name : string;
  pp_effect : Effect;
  pp_priority : Z;
  pp_doc : PolicyDoc
}.

(** * Parsing *)

(** The strings of an array all of whose elements are strings. *)
Fixpoint all_strings (l : list value) : option (list string) :=
  match l with
  | [] => Some []
  | VStr s :: l' => match all_strings l' with Some ss => Some (s :: ss) | None => None end
  | _ => None
  end.

Definition strArray (obj : attrs) (key : string) : res (option (list string)) :=
  match get key obj with
  | None => Ok None
  | Some (VArr l) =>
      match all_strings l with
      | Some ss => Ok (Some ss)
      | None => Err (quoted key +:+ " must be an array of strings")
      end
  | Some _ => Err (quoted key +:+ " must be an array of strings")
  end.

Definition record_field (obj : attrs) (key : string) : res (option attrs) :=
  match get key obj with
  | None => Ok None
  | Some (VObj m) => Ok (Some m)
  | Some _ => Err (quoted key +:+ " must be an object")
  end.

Definition CONDITION_OPS := ["eq"; "ne"; "in"; "notIn"; "exists"; "notExists"].

Definition norm_for (attr v : string) : string :=
  if String.eqb attr "resource.env" then default v (normaliseEnv (Some (VStr v))) else v.

Definition parseCondition (i : nat) (c : value) : res Condition :=
  let at_i := "conditions[" +:+ pretty i +:+ "]" in
  match c with
  | VObj o =>
      match get "attr" o with
      | Some (VStr attr) =>
          if negb (isAttrPath attr) then
            Err (at_i +:+ ".attr must be resource.env | resource.type | resource.id | resource.label.<key> | principal.<key>")
          else
          match get "op" o with
          | Some (VStr op) =>
              if negb (mem op CONDITION_OPS) then
                Err (at_i +:+ ".op must be one of " +:+ join " | " CONDITION_OPS)
              else if String.eqb op "eq" || String.eqb op "ne" then
                match get "value" o with
                | Some (VStr _ as v) | Some (VNum _ as v) | Some (VBool _ as v) =>
                    let x := norm_for attr (to_string v) in
                    Ok {| c_attr := attr; c_op := if String.eqb op "eq" then op_eq x else op_ne x |}
                | _ => Err (at_i +:+ ".value must be a string for " +:+ quoted op)
                end
              else if String.eqb op "in" || String.eqb op "notIn" then
                let bad := at_i +:+ ".value must be a non-empty string array for " +:+ quoted op in
                match get "value" o with
                | Some (VArr ((_ :: _) as l)) =>
                    match all_strings l with
                    | Some ss =>
                        let xs := map (norm_for attr) ss in
                        Ok {| c_attr := attr; c_op := if String.eqb op "in" then op_in xs else op_notIn xs |}
                    | None => Err bad
                    end
                | _ => Err bad
                end
              else Ok {| c_attr := attr; c_op := if String.eqb op "exists" then op_exists else op_notExists |}
          | _ => Err (at_i +:+ ".op must be one of " +:+ join " | " CONDITION_OPS)
          end
      | _ => Err (at_i +:+ ".attr must be resource.env | resource.type | resource.id | resource.label.<key> | principal.<key>")
      end
  | _ => Err (at_i +:+ " must be an object")
  end.

Definition parseConditions (raw : value) : res (list Condition) :=
  match raw with
  | VArr l => res_map (fun ic => parseCondition (fst ic) (snd ic)) (imap pair l)
  | _ => Err (quoted "conditions" +:+ " must be an array")
  end.

Definition ALLOWED_RELATIONS := ["owner"; "operator"; "viewer"].

Fixpoint check_relations (l : list string) : res unit :=
  match l with
  | [] => Ok tt
  | r :: l' =>
      if mem r ALLOWED_RELATIONS then check_relations l'
      else Err (quoted "relations" +:+ " must contain only owner|operator|viewer (got " +:+ quoted r +:+ ")")
  end.

Definition parsePolicyDoc (source : option value) : res PolicyDoc :=
  match source with
  | None => Err "policy source is not valid JSON"
  | Some (VObj obj) =>
      let! actions := strArray obj "actions" in
      let! roles := strArray obj "roles" in
      let! resourceTypes := strArray obj "resourceTypes" in
      let! resourceLabels := record_field obj "resourceLabels" in
      let! attributes := record_field obj "attributes" in
      let! ownerOnly :=
        match get "ownerOnly" obj with
        | None => Ok None
        | Some (VBool b) => Ok (Some b)
        | Some _ => Err (quoted "ownerOnly" +:+ " must be a boolean")
        end in
      let! relations := strArray obj "relations" in
      let! _ := match relations with Some l => check_relations l | None => Ok tt end in
      let! groups := strArray obj "groups" in
      let! members := strArray obj "members" in
      let! conditions :=
        match get "conditions" obj with
        | None => Ok None
        | Some raw => let! cs := parseConditions raw in Ok (Some cs)
        end in
      Ok {| d_actions := actions; d_roles := roles; d_resourceTypes := resourceTypes;
            d_resourceLabels := resourceLabels; d_attributes := attributes;
            d_ownerOnly := ownerOnly; d_relations := relations; d_groups := groups;
            d_members := members; d_conditions := conditions |}
  | Some _ => Err "policy source must be a JSON object"
  end.

(** [JSON.parse(JSON.stringify(doc))]: absent keys are not written. *)
Definition field (k : string) (o : option value) : attrs :=
  match o with Some v => [(k, v)] | None => [] end.

Definition json_strings (l : list string) : value := VArr (map VStr l).

Definition condition_json (c : Condition) : value :=
  VObj (("attr", VStr (c_attr c)) ::
    match c_op c with
    | op_eq v => [("op", VStr "eq"); ("value", VStr v)]
    | op_ne v => [("op", VStr "ne"); ("value", VStr v)]
    | op_in vs => [("op", VStr "in"); ("value", json_strings vs)]
    | op_notIn vs => [("op", VStr "notIn"); ("value", json_strings vs)]
    | op_exists => [("op", VStr "exists")]
    | op_notExists => [("op", VStr "notExists")]
    end).

Definition doc_json (d : PolicyDoc) : value :=
  VObj (field "actions" (option_map json_strings (d_actions d)) ++
    field "roles" (option_map json_strings (d_roles d)) ++
    field "resourceTypes" (option_map json_strings (d_resourceTypes d)) ++
    field "resourceLabels" (option_map VObj (d_resourceLabels d)) ++
    field "attributes" (option_map VObj (d_attributes d)) ++
    field "ownerOnly" (option_map VBool (d_ownerOnly d)) ++
    field "relations" (option_map json_strings (d_relations d)) ++
    field "groups" (option_map json_strings (d_groups d)) ++
    field "members" (option_map json_strings (d_members d)) ++
    field "conditions" (option_map (fun cs => VArr (map condition_json cs)) (d_conditions d))).

(** * Matching *)

Definition listMatches (list : option (list string)) (v : string) : bool :=
  match list with
  | None | Some [] => true
  | Some l => mem "*" l || mem v l
  end.

Definition principalTeamIds (p : Principal) : list string :=
  match p_teamIds p with
  | Some ((_ :: _) as ts) => ts
  | _ =>
      match get "teamIds" (p_attributes p) with
      | Some (VArr l) => map to_string l
      | _ => []
      end
  end.

(** [o && test(o)] on an optional id, the empty string being falsy. *)
Definition truthy (o : option string) (test : string -> bool) : bool :=
  match o with Some s => negb (String.eqb s "") && test s | None => false end.

Definition holds_relation (r : Resource) (rel : string) : bool :=
  mem rel (map relation_str (default [] (r_principalRelations r))).

Definition ownsResource (p : Principal) (r : Resource) : bool :=
  if holds_relation r "owner" then true
  else if truthy (r_ownerMemberId r)
            (fun o => match p_memberId p with Some m => String.eqb o m | None => false end
                      || String.eqb o (p_userId p)) then true
  else truthy (r_ownerTeamId r) (fun t => mem t (principalTeamIds p)).

(** A populated list clause [doc.x && doc.x.length > 0]. *)
Definition clause (l : option (list string)) (test : list string -> bool) : bool :=
  match l with None | Some [] => true | Some l => test l end.

Definition on_resource (r : option Resource) (test : Resource -> bool) : bool :=
  match r with Some r => test r | None => false end.

Definition entries_match (want : attrs) (have : attrs) : bool :=
  forallb (fun kv => strict_eq (get (fst kv) have) (snd kv)) want.

(** [[memberId, userId].filter(Boolean)] *)
Definition principal_ids (p : Principal) : list string :=
  List.filter (fun s => negb (String.eqb s "")) (default "" (p_memberId p) :: [p_userId p]).

Definition policyMatches (policy : ParsedPolicy) (req : AuthzRequest) : bool :=
  let doc := pp_doc policy in
  let principal := q_principal req in
  let resource := q_resource req in
  listMatches (d_actions doc) (q_action req) &&
  clause (d_roles doc) (fun rs =>
    mem "*" rs || existsb (fun r => mem r (map role_str (p_roles principal))) rs) &&
  clause (d_resourceTypes doc) (fun ts =>
    on_resource resource (fun r => listMatches (Some ts) (r_type r))) &&
  match d_resourceLabels doc with
  | None => true
  | Some m => on_resource resource (fun r => entries_match m (r_labels r))
  end &&
  match d_attributes doc with
  | None => true
  | Some m => entries_match m (p_attributes principal)
  end &&
  match d_ownerOnly doc with
  | Some true => on_resource resource (ownsResource principal)
  | _ => true
  end &&
  clause (d_relations doc) (fun rs =>
    on_resource resource (fun r => existsb (holds_relation r) rs)) &&
  clause (d_groups doc) (fun gs =>
    mem "*" gs || existsb (fun g => mem g (principalGroups principal)) gs) &&
  clause (d_members doc) (fun ms => existsb (fun m => mem m (principal_ids principal)) ms) &&
  forallb (fun c => conditionHolds c (lookupAttr (c_attr c) principal resource))
    (default [] (d_conditions doc)).

(** * What the parser guarantees *)

Definition condition_wf (c : Condition) : bool :=
  isAttrPath (c_attr c) &&
  match c_op c with
  | op_eq v | op_ne v => String.eqb (norm_for (c_attr c) v) v
  | op_in vs | op_notIn vs =>
      (0 <? length vs)%nat && forallb (fun v => String.eqb (norm_for (c_attr c) v) v) vs
  | _ => true
  end.

Definition doc_wf (d : PolicyDoc) : bool :=
  forallb (fun r => mem r ALLOWED_RELATIONS) (default [] (d_relations d)) &&
  forallb condition_wf (default [] (d_conditions d)).

Lemma get_field_eq k o m : get k (field k o ++ m) = match o with Some v => Some v | None => get k m end.
Proof. destruct o; simpl; [by rewrite String.eqb_refl|done]. Qed.

Lemma get_field_ne k k' o m : k <> k' -> get k (field k' o ++ m) = get k m.
Proof. intros Hk%String.eqb_neq. destruct o; simpl; by rewrite ?Hk. Qed.

Lemma get_field_last k o : get k (field k o) = o.
Proof. destruct o; simpl; by rewrite ?String.eqb_refl. Qed.

Lemma get_field_last_ne k k' o : k <> k' -> get k (field k' o) = None.
Proof. intros Hk%String.eqb_neq. destruct o; simpl; by rewrite ?Hk. Qed.

(** Reads one key of a concatenation of fields. *)
Ltac get_fields :=
  repeat first [ rewrite get_field_eq | rewrite get_field_last
               | rewrite get_field_ne by discriminate
               | rewrite get_field_last_ne by discriminate ].

Lemma all_strings_map l : all_strings (map VStr l) = Some l.
Proof. induction l as [|s l IH]; simpl; by rewrite ?IH. Qed.

Lemma check_relations_ok l : check_relations l = Ok tt <-> forallb (fun r => mem r ALLOWED_RELATIONS) l = true.
Proof. induction l as [|r l IH]; simpl; [done|]. destruct (mem r ALLOWED_RELATIONS); simpl; [exact IH|by split]. Qed.

(** Normalising an environment is idempotent: aliases map to their own names. *)
Lemma normaliseEnv_idemp v e : normaliseEnv v = Some e -> normaliseEnv (Some (VStr e)) = Some e.
Proof.
  destruct v as [[]|]; try done. unfold normaliseEnv.
  set (w := toLowerCase (trim s)).
  assert (Hw : toLowerCase (trim w) = w).
  { unfold w. by rewrite <- trim_lower, toLowerCase_idemp, trim_lower, trim_idemp. }
  destruct (String.eqb_spec w "") as [|Hne]; [done|].
  destruct (get w ENV_ALIASES) as [a|] eqn:Ea; intros [= <-].
  - simpl in Ea. repeat (destruct (String.eqb _ _); [by injection Ea as <-|]). done.
  - cbv beta zeta iota. rewrite Hw, Ea. by destruct (String.eqb_spec w "").
Qed.

Lemma norm_for_idemp attr v : norm_for attr (norm_for attr v) = norm_for attr v.
Proof.
  unfold norm_for. destruct (String.eqb attr "resource.env"); [|done].
  destruct (normaliseEnv (Some (VStr v))) as [e|] eqn:E; simpl.
  - by rewrite (normaliseEnv_idemp _ _ E).
  - by rewrite E.
Qed.

Lemma norm_all attr l : forallb (fun v => String.eqb (norm_for attr v) v) (map (norm_for attr) l) = true.
Proof. induction l as [|x l IH]; simpl; [done|]. by rewrite norm_for_idemp, String.eqb_refl. Qed.

Lemma parseCondition_wf i v c : parseCondition i v = Ok c -> condition_wf c = true.
Proof.
  unfold parseCondition, condition_wf.
  destruct v as [| | | | |o]; try done.
  destruct (get "attr" o) as [[| | |attr| |]|]; try done.
  destruct (isAttrPath attr) eqn:Ea; simpl; [|done].
  destruct (get "op" o) as [[| | |op| |]|]; try done.
  destruct (mem op CONDITION_OPS); simpl; [|done].
  destruct (String.eqb op "eq" || String.eqb op "ne").
  - destruct (get "value" o) as [[]|]; intros [= <-]; simpl; rewrite Ea;
      destruct (String.eqb op "eq"); by rewrite norm_for_idemp, String.eqb_refl.
  - destruct (String.eqb op "in" || String.eqb op "notIn").
    + destruct (get "value" o) as [[| | | |[|x l]|]|]; try done.
      destruct (all_strings (x :: l)) as [[|s ss]|] eqn:El; try done.
      { destruct x; simpl in El; try done. by destruct (all_strings l). }
      intros [= <-]. pose proof (norm_all attr (s :: ss)) as Hn. simpl in *. rewrite Ea.
      by destruct (String.eqb op "in").
    + intros [= <-]. simpl. rewrite Ea. by destruct (String.eqb op "exists").
Qed.

Lemma forallb_norm_map attr l :
  forallb (fun v => String.eqb (norm_for attr v) v) l = true -> map (norm_for attr) l = l.
Proof.
  induction l as [|x l IH]; simpl; [done|]. intros H; b2p. by rewrite H, IH.
Qed.

Lemma parseCondition_json i c : condition_wf c = true -> parseCondition i (condition_json c) = Ok c.
Proof.
  destruct c as [attr op]. unfold condition_wf, condition_json, parseCondition. simpl c_attr. simpl c_op.
  intros H. apply andb_true_iff in H as [Ha Hop].
  destruct op as [v|v|vs|vs| |]; simpl; rewrite Ha; simpl.
  1-2: apply String.eqb_eq in Hop; by rewrite Hop.
  1-2: apply andb_true_iff in Hop as [Hl Hop]; destruct vs as [|x vs]; [done|];
       simpl map; simpl all_strings; rewrite all_strings_map;
       rewrite <- (forallb_norm_map attr (x :: vs)) at 2 by done; done.
  all: done.
Qed.

Lemma parseConditions_json cs : forallb condition_wf cs = true ->
  parseConditions (VArr (map condition_json cs)) = Ok cs.
Proof.
  intros H. simpl. apply res_map_Ok.
  assert (Hg : forall n, Forall2 (fun ic y => parseCondition (fst ic) (snd ic) = Ok y)
    (imap (fun i => pair (n + i)%nat) (map condition_json cs)) cs); [|by apply (Hg 0%nat)].
  induction cs as [|c cs IH]; intros n; simpl in *; [constructor|]. b2p.
  constructor; [by apply parseCondition_json|].
  specialize (IH H0 (S n)). erewrite imap_ext; [exact IH|]. intros i x _. simpl. f_equal. lia.
Qed.

Lemma parseConditions_wf v cs : parseConditions v = Ok cs -> forallb condition_wf cs = true.
Proof.
  destruct v; try done. simpl. intros H%res_map_Ok. apply forallb_forall. intros c Hc%list_elem_of_In.
  apply list_elem_of_lookup in Hc as [i Hi].
  eapply Forall2_lookup_r in H as (x & _ & Hx); [|exact Hi]. by eapply parseCondition_wf.
Qed.

Lemma strArray_field obj key o : get key obj = option_map json_strings o -> strArray obj key = Ok o.
Proof.
  unfold strArray. intros ->. destruct o as [l|]; simpl; [|done]. by rewrite all_strings_map.
Qed.

Lemma record_field_ok obj key o : get key obj = option_map VObj o -> record_field obj key = Ok o.
Proof. unfold record_field. intros ->. by destruct o. Qed.

(** The policy parser and the JSON of a document are inverse on well-formed
    documents (known relations, attribute paths of the grammar, non-empty
    lists, normalised environments), and every document the parser returns is
    well-formed; so a stored policy re-parses to the same document. *)
Theorem parsePolicyDoc_roundtrip :
  (forall j d, parsePolicyDoc j = Ok d -> doc_wf d = true) /\
  (forall d, doc_wf d = true -> parsePolicyDoc (Some (doc_json d)) = Ok d).
Proof.
  split.
  - intros [[| | | | |obj]|] d; try done. unfold parsePolicyDoc.
    repeat setoid_rewrite res_bind_Ok.
    intros (a1 & _ & a2 & _ & a3 & _ & a4 & _ & a5 & _ & a6 & _ & rel & _ & [] & Hrel &
            a7 & _ & a8 & _ & conds & Hc & [= <-]).
    unfold doc_wf. simpl. apply andb_true_iff. split.
    + destruct rel; [by apply check_relations_ok|done].
    + destruct (get "conditions" obj); [|by injection Hc as <-].
      apply res_bind_Ok in Hc as (cs & Hcs & [= <-]). by eapply parseConditions_wf.
  - intros [a1 a2 a3 a4 a5 a6 a7 a8 a9 a10] H. unfold doc_wf in H. simpl in H.
    apply andb_true_iff in H as [Hr Hc].
    unfold parsePolicyDoc, doc_json. cbn [d_actions d_roles d_resourceTypes d_resourceLabels
      d_attributes d_ownerOnly d_relations d_groups d_members d_conditions].
    set (obj := _ ++ _).
    rewrite (strArray_field obj "actions" a1) by (unfold obj; get_fields; by destruct a1).
    rewrite (strArray_field obj "roles" a2) by (unfold obj; get_fields; by destruct a2).
    rewrite (strArray_field obj "resourceTypes" a3) by (unfold obj; get_fields; by destruct a3).
    rewrite (record_field_ok obj "resourceLabels" a4) by (unfold obj; get_fields; by destruct a4).
    rewrite (record_field_ok obj "attributes" a5) by (unfold obj; get_fields; by destruct a5).
    rewrite (strArray_field obj "relations" a7) by (unfold obj; get_fields; by destruct a7).
    rewrite (strArray_field obj "groups" a8) by (unfold obj; get_fields; by destruct a8).
    rewrite (strArray_field obj "members" a9) by (unfold obj; get_fields; by destruct a9).
    assert (Eo : get "ownerOnly" obj = option_map VBool a6) by (unfold obj; get_fields; by destruct a6).
    assert (Ec : get "conditions" obj = option_map (fun cs => VArr (map condition_json cs)) a10)
      by (unfold obj; get_fields; by destruct a10).
    rewrite Eo, Ec. clearbody obj.
    assert (Hrel : match a7 with Some l => check_relations l | None => Ok tt end = Ok tt)
      by (destruct a7; [by apply check_relations_ok|done]).
    simpl. rewrite Hrel. destruct a10 as [cs|]; simpl option_map.
    + cbv iota. rewrite parseConditions_json by done. by destruct a6.
    + by destruct a6.
Qed.

(** The default "members operate outside production" document, with an alias in
    its condition. *)
Definition sample_doc (env : string) : PolicyDoc :=
  {| d_actions := Some ["stack.deploy"]; d_roles := Some ["member"]; d_resourceTypes := None;
     d_resourceLabels := None; d_attributes := None; d_ownerOnly := Some false;
     d_relations := Some ["operator"]; d_groups := None; d_members := None;
     d_conditions := Some [{| c_attr := "resource.env"; c_op := op_ne env |}] |}.

Lemma parsePolicyDoc_roundtrip_witness :
  parsePolicyDoc (Some (doc_json (sample_doc "production"))) = Ok (sample_doc "production") /\
  parsePolicyDoc (Some (doc_json (sample_doc "PRD"))) = Ok (sample_doc "production") /\
  doc_wf (sample_doc "production") = true.
Proof.
  split; [apply (proj2 parsePolicyDoc_roundtrip); reflexivity|]. split; [reflexivity|].
  apply (proj1 parsePolicyDoc_roundtrip (Some (doc_json (sample_doc "PRD")))). reflexivity.
Defined.
