(* ===== verification/AbacEngine.v ===== *)
(** The policy engine of packages/abac (engine.ts), the seeded default policy
    set (defaults.ts) and the context the Cedar adapter computes for the same
    request (cedar.ts). *)

From S2P Require Import Prelude Comparators AbacModel AbacPolicy.

Record PolicyInput := {
  in_id : string;
  in_name : string;
  in_effect : Effect;
  in_source : option value;
  in_priority : Z;
  in_enabled : bool
}.

Inductive Verdict := Permit | Deny.
#[export] Instance Verdict_eq_dec : EqDecision Verdict.
Proof. solve_decision. Defined.

Record Decision := { decision : Verdict; policyId : option string; reasons : list string }.

(** The constructor of [JsonPolicyEngine]: throws when an enabled policy does. *)
Definition compile (policies : list PolicyInput) : res (list ParsedPolicy) :=
  res_map (fun p =>
    let! doc := parsePolicyDoc (in_source p) in
    Ok {| pp_id := in_id p; pp_name := in_name p; pp_effect := in_effect p;
          pp_priority := in_priority p; pp_doc := doc |})
    (List.filter in_enabled policies).

Definition is_effect (e : Effect) (p : ParsedPolicy) : bool := bool_decide (pp_effect p = e).

Definition by_priority : ParsedPolicy -> ParsedPolicy -> Z := cmp_desc pp_priority.

Definition evaluate (compiled : list ParsedPolicy) (req : AuthzRequest) : Decision :=
  let matches := List.filter (fun p => policyMatches p req) compiled in
  let forbids := List.filter (is_effect forbid) matches in
  match js_sort by_priority forbids with
  | top :: _ =>
      {| decision := Deny; policyId := Some (pp_id top);
         reasons := ["forbidden by policy " +:+ quoted (pp_name top)] |}
  | [] =>
      let permits := List.filter (is_effect permit) matches in
      match js_sort by_priority permits with
      | top :: _ =>
          {| decision := Permit; policyId := Some (pp_id top);
             reasons := ["permitted by policy " +:+ quoted (pp_name top)] |}
      | [] => {| decision := Deny; policyId := None; reasons := ["no matching permit (default deny)"] |}
      end
  end.

(** * Default policies (defaults.ts) *)

Record DefaultPolicySpec := {
  s_key : string;
  s_name : string;
  s_effect : Effect;
  s_priority : Z;
  s_doc : PolicyDoc
}.

Definition NON_PRODUCTION : Condition := {| c_attr := "resource.env"; c_op := op_ne "production" |}.

Definition roles_actions (roles actions : list string) (conds : option (list Condition)) : PolicyDoc :=
  {| d_actions := Some actions; d_roles := Some roles; d_resourceTypes := None;
     d_resourceLabels := None; d_attributes := None; d_ownerOnly := None; d_relations := None;
     d_groups := None; d_members := None; d_conditions := conds |}.

Definition MEMBER_READ_ACTIONS : list string :=
  [ "node.read"; "service.read"; "stack.read"; "ingress.read"; "member.read"; "policy.read";
    "authconfig.read" ].

Definition MEMBER_SAFE_OPS : list string :=
  [ "node.drain"; "node.setLabels"; "service.deploy"; "service.configure"; "service.scale";
    "service.restart"; "stack.deploy"; "ingress.write" ].

Definition OPERATOR_OPS : list string :=
  [ "service.deploy"; "service.configure"; "service.scale"; "service.restart"; "stack.deploy";
    "node.drain" ].

Definition DEFAULT_POLICY_SPECS : list DefaultPolicySpec :=
  [ {| s_key := "owner-superuser"; s_name := "Owners can do anything"; s_effect := permit;
       s_priority := 100; s_doc := roles_actions ["owner"] ["*"] None |};
    {| s_key := "admin-superuser"; s_name := "Admins can do anything"; s_effect := permit;
       s_priority := 90; s_doc := roles_actions ["admin"] ["*"] None |};
    {| s_key := "member-read"; s_name := "Members can read"; s_effect := permit;
       s_priority := 50; s_doc := roles_actions ["member"] MEMBER_READ_ACTIONS None |};
    {| s_key := "member-safe-ops"; s_name := "Members can deploy and operate outside production";
       s_effect := permit; s_priority := 40;
       s_doc := roles_actions ["member"] MEMBER_SAFE_OPS (Some [NON_PRODUCTION]) |};
    {| s_key := "member-mesh-nonprod"; s_name := "Members can connect to non-production stacks";
       s_effect := permit; s_priority := 38;
       s_doc := roles_actions ["member"] ["mesh.connect"] (Some [NON_PRODUCTION]) |};
    {| s_key := "member-data-read-nonprod"; s_name := "Members can read non-production databases";
       s_effect := permit; s_priority := 37;
       s_doc := roles_actions ["member"] ["data.read"] (Some [NON_PRODUCTION]) |};
    {| s_key := "member-ai-use"; s_name := "Members can use AI models"; s_effect := permit;
       s_priority := 36; s_doc := roles_actions ["member"] ["ai.use"] None |};
    {| s_key := "operator-resource-ops"; s_name := "Resource operators can operate their resources";
       s_effect := permit; s_priority := 45;
       s_doc := {| d_actions := Some OPERATOR_OPS; d_roles := None; d_resourceTypes := None;
                   d_resourceLabels := None; d_attributes := None; d_ownerOnly := None;
                   d_relations := Some ["operator"; "owner"]; d_groups := None;
                   d_members := None; d_conditions := None |} |} ].

(** [JsonPolicyEngine.withDefaults()] *)
Definition withDefaults : res (list ParsedPolicy) :=
  compile (map (fun s =>
    {| in_id := "default:" +:+ s_key s; in_name := s_name s; in_effect := s_effect s;
       in_source := Some (doc_json (s_doc s)); in_priority := s_priority s; in_enabled := true |})
    DEFAULT_POLICY_SPECS).

(** The default rows as stored (defaultPolicyInputs), keyed by [s_key]. *)
Definition defaultPolicyInputs : list (string * PolicyInput) :=
  map (fun s => (s_key s,
    {| in_id := ""; in_name := s_name s; in_effect := s_effect s;
       in_source := Some (doc_json (s_doc s)); in_priority := s_priority s; in_enabled := true |}))
    DEFAULT_POLICY_SPECS.

(** * The Cedar context (cedar.ts) *)

Record CedarContext := {
  cx_userId : string;
  cx_memberId : string;
  cx_groups : list string;
  cx_attrs : list (string * list string);
  cx_action : string;
  cx_roles : list Role;
  cx_attributes : attrs;
  cx_hasResource : bool;
  cx_resourceType : string;
  cx_labels : attrs;
  cx_relations : list Relation;
  cx_isOwner : bool
}.

Definition referencedAttrs (docs : list PolicyDoc) : list string :=
  js_set (concat (map (fun d => map c_attr (default [] (d_conditions d))) docs)).

Definition cedar_isOwner (p : Principal) (r : option Resource) : bool :=
  match r with
  | Some r =>
      holds_relation r "owner" ||
      truthy (r_ownerMemberId r)
        (fun o => match p_memberId p with Some m => String.eqb o m | None => false end)
  | None => false
  end.

Definition buildCedarContext (req : AuthzRequest) (attrPaths : list string) : CedarContext :=
  let p := q_principal req in
  let r := q_resource req in
  {| cx_userId := p_userId p;
     cx_memberId := default "" (p_memberId p);
     cx_groups := principalGroups p;
     cx_attrs := concat (map (fun path =>
       match lookupAttr path p r with [] => [] | vs => [(path, vs)] end) attrPaths);
     cx_action := q_action req;
     cx_roles := p_roles p;
     cx_attributes := p_attributes p;
     cx_hasResource := match r with Some _ => true | None => false end;
     cx_resourceType := match r with Some r => r_type r | None => "" end;
     cx_labels := match r with Some r => r_labels r | None => [] end;
     cx_relations := match r with Some r => default [] (r_principalRelations r) | None => [] end;
     cx_isOwner := cedar_isOwner p r |}.

(** * Deciding policies *)

Definition applies (ps : list ParsedPolicy) (req : AuthzRequest) (e : Effect) (p : ParsedPolicy) : Prop :=
  p ∈ ps /\ policyMatches p req = true /\ pp_effect p = e.

Lemma applies_filter ps req e p :
  p ∈ List.filter (is_effect e) (List.filter (fun p => policyMatches p req) ps) <->
  applies ps req e p.
Proof.
  rewrite !list_elem_of_In, !filter_In, <- list_elem_of_In. unfold applies, is_effect.
  rewrite bool_decide_eq_true. tauto.
Qed.

(** The reported policy: applies, and no other applying policy of its effect
    has a higher priority. *)
Definition deciding ps req e p : Prop :=
  applies ps req e p /\ forall q, applies ps req e q -> pp_priority q <= pp_priority p.

Lemma top_deciding ps req e p l :
  js_sort by_priority (List.filter (is_effect e) (List.filter (fun p => policyMatches p req) ps)) = p :: l ->
  deciding ps req e p.
Proof.
  intros H. apply js_sort_head in H as (Hp & Hmin & _); [|apply _].
  split; [by apply applies_filter|]. intros q Hq%applies_filter.
  specialize (Hmin q Hq). unfold by_priority, cmp_desc in Hmin. lia.
Qed.

Lemma top_none ps req e :
  js_sort by_priority (List.filter (is_effect e) (List.filter (fun p => policyMatches p req) ps)) = [] ->
  forall p, ~ applies ps req e p.
Proof. intros H%js_sort_nil p Hp%applies_filter. rewrite H in Hp. by apply not_elem_of_nil in Hp. Qed.

Definition evaluate_case ps req : Prop :=
  (exists p, deciding ps req forbid p /\ decision (evaluate ps req) = Deny /\
             policyId (evaluate ps req) = Some (pp_id p)) \/
  ((forall q, ~ applies ps req forbid q) /\
   exists p, deciding ps req permit p /\ decision (evaluate ps req) = Permit /\
             policyId (evaluate ps req) = Some (pp_id p)) \/
  ((forall q, ~ applies ps req forbid q) /\ (forall q, ~ applies ps req permit q) /\
   decision (evaluate ps req) = Deny /\ policyId (evaluate ps req) = None).

(** C14: every evaluation falls in exactly one of three cases: a matching forbid
    exists and a highest-priority one is reported as the denial; no forbid
    matches and a highest-priority matching permit is reported; nothing matches
    and the request is denied without a policy. *)
Theorem evaluate_forbid_wins ps req : evaluate_case ps req.
Proof.
  unfold evaluate_case, evaluate.
  destruct (js_sort by_priority (List.filter (is_effect forbid) _)) as [|f fs] eqn:Ef.
  - pose proof (top_none _ _ _ Ef) as Hnf. right.
    destruct (js_sort by_priority (List.filter (is_effect permit) _)) as [|p l] eqn:Ep.
    + right. by pose proof (top_none _ _ _ Ep).
    + left. split; [done|]. exists p. split; [by eapply top_deciding|done].
  - left. exists f. split; [by eapply top_deciding|done].
Qed.

Lemma evaluate_permit_iff ps req :
  decision (evaluate ps req) = Permit <->
  (exists p, applies ps req permit p) /\ (forall p, ~ applies ps req forbid p).
Proof.
  unfold evaluate.
  destruct (js_sort by_priority (List.filter (is_effect forbid) _)) as [|f fs] eqn:Ef.
  - pose proof (top_none _ _ _ Ef) as Hnf.
    destruct (js_sort by_priority (List.filter (is_effect permit) _)) as [|p l] eqn:Ep; simpl.
    + pose proof (top_none _ _ _ Ep) as Hnp. split; [done|]. intros [[p Hp] _]. by destruct (Hnp p).
    + split; [|done]. intros _. split; [|done]. exists p. by apply top_deciding in Ep as [? _].
  - simpl. split; [done|]. intros [_ Hn]. apply top_deciding in Ef as [Hf _]. by destruct (Hn f).
Qed.

(** The decision depends only on which policies are stored, not on their
    order or multiplicity, and storing one more forbid policy never turns a
    denial into a permit. *)
Theorem evaluate_order_and_restriction :
  (forall ps qs req, (forall p, p ∈ ps <-> p ∈ qs) ->
     decision (evaluate ps req) = decision (evaluate qs req)) /\
  (forall ps f req, pp_effect f = forbid ->
     decision (evaluate (f :: ps) req) = Permit -> decision (evaluate ps req) = Permit).
Proof.
  split.
  - intros ps qs req H.
    assert (Hi : decision (evaluate ps req) = Permit <-> decision (evaluate qs req) = Permit).
    { rewrite !evaluate_permit_iff. unfold applies. setoid_rewrite H. done. }
    destruct (decision (evaluate ps req)), (decision (evaluate qs req)); naive_solver.
  - intros ps f req Hf. rewrite !evaluate_permit_iff. unfold applies.
    intros [(p & Hp & Hm & He) Hn]. split.
    + apply elem_of_cons in Hp as [->|Hp]; [congruence|]. by exists p.
    + intros q (Hq & Hq'). apply (Hn q). split; [by right|done].
Qed.

#[export] Instance evaluate_proper :
  Proper (Permutation ==> eq ==> eq) (fun ps req => decision (evaluate ps req)).
Proof. intros ps qs Hp req _ <-. apply evaluate_order_and_restriction. intros p. by rewrite Hp. Qed.

(** * What the default policies grant *)

(** The compiled default set: the specs themselves, since each document is
    well-formed and so re-parses to itself. *)
Definition default_policies : list ParsedPolicy :=
  map (fun s => {| pp_id := "default:" +:+ s_key s; pp_name := s_name s; pp_effect := s_effect s;
                   pp_priority := s_priority s; pp_doc := s_doc s |}) DEFAULT_POLICY_SPECS.

Lemma withDefaults_ok : withDefaults = Ok default_policies.
Proof. vm_compute. reflexivity. Qed.

Definition env_is_production (req : AuthzRequest) : Prop :=
  resourceEnv (q_resource req) = Some "production".

(** The principal operates the target: a resolved operator or owner relation. *)
Definition is_operator (req : AuthzRequest) : Prop :=
  exists r, q_resource req = Some r /\
    (rel_operator ∈ default [] (r_principalRelations r) \/ rel_owner ∈ default [] (r_principalRelations r)).

Lemma holds_relation_iff r rel :
  holds_relation r (relation_str rel) = true <-> rel ∈ default [] (r_principalRelations r).
Proof.
  unfold holds_relation. rewrite mem_In, list_elem_of_fmap. split.
  - intros (rel' & E & H). by destruct rel, rel'.
  - intros H. by exists rel.
Qed.

Lemma not_production req :
  conditionHolds NON_PRODUCTION (lookupAttr "resource.env" (q_principal req) (q_resource req)) = true
  <-> ~ env_is_production req.
Proof. by apply env_ne_holds. Qed.

(** A spec of the shape [roles, actions, conditions] for one role. *)
Lemma roles_actions_match id name eff prio role actions conds req :
  mem "*" actions = false -> actions <> [] -> role <> "*" ->
  policyMatches {| pp_id := id; pp_name := name; pp_effect := eff; pp_priority := prio;
                   pp_doc := roles_actions [role] actions conds |} req = true <->
  q_action req ∈ actions /\ role ∈ map role_str (p_roles (q_principal req)) /\
  forallb (fun c => conditionHolds c (lookupAttr (c_attr c) (q_principal req) (q_resource req)))
    (default [] conds) = true.
Proof.
  intros Hstar Hne Hr. unfold policyMatches. cbn [pp_doc roles_actions d_actions d_roles
    d_resourceTypes d_resourceLabels d_attributes d_ownerOnly d_relations d_groups d_members
    d_conditions clause].
  rewrite !andb_true_r, !andb_true_iff.
  assert (Hl : listMatches (Some actions) (q_action req) = true <-> q_action req ∈ actions).
  { unfold listMatches. destruct actions; [done|]. by rewrite Hstar, <- mem_In. }
  assert (Hs : mem "*" [role] = false) by (apply mem_false; rewrite list_elem_of_singleton; congruence).
  rewrite Hl, Hs. simpl. rewrite orb_false_r, mem_In. tauto.
Qed.

Lemma superuser_match id name eff prio role req :
  role <> "*" ->
  policyMatches {| pp_id := id; pp_name := name; pp_effect := eff; pp_priority := prio;
                   pp_doc := roles_actions [role] ["*"] None |} req = true <->
  role ∈ map role_str (p_roles (q_principal req)).
Proof.
  intros Hr. unfold policyMatches. cbn [pp_doc roles_actions d_actions d_roles
    d_resourceTypes d_resourceLabels d_attributes d_ownerOnly d_relations d_groups d_members
    d_conditions clause listMatches].
  rewrite !andb_true_r.
  assert (Hs : mem "*" [role] = false) by (apply mem_false; rewrite list_elem_of_singleton; congruence).
  rewrite Hs. simpl. by rewrite orb_false_r, mem_In.
Qed.

Lemma operator_match id name eff prio doc req :
  d_actions doc = Some OPERATOR_OPS -> d_relations doc = Some ["operator"; "owner"] ->
  doc = {| d_actions := d_actions doc; d_roles := None; d_resourceTypes := None;
           d_resourceLabels := None; d_attributes := None; d_ownerOnly := None;
           d_relations := d_relations doc; d_groups := None; d_members := None;
           d_conditions := None |} ->
  policyMatches {| pp_id := id; pp_name := name; pp_effect := eff; pp_priority := prio;
                   pp_doc := doc |} req = true <->
  q_action req ∈ OPERATOR_OPS /\ is_operator req.
Proof.
  intros Ha Hr ->. unfold policyMatches. cbn [pp_doc d_actions d_roles d_resourceTypes
    d_resourceLabels d_attributes d_ownerOnly d_relations d_groups d_members d_conditions].
  rewrite Ha, Hr. cbn [clause default]. simpl forallb. rewrite !andb_true_r, andb_true_iff.
  assert (Hl : listMatches (Some OPERATOR_OPS) (q_action req) = true <-> q_action req ∈ OPERATOR_OPS)
    by (rewrite <- mem_In; done).
  rewrite Hl. unfold is_operator. destruct (q_resource req) as [r|]; simpl; [|naive_solver].
  rewrite orb_false_r, orb_true_iff, (holds_relation_iff r rel_operator), (holds_relation_iff r rel_owner).
  naive_solver.
Qed.

Lemma defaults_permit_iff req :
  decision (evaluate default_policies req) = Permit <->
  Exists (fun p => policyMatches p req = true) default_policies.
Proof.
  rewrite evaluate_permit_iff, Exists_exists. unfold applies. split.
  - intros [(p & ? & ? & ?) _]. by exists p.
  - intros (p & Hp & Hm).
    assert (He : forall q, q ∈ default_policies -> pp_effect q = permit).
    { apply Forall_forall. by repeat constructor. }
    split; [exists p; auto|]. intros q (Hq & _ & Hf). rewrite He in Hf; done.
Qed.

(** Under the seeded defaults a principal whose only role is member is
    permitted exactly the read actions, calling AI models, the safe operations
    plus mesh connection and data reads outside production, and, on a resource
    it operates or owns, the operator operations whatever the environment.
    Hence production deploys, terminals, secrets and every destructive action
    need an explicit grant. *)
Theorem defaults_member_exact req :
  p_roles (q_principal req) = [role_member] ->
  decision (evaluate default_policies req) = Permit <->
  q_action req ∈ MEMBER_READ_ACTIONS \/ q_action req = "ai.use" \/
  (~ env_is_production req /\
   q_action req ∈ MEMBER_SAFE_OPS ++ ["mesh.connect"; "data.read"]) \/
  (q_action req ∈ OPERATOR_OPS /\ is_operator req).
Proof.
  intros Hroles. rewrite defaults_permit_iff.
  unfold default_policies, DEFAULT_POLICY_SPECS. simpl map. simpl append.
  cbn [s_key s_name s_effect s_priority s_doc].
  rewrite !Exists_cons, Exists_nil.
  rewrite !superuser_match by done.
  rewrite !roles_actions_match by done.
  rewrite operator_match by done.
  rewrite Hroles. cbn [map role_str from_option id forallb]. rewrite !list_elem_of_singleton, ?andb_true_r.
  cbn [c_attr NON_PRODUCTION]. rewrite !(not_production req), elem_of_app, !elem_of_cons, !elem_of_nil.
  intuition discriminate.
Qed.

(** [withDefaults] never throws, and under the defaults an owner or an
    admin is permitted every action on every resource. *)
Theorem defaults_superusers :
  withDefaults = Ok default_policies /\
  forall req, role_owner ∈ p_roles (q_principal req) \/ role_admin ∈ p_roles (q_principal req) ->
    decision (evaluate default_policies req) = Permit.
Proof.
  split; [apply withDefaults_ok|]. intros req H. rewrite defaults_permit_iff.
  unfold default_policies, DEFAULT_POLICY_SPECS. simpl map. simpl append.
  cbn [s_key s_name s_effect s_priority s_doc].
  rewrite !Exists_cons. rewrite !superuser_match by done.
  assert (Hin : forall r, r ∈ p_roles (q_principal req) -> role_str r ∈ map role_str (p_roles (q_principal req)))
    by (intros r Hr; apply list_elem_of_fmap; by exists r).
  destruct H as [H%Hin|H%Hin]; simpl in H; tauto.
Qed.

(** The ownership test of the JSON engine is the Cedar context's [isOwner]
    extended by two cases the Cedar context drops, ownership by user id and by
    team; they differ on the resource below, owned by the principal's team. *)
Theorem cedar_isOwner_misses_cases :
  (forall p r, ownsResource p r =
    cedar_isOwner p (Some r) ||
    truthy (r_ownerMemberId r) (String.eqb (p_userId p)) ||
    truthy (r_ownerTeamId r) (fun t => mem t (principalTeamIds p))) /\
  (exists p r, ownsResource p r = true /\
    cx_isOwner (buildCedarContext {| q_principal := p; q_action := "stack.deploy"; q_resource := Some r |} []) = false).
Proof.
  split.
  - intros p r. unfold ownsResource, cedar_isOwner. destruct (holds_relation r "owner"); [done|].
    unfold truthy at 1 3 4. destruct (r_ownerMemberId r) as [o|]; [|by destruct (truthy _ _)].
    rewrite (String.eqb_sym o (p_userId p)). destruct (negb (String.eqb o "")); simpl; [|done].
    destruct (match p_memberId p with Some m => String.eqb o m | None => false end),
      (String.eqb (p_userId p) o); done.
  - exists {| p_userId := "u1"; p_memberId := Some "m1"; p_orgId := "o"; p_roles := [role_member];
              p_teamIds := Some ["team"]; p_groups := None; p_attributes := [] |},
      {| r_type := "stack"; r_id := "s"; r_orgId := "o"; r_labels := []; r_env := None;
         r_ownerMemberId := None; r_ownerTeamId := Some "team"; r_principalRelations := None |}.
    done.
Qed.

(** * Witnesses *)

(** A member deploying a stack whose environment label is [env], holding [rels]
    on it. *)
Definition sample_req (roles : list Role) (env : string) (rels : list Relation) : AuthzRequest :=
  {| q_principal :=
       {| p_userId := "u1"; p_memberId := Some "m1"; p_orgId := "o"; p_roles := roles;
          p_teamIds := None; p_groups := None; p_attributes := [] |};
     q_action := "stack.deploy";
     q_resource := Some
       {| r_type := "stack"; r_id := "shop"; r_orgId := "o"; r_labels := [(ENV_LABEL, VStr env)];
          r_env := None; r_ownerMemberId := None; r_ownerTeamId := None;
          r_principalRelations := Some rels |} |}.

Lemma defaults_member_exact_witness :
  decision (evaluate default_policies (sample_req [role_member] "staging" [])) = Permit /\
  decision (evaluate default_policies (sample_req [role_member] "Live " [])) <> Permit /\
  decision (evaluate default_policies (sample_req [role_member] "Live " [rel_operator])) = Permit.
Proof.
  split; [|split].
  - apply (defaults_member_exact (sample_req [role_member] "staging" [])); [reflexivity|].
    right. right. left. split; [discriminate|]. apply mem_In. reflexivity.
  - intros H.
    apply (defaults_member_exact (sample_req [role_member] "Live " []) eq_refl) in H.
    destruct H as [H|[H|[[H _]|[_ (r & Hr & H)]]]].
    + apply mem_In in H. discriminate.
    + discriminate.
    + apply H. reflexivity.
    + injection Hr as <-. simpl in H. destruct H as [H|H]; by apply not_elem_of_nil in H.
  - apply (defaults_member_exact (sample_req [role_member] "Live " [rel_operator])); [reflexivity|].
    right. right. right. split; [apply mem_In; reflexivity|].
    eexists. split; [reflexivity|]. left. left.
Defined.

Lemma defaults_superusers_witness :
  decision (evaluate default_policies (sample_req [role_admin] "production" [])) = Permit.
Proof. apply (proj2 defaults_superusers). right. left. Defined.

Definition forbid_paid_ai : ParsedPolicy :=
  {| pp_id := "f"; pp_name := "no paid models"; pp_effect := forbid; pp_priority := 10;
     pp_doc := roles_actions ["member"] ["ai.use"] None |}.

Lemma evaluate_order_and_restriction_witness :
  decision (evaluate (reverse default_policies) (sample_req [role_member] "staging" [])) = Permit /\
  decision (evaluate default_policies (sample_req [role_member] "staging" [])) = Permit.
Proof.
  split.
  - rewrite (proj1 evaluate_order_and_restriction _ default_policies); [vm_compute; reflexivity|].
    intros p. by rewrite reverse_Permutation.
  - apply (proj2 evaluate_order_and_restriction _ forbid_paid_ai); vm_compute; reflexivity.
Defined.
