(* ===== verification/DnsSteer.v ===== *)
(** Geo steering (packages/dns/src/steer.ts): picking the closest healthy
    targets for a client, with deterministic failover.

    A coordinate is a pair of rationals.  [steer] compares distances only, so
    it is generic in a type of distances with a comparator and in the distance
    between two coordinates ([haversineKm], floating-point trigonometry): the
    results hold for every such distance.  [Infinity], the distance to a region
    without coordinates, is [None]. *)

From Stdlib Require Export QArith Qabs.
From S2P Require Import Prelude AbacModel Comparators.
Open Scope Z_scope.

Record LatLon := { lat : Q; lon : Q }.

Definition ll (a b : Q) : LatLon := {| lat := a; lon := b |}.

Definition REGION_COORDS : list (string * LatLon) :=
  [ ("us-east", ll (390#10) (-775#10)); ("us-east-1", ll (390#10) (-775#10));
    ("us-west", ll (456#10) (-1212#10)); ("us-west-1", ll (374#10) (-1221#10));
    ("us-central", ll (413#10) (-959#10)); ("ca-central", ll (455#10) (-736#10));
    ("sa-east", ll (-235#10) (-466#10)); ("eu-west", ll (533#10) (-63#10));
    ("eu-west-1", ll (533#10) (-63#10)); ("eu-central", ll (501#10) (87#10));
    ("eu-north", ll (593#10) (181#10)); ("eu-south", ll (455#10) (92#10));
    ("me-south", ll (261#10) (506#10)); ("af-south", ll (-339#10) (184#10));
    ("ap-south", ll (191#10) (729#10)); ("ap-southeast", ll (13#10) (1038#10));
    ("ap-northeast", ll (357#10) (1397#10)); ("ap-east", ll (223#10) (1142#10)) ].

Definition CONTINENT_COORDS : list (string * LatLon) :=
  [ ("us", ll (398#10) (-986#10)); ("ca", ll (561#10) (-1063#10)); ("sa", ll (-142#10) (-519#10));
    ("eu", ll (500#10) (100#10)); ("me", ll (260#10) (500#10)); ("af", ll (-88#10) (345#10));
    ("ap", ll (220#10) (1000#10)) ].

(** [s.split('-')[0]] *)
Fixpoint before_dash (s : string) : string :=
  match s with
  | EmptyString => EmptyString
  | String c s' => if Ascii.eqb c "-" then EmptyString else String c (before_dash s')
  end.

Definition parseRegionCoord (region : string) : option LatLon :=
  get (before_dash region) CONTINENT_COORDS.

Definition regionCoord (region : string) : option LatLon :=
  let key := toLowerCase (trim region) in
  match get key REGION_COORDS with
  | Some c => Some c
  | None => parseRegionCoord key
  end.

Record SteerTarget := {
  t_target : string;
  t_region : string;
  t_healthy : bool;
  t_weight : option Q
}.

Record ClientLocation := { cl_coord : option LatLon; cl_region : option string }.

Record SteerResult := {
  sr_answers : list SteerTarget;
  sr_degraded : bool;
  sr_unlocated : bool
}.

(** [client.region] is tested for truthiness: an empty label is no label. *)
Definition clientCoord (client : ClientLocation) : option LatLon :=
  match cl_coord client with
  | Some c => Some c
  | None =>
      match cl_region client with
      | Some r => if String.eqb r "" then None else regionCoord r
      | None => None
      end
  end.

Section steer.
Context {D : Type} (dcmp : D -> D -> Z) (haversineKm : LatLon -> LatLon -> D).

(** [da !== db ? da - db : 0] on distances that may be [Infinity]. *)
Definition dist_cmp (a b : option D) : Z :=
  match a, b with
  | Some x, Some y => dcmp x y
  | Some _, None => -1
  | None, Some _ => 1
  | None, None => 0
  end.

Definition regionDistanceKm (from to : string) : option D :=
  match regionCoord from, regionCoord to with
  | Some a, Some b => Some (haversineKm a b)
  | _, _ => None
  end.

(** Distance ordering: neutral when the client is not located. *)
Definition by_distance (anchor : option LatLon) (a b : SteerTarget) : Z :=
  match anchor with
  | None => 0
  | Some c =>
      let dist t := option_map (haversineKm c) (regionCoord (t_region t)) in
      cmp_on dist dist_cmp a b
  end.

Definition by_weight (a b : SteerTarget) : Z :=
  cmp_on (fun t => default 1%Q (t_weight t)) (fun wa wb => q_cmp wb wa) a b.

Definition rank_cmp (anchor : option LatLon) : SteerTarget -> SteerTarget -> Z :=
  cmp_then (cmp_true_first t_healthy)
    (cmp_then (by_distance anchor)
      (cmp_then by_weight
        (cmp_then (cmp_on t_region str_cmp) (cmp_on t_target str_cmp)))).

Definition steer (client : ClientLocation) (targets : list SteerTarget)
    (maxAnswers : option Z) : SteerResult :=
  let max := Z.max 1 (default 2 maxAnswers) in
  let anchor := clientCoord client in
  let ranked := js_sort (rank_cmp anchor) targets in
  let healthy := List.filter t_healthy ranked in
  let degraded := match healthy, ranked with [], _ :: _ => true | _, _ => false end in
  let pool := if degraded then ranked else healthy in
  {| sr_answers := take (Z.to_nat max) pool;
     sr_degraded := degraded;
     sr_unlocated := match anchor with None => true | Some _ => false end |}.

(** * Properties *)

Context `{!Comparator dcmp}.

#[local] Instance dist_cmp_comparator : Comparator dist_cmp.
Proof using Type*.
  split; unfold dist_cmp.
  - intros [x|] [y|]; simpl; try done. apply cmp_opp.
  - intros [x|] [y|] [z|]; simpl; try done; try lia. apply cmp_trans.
Qed.

#[local] Instance by_distance_comparator anchor : Comparator (by_distance anchor).
Proof using Type*.
  destruct anchor as [c|]; [|by split].
  apply (cmp_on_comparator (fun t => option_map (haversineKm c) (regionCoord (t_region t)))).
  apply _.
Qed.

#[local] Instance by_weight_comparator : Comparator by_weight.
Proof using Type.
  apply (cmp_on_comparator (fun t => default 1%Q (t_weight t))). split.
  - intros a b. apply cmp_opp.
  - intros a b d H1 H2. by apply (cmp_trans (c:=q_cmp) d b a).
Qed.

#[local] Instance rank_cmp_comparator anchor : Comparator (rank_cmp anchor).
Proof using Type*. unfold rank_cmp. apply _. Qed.

Lemma rank_tie anchor a b :
  rank_cmp anchor a b = 0 -> t_region a = t_region b /\ t_target a = t_target b.
Proof using Type.
  unfold rank_cmp, cmp_then at 1 2 3 4.
  repeat match goal with |- context [if Z.eqb ?x 0 then _ else _] => destruct (Z.eqb_spec x 0) end;
    try done.
  intros H. split; [by apply str_cmp_eq|by apply str_cmp_eq].
Qed.

Lemma rank_healthy anchor a b :
  rank_cmp anchor a b <= 0 -> t_healthy b = true -> t_healthy a = true.
Proof using Type.
  unfold rank_cmp, cmp_then at 1, cmp_true_first. destruct (t_healthy a), (t_healthy b); simpl; try done.
Qed.

(** The pool: the healthy targets, or all of them when none is healthy. *)
Definition pool_of (targets : list SteerTarget) : list SteerTarget :=
  match List.filter t_healthy targets with [] => targets | h => h end.

Lemma pool_of_elem targets t : t ∈ pool_of targets -> t ∈ targets.
Proof using Type.
  unfold pool_of. destruct (List.filter t_healthy targets) eqn:E; [done|].
  rewrite <- E, bfilter_elem. tauto.
Qed.

Lemma pool_of_healthy targets t h :
  t ∈ pool_of targets -> h ∈ targets -> t_healthy h = true -> t_healthy t = true.
Proof using Type.
  unfold pool_of. intros Ht Hh1 Hh2. destruct (List.filter t_healthy targets) as [|x l] eqn:E.
  - rewrite (proj1 (bfilter_nil t_healthy targets) E h Hh1) in Hh2. done.
  - rewrite <- E, bfilter_elem in Ht. tauto.
Qed.

Lemma pool_of_contains targets h : h ∈ targets -> t_healthy h = true -> h ∈ pool_of targets.
Proof using Type.
  intros H1 H2. unfold pool_of. destruct (List.filter t_healthy targets) eqn:E; [done|].
  by rewrite <- E, bfilter_elem.
Qed.

Lemma pool_of_nil targets : pool_of targets = [] <-> targets = [].
Proof using Type.
  unfold pool_of. split; [|by intros ->]. by destruct (List.filter t_healthy targets).
Qed.

Lemma steer_pool client targets maxAnswers :
  exists pool, pool ≡ₚ pool_of targets /\
    StronglySorted (le_by (rank_cmp (clientCoord client))) pool /\
    sr_answers (steer client targets maxAnswers) =
      take (Z.to_nat (Z.max 1 (default 2 maxAnswers))) pool.
Proof using Type*.
  set (c := rank_cmp (clientCoord client)).
  pose proof (js_sort_sorted c targets) as Hsorted.
  pose proof (js_sort_perm c targets) as Hperm.
  pose proof (bfilter_perm t_healthy _ _ Hperm) as Hf.
  unfold steer, pool_of. fold c. simpl sr_answers.
  destruct (List.filter t_healthy (js_sort c targets)) as [|h hs] eqn:Eh.
  - apply Permutation_nil_l in Hf. rewrite <- Hf. exists (js_sort c targets).
    split; [done|]. split; [done|]. by destruct (js_sort c targets).
  - exists (h :: hs). split.
    + destruct (List.filter t_healthy targets); [by apply Permutation_nil_r in Hf|done].
    + split; [rewrite <- Eh; by apply bfilter_sorted|done].
Qed.

Lemma steer_degraded client targets maxAnswers :
  sr_degraded (steer client targets maxAnswers) = true <->
  targets <> [] /\ forall t, t ∈ targets -> t_healthy t = false.
Proof using Type*.
  unfold steer. simpl. set (c := rank_cmp (clientCoord client)).
  rewrite <- bfilter_nil.
  pose proof (js_sort_perm c targets) as Hperm.
  pose proof (bfilter_perm t_healthy _ _ Hperm) as Hf.
  destruct (List.filter t_healthy (js_sort c targets)) as [|x l] eqn:E.
  - apply Permutation_nil_l in Hf. rewrite <- Hf.
    destruct (js_sort c targets) as [|y s] eqn:Es.
    + apply js_sort_nil in Es. naive_solver.
    + split; [|done]. intros _. split; [|done]. intros ->. done.
  - split; [done|]. intros [_ Hnil]. rewrite Hnil in Hf. by apply Permutation_nil_r in Hf.
Qed.

(** What a set of answers [r] for [targets] must satisfy. *)
Definition steer_ok (client : ClientLocation) (targets : list SteerTarget)
    (maxAnswers : option Z) (r : SteerResult) : Prop :=
  length (sr_answers r) =
    (Z.to_nat (Z.max 1 (default 2%Z maxAnswers)) `min` length (pool_of targets))%nat /\
  (targets <> [] -> sr_answers r <> []) /\
  (forall t, t ∈ sr_answers r -> t ∈ targets) /\
  (forall t h, t ∈ sr_answers r -> h ∈ targets -> t_healthy h = true -> t_healthy t = true) /\
  StronglySorted (le_by (rank_cmp (clientCoord client))) (sr_answers r) /\
  (forall t o, t ∈ sr_answers r -> o ∈ targets -> t_healthy o = true -> o ∉ sr_answers r ->
     rank_cmp (clientCoord client) t o <= 0) /\
  (sr_degraded r = true <-> targets <> [] /\ forall t, t ∈ targets -> t_healthy t = false).

Lemma steer_correct client targets maxAnswers :
  steer_ok client targets maxAnswers (steer client targets maxAnswers).
Proof using Type*.
  pose proof (steer_degraded client targets maxAnswers) as Hdeg.
  destruct (steer_pool client targets maxAnswers) as (pool & Hp & Hs & Ha).
  unfold steer_ok. rewrite Ha.
  set (n := Z.to_nat (Z.max 1 (default 2 maxAnswers))) in *.
  assert (Hn : (1 <= n)%nat) by (unfold n; lia). clearbody n.
  split_and!; [| | | | | |exact Hdeg].
  - by rewrite length_take, Hp.
  - intros Hne Hnil. apply Hne, pool_of_nil. symmetry. apply Permutation_nil_l. rewrite <- Hp.
    destruct pool; [done|]. destruct n; [lia|done].
  - intros t Ht%take_elem. apply pool_of_elem. by rewrite <- Hp.
  - intros t h Ht%take_elem. apply pool_of_healthy. by rewrite <- Hp.
  - rewrite <- (take_drop n pool) in Hs. by apply StronglySorted_app in Hs as (? & ? & ?).
  - intros t o Ht Ho Hoh Hno.
    assert (Hop : o ∈ pool) by (rewrite Hp; by apply pool_of_contains).
    rewrite <- (take_drop n pool) in Hs, Hop. apply elem_of_app in Hop as [?|Hop]; [done|].
    apply StronglySorted_app in Hs as (Hs & _ & _). by apply Hs.
Qed.

(** Targets that no two share a region and an address are steered alike in
    whatever order they are listed. *)
Lemma steer_perm client ts ts' maxAnswers :
  (forall a b, a ∈ ts -> b ∈ ts -> t_region a = t_region b -> t_target a = t_target b -> a = b) ->
  ts ≡ₚ ts' -> steer client ts maxAnswers = steer client ts' maxAnswers.
Proof using Type*.
  intros Huniq Hp. unfold steer.
  rewrite (js_sort_canonical (rank_cmp (clientCoord client)) ts ts'); [done| |done].
  intros a b Ha Hb [H1 H2]%rank_tie. by apply Huniq.
Qed.
End steer.

(** Steering returns the best [maxAnswers] (at least one) of the healthy
    targets, or of all of them when none is healthy, in rank order; nothing
    healthy that was left out ranks before a returned target; the result is
    never empty on a non-empty input, never mixes in an unhealthy target while
    a healthy one exists, flags degradation exactly when none is healthy, and
    does not depend on the order in which distinct targets are listed. *)
Theorem steer_closest_healthy {D} (dcmp : D -> D -> Z) (km : LatLon -> LatLon -> D)
    `{!Comparator dcmp} client targets maxAnswers :
  steer_ok dcmp km client targets maxAnswers (steer dcmp km client targets maxAnswers) /\
  (forall targets',
    (forall a b, a ∈ targets -> b ∈ targets -> t_region a = t_region b ->
       t_target a = t_target b -> a = b) ->
    targets ≡ₚ targets' ->
    steer dcmp km client targets maxAnswers = steer dcmp km client targets' maxAnswers).
Proof. split; [by apply steer_correct|]. intros. by apply steer_perm. Qed.

(** A distance that can be evaluated: the L1 distance in degrees. *)
Definition l1_distance (a b : LatLon) : Q := (Qabs (lat a - lat b) + Qabs (lon a - lon b))%Q.

Definition sample_target (ip region : string) (healthy : bool) : SteerTarget :=
  {| t_target := ip; t_region := region; t_healthy := healthy; t_weight := None |}.

Definition sample_targets : list SteerTarget :=
  [ sample_target "10.0.0.1" "us-east" true; sample_target "10.0.0.2" "eu-west" false;
    sample_target "10.0.0.3" "eu-central" true; sample_target "10.0.0.4" "nowhere" true ].

Lemma steer_closest_healthy_witness :
  let client := {| cl_coord := None; cl_region := Some "eu-west" |} in
  steer_ok q_cmp l1_distance client sample_targets None
    (steer q_cmp l1_distance client sample_targets None) /\
  map t_target (sr_answers (steer q_cmp l1_distance client sample_targets None)) =
    ["10.0.0.3"; "10.0.0.1"].
Proof.
  intros client. split; [|vm_compute; reflexivity].
  apply (steer_closest_healthy q_cmp l1_distance client sample_targets None).
Defined.
