(* ===== verification/DnsResolve.v ===== *)
(** Properties of authoritative resolution (packages/dns/src/answer.ts): zone
    selection, response codes, health of the answers, and when the chase of
    in-zone CNAMEs ends. *)

From S2P Require Import Prelude Comparators AbacModel DnsSteer DnsAnswer.

#[local] Arguments viewName : simpl never.
#[local] Arguments normalize : simpl never.
#[local] Arguments in_zone : simpl never.

(** * Names *)

Lemma lower_char_dot c : Ascii.eqb (lower_char c) "." = Ascii.eqb c ".".
Proof. destruct c as [[] [] [] [] [] [] [] []]; reflexivity. Qed.

Lemma normalize_idemp s : normalize (normalize s) = normalize s.
Proof.
  unfold normalize, toLowerCase.
  rewrite !(smap_drop_suffix lower_char) by apply lower_char_dot.
  by rewrite drop_suffix_idemp, (toLowerCase_idemp (drop_suffix_while _ s) :
    smap lower_char (smap lower_char _) = smap lower_char _).
Qed.

(** * Zone selection *)

Definition zone_len (z : DnsZoneSnapshot) : nat := String.length (z_zone z).

(** One step of the loop of [findZone]. *)
Definition pick_zone (name : string) (best : option DnsZoneSnapshot) (zone : DnsZoneSnapshot) :=
  if in_zone name (z_zone zone) then
    match best with
    | None => Some zone
    | Some b => if (String.length (z_zone b) <? String.length (z_zone zone))%nat then Some zone else best
    end
  else best.

Definition zone_choice (name : string) (zones : list DnsZoneSnapshot) (o : option DnsZoneSnapshot) : Prop :=
  match o with
  | None => forall z, z ∈ zones -> in_zone name (z_zone z) = false
  | Some z => z ∈ zones /\ in_zone name (z_zone z) = true /\
      forall z', z' ∈ zones -> in_zone name (z_zone z') = true -> (zone_len z' <= zone_len z)%nat
  end.

Lemma pick_zone_choice name zones best z :
  zone_choice name zones best -> zone_choice name (zones ++ [z]) (pick_zone name best z).
Proof.
  unfold pick_zone, zone_choice, zone_len. intros H.
  assert (Hin : forall y, y ∈ zones ++ [z] <-> y ∈ zones \/ y = z)
    by (intros; rewrite elem_of_app, list_elem_of_singleton; done).
  destruct (in_zone name (z_zone z)) eqn:Ez, best as [b|]; simpl.
  - destruct H as (H1 & H2 & H3).
    destruct (Nat.ltb_spec (String.length (z_zone b)) (String.length (z_zone z)));
      (split_and!; [apply Hin; tauto|done|]); intros y [Hy| ->]%Hin Hy'; try lia; [|auto].
    specialize (H3 _ Hy Hy'). lia.
  - split_and!; [apply Hin; tauto|done|]. intros y [Hy| ->]%Hin Hy'; [|lia]. rewrite H in Hy'; done.
  - destruct H as (H1 & H2 & H3). split_and!; [apply Hin; tauto|done|].
    intros y [Hy| ->]%Hin Hy'; [auto|congruence].
  - intros y [Hy| ->]%Hin; [auto|done].
Qed.

Lemma findZone_choice zones qname : zone_choice (normalize qname) zones (findZone zones qname).
Proof.
  unfold findZone. fold (pick_zone (normalize qname)).
  assert (Hgen : forall done rest best, zone_choice (normalize qname) done best ->
    zone_choice (normalize qname) (done ++ rest) (foldl (pick_zone (normalize qname)) best rest)).
  { intros done rest. revert done. induction rest as [|z rest IH]; intros done best H; simpl.
    - by rewrite app_nil_r.
    - replace (done ++ z :: rest) with ((done ++ [z]) ++ rest) by (by rewrite <- app_assoc).
      apply IH. by apply pick_zone_choice. }
  apply (Hgen [] zones None). intros z Hz. by apply not_elem_of_nil in Hz.
Qed.

Lemma findZone_single zone name :
  findZone [zone] name = if in_zone (normalize name) (z_zone zone) then Some zone else None.
Proof. reflexivity. Qed.

(** * The CNAME chase *)

(** The view a query is answered from: the name's own or its wildcard's. *)
Definition effective_view (zone : DnsZoneSnapshot) (qname : string) : option NameView :=
  let view := viewName zone qname in
  if v_exists view then Some view else option_map snd (wildcardFor zone qname).

(** The name resolution of [qname] continues at, if it does. *)
Definition chase_target (zone : DnsZoneSnapshot) (qtype qname : string) : option string :=
  if String.eqb qtype "ANY" || String.eqb qtype "CNAME" then None else
  match effective_view zone qname with
  | None => None
  | Some view =>
      match List.find (of_type T_CNAME) (v_statics view) with
      | None => None
      | Some r => let t := normalize (sd_value r) in if in_zone t (z_zone zone) then Some t else None
      end
  end.

(** [k] steps of the chase from [qname] are possible. *)
Fixpoint chases (zone : DnsZoneSnapshot) (qtype : string) (k : nat) (qname : string) : bool :=
  match k with
  | O => true
  | S k' => match chase_target zone qtype qname with
            | None => false
            | Some t => chases zone qtype k' t
            end
  end.

Definition is_none {A} (o : option A) : bool := match o with None => true | Some _ => false end.

Section resolve.
Context {D : Type} (dcmp : D -> D -> Z) (km : LatLon -> LatLon -> D).
Notation answerQuery := (answerQuery dcmp km).
Notation answer_in_zone := (answer_in_zone dcmp km).

Lemma answer_existing_none rec zone qname qtype client view :
  is_none (answer_existing dcmp km rec zone qname qtype client view) =
  if String.eqb qtype "ANY" || String.eqb qtype "CNAME" then false else
  match List.find (of_type T_CNAME) (v_statics view) with
  | None => false
  | Some r => let t := normalize (sd_value r) in
              if in_zone t (z_zone zone) then is_none (rec t) else false
  end.
Proof.
  unfold answer_existing. destruct (String.eqb qtype "ANY"); [done|]. simpl.
  destruct (List.find _ _) as [r|]; [|by destruct (String.eqb qtype "CNAME")].
  destruct (String.eqb qtype "CNAME"); [done|].
  destruct (in_zone _ _); [|done]. by destruct (rec _).
Qed.

Lemma answer_in_zone_none rec zone qname qtype client :
  is_none (answer_in_zone rec zone qname qtype client) =
  match chase_target zone qtype qname with None => false | Some t => is_none (rec t) end.
Proof.
  unfold answer_in_zone, chase_target, effective_view.
  destruct (v_exists (viewName zone qname)); simpl.
  - rewrite answer_existing_none. by repeat (break_match; simplify_eq/=).
  - destruct (wildcardFor zone qname) as [[owner w]|]; simpl; [|by destruct (_ || _)].
    transitivity (is_none (answer_existing dcmp km rec zone qname qtype client w)).
    { by destruct (answer_existing _ _ _ _ _ _ _ _). }
    rewrite answer_existing_none. by repeat (break_match; simplify_eq/=).
Qed.

Lemma chase_target_normal zone qtype qname t :
  chase_target zone qtype qname = Some t -> normalize t = t /\ in_zone t (z_zone zone) = true.
Proof.
  unfold chase_target. intros H. repeat case_match; simplify_eq. split; [apply normalize_idemp|done].
Qed.

(** The recursion in a zone, on a normalized name of it. *)
Lemma answerQuery_chases fuel zone qname qtype client :
  normalize qname = qname -> in_zone qname (z_zone zone) = true ->
  is_none (answerQuery fuel [zone] {| q_name := qname; q_type := qtype |} client) =
  chases zone (toUpperCase (default "A" qtype)) fuel qname.
Proof.
  revert qname. induction fuel as [|fuel IH]; intros qname Hn Hz; [done|].
  cbn [DnsAnswer.answerQuery q_name q_type chases]. rewrite findZone_single, !Hn, Hz.
  rewrite answer_in_zone_none. unfold qtype_of; simpl.
  destruct (chase_target _ _ _) as [t|] eqn:Et; [|done].
  apply chase_target_normal in Et as [??]. by apply IH.
Qed.

Lemma answerQuery_terminates_iff fuel zones q client :
  is_none (answerQuery (S fuel) zones q client) =
  match findZone zones (normalize (q_name q)) with
  | None => false
  | Some zone => chases zone (qtype_of q) (S fuel) (normalize (q_name q))
  end.
Proof.
  cbn [DnsAnswer.answerQuery]. destruct (findZone _ _) as [zone|] eqn:Ez; [|done].
  rewrite answer_in_zone_none. cbn [chases].
  destruct (chase_target _ _ _) as [t|] eqn:Et; [|done].
  apply chase_target_normal in Et as [??]. by rewrite answerQuery_chases.
Qed.
End resolve.

(** Every target is the value of one of the zone's CNAME records. *)
Definition cname_targets (zone : DnsZoneSnapshot) : list string :=
  map (fun r => normalize (sd_value r)) (z_staticRecords zone).

Lemma viewName_statics zone n r : r ∈ v_statics (viewName zone n) -> r ∈ z_staticRecords zone.
Proof. unfold viewName; cbn [v_statics]. by intros [? _]%bfilter_elem. Qed.

Lemma wildcard_loop_view fuel zone name owner w :
  wildcard_loop fuel zone name = Some (owner, w) -> w = viewName zone owner.
Proof.
  revert name. induction fuel as [|fuel IH]; intros name; simpl; [done|].
  intros H. repeat (case_match; simplify_eq); eauto.
Qed.

Lemma effective_view_statics zone n v r :
  effective_view zone n = Some v -> r ∈ v_statics v -> r ∈ z_staticRecords zone.
Proof.
  unfold effective_view. destruct (v_exists _).
  - intros [= <-]. apply viewName_statics.
  - destruct (wildcardFor zone n) as [[o w]|] eqn:E; simpl; [|done].
    intros [= <-]. apply wildcard_loop_view in E as ->. apply viewName_statics.
Qed.

Lemma chase_target_in zone qtype n t :
  chase_target zone qtype n = Some t -> t ∈ cname_targets zone.
Proof.
  unfold chase_target, cname_targets. intros H. repeat case_match; simplify_eq.
  match goal with H : List.find _ _ = Some _ |- _ => apply find_some in H as [Hin _] end.
  apply list_elem_of_In in Hin. apply list_elem_of_fmap. eexists; split; [done|].
  by eapply effective_view_statics.
Qed.

(** * Iterating a partial function over a finite range *)

Section orbit.
Context {A : Type} `{EqDecision A} (f : A -> option A).

Fixpoint iter_opt (k : nat) (x : A) : option A :=
  match k with O => Some x | S k' => match f x with None => None | Some y => iter_opt k' y end end.

Lemma iter_opt_add j k x :
  iter_opt (j + k) x = match iter_opt j x with None => None | Some y => iter_opt k y end.
Proof using Type. revert x. induction j as [|j IH]; intros x; simpl; [done|]. by destruct (f x). Qed.

Lemma iter_opt_prefix j k x : (j <= k)%nat -> is_Some (iter_opt k x) -> is_Some (iter_opt j x).
Proof using Type.
  intros Hjk [y Hy]. replace k with (j + (k - j))%nat in Hy by lia.
  rewrite iter_opt_add in Hy. destruct (iter_opt j x); [by eexists|done].
Qed.

(** A cycle never ends. *)
Lemma iter_opt_cycle x p : (0 < p)%nat -> iter_opt p x = Some x -> forall k, is_Some (iter_opt k x).
Proof using Type.
  intros Hp Hc k. assert (Hm : forall n, iter_opt (n * p) x = Some x).
  { induction n as [|n IH]; [done|]. simpl. by rewrite iter_opt_add, Hc. }
  apply (iter_opt_prefix k (k * p)); [nia|]. rewrite Hm. by eexists.
Qed.

(** The elements after the first [k] steps. *)
Fixpoint orbit (k : nat) (x : A) : list A :=
  match k with O => [] | S k' => match f x with None => [] | Some y => y :: orbit k' y end end.

Lemma orbit_length k x : is_Some (iter_opt k x) -> length (orbit k x) = k.
Proof using Type.
  revert x. induction k as [|k IH]; intros x H; simpl in *; [done|].
  destruct (f x); simpl; [by rewrite IH|by destruct H].
Qed.

Lemma orbit_lookup k x i y : orbit k x !! i = Some y -> iter_opt (S i) x = Some y.
Proof using Type.
  revert x i. induction k as [|k IH]; intros x i; simpl; [done|].
  destruct (f x) as [z|] eqn:E; [|done]. destruct i as [|i]; simpl; [done|apply IH].
Qed.

Lemma dup_lookup (l : list A) : ~ NoDup l ->
  exists i j x, (i < j)%nat /\ l !! i = Some x /\ l !! j = Some x.
Proof using EqDecision0.
  induction l as [|x l IH]; intros H; [destruct H; constructor|].
  destruct (decide (x ∈ l)) as [Hx|Hx].
  - apply list_elem_of_lookup in Hx as [j Hj]. exists 0%nat, (S j), x. split_and!; [lia|done|done].
  - destruct IH as (i & j & y & ? & ? & ?); [intros Hn; apply H; by constructor|].
    exists (S i), (S j), y. split_and!; [lia|done|done].
Qed.

(** An iteration that takes more steps than the range of the function has
    elements runs into a cycle. *)
Lemma iter_opt_repeats range x :
  (forall a b, f a = Some b -> b ∈ range) -> is_Some (iter_opt (S (length range)) x) ->
  exists i p y, (0 < p)%nat /\ iter_opt i x = Some y /\ iter_opt p y = Some y.
Proof using EqDecision0.
  intros Hr Hs. pose proof (orbit_length _ _ Hs) as Hlen.
  assert (Hsub : orbit (S (length range)) x ⊆ range).
  { intros y Hy. apply list_elem_of_lookup in Hy as [i Hi].
    apply orbit_lookup in Hi. replace (S i) with (i + 1)%nat in Hi by lia.
    rewrite iter_opt_add in Hi. destruct (iter_opt i x) as [a|]; [|done]. simpl in Hi.
    destruct (f a) eqn:E; [|done]. simplify_eq. by eapply Hr. }
  destruct (decide (NoDup (orbit (S (length range)) x))) as [Hnd|Hd].
  - apply (NoDup_submseteq _ range) in Hnd; [|set_solver].
    apply submseteq_length in Hnd. lia.
  - apply dup_lookup in Hd as (i & j & y & Hij & Hi%orbit_lookup & Hj%orbit_lookup).
    replace (S j) with (S i + (j - i))%nat in Hj by lia. rewrite iter_opt_add, Hi in Hj.
    exists (S i), (j - i)%nat, y. split_and!; [lia|done|done].
Qed.

(** An iteration that reaches a cycle goes on for ever. *)
Lemma iter_opt_diverges x i p y :
  (0 < p)%nat -> iter_opt i x = Some y -> iter_opt p y = Some y -> forall k, is_Some (iter_opt k x).
Proof using Type.
  intros Hp Hi Hy k. apply (iter_opt_prefix k (i + k)); [lia|]. rewrite iter_opt_add, Hi.
  by eapply iter_opt_cycle.
Qed.
End orbit.

Lemma chases_iter zone qtype k n :
  chases zone qtype k n = true <-> is_Some (iter_opt (chase_target zone qtype) k n).
Proof.
  revert n. induction k as [|k IH]; intros n; simpl; [split; [by eexists|done]|].
  destruct (chase_target zone qtype n); [apply IH|]. split; [done|by intros [? ?]].
Qed.

(** Enough fuel to resolve any question that can be resolved at all. *)
Definition zone_fuel (zones : list DnsZoneSnapshot) (q : Question) : nat :=
  match findZone zones (normalize (q_name q)) with
  | None => 1
  | Some zone => S (length (z_staticRecords zone))
  end.

(** Following CNAMEs from [qname] runs into a cycle. *)
Definition chase_cycle (zone : DnsZoneSnapshot) (qtype qname : string) : Prop :=
  exists i p n, (0 < p)%nat /\ iter_opt (chase_target zone qtype) i qname = Some n /\
    iter_opt (chase_target zone qtype) p n = Some n.

Lemma chases_cycle zone qtype n :
  chases zone qtype (S (length (z_staticRecords zone))) n = true <-> chase_cycle zone qtype n.
Proof.
  rewrite chases_iter. split.
  - intros H. apply (iter_opt_repeats _ (cname_targets zone)); [apply chase_target_in|].
    unfold cname_targets. by rewrite length_map.
  - intros (i & p & y & Hp & Hi & Hy). by eapply iter_opt_diverges.
Qed.

Lemma chase_cycle_chases zone qtype n k : chase_cycle zone qtype n -> chases zone qtype k n = true.
Proof. intros (i & p & y & Hp & Hi & Hy). apply chases_iter. by eapply iter_opt_diverges. Qed.

Section termination.
Context {D : Type} (dcmp : D -> D -> Z) (km : LatLon -> LatLon -> D).

Lemma answerQuery_none_iff zones q client :
  answerQuery dcmp km (zone_fuel zones q) zones q client = None <->
  exists zone, findZone zones (normalize (q_name q)) = Some zone /\
    chase_cycle zone (qtype_of q) (normalize (q_name q)).
Proof.
  unfold zone_fuel. destruct (findZone zones (normalize (q_name q))) as [zone|] eqn:Ez.
  - pose proof (answerQuery_terminates_iff dcmp km (length (z_staticRecords zone)) zones q client) as H.
    rewrite Ez in H. pose proof (chases_cycle zone (qtype_of q) (normalize (q_name q))) as Hc.
    destruct (answerQuery _ _ _ _ _ _), (chases _ _ _ _); simpl in H; naive_solver.
  - pose proof (answerQuery_terminates_iff dcmp km 0 zones q client) as H. rewrite Ez in H.
    destruct (answerQuery _ _ _ _ _ _); naive_solver.
Qed.

Lemma answerQuery_cycle fuel zones q client zone :
  findZone zones (normalize (q_name q)) = Some zone ->
  chase_cycle zone (qtype_of q) (normalize (q_name q)) ->
  answerQuery dcmp km fuel zones q client = None.
Proof.
  intros Ez Hc. destruct fuel as [|fuel]; [done|].
  pose proof (answerQuery_terminates_iff dcmp km fuel zones q client) as H. rewrite Ez in H.
  rewrite (chase_cycle_chases _ _ _ _ Hc) in H. by destruct (answerQuery _ _ _ _ _ _).
Qed.
End termination.

(** C31: one unit of fuel more than the zone has static records decides
    resolution: the question is answered within it unless following CNAMEs from
    its name runs into a cycle, and on a cycle no amount of fuel is enough. *)
Theorem answerQuery_termination {D} (dcmp : D -> D -> Z) (km : LatLon -> LatLon -> D) zones q client :
  (answerQuery dcmp km (zone_fuel zones q) zones q client = None <->
   exists zone, findZone zones (normalize (q_name q)) = Some zone /\
     chase_cycle zone (qtype_of q) (normalize (q_name q))) /\
  (answerQuery dcmp km (zone_fuel zones q) zones q client = None ->
   forall fuel, answerQuery dcmp km fuel zones q client = None).
Proof.
  split; [apply answerQuery_none_iff|].
  intros (zone & Ez & Hc)%answerQuery_none_iff fuel. by eapply answerQuery_cycle.
Qed.

(** A zone in which two CNAME records point at each other. *)
Definition cname_record (name value : string) : StaticDnsRecord :=
  {| sd_name := name; sd_type := T_CNAME; sd_value := value; sd_ttl := None; sd_priority := None |}.

Definition sample_zone (geo : list GeoRecord) (statics : list StaticDnsRecord) : DnsZoneSnapshot :=
  {| z_zone := "acme.com"; z_serial := 7; z_ttl := 60;
     z_soa := {| soa_mname := "ns1.acme.com"; soa_rname := "hostmaster.acme.com"; soa_refresh := 7200;
                 soa_retry := 3600; soa_expire := 1209600; soa_minimum := 60 |};
     z_nameservers := [ {| ns_label := "ns1"; ns_fqdn := "ns1.acme.com"; ns_ip := "192.0.2.1"; ns_nodeId := "n1" |} ];
     z_geoRecords := geo; z_staticRecords := statics |}.

(** Nothing in the zone, in the composition or in the resolver breaks the loop:
    the source recurses until the stack overflows. *)
Lemma cname_loop_diverges {D} (dcmp : D -> D -> Z) (km : LatLon -> LatLon -> D) client fuel :
  answerQuery dcmp km fuel
    [sample_zone [] [cname_record "a" "b.acme.com"; cname_record "b" "a.acme.com."]]
    {| q_name := "A.acme.com"; q_type := Some "A" |} client = None.
Proof.
  eapply answerQuery_cycle; [vm_compute; reflexivity|].
  exists 0%nat, 2%nat, "a.acme.com". split; [lia|]. by vm_compute.
Qed.

(** * Response codes and empty answers *)

Section classification.
Context {D : Type} (dcmp : D -> D -> Z) (km : LatLon -> LatLon -> D).

(** An answer given for a name that exists, or for its wildcard. *)
Definition positive (zone : DnsZoneSnapshot) (d : DnsAnswer) : Prop :=
  da_rcode d = NOERROR /\ da_aa d = true /\
  (da_answers d = [] -> da_authorities d = [soaAnswer zone]).

Lemma respond_positive zone answers additionals steered degraded :
  positive zone (respond zone answers NOERROR None additionals steered degraded).
Proof. split_and!; try done. simpl. by intros ->. Qed.

Lemma answer_type_positive zone qname qtype client view :
  positive zone (answer_type dcmp km zone qname qtype client view).
Proof.
  unfold answer_type.
  repeat case_match; first [apply respond_positive | by split_and!].
Qed.

Lemma answer_existing_positive rec zone qname qtype client view d :
  answer_existing dcmp km rec zone qname qtype client view = Some d -> positive zone d.
Proof.
  unfold answer_existing. intros H.
  repeat case_match; simplify_eq; first [apply respond_positive | apply answer_type_positive | by split_and!].
Qed.

Lemma synthesize_positive owner qname zone d : positive zone d -> positive zone (synthesize owner qname d).
Proof.
  intros (H1 & H2 & H3). split_and!; [done|done|]. simpl.
  intros H%map_eq_nil. by apply H3.
Qed.

(** What each response code says of the hosted zones. *)
Definition classified (zones : list DnsZoneSnapshot) (q : Question) (d : DnsAnswer) : Prop :=
  match findZone zones (normalize (q_name q)) with
  | None => d = refused
  | Some zone =>
      match effective_view zone (normalize (q_name q)) with
      | None => d = respond zone [] NXDOMAIN None [] false false
      | Some _ => positive zone d
      end
  end.

Lemma answerQuery_classified fuel zones q client d :
  answerQuery dcmp km fuel zones q client = Some d -> classified zones q d.
Proof.
  destruct fuel as [|fuel]; [done|]. cbn [DnsAnswer.answerQuery]. unfold classified.
  destruct (findZone _ _) as [zone|]; [|by intros [= <-]].
  unfold answer_in_zone, effective_view. destruct (v_exists _); simpl.
  - apply answer_existing_positive.
  - destruct (wildcardFor _ _) as [[owner w]|]; simpl; [|by intros [= <-]].
    destruct (answer_existing _ _ _ _ _ _ _ _) as [d'|] eqn:Hd; simpl; [|done].
    intros [= <-]. apply synthesize_positive. by eapply answer_existing_positive.
Qed.
End classification.

(** * Which names exist, and which wildcard answers *)

(** [n] lies strictly below [a]. *)
Definition ancestor (a n : string) : Prop := exists p, n = p +:+ "." +:+ a.

(** [o] owns a record of the zone: a geo host, an advertised nameserver or the
    name of a static record. *)
Definition record_owner (zone : DnsZoneSnapshot) (o : string) : Prop :=
  (exists g, g ∈ z_geoRecords zone /\ gr_host g = o) \/
  (exists ns, ns ∈ z_nameservers zone /\ ns_fqdn ns = o) \/
  (exists r, r ∈ z_staticRecords zone /\ static_fqdn zone r = o).

(** A name exists in a zone when it is the zone's own, owns a record or has a
    record below it (an empty non-terminal). *)
Definition name_exists (zone : DnsZoneSnapshot) (n : string) : Prop :=
  n = z_zone zone \/ exists o, record_owner zone o /\ (o = n \/ ancestor n o).

(** The closest encloser of [n] (RFC 4592): the longest of its ancestors in the
    zone that exist. *)
Definition closest_encloser (zone : DnsZoneSnapshot) (n c : string) : Prop :=
  ancestor c n /\ in_zone c (z_zone zone) = true /\ name_exists zone c /\
  forall a, ancestor a n -> in_zone a (z_zone zone) = true -> name_exists zone a ->
    (String.length a <= String.length c)%nat.

(** The wildcard of the closest encloser, and no other, holds records for
    [n]: a geo host or a static record. *)
Definition wildcard_holds (zone : DnsZoneSnapshot) (n : string) : Prop :=
  exists c, closest_encloser zone n c /\
    ((exists g, g ∈ z_geoRecords zone /\ gr_host g = "*." +:+ c) \/
     (exists r, r ∈ z_staticRecords zone /\ static_fqdn zone r = "*." +:+ c)).

Lemma endsWith_dot a n : endsWith ("." +:+ a) n = true <-> ancestor a n.
Proof. apply endsWith_spec. Qed.

Lemma in_zone_spec n z : in_zone n z = true <-> n = z \/ ancestor z n.
Proof. unfold in_zone. by rewrite orb_true_iff, String.eqb_eq, endsWith_dot. Qed.

Lemma after_dot_None n a : after_dot n = None -> ~ ancestor a n.
Proof.
  intros H [p ->]. revert H. induction p as [|c p IH]; simpl; [done|].
  by destruct (Ascii.eqb c ".").
Qed.

(** The ancestors of a name are its text after the first dot and the ancestors
    of that. *)
Lemma after_dot_Some n m a : after_dot n = Some m -> (ancestor a n <-> a = m \/ ancestor a m).
Proof.
  revert m. induction n as [|c n IH]; intros m; simpl; [done|].
  destruct (Ascii.eqb_spec c ".") as [->|Hc].
  - intros [= ->]. split.
    + intros [[|d p] E]; simpl in E; simplify_eq; [by left|right; by exists p].
    + intros [->|[p ->]]; [by exists ""|]. exists (String "." p). done.
  - intros H%IH. rewrite <- H. split.
    + intros [[|d p] E]; simpl in E; simplify_eq. by exists p.
    + intros [p ->]. by exists (String c p).
Qed.

Lemma after_dot_shorter n m : after_dot n = Some m -> (String.length m < String.length n)%nat.
Proof.
  revert m. induction n as [|c n IH]; intros m; simpl; [done|].
  destruct (Ascii.eqb c "."); [intros [= ->]; lia|intros H%IH; lia].
Qed.

Lemma ancestor_length a n : ancestor a n -> (String.length a < String.length n)%nat.
Proof. intros [p ->]. rewrite !string_length_app. simpl. lia. Qed.

Lemma ancestor_trans a b c : ancestor a b -> ancestor b c -> ancestor a c.
Proof. intros [p ->] [q ->]. exists (q +:+ "." +:+ p). by rewrite !string_app_assoc. Qed.

Lemma existsb_owner {A} (f : A -> string) (P : string -> bool) l :
  existsb (fun x => P (f x)) l = true <-> exists x, x ∈ l /\ P (f x) = true.
Proof. rewrite existsb_exists. by setoid_rewrite <- list_elem_of_In. Qed.

Lemma filter_nonempty {A} (P : A -> bool) l : (0 <? length (List.filter P l))%nat = existsb P l.
Proof. induction l as [|x l IH]; simpl; [done|]. by destruct (P x). Qed.

Lemma find_is_some {A} (P : A -> bool) l :
  match List.find P l with Some _ => true | None => false end = existsb P l.
Proof. induction l as [|x l IH]; simpl; [done|]. by destruct (P x). Qed.

Lemma viewName_exists zone n : v_exists (viewName zone n) = true <-> name_exists zone n.
Proof.
  unfold viewName, name_exists, record_owner. cbn [v_exists].
  rewrite length_map, !filter_nonempty, find_is_some, !orb_true_iff, String.eqb_eq.
  rewrite !(existsb_owner _ (fun o => String.eqb o n)), !(existsb_owner _ (endsWith ("." +:+ n))).
  setoid_rewrite String.eqb_eq. setoid_rewrite endsWith_dot. naive_solver.
Qed.

(** The loop finds the wildcard of the closest encloser. *)
Lemma wildcard_loop_spec fuel zone n :
  (String.length n < fuel)%nat -> in_zone n (z_zone zone) = true -> ~ name_exists zone n ->
  (is_Some (wildcard_loop fuel zone n) <-> wildcard_holds zone n).
Proof.
  revert n. induction fuel as [|fuel IH]; intros n Hf Hz Hn; [lia|]. cbn [wildcard_loop].
  assert (Hne : n <> z_zone zone) by (intros ->; apply Hn; by left).
  rewrite (proj2 (String.eqb_neq _ _) Hne).
  assert (Hanc : ancestor (z_zone zone) n) by (apply in_zone_spec in Hz as [?|?]; done).
  destruct (after_dot n) as [m|] eqn:Em; [|by apply after_dot_None in Hanc].
  pose proof (fun a => after_dot_Some n m a Em) as Hm. pose proof (after_dot_shorter _ _ Em).
  assert (Hmz : in_zone m (z_zone zone) = true).
  { apply in_zone_spec. destruct (proj1 (Hm _) Hanc) as [E|E]; [by left|by right]. }
  rewrite Hmz. cbn [negb].
  destruct (v_exists (viewName zone m)) eqn:Ev; cbn [negb].
  - apply viewName_exists in Ev.
    assert (Hc : forall c, closest_encloser zone n c <-> c = m).
    { intros c. split.
      - intros (Hc1 & _ & _ & Hc4). apply Hm in Hc1 as [->|Hc1]; [done|].
        apply ancestor_length in Hc1. specialize (Hc4 m (proj2 (Hm m) (or_introl eq_refl)) Hmz Ev). lia.
      - intros ->. split_and!; [by apply Hm; left|done|done|].
        intros a [->|Ha%ancestor_length]%Hm _ _; lia. }
    unfold wildcard_holds. setoid_rewrite Hc.
    unfold viewName. cbn [v_geo v_statics]. rewrite find_is_some, filter_nonempty.
    transitivity ((existsb (fun g => String.eqb (gr_host g) ("*." +:+ m)) (z_geoRecords zone)
      || existsb (fun r => String.eqb (static_fqdn zone r) ("*." +:+ m)) (z_staticRecords zone)) = true).
    { destruct (_ || _); split; intros Hs; try done; first [by eexists|by destruct Hs]. }
    rewrite orb_true_iff, !(existsb_owner _ (fun o => String.eqb o ("*." +:+ m))).
    setoid_rewrite String.eqb_eq. naive_solver.
  - assert (Hmn : ~ name_exists zone m) by (rewrite <- viewName_exists; congruence).
    rewrite IH by (done || lia). unfold wildcard_holds, closest_encloser.
    assert (Hp : forall a, ancestor a n /\ name_exists zone a <-> ancestor a m /\ name_exists zone a).
    { intros a. rewrite Hm. naive_solver. }
    split; intros (c & (H1 & H2 & H3 & H4) & H5); exists c;
      (split; [split_and!; [by apply (Hp c)|done|done|]|exact H5]);
      intros a Ha1 Ha2 Ha3; (apply H4; [by apply (Hp a)|done|done]).
Qed.

Lemma wildcardFor_spec zone n : in_zone n (z_zone zone) = true -> ~ name_exists zone n ->
  (is_Some (wildcardFor zone n) <-> wildcard_holds zone n).
Proof. intros. apply wildcard_loop_spec; [lia|done|done]. Qed.

(** A name of the zone is answered NXDOMAIN exactly when it neither exists nor
    is covered by the wildcard of its closest encloser. *)
Lemma effective_view_None zone n : in_zone n (z_zone zone) = true ->
  (effective_view zone n = None <-> ~ name_exists zone n /\ ~ wildcard_holds zone n).
Proof.
  intros Hz. unfold effective_view. destruct (v_exists (viewName zone n)) eqn:E.
  - apply viewName_exists in E. naive_solver.
  - assert (Hn : ~ name_exists zone n) by (rewrite <- viewName_exists; congruence).
    rewrite <- (wildcardFor_spec zone n Hz Hn).
    destruct (wildcardFor zone n); simpl; split; [done| |done|done].
    intros [_ H]. destruct H. by eexists.
Qed.

(** C20: every question is answered, with one unit of fuel more than its zone
    has static records, unless following CNAMEs from its name runs into a
    cycle.  It is refused, without authority, exactly when no hosted zone
    contains its name; it is answered NXDOMAIN exactly when, in its zone (a
    hosted one with the longest name among those that contain the question's),
    neither the name nor any name below it owns a record and the wildcard of its
    closest existing ancestor, the only one that may answer, owns none; every
    other answer is an authoritative NOERROR, and an empty one carries the
    zone's SOA. *)
Theorem answerQuery_rcode {D} (dcmp : D -> D -> Z) (km : LatLon -> LatLon -> D) zones q client :
  let name := normalize (q_name q) in
  zone_choice name zones (findZone zones name) /\
  ((exists d, answerQuery dcmp km (zone_fuel zones q) zones q client = Some d) \/
   (exists zone, findZone zones name = Some zone /\ chase_cycle zone (qtype_of q) name)) /\
  forall fuel d, answerQuery dcmp km fuel zones q client = Some d ->
    (da_rcode d = REFUSED <-> findZone zones name = None) /\
    (da_aa d = false <-> da_rcode d = REFUSED) /\
    (da_rcode d = NXDOMAIN <-> exists zone, findZone zones name = Some zone /\
       ~ name_exists zone name /\ ~ wildcard_holds zone name) /\
    (da_rcode d <> REFUSED -> da_rcode d <> NXDOMAIN -> da_rcode d = NOERROR) /\
    (da_answers d = [] -> da_rcode d <> REFUSED ->
       exists zone, findZone zones name = Some zone /\ da_authorities d = [soaAnswer zone]).
Proof.
  intros name. assert (Hc : zone_choice name zones (findZone zones name))
    by (unfold name; rewrite <- (normalize_idemp (q_name q)) at 1; apply findZone_choice).
  split; [exact Hc|]. split.
  { destruct (answerQuery dcmp km (zone_fuel zones q) zones q client) as [d|] eqn:E; [left; by exists d|].
    right. by apply answerQuery_none_iff in E. }
  intros fuel d H%answerQuery_classified. unfold classified, positive in H. fold name in H.
  destruct (findZone zones name) as [zone|]; [|subst d; simpl; split_and!; try done;
    split; [done|by intros (z & ? & ?)]].
  destruct Hc as (_ & Hz & _). pose proof (effective_view_None zone name Hz) as He.
  destruct (effective_view _ _); [destruct H as (H1 & H2 & H3)|subst d].
  - rewrite H1, H2. split_and!; try done; [|eauto].
    split; [done|]. intros (z & [= <-] & Hn%He). done.
  - simpl. split_and!; try done; [|eauto]. split; [|done]. intros _. exists zone. split; [done|by apply He].
Qed.

(** An empty non-terminal, and a name whose closest encloser has no wildcard
    although the apex has one. *)
Example nonterminal_and_encloser :
  let zone := sample_zone [] [cname_record "x.deep" "example.org"; cname_record "*" "example.org"] in
  let rcode name := option_map da_rcode (answerQuery q_cmp l1_distance 3 [zone]
    {| q_name := name; q_type := Some "MX" |} {| cl_coord := None; cl_region := None |}) in
  rcode "deep.acme.com" = Some NOERROR /\ rcode "y.deep.acme.com" = Some NXDOMAIN /\
  rcode "y.acme.com" = Some NOERROR.
Proof. by vm_compute. Qed.

Lemma answerQuery_rcode_witness :
  let zones := [sample_zone [] [cname_record "x.deep" "example.org"; cname_record "*" "example.org"]] in
  let q := {| q_name := "y.deep.acme.com"; q_type := Some "MX" |} in
  let client := {| cl_coord := None; cl_region := None |} in
  exists d, answerQuery q_cmp l1_distance 3 zones q client = Some d /\ da_rcode d = NXDOMAIN /\
    da_authorities d = [soaAnswer (sample_zone [] [cname_record "x.deep" "example.org"; cname_record "*" "example.org"])].
Proof.
  intros zones q client.
  destruct (answerQuery_rcode q_cmp l1_distance zones q client) as (_ & _ & H).
  eexists; split; [vm_compute; reflexivity|]. split; [vm_compute; reflexivity|].
  destruct (H 3%nat _ ltac:(vm_compute; reflexivity)) as (_ & _ & _ & _ & Hs).
  destruct (Hs eq_refl ltac:(by vm_compute)) as (z & Hz & Ha).
  vm_compute in Hz. injection Hz as <-. vm_compute in Ha |- *. exact Ha.
Defined.

(** * Geo answers *)

Section geo.
Context {D : Type} (dcmp : D -> D -> Z) (km : LatLon -> LatLon -> D).

Lemma sub_map {A B} (f : A -> B) (l : list B) (L : list A) :
  (forall y, y ∈ l -> y ∈ map f L) -> exists es, l = map f es /\ forall e, e ∈ es -> e ∈ L.
Proof.
  induction l as [|y l IH]; intros H; [exists []; split; [done|intros e He; by apply not_elem_of_nil in He]|].
  destruct IH as (es & -> & Hes); [intros; apply H; by right|].
  destruct (proj1 (list_elem_of_fmap f L y)) as (e & -> & He); [apply H; by left|].
  exists (e :: es). split; [done|]. intros x [-> | Hx]%elem_of_cons; auto.
Qed.

Lemma steerGeo_endpoints `{!Comparator dcmp} geo client :
  exists es, fst (fst (steerGeo dcmp km geo client)) = map ge_ip es /\
    (forall e, e ∈ es -> e ∈ gr_endpoints geo) /\
    (gr_endpoints geo <> [] -> es <> []) /\
    (forall e h, e ∈ es -> h ∈ gr_endpoints geo -> ge_healthy h = true -> ge_healthy e = true) /\
    (length es <= Z.to_nat (Z.max 1 (gr_maxAnswers geo)))%nat.
Proof.
  unfold steerGeo. destruct (map endpoint_target (gr_endpoints geo)) as [|t l] eqn:Hts.
  - apply map_eq_nil in Hts as ->. exists []. split_and!; [done| |done| |simpl; lia];
      intros *; intros Hx; by apply not_elem_of_nil in Hx.
  - pose proof (steer_correct dcmp km client (t :: l) (Some (gr_maxAnswers geo))) as (H1 & H2 & H3 & H4 & _).
    assert (H3' : forall y, y ∈ sr_answers (steer dcmp km client (t :: l) (Some (gr_maxAnswers geo))) ->
      y ∈ map endpoint_target (gr_endpoints geo)) by (rewrite Hts; done).
    destruct (sub_map endpoint_target _ _ H3') as (es & Hes & Hin).
    exists es. rewrite Hes in H1, H2, H4 |- *. split_and!.
    + unfold fst. by rewrite map_map.
    + done.
    + intros _ ->. by apply H2.
    + intros e h He Hh Hhh. apply (H4 (endpoint_target e) (endpoint_target h)); [| |done];
        [|rewrite <- Hts]; by apply list_elem_of_fmap_2.
    + rewrite length_map in H1. simpl in H1. lia.
Qed.

Lemma answerQuery_A fuel zones q client zone geo :
  findZone zones (normalize (q_name q)) = Some zone ->
  v_geo (viewName zone (normalize (q_name q))) = Some geo ->
  List.find (of_type T_CNAME) (v_statics (viewName zone (normalize (q_name q)))) = None ->
  qtype_of q = "A" ->
  answerQuery dcmp km (S fuel) zones q client =
  Some (answer_type dcmp km zone (normalize (q_name q)) "A" client (viewName zone (normalize (q_name q)))).
Proof.
  intros Hz Hg Hc Hq. cbn [DnsAnswer.answerQuery]. rewrite Hz. unfold answer_in_zone.
  assert (Hex : v_exists (viewName zone (normalize (q_name q))) = true).
  { unfold viewName in Hg |- *. simpl in *. rewrite Hg. by rewrite orb_true_r. }
  rewrite Hex, Hq. simpl. unfold answer_existing. rewrite Hc. done.
Qed.
End geo.

(** What the answer to an address query for a geo host is made of. *)
Definition geo_answer (zone : DnsZoneSnapshot) (geo : GeoRecord) (qname : string) (d : DnsAnswer) : Prop :=
  exists es rest,
    da_rcode d = NOERROR /\
    da_answers d = map (fun e => a_record qname (z_ttl zone) (ge_ip e)) es ++ rest /\
    (forall e, e ∈ es -> e ∈ gr_endpoints geo) /\
    (gr_endpoints geo <> [] -> es <> []) /\
    (forall e h, e ∈ es -> h ∈ gr_endpoints geo -> ge_healthy h = true -> ge_healthy e = true) /\
    (length es <= Z.to_nat (Z.max 1 (gr_maxAnswers geo)))%nat.

Lemma answerQuery_geo {D} (dcmp : D -> D -> Z) (km : LatLon -> LatLon -> D)
    `{!Comparator dcmp} fuel zones q client zone geo :
  findZone zones (normalize (q_name q)) = Some zone ->
  v_geo (viewName zone (normalize (q_name q))) = Some geo ->
  List.find (of_type T_CNAME) (v_statics (viewName zone (normalize (q_name q)))) = None ->
  qtype_of q = "A" ->
  exists d, answerQuery dcmp km (S fuel) zones q client = Some d /\
    geo_answer zone geo (normalize (q_name q)) d.
Proof.
  intros Hz Hg Hc Hq. rewrite (answerQuery_A dcmp km fuel zones q client zone geo) by done.
  destruct (steerGeo_endpoints dcmp km geo client) as (es & Hips & H).
  unfold answer_type. change (String.eqb "A" "A") with true. cbv iota. rewrite Hg.
  destruct (steerGeo _ _ _ _) as [[ips steered] degraded].
  simpl in Hips. subst ips. eexists. split; [done|]. exists es. eexists. split; [done|].
  split; [|done]. simpl. rewrite map_map. reflexivity.
Qed.

(** Health never empties a geo answer.  An address query for a host with a
    geo record and no CNAME is answered first with the addresses of at least
    one and at most [maxAnswers] of its endpoints (when it has any), all of
    them healthy as long as one endpoint is, then with glue and manual A
    records. *)
Theorem answerQuery_geo_never_empty {D} (dcmp : D -> D -> Z) (km : LatLon -> LatLon -> D)
    `{!Comparator dcmp} fuel zones q client zone geo :
  findZone zones (normalize (q_name q)) = Some zone ->
  v_geo (viewName zone (normalize (q_name q))) = Some geo ->
  List.find (of_type T_CNAME) (v_statics (viewName zone (normalize (q_name q)))) = None ->
  qtype_of q = "A" ->
  exists d, answerQuery dcmp km (S fuel) zones q client = Some d /\
    geo_answer zone geo (normalize (q_name q)) d.
Proof. by apply answerQuery_geo. Qed.

Definition sample_geo : GeoRecord :=
  {| gr_host := "www.acme.com"; gr_maxAnswers := 2; gr_source := None;
     gr_endpoints := [ {| ge_nodeId := "n1"; ge_region := "eu-west"; ge_ip := "192.0.2.1"; ge_healthy := false; ge_weight := None |};
                       {| ge_nodeId := "n2"; ge_region := "us-east"; ge_ip := "192.0.2.2"; ge_healthy := true; ge_weight := None |} ] |}.

Lemma answerQuery_geo_never_empty_witness :
  let zones := [sample_zone [sample_geo] []] in
  let q := {| q_name := "WWW.acme.com."; q_type := None |} in
  let client := {| cl_coord := None; cl_region := Some "eu-west" |} in
  (exists d, answerQuery q_cmp l1_distance 1 zones q client = Some d /\ da_rcode d = NOERROR) /\
  option_map da_answers (answerQuery q_cmp l1_distance 1 zones q client) =
    Some [a_record "www.acme.com" 60 "192.0.2.2"].
Proof.
  intros zones q client. split; [|vm_compute; reflexivity].
  destruct (answerQuery_geo_never_empty q_cmp l1_distance 0 zones q client
    (sample_zone [sample_geo] []) sample_geo) as (d & H & _ & _ & Hr & _);
    [vm_compute; reflexivity..|]. by exists d.
Defined.
