(* ===== verification/DnsCompose.v ===== *)
(** Zone composition (packages/dns/src/compose.ts): the zone snapshot the
    resolver serves, from the derived ingress hosts and the manual records.

    A [Map] is its list of entries in insertion order; the map from names to
    the types of their manual records is a [gmap], whose order nothing reads. *)

From S2P Require Import Prelude Comparators AbacModel DnsSteer DnsAnswer DnsResolve.

Record ComposeZone := {
  cz_name : string; cz_ttl : Z; cz_serial : Z; cz_apexToEdge : bool; cz_autoWww : bool
}.

Record ZoneComposeInput := {
  ci_zone : ComposeZone;
  ci_advertised : list (string * string);   (* nodeId, ip *)
  ci_autoHosts : list (string * option string);   (* host, source *)
  ci_endpoints : list GeoEndpoint;
  ci_manualRecords : list StaticDnsRecord;
  ci_maxAnswers : option Z
}.

Record ComposeConflict := { cf_name : string; cf_type : string; cf_reason : string }.

Record ComposeResult := { cr_snapshot : DnsZoneSnapshot; cr_conflicts : list ComposeConflict }.

Fixpoint imap_from {A B} (f : nat -> A -> B) (i : nat) (l : list A) : list B :=
  match l with [] => [] | x :: l' => f i x :: imap_from f (S i) l' end.

Definition compose_nameservers (zone : string) (advertised : list (string * string)) : list ZoneNameserver :=
  imap_from (fun i node =>
    let label := "ns" +:+ pretty (N.of_nat (i + 1)) in
    {| ns_label := label; ns_fqdn := label +:+ "." +:+ zone; ns_ip := snd node; ns_nodeId := fst node |})
    0 advertised.

(** One iteration of the loop over the manual records. *)
Definition manual_step (zone : string) (acc : list StaticDnsRecord * list ComposeConflict)
    (record : StaticDnsRecord) : list StaticDnsRecord * list ComposeConflict :=
  let '(manual, conflicts) := acc in
  let name := normalize (sd_name record) in
  let fqdn := relativeToFqdn name zone in
  if bool_decide (sd_type record = T_CNAME) && String.eqb fqdn zone then
    (manual, conflicts ++ [ {| cf_name := fqdn; cf_type := "CNAME";
       cf_reason := "CNAME at the zone apex is invalid (RFC 1034) — the apex already resolves to the edge; record ignored." |} ])
  else if bool_decide (sd_type record = T_NS) && String.eqb fqdn zone then
    (manual, conflicts ++ [ {| cf_name := fqdn; cf_type := "NS";
       cf_reason := "Apex NS records are managed by the pinned nameserver set; record ignored." |} ])
  else
    (manual ++ [ {| sd_name := if String.eqb name zone then "@" else name; sd_type := sd_type record;
                    sd_value := sd_value record; sd_ttl := sd_ttl record; sd_priority := sd_priority record |} ],
     conflicts).

(** The types of the manual records of each name, in insertion order. *)
Definition type_index_step (zone : string) (m : gmap string (list DnsRecordType))
    (record : StaticDnsRecord) : gmap string (list DnsRecordType) :=
  let fqdn := relativeToFqdn (sd_name record) zone in
  let types := default [] (m !! fqdn) in
  <[fqdn := if bool_decide (sd_type record ∈ types) then types else types ++ [sd_type record]]> m.

Definition type_index (zone : string) (manual : list StaticDnsRecord) : gmap string (list DnsRecordType) :=
  foldl (type_index_step zone) ∅ manual.

Definition is_address (t : DnsRecordType) : bool :=
  match t with T_A | T_AAAA | T_CNAME => true | _ => false end.

(** [addGeo]; the state is the entries of [geoByHost] and the conflicts. *)
Definition addGeo (zone : string) (types : gmap string (list DnsRecordType)) (maxAnswers : Z)
    (endpoints : list GeoEndpoint) (st : list GeoRecord * list ComposeConflict)
    (auto : string * option string) : list GeoRecord * list ComposeConflict :=
  let '(geoByHost, conflicts) := st in
  let fqdn := normalize (fst auto) in
  if negb (in_zone fqdn zone) then st
  else if existsb (fun g => String.eqb (gr_host g) fqdn) geoByHost then st
  else
    let manualTypes := default [] (types !! fqdn) in
    if existsb is_address manualTypes then
      (geoByHost, conflicts ++ [ {| cf_name := fqdn;
         cf_type := join "+" (map type_str (List.filter is_address manualTypes));
         cf_reason := "Manual address record overrides the automatic geo-steered answer for this host." |} ])
    else
      (geoByHost ++ [ {| gr_host := fqdn; gr_maxAnswers := maxAnswers; gr_endpoints := endpoints;
                         gr_source := snd auto |} ], conflicts).

(** The calls of [addGeo], in order. *)
Definition wanted_hosts (input : ZoneComposeInput) (zone : string) : list (string * option string) :=
  (if cz_apexToEdge (ci_zone input) then [(zone, Some "apex")] else []) ++
  map (fun auto => (fst auto, Some (default "route" (snd auto)))) (ci_autoHosts input) ++
  (if cz_autoWww (ci_zone input) then [("www." +:+ zone, Some "www")] else []).

(** [(a, b) => (a.host < b.host ? -1 : 1)] *)
Definition by_host (a b : GeoRecord) : Z := if str_cmp (gr_host a) (gr_host b) <? 0 then -1 else 1.

Definition composeZoneSnapshot (input : ZoneComposeInput) : ComposeResult :=
  let zone := normalize (cz_name (ci_zone input)) in
  let maxAnswers := Z.max 1 (default 2 (ci_maxAnswers input)) in
  let nameservers := compose_nameservers zone (ci_advertised input) in
  let '(manual, conflicts1) := foldl (manual_step zone) ([], []) (ci_manualRecords input) in
  let '(geo, conflicts2) :=
    foldl (addGeo zone (type_index zone manual) maxAnswers (ci_endpoints input)) ([], conflicts1)
      (wanted_hosts input zone) in
  let conflicts :=
    match ci_endpoints input, geo with
    | [], _ :: _ => conflicts2 ++ [ {| cf_name := zone; cf_type := "A";
        cf_reason := "No ingress+outlet endpoints with a public IP exist yet — geo hosts will answer empty." |} ]
    | _, _ => conflicts2
    end in
  {| cr_snapshot :=
       {| z_zone := zone; z_serial := cz_serial (ci_zone input); z_ttl := cz_ttl (ci_zone input);
          z_soa := {| soa_mname := match nameservers with ns :: _ => ns_fqdn ns | [] => zone end;
                      soa_rname := "hostmaster." +:+ zone;
                      soa_refresh := 7200; soa_retry := 3600; soa_expire := 1209600;
                      soa_minimum := Z.min (cz_ttl (ci_zone input)) 300 |};
          z_nameservers := nameservers;
          z_geoRecords := js_sort by_host geo;
          z_staticRecords := manual |};
     cr_conflicts := conflicts |}.

(** * The manual records *)

(** The record [manual_step] keeps for [record]. *)
Definition kept (zone : string) (record : StaticDnsRecord) : StaticDnsRecord :=
  {| sd_name := if String.eqb (normalize (sd_name record)) zone then "@" else normalize (sd_name record);
     sd_type := sd_type record; sd_value := sd_value record; sd_ttl := sd_ttl record;
     sd_priority := sd_priority record |}.

Definition manual_ok (zone : string) (record : StaticDnsRecord) : bool :=
  negb ((bool_decide (sd_type record = T_CNAME) || bool_decide (sd_type record = T_NS)) &&
        String.eqb (relativeToFqdn (normalize (sd_name record)) zone) zone).

Lemma manual_fold zone records acc conflicts :
  exists conflicts', foldl (manual_step zone) (acc, conflicts) records =
    (acc ++ map (kept zone) (List.filter (manual_ok zone) records), conflicts').
Proof.
  revert acc conflicts. induction records as [|r l IH]; intros acc conflicts; simpl.
  - exists conflicts. by rewrite app_nil_r.
  - unfold manual_ok at 1.
    destruct (bool_decide (sd_type r = T_CNAME)), (bool_decide (sd_type r = T_NS)),
      (String.eqb (relativeToFqdn (normalize (sd_name r)) zone) zone); simpl;
      try apply IH; destruct (IH (acc ++ [kept zone r]) conflicts) as [c' H]; exists c';
      rewrite <- app_assoc in H; exact H.
Qed.

Lemma relativeToFqdn_kept zone r :
  relativeToFqdn (sd_name (kept zone r)) zone = relativeToFqdn (sd_name r) zone.
Proof.
  unfold relativeToFqdn, kept. simpl. destruct (String.eqb (normalize (sd_name r)) zone) eqn:E.
  - rewrite orb_true_r. done.
  - by rewrite normalize_idemp, E.
Qed.

Lemma type_index_gen zone manual m fqdn t :
  t ∈ default [] (foldl (type_index_step zone) m manual !! fqdn) <->
  t ∈ default [] (m !! fqdn) \/
  exists r, r ∈ manual /\ relativeToFqdn (sd_name r) zone = fqdn /\ sd_type r = t.
Proof.
  revert m. induction manual as [|r l IH]; intros m; simpl.
  - split; [by left|]. intros [?|(r & Hr & _)]; [done|by apply not_elem_of_nil in Hr].
  - rewrite IH. setoid_rewrite elem_of_cons. unfold type_index_step.
    destruct (decide (relativeToFqdn (sd_name r) zone = fqdn)) as [<-|Hne].
    + rewrite lookup_insert_eq. simpl. case_bool_decide as Hin.
      * split; [naive_solver|]. intros [?|(r' & [-> | Hr'] & He & <-)]; [by left|by left|right; eauto].
      * rewrite elem_of_app, list_elem_of_singleton. split; [naive_solver|].
        intros [?|(r' & [-> | Hr'] & He & <-)]; [tauto|tauto|right; eauto].
    + rewrite lookup_insert_ne by done. split; [naive_solver|].
      intros [?|(r' & [-> | Hr'] & He & <-)]; [by left|done|right; eauto].
Qed.

Lemma type_index_spec zone manual fqdn t :
  t ∈ default [] (type_index zone manual !! fqdn) <->
  exists r, r ∈ manual /\ relativeToFqdn (sd_name r) zone = fqdn /\ sd_type r = t.
Proof.
  unfold type_index. rewrite type_index_gen, lookup_empty. simpl.
  split; [intros [H|H]; [by apply not_elem_of_nil in H|done]|by right].
Qed.

(** * The geo records *)

Section geo.
Context (zone : string) (types : gmap string (list DnsRecordType)) (maxAnswers : Z)
  (endpoints : list GeoEndpoint).

(** No manual address record claims the name. *)
Definition unclaimed (fqdn : string) : Prop :=
  in_zone fqdn zone = true /\ existsb is_address (default [] (types !! fqdn)) = false.

(** What the calls of [addGeo] made so far have recorded. *)
Definition geo_inv (asked : list (string * option string)) (geo : list GeoRecord) : Prop :=
  NoDup (map gr_host geo) /\
  (forall g, g ∈ geo -> gr_endpoints g = endpoints /\ gr_maxAnswers g = maxAnswers) /\
  (forall h, h ∈ map gr_host geo <-> unclaimed h /\ exists a, a ∈ asked /\ normalize (fst a) = h).

Lemma addGeo_inv asked st auto :
  geo_inv asked (fst st) ->
  geo_inv (asked ++ [auto]) (fst (addGeo zone types maxAnswers endpoints st auto)).
Proof.
  destruct st as [geo conflicts]. intros (Hnd & Heq & Hh). simpl in Hnd, Heq, Hh.
  unfold addGeo. set (fqdn := normalize (fst auto)).
  assert (Hask : forall h, (exists a, a ∈ asked ++ [auto] /\ normalize (fst a) = h) <->
                           (exists a, a ∈ asked /\ normalize (fst a) = h) \/ fqdn = h).
  { intros h. setoid_rewrite elem_of_app. setoid_rewrite list_elem_of_singleton. naive_solver. }
  assert (Hdup : forall g, existsb (fun x => String.eqb (gr_host x) g) geo = true <-> g ∈ map gr_host geo).
  { intros g. rewrite existsb_exists. setoid_rewrite String.eqb_eq. setoid_rewrite <- list_elem_of_In.
    rewrite list_elem_of_fmap. naive_solver. }
  unfold geo_inv. destruct (in_zone fqdn zone) eqn:Ez; simpl.
  2: { split_and!; [done|done|]. intros h. rewrite Hask, Hh. unfold unclaimed. naive_solver congruence. }
  destruct (existsb _ geo) eqn:Ed; simpl.
  { apply Hdup in Ed. split_and!; [done|done|]. intros h. rewrite Hask. rewrite Hh in Ed |- *. naive_solver. }
  destruct (existsb is_address _) eqn:Em; simpl.
  { split_and!; [done|done|]. intros h. rewrite Hask, Hh. unfold unclaimed. naive_solver congruence. }
  assert (Hn : fqdn ∉ map gr_host geo) by (rewrite <- Hdup; congruence).
  split_and!.
  - rewrite map_app, NoDup_app. split_and!; [done| |apply NoDup_singleton].
    intros x Hx Hx'. simpl in Hx'. apply list_elem_of_singleton in Hx'. congruence.
  - intros g. rewrite elem_of_app, list_elem_of_singleton. intros [?| ->]; [auto|done].
  - intros h. rewrite map_app, elem_of_app. simpl. rewrite list_elem_of_singleton, Hask, Hh.
    unfold unclaimed. naive_solver.
Qed.

Lemma addGeo_fold l asked st :
  geo_inv asked (fst st) ->
  geo_inv (asked ++ l) (fst (foldl (addGeo zone types maxAnswers endpoints) st l)).
Proof.
  revert asked st. induction l as [|a l IH]; intros asked st H; simpl.
  - by rewrite app_nil_r.
  - replace (asked ++ a :: l) with ((asked ++ [a]) ++ l) by (by rewrite <- app_assoc).
    apply IH. by apply addGeo_inv.
Qed.
End geo.

(** On distinct hosts the comparator of the source sorts like the order on
    hosts, although it never answers zero. *)
Lemma insert_by_host g l : gr_host g ∉ map gr_host l ->
  insert_by by_host g l = insert_by (cmp_on gr_host str_cmp) g l.
Proof.
  induction l as [|h l IH]; intros Hn; simpl; [done|].
  simpl in Hn. apply not_elem_of_cons in Hn as [Hne Hn]. rewrite IH by done.
  unfold by_host, cmp_on. pose proof (str_cmp_eq (gr_host g) (gr_host h)) as He.
  destruct (Z.ltb_spec (str_cmp (gr_host g) (gr_host h)) 0).
  - destruct (Z.ltb_spec 0 (str_cmp (gr_host g) (gr_host h))); [lia|done].
  - destruct (Z.ltb_spec 0 (str_cmp (gr_host g) (gr_host h))); [done|].
    destruct Hne. apply He. lia.
Qed.

Lemma js_sort_by_host l : NoDup (map gr_host l) ->
  js_sort by_host l = js_sort (cmp_on gr_host str_cmp) l.
Proof.
  induction l as [|g l IH]; simpl; [done|]. intros [Hn Hnd]%NoDup_cons. rewrite <- IH by done.
  apply insert_by_host. by rewrite (js_sort_perm by_host l).
Qed.

(** * The composed zone *)

Lemma compose_static input :
  z_staticRecords (cr_snapshot (composeZoneSnapshot input)) =
  map (kept (normalize (cz_name (ci_zone input))))
    (List.filter (manual_ok (normalize (cz_name (ci_zone input)))) (ci_manualRecords input)).
Proof.
  unfold composeZoneSnapshot.
  destruct (manual_fold (normalize (cz_name (ci_zone input))) (ci_manualRecords input) [] []) as [c ->].
  by destruct (foldl _ _ (wanted_hosts _ _)).
Qed.

Lemma compose_zone input :
  z_zone (cr_snapshot (composeZoneSnapshot input)) = normalize (cz_name (ci_zone input)).
Proof.
  unfold composeZoneSnapshot. destruct (foldl _ _ (ci_manualRecords input)).
  by destruct (foldl _ _ (wanted_hosts _ _)).
Qed.

Lemma compose_geo input :
  let s := cr_snapshot (composeZoneSnapshot input) in
  let types := type_index (z_zone s) (z_staticRecords s) in
  StronglySorted (le_by (cmp_on gr_host str_cmp)) (z_geoRecords s) /\
  geo_inv (z_zone s) types (Z.max 1 (default 2 (ci_maxAnswers input))) (ci_endpoints input)
    (wanted_hosts input (z_zone s)) (z_geoRecords s).
Proof.
  intros s types. subst types. unfold s. rewrite compose_zone, compose_static.
  unfold composeZoneSnapshot.
  set (zone := normalize (cz_name (ci_zone input))).
  destruct (manual_fold zone (ci_manualRecords input) [] []) as [c ->]. simpl app.
  set (manual := map (kept zone) _). set (mx := Z.max 1 _).
  pose proof (addGeo_fold zone (type_index zone manual) mx (ci_endpoints input)
    (wanted_hosts input zone) [] ([], c)) as H.
  destruct (foldl (addGeo _ _ _ _) _ _) as [geo c2]. simpl in H |- *.
  destruct H as (Hnd & Heq & Hh).
  { split_and!; [constructor|by intros g Hg%not_elem_of_nil|].
    intros h. simpl. split; [by intros ?%not_elem_of_nil|]. intros (_ & a & Ha & _). by apply not_elem_of_nil in Ha. }
  rewrite js_sort_by_host by done. split; [apply js_sort_sorted; apply _|].
  assert (Hp : map gr_host (js_sort (cmp_on gr_host str_cmp) geo) ≡ₚ map gr_host geo)
    by (by rewrite js_sort_perm).
  split_and!; [by rewrite Hp|intros g; rewrite js_sort_elem; apply Heq|intros h; rewrite Hp; apply Hh].
Qed.

(** A manual A, AAAA or CNAME record of the zone owns the name. *)
Definition manual_address (s : DnsZoneSnapshot) (fqdn : string) : Prop :=
  exists r, r ∈ z_staticRecords s /\ static_fqdn s r = fqdn /\ is_address (sd_type r) = true.

Lemma unclaimed_iff s fqdn :
  unclaimed (z_zone s) (type_index (z_zone s) (z_staticRecords s)) fqdn <->
  in_zone fqdn (z_zone s) = true /\ ~ manual_address s fqdn.
Proof.
  unfold unclaimed, manual_address, static_fqdn. apply and_iff_compat_l.
  rewrite <- not_true_iff_false, existsb_exists. setoid_rewrite <- list_elem_of_In.
  setoid_rewrite type_index_spec. naive_solver.
Qed.

Lemma compose_no_cname input h :
  let s := cr_snapshot (composeZoneSnapshot input) in
  h ∈ map gr_host (z_geoRecords s) ->
  List.find (of_type T_CNAME) (v_statics (viewName s h)) = None.
Proof.
  intros s Hh. destruct (compose_geo input) as (_ & _ & _ & Hgeo). apply Hgeo in Hh as [Hu _].
  apply unclaimed_iff in Hu as [_ Hu]. destruct (List.find _ _) as [r|] eqn:E; [|done].
  destruct Hu. apply find_some in E as [Hin Ht]. apply list_elem_of_In in Hin.
  unfold viewName in Hin. cbn [v_statics] in Hin. apply bfilter_elem in Hin as [Hin Hn].
  exists r. split_and!; [done|by apply String.eqb_eq in Hn|].
  unfold of_type in Ht. case_bool_decide as Hc; [|done]. by rewrite Hc.
Qed.

Lemma find_host geo h : h ∈ map gr_host geo ->
  exists g, List.find (fun g => String.eqb (gr_host g) h) geo = Some g /\ g ∈ geo.
Proof.
  intros Hh. destruct (List.find _ _) as [g|] eqn:E.
  - apply find_some in E as [Hin _]. exists g. by rewrite list_elem_of_In.
  - exfalso. apply list_elem_of_fmap in Hh as (g & -> & Hg). apply list_elem_of_In in Hg.
    apply (find_none _ _ E) in Hg. by rewrite String.eqb_refl in Hg.
Qed.

(** Composition.  The manual records kept are, in order, those that are
    not a CNAME or NS at the apex; the geo records are sorted by host, one per
    host, with the given endpoints; a host has one exactly when it is in the
    zone, was asked for (apex, [www] or an ingress host) and no manual A, AAAA
    or CNAME record owns it: manual records win. *)
Theorem composeZoneSnapshot_manual_wins input :
  let s := cr_snapshot (composeZoneSnapshot input) in
  z_staticRecords s = map (kept (z_zone s)) (List.filter (manual_ok (z_zone s)) (ci_manualRecords input)) /\
  (forall r, r ∈ z_staticRecords s -> sd_type r = T_CNAME \/ sd_type r = T_NS -> static_fqdn s r <> z_zone s) /\
  StronglySorted (le_by (cmp_on gr_host str_cmp)) (z_geoRecords s) /\
  NoDup (map gr_host (z_geoRecords s)) /\
  (forall g, g ∈ z_geoRecords s -> gr_endpoints g = ci_endpoints input) /\
  (forall h, h ∈ map gr_host (z_geoRecords s) <->
     in_zone h (z_zone s) = true /\ ~ manual_address s h /\
     exists a, a ∈ wanted_hosts input (z_zone s) /\ normalize (fst a) = h).
Proof.
  intros s. destruct (compose_geo input) as (Hs & Hnd & Heq & Hh). fold s in Hs, Hnd, Heq, Hh.
  assert (Hst : z_staticRecords s = map (kept (z_zone s)) (List.filter (manual_ok (z_zone s)) (ci_manualRecords input)))
    by (unfold s; by rewrite compose_zone, compose_static).
  split_and!; [done| |done|done|intros g Hg; by apply Heq|].
  - intros r Hr Ht Ha. rewrite Hst in Hr. apply list_elem_of_fmap in Hr as (r0 & -> & Hr).
    apply bfilter_elem in Hr as [_ Hok]. unfold manual_ok, static_fqdn in *.
    rewrite relativeToFqdn_kept in Ha. simpl in Ht.
    assert (Hn : relativeToFqdn (normalize (sd_name r0)) (z_zone s) = relativeToFqdn (sd_name r0) (z_zone s))
      by (unfold relativeToFqdn; by rewrite normalize_idemp).
    rewrite Hn, Ha, String.eqb_refl, andb_true_r in Hok. b2p.
    destruct Ht; congruence.
  - intros h. rewrite Hh, unclaimed_iff. tauto.
Qed.

Definition sample_input (manual : list StaticDnsRecord) : ZoneComposeInput :=
  {| ci_zone := {| cz_name := "Acme.com."; cz_ttl := 60; cz_serial := 1; cz_apexToEdge := true; cz_autoWww := true |};
     ci_advertised := [("n1", "192.0.2.1")];
     ci_autoHosts := [("Shop.acme.com", None); ("other.org", None)];
     ci_endpoints := gr_endpoints sample_geo; ci_manualRecords := manual; ci_maxAnswers := None |}.

(** Every host the composer was asked to steer, in the zone and not owned
    by a manual address record, resolves in the composed zone: an address query
    for it is answered with addresses of the given endpoints, a healthy one
    whenever there is one. *)
Theorem composed_host_resolves {D} (dcmp : D -> D -> Z) (km : LatLon -> LatLon -> D)
    `{!Comparator dcmp} input client a :
  let s := cr_snapshot (composeZoneSnapshot input) in
  a ∈ wanted_hosts input (z_zone s) ->
  in_zone (normalize (fst a)) (z_zone s) = true ->
  ~ manual_address s (normalize (fst a)) ->
  exists d geo, answerQuery dcmp km 1 [s] {| q_name := fst a; q_type := Some "A" |} client = Some d /\
    geo_answer s geo (normalize (fst a)) d /\ gr_endpoints geo = ci_endpoints input.
Proof.
  intros s Ha Hz Hm. destruct (compose_geo input) as (_ & _ & Heq & Hh). fold s in Heq, Hh.
  assert (Hin : normalize (fst a) ∈ map gr_host (z_geoRecords s)).
  { apply Hh. rewrite unclaimed_iff. eauto. }
  destruct (find_host _ _ Hin) as (geo & Hg & Hgin).
  destruct (answerQuery_geo dcmp km 0 [s] {| q_name := fst a; q_type := Some "A" |} client s geo)
    as (d & Hd & Hga); simpl q_name in *.
  - by rewrite findZone_single, normalize_idemp, Hz.
  - unfold viewName. done.
  - by apply compose_no_cname.
  - done.
  - exists d, geo. split_and!; [done|done|by apply Heq].
Qed.

Lemma composed_host_resolves_witness :
  let s := cr_snapshot (composeZoneSnapshot (sample_input [cname_record "www" "acme.com"; cname_record "@" "x.org"])) in
  map gr_host (z_geoRecords s) = ["acme.com"; "shop.acme.com"] /\
  exists d geo, answerQuery q_cmp l1_distance 1 [s] {| q_name := "Shop.acme.com"; q_type := Some "A" |}
      {| cl_coord := None; cl_region := None |} = Some d /\
    geo_answer s geo "shop.acme.com" d /\ gr_endpoints geo = gr_endpoints sample_geo.
Proof.
  intros s. split; [vm_compute; reflexivity|].
  apply (composed_host_resolves q_cmp l1_distance
    (sample_input [cname_record "www" "acme.com"; cname_record "@" "x.org"])
    {| cl_coord := None; cl_region := None |} ("Shop.acme.com", Some "route")).
  - vm_compute. right. left.
  - vm_compute. reflexivity.
  - intros (r & Hr & Hn & _). fold s in Hr, Hn.
    assert (Hs : z_staticRecords s = [cname_record "www" "acme.com"]) by (vm_compute; reflexivity).
    rewrite Hs in Hr. apply list_elem_of_singleton in Hr. subst r.
    vm_compute in Hn. discriminate Hn.
Defined.
