(* ===== verification/DnsServe.v ===== *)
(** The nameserver around the resolver: packets (packages/dns/src/wire.ts), the
    client location (geoip.ts), the query pipeline (apps/dns/src/query.ts) and
    the snapshot store (apps/dns/src/store.ts).

    Encoding and decoding of packets belong to the dns-packet library and are
    parameters, as are its flag masks, whose documented values are hypotheses,
    and the location database.  Flag words are 16 bits wide, so the 32-bit
    operators of the source agree with the ones on [Z]. *)

From S2P Require Import Prelude Comparators AbacModel DnsSteer DnsAnswer DnsResolve.

(** * Packets *)

Record OptOption := {
  oo_type : string; oo_code : option Z; oo_ip : option string; oo_family : option Z;
  oo_source : option Z; oo_scope : option Z
}.

Record OptAnswer := { opt_udpPayloadSize : option Z; opt_options : list OptOption }.

Inductive Additional :=
  | Rr (a : Answer)
  | Opt (o : OptAnswer).

Record Packet := {
  pk_id : Z; pk_type : string; pk_flags : Z;
  pk_questions : list Question;
  pk_answers : list Answer; pk_authorities : list Answer;
  pk_additionals : list Additional
}.

Record EcsInfo := { ecs_ip : string; ecs_family : Z; ecs_source : Z; ecs_scope : Z }.

Record ParsedQuery := {
  pq_packet : Packet; pq_question : option Question; pq_ecs : option EcsInfo;
  pq_edns : bool; pq_udpPayloadSize : Z
}.

Definition EDNS_UDP_PAYLOAD : Z := 1232.
Definition PLAIN_UDP_PAYLOAD : Z := 512.

Fixpoint find_opt (l : list Additional) : option OptAnswer :=
  match l with
  | [] => None
  | Opt o :: _ => Some o
  | Rr _ :: l' => find_opt l'
  end.

(** One option of the OPT record: a client subnet with an address replaces the
    one found before. *)
Definition ecs_step (ecs : option EcsInfo) (o : OptOption) : option EcsInfo :=
  if String.eqb (oo_type o) "CLIENT_SUBNET" || bool_decide (oo_code o = Some 8) then
    match oo_ip o with
    | Some ip =>
        if String.eqb ip "" then ecs
        else Some {| ecs_ip := ip; ecs_family := default 1 (oo_family o);
                     ecs_source := default 0 (oo_source o); ecs_scope := default 0 (oo_scope o) |}
    | None => ecs
    end
  else ecs.

Definition RCODE_BITS (r : Rcode) : Z :=
  match r with
  | NOERROR => 0 | FORMERR => 1 | SERVFAIL => 2 | NXDOMAIN => 3 | NOTIMP => 4 | REFUSED => 5
  end.

Record ResponseInput := {
  ri_query : ParsedQuery; ri_rcode : Rcode; ri_aa : bool;
  ri_answers : list Answer; ri_authorities : list Answer; ri_additionals : list Answer;
  ri_ecsScope : option Z
}.

Definition withRcode (packet : Packet) (rcode : Rcode) : Packet :=
  {| pk_id := pk_id packet; pk_type := pk_type packet;
     pk_flags := Z.lor (pk_flags packet) (RCODE_BITS rcode);
     pk_questions := pk_questions packet; pk_answers := pk_answers packet;
     pk_authorities := pk_authorities packet; pk_additionals := pk_additionals packet |}.

Definition is_opt (a : Additional) : bool := match a with Opt _ => true | Rr _ => false end.

(** * The snapshot store *)

Record Bundle := { b_version : Z; b_zones : list DnsZoneSnapshot }.

Definition store_version (st : option Bundle) : Z :=
  match st with Some b => b_version b | None => -1 end.

(** [SnapshotStore.apply] of a candidate that parsed ([Some]) or did not. *)
Definition store_apply (st : option Bundle) (candidate : option Bundle) : option Bundle * bool :=
  match candidate with
  | None => (st, false)
  | Some next =>
      match st with
      | Some b => if b_version next <=? b_version b then (st, false) else (Some next, true)
      | None => (Some next, true)
      end
  end.

Section serve.
(** dns-packet: its codecs and its flag masks. *)
Context (decode : string -> option Packet) (encode : Packet -> string).
Context (AUTHORITATIVE_ANSWER TRUNCATED_RESPONSE RECURSION_DESIRED : Z).
(** The location database. *)
Context (lookup : string -> option LatLon).
Context {D : Type} (dcmp : D -> D -> Z) (km : LatLon -> LatLon -> D).

Definition parsePacket (packet : Packet) : ParsedQuery :=
  let opt := find_opt (pk_additionals packet) in
  let ecs := foldl ecs_step None (match opt with Some o => opt_options o | None => [] end) in
  let udp := match opt with Some o => opt_udpPayloadSize o | None => None end in
  {| pq_packet := packet; pq_question := hd_error (pk_questions packet); pq_ecs := ecs;
     pq_edns := match opt with Some _ => true | None => false end;
     pq_udpPayloadSize := Z.max PLAIN_UDP_PAYLOAD (Z.min (default PLAIN_UDP_PAYLOAD udp) EDNS_UDP_PAYLOAD) |}.

Definition parseQuery (buf : string) : option ParsedQuery := option_map parsePacket (decode buf).

Definition buildResponse (input : ResponseInput) : Packet :=
  let query := ri_query input in
  {| pk_id := pk_id (pq_packet query); pk_type := "response";
     pk_flags := Z.lor (if ri_aa input then AUTHORITATIVE_ANSWER else 0)
                       (Z.land (pk_flags (pq_packet query)) RECURSION_DESIRED);
     pk_questions := match pq_question query with Some q => [q] | None => [] end;
     pk_answers := ri_answers input;
     pk_authorities := ri_authorities input;
     pk_additionals := map Rr (ri_additionals input) ++
       (if pq_edns query then
          [Opt {| opt_udpPayloadSize := Some EDNS_UDP_PAYLOAD;
                  opt_options := match pq_ecs query with
                    | Some e => [ {| oo_type := "CLIENT_SUBNET"; oo_code := Some 8; oo_ip := Some (ecs_ip e);
                                     oo_family := Some (ecs_family e); oo_source := Some (ecs_source e);
                                     oo_scope := Some (default 0 (ri_ecsScope input)) |} ]
                    | None => [] end |}]
        else []) |}.

Definition truncated (packet : Packet) : Packet :=
  {| pk_id := pk_id packet; pk_type := pk_type packet;
     pk_flags := Z.lor (pk_flags packet) TRUNCATED_RESPONSE;
     pk_questions := pk_questions packet; pk_answers := []; pk_authorities := [];
     pk_additionals := List.filter is_opt (pk_additionals packet) |}.

Definition encodeForUdp (packet : Packet) (maxBytes : Z) : string :=
  let full := encode packet in
  if Z.of_nat (String.length full) <=? maxBytes then full else encode (truncated packet).

(** [reader] is [false] when the database is not available. *)
Definition ipToClientLocation (ecs : option EcsInfo) (resolverIp : option string) (reader : bool)
    : ClientLocation :=
  let none := {| cl_coord := None; cl_region := None |} in
  let at_ c := {| cl_coord := Some c; cl_region := None |} in
  let by_resolver :=
    match resolverIp with
    | Some ip => if String.eqb ip "" then none
                 else match lookup ip with Some c => at_ c | None => none end
    | None => none
    end in
  if negb reader then none
  else match ecs with
       | Some e =>
           if negb (String.eqb (ecs_ip e) "") && (0 <? ecs_source e) then
             match lookup (ecs_ip e) with Some c => at_ c | None => by_resolver end
           else by_resolver
       | None => by_resolver
       end.

Record DnsMetrics := { m_parseErrors : Z }.

(** Dropped packets, answers, and resolution that does not return. *)
Inductive Handled :=
  | Dropped
  | Response (packet : Packet) (parsed : ParsedQuery)
  | Overflow.

Definition response_for (parsed : ParsedQuery) (result : DnsAnswer) : Packet :=
  withRcode
    (buildResponse {| ri_query := parsed; ri_rcode := da_rcode result; ri_aa := da_aa result;
       ri_answers := da_answers result; ri_authorities := da_authorities result;
       ri_additionals := da_additionals result;
       ri_ecsScope := Some (match pq_ecs parsed with
                            | Some e => if da_steered result then ecs_source e else 0
                            | None => 0 end) |})
    (da_rcode result).

Definition handleQuery (fuel : nat) (store : option Bundle) (reader : bool) (raw : string)
    (resolverIp : option string) (metrics : DnsMetrics) : Handled * DnsMetrics :=
  let error := {| m_parseErrors := m_parseErrors metrics + 1 |} in
  match parseQuery raw with
  | None => (Dropped, error)
  | Some parsed =>
      match pq_question parsed with
      | None => (Dropped, error)
      | Some question =>
          if negb (String.eqb (pk_type (pq_packet parsed)) "query") then (Dropped, error)
          else
            let zones := match store with Some b => b_zones b | None => [] end in
            let client := ipToClientLocation (pq_ecs parsed) resolverIp reader in
            match answerQuery dcmp km fuel zones question client with
            | None => (Overflow, metrics)
            | Some result => (Response (response_for parsed result) parsed, metrics)
            end
      end
  end.

(** ** Properties *)

(** The documented masks of dns-packet. *)
Hypothesis AA_mask : AUTHORITATIVE_ANSWER = 2 ^ 10.
Hypothesis TC_mask : TRUNCATED_RESPONSE = 2 ^ 9.
Hypothesis RD_mask : RECURSION_DESIRED = 2 ^ 8.

Lemma rcode_bits_small r n : 3 <= n -> Z.testbit (RCODE_BITS r) n = false.
Proof using Type.
  intros Hn. apply Z.bits_above_log2; [by destruct r|]. destruct r; vm_compute Z.log2; lia.
Qed.

Lemma rcode_low r flags : Z.land flags 15 = 0 -> Z.land (Z.lor flags (RCODE_BITS r)) 15 = RCODE_BITS r.
Proof using Type. intros H. rewrite Z.land_lor_distr_l, H. by destruct r. Qed.

Lemma pow2_bit k n : 0 <= k -> Z.testbit (2 ^ k) n = (k =? n).
Proof using Type. intros Hk. apply Z.pow2_bits_eqb. done. Qed.

(** The flag word of a response. *)
Lemma response_flags parsed result :
  let flags := pk_flags (response_for parsed result) in
  Z.land flags 15 = RCODE_BITS (da_rcode result) /\
  Z.testbit flags 10 = da_aa result /\
  Z.testbit flags 9 = false /\
  Z.testbit flags 8 = Z.testbit (pk_flags (pq_packet parsed)) 8.
Proof using AA_mask RD_mask.
  intros flags.
  assert (Hf : flags = Z.lor (Z.lor (if da_aa result then 2 ^ 10 else 0)
                               (Z.land (pk_flags (pq_packet parsed)) (2 ^ 8))) (RCODE_BITS (da_rcode result)))
    by (unfold flags; rewrite <- AA_mask, <- RD_mask; done).
  clearbody flags. subst flags.
  assert (Hbit : forall n, 3 <= n -> Z.testbit
    (Z.lor (Z.lor (if da_aa result then 2 ^ 10 else 0) (Z.land (pk_flags (pq_packet parsed)) (2 ^ 8)))
      (RCODE_BITS (da_rcode result))) n =
    (da_aa result && (10 =? n)) || (Z.testbit (pk_flags (pq_packet parsed)) n && (8 =? n))).
  { intros n Hn. rewrite !Z.lor_spec, Z.land_spec, rcode_bits_small, orb_false_r, (pow2_bit 8) by lia.
    destruct (da_aa result); [by rewrite (pow2_bit 10) by lia|by rewrite Z.testbit_0_l]. }
  split_and!; [|rewrite Hbit by lia..].
  - apply rcode_low. rewrite Z.land_lor_distr_l, <- Z.land_assoc.
    change (Z.land (2 ^ 8) 15) with 0. rewrite Z.land_0_r. by destruct (da_aa result).
  - simpl. by rewrite andb_false_r, orb_false_r, andb_true_r.
  - simpl. by rewrite !andb_false_r.
  - simpl. by rewrite andb_false_r, andb_true_r.
Qed.

Lemma payload_bounds buf parsed : parseQuery buf = Some parsed ->
  PLAIN_UDP_PAYLOAD <= pq_udpPayloadSize parsed <= EDNS_UDP_PAYLOAD.
Proof using Type.
  unfold parseQuery. destruct (decode buf); [|done]. intros [= <-]. unfold parsePacket. simpl.
  unfold PLAIN_UDP_PAYLOAD, EDNS_UDP_PAYLOAD. lia.
Qed.

(** What a response to [raw] carries. *)
Definition response_ok (store : option Bundle) (raw : string) (packet : Packet) (parsed : ParsedQuery) : Prop :=
  exists query q result,
    decode raw = Some query /\ parsed = parsePacket query /\ hd_error (pk_questions query) = Some q /\
    classified (match store with Some b => b_zones b | None => [] end) q result /\
    pk_id packet = pk_id query /\ pk_questions packet = [q] /\
    pk_answers packet = da_answers result /\ pk_authorities packet = da_authorities result /\
    Z.land (pk_flags packet) 15 = RCODE_BITS (da_rcode result) /\
    Z.testbit (pk_flags packet) 10 = da_aa result /\
    Z.testbit (pk_flags packet) 9 = false /\
    Z.testbit (pk_flags packet) 8 = Z.testbit (pk_flags query) 8 /\
    (existsb is_opt (pk_additionals packet) = existsb is_opt (pk_additionals query)) /\
    PLAIN_UDP_PAYLOAD <= pq_udpPayloadSize parsed <= EDNS_UDP_PAYLOAD.

Lemma find_opt_is_opt l : match find_opt l with Some _ => true | None => false end = existsb is_opt l.
Proof using Type. induction l as [|[a|o] l IH]; simpl; done. Qed.

Lemma handleQuery_response fuel store reader raw resolverIp metrics packet parsed metrics' :
  handleQuery fuel store reader raw resolverIp metrics = (Response packet parsed, metrics') ->
  metrics' = metrics /\ response_ok store raw packet parsed.
Proof using AA_mask RD_mask.
  unfold handleQuery, parseQuery. destruct (decode raw) as [query|] eqn:Ed; simpl; [|done].
  destruct (hd_error (pk_questions query)) as [q|] eqn:Eq; [|done].
  destruct (negb _); [done|].
  destruct (answerQuery _ _ _ _ _ _) as [result|] eqn:Er; [|done]. intros [= <- <- <-].
  split; [done|]. exists query, q, result.
  destruct (response_flags (parsePacket query) result) as (H1 & H2 & H3 & H4).
  split_and!; try done.
  - by eapply answerQuery_classified.
  - simpl. by rewrite Eq.
  - simpl. rewrite existsb_app, <- (find_opt_is_opt (pk_additionals query)).
    assert (Hn : existsb is_opt (map Rr (da_additionals result)) = false) by (by induction (da_additionals result)).
    rewrite Hn. by destruct (find_opt _).
  - by apply (payload_bounds raw); unfold parseQuery; rewrite Ed.
  - by apply (payload_bounds raw); unfold parseQuery; rewrite Ed.
Qed.

(** A datagram never exceeds the client's ceiling as long as the header, the
    question and the OPT record fit it; one that had to be cut says so. *)
Lemma encodeForUdp_spec packet maxBytes :
  Z.of_nat (String.length (encode (truncated packet))) <= maxBytes ->
  Z.of_nat (String.length (encodeForUdp packet maxBytes)) <= maxBytes /\
  (encodeForUdp packet maxBytes = encode packet \/
   exists cut, encodeForUdp packet maxBytes = encode cut /\ Z.testbit (pk_flags cut) 9 = true /\
     pk_id cut = pk_id packet /\ pk_questions cut = pk_questions packet /\ pk_answers cut = [] /\
     Z.land (pk_flags cut) 15 = Z.land (pk_flags packet) 15).
Proof using TC_mask.
  intros Hfit. unfold encodeForUdp.
  destruct (Z.leb_spec (Z.of_nat (String.length (encode packet))) maxBytes); [by split; [|left]|].
  split; [done|]. right. exists (truncated packet). split_and!; try done; unfold truncated; cbn [pk_flags]; rewrite TC_mask.
  - rewrite Z.lor_spec, (pow2_bit 9) by done. apply orb_true_r.
  - rewrite Z.land_lor_distr_l. change (Z.land (2 ^ 9) 15) with 0. by rewrite Z.lor_0_r.
Qed.
End serve.

(** A question is answered in a packet that echoes its id, its question
    and its RD bit, carries the response code and the authority bit of the
    resolver's answer and an OPT record exactly when the query had one; every
    packet that is not answered is dropped and counted.  On the wire the answer
    fits the client's ceiling, between 512 and 1232 bytes, or is cut to the
    header, question and OPT record with the TC bit set. *)
Theorem handleQuery_wire (decode : string -> option Packet) (encode : Packet -> string)
    (AA TC RD : Z) (lookup : string -> option LatLon) {D} (dcmp : D -> D -> Z) (km : LatLon -> LatLon -> D)
    (AA_mask : AA = 2 ^ 10) (TC_mask : TC = 2 ^ 9) (RD_mask : RD = 2 ^ 8)
    fuel store reader raw resolverIp metrics outcome metrics' :
  handleQuery decode AA RD lookup dcmp km fuel store reader raw resolverIp metrics = (outcome, metrics') ->
  match outcome with
  | Dropped => m_parseErrors metrics' = m_parseErrors metrics + 1
  | Overflow => metrics' = metrics
  | Response packet parsed =>
      metrics' = metrics /\ response_ok decode store raw packet parsed /\
      forall datagram, datagram = encodeForUdp encode TC packet (pq_udpPayloadSize parsed) ->
      Z.of_nat (String.length (encode (truncated TC packet))) <= pq_udpPayloadSize parsed ->
      Z.of_nat (String.length datagram) <= EDNS_UDP_PAYLOAD /\
      (datagram = encode packet \/
       exists cut, datagram = encode cut /\ Z.testbit (pk_flags cut) 9 = true /\
         pk_id cut = pk_id packet /\ pk_questions cut = pk_questions packet /\ pk_answers cut = [] /\
         Z.land (pk_flags cut) 15 = Z.land (pk_flags packet) 15)
  end.
Proof.
  intros H. destruct outcome as [|packet parsed|].
  - unfold handleQuery in H. repeat (case_match; simplify_eq/=); done.
  - destruct (handleQuery_response decode AA RD lookup dcmp km AA_mask RD_mask
      _ _ _ _ _ _ _ _ _ H) as [Hm Hok].
    split; [done|]. split; [done|]. intros datagram -> Hfit.
    destruct (encodeForUdp_spec encode TC TC_mask packet (pq_udpPayloadSize parsed) Hfit) as [Hlen Hcut].
    split; [|done]. destruct Hok as (? & ? & ? & Hok). destruct_and! Hok. lia.
  - unfold handleQuery in H. repeat (case_match; simplify_eq/=); done.
Qed.

Definition sample_query (name : string) : Packet :=
  {| pk_id := 4660; pk_type := "query"; pk_flags := 256;
     pk_questions := [ {| q_name := name; q_type := Some "A" |} ];
     pk_answers := []; pk_authorities := []; pk_additionals := [] |}.

(** A codec that knows one query and writes twenty bytes a record. *)
Definition sample_encode (p : Packet) : string :=
  String.concat "" (repeat "XXXXXXXXXXXXXXXXXXXX" (length (pk_answers p) + length (pk_authorities p))%nat).

Lemma handleQuery_wire_witness :
  let decode := fun raw => if String.eqb raw "q" then Some (sample_query "www.acme.com") else None in
  let store := Some {| b_version := 3; b_zones := [sample_zone [sample_geo] []] |} in
  exists packet parsed,
    handleQuery decode (2 ^ 10) (2 ^ 8) (fun _ => None) q_cmp l1_distance 1 store true "q" (Some "198.51.100.7")
      {| m_parseErrors := 0 |} = (Response packet parsed, {| m_parseErrors := 0 |}) /\
    response_ok decode store "q" packet parsed /\ pk_answers packet = [a_record "www.acme.com" 60 "192.0.2.2"].
Proof.
  intros decode store. eexists _, _. split; [vm_compute; reflexivity|]. split; [|vm_compute; reflexivity].
  refine (proj1 (proj2 (handleQuery_wire decode sample_encode (2 ^ 10) (2 ^ 9) (2 ^ 8) (fun _ => None)
    q_cmp l1_distance eq_refl eq_refl eq_refl 1 store true "q" (Some "198.51.100.7")
    {| m_parseErrors := 0 |} (Response _ _) _ _))).
  vm_compute. reflexivity.
Defined.

(** * The store *)

Definition pushes (st : option Bundle) (l : list (option Bundle)) : option Bundle :=
  foldl (fun st c => fst (store_apply st c)) st l.

(** The version served never goes back and the bundle served is always the
    one held before or one of those pushed; after any sequence of pushes it has
    the greatest version among them, so replays and reorderings are harmless. *)
Theorem store_monotonic b l :
  exists b', pushes (Some b) l = Some b' /\
    (b' = b \/ Some b' ∈ l) /\
    b_version b <= b_version b' /\
    (forall c, Some c ∈ l -> b_version c <= b_version b').
Proof.
  revert b. induction l as [|c l IH]; intros b; simpl.
  - exists b. split_and!; [done|by left|lia|]. intros c Hc. by apply not_elem_of_nil in Hc.
  - assert (Hc : exists b1, fst (store_apply (Some b) c) = Some b1 /\ (b1 = b \/ Some b1 = c) /\
      b_version b <= b_version b1 /\ (forall x, Some x = c -> b_version x <= b_version b1)).
    { destruct c as [c|]; simpl; [|exists b; split_and!; naive_solver lia].
      destruct (Z.leb_spec (b_version c) (b_version b)); simpl;
        [exists b|exists c]; split_and!; try naive_solver lia. }
    destruct Hc as (b1 & -> & H1 & H2 & H3). destruct (IH b1) as (b' & Hp & H4 & H5 & H6).
    exists b'. split_and!; [done| |lia|].
    + destruct H4 as [->|H4]; [|by right; right]. destruct H1 as [->|H1]; [by left|]. right. rewrite H1. left.
    + intros x [Hx|Hx]%elem_of_cons; [|by apply H6]. specialize (H3 _ Hx). lia.
Qed.
