(* ===== verification/Lease.v ===== *)
(** The controller's single-writer lease: the decisions
    (apps/api/src/controller-store/lease.ts), the agent's side of them
    (packages/core/src/protocol/controllerService.ts) and the version-checked
    write that carries them out (apps/agent/src/handlers/controller-service.ts).

    Times are integers in milliseconds; epochs are the integers of the record's
    schema. *)

From S2P Require Import Prelude.

Record ControllerLeaseRecord := {
  holder : string; node : string; hostname : option string;
  epoch : Z; renewedAt : Z; ttlMs : Z; released : option bool
}.

(** [!!r.released] *)
Definition is_released (r : ControllerLeaseRecord) : bool := default false (released r).

Definition sameLeaseWrite (a b : option ControllerLeaseRecord) : bool :=
  match a, b with
  | Some a, Some b =>
      String.eqb (holder a) (holder b) && (epoch a =? epoch b) && (renewedAt a =? renewedAt b) &&
      Bool.eqb (is_released a) (is_released b)
  | None, None => true
  | _, _ => false
  end.

(** * The agent's decisions *)

Inductive LeaseOp :=
  | acquire (op_holder op_node : string) (op_hostname : option string) (op_ttlMs : Z)
      (expect : option ControllerLeaseRecord) (op_minEpoch : Z)
  | renew (op_holder op_node : string) (op_hostname : option string) (op_ttlMs op_epoch : Z)
  | release (op_holder : string) (op_epoch : Z).

Inductive LossReason := held | lost | conflict | not_found | not_system.
#[export] Instance LossReason_eq_dec : EqDecision LossReason.
Proof. solve_decision. Defined.

Record ControllerServiceResult := {
  res_ok : bool; res_lease : option ControllerLeaseRecord; res_reason : option LossReason
}.

Definition ok_result (l : option ControllerLeaseRecord) : ControllerServiceResult :=
  {| res_ok := true; res_lease := l; res_reason := None |}.
Definition no_result (l : option ControllerLeaseRecord) (r : LossReason) : ControllerServiceResult :=
  {| res_ok := false; res_lease := l; res_reason := Some r |}.

(** [x ? { hostname: x } : {}]: the empty name is no name. *)
Definition truthy_name (x : option string) : option string :=
  match x with Some h => if String.eqb h "" then None else Some h | None => None end.

(** The live lease is [h]'s at epoch [e]. *)
Definition ours_at (live : option ControllerLeaseRecord) (h : string) (e : Z) : option ControllerLeaseRecord :=
  match live with
  | Some l => if String.eqb (holder l) h && (epoch l =? e) && negb (is_released l) then Some l else None
  | None => None
  end.

Definition decideLeaseWrite (live : option ControllerLeaseRecord) (op : LeaseOp) (now : Z)
    : option ControllerLeaseRecord * ControllerServiceResult :=
  match op with
  | acquire h n hn ttl expect minE =>
      let free := match live with None => true | Some l => is_released l end in
      let stale := match expect with None => false | Some _ => sameLeaseWrite live expect end in
      if negb free && negb stale then (None, no_result live held)
      else
        let next := {| holder := h; node := n; hostname := truthy_name hn;
                       epoch := Z.max (match live with Some l => epoch l | None => 0 end) minE + 1;
                       renewedAt := now; ttlMs := ttl; released := None |} in
        (Some next, ok_result (Some next))
  | renew h n hn ttl e =>
      match ours_at live h e with
      | None => (None, no_result live lost)
      | Some l =>
          let next := {| holder := holder l; node := n;
                         hostname := match truthy_name hn with Some x => Some x | None => hostname l end;
                         epoch := epoch l; renewedAt := now; ttlMs := ttl; released := released l |} in
          (Some next, ok_result (Some next))
      end
  | release h e =>
      match ours_at live h e with
      | None => (None, ok_result live)
      | Some l =>
          let next := {| holder := holder l; node := node l; hostname := hostname l; epoch := epoch l;
                         renewedAt := now; ttlMs := ttlMs l; released := Some true |} in
          (Some next, ok_result (Some next))
      end
  end.

Definition casLossReason (op : LeaseOp) (current : option ControllerLeaseRecord) : LossReason :=
  match op with
  | renew h _ _ _ e => match ours_at current h e with Some _ => conflict | None => lost end
  | _ => conflict
  end.

(** The controller's service, as the Docker API shows it.  [sv_index] is the
    version index every update bumps. *)
Record Service := { sv_index : Z; sv_system : bool; sv_lease : option ControllerLeaseRecord }.

(** The lease branch of [applyControllerService].  The service is inspected,
    then updated at the inspected index, then inspected again when the update is
    refused: three looks at a state other writers change meanwhile.  The result
    is the record written, if any, and the answer. *)
Definition applyLease (atInspect atUpdate atReread : option Service) (op : LeaseOp) (now : Z)
    : option ControllerLeaseRecord * ControllerServiceResult :=
  match atInspect with
  | None => (None, no_result None not_found)
  | Some svc =>
      if negb (sv_system svc) then (None, no_result None not_system)
      else
        match decideLeaseWrite (sv_lease svc) op now with
        | (None, result) => (None, result)
        | (Some next, result) =>
            let accepted := match atUpdate with Some s => sv_index s =? sv_index svc | None => false end in
            if accepted then (Some next, result)
            else
              let current := match atReread with Some s => sv_lease s | None => None end in
              (None, no_result current (casLossReason op current))
        end
  end.

(** * The controller's decisions *)

Definition LEASE_TTL_MS : Z := 60000.
Definition LEASE_RENEW_EVERY_MS : Z := 10000.
Definition LEASE_RETRY_MS : Z := 2000.
Definition LEASE_FENCE_MARGIN_MS : Z := 8000.

Record LeaseSelf := { self_holder : string; self_node : string }.

Record LeaseObservation := { obs_record : option ControllerLeaseRecord; firstSeenAt : Z }.

Definition observe (prev : option LeaseObservation) (record : option ControllerLeaseRecord) (now : Z)
    : LeaseObservation :=
  match prev with
  | Some p => if sameLeaseWrite (obs_record p) record then p else {| obs_record := record; firstSeenAt := now |}
  | None => {| obs_record := record; firstSeenAt := now |}
  end.

Inductive TakeWhy := w_free | w_released | w_ours | w_same_node | w_expired.

Inductive TakeoverDecision :=
  | Take (expect : option ControllerLeaseRecord) (why : TakeWhy)
  | Wait (waitMs : Z) (by_ : ControllerLeaseRecord).

Definition takeoverDecision (obs : LeaseObservation) (self : LeaseSelf) (now : Z) : TakeoverDecision :=
  match obs_record obs with
  | None => Take None w_free
  | Some r =>
      if is_released r then Take (Some r) w_released
      else if String.eqb (holder r) (self_holder self) then Take (Some r) w_ours
      else if negb (String.eqb (node r) "") && String.eqb (node r) (self_node self) then Take (Some r) w_same_node
      else
        let waited := now - firstSeenAt obs in
        if ttlMs r <=? waited then Take (Some r) w_expired else Wait (ttlMs r - waited) r
  end.

Definition fenceDeadline (lastOkSentAt ttl margin : Z) : Z := lastOkSentAt + ttl - margin.

Definition mustFence (now lastOkSentAt ttl margin : Z) : bool :=
  fenceDeadline lastOkSentAt ttl margin <=? now.

Definition minEpoch (seen : list (option Z)) : Z := foldr (fun e m => Z.max (default 0 e) m) 0 seen.

Definition stillHeld (result : ControllerServiceResult) (self : LeaseSelf) (e : Z) : bool :=
  res_ok result &&
  match res_lease result with
  | Some l => String.eqb (holder l) (self_holder self) && (epoch l =? e) && negb (is_released l)
  | None => false
  end.

Inductive RenewalVerdict :=
  | V_held (l : ControllerLeaseRecord)
  | V_lost (l : ControllerLeaseRecord)
  | V_free (l : option ControllerLeaseRecord)
  | V_unknown.

Definition renewalVerdict (res : option ControllerServiceResult) (self : LeaseSelf) : RenewalVerdict :=
  match res with
  | None => V_unknown
  | Some r =>
      if bool_decide (res_reason r = Some not_found) || bool_decide (res_reason r = Some not_system) then V_unknown
      else match res_lease r with
           | None => V_free None
           | Some l =>
               if is_released l then V_free (Some l)
               else if String.eqb (holder l) (self_holder self)
                    then if res_ok r then V_held l else V_unknown
                    else V_lost l
           end
  end.

Definition fenceOnSilence (now lastOkSentAt : Z) (managers : option Z) : bool :=
  if bool_decide (managers = Some 1) then false
  else mustFence now lastOkSentAt LEASE_TTL_MS LEASE_FENCE_MARGIN_MS.

(** * Lemmas *)

Lemma sameLeaseWrite_refl a : sameLeaseWrite a a = true.
Proof. destruct a as [r|]; simpl; [|done]. by rewrite String.eqb_refl, !Z.eqb_refl, eqb_reflx. Qed.

Lemma sameLeaseWrite_Some a b : sameLeaseWrite (Some a) (Some b) = true <->
  holder a = holder b /\ epoch a = epoch b /\ renewedAt a = renewedAt b /\ is_released a = is_released b.
Proof. simpl. rewrite !andb_true_iff, String.eqb_eq, !Z.eqb_eq, eqb_true_iff. tauto. Qed.

Lemma sameLeaseWrite_sym a b : sameLeaseWrite a b = sameLeaseWrite b a.
Proof.
  destruct a as [a|], b as [b|]; simpl; try done.
  by rewrite String.eqb_sym, (Z.eqb_sym (epoch a)), (Z.eqb_sym (renewedAt a)); destruct (is_released a), (is_released b).
Qed.

Lemma sameLeaseWrite_trans a b c :
  sameLeaseWrite a b = true -> sameLeaseWrite b c = true -> sameLeaseWrite a c = true.
Proof.
  destruct a as [a|], b as [b|], c as [c|]; try done.
  rewrite !sameLeaseWrite_Some. intuition congruence.
Qed.

Lemma ours_at_spec live h e l : ours_at live h e = Some l <->
  live = Some l /\ holder l = h /\ epoch l = e /\ is_released l = false.
Proof.
  unfold ours_at. destruct live as [r|]; [|naive_solver].
  destruct (String.eqb (holder r) h && (epoch r =? e) && negb (is_released r)) eqn:E.
  - b2p. naive_solver.
  - split; [done|]. intros ([= ->] & <- & <- & Hr). by rewrite String.eqb_refl, Z.eqb_refl, Hr in E.
Qed.

(** The cases in which an acquire writes. *)
Lemma decide_acquire_Some live h n hn ttl expect minE now next r :
  decideLeaseWrite live (acquire h n hn ttl expect minE) now = (Some next, r) ->
  (live = None \/ (exists l, live = Some l /\ is_released l = true) \/
   exists e, expect = Some e /\ sameLeaseWrite live expect = true) /\
  holder next = h /\ node next = n /\ ttlMs next = ttl /\ renewedAt next = now /\ is_released next = false /\
  epoch next = Z.max (match live with Some l => epoch l | None => 0 end) minE + 1 /\
  r = ok_result (Some next).
Proof.
  unfold decideLeaseWrite. intros H.
  destruct (negb match live with None => true | Some l => is_released l end &&
            negb match expect with None => false | Some _ => sameLeaseWrite live expect end) eqn:E;
    [done|]. injection H as <- <-. split; [|done].
  destruct live as [l|]; [|by left]. destruct (is_released l) eqn:El; [right; left; eauto|].
  destruct expect as [e|]; [|done]. simpl negb in E at 1. rewrite andb_true_l in E. b2p. right; right; eauto.
Qed.

(** A takeover of a lease that is neither released, ours nor this node's needs
    a watch of its whole TTL. *)
Lemma takeover_Some obs self now r why :
  takeoverDecision obs self now = Take (Some r) why ->
  obs_record obs = Some r /\
  (is_released r = true \/ holder r = self_holder self \/ node r = self_node self /\ node r <> "" \/
   firstSeenAt obs + ttlMs r <= now).
Proof.
  unfold takeoverDecision. destruct (obs_record obs) as [x|]; [|done].
  destruct (is_released x) eqn:E1; [intros [= <- <-]; auto|].
  destruct (String.eqb (holder x) (self_holder self)) eqn:E2; [b2p; intros [= <- <-]; auto|].
  destruct (negb _ && _) eqn:E3; [b2p; intros [= <- <-]; auto 6|].
  destruct (Z.leb_spec (ttlMs x) (now - firstSeenAt obs)); [|done].
  intros [= <- <-]. split; [done|]. do 3 right. lia.
Qed.

Lemma observe_cases prev record now :
  (exists p, prev = Some p /\ observe prev record now = p /\ sameLeaseWrite (obs_record p) record = true) \/
  observe prev record now = {| obs_record := record; firstSeenAt := now |}.
Proof. unfold observe. destruct prev as [p|]; [|by right]. destruct (sameLeaseWrite _ _) eqn:E; eauto. Qed.

Lemma verdict_held res self l : renewalVerdict res self = V_held l ->
  exists r, res = Some r /\ res_ok r = true /\ res_lease r = Some l /\
    holder l = self_holder self /\ is_released l = false.
Proof.
  unfold renewalVerdict. destruct res as [r|]; [|done]. intros H.
  repeat (case_match; simplify_eq); b2p. eauto 8.
Qed.

(** * Properties *)

(** Docker's contract on the version index of a service: an update bumps it, so
    two looks at one index show one lease. *)
Definition index_is_version (looks : list (option Service)) : Prop :=
  forall s1 s2, Some s1 ∈ looks -> Some s2 ∈ looks -> sv_index s1 = sv_index s2 -> sv_lease s1 = sv_lease s2.

(** The agent's read-decide-write is a compare-and-swap.  A write happens
    only when the version index did not move since the inspection, and then it
    is the one the lease at that very moment allows; a caller is told [ok] with
    its write only if the write happened; a lost race reports the lease as it
    is now, [lost] exactly when a renewal's lease is no longer its own. *)
Theorem applyLease_cas atInspect atUpdate atReread op now next result :
  index_is_version [atInspect; atUpdate; atReread] ->
  applyLease atInspect atUpdate atReread op now = (next, result) ->
  match next with
  | Some n => exists s, atUpdate = Some s /\ decideLeaseWrite (sv_lease s) op now = (Some n, result) /\
      result = ok_result (Some n)
  | None =>
      (res_ok result = true -> exists s h e, atInspect = Some s /\ op = release h e /\
         ours_at (sv_lease s) h e = None /\ res_lease result = sv_lease s) /\
      (res_reason result = Some lost ->
       exists h n hn ttl e, op = renew h n hn ttl e /\ ours_at (res_lease result) h e = None)
  end.
Proof.
  intros Hv H. unfold applyLease in H.
  destruct atInspect as [s|]; [|by simplify_eq]. destruct (negb (sv_system s)); [by simplify_eq|].
  assert (Hok : forall n r, decideLeaseWrite (sv_lease s) op now = (Some n, r) -> r = ok_result (Some n)).
  { intros n r Hd. unfold decideLeaseWrite in Hd. repeat (case_match; simplify_eq); done. }
  destruct (decideLeaseWrite (sv_lease s) op now) as [[n|] r] eqn:Hd.
  - destruct atUpdate as [u|]; [destruct (Z.eqb_spec (sv_index u) (sv_index s)) as [Hi|Hi]|]; simplify_eq.
    + exists u. rewrite (Hv u s) by (done || set_solver). split_and!; [done|done|by apply Hok].
    + split; [done|]. destruct op; simpl; try done. case_match; [done|]. naive_solver.
    + split; [done|]. destruct op; simpl; try done. case_match; [done|]. naive_solver.
  - simplify_eq. unfold decideLeaseWrite in Hd. split.
    + intros Ht. repeat (case_match; simplify_eq/=); naive_solver.
    + intros Ht. repeat (case_match; simplify_eq/=); naive_solver.
Qed.

Definition sample_lease (h n : string) (e at_ : Z) : ControllerLeaseRecord :=
  {| holder := h; node := n; hostname := None; epoch := e; renewedAt := at_; ttlMs := LEASE_TTL_MS; released := None |}.

Lemma applyLease_cas_witness :
  let s := {| sv_index := 4; sv_system := true; sv_lease := Some (sample_lease "t1" "n1" 3 100) |} in
  let op := renew "t1" "n1" None LEASE_TTL_MS 3 in
  exists s', Some s = Some s' /\
    decideLeaseWrite (sv_lease s') op 200 = (Some (sample_lease "t1" "n1" 3 200), ok_result (Some (sample_lease "t1" "n1" 3 200))) /\
    ok_result (Some (sample_lease "t1" "n1" 3 200)) = ok_result (Some (sample_lease "t1" "n1" 3 200)).
Proof.
  intros s op.
  apply (applyLease_cas (Some s) (Some s) None op 200
    (Some (sample_lease "t1" "n1" 3 200)) (ok_result (Some (sample_lease "t1" "n1" 3 200)))).
  - intros s1 s2 H1 H2 _.
    assert (forall x, Some x ∈ [Some s; Some s; None] -> x = s) as Hx.
    { intros x Hin. apply elem_of_cons in Hin as [Hin|Hin]; [congruence|].
      apply elem_of_cons in Hin as [Hin|Hin]; [congruence|]. apply list_elem_of_singleton in Hin. discriminate. }
    by rewrite (Hx _ H1), (Hx _ H2).
  - vm_compute. reflexivity.
Defined.

(** A renewal answer fences only on positive evidence: the verdict is
    [lost] exactly when an unreleased lease names another holder; [held] exactly
    when our own write landed; a missing answer, a missing service or a race on
    our own lease is [unknown], and silence fences only a controller whose swarm
    is not known to have a single manager, at the deadline. *)
Theorem renewalVerdict_evidence res self :
  (forall l, renewalVerdict (Some res) self = V_lost l <->
     res_lease res = Some l /\ is_released l = false /\ holder l <> self_holder self /\
     res_reason res <> Some not_found /\ res_reason res <> Some not_system) /\
  (forall l, renewalVerdict (Some res) self = V_held l <->
     res_ok res = true /\ res_lease res = Some l /\ is_released l = false /\ holder l = self_holder self /\
     res_reason res <> Some not_found /\ res_reason res <> Some not_system) /\
  renewalVerdict None self = V_unknown /\
  (forall now last managers, fenceOnSilence now last managers = true <->
     managers <> Some 1 /\ last + LEASE_TTL_MS - LEASE_FENCE_MARGIN_MS <= now).
Proof.
  split_and!; [| |done|].
  - intros l. unfold renewalVerdict. repeat case_bool_decide; simpl; [naive_solver..|].
    destruct (res_lease res) as [x|]; [|naive_solver]. destruct (is_released x) eqn:E; [naive_solver congruence|].
    destruct (String.eqb_spec (holder x) (self_holder self)); [destruct (res_ok res)|]; naive_solver.
  - intros l. unfold renewalVerdict. repeat case_bool_decide; simpl; [naive_solver..|].
    destruct (res_lease res) as [x|]; [|naive_solver]. destruct (is_released x) eqn:E; [naive_solver congruence|].
    destruct (String.eqb_spec (holder x) (self_holder self)); [destruct (res_ok res) eqn:Eo|]; naive_solver congruence.
  - intros now last managers. unfold fenceOnSilence, mustFence, fenceDeadline.
    case_bool_decide; [naive_solver|]. rewrite Z.leb_le. tauto.
Qed.
