(* ===== verification/LeaseSystem.v ===== *)
(** The lease protocol as a whole: controllers running the loops of
    apps/api/src/controller-store/supervisor.ts against the lease of Lease.v,
    over a network that delays, repeats and loses requests and answers.

    Controllers are named by their Swarm task id; a restarted controller is a
    new task, so a role never goes back.  One clock gives the time of every
    event: a controller only ever subtracts its own readings, so what the model
    assumes of the real clocks is that they run at the same rate.

    What the environment promises, as guards of the steps: Swarm does not run
    two controllers on one node ([S_start]); a dispatch gives up after its
    timeout ([S_acquired]); the watchdog of a leader runs at least every [tick]
    milliseconds ([S_time]); agents stamp the renewals of one epoch with
    different times ([fresh]); nobody edits the label by hand; and the swarm has
    more than one manager, or the controller does not know how many.

    Left out: the stand-alone mode of a controller whose lease is disabled, or
    that gives up on it after four timeouts with no replica configured; and what
    leading sets off besides the lease (Litestream, pragmas of the database, the
    clearing of a finished move). *)

From stdpp Require Import functions.
From S2P Require Import Prelude Lease.

Inductive StoreRole := off | acquiring | leader | fenced | stopping.
#[export] Instance StoreRole_eq_dec : EqDecision StoreRole.
Proof. solve_decision. Defined.

(** A call in flight: its operation, when it was sent and the time its success
    is dated to ([sentAt] of the renewal for a re-acquire). *)
Record Call := { c_op : LeaseOp; c_sent : Z; c_claim : Z }.

Record Controller := {
  role : StoreRole;
  my_epoch : option Z;
  obs : option LeaseObservation;
  lastOkSentAt : Z;
  call : option Call
}.

Definition new_controller : Controller :=
  {| role := off; my_epoch := None; obs := None; lastOkSentAt := 0; call := None |}.

(** Field updates. *)
Definition with_call (x : option Call) (c : Controller) : Controller :=
  {| role := role c; my_epoch := my_epoch c; obs := obs c; lastOkSentAt := lastOkSentAt c; call := x |}.
Definition with_role (x : StoreRole) (c : Controller) : Controller :=
  {| role := x; my_epoch := my_epoch c; obs := obs c; lastOkSentAt := lastOkSentAt c; call := None |}.
Definition with_obs (x : LeaseObservation) (c : Controller) : Controller :=
  {| role := role c; my_epoch := my_epoch c; obs := Some x; lastOkSentAt := lastOkSentAt c; call := None |}.

(** [this.epoch == null || lease.epoch > this.epoch ? lease.epoch : this.epoch] *)
Definition newer_epoch (mine : option Z) (l : Z) : option Z :=
  match mine with Some e => if e <? l then Some l else Some e | None => Some l end.

(** [onAcquired] and [confirmed]. *)
Definition become_leader (sent : Z) (l : ControllerLeaseRecord) (c : Controller) : Controller :=
  {| role := leader; my_epoch := Some (epoch l); obs := obs c; lastOkSentAt := sent; call := None |}.
Definition confirmed (sent : Z) (l : ControllerLeaseRecord) (c : Controller) : Controller :=
  {| role := role c; my_epoch := newer_epoch (my_epoch c) (epoch l); obs := obs c; lastOkSentAt := sent; call := None |}.

Record Request := { rq_from : string; rq_op : LeaseOp; rq_sent : Z }.
Record Reply := { rp_to : string; rp_op : LeaseOp; rp_sent : Z; rp_result : ControllerServiceResult }.

Record State := {
  time : Z;
  live : option ControllerLeaseRecord;
  written_at : Z;                         (* when the live lease was written *)
  history : list ControllerLeaseRecord;   (* every lease written, latest first *)
  ctl : string -> Controller;
  requests : list Request;
  replies : list Reply
}.

Definition initial : State :=
  {| time := 0; live := None; written_at := 0; history := []; ctl := fun _ => new_controller;
     requests := []; replies := [] |}.

Definition set_ctl (x : string) (c : Controller) (st : State) : State :=
  {| time := time st; live := live st; written_at := written_at st; history := history st;
     ctl := <[x := c]> (ctl st); requests := requests st; replies := replies st |}.

(** Sends [op], dating its success to [claim]. *)
Definition send (x : string) (op : LeaseOp) (claim : Z) (st : State) : State :=
  {| time := time st; live := live st; written_at := written_at st; history := history st;
     ctl := <[x := with_call (Some {| c_op := op; c_sent := time st; c_claim := claim |}) (ctl st x)]> (ctl st);
     requests := {| rq_from := x; rq_op := op; rq_sent := time st |} :: requests st; replies := replies st |}.

Definition reply (r : Request) (res : ControllerServiceResult) : Reply :=
  {| rp_to := rq_from r; rp_op := rq_op r; rp_sent := rq_sent r; rp_result := res |}.

(** An agent carries out [r]: the lease afterwards and the answer. *)
Definition land (r : Request) (next : option ControllerLeaseRecord) (res : ControllerServiceResult) (st : State) : State :=
  {| time := time st;
     live := match next with Some n => Some n | None => live st end;
     written_at := match next with Some _ => time st | None => written_at st end;
     history := match next with Some n => n :: history st | None => history st end;
     ctl := ctl st; requests := requests st; replies := reply r res :: replies st |}.

Definition alive (c : Controller) : bool :=
  match role c with acquiring | leader => true | _ => false end.

Definition is_release (op : LeaseOp) : bool := match op with release _ _ => true | _ => false end.
Definition is_renew (op : LeaseOp) : bool := match op with renew _ _ _ _ _ => true | _ => false end.

(** No earlier write looks like this one to [sameLeaseWrite]. *)
Definition fresh (st : State) (n : ControllerLeaseRecord) : Prop :=
  forall h, h ∈ history st -> sameLeaseWrite (Some h) (Some n) = false.

Definition DISPATCH_TIMEOUT_MS : Z := 8000.

Section system.
Context (node_of : string -> string).          (* the node of a task *)
Context (name_of : string -> option string).   (* its host name *)
Context (managers : option Z).                 (* [managerCount()] *)
Context (tick : Z).                            (* longest gap between two watchdog runs *)
Context (floor : string -> Z).                 (* [minEpoch] of the markers of a task *)

Definition self (x : string) : LeaseSelf := {| self_holder := x; self_node := node_of x |}.

Definition acquire_op (x : string) (expect : option ControllerLeaseRecord) (minE : Z) : LeaseOp :=
  acquire x (node_of x) (name_of x) LEASE_TTL_MS expect minE.

(** [acquireTick]: what to expect, from what was observed. *)
Definition expectation (o : option LeaseObservation) (x : string) (now : Z) : option ControllerLeaseRecord :=
  match o with
  | Some o => match takeoverDecision o (self x) now with Take e _ => e | Wait _ _ => None end
  | None => None
  end.

(** The answer a controller is waiting for. *)
Definition answers (st : State) (x : string) (c : Call) (res : ControllerServiceResult) : Prop :=
  call (ctl st x) = Some c /\
  {| rp_to := x; rp_op := c_op c; rp_sent := c_sent c; rp_result := res |} ∈ replies st.

Inductive step : State -> State -> Prop :=
(** Time passes; no leader outlives its watchdog. *)
| S_time st d :
    0 <= d ->
    (forall x, role (ctl st x) = leader ->
       fenceOnSilence (time st + d - tick) (lastOkSentAt (ctl st x)) managers = false) ->
    step st {| time := time st + d; live := live st; written_at := written_at st; history := history st;
               ctl := ctl st; requests := requests st; replies := replies st |}
| S_start st x :
    role (ctl st x) = off ->
    (forall y, alive (ctl st y) = true -> node_of y <> node_of x) ->
    step st (set_ctl x (with_role acquiring (ctl st x)) st)
(** [acquireTick] sends. *)
| S_acquire st x :
    role (ctl st x) = acquiring -> call (ctl st x) = None ->
    step st (send x (acquire_op x (expectation (obs (ctl st x)) x (time st)) (floor x)) (time st) st)
(** [acquireTick] is told it holds the lease, in time. *)
| S_acquired st x c res l :
    role (ctl st x) = acquiring -> answers st x c res ->
    time st <= c_sent c + DISPATCH_TIMEOUT_MS ->
    res_ok res = true -> res_lease res = Some l -> holder l = x ->
    step st (set_ctl x (become_leader (c_claim c) l (ctl st x)) st)
(** [acquireTick] is told anything else. *)
| S_observe st x c res :
    role (ctl st x) = acquiring -> answers st x c res ->
    (res_ok res = true -> forall l, res_lease res = Some l -> holder l <> x) ->
    step st (set_ctl x (with_obs (observe (obs (ctl st x)) (res_lease res) (time st)) (ctl st x)) st)
(** A call times out. *)
| S_timeout st x :
    step st (set_ctl x (with_call None (ctl st x)) st)
(** [renewTick] sends to the next manager. *)
| S_renew st x e :
    role (ctl st x) = leader -> call (ctl st x) = None -> my_epoch (ctl st x) = Some e ->
    step st (send x (renew x (node_of x) (name_of x) LEASE_TTL_MS e) (time st) st)
| S_held st x c res l :
    role (ctl st x) = leader -> answers st x c res -> renewalVerdict (Some res) (self x) = V_held l ->
    step st (set_ctl x (confirmed (c_claim c) l (ctl st x)) st)
| S_lost st x c res l :
    role (ctl st x) = leader -> answers st x c res -> renewalVerdict (Some res) (self x) = V_lost l ->
    step st (set_ctl x (with_role fenced (ctl st x)) st)
(** The lease went missing: take it back, dated to the renewal. *)
| S_free st x c res l e :
    role (ctl st x) = leader -> answers st x c res -> renewalVerdict (Some res) (self x) = V_free l ->
    is_renew (c_op c) = true -> my_epoch (ctl st x) = Some e ->
    step st (send x (acquire_op x l e) (c_claim c) st)
(** The watchdog fences. *)
| S_fence st x :
    role (ctl st x) = leader -> fenceOnSilence (time st) (lastOkSentAt (ctl st x)) managers = true ->
    step st (set_ctl x (with_role fenced (ctl st x)) st)
(** [shutdown] (or a crash, after which nothing is sent). *)
| S_stop st x :
    alive (ctl st x) = true ->
    step st (set_ctl x (with_role stopping (ctl st x)) st)
| S_release st x e :
    role (ctl st x) = stopping -> my_epoch (ctl st x) = Some e ->
    step st (send x (release x e) (time st) st)
(** An agent decides on a request, possibly an old or repeated one. *)
| S_land st r stamp next res :
    r ∈ requests st -> decideLeaseWrite (live st) (rq_op r) stamp = (next, res) ->
    (forall n, next = Some n -> is_renew (rq_op r) = true -> fresh st n) ->
    step st (land r next res st)
(** It cannot find the service, or loses the race for the write. *)
| S_refused st r reason :
    r ∈ requests st -> reason = not_found \/ reason = not_system ->
    step st (land r None (no_result None reason) st)
| S_race st r :
    r ∈ requests st ->
    step st (land r None (no_result (live st) (casLossReason (rq_op r) (live st))) st).

Inductive reachable : State -> Prop :=
| reach_init : reachable initial
| reach_step st st' : reachable st -> step st st' -> reachable st'.

(** * The invariant *)

(** [x] has been told, or believes, that its lease lasts from [s]. *)
Definition claims (st : State) (x : string) (s : Z) : Prop :=
  (role (ctl st x) = leader /\ lastOkSentAt (ctl st x) = s) \/
  (exists op res, {| rp_to := x; rp_op := op; rp_sent := s; rp_result := res |} ∈ replies st /\
     is_release op = false /\ res_ok res = true).

(** The live lease is [x]'s, written at [s] or later. *)
Definition holds (st : State) (x : string) (s : Z) : Prop :=
  exists l, live st = Some l /\ holder l = x /\ is_released l = false /\ s <= written_at st.

(** An expected record that is the live lease of another running controller
    was watched for its whole TTL before the request was sent. *)
Definition watched (st : State) (x : string) (E : ControllerLeaseRecord) (sent : Z) : Prop :=
  forall l, live st = Some l -> sameLeaseWrite (Some E) (Some l) = true -> is_released l = false ->
    holder l <> x -> alive (ctl st (holder l)) = true -> written_at st + LEASE_TTL_MS <= sent.

Definition request_ok (st : State) (r : Request) : Prop :=
  rq_sent r <= time st /\
  match rq_op r with
  | acquire h n _ ttl expect _ =>
      h = rq_from r /\ n = node_of h /\ ttl = LEASE_TTL_MS /\
      forall E, expect = Some E -> E ∈ history st /\ watched st (rq_from r) E (rq_sent r)
  | renew h n _ ttl _ => h = rq_from r /\ n = node_of h /\ ttl = LEASE_TTL_MS
  | release h _ => h = rq_from r /\ role (ctl st (rq_from r)) = stopping
  end.

Definition reply_ok (st : State) (r : Reply) : Prop :=
  rp_sent r <= time st /\ forall l, res_lease (rp_result r) = Some l -> l ∈ history st.

Record controller_ok (st : State) (x : string) : Prop := {
  k_obs : forall o E, obs (ctl st x) = Some o -> obs_record o = Some E ->
    E ∈ history st /\
    forall l, live st = Some l -> sameLeaseWrite (Some E) (Some l) = true -> written_at st <= firstSeenAt o;
  k_call : forall c, call (ctl st x) = Some c ->
    c_claim c <= c_sent c <= time st /\
    (alive (ctl st x) = true -> is_release (c_op c) = false) /\
    (role (ctl st x) = acquiring -> c_claim c = c_sent c) /\
    (role (ctl st x) = leader -> lastOkSentAt (ctl st x) <= c_claim c);
  k_leader : role (ctl st x) = leader ->
    lastOkSentAt (ctl st x) <= time st /\
    time st - tick < lastOkSentAt (ctl st x) + LEASE_TTL_MS - LEASE_FENCE_MARGIN_MS;
  k_off : role (ctl st x) = off ->
    (forall h, h ∈ history st -> holder h <> x) /\
    (forall r, r ∈ requests st -> rq_from r <> x) /\ (forall r, r ∈ replies st -> rp_to r <> x) /\
    obs (ctl st x) = None /\ call (ctl st x) = None
}.

Record lease_ok (st : State) : Prop := {
  l_time : written_at st <= time st;
  l_live : match live st with None => history st = [] | Some l => exists t, history st = l :: t end;
  l_hist : forall h, h ∈ history st -> node h = node_of (holder h) /\ ttlMs h = LEASE_TTL_MS;
  l_epoch : forall h l, h ∈ history st -> live st = Some l ->
    epoch h <= epoch l /\ (epoch h = epoch l -> is_released l = false -> is_released h = false);
  l_token : forall h h', h ∈ history st -> h' ∈ history st -> epoch h = epoch h' -> holder h = holder h'
}.

Record inv (st : State) : Prop := {
  i_lease : lease_ok st;
  i_requests : forall r, r ∈ requests st -> request_ok st r;
  i_replies : forall r, r ∈ replies st -> reply_ok st r;
  i_controllers : forall x, controller_ok st x;
  i_claims : forall x s, claims st x s -> alive (ctl st x) = true -> time st < s + LEASE_TTL_MS -> holds st x s;
  i_nodes : forall x y, alive (ctl st x) = true -> alive (ctl st y) = true -> x <> y -> node_of x <> node_of y
}.

Lemma inv_initial : inv initial.
Proof using Type.
  clear name_of managers floor.
  assert (Hn : forall A (x : A), x ∈ [] -> False) by (intros A x; apply not_elem_of_nil).
  split; simpl.
  - split; simpl; naive_solver.
  - naive_solver.
  - naive_solver.
  - intros x. split; simpl; naive_solver.
  - intros x s [[? _]|(op & res & H & _)]; [done|]. by apply Hn in H.
  - done.
Qed.

Lemma live_in_history st l : lease_ok st -> live st = Some l -> l ∈ history st.
Proof using Type. intros Hl E. pose proof (l_live _ Hl) as H. rewrite E in H. destruct H as [t ->]. left. Qed.

(** ** One controller changes *)

Lemma ctl_eq x c st : ctl (set_ctl x c st) x = c.
Proof using Type. apply fn_lookup_insert. Qed.
Lemma ctl_ne x y c st : x <> y -> ctl (set_ctl x c st) y = ctl st y.
Proof using Type. apply fn_lookup_insert_ne. Qed.

(** What a new local state of [x] has to satisfy. *)
Record update_ok (st : State) (x : string) (c : Controller) : Prop := {
  u_role : role c = off -> role (ctl st x) = off;
  u_stopping : role (ctl st x) = stopping -> role c = stopping;
  u_alive : alive c = true -> alive (ctl st x) = true;
  u_leader : role c = leader -> claims st x (lastOkSentAt c) \/ holds st x (lastOkSentAt c);
  u_ok : controller_ok (set_ctl x c st) x
}.

Lemma alive_set_ctl st x c y : update_ok st x c ->
  alive (ctl (set_ctl x c st) y) = true -> alive (ctl st y) = true.
Proof using Type.
  intros [_ _ U3 _ _]. destruct (decide (x = y)) as [<-|Hy]; [by rewrite ctl_eq|by rewrite ctl_ne].
Qed.

Lemma request_ok_set_ctl st x c r : update_ok st x c -> request_ok st r -> request_ok (set_ctl x c st) r.
Proof using Type.
  intros U [H1 H2]. split; [done|].
  destruct (rq_op r) as [h n hn ttl expect minE| |h e]; [|done|].
  - destruct H2 as (? & ? & ? & HE). split_and!; [done..|]. intros E HEq.
    destruct (HE E HEq) as [Hin Hw]. split; [done|].
    intros l H3 H4 H5 H6 H7. apply (alive_set_ctl st x c _ U) in H7. by apply (Hw l).
  - destruct H2 as [-> H2]. split; [done|].
    destruct (decide (x = rq_from r)) as [->|Hy]; [rewrite ctl_eq|by rewrite ctl_ne].
    by apply (u_stopping _ _ _ U).
Qed.

Lemma inv_set_ctl st x c : inv st -> update_ok st x c -> inv (set_ctl x c st).
Proof using Type.
  intros [Hl Hrq Hrp Hc Hcl Hn] U. pose proof (fun y => alive_set_ctl st x c y U) as Halive.
  split.
  - by destruct Hl.
  - intros r Hr. apply request_ok_set_ctl; auto.
  - done.
  - intros y. destruct (decide (x = y)) as [<-|Hy]; [apply U|].
    destruct (Hc y) as [K1 K2 K3 K4]. split; rewrite ctl_ne by done; done.
  - intros y s Hcl' Ha Ht. apply Halive in Ha as Ha'. destruct Hcl' as [[Hr Hs]|Hrep].
    + destruct (decide (x = y)) as [<-|Hy].
      * rewrite ctl_eq in Hr, Hs. subst s. destruct (u_leader _ _ _ U Hr) as [H|H]; [by apply Hcl|done].
      * rewrite ctl_ne in Hr, Hs by done. apply Hcl; [by left|done|done].
    + apply Hcl; [by right|done|done].
  - intros y z Hy Hz. apply Hn; by apply Halive.
Qed.

(** ** Requests, time and new controllers *)

Definition add_request (r : Request) (st : State) : State :=
  {| time := time st; live := live st; written_at := written_at st; history := history st;
     ctl := ctl st; requests := r :: requests st; replies := replies st |}.

Lemma inv_add_request st r :
  inv st -> request_ok st r -> role (ctl st (rq_from r)) <> off -> inv (add_request r st).
Proof using Type.
  intros [Hl Hrq Hrp Hc Hcl Hn] Hr Hoff. split.
  - by destruct Hl.
  - intros r' [->|Hr']%elem_of_cons; [exact Hr|]. by apply Hrq.
  - done.
  - intros x. destruct (Hc x) as [K1 K2 K3 K4]. split; [done..|].
    intros Hx. destruct (K4 Hx) as (? & ? & ? & ? & ?). split_and!; [done| |done..].
    intros r' [->|Hr']%elem_of_cons; [|auto]. intros Hx'. apply Hoff. by rewrite Hx'.
  - done.
  - done.
Qed.

Lemma inv_send st x op claim :
  inv st -> role (ctl st x) <> off ->
  request_ok st {| rq_from := x; rq_op := op; rq_sent := time st |} ->
  claim <= time st ->
  (alive (ctl st x) = true -> is_release op = false) ->
  (role (ctl st x) = acquiring -> claim = time st) ->
  (role (ctl st x) = leader -> lastOkSentAt (ctl st x) <= claim) ->
  inv (send x op claim st).
Proof using Type.
  intros Hinv Hoff Hr Hc H1 H2 H3.
  set (c := with_call (Some {| c_op := op; c_sent := time st; c_claim := claim |}) (ctl st x)).
  assert (U : update_ok st x c).
  { destruct (i_controllers _ Hinv x) as [K1 K2 K3 K4]. split; try done.
    - intros Hl. left. by left.
    - split; rewrite ctl_eq; simpl; try done.
      intros c' [= <-]. simpl. split_and!; auto; lia. }
  apply (inv_add_request (set_ctl x c st)).
  - by apply inv_set_ctl.
  - by apply request_ok_set_ctl.
  - simpl. by rewrite fn_lookup_insert.
Qed.

Lemma inv_start st x :
  inv st -> role (ctl st x) = off -> (forall y, alive (ctl st y) = true -> node_of y <> node_of x) ->
  inv (set_ctl x (with_role acquiring (ctl st x)) st).
Proof using Type.
  intros [Hl Hrq Hrp Hc Hcl Hn] Hoff Hfree.
  destruct (k_off _ _ (Hc x) Hoff) as (O1 & O2 & O3 & O4 & O5).
  assert (Hold : forall y, y <> x -> ctl (set_ctl x (with_role acquiring (ctl st x)) st) y = ctl st y)
    by (intros; by apply ctl_ne).
  split.
  - by destruct Hl.
  - intros r Hr. destruct (Hrq r Hr) as [H1 H2]. split; [done|].
    specialize (O2 r Hr).
    destruct (rq_op r) as [h n hn ttl expect minE| |h e]; [|done|by rewrite Hold].
    destruct H2 as (? & ? & ? & HE). split_and!; [done..|]. intros E HEq.
    destruct (HE E HEq) as [Hin Hw]. split; [done|]. intros l H3 H4 H5 H6 H7. apply (Hw l); try done.
    rewrite Hold in H7; [done|]. apply O1. apply (live_in_history st); done.
  - done.
  - intros y. destruct (decide (y = x)) as [->|Hy].
    + split; rewrite ctl_eq; simpl; try done. intros o E Ho. congruence.
    + destruct (Hc y) as [K1 K2 K3 K4]. split; rewrite Hold by done; done.
  - intros y s Hcl' Ha Ht. destruct (decide (y = x)) as [->|Hy].
    + destruct Hcl' as [[Hr _]|(op & res & Hr & _)]; [by rewrite ctl_eq in Hr|].
      by apply O3 in Hr.
    + rewrite Hold in Ha by done. apply Hcl; [|done|done].
      destruct Hcl' as [[Hr Hs]|Hr]; [left; by rewrite Hold in Hr, Hs|by right].
  - intros y z. destruct (decide (y = x)) as [->|Hy], (decide (z = x)) as [->|Hz]; try done;
      rewrite ?(Hold y), ?(Hold z) by done; intros Ha1 Ha2 Hne; [|by apply Hfree|by apply Hn].
    intros Heq. by apply (Hfree z Ha2).
Qed.

(** ** An agent answers *)

Lemma reply_claims st r next res x s :
  claims (land r next res st) x s ->
  claims st x s \/ (x = rq_from r /\ s = rq_sent r /\ is_release (rq_op r) = false /\ res_ok res = true).
Proof using Type.
  intros [H|(op & res' & [Heq|Hin]%elem_of_cons & H1 & H2)].
  - left. by left.
  - injection Heq as -> -> -> ->. by right.
  - left. right. by exists op, res'.
Qed.

(** What a write [n] made for [r] satisfies. *)
Record write_ok (st : State) (r : Request) (n : ControllerLeaseRecord) : Prop := {
  w_fresh : fresh st n;
  w_form : node n = node_of (holder n) /\ ttlMs n = LEASE_TTL_MS /\ holder n = rq_from r;
  w_released : is_released n = is_release (rq_op r);
  w_epoch : forall h, h ∈ history st -> epoch h <= epoch n /\
    (epoch h = epoch n -> holder h = holder n /\ (is_released n = false -> is_released h = false));
  (** No other running controller still counts on the lease. *)
  w_claims : forall x s, claims st x s -> alive (ctl st x) = true -> time st < s + LEASE_TTL_MS ->
    x = rq_from r /\ is_release (rq_op r) = false /\ s <= written_at st
}.

Lemma land_none st r res :
  inv st -> r ∈ requests st -> (forall l, res_lease res = Some l -> l ∈ history st) ->
  (is_release (rq_op r) = false -> res_ok res = false) -> inv (land r None res st).
Proof using Type.
  intros [Hl Hrq Hrp Hc Hcl Hn] Hr Hres Hok. split.
  - by destruct Hl.
  - done.
  - intros r' [->|Hr']%elem_of_cons; [|by apply Hrp]. split; [apply (Hrq r Hr)|done].
  - intros x. destruct (Hc x) as [K1 K2 K3 K4]. split; try done.
    intros Hx. destruct (K4 Hx) as (? & Hfrom & ? & ? & ?). split_and!; try done.
    intros r' [->|Hr']%elem_of_cons; [|auto]. by apply Hfrom.
  - intros x s Hx Ha Ht. apply reply_claims in Hx as [Hx|(-> & -> & Hf & Ho)]; [by apply Hcl|].
    rewrite Hok in Ho; done.
  - done.
Qed.

Lemma land_write st r n :
  inv st -> r ∈ requests st -> write_ok st r n -> inv (land r (Some n) (ok_result (Some n)) st).
Proof using Type.
  intros [Hl Hrq Hrp Hc Hcl Hn] Hr [Wf (Wn & Wt & Wh) Wr We Wc].
  assert (Hold : forall E l, E ∈ history st -> Some n = Some l -> sameLeaseWrite (Some E) (Some l) = true -> False).
  { intros E l HE [= <-] Hs. rewrite Wf in Hs; done. }
  assert (Hin : forall h, h ∈ history st -> h ∈ n :: history st) by (intros; by right).
  destruct (Hrq r Hr) as [Hsent Hop].
  split.
  - destruct Hl as [L1 L2 L3 L4 L5]. split; simpl; [lia|by exists (history st)| | |].
    + intros h [->|Hh]%elem_of_cons; auto.
    + intros h l [->|Hh]%elem_of_cons [= <-]; [split; [lia|done]|].
      destruct (We h Hh) as [? He]. split; [done|]. intros. by apply He.
    + intros h h' [->|Hh]%elem_of_cons [->|Hh']%elem_of_cons He; [done| | |by apply L5].
      * symmetry. by apply (We h' Hh').
      * by apply (We h Hh).
  - intros r' Hr'. destruct (Hrq r' Hr') as [H1 H2]. split; [done|].
    destruct (rq_op r') as [h nd hn ttl expect minE| |h e]; [|done|done].
    destruct H2 as (? & ? & ? & HE). split_and!; [done..|]. intros E HEq.
    destruct (HE E HEq) as [HEin _]. split; [by apply Hin|]. intros l Hlive Hs. by destruct (Hold E l).
  - intros r' [->|Hr']%elem_of_cons.
    + split; [done|]. simpl. intros l [= <-]. left.
    + destruct (Hrp r' Hr') as [? Hlease]. split; [done|]. intros l Hlq. by apply Hin, Hlease.
  - intros x. destruct (Hc x) as [K1 K2 K3 K4]. split; try done.
    + intros o E Ho HE. destruct (K1 o E Ho HE) as [HEin _]. split; [by apply Hin|].
      intros l Hlive Hs. by destruct (Hold E l).
    + intros Hx. destruct (K4 Hx) as (Ha & Hfrom & Hto & ? & ?). split_and!; try done.
      * intros h [->|Hh]%elem_of_cons; [rewrite Wh; by apply Hfrom|auto].
      * intros r' [->|Hr']%elem_of_cons; [by apply Hfrom|auto].
  - intros x s Hx Ha Ht. exists n. apply reply_claims in Hx as [Hx|(-> & -> & Hf & _)].
    + destruct (Wc x s Hx Ha Ht) as (-> & Hf & Hs). split_and!; [done|done|congruence|].
      simpl. pose proof (l_time _ Hl). lia.
    + split_and!; [done|done|congruence|done].
  - done.
Qed.

Lemma expired_other st x l :
  inv st -> live st = Some l -> (is_released l = true \/ holder l <> x) ->
  forall s, claims st x s -> alive (ctl st x) = true -> s + LEASE_TTL_MS <= time st.
Proof using Type.
  intros Hinv Hl Hx s Hc Ha. destruct (Z.lt_ge_cases (time st) (s + LEASE_TTL_MS)) as [Ht|]; [|done].
  destruct (i_claims _ Hinv x s Hc Ha Ht) as (l' & Hl' & Hh & Hr & _).
  simplify_eq. destruct Hx; congruence.
Qed.

Lemma write_acquire st r h nd hn ttl expect minE stamp n res :
  inv st -> r ∈ requests st -> rq_op r = acquire h nd hn ttl expect minE ->
  decideLeaseWrite (live st) (rq_op r) stamp = (Some n, res) -> write_ok st r n /\ res = ok_result (Some n).
Proof using Type.
  intros Hinv Hr Hop Hd. rewrite Hop in Hd.
  apply decide_acquire_Some in Hd as (Hwhy & Hh & Hn & Ht & _ & Hrel & He & Hres). split; [|done].
  destruct (i_requests _ Hinv r Hr) as [Hsent Hok]. rewrite Hop in Hok. destruct Hok as (-> & -> & -> & HE).
  pose proof (i_lease _ Hinv) as Hl.
  assert (Hlt : forall x, x ∈ history st -> epoch x < epoch n).
  { intros x Hx. rewrite He. pose proof (l_live _ Hl) as HL.
    destruct (live st) as [l|] eqn:El; [|rewrite HL in Hx; by apply not_elem_of_nil in Hx].
    destruct (l_epoch _ Hl x l Hx El) as [? _]. lia. }
  split.
  - intros x Hx. apply not_true_iff_false. intros Hs%sameLeaseWrite_Some. specialize (Hlt x Hx). lia.
  - split_and!; congruence.
  - by rewrite Hop.
  - intros x Hx. specialize (Hlt x Hx). split; [lia|]. intros. lia.
  - intros x s Hc Ha Htime.
    destruct (i_claims _ Hinv x s Hc Ha Htime) as (l & Hlive & Hx & Hlr & Hs).
    split; [|split; [by rewrite Hop|done]].
    destruct Hwhy as [Hw|[(l' & Hw & Hw')|(E & -> & Hw)]]; [congruence|congruence|].
    destruct (decide (holder l = rq_from r)) as [|Hne]; [congruence|]. exfalso.
    destruct (HE E eq_refl) as [_ Hwatch]. rewrite Hlive, sameLeaseWrite_sym in Hw.
    specialize (Hwatch l Hlive Hw Hlr Hne). rewrite Hx in Hwatch. specialize (Hwatch Ha). lia.
Qed.

Lemma write_ours st r l n :
  inv st -> r ∈ requests st -> live st = Some l -> holder l = rq_from r -> is_released l = false ->
  fresh st n -> holder n = holder l -> epoch n = epoch l -> node n = node_of (holder n) -> ttlMs n = LEASE_TTL_MS ->
  is_released n = is_release (rq_op r) ->
  (is_release (rq_op r) = true -> role (ctl st (rq_from r)) = stopping) -> write_ok st r n.
Proof using Type.
  intros Hinv Hr Hlive Hh Hlr Hf Hn He Hnode Httl Hrel Hstop. pose proof (i_lease _ Hinv) as Hl.
  split; [done|split_and!; congruence|done| |].
  - intros x Hx. destruct (l_epoch _ Hl x l Hx Hlive) as [Hle Hr']. rewrite He. split; [done|].
    intros Heq. split; [|intros _; by apply Hr'].
    rewrite Hn. apply (l_token _ Hl); [done|by apply live_in_history|done].
  - intros x s Hc Ha Ht. destruct (i_claims _ Hinv x s Hc Ha Ht) as (l' & Hl' & Hx & _ & Hs).
    assert (Hxr : x = rq_from r) by congruence. split_and!; [done| |done].
    destruct (is_release (rq_op r)); [|done]. unfold alive in Ha. rewrite Hxr, Hstop in Ha; done.
Qed.

Lemma inv_land st r stamp next res :
  inv st -> r ∈ requests st -> decideLeaseWrite (live st) (rq_op r) stamp = (next, res) ->
  (forall n, next = Some n -> is_renew (rq_op r) = true -> fresh st n) -> inv (land r next res st).
Proof using Type.
  intros Hinv Hr Hd Hfresh. pose proof (i_lease _ Hinv) as Hl.
  destruct (i_requests _ Hinv r Hr) as [Hsent Hok].
  destruct next as [n|].
  - assert (Hw : write_ok st r n /\ res = ok_result (Some n)); [|destruct Hw as [Hw ->]; by apply land_write].
    destruct (rq_op r) as [h nd hn ttl expect minE|h nd hn ttl e|h e] eqn:Hop.
    + eapply write_acquire; [done|done|done|]. rewrite Hop. exact Hd.
    + simpl in Hd. destruct (ours_at (live st) h e) as [l|] eqn:Ho; [|done]. injection Hd as <- <-.
      apply ours_at_spec in Ho as (Hlive & Hh & He & Hlr). destruct Hok as (-> & -> & ->).
      split; [|done]. apply (write_ours st r l); try done; rewrite ?Hop; simpl; try done; try congruence.
      by apply Hfresh.
    + simpl in Hd. destruct (ours_at (live st) h e) as [l|] eqn:Ho; [|done]. injection Hd as <- <-.
      apply ours_at_spec in Ho as (Hlive & Hh & He & Hlr). destruct Hok as [-> Hstop].
      pose proof (live_in_history st l Hl Hlive) as Hlin. destruct (l_hist _ Hl l Hlin) as [Hnode Httl].
      split; [|done]. apply (write_ours st r l); rewrite ?Hop; try done.
      intros x Hx. apply not_true_iff_false. intros (H1 & H2 & _ & H4)%sameLeaseWrite_Some. simpl in *.
      destruct (l_epoch _ Hl x l Hx Hlive) as [_ Hrel]. rewrite Hrel in H4; done.
  - apply land_none; [done|done| |].
    + intros l Hlease. apply (live_in_history st l Hl). unfold decideLeaseWrite in Hd.
      repeat (case_match; simplify_eq/=); done.
    + intros Hrel. unfold decideLeaseWrite in Hd. repeat (case_match; simplify_eq/=); done.
Qed.

Context (Hmanagers : managers <> Some 1) (Htick : 0 <= tick <= LEASE_FENCE_MARGIN_MS).

(** ** Every step *)

Lemma leader_in_time st x : inv st -> role (ctl st x) = leader ->
  time st < lastOkSentAt (ctl st x) + LEASE_TTL_MS.
Proof using Htick.
  intros Hinv Hx. destruct (k_leader _ _ (i_controllers _ Hinv x) Hx). lia.
Qed.

Lemma inv_time st d :
  inv st -> 0 <= d ->
  (forall x, role (ctl st x) = leader ->
     fenceOnSilence (time st + d - tick) (lastOkSentAt (ctl st x)) managers = false) ->
  inv {| time := time st + d; live := live st; written_at := written_at st; history := history st;
         ctl := ctl st; requests := requests st; replies := replies st |}.
Proof using Hmanagers.
  intros [Hl Hrq Hrp Hc Hcl Hn] Hd Hw. split.
  - destruct Hl. split; simpl; try done. lia.
  - intros r Hr. destruct (Hrq r Hr) as [? H]. split; [simpl; lia|exact H].
  - intros r Hr. destruct (Hrp r Hr) as [? H]. split; [simpl; lia|exact H].
  - intros x. destruct (Hc x) as [K1 K2 K3 K4]. split; try done.
    + intros c Hcall. destruct (K2 c Hcall) as (? & H). split; [simpl; lia|exact H].
    + intros Hx. specialize (Hw x Hx). destruct (K3 Hx).
      unfold fenceOnSilence, mustFence, fenceDeadline in Hw. case_bool_decide; [done|].
      apply Z.leb_gt in Hw. simpl. lia.
  - intros x s Hx Ha Ht. apply Hcl; [done|done|simpl in Ht; lia].
  - done.
Qed.

(** Stopping, fencing and giving up on a call. *)
Lemma inv_retire st x c :
  inv st -> call c = None -> obs c = obs (ctl st x) ->
  (role c = role (ctl st x) /\ lastOkSentAt c = lastOkSentAt (ctl st x) \/
   alive (ctl st x) = true /\ alive c = false /\ role c <> off) ->
  inv (set_ctl x c st).
Proof using Type.
  intros Hinv Hcall Hobs Hcase. apply inv_set_ctl; [done|].
  destruct (i_controllers _ Hinv x) as [K1 K2 K3 K4]. unfold alive in Hcase.
  assert (Hlead : role c = leader -> role (ctl st x) = leader /\ lastOkSentAt c = lastOkSentAt (ctl st x)).
  { intros Hr. destruct Hcase as [[E1 E2]|(_ & Hf & _)]; [by rewrite <- E1|by rewrite Hr in Hf]. }
  split.
  - intros Hr. destruct Hcase as [[E _]|(_ & _ & Hne)]; [congruence|done].
  - intros Hr. destruct Hcase as [[E _]|(Ha & _)]; [congruence|by rewrite Hr in Ha].
  - unfold alive. destruct Hcase as [[-> _]|(Ha & Hf & _)]; [done|]. by rewrite Hf.
  - intros Hr. destruct (Hlead Hr) as [H1 H2]. left; left. done.
  - split; rewrite ctl_eq; simpl.
    + intros o E. rewrite Hobs. apply K1.
    + intros c'. congruence.
    + intros Hr. destruct (Hlead Hr) as [H1 ->]. by apply K3.
    + intros Hr. destruct Hcase as [[E _]|(_ & _ & Hne)]; [|done]. rewrite E in Hr.
      destruct (K4 Hr) as (? & ? & ? & ? & ?). split_and!; try done. congruence.
Qed.

Lemma inv_observe st x c res :
  inv st -> role (ctl st x) = acquiring -> answers st x c res ->
  inv (set_ctl x (with_obs (observe (obs (ctl st x)) (res_lease res) (time st)) (ctl st x)) st).
Proof using Type.
  intros Hinv Hr [Hcall Hrep]. apply inv_set_ctl; [done|].
  destruct (i_controllers _ Hinv x) as [K1 K2 K3 K4].
  destruct (i_replies _ Hinv _ Hrep) as [_ Hlease]. simpl in Hlease.
  pose proof (l_time _ (i_lease _ Hinv)) as Hw.
  split; simpl; rewrite ?Hr; try done.
  split; rewrite ctl_eq; simpl; rewrite ?Hr; try done.
  intros o E [= <-] HE.
  destruct (observe_cases (obs (ctl st x)) (res_lease res) (time st)) as [(p & Hp & Heq & _)|Heq];
    rewrite Heq in HE |- *.
  - by apply (K1 p).
  - simpl in HE. split; [by apply Hlease|]. simpl. lia.
Qed.

(** A positive answer to a lease call dates the leadership back to its claim. *)
Lemma inv_lead st x c res e :
  inv st -> alive (ctl st x) = true -> answers st x c res ->
  (role (ctl st x) = acquiring -> time st <= c_sent c + DISPATCH_TIMEOUT_MS) ->
  res_ok res = true ->
  inv (set_ctl x {| role := leader; my_epoch := e; obs := obs (ctl st x);
                    lastOkSentAt := c_claim c; call := None |} st).
Proof using Htick.
  intros Hinv Ha [Hcall Hrep] Htimeout Hok. apply inv_set_ctl; [done|].
  destruct (i_controllers _ Hinv x) as [K1 K2 K3 K4].
  destruct (K2 c Hcall) as ([Hle Hsent] & Hrel & Hacq & Hlead). specialize (Hrel Ha).
  assert (Hroles : role (ctl st x) = acquiring \/ role (ctl st x) = leader)
    by (unfold alive in Ha; destruct (role (ctl st x)); try done; auto).
  assert (Htime : c_claim c <= time st /\
    time st - tick < c_claim c + LEASE_TTL_MS - LEASE_FENCE_MARGIN_MS).
  { split; [lia|]. destruct Hroles as [Hr|Hr].
    - specialize (Htimeout Hr). specialize (Hacq Hr).
      unfold LEASE_TTL_MS, LEASE_FENCE_MARGIN_MS, DISPATCH_TIMEOUT_MS in *. lia.
    - specialize (Hlead Hr). destruct (K3 Hr). lia. }
  split; simpl; try done.
  - intros Hs. by rewrite Hs in Hroles; destruct Hroles.
  - intros _. right. destruct (i_claims _ Hinv x (c_sent c)) as (l & ? & ? & ? & ?); try done.
    + right. by exists (c_op c), res.
    + lia.
    + exists l. split_and!; try done. lia.
  - split; rewrite ctl_eq; simpl; done.
Qed.

Lemma expectation_watched st x E :
  inv st -> alive (ctl st x) = true ->
  expectation (obs (ctl st x)) x (time st) = Some E -> E ∈ history st /\ watched st x E (time st).
Proof using Type.
  intros Hinv Ha HE. unfold expectation in HE. destruct (obs (ctl st x)) as [o|] eqn:Ho; [|done].
  destruct (takeoverDecision o (self x) (time st)) as [e why|] eqn:Ht; [|done]. subst e.
  apply takeover_Some in Ht as [Hrec Hwhy].
  destruct (k_obs _ _ (i_controllers _ Hinv x) o E Ho Hrec) as [HEin Hseen]. split; [done|].
  intros l Hlive Hs Hrel Hne Hal. specialize (Hseen l Hlive Hs).
  apply sameLeaseWrite_Some in Hs as (Hh & _ & _ & Hr).
  destruct (l_hist _ (i_lease _ Hinv) E HEin) as [Hnode Httl].
  destruct Hwhy as [Hw|[Hw|[[Hw _]|Hw]]]; simpl in *; [congruence|congruence| |lia].
  destruct (i_nodes _ Hinv x (holder l)); try done; congruence.
Qed.

Lemma inv_step st st' : inv st -> step st st' -> inv st'.
Proof using Hmanagers Htick.
  intros Hinv Hstep. pose proof (i_controllers _ Hinv) as Hk.
  destruct Hstep as [st d Hd Hw|st x Hr Hfree|st x Hr Hc|st x c res l Hr Ha Ht Hok Hl Hh|st x c res Hr Ha Hno
    |st x|st x e Hr Hc He|st x c res l Hr Ha Hv|st x c res l Hr Ha Hv|st x c res l e Hr Ha Hv Hren He
    |st x Hr Hf|st x Ha|st x e Hr He|st r stamp next res Hr Hd Hfresh|st r reason Hr Hreason|st r Hr].
  - by apply inv_time.
  - by apply inv_start.
  - apply inv_send; rewrite ?Hr; try done; [|lia..]. split; [done|]. split_and!; try done.
    intros E HE. apply (expectation_watched st x E); [done|by unfold alive; rewrite Hr|done].
  - apply (inv_lead st x c res); try done. by unfold alive; rewrite Hr.
  - by eapply inv_observe.
  - apply inv_retire; try done. by left.
  - apply inv_send; rewrite ?Hr; try done. intros _. by apply (k_leader _ _ (Hk x)).
  - apply verdict_held in Hv as (r & [= <-] & Hok & _). unfold confirmed. rewrite Hr.
    apply (inv_lead st x c res); try done; [by unfold alive; rewrite Hr|by rewrite Hr].
  - apply inv_retire; try done. right. unfold alive. by rewrite Hr.
  - destruct Ha as [Hcall Hrep]. destruct (k_call _ _ (Hk x) c Hcall) as ([? ?] & _ & _ & Hlead).
    apply inv_send; rewrite ?Hr; try done; [|lia|by auto].
    split; [done|]. split_and!; try done. intros E ->.
    destruct (i_replies _ Hinv _ Hrep) as [_ Hlease]. unfold renewalVerdict in Hv.
    repeat (case_match; simplify_eq/=). split; [by apply Hlease|].
    intros l' _ Hs Hrel. apply sameLeaseWrite_Some in Hs. intuition congruence.
  - apply inv_retire; try done. right. unfold alive. by rewrite Hr.
  - apply inv_retire; try done. right. done.
  - apply inv_send; rewrite ?Hr; try done. unfold alive. by rewrite Hr.
  - by eapply inv_land.
  - apply land_none; try done.
  - apply land_none; try done. intros l Hl. by apply (live_in_history st l (i_lease _ Hinv)).
Qed.

Lemma reachable_inv st : reachable st -> inv st.
Proof using Hmanagers Htick.
  induction 1 as [|st st' _ IH Hs]; [apply inv_initial|by apply (inv_step st)].
Qed.

Lemma leader_holds st x : reachable st -> role (ctl st x) = leader ->
  holds st x (lastOkSentAt (ctl st x)) /\ time st < lastOkSentAt (ctl st x) + LEASE_TTL_MS.
Proof using Hmanagers Htick.
  intros Hinv%reachable_inv Hx. pose proof (leader_in_time st x Hinv Hx) as Ht. split; [|done].
  apply (i_claims _ Hinv); [by left|unfold alive; by rewrite Hx|done].
Qed.
End system.

(** * Properties *)

(** C1: single writer.  In every reachable state of any number of controllers,
    over a network that delays, repeats and loses messages, as long as the
    watchdog runs at least once per fence margin: two leaders are the same
    controller, and a leader's own is the live lease, unreleased and written no
    earlier than the renewal it counts from, whose TTL is not over. *)
Theorem lease_single_writer node_of name_of managers tick floor st :
  managers <> Some 1 -> 0 <= tick <= LEASE_FENCE_MARGIN_MS ->
  reachable node_of name_of managers tick floor st ->
  (forall x y, role (ctl st x) = leader -> role (ctl st y) = leader -> x = y) /\
  (forall x, role (ctl st x) = leader ->
     holds st x (lastOkSentAt (ctl st x)) /\ time st < lastOkSentAt (ctl st x) + LEASE_TTL_MS).
Proof.
  intros Hm Ht Hr. split.
  - intros x y Hx Hy.
    destruct (leader_holds _ _ _ _ _ Hm Ht st x Hr Hx) as [(l & Hl & <- & _) _].
    destruct (leader_holds _ _ _ _ _ Hm Ht st y Hr Hy) as [(l' & Hl' & <- & _) _]. congruence.
  - intros x. by eapply leader_holds.
Qed.

(** Epochs are fencing tokens.  Of all leases ever written, two with the
    same epoch have the same holder, the live one has the greatest epoch, and
    once its epoch is released it is not held again; an acquire that an agent
    carries out moves the epoch past every epoch written before. *)
Theorem lease_epoch_fencing node_of name_of managers tick floor st :
  managers <> Some 1 -> 0 <= tick <= LEASE_FENCE_MARGIN_MS ->
  reachable node_of name_of managers tick floor st ->
  (forall h h', h ∈ history st -> h' ∈ history st -> epoch h = epoch h' -> holder h = holder h') /\
  (forall h l, h ∈ history st -> live st = Some l ->
     epoch h <= epoch l /\ (epoch h = epoch l -> is_released h = true -> is_released l = true)) /\
  (forall r stamp n res h, r ∈ requests st -> is_release (rq_op r) = false -> is_renew (rq_op r) = false ->
     decideLeaseWrite (live st) (rq_op r) stamp = (Some n, res) -> h ∈ history st -> epoch h < epoch n).
Proof.
  intros Hm Ht Hr. pose proof (reachable_inv _ _ _ _ _ Hm Ht st Hr) as Hinv.
  pose proof (i_lease _ _ _ Hinv) as Hl. split_and!; [apply Hl| |].
  - intros h l Hh Hlive. destruct (l_epoch _ _ Hl h l Hh Hlive) as [He Hrel]. split; [done|].
    intros Heq Hhr. destruct (is_released l) eqn:El; [done|]. rewrite Hrel in Hhr; done.
  - intros r stamp n res h Hreq H1 H2 Hd Hh. destruct (rq_op r); try done.
    apply decide_acquire_Some in Hd as (_ & _ & _ & _ & _ & _ & He & _). rewrite He.
    pose proof (l_live _ _ Hl) as HL. destruct (live st) as [l|] eqn:El.
    + destruct (l_epoch _ _ Hl h l Hh El). lia.
    + rewrite HL in Hh. by apply not_elem_of_nil in Hh.
Qed.

(** ** A run in which one controller becomes the leader *)

Definition sample_node (x : string) : string := if String.eqb x "t1" then "n1" else "n2".
Definition sample_floor (x : string) : Z := 0.

Definition run1 : State := set_ctl "t1" (with_role acquiring (ctl initial "t1")) initial.
Definition op1 : LeaseOp := acquire_op sample_node (fun _ => None) "t1" None 0.
Definition run2 : State := send "t1" op1 0 run1.
Definition lease1 : ControllerLeaseRecord := sample_lease "t1" "n1" 1 1000.
Definition request1 : Request := {| rq_from := "t1"; rq_op := op1; rq_sent := 0 |}.
Definition run3 : State := land request1 (Some lease1) (ok_result (Some lease1)) run2.
Definition run4 : State := set_ctl "t1" (become_leader 0 lease1 (ctl run3 "t1")) run3.

Lemma run4_reachable : reachable sample_node (fun _ => None) None 1000 sample_floor run4.
Proof.
  eapply reach_step; [eapply reach_step; [eapply reach_step; [eapply reach_step; [apply reach_init|]|]|]|].
  - apply (S_start _ _ _ _ _ initial "t1"); done.
  - apply (S_acquire _ _ _ _ _ run1 "t1"); vm_compute; reflexivity.
  - apply (S_land _ _ _ _ _ run2 request1 1000); [left|vm_compute; reflexivity|].
    intros n _ H. vm_compute in H. discriminate H.
  - apply (S_acquired _ _ _ _ _ run3 "t1" {| c_op := op1; c_sent := 0; c_claim := 0 |} (ok_result (Some lease1)));
      try (vm_compute; reflexivity).
    + split; [vm_compute; reflexivity|left].
    + vm_compute. discriminate.
Qed.

Lemma lease_single_writer_witness :
  role (ctl run4 "t1") = leader /\
  forall y, role (ctl run4 y) = leader -> "t1" = y.
Proof.
  split; [vm_compute; reflexivity|]. intros y.
  apply (proj1 (lease_single_writer sample_node (fun _ => None) None 1000 sample_floor run4
    ltac:(discriminate) ltac:(unfold LEASE_FENCE_MARGIN_MS; lia) run4_reachable)).
  vm_compute. reflexivity.
Defined.

Lemma lease_epoch_fencing_witness :
  history run4 = [lease1] /\
  forall h l, h ∈ history run4 -> live run4 = Some l ->
    epoch h <= epoch l /\ (epoch h = epoch l -> is_released h = true -> is_released l = true).
Proof.
  split; [vm_compute; reflexivity|].
  apply (proj1 (proj2 (lease_epoch_fencing sample_node (fun _ => None) None 1000 sample_floor run4
    ltac:(discriminate) ltac:(unfold LEASE_FENCE_MARGIN_MS; lia) run4_reachable))).
Defined.

(** An abandoned lease is taken.  A challenger that has watched the live
    lease for its whole TTL, or sees it released, decides to take it, and the
    write it then asks for succeeds with a greater epoch while the lease stays
    unchanged; before the TTL is over it tells how long is left. *)
Theorem takeover_succeeds l obs self now stamp hn minE :
  sameLeaseWrite (obs_record obs) (Some l) = true ->
  match takeoverDecision obs self now with
  | Take expect why =>
      exists n, decideLeaseWrite (Some l) (acquire (self_holder self) (self_node self) hn LEASE_TTL_MS expect minE) stamp
                = (Some n, ok_result (Some n)) /\
        holder n = self_holder self /\ epoch l < epoch n /\ minE < epoch n /\ is_released n = false
  | Wait waitMs r => obs_record obs = Some r /\ is_released l = false /\ holder l <> self_holder self /\
      0 < waitMs /\ now + waitMs = firstSeenAt obs + ttlMs r
  end.
Proof.
  intros Hs. unfold takeoverDecision. destruct (obs_record obs) as [r|] eqn:Ho; [|done].
  assert (Htake : exists n, decideLeaseWrite (Some l)
      (acquire (self_holder self) (self_node self) hn LEASE_TTL_MS (Some r) minE) stamp = (Some n, ok_result (Some n)) /\
      holder n = self_holder self /\ epoch l < epoch n /\ minE < epoch n /\ is_released n = false).
  { unfold decideLeaseWrite. rewrite sameLeaseWrite_sym, Hs, andb_false_r.
    eexists. split; [done|]. simpl. split_and!; [done|lia|lia|done]. }
  apply sameLeaseWrite_Some in Hs as (Hh & _ & _ & Hr).
  destruct (is_released r) eqn:E1; [done|]. destruct (String.eqb_spec (holder r) (self_holder self)); [done|].
  destruct (_ && _); [done|]. destruct (Z.leb_spec (ttlMs r) (now - firstSeenAt obs)); [done|].
  split_and!; [done|congruence|congruence|lia|lia].
Qed.

Lemma takeover_succeeds_witness :
  let obs := {| obs_record := Some lease1; firstSeenAt := 2000 |} in
  let me := {| self_holder := "t2"; self_node := "n2" |} in
  takeoverDecision obs me 62000 = Take (Some lease1) w_expired /\
  exists n, decideLeaseWrite (Some lease1) (acquire "t2" "n2" None LEASE_TTL_MS (Some lease1) 0) 70000
            = (Some n, ok_result (Some n)) /\
    holder n = "t2" /\ 1 < epoch n /\ 0 < epoch n /\ is_released n = false.
Proof.
  intros obs me. split; [vm_compute; reflexivity|].
  apply (takeover_succeeds lease1 obs me 62000 70000 None 0). vm_compute. reflexivity.
Defined.
