(* ===== verification/RestoreSelect.v ===== *)
(** Restore on boot (apps/api/src/controller-store/restore-select.ts): which
    copy of the control database a controller starts from, and the check made
    before it replicates. *)

From S2P Require Import Prelude.

Record WriterMarker := { wm_holder : string; wm_epoch : Z; wm_node : option string; wm_hostname : option string }.

Definition sameWriter (a b : option WriterMarker) : bool :=
  match a, b with
  | Some a, Some b => String.eqb (wm_holder a) (wm_holder b) && (wm_epoch a =? wm_epoch b)
  | None, None => true
  | _, _ => false
  end.

Inductive BootSourceKind := keep_local | restore_replica | restore_bundle | fresh_ | wait_ | refuse.
#[export] Instance BootSourceKind_eq_dec : EqDecision BootSourceKind.
Proof. solve_decision. Defined.

Record BootDecision := { bd_kind : BootSourceKind; bd_reason : string; bd_moveAsideLocal : bool }.

Record LeaseAtStart := { la_epoch : Z; la_node : option string; la_hostname : option string }.

Inductive ForcedSource := f_local | f_replica | f_bundle | f_fresh.

Record BootFacts := {
  local_exists : bool; local_marker : option WriterMarker;
  replica_configured : bool; replica_reachable : bool; replica_hasData : bool;
  replica_marker : option WriterMarker;
  bundle_configured : bool;
  priorController : bool;
  bf_lease : option LeaseAtStart;
  selfNode : option string;
  forced : option ForcedSource;
  allowFresh : bool
}.

(** [x ? ... : ...] on a string that may be missing. *)
Definition truthy (x : option string) : option string :=
  match x with Some s => if String.eqb s "" then None else Some s | None => None end.

Definition describe (m : option WriterMarker) : string :=
  match m with
  | None => "an unmarked writer"
  | Some m => ("epoch " ++ pretty (wm_epoch m) ++
               match truthy (wm_hostname m) with Some h => " on " ++ h | None => "" end)%string
  end.

Definition localBehindLease (marker : option WriterMarker) (lease : option LeaseAtStart)
    (self : option string) : option string :=
  match lease with
  | None => None
  | Some l =>
      let localEpoch := match marker with Some m => wm_epoch m | None => 0 end in
      if la_epoch l <=? localEpoch then None
      else if match truthy (la_node l), truthy self with
              | Some n, Some s => String.eqb n s | _, _ => false end then None
      else Some ("the local file was last written at epoch " ++ pretty localEpoch ++
                 ", but the lease in raft is at epoch " ++ pretty (la_epoch l) ++
                 match truthy (la_hostname l) with
                 | Some h => " on " ++ h
                 | None => match truthy (la_node l) with Some n => " on node " ++ n | None => "" end
                 end ++ ", and the replica that holds those writes is unreachable. " ++
                 "Refusing to serve an older lineage: waiting for the replica (Swarm retries this task)")%string
  end.

Definition decision (k : BootSourceKind) (aside : bool) (why : string) : BootDecision :=
  {| bd_kind := k; bd_reason := why; bd_moveAsideLocal := aside |}.

Definition forcedDecision (f : BootFacts) (s : ForcedSource) : BootDecision :=
  match s with
  | f_local => decision (if local_exists f then keep_local else fresh_) false "forced by SWARMY_BOOT_SOURCE=local"
  | f_replica => decision restore_replica (local_exists f) "forced by SWARMY_BOOT_SOURCE=replica"
  | f_bundle => decision restore_bundle (local_exists f) "forced by SWARMY_BOOT_SOURCE=bundle"
  | f_fresh => decision fresh_ (local_exists f) "forced by SWARMY_BOOT_SOURCE=fresh"
  end.

Definition replicaUsable (f : BootFacts) : bool :=
  replica_configured f && replica_reachable f && replica_hasData f.

Definition selectBootSource (f : BootFacts) : BootDecision :=
  match forced f with
  | Some s => forcedDecision f s
  | None =>
      if local_exists f then
        if replicaUsable f && negb (sameWriter (local_marker f) (replica_marker f)) then
          decision restore_replica true
            ("local file is stale: it was last written by " ++ describe (local_marker f) ++
             ", the replica by " ++ describe (replica_marker f))%string
        else if replica_configured f && negb (replica_reachable f) then
          match localBehindLease (local_marker f) (bf_lease f) (selfNode f) with
          | Some stale => decision wait_ false stale
          | None => decision keep_local false
              "replica unreachable; keeping the local file (replication waits until it is checked)"
          end
        else decision keep_local false
          (if replicaUsable f then "local file is the replica’s current lineage"
           else "no replica data; local file is the only copy")
      else if replicaUsable f then decision restore_replica false "no local file; the replica has data"
      else if replica_configured f && negb (replica_reachable f) then
        decision wait_ false
          "no local file and the replica is unreachable; refusing to start empty while it may hold the data"
      else if bundle_configured f then
        decision restore_bundle false "no local file and no replica data; restoring the latest controller bundle"
      else if priorController f && negb (allowFresh f) then
        decision refuse false
          ("no local file, no replica and no bundle, but a controller ran in this swarm before. " ++
           "Starting empty would orphan every node. Set SWARMY_ALLOW_FRESH=1 to start fresh anyway.")%string
      else decision fresh_ false "first boot: nothing to restore"
  end.

Inductive Precheck := P_ok | P_stop (reason : string).

Definition replicationPrecheck (bootMarker : option WriterMarker) (bootHeadTxid : Z)
    (nowMarker : option WriterMarker) (nowHeadTxid : Z) : Precheck :=
  if negb (sameWriter bootMarker nowMarker) then
    P_stop ("replica writer changed since boot (" ++ describe bootMarker ++ " → " ++ describe nowMarker ++ ")")%string
  else if bootHeadTxid <? nowHeadTxid then
    P_stop ("replica advanced since boot (txid " ++ pretty bootHeadTxid ++ " → " ++ pretty nowHeadTxid ++ ")")%string
  else P_ok.

(** * Properties *)

(** The replica may hold data that this controller cannot see. *)
Definition replica_unknown (f : BootFacts) : bool := replica_configured f && negb (replica_reachable f).

(** Raft proves that another node wrote after the local file. *)
Definition behind (f : BootFacts) : Prop :=
  exists l, bf_lease f = Some l /\
    match local_marker f with Some m => wm_epoch m | None => 0 end < la_epoch l /\
    (truthy (la_node l) = None \/ truthy (selfNode f) = None \/ truthy (la_node l) <> truthy (selfNode f)).

Lemma localBehindLease_iff f :
  (exists why, localBehindLease (local_marker f) (bf_lease f) (selfNode f) = Some why) <-> behind f.
Proof.
  unfold localBehindLease, behind. destruct (bf_lease f) as [l|]; [|naive_solver].
  destruct (Z.leb_spec (la_epoch l) match local_marker f with Some m => wm_epoch m | None => 0 end).
  { split; [naive_solver|]. intros (l' & [= <-] & ? & _). lia. }
  destruct (truthy (la_node l)) as [n|] eqn:En, (truthy (selfNode f)) as [s|] eqn:Es; simpl;
    try (split; intros _; eauto 8; fail).
  destruct (String.eqb_spec n s) as [->|Hne]; [|split; intros _; eauto 8; exists l; split_and!; auto; right; right; congruence].
  split; [naive_solver|]. intros (l' & [= <-] & _ & [?|[?|?]]); congruence.
Qed.

(** C26: no silent data loss on boot.  Without an operator's override the
    controller starts empty only when there is no local file, no replica that
    has or may have the data, no bundle, and either no controller ever ran or
    the operator allows it; it keeps the local file only when the replica's last
    writer is the file's own, or has no data, or cannot be reached and raft does
    not prove that another node wrote later; it restores over a local file only
    from a reachable replica with another writer, and moves the file aside; and
    it waits exactly when the replica is out of reach and the local file is
    missing or behind. *)
Theorem selectBootSource_no_data_loss f :
  forced f = None ->
  let d := selectBootSource f in
  (bd_kind d = fresh_ <-> local_exists f = false /\ replicaUsable f = false /\ replica_unknown f = false /\
     bundle_configured f = false /\ (priorController f = false \/ allowFresh f = true)) /\
  (bd_kind d = keep_local <-> local_exists f = true /\
     (replicaUsable f = true -> sameWriter (local_marker f) (replica_marker f) = true) /\
     (replica_unknown f = true -> ~ behind f)) /\
  (bd_kind d = restore_replica <-> replicaUsable f = true /\
     (local_exists f = true -> sameWriter (local_marker f) (replica_marker f) = false)) /\
  (bd_kind d = wait_ <-> replica_unknown f = true /\ (local_exists f = true -> behind f)) /\
  (local_exists f = true -> bd_kind d <> keep_local -> bd_kind d <> wait_ -> bd_moveAsideLocal d = true).
Proof.
  intros Hf d. unfold d, selectBootSource. rewrite Hf. pose proof (localBehindLease_iff f) as Hb.
  unfold replica_unknown, replicaUsable in *.
  destruct (local_exists f); simpl.
  - destruct (replica_configured f), (replica_reachable f), (replica_hasData f); simpl;
      try (destruct (sameWriter (local_marker f) (replica_marker f)));
      try (destruct (localBehindLease (local_marker f) (bf_lease f) (selfNode f)));
      simpl; split_and!; naive_solver.
  - destruct (replica_configured f), (replica_reachable f), (replica_hasData f), (bundle_configured f),
      (priorController f), (allowFresh f); simpl; split_and!; naive_solver.
Qed.

Definition sample_facts : BootFacts :=
  {| local_exists := true;
     local_marker := Some {| wm_holder := "t11"; wm_epoch := 11; wm_node := Some "n1"; wm_hostname := None |};
     replica_configured := true; replica_reachable := false; replica_hasData := true; replica_marker := None;
     bundle_configured := false; priorController := true;
     bf_lease := Some {| la_epoch := 13; la_node := Some "n2"; la_hostname := Some "host2" |};
     selfNode := Some "n1"; forced := None; allowFresh := false |}.

Lemma selectBootSource_no_data_loss_witness :
  behind sample_facts /\ bd_kind (selectBootSource sample_facts) = wait_.
Proof.
  assert (Hb : behind sample_facts).
  { eexists. split; [reflexivity|]. split; [simpl; lia|]. right; right. simpl. discriminate. }
  split; [exact Hb|].
  apply (proj1 (proj2 (proj2 (proj2 (selectBootSource_no_data_loss sample_facts eq_refl))))).
  split; [reflexivity|]. intros _. exact Hb.
Defined.

(** Replication starts only on the very lineage boot saw: the same last
    writer and no transaction past the one restored; any other state stops the
    controller, so that it restores again. *)
Theorem replicationPrecheck_lineage bootMarker bootHead nowMarker nowHead :
  replicationPrecheck bootMarker bootHead nowMarker nowHead = P_ok <->
  nowHead <= bootHead /\
  match bootMarker, nowMarker with
  | Some a, Some b => wm_holder a = wm_holder b /\ wm_epoch a = wm_epoch b
  | None, None => True
  | _, _ => False
  end.
Proof.
  unfold replicationPrecheck, sameWriter.
  destruct bootMarker as [a|], nowMarker as [b|]; simpl; [|split; [done|tauto]..|].
  - destruct (String.eqb_spec (wm_holder a) (wm_holder b)), (Z.eqb_spec (wm_epoch a) (wm_epoch b));
      simpl; try (split; [done|tauto]).
    destruct (Z.ltb_spec bootHead nowHead); split; try done. intros [H1 _]. exfalso. lia.
  - destruct (Z.ltb_spec bootHead nowHead); split; try done. intros [H1 _]. exfalso. lia.
Qed.
