(* ===== verification/Failover.v ===== *)
(** Managed Postgres failover (packages/core/src/manageddb-failover.ts): the
    decision taken once a primary is unhealthy past its grace window, and the
    per-cluster memory of the reconcile worker that feeds it
    (apps/api/src/workers/manageddb-reconcile.ts, [maybePromote]).

    LSN positions are doubles in the source: [rnd] rounds to 53 bits, so the
    arithmetic is the one that runs, for the at most 16 + 16 hexadecimal digits
    that stay far from overflow.  Seconds are rationals.  [localeCompare] is
    the collation of the runtime, a parameter.

    A pass of the worker takes the confirmation found on the labels as an input.
    How the labels are read and written, and the calls that carry a promotion
    out, are in PgPromote.v, which refines this file. *)

From Stdlib Require Import QArith.
From S2P Require Import Prelude Comparators.
Open Scope Z_scope.

(** * Positions *)

(** Rounding to the nearest double, ties to even, of a natural number. *)
Definition rnd (z : Z) : Z :=
  let e := Z.log2 z - 52 in
  if e <=? 0 then z
  else
    let q := z / 2 ^ e in
    let r := z mod 2 ^ e in
    let h := 2 ^ (e - 1) in
    if (h <? r) || (r =? h) && Z.odd q then (q + 1) * 2 ^ e else q * 2 ^ e.

Definition is_hex (c : ascii) : bool :=
  is_digit c || (let n := code c in ((65 <=? n) && (n <=? 70) || (97 <=? n) && (n <=? 102))%N).

Definition hex_digit (c : ascii) : Z :=
  let n := Z.of_N (code c) in
  if is_digit c then n - 48 else if n <=? 70 then n - 55 else n - 87.

Fixpoint hex_from (acc : Z) (s : string) : Z :=
  match s with EmptyString => acc | String c s' => hex_from (acc * 16 + hex_digit c) s' end.

(** The two numbers of the pattern of [lsnPos]. *)
Definition lsn_halves (lsn : string) : option (Z * Z) :=
  let s := trim lsn in
  let hi := span is_hex s in
  match sdrop (String.length hi) s with
  | String c lo =>
      if negb (String.eqb hi "") && Ascii.eqb c "/" && negb (String.eqb lo "") && all_chars is_hex lo
      then Some (hex_from 0 hi, hex_from 0 lo) else None
  | EmptyString => None
  end.

Definition lsnPos (lsn : string) : option Z :=
  match lsn_halves lsn with
  | Some (hi, lo) => Some (rnd (rnd hi * 2 ^ 32 + rnd lo))
  | None => None
  end.

(** The position the text denotes. *)
Definition lsn_exact (lsn : string) : option Z :=
  match lsn_halves lsn with Some (hi, lo) => Some (hi * 2 ^ 32 + lo) | None => None end.

Definition behindWatermarkBytes (watermarkLsn replayLsn : string) : option Z :=
  match lsnPos watermarkLsn, lsnPos replayLsn with
  | Some w, Some r => Some (if w <=? r then 0 else rnd (w - r))
  | _, _ => None
  end.

(** * The decision *)

Inductive FailoverTopology := single | primary_replica | failover | geo | active_active.
#[export] Instance FailoverTopology_eq_dec : EqDecision FailoverTopology.
Proof. solve_decision. Defined.

(** [failoverPolicy]: gated, or never. *)
Definition gated (t : FailoverTopology) : bool :=
  match t with single | active_active => false | _ => true end.

(** [failoverReadiness]: what it survives, or why not. *)
Definition failoverReadiness (readyNodes replicas : Z) (primaryPinned : bool) : res string :=
  if readyNodes <? 2 then
    Err ("Automatic failover needs at least 2 servers, so the replica can run on a different one from the primary. This cluster has "
         +:+ pretty readyNodes +:+ ".")
  else if replicas <? 1 then
    Err "Automatic failover needs at least 1 read replica to promote. Add a replica first."
  else if negb primaryPinned then
    Err "The primary's data isn't on a pinned persistent volume yet (Migrate storage), so swarmy can't keep the replica off the primary's server."
  else Ok "Survives the primary's server (or its Postgres) failing: a caught-up replica on another server is promoted. A replica that is behind waits for your confirmation, so no silent data loss.".

Record PrimaryWatermark := { wm_lsn : string; wm_sampledAt : Z }.

Record FailoverCandidate := {
  fc_service : string;
  fc_running : Z;
  fc_replayLsn : option string;
  fc_lagSeconds : option Q
}.

(** [None] is the accepted window ['unknown']. *)
Record FailoverConfirmation := { cf_target : string; cf_acceptBehindBytes : option Q }.

Inductive FailoverDecision :=
  | D_never (reason : string)
  | D_wait (reason : string)
  | D_promote (target : string) (behindBytes : option Z) (behindSeconds : option Q) (confirmed : bool)
  | D_confirm (target : string) (behindBytes : option Z) (behindSeconds : option Q) (reason : string).

Record DecideFailoverInput := {
  df_topology : FailoverTopology;
  df_candidates : list FailoverCandidate;
  df_watermark : option PrimaryWatermark;
  df_lastHealthyAt : option Z;
  df_confirmation : option FailoverConfirmation
}.

Definition FAILOVER_WATERMARK_MAX_GAP_MS : Z := 20000.

Definition watermarkIsFresh (watermark : option PrimaryWatermark) (lastHealthyAt : option Z) (maxGapMs : Z) : bool :=
  match watermark, lastHealthyAt with
  | Some w, Some h => h - wm_sampledAt w <=? maxGapMs
  | _, _ => false
  end.

Definition confirmationCovers (c : FailoverConfirmation) (behindBytes : option Z) : bool :=
  match cf_acceptBehindBytes c, behindBytes with
  | None, _ => true
  | Some a, Some b => Qle_bool (inject_Z b) a
  | Some _, None => false
  end.

(** A candidate with the bytes it trails. *)
Definition Scored : Type := FailoverCandidate * option Z.

Definition score (i : DecideFailoverInput) (c : FailoverCandidate) : option Z :=
  match df_watermark i, fc_replayLsn c with
  | Some w, Some r =>
      if watermarkIsFresh (Some w) (df_lastHealthyAt i) FAILOVER_WATERMARK_MAX_GAP_MS && negb (String.eqb r "")
      then behindWatermarkBytes (wm_lsn w) r else None
  | _, _ => None
  end.

Definition running_candidates (i : DecideFailoverInput) : list FailoverCandidate :=
  List.filter (fun c => 0 <? fc_running c) (df_candidates i).

Definition hold_reason (i : DecideFailoverInput) (best : option Z) : string :=
  match df_watermark i, df_lastHealthyAt i with
  | None, _ | _, None =>
      "the primary's last flushed position is unknown (no sample since the controller started), so no replica can be proven caught up"
  | Some _, Some _ =>
      if negb (watermarkIsFresh (df_watermark i) (df_lastHealthyAt i) FAILOVER_WATERMARK_MAX_GAP_MS) then
        "the primary's last flushed-position sample is stale, so no replica can be proven caught up"
      else
        match best with
        | None => "no replica reported its replay position, so none can be proven caught up"
        | Some b => "the most caught-up replica is " +:+ pretty b +:+ " bytes behind the primary's last flushed position"
        end
  end.

Section decide.
Context (localeCompare : string -> string -> Z).

Definition by_window : Scored -> Scored -> Z :=
  cmp_then (cmp_opt_inf snd)
    (cmp_then (cmp_opt_q (fun s => fc_lagSeconds (fst s))) (cmp_on (fun s => fc_service (fst s)) localeCompare)).

(** The confirmed choice: a running replica whose window is covered. *)
Definition confirmed_choice (conf : option FailoverConfirmation) (scored : list Scored) : option Scored :=
  match conf with
  | None => None
  | Some conf =>
      match List.find (fun s => String.eqb (fc_service (fst s)) (cf_target conf)) scored with
      | Some chosen => if confirmationCovers conf (snd chosen) then Some chosen else None
      | None => None
      end
  end.

Definition decideFailover (i : DecideFailoverInput) : FailoverDecision :=
  if negb (gated (df_topology i)) then
    D_never (if bool_decide (df_topology i = single) then "single has no replica to promote"
             else "active-active already has other writable primaries")
  else
    match js_sort by_window (map (fun c => (c, score i c)) (running_candidates i)) with
    | [] => D_wait "no running replica to promote"
    | (best, behind) :: others =>
        let promote_best := D_promote (fc_service best) (Some 0) (fc_lagSeconds best) false in
        match behind with
        | Some 0 => promote_best
        | _ =>
            match confirmed_choice (df_confirmation i) ((best, behind) :: others) with
            | Some (chosen, window) => D_promote (fc_service chosen) window (fc_lagSeconds chosen) true
            | None => D_confirm (fc_service best) behind (fc_lagSeconds best) (hold_reason i behind)
            end
        end
    end.
End decide.

(** * What the worker remembers *)

Record PendingFailover := {
  pf_target : string;
  pf_behindBytes : option Z;
  pf_behindSeconds : option Q;
  pf_reason : string;
  pf_since : string
}.

Definition pendingFailoverChanged (prev : option PendingFailover) (next : PendingFailover) : bool :=
  match prev with
  | None => true
  | Some p =>
      negb (String.eqb (pf_target p) (pf_target next)) ||
      negb (bool_decide (pf_behindBytes p = pf_behindBytes next)) ||
      negb (String.eqb (pf_reason p) (pf_reason next))
  end.

(** The pending window the worker stamps for a held failover. *)
Definition pending_of (d : FailoverDecision) (prev : option PendingFailover) (nowText : string) : option PendingFailover :=
  match d with
  | D_confirm target bytes seconds reason =>
      let since := match prev with Some p => pf_since p | None => "" end in
      Some {| pf_target := target; pf_behindBytes := bytes; pf_behindSeconds := seconds; pf_reason := reason;
              pf_since := if String.eqb since "" then nowText else since |}
  | _ => None
  end.

Definition PROMOTION_GRACE_TICKS : Z := 2.
Definition promotionDue (unhealthyTicks : Z) : bool := PROMOTION_GRACE_TICKS <? unhealthyTicks.

(** [unhealthyTicks], [watermarks] and [lastHealthyAt] of one cluster. *)
Record Watch := { unhealthyTicks : Z; watermark : option PrimaryWatermark; lastHealthyAt : option Z }.

Definition no_watch : Watch := {| unhealthyTicks := 0; watermark := None; lastHealthyAt := None |}.

(** One pass of the worker: what it observes, and whether the promotion it may
    order succeeds ([promoteInPlace]). *)
Record Tick := {
  tk_topology : FailoverTopology;
  tk_healthy : bool;
  tk_now : Z;
  tk_primaryLsn : option string;
  tk_planned : bool;
  tk_candidates : list FailoverCandidate;
  tk_confirmation : option FailoverConfirmation;
  tk_promotes : bool
}.

Inductive Outcome := Idle | Held (d : FailoverDecision) | Failed_promotion (d : FailoverDecision) | Promoted (d : FailoverDecision).

Definition decide_input (w : Watch) (t : Tick) : DecideFailoverInput :=
  {| df_topology := tk_topology t; df_candidates := tk_candidates t; df_watermark := watermark w;
     df_lastHealthyAt := lastHealthyAt w; df_confirmation := tk_confirmation t |}.

Definition maybePromote (localeCompare : string -> string -> Z) (w : Watch) (t : Tick) : Watch * Outcome :=
  if negb (gated (tk_topology t)) then
    ({| unhealthyTicks := 0; watermark := watermark w; lastHealthyAt := lastHealthyAt w |}, Idle)
  else if tk_healthy t then
    ({| unhealthyTicks := 0;
        watermark := match tk_primaryLsn t with
                     | Some l => if String.eqb l "" then watermark w else Some {| wm_lsn := l; wm_sampledAt := tk_now t |}
                     | None => watermark w
                     end;
        lastHealthyAt := Some (tk_now t) |}, Idle)
  else
    let w' := {| unhealthyTicks := unhealthyTicks w + 1; watermark := watermark w; lastHealthyAt := lastHealthyAt w |} in
    if negb (tk_planned t) && negb (promotionDue (unhealthyTicks w')) then (w', Idle)
    else
      match decideFailover localeCompare (decide_input w' t) with
      | D_never _ | D_wait _ => (w', Idle)
      | D_confirm _ _ _ _ as d => (w', Held d)
      | D_promote _ _ _ _ as d => if tk_promotes t then (no_watch, Promoted d) else (w', Failed_promotion d)
      end.

Definition watch (localeCompare : string -> string -> Z) (history : list Tick) : Watch :=
  foldl (fun w t => fst (maybePromote localeCompare w t)) no_watch history.

(** * Lemmas *)

Lemma rnd_exact z : 0 <= z < 2 ^ 53 -> rnd z = z.
Proof.
  intros [H1 H2]. unfold rnd.
  assert (Z.log2 z <= 52).
  { destruct (Z.eq_dec z 0) as [->|]; [done|]. pose proof (Z.log2_lt_pow2 z 53). lia. }
  destruct (Z.leb_spec (Z.log2 z - 52) 0); [done|lia].
Qed.

Lemma hex_digit_range c : is_hex c = true -> 0 <= hex_digit c < 16.
Proof. destruct c as [[] [] [] [] [] [] [] []]; vm_compute; intros; try discriminate; split; done || discriminate. Qed.

Lemma hex_from_nonneg s acc : all_chars is_hex s = true -> 0 <= acc -> 0 <= hex_from acc s.
Proof.
  revert acc. induction s as [|c s IH]; simpl; [done|].
  intros acc [Hc Hs]%andb_true_iff Ha. apply IH; [done|]. pose proof (hex_digit_range c Hc). lia.
Qed.

Lemma span_all p s : all_chars p (span p s) = true.
Proof. induction s as [|c s IH]; simpl; [done|]. destruct (p c) eqn:E; simpl; [by rewrite E|done]. Qed.

Lemma lsn_halves_nonneg l hi lo : lsn_halves l = Some (hi, lo) -> 0 <= hi /\ 0 <= lo.
Proof.
  unfold lsn_halves. destruct (sdrop _ _) as [|c lo']; [done|].
  destruct (_ && _) eqn:E; [|done]. intros [= <- <-]. b2p.
  split; apply hex_from_nonneg; try done. apply span_all.
Qed.

(** Below 2^53 bytes of WAL the position is the one the text denotes. *)
Lemma lsnPos_exact l p : lsn_exact l = Some p -> p < 2 ^ 53 -> lsnPos l = Some p.
Proof.
  unfold lsn_exact, lsnPos. destruct (lsn_halves l) as [[hi lo]|] eqn:E; [|done].
  intros [= <-] Hlt. apply lsn_halves_nonneg in E.
  rewrite (rnd_exact hi), (rnd_exact lo) by lia. rewrite rnd_exact by lia. done.
Qed.

Definition caught_up (w r : string) : Prop :=
  forall pw pr, lsn_exact w = Some pw -> lsn_exact r = Some pr -> pw < 2 ^ 53 -> pr < 2 ^ 53 -> pw <= pr.

Lemma behind_zero w r : behindWatermarkBytes w r = Some 0 ->
  lsnPos w <> None /\ lsnPos r <> None /\ caught_up w r.
Proof.
  unfold behindWatermarkBytes. destruct (lsnPos w) as [a|] eqn:Ew, (lsnPos r) as [b|] eqn:Er; try done.
  intros H. split_and!; [done..|]. intros pw pr Hw Hr Lw Lr.
  assert (0 <= pw /\ 0 <= pr) as [P1 P2].
  { unfold lsn_exact in *. destruct (lsn_halves w) as [[]|] eqn:E1, (lsn_halves r) as [[]|] eqn:E2; simplify_eq.
    apply lsn_halves_nonneg in E1, E2. lia. }
  rewrite (lsnPos_exact _ _ Hw Lw) in Ew. rewrite (lsnPos_exact _ _ Hr Lr) in Er. simplify_eq.
  destruct (Z.leb_spec a b); [done|]. rewrite rnd_exact in H; lia.
Qed.

(** What makes a promotion without an admin safe. *)
Definition proven (i : DecideFailoverInput) (c : FailoverCandidate) : Prop :=
  exists w h r, df_watermark i = Some w /\ df_lastHealthyAt i = Some h /\ fc_replayLsn c = Some r /\
    h - wm_sampledAt w <= FAILOVER_WATERMARK_MAX_GAP_MS /\ caught_up (wm_lsn w) r.

Lemma score_proven i c : score i c = Some 0 -> proven i c.
Proof.
  unfold score, proven, watermarkIsFresh.
  destruct (df_watermark i) as [w|], (fc_replayLsn c) as [r|]; try done.
  destruct (df_lastHealthyAt i) as [h|]; [|done]. destruct (_ && _) eqn:E; [|done]. b2p.
  intros (_ & _ & Hcu)%behind_zero. exists w, h, r. split_and!; done.
Qed.

(** [c] is running, and [b] is what it trails by. *)
Definition runs (i : DecideFailoverInput) (c : FailoverCandidate) (b : option Z) : Prop :=
  c ∈ df_candidates i /\ 0 < fc_running c /\ score i c = b.

Definition promote_ok (i : DecideFailoverInput) (target : string) (bytes : option Z) (confirmed : bool) : Prop :=
  gated (df_topology i) = true /\
  exists c, runs i c bytes /\ fc_service c = target /\
    if confirmed
    then exists conf, df_confirmation i = Some conf /\ cf_target conf = target /\
           match cf_acceptBehindBytes conf with
           | None => True
           | Some a => exists b, bytes = Some b /\ (inject_Z b <= a)%Q
           end
    else bytes = Some 0 /\ proven i c.

(** A held failover names a replica that trails least; none is caught up. *)
Definition confirm_ok (i : DecideFailoverInput) (target : string) (bytes : option Z) : Prop :=
  gated (df_topology i) = true /\ bytes <> Some 0 /\
  exists c, runs i c bytes /\ fc_service c = target /\
    forall c' b', runs i c' (Some b') -> exists b, bytes = Some b /\ b <= b'.

Lemma rnd_nonneg z : 0 <= z -> 0 <= rnd z.
Proof.
  intros Hz. unfold rnd. destruct (Z.leb_spec (Z.log2 z - 52) 0); [done|].
  assert (0 < 2 ^ (Z.log2 z - 52)) by (apply Z.pow_pos_nonneg; lia).
  assert (0 <= z / 2 ^ (Z.log2 z - 52)) by (apply Z.div_pos; lia).
  destruct (_ || _); nia.
Qed.

Lemma score_nonneg i c b : score i c = Some b -> 0 <= b.
Proof.
  unfold score, behindWatermarkBytes. intros H.
  repeat case_match; simplify_eq; try done. apply rnd_nonneg. b2p. lia.
Qed.

Lemma confirm_none_caught_up i t b c :
  confirm_ok i t b -> c ∈ df_candidates i -> 0 < fc_running c -> score i c <> Some 0.
Proof.
  intros (_ & Hb & best & (Hi & Hr & Hs) & _ & Hmin) Hc Hrc H0.
  destruct (Hmin c 0) as (b0 & -> & Hle); [by split_and!|]. apply score_nonneg in Hs.
  apply Hb. f_equal. lia.
Qed.

(** What an admin who accepts the window shown confirms. *)
Definition accepts (target : string) (bytes : option Z) : FailoverConfirmation :=
  {| cf_target := target; cf_acceptBehindBytes := option_map inject_Z bytes |}.

Definition confirmed_input (i : DecideFailoverInput) (conf : FailoverConfirmation) : DecideFailoverInput :=
  {| df_topology := df_topology i; df_candidates := df_candidates i; df_watermark := df_watermark i;
     df_lastHealthyAt := df_lastHealthyAt i; df_confirmation := Some conf |}.

Section decision.
Context (lc : string -> string -> Z) `{!Comparator lc}.

Lemma scored_runs i s l r :
  js_sort (by_window lc) (map (fun c => (c, score i c)) (running_candidates i)) = l ++ s :: r ->
  runs i (fst s) (snd s).
Proof using Type.
  intros H. assert (Hs : s ∈ map (fun c => (c, score i c)) (running_candidates i)).
  { rewrite <- (js_sort_elem (by_window lc)), H. apply elem_of_app. right. left. }
  apply list_elem_of_fmap in Hs as (c & -> & Hc). unfold running_candidates in Hc.
  apply bfilter_elem in Hc as [Hc Hr]. split_and!; [done| |done]. simpl. lia.
Qed.

Lemma best_least i c b l :
  js_sort (by_window lc) (map (fun c => (c, score i c)) (running_candidates i)) = (c, b) :: l ->
  forall c' b', runs i c' (Some b') -> exists b0, b = Some b0 /\ b0 <= b'.
Proof using Type*.
  intros (_ & Hmin & _)%js_sort_head c' b' (Hc & Hr & Hb); [|apply _].
  assert (Hin : (c', Some b') ∈ map (fun c => (c, score i c)) (running_candidates i)).
  { apply list_elem_of_fmap. exists c'. rewrite Hb. split; [done|]. apply bfilter_elem. split; [done|lia]. }
  specialize (Hmin _ Hin). unfold by_window, cmp_then, cmp_opt_inf in Hmin. simpl in Hmin.
  destruct b as [b0|]; [|done]. exists b0. split; [done|].
  destruct (Z.eqb_spec (b0 - b') 0); lia.
Qed.

Lemma decide_cases i :
  match decideFailover lc i with
  | D_never _ => gated (df_topology i) = false
  | D_wait _ => gated (df_topology i) = true /\ forall c, c ∈ df_candidates i -> fc_running c <= 0
  | D_promote t b _ k => promote_ok i t b k
  | D_confirm t b _ _ => confirm_ok i t b
  end.
Proof using Type*.
  unfold decideFailover. destruct (gated (df_topology i)) eqn:Hg; [|done]. simpl.
  destruct (js_sort _ _) as [|[best b] l] eqn:E.
  - split; [done|]. apply js_sort_nil in E. apply map_eq_nil in E. intros c Hc.
    destruct (Z.ltb_spec 0 (fc_running c)) as [L|L]; [|done]. exfalso.
    assert (Hin : c ∈ running_candidates i) by (apply bfilter_elem; split; [done|lia]).
    rewrite E in Hin. by apply not_elem_of_nil in Hin.
  - pose proof (scored_runs i (best, b) [] l E) as Hruns. simpl in Hruns.
    assert (Hheld : b <> Some 0 -> confirm_ok i (fc_service best) b).
    { intros Hb. split_and!; [done..|]. exists best. split_and!; [done..|]. by eapply best_least. }
    destruct (decide (b = Some 0)) as [->|Hb].
    { split; [done|]. exists best. split_and!; [done..|]. by apply score_proven; destruct Hruns as (_ & _ & ?). }
    assert (Hconf : match confirmed_choice (df_confirmation i) ((best, b) :: l) with
                    | Some (chosen, window) => promote_ok i (fc_service chosen) window true
                    | None => True
                    end).
    { unfold confirmed_choice. destruct (df_confirmation i) as [conf|] eqn:Ec; [|done].
      destruct (List.find _ _) as [[chosen window]|] eqn:Ef; [|done]. simpl.
      destruct (confirmationCovers conf window) eqn:Ecov; [|done].
      apply find_some in Ef as [Hin Ht]. simpl in Ht. apply String.eqb_eq in Ht.
      apply list_elem_of_In, list_elem_of_split in Hin as (l1 & l2 & El).
      pose proof (eq_trans E El) as E'.
      split; [done|]. exists chosen. split_and!; [by apply (scored_runs i (chosen, window) l1 l2)|done|].
      exists conf. split_and!; [done..|]. unfold confirmationCovers in Ecov.
      destruct (cf_acceptBehindBytes conf) as [a|]; [|done]. destruct window as [w|]; [|done].
      exists w. split; [done|]. by apply Qle_bool_iff. }
    destruct b as [[|p|p]|]; [done|..];
      (destruct (confirmed_choice _ _) as [[chosen window]|]; [exact Hconf|by apply Hheld]).
Qed.

(** The best of the input with a confirmation is the best without. *)
Lemma confirm_then_promote i t b s r :
  decideFailover lc i = D_confirm t b s r ->
  decideFailover lc (confirmed_input i (accepts t b)) = D_promote t b s true.
Proof using Type.
  unfold decideFailover. cbn [confirmed_input df_topology df_candidates df_confirmation].
  destruct (gated (df_topology i)) eqn:Hg; [|done]. cbn [negb].
  change (running_candidates (confirmed_input i (accepts t b))) with (running_candidates i).
  change (fun c => (c, score (confirmed_input i (accepts t b)) c)) with (fun c => (c, score i c)).
  destruct (js_sort _ _) as [|[best b'] l]; [done|].
  assert (Hgo : match confirmed_choice (df_confirmation i) ((best, b') :: l) with
     | Some (chosen, window) => D_promote (fc_service chosen) window (fc_lagSeconds chosen) true
     | None => D_confirm (fc_service best) b' (fc_lagSeconds best) (hold_reason i b') end = D_confirm t b s r ->
     confirmed_choice (Some (accepts t b)) ((best, b') :: l) = Some (best, b') /\ fc_service best = t /\ b' = b /\
     fc_lagSeconds best = s).
  { destruct (confirmed_choice (df_confirmation i) _) as [[? ?]|]; [done|].
    intros [= <- <- <- <-]. split_and!; try done. unfold confirmed_choice, accepts. simpl.
    rewrite String.eqb_refl. unfold confirmationCovers. simpl.
    destruct b' as [z|]; simpl; [|done]. assert (Qle_bool (inject_Z z) (inject_Z z) = true) as ->; [|done].
    apply Qle_bool_iff, Qle_refl. }
  destruct b' as [[|p|p]|]; [done|..]; intros H; destruct (Hgo H) as (E & <- & <- & <-); by rewrite E.
Qed.
End decision.

(** No silent data loss. A promotion is ordered only for a topology whose
    failovers are gated and for a running replica; without an admin only if the
    replica has replayed up to the primary's last sampled position, sampled at
    most 20 seconds before the primary was last seen healthy; with one only if
    the confirmation names the replica and accepts the window it has now. *)
Theorem decideFailover_no_silent_loss lc `{!Comparator lc} i t b s k :
  decideFailover lc i = D_promote t b s k -> promote_ok i t b k.
Proof. intros H. pose proof (decide_cases lc i) as Hc. by rewrite H in Hc. Qed.

(** No failover is stuck. With a running replica a gated topology is
    promoted at once or held for an admin, and held only if no running replica
    is caught up, naming one that trails least; confirming the very window shown then
    promotes that replica. *)
Theorem decideFailover_progress lc `{!Comparator lc} i c :
  gated (df_topology i) = true -> c ∈ df_candidates i -> 0 < fc_running c ->
  (exists t b s k, decideFailover lc i = D_promote t b s k) \/
  (exists t b s r, decideFailover lc i = D_confirm t b s r /\ confirm_ok i t b /\
     (forall c', c' ∈ df_candidates i -> 0 < fc_running c' -> score i c' <> Some 0) /\
     decideFailover lc (confirmed_input i (accepts t b)) = D_promote t b s true).
Proof.
  intros Hg Hc Hr. pose proof (decide_cases lc i) as H.
  destruct (decideFailover lc i) as [|? |t b s k|t b s r] eqn:E.
  - congruence.
  - destruct H as [_ H]. specialize (H c Hc). lia.
  - left. by exists t, b, s, k.
  - right. exists t, b, s, r. split_and!; [done..| |by eapply confirm_then_promote].
    intros c' Hc' Hr' H0. by apply (confirm_none_caught_up i t b c').
Qed.

(** * The worker over time *)

(** The primary of a gated topology is seen healthy. *)
Definition seen_healthy (t : Tick) : bool := gated (tk_topology t) && tk_healthy t.

(** The last pass of [history] that saw the primary healthy, and what is known of
    the passes up to it. *)
Definition last_healthy (history : list Tick) (k : Tick) (upto : list Tick) : Prop :=
  exists pre post, history = pre ++ k :: post /\ upto = pre ++ [k] /\ seen_healthy k = true /\
    Forall (fun t => seen_healthy t = false) post.

(** The sample [l] was taken by a pass of [upto]. *)
Definition sampled (l : PrimaryWatermark) (upto : list Tick) : Prop :=
  exists h, h ∈ upto /\ seen_healthy h = true /\ tk_primaryLsn h = Some (wm_lsn l) /\ tk_now h = wm_sampledAt l.

Record watch_ok (history : list Tick) (w : Watch) : Prop := {
  wo_ticks : exists pre post, history = pre ++ post /\ Z.of_nat (length post) = unhealthyTicks w /\
    Forall (fun t => tk_healthy t = false) post;
  wo_healthy : match lastHealthyAt w with
    | None => watermark w = None
    | Some at_ => exists k upto, last_healthy history k upto /\ tk_now k = at_ /\
        forall l, watermark w = Some l -> sampled l upto
    end
}.

Lemma last_healthy_later history k upto t :
  last_healthy history k upto -> seen_healthy t = false -> last_healthy (history ++ [t]) k upto.
Proof.
  intros (pre & post & -> & -> & Hk & Hp) Ht. exists pre, (post ++ [t]). split_and!; try done.
  - by rewrite <- app_assoc.
  - apply Forall_app. by split; [|repeat constructor].
Qed.

Lemma last_healthy_now history t :
  seen_healthy t = true -> last_healthy (history ++ [t]) t (history ++ [t]).
Proof. intros Ht. by exists history, []. Qed.

Lemma no_ticks (history : list Tick) :
  exists pre post, history = pre ++ post /\ Z.of_nat (length post) = 0 /\
    Forall (fun t => tk_healthy t = false) post.
Proof. exists history, []. by rewrite app_nil_r. Qed.

(** The memory after a pass that saw the primary unhealthy and promoted nothing. *)
Lemma watch_ok_unhealthy history w t :
  watch_ok history w -> tk_healthy t = false ->
  watch_ok (history ++ [t]) {| unhealthyTicks := unhealthyTicks w + 1; watermark := watermark w; lastHealthyAt := lastHealthyAt w |}.
Proof.
  intros [(pre & post & -> & Hl & Hp) Hh] Ht. split; simpl.
  - exists pre, (post ++ [t]). split_and!; [by rewrite app_assoc| |].
    + rewrite length_app. simpl. lia.
    + apply Forall_app. by split; [|repeat constructor].
  - destruct (lastHealthyAt w) as [at_|]; [|done]. destruct Hh as (k & upto & Hk & Hat & Hw).
    exists k, upto. split_and!; [|done..]. apply last_healthy_later; [done|].
    unfold seen_healthy. by rewrite Ht, andb_false_r.
Qed.

Lemma watch_ok_forget history : watch_ok history no_watch.
Proof. split; simpl; [apply no_ticks|done]. Qed.

Lemma maybePromote_ok lc history w t :
  watch_ok history w -> watch_ok (history ++ [t]) (fst (maybePromote lc w t)).
Proof.
  intros Hw. pose proof Hw as [_ Hh]. unfold maybePromote.
  destruct (gated (tk_topology t)) eqn:Hg; simpl; [destruct (tk_healthy t) eqn:Ht; simpl|].
  - assert (Hs : seen_healthy t = true) by (unfold seen_healthy; by rewrite Hg, Ht).
    split; simpl; [apply no_ticks|]. exists t, (history ++ [t]).
    split_and!; [by apply last_healthy_now|done|]. intros l Hl.
    assert (Hold : watermark w = Some l -> sampled l (history ++ [t])).
    { intros Hl'. rewrite Hl' in Hh. destruct (lastHealthyAt w) as [at_|]; [|done].
      destruct Hh as (k & upto & (pre & post & -> & -> & _) & _ & Hsam).
      destruct (Hsam l eq_refl) as (h & Hin & Hrest). exists h. split; [|done].
      rewrite elem_of_app in Hin. rewrite !elem_of_app, elem_of_cons. set_solver. }
    destruct (tk_primaryLsn t) as [s|] eqn:Es; [|by apply Hold].
    destruct (String.eqb s ""); [by apply Hold|]. simplify_eq. exists t. split_and!; [set_solver|done..].
  - assert (Hu := watch_ok_unhealthy history w t Hw Ht).
    destruct (_ && _); [exact Hu|]. destruct (decideFailover _ _); try exact Hu.
    destruct (tk_promotes t); [apply watch_ok_forget|exact Hu].
  - split; simpl; [apply no_ticks|]. destruct (lastHealthyAt w) as [at_|]; [|done].
    destruct Hh as (k & upto & Hk & Hat & Hsam). exists k, upto. split_and!; [|done..].
    apply last_healthy_later; [done|]. unfold seen_healthy. by rewrite Hg.
Qed.

Lemma watch_correct lc history : watch_ok history (watch lc history).
Proof.
  induction history as [|t history IH] using rev_ind; [apply watch_ok_forget|].
  unfold watch. rewrite foldl_app. simpl. by apply maybePromote_ok.
Qed.

(** Two unhealthy passes precede an unplanned decision. *)
Lemma grace_passed history w :
  watch_ok history w -> promotionDue (unhealthyTicks w + 1) = true ->
  exists pre a b, history = pre ++ [a; b] /\ tk_healthy a = false /\ tk_healthy b = false.
Proof.
  intros [(pre & post & -> & Hl & Hp) _] Hd. unfold promotionDue, PROMOTION_GRACE_TICKS in Hd. b2p.
  destruct post as [|b post _] using rev_ind; [simpl in Hl; lia|].
  destruct post as [|a post _] using rev_ind; [simpl in Hl; lia|].
  rewrite !Forall_app in Hp. destruct Hp as [[_ Ha] Hb]. inversion_clear Ha. inversion_clear Hb.
  exists (pre ++ post), a, b. by rewrite <- !app_assoc.
Qed.

(** The worker, over any sequence of passes. It promotes without an admin
    only when the primary of a gated topology is unhealthy, was so on the two
    passes before unless the switch was planned, and the promoted replica has
    replayed the position that a healthy pass sampled at most 20 seconds before
    the last healthy pass; the promotion clears what the worker remembered. *)
Theorem worker_unattended_promotion lc `{!Comparator lc} history t w target b s :
  maybePromote lc (watch lc history) t = (w, Promoted (D_promote target b s false)) ->
  seen_healthy t = false /\ tk_healthy t = false /\ gated (tk_topology t) = true /\ w = no_watch /\
  (tk_planned t = true \/
   exists pre x y, history = pre ++ [x; y] /\ tk_healthy x = false /\ tk_healthy y = false) /\
  exists c r k upto l, c ∈ tk_candidates t /\ fc_service c = target /\ fc_replayLsn c = Some r /\
    last_healthy history k upto /\ sampled l upto /\ tk_now k - wm_sampledAt l <= 20000 /\ caught_up (wm_lsn l) r.
Proof.
  intros H. pose proof (watch_correct lc history) as Hw. unfold maybePromote in H.
  destruct (gated (tk_topology t)) eqn:Hg; [|done]. cbn [negb] in H. destruct (tk_healthy t) eqn:Ht; [done|].
  destruct (negb (tk_planned t) && _) eqn:Hd; [done|].
  pose proof (decide_cases lc (decide_input
    {| unhealthyTicks := unhealthyTicks (watch lc history) + 1; watermark := watermark (watch lc history);
       lastHealthyAt := lastHealthyAt (watch lc history) |} t)) as Hc.
  destruct (decideFailover _ _) as [|?|t' b' s' k'|]; try done. destruct (tk_promotes t); [|done]. simplify_eq.
  destruct Hc as (_ & c & (Hin & _) & <- & _ & wm & at_ & r & Ewm & Eat & Er & Hgap & Hcu).
  simpl in Ewm, Eat, Hin. split_and!; [unfold seen_healthy; by rewrite Ht, andb_false_r|done..| |].
  - destruct (tk_planned t); [by left|]. right. apply (grace_passed _ _ Hw).
    by destruct (promotionDue _).
  - destruct Hw as [_ Hh]. rewrite Eat in Hh. destruct Hh as (k & upto & Hk & <- & Hsam).
    exists c, r, k, upto, wm. split_and!; try done. by apply Hsam.
Qed.

(** * Witnesses *)

Definition sample_replica (name lsn : string) : FailoverCandidate :=
  {| fc_service := name; fc_running := 1; fc_replayLsn := Some lsn; fc_lagSeconds := Some (1 # 2)%Q |}.

Definition sample_input (lsns : list (string * string)) (conf : option FailoverConfirmation) : DecideFailoverInput :=
  {| df_topology := failover; df_candidates := map (fun p => sample_replica (fst p) (snd p)) lsns;
     df_watermark := Some {| wm_lsn := "16/B374D848"; wm_sampledAt := 1000 |}; df_lastHealthyAt := Some 1500;
     df_confirmation := conf |}.

Definition behind_replicas : list (string * string) := [("db-r1", "16/B3740000"); ("db-r2", "16/B374D000")].

Definition sample_tick (healthy : bool) (now : Z) : Tick :=
  {| tk_topology := failover; tk_healthy := healthy; tk_now := now; tk_primaryLsn := Some "16/B374D848";
     tk_planned := false; tk_candidates := [sample_replica "db-r1" "16/B374D848"]; tk_confirmation := None;
     tk_promotes := true |}.

Example lsn_value : lsnPos "16/B374D848" = Some 97500059720.
Proof. reflexivity. Qed.

Lemma decideFailover_no_silent_loss_witness :
  promote_ok (sample_input [("db-r1", "16/B374D848")] None) "db-r1" (Some 0) false.
Proof.
  apply (decideFailover_no_silent_loss str_cmp _ "db-r1" (Some 0) (Some (1 # 2)%Q) false). vm_compute. reflexivity.
Defined.

Lemma decideFailover_progress_witness :
  decideFailover str_cmp (sample_input behind_replicas None) =
    D_confirm "db-r2" (Some 2120) (Some (1 # 2)%Q)
      "the most caught-up replica is 2120 bytes behind the primary's last flushed position" /\
  decideFailover str_cmp (sample_input behind_replicas (Some (accepts "db-r2" (Some 2120)))) =
    D_promote "db-r2" (Some 2120) (Some (1 # 2)%Q) true.
Proof.
  assert (E : decideFailover str_cmp (sample_input behind_replicas None) =
    D_confirm "db-r2" (Some 2120) (Some (1 # 2)%Q)
      "the most caught-up replica is 2120 bytes behind the primary's last flushed position") by (vm_compute; reflexivity).
  split; [exact E|].
  destruct (decideFailover_progress str_cmp (sample_input behind_replicas None) (sample_replica "db-r1" "16/B3740000"))
    as [(t & b & s & k & H)|(t & b & s & r & H & _ & _ & Hp)].
  - reflexivity.
  - left.
  - reflexivity.
  - rewrite E in H. discriminate H.
  - rewrite E in H. injection H as <- <- <- <-. exact Hp.
Defined.

Lemma worker_unattended_promotion_witness :
  exists w, maybePromote str_cmp
      (watch str_cmp [sample_tick true 1000; sample_tick false 16000; sample_tick false 31000]) (sample_tick false 46000) =
    (w, Promoted (D_promote "db-r1" (Some 0) (Some (1 # 2)%Q) false)) /\ w = no_watch.
Proof.
  eexists. split; [vm_compute; reflexivity|].
  destruct (worker_unattended_promotion str_cmp
    [sample_tick true 1000; sample_tick false 16000; sample_tick false 31000] (sample_tick false 46000)
    no_watch "db-r1" (Some 0) (Some (1 # 2)%Q)) as (_ & _ & _ & Hw & _); [vm_compute; reflexivity|exact Hw].
Defined.
