(* ===== verification/SqlLex.v ===== *)
(** The lexer of the database studio (packages/core/src/studio/sql-lex.ts).

    The loop of [lexSql] reads one lexeme after another from what is left of
    the input; [lexeme] is the body of the loop, [lex_step] its effect on the
    loop's variables, and [lex_run] the loop with fuel.  A MySQL executable
    comment restarts the lexer on the input with the comment opened up. *)

From S2P Require Import Prelude.

Inductive SqlDialect := postgres | mysql.
#[export] Instance SqlDialect_eq_dec : EqDecision SqlDialect.
Proof. solve_decision. Defined.

Definition is_mysql (d : SqlDialect) : bool := match d with mysql => true | postgres => false end.

Inductive SqlTokenKind := K_word | K_ident | K_string | K_number | K_punct | K_param | K_backslash.
#[export] Instance SqlTokenKind_eq_dec : EqDecision SqlTokenKind.
Proof. solve_decision. Defined.

Record SqlToken := { kind : SqlTokenKind; value : string; depth : nat }.

Record LexedStatement := { tokens : list SqlToken; text : string }.

Record LexResult := { statements : list LexedStatement; error : option string }.

(** * Characters *)

Definition chr (n : nat) : ascii := ascii_of_nat n.
Definition squote : ascii := "'".
Definition dquote : ascii := chr 34.
Definition btick : ascii := "`".
Definition bslash : ascii := "\".
Definition dollar : ascii := "$".

Definition isWordStart (c : ascii) : bool := is_alpha c || Ascii.eqb c "_" || (128 <=? code c)%N.
Definition isWordChar (c : ascii) : bool :=
  is_alpha c || is_digit c || Ascii.eqb c "_" || Ascii.eqb c "$" || (128 <=? code c)%N.

(** [[0-9.eE_xXa-fA-F]] *)
Definition is_number_char (c : ascii) : bool :=
  let n := code c in
  is_digit c || Ascii.eqb c "." || Ascii.eqb c "_" || Ascii.eqb c "x" || Ascii.eqb c "X" ||
  ((97 <=? n) && (n <=? 102) || (65 <=? n) && (n <=? 70))%N.

(** [s.indexOf(p)], as the text before and after the first occurrence. *)
Fixpoint find_sub (p s : string) : option (string * string) :=
  if startsWith p s then Some ("", sdrop (String.length p) s)
  else match s with
       | EmptyString => None
       | String c s' => match find_sub p s' with Some (a, b) => Some (String c a, b) | None => None end
       end.

(** * Lexemes *)

(** What one turn of the loop reads, with the rest of the input after it. *)
Inductive Lexeme :=
  | L_skip (rest : string)
  | L_token (k : SqlTokenKind) (v : string) (rest : string)
  | L_open (rest : string)
  | L_close (rest : string)
  | L_semi (rest : string)
  | L_restart (rest : string)   (* the text lexing restarts with, from here on *)
  | L_error (msg : string).

(** [readQuoted], after the opening quote: the body and the rest. *)
Fixpoint readQuoted (q : ascii) (backslash : bool) (s : string) : option (string * string) :=
  match s with
  | EmptyString => None
  | String c s1 =>
      let step (c' : ascii) (s' : string) := match readQuoted q backslash s' with
                             | Some (body, rest) => Some (String c' body, rest) | None => None end in
      if backslash && Ascii.eqb c bslash then
        match s1 with
        | EmptyString => None
        | String c2 s2 => step c2 s2
        end
      else if Ascii.eqb c q then
        match s1 with
        | String c2 s2 => if Ascii.eqb c2 q then step q s2 else Some ("", s1)
        | EmptyString => Some ("", "")
        end
      else step c s1
  end.

(** The end of a nested Postgres comment, [d] levels deep. *)
Fixpoint comment_end (d : nat) (s : string) : option string :=
  match d with
  | O => Some s
  | S d' =>
      match s with
      | EmptyString => None
      | String c s1 =>
          match s1 with
          | String c2 s2 =>
              if Ascii.eqb c "/" && Ascii.eqb c2 "*" then comment_end (S d) s2
              else if Ascii.eqb c "*" && Ascii.eqb c2 "/" then comment_end d' s2
              else comment_end d s1
          | EmptyString => comment_end d s1
          end
      end
  end.

(** What follows the opener of a MySQL executable comment: an exclamation mark,
    after an optional M, and an optional version of five or six digits. *)
Definition exec_body (after : string) : option string :=
  let s := match after with String c r => if Ascii.eqb c "M" then r else after | EmptyString => after end in
  match s with
  | String c r =>
      if Ascii.eqb c "!" then
        let ds := span is_digit r in
        let n := if (5 <=? String.length ds)%nat then Nat.min 6 (String.length ds) else 0%nat in
        Some (sdrop n r)
      else None
  | EmptyString => None
  end.

(** The tag of a dollar quote, both dollars included. *)
Definition dollar_tag (s : string) : option string :=
  match s with
  | String c r =>
      if Ascii.eqb c dollar then
        let name := if next_is (fun x => is_alpha x || Ascii.eqb x "_") r
                    then span (fun x => is_alpha x || is_digit x || Ascii.eqb x "_") r else "" in
        if next_is (Ascii.eqb dollar) (sdrop (String.length name) r)
        then Some ("$" +:+ name +:+ "$") else None
      else None
  | EmptyString => None
  end.

Definition quoted_token (k : SqlTokenKind) (q : ascii) (backslash : bool) (s : string) (what : string) : Lexeme :=
  match readQuoted q backslash s with
  | Some (body, rest) => L_token k body rest
  | None => L_error ("unterminated " +:+ what)
  end.

(** A block comment, [after] its opener. *)
Definition block_comment (my : bool) (after : string) : Lexeme :=
  if my then
    match find_sub "*/" after with
    | None => L_error "unterminated comment"
    | Some (_, rest) =>
        match exec_body after with
        | Some body =>
            match find_sub "*/" body with
            | Some (inner, rest') => L_restart (" " +:+ inner +:+ " " +:+ rest')
            | None => L_error "unterminated comment"
            end
        | None => L_skip rest
        end
    end
  else match comment_end 1 after with
       | Some rest => L_skip rest
       | None => L_error "unterminated comment"
       end.

(** [--] starts a comment; in MySQL only before white space, a control
    character or the end. *)
Definition dash_comment (my : bool) (c : ascii) (r : string) : bool :=
  Ascii.eqb c "-" &&
  match r with
  | String c2 r2 =>
      Ascii.eqb c2 "-" &&
      (negb my || match r2 with
                  | EmptyString => true
                  | String c3 _ => is_space c3 || (code c3 <? 32)%N
                  end)
  | EmptyString => false
  end.

Definition dollar_lexeme (s : string) : option Lexeme :=
  match dollar_tag s with
  | Some tag =>
      match find_sub tag (sdrop (String.length tag) s) with
      | Some (body, rest) => Some (L_token K_string body rest)
      | None => Some (L_error "unterminated dollar-quoted string")
      end
  | None =>
      match s with
      | String _ r =>
          let ds := span is_digit r in
          if String.eqb ds "" then None
          else Some (L_token K_param ("$" +:+ ds) (sdrop (String.length ds) r))
      | EmptyString => None
      end
  end.

(** The end of the loop's body: everything that is neither a comment nor
    quoted. *)
Definition plain_lexeme (c : ascii) (r : string) : Lexeme :=
  let s := String c r in
  if Ascii.eqb c bslash then L_token K_backslash (String.substring 0 2 s) (sdrop 2 s)
  else if Ascii.eqb c ";" then L_semi r
  else if Ascii.eqb c "(" then L_open r
  else if Ascii.eqb c ")" then L_close r
  else if is_digit c || Ascii.eqb c "." && next_is is_digit r then
    let more := span is_number_char r in
    L_token K_number (String c more) (sdrop (String.length more) r)
  else if isWordStart c then
    let more := span isWordChar r in
    L_token K_word (toUpperCase (String c more)) (sdrop (String.length more) r)
  else L_token K_punct (str1 c) r.

Definition lexeme (d : SqlDialect) (c : ascii) (r : string) : Lexeme :=
  let my := is_mysql d in
  let s := String c r in
  if is_space c then L_skip r
  else if dash_comment my c r || my && Ascii.eqb c "#" then
    match find_sub (str1 (chr 10)) s with Some (_, rest) => L_skip rest | None => L_skip "" end
  else if Ascii.eqb c "/" && next_is (Ascii.eqb "*") r then block_comment my (sdrop 1 r)
  else if Ascii.eqb c squote || my && Ascii.eqb c dquote then quoted_token K_string c my r "string"
  else if negb my && (Ascii.eqb c "E" || Ascii.eqb c "e") && next_is (Ascii.eqb squote) r then
    quoted_token K_string squote true (sdrop 1 r) "string"
  else if negb my && Ascii.eqb c dquote then quoted_token K_ident dquote false r "identifier"
  else if my && Ascii.eqb c btick then quoted_token K_ident btick false r "identifier"
  else if negb my && Ascii.eqb c dollar then
    match dollar_lexeme s with Some l => l | None => plain_lexeme c r end
  else plain_lexeme c r.

(** * The loop *)

Record LexState := {
  ls_pre : string;      (* the input read so far *)
  ls_rest : string;     (* the input left *)
  ls_statements : list LexedStatement;
  ls_tokens : list SqlToken;
  ls_depth : nat;
  ls_start : nat        (* [stmtStart] *)
}.

(** [endStatement] at the present position. *)
Definition end_statement (st : LexState) : list LexedStatement :=
  match ls_tokens st with
  | [] => ls_statements st
  | _ => ls_statements st ++ [ {| tokens := ls_tokens st; text := trim (sdrop (ls_start st) (ls_pre st)) |} ]
  end.

(** Moves on to [rest], a suffix of what is left, with new variables. *)
Definition advance (st : LexState) (rest : string) (toks : list SqlToken) (dp : nat) : LexState :=
  let n := (String.length (ls_rest st) - String.length rest)%nat in
  {| ls_pre := ls_pre st +:+ String.substring 0 n (ls_rest st); ls_rest := rest;
     ls_statements := ls_statements st; ls_tokens := toks; ls_depth := dp; ls_start := ls_start st |}.

Definition tok (k : SqlTokenKind) (v : string) (dp : nat) : SqlToken := {| kind := k; value := v; depth := dp |}.

Definition start_state (input : string) : LexState :=
  {| ls_pre := ""; ls_rest := input; ls_statements := []; ls_tokens := []; ls_depth := 0; ls_start := 0 |}.

Definition lex_step (d : SqlDialect) (st : LexState) : LexState + LexResult :=
  match ls_rest st with
  | EmptyString => inr {| statements := end_statement st; error := None |}
  | String c r =>
      match lexeme d c r with
      | L_skip rest => inl (advance st rest (ls_tokens st) (ls_depth st))
      | L_token k v rest => inl (advance st rest (ls_tokens st ++ [tok k v (ls_depth st)]) (ls_depth st))
      | L_open rest => inl (advance st rest (ls_tokens st ++ [tok K_punct "(" (ls_depth st)]) (S (ls_depth st)))
      | L_close rest =>
          inl (advance st rest (ls_tokens st ++ [tok K_punct ")" (pred (ls_depth st))]) (pred (ls_depth st)))
      | L_semi rest =>
          inl {| ls_pre := ls_pre st +:+ str1 c; ls_rest := rest; ls_statements := end_statement st;
                 ls_tokens := []; ls_depth := 0; ls_start := S (String.length (ls_pre st)) |}
      | L_restart rest => inl (start_state (ls_pre st +:+ rest))
      | L_error msg => inr {| statements := ls_statements st; error := Some msg |}
      end
  end.

Fixpoint lex_run (fuel : nat) (d : SqlDialect) (st : LexState) : option LexResult :=
  match fuel with
  | O => None
  | S fuel' => match lex_step d st with
               | inl st' => lex_run fuel' d st'
               | inr r => Some r
               end
  end.

(** Enough fuel for an input of [n] characters: a restart shortens the input. *)
Definition lex_fuel (n : nat) : nat := S (n + n * S n).

Definition lexSql (input : string) (d : SqlDialect) : LexResult :=
  match lex_run (lex_fuel (String.length input)) d (start_state input) with
  | Some r => r
  | None => {| statements := []; error := Some "out of fuel" |}
  end.

Example lex_example :
  lexSql "SELECT a.`x y` /*!50000 , 'it''s' */ -- c" mysql =
  {| statements := [ {| tokens := [tok K_word "SELECT" 0; tok K_word "A" 0; tok K_punct "." 0; tok K_ident "x y" 0;
                                   tok K_punct "," 0; tok K_string "it's" 0];
                        text := "SELECT a.`x y`   , 'it''s'   -- c" |} ]; error := None |}.
Proof. vm_compute. reflexivity. Qed.

(** * Termination *)

#[local] Arguments sdrop : simpl never.

Lemma find_sub_spec p s a b : find_sub p s = Some (a, b) -> s = (a ++ p ++ b)%string.
Proof.
  revert a b. induction s as [|c s IH]; intros a b; simpl.
  - destruct (startsWith p "") eqn:E; [|done]. intros [= <- <-].
    destruct p; [done|]. by apply startsWith_spec in E as [r Hr].
  - destruct (startsWith p (String c s)) eqn:E.
    + intros [= <- <-]. apply startsWith_spec in E as [r Hr]. rewrite Hr, sdrop_app. done.
    + destruct (find_sub p s) as [[a' b']|]; [|done]. intros [= <- <-]. simpl. f_equal. by apply IH.
Qed.

Lemma find_sub_length p s a b : find_sub p s = Some (a, b) ->
  (String.length s = String.length a + String.length p + String.length b)%nat.
Proof. intros ->%find_sub_spec. rewrite !string_length_app. lia. Qed.

Lemma readQuoted_length q bs s body rest : readQuoted q bs s = Some (body, rest) ->
  (String.length rest < String.length s)%nat.
Proof.
  remember (String.length s) as n eqn:Hn. revert s body rest Hn.
  induction (lt_wf n) as [n _ IH]. intros s body rest ->. destruct s as [|c s1]; [done|]. simpl.
  intros H. repeat (case_match; simplify_eq/=); try lia.
  all: match goal with
       | H : readQuoted _ _ ?s' = Some (_, ?r) |- (String.length ?r < _)%nat =>
           assert (String.length r < String.length s')%nat by (eapply (IH (String.length s')); eauto; simpl; lia);
           simpl; lia
       end.
Qed.

Lemma comment_end_step d c s1 :
  comment_end (S d) (String c s1) =
  match s1 with
  | String c2 s2 =>
      if Ascii.eqb c "/" && Ascii.eqb c2 "*" then comment_end (S (S d)) s2
      else if Ascii.eqb c "*" && Ascii.eqb c2 "/" then comment_end d s2
      else comment_end (S d) s1
  | EmptyString => comment_end (S d) s1
  end.
Proof. by destruct s1. Qed.

Lemma comment_end_length d s rest : comment_end d s = Some rest -> (String.length rest <= String.length s)%nat.
Proof.
  remember (String.length s) as n eqn:Hn. revert d s rest Hn.
  induction (lt_wf n) as [n _ IH]. intros d s rest ->. destruct d as [|d]; [destruct s; intros [= <-]; simpl; lia|].
  destruct s as [|c s1]; [done|]. rewrite comment_end_step. intros H.
  assert (Hrec : forall d' s', comment_end d' s' = Some rest ->
    (String.length s' <= String.length s1)%nat -> (String.length rest <= String.length (String c s1))%nat).
  { intros d' s' Hd Hl. simpl.
    assert (String.length rest <= String.length s')%nat by (apply (IH (String.length s') ltac:(simpl; lia) d' s' rest eq_refl Hd)). lia. }
  destruct s1 as [|c2 s2]; [by apply (Hrec (S d) "")|].
  destruct (_ && _); [apply (Hrec _ _ H); simpl; lia|].
  destruct (_ && _); apply (Hrec _ _ H); simpl; lia.
Qed.

Lemma exec_body_length s body : exec_body s = Some body -> (String.length body < String.length s)%nat.
Proof.
  unfold exec_body. set (s' := match s with String c r => if Ascii.eqb c "M" then r else s | EmptyString => s end).
  assert (Hs : (String.length s' <= String.length s)%nat)
    by (unfold s'; destruct s as [|c r]; [done|]; destruct (Ascii.eqb c "M"); simpl; lia).
  clearbody s'. destruct s' as [|c r]; [done|]. destruct (Ascii.eqb c "!"); [|done].
  intros [= <-]. rewrite sdrop_length. simpl in Hs. lia.
Qed.

(** The text left after a lexeme, if the loop goes on with the same input. *)
Definition lexeme_rest (l : Lexeme) : option string :=
  match l with
  | L_skip rest | L_token _ _ rest | L_open rest | L_close rest | L_semi rest => Some rest
  | L_restart _ | L_error _ => None
  end.

(** Reading [l] off [s] makes progress. *)
Definition shorter (s : string) (l : Lexeme) : Prop :=
  match l with
  | L_restart rest => (String.length rest < String.length s)%nat
  | _ => forall rest, lexeme_rest l = Some rest -> (String.length rest < String.length s)%nat
  end.

Lemma quoted_token_shorter k q bs s what s0 :
  (String.length s <= String.length s0)%nat -> shorter s0 (quoted_token k q bs s what).
Proof.
  intros Hs. unfold quoted_token. destruct (readQuoted q bs s) as [[body rest]|] eqn:E; [|done].
  apply readQuoted_length in E. intros r [= <-]. lia.
Qed.

Lemma block_comment_shorter my s s0 : (S (String.length s) < String.length s0)%nat -> shorter s0 (block_comment my s).
Proof.
  intros Hs. unfold block_comment. destruct my.
  - destruct (find_sub "*/" s) as [[a b]|] eqn:E; [|done]. apply find_sub_length in E. simpl in E.
    destruct (exec_body s) as [body|] eqn:Eb.
    + destruct (find_sub "*/" body) as [[a' b']|] eqn:E'; [|done]. apply find_sub_length in E'.
      apply exec_body_length in Eb. unfold shorter. rewrite !string_length_app. simpl in *. lia.
    + intros r [= <-]. lia.
  - destruct (comment_end 1 s) as [rest|] eqn:E; [|done]. apply comment_end_length in E.
    intros r [= <-]. lia.
Qed.

Lemma plain_lexeme_shorter c r : shorter (String c r) (plain_lexeme c r).
Proof.
  unfold plain_lexeme. repeat case_match; intros rest [= <-]; rewrite ?sdrop_length; simpl; lia.
Qed.

Lemma dollar_lexeme_shorter s l : dollar_lexeme s = Some l -> shorter s l.
Proof.
  unfold dollar_lexeme. destruct (dollar_tag s) as [tag|] eqn:E.
  - unfold dollar_tag in E.
    assert (Ht : (0 < String.length tag)%nat) by (repeat (case_match; simplify_eq/=); lia).
    destruct (find_sub tag (sdrop (String.length tag) s)) as [[a b]|] eqn:Ef; intros [= <-]; [|done].
    apply find_sub_length in Ef. rewrite sdrop_length in Ef. intros r [= <-].
    destruct (Nat.le_gt_cases (String.length tag) (String.length s)); lia.
  - destruct s as [|c r]; [done|]. destruct (String.eqb _ ""); [done|]. intros [= <-].
    intros rest [= <-]. rewrite sdrop_length. simpl. lia.
Qed.

Ltac split_shorter :=
  match goal with |- shorter _ (if ?b then _ else _) => destruct b eqn:? end.

Lemma lexeme_shorter d c r : shorter (String c r) (lexeme d c r).
Proof.
  unfold lexeme. cbv zeta. split_shorter; [intros rest [= <-]; simpl; lia|].
  split_shorter.
  { destruct (find_sub _ _) as [[a b]|] eqn:E; intros rest [= <-]; [|simpl; lia].
    apply find_sub_length in E. cbn [String.length str1] in *. lia. }
  split_shorter.
  { apply block_comment_shorter. rewrite sdrop_length. destruct r; [b2p; done|]. simpl. lia. }
  split_shorter; [apply quoted_token_shorter; simpl; lia|].
  split_shorter; [apply quoted_token_shorter; rewrite sdrop_length; simpl; lia|].
  split_shorter; [apply quoted_token_shorter; simpl; lia|].
  split_shorter; [apply quoted_token_shorter; simpl; lia|].
  split_shorter; [|apply plain_lexeme_shorter].
  destruct (dollar_lexeme _) as [l|] eqn:E; [by apply dollar_lexeme_shorter|apply plain_lexeme_shorter].
Qed.

(** Turns left in the worst case. *)
Definition turns (st : LexState) : nat :=
  let n := (String.length (ls_pre st) + String.length (ls_rest st))%nat in
  (String.length (ls_rest st) + n * S n)%nat.

Lemma substring_length n s : (n <= String.length s)%nat -> String.length (String.substring 0 n s) = n.
Proof.
  revert s. induction n as [|n IH]; intros [|c s] H; simpl in *; try done; [lia|]. rewrite IH; lia.
Qed.

Lemma advance_turns st rest toks dp :
  (String.length rest < String.length (ls_rest st))%nat -> (turns (advance st rest toks dp) < turns st)%nat.
Proof.
  intros H. unfold turns, advance. cbn [ls_pre ls_rest]. rewrite string_length_app, substring_length by lia.
  replace (String.length (ls_pre st) + (String.length (ls_rest st) - String.length rest) + String.length rest)%nat
    with (String.length (ls_pre st) + String.length (ls_rest st))%nat by lia.
  lia.
Qed.

Lemma lex_step_turns d st st' : lex_step d st = inl st' -> (turns st' < turns st)%nat.
Proof.
  unfold lex_step. destruct (ls_rest st) as [|c r] eqn:Er; [done|].
  pose proof (lexeme_shorter d c r) as Hs. unfold shorter in Hs.
  destruct (lexeme d c r) as [rest|k v rest|rest|rest|rest|rest|msg]; intros [= <-];
    try (apply advance_turns; rewrite Er; by apply Hs).
  - specialize (Hs rest eq_refl). simpl in Hs. unfold turns, str1. cbn [ls_pre ls_rest].
    rewrite Er, string_length_app. simpl String.length. nia.
  - unfold turns, start_state. cbn [ls_pre ls_rest]. rewrite Er, string_length_app. simpl in Hs |- *. nia.
Qed.

Lemma lex_run_enough fuel d st : (turns st < fuel)%nat -> exists r, lex_run fuel d st = Some r.
Proof.
  revert st. induction fuel as [|fuel IH]; intros st H; [lia|]. simpl.
  destruct (lex_step d st) as [st'|r] eqn:E; [|by eexists].
  apply IH. apply lex_step_turns in E. lia.
Qed.

Lemma lex_run_more fuel fuel' d st r :
  lex_run fuel d st = Some r -> (fuel <= fuel')%nat -> lex_run fuel' d st = Some r.
Proof.
  revert fuel' st. induction fuel as [|fuel IH]; intros fuel' st H Hle; [done|].
  destruct fuel' as [|fuel']; [lia|]. simpl in *. destruct (lex_step d st); [|done]. apply IH; [done|lia].
Qed.

Lemma lexSql_run input d : lex_run (lex_fuel (String.length input)) d (start_state input) = Some (lexSql input d).
Proof.
  unfold lexSql. destruct (lex_run_enough (lex_fuel (String.length input)) d (start_state input)) as [r Hr].
  - unfold turns, lex_fuel. simpl. lia.
  - by rewrite Hr.
Qed.

(** The lexer terminates on every input: the fuel of [lexSql], quadratic
    in the length of the input, is enough, the result does not depend on having
    more of it, and the loop makes progress on every turn, also when a MySQL
    executable comment restarts it. *)
Theorem lexSql_terminates input d :
  (forall fuel, (lex_fuel (String.length input) <= fuel)%nat ->
     lex_run fuel d (start_state input) = Some (lexSql input d)) /\
  (forall st st', lex_step d st = inl st' -> (turns st' < turns st)%nat).
Proof.
  split.
  - intros fuel. apply lex_run_more, lexSql_run.
  - intros st st'. apply lex_step_turns.
Qed.
