(* ===== verification/SqlBuild.v ===== *)
(** The statements the studio builds (packages/core/src/studio/sql.ts): quoted
    identifiers, literals, the browse query and the row edits.

    A number is what [String(v)] writes of it: an integer in decimal, or digits
    with a fraction, an exponent or both; the numbers that are not finite have no
    such text.  A row is its list of entries. *)

From Stdlib Require Import DecimalString DecimalFacts.
From S2P Require Import Prelude SqlLex.

(** The text of a finite number that is not written as an integer: sign, digits,
    the digits of a fraction, the exponent ([-0.5], [1e+21], [1.5e-7]). *)
Record Decimal := { dc_negative : bool; dc_int : N; dc_frac : option Decimal.uint; dc_exp : option Z }.

Inductive StudioValue :=
  | V_string (s : string)
  | V_number (z : Z)
  | V_decimal (v : Decimal)
  | V_not_finite
  | V_boolean (b : bool)
  | V_null.

(** [s.replace(/.../g, f)] with a pattern of one character. *)
Fixpoint sflat (f : ascii -> string) (s : string) : string :=
  match s with EmptyString => EmptyString | String c s' => f c +:+ sflat f s' end.

Definition double (q c : ascii) : string := if Ascii.eqb c q then String q (str1 q) else str1 c.

Definition nul : ascii := chr 0.

Fixpoint has_char (q : ascii) (s : string) : bool :=
  match s with EmptyString => false | String c s' => Ascii.eqb c q || has_char q s' end.

Definition quoteIdent (d : SqlDialect) (name : string) : string :=
  let q := if is_mysql d then btick else dquote in
  str1 q +:+ sflat (double q) name +:+ str1 q.

Record StudioTableRef := { schema : option string; tname : string }.

Definition qualified (d : SqlDialect) (t : StudioTableRef) : string :=
  match d, schema t with
  | postgres, Some s =>
      if String.eqb s "" then quoteIdent d (tname t)
      else quoteIdent d s +:+ "." +:+ quoteIdent d (tname t)
  | _, _ => quoteIdent d (tname t)
  end.

Definition digits (n : N) : string := NilZero.string_of_uint (N.to_uint n).

Definition number_text (z : Z) : string :=
  match z with Z.neg p => "-" +:+ digits (Npos p) | _ => digits (Z.to_N z) end.

(** The digits before an exponent. *)
Definition mantissa (v : Decimal) : string :=
  digits (dc_int v) +:+ match dc_frac v with Some u => "." +:+ NilEmpty.string_of_uint u | None => "" end.

Definition exp_sign (e : Z) : string := if e <? 0 then "-" else "+".

Definition decimal_text (v : Decimal) : string :=
  (if dc_negative v then "-" else "") +:+
  match dc_exp v with
  | Some e => (mantissa v +:+ "e") +:+ exp_sign e +:+ digits (Z.abs_N e)
  | None => mantissa v
  end.

Definition literal (d : SqlDialect) (v : StudioValue) : res string :=
  match v with
  | V_null => Ok "NULL"
  | V_boolean b => Ok (if b then "TRUE" else "FALSE")
  | V_number z => Ok (number_text z)
  | V_decimal v => Ok (decimal_text v)
  | V_not_finite => Ok "NULL"
  | V_string s =>
      if is_mysql d then
        let s1 := sflat (double bslash) s in
        let s2 := sflat (double squote) s1 in
        let s3 := sflat (fun c => if Ascii.eqb c nul then String bslash (str1 "0") else str1 c) s2 in
        Ok (str1 squote +:+ s3 +:+ str1 squote)
      else if has_char nul s then Err "Postgres text cannot contain NUL bytes"
      else Ok (str1 squote +:+ sflat (double squote) s +:+ str1 squote)
  end.

(** * Browsing *)

Inductive FilterOp := op_eq | op_ne | op_lt | op_le | op_gt | op_ge | op_contains | op_starts | op_null | op_not_null.

Definition op_text (o : FilterOp) : string :=
  match o with
  | op_eq => "=" | op_ne => "<>" | op_lt => "<" | op_le => "<=" | op_gt => ">" | op_ge => ">="
  | op_contains => "contains" | op_starts => "starts with" | op_null => "is null" | op_not_null => "is not null"
  end.

Record BrowseFilter := { f_column : string; f_op : FilterOp; f_value : option string }.

Record BrowseQuery := {
  b_table : StudioTableRef; b_limit : Z; b_offset : Z; b_orderBy : option string; b_desc : bool;
  b_filters : list BrowseFilter
}.

Definition likeEscape (v : string) : string :=
  sflat (fun c => if Ascii.eqb c bslash || Ascii.eqb c "%" || Ascii.eqb c "_" then String bslash (str1 c) else str1 c) v.

Definition filterSql (d : SqlDialect) (f : BrowseFilter) : res string :=
  let col := quoteIdent d (f_column f) in
  let v := default "" (f_value f) in
  match f_op f with
  | op_null => Ok (col +:+ " IS NULL")
  | op_not_null => Ok (col +:+ " IS NOT NULL")
  | op_contains | op_starts =>
      let pat := match f_op f with op_contains => "%" +:+ likeEscape v +:+ "%" | _ => likeEscape v +:+ "%" end in
      let! l := literal d (V_string pat) in
      Ok (if is_mysql d then col +:+ " LIKE " +:+ l else col +:+ "::text ILIKE " +:+ l)
  | o => let! l := literal d (V_string v) in Ok (col +:+ " " +:+ op_text o +:+ " " +:+ l)
  end.

Definition truthy_text (x : option string) : option string :=
  match x with Some s => if String.eqb s "" then None else Some s | None => None end.

Definition browseSql (d : SqlDialect) (q : BrowseQuery) : res string :=
  let filters := List.filter (fun f => negb (String.eqb (f_column f) "")) (b_filters q) in
  let! conds := res_map (filterSql d) filters in
  let where_ := match conds with [] => [] | _ => ["WHERE " +:+ join " AND " conds] end in
  let order := match truthy_text (b_orderBy q) with
               | Some c => ["ORDER BY " +:+ quoteIdent d c +:+ " " +:+ (if b_desc q then "DESC" else "ASC")]
               | None => [] end in
  let limit := ["LIMIT " +:+ number_text (Z.max 1 (b_limit q) + 1)] in
  let offset := if 0 <? b_offset q then ["OFFSET " +:+ number_text (b_offset q)] else [] in
  Ok (join " " ((("SELECT * FROM " +:+ qualified d (b_table q)) :: where_) ++ order ++ limit ++ offset)).

(** * Row edits *)

Definition Row : Type := list (string * StudioValue).

Definition key_cond (d : SqlDialect) (e : string * StudioValue) : res string :=
  match snd e with
  | V_null => Ok (quoteIdent d (fst e) +:+ " IS NULL")
  | v => let! l := literal d v in Ok (quoteIdent d (fst e) +:+ " = " +:+ l)
  end.

Definition whereKey (d : SqlDialect) (key : Row) : res string :=
  match key with
  | [] => Err "a row edit needs the row key (primary key or unique columns)"
  | _ => let! l := res_map (key_cond d) key in Ok (join " AND " l)
  end.

Definition assignment (d : SqlDialect) (e : string * StudioValue) : res string :=
  let! l := literal d (snd e) in Ok (quoteIdent d (fst e) +:+ " = " +:+ l).

Definition limit_one (d : SqlDialect) : string := if is_mysql d then " LIMIT 1" else "".

Definition updateRowSql (d : SqlDialect) (t : StudioTableRef) (key set : Row) : res string :=
  match set with
  | [] => Err "nothing to update"
  | _ =>
      let! assign := res_map (assignment d) set in
      let! w := whereKey d key in
      Ok ("UPDATE " +:+ qualified d t +:+ " SET " +:+ join ", " assign +:+ " WHERE " +:+ w +:+ limit_one d)
  end.

Definition insertRowSql (d : SqlDialect) (t : StudioTableRef) (values : Row) : res string :=
  match values with
  | [] => Ok (if is_mysql d then "INSERT INTO " +:+ qualified d t +:+ " () VALUES ()"
              else "INSERT INTO " +:+ qualified d t +:+ " DEFAULT VALUES RETURNING *")
  | _ =>
      let cols := join ", " (map (fun e => quoteIdent d (fst e)) values) in
      let! vals := res_map (fun e => literal d (snd e)) values in
      Ok ("INSERT INTO " +:+ qualified d t +:+ " (" +:+ cols +:+ ") VALUES (" +:+ join ", " vals +:+ ")" +:+
          (if is_mysql d then "" else " RETURNING *"))
  end.

Definition deleteRowSql (d : SqlDialect) (t : StudioTableRef) (key : Row) : res string :=
  let! w := whereKey d key in
  Ok ("DELETE FROM " +:+ qualified d t +:+ " WHERE " +:+ w +:+ limit_one d).

(** * Reading a piece of text *)

(** The lexer gets from [st] to [st']. *)
Definition lex_to (d : SqlDialect) (st st' : LexState) : Prop :=
  exists k, forall fuel, lex_run (k + fuel) d st = lex_run fuel d st'.

Lemma lex_to_refl d st : lex_to d st st.
Proof. by exists 0%nat. Qed.

Lemma lex_to_trans d s1 s2 s3 : lex_to d s1 s2 -> lex_to d s2 s3 -> lex_to d s1 s3.
Proof.
  intros [k1 H1] [k2 H2]. exists (k1 + k2)%nat. intros fuel. by rewrite <- Nat.add_assoc, H1, H2.
Qed.

Lemma lex_to_step d st st' : lex_step d st = inl st' -> lex_to d st st'.
Proof. intros H. exists 1%nat. intros fuel. simpl. by rewrite H. Qed.

(** [st] after [s] was read, with the tokens and the depth that gave. *)
Definition read_to (st : LexState) (s r : string) (toks : list SqlToken) (dp : nat) : LexState :=
  {| ls_pre := ls_pre st +:+ s; ls_rest := r; ls_statements := ls_statements st;
     ls_tokens := ls_tokens st ++ toks; ls_depth := dp; ls_start := ls_start st |}.

(** From depth [dp], the text [s] is read as [toks] before [r]. *)
Definition reads (d : SqlDialect) (dp : nat) (s : string) (toks : list SqlToken) (dp' : nat) (r : string) : Prop :=
  forall st, ls_rest st = s +:+ r -> ls_depth st = dp -> lex_to d st (read_to st s r toks dp').

Lemma reads_app d dp s1 t1 dp1 s2 t2 dp2 r :
  reads d dp s1 t1 dp1 (s2 +:+ r) -> reads d dp1 s2 t2 dp2 r -> reads d dp (s1 +:+ s2) (t1 ++ t2) dp2 r.
Proof.
  intros H1 H2 st Hr Hd. eapply lex_to_trans.
  - apply (H1 st); [by rewrite Hr, string_app_assoc|done].
  - assert (E : read_to st (s1 +:+ s2) r (t1 ++ t2) dp2 =
                read_to (read_to st s1 (s2 +:+ r) t1 dp1) s2 r t2 dp2)
      by (unfold read_to; simpl; by rewrite string_app_assoc, app_assoc).
    rewrite E. by apply H2.
Qed.

Lemma substring_prefix a b : String.substring 0 (String.length a) (a +:+ b) = a.
Proof. apply (substring_app "" a b). Qed.

Lemma advance_read st s r toks dp :
  ls_rest st = s +:+ r -> advance st r (ls_tokens st ++ toks) dp = read_to st s r toks dp.
Proof.
  intros H. unfold advance, read_to. rewrite H, string_length_app.
  replace (String.length s + String.length r - String.length r)%nat with (String.length s) by lia.
  by rewrite substring_prefix.
Qed.

Lemma reads_token d dp c s k v r :
  lexeme d c (s +:+ r) = L_token k v r -> reads d dp (String c s) [tok k v dp] dp r.
Proof.
  intros H st Hr Hd. rewrite <- (advance_read st (String c s) r) by done.
  apply lex_to_step. unfold lex_step. rewrite Hr. simpl. by rewrite H, Hd.
Qed.

Lemma reads_open d dp r : reads d dp "(" [tok K_punct "(" dp] (S dp) r.
Proof.
  intros st Hr Hd. rewrite <- (advance_read st "(" r) by done. apply lex_to_step. unfold lex_step.
  rewrite Hr. simpl. assert (lexeme d "(" r = L_open r) as -> by by destruct d. by rewrite Hd.
Qed.

Lemma reads_close d dp r : reads d (S dp) ")" [tok K_punct ")" dp] dp r.
Proof.
  intros st Hr Hd. rewrite <- (advance_read st ")" r) by done. apply lex_to_step. unfold lex_step.
  rewrite Hr. simpl. assert (lexeme d ")" r = L_close r) as -> by by destruct d. by rewrite Hd.
Qed.

Lemma reads_space d dp r : reads d dp " " [] dp r.
Proof.
  intros st Hr Hd. rewrite <- (advance_read st " " r) by done. apply lex_to_step. unfold lex_step.
  rewrite Hr, app_nil_r. cbn [String.append]. assert (lexeme d " " r = L_skip r) as -> by by destruct d. by rewrite Hd.
Qed.

(** ** Words and numbers *)

Lemma upper_word c : is_alpha c = true -> isWordChar c = true.
Proof. unfold isWordChar. by intros ->. Qed.

Lemma alpha_lexeme d c r : is_alpha c = true -> next_is (Ascii.eqb squote) r = false ->
  lexeme d c r = L_token K_word (toUpperCase (String c (span isWordChar r)))
                   (sdrop (String.length (span isWordChar r)) r).
Proof.
  intros Hc Hr. unfold lexeme. rewrite Hr.
  destruct c as [[] [] [] [] [] [] [] []]; try discriminate Hc; destruct d; reflexivity.
Qed.

(** Two letters or more, in upper case. *)
Definition is_keyword (w : string) : bool :=
  match w with
  | String c (String c2 s) =>
      is_alpha c && is_alpha c2 && all_chars is_alpha s
  | _ => false
  end.

Lemma reads_word d dp w r : is_keyword w = true -> next_is isWordChar r = false ->
  reads d dp w [tok K_word (toUpperCase w) dp] dp r.
Proof.
  intros Hw Hr. destruct w as [|c [|c2 s]]; try done. simpl in Hw. b2p.
  assert (Hq : next_is (Ascii.eqb squote) (String c2 s +:+ r) = false).
  { simpl. destruct c2 as [[] [] [] [] [] [] [] []]; try done; discriminate. }
  apply reads_token. rewrite alpha_lexeme by done.
  assert (Hspan : span isWordChar (String c2 s +:+ r) = String c2 s).
  { apply span_app; [|done]. simpl. rewrite upper_word by done. simpl.
    by apply (all_chars_impl is_alpha); [apply upper_word|]. }
  rewrite Hspan. f_equal. apply sdrop_app.
Qed.

Lemma digit_lexeme d c r : is_digit c = true ->
  lexeme d c r = L_token K_number (String c (span is_number_char r)) (sdrop (String.length (span is_number_char r)) r).
Proof.
  intros Hc. unfold lexeme.
  destruct c as [[] [] [] [] [] [] [] []]; try discriminate Hc; destruct d; reflexivity.
Qed.

Lemma digits_all n : all_chars is_digit (digits n) = true /\ digits n <> "".
Proof.
  unfold digits. destruct (N.to_uint n) as [|u|u|u|u|u|u|u|u|u|u]; [by split|..];
    (split; [|done]); unfold NilZero.string_of_uint; simpl;
    induction u; simpl; try done; by rewrite IHu.
Qed.

(** A digit and the characters of a number behind it are one token. *)
Lemma reads_number d dp w r : (exists c s, w = String c s /\ is_digit c = true /\ all_chars is_number_char s = true) ->
  next_is is_number_char r = false -> reads d dp w [tok K_number w dp] dp r.
Proof.
  intros (c & s & -> & Hc & Hs) Hr. apply reads_token. rewrite digit_lexeme by done.
  assert (Hspan : span is_number_char (s +:+ r) = s) by (by apply span_app).
  rewrite Hspan. f_equal. apply sdrop_app.
Qed.

Lemma digit_number s : all_chars is_digit s = true -> all_chars is_number_char s = true.
Proof. apply all_chars_impl. intros x Hx. unfold is_number_char. by rewrite Hx. Qed.

Lemma digits_number n t : all_chars is_number_char t = true ->
  exists c s, digits n +:+ t = String c s /\ is_digit c = true /\ all_chars is_number_char s = true.
Proof.
  intros Ht. destruct (digits_all n) as [Hd Hne]. destruct (digits n) as [|c s]; [done|]. simpl in Hd. apply andb_true_iff in Hd as [Hc Hs].
  exists c, (s +:+ t). split; [done|]. split; [done|]. rewrite all_chars_app. by rewrite (digit_number s Hs), Ht.
Qed.

Lemma reads_digits d dp n r : next_is is_number_char r = false ->
  reads d dp (digits n) [tok K_number (digits n) dp] dp r.
Proof.
  intros Hr. apply reads_number; [|done]. rewrite <- (string_app_nil_r (digits n)). by apply digits_number.
Qed.

Lemma uint_digits u : all_chars is_digit (NilEmpty.string_of_uint u) = true.
Proof. induction u; simpl; try done; by rewrite IHu. Qed.

Lemma mantissa_number v t : all_chars is_number_char t = true ->
  exists c s, mantissa v +:+ t = String c s /\ is_digit c = true /\ all_chars is_number_char s = true.
Proof.
  intros Ht. unfold mantissa. rewrite string_app_assoc. apply digits_number. destruct (dc_frac v) as [u|]; [|done].
  simpl. rewrite all_chars_app. by rewrite (digit_number _ (uint_digits u)), Ht.
Qed.

(** ** Quoted text *)

Lemma readQuoted_plain q s r : next_is (Ascii.eqb q) r = false ->
  readQuoted q false (sflat (double q) s +:+ str1 q +:+ r) = Some (s, r).
Proof.
  intros Hr. induction s as [|c s IH].
  - simpl. rewrite Ascii.eqb_refl. destruct r as [|c r]; [done|]. simpl in Hr. by rewrite Ascii.eqb_sym, Hr.
  - cbn [sflat]. unfold double at 1. rewrite string_app_assoc.
    destruct (Ascii.eqb c q) eqn:E.
    + apply Ascii.eqb_eq in E as ->. simpl in IH |- *. rewrite !Ascii.eqb_refl. by rewrite IH.
    + simpl in IH |- *. by rewrite E, IH.
Qed.

(** What MySQL's lexer makes of the NUL escape: the digit. *)
Definition nul_to_zero (s : string) : string := smap (fun c => if Ascii.eqb c nul then "0"%char else c) s.

Definition mysql_escape (s : string) : string :=
  sflat (fun c => if Ascii.eqb c nul then String bslash (str1 "0") else str1 c)
    (sflat (double squote) (sflat (double bslash) s)).

Lemma sflat_app f a b : sflat f (a +:+ b) = sflat f a +:+ sflat f b.
Proof. induction a as [|c a IH]; simpl; [done|]. by rewrite IH, string_app_assoc. Qed.

Lemma readQuoted_other c s : Ascii.eqb c bslash = false -> Ascii.eqb c squote = false ->
  readQuoted squote true (String c s) =
  match readQuoted squote true s with Some (body, rest) => Some (String c body, rest) | None => None end.
Proof. intros H1 H2. cbn [readQuoted]. by rewrite H1, H2. Qed.

Lemma readQuoted_mysql s r : next_is (Ascii.eqb squote) r = false ->
  readQuoted squote true (mysql_escape s +:+ str1 squote +:+ r) = Some (nul_to_zero s, r).
Proof.
  intros Hr. unfold mysql_escape. induction s as [|c s IH].
  - destruct r as [|c r]; [done|]. cbn [next_is] in Hr. rewrite Ascii.eqb_sym in Hr.
    cbn [sflat str1 String.append readQuoted].
    change (true && Ascii.eqb squote bslash) with false. cbv iota. by rewrite Ascii.eqb_refl, Hr.
  - cbn [sflat]. rewrite !sflat_app, string_app_assoc.
    set (rest := sflat _ (sflat _ (sflat _ s)) +:+ _) in *. clearbody rest.
    unfold double at 2.
    destruct (Ascii.eqb_spec c bslash) as [->|Hb]; [simpl; by rewrite IH|].
    unfold double. destruct (Ascii.eqb_spec c squote) as [->|Hq]; [simpl; by rewrite IH|].
    destruct (Ascii.eqb_spec c nul) as [->|Hn]; [simpl; by rewrite IH|].
    assert (Hs : forall f, f c = str1 c -> sflat f (str1 c) = str1 c)
      by (intros f Hf; cbn [sflat str1]; by rewrite Hf).
    apply Ascii.eqb_neq in Hb, Hq, Hn. rewrite !Hs by (cbv beta; by rewrite ?Hq, ?Hn).
    cbn [str1 String.append]. rewrite readQuoted_other, IH by done.
    unfold nul_to_zero. cbn [smap]. by rewrite Hn.
Qed.

Definition ident_quote (d : SqlDialect) : ascii := if is_mysql d then btick else dquote.

Lemma reads_quoteIdent d dp name r : next_is (Ascii.eqb (ident_quote d)) r = false ->
  reads d dp (quoteIdent d name) [tok K_ident name dp] dp r.
Proof.
  intros Hr. unfold quoteIdent. fold (ident_quote d). apply reads_token.
  assert (Hl : forall s, lexeme d (ident_quote d) s = quoted_token K_ident (ident_quote d) false s "identifier")
    by (by destruct d).
  rewrite Hl. unfold quoted_token. simpl String.append at 1.
  rewrite string_app_assoc, readQuoted_plain; done.
Qed.

(** * The tokens of the statements *)

Definition word_tok (dp : nat) (w : string) : SqlToken := tok K_word w dp.
Definition punct_tok (dp : nat) (w : string) : SqlToken := tok K_punct w dp.

Definition string_value (d : SqlDialect) (s : string) : string := if is_mysql d then nul_to_zero s else s.

Definition literal_tokens (d : SqlDialect) (dp : nat) (v : StudioValue) : list SqlToken :=
  match v with
  | V_null => [word_tok dp "NULL"]
  | V_boolean b => [word_tok dp (if b then "TRUE" else "FALSE")]
  | V_string s => [tok K_string (string_value d s) dp]
  | V_number z =>
      match z with
      | Z.neg p => [punct_tok dp "-"; tok K_number (digits (Npos p)) dp]
      | _ => [tok K_number (digits (Z.to_N z)) dp]
      end
  | V_decimal v =>
      (if dc_negative v then [punct_tok dp "-"] else []) ++
      match dc_exp v with
      | Some e => [tok K_number (mantissa v +:+ "e") dp; punct_tok dp (exp_sign e); tok K_number (digits (Z.abs_N e)) dp]
      | None => [tok K_number (mantissa v) dp]
      end
  | V_not_finite => [word_tok dp "NULL"]
  end.

(** Characters that end every piece the statements are made of. *)
Definition ends (r : string) : bool :=
  match r with
  | EmptyString => true
  | String c _ => Ascii.eqb c " " || Ascii.eqb c "," || Ascii.eqb c ")" || Ascii.eqb c "." || Ascii.eqb c ":"
  end.

Definition ends_strict (r : string) : bool :=
  match r with EmptyString => true | String c _ => Ascii.eqb c " " || Ascii.eqb c "," || Ascii.eqb c ")" end.

Lemma ends_next r : ends r = true ->
  next_is isWordChar r = false /\ next_is (Ascii.eqb squote) r = false /\
  forall d, next_is (Ascii.eqb (ident_quote d)) r = false.
Proof.
  destruct r as [|c r]; [done|]. intros H. unfold next_is, ends in *.
  destruct c as [[] [] [] [] [] [] [] []]; try discriminate H; repeat split; intros []; reflexivity.
Qed.

Lemma ends_strict_next r : ends_strict r = true -> ends r = true /\ next_is is_number_char r = false.
Proof.
  destruct r as [|c r]; [done|]. intros H. unfold next_is, ends, ends_strict in *.
  destruct c as [[] [] [] [] [] [] [] []]; try discriminate H; split; reflexivity.
Qed.

Lemma reads_ident d dp name r : ends r = true -> reads d dp (quoteIdent d name) [tok K_ident name dp] dp r.
Proof. intros H. apply reads_quoteIdent. by apply ends_next. Qed.

Lemma reads_kw d dp w r : is_keyword w = true -> toUpperCase w = w -> ends r = true ->
  reads d dp w [word_tok dp w] dp r.
Proof.
  intros H1 H2 Hr. unfold word_tok. rewrite <- H2 at 2. apply reads_word; [done|by apply ends_next].
Qed.

(** A punctuation mark whose reading does not depend on what follows. *)
Lemma reads_punct d dp c r :
  (forall d, lexeme d c r = L_token K_punct (str1 c) r) -> reads d dp (str1 c) [punct_tok dp (str1 c)] dp r.
Proof. intros H. apply (reads_token d dp c ""). apply H. Qed.

Lemma digits_lead n r : exists c s, digits n +:+ r = String c s /\ is_digit c = true.
Proof.
  destruct (digits_all n) as [Hd Hne]. destruct (digits n) as [|c s]; [done|].
  simpl in Hd. apply andb_true_iff in Hd as [Hc _]. by exists c, (s +:+ r).
Qed.

(** A sign before a digit. *)
Lemma reads_sign d dp (sign : string) w toks r : sign = "-" \/ sign = "+" ->
  (exists c s, w +:+ r = String c s /\ is_digit c = true) -> reads d dp w toks dp r ->
  reads d dp (sign +:+ w) (punct_tok dp sign :: toks) dp r.
Proof.
  intros Hs (c & s' & E & Hc) H. apply (reads_app d dp sign [punct_tok dp sign] dp); [|done]. rewrite E.
  destruct Hs as [-> | ->]; apply reads_token; destruct c as [[] [] [] [] [] [] [] []]; try discriminate Hc; by destruct d.
Qed.

Lemma reads_decimal d dp v r : next_is is_number_char r = false ->
  reads d dp (decimal_text v) (literal_tokens d dp (V_decimal v)) dp r.
Proof.
  intros Hr. unfold decimal_text, literal_tokens.
  assert (Hbody : reads d dp (match dc_exp v with Some e => (mantissa v +:+ "e") +:+ exp_sign e +:+ digits (Z.abs_N e) | None => mantissa v end)
    (match dc_exp v with Some e => [tok K_number (mantissa v +:+ "e") dp; punct_tok dp (exp_sign e); tok K_number (digits (Z.abs_N e)) dp]
     | None => [tok K_number (mantissa v) dp] end) dp r).
  { destruct (dc_exp v) as [e|].
    - apply (reads_app d dp _ [tok K_number (mantissa v +:+ "e") dp] dp).
      + apply reads_number; [by apply mantissa_number|]. unfold exp_sign. by destruct (e <? 0).
      + apply (reads_sign d dp); [unfold exp_sign; destruct (e <? 0); auto| |by apply reads_digits].
        destruct (digits_lead (Z.abs_N e) r) as (c & s & E & Hc). by exists c, s.
    - apply reads_number; [|done]. rewrite <- (string_app_nil_r (mantissa v)). by apply mantissa_number. }
  destruct (dc_negative v); [|exact Hbody]. apply (reads_sign d dp "-"); [by left| |exact Hbody].
  destruct (dc_exp v) as [e|].
  - rewrite !string_app_assoc. unfold mantissa. rewrite string_app_assoc. destruct (digits_lead (dc_int v) ((match dc_frac v with Some u => "." +:+ NilEmpty.string_of_uint u | None => "" end) +:+ "e" +:+ exp_sign e +:+ digits (Z.abs_N e) +:+ r)) as (c & s & E & Hc). by exists c, s.
  - unfold mantissa. rewrite string_app_assoc. destruct (digits_lead (dc_int v) ((match dc_frac v with Some u => "." +:+ NilEmpty.string_of_uint u | None => "" end) +:+ r)) as (c & s & E & Hc). by exists c, s.
Qed.

Lemma reads_literal d dp v s r : literal d v = Ok s -> ends_strict r = true ->
  reads d dp s (literal_tokens d dp v) dp r.
Proof.
  intros Hl Hr. apply ends_strict_next in Hr as [He Hn]. destruct v as [x|z|v| |b|]; simpl in Hl.
  - assert (Hq : forall s', lexeme d squote s' = quoted_token K_string squote (is_mysql d) s' "string")
      by (by destruct d).
    pose proof (proj1 (proj2 (ends_next r He))) as Hsq.
    destruct d; simpl in Hl.
    + destruct (has_char nul x); [done|]. injection Hl as <-. apply reads_token. rewrite Hq.
      unfold quoted_token. simpl String.append at 1. by rewrite string_app_assoc, readQuoted_plain.
    + injection Hl as <-. apply reads_token. rewrite Hq. unfold quoted_token. simpl String.append at 1.
      fold (mysql_escape x). by rewrite string_app_assoc, readQuoted_mysql.
  - injection Hl as <-. unfold number_text, literal_tokens. destruct z as [|p|p].
    + by apply reads_digits.
    + by apply reads_digits.
    + apply (reads_app d dp "-" [punct_tok dp "-"] dp); [|by apply reads_digits].
      apply (reads_punct d dp "-"). intros d'. destruct (digits_lead (Npos p) r) as (c & s' & -> & Hc).
      destruct c as [[] [] [] [] [] [] [] []]; try discriminate Hc; by destruct d'.
  - injection Hl as <-. by apply reads_decimal.
  - injection Hl as <-. by apply reads_kw.
  - injection Hl as <-. by destruct b; apply reads_kw.
  - injection Hl as <-. by apply reads_kw.
Qed.

Fixpoint tjoin (sep : list SqlToken) (l : list (list SqlToken)) : list SqlToken :=
  match l with
  | [] => []
  | [x] => x
  | x :: l' => x ++ sep ++ tjoin sep l'
  end.

Definition qualified_tokens (d : SqlDialect) (dp : nat) (t : StudioTableRef) : list SqlToken :=
  match d, schema t with
  | postgres, Some s =>
      if String.eqb s "" then [tok K_ident (tname t) dp]
      else [tok K_ident s dp; punct_tok dp "."; tok K_ident (tname t) dp]
  | _, _ => [tok K_ident (tname t) dp]
  end.

Definition assignment_tokens (d : SqlDialect) (e : string * StudioValue) : list SqlToken :=
  [tok K_ident (fst e) 0; punct_tok 0 "="] ++ literal_tokens d 0 (snd e).

Definition key_tokens (d : SqlDialect) (e : string * StudioValue) : list SqlToken :=
  match snd e with
  | V_null => [tok K_ident (fst e) 0; word_tok 0 "IS"; word_tok 0 "NULL"]
  | _ => assignment_tokens d e
  end.

Definition op_tokens (o : FilterOp) : list SqlToken :=
  map (punct_tok 0) match o with
  | op_ne => ["<"; ">"] | op_lt => ["<"] | op_le => ["<"; "="] | op_gt => [">"] | op_ge => [">"; "="] | _ => ["="]
  end.

Definition filter_tokens (d : SqlDialect) (f : BrowseFilter) : list SqlToken :=
  let col := tok K_ident (f_column f) 0 in
  let v := default "" (f_value f) in
  match f_op f with
  | op_null => [col; word_tok 0 "IS"; word_tok 0 "NULL"]
  | op_not_null => [col; word_tok 0 "IS"; word_tok 0 "NOT"; word_tok 0 "NULL"]
  | op_contains | op_starts =>
      let pat := match f_op f with op_contains => "%" +:+ likeEscape v +:+ "%" | _ => likeEscape v +:+ "%" end in
      (if is_mysql d then [col; word_tok 0 "LIKE"]
       else [col; punct_tok 0 ":"; punct_tok 0 ":"; word_tok 0 "TEXT"; word_tok 0 "ILIKE"]) ++
      [tok K_string (string_value d pat) 0]
  | o => [col] ++ op_tokens o ++ [tok K_string (string_value d v) 0]
  end.

Definition limit_one_tokens (d : SqlDialect) : list SqlToken :=
  if is_mysql d then [word_tok 0 "LIMIT"; tok K_number "1" 0] else [].

(** The statements of the studio. *)
Inductive Built :=
  | B_update (t : StudioTableRef) (key set : Row)
  | B_insert (t : StudioTableRef) (values : Row)
  | B_delete (t : StudioTableRef) (key : Row)
  | B_browse (q : BrowseQuery).

Definition render (d : SqlDialect) (b : Built) : res string :=
  match b with
  | B_update t key set => updateRowSql d t key set
  | B_insert t values => insertRowSql d t values
  | B_delete t key => deleteRowSql d t key
  | B_browse q => browseSql d q
  end.

Definition comma_tokens (dp : nat) : list SqlToken := [punct_tok dp ","].
Definition and_tokens : list SqlToken := [word_tok 0 "AND"].
Definition star_tokens : list SqlToken := [punct_tok 0 "*"].
Definition parens (l : list SqlToken) : list SqlToken := [punct_tok 0 "("] ++ l ++ [punct_tok 0 ")"].

Definition browse_tokens (d : SqlDialect) (q : BrowseQuery) : list SqlToken :=
  let filters := List.filter (fun f => negb (String.eqb (f_column f) "")) (b_filters q) in
  [word_tok 0 "SELECT"] ++ star_tokens ++ [word_tok 0 "FROM"] ++ qualified_tokens d 0 (b_table q) ++
  match filters with [] => [] | _ => [word_tok 0 "WHERE"] ++ tjoin and_tokens (map (filter_tokens d) filters) end ++
  match truthy_text (b_orderBy q) with
  | Some c => [word_tok 0 "ORDER"; word_tok 0 "BY"; tok K_ident c 0; word_tok 0 (if b_desc q then "DESC" else "ASC")]
  | None => [] end ++
  [word_tok 0 "LIMIT"] ++ literal_tokens d 0 (V_number (Z.max 1 (b_limit q) + 1)) ++
  (if 0 <? b_offset q then [word_tok 0 "OFFSET"] ++ literal_tokens d 0 (V_number (b_offset q)) else []).

(** What each statement is, token by token: names and values occur only as the
    text of identifier and string tokens. *)
Definition built_tokens (d : SqlDialect) (b : Built) : list SqlToken :=
  match b with
  | B_update t key set =>
      [word_tok 0 "UPDATE"] ++ qualified_tokens d 0 t ++ [word_tok 0 "SET"] ++
      tjoin (comma_tokens 0) (map (assignment_tokens d) set) ++ [word_tok 0 "WHERE"] ++
      tjoin and_tokens (map (key_tokens d) key) ++ limit_one_tokens d
  | B_delete t key =>
      [word_tok 0 "DELETE"; word_tok 0 "FROM"] ++ qualified_tokens d 0 t ++ [word_tok 0 "WHERE"] ++
      tjoin and_tokens (map (key_tokens d) key) ++ limit_one_tokens d
  | B_insert t [] =>
      [word_tok 0 "INSERT"; word_tok 0 "INTO"] ++ qualified_tokens d 0 t ++
      (if is_mysql d then parens [] ++ [word_tok 0 "VALUES"] ++ parens []
       else [word_tok 0 "DEFAULT"; word_tok 0 "VALUES"; word_tok 0 "RETURNING"] ++ star_tokens)
  | B_insert t values =>
      [word_tok 0 "INSERT"; word_tok 0 "INTO"] ++ qualified_tokens d 0 t ++
      parens (tjoin (comma_tokens 1) (map (fun e => [tok K_ident (fst e) 1]) values)) ++ [word_tok 0 "VALUES"] ++
      parens (tjoin (comma_tokens 1) (map (fun e => literal_tokens d 1 (snd e)) values)) ++
      (if is_mysql d then [] else [word_tok 0 "RETURNING"] ++ star_tokens)
  | B_browse q => browse_tokens d q
  end.

(** * Reading the statements *)

Lemma reads_kw_sp d dp w r : is_keyword w = true -> toUpperCase w = w ->
  reads d dp (w +:+ " ") [word_tok dp w] dp r.
Proof.
  intros H1 H2. apply (reads_app d dp w [word_tok dp w] dp " " []); [by apply reads_kw|apply reads_space].
Qed.

Lemma reads_sp d dp s toks dp' r : reads d dp s toks dp' r -> reads d dp (" " +:+ s) toks dp' r.
Proof. intros H. apply (reads_app d dp " " [] dp s toks dp'); [apply reads_space|done]. Qed.

Lemma reads_punct_then d dp c s toks dp' r :
  (forall d r, lexeme d c r = L_token K_punct (str1 c) r) -> reads d dp s toks dp' r ->
  reads d dp (str1 c +:+ s) (punct_tok dp (str1 c) :: toks) dp' r.
Proof. intros Hc H. apply (reads_app d dp (str1 c) [punct_tok dp (str1 c)] dp s toks dp'); [|done].
  apply reads_punct. intros d'. apply Hc. Qed.

Lemma reads_nil d dp r : reads d dp "" [] dp r.
Proof.
  intros st Hr Hd. exists 0%nat. intros fuel. f_equal. destruct st; unfold read_to; simpl in *.
  rewrite string_app_nil_r, app_nil_r. congruence.
Qed.

(** One piece after another, the first ending before [ends_strict] text. *)
Definition piece (d : SqlDialect) (dp : nat) (s : string) (toks : list SqlToken) : Prop :=
  forall r, ends_strict r = true -> reads d dp s toks dp r.

Lemma reads_join d dp sep septoks l ltoks r :
  (forall r, ends_strict (sep +:+ r) = true) -> (forall r, reads d dp sep septoks dp r) ->
  Forall2 (piece d dp) l ltoks -> ends_strict r = true ->
  reads d dp (join sep l) (tjoin septoks ltoks) dp r.
Proof.
  intros Hsep Hrs Hl Hr. induction Hl as [|s t l ltoks Hs Hl IH]; [apply reads_nil|].
  destruct Hl as [|s2 t2 l2 lt2 Hs2 Hl2]; [by apply Hs|].
  change (join sep (s :: s2 :: l2)) with (s +:+ (sep +:+ join sep (s2 :: l2))).
  change (tjoin septoks (t :: t2 :: lt2)) with (t ++ (septoks ++ tjoin septoks (t2 :: lt2))).
  apply (reads_app d dp s t dp).
  - apply Hs. rewrite string_app_assoc. apply Hsep.
  - apply (reads_app d dp sep septoks dp); [apply Hrs|apply IH].
Qed.

Lemma comma_ends r : ends_strict (", " +:+ r) = true.
Proof. reflexivity. Qed.
Lemma and_ends r : ends_strict (" AND " +:+ r) = true.
Proof. reflexivity. Qed.

Lemma reads_comma d dp r : reads d dp ", " (comma_tokens dp) dp r.
Proof. apply (reads_punct_then d dp "," " " []); [by intros []|apply reads_space]. Qed.

Lemma reads_and d r : reads d 0 " AND " and_tokens 0 r.
Proof. apply (reads_sp d 0 "AND "). by apply (reads_kw_sp d 0 "AND"). Qed.

Lemma reads_qualified d dp t r : ends r = true -> reads d dp (qualified d t) (qualified_tokens d dp t) dp r.
Proof.
  intros Hr. unfold qualified, qualified_tokens. destruct d, (schema t) as [s|]; try by apply reads_ident.
  destruct (String.eqb s ""); [by apply reads_ident|].
  apply (reads_app postgres dp (quoteIdent postgres s) [tok K_ident s dp] dp); [by apply reads_ident|].
  apply (reads_app postgres dp "." [punct_tok dp "."] dp); [|by apply reads_ident].
  apply (reads_token postgres dp "." ""). reflexivity.
Qed.

Lemma reads_eq_literal d name v l r : literal d v = Ok l -> ends_strict r = true ->
  reads d 0 (quoteIdent d name +:+ " = " +:+ l) (assignment_tokens d (name, v)) 0 r.
Proof.
  intros Hl Hr. unfold assignment_tokens.
  apply (reads_app d 0 (quoteIdent d name) [tok K_ident name 0] 0); [by apply reads_ident|].
  apply (reads_sp d 0 ("= " +:+ l)). apply (reads_punct_then d 0 "=" (" " +:+ l)); [by intros []|].
  apply reads_sp. by apply reads_literal.
Qed.

Lemma assignment_piece d e s : assignment d e = Ok s -> piece d 0 s (assignment_tokens d e).
Proof.
  unfold assignment. intros (l & Hl & [= <-])%res_bind_Ok r Hr. destruct e as [name v]. by apply reads_eq_literal.
Qed.

Lemma is_null_piece d name : piece d 0 (quoteIdent d name +:+ " IS NULL") [tok K_ident name 0; word_tok 0 "IS"; word_tok 0 "NULL"].
Proof.
  intros r Hr. apply (reads_app d 0 (quoteIdent d name) [tok K_ident name 0] 0); [by apply reads_ident|].
  apply (reads_sp d 0 "IS NULL"). apply (reads_app d 0 "IS " [word_tok 0 "IS"] 0); [by apply (reads_kw_sp d 0 "IS")|].
  apply reads_kw; [done|done|by apply ends_strict_next].
Qed.

Lemma key_piece d e s : key_cond d e = Ok s -> piece d 0 s (key_tokens d e).
Proof.
  unfold key_cond, key_tokens. destruct e as [name v]. cbn [fst snd]. intros H.
  destruct v; cbv beta iota in H |- *; try (apply res_bind_Ok in H as (l & Hl & [= <-]); intros r Hr; by apply reads_eq_literal).
  injection H as <-. apply is_null_piece.
Qed.

Lemma pieces d dp {X} (f : X -> res string) (g : X -> list SqlToken) l ss :
  (forall x s, f x = Ok s -> piece d dp s (g x)) -> res_map f l = Ok ss ->
  Forall2 (piece d dp) ss (map g l).
Proof.
  intros Hp H%res_map_Ok. induction H as [|x s l ss Hx Hl IH]; simpl; constructor; [by apply Hp|done].
Qed.

Lemma whereKey_piece d key w : whereKey d key = Ok w -> piece d 0 w (tjoin and_tokens (map (key_tokens d) key)).
Proof.
  unfold whereKey. intros H r Hr. destruct key as [|e key]; [done|].
  apply res_bind_Ok in H as (l & Hl & [= <-]).
  apply reads_join; [apply and_ends|intros; apply reads_and| |done].
  by apply (pieces d 0 (key_cond d)); [apply key_piece|].
Qed.

Lemma reads_limit_one d r : ends_strict r = true -> reads d 0 (limit_one d) (limit_one_tokens d) 0 r.
Proof.
  intros Hr. unfold limit_one, limit_one_tokens. destruct d; simpl; [apply reads_nil|].
  apply (reads_sp mysql 0 "LIMIT 1").
  apply (reads_app mysql 0 "LIMIT " [word_tok 0 "LIMIT"] 0); [by apply (reads_kw_sp mysql 0 "LIMIT")|].
  apply (reads_digits mysql 0 1). by apply ends_strict_next.
Qed.

Lemma op_piece d o r : 
  match o with op_contains | op_starts | op_null | op_not_null => False | _ => True end ->
  reads d 0 (op_text o +:+ " ") (op_tokens o) 0 r.
Proof.
  intros Ho. destruct o; try done; unfold op_tokens, op_text, map;
    repeat first [ apply (reads_punct_then d 0 "=") | apply (reads_punct_then d 0 "<")
                 | apply (reads_punct_then d 0 ">") | apply (reads_space d 0) | by intros [] ].
Qed.

Lemma filter_piece d f s : filterSql d f = Ok s -> piece d 0 s (filter_tokens d f).
Proof.
  unfold filterSql, filter_tokens. intros H r Hr.
  assert (Hcol : forall s' t' , reads d 0 s' t' 0 r -> ends (s' +:+ r) = true ->
    reads d 0 (quoteIdent d (f_column f) +:+ s') (tok K_ident (f_column f) 0 :: t') 0 r).
  { intros s' t' Hs He. apply (reads_app d 0 _ [tok K_ident (f_column f) 0] 0); [by apply reads_ident|done]. }
  assert (Hlike : forall w pat l, is_keyword w = true -> toUpperCase w = w -> literal d (V_string pat) = Ok l ->
    reads d 0 (" " +:+ ((w +:+ " ") +:+ l)) [word_tok 0 w; tok K_string (string_value d pat) 0] 0 r).
  { intros w pat l H1 H2 Hl. apply reads_sp. apply (reads_app d 0 (w +:+ " ") [word_tok 0 w] 0);
      [by apply reads_kw_sp|by apply (reads_literal d 0 (V_string pat))]. }
  assert (Hop : forall o l, match o with op_contains | op_starts | op_null | op_not_null => False | _ => True end ->
    literal d (V_string (default "" (f_value f))) = Ok l ->
    reads d 0 (quoteIdent d (f_column f) +:+ " " +:+ op_text o +:+ " " +:+ l)
      ([tok K_ident (f_column f) 0] ++ op_tokens o ++ [tok K_string (string_value d (default "" (f_value f))) 0]) 0 r).
  { intros o l Ho Hl. apply (Hcol (" " +:+ op_text o +:+ " " +:+ l)); [|done]. apply reads_sp.
    rewrite <- (string_app_assoc (op_text o) " " l). apply (reads_app d 0 _ _ 0); [by apply op_piece|].
    by apply (reads_literal d 0 (V_string _)). }
  assert (Hpat : forall pat l, literal d (V_string pat) = Ok l ->
    reads d 0 (if is_mysql d then quoteIdent d (f_column f) +:+ " LIKE " +:+ l
               else quoteIdent d (f_column f) +:+ "::text ILIKE " +:+ l)
      ((if is_mysql d then [tok K_ident (f_column f) 0; word_tok 0 "LIKE"]
        else [tok K_ident (f_column f) 0; punct_tok 0 ":"; punct_tok 0 ":"; word_tok 0 "TEXT"; word_tok 0 "ILIKE"]) ++
       [tok K_string (string_value d pat) 0]) 0 r).
  { intros pat l Hl. destruct d; simpl is_mysql; cbv iota.
    - apply (Hcol ("::text ILIKE " +:+ l)); [|done].
      apply (reads_punct_then postgres 0 ":" (":text ILIKE " +:+ l)); [by intros []|].
      apply (reads_punct_then postgres 0 ":" ("text ILIKE " +:+ l)); [by intros []|].
      apply (reads_app postgres 0 "text" [word_tok 0 "TEXT"] 0 (" ILIKE " +:+ l)
        [word_tok 0 "ILIKE"; tok K_string (string_value postgres pat) 0]).
      + by apply (reads_word postgres 0 "text").
      + by apply (Hlike "ILIKE").
    - apply (Hcol (" LIKE " +:+ l)); [|done]. by apply (Hlike "LIKE"). }
  destruct (f_op f); try (injection H as <-); try (apply res_bind_Ok in H as (l & Hl & [= <-]));
    try (by apply (Hop op_eq)); try (by apply (Hop op_ne)); try (by apply (Hop op_lt)); try (by apply (Hop op_le));
    try (by apply (Hop op_gt)); try (by apply (Hop op_ge)); try (by apply Hpat); try by apply is_null_piece.
  apply (Hcol " IS NOT NULL"); [|done]. apply (reads_sp d 0 "IS NOT NULL").
  apply (reads_app d 0 "IS " [word_tok 0 "IS"] 0); [by apply (reads_kw_sp d 0 "IS")|].
  apply (reads_app d 0 "NOT " [word_tok 0 "NOT"] 0); [by apply (reads_kw_sp d 0 "NOT")|].
  apply reads_kw; [done|done|by apply ends_strict_next].
Qed.

(** ** Whole statements *)

Lemma lex_whole d s toks : reads d 0 s toks 0 "" -> toks <> [] ->
  lexSql s d = {| statements := [ {| tokens := toks; text := trim s |} ]; error := None |}.
Proof.
  intros H Hne. destruct (H (start_state s)) as [k Hk]; [by rewrite string_app_nil_r|done|].
  specialize (Hk 1%nat). simpl in Hk. unfold end_statement in Hk. simpl in Hk.
  destruct toks as [|t ts]; [done|]. rewrite sdrop_0 in Hk.
  pose proof (lexSql_run s d) as Hl.
  apply (lex_run_more _ (k + 1 + lex_fuel (String.length s))) in Hl; [|lia].
  apply (lex_run_more _ (k + 1 + lex_fuel (String.length s))) in Hk; [|lia]. congruence.
Qed.

Lemma reads_update d t key set s : updateRowSql d t key set = Ok s ->
  reads d 0 s (built_tokens d (B_update t key set)) 0 "".
Proof.
  unfold updateRowSql. intros H. destruct set as [|e set]; [done|].
  apply res_bind_Ok in H as (assign & Ha & H). apply res_bind_Ok in H as (w & Hw & [= <-]).
  unfold built_tokens.
  apply (reads_app d 0 "UPDATE " _ 0); [by apply (reads_kw_sp d 0 "UPDATE")|].
  apply (reads_app d 0 (qualified d t) _ 0); [by apply reads_qualified|].
  apply (reads_app d 0 " SET " _ 0); [apply (reads_sp d 0 "SET "); by apply (reads_kw_sp d 0 "SET")|].
  apply (reads_app d 0 (join ", " assign) _ 0).
  { apply reads_join; [apply comma_ends|intros; apply reads_comma| |done].
    apply (pieces d 0 (assignment d)); [apply assignment_piece|done]. }
  apply (reads_app d 0 " WHERE " _ 0); [apply (reads_sp d 0 "WHERE "); by apply (reads_kw_sp d 0 "WHERE")|].
  apply (reads_app d 0 w _ 0); [|by apply reads_limit_one].
  apply (whereKey_piece d key w Hw). by destruct d.
Qed.

Lemma reads_delete d t key s : deleteRowSql d t key = Ok s ->
  reads d 0 s (built_tokens d (B_delete t key)) 0 "".
Proof.
  unfold deleteRowSql. intros (w & Hw & [= <-])%res_bind_Ok.
  change (built_tokens d (B_delete t key)) with
    ([word_tok 0 "DELETE"] ++ [word_tok 0 "FROM"] ++ qualified_tokens d 0 t ++ [word_tok 0 "WHERE"] ++
     tjoin and_tokens (map (key_tokens d) key) ++ limit_one_tokens d).
  change ("DELETE FROM " +:+ qualified d t +:+ " WHERE " +:+ w +:+ limit_one d) with
    ("DELETE " +:+ "FROM " +:+ qualified d t +:+ " WHERE " +:+ w +:+ limit_one d).
  apply (reads_app d 0 "DELETE " _ 0); [by apply (reads_kw_sp d 0 "DELETE")|].
  apply (reads_app d 0 "FROM " _ 0); [by apply (reads_kw_sp d 0 "FROM")|].
  apply (reads_app d 0 (qualified d t) _ 0); [by apply reads_qualified|].
  apply (reads_app d 0 " WHERE " _ 0); [apply (reads_sp d 0 "WHERE "); by apply (reads_kw_sp d 0 "WHERE")|].
  apply (reads_app d 0 w _ 0); [|by apply reads_limit_one].
  apply (whereKey_piece d key w Hw). by destruct d.
Qed.

Lemma reads_parens d s toks r :
  (forall r, ends_strict r = true -> reads d 1 s toks 1 r) ->
  reads d 0 ("(" +:+ s +:+ ")") (parens toks) 0 r.
Proof.
  intros H. unfold parens. apply (reads_app d 0 "(" _ 1); [apply reads_open|].
  apply (reads_app d 1 s _ 1); [by apply H|apply reads_close].
Qed.

Lemma Ok_inj {A} (a b : A) : Ok a = Ok b -> a = b.
Proof. congruence. Qed.

Lemma reads_insert d t values s : insertRowSql d t values = Ok s ->
  reads d 0 s (built_tokens d (B_insert t values)) 0 "".
Proof.
  assert (Hhead : forall s' t', reads d 0 s' t' 0 "" -> ends s' = true ->
    reads d 0 ("INSERT INTO " +:+ qualified d t +:+ s')
      ([word_tok 0 "INSERT"; word_tok 0 "INTO"] ++ qualified_tokens d 0 t ++ t') 0 "").
  { intros s' t' Hs He. apply (reads_app d 0 "INSERT " [word_tok 0 "INSERT"] 0 ("INTO " +:+ qualified d t +:+ s')).
    - by apply (reads_kw_sp d 0 "INSERT").
    - apply (reads_app d 0 "INTO " [word_tok 0 "INTO"] 0); [by apply (reads_kw_sp d 0 "INTO")|].
      apply (reads_app d 0 (qualified d t) _ 0); [|done]. apply reads_qualified. by rewrite string_app_nil_r. }
  assert (Hstar : forall r, reads d 0 "*" star_tokens 0 r)
    by (intros r; apply (reads_punct d 0 "*"); by intros []).
  assert (Hret : reads d 0 " RETURNING *" ([word_tok 0 "RETURNING"] ++ star_tokens) 0 "").
  { apply (reads_sp d 0 "RETURNING *"). apply (reads_app d 0 "RETURNING " _ 0);
      [by apply (reads_kw_sp d 0 "RETURNING")|apply Hstar]. }
  unfold insertRowSql, built_tokens. intros H. destruct values as [|e values].
  - injection H as <-. destruct d; simpl is_mysql; cbv iota.
    + apply (Hhead " DEFAULT VALUES RETURNING *"); [|done].
      apply (reads_sp postgres 0 "DEFAULT VALUES RETURNING *").
      apply (reads_app postgres 0 "DEFAULT " [word_tok 0 "DEFAULT"] 0); [by apply (reads_kw_sp postgres 0 "DEFAULT")|].
      apply (reads_app postgres 0 "VALUES" [word_tok 0 "VALUES"] 0); [by apply reads_kw|exact Hret].
    + apply (Hhead " () VALUES ()"); [|done]. apply (reads_sp mysql 0 "() VALUES ()").
      apply (reads_app mysql 0 ("(" +:+ "" +:+ ")") (parens []) 0 (" VALUES ()"));
        [apply reads_parens; intros; apply reads_nil|].
      apply (reads_sp mysql 0 "VALUES ()").
      apply (reads_app mysql 0 "VALUES " [word_tok 0 "VALUES"] 0); [by apply (reads_kw_sp mysql 0 "VALUES")|].
      apply (reads_parens mysql "" []). intros; apply reads_nil.
  - apply res_bind_Ok in H as (vals & Hv & H). apply Ok_inj in H. rewrite <- H. clear H.
    set (rows := e :: values) in *.
    set (cols := join ", " (map (fun e => quoteIdent d (fst e)) rows)).
    set (tail := if is_mysql d then "" else " RETURNING *").
    set (ctoks := tjoin (comma_tokens 1) (map (fun e => [tok K_ident (fst e) 1]) rows)).
    set (vtoks := tjoin (comma_tokens 1) (map (fun e => literal_tokens d 1 (snd e)) rows)).
    assert (Etext : "INSERT INTO " +:+ qualified d t +:+ " (" +:+ cols +:+ ") VALUES (" +:+ join ", " vals +:+ ")" +:+ tail =
      "INSERT INTO " +:+ qualified d t +:+ (" " +:+ (("(" +:+ cols +:+ ")") +:+ (" VALUES " +:+ (("(" +:+ join ", " vals +:+ ")") +:+ tail))))).
    { repeat (rewrite !string_app_assoc || cbn [String.append]). done. }
    rewrite Etext. apply Hhead; [|done]. apply reads_sp.
    apply (reads_app d 0 _ (parens ctoks) 0).
    + apply reads_parens. intros r Hr. apply reads_join; [apply comma_ends|intros; apply reads_comma| |done].
      clear -Hr. induction rows as [|x l IH]; simpl; constructor; [|done].
      intros r' Hr'. apply reads_ident. by apply ends_strict_next.
    + apply (reads_app d 0 " VALUES " [word_tok 0 "VALUES"] 0);
        [apply (reads_sp d 0 "VALUES "); by apply (reads_kw_sp d 0 "VALUES")|].
      apply (reads_app d 0 _ (parens vtoks) 0).
      * apply reads_parens. intros r Hr. apply reads_join; [apply comma_ends|intros; apply reads_comma| |done].
        apply (pieces d 1 (fun e => literal d (snd e))); [|done].
        intros x sx Hx r' Hr'. by apply reads_literal.
      * unfold tail. destruct d; simpl is_mysql; cbv iota; [exact Hret|apply reads_nil].
Qed.

Lemma tjoin_nil l : tjoin [] l = concat l.
Proof.
  induction l as [|x l IH]; [done|]. destruct l as [|y l]; [simpl; by rewrite app_nil_r|].
  change (tjoin [] (x :: y :: l)) with (x ++ tjoin [] (y :: l)). by rewrite IH.
Qed.

Lemma reads_browse d q s : browseSql d q = Ok s -> reads d 0 s (browse_tokens d q) 0 "".
Proof.
  unfold browseSql, browse_tokens. intros (conds & Hc & H)%res_bind_Ok. apply Ok_inj in H. rewrite <- H. clear H.
  set (filters := List.filter _ _) in *.
  pose proof (pieces d 0 (filterSql d) (filter_tokens d) filters conds (filter_piece d) Hc) as Hp.
  set (where_ := match conds with [] => [] | _ => ["WHERE " +:+ join " AND " conds] end).
  set (wtoks := match filters with [] => [] | _ => [[word_tok 0 "WHERE"] ++ tjoin and_tokens (map (filter_tokens d) filters)] end).
  set (order := match truthy_text (b_orderBy q) with Some c => _ | None => [] end).
  set (otoks := match truthy_text (b_orderBy q) with
    | Some c => [[word_tok 0 "ORDER"; word_tok 0 "BY"; tok K_ident c 0; word_tok 0 (if b_desc q then "DESC" else "ASC")]]
    | None => [] end).
  set (offset := if 0 <? b_offset q then _ else _).
  set (ftoks := if 0 <? b_offset q then [[word_tok 0 "OFFSET"] ++ literal_tokens d 0 (V_number (b_offset q))] else []).
  assert (Hnum : forall w z, is_keyword w = true -> toUpperCase w = w ->
    piece d 0 ((w +:+ " ") +:+ number_text z) ([word_tok 0 w] ++ literal_tokens d 0 (V_number z))).
  { intros w z H1 H2 r Hr. apply (reads_app d 0 (w +:+ " ") _ 0); [by apply reads_kw_sp|].
    by apply (reads_literal d 0 (V_number z)). }
  assert (Hall : Forall2 (piece d 0)
    (("SELECT * FROM " +:+ qualified d (b_table q)) :: where_ ++ order ++
       ["LIMIT " +:+ number_text (Z.max 1 (b_limit q) + 1)] ++ offset)
    (([word_tok 0 "SELECT"] ++ star_tokens ++ [word_tok 0 "FROM"] ++ qualified_tokens d 0 (b_table q)) ::
       wtoks ++ otoks ++ [[word_tok 0 "LIMIT"] ++ literal_tokens d 0 (V_number (Z.max 1 (b_limit q) + 1))] ++ ftoks)).
  { constructor.
    { intros r Hr. apply (reads_app d 0 "SELECT " _ 0); [by apply (reads_kw_sp d 0 "SELECT")|].
      apply (reads_app d 0 "* " star_tokens 0).
      { apply (reads_punct_then d 0 "*" " " []); [by intros []|apply reads_space]. }
      apply (reads_app d 0 "FROM " _ 0); [by apply (reads_kw_sp d 0 "FROM")|].
      apply reads_qualified. by apply ends_strict_next. }
    apply Forall2_app; [|apply Forall2_app; [|apply Forall2_app]].
    - unfold where_, wtoks. destruct filters as [|f fs]; inversion Hp as [|c t cs ts Hc1 Hcs]; subst; [constructor|].
      constructor; [|constructor]. intros r Hr.
      apply (reads_app d 0 "WHERE " _ 0); [by apply (reads_kw_sp d 0 "WHERE")|].
      by apply reads_join; [apply and_ends|intros; apply reads_and| |].
    - unfold order, otoks. destruct (truthy_text (b_orderBy q)) as [c|]; constructor; [|constructor].
      intros r Hr. apply (reads_app d 0 "ORDER " [word_tok 0 "ORDER"] 0); [by apply (reads_kw_sp d 0 "ORDER")|].
      apply (reads_app d 0 "BY " [word_tok 0 "BY"] 0); [by apply (reads_kw_sp d 0 "BY")|].
      apply (reads_app d 0 (quoteIdent d c) [tok K_ident c 0] 0); [by apply reads_ident|].
      apply reads_sp. apply ends_strict_next in Hr as [Hr _]. by destruct (b_desc q); apply reads_kw.
    - constructor; [|constructor]. by apply (Hnum "LIMIT").
    - unfold offset, ftoks. destruct (0 <? b_offset q); constructor; [|constructor]. by apply (Hnum "OFFSET"). }
  pose proof (reads_join d 0 " " [] _ _ "" (fun _ => eq_refl) (reads_space d 0) Hall eq_refl) as H.
  rewrite tjoin_nil in H. cbn [concat] in H. rewrite !concat_app in H.
  match type of H with reads _ _ _ ?T _ _ =>
    match goal with |- reads _ _ _ ?T' _ _ => replace T' with T; [exact H|] end end.
  unfold wtoks, otoks, ftoks. rewrite <- !app_assoc. do 4 f_equal.
  destruct filters, (truthy_text (b_orderBy q)), (0 <? b_offset q);
    cbn [concat app]; rewrite ?app_nil_r; rewrite <- ?app_assoc; reflexivity.
Qed.

(** C9: injection safety.  Whatever the names and values, a statement the
    studio builds is lexed as exactly one statement, whose tokens are the fixed
    ones of its form with each name as one identifier token and each text value
    as one string token; nothing in a name or a value ends a token early, starts
    a comment or splits the statement. *)
Theorem built_statement_tokens d b s :
  render d b = Ok s ->
  lexSql s d = {| statements := [ {| tokens := built_tokens d b; text := trim s |} ]; error := None |}.
Proof.
  intros H. destruct b as [t key set|t values|t key|q]; simpl in H; apply lex_whole.
  - by apply reads_update.
  - done.
  - by apply reads_insert.
  - by destruct values.
  - by apply reads_delete.
  - done.
  - by apply reads_browse.
  - done.
Qed.

Lemma built_statement_tokens_witness :
  exists s, render mysql (B_delete {| schema := None; tname := "t`; DROP TABLE x -- " |}
      [("id", V_string "\' OR 1=1; -- ")]) = Ok s /\
    lexSql s mysql =
      {| statements := [ {| tokens := [tok K_word "DELETE" 0; tok K_word "FROM" 0; tok K_ident "t`; DROP TABLE x -- " 0;
           tok K_word "WHERE" 0; tok K_ident "id" 0; tok K_punct "=" 0; tok K_string "\' OR 1=1; -- " 0;
           tok K_word "LIMIT" 0; tok K_number "1" 0]; text := trim s |} ]; error := None |}.
Proof.
  eexists. split; [reflexivity|].
  apply (built_statement_tokens mysql (B_delete {| schema := None; tname := "t`; DROP TABLE x -- " |}
      [("id", V_string "\' OR 1=1; -- ")])). reflexivity.
Defined.
