(* ===== verification/SqlClassify.v ===== *)
(** Statement classification for the studio
    (packages/core/src/studio/classify.ts, the SQL part): may a statement run,
    and as what.

    The passes of [classifySqlStatement] thread the class and the reasons; an
    early return is a classification on the left. *)

From S2P Require Import Prelude SqlLex SqlBuild.

Inductive StatementClass := read | write | destructive.
#[export] Instance StatementClass_eq_dec : EqDecision StatementClass.
Proof. solve_decision. Defined.

Record Classification := {
  cl_class : StatementClass; cl_kind : string; cl_reasons : list string; cl_blocked : option string
}.

Definition rank (c : StatementClass) : nat := match c with read => 0 | write => 1 | destructive => 2 end.
Definition up (a b : StatementClass) : StatementClass := if (rank a <? rank b)%nat then b else a.

(** * Word lists *)

Definition READ_FIRST := ["SELECT"; "VALUES"; "TABLE"; "SHOW"; "DESCRIBE"; "DESC"; "EXPLAIN"; "WITH"; "SET"; "HELP"].
Definition WRITE_FIRST := ["INSERT"; "UPDATE"; "DELETE"; "MERGE"; "REPLACE"; "UPSERT"; "CALL"; "LOCK"; "COPY"; "LOAD";
  "REFRESH"; "NOTIFY"; "LISTEN"; "UNLISTEN"; "ANALYZE"; "VACUUM"; "HANDLER"; "DO"].
Definition DDL_FIRST := ["CREATE"; "ALTER"; "DROP"; "TRUNCATE"; "RENAME"; "COMMENT"; "GRANT"; "REVOKE"; "REINDEX";
  "CLUSTER"; "SECURITY"; "IMPORT"; "OPTIMIZE"; "REPAIR"].
Definition ADMIN_FIRST := ["FLUSH"; "KILL"; "SHUTDOWN"; "INSTALL"; "UNINSTALL"; "RESET"; "PURGE"; "CHANGE"; "START";
  "STOP"; "CHECKPOINT"; "DISCARD"; "PREPARE"; "EXECUTE"; "DEALLOCATE"; "REASSIGN"; "CACHE"; "BINLOG"; "CLONE"; "RESTART"].
Definition TXN_FIRST := ["BEGIN"; "COMMIT"; "ROLLBACK"; "SAVEPOINT"; "RELEASE"; "END"; "ABORT"; "XA"].
Definition DML_ANYWHERE := ["INSERT"; "UPDATE"; "DELETE"; "MERGE"; "TRUNCATE"; "DROP"; "ALTER"; "CREATE"; "GRANT"; "REVOKE"].

Definition DANGEROUS_FUNCS := [
  "PG_TERMINATE_BACKEND"; "PG_CANCEL_BACKEND"; "PG_RELOAD_CONF"; "PG_ROTATE_LOGFILE"; "PG_PROMOTE";
  "PG_READ_FILE"; "PG_READ_BINARY_FILE"; "PG_STAT_FILE"; "PG_SWITCH_WAL"; "PG_CREATE_RESTORE_POINT";
  "PG_DROP_REPLICATION_SLOT"; "PG_CREATE_PHYSICAL_REPLICATION_SLOT"; "PG_CREATE_LOGICAL_REPLICATION_SLOT";
  "PG_LOGICAL_EMIT_MESSAGE"; "PG_WAL_REPLAY_PAUSE"; "PG_WAL_REPLAY_RESUME"; "PG_BACKUP_START"; "PG_BACKUP_STOP";
  "PG_START_BACKUP"; "PG_STOP_BACKUP"; "PG_IMPORT_SYSTEM_COLLATIONS"; "PG_LOG_BACKEND_MEMORY_CONTEXTS";
  "SET_CONFIG"; "TS_STAT";
  "QUERY_TO_XML"; "QUERY_TO_XMLSCHEMA"; "QUERY_TO_XML_AND_XMLSCHEMA";
  "CURSOR_TO_XML"; "CURSOR_TO_XMLSCHEMA";
  "TABLE_TO_XML"; "TABLE_TO_XMLSCHEMA"; "TABLE_TO_XML_AND_XMLSCHEMA";
  "SCHEMA_TO_XML"; "SCHEMA_TO_XMLSCHEMA"; "SCHEMA_TO_XML_AND_XMLSCHEMA";
  "DATABASE_TO_XML"; "DATABASE_TO_XMLSCHEMA"; "DATABASE_TO_XML_AND_XMLSCHEMA";
  "LOAD_FILE"; "SYS_EXEC"; "SYS_EVAL" ].
Definition DANGEROUS_FUNC_PREFIXES := ["PG_LS_"; "PG_FILE_"; "LO_"; "DBLINK"].

Definition MYSQL_SAFE_SET_VARS := [
  "NAMES"; "CHARACTER"; "CHARSET"; "TIME_ZONE"; "SQL_MODE"; "SQL_SELECT_LIMIT"; "MAX_EXECUTION_TIME";
  "GROUP_CONCAT_MAX_LEN"; "LC_TIME_NAMES"; "SQL_BIG_SELECTS"; "SQL_SAFE_UPDATES"; "MAX_JOIN_SIZE";
  "OPTIMIZER_SEARCH_DEPTH"; "CTE_MAX_RECURSION_DEPTH"; "SQL_QUOTE_SHOW_CREATE"; "DIV_PRECISION_INCREMENT" ].

(** * Tokens *)

Definition is_kind (k : SqlTokenKind) (t : SqlToken) : bool := bool_decide (kind t = k).
Definition is_word_in (l : list string) (t : SqlToken) : bool := is_kind K_word t && mem (value t) l.
Definition is_punct (v : string) (t : SqlToken) : bool := is_kind K_punct t && String.eqb (value t) v.

Definition words (ts : list SqlToken) : list string := map value (List.filter (is_kind K_word) ts).

Definition dangerousCall (t : SqlToken) : option string :=
  if is_kind K_word t || is_kind K_ident t then
    let name := toUpperCase (value t) in
    if mem name DANGEROUS_FUNCS || existsb (fun p => startsWith p name) DANGEROUS_FUNC_PREFIXES
    then Some name else None
  else None.

(** The index of the first token satisfying [p] ([findIndex], [None] for -1). *)
Fixpoint find_index (p : SqlToken -> bool) (ts : list SqlToken) : option nat :=
  match ts with
  | [] => None
  | t :: ts' => if p t then Some 0%nat else option_map S (find_index p ts')
  end.

(** * SET *)

(** The assignments after [SET], split at the top-level commas. *)
Fixpoint set_parts (cur : list SqlToken) (ts : list SqlToken) : list (list SqlToken) :=
  match ts with
  | [] => [cur]
  | t :: ts' => if is_punct "," t && (depth t =? 0)%nat then cur :: set_parts [] ts' else set_parts (cur ++ [t]) ts'
  end.

Definition at_is (p : SqlToken -> bool) (part : list SqlToken) (k : nat) : bool :=
  match part !! k with Some t => p t | None => false end.

(** Why one assignment is a write, if it is. *)
Definition set_part_write (part : list SqlToken) : option string :=
  let isAt := at_is (is_punct "@") part in
  let check (i : nat) :=
    let v := match part !! i with
             | Some t => if is_kind K_word t || is_kind K_ident t then toUpperCase (value t) else ""
             | None => "" end in
    if mem v MYSQL_SAFE_SET_VARS then None
    else Some ("SET " +:+ (if String.eqb v "" then "…" else v) +:+ " is not a read-only session setting") in
  if isAt 0%nat && negb (isAt 1%nat) then None
  else if isAt 0%nat && isAt 1%nat then
    match part !! 2%nat with
    | Some scope =>
        if is_kind K_word scope && at_is (is_punct ".") part 3 then
          if negb (String.eqb (value scope) "SESSION") && negb (String.eqb (value scope) "LOCAL")
          then Some ("SET @@" +:+ toLowerCase (value scope) +:+ " changes more than this session")
          else check 4%nat
        else check 2%nat
    | None => check 2%nat
    end
  else if at_is (is_word_in ["SESSION"; "LOCAL"]) part 0 then check 1%nat
  else check 0%nat.

Fixpoint first_some {A B} (f : A -> option B) (l : list A) : option B :=
  match l with [] => None | x :: l' => match f x with Some y => Some y | None => first_some f l' end end.

Definition mysqlSetWrite (ts : list SqlToken) : option string :=
  first_some set_part_write (set_parts [] (tl ts)).

Definition pgSetWrite (w : list string) : option string :=
  let a := nth 1 w "" in
  let b := nth 2 w "" in
  let target := if String.eqb a "SESSION" || String.eqb a "LOCAL" then b else a in
  if String.eqb target "ROLE" || String.eqb target "AUTHORIZATION" && String.eqb a "SESSION" ||
     String.eqb a "SESSION" && String.eqb b "AUTHORIZATION"
  then Some "SET ROLE / SESSION AUTHORIZATION changes the acting role"
  else if String.eqb a "SESSION" && String.eqb b "CHARACTERISTICS"
  then Some "SET SESSION CHARACTERISTICS changes transaction defaults"
  else if mem target ["TRANSACTION_READ_ONLY"; "DEFAULT_TRANSACTION_READ_ONLY"; "SESSION_AUTHORIZATION"; "ROLE"]
  then Some ("SET " +:+ toLowerCase target +:+ " changes the transaction's access")
  else None.

(** * WHERE *)

Inductive WhereKind := W_none | W_trivial | W_ok.

(** The predicate after a WHERE: up to the end of the scope or of the clause. *)
Fixpoint predicate (dp : nat) (ts : list SqlToken) : list string :=
  match ts with
  | [] => []
  | p :: ts' =>
      if (depth p <? dp)%nat then []
      else if (depth p =? dp)%nat && is_word_in ["RETURNING"; "ORDER"; "LIMIT"] p then []
      else (if is_kind K_string p then "'" +:+ value p +:+ "'" else value p) :: predicate dp ts'
  end.

(** [s.replace(/\s+/g, ' ')] *)
Fixpoint collapse_spaces (in_run : bool) (s : string) : string :=
  match s with
  | EmptyString => EmptyString
  | String c s' =>
      if is_space c then if in_run then collapse_spaces true s' else String " " (collapse_spaces true s')
      else String c (collapse_spaces false s')
  end.

Definition TRIVIAL_PREDICATES := ["TRUE"; "1"; "NOT FALSE"; "1 = 1"; "'1' = '1'"; "'A' = 'A'"; "1 > 0"; "0 = 0"; "1 IS NOT NULL"].

Definition predicate_text (pred : list string) : string :=
  toUpperCase (trim (collapse_spaces false
    (smap (fun c => if Ascii.eqb c "(" || Ascii.eqb c ")" then " "%char else c) (join " " pred)))).

(** The loop of [whereFor], from the token after the statement's keyword. *)
Fixpoint where_loop (dp : nat) (ts : list SqlToken) : WhereKind :=
  match ts with
  | [] => W_none
  | t :: ts' =>
      if (depth t <? dp)%nat then W_none
      else if negb (depth t =? dp)%nat then where_loop dp ts'
      else if is_word_in ["RETURNING"] t then W_none
      else if is_word_in ["WHERE"] t then
        if mem (predicate_text (predicate dp ts')) TRIVIAL_PREDICATES then W_trivial else W_ok
      else where_loop dp ts'
  end.

(** [whereFor(tokens, k)] *)
Definition whereFor (t : SqlToken) (after : list SqlToken) : WhereKind := where_loop (depth t) after.

(** * One statement *)

Definition CLAUSE_WORDS := ["FOR"; "ON"; "DO"; "KEY"; "THEN"; "NO"].

Definition prev_in (l : list string) (prev : option SqlToken) : bool :=
  match prev with Some p => is_word_in l p | None => false end.

(** The class and the reasons so far. *)
Definition Verdict : Type := StatementClass * list string.

Definition flag (c : StatementClass) (why : string) (v : Verdict) : Verdict := (c, snd v ++ [why]).

(** One token of the pass over hidden DML, not the first of the statement. *)
Definition dml_step (prev : option SqlToken) (t : SqlToken) (v : Verdict) : Verdict :=
  if negb (is_word_in DML_ANYWHERE t) then v
  else if String.eqb (value t) "UPDATE" && prev_in ["FOR"] prev then
    (up (fst v) write, snd v ++ ["FOR UPDATE locks rows"])
  else if prev_in CLAUSE_WORDS prev then v
  else if mem (value t) ["INSERT"; "UPDATE"; "DELETE"; "MERGE"] then
    match fst v with
    | read => flag write ("contains " +:+ value t +:+ " (a data-modifying CTE or subquery)") v
    | _ => v
    end
  else if mem (value t) ["TRUNCATE"; "DROP"; "ALTER"; "CREATE"; "GRANT"; "REVOKE"] && (0 <? depth t)%nat then
    flag destructive ("contains " +:+ value t) v
  else v.

Fixpoint dml_pass (prev : option SqlToken) (ts : list SqlToken) (v : Verdict) : Verdict :=
  match ts with
  | [] => v
  | t :: ts' => dml_pass (Some t) ts' (match prev with None => v | Some _ => dml_step prev t v end)
  end.

(** One token of the pass over DELETE and UPDATE without a WHERE. *)
Definition where_step (d : SqlDialect) (prev : option SqlToken) (t : SqlToken) (after : list SqlToken) (v : Verdict) : Verdict :=
  if negb (is_word_in ["DELETE"; "UPDATE"] t) then v
  else if prev_in CLAUSE_WORDS prev then v
  else if String.eqb (value t) "UPDATE" && is_mysql d && prev_in ["DUPLICATE"] prev then v
  else match whereFor t after with
       | W_none => flag destructive (value t +:+ " without WHERE touches every row") v
       | W_trivial => flag destructive (value t +:+ " with an always-true WHERE touches every row") v
       | W_ok => v
       end.

Fixpoint where_pass (d : SqlDialect) (prev : option SqlToken) (ts : list SqlToken) (v : Verdict) : Verdict :=
  match ts with
  | [] => v
  | t :: ts' => where_pass d (Some t) ts' (where_step d prev t ts' v)
  end.

(** Side-effecting functions. *)
Fixpoint call_pass (ts : list SqlToken) (v : Verdict) : Verdict :=
  match ts with
  | t :: ts' =>
      call_pass ts'
        (match ts' with
         | nx :: _ =>
             match dangerousCall t with
             | Some fn => if is_punct "(" nx
                          then flag destructive (toLowerCase fn +:+ "() acts outside the transaction") v else v
             | None => v
             end
         | [] => v
         end)
  | [] => v
  end.

Definition block (c : StatementClass) (k why : string) : Classification :=
  {| cl_class := c; cl_kind := k; cl_reasons := []; cl_blocked := Some why |}.

(** SELECT INTO: a blocked file, a new table, or nothing. *)
Definition into_pass (ts : list SqlToken) (first : string) (v : Verdict) : Classification + Verdict :=
  if mem first ["SELECT"; "WITH"] then
    match find_index (fun t => is_word_in ["INTO"] t && (depth t =? 0)%nat) ts with
    | Some (S i) =>
        let after := ts !! S (S i) in
        if prev_in ["OUTFILE"; "DUMPFILE"] after then
          inl (block destructive "SELECT INTO OUTFILE" "SELECT … INTO OUTFILE writes a file on the database host")
        else
          let isVar := match after with Some t => is_punct "@" t | None => false end in
          if negb isVar && negb (mem "INSERT" (words ts))
          then inr (flag destructive "SELECT … INTO creates a table" v) else inr v
    | _ => inr v
    end
  else inr v.

(** [[...new Set(l)]] *)
Fixpoint dedup (seen l : list string) : list string :=
  match l with
  | [] => []
  | x :: l' => if mem x seen then dedup seen l' else x :: dedup (seen ++ [x]) l'
  end.

(** The class of the first word; [inner] classifies what EXPLAIN ANALYZE runs. *)
Definition write_first (first : string) (w : list string) : Classification + Verdict :=
  let has x := mem x w in
  if String.eqb first "COPY" then
    if has "PROGRAM" then inl (block destructive "COPY" "COPY … PROGRAM runs a shell command on the database host")
    else if negb (has "STDOUT" || has "STDIN") then
      inl (block destructive "COPY" "COPY to or from a server file is not available in the studio")
    else inr (if has "TO" then read else write, [])
  else if String.eqb first "LOAD" then
    inl (block destructive "LOAD" "LOAD DATA / LOAD XML read files and are not available in the studio")
  else if String.eqb first "DO" then inr (destructive, ["anonymous code block runs arbitrary statements"])
  else if String.eqb first "CALL" then inr (destructive, ["a procedure may run arbitrary statements"])
  else if String.eqb first "VACUUM" && has "FULL" then
    inr (destructive, ["VACUUM FULL rewrites and locks the table"])
  else inr (write, [first +:+ " changes data"]).

Definition set_first (d : SqlDialect) (ts : list SqlToken) (w : list string) : Verdict :=
  let second := nth 1 w "" in
  if mem second ["GLOBAL"; "PERSIST"; "PERSIST_ONLY"] ||
     existsb (is_punct "@") ts && (mem "GLOBAL" w || mem "PERSIST" w || mem "PERSIST_ONLY" w)
  then (destructive, ["SET GLOBAL changes the whole server"])
  else match (if is_mysql d then mysqlSetWrite ts else pgSetWrite w) with
       | Some why => (up read write, [why])
       | None => (read, [])
       end.

Definition EXPLAINED := ["SELECT"; "INSERT"; "UPDATE"; "DELETE"; "MERGE"; "WITH"; "VALUES"; "TABLE"].

Definition explain_first (inner : list SqlToken -> Classification) (ts : list SqlToken) (w : list string) : Verdict :=
  if mem "ANALYZE" w then
    match find_index (fun t => is_word_in EXPLAINED t && (depth t =? 0)%nat) ts with
    | Some (S i) =>
        let c := inner (drop (S i) ts) in
        (up read (cl_class c), map (fun r => "EXPLAIN ANALYZE runs it: " +:+ r) (cl_reasons c))
    | _ => (read, [])
    end
  else (read, []).

Definition first_class (inner : list SqlToken -> Classification) (d : SqlDialect) (ts : list SqlToken)
    (w : list string) (first : string) : Classification + Verdict :=
  if mem first DDL_FIRST then
    inr (destructive, [if String.eqb first "TRUNCATE" then "TRUNCATE removes every row" else "schema change (DDL)"])
  else if mem first ADMIN_FIRST then inr (destructive, ["server administration"])
  else if mem first WRITE_FIRST then write_first first w
  else if mem first READ_FIRST then
    inr (if String.eqb first "SET" then set_first d ts w
         else if String.eqb first "EXPLAIN" then explain_first inner ts w else (read, []))
  else inr (destructive, ["unrecognised statement (" +:+ first +:+ ")"]).

Definition statement_kind (w : list string) (first : string) : string :=
  let second := nth 1 w "" in
  if mem first DDL_FIRST && mem first ["CREATE"; "ALTER"; "DROP"] && negb (String.eqb second "")
  then first +:+ " " +:+ (if String.eqb second "OR" then join " " (take 3 (drop 1 w)) else second)
  else first.

Fixpoint classifyStatement (fuel : nat) (d : SqlDialect) (ts : list SqlToken) : Classification :=
  let w := words ts in
  let first := nth 0 w "" in
  let second := nth 1 w "" in
  match List.find (is_kind K_backslash) ts with
  | Some bs => block destructive (value bs) ("client meta-commands (" +:+ value bs +:+ ") are not available in the studio")
  | None =>
      if String.eqb first "" then
        {| cl_class := destructive; cl_kind := "?"; cl_reasons := ["unrecognised statement"]; cl_blocked := None |}
      else if mem first TXN_FIRST || String.eqb first "START" && String.eqb second "TRANSACTION" ||
              String.eqb first "SET" && String.eqb second "TRANSACTION" then
        block write first "transaction control is not available — every studio run is its own transaction"
      else
        let inner := match fuel with
                     | O => fun _ => block destructive "?" "out of fuel"
                     | S fuel' => classifyStatement fuel' d
                     end in
        match first_class inner d ts w first with
        | inl c => c
        | inr v =>
            match into_pass ts first (where_pass d None ts (dml_pass None ts v)) with
            | inl c => c
            | inr v' =>
                let '(c, reasons) := call_pass ts v' in
                {| cl_class := c; cl_kind := statement_kind w first; cl_reasons := dedup [] reasons; cl_blocked := None |}
            end
        end
  end.

(** EXPLAIN ANALYZE classifies a proper suffix, so the length is enough fuel. *)
Definition classifySqlStatement (d : SqlDialect) (ts : list SqlToken) : Classification :=
  classifyStatement (length ts) d ts.

Definition classifySql (sql : string) (d : SqlDialect) : Classification :=
  let lexed := lexSql sql d in
  match error lexed with
  | Some e => block destructive "?" ("could not read the statement: " +:+ e)
  | None =>
      match map (fun s => classifySqlStatement d (tokens s)) (statements lexed) with
      | [] => block read "" "empty statement"
      | [c] => c
      | (_ :: _) as parts =>
          {| cl_class := foldl (fun a p => up a (cl_class p)) read parts;
             cl_kind := join "; " (map cl_kind parts);
             cl_reasons := concat (map cl_reasons parts);
             cl_blocked := Some (pretty (N.of_nat (length parts)) +:+ " statements — run one statement at a time") |}
      end
  end.

Definition singleStatementText (sql : string) (d : SqlDialect) : option string :=
  let lexed := lexSql sql d in
  match error lexed, statements lexed with
  | None, [s] => Some (text s)
  | _, _ => None
  end.

(** * Reads are reads *)

(** [p] stands right before [t]. *)
Definition adjacent (p t : SqlToken) (ts : list SqlToken) : Prop := exists l1 l2, ts = l1 ++ p :: t :: l2.

Lemma adjacent_cons p t x ts : adjacent p t (x :: ts) <-> (p = x /\ hd_error ts = Some t) \/ adjacent p t ts.
Proof.
  split.
  - intros ([|y l1] & l2 & E); simpl in E; simplify_eq; [by left|]. right. by exists l1, l2.
  - intros [[-> H]|(l1 & l2 & ->)].
    + destruct ts as [|y ts]; simplify_eq/=. by exists [], ts.
    + by exists (x :: l1), l2.
Qed.

Lemma adjacent_nil p t : ~ adjacent p t [].
Proof. intros ([|? ?] & ? & ?); done. Qed.

(** What the pass over hidden DML tolerates in a read. *)
Definition dml_ok (p t : SqlToken) : Prop :=
  is_word_in DML_ANYWHERE t = true ->
  (is_word_in CLAUSE_WORDS p = true /\ ~ (value t = "UPDATE" /\ is_word_in ["FOR"] p = true)) \/
  (mem (value t) ["INSERT"; "UPDATE"; "DELETE"; "MERGE"] = false /\ depth t = 0%nat).

Lemma dml_step_read p t v : fst (dml_step (Some p) t v) = read -> fst v = read /\ dml_ok p t.
Proof.
  unfold dml_step, dml_ok, prev_in. destruct (is_word_in DML_ANYWHERE t) eqn:Ew; simpl; [|done].
  destruct (String.eqb (value t) "UPDATE" && is_word_in ["FOR"] p) eqn:Ef.
  { destruct (fst v); done. }
  destruct (is_word_in CLAUSE_WORDS p) eqn:Ec.
  { intros Hv. split; [done|]. intros _. left. split; [done|]. intros [H1 H2]. by rewrite H1, H2 in Ef. }
  destruct (mem (value t) ["INSERT"; "UPDATE"; "DELETE"; "MERGE"]) eqn:Ei; [destruct (fst v) eqn:Ev; simpl; congruence|].
  destruct (mem (value t) ["TRUNCATE"; "DROP"; "ALTER"; "CREATE"; "GRANT"; "REVOKE"] && (0 <? depth t)%nat) eqn:Ed; [done|].
  intros Hv. split; [done|]. intros _. right. split; [done|].
  unfold is_word_in in Ew. b2p.
  assert (Hm : mem (value t) ["TRUNCATE"; "DROP"; "ALTER"; "CREATE"; "GRANT"; "REVOKE"] = true).
  { apply mem_In. match goal with H : mem (value t) DML_ANYWHERE = true |- _ => apply mem_In in H; rename H into Hd end.
    apply mem_false in Ei. unfold DML_ANYWHERE in Hd. set_solver. }
  rewrite Hm in Ed. simpl in Ed. apply Nat.ltb_ge in Ed. lia.
Qed.

Lemma dml_pass_read prev ts v : fst (dml_pass prev ts v) = read ->
  fst v = read /\
  (forall p t, prev = Some p -> hd_error ts = Some t -> dml_ok p t) /\
  (forall p t, adjacent p t ts -> dml_ok p t).
Proof.
  revert prev v. induction ts as [|x ts IH]; intros prev v H; simpl in H.
  - split_and!; [done|done|]. intros p t Ha. by apply adjacent_nil in Ha.
  - apply IH in H as (H1 & H2 & H3).
    assert (Hv : fst v = read /\ forall p, prev = Some p -> dml_ok p x).
    { destruct prev as [p|]; [|by split]. apply dml_step_read in H1 as [? ?]. split; [done|]. by intros ? [= <-]. }
    destruct Hv as [Hv1 Hv2]. split; [done|]. split.
    + intros p t Hp [= <-]. by apply Hv2.
    + intros p t [[-> Ht]|Ha]%adjacent_cons; [by apply H2|by apply H3].
Qed.

(** What the pass over unguarded DELETE and UPDATE tolerates in a read: only a
    clause, or a predicate that may be false. *)
Lemma where_pass_class d prev ts v : fst (where_pass d prev ts v) = read -> fst v = read.
Proof.
  revert prev v. induction ts as [|x ts IH]; intros prev v H; simpl in H; [done|].
  apply IH in H. unfold where_step in H. repeat (case_match; try done).
Qed.

Definition call_ok (t nx : SqlToken) : Prop := is_punct "(" nx = true -> dangerousCall t = None.

Lemma call_pass_read ts v : fst (call_pass ts v) = read ->
  fst v = read /\ forall t nx, adjacent t nx ts -> call_ok t nx.
Proof.
  revert v. induction ts as [|x ts IH]; intros v H; simpl in H.
  - split; [done|]. intros t nx Ha. by apply adjacent_nil in Ha.
  - apply IH in H as [H1 H2]. split.
    + destruct ts as [|y ts]; [done|]. destruct (dangerousCall x); [|done]. by destruct (is_punct "(" y).
    + intros t nx [[-> Ht]|Ha]%adjacent_cons; [|by apply H2].
      destruct ts as [|y ts]; simplify_eq/=. unfold call_ok. intros Hp. rewrite Hp in H1.
      by destruct (dangerousCall x).
Qed.

(** The first word of a statement classified as a read. *)
Definition read_first (w : list string) : Prop :=
  nth 0 w "" ∈ READ_FIRST \/
  nth 0 w "" = "COPY" /\ "TO" ∈ w /\ "PROGRAM" ∉ w /\ ("STDOUT" ∈ w \/ "STDIN" ∈ w).

(** A top-level INTO stores into a variable, or belongs to an INSERT. *)
Definition into_ok (ts : list SqlToken) : Prop :=
  nth 0 (words ts) "" = "SELECT" \/ nth 0 (words ts) "" = "WITH" ->
  forall i, find_index (fun t => is_word_in ["INTO"] t && (depth t =? 0)%nat) ts = Some (S i) ->
  "INSERT" ∈ words ts \/ exists t, ts !! S (S i) = Some t /\ is_punct "@" t = true.

(** What a statement that may run as a read looks like. *)
Definition read_ok (ts : list SqlToken) : Prop :=
  read_first (words ts) /\
  (forall t, t ∈ ts -> kind t <> K_backslash) /\
  (forall p t, adjacent p t ts -> dml_ok p t /\ call_ok p t) /\
  into_ok ts.

Lemma first_class_read inner d ts w first v :
  first_class inner d ts w first = inr v -> fst v = read ->
  first ∈ READ_FIRST \/ first = "COPY" /\ "TO" ∈ w /\ "PROGRAM" ∉ w /\ ("STDOUT" ∈ w \/ "STDIN" ∈ w).
Proof.
  unfold first_class. intros H Hv.
  destruct (mem first DDL_FIRST); [by simplify_eq|]. destruct (mem first ADMIN_FIRST); [by simplify_eq|].
  destruct (mem first WRITE_FIRST).
  - unfold write_first in H. right.
    destruct (String.eqb_spec first "COPY") as [->|_]; [|repeat (case_match; simplify_eq/=); done].
    destruct (mem "PROGRAM" w) eqn:Ep; [done|].
    destruct (mem "STDOUT" w) eqn:Eo, (mem "STDIN" w) eqn:Ei, (mem "TO" w) eqn:Et; simplify_eq/=; try done;
      apply mem_false in Ep; apply mem_In in Et; split_and!; try done.
    + left. by apply mem_In.
    + left. by apply mem_In.
    + right. by apply mem_In.
  - destruct (mem first READ_FIRST) eqn:Er; [|by simplify_eq]. left. by apply mem_In.
Qed.

Lemma into_pass_read ts first v v' : into_pass ts first v = inr v' -> fst v' = read ->
  fst v = read /\ (first = "SELECT" \/ first = "WITH" ->
    forall i, find_index (fun t => is_word_in ["INTO"] t && (depth t =? 0)%nat) ts = Some (S i) ->
    "INSERT" ∈ words ts \/ exists t, ts !! S (S i) = Some t /\ is_punct "@" t = true).
Proof.
  unfold into_pass. intros H Hv. destruct (mem first ["SELECT"; "WITH"]) eqn:Ef.
  - destruct (find_index _ ts) as [[|i]|] eqn:Ei; [simplify_eq; split; [done|intros _ i Hi; discriminate]| |
      simplify_eq; split; [done|intros _ i Hi; discriminate]].
    destruct (prev_in _ _); [done|].
    destruct (negb _ && negb _) eqn:En; [by simplify_eq|]. injection H as <-. split; [done|]. intros _ j [= <-].
    apply andb_false_iff in En as [En|En]; apply negb_false_iff in En.
    + right. destruct (ts !! S (S i)) as [t|] eqn:Et; [|done]. by exists t.
    + left. by apply mem_In.
  - simplify_eq. split; [done|]. intros Hf. exfalso. apply mem_false in Ef. apply Ef.
    destruct Hf as [-> | ->]; [left|right; left].
Qed.

Lemma classifyStatement_read fuel d ts :
  cl_class (classifyStatement fuel d ts) = read -> cl_blocked (classifyStatement fuel d ts) = None -> read_ok ts.
Proof.
  intros Hc Hb. unfold read_ok.
  assert (E : exists inner v v' r,
    List.find (is_kind K_backslash) ts = None /\
    first_class inner d ts (words ts) (nth 0 (words ts) "") = inr v /\
    into_pass ts (nth 0 (words ts) "") (where_pass d None ts (dml_pass None ts v)) = inr v' /\
    call_pass ts v' = (read, r)).
  { destruct fuel as [|fuel]; simpl in Hc, Hb;
      (destruct (List.find (is_kind K_backslash) ts); [done|]);
      (destruct (String.eqb (nth 0 (words ts) "") ""); [done|]); (case_match; [done|]);
      match type of Hc with context [first_class ?inner _ _ _ _] =>
        exists inner; destruct (first_class inner d ts (words ts) (nth 0 (words ts) "")) as [c|v] eqn:Ef end;
      try (unfold first_class, write_first in Ef; repeat (case_match; simplify_eq/=); done);
      exists v; (destruct (into_pass _ _ _) as [c|v'] eqn:Ei;
        [unfold into_pass in Ei; repeat (case_match; simplify_eq/=); done|]);
      exists v'; destruct (call_pass ts v') as [c r]; simpl in Hc; subst c; by exists r. }
  destruct E as (inner & v & v' & r & Hbs & Hf & Hi & Hcall).
  pose proof (call_pass_read ts v') as Hcr. rewrite Hcall in Hcr. destruct (Hcr eq_refl) as [Hv' Hcalls].
  destruct (into_pass_read _ _ _ _ Hi Hv') as [Hw Hinto].
  apply where_pass_class in Hw. apply dml_pass_read in Hw as (Hv & _ & Hdml).
  split_and!.
  - unfold read_first. by eapply first_class_read.
  - intros t Ht Hk. apply list_elem_of_In in Ht. apply (find_none _ _ Hbs) in Ht.
    unfold is_kind in Ht. rewrite Hk in Ht. by vm_compute in Ht.
  - intros p t Ha. split; [by apply Hdml|by apply Hcalls].
  - exact Hinto.
Qed.

(** What the class read guarantees of the text, and no more: it is one statement, lexed
    to the end; its first word is one of READ_FIRST, or it is a COPY to the client; it
    holds no client meta-command, no INSERT, UPDATE, DELETE or MERGE except directly
    after one of the words CLAUSE_WORDS, no schema change in parentheses, no call of a
    function on the list; and a top-level INTO of a SELECT or WITH comes with the word
    INSERT somewhere or an at-sign behind it.  The statements at the end of this file
    meet all this and write. *)
Theorem classifySql_read sql d :
  cl_class (classifySql sql d) = read -> cl_blocked (classifySql sql d) = None ->
  error (lexSql sql d) = None /\
  exists s, statements (lexSql sql d) = [s] /\ singleStatementText sql d = Some (text s) /\ read_ok (tokens s).
Proof.
  unfold classifySql, singleStatementText. intros Hc Hb.
  destruct (error (lexSql sql d)) as [e|] eqn:Ee; [done|]. split; [done|].
  destruct (statements (lexSql sql d)) as [|s [|s2 l]] eqn:Es; [done| |done].
  exists s. split_and!; [done|done|]. simpl in Hc, Hb. by eapply classifyStatement_read.
Qed.

Lemma classifySql_read_witness :
  error (lexSql "SELECT * FROM t WHERE a = 'x; DROP TABLE t'" postgres) = None /\
  exists s, statements (lexSql "SELECT * FROM t WHERE a = 'x; DROP TABLE t'" postgres) = [s] /\
    singleStatementText "SELECT * FROM t WHERE a = 'x; DROP TABLE t'" postgres = Some (text s) /\ read_ok (tokens s).
Proof.
  apply (classifySql_read "SELECT * FROM t WHERE a = 'x; DROP TABLE t'" postgres); vm_compute; reflexivity.
Defined.

(** * The studio's own statements *)

(** A token no pass reacts to. *)
Definition benign (t : SqlToken) : bool :=
  negb (is_word_in ("INTO" :: DML_ANYWHERE) t) && negb (is_punct "(" t) && negb (is_kind K_backslash t).

Definition is_benign (t : SqlToken) : Prop := benign t = true.

Lemma benign_facts t : benign t = true ->
  is_word_in DML_ANYWHERE t = false /\ is_word_in ["DELETE"; "UPDATE"] t = false /\
  is_word_in ["INTO"] t = false /\ is_punct "(" t = false /\ is_kind K_backslash t = false.
Proof.
  unfold benign, is_word_in. intros H. b2p. destruct (is_kind K_word t); simpl in *; [|by split_and!].
  match goal with H : mem _ ("INTO" :: _) = false |- _ => apply mem_false in H; rename H into Hm end.
  split_and!; try done; apply mem_false; unfold DML_ANYWHERE in *; set_solver.
Qed.

Lemma dml_pass_benign prev ts v : Forall is_benign ts -> dml_pass prev ts v = v.
Proof.
  intros H. revert prev v. induction H as [|t ts Ht _ IH]; intros prev v; simpl; [done|].
  apply benign_facts in Ht as (Hd & _). rewrite IH. destruct prev; [|done]. unfold dml_step. by rewrite Hd.
Qed.

Lemma where_pass_benign d prev ts v : Forall is_benign ts -> where_pass d prev ts v = v.
Proof.
  intros H. revert prev v. induction H as [|t ts Ht _ IH]; intros prev v; simpl; [done|].
  apply benign_facts in Ht as (_ & Hd & _). rewrite IH. unfold where_step. by rewrite Hd.
Qed.

Lemma call_pass_benign ts v : Forall is_benign ts -> call_pass ts v = v.
Proof.
  intros H. revert v. induction H as [|t ts Ht Hts IH]; intros v; simpl; [done|]. rewrite IH.
  destruct Hts as [|y ts Hy Hys]; [done|].
  apply benign_facts in Hy as (_ & _ & _ & Hp & _). rewrite Hp. by destruct (dangerousCall t).
Qed.

Lemma find_into_benign ts : Forall is_benign ts ->
  find_index (fun t => is_word_in ["INTO"] t && (depth t =? 0)%nat) ts = None.
Proof.
  induction 1 as [|t ts Ht _ IH]; simpl; [done|]. apply benign_facts in Ht as (_ & _ & Hi & _). by rewrite Hi, IH.
Qed.

Definition no_backslash (t : SqlToken) : Prop := is_kind K_backslash t = false.

Lemma find_backslash ts : Forall no_backslash ts -> List.find (is_kind K_backslash) ts = None.
Proof. induction 1 as [|t ts Ht _ IH]; simpl; [done|]. by rewrite Ht. Qed.

Lemma Forall_tjoin (P : SqlToken -> Prop) sep l : Forall P sep -> Forall (Forall P) l -> Forall P (tjoin sep l).
Proof.
  intros Hs H. induction H as [|x l Hx Hl IH]; simpl; [constructor|].
  destruct l; [done|]. by repeat apply Forall_app_2.
Qed.

Lemma Forall_map_tokens {X} (P : SqlToken -> Prop) (f : X -> list SqlToken) l :
  (forall x, Forall P (f x)) -> Forall (Forall P) (map f l).
Proof. intros H. induction l; simpl; by constructor. Qed.

Ltac all_tokens := repeat first
  [ apply Forall_nil_2 | apply Forall_cons_2 | apply Forall_app_2 | (vm_compute; reflexivity) ].

Lemma literal_benign d dp v : Forall is_benign (literal_tokens d dp v).
Proof.
  destruct v as [s|[|p|p]|v| |[]|]; simpl; all_tokens; [by destruct (dc_negative v); all_tokens|].
  destruct (dc_exp v) as [e|]; all_tokens. unfold exp_sign. by destruct (e <? 0).
Qed.

Lemma qualified_benign d dp t : Forall is_benign (qualified_tokens d dp t).
Proof. unfold qualified_tokens. repeat case_match; all_tokens. Qed.

Lemma assignment_benign d e : Forall is_benign (assignment_tokens d e).
Proof. unfold assignment_tokens. all_tokens. apply literal_benign. Qed.

Lemma key_benign d e : Forall is_benign (key_tokens d e).
Proof. unfold key_tokens. case_match; try apply assignment_benign. all_tokens. Qed.

Lemma filter_benign d f : Forall is_benign (filter_tokens d f).
Proof. unfold filter_tokens. destruct (f_op f), d; simpl; all_tokens. Qed.

Lemma browse_benign d q : Forall is_benign (browse_tokens d q).
Proof.
  unfold browse_tokens. cbv zeta. all_tokens; try apply qualified_benign; try apply literal_benign.
  - case_match; all_tokens. apply Forall_tjoin; [all_tokens|]. apply Forall_map_tokens, filter_benign.
  - case_match; all_tokens. by destruct (b_desc q).
  - case_match; all_tokens. apply literal_benign.
Qed.

Lemma benign_no_backslash ts : Forall is_benign ts -> Forall no_backslash ts.
Proof. intros H. eapply Forall_impl; [exact H|]. by intros t (_ & _ & _ & _ & Hk)%benign_facts. Qed.

Lemma edit_no_backslash d b : match b with B_browse _ => False | _ => True end ->
  Forall no_backslash (built_tokens d b).
Proof.
  intros Hb. destruct b as [t key set|t [|e values]|t key|q]; [| | | |done]; unfold built_tokens, parens, limit_one_tokens;
    all_tokens; try (apply benign_no_backslash, qualified_benign);
    try (apply Forall_tjoin; [all_tokens|apply Forall_map_tokens; intros x]);
    try apply benign_no_backslash, assignment_benign; try apply benign_no_backslash, key_benign;
    try apply benign_no_backslash, literal_benign; try (destruct d; simpl; all_tokens).
Qed.

(** A statement whose first word writes is at least a write, and runs. *)
Lemma classify_edit d ts w rest : ts = word_tok 0 w :: rest -> Forall no_backslash ts ->
  mem w ["UPDATE"; "INSERT"; "DELETE"] = true ->
  cl_class (classifySqlStatement d ts) <> read /\ cl_blocked (classifySqlStatement d ts) = None /\
  cl_kind (classifySqlStatement d ts) = w.
Proof.
  intros -> Hbs Hw. unfold classifySqlStatement.
  assert (Hc : exists v, fst v = write /\
    classifyStatement (length (word_tok 0 w :: rest)) d (word_tok 0 w :: rest) =
    let '(c, reasons) := call_pass (word_tok 0 w :: rest)
                           (where_pass d None (word_tok 0 w :: rest) (dml_pass None (word_tok 0 w :: rest) v)) in
    {| cl_class := c; cl_kind := w; cl_reasons := dedup [] reasons; cl_blocked := None |}).
  { exists (write, [w +:+ " changes data"]). split; [done|]. cbn [classifyStatement length].
    rewrite (find_backslash _ Hbs). apply mem_In in Hw.
    assert (w = "UPDATE" \/ w = "INSERT" \/ w = "DELETE") as [-> | [-> | ->]] by set_solver; reflexivity. }
  destruct Hc as (v & Hv & ->).
  set (v' := where_pass _ _ _ _). destruct (call_pass _ v') as [c r] eqn:Ec. simpl. split_and!; try done.
  intros ->. pose proof (call_pass_read (word_tok 0 w :: rest) v') as Hr. rewrite Ec in Hr.
  destruct (Hr eq_refl) as [Hv' _]. apply where_pass_class in Hv'. apply dml_pass_read in Hv' as (Hv2 & _). congruence.
Qed.

(** C40: the studio's own statements are classified as they are meant, for any table,
    column and value, whatever these contain: a browse query is a read with nothing to
    warn of, and may run; a row update, insert or delete is never a read, is of the kind
    it is, and may run. *)
Theorem built_statement_class d b s :
  render d b = Ok s ->
  match b with
  | B_browse _ => classifySql s d = {| cl_class := read; cl_kind := "SELECT"; cl_reasons := []; cl_blocked := None |}
  | _ => cl_class (classifySql s d) <> read /\ cl_blocked (classifySql s d) = None /\
         cl_kind (classifySql s d) =
           match b with B_update _ _ _ => "UPDATE" | B_insert _ _ => "INSERT" | _ => "DELETE" end
  end.
Proof.
  intros H. assert (Hl : lexSql s d = {| statements := [ {| tokens := built_tokens d b; text := trim s |} ]; error := None |}).
  { destruct b as [t key set|t values|t key|q]; simpl in H; apply lex_whole;
      [by apply reads_update|done|by apply reads_insert|by destruct values|by apply reads_delete|done|by apply reads_browse|done]. }
  unfold classifySql. rewrite Hl. cbn [error statements map tokens].
  destruct b as [t key set|t values|t key|q].
  - eapply classify_edit; [reflexivity|by apply edit_no_backslash|done].
  - destruct values; (eapply classify_edit; [reflexivity|by apply (edit_no_backslash d (B_insert t _))|done]).
  - eapply classify_edit; [reflexivity|by apply (edit_no_backslash d (B_delete t key))|done].
  - pose proof (browse_benign d q) as Hb. unfold classifySqlStatement, built_tokens.
    pose proof (find_backslash _ (benign_no_backslash _ Hb)) as Hbs.
    pose proof (find_into_benign _ Hb) as Hi.
    assert (Hf : nth 0 (words (browse_tokens d q)) "" = "SELECT") by reflexivity.
    destruct (length (browse_tokens d q)) as [|n] eqn:En; [done|].
    cbn [classifyStatement]. rewrite Hbs, Hf.
    change (first_class (classifyStatement n d) d (browse_tokens d q) (words (browse_tokens d q)) "SELECT")
      with (inr (read, []) : Classification + Verdict).
    cbv iota beta. unfold into_pass. rewrite Hi, where_pass_benign, dml_pass_benign by done.
    change (mem "SELECT" ["SELECT"; "WITH"]) with true. cbv iota beta.
    rewrite call_pass_benign by done. reflexivity.
Qed.

Lemma built_statement_class_witness :
  exists s, render postgres (B_browse {| b_table := {| schema := Some "public"; tname := "pg_read_file" |};
      b_limit := 50; b_offset := 0; b_orderBy := Some "drop"; b_desc := true;
      b_filters := [ {| f_column := "update"; f_op := op_contains; f_value := Some "100%" |} ] |}) = Ok s /\
    classifySql s postgres = {| cl_class := read; cl_kind := "SELECT"; cl_reasons := []; cl_blocked := None |}.
Proof.
  eexists. split; [reflexivity|].
  apply (built_statement_class postgres (B_browse {| b_table := {| schema := Some "public"; tname := "pg_read_file" |};
      b_limit := 50; b_offset := 0; b_orderBy := Some "drop"; b_desc := true;
      b_filters := [ {| f_column := "update"; f_op := op_contains; f_value := Some "100%" |} ] |})). reflexivity.
Defined.

(** * Statements the classifier takes for reads *)

(** EXPLAIN ANALYZE runs the CREATE TABLE, but the search for the explained
    statement finds the SELECT behind it. *)
Lemma explain_analyze_create_is_read :
  classifySql "EXPLAIN ANALYZE CREATE TABLE t AS SELECT 1" postgres =
  {| cl_class := read; cl_kind := "EXPLAIN"; cl_reasons := []; cl_blocked := None |}.
Proof. vm_compute. reflexivity. Qed.

(** The file export of a TABLE statement is neither blocked nor a write. *)
Lemma table_into_outfile_is_read :
  classifySql "TABLE t INTO OUTFILE '/tmp/x'" mysql =
  {| cl_class := read; cl_kind := "TABLE"; cl_reasons := []; cl_blocked := None |}.
Proof. vm_compute. reflexivity. Qed.

(** The first clause word before the name of a column alias lets the alias pass for a
    clause, and the alias, the word INSERT, lets the INTO pass: the statement creates
    a table. *)
Lemma alias_insert_into_is_read :
  classifySql "SELECT t.no insert INTO newt FROM t" postgres =
  {| cl_class := read; cl_kind := "SELECT"; cl_reasons := []; cl_blocked := None |}.
Proof. vm_compute. reflexivity. Qed.
