(* ===== verification/NoSqlClassify.v ===== *)
(** The MongoDB and Redis halves of the studio's classifier
    (packages/core/src/studio/classify.ts): what a command does, and the two
    predicates that let a command run with read access.

    A command document is a [value] of Json.v; the keys of an object are listed
    in the order [Object.keys] gives them. *)

From S2P Require Import Prelude SqlClassify Json.

Definition verdict (c : StatementClass) (kind : string) (reasons : list string) (blocked : option string) : Classification :=
  {| cl_class := c; cl_kind := kind; cl_reasons := reasons; cl_blocked := blocked |}.

(** * MongoDB *)

Definition MONGO_READ := [
  "find"; "aggregate"; "count"; "distinct"; "listcollections"; "listindexes"; "listdatabases"; "dbstats";
  "collstats"; "serverstatus"; "buildinfo"; "hello"; "ismaster"; "ping"; "explain"; "currentop";
  "validate"; "datasize"; "hostinfo"; "connectionstatus"; "getcmdlineopts"; "top"; "getlog" ].
Definition MONGO_WRITE := ["insert"; "update"; "delete"; "findandmodify"; "bulkwrite"].
Definition MONGO_DDL := [
  "create"; "createindexes"; "drop"; "dropdatabase"; "dropindexes"; "renamecollection"; "collmod";
  "converttocapped"; "emptycapped"; "compact"; "clonecollectionascapped"; "createview" ].
Definition MONGO_ADMIN := [
  "eval"; "$eval"; "shutdown"; "fsync"; "setparameter"; "createuser"; "updateuser"; "dropuser"; "grantrolestouser";
  "revokerolesfromuser"; "dropallusersfromdatabase"; "createrole"; "droprole"; "replsetreconfig"; "replsetstepdown";
  "killop"; "logout"; "authenticate"; "saslstart"; "saslcontinue"; "copydb"; "applyops" ].

Definition isEmptyFilter (f : option value) : bool :=
  match f with None | Some VNull => true | Some (VObj []) => true | _ => false end.

(** [v?.k] *)
Definition prop (k : string) (v : value) : option value := match v with VObj m => get k m | _ => None end.

(** [Array.isArray(v) ? v : []] *)
Definition as_array (v : option value) : list value := match v with Some (VArr l) => l | _ => [] end.

Definition has_key (k : string) (v : value) : bool :=
  match v with VObj m => match get k m with Some _ => true | None => false end | _ => false end.

Definition mongoCommandName (doc : list (string * value)) : string := match doc with (k, _) :: _ => k | [] => "" end.

Definition writes_out (stage : value) : bool := has_key "$out" stage || has_key "$merge" stage.

Definition is_true (v : option value) : bool := match v with Some (VBool true) => true | _ => false end.

(** DML: the class and the reasons. *)
Definition mongo_write (d : list (string * value)) (name key : string) : StatementClass * list string :=
  let changes := name +:+ " changes data" in
  if String.eqb key "delete" then
    let dels := as_array (get "deletes" d) in
    if bool_decide (dels = []) || existsb (fun x => isEmptyFilter (prop "q" x)) dels
    then (destructive, [changes; "delete with an empty filter removes every document"]) else (write, [changes])
  else if String.eqb key "update" then
    if existsb (fun x => isEmptyFilter (prop "q" x) && is_true (prop "multi" x)) (as_array (get "updates" d))
    then (destructive, [changes; "update with an empty filter and multi touches every document"]) else (write, [changes])
  else if String.eqb key "findandmodify" && is_true (get "remove" d) && isEmptyFilter (get "query" d)
  then (write, [changes; "removes the first document"])
  else (write, [changes]).

Fixpoint classifyMongo (fuel : nat) (doc : option value) : Classification :=
  match doc with
  | Some (VObj d) =>
      let name := mongoCommandName d in
      let key := toLowerCase name in
      if String.eqb name "" then verdict read "" [] (Some "empty command")
      else if mem key ["getmore"; "killcursors"] then
        verdict read name [] (Some "cursors are not kept between studio runs")
      else if mem key MONGO_ADMIN then
        verdict destructive name ["server administration"]
          (if String.eqb key "authenticate" || startsWith "sasl" key
           then Some "authentication commands are not available" else None)
      else if mem key MONGO_READ then
        if String.eqb key "aggregate" && existsb writes_out (as_array (get "pipeline" d)) then
          verdict write "aggregate" ["$out / $merge writes a collection"] None
        else if String.eqb key "explain" then
          match fuel with
          | O => verdict destructive "?" [] (Some "out of fuel")
          | S fuel' => verdict read ("explain " +:+ cl_kind (classifyMongo fuel' (get "explain" d))) [] None
          end
        else verdict read name [] None
      else if String.eqb key "profile" then
        if strict_eq (get "profile" d) (VNum "-1") then verdict read "profile" [] None
        else verdict write "profile" ["changes the profiler level"] None
      else if String.eqb key "mapreduce" then
        if match get "out" d with Some out => has_key "inline" out | None => false end
        then verdict read name [] None else verdict write name ["mapReduce writes a collection"] None
      else if mem key MONGO_DDL then
        verdict destructive name
          [if startsWith "drop" key then name +:+ " deletes data" else "schema change (DDL)"] None
      else if mem key MONGO_WRITE then
        let '(c, reasons) := mongo_write d name key in verdict c name reasons None
      else verdict destructive name ["unrecognised command (" +:+ name +:+ ")"] None
  | _ => verdict destructive "?" [] (Some "a Mongo command must be a JSON document")
  end.

Definition classify_mongo (doc : value) : Classification := classifyMongo (depth_of doc) (Some doc).

Definition read_allowed (c : Classification) : bool :=
  match cl_class c, cl_blocked c with read, None => true | _, _ => false end.

Definition mongoReadAllowed (doc : value) : bool := read_allowed (classify_mongo doc).

(** * Redis and Valkey *)

Definition REDIS_READ := [
  "GET"; "MGET"; "GETRANGE"; "STRLEN"; "EXISTS"; "TYPE"; "TTL"; "PTTL"; "EXPIRETIME"; "PEXPIRETIME";
  "HGET"; "HMGET"; "HGETALL"; "HKEYS"; "HVALS"; "HLEN"; "HEXISTS"; "HSTRLEN"; "HSCAN"; "HRANDFIELD";
  "LRANGE"; "LLEN"; "LINDEX"; "LPOS"; "SMEMBERS"; "SCARD"; "SISMEMBER"; "SMISMEMBER"; "SSCAN"; "SRANDMEMBER";
  "SINTER"; "SUNION"; "SDIFF"; "SINTERCARD"; "ZRANGE"; "ZRANGEBYSCORE"; "ZREVRANGE"; "ZREVRANGEBYSCORE";
  "ZRANGEBYLEX"; "ZCARD"; "ZSCORE"; "ZMSCORE"; "ZRANK"; "ZREVRANK"; "ZCOUNT"; "ZLEXCOUNT"; "ZSCAN"; "ZRANDMEMBER";
  "XRANGE"; "XREVRANGE"; "XLEN"; "XINFO"; "XPENDING"; "SCAN"; "DBSIZE"; "INFO"; "PING"; "ECHO"; "TIME";
  "RANDOMKEY"; "OBJECT"; "MEMORY"; "SLOWLOG"; "LATENCY"; "BITCOUNT"; "BITPOS"; "GETBIT"; "PFCOUNT";
  "GEOPOS"; "GEODIST"; "GEOHASH"; "GEOSEARCH"; "GEORADIUS_RO"; "GEORADIUSBYMEMBER_RO"; "DUMP"; "LCS";
  "SUBSTR"; "COMMAND"; "LOLWUT"; "ROLE"; "LASTSAVE"; "KEYS"; "JSON.GET"; "JSON.TYPE"; "JSON.STRLEN"; "JSON.OBJKEYS" ].
Definition REDIS_DESTRUCTIVE := [
  "FLUSHALL"; "FLUSHDB"; "SHUTDOWN"; "DEBUG"; "SWAPDB"; "MIGRATE"; "REPLICAOF"; "SLAVEOF"; "MODULE";
  "FAILOVER"; "CLUSTER"; "SAVE"; "BGSAVE"; "BGREWRITEAOF"; "EVAL"; "EVALSHA"; "EVAL_RO"; "EVALSHA_RO";
  "FCALL"; "FCALL_RO"; "FUNCTION"; "SCRIPT" ].
Definition REDIS_BLOCKED : list (string * string) := [
  ("AUTH", "authentication commands are not available");
  ("HELLO", "connection commands are not available");
  ("ACL", "ACL commands are not available in the studio");
  ("CONFIG", "CONFIG can reveal credentials — use Insights for server settings");
  ("MONITOR", "streaming commands are not available");
  ("SUBSCRIBE", "streaming commands are not available");
  ("PSUBSCRIBE", "streaming commands are not available");
  ("SSUBSCRIBE", "streaming commands are not available");
  ("SYNC", "replication commands are not available");
  ("PSYNC", "replication commands are not available");
  ("SELECT", "pick the database with the db selector instead of SELECT");
  ("MULTI", "transactions are not available — every studio run is one command");
  ("EXEC", "transactions are not available — every studio run is one command");
  ("WATCH", "transactions are not available — every studio run is one command");
  ("CLIENT", "CLIENT commands are not available in the studio");
  ("QUIT", "connection commands are not available");
  ("RESET", "connection commands are not available") ].

Definition REDIS_WITH_SUB := ["OBJECT"; "MEMORY"; "SLOWLOG"; "XINFO"; "LATENCY"; "COMMAND"; "FUNCTION"; "SCRIPT"; "CLUSTER"].

Definition is_upper (c : ascii) : bool := let n := code c in ((65 <=? n) && (n <=? 90))%N.

(** [/^[A-Z][A-Z._]*$/] *)
Definition looks_like_command (cmd : string) : bool :=
  next_is is_upper cmd && all_chars (fun c => is_upper c || Ascii.eqb c "." || Ascii.eqb c "_") cmd.

Definition classifyRedis (argv : list string) : Classification :=
  let cmd := toUpperCase (nth 0 argv "") in
  let sub := toUpperCase (nth 1 argv "") in
  let kind := if mem cmd REDIS_WITH_SUB && negb (String.eqb sub "") then cmd +:+ " " +:+ sub else cmd in
  if String.eqb cmd "" then verdict read "" [] (Some "empty command")
  else
    match get cmd REDIS_BLOCKED with
    | Some why => verdict destructive kind [] (Some why)
    | None =>
        if String.eqb cmd "SLOWLOG" && String.eqb sub "RESET" then verdict destructive kind ["clears the slow log"] None
        else if String.eqb cmd "LATENCY" && String.eqb sub "RESET" then verdict destructive kind ["clears latency history"] None
        else if String.eqb cmd "MEMORY" && (String.eqb sub "PURGE" || String.eqb sub "DOCTOR") then
          verdict write kind ["memory maintenance"] None
        else if mem cmd ["SORT"; "SORT_RO"] then
          if existsb (fun a => String.eqb (toUpperCase a) "STORE") argv
          then verdict write kind ["SORT … STORE writes a key"] None else verdict read kind [] None
        else if String.eqb cmd "KEYS" then
          verdict read kind ["KEYS blocks the server on large keyspaces — prefer SCAN"] None
        else if mem cmd REDIS_READ then verdict read kind [] None
        else if mem cmd REDIS_DESTRUCTIVE then
          verdict destructive kind
            [if startsWith "FLUSH" cmd then "removes every key"
             else if startsWith "EVAL" cmd || startsWith "FCALL" cmd then "a script may run any command"
             else "server administration"] None
        else if looks_like_command cmd then verdict write kind [cmd +:+ " changes data"] None
        else verdict destructive kind ["unrecognised command (" +:+ cmd +:+ ")"] None
    end.

Definition redisReadAllowed (argv : list string) : bool := read_allowed (classifyRedis argv).

(** * Lemmas *)

(** The depth of the document is enough fuel. *)
Lemma classifyMongo_fuel fuel doc :
  (depth_of doc <= fuel)%nat -> classifyMongo fuel (Some doc) = classify_mongo doc.
Proof.
  unfold classify_mongo. remember (depth_of doc) as n eqn:En.
  assert (H : forall n fuel doc, (depth_of doc <= n)%nat -> (n <= fuel)%nat ->
    classifyMongo fuel (Some doc) = classifyMongo n (Some doc)).
  { clear. induction n as [|n IH]; intros fuel doc Hd Hf.
    - destruct doc as [| | | | |m]; simpl in Hd; try lia; by destruct fuel.
    - destruct fuel as [|fuel]; [lia|]. destruct doc as [| | | | |m]; try done.
      cbn [classifyMongo]. repeat (destruct (String.eqb _ _) || destruct (mem _ _) || destruct (_ && _)); try done.
      all: destruct (get "explain" m) as [v|] eqn:Ev; [|by destruct fuel, n].
      all: pose proof (depth_get _ _ _ Ev); rewrite (IH fuel v) by lia; done. }
  intros Hf. apply H; lia.
Qed.

Definition redis_cmd (argv : list string) : string := toUpperCase (nth 0 argv "").
Definition redis_sub (argv : list string) : string := toUpperCase (nth 1 argv "").

(** The read commands that are not reads with these subcommands. *)
Definition REDIS_NOT_READ : list (string * string) :=
  [("SLOWLOG", "RESET"); ("LATENCY", "RESET"); ("MEMORY", "PURGE"); ("MEMORY", "DOCTOR")].

(** The tables do not overlap: a read command is neither blocked nor one of the
    commands decided before the table of reads. *)
Lemma redis_tables : forallb (fun cmd =>
  negb (String.eqb cmd "") && match get cmd REDIS_BLOCKED with None => true | Some _ => false end &&
  negb (mem cmd ["SORT"; "SORT_RO"]) && negb (mem cmd REDIS_DESTRUCTIVE)) REDIS_READ = true.
Proof. vm_compute. reflexivity. Qed.

Lemma redis_read_table cmd : cmd ∈ REDIS_READ ->
  String.eqb cmd "" = false /\ get cmd REDIS_BLOCKED = None /\ mem cmd ["SORT"; "SORT_RO"] = false.
Proof.
  intros H%list_elem_of_In. pose proof redis_tables as Ht. rewrite forallb_forall in Ht.
  specialize (Ht cmd H). b2p. destruct (get cmd REDIS_BLOCKED); [done|].
  split_and!; [by apply String.eqb_neq|done..].
Qed.

Lemma not_read_iff cmd sub :
  (String.eqb cmd "SLOWLOG" && String.eqb sub "RESET") || (String.eqb cmd "LATENCY" && String.eqb sub "RESET") ||
  (String.eqb cmd "MEMORY" && (String.eqb sub "PURGE" || String.eqb sub "DOCTOR")) = true <->
  (cmd, sub) ∈ REDIS_NOT_READ.
Proof.
  rewrite !orb_true_iff, !andb_true_iff, !orb_true_iff, !String.eqb_eq. unfold REDIS_NOT_READ.
  rewrite !elem_of_cons, elem_of_nil, !pair_equal_spec. tauto.
Qed.

Definition redis_reads (argv : list string) : Prop :=
  (redis_cmd argv ∈ REDIS_READ /\ (redis_cmd argv, redis_sub argv) ∉ REDIS_NOT_READ) \/
  (redis_cmd argv ∈ ["SORT"; "SORT_RO"] /\ forall a, a ∈ argv -> toUpperCase a <> "STORE").

Definition mongo_reads (doc : value) : Prop :=
  exists d, doc = VObj d /\
    let key := toLowerCase (mongoCommandName d) in
    (key ∈ MONGO_READ /\ (key = "aggregate" -> forall stage, stage ∈ as_array (get "pipeline" d) -> writes_out stage = false)) \/
    (key = "profile" /\ get "profile" d = Some (VNum "-1")) \/
    (key = "mapreduce" /\ exists out, get "out" d = Some out /\ has_key "inline" out = true).

Lemma redis_read_exact argv : redisReadAllowed argv = true <-> redis_reads argv.
Proof.
  unfold redisReadAllowed, read_allowed, redis_reads, classifyRedis.
  fold (redis_cmd argv) (redis_sub argv). set (cmd := redis_cmd argv). set (sub := redis_sub argv).
  destruct (mem_spec cmd REDIS_READ) as [Hr|Hr].
  - destruct (redis_read_table cmd Hr) as (-> & -> & Hs). rewrite Hs.
    pose proof (not_read_iff cmd sub) as Hn. apply mem_false in Hs.
    assert (Hiff : (cmd ∈ REDIS_READ /\ (cmd, sub) ∉ REDIS_NOT_READ \/
       cmd ∈ ["SORT"; "SORT_RO"] /\ forall a, a ∈ argv -> toUpperCase a <> "STORE") <-> (cmd, sub) ∉ REDIS_NOT_READ) by tauto.
    rewrite Hiff, <- Hn.
    destruct (String.eqb cmd "SLOWLOG" && _); [by split|].
    destruct (String.eqb cmd "LATENCY" && _); [by split|].
    destruct (String.eqb cmd "MEMORY" && _); [by split|]. destruct (String.eqb cmd "KEYS"); by split.
  - destruct (mem_spec cmd ["SORT"; "SORT_RO"]) as [Hs|Hs].
    + assert (E : forall a, a ∈ ["SORT"; "SORT_RO"] -> String.eqb a "" = false /\ get a REDIS_BLOCKED = None /\
        String.eqb a "SLOWLOG" = false /\ String.eqb a "LATENCY" = false /\ String.eqb a "MEMORY" = false).
      { intros a Ha. repeat (apply elem_of_cons in Ha as [->|Ha]; [done|]). by apply not_elem_of_nil in Ha. }
      destruct (E cmd Hs) as (-> & -> & -> & -> & ->). simpl.
      destruct (existsb _ _) eqn:Ex; split; try done.
      * intros [[? _]|[_ H]]; [done|]. apply existsb_exists in Ex as (a & Ha & He%String.eqb_eq).
        exfalso. apply (H a); [by apply list_elem_of_In|done].
      * intros _. right. split; [done|]. intros a Ha He. rewrite <- not_true_iff_false in Ex. apply Ex.
        apply existsb_exists. exists a. split; [by apply list_elem_of_In|]. by apply String.eqb_eq.
    + split; [|tauto]. destruct (String.eqb cmd ""); [done|]. destruct (get cmd REDIS_BLOCKED); [done|].
      destruct (String.eqb cmd "SLOWLOG" && _); [done|]. destruct (String.eqb cmd "LATENCY" && _); [done|].
      destruct (String.eqb cmd "MEMORY" && _); [done|]. destruct (String.eqb_spec cmd "KEYS") as [Ek|]; [exfalso|].
      { apply Hr. rewrite Ek. by apply mem_In. }
      destruct (mem cmd REDIS_DESTRUCTIVE); [done|]. by destruct (looks_like_command cmd).
Qed.

Lemma strict_eq_num v x : strict_eq v (VNum x) = true <-> v = Some (VNum x).
Proof.
  destruct v as [[| |y| | |]|]; simpl; try (split; [done|intros [=]]).
  rewrite String.eqb_eq. split; [by intros ->|by intros [= ->]].
Qed.

(** Nor do the tables of MongoDB. *)
Lemma mongo_tables : forallb (fun key =>
  negb (String.eqb key "") && negb (mem key ["getmore"; "killcursors"]) && negb (mem key MONGO_ADMIN))
  ("profile" :: "mapreduce" :: MONGO_READ) = true.
Proof. vm_compute. reflexivity. Qed.

Lemma mongo_read_table name : toLowerCase name ∈ "profile" :: "mapreduce" :: MONGO_READ ->
  String.eqb name "" = false /\ mem (toLowerCase name) ["getmore"; "killcursors"] = false /\
  mem (toLowerCase name) MONGO_ADMIN = false.
Proof.
  intros H%list_elem_of_In. pose proof mongo_tables as Ht. rewrite forallb_forall in Ht.
  specialize (Ht _ H). b2p. split_and!; [|done..]. apply String.eqb_neq. by intros ->.
Qed.

Lemma mongo_read_exact doc : mongoReadAllowed doc = true <-> mongo_reads doc.
Proof.
  unfold mongoReadAllowed, read_allowed, classify_mongo, mongo_reads.
  destruct doc as [| | | | |d]; try (split; [by destruct (depth_of _)|by intros (? & ? & _)]).
  destruct (depth_of (VObj d)) as [|n] eqn:En; [done|]. cbn [classifyMongo].
  set (name := mongoCommandName d). cbv zeta. set (key := toLowerCase name).
  assert (Hobj : forall P : list (string * value) -> Prop, (exists d', VObj d = VObj d' /\ P d') <-> P d).
  { intros P. split; [by intros (? & [= <-] & ?)|by exists d]. }
  rewrite Hobj. fold name key.
  destruct (decide (key ∈ "profile" :: "mapreduce" :: MONGO_READ)) as [Hin|Hout].
  - destruct (mongo_read_table name Hin) as (-> & H2 & H3). fold key in H2, H3. rewrite H2, H3.
    destruct (mem_spec key MONGO_READ) as [Hr|Hr].
    + assert (key <> "profile" /\ key <> "mapreduce") as [Hp Hm].
      { split; intros E; rewrite E in Hr; by apply mem_In in Hr. }
      destruct (String.eqb_spec key "aggregate") as [Ea|Ea].
      * simpl. destruct (existsb _ _) eqn:Ex.
        -- split; [done|]. intros [[_ H]|[[? _]|[? _]]]; [|done|done]. exfalso.
           apply existsb_exists in Ex as (st & Hst%list_elem_of_In & Hw). by rewrite (H Ea st Hst) in Hw.
        -- rewrite Ea. simpl. split; [intros _|done]. left. split; [by rewrite <- Ea|]. intros _ st Hst.
           apply not_true_iff_false. intros Hw. rewrite <- not_true_iff_false in Ex. apply Ex.
           apply existsb_exists. exists st. split; [by apply list_elem_of_In|done].
      * simpl. destruct (String.eqb key "explain"); (split; [by left|done]).
    + assert (key = "profile" \/ key = "mapreduce") as [E|E] by (rewrite !elem_of_cons in Hin; tauto); rewrite E.
      * simpl. rewrite E in Hr. pose proof (strict_eq_num (get "profile" d) "-1") as Hs.
        destruct (strict_eq _ _); simpl; split; try done.
        -- intros _. right; left. split; [done|by apply Hs].
        -- intros [[? _]|[[_ H]|[? _]]]; [done|by apply Hs|done].
      * simpl. rewrite E in Hr. destruct (get "out" d) as [out|] eqn:Eg.
        -- destruct (has_key "inline" out) eqn:Ei; simpl.
           ++ split; [|done]. intros _. right; right. split; [done|]. by exists out.
           ++ split; [done|]. intros [[? _]|[[? _]|[_ (o & Ho & Hi)]]]; [done..|]. simplify_eq. by rewrite Ei in Hi.
        -- simpl. split; [done|]. intros [[? _]|[[? _]|[_ (o & Ho & _)]]]; done.
  - split.
    + destruct (String.eqb name ""); [done|]. destruct (mem key ["getmore"; "killcursors"]); [done|].
      destruct (mem key MONGO_ADMIN); [by destruct (_ || _)|].
      destruct (mem_spec key MONGO_READ) as [Hr|Hr]; [exfalso; apply Hout; by do 2 right|].
      destruct (String.eqb_spec key "profile") as [E|]; [exfalso; apply Hout; rewrite E; left|].
      destruct (String.eqb_spec key "mapreduce") as [E|]; [exfalso; apply Hout; rewrite E; right; left|].
      destruct (mem key MONGO_DDL); [done|]. destruct (mem key MONGO_WRITE); [|done].
      unfold mongo_write. by repeat case_match; simplify_eq.
    + intros [[H _]|[[H _]|[H _]]]; exfalso; apply Hout; [by do 2 right|rewrite H; left|rewrite H; right; left].
Qed.

(** The read walls of the document and key-value studios, exactly. A Redis
    command may run with read access exactly when it is in the table of reads
    and not one of its four maintenance subcommands, or sorts without storing; a
    MongoDB command exactly when it is in the table of reads and no stage of an
    aggregation writes a collection, or reads the profiler level, or is an inline
    map-reduce. The classifier ends on every document: its depth is enough. *)
Theorem nosql_read_walls :
  (forall argv, redisReadAllowed argv = true <-> redis_reads argv) /\
  (forall doc, mongoReadAllowed doc = true <-> mongo_reads doc) /\
  (forall fuel doc, (depth_of doc <= fuel)%nat -> classifyMongo fuel (Some doc) = classify_mongo doc).
Proof. split_and!; [apply redis_read_exact|apply mongo_read_exact|apply classifyMongo_fuel]. Qed.

Example redis_flush : redisReadAllowed ["flushall"] = false.
Proof. reflexivity. Qed.

Example mongo_out_stage : mongoReadAllowed
  (VObj [("aggregate", VStr "c"); ("pipeline", VArr [VObj [("$match", VObj [])]; VObj [("$out", VStr "d")]])]) = false.
Proof. reflexivity. Qed.
