(* ===== verification/Interpolate.v ===== *)
(** Compose variable interpolation (packages/core/src/compose/interpolate.ts).

    [interpolateString] takes fuel, one unit per character and nesting level:
    [None] is running out of it, which the length of the text excludes.  The
    names passed to [onUnset] are returned in the order of the calls. *)

From S2P Require Import Prelude Json.

(** [ComposeVariables]: the own properties that are not [undefined]. *)
Definition ComposeVariables : Type := string -> option string.

(** The text and the unset names, or the message of the error thrown. *)
Definition Run (A : Type) : Type := option (res (A * list string)).

Definition ret {A} (a : A) : Run A := Some (Ok (a, [])).
Definition fail {A} (msg : string) : Run A := Some (Err msg).
Definition tell {A} (names : list string) (a : A) : Run A := Some (Ok (a, names)).

Definition bind {A B} (m : Run A) (f : A -> Run B) : Run B :=
  match m with
  | None => None
  | Some (Err e) => Some (Err e)
  | Some (Ok (a, names)) =>
      match f a with
      | Some (Ok (b, names')) => Some (Ok (b, names ++ names'))
      | r => r
      end
  end.

Notation "x <- m ; k" := (bind m (fun x => k)) (at level 100, m at next level, right associativity) : res_scope.

(** [new ComposeInterpolationError(message, path)] *)
Definition error_at (path message : string) : string :=
  if String.eqb path "" then message else path +:+ ": " +:+ message.

Definition NAME_START (c : ascii) : bool := is_alpha c || Ascii.eqb c "_".
Definition NAME_CHAR (c : ascii) : bool := is_alpha c || is_digit c || Ascii.eqb c "_".

Definition dollar : ascii := "$".
Definition lbrace : ascii := "{".
Definition rbrace : ascii := "}".

Definition bad_format (whole what : string) : string :=
  "invalid interpolation format for " +:+ quoted whole +:+ what.

(** [matchingBrace], [d] braces deep: the text up to the closing brace and the
    text after it. *)
Fixpoint matchingBrace (d : nat) (s : string) : option (string * string) :=
  match s with
  | EmptyString => None
  | String c s1 =>
      let go (d' : nat) (s' : string) := match matchingBrace d' s' with
                        | Some (body, rest) => Some (String c body, rest) | None => None end in
      if Ascii.eqb c dollar then
        match s1 with
        | String c2 s2 =>
            if Ascii.eqb c2 dollar then
              match matchingBrace d s2 with
              | Some (body, rest) => Some (String c (String c2 body), rest) | None => None end
            else go d s1
        | EmptyString => go d s1
        end
      else if Ascii.eqb c lbrace then go (S d) s1
      else if Ascii.eqb c rbrace then
        match d with
        | S (S d') => go (S d') s1
        | _ => Some ("", s1)
        end
      else go d s1
  end.

Definition lookup_var (vars : ComposeVariables) (name : string) : Run string :=
  match vars name with Some v => ret v | None => tell [name] "" end.

(** The operators: a default, a required value, an alternative; each with or
    without the colon that treats an empty value as unset. *)
Inductive Op := Default | Required | Alternative.

Definition op_of (c : ascii) : option Op :=
  if Ascii.eqb c "-" then Some Default
  else if Ascii.eqb c "?" then Some Required
  else if Ascii.eqb c "+" then Some Alternative else None.

(** The pattern of [braced]: a name, then nothing or an operator and its text. *)
Definition parse_braced (body : string) : option (string * option (bool * Op * string)) :=
  if next_is NAME_START body then
    let name := span NAME_CHAR body in
    match sdrop (String.length name) body with
    | EmptyString => Some (name, None)
    | String c r =>
        if Ascii.eqb c ":" then
          match r with
          | String o rest => match op_of o with Some k => Some (name, Some (true, k, rest)) | None => None end
          | EmptyString => None
          end
        else match op_of c with Some k => Some (name, Some (false, k, r)) | None => None end
    end
  else None.

(** The value an operator sees: with the colon, an empty one is none. *)
Definition visible (colon : bool) (v : option string) : option string :=
  match v with Some s => if colon && String.eqb s "" then None else Some s | None => None end.

Definition or_not_set (s : string) : string := if String.eqb s "" then "not set" else s.

(** [braced], given [nested]. *)
Definition braced (vars : ComposeVariables) (path whole body : string) (nested : string -> Run string) : Run string :=
  match parse_braced body with
  | None => fail (error_at path (bad_format whole (": " +:+ quoted ("${" +:+ body +:+ "}"))))
  | Some (name, None) => lookup_var vars name
  | Some (name, Some (colon, op, rest)) =>
      match op, visible colon (vars name) with
      | Default, Some v => ret v
      | Default, None => nested rest
      | Required, Some v => ret v
      | Required, None =>
          msg <- nested rest;
          fail (error_at path ("required variable " +:+ name +:+ " is missing a value: " +:+ or_not_set msg))
      | Alternative, Some _ => nested rest
      | Alternative, None => ret ""
      end
  end.

Fixpoint interp (fuel : nat) (vars : ComposeVariables) (path whole s : string) : Run string :=
  match fuel with
  | O => None
  | S fuel' =>
      match s with
      | EmptyString => ret ""
      | String ch r =>
          if negb (Ascii.eqb ch dollar) then
            out <- interp fuel' vars path whole r; ret (String ch out)
          else
            let bad := fail (error_at path (bad_format whole (": " +:+ quoted "$" +:+
              " must be followed by a variable name, " +:+ quoted "{" +:+ ", or " +:+ quoted "$" +:+
              " (use " +:+ quoted "$$" +:+ " for a literal " +:+ quoted "$" +:+ ")"))) in
            match r with
            | EmptyString => bad
            | String next r' =>
                if Ascii.eqb next dollar then
                  out <- interp fuel' vars path whole r'; ret (String dollar out)
                else if NAME_START next then
                  let name := span NAME_CHAR r in
                  v <- lookup_var vars name;
                  out <- interp fuel' vars path whole (sdrop (String.length name) r); ret (v +:+ out)
                else if Ascii.eqb next lbrace then
                  match matchingBrace 1 r' with
                  | None => fail (error_at path (bad_format whole (": unclosed " +:+ dq +:+ "${" +:+ dq)))
                  | Some (body, rest) =>
                      v <- braced vars path whole body (fun x => interp fuel' vars path x x);
                      out <- interp fuel' vars path whole rest; ret (v +:+ out)
                  end
                else bad
            end
      end
  end.

Definition interpolateString (input : string) (vars : ComposeVariables) (path : string) : Run string :=
  interp (S (String.length input)) vars path input input.

(** * Documents *)

Definition dec (n : nat) : string := pretty (N.of_nat n).

(** [interpolateCompose]'s walk: the new document and, for each unset name, the
    path of the value, in the order of the reports. *)
Fixpoint walk (vars : ComposeVariables) (v : value) (path : string) : option (res (value * list (string * string))) :=
  match v with
  | VStr s =>
      match interpolateString s vars path with
      | None => None
      | Some (Err e) => Some (Err e)
      | Some (Ok (s', names)) => Some (Ok (VStr s', map (fun n => (n, path)) names))
      end
  | VArr l =>
      match (fix go (i : nat) (l : list value) : option (res (list value * list (string * string))) :=
        match l with
        | [] => Some (Ok ([], []))
        | x :: l' =>
            match walk vars x (path +:+ "[" +:+ dec i +:+ "]") with
            | None => None
            | Some (Err e) => Some (Err e)
            | Some (Ok (y, u)) =>
                match go (S i) l' with
                | Some (Ok (ys, us)) => Some (Ok (y :: ys, u ++ us))
                | r => r
                end
            end
        end) 0%nat l with
      | None => None
      | Some (Err e) => Some (Err e)
      | Some (Ok (l', us)) => Some (Ok (VArr l', us))
      end
  | VObj m =>
      match (fix go (m : list (string * value)) : option (res (list (string * value) * list (string * string))) :=
        match m with
        | [] => Some (Ok ([], []))
        | (k, x) :: m' =>
            match walk vars x (if String.eqb path "" then k else path +:+ "." +:+ k) with
            | None => None
            | Some (Err e) => Some (Err e)
            | Some (Ok (y, u)) =>
                match go m' with
                | Some (Ok (ys, us)) => Some (Ok ((k, y) :: ys, u ++ us))
                | r => r
                end
            end
        end) m with
      | None => None
      | Some (Err e) => Some (Err e)
      | Some (Ok (m', us)) => Some (Ok (VObj m', us))
      end
  | _ => Some (Ok (v, []))
  end.

Record TranslationWarning := { tw_level : string; tw_path : string; tw_code : string; tw_message : string }.

(** The [unset] map: the first path of each name, in order. *)
Fixpoint first_paths (seen : list string) (l : list (string * string)) : list (string * string) :=
  match l with
  | [] => []
  | (n, p) :: l' => if mem n seen then first_paths seen l' else (n, p) :: first_paths (n :: seen) l'
  end.

Definition interpolateCompose (doc : value) (vars : ComposeVariables) : option (res (value * list TranslationWarning)) :=
  match walk vars doc "" with
  | None => None
  | Some (Err e) => Some (Err e)
  | Some (Ok (out, unset)) =>
      Some (Ok (out, map (fun np =>
        {| tw_level := "warn"; tw_path := snd np; tw_code := "unset-variable";
           tw_message := "The " +:+ quoted (fst np) +:+ " variable is not set. Defaulting to a blank string." |})
        (first_paths [] unset)))
  end.

(** [s.split('$').join('$$')] *)
Fixpoint escape_string (s : string) : string :=
  match s with
  | EmptyString => EmptyString
  | String c s' => if Ascii.eqb c dollar then String c (String c (escape_string s')) else String c (escape_string s')
  end.

Fixpoint escapeInterpolation (v : value) : value :=
  match v with
  | VStr s => VStr (escape_string s)
  | VArr l => VArr ((fix go (l : list value) := match l with [] => [] | x :: l' => escapeInterpolation x :: go l' end) l)
  | VObj m => VObj ((fix go (m : list (string * value)) :=
      match m with [] => [] | (k, x) :: m' => (k, escapeInterpolation x) :: go m' end) m)
  | _ => v
  end.

(** * Termination *)

Lemma matchingBrace_length d s body rest : matchingBrace d s = Some (body, rest) ->
  (String.length body + String.length rest < String.length s)%nat.
Proof.
  remember (String.length s) as n eqn:Hn. revert d s body rest Hn.
  induction (lt_wf n) as [n _ IH]. intros d s body rest -> H.
  assert (Hgo : forall d' s' body' rest', (String.length s' < String.length s)%nat ->
    matchingBrace d' s' = Some (body', rest') ->
    (String.length body' + String.length rest' < String.length s')%nat)
    by (intros d' s' body' rest' Hl Hm; exact (IH (String.length s') Hl d' s' body' rest' eq_refl Hm)).
  destruct s as [|c s1]; [done|]. cbn [matchingBrace] in H. cbv zeta in H.
  assert (Hstep : forall d', match matchingBrace d' s1 with
      | Some (body, rest) => Some (String c body, rest) | None => None end = Some (body, rest) ->
      (String.length body + String.length rest < S (String.length s1))%nat).
  { intros d' Hd. destruct (matchingBrace d' s1) as [[b r]|] eqn:E; [|done]. injection Hd as <- <-.
    apply Hgo in E; [|simpl; lia]. simpl. lia. }
  simpl String.length. destruct (Ascii.eqb c dollar).
  - destruct s1 as [|c2 s2]; [by apply Hstep in H|].
    destruct (Ascii.eqb c2 dollar); [|by apply Hstep in H].
    destruct (matchingBrace d s2) as [[b r]|] eqn:E; [|done]. injection H as <- <-.
    apply Hgo in E; [|simpl; lia]. simpl. lia.
  - destruct (Ascii.eqb c lbrace); [by apply Hstep in H|].
    destruct (Ascii.eqb c rbrace); [|by apply Hstep in H].
    destruct d as [|[|d]]; [injection H as <- <-; simpl; lia..|by apply Hstep in H].
Qed.

Lemma parse_braced_length body name colon op rest :
  parse_braced body = Some (name, Some (colon, op, rest)) -> (String.length rest < String.length body)%nat.
Proof.
  unfold parse_braced. destruct (next_is NAME_START body); [|done].
  destruct (sdrop (String.length (span NAME_CHAR body)) body) as [|c r] eqn:E; [done|].
  apply (f_equal String.length) in E. rewrite sdrop_length in E. simpl in E.
  destruct (Ascii.eqb c ":").
  - destruct r as [|o r]; [done|]. destruct (op_of o); [|done]. intros [= _ _ _ <-]. simpl in E. lia.
  - destruct (op_of c); [|done]. intros [= _ _ _ <-]. lia.
Qed.

Lemma bind_not_None {A B} (m : Run A) (f : A -> Run B) :
  m <> None -> (forall a, f a <> None) -> bind m f <> None.
Proof.
  intros Hm Hf. unfold bind. destruct m as [[[a names]|e]|]; [|done|done].
  destruct (f a) as [[[b n]|e]|] eqn:E; [done|done|by destruct (Hf a)].
Qed.

Lemma bind_ext {A B} (m : Run A) (f g : A -> Run B) : (forall a, f a = g a) -> bind m f = bind m g.
Proof. intros H. unfold bind. destruct m as [[[a names]|e]|]; [|done|done]. by rewrite H. Qed.

Lemma braced_not_None vars path whole body (nested : string -> Run string) :
  (forall rest, (String.length rest < String.length body)%nat -> nested rest <> None) ->
  braced vars path whole body nested <> None.
Proof.
  intros Hn. unfold braced. destruct (parse_braced body) as [[name [[[colon op] rest]|]]|] eqn:E; [| |done].
  - apply parse_braced_length in E. specialize (Hn rest E).
    destruct op, (visible colon (vars name)); try done. by apply bind_not_None.
  - unfold lookup_var. by destruct (vars name).
Qed.

Lemma interp_enough fuel vars path whole s : (String.length s < fuel)%nat -> interp fuel vars path whole s <> None.
Proof.
  revert whole s. induction fuel as [|fuel IH]; intros whole s Hl; [lia|].
  destruct s as [|ch r]; [done|]. cbn [interp]. cbv zeta. simpl in Hl.
  destruct (negb _); [apply bind_not_None; [apply IH; lia|done]|].
  destruct r as [|next r']; [done|]. simpl in Hl.
  destruct (Ascii.eqb next dollar); [apply bind_not_None; [apply IH; lia|done]|].
  destruct (NAME_START next).
  { apply bind_not_None; [unfold lookup_var; by destruct (vars _)|]. intros v.
    apply bind_not_None; [|done]. apply IH. rewrite sdrop_length. simpl. lia. }
  destruct (Ascii.eqb next lbrace); [|done].
  destruct (matchingBrace 1 r') as [[body rest]|] eqn:E; [|done]. apply matchingBrace_length in E.
  apply bind_not_None.
  - apply braced_not_None. intros x Hx. apply IH. lia.
  - intros v. apply bind_not_None; [|done]. apply IH. lia.
Qed.

(** * Templates

    The texts the grammar of the file's header describes, as trees. *)

Inductive Item :=
  | I_char (c : ascii)
  | I_dollar                                   (* an escaped dollar *)
  | I_var (name : string)                      (* a plain variable *)
  | I_braced (name : string)                   (* a braced variable *)
  | I_op (name : string) (colon : bool) (op : Op) (rest : list Item).

Definition op_char (o : Op) : string := match o with Default => "-" | Required => "?" | Alternative => "+" end.
Definition op_string (colon : bool) (o : Op) : string := (if colon then ":" else "") +:+ op_char o.

Fixpoint render_item (i : Item) : string :=
  match i with
  | I_char c => str1 c
  | I_dollar => "$$"
  | I_var n => "$" +:+ n
  | I_braced n => "${" +:+ n +:+ "}"
  | I_op n colon op rest =>
      "${" +:+ n +:+ op_string colon op +:+
      (fix go (l : list Item) : string :=
        match l with [] => "" | x :: l' => render_item x +:+ go l' end) rest +:+ "}"
  end.

Definition render (l : list Item) : string := foldr (fun i s => render_item i +:+ s) "" l.

(** What a template means. *)
Fixpoint eval_item (vars : ComposeVariables) (path : string) (i : Item) : res (string * list string) :=
  let eval := fix go (l : list Item) : res (string * list string) :=
    match l with
    | [] => Ok ("", [])
    | x :: l' => let! (s, u) := eval_item vars path x in let! (s', u') := go l' in Ok (s +:+ s', u ++ u')
    end in
  match i with
  | I_char c => Ok (str1 c, [])
  | I_dollar => Ok ("$", [])
  | I_var n | I_braced n => match vars n with Some v => Ok (v, []) | None => Ok ("", [n]) end
  | I_op n colon op rest =>
      match op, visible colon (vars n) with
      | Default, Some v => Ok (v, [])
      | Default, None => eval rest
      | Required, Some v => Ok (v, [])
      | Required, None =>
          let! (msg, _) := eval rest in
          Err (error_at path ("required variable " +:+ n +:+ " is missing a value: " +:+ or_not_set msg))
      | Alternative, Some _ => eval rest
      | Alternative, None => Ok ("", [])
      end
  end.

Fixpoint eval_items (vars : ComposeVariables) (path : string) (l : list Item) : res (string * list string) :=
  match l with
  | [] => Ok ("", [])
  | x :: l' => let! (s, u) := eval_item vars path x in let! (s', u') := eval_items vars path l' in Ok (s +:+ s', u ++ u')
  end.

Definition is_name (n : string) : bool := next_is NAME_START n && all_chars NAME_CHAR n.

(** Inside braces, literal text is free of braces. *)
Definition char_ok (nested : bool) (c : ascii) : bool :=
  negb (Ascii.eqb c dollar) && negb (nested && (Ascii.eqb c lbrace || Ascii.eqb c rbrace)).

(** [i], before the text [next], is written as the grammar says. *)
Fixpoint item_ok (nested : bool) (i : Item) (next : string) : bool :=
  match i with
  | I_char c => char_ok nested c
  | I_dollar => true
  | I_var n => is_name n && negb (next_is NAME_CHAR next)
  | I_braced n => is_name n
  | I_op n _ _ rest =>
      is_name n &&
      (fix go (l : list Item) : bool :=
        match l with [] => true | x :: l' => item_ok true x (render l') && go l' end) rest
  end.

Fixpoint items_ok (nested : bool) (l : list Item) : bool :=
  match l with [] => true | x :: l' => item_ok nested x (render l') && items_ok nested l' end.

(** ** The nested fixpoints are the plain ones *)

Lemma render_op n colon op rest :
  render_item (I_op n colon op rest) = "${" +:+ n +:+ op_string colon op +:+ render rest +:+ "}".
Proof. reflexivity. Qed.

Lemma item_ok_op nested n colon op rest next :
  item_ok nested (I_op n colon op rest) next = is_name n && items_ok true rest.
Proof. cbn [item_ok]. f_equal. induction rest as [|x l IH]; [done|]. cbn [items_ok]. by rewrite <- IH. Qed.

Lemma eval_op vars path n colon op rest :
  eval_item vars path (I_op n colon op rest) =
  match op, visible colon (vars n) with
  | Default, Some v => Ok (v, [])
  | Default, None => eval_items vars path rest
  | Required, Some v => Ok (v, [])
  | Required, None =>
      let! (msg, _) := eval_items vars path rest in
      Err (error_at path ("required variable " +:+ n +:+ " is missing a value: " +:+ or_not_set msg))
  | Alternative, Some _ => eval_items vars path rest
  | Alternative, None => Ok ("", [])
  end.
Proof.
  cbn [eval_item].
  assert (E : forall l, (fix go (l : list Item) : res (string * list string) :=
    match l with
    | [] => Ok ("", [])
    | x :: l' => let! (s, u) := eval_item vars path x in let! (s', u') := go l' in Ok (s +:+ s', u ++ u')
    end) l = eval_items vars path l)
    by (induction l as [|x l IH]; [done|]; cbn [eval_items]; by rewrite <- IH).
  by rewrite E.
Qed.

(** ** Braces *)

Definition prefix (p : string) (o : option (string * string)) : option (string * string) :=
  match o with Some (b, r) => Some (p +:+ b, r) | None => None end.

Lemma prefix_app p q o : prefix p (prefix q o) = prefix (p +:+ q) o.
Proof. destruct o as [[b r]|]; simpl; [|done]. by rewrite string_app_assoc. Qed.

Lemma prefix_nil o : prefix "" o = o.
Proof. by destruct o as [[b r]|]. Qed.

(** Text without dollars and braces is passed over. *)
Lemma brace_plain d p s : all_chars (char_ok true) p = true ->
  matchingBrace d (p +:+ s) = prefix p (matchingBrace d s).
Proof.
  induction p as [|c p IH]; intros H; [by rewrite prefix_nil|].
  cbn [all_chars] in H. apply andb_true_iff in H as [Hc Hp]. unfold char_ok in Hc.
  cbn [String.append matchingBrace]. cbv zeta.
  destruct (Ascii.eqb c dollar), (Ascii.eqb c lbrace), (Ascii.eqb c rbrace); try discriminate Hc.
  rewrite IH by done. by destruct (matchingBrace d s) as [[b r]|].
Qed.

Lemma name_plain n : is_name n = true -> all_chars (char_ok true) n = true.
Proof.
  unfold is_name. intros [_ H]%andb_true_iff. revert H. apply all_chars_impl.
  intros c Hc. destruct c as [[] [] [] [] [] [] [] []]; try reflexivity; discriminate Hc.
Qed.

Lemma op_plain colon op : all_chars (char_ok true) (op_string colon op) = true.
Proof. by destruct colon, op. Qed.

Lemma brace_dollar d c s : Ascii.eqb c dollar = false ->
  matchingBrace d (String dollar (String c s)) = prefix "$" (matchingBrace d (String c s)).
Proof. intros H. cbn [matchingBrace]. cbv zeta. rewrite Ascii.eqb_refl, H. done. Qed.

Lemma brace_open d s : matchingBrace d (String lbrace s) = prefix "{" (matchingBrace (S d) s).
Proof. reflexivity. Qed.

Lemma brace_close d s : matchingBrace (S (S d)) (String rbrace s) = prefix "}" (matchingBrace (S d) s).
Proof. reflexivity. Qed.

Lemma name_first n : is_name n = true -> exists c n', n = String c n' /\ NAME_START c = true /\ Ascii.eqb c dollar = false.
Proof.
  unfold is_name. intros [H _]%andb_true_iff. destruct n as [|c n']; [done|]. exists c, n'. split_and!; [done|done|].
  destruct c as [[] [] [] [] [] [] [] []]; try reflexivity; discriminate H.
Qed.

(** The size of a template, for induction. *)
Fixpoint size (i : Item) : nat :=
  match i with I_op _ _ _ rest => S (list_sum (map size rest)) | _ => 1%nat end.
Definition sizes (l : list Item) : nat := list_sum (map size l).

Lemma size_pos i : (0 < size i)%nat.
Proof. destruct i; simpl; lia. Qed.

Lemma brace_items k : forall l d s, (sizes l <= k)%nat -> items_ok true l = true ->
  matchingBrace (S d) (render l +:+ s) = prefix (render l) (matchingBrace (S d) s).
Proof.
  induction k as [|k IH]; intros l d s Hk Hok.
  { destruct l as [|i l]; [by rewrite prefix_nil|]. unfold sizes in Hk. simpl in Hk. pose proof (size_pos i). lia. }
  destruct l as [|i l]; [by rewrite prefix_nil|].
  cbn [items_ok] in Hok. apply andb_true_iff in Hok as [Hi Hl].
  unfold sizes in Hk. cbn [map list_sum foldr] in Hk. pose proof (size_pos i) as Hpos.
  assert (Htail : matchingBrace (S d) (render l +:+ s) = prefix (render l) (matchingBrace (S d) s))
    by (apply IH; [unfold sizes, list_sum; lia|done]).
  change (render (i :: l)) with (render_item i +:+ render l). rewrite string_app_assoc, <- prefix_app, <- Htail.
  destruct i as [c| |n|n|n colon op rest].
  - apply (brace_plain (S d) (str1 c)). cbn [all_chars str1]. cbn [item_ok] in Hi. by rewrite Hi.
  - cbn [render_item String.append matchingBrace]. cbv zeta.
    change (Ascii.eqb "$" dollar) with true. cbv iota. by destruct (matchingBrace (S d) _) as [[b r]|].
  - cbn [item_ok] in Hi. apply andb_true_iff in Hi as [Hn _].
    destruct (name_first n Hn) as (c & n' & En & _ & Hc). cbn [render_item].
    rewrite En. cbn [String.append]. rewrite brace_dollar by done. rewrite <- En.
    change (String c (n' +:+ (render l +:+ s))) with (String c n' +:+ (render l +:+ s)). rewrite <- En.
    rewrite (brace_plain (S d) n) by (by apply name_plain). by rewrite prefix_app.
  - cbn [item_ok] in Hi. cbn [render_item]. rewrite !string_app_assoc. cbn [String.append].
    rewrite brace_dollar, brace_open by done.
    rewrite (brace_plain (S (S d)) n) by (by apply name_plain). rewrite brace_close, !prefix_app. done.
  - rewrite item_ok_op in Hi. apply andb_true_iff in Hi as [Hn Hr]. rewrite render_op, !string_app_assoc.
    cbn [String.append]. rewrite brace_dollar, brace_open by done.
    rewrite (brace_plain (S (S d)) n) by (by apply name_plain).
    rewrite (brace_plain (S (S d)) (op_string colon op)) by apply op_plain.
    rewrite IH by (first [done | cbn [size] in Hk; unfold sizes, list_sum in *; lia]).
    rewrite brace_close, !prefix_app. by rewrite !string_app_assoc.
Qed.

Lemma brace_body p l s : all_chars (char_ok true) p = true -> items_ok true l = true ->
  matchingBrace 1 (p +:+ (render l +:+ String rbrace s)) = Some (p +:+ render l, s).
Proof.
  intros Hp Hl. rewrite brace_plain by done. rewrite (brace_items (sizes l)) by done.
  rewrite prefix_app. simpl. by rewrite string_app_nil_r.
Qed.

(** ** Meaning *)

Lemma parse_braced_name n : is_name n = true -> parse_braced n = Some (n, None).
Proof.
  unfold is_name, parse_braced. intros [H1 H2]%andb_true_iff. rewrite H1.
  pose proof (span_app NAME_CHAR n "" H2 eq_refl) as Hs. rewrite string_app_nil_r in Hs. rewrite Hs.
  pose proof (sdrop_app n "") as Hd. rewrite string_app_nil_r in Hd. by rewrite Hd.
Qed.

Lemma parse_braced_op n colon op rest : is_name n = true ->
  parse_braced (n +:+ (op_string colon op +:+ rest)) = Some (n, Some (colon, op, rest)).
Proof.
  intros Hname. pose proof Hname as Hn. unfold is_name in Hn. apply andb_true_iff in Hn as [H1 H2].
  unfold parse_braced. destruct (name_first n Hname) as (c & n' & En & Hc & _).
  assert (Hstart : next_is NAME_START (n +:+ (op_string colon op +:+ rest)) = true) by (rewrite En; exact Hc).
  rewrite Hstart. rewrite (span_app NAME_CHAR n) by (first [done | by destruct colon, op]).
  rewrite sdrop_app. by destruct colon, op.
Qed.

(** The result of a template as a run. *)
Definition lift (r : res (string * list string)) : Run string := Some r.

Lemma lift_bind r1 r2 :
  bind (lift r1) (fun v => bind (lift r2) (fun out => ret (v +:+ out))) =
  lift (let! (s, u) := r1 in let! (s', u') := r2 in Ok (s +:+ s', u ++ u')).
Proof.
  destruct r1 as [[v u]|e]; [|done]. destruct r2 as [[v' u']|e]; [|done].
  simpl. by rewrite app_nil_r.
Qed.

Lemma interp_render vars path fuel : forall nested l whole,
  items_ok nested l = true -> (String.length (render l) < fuel)%nat ->
  interp fuel vars path whole (render l) = lift (eval_items vars path l).
Proof.
  induction fuel as [|fuel IH]; intros nested l whole Hok Hlen; [lia|].
  destruct l as [|i l]; [done|].
  cbn [items_ok] in Hok. apply andb_true_iff in Hok as [Hi Hl].
  change (render (i :: l)) with (render_item i +:+ render l) in Hlen |- *.
  rewrite string_length_app in Hlen. cbn [eval_items].
  destruct i as [c| |n|n|n colon op rest].
  - cbn [item_ok] in Hi. unfold char_ok in Hi. apply andb_true_iff in Hi as [Hc _].
    cbn [render_item str1 String.append interp]. cbv zeta. rewrite Hc.
    rewrite (IH nested l) by (first [done | simpl in Hlen; lia]).
    destruct (eval_items vars path l) as [[s' u']|e]; simpl; [by rewrite app_nil_r|done].
  - cbn [render_item String.append interp]. cbv zeta. change (Ascii.eqb "$" dollar) with true.
    cbv iota delta [negb]. rewrite (IH nested l) by (first [done | simpl in Hlen; lia]).
    destruct (eval_items vars path l) as [[s' u']|e]; simpl; [by rewrite app_nil_r|done].
  - cbn [item_ok] in Hi. apply andb_true_iff in Hi as [Hn Hnext]. apply negb_true_iff in Hnext.
    destruct (name_first n Hn) as (c & n' & En & Hc & Hcd).
    cbn [render_item]. rewrite string_app_assoc. cbn [String.append interp]. cbv zeta.
    change (Ascii.eqb "$" dollar) with true. cbv iota delta [negb].
    assert (Hsplit : n +:+ render l = String c (n' +:+ render l)) by (by rewrite En).
    rewrite Hsplit, Hcd, Hc, <- Hsplit.
    unfold is_name in Hn. apply andb_true_iff in Hn as [_ Hn2].
    rewrite (span_app NAME_CHAR n) by done. rewrite sdrop_app.
    rewrite (IH nested l) by (first [done | simpl in Hlen; lia]).
    rewrite <- lift_bind. cbn [eval_item]. unfold lookup_var. by destruct (vars n).
  - cbn [item_ok] in Hi. cbn [render_item]. rewrite !string_app_assoc. cbn [String.append interp]. cbv zeta.
    change (Ascii.eqb "$" dollar) with true. change (Ascii.eqb "{" dollar) with false.
    change (NAME_START "{") with false. change (Ascii.eqb "{" lbrace) with true. cbv iota delta [negb].
    pose proof (brace_body n [] (render l) (name_plain n Hi) eq_refl) as Hb.
    cbn [render foldr String.append] in Hb. rewrite string_app_nil_r in Hb.
    change (String "}" (render l)) with (String rbrace (render l)). rewrite Hb.
    unfold braced. rewrite parse_braced_name by done.
    rewrite (IH nested l) by (first [done | simpl in Hlen; lia]).
    rewrite <- lift_bind. cbn [eval_item]. unfold lookup_var. by destruct (vars n).
  - rewrite item_ok_op in Hi. apply andb_true_iff in Hi as [Hn Hr].
    rewrite render_op, !string_app_assoc. rewrite render_op, !string_length_app in Hlen.
    cbn [String.append interp]. cbv zeta.
    change (Ascii.eqb "$" dollar) with true. change (Ascii.eqb "{" dollar) with false.
    change (NAME_START "{") with false. change (Ascii.eqb "{" lbrace) with true. cbv iota delta [negb].
    assert (Hplain : all_chars (char_ok true) (n +:+ op_string colon op) = true).
    { rewrite all_chars_app, name_plain by done. apply op_plain. }
    pose proof (brace_body (n +:+ op_string colon op) rest (render l) Hplain Hr) as Hb.
    rewrite !string_app_assoc in Hb. change (String "}" (render l)) with (String rbrace (render l)). rewrite Hb.
    unfold braced. rewrite parse_braced_op by done.
    assert (Hrest : interp fuel vars path (render rest) (render rest) = lift (eval_items vars path rest))
      by (apply (IH true); [done|simpl in Hlen; lia]).
    rewrite Hrest, (IH nested l) by (first [done | simpl in Hlen; lia]).
    rewrite <- lift_bind, eval_op. destruct op, (visible colon (vars n)); try done.
    f_equal. by destruct (eval_items vars path rest) as [[m u]|e].
Qed.

(** C27: interpolation computes the meaning of every text of the grammar, in
    any nesting of defaults, requirements and alternatives; on every text, of
    the grammar or not, it ends with a result or an error. *)
Theorem interpolateString_correct vars path :
  (forall l, items_ok false l = true ->
     interpolateString (render l) vars path = Some (eval_items vars path l)) /\
  (forall input, interpolateString input vars path <> None).
Proof.
  split.
  - intros l Hl. unfold interpolateString. apply (interp_render vars path _ false); [done|lia].
  - intros input. apply interp_enough. lia.
Qed.

Example interpolate_nested :
  interpolateString "http://${HOST:-${NAME?no name}.local}:$PORT/$$x"
    (fun n => if String.eqb n "NAME" then Some "db" else None) "services.web.environment" =
  Some (Ok ("http://db.local:/$x", ["PORT"])).
Proof. vm_compute. reflexivity. Qed.

(** ** Escaping *)

Fixpoint template_of (s : string) : list Item :=
  match s with
  | EmptyString => []
  | String c s' => (if Ascii.eqb c dollar then I_dollar else I_char c) :: template_of s'
  end.

Lemma template_of_facts vars path s :
  render (template_of s) = escape_string s /\ items_ok false (template_of s) = true /\
  eval_items vars path (template_of s) = Ok (s, []).
Proof.
  induction s as [|c s (IH1 & IH2 & IH3)]; [done|]. cbn [template_of escape_string].
  change (render (?x :: ?l)) with (render_item x +:+ render l).
  cbn [items_ok eval_items]. rewrite IH2, IH3.
  destruct (Ascii.eqb_spec c dollar) as [->|Hc]; cbn [render_item item_ok eval_item].
  - split_and!; [cbn; by rewrite <- IH1|done|done].
  - split_and!; [cbn; by rewrite <- IH1| |done].
    unfold char_ok. apply Ascii.eqb_neq in Hc. by rewrite Hc.
Qed.

Lemma interpolate_escape s vars path : interpolateString (escape_string s) vars path = ret s.
Proof.
  destruct (template_of_facts vars path s) as (H1 & H2 & H3). rewrite <- H1.
  unfold interpolateString. rewrite (interp_render vars path _ false) by (done || lia). by rewrite H3.
Qed.

Lemma walk_escape vars v : forall path, walk vars (escapeInterpolation v) path = Some (Ok (v, [])).
Proof.
  induction v as [|b|s|s|l IH|m IH] using doc_ind; intros path; try done.
  - cbn [escapeInterpolation walk]. by rewrite interpolate_escape.
  - cbn [escapeInterpolation walk]. generalize 0%nat.
    assert (H : forall i, (fix go (i : nat) (l : list value) : option (res (list value * list (string * string))) :=
        match l with
        | [] => Some (Ok ([], []))
        | x :: l' =>
            match walk vars x (path +:+ "[" +:+ dec i +:+ "]") with
            | None => None
            | Some (Err e) => Some (Err e)
            | Some (Ok (y, u)) =>
                match go (S i) l' with
                | Some (Ok (ys, us)) => Some (Ok (y :: ys, u ++ us))
                | r => r
                end
            end
        end) i ((fix go (l : list value) := match l with [] => [] | x :: l' => escapeInterpolation x :: go l' end) l)
        = Some (Ok (l, []))).
    { induction IH as [|x l Hx Hl IHl]; intros i; [done|]. by rewrite Hx, IHl. }
    intros i. by rewrite H.
  - cbn [escapeInterpolation walk].
    assert (H : (fix go (m : list (string * value)) : option (res (list (string * value) * list (string * string))) :=
        match m with
        | [] => Some (Ok ([], []))
        | (k, x) :: m' =>
            match walk vars x (if String.eqb path "" then k else path +:+ "." +:+ k) with
            | None => None
            | Some (Err e) => Some (Err e)
            | Some (Ok (y, u)) =>
                match go m' with
                | Some (Ok (ys, us)) => Some (Ok ((k, y) :: ys, u ++ us))
                | r => r
                end
            end
        end) ((fix go (m : list (string * value)) :=
          match m with [] => [] | (k, x) :: m' => (k, escapeInterpolation x) :: go m' end) m) = Some (Ok (m, []))).
    { induction IH as [|[k x] m Hx Hm IHm]; [done|]. cbn [snd] in Hx. by rewrite Hx, IHm. }
    by rewrite H.
Qed.

(** Round trip.  Interpolating an escaped document gives the document
    back, whatever the variables, with no error and no warning: what swarmy
    generates reaches the containers as written. *)
Theorem interpolate_escape_roundtrip doc vars :
  interpolateCompose (escapeInterpolation doc) vars = Some (Ok (doc, [])).
Proof. unfold interpolateCompose. by rewrite walk_escape. Qed.
