(* ===== verification/Calendar.v ===== *)
(** The proleptic Gregorian calendar behind [Date.getUTC*], on days counted
    from 1970-01-01.  [civil] is the date of a day, [day_of] the day of a date.
    [civil_next] and [civil_epoch] characterise [civil]: the epoch is the first
    of January 1970 and each day is the calendar's next. *)

From S2P Require Import Prelude.

Definition ERA : Z := 146097. (* days in 400 years *)

(** Years start in March, so that the leap day is the last of its year: [start y]
    is the first day of year [y], counted from 0000-03-01. *)
Definition start (y : Z) : Z := 365 * y + y / 4 - y / 100 + y / 400.

(** The year of the era of a day of the era. *)
Definition year_of_era (doe : Z) : Z := (doe - doe / 1460 + doe / 36524 - doe / 146096) / 365.

(** The month counted from March of a day of the year, and its first day. *)
Definition month_of (doy : Z) : Z := (5 * doy + 2) / 153.
Definition month_start (mp : Z) : Z := (153 * mp + 2) / 5.

Definition to_month (mp : Z) : Z := if mp <? 10 then mp + 3 else mp - 9.
Definition from_month (m : Z) : Z := if 2 <? m then m - 3 else m + 9.

(** Year, month and day of the month, of a day of a year. *)
Definition date_at (y doy : Z) : Z * Z * Z :=
  let mp := month_of doy in
  let m := to_month mp in
  (y + (if m <=? 2 then 1 else 0), m, doy - month_start mp + 1).

Definition civil (day : Z) : Z * Z * Z :=
  let z := day + 719468 in
  let era := z / ERA in
  let doe := z mod ERA in
  let yoe := year_of_era doe in
  date_at (yoe + era * 400) (doe - start yoe).

Definition day_of (y m d : Z) : Z :=
  start (if m <=? 2 then y - 1 else y) + month_start (from_month m) + d - 1 - 719468.

(** Sunday is 0; the epoch was a Thursday. *)
Definition weekday (day : Z) : Z := (day + 4) mod 7.

Definition is_leap (y : Z) : bool := (y mod 4 =? 0) && (negb (y mod 100 =? 0) || (y mod 400 =? 0)).

Definition month_length (y m : Z) : Z :=
  if m =? 2 then if is_leap y then 29 else 28
  else if (m =? 4) || (m =? 6) || (m =? 9) || (m =? 11) then 30 else 31.

Definition next_date (ymd : Z * Z * Z) : Z * Z * Z :=
  let '(y, m, d) := ymd in
  if d <? month_length y m then (y, m, d + 1)
  else if m <? 12 then (y, m + 1, 1) else (y + 1, 1, 1).

(** * Years *)

Lemma div_succ y n : 0 < n -> (y + 1) / n - y / n = if (y + 1) mod n =? 0 then 1 else 0.
Proof.
  intros Hn. destruct (Z.eqb_spec ((y + 1) mod n) 0) as [E|E].
  - assert (y / n = (y + 1) / n - 1); [|lia].
    symmetry. apply (Z.div_unique_pos y n _ (n - 1)); [lia|].
    pose proof (Z.div_mod (y + 1) n). lia.
  - assert (y / n = (y + 1) / n); [|lia].
    symmetry. apply (Z.div_unique_pos y n _ ((y + 1) mod n - 1)).
    + pose proof (Z.mod_pos_bound (y + 1) n). lia.
    + pose proof (Z.div_mod (y + 1) n). lia.
Qed.

Lemma start_succ y : start (y + 1) - start y = if is_leap (y + 1) then 366 else 365.
Proof.
  pose proof (div_succ y 4 ltac:(lia)). pose proof (div_succ y 100 ltac:(lia)). pose proof (div_succ y 400 ltac:(lia)).
  assert ((y + 1) mod 400 = 0 -> (y + 1) mod 100 = 0) by
    (rewrite !Z.mod_divide by done; intros [k ->]; exists (4 * k); lia).
  assert ((y + 1) mod 100 = 0 -> (y + 1) mod 4 = 0) by
    (rewrite !Z.mod_divide by done; intros [k ->]; exists (25 * k); lia).
  unfold start, is_leap.
  destruct (Z.eqb_spec ((y + 1) mod 4) 0), (Z.eqb_spec ((y + 1) mod 100) 0), (Z.eqb_spec ((y + 1) mod 400) 0); simpl; lia.
Qed.

Lemma start_era e r : start (e * 400 + r) = e * ERA + start r.
Proof.
  unfold start.
  replace (e * 400 + r) with (r + (100 * e) * 4) at 2 by lia.
  replace (e * 400 + r) with (r + (4 * e) * 100) at 2 by lia.
  replace (e * 400 + r) with (r + e * 400) by lia.
  rewrite !Z.div_add by done. unfold ERA. lia.
Qed.

(** A strictly increasing function splits the integers. *)
Lemma split_by (f : Z -> Z) x : (forall y, f y < f (y + 1)) -> exists y, f y <= x < f (y + 1).
Proof.
  intros Hf.
  assert (Hup : forall n : nat, forall y, x - f y < Z.of_nat n -> f y <= x -> exists y', f y' <= x < f (y' + 1)).
  { induction n as [|n IH]; intros y Hn Hy; [lia|].
    destruct (Z.lt_ge_cases x (f (y + 1))) as [|Hge]; [by exists y|].
    apply (IH (y + 1)); [|done]. specialize (Hf y). lia. }
  assert (Hdown : forall n : nat, forall y, f y - x < Z.of_nat n -> exists y', f y' <= x).
  { induction n as [|n IH]; intros y Hn; [exists y; lia|].
    destruct (Z.le_gt_cases (f y) x) as [|Hgt]; [by exists y|].
    apply (IH (y - 1)). specialize (Hf (y - 1)). rewrite Z.sub_add in Hf. lia. }
  destruct (Hdown (Z.to_nat (f 0 - x + 1)) 0) as [y Hy]; [lia|].
  apply (Hup (Z.to_nat (x - f y + 1)) y); lia.
Qed.

Lemma year_of_day z : exists y doy, z = start y + doy /\ 0 <= doy < start (y + 1) - start y.
Proof.
  destruct (split_by start z) as [y Hy].
  - intros y. pose proof (start_succ y). destruct (is_leap _); lia.
  - exists y, (z - start y). lia.
Qed.

Lemma year_of_era_mono a b : 0 <= a <= b -> b < 146096 -> year_of_era a <= year_of_era b.
Proof.
  intros Ha Hb. unfold year_of_era. apply Z.div_le_mono; [lia|].
  rewrite (Z.div_small a 146096), (Z.div_small b 146096) by lia.
  pose proof (Z.div_le_mono a b 36524). Z.to_euclidean_division_equations. lia.
Qed.

Lemma era_years :
  check_range (fun y => (year_of_era (start y) =? y) && (year_of_era (start (y + 1) - 1) =? y)) 0 399 = true.
Proof. vm_compute. reflexivity. Qed.

Lemma year_of_era_correct yoe doy :
  0 <= yoe < 400 -> 0 <= doy < start (yoe + 1) - start yoe -> year_of_era (start yoe + doy) = yoe.
Proof.
  intros Hy Hd. destruct (Z.eq_dec yoe 399) as [->|Hne].
  - change (start (399 + 1) - start 399) with 366 in Hd.
    destruct (Z.eq_dec doy 365) as [->|]; [done|].
    assert (year_of_era (start 399 + 0) <= year_of_era (start 399 + doy)) by
      (apply year_of_era_mono; change (start 399) with 145731; lia).
    assert (year_of_era (start 399 + doy) <= year_of_era (start 399 + 364)) by
      (apply year_of_era_mono; change (start 399) with 145731; lia).
    change (year_of_era (start 399 + 0)) with 399 in *. change (year_of_era (start 399 + 364)) with 399 in *. lia.
  - pose proof (check_range_spec _ _ _ era_years yoe ltac:(lia)) as H. cbv beta in H. b2p.
    assert (Hs : forall a b, 0 <= a <= b -> start a <= start b).
    { intros a b [Ha Hab]. unfold start.
      pose proof (Z.div_le_mono a b 4). pose proof (Z.div_le_mono a b 400).
      Z.to_euclidean_division_equations. lia. }
    pose proof (Hs 0 yoe). pose proof (Hs (yoe + 1) 399). change (start 0) with 0 in *. change (start 399) with 145731 in *.
    assert (year_of_era (start yoe) <= year_of_era (start yoe + doy)) by (apply year_of_era_mono; lia).
    assert (year_of_era (start yoe + doy) <= year_of_era (start (yoe + 1) - 1)) by (apply year_of_era_mono; lia).
    lia.
Qed.

(** The date of a day given as a day of a year. *)
Lemma civil_at y doy : 0 <= doy < start (y + 1) - start y -> civil (start y + doy - 719468) = date_at y doy.
Proof.
  intros Hd. set (e := y / 400). set (r := y mod 400).
  assert (Hy : y = e * 400 + r) by (pose proof (Z.div_mod y 400); unfold e, r; lia).
  assert (Hr : 0 <= r < 400) by (apply Z.mod_pos_bound; lia). clearbody e r. subst y.
  rewrite <- Z.add_assoc, !start_era in Hd. rewrite start_era. unfold civil.
  replace (e * ERA + start r + doy - 719468 + 719468) with (start r + doy + e * ERA) by lia.
  assert (Hdoe : 0 <= start r + doy < ERA).
  { assert (0 <= start r) by (unfold start; Z.to_euclidean_division_equations; lia).
    assert (start (r + 1) <= ERA) by (unfold start, ERA; Z.to_euclidean_division_equations; lia). lia. }
  rewrite Z.div_add, Z.mod_add, Z.div_small, Z.mod_small by (done || unfold ERA in *; lia).
  rewrite year_of_era_correct by (lia || (split; lia)).
  f_equal; lia.
Qed.

(** * Months *)

(** [next_date] and the length of a month, told whether the February at hand is
    a long one. *)
Definition length_if (leap : bool) (m : Z) : Z :=
  if m =? 2 then if leap then 29 else 28
  else if (m =? 4) || (m =? 6) || (m =? 9) || (m =? 11) then 30 else 31.

Definition next_if (leap : bool) (ymd : Z * Z * Z) : Z * Z * Z :=
  let '(y, m, d) := ymd in
  if d <? length_if leap m then (y, m, d + 1)
  else if m <? 12 then (y, m + 1, 1) else (y + 1, 1, 1).

Definition shift_years (k : Z) (ymd : Z * Z * Z) : Z * Z * Z := let '(y, m, d) := ymd in (y + k, m, d).

Definition date_eqb (a b : Z * Z * Z) : bool :=
  let '(y, m, d) := a in let '(y', m', d') := b in (y =? y') && (m =? m') && (d =? d').

Lemma date_eqb_eq a b : date_eqb a b = true -> a = b.
Proof. destruct a as [[y m] d], b as [[y' m'] d']. simpl. intros H. b2p. repeat f_equal; lia. Qed.

Lemma next_if_shift leap k ymd : next_if leap (shift_years k ymd) = shift_years k (next_if leap ymd).
Proof.
  destruct ymd as [[y m] d]. unfold next_if, shift_years.
  destruct (d <? _); [done|]. destruct (m <? 12); [done|]. do 2 f_equal. lia.
Qed.

Lemma date_at_shift y doy : date_at y doy = shift_years y (date_at 0 doy).
Proof. unfold date_at, shift_years. do 2 f_equal. lia. Qed.

Lemma next_date_at y doy : next_date (date_at y doy) = next_if (is_leap (y + 1)) (date_at y doy).
Proof.
  unfold date_at, next_date, next_if, month_length, length_if.
  destruct (Z.eqb_spec (to_month (month_of doy)) 2) as [->|]; done.
Qed.

Lemma days_next (leap : bool) :
  check_range (fun doy => date_eqb (date_at 0 (doy + 1)) (next_if leap (date_at 0 doy))) 0 (if leap then 365 else 364) = true /\
  next_if leap (date_at 0 (if leap then 365 else 364)) = date_at 1 0.
Proof. destruct leap; split; vm_compute; reflexivity. Qed.

(** The day after a date is the calendar's next date. *)
Lemma civil_next day : civil (day + 1) = next_date (civil day).
Proof.
  destruct (year_of_day (day + 719468)) as (y & doy & E & Hd).
  replace day with (start y + doy - 719468) by lia. rewrite civil_at by done.
  rewrite next_date_at. pose proof (start_succ y) as Hs. destruct (days_next (is_leap (y + 1))) as [Hr He].
  destruct (Z.eq_dec (doy + 1) (start (y + 1) - start y)) as [Hl|Hl].
  - replace (start y + doy - 719468 + 1) with (start (y + 1) + 0 - 719468) by lia.
    rewrite civil_at by (pose proof (start_succ (y + 1)); destruct (is_leap (y + 1 + 1)); lia).
    replace doy with (if is_leap (y + 1) then 365 else 364) by (destruct (is_leap (y + 1)); lia).
    rewrite (date_at_shift y), next_if_shift, He, (date_at_shift (y + 1)).
    unfold date_at, shift_years. simpl. do 2 f_equal. lia.
  - replace (start y + doy - 719468 + 1) with (start y + (doy + 1) - 719468) by lia.
    rewrite civil_at by lia. rewrite !(date_at_shift y), next_if_shift. f_equal. apply date_eqb_eq.
    apply (check_range_spec _ _ _ Hr doy). destruct (is_leap (y + 1)); lia.
Qed.

Lemma civil_epoch : civil 0 = (1970, 1, 1).
Proof. reflexivity. Qed.

Lemma month_days (leap : bool) :
  check_range (fun m => check_range (fun d =>
    let doy := month_start (from_month m) + d - 1 in
    negb (d <=? length_if leap m) ||
    ((0 <=? doy) && (doy <? (if leap then 366 else 365)) &&
     date_eqb (date_at 0 doy) (if m <=? 2 then 1 else 0, m, d))) 1 31) 1 12 = true.
Proof. destruct leap; vm_compute; reflexivity. Qed.

Definition valid_date (y m d : Z) : Prop := 1 <= m <= 12 /\ 1 <= d <= month_length y m.

Lemma length_if_bound leap m : length_if leap m <= 31.
Proof. unfold length_if. repeat case_match; lia. Qed.

(** [day_of] finds the day of every date of the calendar. *)
Lemma civil_day_of y m d : valid_date y m d -> civil (day_of y m d) = (y, m, d).
Proof.
  intros [Hm Hd]. unfold day_of. set (y' := if m <=? 2 then y - 1 else y).
  assert (Hl : month_length y m = length_if (is_leap (y' + 1)) m).
  { unfold month_length, length_if, y'. destruct (Z.eqb_spec m 2) as [->|]; [|done].
    simpl. by rewrite Z.sub_add. }
  rewrite Hl in Hd. pose proof (length_if_bound (is_leap (y' + 1)) m).
  pose proof (check_range_spec _ _ _ (month_days (is_leap (y' + 1))) m ltac:(lia)) as H1.
  pose proof (check_range_spec _ _ _ H1 d ltac:(lia)) as H2. cbv zeta in H2.
  apply orb_true_iff in H2 as [H2|H2]; [b2p; lia|]. b2p.
  match goal with H : date_eqb _ _ = true |- _ => apply date_eqb_eq in H; rename H into E end.
  replace (start y' + month_start (from_month m) + d - 1 - 719468)
    with (start y' + (month_start (from_month m) + d - 1) - 719468) by lia.
  rewrite civil_at by (rewrite start_succ; destruct (is_leap (y' + 1)); lia).
  rewrite date_at_shift, E. unfold shift_years, y'. destruct (m <=? 2); do 2 f_equal; lia.
Qed.
