(* ===== verification/Schedule.v ===== *)
(** Schedules (packages/trpc/src/services/schedule.ts): fixed intervals and
    five-field cron expressions, evaluated in UTC.

    A time is a count of milliseconds since the epoch, as [Date] has it; the
    fields of a date come from Calendar.v.  Sets of numbers are lists without
    duplicates in insertion order.  Numbers are read from digit strings short
    enough not to overflow to [Infinity] (some 300 digits). *)

From S2P Require Import Prelude Comparators Calendar.

(** * Intervals *)

Inductive IntervalUnit := minutes_ | hours_ | days_.

Record ScheduleSpec := { every : Z; unit_ : IntervalUnit }.

Definition UNIT_MS (u : IntervalUnit) : Z :=
  match u with minutes_ => 60000 | hours_ => 3600000 | days_ => 86400000 end.

Definition intervalMs (spec : ScheduleSpec) : res Z :=
  if every spec <=? 0 then Err "schedule interval must be positive" else Ok (every spec * UNIT_MS (unit_ spec)).

Definition nextRun (spec : ScheduleSpec) (anchor from : Z) : res Z :=
  match intervalMs spec with
  | Err e => Err e
  | Ok step =>
      if from <? anchor then Ok anchor
      else let k := (from - anchor) / step + 1 in Ok (anchor + k * step)
  end.

Definition nextIntervalRun (spec : ScheduleSpec) (anchor createdAt : Z) (lastRunAt : option Z) : res Z :=
  nextRun spec anchor (default createdAt lastRunAt).

Definition isDue (nextRunAt : option Z) (now : Z) : bool :=
  match nextRunAt with Some t => t <=? now | None => false end.

(** * Cron expressions *)

Record CronSpec := {
  minutes : list Z;
  hours : list Z;
  daysOfMonth : list Z;
  months : list Z;
  daysOfWeek : list Z;
  domRestricted : bool;
  dowRestricted : bool
}.

(** [for (let v = lo; v <= hi; v += step) out.add(v)] *)
Fixpoint add_steps (fuel : nat) (v hi step : Z) (out : list Z) : list Z :=
  match fuel with
  | O => out
  | S fuel' => if v <=? hi then add_steps fuel' (v + step) hi step (set_add v out) else out
  end.

(** The bounds of one part of a field, told its step text. *)
Definition part_bounds (rangePart : string) (stepPart : option string) (lo hi : Z) (part name : string) : res (Z * Z) :=
  if String.eqb rangePart "*" then Ok (lo, hi)
  else
    match split_at "-" rangePart with
    | a :: b :: _ =>
        if negb (all_digits a) || negb (all_digits b)
        then Err ("invalid cron range " +:+ quoted part +:+ " (" +:+ name +:+ ")")
        else Ok (decimal a, decimal b)
    | _ =>
        if negb (all_digits rangePart) then Err ("invalid cron value " +:+ quoted part +:+ " (" +:+ name +:+ ")")
        else Ok (decimal rangePart, match stepPart with None => decimal rangePart | Some _ => hi end)
    end.

(** One part: its first value, its last and its step. *)
Definition parse_part (part : string) (min max : Z) (name field : string) : res (Z * Z * Z) :=
  if String.eqb part "" then Err ("invalid cron " +:+ name +:+ " field " +:+ quoted field)
  else
    let pieces := split_at "/" part in
    let rangePart := nth 0 pieces "" in
    let stepPart := nth_error pieces 1 in
    let step := match stepPart with None => 1 | Some s => decimal s end in
    if match stepPart with None => false | Some s => negb (all_digits s) || (step <? 1) end
    then Err ("invalid cron step in " +:+ quoted part +:+ " (" +:+ name +:+ ")")
    else
      match part_bounds rangePart stepPart min max part name with
      | Err e => Err e
      | Ok (lo, hi) =>
          if (lo <? min) || (max <? hi) || (hi <? lo)
          then Err ("cron " +:+ name +:+ " value out of range in " +:+ quoted part +:+
                    " (" +:+ pretty min +:+ "-" +:+ pretty max +:+ ")")
          else Ok (lo, hi, step)
      end.

Fixpoint parse_parts (parts : list string) (min max : Z) (name field : string) (out : list Z) : res (list Z) :=
  match parts with
  | [] => Ok out
  | part :: parts' =>
      match parse_part part min max name field with
      | Err e => Err e
      | Ok (lo, hi, step) =>
          parse_parts parts' min max name field (add_steps (S (Z.to_nat (hi - lo))) lo hi step out)
      end
  end.

Definition parseCronField (field : string) (min max : Z) (name : string) : res (list Z) :=
  match parse_parts (split_at "," field) min max name field [] with
  | Err e => Err e
  | Ok [] => Err ("empty cron " +:+ name +:+ " field " +:+ quoted field)
  | Ok out => Ok out
  end.

(** 0 and 7 both mean Sunday. *)
Definition sundays (dow : list Z) : list Z :=
  if decide (7 ∈ dow) then set_add 0 (List.filter (fun v => negb (v =? 7)) dow) else dow.

Definition parseCron (expr : string) : res CronSpec :=
  match split_spaces (trim expr) with
  | [m; h; dom; mon; dow] =>
      match parseCronField dow 0 7 "day-of-week" with
      | Err e => Err e
      | Ok dows =>
      match parseCronField m 0 59 "minute" with
      | Err e => Err e
      | Ok ms =>
      match parseCronField h 0 23 "hour" with
      | Err e => Err e
      | Ok hs =>
      match parseCronField dom 1 31 "day-of-month" with
      | Err e => Err e
      | Ok doms =>
      match parseCronField mon 1 12 "month" with
      | Err e => Err e
      | Ok mons =>
          Ok {| minutes := ms; hours := hs; daysOfMonth := doms; months := mons; daysOfWeek := sundays dows;
                domRestricted := negb (String.eqb dom "*"); dowRestricted := negb (String.eqb dow "*") |}
      end end end end end
  | _ => Err ("cron " +:+ quoted expr +:+ " must have exactly 5 fields (minute hour dom month dow)")
  end.

(** * Evaluation *)

Definition MINUTE_MS : Z := 60000.
Definition CRON_SCAN_LIMIT : Z := 366 * 24 * 60.

Definition utc_minute (ms : Z) : Z := (ms / 60000) mod 60.
Definition utc_hour (ms : Z) : Z := (ms / 3600000) mod 24.
Definition utc_day (ms : Z) : Z := ms / 86400000.

Definition zmem (x : Z) (l : list Z) : bool := existsb (Z.eqb x) l.

Definition date_matches (spec : CronSpec) (day : Z) : bool :=
  let '(_, m, d) := civil day in
  zmem m (months spec) &&
  (let domOk := zmem d (daysOfMonth spec) in
   let dowOk := zmem (weekday day) (daysOfWeek spec) in
   if domRestricted spec && dowRestricted spec then domOk || dowOk
   else if domRestricted spec then domOk
   else if dowRestricted spec then dowOk
   else true).

Definition cronMatches (spec : CronSpec) (at_ : Z) : bool :=
  zmem (utc_minute at_) (minutes spec) && zmem (utc_hour at_) (hours spec) && date_matches spec (utc_day at_).

Definition floorToMinute (d : Z) : Z := d / MINUTE_MS * MINUTE_MS.

Definition cronNext (spec : CronSpec) (from : Z) : option Z :=
  first_point (cronMatches spec) MINUTE_MS (Z.to_nat CRON_SCAN_LIMIT) (floorToMinute from + MINUTE_MS).

Definition cronPrev (spec : CronSpec) (from : Z) : option Z :=
  first_point (cronMatches spec) (- MINUTE_MS) (Z.to_nat CRON_SCAN_LIMIT) (floorToMinute from).

Definition isCronDue (spec : CronSpec) (lastRunAt : option Z) (now : Z) : bool :=
  match cronPrev spec now with
  | None => false
  | Some prev => match lastRunAt with None => true | Some t => t <? prev end
  end.

(** [x], [f x], [f (f x)], ... without [x], at most [n] of them. *)
Fixpoint successors (f : Z -> option Z) (n : nat) (x : Z) : list Z :=
  match n with
  | O => []
  | S n' => match f x with Some y => y :: successors f n' y | None => [] end
  end.

Definition cronNextN (spec : CronSpec) (from : Z) (count : nat) : list Z := successors (cronNext spec) count from.

Definition isJobDue (spec : CronSpec) (lastRunAt : option Z) (createdAt now : Z) : bool :=
  match cronNext spec (default createdAt lastRunAt) with Some next => next <=? now | None => false end.

#[global] Opaque CRON_SCAN_LIMIT.

Example cron_example : parseCron "0,30 9-11 */10 1,6 5-7" =
  Ok {| minutes := [0; 30]; hours := [9; 10; 11]; daysOfMonth := [1; 11; 21; 31]; months := [1; 6];
        daysOfWeek := [5; 6; 0]; domRestricted := true; dowRestricted := true |}.
Proof. vm_compute. reflexivity. Qed.

(** * Sets *)

Lemma zmem_elem x l : zmem x l = true <-> x ∈ l.
Proof.
  unfold zmem. rewrite existsb_exists. setoid_rewrite <- list_elem_of_In. split.
  - intros (y & Hy & E%Z.eqb_eq). by subst.
  - intros H. exists x. by rewrite Z.eqb_refl.
Qed.

Lemma add_steps_elem fuel v hi step out x :
  1 <= step ->
  x ∈ add_steps fuel v hi step out <->
  x ∈ out \/ exists k, 0 <= k < Z.of_nat fuel /\ x = v + k * step /\ x <= hi.
Proof.
  intros Hs. revert v out. induction fuel as [|fuel IH]; intros v out; simpl.
  - split; [by left|]. intros [?|(k & ? & _)]; [done|lia].
  - destruct (Z.leb_spec v hi) as [Hv|Hv].
    + rewrite IH, set_add_elem. split.
      * intros [[->|?]|(k & Hk & -> & Hle)]; [right; exists 0; lia|by left|right; exists (k + 1); lia].
      * intros [?|(k & Hk & -> & Hle)]; [auto|].
        destruct (Z.eq_dec k 0) as [->|]; [left; left; lia|]. right. exists (k - 1). lia.
    + split; [by left|]. intros [?|(k & Hk & -> & Hle)]; [done|]. nia.
Qed.

Lemma add_steps_NoDup fuel v hi step out : NoDup out -> NoDup (add_steps fuel v hi step out).
Proof.
  revert v out. induction fuel as [|fuel IH]; intros v out H; simpl; [done|].
  destruct (v <=? hi); [|done]. by apply IH, set_add_NoDup.
Qed.

(** A part read as the first value, the last and the step. *)
Definition part_value (lhs : Z * Z * Z) (v : Z) : Prop :=
  let '(lo, hi, step) := lhs in exists k, 0 <= k /\ v = lo + k * step /\ v <= hi.

Definition field_value (field : string) (min max : Z) (name : string) (v : Z) : Prop :=
  exists part r, part ∈ split_at "," field /\ parse_part part min max name field = Ok r /\ part_value r v.

Lemma parse_part_range part min max name field lo hi step :
  parse_part part min max name field = Ok (lo, hi, step) -> min <= lo <= hi /\ hi <= max /\ 1 <= step.
Proof.
  unfold parse_part. destruct (String.eqb part ""); [done|]. cbv zeta.
  destruct (nth_error _ 1) as [s|] eqn:Es.
  - destruct (_ || _) eqn:E1; [done|]. destruct (part_bounds _ _ _ _ _ _) as [[l h]|]; [|done].
    destruct (_ || _ || _) eqn:E2; [done|]. intros [= <- <- <-]. b2p. lia.
  - destruct (part_bounds _ _ _ _ _ _) as [[l h]|]; [|done].
    destruct (_ || _ || _) eqn:E2; [done|]. intros [= <- <- <-]. b2p. lia.
Qed.

Lemma parse_parts_spec parts min max name field out res_ :
  parse_parts parts min max name field out = Ok res_ ->
  (NoDup out -> NoDup res_) /\
  (forall v, v ∈ res_ <-> v ∈ out \/
     exists part r, part ∈ parts /\ parse_part part min max name field = Ok r /\ part_value r v) /\
  (forall part, part ∈ parts -> exists r, parse_part part min max name field = Ok r).
Proof.
  revert out. induction parts as [|part parts IH]; intros out; cbn [parse_parts].
  - intros [= <-]. split_and!; [done| |by intros ? ?%not_elem_of_nil].
    intros v. split; [by left|]. intros [?|(? & ? & H & _)]; [done|by apply not_elem_of_nil in H].
  - destruct (parse_part _ _ _ _ _) as [[[lo hi] step]|] eqn:E; [|done].
    intros (Hd & He & Hp)%IH. pose proof (parse_part_range _ _ _ _ _ _ _ _ E) as Hr. split_and!.
    + intros. by apply Hd, add_steps_NoDup.
    + intros v. rewrite He, add_steps_elem by lia. split.
      * intros [[?|(k & Hk & -> & Hle)]|(p & r & Hin & Hpr & Hv)]; [by left| |].
        -- right. exists part, (lo, hi, step). split_and!; [left|done|]. exists k. lia.
        -- right. exists p, r. split_and!; [by right|done..].
      * intros [?|(p & r & Hin & Hpr & Hv)]; [by left; left|]. apply elem_of_cons in Hin as [->|Hin].
        -- left. right. rewrite E in Hpr. injection Hpr as <-. destruct Hv as (k & Hk & -> & Hle). exists k. nia.
        -- right. by exists p, r.
    + intros p [->|Hin]%elem_of_cons; [by eexists|by apply Hp].
Qed.

(** What a parsed field holds. *)
Definition field_ok (field : string) (min max : Z) (name : string) (out : list Z) : Prop :=
  NoDup out /\ out <> [] /\ (forall v, v ∈ out -> min <= v <= max) /\
  (forall v, v ∈ out <-> field_value field min max name v) /\
  (forall part, part ∈ split_at "," field -> exists r, parse_part part min max name field = Ok r).

Lemma parseCronField_ok field min max name out :
  parseCronField field min max name = Ok out -> field_ok field min max name out.
Proof.
  unfold parseCronField. destruct (parse_parts _ _ _ _ _ _) as [l|] eqn:E; [|done].
  destruct l as [|x l]; [done|]. intros [= <-].
  apply parse_parts_spec in E as (Hd & He & Hp).
  assert (Hv : forall v, v ∈ x :: l <-> field_value field min max name v).
  { intros v. rewrite He. split; [|by right]. intros [H|H]; [by apply not_elem_of_nil in H|done]. }
  split_and!; try done.
  - apply Hd. constructor.
  - intros v (part & [[lo hi] step] & _ & E & Hk)%Hv. destruct Hk as (k & Hk & -> & Hle).
    apply parse_part_range in E. nia.
Qed.

(** * Occurrences *)

Definition occurrence (spec : CronSpec) (t : Z) : Prop := t mod MINUTE_MS = 0 /\ cronMatches spec t = true.

(** The longest search, in milliseconds. *)
Definition HORIZON_MS : Z := CRON_SCAN_LIMIT * MINUTE_MS.

Lemma limit_value : CRON_SCAN_LIMIT = 527040.
Proof. reflexivity. Qed.

Lemma limit_nat : Z.of_nat (Z.to_nat CRON_SCAN_LIMIT) = 527040.
Proof. rewrite Z2Nat.id; rewrite limit_value; lia. Qed.

Lemma aligned_multiple t : t mod MINUTE_MS = 0 <-> exists x, t = x * MINUTE_MS.
Proof. unfold MINUTE_MS. split; [intros H; exists (t / 60000)|intros [x ->]]; Z.to_euclidean_division_equations; lia. Qed.

Lemma floor_bounds d : floorToMinute d <= d < floorToMinute d + MINUTE_MS.
Proof. unfold floorToMinute, MINUTE_MS. Z.to_euclidean_division_equations; lia. Qed.

Lemma cronNext_Some spec from t : cronNext spec from = Some t ->
  occurrence spec t /\ from < t <= floorToMinute from + HORIZON_MS /\
  forall t', occurrence spec t' -> from < t' -> t <= t'.
Proof.
  unfold cronNext. intros (k & Hk & -> & Hp & Hlt)%first_point_Some. rewrite limit_nat in Hk.
  pose proof (floor_bounds from). unfold HORIZON_MS. rewrite limit_value. split_and!.
  - split; [|done]. apply aligned_multiple. exists (from / MINUTE_MS + 1 + k). unfold floorToMinute. lia.
  - unfold MINUTE_MS in *. lia.
  - unfold MINUTE_MS in *. lia.
  - intros t' [[x ->]%aligned_multiple Hm] Hf.
    destruct (Z.le_gt_cases (floorToMinute from + MINUTE_MS + k * MINUTE_MS) (x * MINUTE_MS)) as [|Hgt]; [done|].
    specialize (Hlt (x - from / MINUTE_MS - 1)).
    replace (floorToMinute from + MINUTE_MS + (x - from / MINUTE_MS - 1) * MINUTE_MS) with (x * MINUTE_MS) in Hlt
      by (unfold floorToMinute; lia).
    rewrite Hlt in Hm; [done|]. unfold floorToMinute in *. unfold MINUTE_MS in *.
    Z.to_euclidean_division_equations; lia.
Qed.

Lemma cronNext_None spec from : cronNext spec from = None ->
  forall t, occurrence spec t -> from < t -> floorToMinute from + HORIZON_MS < t.
Proof.
  unfold cronNext. intros H t [[x ->]%aligned_multiple Hm] Hf.
  destruct (Z.le_gt_cases (x * MINUTE_MS) (floorToMinute from + HORIZON_MS)) as [Hle|]; [|done]. exfalso.
  pose proof (first_point_None _ _ _ _ H (x - from / MINUTE_MS - 1)) as Hn. rewrite limit_nat in Hn.
  replace (floorToMinute from + MINUTE_MS + (x - from / MINUTE_MS - 1) * MINUTE_MS) with (x * MINUTE_MS) in Hn
    by (unfold floorToMinute; lia).
  rewrite Hn in Hm; [done|]. unfold HORIZON_MS in Hle. rewrite limit_value in Hle.
  unfold floorToMinute in *. unfold MINUTE_MS in *. Z.to_euclidean_division_equations; lia.
Qed.

Lemma cronPrev_Some spec from t : cronPrev spec from = Some t ->
  occurrence spec t /\ floorToMinute from - HORIZON_MS < t <= from /\
  forall t', occurrence spec t' -> t' <= from -> t' <= t.
Proof.
  unfold cronPrev. intros (k & Hk & -> & Hp & Hlt)%first_point_Some. rewrite limit_nat in Hk.
  pose proof (floor_bounds from). unfold HORIZON_MS. rewrite limit_value. split_and!.
  - split; [|done]. apply aligned_multiple. exists (from / MINUTE_MS - k). unfold floorToMinute. lia.
  - unfold MINUTE_MS in *. lia.
  - unfold MINUTE_MS in *. lia.
  - intros t' [[x ->]%aligned_multiple Hm] Hf.
    destruct (Z.le_gt_cases (x * MINUTE_MS) (floorToMinute from + k * - MINUTE_MS)) as [|Hgt]; [done|].
    specialize (Hlt (from / MINUTE_MS - x)).
    replace (floorToMinute from + (from / MINUTE_MS - x) * - MINUTE_MS) with (x * MINUTE_MS) in Hlt
      by (unfold floorToMinute; lia).
    rewrite Hlt in Hm; [done|]. unfold floorToMinute in *. unfold MINUTE_MS in *.
    Z.to_euclidean_division_equations; lia.
Qed.

Lemma cronPrev_None spec from : cronPrev spec from = None ->
  forall t, occurrence spec t -> t <= from -> t <= floorToMinute from - HORIZON_MS.
Proof.
  unfold cronPrev. intros H t [[x ->]%aligned_multiple Hm] Hf.
  destruct (Z.le_gt_cases (x * MINUTE_MS) (floorToMinute from - HORIZON_MS)) as [|Hgt]; [done|]. exfalso.
  pose proof (first_point_None _ _ _ _ H (from / MINUTE_MS - x)) as Hn. rewrite limit_nat in Hn.
  replace (floorToMinute from + (from / MINUTE_MS - x) * - MINUTE_MS) with (x * MINUTE_MS) in Hn
    by (unfold floorToMinute; lia).
  rewrite Hn in Hm; [done|]. unfold HORIZON_MS in Hgt. rewrite limit_value in Hgt.
  unfold floorToMinute in *. unfold MINUTE_MS in *. Z.to_euclidean_division_equations; lia.
Qed.

(** Some occurrence follows [a] up to [b], as far as the search sees. *)
Definition occurs_between (spec : CronSpec) (a b : Z) : Prop :=
  exists t, occurrence spec t /\ a < t <= b /\ t <= floorToMinute a + HORIZON_MS.

Lemma isJobDue_iff spec last created now :
  isJobDue spec last created now = true <-> occurs_between spec (default created last) now.
Proof.
  unfold isJobDue, occurs_between. set (a := default created last).
  destruct (cronNext spec a) as [t|] eqn:E.
  - apply cronNext_Some in E as (Ho & Ha & Hmin). split.
    + intros H%Z.leb_le. exists t. split_and!; try done; lia.
    + intros (t' & Ho' & Ha' & _). specialize (Hmin t' Ho'). lia.
  - split; [done|]. intros (t & Ho & Ha & Hh). pose proof (cronNext_None _ _ E t Ho). lia.
Qed.

Lemma isCronDue_iff spec last now :
  isCronDue spec last now = true <->
  exists t, occurrence spec t /\ floorToMinute now - HORIZON_MS < t <= now /\
    match last with Some l => l < t | None => True end.
Proof.
  unfold isCronDue. destruct (cronPrev spec now) as [t|] eqn:E.
  - apply cronPrev_Some in E as (Ho & Ha & Hmax). split.
    + intros H. exists t. split_and!; try done; try lia. destruct last; [lia|done].
    + intros (t' & Ho' & Ha' & Hl). specialize (Hmax t' Ho'). destruct last; [lia|done].
  - split; [done|]. intros (t & Ho & Ha & _). pose proof (cronPrev_None _ _ E t Ho). lia.
Qed.

(** * How far the search has to go *)

Lemma cronNext_exists spec (T : Z -> Z) from :
  (forall y, T y < T (y + 1)) -> (forall y, T (y + 1) <= T y + 527040) ->
  (forall y, occurrence spec (T y * MINUTE_MS)) -> exists t, cronNext spec from = Some t.
Proof.
  intros Hinc Hgap Hocc. destruct (split_by T (from / MINUTE_MS) Hinc) as [y Hy].
  destruct (cronNext spec from) as [t|] eqn:E; [by exists t|]. exfalso.
  pose proof (cronNext_None _ _ E _ (Hocc (y + 1))) as H. pose proof (floor_bounds from).
  specialize (Hgap y). unfold HORIZON_MS, floorToMinute in *. rewrite limit_value in H. unfold MINUTE_MS in *. lia.
Qed.

(** The minute [h]:[mi] of a day, counted from the epoch. *)
Definition minute_of (day h mi : Z) : Z := day * 1440 + h * 60 + mi.

Lemma occurrence_at spec day h mi :
  0 <= h <= 23 -> 0 <= mi <= 59 -> h ∈ hours spec -> mi ∈ minutes spec -> date_matches spec day = true ->
  occurrence spec (minute_of day h mi * MINUTE_MS).
Proof.
  intros Hh Hm Hin Hmin Hd. split; [apply Z.mod_mul; done|].
  unfold cronMatches, utc_minute, utc_hour, utc_day, minute_of, MINUTE_MS.
  replace (((day * 1440 + h * 60 + mi) * 60000 / 60000) mod 60) with mi by (Z.to_euclidean_division_equations; lia).
  replace (((day * 1440 + h * 60 + mi) * 60000 / 3600000) mod 24) with h by (Z.to_euclidean_division_equations; lia).
  replace ((day * 1440 + h * 60 + mi) * 60000 / 86400000) with day by (Z.to_euclidean_division_equations; lia).
  rewrite Hd. apply zmem_elem in Hin as ->. by apply zmem_elem in Hmin as ->.
Qed.

(** The sets of a parsed expression, in their ranges. *)
Definition spec_ok (s : CronSpec) : Prop :=
  (exists mi, mi ∈ minutes s) /\ (forall v, v ∈ minutes s -> 0 <= v <= 59) /\
  (exists h, h ∈ hours s) /\ (forall v, v ∈ hours s -> 0 <= v <= 23) /\
  (forall v, v ∈ daysOfMonth s -> 1 <= v <= 31) /\
  (exists m, m ∈ months s) /\ (forall v, v ∈ months s -> 1 <= v <= 12) /\
  (exists w, w ∈ daysOfWeek s) /\ (forall v, v ∈ daysOfWeek s -> 0 <= v <= 6).

Lemma day_of_next y m d : day_of (y + 1) m d - day_of y m d = 365 \/ day_of (y + 1) m d - day_of y m d = 366.
Proof.
  unfold day_of. pose proof (start_succ (if m <=? 2 then y - 1 else y)) as H.
  destruct (m <=? 2); [replace (y + 1 - 1) with (y - 1 + 1) by lia|]; destruct (is_leap _); lia.
Qed.

(** A date that every year has. *)
Lemma next_dated s m d from :
  spec_ok s -> dowRestricted s = false -> m ∈ months s -> d ∈ daysOfMonth s -> d <= month_length 2023 m ->
  exists t, cronNext s from = Some t.
Proof.
  intros ((mi & Hmi) & Rmi & (h & Hh) & Rh & Rd & _ & Rm & _) Hw Hm Hd Hlen.
  apply (cronNext_exists s (fun y => minute_of (day_of y m d) h mi)).
  - intros y. pose proof (day_of_next y m d). unfold minute_of. lia.
  - intros y. pose proof (day_of_next y m d). unfold minute_of. lia.
  - intros y. apply occurrence_at; auto. unfold date_matches.
    rewrite civil_day_of.
    + apply zmem_elem in Hm as ->. apply zmem_elem in Hd as ->. rewrite Hw. by destruct (domRestricted s).
    + specialize (Rm m Hm). specialize (Rd d Hd). split; [done|].
      unfold month_length in *. change (is_leap 2023) with false in Hlen. destruct (m =? 2); [destruct (is_leap y)|]; lia.
Qed.

(** The first day of a month on a weekday. *)
Definition first_weekday (y m w : Z) : Z := day_of y m 1 + (w - weekday (day_of y m 1)) mod 7.

Lemma weekday_offset D w k : 0 <= w <= 6 -> weekday (D + (w - weekday D) mod 7 + 7 * k) = w.
Proof. unfold weekday. intros Hw. Z.to_euclidean_division_equations. lia. Qed.

Lemma weekday_matches s y m w k :
  spec_ok s -> dowRestricted s = true -> m ∈ months s -> w ∈ daysOfWeek s -> 0 <= k <= 3 ->
  date_matches s (first_weekday y m w + 7 * k) = true.
Proof.
  intros (_ & _ & _ & _ & _ & _ & Rm & _ & Rw) Hr Hm Hw Hk. unfold first_weekday.
  set (o := (w - weekday (day_of y m 1)) mod 7).
  assert (Ho : 0 <= o < 7) by (apply Z.mod_pos_bound; lia).
  replace (day_of y m 1 + o + 7 * k) with (day_of y m (1 + o + 7 * k)) by (unfold day_of; lia).
  unfold date_matches. rewrite civil_day_of.
  - apply zmem_elem in Hm as ->. rewrite Hr.
    replace (weekday (day_of y m (1 + o + 7 * k))) with w.
    + pose proof Hw as Hw'. apply zmem_elem in Hw' as ->. rewrite orb_true_r. by destruct (domRestricted s).
    + replace (day_of y m (1 + o + 7 * k)) with (day_of y m 1 + o + 7 * k) by (unfold day_of; lia).
      symmetry. apply weekday_offset. by apply Rw.
  - specialize (Rm m Hm). split; [done|]. unfold month_length. repeat case_match; lia.
Qed.

Lemma next_weekday s from :
  spec_ok s -> dowRestricted s = true -> exists t, cronNext s from = Some t.
Proof.
  intros Hok Hr. pose proof Hok as ((mi & Hmi) & Rmi & (h & Hh) & Rh & _ & (m & Hm) & _ & (w & Hw) & _).
  set (T := fun y => minute_of (first_weekday y m w) h mi).
  assert (Hocc : forall y k, 0 <= k <= 3 -> occurrence s ((T y + k * 10080) * MINUTE_MS)).
  { intros y k Hk. replace (T y + k * 10080) with (minute_of (first_weekday y m w + 7 * k) h mi) by
      (unfold T, minute_of; lia).
    apply occurrence_at; auto. by apply weekday_matches. }
  assert (Hgap : forall y, T y + 358 * 1440 < T (y + 1) <= T y + 372 * 1440).
  { intros y. unfold T, minute_of, first_weekday. pose proof (day_of_next y m 1).
    pose proof (Z.mod_pos_bound (w - weekday (day_of y m 1)) 7).
    pose proof (Z.mod_pos_bound (w - weekday (day_of (y + 1) m 1)) 7). lia. }
  destruct (split_by T (from / MINUTE_MS)) as [y Hy]; [intros y; specialize (Hgap y); lia|].
  destruct (cronNext s from) as [t|] eqn:E; [by exists t|]. exfalso.
  pose proof (floor_bounds from) as Hf.
  assert (Hmiss : forall x, occurrence s (x * MINUTE_MS) -> from / MINUTE_MS < x -> from / MINUTE_MS + 527040 < x).
  { intros x Ho Hx. pose proof (cronNext_None _ _ E _ Ho) as H.
    unfold HORIZON_MS, floorToMinute in *. rewrite limit_value in H. unfold MINUTE_MS in *. lia. }
  specialize (Hgap y).
  destruct (Z.lt_ge_cases (from / MINUTE_MS - T y) 30240) as [Hlt|Hge].
  - set (j := (from / MINUTE_MS - T y) / 10080).
    assert (Hj : 0 <= j <= 2 /\ j * 10080 <= from / MINUTE_MS - T y < (j + 1) * 10080) by
      (unfold j; generalize dependent (T y); intros; Z.to_euclidean_division_equations; lia).
    pose proof (Hmiss _ (Hocc y (j + 1) ltac:(lia))). lia.
  - pose proof (Hocc (y + 1) 0 ltac:(lia)) as H. rewrite Z.mul_0_l, Z.add_0_r in H.
    pose proof (Hmiss _ H). lia.
Qed.

(** * Parsed expressions *)

Lemma split_at_nonempty c s : split_at c s <> [].
Proof. destruct s as [|x s]; simpl; [done|]. destruct (Ascii.eqb x c); [done|]. by destruct (split_at c s). Qed.

Lemma parse_parts_total parts min max name field out :
  (forall part, part ∈ parts -> exists r, parse_part part min max name field = Ok r) ->
  exists l, parse_parts parts min max name field out = Ok l.
Proof.
  revert out. induction parts as [|part parts IH]; intros out H; [by exists out|].
  cbn [parse_parts]. destruct (H part) as [[[lo hi] step] ->]; [left|]. apply IH. intros p Hp. apply H. by right.
Qed.

(** Every part of a field can be read. *)
Definition field_parses (field : string) (min max : Z) (name : string) : Prop :=
  forall part, part ∈ split_at "," field -> exists r, parse_part part min max name field = Ok r.

Lemma parseCronField_total field min max name :
  field_parses field min max name -> exists out, parseCronField field min max name = Ok out.
Proof.
  intros H. unfold parseCronField. destruct (parse_parts_total _ _ _ _ _ [] H) as [l E]. rewrite E.
  destruct l as [|x l]; [exfalso|by exists (x :: l)].
  apply parse_parts_spec in E as (_ & He & _).
  destruct (split_at "," field) as [|part parts] eqn:Es; [by apply (split_at_nonempty "," field)|].
  destruct (H part) as [[[lo hi] step] Hp]; [rewrite Es; left|].
  apply (not_elem_of_nil lo), He. right. exists part, (lo, hi, step). split_and!; [left|done|].
  apply parse_part_range in Hp. exists 0. lia.
Qed.

Lemma sundays_elem dows v :
  (forall x, x ∈ dows -> 0 <= x <= 7) ->
  v ∈ sundays dows <-> 0 <= v <= 6 /\ (v ∈ dows \/ v = 0 /\ 7 ∈ dows).
Proof.
  intros Hr. unfold sundays. case_decide as H7.
  - rewrite set_add_elem, bfilter_elem. split.
    + intros [->|[Hv Hn]]; [split; [lia|auto]|]. b2p. specialize (Hr v Hv). split; [lia|auto].
    + intros [Hv [Hin|[-> _]]]; [right|by left]. split; [done|]. destruct (Z.eqb_spec v 7); [lia|done].
  - split; [|naive_solver]. intros Hv. split; [|auto]. specialize (Hr v Hv).
    assert (v <> 7) by (intros ->; done). lia.
Qed.

(** The five fields of an expression, and what [s] makes of them. *)
Definition fields_ok (s : CronSpec) (m h dom mon dow : string) : Prop :=
  field_ok m 0 59 "minute" (minutes s) /\ field_ok h 0 23 "hour" (hours s) /\
  field_ok dom 1 31 "day-of-month" (daysOfMonth s) /\ field_ok mon 1 12 "month" (months s) /\
  (forall v, v ∈ daysOfWeek s <->
     0 <= v <= 6 /\ (field_value dow 0 7 "day-of-week" v \/ v = 0 /\ field_value dow 0 7 "day-of-week" 7)) /\
  (exists w, w ∈ daysOfWeek s) /\
  (domRestricted s = true <-> dom <> "*") /\ (dowRestricted s = true <-> dow <> "*").

Lemma restricted_iff f : negb (String.eqb f "*") = true <-> f <> "*".
Proof. destruct (String.eqb_spec f "*"); naive_solver. Qed.

Lemma parseCron_fields e s : parseCron e = Ok s ->
  exists m h dom mon dow, split_spaces (trim e) = [m; h; dom; mon; dow] /\ fields_ok s m h dom mon dow.
Proof.
  unfold parseCron. destruct (split_spaces (trim e)) as [|m [|h [|dom [|mon [|dow [|]]]]]]; try done.
  destruct (parseCronField dow _ _ _) as [dows|] eqn:E1; [|done].
  destruct (parseCronField m _ _ _) as [ms|] eqn:E2; [|done].
  destruct (parseCronField h _ _ _) as [hs|] eqn:E3; [|done].
  destruct (parseCronField dom _ _ _) as [doms|] eqn:E4; [|done].
  destruct (parseCronField mon _ _ _) as [mons|] eqn:E5; [|done].
  intros [= <-]. exists m, h, dom, mon, dow. split; [done|].
  apply parseCronField_ok in E1 as (_ & Hne & Hr & Hv & _).
  split_and!; simpl; try by apply parseCronField_ok.
  - intros v. rewrite (sundays_elem dows v Hr). by setoid_rewrite Hv.
  - assert (exists x, x ∈ dows) as [x Hx] by (destruct dows as [|x l]; [done|exists x; left]).
    pose proof (Hr x Hx). setoid_rewrite (sundays_elem dows _ Hr).
    destruct (Z.eq_dec x 7) as [->|]; [exists 0|exists x]; (split; [lia|auto]).
  - by apply restricted_iff.
  - by apply restricted_iff.
Qed.

Lemma field_ok_some field min max name out : field_ok field min max name out -> exists v, v ∈ out.
Proof. intros (_ & Hne & _). destruct out as [|x l]; [done|]. exists x. left. Qed.

Lemma parseCron_spec_ok e s : parseCron e = Ok s -> spec_ok s.
Proof.
  intros (m & h & dom & mon & dow & _ & Hm & Hh & Hd & Hmo & Hw & Hwe & _)%parseCron_fields.
  split_and!; try by eapply field_ok_some.
  - by destruct Hm as (_ & _ & ? & _).
  - by destruct Hh as (_ & _ & ? & _).
  - by destruct Hd as (_ & _ & ? & _).
  - by destruct Hmo as (_ & _ & ? & _).
  - done.
  - intros v [? _]%Hw. lia.
Qed.

(** The cron parser. An expression is accepted exactly when it has five
    fields and every part of each can be read in the field's range; the sets it
    yields are not empty, have no duplicates, stay in range, and hold exactly the
    values of the parts, [lo], [lo + step], ... up to [hi], 7 being Sunday. *)
Theorem parseCron_correct e :
  (forall s, parseCron e = Ok s ->
     exists m h dom mon dow, split_spaces (trim e) = [m; h; dom; mon; dow] /\ fields_ok s m h dom mon dow) /\
  ((exists s, parseCron e = Ok s) <->
     exists m h dom mon dow, split_spaces (trim e) = [m; h; dom; mon; dow] /\
       field_parses m 0 59 "minute" /\ field_parses h 0 23 "hour" /\ field_parses dom 1 31 "day-of-month" /\
       field_parses mon 1 12 "month" /\ field_parses dow 0 7 "day-of-week").
Proof.
  split; [apply parseCron_fields|]. split.
  - unfold parseCron. intros [s H].
    destruct (split_spaces (trim e)) as [|m [|h [|dom [|mon [|dow [|]]]]]]; try done.
    exists m, h, dom, mon, dow. split; [done|].
    destruct (parseCronField dow _ _ _) eqn:E1; [|done]. destruct (parseCronField m _ _ _) eqn:E2; [|done].
    destruct (parseCronField h _ _ _) eqn:E3; [|done]. destruct (parseCronField dom _ _ _) eqn:E4; [|done].
    destruct (parseCronField mon _ _ _) eqn:E5; [|done].
    apply parseCronField_ok in E1 as (_ & _ & _ & _ & ?), E2 as (_ & _ & _ & _ & ?), E3 as (_ & _ & _ & _ & ?),
      E4 as (_ & _ & _ & _ & ?), E5 as (_ & _ & _ & _ & ?). done.
  - intros (m & h & dom & mon & dow & E & H1 & H2 & H3 & H4 & H5). unfold parseCron. rewrite E.
    destruct (parseCronField_total _ _ _ _ H5) as [? ->]. destruct (parseCronField_total _ _ _ _ H1) as [? ->].
    destruct (parseCronField_total _ _ _ _ H2) as [? ->]. destruct (parseCronField_total _ _ _ _ H3) as [? ->].
    destruct (parseCronField_total _ _ _ _ H4) as [? ->]. by eexists.
Qed.

(** C37: the cron search. [cronNext] is the first occurrence strictly after a
    time and [cronPrev] the last one at or before it; each fails exactly when
    there is none within the horizon of 366 days. *)
Theorem cronNext_cronPrev_exact spec from :
  match cronNext spec from with
  | Some t => occurrence spec t /\ from < t <= floorToMinute from + HORIZON_MS /\
      forall t', occurrence spec t' -> from < t' -> t <= t'
  | None => forall t, occurrence spec t -> from < t -> floorToMinute from + HORIZON_MS < t
  end /\
  match cronPrev spec from with
  | Some t => occurrence spec t /\ floorToMinute from - HORIZON_MS < t <= from /\
      forall t', occurrence spec t' -> t' <= from -> t' <= t
  | None => forall t, occurrence spec t -> t <= from -> t <= floorToMinute from - HORIZON_MS
  end.
Proof.
  split.
  - destruct (cronNext spec from) eqn:E; [by apply cronNext_Some|by apply cronNext_None].
  - destruct (cronPrev spec from) eqn:E; [by apply cronPrev_Some|by apply cronPrev_None].
Qed.

(** The due rules. A job is due exactly when an occurrence has passed since
    its last fire (or its creation), a backup when one has passed that its last
    run did not cover; so a fire at [now] leaves nothing due at [now], however
    many slots it caught up with, and what is due stays due until it fires. *)
Theorem due_rules spec last created now :
  (isJobDue spec last created now = true <-> occurs_between spec (default created last) now) /\
  (isCronDue spec last now = true <->
     exists t, occurrence spec t /\ floorToMinute now - HORIZON_MS < t <= now /\
       match last with Some l => l < t | None => True end) /\
  isJobDue spec (Some now) created now = false /\
  isCronDue spec (Some now) now = false /\
  (forall later, now <= later -> isJobDue spec last created now = true -> isJobDue spec last created later = true).
Proof.
  split_and!; [apply isJobDue_iff|apply isCronDue_iff|..].
  - apply not_true_is_false. intros (t & _ & H & _)%isJobDue_iff. simpl in H. lia.
  - apply not_true_is_false. intros (t & _ & H & Hl)%isCronDue_iff. lia.
  - intros later Hle (t & Ho & Ht & Hh)%isJobDue_iff. apply isJobDue_iff. exists t. split_and!; try done; lia.
Qed.

(** Every day of the window is checked. *)
Lemma no_occurrence spec from :
  check_range (fun day => negb (date_matches spec day)) (utc_day from) 368 = true -> cronNext spec from = None.
Proof.
  intros H. destruct (cronNext spec from) as [t|] eqn:E; [|done]. exfalso.
  apply cronNext_Some in E as ((_ & Hm) & Ht & _). unfold cronMatches in Hm. b2p.
  pose proof (check_range_spec _ _ _ H (utc_day t)) as Hd. cbv beta in Hd.
  match goal with Hx : date_matches _ _ = true |- _ => rewrite Hx in Hd end.
  discriminate Hd. pose proof (floor_bounds from). unfold HORIZON_MS, utc_day in *. rewrite limit_value in Ht.
  unfold MINUTE_MS in *. Z.to_euclidean_division_equations; lia.
Qed.

Definition leap_job : string := "0 0 29 2 *".
Definition leap_spec : CronSpec :=
  {| minutes := [0]; hours := [0]; daysOfMonth := [29]; months := [2]; daysOfWeek := [0; 1; 2; 3; 4; 5; 6];
     domRestricted := true; dowRestricted := false |}.
(** 2025-03-01 and 2028-02-29, at midnight. *)
Definition created_2025 : Z := 1740787200000.
Definition leap_2028 : Z := 1835395200000.

Lemma leap_parses : parseCron leap_job = Ok leap_spec.
Proof. vm_compute. reflexivity. Qed.

Lemma leap_never : cronNext leap_spec created_2025 = None.
Proof. apply no_occurrence. vm_compute. reflexivity. Qed.

(** The horizon. A parsed expression that restricts the day of the week, or
    names a date that a common year has, has an occurrence within the horizon
    after every time, so its jobs fire. It is not enough for every expression:
    midnight of the 29th of February occurs, yet a job created in March 2025 is
    never due. *)
Theorem cron_horizon :
  (forall e s from, parseCron e = Ok s ->
     (dowRestricted s = true \/
      exists m d, m ∈ months s /\ d ∈ daysOfMonth s /\ d <= month_length 2023 m) ->
     exists t, cronNext s from = Some t /\ from < t /\ occurrence s t) /\
  (exists s, parseCron leap_job = Ok s /\ occurrence s leap_2028 /\
     forall now, isJobDue s None created_2025 now = false).
Proof.
  split.
  - intros e s from Hs H. apply parseCron_spec_ok in Hs.
    assert (exists t, cronNext s from = Some t) as [t Ht].
    { destruct (dowRestricted s) eqn:E; [by apply next_weekday|].
      destruct H as [?|(m & d & Hm & Hd & Hl)]; [done|by apply (next_dated s m d)]. }
    exists t. split; [done|]. apply cronNext_Some in Ht as (Ho & Ht & _). split; [lia|done].
  - exists leap_spec. split; [by apply leap_parses|]. split; [split; vm_compute; reflexivity|].
    intros now. unfold isJobDue. cbn [default]. by rewrite leap_never.
Qed.

(** Intervals. The next run of an interval schedule is the first slot of its
    grid (the anchor plus a whole number of intervals) strictly after the last
    run, or the anchor itself while that lies ahead: missed slots collapse into
    one. A schedule without a positive interval is refused. *)
Theorem nextIntervalRun_grid spec anchor created last :
  match nextIntervalRun spec anchor created last with
  | Ok t => 0 < every spec /\
      let from := default created last in
      let step := every spec * UNIT_MS (unit_ spec) in
      from < t /\ (exists k, 0 <= k /\ t = anchor + k * step) /\
      forall k, 0 <= k -> from < anchor + k * step -> t <= anchor + k * step
  | Err _ => every spec <= 0
  end.
Proof.
  unfold nextIntervalRun, nextRun, intervalMs. set (from := default created last).
  destruct (Z.leb_spec (every spec) 0) as [|Hp]; [done|].
  assert (Hs : 0 < every spec * UNIT_MS (unit_ spec)) by (destruct (unit_ spec); simpl; lia).
  set (step := every spec * UNIT_MS (unit_ spec)) in *. clearbody step.
  destruct (Z.ltb_spec from anchor) as [Hlt|Hge].
  - split_and!; [done..| |]; [exists 0; lia|]. nia.
  - pose proof (Z.div_mod (from - anchor) step ltac:(lia)) as Hd.
    pose proof (Z.mod_pos_bound (from - anchor) step Hs) as Hm.
    assert (0 <= (from - anchor) / step) by (apply Z.div_pos; lia).
    split_and!; [done|nia|exists ((from - anchor) / step + 1); lia|]. intros k Hk Hf.
    assert ((from - anchor) / step < k) by nia. nia.
Qed.
