(* ===== verification/Storage.v ===== *)
(** The replicated object store (apps/api/src/workers/storage-reconcile.core.ts):
    which Garage node runs on which server, and the two-step layout plan that
    converges the cluster to its declared members,
    with the layout pass of the worker that dispatches it, its memory of the last
    attempt and its back-off (storage-reconcile.ts, reconcileOrg).

    An object used as a map is a list of its entries in order, and its keys are
    server ids, never the names of Object.prototype the operator [in] would also
    find.  Capacities are whole numbers of bytes.  Garage itself, which applies
    the staged changes, and the hash of a plan's signature are parameters.  The
    reading of Garage's JSON answers, the one-shot scripts that carry the calls
    and the statistics label are not modelled. *)

From S2P Require Import Prelude Comparators.

Definition GARAGE_RPC_PORT : Z := 3901.

Record ProbedTask := { pt_ip : string; pt_garageNodeId : string }.

(** Every task is asked to connect to every other one. *)
Definition planConnects (tasks : list ProbedTask) : list (string * list string) :=
  if (length tasks <? 2)%nat then []
  else map (fun t => (pt_ip t,
         map (fun o => pt_garageNodeId o +:+ "@" +:+ pt_ip o +:+ ":" +:+ pretty GARAGE_RPC_PORT)
           (List.filter (fun o => negb (String.eqb (pt_ip o) (pt_ip t))) tasks))) tasks.

Definition needsRpcBootstrap (memberCount : Z) (connectedNodes : option Z) : bool :=
  if memberCount <? 2 then false
  else match connectedNodes with None => true | Some n => n <? memberCount end.

Record GarageRole := { gr_zone : string; gr_capacity : option Z }.

Record GarageNodeStatus := {
  gn_id : string; gn_hostname : option string; gn_isUp : bool; gn_draining : bool; gn_role : option GarageRole;
  gn_dataAvailableBytes : option Z; gn_dataTotalBytes : option Z
}.

Record ContainerHost := { ch_nodeId : string; ch_containerIdShort : string }.

Definition zoneFor (swarmyNodeId : string) : string := "node-" +:+ swarmyNodeId.

(** * Matching *)

Definition Mapping : Type := list (string * string).

(** [claim]: a server and a Garage node are matched at most once. *)
Definition claim (out : Mapping) (nodeId garageId : string) : Mapping :=
  if mem nodeId (map fst out) || mem garageId (map snd out) then out else out ++ [(nodeId, garageId)].

Definition claim_known (ids : list string) (out : Mapping) (e : string * string) : Mapping :=
  if mem (snd e) ids then claim out (fst e) (snd e) else out.

Definition claim_zone (out : Mapping) (g : GarageNodeStatus) : Mapping :=
  match gn_role g with
  | Some r => if startsWith "node-" (gr_zone r) then claim out (sdrop 5 (gr_zone r)) (gn_id g) else out
  | None => out
  end.

(** The Garage nodes by host name; of two with the same one the last counts. *)
Definition byHostname (nodes : list GarageNodeStatus) (host : string) : option GarageNodeStatus :=
  List.find (fun g => match gn_hostname g with Some h => negb (String.eqb h "") && String.eqb h host | None => false end)
    (rev nodes).

Definition claim_host (nodes : list GarageNodeStatus) (out : Mapping) (h : ContainerHost) : Mapping :=
  match byHostname nodes (ch_containerIdShort h) with
  | Some g => claim out (ch_nodeId h) (gn_id g)
  | None => out
  end.

(** One unmatched Garage node and one unmatched host belong together. *)
Definition claim_single (nodes : list GarageNodeStatus) (hosts : list ContainerHost) (out : Mapping) : Mapping :=
  match List.filter (fun g => negb (mem (gn_id g) (map snd out))) nodes,
        List.filter (fun h => negb (mem (ch_nodeId h) (map fst out))) hosts with
  | [g], [h] => claim out (ch_nodeId h) (gn_id g)
  | _, _ => out
  end.

Definition matchGarageNodes (garageNodes : list GarageNodeStatus) (containerHosts : list ContainerHost)
    (known : Mapping) : Mapping :=
  let out := foldl (claim_known (map gn_id garageNodes)) [] known in
  let out := foldl claim_zone out garageNodes in
  let out := foldl (claim_host garageNodes) out containerHosts in
  claim_single garageNodes containerHosts out.

(** * The layout plan *)

Record GarageLayoutRole := { lr_id : string; lr_zone : string; lr_capacity : option Z }.

Inductive GarageLayoutChange :=
  | Remove (id : string)
  | Assign (id zone : string) (capacity : Z) (tags : list string).

Definition change_id (ch : GarageLayoutChange) : string := match ch with Remove id => id | Assign id _ _ _ => id end.

Record GarageLayout := { gl_version : Z; gl_roles : list GarageLayoutRole; gl_staged : list GarageLayoutChange }.

Record DesiredMember := { dm_nodeId : string; dm_garageNodeId : option string; dm_capacityGb : Z }.

Record LayoutPlan := { lp_stage : list GarageLayoutChange; lp_applyVersion : option Z; lp_incompleteMapping : bool }.

Definition changeKey (ch : GarageLayoutChange) : string :=
  match ch with
  | Remove id => id +:+ "|remove"
  | Assign id zone capacity tags =>
      id +:+ "|" +:+ zone +:+ "|" +:+ pretty capacity +:+ "|" +:+ join "," (js_sort str_cmp tags)
  end.

Definition known_id (m : DesiredMember) : option string :=
  match dm_garageNodeId m with Some g => if String.eqb g "" then None else Some g | None => None end.

(** The role of a desired member whose Garage node is known. *)
Definition desired_role (orgId : string) (m : DesiredMember) : option GarageLayoutChange :=
  match known_id m with
  | Some g => Some (Assign g (zoneFor (dm_nodeId m)) (dm_capacityGb m * 1000000000) ["org:" +:+ orgId])
  | None => None
  end.

Definition desired_roles (orgId : string) (desired : list DesiredMember) : list GarageLayoutChange :=
  omap (desired_role orgId) desired.

(** [rolesById.get(id)]: of two roles with one id the last counts. *)
Definition role_of (roles : list GarageLayoutRole) (id : string) : option GarageLayoutRole :=
  List.find (fun r => String.eqb (lr_id r) id) (rev roles).

Definition satisfied (roles : list GarageLayoutRole) (d : GarageLayoutChange) : bool :=
  match d with
  | Assign id zone capacity _ =>
      match role_of roles id with
      | Some cur => String.eqb (lr_zone cur) zone && bool_decide (lr_capacity cur = Some capacity)
      | None => false
      end
  | Remove _ => true
  end.

Definition incomplete (orgId : string) (desired : list DesiredMember) : bool :=
  negb (length (desired_roles orgId desired) =? length desired)%nat.

Definition removals (orgId : string) (desired : list DesiredMember) (roles : list GarageLayoutRole) : list GarageLayoutChange :=
  let want := map change_id (desired_roles orgId desired) in
  map (fun r => Remove (lr_id r)) (List.filter (fun r => negb (mem (lr_id r) want)) roles).

Definition needed (orgId : string) (desired : list DesiredMember) (layout : GarageLayout) : list GarageLayoutChange :=
  js_sort (cmp_on change_id str_cmp)
    (List.filter (fun d => negb (satisfied (gl_roles layout) d)) (desired_roles orgId desired) ++
     (if incomplete orgId desired then [] else removals orgId desired (gl_roles layout))).

Definition planLayout (orgId : string) (desired : list DesiredMember) (layout : GarageLayout) : LayoutPlan :=
  let stagedKeys := map changeKey (gl_staged layout) in
  let n := needed orgId desired layout in
  {| lp_stage := List.filter (fun ch => negb (mem (changeKey ch) stagedKeys)) n;
     lp_applyVersion := match n with [] => None | _ :: _ => Some (gl_version layout + 1) end;
     lp_incompleteMapping := incomplete orgId desired |}.

(** Ticks to skip after failures in a row: 0, 1, 2, 4, 8, 8, ... *)
Definition backoffTicks (consecutiveFailures : Z) : Z :=
  if consecutiveFailures <=? 0 then 0 else Z.min (2 ^ (consecutiveFailures - 1)) 8.

(** * One pass of the worker *)

Record OrgState := { failures : Z; skipUntilTick : Z; lastPlanSig : option string; planAttempts : Z }.

Definition fresh_state : OrgState := {| failures := 0; skipUntilTick := 0; lastPlanSig := None; planAttempts := 0 |}.

(** The plan for the layout read in a pass, and whether it is dispatched: one
    with the signature of the last attempt backs off. *)
Definition plan_gate (tick : Z) (st : OrgState) (sig : string) : OrgState * bool :=
  let st' :=
    if bool_decide (lastPlanSig st = Some sig) then
      {| failures := failures st; skipUntilTick := tick + backoffTicks (planAttempts st + 1);
         lastPlanSig := lastPlanSig st; planAttempts := planAttempts st + 1 |}
    else
      {| failures := failures st; skipUntilTick := skipUntilTick st; lastPlanSig := Some sig; planAttempts := 1 |} in
  (st', skipUntilTick st' <=? tick).

Definition pass_failed (tick : Z) (st : OrgState) : OrgState :=
  {| failures := failures st + 1; skipUntilTick := tick + backoffTicks (failures st + 1);
     lastPlanSig := lastPlanSig st; planAttempts := planAttempts st |}.

Definition pass_done (st : OrgState) : OrgState :=
  {| failures := 0; skipUntilTick := skipUntilTick st; lastPlanSig := lastPlanSig st; planAttempts := planAttempts st |}.

Definition no_plan (st : OrgState) : OrgState :=
  {| failures := failures st; skipUntilTick := skipUntilTick st; lastPlanSig := None; planAttempts := 0 |}.

Definition nl : string := String (ascii_of_nat 10) "".

Section pass.
(** The hash of a signature's text, and Garage applying what is staged. *)
Context (sha256 : string -> string).
Context (apply_changes : list GarageLayoutRole -> list GarageLayoutChange -> list GarageLayoutRole).

Definition planSignature (plan : LayoutPlan) (layoutVersion : Z) : string :=
  String.substring 0 16 (sha256 (pretty layoutVersion +:+ nl +:+ join ";" (map changeKey (lp_stage plan)) +:+ nl +:+
    match lp_applyVersion plan with Some v => pretty v | None => "" end)).

(** [POST /layout], then [POST /layout/apply]: the layout Garage is left with,
    and whether both calls went through.  [posted] and [applied] say whether
    each call, when it is made, succeeds. *)
Definition dispatch_plan (plan : LayoutPlan) (posted applied : bool) (layout : GarageLayout) : GarageLayout * bool :=
  if negb (bool_decide (lp_stage plan = [])) && negb posted then (layout, false)
  else
    let staged := gl_staged layout ++ lp_stage plan in
    match lp_applyVersion plan with
    | None => ({| gl_version := gl_version layout; gl_roles := gl_roles layout; gl_staged := staged |}, true)
    | Some v =>
        if applied then ({| gl_version := v; gl_roles := apply_changes (gl_roles layout) staged; gl_staged := [] |}, true)
        else ({| gl_version := gl_version layout; gl_roles := gl_roles layout; gl_staged := staged |}, false)
    end.

Definition has_work (plan : LayoutPlan) : bool :=
  negb (bool_decide (lp_stage plan = [])) || bool_decide (is_Some (lp_applyVersion plan)).

(** The layout convergence of one tick. *)
Definition layout_pass (tick : Z) (orgId : string) (desired : list DesiredMember) (posted applied : bool)
    (s : OrgState * GarageLayout) : OrgState * GarageLayout :=
  let '(st, layout) := s in
  if tick <? skipUntilTick st then (st, layout)
  else
    let plan := planLayout orgId desired layout in
    if has_work plan then
      let '(st', go) := plan_gate tick st (planSignature plan (gl_version layout)) in
      if go then
        let '(layout', ok) := dispatch_plan plan posted applied layout in
        ((if ok then pass_done else pass_failed tick) st', layout')
      else (pass_done st', layout)
    else (pass_done (no_plan st), layout).
End pass.

(** * Lemmas *)

Definition injective (out : Mapping) : Prop := NoDup (map fst out) /\ NoDup (map snd out).

Lemma claim_injective out n g : injective out -> injective (claim out n g).
Proof.
  intros [H1 H2]. unfold claim. destruct (mem n _) eqn:E1; [done|]. destruct (mem g _) eqn:E2; [done|]. simpl.
  apply mem_false in E1, E2. split; rewrite map_app; apply NoDup_app; split_and!; try done; try apply NoDup_singleton.
  - by intros x Hx ->%list_elem_of_singleton.
  - by intros x Hx ->%list_elem_of_singleton.
Qed.

Lemma claim_elem out n g e : e ∈ claim out n g -> e ∈ out \/ e = (n, g).
Proof. unfold claim. destruct (_ || _); [by left|]. rewrite elem_of_app, list_elem_of_singleton. tauto. Qed.

Lemma claim_keeps out n g e : e ∈ out -> e ∈ claim out n g.
Proof. intros H. unfold claim. destruct (_ || _); [done|]. apply elem_of_app. by left. Qed.

(** A matching under construction: injective, onto existing Garage nodes, and
    keeping what it had. *)
Record match_inv (ids : list string) (before out : Mapping) : Prop := {
  mi_inj : injective out;
  mi_ids : forall e, e ∈ out -> snd e ∈ ids;
  mi_keeps : forall e, e ∈ before -> e ∈ out
}.

Lemma match_claim ids before out n g :
  g ∈ ids -> match_inv ids before out -> match_inv ids before (claim out n g).
Proof.
  intros Hg [H1 H2 H3]. split; [by apply claim_injective| |].
  - intros e [?| ->]%claim_elem; [auto|done].
  - intros e He. by apply claim_keeps, H3.
Qed.

Lemma match_fold {A} ids before (f : Mapping -> A -> Mapping) l out :
  (forall o x, x ∈ l -> match_inv ids before o -> match_inv ids before (f o x)) ->
  match_inv ids before out -> match_inv ids before (foldl f out l).
Proof.
  revert out. induction l as [|x l IH]; intros out Hf H; simpl; [done|].
  apply IH; [|apply Hf; [left|done]]. intros o y Hy. apply Hf. by right.
Qed.

Lemma byHostname_in nodes host g : byHostname nodes host = Some g -> gn_id g ∈ map gn_id nodes.
Proof.
  unfold byHostname. intros [H _]%find_some. apply in_rev in H. apply list_elem_of_fmap. exists g.
  split; [done|]. by apply list_elem_of_In.
Qed.

Lemma match_rest nodes hosts out before :
  match_inv (map gn_id nodes) before out ->
  match_inv (map gn_id nodes) before
    (claim_single nodes hosts (foldl (claim_host nodes) (foldl claim_zone out nodes) hosts)).
Proof.
  intros H.
  assert (H2 : match_inv (map gn_id nodes) before (foldl (claim_host nodes) (foldl claim_zone out nodes) hosts)).
  { apply match_fold.
    - intros o h _ Ho. unfold claim_host. destruct (byHostname _ _) as [g|] eqn:E; [|done].
      apply match_claim; [by eapply byHostname_in|done].
    - apply match_fold; [|done]. intros o g Hg Ho. unfold claim_zone.
      destruct (gn_role g) as [r|]; [|done]. destruct (startsWith _ _); [|done].
      apply match_claim; [|done]. apply list_elem_of_fmap. by exists g. }
  unfold claim_single. destruct (List.filter _ nodes) as [|g [|]] eqn:Eg; try done.
  destruct (List.filter _ hosts) as [|h [|]]; try done. apply match_claim; [|done].
  assert (Hg : g ∈ List.filter (fun g => negb (mem (gn_id g)
    (map snd (foldl (claim_host nodes) (foldl claim_zone out nodes) hosts)))) nodes) by (rewrite Eg; left).
  apply bfilter_elem in Hg as [Hg _]. apply list_elem_of_fmap. by exists g.
Qed.

Lemma match_known ids known out :
  match_inv ids [] out -> match_inv ids [] (foldl (claim_known ids) out known).
Proof.
  apply match_fold. intros o e _ Ho. unfold claim_known. destruct (mem_spec (snd e) ids); [|done].
  by apply match_claim.
Qed.

(** The recorded mapping, when it is one, is kept. *)
Lemma known_kept ids known out :
  injective (out ++ known) -> (forall e, e ∈ known -> snd e ∈ ids) ->
  foldl (claim_known ids) out known = out ++ known.
Proof.
  revert out. induction known as [|[n g] known IH]; intros out Hi Hids; simpl; [by rewrite app_nil_r|].
  assert (E : claim_known ids out (n, g) = out ++ [(n, g)]).
  { unfold claim_known. simpl. destruct (mem_spec g ids) as [_|Hn]; [|exfalso; apply Hn, (Hids (n, g)); left].
    destruct Hi as [H1 H2]. unfold claim. rewrite !map_app in H1, H2. simpl in H1, H2.
    apply NoDup_app in H1 as (_ & H1 & _), H2 as (_ & H2 & _).
    destruct (mem_spec n (map fst out)) as [Hin|_]; [exfalso; apply (H1 n Hin); left|].
    destruct (mem_spec g (map snd out)) as [Hin|_]; [exfalso; apply (H2 g Hin); left|]. done. }
  rewrite E, IH; [by rewrite <- app_assoc|by rewrite <- app_assoc|]. intros e He. apply Hids. by right.
Qed.

Lemma mapping_correct nodes hosts known :
  let out := matchGarageNodes nodes hosts known in
  injective out /\ (forall e, e ∈ out -> snd e ∈ map gn_id nodes) /\
  (injective known -> (forall e, e ∈ known -> snd e ∈ map gn_id nodes) -> forall e, e ∈ known -> e ∈ out).
Proof.
  simpl. unfold matchGarageNodes.
  assert (H0 : match_inv (map gn_id nodes) [] []).
  { split; [split; constructor|..]; intros e He; by apply not_elem_of_nil in He. }
  pose proof (match_rest nodes hosts _ _ (match_known _ known _ H0)) as [H1 H2 _]. split_and!; [done..|].
  intros Hi Hids. pose proof (match_known (map gn_id nodes) known [] H0) as Hk.
  rewrite known_kept in Hk by done. rewrite app_nil_l in Hk.
  assert (Hk' : match_inv (map gn_id nodes) known known) by (destruct Hk; by split).
  rewrite known_kept by done. rewrite app_nil_l. by destruct (match_rest nodes hosts _ _ Hk').
Qed.

(** * The plan *)

Lemma needed_elem org desired layout ch :
  ch ∈ needed org desired layout <->
  (ch ∈ desired_roles org desired /\ satisfied (gl_roles layout) ch = false) \/
  (incomplete org desired = false /\ exists r, ch = Remove (lr_id r) /\ r ∈ gl_roles layout /\
     lr_id r ∉ map change_id (desired_roles org desired)).
Proof.
  unfold needed. rewrite js_sort_elem, elem_of_app, bfilter_elem, negb_true_iff.
  destruct (incomplete org desired).
  - split; [intros [?|H]; [by left|by apply not_elem_of_nil in H]|intros [?|[? _]]; [by left|done]].
  - unfold removals. rewrite list_elem_of_fmap. setoid_rewrite bfilter_elem. setoid_rewrite negb_true_iff.
    setoid_rewrite mem_false. split.
    + intros [?|(r & -> & Hr & Hw)]; [by left|right]. split; [done|]. by exists r.
    + intros [?|[_ (r & -> & Hr & Hw)]]; [by left|right]. by exists r.
Qed.

Lemma desired_roles_elem org desired ch : ch ∈ desired_roles org desired <->
  exists m g, m ∈ desired /\ known_id m = Some g /\
    ch = Assign g (zoneFor (dm_nodeId m)) (dm_capacityGb m * 1000000000) ["org:" +:+ org].
Proof.
  unfold desired_roles. rewrite list_elem_of_omap. unfold desired_role. split.
  - intros (m & Hm & E). destruct (known_id m) as [g|] eqn:Eg; [|done]. simplify_eq. by exists m, g.
  - intros (m & g & Hm & Hg & ->). exists m. by rewrite Hg.
Qed.

Lemma satisfied_role roles id zone capacity tags :
  satisfied roles (Assign id zone capacity tags) = true <->
  exists r, role_of roles id = Some r /\ lr_zone r = zone /\ lr_capacity r = Some capacity.
Proof.
  simpl. destruct (role_of roles id) as [r|]; [|split; [done|naive_solver]].
  rewrite andb_true_iff, String.eqb_eq, bool_decide_eq_true. naive_solver.
Qed.

(** Every declared and identified member has its role, and, once all are
    identified, nothing else has one. *)
Definition converged (org : string) (desired : list DesiredMember) (roles : list GarageLayoutRole) : Prop :=
  (forall m g, m ∈ desired -> known_id m = Some g ->
     exists r, role_of roles g = Some r /\ lr_zone r = zoneFor (dm_nodeId m) /\
       lr_capacity r = Some (dm_capacityGb m * 1000000000)) /\
  (incomplete org desired = false -> forall r, r ∈ roles -> exists m, m ∈ desired /\ known_id m = Some (lr_id r)).

Lemma needed_nil org desired layout :
  needed org desired layout = [] <-> converged org desired (gl_roles layout).
Proof.
  assert (Hw : forall id, id ∈ map change_id (desired_roles org desired) <-> exists m, m ∈ desired /\ known_id m = Some id).
  { intros id. rewrite list_elem_of_fmap. setoid_rewrite desired_roles_elem. split.
    - intros (ch & -> & m & g & Hm & Hg & ->). by exists m.
    - intros (m & Hm & Hg). eexists. split; [|exists m, id; by split_and!]. done. }
  split.
  - intros Hn. assert (Hno : forall ch, ch ∉ needed org desired layout) by (rewrite Hn; intros ch; apply not_elem_of_nil).
    setoid_rewrite needed_elem in Hno. split.
    + intros m g Hm Hg. apply (satisfied_role _ g (zoneFor (dm_nodeId m)) _ ["org:" +:+ org]).
      apply not_false_iff_true. intros Hs. eapply Hno. left. split; [|exact Hs].
      apply desired_roles_elem. by exists m, g.
    + intros Hi r Hr. apply Hw. destruct (mem_spec (lr_id r) (map change_id (desired_roles org desired))) as [|Hn']; [done|].
      exfalso. apply (Hno (Remove (lr_id r))). right. split; [done|]. by exists r.
  - intros [Hd Hr]. destruct (needed org desired layout) as [|ch l] eqn:E; [done|]. exfalso.
    assert (Hin : ch ∈ needed org desired layout) by (rewrite E; left).
    apply needed_elem in Hin as [[Hch Hs]|(Hi & r & -> & Hr' & Hnw)].
    + apply desired_roles_elem in Hch as (m & g & Hm & Hg & ->).
      assert (Ht : satisfied (gl_roles layout) (Assign g (zoneFor (dm_nodeId m)) (dm_capacityGb m * 1000000000) ["org:" +:+ org]) = true)
        by (apply satisfied_role; by apply Hd). by rewrite Ht in Hs.
    + apply Hnw, Hw. by apply Hr.
Qed.

Section garage.
(** What applying role changes does to the roles ([POST /layout/apply]): each
    change sets or clears the role of its node, the last one of a node counts,
    and the others keep theirs. *)
Context (apply_changes : list GarageLayoutRole -> list GarageLayoutChange -> list GarageLayoutRole).
Hypothesis apply_role : forall roles changes id,
  role_of (apply_changes roles changes) id =
  match List.find (fun ch => String.eqb (change_id ch) id) (rev changes) with
  | Some (Assign _ zone capacity _) => Some {| lr_id := id; lr_zone := zone; lr_capacity := Some capacity |}
  | Some (Remove _) => None
  | None => role_of roles id
  end.

Lemma role_of_in roles r : r ∈ roles -> exists r', role_of roles (lr_id r) = Some r' /\ lr_id r' = lr_id r.
Proof.
  intros Hr. unfold role_of. destruct (List.find _ _) as [r'|] eqn:E.
  - exists r'. split; [done|]. apply find_some in E as [_ E]. by apply String.eqb_eq in E.
  - exfalso. eapply find_none in E; [|by rewrite <- in_rev; apply list_elem_of_In].
    simpl in E. by rewrite String.eqb_refl in E.
Qed.

Lemma role_of_elem roles id r : role_of roles id = Some r -> r ∈ roles /\ lr_id r = id.
Proof.
  unfold role_of. intros [H E]%find_some. split; [apply list_elem_of_In; by apply in_rev|by apply String.eqb_eq].
Qed.

Lemma last_change changes id :
  match List.find (fun ch => String.eqb (change_id ch) id) (rev changes) with
  | Some ch => ch ∈ changes /\ change_id ch = id
  | None => forall ch, ch ∈ changes -> change_id ch <> id
  end.
Proof.
  destruct (List.find _ _) as [ch|] eqn:E.
  - apply find_some in E as [H E]. split; [apply list_elem_of_In; by apply in_rev|by apply String.eqb_eq].
  - intros ch Hch Hid. eapply find_none in E; [|by rewrite <- in_rev; apply list_elem_of_In].
    simpl in E. by rewrite Hid, String.eqb_refl in E.
Qed.

(** No two members are matched to one Garage node. *)
Definition distinct_ids (desired : list DesiredMember) : Prop :=
  forall m m' g, m ∈ desired -> m' ∈ desired -> known_id m = Some g -> known_id m' = Some g -> m = m'.

Lemma applied_converged org desired layout :
  distinct_ids desired ->
  converged org desired (apply_changes (gl_roles layout) (needed org desired layout)).
Proof using apply_role.
  intros Hdist. set (roles' := apply_changes _ _).
  assert (Hone : forall m g ch, m ∈ desired -> known_id m = Some g -> ch ∈ needed org desired layout -> change_id ch = g ->
    ch = Assign g (zoneFor (dm_nodeId m)) (dm_capacityGb m * 1000000000) ["org:" +:+ org]).
  { intros m g ch Hm Hg [[Hch _]|(_ & r & -> & _ & Hn)]%needed_elem Hid.
    - apply desired_roles_elem in Hch as (m' & g' & Hm' & Hg' & ->). simpl in Hid. subst g'.
      by rewrite (Hdist m m' g).
    - exfalso. apply Hn, list_elem_of_fmap. exists (Assign g (zoneFor (dm_nodeId m)) (dm_capacityGb m * 1000000000) ["org:" +:+ org]).
      split; [done|]. apply desired_roles_elem. by exists m, g. }
  split.
  - intros m g Hm Hg. unfold roles'. rewrite apply_role.
    pose proof (last_change (needed org desired layout) g) as Hl.
    destruct (List.find _ _) as [ch|].
    + destruct Hl as [Hch Hid]. rewrite (Hone m g ch Hm Hg Hch Hid). by eexists.
    + apply (satisfied_role _ g (zoneFor (dm_nodeId m)) _ ["org:" +:+ org]), not_false_iff_true.
      intros Hs. eapply Hl; [apply needed_elem; left; split; [|exact Hs]|done].
      apply desired_roles_elem. by exists m, g.
  - intros Hi r Hr. destruct (role_of_in roles' r Hr) as (r' & Hrole & _). unfold roles' in Hrole. rewrite apply_role in Hrole.
    pose proof (last_change (needed org desired layout) (lr_id r)) as Hl.
    destruct (List.find _ _) as [[id|id zone capacity tags]|]; [done| |].
    + destruct Hl as [Hch Hid]. apply needed_elem in Hch as [[Hch _]|(_ & ? & ? & _)]; [|done].
      apply desired_roles_elem in Hch as (m & g & Hm & Hg & Ech). simpl in Hid. simplify_eq. by exists m.
    + apply role_of_elem in Hrole as [Hin Hid].
      destruct (mem_spec (lr_id r) (map change_id (desired_roles org desired))) as [Hw|Hw].
      * apply list_elem_of_fmap in Hw as (ch & Eid & Hch).
        apply desired_roles_elem in Hch as (m & g & Hm & Hg & ->). simpl in Eid. exists m. by rewrite Eid.
      * exfalso. apply (Hl (Remove (lr_id r))); [|done]. apply needed_elem. right. split; [done|].
        exists r'. by rewrite Hid.
Qed.
End garage.

(** What two undisturbed calls make of a layout. *)
Definition converge_once apply_changes (org : string) (desired : list DesiredMember) (layout : GarageLayout) : GarageLayout :=
  fst (dispatch_plan apply_changes (planLayout org desired layout) true true layout).

Lemma converge_once_converged apply_changes org desired layout :
  converged org desired (gl_roles layout) -> converged org desired (gl_roles (converge_once apply_changes org desired layout)).
Proof.
  intros Hc. unfold converge_once, dispatch_plan, planLayout. rewrite (proj2 (needed_nil org desired layout) Hc). done.
Qed.

Lemma converge_once_staged apply_changes org desired layout :
  converged org desired (gl_roles layout) \/ gl_staged (converge_once apply_changes org desired layout) = [].
Proof.
  rewrite <- needed_nil. unfold converge_once, dispatch_plan. rewrite andb_false_r. simpl.
  destruct (needed org desired layout) as [|ch l]; [by left|by right].
Qed.

Lemma nothing_staged org desired layout :
  gl_staged layout = [] -> lp_stage (planLayout org desired layout) = needed org desired layout.
Proof. intros E. simpl. rewrite E. by rewrite filter_true. Qed.

Lemma converge_once_role apply_changes org desired layout :
  gl_staged layout = [] -> needed org desired layout <> [] ->
  gl_roles (converge_once apply_changes org desired layout) =
  apply_changes (gl_roles layout) (needed org desired layout).
Proof.
  intros E Hn. unfold converge_once, dispatch_plan. rewrite andb_false_r, nothing_staged by done. rewrite E.
  simpl. by destruct (needed org desired layout).
Qed.

Lemma planned_iff org desired layout :
  lp_applyVersion (planLayout org desired layout) = None <-> converged org desired (gl_roles layout).
Proof. rewrite <- needed_nil. simpl. by destruct (needed org desired layout). Qed.

Lemma removal_known org desired layout id :
  Remove id ∈ lp_stage (planLayout org desired layout) ->
  lp_incompleteMapping (planLayout org desired layout) = false /\ forall m, m ∈ desired -> known_id m <> Some id.
Proof.
  intros [Hin _]%bfilter_elem. apply needed_elem in Hin as [[Hch _]|(Hi & r & E & _ & Hw)].
  - by apply desired_roles_elem in Hch as (m & g & _ & _ & ?).
  - split; [done|]. intros m Hm Hg. apply Hw, list_elem_of_fmap. injection E as ->.
    exists (Assign (lr_id r) (zoneFor (dm_nodeId m)) (dm_capacityGb m * 1000000000) ["org:" +:+ org]).
    split; [done|]. apply desired_roles_elem. by exists m, (lr_id r).
Qed.

Lemma converge_from_clean apply_changes
  (apply_role : forall roles changes id,
    role_of (apply_changes roles changes) id =
    match List.find (fun ch => String.eqb (change_id ch) id) (rev changes) with
    | Some (Assign _ zone capacity _) => Some {| lr_id := id; lr_zone := zone; lr_capacity := Some capacity |}
    | Some (Remove _) => None
    | None => role_of roles id
    end) org desired layout :
  distinct_ids desired -> gl_staged layout = [] ->
  converged org desired (gl_roles (converge_once apply_changes org desired layout)).
Proof.
  intros Hd Hs. destruct (decide (needed org desired layout = [])) as [Hn|Hn].
  - apply converge_once_converged. by apply needed_nil.
  - rewrite converge_once_role by done. by apply applied_converged.
Qed.

(** ** Retries *)

Lemma backoff_pos n : 0 < n -> 0 < backoffTicks n.
Proof.
  intros Hn. unfold backoffTicks. destruct (Z.leb_spec n 0); [lia|].
  pose proof (Z.pow_pos_nonneg 2 (n - 1)). lia.
Qed.

Lemma plan_gate_spec tick st sig : 0 <= planAttempts st ->
  snd (plan_gate tick st sig) = true <-> skipUntilTick st <= tick /\ lastPlanSig st <> Some sig.
Proof.
  intros Hp. unfold plan_gate. case_bool_decide as E; simpl; rewrite Z.leb_le.
  - pose proof (backoff_pos (planAttempts st + 1)). split; [lia|tauto].
  - tauto.
Qed.

(** The plan for the layout was attempted, and did not change it. *)
Definition attempted sha256 (org : string) (desired : list DesiredMember) (layout : GarageLayout) (st : OrgState) : Prop :=
  0 <= planAttempts st /\
  lastPlanSig st = Some (planSignature sha256 (planLayout org desired layout) (gl_version layout)).

Lemma wedged sha256 apply_changes org desired layout tick posted applied st :
  has_work (planLayout org desired layout) = true -> attempted sha256 org desired layout st ->
  snd (layout_pass sha256 apply_changes tick org desired posted applied (st, layout)) = layout /\
  attempted sha256 org desired layout (fst (layout_pass sha256 apply_changes tick org desired posted applied (st, layout))).
Proof.
  intros Hw [Hp Hsig]. unfold layout_pass. destruct (tick <? skipUntilTick st); [done|]. rewrite Hw.
  pose proof (plan_gate_spec tick st (planSignature sha256 (planLayout org desired layout) (gl_version layout)) Hp) as Hg.
  destruct (plan_gate _ _ _) as [st' go] eqn:E. simpl in Hg.
  destruct go; [exfalso; by apply Hg|]. split; [done|]. unfold plan_gate in E. rewrite bool_decide_true in E by done.
  injection E as <- _. split; simpl; [lia|done].
Qed.

Lemma wedged_run sha256 apply_changes org desired layout passes st :
  has_work (planLayout org desired layout) = true -> attempted sha256 org desired layout st ->
  snd (foldl (fun s '(t, posted, applied) => layout_pass sha256 apply_changes t org desired posted applied s)
    (st, layout) passes) = layout.
Proof.
  intros Hw. revert st. induction passes as [|[[t posted] applied] passes IH]; intros st Ha; [done|]. cbn [foldl].
  destruct (wedged sha256 apply_changes org desired layout t posted applied st Hw Ha) as [E Ha'].
  destruct (layout_pass _ _ t _ _ _ _ _) as [st' layout']. simpl in E. subst layout'. by apply IH.
Qed.

Lemma first_failure sha256 apply_changes org desired layout tick applied :
  lp_stage (planLayout org desired layout) <> [] -> 0 <= tick ->
  exists st, layout_pass sha256 apply_changes tick org desired false applied (fresh_state, layout) = (st, layout) /\
    attempted sha256 org desired layout st.
Proof.
  intros Hs Ht. unfold layout_pass, has_work, dispatch_plan. rewrite bool_decide_false by done. simpl.
  destruct (Z.ltb_spec tick 0); [lia|]. destruct (Z.leb_spec 0 tick); [|lia].
  eexists. split; [done|]. done.
Qed.

Lemma wedged_from_start sha256 apply_changes org desired layout tick applied passes :
  lp_stage (planLayout org desired layout) <> [] -> 0 <= tick ->
  snd (foldl (fun s '(t, posted, applied) => layout_pass sha256 apply_changes t org desired posted applied s)
    (fresh_state, layout) ((tick, false, applied) :: passes)) = layout.
Proof.
  intros Hs Ht. cbn [foldl].
  destruct (first_failure sha256 apply_changes org desired layout tick applied Hs Ht) as (st & -> & Ha).
  apply wedged_run; [|done]. unfold has_work. by rewrite bool_decide_false.
Qed.

(** C39: the storage layout. Matching servers to Garage nodes is one to one,
    onto nodes that exist, and keeps the mapping recorded before. A plan demands
    an apply exactly when the layout has not converged; it never removes a
    declared member, nor anything while a member is not identified. When the
    calls it makes go through, the layout has converged after one pass if nothing
    was staged before, and after two whatever was. *)
Theorem storage_converges apply_changes
  (apply_role : forall roles changes id,
    role_of (apply_changes roles changes) id =
    match List.find (fun ch => String.eqb (change_id ch) id) (rev changes) with
    | Some (Assign _ zone capacity _) => Some {| lr_id := id; lr_zone := zone; lr_capacity := Some capacity |}
    | Some (Remove _) => None
    | None => role_of roles id
    end) org desired layout :
  (forall nodes hosts known, let out := matchGarageNodes nodes hosts known in
     injective out /\ (forall e, e ∈ out -> snd e ∈ map gn_id nodes) /\
     (injective known -> (forall e, e ∈ known -> snd e ∈ map gn_id nodes) -> forall e, e ∈ known -> e ∈ out)) /\
  (lp_applyVersion (planLayout org desired layout) = None <-> converged org desired (gl_roles layout)) /\
  (forall id, Remove id ∈ lp_stage (planLayout org desired layout) ->
     lp_incompleteMapping (planLayout org desired layout) = false /\
     forall m, m ∈ desired -> known_id m <> Some id) /\
  (distinct_ids desired ->
     let pass := converge_once apply_changes org desired in
     (gl_staged layout = [] -> converged org desired (gl_roles (pass layout))) /\
     converged org desired (gl_roles (pass (pass layout)))).
Proof.
  split_and!; [exact mapping_correct|apply planned_iff|apply removal_known|].
  intros Hd pass. split; [by apply (converge_from_clean apply_changes apply_role)|].
  destruct (converge_once_staged apply_changes org desired layout) as [Hc|Hs].
  - by do 2 apply converge_once_converged.
  - by apply (converge_from_clean apply_changes apply_role).
Qed.

(** Retries of a layout plan. A plan is dispatched exactly when the
    worker is not backing off and its signature is not that of the last attempt;
    so a plan whose staging call failed once is never dispatched again, however
    many passes follow: the layout stays as it was. *)
Theorem storage_failed_plan_never_retried sha256 apply_changes org desired layout tick applied passes :
  lp_stage (planLayout org desired layout) <> [] -> 0 <= tick ->
  (forall st sig, 0 <= planAttempts st ->
     snd (plan_gate tick st sig) = true <-> skipUntilTick st <= tick /\ lastPlanSig st <> Some sig) /\
  (let pass s '(t, posted, applied) := layout_pass sha256 apply_changes t org desired posted applied s in
   snd (foldl pass (fresh_state, layout) ((tick, false, applied) :: passes)) = layout).
Proof.
  intros Hs Ht. split; [intros st sig; apply plan_gate_spec|]. by apply wedged_from_start.
Qed.

(** * Witness *)

(** Changes applied one by one. *)
Definition apply_one (roles : list GarageLayoutRole) (ch : GarageLayoutChange) : list GarageLayoutRole :=
  let others := List.filter (fun r => negb (String.eqb (lr_id r) (change_id ch))) roles in
  match ch with
  | Remove _ => others
  | Assign id zone capacity _ => others ++ [ {| lr_id := id; lr_zone := zone; lr_capacity := Some capacity |} ]
  end.

Definition apply_all (roles : list GarageLayoutRole) (changes : list GarageLayoutChange) : list GarageLayoutRole :=
  foldl apply_one roles changes.

Lemma role_of_app roles r id :
  role_of (roles ++ [r]) id = if String.eqb (lr_id r) id then Some r else role_of roles id.
Proof. unfold role_of. rewrite rev_app_distr. done. Qed.

Lemma role_of_others roles gone id :
  role_of (List.filter (fun r => negb (String.eqb (lr_id r) gone)) roles) id =
  if String.eqb gone id then None else role_of roles id.
Proof.
  induction roles as [|r roles IH] using rev_ind; [by destruct (String.eqb gone id)|].
  rewrite List.filter_app. simpl. rewrite role_of_app.
  destruct (String.eqb_spec (lr_id r) gone) as [E|E]; simpl.
  - rewrite app_nil_r, IH. destruct (String.eqb_spec gone id) as [->|Hne]; [done|].
    destruct (String.eqb_spec (lr_id r) id); [congruence|done].
  - rewrite role_of_app, IH. destruct (String.eqb_spec (lr_id r) id), (String.eqb_spec gone id); congruence.
Qed.

Lemma apply_all_role roles changes id :
  role_of (apply_all roles changes) id =
  match List.find (fun ch => String.eqb (change_id ch) id) (rev changes) with
  | Some (Assign _ zone capacity _) => Some {| lr_id := id; lr_zone := zone; lr_capacity := Some capacity |}
  | Some (Remove _) => None
  | None => role_of roles id
  end.
Proof.
  induction changes as [|ch changes IH] using rev_ind; [done|].
  unfold apply_all in *. rewrite foldl_app, rev_app_distr. cbn [foldl].
  revert IH. generalize (foldl apply_one roles changes) as rs. intros rs IH.
  destruct ch as [g|g zone capacity tags]; unfold apply_one; simpl.
  - rewrite role_of_others, IH. by destruct (String.eqb g id).
  - rewrite role_of_app, role_of_others, IH. simpl. by destruct (String.eqb_spec g id) as [->|].
Qed.

Definition sample_members : list DesiredMember :=
  [ {| dm_nodeId := "n1"; dm_garageNodeId := Some "g1"; dm_capacityGb := 100 |};
    {| dm_nodeId := "n2"; dm_garageNodeId := Some "g2"; dm_capacityGb := 50 |} ].

Definition sample_layout : GarageLayout :=
  {| gl_version := 3; gl_staged := [];
     gl_roles := [ {| lr_id := "g1"; lr_zone := "node-n1"; lr_capacity := Some 100000000000 |};
                   {| lr_id := "g9"; lr_zone := "node-n9"; lr_capacity := Some 1 |} ] |}.

Example sample_plan : planLayout "acme" sample_members sample_layout =
  {| lp_stage := [Assign "g2" "node-n2" 50000000000 ["org:acme"]; Remove "g9"]; lp_applyVersion := Some 4;
     lp_incompleteMapping := false |}.
Proof. vm_compute. reflexivity. Qed.

Lemma sample_distinct : distinct_ids sample_members.
Proof.
  intros m m' g Hm%list_elem_of_In Hm'%list_elem_of_In Hg Hg'.
  destruct Hm as [<-|[<-|[]]], Hm' as [<-|[<-|[]]]; try done; unfold known_id in *; simpl in *; congruence.
Qed.

Lemma storage_converges_witness :
  distinct_ids sample_members /\
  converged "acme" sample_members (gl_roles (converge_once apply_all "acme" sample_members sample_layout)).
Proof.
  split; [exact sample_distinct|].
  destruct (storage_converges apply_all apply_all_role "acme" sample_members sample_layout) as (_ & _ & _ & H).
  exact (proj1 (H sample_distinct) eq_refl).
Defined.

Lemma storage_failed_plan_never_retried_witness :
  snd (foldl (fun s '(t, posted, applied) => layout_pass id apply_all t "acme" sample_members posted applied s)
    (fresh_state, sample_layout) [(1, false, true); (2, true, true); (4, true, true)]) = sample_layout.
Proof.
  apply (proj2 (storage_failed_plan_never_retried id apply_all "acme" sample_members sample_layout 1 true
    [(2, true, true); (4, true, true)] ltac:(done) ltac:(lia))).
Defined.
