(* ===== verification/Upgrade.v ===== *)
(** Platform upgrades (packages/trpc/src/services/platform-upgrade.plan.ts): the
    step engine that drives a persisted run across restarts of the controller,
    the decision of the step that replaces the controller itself, and the row's
    life in platform-upgrade.service.ts (start, drive and resume, retry, dismiss).

    A step's handler is a parameter: what it leaves in its step's data and
    detail, what it notes and where it checkpoints is a [Behaviour], a function
    of the run it finds.  A drive that dies leaves the row as it was last
    persisted, so a crash is a prefix of the states a drive persists.  [now] gives
    the time of each reading of the clock. *)

From S2P Require Import Prelude Comparators.

Inductive StepKey := preflight | controller | agents | system | engines | verify.

#[export] Instance StepKey_eq_dec : EqDecision StepKey.
Proof. solve_decision. Defined.

Definition STEP_ORDER : list StepKey := [preflight; controller; agents; system; engines; verify].

Definition STEP_LABEL (k : StepKey) : string :=
  match k with
  | preflight => "Preflight"
  | controller => "Controller"
  | agents => "Agents"
  | system => "System services"
  | engines => "Engine upgrades"
  | verify => "Verify"
  end.

(** [STEP_ORDER.indexOf(key)] *)
Definition step_index (k : StepKey) : Z :=
  match k with preflight => 0 | controller => 1 | agents => 2 | system => 3 | engines => 4 | verify => 5 end.

Inductive StepStatus := st_pending | st_running | st_waiting | st_done | st_skipped | st_failed | st_rolled_back.

#[export] Instance StepStatus_eq_dec : EqDecision StepStatus.
Proof. solve_decision. Defined.

Inductive RunStatus := run_running | run_done | run_failed | run_cancelled.

#[export] Instance RunStatus_eq_dec : EqDecision RunStatus.
Proof. solve_decision. Defined.

(** [D] is the resume state of the handlers. *)
Record StepState (D : Type) := {
  ss_key : StepKey; ss_status : StepStatus; ss_detail : option string; ss_error : option string;
  ss_startedAt : option string; ss_finishedAt : option string; ss_data : option D
}.
Arguments ss_key {D}.
Arguments ss_status {D}.
Arguments ss_detail {D}.
Arguments ss_error {D}.
Arguments ss_startedAt {D}.
Arguments ss_finishedAt {D}.
Arguments ss_data {D}.

Record RunState (D : Type) := {
  rs_status : RunStatus; rs_step : StepKey; rs_steps : list (StepState D);
  rs_error : option string; rs_log : list (string * string)
}.
Arguments rs_status {D}.
Arguments rs_step {D}.
Arguments rs_steps {D}.
Arguments rs_error {D}.
Arguments rs_log {D}.

Inductive StepOutcome :=
  | O_done (detail : option string)
  | O_skipped (detail : option string)
  | O_wait (detail : option string).

(** What a handler leaves between two checkpoints. *)
Record Work (D : Type) := { wk_data : option D; wk_detail : option string; wk_notes : list string }.
Arguments wk_data {D}.
Arguments wk_detail {D}.
Arguments wk_notes {D}.

Record Behaviour (D E : Type) := { bh_units : list (Work D); bh_last : Work D; bh_end : E }.
Arguments bh_units {D E}.
Arguments bh_last {D E}.
Arguments bh_end {D E}.

(** A handler returns an outcome or throws; a rollback returns words to note,
    or throws. *)
Record StepHandler (D : Type) := {
  h_run : RunState D -> Behaviour D (StepOutcome + string);
  h_rollback : option (RunState D -> string -> Behaviour D (option string + string))
}.
Arguments h_run {D}.
Arguments h_rollback {D}.

Definition StepHandlers (D : Type) : Type := StepKey -> StepHandler D.

Inductive DriveResult := R_done | R_failed | R_waiting | R_idle.

(** * The engine *)

Section engine.
Context {D : Type} (now : nat -> string).

Definition pending_step (k : StepKey) : StepState D :=
  {| ss_key := k; ss_status := st_pending; ss_detail := None; ss_error := None; ss_startedAt := None;
     ss_finishedAt := None; ss_data := None |}.

Definition initialSteps : list (StepState D) := map pending_step STEP_ORDER.

Definition newRunState : RunState D :=
  {| rs_status := run_running; rs_step := preflight; rs_steps := initialSteps; rs_error := None; rs_log := [] |}.

Definition LOG_TAIL : nat := 200.

(** A drive under way: the run in memory, the readings of the clock so far, the
    states persisted and the handlers entered. *)
Record Drive := {
  dr_run : RunState D; dr_ticks : nat; dr_saved : list (RunState D); dr_calls : list StepKey
}.

Definition with_run (d : Drive) (r : RunState D) : Drive :=
  {| dr_run := r; dr_ticks := dr_ticks d; dr_saved := dr_saved d; dr_calls := dr_calls d |}.

Definition tick (d : Drive) : Drive :=
  {| dr_run := dr_run d; dr_ticks := S (dr_ticks d); dr_saved := dr_saved d; dr_calls := dr_calls d |}.

(** [log.slice(-LOG_TAIL)] after the new entry. *)
Definition noteOn (run : RunState D) (msg at_ : string) : RunState D :=
  let log := rs_log run ++ [(at_, msg)] in
  {| rs_status := rs_status run; rs_step := rs_step run; rs_steps := rs_steps run; rs_error := rs_error run;
     rs_log := drop (length log - LOG_TAIL) log |}.

Definition note (msg : string) (d : Drive) : Drive :=
  tick (with_run d (noteOn (dr_run d) msg (now (dr_ticks d)))).

Definition checkpoint (d : Drive) : Drive :=
  {| dr_run := dr_run d; dr_ticks := dr_ticks d; dr_saved := dr_saved d ++ [dr_run d]; dr_calls := dr_calls d |}.

Definition find_step (k : StepKey) (steps : list (StepState D)) : option (StepState D) :=
  List.find (fun s => bool_decide (ss_key s = k)) steps.

(** Mutating the step object the run holds. *)
Fixpoint update_step (k : StepKey) (f : StepState D -> StepState D) (steps : list (StepState D)) : list (StepState D) :=
  match steps with
  | [] => []
  | s :: l => if bool_decide (ss_key s = k) then f s :: l else s :: update_step k f l
  end.

Definition set_steps (run : RunState D) (steps : list (StepState D)) : RunState D :=
  {| rs_status := rs_status run; rs_step := rs_step run; rs_steps := steps; rs_error := rs_error run; rs_log := rs_log run |}.

Definition set_status (s : RunStatus) (e : option string) (run : RunState D) : RunState D :=
  {| rs_status := s; rs_step := rs_step run; rs_steps := rs_steps run; rs_error := e; rs_log := rs_log run |}.

Definition set_current (k : StepKey) (run : RunState D) : RunState D :=
  {| rs_status := rs_status run; rs_step := k; rs_steps := rs_steps run; rs_error := rs_error run; rs_log := rs_log run |}.

(** [stepOf]: a step missing from the row is added in its place. *)
Definition stepOf (run : RunState D) (k : StepKey) : RunState D * StepState D :=
  match find_step k (rs_steps run) with
  | Some s => (run, s)
  | None =>
      (set_steps run (js_sort (cmp_asc (fun s => step_index (ss_key s))) (rs_steps run ++ [pending_step k])), pending_step k)
  end.

Definition on_step (k : StepKey) (f : StepState D -> StepState D) (d : Drive) : Drive :=
  with_run d (set_steps (dr_run d) (update_step k f (rs_steps (dr_run d)))).

Definition mark (st : StepStatus) (s : StepState D) : StepState D :=
  {| ss_key := ss_key s; ss_status := st; ss_detail := ss_detail s; ss_error := ss_error s;
     ss_startedAt := ss_startedAt s; ss_finishedAt := ss_finishedAt s; ss_data := ss_data s |}.

Definition mark_started (at_ : string) (s : StepState D) : StepState D :=
  {| ss_key := ss_key s; ss_status := st_running; ss_detail := ss_detail s; ss_error := ss_error s;
     ss_startedAt := Some (default at_ (ss_startedAt s)); ss_finishedAt := ss_finishedAt s; ss_data := ss_data s |}.

Definition mark_finished (at_ : string) (s : StepState D) : StepState D :=
  {| ss_key := ss_key s; ss_status := ss_status s; ss_detail := ss_detail s; ss_error := ss_error s;
     ss_startedAt := ss_startedAt s; ss_finishedAt := Some at_; ss_data := ss_data s |}.

Definition mark_error (e : string) (s : StepState D) : StepState D :=
  {| ss_key := ss_key s; ss_status := st_failed; ss_detail := ss_detail s; ss_error := Some e;
     ss_startedAt := ss_startedAt s; ss_finishedAt := ss_finishedAt s; ss_data := ss_data s |}.

Definition mark_detail (d : option string) (s : StepState D) : StepState D :=
  {| ss_key := ss_key s; ss_status := ss_status s;
     ss_detail := match truthy_str d with Some x => Some x | None => ss_detail s end; ss_error := ss_error s;
     ss_startedAt := ss_startedAt s; ss_finishedAt := ss_finishedAt s; ss_data := ss_data s |}.

Definition mark_work (w : Work D) (s : StepState D) : StepState D :=
  {| ss_key := ss_key s; ss_status := ss_status s; ss_detail := wk_detail w; ss_error := ss_error s;
     ss_startedAt := ss_startedAt s; ss_finishedAt := ss_finishedAt s; ss_data := wk_data w |}.

(** What a handler does to the run. *)
Definition do_work (k : StepKey) (w : Work D) (d : Drive) : Drive :=
  foldl (fun d msg => note msg d) (on_step k (mark_work w) d) (wk_notes w).

Definition perform {E} (k : StepKey) (b : Behaviour D E) (d : Drive) : Drive :=
  do_work k (bh_last b) (foldl (fun d w => checkpoint (do_work k w d)) d (bh_units b)).

(** [step.finishedAt = now().toISOString()] *)
Definition finish (k : StepKey) (d : Drive) : Drive :=
  tick (on_step k (mark_finished (now (dr_ticks d))) d).

(** The [catch] of a step: its rollback, and the run is failed. *)
Definition roll_back (h : StepHandler D) (k : StepKey) (reason : string) (d : Drive) : Drive :=
  match h_rollback h with
  | None => d
  | Some rb =>
      let b := rb (dr_run d) reason in
      let d := perform k b d in
      match bh_end b with
      | inl r =>
          note (STEP_LABEL k +:+ " rolled back" +:+ match truthy_str r with Some x => ": " +:+ x | None => "" end)
            (on_step k (mark st_rolled_back) d)
      | inr re => note (STEP_LABEL k +:+ " ROLLBACK FAILED: " +:+ re) d
      end
  end.

Definition fail_step (h : StepHandler D) (k : StepKey) (reason : string) (d : Drive) : Drive :=
  let d := on_step k (mark_error reason) d in
  let d := note (STEP_LABEL k +:+ " failed: " +:+ reason) d in
  let d := finish k (roll_back h k reason d) in
  checkpoint (with_run d (set_status run_failed (Some (STEP_LABEL k +:+ ": " +:+ reason)) (dr_run d))).

Definition detail_note (o : option string) : string :=
  match truthy_str o with Some x => " — " +:+ x | None => "" end.

Definition complete_step (k : StepKey) (st : StepStatus) (word : string) (detail : option string) (d : Drive) : Drive :=
  let d := finish k (on_step k (mark_detail detail) (on_step k (mark st) d)) in
  checkpoint (note (STEP_LABEL k +:+ ": " +:+ word +:+ detail_note detail) d).

(** Entering a step: it is marked running and persisted before its handler. *)
Definition enter_step (k : StepKey) (s : StepState D) (d : Drive) : Drive :=
  let d := with_run d (set_current k (dr_run d)) in
  let d := match ss_status s with
           | st_running | st_waiting => d
           | _ => note (STEP_LABEL k +:+ ": started") d
           end in
  let at_ := now (dr_ticks d) in
  let d := on_step k (mark_started at_) d in
  let d := match ss_startedAt s with Some _ => d | None => tick d end in
  checkpoint d.

Definition called (k : StepKey) (d : Drive) : Drive :=
  {| dr_run := dr_run d; dr_ticks := dr_ticks d; dr_saved := dr_saved d; dr_calls := dr_calls d ++ [k] |}.

Definition run_step (h : StepHandler D) (k : StepKey) (s : StepState D) (d : Drive) : Drive * option DriveResult :=
  let d := called k (enter_step k s d) in
  let b := h_run h (dr_run d) in
  let d := perform k b d in
  match bh_end b with
  | inr reason => (fail_step h k reason d, Some R_failed)
  | inl (O_wait detail) => (checkpoint (on_step k (mark_detail detail) (on_step k (mark st_waiting) d)), Some R_waiting)
  | inl (O_done detail) => (complete_step k st_done "done" detail d, None)
  | inl (O_skipped detail) => (complete_step k st_skipped "skipped" detail d, None)
  end.

Definition finished (st : StepStatus) : bool := match st with st_done | st_skipped => true | _ => false end.

Fixpoint drive_from (handlers : StepHandlers D) (keys : list StepKey) (d : Drive) : Drive * DriveResult :=
  match keys with
  | [] => (checkpoint (with_run d (set_status run_done None (dr_run d))), R_done)
  | k :: keys' =>
      let '(run, s) := stepOf (dr_run d) k in
      let d := with_run d run in
      if finished (ss_status s) then drive_from handlers keys' d
      else
        match run_step (handlers k) k s d with
        | (d', Some r) => (d', r)
        | (d', None) => drive_from handlers keys' d'
        end
  end.

Definition start_drive (run : RunState D) : Drive := {| dr_run := run; dr_ticks := O; dr_saved := []; dr_calls := [] |}.

Definition driveRun (run : RunState D) (handlers : StepHandlers D) : Drive * DriveResult :=
  match rs_status run with
  | run_running => drive_from handlers (drop (Z.to_nat (step_index (rs_step run))) STEP_ORDER) (start_drive run)
  | _ => (start_drive run, R_idle)
  end.

Definition run_status_text (s : RunStatus) : string :=
  match s with run_running => "running" | run_done => "done" | run_failed => "failed" | run_cancelled => "cancelled" end.

Definition rearm (s : StepState D) : StepState D :=
  {| ss_key := ss_key s; ss_status := st_pending; ss_detail := ss_detail s; ss_error := None;
     ss_startedAt := ss_startedAt s; ss_finishedAt := None; ss_data := ss_data s |}.

Definition retryRun (run : RunState D) (at_ : string) : res (RunState D) :=
  match rs_status run with
  | run_failed =>
      let run := fst (stepOf run (rs_step run)) in
      let run := set_steps run (update_step (rs_step run) rearm (rs_steps run)) in
      let run := set_status run_running None run in
      Ok (noteOn run ("retrying from " +:+ STEP_LABEL (rs_step run)) at_)
  | st => Err ("only a failed run can be retried (this one is " +:+ run_status_text st +:+ ")")
  end.

Definition runProgress (run : RunState D) : nat * nat :=
  let n := length (List.filter (fun s => finished (ss_status s)) (rs_steps run)) in
  (match rs_status run with run_done => length STEP_ORDER | _ => n end, length STEP_ORDER).

(** Dismissing a failed run ([cancelPlatformUpgrade]). *)
Definition dismissRun (run : RunState D) : res (RunState D) :=
  match rs_status run with
  | run_failed =>
      Ok {| rs_status := run_cancelled; rs_step := rs_step run; rs_steps := rs_steps run; rs_error := rs_error run;
            rs_log := rs_log run |}
  | st => Err ("only a failed run can be dismissed (this one is " +:+ run_status_text st +:+ ")")
  end.
End engine.

(** * The engine: lemmas *)

Section engine_facts.
Context {D : Type} (now : nat -> string).
Implicit Types (r : RunState D) (d : Drive (D:=D)) (s : StepState D).

Definition step_of r (k : StepKey) : option (StepState D) := find_step k (rs_steps r).

Definition status_of r (k : StepKey) : option StepStatus := ss_status <$> step_of r k.

Definition fin r (k : StepKey) : Prop := exists s, step_of r k = Some s /\ finished (ss_status s) = true.

Definition keys_ok r : Prop := map ss_key (rs_steps r) = STEP_ORDER.

(** Every step before [k] is finished and every step after it is untouched. *)
Definition at_step (k : StepKey) r : Prop :=
  keys_ok r /\ (forall a, step_index a < step_index k -> fin r a) /\
  (forall b, step_index k < step_index b -> status_of r b = Some st_pending).

(** What a persisted row satisfies. *)
Definition row_ok r : Prop :=
  at_step (rs_step r) r /\
  match rs_status r with
  | run_running => True
  | run_done => forall k, fin r k
  | run_failed | run_cancelled =>
      status_of r (rs_step r) = Some st_failed \/ status_of r (rs_step r) = Some st_rolled_back
  end.

(** Nothing but step [k] differs. *)
Definition touches (k : StepKey) r r' : Prop :=
  map ss_key (rs_steps r') = map ss_key (rs_steps r) /\ forall a, a <> k -> step_of r' a = step_of r a.

(** Finished steps are as they were. *)
Definition keeps r r' : Prop := forall k s, step_of r k = Some s -> finished (ss_status s) = true -> step_of r' k = Some s.

#[export] Instance touches_preorder k : PreOrder (touches k).
Proof.
  split; [by intros r|]. intros r1 r2 r3 [K1 H1] [K2 H2]. split; [congruence|].
  intros a Ha. rewrite H2, H1; done.
Qed.

#[export] Instance keeps_preorder : PreOrder keeps.
Proof. split; [by intros r k s|]. intros r1 r2 r3 H1 H2 k s Hk Hf. apply H2; [by apply H1|done]. Qed.

Definition keyed (f : StepState D -> StepState D) : Prop := forall s, ss_key (f s) = ss_key s.

Lemma update_keys k f steps : keyed f -> map ss_key (update_step k f steps) = map ss_key steps.
Proof. intros Hf. induction steps as [|s l IH]; simpl; [done|]. case_bool_decide; simpl; congruence. Qed.

Lemma update_find k f steps a : keyed f ->
  find_step a (update_step k f steps) = if decide (a = k) then f <$> find_step a steps else find_step a steps.
Proof.
  intros Hf. induction steps as [|s l IH]; simpl; [by case_decide|].
  case_bool_decide as E; simpl; rewrite ?Hf; repeat case_bool_decide; repeat case_decide; simpl; try congruence.
Qed.

Lemma find_step_key k steps s : find_step k steps = Some s -> ss_key s = k.
Proof. intros [_ H]%find_some. by apply bool_decide_eq_true_1 in H. Qed.

Lemma find_step_some k steps : k ∈ map ss_key steps -> exists s, find_step k steps = Some s.
Proof.
  induction steps as [|s l IH]; simpl; [by intros ?%not_elem_of_nil|].
  intros [->|H]%elem_of_cons; [rewrite bool_decide_true by done; by eexists|].
  case_bool_decide; [by eexists|by apply IH].
Qed.

Lemma all_keys k : k ∈ STEP_ORDER.
Proof. destruct k; unfold STEP_ORDER; set_solver. Qed.

Lemma keys_find r k : keys_ok r -> exists s, step_of r k = Some s.
Proof. intros Hk. apply find_step_some. rewrite Hk. apply all_keys. Qed.

Lemma stepOf_ok r k : keys_ok r -> exists s, step_of r k = Some s /\ stepOf r k = (r, s).
Proof. intros Hk. destruct (keys_find r k Hk) as [s Hs]. exists s. split; [done|]. unfold stepOf, step_of in *. by rewrite Hs. Qed.

Lemma step_index_inj a b : step_index a = step_index b -> a = b.
Proof. by destruct a, b. Qed.

Lemma at_step_touches k r r' : touches k r r' -> at_step k r -> at_step k r'.
Proof.
  intros [Hk Ht] (K & H1 & H2). split_and!.
  - unfold keys_ok. congruence.
  - intros a Ha. destruct (H1 a Ha) as (s & Hs & Hf). exists s. rewrite Ht; [done|]. intros ->. lia.
  - intros b Hb. unfold status_of. rewrite Ht; [by apply H2|]. intros ->. lia.
Qed.

(** The first unfinished step is the current one. *)
Lemma at_step_move j k r :
  at_step j r -> (forall a, step_index a < step_index k -> fin r a) -> ~ fin r k -> at_step k r.
Proof.
  intros (K & H1 & H2) Hb Hn. split_and!; [done..|]. intros b Hlt. apply H2.
  destruct (Z.lt_ge_cases (step_index k) (step_index j)); [exfalso; by apply Hn, H1|lia].
Qed.

Lemma touches_keeps k r r' : touches k r r' -> ~ fin r k -> keeps r r'.
Proof.
  intros [_ Ht] Hn a s Hs Hf. rewrite Ht; [done|]. intros ->. apply Hn. by exists s.
Qed.

Lemma touches_set k f r : keyed f -> touches k r (set_steps r (update_step k f (rs_steps r))).
Proof.
  intros Hf. split; [by apply update_keys|]. intros a Ha. unfold step_of. simpl. rewrite update_find by done.
  by rewrite decide_False.
Qed.

(** A drive inside step [k], since the run was [r0] and [d0] had been saved. *)
Definition during (k : StepKey) r0 (saved : list (RunState D)) (calls : list StepKey) d : Prop :=
  touches k r0 (dr_run d) /\ rs_step (dr_run d) = k /\ rs_status (dr_run d) = run_running /\ dr_calls d = calls /\
  exists new, dr_saved d = saved ++ new /\
    Forall (fun r => touches k r0 r /\ rs_step r = k /\ rs_status r = run_running) new.

Lemma during_note k r0 saved calls msg d : during k r0 saved calls d -> during k r0 saved calls (note now msg d).
Proof. intros (H1 & H2 & H3 & H4 & H5). split_and!; done. Qed.

Lemma during_tick k r0 saved calls d : during k r0 saved calls d -> during k r0 saved calls (tick d).
Proof. intros (H1 & H2 & H3 & H4 & H5). split_and!; done. Qed.

Lemma during_on_step k r0 saved calls f d :
  keyed f -> during k r0 saved calls d -> during k r0 saved calls (on_step k f d).
Proof.
  intros Hf (H1 & H2 & H3 & H4 & H5). split_and!; try done. simpl. etrans; [exact H1|by apply touches_set].
Qed.

Lemma during_checkpoint k r0 saved calls d : during k r0 saved calls d -> during k r0 saved calls (checkpoint d).
Proof.
  intros (H1 & H2 & H3 & H4 & new & H5 & H6). split_and!; try done. exists (new ++ [dr_run d]). simpl.
  split; [by rewrite H5, app_assoc|]. apply Forall_app. split; [done|]. by constructor.
Qed.

Lemma during_work k r0 saved calls w d : during k r0 saved calls d -> during k r0 saved calls (do_work now k w d).
Proof.
  intros H. unfold do_work. assert (H' : during k r0 saved calls (on_step k (mark_work w) d)) by by apply during_on_step.
  revert H'. generalize (on_step k (mark_work w) d) as d'. induction (wk_notes w) as [|m l IH]; intros d' H'; simpl; [done|].
  by apply IH, during_note.
Qed.

Lemma during_perform {E} k r0 saved calls (b : Behaviour D E) d :
  during k r0 saved calls d -> during k r0 saved calls (perform now k b d).
Proof.
  intros H. unfold perform. apply during_work. revert d H. induction (bh_units b) as [|w l IH]; intros d H; simpl; [done|].
  by apply IH, during_checkpoint, during_work.
Qed.

Lemma during_finish k r0 saved calls d : during k r0 saved calls d -> during k r0 saved calls (finish now k d).
Proof. intros H. apply during_tick. by apply during_on_step. Qed.

Lemma during_roll_back k r0 saved calls h reason d :
  during k r0 saved calls d -> during k r0 saved calls (roll_back now h k reason d).
Proof.
  intros H. unfold roll_back. destruct (h_rollback h) as [rb|]; [|done].
  pose proof (during_perform k r0 saved calls (rb (dr_run d) reason) d H).
  destruct (bh_end _); apply during_note; [by apply during_on_step|done].
Qed.

Lemma during_enter k r0 saved calls s d :
  touches k r0 (dr_run d) -> rs_status (dr_run d) = run_running -> dr_calls d = calls -> dr_saved d = saved ->
  during k r0 saved calls (enter_step now k s d).
Proof.
  intros H1 H2 H3 H4. unfold enter_step. apply during_checkpoint.
  assert (Hb : during k r0 saved calls (with_run d (set_current k (dr_run d)))).
  { split_and!; try done. exists []. by rewrite app_nil_r. }
  destruct (ss_startedAt s); try apply during_tick; (apply during_on_step; [done|]);
    destruct (ss_status s); try apply during_note; done.
Qed.

(** Work leaves the status of the step alone. *)
Lemma status_on_step k f d : keyed f ->
  status_of (dr_run (on_step k f d)) k = ss_status ∘ f <$> step_of (dr_run d) k.
Proof.
  intros Hf. unfold status_of, step_of. simpl. rewrite update_find by done. rewrite decide_True by done.
  by destruct (find_step k _).
Qed.

Lemma status_work k w d : status_of (dr_run (do_work now k w d)) k = status_of (dr_run d) k.
Proof.
  unfold do_work. transitivity (status_of (dr_run (on_step k (mark_work w) d)) k).
  - generalize (on_step k (mark_work w) d) as d'. induction (wk_notes w) as [|m l IH]; intros d'; simpl; [done|].
    by rewrite IH.
  - rewrite status_on_step by done. unfold status_of. by destruct (step_of (dr_run d) k).
Qed.

Lemma status_perform {E} k (b : Behaviour D E) d : status_of (dr_run (perform now k b d)) k = status_of (dr_run d) k.
Proof.
  unfold perform. rewrite status_work. revert d. induction (bh_units b) as [|w l IH]; intros d; simpl; [done|].
  rewrite IH. apply status_work.
Qed.

Lemma status_finish k d : status_of (dr_run (finish now k d)) k = status_of (dr_run d) k.
Proof.
  change (status_of (dr_run (on_step k (mark_finished (now (dr_ticks d))) d)) k = status_of (dr_run d) k).
  rewrite status_on_step by done. unfold status_of. by destruct (step_of (dr_run d) k).
Qed.

Lemma status_roll_back k h reason d :
  status_of (dr_run d) k = Some st_failed ->
  status_of (dr_run (roll_back now h k reason d)) k = Some st_failed \/
  status_of (dr_run (roll_back now h k reason d)) k = Some st_rolled_back.
Proof.
  intros H. unfold roll_back. destruct (h_rollback h) as [rb|]; [|by left].
  assert (Hp : status_of (dr_run (perform now k (rb (dr_run d) reason) d)) k = Some st_failed)
    by by rewrite status_perform.
  destruct (bh_end _); [right|by left].
  change (status_of (dr_run (on_step k (mark st_rolled_back) (perform now k (rb (dr_run d) reason) d))) k = Some st_rolled_back).
  rewrite status_on_step by done. unfold status_of in Hp. by destruct (step_of _ k).
Qed.

Lemma during_called k r0 saved calls d : during k r0 saved calls d -> during k r0 saved (calls ++ [k]) (called k d).
Proof. intros (H1 & H2 & H3 & H4 & H5). split_and!; try done. simpl. by rewrite H4. Qed.

Lemma during_ok k r0 saved calls d :
  at_step k r0 -> during k r0 saved calls d ->
  exists new, dr_saved d = saved ++ new /\ Forall (fun r => touches k r0 r /\ row_ok r) new.
Proof.
  intros Ha (_ & _ & _ & _ & new & H5 & H6). exists new. split; [done|]. eapply Forall_impl; [exact H6|].
  intros r (T & E & R). split; [done|]. split; [|by rewrite R]. rewrite E. by eapply at_step_touches.
Qed.

(** What a step leaves behind. *)
Definition step_result (k : StepKey) d d' (o : option DriveResult) : Prop :=
  touches k (dr_run d) (dr_run d') /\ rs_step (dr_run d') = k /\ dr_calls d' = dr_calls d ++ [k] /\
  (exists new, dr_saved d' = dr_saved d ++ new /\ last new = Some (dr_run d') /\
     Forall (fun r => touches k (dr_run d) r /\ row_ok r) new) /\
  match o with
  | None => rs_status (dr_run d') = run_running /\ fin (dr_run d') k
  | Some R_failed => rs_status (dr_run d') = run_failed
  | Some R_waiting => rs_status (dr_run d') = run_running /\ status_of (dr_run d') k = Some st_waiting
  | _ => False
  end.

(** A step ends by persisting the state it ends in. *)
Lemma step_ends k d d1 o :
  at_step k (dr_run d) ->
  during k (dr_run d) (dr_saved d) (dr_calls d ++ [k]) d1 ->
  match o with
  | None => fin (dr_run d1) k
  | Some R_waiting => status_of (dr_run d1) k = Some st_waiting
  | _ => False
  end -> step_result k d (checkpoint d1) o.
Proof.
  intros Ha H Ho. destruct (during_ok _ _ _ _ _ Ha H) as (new & E & Hnew).
  destruct H as (H1 & H2 & H3 & H4 & _). split_and!; try done.
  - exists (new ++ [dr_run d1]). split_and!.
    + simpl. by rewrite E, app_assoc.
    + by rewrite last_snoc.
    + apply Forall_app. split; [done|]. constructor; [|done]. split; [done|].
      split; [|by rewrite H3]. rewrite H2. by eapply at_step_touches.
  - destruct o as [[]|]; done.
Qed.

Lemma fin_status r k st : status_of r k = Some st -> finished st = true -> fin r k.
Proof. unfold status_of, fin. destruct (step_of r k) as [s|]; simpl; [|done]. intros [= <-] ?. by exists s. Qed.

Lemma status_fin r k st : status_of r k = Some st -> finished st = false -> ~ fin r k.
Proof. unfold status_of, fin. intros H Hf (s & Hs & Hf'). rewrite Hs in H. simpl in H. congruence. Qed.

Lemma status_marked k st f d :
  (forall s, ss_status (f s) = ss_status s) -> keyed f ->
  (exists s, step_of (dr_run d) k = Some s) ->
  status_of (dr_run (on_step k f (on_step k (mark st) d))) k = Some st.
Proof.
  intros Hs Hf [s E]. rewrite status_on_step by done. unfold step_of in *. simpl.
  rewrite update_find, decide_True by done. rewrite E. simpl. by rewrite Hs.
Qed.

Lemma during_exists k r0 saved calls d :
  at_step k r0 -> during k r0 saved calls d -> exists s, step_of (dr_run d) k = Some s.
Proof. intros (K & _) ((Hk & _) & _). apply keys_find. unfold keys_ok in *. congruence. Qed.

Section in_step.
Context (k : StepKey) (d : Drive (D:=D)).
Hypothesis here : at_step k (dr_run d).
Local Notation inside := (during k (dr_run d) (dr_saved d) (dr_calls d ++ [k])).

Lemma inside_marked st dt d1 :
  inside d1 -> inside (on_step k (mark_detail dt) (on_step k (mark st) d1)) /\
  status_of (dr_run (on_step k (mark_detail dt) (on_step k (mark st) d1))) k = Some st.
Proof using here.
  intros Hd. split; [by apply during_on_step; [done|]; apply during_on_step|].
  apply status_marked; [done|done|by eapply during_exists].
Qed.

Lemma complete_step_result st word dt d1 :
  finished st = true -> inside d1 -> step_result k d (complete_step now k st word dt d1) None.
Proof using here.
  intros Hf Hp. unfold complete_step. destruct (inside_marked st dt _ Hp) as [Hd Hst].
  apply step_ends; [done|by apply during_note, during_finish|].
  apply (fin_status _ _ st); [|done]. etrans; [apply status_finish|exact Hst].
Qed.

Lemma fail_step_result h reason d1 : inside d1 -> step_result k d (fail_step now h k reason d1) (Some R_failed).
Proof using here.
  intros Hp. unfold fail_step.
  set (d2 := note now (STEP_LABEL k +:+ " failed: " +:+ reason) (on_step k (mark_error reason) d1)).
  assert (H2 : inside d2) by by apply during_note, during_on_step.
  assert (Hs2 : status_of (dr_run d2) k = Some st_failed).
  { change (status_of (dr_run (on_step k (mark_error reason) d1)) k = Some st_failed).
    rewrite status_on_step by done. destruct (during_exists _ _ _ _ _ here Hp) as [x ->]. done. }
  set (d3 := finish now k (roll_back now h k reason d2)).
  assert (H3 : inside d3) by by apply during_finish, during_roll_back.
  assert (Hs3 : status_of (dr_run d3) k = Some st_failed \/ status_of (dr_run d3) k = Some st_rolled_back).
  { unfold d3. rewrite status_finish. by apply status_roll_back. }
  clearbody d3. clear d2 H2 Hs2.
  destruct (during_ok _ _ _ _ _ here H3) as (new & E & Hnew). destruct H3 as (T & K & R & C & _).
  split_and!; try done. eexists (new ++ [_]). split_and!; [|by rewrite last_snoc|].
  - simpl. rewrite E, <- app_assoc. done.
  - apply Forall_app. split; [done|]. constructor; [|done]. split; [done|]. split; simpl; rewrite K; [|done].
    by eapply at_step_touches.
Qed.

Lemma run_step_result h s d' o :
  rs_status (dr_run d) = run_running -> run_step now h k s d = (d', o) -> step_result k d d' o.
Proof using here.
  intros Hr. unfold run_step.
  assert (H : inside (called k (enter_step now k s d))) by by apply during_called, during_enter.
  revert H. generalize (called k (enter_step now k s d)) as d0. intros d0 H.
  set (b := h_run h (dr_run d0)). pose proof (during_perform _ _ _ _ b _ H) as Hp.
  revert Hp. generalize (perform now k b d0) as d1. intros d1 Hp.
  destruct (bh_end b) as [[dt|dt|dt]|reason]; intros [= <- <-].
  - by apply complete_step_result.
  - by apply complete_step_result.
  - destruct (inside_marked st_waiting dt _ Hp) as [Hd Hst]. by apply step_ends.
  - by apply fail_step_result.
Qed.
End in_step.

Definition unfinished r (k : StepKey) : bool :=
  match step_of r k with Some s => negb (finished (ss_status s)) | None => true end.

Lemma unfinished_fin r k : unfinished r k = false <-> fin r k.
Proof.
  unfold unfinished, fin. destruct (step_of r k) as [s|].
  - rewrite negb_false_iff. split; [intros H; by exists s|]. by intros (s' & [= ->] & H).
  - split; [done|]. by intros (s & ? & _).
Qed.

Lemma suffix_index i k l :
  drop i STEP_ORDER = k :: l -> step_index k = Z.of_nat i /\ l = drop (S i) STEP_ORDER /\ k ∉ l.
Proof.
  do 6 (destruct i as [|i]; [intros [= <- <-]; split_and!; [done|done|set_solver]|]). by destruct i.
Qed.

Lemma suffix_end i k : drop i STEP_ORDER = [] -> step_index k < Z.of_nat i.
Proof. do 6 (destruct i as [|i]; [done|]). intros _. destruct k; simpl; lia. Qed.

(** What driving the steps [keys] comes to. *)
Definition drive_result (keys : list StepKey) d d' (res : DriveResult) : Prop :=
  keeps (dr_run d) (dr_run d') /\
  (exists new, dr_saved d' = dr_saved d ++ new /\ last new = Some (dr_run d') /\
     Forall (fun r => keeps (dr_run d) r /\ row_ok r) new) /\
  exists cs rest, dr_calls d' = dr_calls d ++ cs /\ List.filter (unfinished (dr_run d)) keys = cs ++ rest /\
    match res with
    | R_done => rest = [] /\ rs_status (dr_run d') = run_done
    | R_failed => last cs = Some (rs_step (dr_run d')) /\ rs_status (dr_run d') = run_failed
    | R_waiting => last cs = Some (rs_step (dr_run d')) /\ rs_status (dr_run d') = run_running /\
        status_of (dr_run d') (rs_step (dr_run d')) = Some st_waiting
    | R_idle => False
    end.

Lemma drive_end d j :
  at_step j (dr_run d) -> rs_step (dr_run d) = j -> (forall k, fin (dr_run d) k) ->
  drive_result [] d (checkpoint (with_run d (set_status run_done None (dr_run d)))) R_done.
Proof.
  intros Ha <- Hf. split_and!.
  - by intros k s.
  - eexists [_]. split_and!; [done|done|]. constructor; [|done]. split; [by intros k s|]. split; [done|exact Hf].
  - exists [], []. by rewrite app_nil_r.
Qed.

Lemma drive_stop k l d d' res :
  unfinished (dr_run d) k = true -> step_result k d d' (Some res) -> drive_result (k :: l) d d' res.
Proof.
  intros Hu (T & K & C & (new & E & L & F) & R).
  assert (Hn : ~ fin (dr_run d) k) by (rewrite <- unfinished_fin; by rewrite Hu).
  split_and!; [by eapply touches_keeps| |].
  - exists new. split_and!; [done..|]. eapply Forall_impl; [exact F|]. intros r [? ?]. split; [by eapply touches_keeps|done].
  - exists [k], (List.filter (unfinished (dr_run d)) l). simpl. rewrite Hu, K. by destruct res.
Qed.

Lemma drive_next k l d d1 d' res :
  k ∉ l -> unfinished (dr_run d) k = true -> step_result k d d1 None ->
  drive_result l d1 d' res -> drive_result (k :: l) d d' res.
Proof.
  intros Hk Hu (T & _ & C & (new & E & _ & F) & _) (Ks & (new' & E' & L' & F') & cs & rest & C' & U' & R).
  assert (Hn : ~ fin (dr_run d) k) by (rewrite <- unfinished_fin; by rewrite Hu).
  assert (K1 : keeps (dr_run d) (dr_run d1)) by by eapply touches_keeps.
  split_and!; [by etrans| |].
  - exists (new ++ new'). split_and!.
    + by rewrite E', E, app_assoc.
    + rewrite last_app, L'. done.
    + apply Forall_app. split; (eapply Forall_impl; [eassumption|]); intros r [? ?]; (split; [|done]);
        [by eapply touches_keeps|by etrans].
  - exists (k :: cs), rest. rewrite C', C, <- app_assoc. split; [done|]. split.
    + simpl. rewrite Hu. simpl. f_equal. rewrite <- U'. apply filter_ext_in. intros a Ha%list_elem_of_In.
      destruct T as [_ T]. unfold unfinished. by rewrite T by set_solver.
    + destruct res; [done| | |done]; (destruct cs as [|c cs]; [by destruct R|exact R]).
Qed.

Lemma drive_skip k l d d' res :
  unfinished (dr_run d) k = false -> drive_result l d d' res -> drive_result (k :: l) d d' res.
Proof.
  intros Hu (Ks & Sv & cs & rest & C & U & R). split_and!; [done..|]. exists cs, rest. simpl. by rewrite Hu.
Qed.

Lemma drive_from_result handlers keys i d d' res :
  keys = drop i STEP_ORDER -> (forall a, step_index a < Z.of_nat i -> fin (dr_run d) a) ->
  at_step (rs_step (dr_run d)) (dr_run d) -> rs_status (dr_run d) = run_running ->
  drive_from now handlers keys d = (d', res) -> drive_result keys d d' res.
Proof.
  revert i d. induction keys as [|k l IH]; intros i d Hi Hf Ha Hr; simpl.
  - intros [= <- <-]. eapply drive_end; [exact Ha|done|]. intros k. by apply Hf, suffix_end.
  - symmetry in Hi. destruct (suffix_index _ _ _ Hi) as (Ik & -> & Hk).
    destruct (stepOf_ok (dr_run d) k) as (s & Hs & ->); [by destruct Ha|].
    assert (Ed : with_run d (dr_run d) = d) by by destruct d. rewrite Ed.
    assert (Hu : unfinished (dr_run d) k = negb (finished (ss_status s))) by (unfold unfinished; by rewrite Hs).
    destruct (finished (ss_status s)) eqn:Hfin.
    + intros H. apply drive_skip; [done|]. apply (IH (S i) d); [done| |done..].
      intros a Hlt. destruct (decide (a = k)) as [->|Hne]; [by apply unfinished_fin|]. apply Hf.
      pose proof (step_index_inj a k). destruct (Z.eq_dec (step_index a) (step_index k)); [tauto|lia].
    + assert (Hat : at_step k (dr_run d)).
      { eapply at_step_move; [exact Ha|rewrite Ik; exact Hf|rewrite <- unfinished_fin; by rewrite Hu]. }
      destruct (run_step now (handlers k) k s d) as [d1 o] eqn:Es.
      pose proof (run_step_result k d Hat _ _ _ _ Hr Es) as Hres.
      destruct o as [r|]; intros H.
      * injection H as <- <-. by apply drive_stop.
      * eapply drive_next; [done|done|exact Hres|]. destruct Hres as (T & K & _ & _ & R & F).
        apply (IH (S i) d1); [done| |rewrite K; by eapply at_step_touches|done|done].
        intros a Hlt. destruct (decide (a = k)) as [->|Hne]; [done|].
        destruct (Hf a) as (x & Hx & Hx'); [|destruct T as [_ T]; exists x; by rewrite T].
        pose proof (step_index_inj a k). destruct (Z.eq_dec (step_index a) (step_index k)); [tauto|lia].
Qed.

Lemma driveRun_result handlers r d' res :
  row_ok r -> rs_status r = run_running -> driveRun now r handlers = (d', res) ->
  drive_result STEP_ORDER (start_drive r) d' res.
Proof.
  intros [Ha _] Hr. unfold driveRun. rewrite Hr. intros H.
  set (i := Z.to_nat (step_index (rs_step r))) in *.
  assert (Hb : forall a, step_index a < Z.of_nat i -> fin r a).
  { intros a Hlt. destruct Ha as (_ & H1 & _). apply H1. unfold i in Hlt. destruct (rs_step r); simpl in *; lia. }
  pose proof (drive_from_result handlers _ i (start_drive r) d' res eq_refl Hb Ha Hr H) as (Ks & Sv & cs & rest & C & U & R).
  split_and!; [done..|]. exists cs, rest. split_and!; [done| |done].
  rewrite <- U, <- (take_drop i STEP_ORDER) at 1. rewrite List.filter_app.
  assert (Et : List.filter (unfinished r) (take i STEP_ORDER) = []); [|by simpl; rewrite Et].
  apply bfilter_nil. intros a Hin. apply unfinished_fin, Hb.
  apply elem_of_take in Hin as (n & Hn & Hlt). do 6 (destruct n as [|n]; [injection Hn as <-; simpl; lia|]). done.
Qed.
End engine_facts.

(** * The row's life *)

Section row.
Context {D : Type}.
Implicit Types r : RunState D.

(** What can happen to a persisted row: a drive, cut short after any of the
    states it persists (or before the first); a retry; a dismissal. *)
Inductive row_step r r' : Prop :=
  | Row_drive now handlers d res : driveRun now r handlers = (d, res) -> r' ∈ r :: dr_saved d -> row_step r r'
  | Row_retry at_ : retryRun r at_ = Ok r' -> row_step r r'
  | Row_dismiss : dismissRun r = Ok r' -> row_step r r'.

Definition reachable r : Prop := rtc row_step newRunState r.

Lemma newRunState_ok : row_ok (newRunState (D:=D)).
Proof.
  split; [|done]. split_and!; [done|intros a; destruct a; simpl; lia|by intros b; destruct b].
Qed.

Lemma failed_unfin r :
  status_of r (rs_step r) = Some st_failed \/ status_of r (rs_step r) = Some st_rolled_back -> ~ fin r (rs_step r).
Proof. by intros [H|H]; eapply status_fin. Qed.

Lemma retryRun_ok r at_ r' : row_ok r -> retryRun r at_ = Ok r' ->
  rs_status r = run_failed /\ rs_status r' = run_running /\ rs_step r' = rs_step r /\
  touches (rs_step r) r r' /\
  exists s s', step_of r (rs_step r) = Some s /\ step_of r' (rs_step r) = Some s' /\
    ss_status s' = st_pending /\ ss_data s' = ss_data s.
Proof.
  intros [Ha Hs] H. unfold retryRun in H. destruct (rs_status r) eqn:E; try done.
  destruct (stepOf_ok r (rs_step r)) as (s & Es & Ef); [by destruct Ha|]. rewrite Ef in H. simpl in H.
  injection H as <-. split_and!; [done..| |].
  - by apply (touches_set (rs_step r) rearm r).
  - exists s, (rearm s). split_and!; [done| |done..]. unfold step_of in *. simpl.
    rewrite update_find, decide_True by done. by rewrite Es.
Qed.

Lemma row_step_ok r r' : row_ok r -> row_step r r' -> row_ok r' /\ keeps r r'.
Proof.
  intros Hok [now handlers d res Hd Hin|at_ Hr|Hd].
  - apply elem_of_cons in Hin as [->|Hin]; [by split|].
    destruct (rs_status r) eqn:E; try (unfold driveRun in Hd; rewrite E in Hd; injection Hd as <- <-; by apply not_elem_of_nil in Hin).
    destruct (driveRun_result now handlers r d res Hok E Hd) as (_ & (new & Es & _ & F) & _).
    simpl in Es. rewrite Es in Hin. rewrite Forall_forall in F. by destruct (F r' Hin).
  - destruct (retryRun_ok r at_ r' Hok Hr) as (Hf & Hf' & Hk & T & _). destruct Hok as [Ha Hs]. rewrite Hf in Hs. split.
    + split; [|by rewrite Hf']. rewrite Hk. by eapply at_step_touches.
    + eapply touches_keeps; [exact T|]. by apply failed_unfin.
  - unfold dismissRun in Hd. destruct Hok as [Ha Hs]. destruct (rs_status r) eqn:E; try done. injection Hd as <-.
    split; [by split|by intros k s].
Qed.

Lemma rows_ok r r' : row_ok r -> rtc row_step r r' -> row_ok r' /\ keeps r r'.
Proof.
  intros Hok H. induction H as [r|r r1 r2 H1 _ IH]; [by split|].
  destruct (row_step_ok _ _ Hok H1) as [Hok1 K1]. destruct (IH Hok1) as [Hok2 K2]. split; [done|by etrans].
Qed.

Definition completes (h : StepHandler D) : Prop :=
  forall r, match bh_end (h_run h r) with inl (O_done _) | inl (O_skipped _) => True | _ => False end.

Lemma drive_from_done now handlers keys d :
  (forall k, completes (handlers k)) -> snd (drive_from now handlers keys d) = R_done.
Proof.
  intros Hc. revert d. induction keys as [|k l IH]; intros d; simpl; [done|].
  destruct (stepOf (dr_run d) k) as [run s]. destruct (finished _); [apply IH|]. unfold run_step.
  set (x := called k (enter_step now k s (with_run d run))).
  pose proof (Hc k (dr_run x)) as H. destruct (bh_end (h_run (handlers k) (dr_run x))) as [[]|]; try done; apply IH.
Qed.

(** C6: the order of an upgrade, across crashes and retries. In every row that
    can be found persisted, every step before the current one is done or skipped
    and every step after it is still pending; a run is done only with every step
    finished, and failed or dismissed only at a step that failed or was rolled
    back. A finished step is never touched again, whatever happens next. *)
Theorem upgrade_order r :
  reachable r ->
  (map ss_key (rs_steps r) = STEP_ORDER /\
   (forall a, step_index a < step_index (rs_step r) -> fin r a) /\
   (forall b, step_index (rs_step r) < step_index b -> status_of r b = Some st_pending)) /\
  (rs_status r = run_done -> forall k, fin r k) /\
  (rs_status r = run_failed \/ rs_status r = run_cancelled ->
     status_of r (rs_step r) = Some st_failed \/ status_of r (rs_step r) = Some st_rolled_back) /\
  (forall r' k s, rtc row_step r r' -> step_of r k = Some s -> finished (ss_status s) = true -> step_of r' k = Some s).
Proof.
  intros Hr. destruct (rows_ok _ _ newRunState_ok Hr) as [Hok _]. split; [apply Hok|]. split_and!.
  - destruct Hok as [_ H]. by intros E; rewrite E in H.
  - destruct Hok as [_ H]. by intros [E|E]; rewrite E in H.
  - intros r' k s Hs. by apply (rows_ok r r').
Qed.

(** One drive of a run. It enters the handlers of the first unfinished
    steps, each once and in order, and no other; it stops waiting or failed at
    the step it entered last, or is done with every step finished; with handlers
    that complete it is done. A failed run re-armed keeps the data of its step
    and is entered there again; the row persisted last is the run it ended in. *)
Theorem upgrade_drive now handlers r d res :
  reachable r -> rs_status r = run_running -> driveRun now r handlers = (d, res) ->
  last (dr_saved d) = Some (dr_run d) /\
  (exists rest, List.filter (unfinished r) STEP_ORDER = dr_calls d ++ rest /\
     match res with
     | R_done => rest = [] /\ rs_status (dr_run d) = run_done
     | R_failed => last (dr_calls d) = Some (rs_step (dr_run d)) /\ rs_status (dr_run d) = run_failed
     | R_waiting => last (dr_calls d) = Some (rs_step (dr_run d)) /\ rs_status (dr_run d) = run_running /\
         status_of (dr_run d) (rs_step (dr_run d)) = Some st_waiting
     | R_idle => False
     end) /\
  ((forall k, completes (handlers k)) -> res = R_done) /\
  (forall at_ r', retryRun (dr_run d) at_ = Ok r' -> res = R_failed /\
     rs_status r' = run_running /\ rs_step r' = rs_step (dr_run d) /\
     ss_data <$> step_of r' (rs_step r') = ss_data <$> step_of (dr_run d) (rs_step r')).
Proof.
  intros Hreach Hr Hd. destruct (rows_ok _ _ newRunState_ok Hreach) as [Hok _].
  destruct (driveRun_result now handlers r d res Hok Hr Hd) as (_ & (new & Es & L & F) & cs & rest & C & U & R).
  simpl in Es, C, U. split_and!.
  - by rewrite Es.
  - exists rest. by rewrite C.
  - intros Hc. unfold driveRun in Hd. rewrite Hr in Hd.
    rewrite <- (drive_from_done now handlers (drop (Z.to_nat (step_index (rs_step r))) STEP_ORDER) (start_drive r) Hc).
    by rewrite Hd.
  - intros at_ r' Hretry. assert (Hok' : row_ok (dr_run d)).
    { rewrite Forall_forall in F. apply F. by eapply last_Some_elem_of. }
    destruct (retryRun_ok _ _ _ Hok' Hretry) as (E & E' & K & _ & s & s' & H1 & H2 & _ & Hdata).
    rewrite K. split_and!; [|done|done|by rewrite H1, H2; simpl; rewrite Hdata].
    destruct res; [destruct R; congruence|done|destruct R as (_ & R & _); congruence|done].
Qed.
End row.

(** * Witnesses *)

Definition quiet {E} (e : E) : Behaviour unit E :=
  {| bh_units := []; bh_last := {| wk_data := Some tt; wk_detail := None; wk_notes := [] |}; bh_end := e |}.

Definition sample_handlers (bad : StepKey) (k : StepKey) : StepHandler unit :=
  {| h_run := fun _ => if decide (k = bad) then quiet (inr "node-3 did not reconnect") else quiet (inl (O_done None));
     h_rollback := Some (fun _ _ => quiet (inl (Some "agents restored"))) |}.

Definition sample_run : RunState unit := dr_run (fst (driveRun (fun _ => "t") newRunState (sample_handlers agents))).

Example sample_failed :
  (rs_status sample_run, rs_step sample_run, map ss_status (rs_steps sample_run), rs_error sample_run) =
  (run_failed, agents, [st_done; st_done; st_rolled_back; st_pending; st_pending; st_pending],
   Some "Agents: node-3 did not reconnect").
Proof. vm_compute. reflexivity. Qed.

Lemma sample_reachable : reachable sample_run.
Proof.
  apply rtc_once. eapply (Row_drive _ _ (fun _ => "t") (sample_handlers agents)); [apply surjective_pairing|].
  vm_compute. do 6 right. left.
Qed.

Lemma upgrade_order_witness : fin sample_run preflight.
Proof.
  destruct (upgrade_order sample_run sample_reachable) as [(_ & H & _) _]. apply H. vm_compute. reflexivity.
Defined.

Lemma upgrade_drive_witness :
  snd (driveRun (fun _ => "t") newRunState (fun k => {| h_run := fun _ => quiet (inl (O_done None)); h_rollback := None |})) = R_done.
Proof.
  destruct (driveRun (fun _ => "t") newRunState _) as [d res] eqn:E.
  apply (upgrade_drive _ _ newRunState d res (rtc_refl _ _) eq_refl E). intros k r. done.
Defined.
