(* ===== verification/UpgradePlan.v ===== *)
(** The decisions of a platform upgrade
    (packages/trpc/src/services/platform-upgrade.plan.ts): when the controller
    replaces itself, which system services are rolled, and the scripts that do it.

    [Date.parse] and [localeCompare] are parameters; [None] is [NaN].  [Number]
    of an exit status reads digits; any other text is [NaN].  [refFor], which
    picks a mirrored or an upstream reference, is the caller's. *)

From S2P Require Import Prelude Comparators Json Upgrade.

Definition at_sign : ascii := "@".
Definition slash : ascii := "/".
Definition colon : ascii := ":".
Definition squote : ascii := "'".
Definition bslash : ascii := "\".
Definition newline : ascii := ascii_of_nat 10.

(** * Images *)

(** What follows the last [c] of [s], when there is one. *)
Fixpoint after_last (c : ascii) (s : string) : option string :=
  match s with
  | EmptyString => None
  | String x s' =>
      match after_last c s' with
      | Some r => Some r
      | None => if Ascii.eqb x c then Some s' else None
      end
  end.

(** What precedes the last [c] of [s]. *)
Definition before_last (c : ascii) (s : string) : string :=
  match after_last c s with
  | Some r => String.substring 0 (String.length s - String.length r - 1) s
  | None => s
  end.

(** [s.split(c)[0]] *)
Definition before_first (c : ascii) (s : string) : string := take_while (fun x => negb (Ascii.eqb x c)) s.

Fixpoint includes (c : ascii) (s : string) : bool :=
  match s with EmptyString => false | String x s' => Ascii.eqb x c || includes c s' end.

(** [/^sha256:[a-f0-9]{64}$/] *)
Definition is_digest (d : string) : bool :=
  startsWith "sha256:" d && (String.length d =? 71)%nat && all_chars is_hex_lower (sdrop 7 d).

Definition digestOf (image : option string) : option string :=
  match truthy_str image with
  | None => None
  | Some s =>
      match after_last at_sign s with
      | None => None
      | Some d => if is_digest d then Some d else None
      end
  end.

(** [lastIndexOf(':') > lastIndexOf('/')]: the tag, if any, is cut off. *)
Definition cut_tag (r : string) : string :=
  match after_last colon r with
  | Some t => if includes slash t then r else before_last colon r
  | None => r
  end.

Definition MIRROR_NAMESPACE : string := "/swarmy-system/".

Definition cut_mirror (r : string) : string :=
  match String.index 0 MIRROR_NAMESPACE r with
  | Some at_ => sdrop (at_ + String.length MIRROR_NAMESPACE) r
  | None => r
  end.

Definition has_host (r : string) : bool :=
  let first := before_first slash r in
  includes slash r && (includes "." first || includes colon first || String.eqb first "localhost").

Definition repoOf (image : string) : string :=
  let r := cut_mirror (cut_tag (before_first at_sign image)) in
  if has_host r then r
  else if includes slash r then "docker.io/" +:+ r else "docker.io/library/" +:+ r.

(** * The controller step *)

Record ControllerDecisionInput := {
  cd_target : option string; cd_liveImage : option string; cd_liveUpdateState : option string;
  cd_inventoryReady : bool; cd_dispatchedAt : option string; cd_processStartedAt : Z; cd_now : Z;
  cd_selfCommit : option string; cd_targetCommit : option string; cd_fromCommit : option string;
  cd_timeoutMs : option Z
}.

Inductive ControllerDecision :=
  | CD_skip (detail : string)
  | CD_done (detail : string)
  | CD_dispatch
  | CD_wait (detail : string)
  | CD_fail (reason : string).

Definition rolled_back_reason : string :=
  "the new controller did not become healthy; Swarm rolled back to the previous build".

Section decision.
Context (date_parse : string -> option Z).

Definition restarted (i : ControllerDecisionInput) : bool :=
  match truthy_str (cd_dispatchedAt i) with
  | Some at_ => match date_parse at_ with Some t => t <? cd_processStartedAt i | None => false end
  | None => false
  end.

Definition commitMoved (i : ControllerDecisionInput) : bool :=
  match truthy_str (cd_targetCommit i) with
  | Some c => bool_decide (cd_selfCommit i = Some c) && negb (bool_decide (cd_fromCommit i = Some c))
  | None => false
  end.

Definition timed_out (i : ControllerDecisionInput) (at_ : string) : bool :=
  match date_parse at_ with
  | Some t => default (15 * 60000) (cd_timeoutMs i) <? cd_now i - t
  | None => false
  end.

Definition controllerStepDecision (i : ControllerDecisionInput) : ControllerDecision :=
  match truthy_str (cd_target i) with
  | None => CD_skip "this release carries no controller digest"
  | Some target =>
      let on_target := bool_decide (digestOf (cd_liveImage i) = Some target) in
      match truthy_str (cd_dispatchedAt i) with
      | None =>
          match cd_liveImage i with
          | None =>
              if negb (cd_inventoryReady i) then CD_wait "waiting for the cluster inventory"
              else CD_skip "the controller does not run as a swarm service here (dev / external)"
          | Some _ => if on_target then CD_done "already on the target build" else CD_dispatch
          end
      | Some at_ =>
          if restarted i && (on_target || commitMoved i) then CD_done "the new controller is up and resumed the run"
          else if bool_decide (cd_liveUpdateState i = Some "rollback_started") ||
                  bool_decide (cd_liveUpdateState i = Some "rollback_completed") then CD_fail rolled_back_reason
          else if restarted i && bool_decide (is_Some (cd_liveImage i)) && negb on_target then CD_fail rolled_back_reason
          else if restarted i && negb (bool_decide (is_Some (cd_liveImage i))) then
            CD_wait "waiting for the cluster inventory after the restart"
          else if timed_out i at_ then
            CD_fail "Swarm never replaced the controller (update did not start within 15 minutes)"
          else CD_wait "Swarm is replacing the controller; the new one resumes this run"
      end
  end.
End decision.

(** * System services *)

Record SystemServiceUpdate := { su_service : string; su_key : string; su_from : string; su_to : string }.

Definition SYSTEM_ORDER (key : string) : option Z :=
  if String.eqb key "dns" then Some 1
  else if String.eqb key "caddySwarmy" then Some 2
  else if String.eqb key "caddy" then Some 2
  else if String.eqb key "otelCollector" then Some 3
  else if String.eqb key "clickhouse" then Some 4
  else None.

Definition SYSTEM_STEP_EXCLUDED : list string := ["swarmy_controller"; "swarmy-garage"].

Record ManifestComponentLite := { mc_ref : string; mc_image : string; mc_digest : option string }.

Record LiveSystemService := { ls_name : string; ls_image : string; ls_labels : list (string * string) }.

(** The components the step rolls, in the order of the manifest. *)
Definition rolled (components : list (string * ManifestComponentLite)) : list (string * ManifestComponentLite) :=
  List.filter (fun kc => bool_decide (is_Some (truthy_str (mc_digest (snd kc)))) && bool_decide (is_Some (SYSTEM_ORDER (fst kc))))
    components.

(** [byRepo.get]: of two entries for one repository the last counts. *)
Definition byRepo (components : list (string * ManifestComponentLite)) (repo : string) : option string :=
  snd <$> List.find (fun e => String.eqb (fst e) repo)
    (rev (flat_map (fun kc => [(repoOf (mc_ref (snd kc)), fst kc); (repoOf (mc_image (snd kc)), fst kc)]) (rolled components))).

Definition is_system (s : LiveSystemService) : bool :=
  startsWith "swarmy-" (ls_name s) ||
  bool_decide (get "swarmy.system" (ls_labels s) = Some "true") ||
  bool_decide (get "com.docker.stack.namespace" (ls_labels s) = Some "swarmy-system").

Definition system_update (components : list (string * ManifestComponentLite))
    (refFor : string -> ManifestComponentLite -> string) (s : LiveSystemService) : option SystemServiceUpdate :=
  if mem (ls_name s) SYSTEM_STEP_EXCLUDED then None
  else if negb (is_system s) then None
  else match byRepo components (repoOf (ls_image s)) with
       | None => None
       | Some key =>
           match get key components with
           | None => None
           | Some c =>
               if bool_decide (digestOf (Some (ls_image s)) = mc_digest c) then None
               else Some {| su_service := ls_name s; su_key := key; su_from := ls_image s; su_to := refFor key c |}
           end
       end.

Definition by_system_order (localeCompare : string -> string -> Z) : SystemServiceUpdate -> SystemServiceUpdate -> Z :=
  cmp_then (cmp_asc (fun u => default 0 (SYSTEM_ORDER (su_key u)))) (cmp_on su_service localeCompare).

Definition planSystemUpdates (localeCompare : string -> string -> Z) (services : list LiveSystemService)
    (components : list (string * ManifestComponentLite)) (refFor : string -> ManifestComponentLite -> string)
    : list SystemServiceUpdate :=
  js_sort (by_system_order localeCompare) (omap (system_update components refFor) services).

(** * Scripts *)

(** [s.replace(/'/g, `'\''`)] *)
Fixpoint escape_quotes (s : string) : string :=
  match s with
  | EmptyString => EmptyString
  | String c s' =>
      if Ascii.eqb c squote then String squote (String bslash (String squote (String squote (escape_quotes s'))))
      else String c (escape_quotes s')
  end.

Definition sq (s : string) : string := str1 squote +:+ escape_quotes s +:+ str1 squote.

Definition UPDATE_MARKER : string := "@@SWARMY-UPDATE@@".

Record ScriptOptions := { so_detach : bool; so_monitor : option string; so_login : option string }.

Definition login_line (login : string) : string :=
  "if [ -n " +:+ quoted "${SWARMY_REG_USER:-}" +:+ " ]; then printf '%s' " +:+ quoted "$SWARMY_REG_PASS" +:+
  " | docker login " +:+ sq login +:+ " -u " +:+ quoted "$SWARMY_REG_USER" +:+
  " --password-stdin >/dev/null 2>&1 && AUTH=--with-registry-auth; fi".

Definition update_line (service image : string) (opts : ScriptOptions) : string :=
  "docker service update --quiet " +:+ (if so_detach opts then "--detach" else "--detach=false") +:+
  " ${AUTH:-} --image " +:+ sq image +:+ " --update-failure-action rollback --update-monitor " +:+
  default "30s" (so_monitor opts) +:+ " --update-parallelism 1 " +:+ sq service +:+ "; RC=$?".

Definition inspect_line (service : string) : string :=
  "ST=$(docker service inspect " +:+ sq service +:+
  " --format '{{if .UpdateStatus}}{{.UpdateStatus.State}}{{end}}' 2>/dev/null)".

Definition marker_line : string := "echo " +:+ quoted (UPDATE_MARKER +:+ " $RC ${ST:-none}").

Definition serviceUpdateScript (service image : string) (opts : ScriptOptions) : string :=
  join (str1 newline)
    (["set -u"] ++ (match truthy_str (so_login opts) with Some l => [login_line l] | None => [] end) ++
     [update_line service image opts; inspect_line service; marker_line]).

Definition serviceRollbackScript (service : string) : string :=
  join (str1 newline)
    ["set -u"; "docker service rollback --quiet --detach=false " +:+ sq service +:+ "; RC=$?"; inspect_line service; marker_line].

Record UpdateOutput := { uo_rc : option Z; uo_state : string }.

Definition parseUpdateOutput (output : string) : UpdateOutput :=
  match List.find (startsWith UPDATE_MARKER) (rev (split_at newline output)) with
  | None => {| uo_rc := Some (-1); uo_state := "unknown" |}
  | Some line =>
      let parts := split_spaces (trim line) in
      {| uo_rc := match nth_error parts 1 with Some rc => js_number rc | None => Some (-1) end;
         uo_state := default "none" (nth_error parts 2) |}
  end.

Definition updateLanded (r : UpdateOutput) : bool :=
  bool_decide (uo_rc r = Some 0) && negb (startsWith "rollback" (uo_state r)) && negb (String.eqb (uo_state r) "paused").

(** * Images and the controller: lemmas *)

Section decision_facts.
Context (date_parse : string -> option Z).
Implicit Type i : ControllerDecisionInput.

Definition on_target i (target : string) : Prop := digestOf (cd_liveImage i) = Some target.

(** The update was sent to Swarm, as far as the step's data knows. *)
Definition dispatched i : Prop := is_Some (truthy_str (cd_dispatchedAt i)).

Lemma decision_after i target at_ :
  truthy_str (cd_target i) = Some target -> truthy_str (cd_dispatchedAt i) = Some at_ ->
  match controllerStepDecision date_parse i with
  | CD_done _ => restarted date_parse i = true /\ (on_target i target \/ commitMoved i = true)
  | CD_wait _ | CD_fail _ => restarted date_parse i = false \/ ~ on_target i target /\ commitMoved i = false
  | CD_skip _ | CD_dispatch => False
  end.
Proof.
  intros Ht Hd. unfold controllerStepDecision, on_target. rewrite Ht, Hd.
  destruct (restarted date_parse i); simpl; [|by repeat case_match; simplify_eq; left].
  case_bool_decide; simpl; [tauto|]. destruct (commitMoved i); [tauto|]. by repeat case_match; simplify_eq; right.
Qed.

Lemma decision_before i target :
  truthy_str (cd_target i) = Some target -> truthy_str (cd_dispatchedAt i) = None ->
  match controllerStepDecision date_parse i with
  | CD_dispatch => is_Some (cd_liveImage i) /\ ~ on_target i target
  | CD_done _ => on_target i target
  | CD_skip _ => cd_liveImage i = None /\ cd_inventoryReady i = true
  | CD_wait _ => cd_liveImage i = None /\ cd_inventoryReady i = false
  | CD_fail _ => False
  end.
Proof.
  intros Ht Hd. unfold controllerStepDecision, on_target. rewrite Ht, Hd.
  destruct (cd_liveImage i); [case_bool_decide; [done|by split]|]. by destruct (cd_inventoryReady i).
Qed.

Lemma decision_no_target i : truthy_str (cd_target i) = None -> exists d, controllerStepDecision date_parse i = CD_skip d.
Proof. intros Ht. unfold controllerStepDecision. rewrite Ht. by eexists. Qed.

(** Past the deadline a restarted controller that sees its service no longer waits. *)
Lemma decision_deadline i target at_ t :
  truthy_str (cd_target i) = Some target -> truthy_str (cd_dispatchedAt i) = Some at_ -> date_parse at_ = Some t ->
  default (15 * 60000) (cd_timeoutMs i) < cd_now i - t -> is_Some (cd_liveImage i) ->
  forall d, controllerStepDecision date_parse i <> CD_wait d.
Proof.
  intros Ht Hd Hp Hlt Hl d. unfold controllerStepDecision, timed_out. rewrite Ht, Hd, Hp.
  rewrite (bool_decide_true _ Hl), (proj2 (Z.ltb_lt _ _) Hlt).
  repeat case_match; try done; b2p; simpl in *; rewrite ?andb_false_r in *; done.
Qed.
End decision_facts.

(** The controller step. It asks Swarm for the update only when the
    release has a controller digest, the service runs something else, and no
    update was asked for yet; so a run that recorded its request never asks
    twice, however often the process restarts. It is done only when the service
    was already on the target, or a controller started after the request finds
    itself on it; and it stops waiting at the deadline. Hence a step that failed
    after its request can be retried only if the service reaches the target by
    other means: its data is kept, so no retry asks again. *)
Theorem controller_step date_parse i target :
  truthy_str (cd_target i) = Some target ->
  (controllerStepDecision date_parse i = CD_dispatch <->
     ~ dispatched i /\ is_Some (cd_liveImage i) /\ ~ on_target i target) /\
  ((exists d, controllerStepDecision date_parse i = CD_done d) <->
     (~ dispatched i /\ on_target i target) \/
     (dispatched i /\ restarted date_parse i = true /\ (on_target i target \/ commitMoved i = true))) /\
  (forall at_ t, truthy_str (cd_dispatchedAt i) = Some at_ -> date_parse at_ = Some t ->
     default (15 * 60000) (cd_timeoutMs i) < cd_now i - t -> is_Some (cd_liveImage i) ->
     (exists d, controllerStepDecision date_parse i = CD_done d) \/
     (exists d, controllerStepDecision date_parse i = CD_fail d)).
Proof.
  intros Ht. unfold dispatched. destruct (truthy_str (cd_dispatchedAt i)) as [at_|] eqn:Hd.
  - pose proof (decision_after date_parse i target at_ Ht Hd) as H. assert (Hs : is_Some (Some at_)) by done. split_and!.
    + destruct (controllerStepDecision _ _); split; try done; tauto.
    + destruct (controllerStepDecision _ _) as [?|d| |?|?]; try done; split; try (by intros [? ?]);
        [intros _; right; tauto|intros _; by exists d|..];
        (intros [[? _]|(_ & Hr & Ho)]; [tauto|]; destruct H as [H|[H1 H2]]; [congruence|]; destruct Ho; [tauto|congruence]).
    + intros at' t [= <-] Hp Hlt Hl. pose proof (decision_deadline date_parse i target at_ t Ht Hd Hp Hlt Hl) as Hw.
      destruct (controllerStepDecision _ _) as [?|d| |d|d]; try done; [by left; exists d|by destruct (Hw d)|by right; exists d].
  - pose proof (decision_before date_parse i target Ht Hd) as H. assert (Hn : ~ is_Some (@None string)) by by intros [].
    assert (Ho : cd_liveImage i = None -> ~ on_target i target) by (intros E; unfold on_target; by rewrite E).
    split_and!; [| |done].
    + destruct (controllerStepDecision _ _) as [?|?| |?|?]; split; try done; try tauto; intros (_ & [x Hx] & _); naive_solver.
    + destruct (controllerStepDecision _ _) as [?|d| |?|?]; split; try (by intros [? ?]);
        try (by intros [[_ ?]|[? _]]; exfalso; intuition done).
      * intros _. left. by split.
      * intros _. by exists d.
Qed.

(** * System services: lemmas *)

#[export] Instance by_system_order_comparator (localeCompare : string -> string -> Z) `{!Comparator localeCompare} :
  Comparator (by_system_order localeCompare).
Proof. unfold by_system_order. apply _. Qed.

Section updates.
Context (components : list (string * ManifestComponentLite)).

Lemma byRepo_some repo key : byRepo components repo = Some key ->
  exists c, (key, c) ∈ rolled components /\ (repoOf (mc_ref c) = repo \/ repoOf (mc_image c) = repo).
Proof.
  unfold byRepo. destruct (List.find _ _) as [[r k]|] eqn:E; [|done]. intros [= <-].
  apply find_some in E as [Hin Heq]. apply in_rev, in_flat_map in Hin as ([k' c] & Hin & He).
  apply String.eqb_eq in Heq. simpl in *. exists c.
  destruct He as [[= <- <-]|[[= <- <-]|[]]]; (split; [by apply list_elem_of_In|tauto]).
Qed.

Lemma byRepo_of key c repo : (key, c) ∈ rolled components ->
  repoOf (mc_ref c) = repo \/ repoOf (mc_image c) = repo -> exists key', byRepo components repo = Some key'.
Proof.
  intros Hin Hr. unfold byRepo. destruct (List.find _ _) as [[r k]|] eqn:E; [by eexists|]. exfalso.
  assert (He : In (repo, key) (flat_map (fun kc => [(repoOf (mc_ref (snd kc)), fst kc); (repoOf (mc_image (snd kc)), fst kc)]) (rolled components))).
  { apply in_flat_map. exists (key, c). split; [by apply list_elem_of_In|]. simpl.
    destruct Hr as [->| ->]; tauto. }
  apply in_rev in He. eapply find_none in E; [|exact He]. simpl in E. by rewrite String.eqb_refl in E.
Qed.

Lemma rolled_elem key c : (key, c) ∈ rolled components <->
  (key, c) ∈ components /\ is_Some (truthy_str (mc_digest c)) /\ is_Some (SYSTEM_ORDER key).
Proof. unfold rolled. rewrite bfilter_elem, andb_true_iff, !bool_decide_eq_true. done. Qed.

Context (refFor : string -> ManifestComponentLite -> string).

(** Every rolled component keeps its digest in the reference chosen for it, and
    that reference lies in one of its own repositories, which belong to no other
    rolled component. *)
Definition refs_ok : Prop :=
  NoDup (map fst components) /\
  (forall key c, (key, c) ∈ rolled components ->
     digestOf (Some (refFor key c)) = mc_digest c /\
     (repoOf (refFor key c) = repoOf (mc_ref c) \/ repoOf (refFor key c) = repoOf (mc_image c))) /\
  (forall key key' c c', (key, c) ∈ rolled components -> (key', c') ∈ rolled components ->
     (repoOf (mc_ref c) = repoOf (mc_ref c') \/ repoOf (mc_ref c) = repoOf (mc_image c') \/
      repoOf (mc_image c) = repoOf (mc_image c')) -> key = key').

Lemma system_update_some s u : system_update components refFor s = Some u ->
  is_system s = true /\ ls_name s ∉ SYSTEM_STEP_EXCLUDED /\ su_service u = ls_name s /\ su_from u = ls_image s /\
  exists c, get (su_key u) components = Some c /\ is_Some (SYSTEM_ORDER (su_key u)) /\
    byRepo components (repoOf (ls_image s)) = Some (su_key u) /\
    digestOf (Some (ls_image s)) <> mc_digest c /\ su_to u = refFor (su_key u) c.
Proof.
  unfold system_update. destruct (mem_spec (ls_name s) SYSTEM_STEP_EXCLUDED) as [|Hx]; [done|].
  destruct (is_system s); [|done]. simpl. destruct (byRepo _ _) as [key|] eqn:Er; [|done].
  destruct (get key components) as [c|] eqn:Eg; [|done]. case_bool_decide as Hd; [done|]. intros [= <-]. simpl.
  split_and!; try done. exists c. split_and!; try done.
  apply byRepo_some in Er as (c' & Hin & _). by apply rolled_elem in Hin as (_ & _ & ?).
Qed.

(** The service once the update has landed. *)
Definition landed (s : LiveSystemService) : LiveSystemService :=
  match system_update components refFor s with
  | Some u => {| ls_name := ls_name s; ls_image := su_to u; ls_labels := ls_labels s |}
  | None => s
  end.

Lemma landed_settled s : refs_ok -> system_update components refFor (landed s) = None.
Proof using Type.
  intros (Hnd & Href & Hdis). unfold landed. destruct (system_update components refFor s) as [u|] eqn:E; [|done].
  destruct (system_update_some _ _ E) as (_ & _ & _ & _ & c & Hget & _ & Hr & _ & Hto).
  apply byRepo_some in Hr as (c' & Hin & _).
  assert (Hc : (su_key u, c) ∈ rolled components).
  { apply rolled_elem in Hin as [Hin Hr]. pose proof (get_unique _ _ _ Hnd Hin) as Hg. rewrite Hget in Hg. injection Hg as ->.
    by apply rolled_elem. }
  destruct (Href _ _ Hc) as [Hdig Hrepo]. rewrite <- Hto in Hdig, Hrepo.
  destruct (byRepo_of _ _ (repoOf (su_to u)) Hc) as [key' Hkey']; [destruct Hrepo as [->| ->]; tauto|].
  assert (key' = su_key u) as ->.
  { destruct (byRepo_some _ _ Hkey') as (c2 & H2 & H3).
    destruct Hrepo as [Hrepo|Hrepo], H3 as [H3|H3]; rewrite Hrepo in H3;
      [apply (Hdis _ _ _ _ H2 Hc); tauto|symmetry; apply (Hdis _ _ _ _ Hc H2); right; left; by symmetry|
       apply (Hdis _ _ _ _ H2 Hc); tauto|apply (Hdis _ _ _ _ H2 Hc); tauto]. }
  unfold system_update. simpl. destruct (mem _ _); [done|]. destruct (is_system _); [|done]. simpl.
  rewrite Hkey', Hget, Hdig. by rewrite bool_decide_true.
Qed.
End updates.

(** The system services step. A service is updated exactly when it is
    swarmy's own, not one with a step of its own, runs an image of a component
    the release carries, and its digest is not that component's; updates go DNS
    first, then the edges, then observability. Once every update has landed the
    plan is empty: the step is done and re-running it rolls nothing. *)
Theorem system_updates_converge lc `{!Comparator lc} components refFor services :
  (forall u, u ∈ planSystemUpdates lc services components refFor <->
     exists s, s ∈ services /\ system_update components refFor s = Some u) /\
  (forall s u, system_update components refFor s = Some u ->
     is_system s = true /\ ls_name s ∉ SYSTEM_STEP_EXCLUDED /\ su_service u = ls_name s /\ su_from u = ls_image s /\
     exists c, get (su_key u) components = Some c /\ is_Some (SYSTEM_ORDER (su_key u)) /\
       byRepo components (repoOf (ls_image s)) = Some (su_key u) /\
       digestOf (Some (ls_image s)) <> mc_digest c /\ su_to u = refFor (su_key u) c) /\
  StronglySorted (le_by (by_system_order lc)) (planSystemUpdates lc services components refFor) /\
  (refs_ok components refFor -> planSystemUpdates lc (map (landed components refFor) services) components refFor = []).
Proof.
  split_and!.
  - intros u. unfold planSystemUpdates. rewrite js_sort_elem, list_elem_of_omap. done.
  - apply system_update_some.
  - unfold planSystemUpdates. apply (js_sort_sorted (by_system_order lc)).
  - intros Hok. unfold planSystemUpdates. apply js_sort_nil.
    induction services as [|s l IH]; [done|]. cbn [map omap list_omap]. by rewrite landed_settled.
Qed.

(** * Scripts: lemmas *)

(** The words a POSIX shell reads up to the first unquoted [;]: single quotes
    keep everything, a backslash the next character, blanks separate.  Expansions
    are left as they are written. *)
Fixpoint sh_words (inside started : bool) (cur : string) (s : string) : option (list string) :=
  match s with
  | EmptyString => if inside then None else Some (if started then [cur] else [])
  | String c s' =>
      if inside then
        if Ascii.eqb c squote then sh_words false true cur s' else sh_words true true (cur +:+ str1 c) s'
      else if Ascii.eqb c squote then sh_words true true cur s'
      else if Ascii.eqb c bslash then
        match s' with String x s'' => sh_words false true (cur +:+ str1 x) s'' | EmptyString => None end
      else if Ascii.eqb c " " then
        if started then option_map (cons cur) (sh_words false false "" s') else sh_words false false "" s'
      else if Ascii.eqb c ";" then Some (if started then [cur] else [])
      else sh_words false true (cur +:+ str1 c) s'
  end.

(** A character no shell treats specially here. *)
Definition plain_char (c : ascii) : bool :=
  negb (Ascii.eqb c squote || Ascii.eqb c bslash || Ascii.eqb c " " || Ascii.eqb c ";").

Lemma sh_escaped cur s r started :
  sh_words true started cur (escape_quotes s +:+ String squote r) = sh_words false true (cur +:+ s) r.
Proof.
  revert cur started. induction s as [|c s IH]; intros cur started; cbn [escape_quotes String.append].
  - cbn [sh_words]. by rewrite Ascii.eqb_refl, string_app_nil_r.
  - destruct (Ascii.eqb_spec c squote) as [->|Hc]; cbn [String.append sh_words].
    + change (sh_words true true (cur +:+ str1 squote) (escape_quotes s +:+ String squote r) =
              sh_words false true (cur +:+ String squote s) r).
      rewrite IH. by rewrite string_app_assoc.
    + rewrite (proj2 (Ascii.eqb_neq _ _) Hc), IH. by rewrite string_app_assoc.
Qed.

(** A quoted word is read back as it was. *)
Lemma sh_sq started cur s r : sh_words false started cur (sq s +:+ r) = sh_words false true (cur +:+ s) r.
Proof.
  unfold sq. rewrite !string_app_assoc. change (str1 squote +:+ r) with (String squote r). apply (sh_escaped cur s r true).
Qed.

Lemma sh_plain cur s r :
  all_chars plain_char s = true -> sh_words false true cur (s +:+ r) = sh_words false true (cur +:+ s) r.
Proof.
  revert cur. induction s as [|c s IH]; intros cur; cbn [all_chars String.append]; [by rewrite string_app_nil_r|].
  intros [Hc Hs]%andb_true_iff. cbn [sh_words]. unfold plain_char in Hc. b2p.
  repeat match goal with H : Ascii.eqb _ _ = false |- _ => rewrite H; clear H end.
  rewrite IH by done. by rewrite string_app_assoc.
Qed.

Lemma sh_plain_start s r :
  all_chars plain_char s = true -> s <> "" -> sh_words false false "" (s +:+ r) = sh_words false true s r.
Proof.
  destruct s as [|c s]; [done|]. cbn [all_chars String.append]. intros [Hc Hs]%andb_true_iff _.
  cbn [sh_words]. unfold plain_char in Hc. b2p.
  repeat match goal with H : Ascii.eqb _ _ = false |- _ => rewrite H; clear H end. by rewrite sh_plain.
Qed.

Lemma sh_space w r : sh_words false true w (String " " r) = option_map (cons w) (sh_words false false "" r).
Proof. reflexivity. Qed.

Definition monitor_ok (opts : ScriptOptions) : Prop :=
  match so_monitor opts with Some m => all_chars plain_char m = true /\ m <> "" | None => True end.

Lemma update_line_words service image opts r :
  monitor_ok opts ->
  sh_words false false "" (update_line service image opts +:+ r) =
  Some ["docker"; "service"; "update"; "--quiet"; (if so_detach opts then "--detach" else "--detach=false"); "${AUTH:-}";
        "--image"; image; "--update-failure-action"; "rollback"; "--update-monitor"; default "30s" (so_monitor opts);
        "--update-parallelism"; "1"; service].
Proof.
  intros Hm. unfold update_line. rewrite !string_app_assoc.
  assert (Hmon : all_chars plain_char (default "30s" (so_monitor opts)) = true /\ default "30s" (so_monitor opts) <> "").
  { unfold monitor_ok in Hm. by destruct (so_monitor opts). }
  destruct Hmon as [Hm1 Hm2].
  assert (E : forall rest, sh_words false false "" (default "30s" (so_monitor opts) +:+ (" --update-parallelism 1 " +:+ rest)) =
    option_map (cons (default "30s" (so_monitor opts))) (option_map (cons "--update-parallelism") (option_map (cons "1")
      (sh_words false false "" rest)))).
  { intros rest. rewrite sh_plain_start by done. reflexivity. }
  assert (E2 : forall rest, sh_words false true image (" --update-failure-action rollback --update-monitor " +:+ rest) =
    option_map (cons image) (option_map (cons "--update-failure-action") (option_map (cons "rollback")
      (option_map (cons "--update-monitor") (sh_words false false "" rest))))) by reflexivity.
  assert (E3 : forall rest, sh_words false true service ("; RC=$?" +:+ rest) = Some [service]) by reflexivity.
  assert (E4 : forall rest, sh_words false false "" (" ${AUTH:-} --image " +:+ rest) =
    option_map (cons "${AUTH:-}") (option_map (cons "--image") (sh_words false false "" rest))) by reflexivity.
  assert (E5 : forall w rest, w = "--detach" \/ w = "--detach=false" ->
    sh_words false false "" ("docker service update --quiet " +:+ (w +:+ (" ${AUTH:-} --image " +:+ rest))) =
    option_map (cons "docker") (option_map (cons "service") (option_map (cons "update") (option_map (cons "--quiet")
      (option_map (cons w) (sh_words false false "" (" ${AUTH:-} --image " +:+ rest))))))) by (intros w rest [->| ->]; reflexivity).
  rewrite E5 by (destruct (so_detach opts); tauto). rewrite E4, sh_sq. simpl String.append at 1.
  rewrite E2, E, sh_sq. simpl String.append at 1. by rewrite E3.
Qed.

Lemma rollback_line_words service r :
  sh_words false false "" ("docker service rollback --quiet --detach=false " +:+ sq service +:+ ("; RC=$?" +:+ r)) =
  Some ["docker"; "service"; "rollback"; "--quiet"; "--detach=false"; service].
Proof.
  assert (E : forall rest, sh_words false false "" ("docker service rollback --quiet --detach=false " +:+ rest) =
    option_map (cons "docker") (option_map (cons "service") (option_map (cons "rollback") (option_map (cons "--quiet")
      (option_map (cons "--detach=false") (sh_words false false "" rest)))))) by reflexivity.
  rewrite E, sh_sq. reflexivity.
Qed.

(** What the scripts print last. *)
Definition result_line (rc state : string) : string := UPDATE_MARKER +:+ " " +:+ rc +:+ " " +:+ state.

Lemma result_line_parts rc state :
  all_chars word_char rc = true -> rc <> "" -> all_chars word_char state = true -> state <> "" ->
  split_spaces (trim (result_line rc state)) = [UPDATE_MARKER; rc; state].
Proof.
  intros H1 N1 H2 N2. unfold result_line.
  assert (Et : trim (UPDATE_MARKER +:+ " " +:+ rc +:+ " " +:+ state) = UPDATE_MARKER +:+ " " +:+ rc +:+ " " +:+ state).
  { change (trim_start (UPDATE_MARKER +:+ " " +:+ rc +:+ " " +:+ state)) with (UPDATE_MARKER +:+ " " +:+ rc +:+ " " +:+ state).
    unfold trim. change (trim_start (UPDATE_MARKER +:+ " " +:+ rc +:+ " " +:+ state)) with (UPDATE_MARKER +:+ " " +:+ rc +:+ " " +:+ state).
    rewrite <- !string_app_assoc. apply drop_suffix_app; [by apply drop_suffix_word|done]. }
  rewrite Et. unfold split_spaces.
  set (n := String.length _). assert (Hn : exists m, n = S (S m)).
  { unfold n. eexists. reflexivity. } destruct Hn as [m ->].
  change (UPDATE_MARKER +:+ " " +:+ rc +:+ " " +:+ state) with (UPDATE_MARKER +:+ String " " (rc +:+ String " " state)).
  rewrite split_words_step by (try reflexivity; by apply word_starts).
  rewrite split_words_step; [by rewrite split_words_last|done|].
  rewrite <- (string_app_nil_r state). by apply word_starts.
Qed.

Lemma marker_starts rc state : startsWith UPDATE_MARKER (result_line rc state) = true.
Proof. apply startsWith_spec. by eexists. Qed.

Lemma parse_result out rc state :
  all_chars word_char rc = true -> rc <> "" -> all_chars word_char state = true -> state <> "" ->
  parseUpdateOutput (out +:+ String newline (result_line rc state +:+ str1 newline)) =
  {| uo_rc := js_number rc; uo_state := state |}.
Proof.
  intros H1 N1 H2 N2. unfold parseUpdateOutput.
  assert (Hnl : forall w, all_chars word_char w = true -> no_char newline w = true).
  { intros w. apply all_chars_impl. intros c. unfold word_char. destruct c as [[] [] [] [] [] [] [] []]; vm_compute; done. }
  assert (Es : split_at newline (out +:+ String newline (result_line rc state +:+ str1 newline)) =
               split_at newline out ++ [result_line rc state; ""]).
  { rewrite split_at_app. f_equal. change (str1 newline) with (String newline ""). rewrite split_at_app.
    rewrite split_at_none; [done|]. unfold no_char, result_line. rewrite !all_chars_app.
    rewrite !andb_true_iff. split_and!; try done; by apply Hnl. }
  rewrite Es, rev_app_distr. change (rev [result_line rc state; ""]) with [""; result_line rc state].
  cbn [app List.find]. change (startsWith UPDATE_MARKER "") with false. cbn iota. rewrite marker_starts.
  by rewrite result_line_parts.
Qed.

(** The scripts are safe to build from any names. The shell reads the
    image and the service as one argument each, whatever they contain, in the
    update and in the rollback; and what the script prints last is what
    [parseUpdateOutput] reports, whatever was printed before. The update landed
    exactly when the command succeeded and Swarm neither rolled back nor paused. *)
Theorem upgrade_scripts service image opts out rc state :
  monitor_ok opts ->
  all_chars word_char state = true -> state <> "" -> all_digits rc = true ->
  (forall r, sh_words false false "" (update_line service image opts +:+ r) =
     Some ["docker"; "service"; "update"; "--quiet"; (if so_detach opts then "--detach" else "--detach=false"); "${AUTH:-}";
           "--image"; image; "--update-failure-action"; "rollback"; "--update-monitor"; default "30s" (so_monitor opts);
           "--update-parallelism"; "1"; service]) /\
  (forall r, sh_words false false "" ("docker service rollback --quiet --detach=false " +:+ sq service +:+ ("; RC=$?" +:+ r)) =
     Some ["docker"; "service"; "rollback"; "--quiet"; "--detach=false"; service]) /\
  let parsed := parseUpdateOutput (out +:+ String newline (result_line rc state +:+ str1 newline)) in
  parsed = {| uo_rc := Some (decimal rc); uo_state := state |} /\
  (updateLanded parsed = true <-> decimal rc = 0 /\ startsWith "rollback" state = false /\ state <> "paused").
Proof.
  intros Hm Hs Hn Hrc. split; [intros r; by apply update_line_words|]. split; [apply rollback_line_words|].
  assert (Hd : rc <> "" /\ all_chars word_char rc = true).
  { unfold all_digits in Hrc. b2p. split; [done|]. eapply all_chars_impl; [|eassumption].
    intros c. unfold word_char. destruct c as [[] [] [] [] [] [] [] []]; vm_compute; done. }
  destruct Hd as [Hne Hw]. cbv zeta. rewrite parse_result by done. unfold js_number. rewrite Hrc. split; [done|].
  unfold updateLanded. simpl. rewrite !andb_true_iff, bool_decide_eq_true, !negb_true_iff, String.eqb_neq.
  split; [intros [[[= H1] H2] H3]; done|intros (-> & ? & ?); done].
Qed.

(** * Witnesses *)

Definition digest_b : string := "sha256:bbbbbbbbbbbbbbbbbbbbbbbbbbbbbbbbbbbbbbbbbbbbbbbbbbbbbbbbbbbbbbbb".
Definition digest_a : string := "sha256:aaaaaaaaaaaaaaaaaaaaaaaaaaaaaaaaaaaaaaaaaaaaaaaaaaaaaaaaaaaaaaaa".

Definition sample_input (at_ : option string) (state : option string) : ControllerDecisionInput :=
  {| cd_target := Some digest_b; cd_liveImage := Some ("ghcr.io/swarmy/api@" +:+ digest_a); cd_liveUpdateState := state;
     cd_inventoryReady := true; cd_dispatchedAt := at_; cd_processStartedAt := 1000; cd_now := 2000;
     cd_selfCommit := None; cd_targetCommit := None; cd_fromCommit := None; cd_timeoutMs := None |}.

Lemma controller_step_witness :
  controllerStepDecision (fun _ => Some 0) (sample_input None None) = CD_dispatch /\
  controllerStepDecision (fun _ => Some 0) (sample_input (Some "t") (Some "rollback_completed")) <> CD_dispatch.
Proof.
  split.
  - apply (controller_step (fun _ => Some 0) (sample_input None None) digest_b); [done|].
    split_and!; [by intros []|done|]. intros H. vm_compute in H. discriminate.
  - intros H. apply (controller_step (fun _ => Some 0) (sample_input (Some "t") (Some "rollback_completed")) digest_b) in H;
      [|done]. destruct H as [H _]. apply H. by exists "t".
Defined.

Definition sample_components : list (string * ManifestComponentLite) :=
  [ ("clickhouse", {| mc_ref := "clickhouse/clickhouse-server:24"; mc_image := "clickhouse/clickhouse-server"; mc_digest := Some digest_b |});
    ("dns", {| mc_ref := "ghcr.io/requestflo/swarmy-dns:1"; mc_image := "ghcr.io/requestflo/swarmy-dns"; mc_digest := Some digest_b |}) ].

Definition sample_ref (key : string) (c : ManifestComponentLite) : string := mc_image c +:+ "@" +:+ default "" (mc_digest c).

Definition sample_services : list LiveSystemService :=
  [ {| ls_name := "swarmy-clickhouse"; ls_image := "reg:5000/swarmy-system/docker.io/clickhouse/clickhouse-server:24@" +:+ digest_a; ls_labels := [] |};
    {| ls_name := "swarmy-dns"; ls_image := "ghcr.io/requestflo/swarmy-dns:1@" +:+ digest_a; ls_labels := [] |};
    {| ls_name := "shop_web"; ls_image := "ghcr.io/requestflo/swarmy-dns:1@" +:+ digest_a; ls_labels := [] |} ].

Example sample_updates : map su_service (planSystemUpdates str_cmp sample_services sample_components sample_ref) =
  ["swarmy-dns"; "swarmy-clickhouse"].
Proof. vm_compute. reflexivity. Qed.

Lemma system_updates_converge_witness :
  planSystemUpdates str_cmp (map (landed sample_components sample_ref) sample_services) sample_components sample_ref = [].
Proof.
  apply (system_updates_converge str_cmp sample_components sample_ref sample_services).
  split_and!.
  - vm_compute. repeat constructor; set_solver.
  - intros key c Hin. apply list_elem_of_In in Hin. vm_compute in Hin.
    destruct Hin as [[= <- <-]|[[= <- <-]|[]]]; vm_compute; tauto.
  - intros key key' c c' H1%list_elem_of_In H2%list_elem_of_In. vm_compute in H1, H2.
    destruct H1 as [[= <- <-]|[[= <- <-]|[]]], H2 as [[= <- <-]|[[= <- <-]|[]]]; vm_compute; intros [?|[?|?]]; done.
Defined.

Lemma upgrade_scripts_witness :
  updateLanded (parseUpdateOutput ("pulling" +:+ String newline (result_line "0" "completed" +:+ str1 newline))) = true.
Proof.
  apply (upgrade_scripts "it's" "a b" {| so_detach := false; so_monitor := None; so_login := None |} "pulling" "0" "completed");
    by vm_compute.
Defined.
