(* ===== verification/NetPolicy.v ===== *)
(** The network model shared by the controller, the agents and the console
    (packages/core/src/network-policy.ts): overlay MTUs, the private networks that
    connect two apps, and the walls no user-supplied service may cross.

    An object used as a map is the list of its entries, in order and without
    duplicate keys; [k in obj] never meets a name of Object.prototype. *)

From S2P Require Import Prelude Comparators Json.

Definition SHARED_PLATFORM_NETWORK : string := "swarmy".
Definition SWARMY_CONTROL_NETWORK : string := "swarmy-control".
Definition SWARMY_INTEGRATIONS_NETWORK : string := "swarmy-integrations".
Definition LINK_NETWORK_PREFIX : string := "swarmy-link-".
Definition OVERLAY_MTU_OPTION : string := "com.docker.network.driver.mtu".
Definition OVERLAY_ENCRYPTED_OPTION : string := "encrypted".
Definition PLATFORM_SHARED_NETWORKS : list string := [SHARED_PLATFORM_NETWORK; SWARMY_INTEGRATIONS_NETWORK].
Definition PLATFORM_PRIVATE_NETWORKS : list string := [SWARMY_CONTROL_NETWORK].

Definition isPlatformNetwork (name : string) : bool :=
  mem name PLATFORM_SHARED_NETWORKS || mem name PLATFORM_PRIVATE_NETWORKS.

(** * MTU *)

Definition VXLAN_OVERHEAD : Z := 50.
Definition IPSEC_OVERHEAD : Z := 60.

Definition meshLinkMtu (driver : option string) : option Z :=
  let d := toLowerCase (default "none" driver) in
  if String.eqb d "netbird" || String.eqb d "headscale" then Some 1280 else None.

Definition overlayMtuFor (linkMtu : option Z) (encrypted : bool) : option Z :=
  match linkMtu with
  | None => None
  | Some m => if m =? 0 then None else Some (m - VXLAN_OVERHEAD - (if encrypted then IPSEC_OVERHEAD else 0))
  end.

Record OverlayOpts := {
  oo_meshDriver : option string; oo_meshEnabled : bool; oo_encrypted : bool; oo_extra : option (list (string * string))
}.

Definition has_option {A} (k : string) (m : list (string * A)) : bool := mem k (map fst m).

(** [Object.assign(out, extra)] *)
Definition assign {A} (out extra : list (string * A)) : list (string * A) :=
  foldl (fun m kv => obj_set (fst kv) (snd kv) m) out extra.

Definition overlay_mtu (opts : OverlayOpts) : option Z :=
  if oo_meshEnabled opts then
    overlayMtuFor (meshLinkMtu (oo_meshDriver opts))
      (oo_encrypted opts || has_option OVERLAY_ENCRYPTED_OPTION (default [] (oo_extra opts)))
  else None.

Definition overlayDriverOptions (opts : OverlayOpts) : option (list (string * string)) :=
  let out := if oo_encrypted opts then [(OVERLAY_ENCRYPTED_OPTION, "")] else [] in
  let out := match overlay_mtu opts with
             | Some mtu => if mtu =? 0 then out else obj_set OVERLAY_MTU_OPTION (pretty mtu) out
             | None => out
             end in
  match assign out (default [] (oo_extra opts)) with [] => None | m => Some m end.

(** * Connected apps *)

Fixpoint fnv_loop (h1 h2 : Z) (input : string) : Z * Z :=
  match input with
  | EmptyString => (h1, h2)
  | String c rest =>
      let c := Z.of_N (code c) in
      fnv_loop (imul32 h1 c 16777619) (imul32 h2 c (Z.lxor 16777619 47)) rest
  end.

Definition fnv64hex (input : string) : string :=
  let '(h1, h2) := fnv_loop 2166136261 (Z.lxor 16777619 1540483477) input in
  hex_digits 8 h1 +:+ hex_digits 8 h2.

Definition linkPair (a b : string) : string * string := if str_cmp a b <=? 0 then (a, b) else (b, a).

Definition link_text (orgId a b : string) : string :=
  let '(x, y) := linkPair a b in orgId +:+ nul +:+ x +:+ nul +:+ y.

Definition linkNetworkName (orgId a b : string) : string := LINK_NETWORK_PREFIX +:+ fnv64hex (link_text orgId a b).

Definition linkAlias (app shortService : string) : string := shortService +:+ "." +:+ app.

Definition nonempty (s : string) : bool := negb (String.eqb s "").

Definition comma : ascii := ",".

Definition parseLinksLabel (v : option string) : list string :=
  js_sort str_cmp (js_uniq (List.filter nonempty (map trim (split_at comma (default "" v))))).

Definition renderLinksLabel (peers : list string) : string :=
  join "," (js_sort str_cmp (List.filter nonempty (js_uniq peers))).

(** * Walls *)

Record NetworkedSpec := {
  ns_name : option string; ns_networks : option (list string); ns_networkAliases : option (list (string * list string));
  ns_labels : option (list (string * string))
}.

Record NetworkIsolationViolation := { nv_rule : string; nv_message : string; nv_resource : string }.

Definition isReservedServiceName (name : string) : bool :=
  startsWith "swarmy-" name || startsWith "swarmy_" name || String.eqb name "swarmy".

Definition SYSTEM_LABEL : string := "swarmy.system".

(** The label families, each with the label that marks a service as swarmy's. *)
Definition MANAGED_DATA_OWNER_LABELS : list (string * string) :=
  [("swarmy.db.", "swarmy.db.cluster"); ("swarmy.cache.", "swarmy.cache.cluster");
   ("swarmy.search.", "swarmy.search.cluster"); ("swarmy.vector.", "swarmy.vector.name")].

Definition MANAGED_DATA_LABEL_PREFIXES : list string := map fst MANAGED_DATA_OWNER_LABELS.

(** [labels?.[k]] *)
Definition label_of (labels : option (list (string * string))) (k : string) : option string :=
  match labels with Some m => get k m | None => None end.

Definition has_label (labels : option (list (string * string))) (k : string) : bool :=
  bool_decide (is_Some (truthy_str (label_of labels k))).

Definition isManagedDataService (labels : option (list (string * string))) : bool :=
  existsb (fun f => has_label labels (snd f)) MANAGED_DATA_OWNER_LABELS.

Definition tick_quoted (s : string) : string := "`" +:+ s +:+ "`".

Definition spec_name (spec : NetworkedSpec) : string := default "(unnamed)" (ns_name spec).

(** The labels of the live service a spec would replace. *)
Definition current_labels (live : string -> option (list (string * string))) (spec : NetworkedSpec)
    : option (list (string * string)) :=
  match truthy_str (ns_name spec) with Some n => live n | None => None end.

Definition spec_labels (spec : NetworkedSpec) : list (string * string) := default [] (ns_labels spec).

Definition system_violation (current : option (list (string * string))) (spec : NetworkedSpec) : list NetworkIsolationViolation :=
  let labels := spec_labels spec in
  if has_option SYSTEM_LABEL labels && negb (bool_decide (label_of current SYSTEM_LABEL = get SYSTEM_LABEL labels)) then
    [ {| nv_rule := "label.system";
         nv_message := tick_quoted SYSTEM_LABEL +:+ " marks swarmy's own platform services — an app can't set it";
         nv_resource := spec_name spec |} ]
  else [].

(** The labels of a family that a spec may not carry. *)
Definition bad_keys (current : option (list (string * string))) (labels : list (string * string)) (family : string * string)
    : list string :=
  let keys := List.filter (startsWith (fst family)) (map fst labels) in
  if has_label current (snd family) then []
  else List.filter (fun k => negb (bool_decide (label_of current k = get k labels))) keys.

Definition family_violation (current : option (list (string * string))) (spec : NetworkedSpec) (family : string * string)
    : list NetworkIsolationViolation :=
  match bad_keys current (spec_labels spec) family with
  | [] => []
  | bad =>
      let one := (length bad =? 1)%nat in
      [ {| nv_rule := "label.managed-data";
           nv_message := join ", " (map tick_quoted bad) +:+ " " +:+ (if one then "is" else "are") +:+
             " set by swarmy on managed data it creates (and the apps it attaches) — an app can't set " +:+
             (if one then "it" else "them");
           nv_resource := spec_name spec |} ]
  end.

Definition label_violations (live : string -> option (list (string * string))) (spec : NetworkedSpec)
    : list NetworkIsolationViolation :=
  let current := current_labels live spec in
  system_violation current spec ++ flat_map (family_violation current spec) MANAGED_DATA_OWNER_LABELS.

Definition reservedLabelViolations (specs : option (list NetworkedSpec))
    (live : string -> option (list (string * string))) : list NetworkIsolationViolation :=
  flat_map (label_violations live) (default [] specs).

Definition name_violations (spec : NetworkedSpec) : list NetworkIsolationViolation :=
  match truthy_str (ns_name spec) with
  | Some n =>
      if isReservedServiceName n then
        [ {| nv_rule := "platform.reserved-name";
             nv_message := "service names starting with `swarmy-` / `swarmy_` are reserved for swarmy's own platform services";
             nv_resource := spec_name spec |} ]
      else []
  | None => []
  end.

Definition join_violation (spec : NetworkedSpec) (net : string) : list NetworkIsolationViolation :=
  if mem net PLATFORM_PRIVATE_NETWORKS then
    [ {| nv_rule := "network.control-plane";
         nv_message := tick_quoted net +:+ " is swarmy's private control-plane network — app services can't join it";
         nv_resource := spec_name spec |} ]
  else [].

Definition alias_violation (spec : NetworkedSpec) (entry : string * list string) : list NetworkIsolationViolation :=
  if mem (fst entry) PLATFORM_SHARED_NETWORKS && negb (bool_decide (snd entry = [])) then
    [ {| nv_rule := "network.platform-alias";
         nv_message := "DNS aliases on the shared " +:+ tick_quoted (fst entry) +:+ " network are not allowed (" +:+
           join ", " (snd entry) +:+ ") — they could impersonate platform services; use an app network or " +:+
           quoted "connect apps";
         nv_resource := spec_name spec |} ]
  else [].

Definition spec_violations (spec : NetworkedSpec) : list NetworkIsolationViolation :=
  name_violations spec ++ flat_map (join_violation spec) (default [] (ns_networks spec)) ++
  flat_map (alias_violation spec) (default [] (ns_networkAliases spec)).

Definition networkIsolationViolations (specs : option (list NetworkedSpec)) : list NetworkIsolationViolation :=
  flat_map spec_violations (default [] specs).

Definition stripPlatformAliases (spec : NetworkedSpec) : NetworkedSpec :=
  match ns_networkAliases spec with
  | None => spec
  | Some aliases =>
      {| ns_name := ns_name spec; ns_networks := ns_networks spec;
         ns_networkAliases := Some (List.filter (fun e => negb (isPlatformNetwork (fst e))) aliases);
         ns_labels := ns_labels spec |}
  end.

(** * Lemmas *)

(** What the wall lets through. *)
Definition spec_isolated (spec : NetworkedSpec) : Prop :=
  (forall n, truthy_str (ns_name spec) = Some n -> isReservedServiceName n = false) /\
  SWARMY_CONTROL_NETWORK ∉ default [] (ns_networks spec) /\
  (forall net aliases, (net, aliases) ∈ default [] (ns_networkAliases spec) ->
     net = SHARED_PLATFORM_NETWORK \/ net = SWARMY_INTEGRATIONS_NETWORK -> aliases = []).

Lemma shared_mem net : mem net PLATFORM_SHARED_NETWORKS = true <-> net = SHARED_PLATFORM_NETWORK \/ net = SWARMY_INTEGRATIONS_NETWORK.
Proof. rewrite mem_In. unfold PLATFORM_SHARED_NETWORKS. set_solver. Qed.

Lemma private_mem net : mem net PLATFORM_PRIVATE_NETWORKS = true <-> net = SWARMY_CONTROL_NETWORK.
Proof. rewrite mem_In. unfold PLATFORM_PRIVATE_NETWORKS. set_solver. Qed.

Lemma spec_violations_nil spec : spec_violations spec = [] <-> spec_isolated spec.
Proof.
  unfold spec_violations, spec_isolated. rewrite !app_nil, !flat_map_nil. f_equiv; [|f_equiv].
  - unfold name_violations. destruct (truthy_str (ns_name spec)) as [n|]; [|done].
    destruct (isReservedServiceName n) eqn:E; naive_solver congruence.
  - unfold join_violation. split.
    + intros H Hin. specialize (H _ Hin). by rewrite (proj2 (private_mem _) eq_refl) in H.
    + intros H net Hin. destruct (mem net PLATFORM_PRIVATE_NETWORKS) eqn:E; [|done]. apply private_mem in E. by subst.
  - unfold alias_violation. split.
    + intros H net aliases Hin Hs%shared_mem. specialize (H _ Hin). simpl in H. rewrite Hs in H. simpl in H.
      by case_bool_decide.
    + intros H [net aliases] Hin. simpl. destruct (mem net _) eqn:E; [|done]. simpl.
      rewrite bool_decide_true; [done|]. eapply H; [exact Hin|by apply shared_mem].
Qed.

Lemma get_has {A} k (m : list (string * A)) : has_option k m = true <-> is_Some (get k m).
Proof.
  unfold has_option. rewrite mem_In. induction m as [|[k' v] m IH]; simpl.
  - split; [by intros ?%not_elem_of_nil|by intros []].
  - rewrite elem_of_cons, IH. destruct (String.eqb_spec k k') as [->|]; [naive_solver|].
    split; [intros [?|?]; done|tauto].
Qed.

(** What the label wall lets through: nothing swarmy marks its own services
    with, unless the live service carries it already or, for managed data, is a
    service of that family. *)
Definition labels_allowed (live : string -> option (list (string * string))) (spec : NetworkedSpec) : Prop :=
  let current := current_labels live spec in
  (forall v, get SYSTEM_LABEL (spec_labels spec) = Some v -> label_of current SYSTEM_LABEL = Some v) /\
  (forall prefix owner k v, (prefix, owner) ∈ MANAGED_DATA_OWNER_LABELS -> startsWith prefix k = true ->
     get k (spec_labels spec) = Some v -> has_label current owner = true \/ label_of current k = Some v).

Lemma bad_keys_nil current labels family : bad_keys current labels family = [] <->
  forall k v, startsWith (fst family) k = true -> get k labels = Some v ->
    has_label current (snd family) = true \/ label_of current k = Some v.
Proof.
  unfold bad_keys. destruct (has_label current (snd family)); [naive_solver|]. rewrite bfilter_nil. split.
  - intros H k v Hs Hg. right. specialize (H k). rewrite bfilter_elem, negb_false_iff, bool_decide_eq_true in H.
    rewrite H; [done|]. split; [|done]. apply mem_In, get_has. by eexists.
  - intros H k [Hk Hs]%bfilter_elem. apply negb_false_iff, bool_decide_eq_true. apply mem_In, get_has in Hk as [v Hv].
    rewrite Hv. by destruct (H k v Hs Hv).
Qed.

Lemma label_violations_nil live spec : label_violations live spec = [] <-> labels_allowed live spec.
Proof.
  unfold label_violations, labels_allowed. rewrite app_nil, flat_map_nil. f_equiv.
  - unfold system_violation. destruct (has_option SYSTEM_LABEL (spec_labels spec)) eqn:E; simpl.
    + apply get_has in E as [v Hv]. rewrite Hv. case_bool_decide; naive_solver.
    + split; [|done]. intros _ v Hv. assert (has_option SYSTEM_LABEL (spec_labels spec) = true); [|congruence].
      apply get_has. by eexists.
  - unfold family_violation. split.
    + intros H prefix owner k v Hin Hs Hg. specialize (H _ Hin).
      destruct (bad_keys _ _ _) eqn:E; [|done]. by apply (proj1 (bad_keys_nil _ _ (prefix, owner)) E k v).
    + intros H [prefix owner] Hin. rewrite (proj2 (bad_keys_nil _ _ (prefix, owner))); [done|].
      intros k v Hs Hg. by apply (H prefix owner k v).
Qed.

Lemma owner_in_family prefix owner : (prefix, owner) ∈ MANAGED_DATA_OWNER_LABELS -> startsWith prefix owner = true.
Proof.
  intros H%list_elem_of_In. unfold MANAGED_DATA_OWNER_LABELS in H. simpl in H.
  by destruct H as [[= <- <-]|[[= <- <-]|[[= <- <-]|[[= <- <-]|[]]]]].
Qed.

Lemma managed_not_forged live spec :
  labels_allowed live spec -> isManagedDataService (ns_labels spec) = true ->
  isManagedDataService (current_labels live spec) = true.
Proof.
  intros [_ H]. unfold isManagedDataService. rewrite !existsb_exists. intros ([prefix owner] & Hin & Hl). simpl in Hl.
  exists (prefix, owner). split; [done|]. simpl. apply list_elem_of_In in Hin.
  unfold has_label in Hl. rewrite bool_decide_eq_true in Hl.
  destruct (label_of (ns_labels spec) owner) as [v|] eqn:Hv; [|by destruct Hl].
  assert (Hg : get owner (spec_labels spec) = Some v).
  { unfold spec_labels. unfold label_of in Hv. by destruct (ns_labels spec). }
  destruct (H prefix owner owner v Hin (owner_in_family _ _ Hin) Hg) as [?|Hc]; [done|].
  unfold has_label. rewrite Hc. by apply bool_decide_eq_true.
Qed.

(** ** Links *)

Lemma linkPair_sym a b : linkPair a b = linkPair b a.
Proof.
  unfold linkPair. pose proof (cmp_opp (c:=str_cmp) a b).
  destruct (Z.leb_spec (str_cmp a b) 0), (Z.leb_spec (str_cmp b a) 0); try done; [|lia].
  assert (str_cmp a b = 0) as ->%str_cmp_eq by lia. done.
Qed.

Lemma linkPair_cases a b : linkPair a b = (a, b) \/ linkPair a b = (b, a).
Proof. unfold linkPair. destruct (_ <=? _); tauto. Qed.

Lemma fnv_range h1 h2 s : 0 <= h1 < 2 ^ 32 -> 0 <= h2 < 2 ^ 32 ->
  0 <= fst (fnv_loop h1 h2 s) < 2 ^ 32 /\ 0 <= snd (fnv_loop h1 h2 s) < 2 ^ 32.
Proof. revert h1 h2. induction s as [|c s IH]; intros h1 h2 H1 H2; cbn [fnv_loop]; [done|]. apply IH; apply imul32_range. Qed.

Lemma fnv64hex_ok s : String.length (fnv64hex s) = 16%nat /\ all_chars is_hex_lower (fnv64hex s) = true.
Proof.
  unfold fnv64hex. pose proof (fnv_range 2166136261 (Z.lxor 16777619 1540483477) s) as H.
  destruct (fnv_loop _ _ s) as [h1 h2]. destruct H as [H1 H2]; [done|done|].
  destruct (hex_digits_ok 8 h1 H1) as (L1 & C1 & _), (hex_digits_ok 8 h2 H2) as (L2 & C2 & _).
  by rewrite string_length_app, all_chars_app, L1, L2, C1, C2.
Qed.

Lemma cut_unique c x x' y y' :
  no_char c x = true -> no_char c x' = true -> x +:+ String c y = x' +:+ String c y' -> x = x' /\ y = y'.
Proof.
  revert x'. induction x as [|a x IH]; intros [|a' x'] H H' E; simpl in *.
  - by simplify_eq.
  - simplify_eq. unfold no_char in H'. simpl in H'. by rewrite Ascii.eqb_refl in H'.
  - simplify_eq. unfold no_char in H. simpl in H. by rewrite Ascii.eqb_refl in H.
  - injection E as -> E. unfold no_char in H, H'. simpl in H, H'. b2p.
    destruct (IH x') as [-> ->]; [by unfold no_char..|done|done].
Qed.

Definition no_nul (s : string) : Prop := no_char (ascii_of_nat 0) s = true.

Lemma link_text_inj org a b org' a' b' :
  no_nul org -> no_nul org' -> no_nul a -> no_nul b -> no_nul a' -> no_nul b' ->
  link_text org a b = link_text org' a' b' -> org = org' /\ ((a, b) = (a', b') \/ (a, b) = (b', a')).
Proof.
  intros Ho Ho' Ha Hb Ha' Hb' E. unfold link_text in E.
  destruct (linkPair_cases a b) as [E1|E1], (linkPair_cases a' b') as [E2|E2]; rewrite E1, E2 in E;
    apply cut_unique in E as [-> E]; try done; apply cut_unique in E as [-> ->]; try done; tauto.
Qed.

(** ** Labels of links *)

Lemma js_uniq_id (s xs : list string) : NoDup (s ++ xs) -> foldl (fun s x => set_add x s) s xs = s ++ xs.
Proof.
  revert s. induction xs as [|x xs IH]; intros s Hs; simpl; [by rewrite app_nil_r|].
  assert (E : set_add x s = s ++ [x]).
  { unfold set_add. rewrite decide_False; [done|]. apply NoDup_app in Hs as (_ & Hs & _). intros Hx. apply (Hs x Hx). left. }
  rewrite E, IH; rewrite <- app_assoc; done.
Qed.

Lemma split_join l : l <> [] -> Forall (fun s => no_char comma s = true) l -> split_at comma (join "," l) = l.
Proof.
  induction l as [|x l IH]; [done|]. intros _ [Hx Hl]%Forall_cons. destruct l as [|y l].
  - simpl. by apply split_at_none.
  - change (join "," (x :: y :: l)) with (x +:+ String comma (join "," (y :: l))).
    rewrite split_at_app, split_at_none, IH by done. done.
Qed.

(** A name a label can carry. *)
Definition peer_ok (s : string) : Prop := no_char comma s = true /\ trim s = s.

Lemma bfilter_id {A} (f : A -> bool) l : Forall (fun x => f x = true) l -> List.filter f l = l.
Proof. induction 1 as [|x l Hx _ IH]; simpl; [done|]. by rewrite Hx, IH. Qed.

Lemma parse_render peers : Forall peer_ok peers ->
  parseLinksLabel (Some (renderLinksLabel peers)) = js_sort str_cmp (List.filter nonempty (js_uniq peers)).
Proof.
  intros Hp. unfold renderLinksLabel, parseLinksLabel. simpl.
  set (l := js_sort str_cmp (List.filter nonempty (js_uniq peers))).
  assert (Hl : Forall (fun s => peer_ok s /\ nonempty s = true) l).
  { apply Forall_forall. intros s Hs. unfold l in Hs. rewrite js_sort_elem, bfilter_elem, js_uniq_elem in Hs.
    destruct Hs as [Hs Hn]. rewrite Forall_forall in Hp. split; [by apply Hp|done]. }
  assert (Hn : NoDup l).
  { unfold l. rewrite js_sort_perm. apply NoDup_ListNoDup, List.NoDup_filter, NoDup_ListNoDup, js_uniq_NoDup. }
  assert (Hs : js_sort str_cmp l = l) by apply js_sort_id, js_sort_sorted, _.
  destruct (decide (l = [])) as [->|Hne]; [reflexivity|].
  rewrite split_join; [|done|eapply Forall_impl; [exact Hl|]; by intros ? [[? _] _]].
  assert (E : map trim l = l).
  { clear Hn Hs Hne. induction Hl as [|x l0 [[_ Hx] _] _ IH]; simpl; [done|]. by rewrite Hx, IH. }
  rewrite E, bfilter_id by (eapply Forall_impl; [exact Hl|]; by intros ? [_ ?]).
  unfold js_uniq. by rewrite js_uniq_id.
Qed.

(** ** Driver options *)

Lemma get_assign {A} k (out extra : list (string * A)) : NoDup (map fst extra) ->
  get k (assign out extra) = match get k extra with Some v => Some v | None => get k out end.
Proof.
  revert out. unfold assign. induction extra as [|[a w] extra IH]; intros out; simpl; [done|].
  intros [Ha Hd]%NoDup_cons. rewrite IH by done. rewrite get_obj_set. destruct (String.eqb_spec k a) as [->|]; [|done].
  destruct (get a extra) eqn:E; [|done]. exfalso. apply Ha, mem_In. apply (get_has a extra). by eexists.
Qed.

Lemma has_assign {A} k (out extra : list (string * A)) : NoDup (map fst extra) ->
  has_option k (assign out extra) = has_option k out || has_option k extra.
Proof.
  intros Hd. apply eq_true_iff_eq. rewrite orb_true_iff, !get_has, get_assign by done.
  destruct (get k extra); [|naive_solver]. split; [by right|by eexists].
Qed.

Definition mesh_link (opts : OverlayOpts) : option Z :=
  if oo_meshEnabled opts then meshLinkMtu (oo_meshDriver opts) else None.

Lemma mesh_link_1280 opts link : mesh_link opts = Some link -> link = 1280.
Proof. unfold mesh_link, meshLinkMtu. destruct (oo_meshEnabled opts); [|done]. destruct (_ || _); [|done]. by intros [= <-]. Qed.

Lemma overlay_mtu_eq opts :
  overlay_mtu opts = match mesh_link opts with
                     | Some _ => Some (if oo_encrypted opts || has_option OVERLAY_ENCRYPTED_OPTION (default [] (oo_extra opts))
                                       then 1170 else 1230)
                     | None => None
                     end.
Proof.
  unfold overlay_mtu, mesh_link, meshLinkMtu. destruct (oo_meshEnabled opts); [|done]. destruct (_ || _); [|done].
  by destruct (_ || _).
Qed.

(** What the source sets before the caller's own options. *)
Definition base_options (opts : OverlayOpts) : list (string * string) :=
  let out := if oo_encrypted opts then [(OVERLAY_ENCRYPTED_OPTION, "")] else [] in
  match overlay_mtu opts with
  | Some mtu => if mtu =? 0 then out else obj_set OVERLAY_MTU_OPTION (pretty mtu) out
  | None => out
  end.

Lemma base_mtu opts : get OVERLAY_MTU_OPTION (base_options opts) = pretty <$> overlay_mtu opts.
Proof.
  unfold base_options. rewrite overlay_mtu_eq. destruct (mesh_link opts); simpl.
  - destruct (_ || _); simpl; rewrite get_obj_set; done.
  - by destruct (oo_encrypted opts).
Qed.

Lemma base_encrypted opts : has_option OVERLAY_ENCRYPTED_OPTION (base_options opts) = oo_encrypted opts.
Proof.
  unfold base_options. rewrite overlay_mtu_eq. destruct (mesh_link opts); simpl; [|by destruct (oo_encrypted opts)].
  by destruct (oo_encrypted opts), (has_option _ (default [] (oo_extra opts))).
Qed.

Lemma options_some opts m : overlayDriverOptions opts = Some m -> m = assign (base_options opts) (default [] (oo_extra opts)).
Proof. unfold overlayDriverOptions. fold (base_options opts). destruct (assign _ _); [done|]. by intros [= <-]. Qed.

Lemma violation_resource spec v : In v (spec_violations spec) -> nv_resource v = spec_name spec.
Proof.
  unfold spec_violations. rewrite !in_app_iff, !in_flat_map. intros [H|[(net & _ & H)|(e & _ & H)]].
  - unfold name_violations in H. destruct (truthy_str _); [|done]. destruct (isReservedServiceName _); [|done].
    by destruct H as [<-|[]].
  - unfold join_violation in H. destruct (mem _ _); [|done]. by destruct H as [<-|[]].
  - unfold alias_violation in H. destruct (_ && _); [|done]. by destruct H as [<-|[]].
Qed.

Lemma platform_false net : isPlatformNetwork net = false <->
  net <> SHARED_PLATFORM_NETWORK /\ net <> SWARMY_INTEGRATIONS_NETWORK /\ net <> SWARMY_CONTROL_NETWORK.
Proof.
  unfold isPlatformNetwork. rewrite orb_false_iff, <- !not_true_iff_false, shared_mem, private_mem. tauto.
Qed.

Lemma strip_spec s :
  ns_name (stripPlatformAliases s) = ns_name s /\ ns_networks (stripPlatformAliases s) = ns_networks s /\
  forall net aliases, (net, aliases) ∈ default [] (ns_networkAliases (stripPlatformAliases s)) <->
    (net, aliases) ∈ default [] (ns_networkAliases s) /\ net <> SHARED_PLATFORM_NETWORK /\
    net <> SWARMY_INTEGRATIONS_NETWORK /\ net <> SWARMY_CONTROL_NETWORK.
Proof.
  unfold stripPlatformAliases. destruct (ns_networkAliases s) as [al|] eqn:E; simpl.
  - split_and!; [done..|]. intros net aliases. by rewrite bfilter_elem, negb_true_iff, platform_false.
  - split_and!; [done..|]. intros net aliases. rewrite E. simpl. set_solver.
Qed.

(** The network wall. A deploy of user-supplied specs passes exactly when
    no spec carries a platform service's name, joins the control plane or answers
    to an alias on a shared platform network; every refusal names the spec at
    fault; and what swarmy strips passes the alias wall, losing nothing but its
    aliases on platform networks. *)
Theorem network_wall :
  (forall specs, networkIsolationViolations specs = [] <-> forall s, s ∈ default [] specs -> spec_isolated s) /\
  (forall specs v, v ∈ networkIsolationViolations specs ->
     exists s, s ∈ default [] specs /\ nv_resource v = spec_name s /\ ~ spec_isolated s) /\
  (forall s, ns_name (stripPlatformAliases s) = ns_name s /\ ns_networks (stripPlatformAliases s) = ns_networks s /\
     forall net aliases, (net, aliases) ∈ default [] (ns_networkAliases (stripPlatformAliases s)) <->
       (net, aliases) ∈ default [] (ns_networkAliases s) /\ net <> SHARED_PLATFORM_NETWORK /\
       net <> SWARMY_INTEGRATIONS_NETWORK /\ net <> SWARMY_CONTROL_NETWORK).
Proof.
  split_and!.
  - intros specs. unfold networkIsolationViolations. rewrite flat_map_nil. by setoid_rewrite spec_violations_nil.
  - intros specs v Hv. apply list_elem_of_In, in_flat_map in Hv as (s & Hs & Hv). exists s.
    split; [by apply list_elem_of_In|]. split; [by apply violation_resource|].
    rewrite <- spec_violations_nil. by intros E; rewrite E in Hv.
  - intros s. apply strip_spec.
Qed.

(** The label wall. User-supplied specs pass exactly when none sets the
    platform marker or a managed-data label, except unchanged from the live
    service it replaces, or, for managed data, on a service of that family swarmy
    created; hence a spec that passes poses as managed data only where the live
    service is managed data already. *)
Theorem label_wall specs live :
  (reservedLabelViolations specs live = [] <-> forall s, s ∈ default [] specs -> labels_allowed live s) /\
  (reservedLabelViolations specs live = [] -> forall s, s ∈ default [] specs ->
     isManagedDataService (ns_labels s) = true -> isManagedDataService (current_labels live s) = true).
Proof.
  assert (H : reservedLabelViolations specs live = [] <-> forall s, s ∈ default [] specs -> labels_allowed live s).
  { unfold reservedLabelViolations. rewrite flat_map_nil. by setoid_rewrite label_violations_nil. }
  split; [exact H|]. intros Hv s Hs. apply managed_not_forged. by apply H.
Qed.

(** Overlays fit their path. The options of an overlay keep the caller's
    own; when the mesh carries it and the caller did not set one, its MTU leaves
    room for the VXLAN header, and for IPsec when the overlay ends up encrypted,
    on the mesh's link, exactly; without a mesh none is set. *)
Theorem overlay_fits opts m :
  NoDup (map fst (default [] (oo_extra opts))) -> overlayDriverOptions opts = Some m ->
  (forall k v, get k (default [] (oo_extra opts)) = Some v -> get k m = Some v) /\
  has_option OVERLAY_ENCRYPTED_OPTION m = oo_encrypted opts || has_option OVERLAY_ENCRYPTED_OPTION (default [] (oo_extra opts)) /\
  (get OVERLAY_MTU_OPTION (default [] (oo_extra opts)) = None ->
   match mesh_link opts with
   | Some link => exists mtu, get OVERLAY_MTU_OPTION m = Some (pretty mtu) /\ 0 < mtu /\
       mtu + VXLAN_OVERHEAD + (if has_option OVERLAY_ENCRYPTED_OPTION m then IPSEC_OVERHEAD else 0) = link
   | None => get OVERLAY_MTU_OPTION m = None
   end).
Proof.
  intros Hd ->%options_some. rewrite !has_assign, base_encrypted by done. split_and!; [|done|].
  - intros k v Hk. by rewrite get_assign, Hk.
  - intros Hx. rewrite get_assign, Hx, base_mtu, overlay_mtu_eq by done.
    destruct (mesh_link opts) as [link|] eqn:E; [|done]. rewrite (mesh_link_1280 _ _ E). eexists. split; [reflexivity|].
    unfold VXLAN_OVERHEAD, IPSEC_OVERHEAD. destruct (_ || _); lia.
Qed.

(** Links. The network of two connected apps does not depend on their
    order, its name is 28 characters of the prefix and 16 hexadecimal digits, and
    the text it is hashed from determines the organisation and the pair; a label
    of peers is read back as the same peers, sorted and without repetition. *)
Theorem link_networks :
  (forall org a b, linkNetworkName org a b = linkNetworkName org b a /\
     exists h, linkNetworkName org a b = LINK_NETWORK_PREFIX +:+ h /\ String.length h = 16%nat /\ all_chars is_hex_lower h = true) /\
  (forall org a b org' a' b',
     no_nul org -> no_nul org' -> no_nul a -> no_nul b -> no_nul a' -> no_nul b' ->
     link_text org a b = link_text org' a' b' -> org = org' /\ ((a, b) = (a', b') \/ (a, b) = (b', a'))) /\
  (forall peers, Forall peer_ok peers ->
     let read := parseLinksLabel (Some (renderLinksLabel peers)) in
     NoDup read /\ StronglySorted (le_by str_cmp) read /\ forall p, p ∈ read <-> p ∈ peers /\ p <> "").
Proof.
  split_and!.
  - intros org a b. unfold linkNetworkName, link_text. rewrite (linkPair_sym a b). split; [done|].
    eexists. split; [done|]. apply fnv64hex_ok.
  - apply link_text_inj.
  - intros peers Hp. cbv zeta. rewrite parse_render by done. split_and!.
    + rewrite js_sort_perm. apply NoDup_ListNoDup, List.NoDup_filter, NoDup_ListNoDup, js_uniq_NoDup.
    + apply js_sort_sorted, _.
    + intros p. rewrite js_sort_elem, bfilter_elem, js_uniq_elem. unfold nonempty.
      by rewrite negb_true_iff, String.eqb_neq.
Qed.

(** * Witnesses *)

Definition sample_spec (name : string) (labels : list (string * string)) : NetworkedSpec :=
  {| ns_name := Some name; ns_networks := Some ["shop_default"]; ns_networkAliases := Some [("shop_default", ["db"])];
     ns_labels := Some labels |}.

Example sample_wall :
  map nv_rule (networkIsolationViolations (Some [sample_spec "swarmy_controller" []; sample_spec "shop_web" []])) =
  ["platform.reserved-name"].
Proof. vm_compute. reflexivity. Qed.

Example sample_labels :
  map nv_rule (reservedLabelViolations (Some [sample_spec "shop_web" [("swarmy.db.cluster", "main")]]) (fun _ => None)) =
  ["label.managed-data"].
Proof. vm_compute. reflexivity. Qed.

Example sample_hash : fnv64hex "" = "811c9dc55ad1e806".
Proof. vm_compute. reflexivity. Qed.

Definition sample_opts : OverlayOpts :=
  {| oo_meshDriver := Some "NetBird"; oo_meshEnabled := true; oo_encrypted := false; oo_extra := Some [("encrypted", "")] |}.

Lemma overlay_fits_witness :
  exists mtu, get OVERLAY_MTU_OPTION [(OVERLAY_MTU_OPTION, "1170"); ("encrypted", "")] = Some (pretty mtu) /\ 0 < mtu /\
    mtu + VXLAN_OVERHEAD + IPSEC_OVERHEAD = 1280.
Proof.
  destruct (overlay_fits sample_opts [(OVERLAY_MTU_OPTION, "1170"); ("encrypted", "")]) as (_ & _ & H).
  - simpl. apply NoDup_singleton.
  - vm_compute. reflexivity.
  - exact (H eq_refl).
Defined.

Lemma network_wall_witness : networkIsolationViolations (Some [sample_spec "shop_web" []]) = [].
Proof.
  apply network_wall. intros s ->%list_elem_of_singleton. split_and!.
  - by intros n [= <-].
  - simpl. set_solver.
  - simpl. intros net aliases [= -> ->]%list_elem_of_singleton [?|?]; done.
Defined.

Lemma label_wall_witness : reservedLabelViolations (Some [sample_spec "shop_web" []]) (fun _ => None) = [].
Proof.
  apply label_wall. intros s ->%list_elem_of_singleton. split; [done|]. by intros prefix owner k v _ _.
Defined.

Lemma link_networks_witness :
  "billing" ∈ parseLinksLabel (Some (renderLinksLabel ["shop"; "billing"; "shop"])).
Proof.
  apply (proj2 (proj2 link_networks)); [by repeat constructor|]. split; [set_solver|done].
Defined.
