(* ===== verification/AppPlan.v ===== *)
(** Application planning (packages/app-config/src/plan.ts): the difference
    between what swarmy.yaml declares and what runs, as ordered actions, each
    applied on its own, held for a human, or refused.

    Sizes, versions and counts are integers.  A unit that the planner hands on
    whole (a service, a route, a job) is a record of the fields it reads and its
    JSON, which [diffFields] compares; resources are modelled field by field.
    The signatures of units are computed elsewhere and compared here. *)

From S2P Require Import Prelude Comparators Json.

(** * Units (packages/app-config/src/desired.ts) *)

Inductive ResourceType := postgres | cache | search | vector | bucket.

#[export] Instance ResourceType_eq_dec : EqDecision ResourceType.
Proof. solve_decision. Defined.

Definition type_text (t : ResourceType) : string :=
  match t with postgres => "postgres" | cache => "cache" | search => "search" | vector => "vector" | bucket => "bucket" end.

Record Backups := { bk_schedule : string; bk_keep : Z }.

#[export] Instance Backups_eq_dec : EqDecision Backups.
Proof. solve_decision. Defined.

Inductive ResourceSpec :=
  | Postgres (version : Z) (ha : string) (replicas : Z) (regions : option (list (string * Z))) (database : string)
      (backups : option Backups)
  | Cache (engine ha : string) (replicas memoryMb : Z) (purpose : option string)
  | Search (engine : string)
  | Vector (engine : string) (on_ : option string)
  | Bucket (access : string) (quotaMb : option Z).

Record DesiredResource := { dr_name : string; dr_sig : string; dr_spec : ResourceSpec }.

Definition spec_type (s : ResourceSpec) : ResourceType :=
  match s with
  | Postgres _ _ _ _ _ _ => postgres
  | Cache _ _ _ _ _ => cache
  | Search _ => search
  | Vector _ _ => vector
  | Bucket _ _ => bucket
  end.

Definition dr_type (r : DesiredResource) : ResourceType := spec_type (dr_spec r).

Definition member {A} (k : string) (f : A -> value) (o : option A) : list (string * value) :=
  match o with Some x => [(k, f x)] | None => [] end.

Definition spec_json (s : ResourceSpec) : list (string * value) :=
  ("type", VStr (type_text (spec_type s))) ::
  match s with
  | Postgres version ha replicas regions database backups =>
      [("version", vint version); ("ha", VStr ha); ("replicas", vint replicas)] ++
      member "regions" (fun m => VObj (map (fun kv => (fst kv, vint (snd kv))) m)) regions ++
      [("database", VStr database);
       ("backups", match backups with
                   | Some b => VObj [("schedule", VStr (bk_schedule b)); ("keep", vint (bk_keep b))]
                   | None => VNull
                   end)]
  | Cache engine ha replicas memoryMb purpose =>
      [("engine", VStr engine); ("ha", VStr ha); ("replicas", vint replicas); ("memoryMb", vint memoryMb)] ++
      member "purpose" VStr purpose
  | Search engine => [("engine", VStr engine)]
  | Vector engine on_ => ("engine", VStr engine) :: member "on" VStr on_
  | Bucket access quotaMb => ("access", VStr access) :: member "quotaMb" vint quotaMb
  end.

Definition resource_json (r : DesiredResource) : value :=
  VObj (("name", VStr (dr_name r)) :: spec_json (dr_spec r) ++ [("sig", VStr (dr_sig r))]).

Record BuildSource := {
  bs_key : string; bs_context : string; bs_dockerfile : string; bs_target : option string;
  bs_args : list (string * string); bs_watch : list string; bs_builder : option string;
  bs_railpack : option value; bs_env : option (list (string * string))
}.

Inductive Source := S_build (b : BuildSource) | S_image (image : string).

Record DesiredService := {
  sv_name : string; sv_source : Source; sv_volumes : list string; sv_sig : string; sv_unit : value
}.

Record DesiredRoute := { rt_host : string; rt_path : string; rt_service : string; rt_port : Z; rt_sig : string; rt_unit : value }.

Record DesiredJob := { jb_name : string; jb_schedule : string; jb_sig : string; jb_unit : value }.

Record PreviewData := { pd_fromEnvironment : string; pd_scrub : option string }.

Record DesiredApp := {
  da_stack : string; da_previewData : option PreviewData; da_services : list DesiredService;
  da_resources : list DesiredResource; da_routes : list DesiredRoute; da_jobs : list DesiredJob; da_connect : list string
}.

(** * The live snapshot *)

Record LiveService := {
  lv_name : string; lv_image : string; lv_sig : option string; lv_buildKey : option string;
  lv_volumes : list string; lv_applied : option value
}.

Record LiveResource := { lr_name : string; lr_type : ResourceType; lr_sig : option string; lr_applied : option DesiredResource }.

Record LiveRoute := { lt_host : string; lt_path : string; lt_service : string; lt_sig : option string }.

Record LiveJob := { lj_name : string; lj_sig : option string }.

Record LiveApp := {
  la_stack : string; la_services : list LiveService; la_resources : list LiveResource; la_routes : list LiveRoute;
  la_jobs : list LiveJob; la_connect : list string
}.

Definition emptyLive (stack : string) : LiveApp :=
  {| la_stack := stack; la_services := []; la_resources := []; la_routes := []; la_jobs := []; la_connect := [] |}.

(** * Plans *)

Inductive Gate := auto_ | confirm_ | blocked_.

#[export] Instance Gate_eq_dec : EqDecision Gate.
Proof. solve_decision. Defined.

Record FieldChange := { fc_path : string; fc_from : option value; fc_to : option value }.

Inductive ImageRef := FromBuild (key : string) | Image (image : string).

Inductive ActionKind :=
  | Resource_create (name : string) (resource : DesiredResource)
  | Resource_update (name : string) (resource : DesiredResource) (changes : list FieldChange)
  | Resource_delete (name : string) (resourceType : ResourceType)
  | Build_ (services : list string) (source : BuildSource)
  | Service_deploy (name : string) (create : bool) (image : ImageRef) (changes : list FieldChange) (service : DesiredService)
  | Service_remove (name : string)
  | Route_add (host path : string) (route : DesiredRoute)
  | Route_update (host path : string) (route : DesiredRoute)
  | Route_remove (host path : string)
  | Job_create (name : string) (job : DesiredJob)
  | Job_update (name : string) (job : DesiredJob)
  | Job_remove (name : string)
  | Link_add (peer : string)
  | Link_remove (peer : string).

Record PlanAction := { ac_id : string; ac_phase : Z; ac_gate : Gate; ac_reason : string; ac_kind : ActionKind }.

Inductive PlanStatus := noop | ready | needs_confirmation | blocked_plan.

Record Counts := { ct_auto : nat; ct_confirm : nat; ct_blocked : nat }.

Record Plan := { pl_stack : string; pl_status : PlanStatus; pl_actions : list PlanAction; pl_counts : Counts }.

Record PlanOptions := { po_changedPaths : option (list string); po_requireApproval : bool }.

Definition route_key (host path : string) : string := if String.eqb path "/" then host else host +:+ path.
Definition routeKey (r : DesiredRoute) : string := route_key (rt_host r) (rt_path r).
Definition liveRouteKey (r : LiveRoute) : string := route_key (lt_host r) (lt_path r).

(** Does any changed path fall under any watched path? *)
Definition touches (changed watch : list string) : bool :=
  existsb (fun c => existsb (fun w => String.eqb w "." || String.eqb c w || startsWith (w +:+ "/") c) watch) changed.

Definition typeRank (t : ResourceType) : Z := match t with postgres => 0 | vector => 2 | _ => 1 end.

Definition kindRank (k : ActionKind) : Z :=
  match k with
  | Resource_create _ _ => 0
  | Resource_update _ _ _ => 1
  | Build_ _ _ => 2
  | Service_deploy _ _ _ _ _ => 3
  | Route_add _ _ _ => 4
  | Route_update _ _ _ => 5
  | Job_create _ _ => 6
  | Job_update _ _ => 7
  | Link_add _ => 8
  | Route_remove _ _ => 9
  | Job_remove _ => 10
  | Link_remove _ => 11
  | Service_remove _ => 12
  | Resource_delete _ _ => 13
  end.

Definition POSTGRES_HA : list string := ["single"; "primary-replica"; "failover"; "geo"; "active-active"].

Fixpoint index_of (x : string) (l : list string) : option Z :=
  match l with
  | [] => None
  | y :: l' => if String.eqb y x then Some 0 else Z.succ <$> index_of x l'
  end.

Definition haRank (ha : string) : Z := default (-1) (index_of ha POSTGRES_HA).

Definition describeResource (r : DesiredResource) : string :=
  match dr_spec r with
  | Postgres version ha replicas _ _ _ =>
      "postgres " +:+ pretty version +:+ " " +:+ quoted (dr_name r) +:+ " (" +:+ ha +:+
      (if replicas =? 0 then ""
       else " + " +:+ pretty replicas +:+ " replica" +:+ (if 1 <? replicas then "s" else "")) +:+ ")"
  | Cache engine _ _ memoryMb _ => engine +:+ " cache " +:+ quoted (dr_name r) +:+ " (" +:+ pretty memoryMb +:+ "MB)"
  | Search engine => engine +:+ " search " +:+ quoted (dr_name r)
  | Vector engine on_ =>
      if String.eqb engine "pgvector" then "pgvector on " +:+ quoted (default "undefined" on_)
      else "qdrant vector store " +:+ quoted (dr_name r)
  | Bucket access _ => access +:+ " bucket " +:+ quoted (dr_name r)
  end.

(** [diffFields]: a field that is an object on both sides is compared inside. *)
Fixpoint diff_fields (fuel : nat) (before after : option value) (base : string) : list FieldChange :=
  if String.eqb base "sig" then []
  else
    let leaf :=
      if bool_decide (before = after) then []
      else [ {| fc_path := base; fc_from := before; fc_to := after |} ] in
    match fuel with
    | O => leaf
    | S fuel' =>
        match before, after with
        | Some (VObj b), Some (VObj a) =>
            flat_map (fun k => diff_fields fuel' (get k b) (get k a) (if String.eqb base "" then k else base +:+ "." +:+ k))
              (js_sort str_cmp (js_uniq (map fst b ++ map fst a)))
        | _, _ => leaf
        end
    end.

Definition diffFields (before after : value) : list FieldChange :=
  diff_fields (S (depth_of before)) (Some before) (Some after) "".

(** * Gating in-place changes *)

Definition on_when (b : bool) (s : string) : list string := if b then [s] else [].

Definition backups_eqb (a b : option Backups) : bool := bool_decide (a = b).

(** What needs a human, and what goes without saying, in a change of one
    resource; or why it cannot be done. *)
Definition update_reasons (name : string) (before after : ResourceSpec) : (list string * list string) + string :=
  match before, after with
  | Postgres bv bha brep _ bdb bbk, Postgres av aha arep _ adb abk =>
      if av <? bv then inr ("postgres " +:+ quoted name +:+ " cannot go from " +:+ pretty bv +:+ " down to " +:+ pretty av)
      else
        let lower := haRank aha <? haRank bha in
        inl (on_when (bv <? av) ("upgrade postgres " +:+ pretty bv +:+ " → " +:+ pretty av +:+
               " (dump + restore, brief write downtime)") ++
             on_when lower ("reduce HA " +:+ bha +:+ " → " +:+ aha) ++
             on_when (negb (String.eqb adb bdb)) ("switch to database " +:+ quoted adb +:+ " (the app will see an empty database)") ++
             on_when (bool_decide (is_Some bbk) && negb (bool_decide (is_Some abk))) "turn backups off",
             on_when (negb lower && negb (String.eqb aha bha)) ("HA " +:+ bha +:+ " → " +:+ aha) ++
             on_when (negb (arep =? brep)) ("replicas " +:+ pretty brep +:+ " → " +:+ pretty arep) ++
             on_when (negb (backups_eqb abk bbk) && bool_decide (is_Some abk)) "backup schedule")
  | Cache be bha brep bmem bp, Cache ae aha arep amem ap =>
      let p o := default "cache" o in
      inl (on_when (negb (String.eqb (p ap) (p bp))) ("switch " +:+ p bp +:+ " → " +:+ p ap +:+
             " (queues never evict; caches do) — declare a new resource instead") ++
           on_when (negb (String.eqb ae be)) ("switch " +:+ be +:+ " → " +:+ ae +:+ " (cache starts empty)") ++
           on_when (amem <? bmem) ("shrink memory " +:+ pretty bmem +:+ "MB → " +:+ pretty amem +:+ "MB (keys will be evicted)"),
           on_when (negb (amem <? bmem) && negb (amem =? bmem)) ("memory " +:+ pretty bmem +:+ "MB → " +:+ pretty amem +:+ "MB") ++
           on_when (negb (String.eqb aha bha) || negb (arep =? brep)) ("topology " +:+ aha +:+ "×" +:+ pretty arep))
  | Search be, Search ae =>
      inl (on_when (negb (String.eqb ae be)) ("switch " +:+ be +:+ " → " +:+ ae +:+ " (indexes start empty)"), [])
  | Vector be bon, Vector ae aon =>
      inl (on_when (negb (String.eqb ae be) || negb (bool_decide (aon = bon))) "move the vector store (collections start empty)", [])
  | Bucket ba bq, Bucket aa aq =>
      let public := String.eqb aa "public" && negb (String.eqb ba "public") in
      let shrink := match bq, aq with Some b, Some a => a <? b | _, _ => false end in
      let mb o := match o with Some z => pretty z | None => "undefined" end in
      inl (on_when public "make the bucket PUBLIC (world-readable)" ++
           on_when shrink ("shrink quota " +:+ mb bq +:+ "MB → " +:+ mb aq +:+ "MB"),
           on_when (negb public && negb (String.eqb aa ba)) ("access " +:+ ba +:+ " → " +:+ aa) ++
           on_when (negb shrink && negb (bool_decide (aq = bq))) "quota")
  | _, _ => inl ([], [])
  end.

Definition gateResourceUpdate (before : option DesiredResource) (after : DesiredResource) : Gate * string :=
  match before with
  | None =>
      (confirm_, type_text (dr_type after) +:+ " " +:+ quoted (dr_name after) +:+
        " exists but was not created from swarmy.yaml — review before swarmy takes it over")
  | Some b =>
      match update_reasons (dr_name after) (dr_spec b) (dr_spec after) with
      | inr reason => (blocked_, reason)
      | inl (confirm, auto) =>
          match confirm with
          | _ :: _ => (confirm_, dr_name after +:+ ": " +:+ join "; " confirm)
          | [] => (auto_, "update " +:+ dr_name after +:+ match auto with [] => "" | _ => ": " +:+ join "; " auto end)
          end
      end
  end.

(** * The planner *)

Section plan.
Context (desired : DesiredApp) (live : LiveApp) (opts : PlanOptions).

Definition action (id : string) (phase : Z) (gate : Gate) (reason : string) (kind : ActionKind) : PlanAction :=
  {| ac_id := id; ac_phase := phase; ac_gate := gate; ac_reason := reason; ac_kind := kind |}.

Definition live_resource (name : string) : option LiveResource := by_key lr_name (la_resources live) name.
Definition live_service (name : string) : option LiveService := by_key lv_name (la_services live) name.
Definition live_route (key : string) : option LiveRoute := by_key liveRouteKey (la_routes live) key.
Definition live_job (name : string) : option LiveJob := by_key lj_name (la_jobs live) name.

(** The order resources are visited in: [a.name < b.name ? -1 : 1] after the rank. *)
Definition resource_cmp : DesiredResource -> DesiredResource -> Z :=
  cmp_then (cmp_asc (fun r => typeRank (dr_type r)))
    (fun a b => if str_cmp (dr_name a) (dr_name b) <? 0 then -1 else 1).

Definition preview_note (r : DesiredResource) : string :=
  match dr_type r, da_previewData desired with
  | postgres, Some p =>
      " — a COPY of " +:+ pd_fromEnvironment p +:+ "'s latest backup" +:+
      match truthy_str (pd_scrub p) with Some s => ", scrubbed by " +:+ s | None => "" end +:+ "; destroyed with the preview"
  | _, _ => ""
  end.

Definition resource_actions (r : DesiredResource) : list PlanAction :=
  match live_resource (dr_name r) with
  | None =>
      [action ("resource.create:" +:+ dr_name r) 1 auto_ ("create " +:+ describeResource r +:+ preview_note r)
         (Resource_create (dr_name r) r)]
  | Some l =>
      if negb (bool_decide (lr_type l = dr_type r)) then
        [action ("resource.delete:" +:+ dr_name r) 6 confirm_
           (type_text (lr_type l) +:+ " " +:+ quoted (dr_name r) +:+ " is being replaced by a " +:+ type_text (dr_type r) +:+
            " — its data will be deleted") (Resource_delete (dr_name r) (lr_type l));
         action ("resource.create:" +:+ dr_name r) 1 confirm_
           ("create " +:+ describeResource r +:+ " (replaces a " +:+ type_text (lr_type l) +:+ ")")
           (Resource_create (dr_name r) r)]
      else if bool_decide (lr_sig l = Some (dr_sig r)) then []
      else
        let changes := match lr_applied l with Some b => diffFields (resource_json b) (resource_json r) | None => [] end in
        let '(gate, reason) := gateResourceUpdate (lr_applied l) r in
        [action ("resource.update:" +:+ dr_name r) 1 gate reason (Resource_update (dr_name r) r changes)]
  end.

(** [buildsByKey]: the services of each build, under the source of the first. *)
Fixpoint group_add (b : BuildSource) (s : DesiredService) (m : list (BuildSource * list DesiredService))
    : list (BuildSource * list DesiredService) :=
  match m with
  | [] => [(b, [s])]
  | (b', l) :: m' => if String.eqb (bs_key b') (bs_key b) then (b', l ++ [s]) :: m' else (b', l) :: group_add b s m'
  end.

Definition group_step (m : list (BuildSource * list DesiredService)) (s : DesiredService) : list (BuildSource * list DesiredService) :=
  match sv_source s with S_build b => group_add b s m | S_image _ => m end.

Definition builds : list (BuildSource * list DesiredService) := foldl group_step [] (da_services desired).

Definition CONFIG_FILES : list string := ["swarmy.yaml"; "swarmy.yml"].

Definition changed : option (list string) :=
  List.filter (fun p => negb (mem p CONFIG_FILES)) <$> po_changedPaths opts.

Definition build_reason (key : string) (s : DesiredService) : list string :=
  match live_service (sv_name s) with
  | None => [sv_name s +:+ " is new"]
  | Some l => on_when (negb (bool_decide (lv_buildKey l = Some key))) (sv_name s +:+ "'s build settings changed")
  end.

Definition build_reasons (b : BuildSource * list DesiredService) : list string :=
  flat_map (build_reason (bs_key (fst b))) (snd b) ++
  match changed with
  | None => ["new commit"]
  | Some c => on_when (touches c (bs_watch (fst b))) ("files changed under " +:+ join ", " (bs_watch (fst b)))
  end.

Definition build_action (b : BuildSource * list DesiredService) : list PlanAction :=
  match build_reasons b with
  | [] => []
  | reasons =>
      [action ("build:" +:+ bs_key (fst b)) 2 auto_
         ("build " +:+ (if String.eqb (bs_context (fst b)) "." then "the repo root" else bs_context (fst b)) +:+ " (" +:+
          join "; " (js_uniq reasons) +:+ ")")
         (Build_ (map sv_name (snd b)) (fst b))]
  end.

(** The keys built in this plan. *)
Definition building : list string :=
  map (fun b => bs_key (fst b)) (List.filter (fun b => negb (bool_decide (build_reasons b = []))) builds).

Definition rebuilt (s : DesiredService) : bool :=
  match sv_source s with S_build b => mem (bs_key b) building | S_image _ => false end.

Definition dropped_volumes (l : LiveService) (s : DesiredService) : list string :=
  List.filter (fun v => negb (mem v (sv_volumes s))) (lv_volumes l).

Definition deploy_image (s : DesiredService) (l : option LiveService) : ImageRef :=
  match sv_source s with
  | S_image image => Image image
  | S_build b =>
      match l with
      | Some l => if rebuilt s then FromBuild (bs_key b) else Image (lv_image l)
      | None => FromBuild (bs_key b)
      end
  end.

Definition deploy_changes (s : DesiredService) (l : option LiveService) : list FieldChange :=
  match l with
  | Some l => match lv_applied l with Some b => diffFields b (sv_unit s) | None => [] end
  | None => []
  end.

Definition deploy_reason (s : DesiredService) (l : option LiveService) : string :=
  match l with
  | None => "deploy new service " +:+ sv_name s
  | Some l' =>
      match dropped_volumes l' s with
      | _ :: _ as d => sv_name s +:+ " stops mounting volume " +:+ join ", " d +:+ " — its data would be orphaned"
      | [] =>
          if rebuilt s && bool_decide (lv_sig l' = Some (sv_sig s)) then "roll " +:+ sv_name s +:+ " to the new build"
          else "update " +:+ sv_name s +:+
               match deploy_changes s l with
               | [] => ""
               | ch => " (" +:+ join ", " (map fc_path ch) +:+ ")"
               end
      end
  end.

Definition deploy_gate (s : DesiredService) (l : option LiveService) : Gate :=
  match l with
  | Some l => match dropped_volumes l s with [] => auto_ | _ => confirm_ end
  | None => auto_
  end.

Definition up_to_date (s : DesiredService) (l : option LiveService) : bool :=
  match l with Some l => bool_decide (lv_sig l = Some (sv_sig s)) && negb (rebuilt s) | None => false end.

Definition deploy_actions (s : DesiredService) : list PlanAction :=
  let l := live_service (sv_name s) in
  if up_to_date s l then []
  else [action ("service.deploy:" +:+ sv_name s) 3 (deploy_gate s l) (deploy_reason s l)
          (Service_deploy (sv_name s) (negb (bool_decide (is_Some l))) (deploy_image s l) (deploy_changes s l) s)].

Definition route_actions (r : DesiredRoute) : list PlanAction :=
  match live_route (routeKey r) with
  | None =>
      [action ("route.add:" +:+ routeKey r) 4 auto_
         ("route " +:+ routeKey r +:+ " → " +:+ rt_service r +:+ ":" +:+ pretty (rt_port r))
         (Route_add (rt_host r) (rt_path r) r)]
  | Some l =>
      if bool_decide (lt_sig l = Some (rt_sig r)) then []
      else [action ("route.update:" +:+ routeKey r) 4 auto_ ("update route " +:+ routeKey r) (Route_update (rt_host r) (rt_path r) r)]
  end.

Definition job_actions (j : DesiredJob) : list PlanAction :=
  match live_job (jb_name j) with
  | None =>
      [action ("job.create:" +:+ jb_name j) 4 auto_ ("schedule " +:+ jb_name j +:+ " (" +:+ jb_schedule j +:+ ")")
         (Job_create (jb_name j) j)]
  | Some l =>
      if bool_decide (lj_sig l = Some (jb_sig j)) then []
      else [action ("job.update:" +:+ jb_name j) 4 auto_ ("update job " +:+ jb_name j) (Job_update (jb_name j) j)]
  end.

Definition link_adds : list PlanAction :=
  map (fun peer => action ("link.add:" +:+ peer) 4 auto_ ("connect to app " +:+ peer) (Link_add peer))
    (List.filter (fun peer => negb (mem peer (la_connect live))) (da_connect desired)).

Definition route_removals : list PlanAction :=
  map (fun l => action ("route.remove:" +:+ liveRouteKey l) 5 auto_ ("stop routing " +:+ liveRouteKey l)
         (Route_remove (lt_host l) (lt_path l)))
    (List.filter (fun l => negb (mem (liveRouteKey l) (map routeKey (da_routes desired)))) (la_routes live)).

Definition job_removals : list PlanAction :=
  map (fun l => action ("job.remove:" +:+ lj_name l) 5 auto_ ("unschedule " +:+ lj_name l) (Job_remove (lj_name l)))
    (List.filter (fun l => negb (mem (lj_name l) (map jb_name (da_jobs desired)))) (la_jobs live)).

Definition link_removals : list PlanAction :=
  map (fun peer => action ("link.remove:" +:+ peer) 5 auto_ ("disconnect from app " +:+ peer) (Link_remove peer))
    (List.filter (fun peer => negb (mem peer (da_connect desired))) (la_connect live)).

Definition service_removal (l : LiveService) : PlanAction :=
  match lv_volumes l with
  | [] => action ("service.remove:" +:+ lv_name l) 5 auto_ ("remove service " +:+ lv_name l) (Service_remove (lv_name l))
  | vs => action ("service.remove:" +:+ lv_name l) 5 confirm_
            ("remove " +:+ lv_name l +:+ " — it mounts volume " +:+ join ", " vs +:+ ", which would be orphaned")
            (Service_remove (lv_name l))
  end.

Definition service_removals : list PlanAction :=
  map service_removal
    (List.filter (fun l => negb (mem (lv_name l) (map sv_name (da_services desired)))) (la_services live)).

Definition resource_removal (l : LiveResource) : PlanAction :=
  action ("resource.delete:" +:+ lr_name l) 6 confirm_
    (match lr_type l with
     | postgres => "remove postgres " +:+ quoted (lr_name l) +:+ " — its data volume is kept until you delete it permanently"
     | t => "delete " +:+ type_text t +:+ " " +:+ quoted (lr_name l) +:+ " and all of its data"
     end)
    (Resource_delete (lr_name l) (lr_type l)).

Definition resource_removals : list PlanAction :=
  map resource_removal
    (List.filter (fun l => negb (mem (lr_name l) (map dr_name (da_resources desired)))) (la_resources live)).

Definition all_actions : list PlanAction :=
  flat_map resource_actions (js_sort resource_cmp (da_resources desired)) ++
  flat_map build_action builds ++
  flat_map deploy_actions (da_services desired) ++
  flat_map route_actions (da_routes desired) ++
  flat_map job_actions (da_jobs desired) ++
  link_adds ++ route_removals ++ job_removals ++ link_removals ++ service_removals ++ resource_removals.

Definition by_phase : PlanAction -> PlanAction -> Z :=
  cmp_then (cmp_asc ac_phase) (cmp_asc (fun a => kindRank (ac_kind a))).

Definition require_approval (a : PlanAction) : PlanAction :=
  match ac_gate a with
  | auto_ => {| ac_id := ac_id a; ac_phase := ac_phase a; ac_gate := confirm_; ac_reason := ac_reason a; ac_kind := ac_kind a |}
  | _ => a
  end.

Definition count_gate (g : Gate) (actions : list PlanAction) : nat :=
  length (List.filter (fun a => bool_decide (ac_gate a = g)) actions).

Definition plan_actions : list PlanAction :=
  let sorted := js_sort by_phase all_actions in
  if po_requireApproval opts then map require_approval sorted else sorted.

Definition planApp : Plan :=
  let counts := {| ct_auto := count_gate auto_ plan_actions; ct_confirm := count_gate confirm_ plan_actions;
                   ct_blocked := count_gate blocked_ plan_actions |} in
  {| pl_stack := da_stack desired;
     pl_status := if (0 <? ct_blocked counts)%nat then blocked_plan
                  else if (0 <? ct_confirm counts)%nat then needs_confirmation
                  else match plan_actions with [] => noop | _ => ready end;
     pl_actions := plan_actions; pl_counts := counts |}.
End plan.

(** The comment of a plan on a pull request. *)
Definition plan_head (p : Plan) : string :=
  let c := pl_counts p in
  let plural n := if (n =? 1)%nat then "" else "s" in
  match pl_status p with
  | noop => "Nothing to change."
  | blocked_plan => "Blocked — " +:+ pretty (Z.of_nat (ct_blocked c)) +:+ " change" +:+
      (if (1 <? ct_blocked c)%nat then "s" else "") +:+ " cannot be applied."
  | needs_confirmation => pretty (Z.of_nat (ct_auto c)) +:+ " change" +:+ plural (ct_auto c) +:+ " will apply; " +:+
      pretty (Z.of_nat (ct_confirm c)) +:+ " need" +:+ (if (ct_confirm c =? 1)%nat then "s" else "") +:+ " you in the dashboard."
  | ready => pretty (Z.of_nat (ct_auto c)) +:+ " change" +:+ plural (ct_auto c) +:+ " will apply."
  end.

Definition gate_icon (g : Gate) : string := match g with auto_ => "+" | confirm_ => "!" | blocked_ => "x" end.

Definition planToMarkdown (p : Plan) (previewUrl : option string) : string :=
  join (String (ascii_of_nat 10) "")
    (["### swarmy plan for `" +:+ pl_stack p +:+ "`"; ""; plan_head p] ++
     match truthy_str previewUrl with Some u => [""; "Preview: " +:+ u] | None => [] end ++
     match pl_actions p with
     | [] => []
     | l => [""; "```diff"] ++ map (fun a => gate_icon (ac_gate a) +:+ " " +:+ ac_reason a) l ++ ["```"]
     end).

(** * Lemmas *)

Lemma on_when_nil b s : on_when b s = [] <-> b = false.
Proof. by destruct b. Qed.

(** What changes without a human, of each type.  Postgres: nothing but a higher level of
    HA, the number of replicas, the regions, and the schedule and number of backups while
    there are some.  A cache: its memory upwards, its HA and replicas.  A bucket: its access
    other than to public, and its quota upwards or away. *)
Definition alone (before after : ResourceSpec) : Prop :=
  match before, after with
  | Postgres bv bha _ _ bdb bbk, Postgres av aha _ _ adb abk =>
      av = bv /\ haRank bha <= haRank aha /\ adb = bdb /\ (is_Some bbk -> is_Some abk)
  | Cache be _ _ bmem bp, Cache ae _ _ amem ap =>
      default "cache" ap = default "cache" bp /\ ae = be /\ bmem <= amem
  | Search be, Search ae => ae = be
  | Vector be bon, Vector ae aon => ae = be /\ aon = bon
  | Bucket ba bq, Bucket aa aq =>
      (aa = "public" -> ba = "public") /\ (forall b a, bq = Some b -> aq = Some a -> b <= a)
  | _, _ => False
  end.

Lemma reasons_alone name before after auto :
  spec_type before = spec_type after -> update_reasons name before after = inl ([], auto) -> alone before after.
Proof.
  destruct before as [bv bha br bg bdb bb|be bh br bm bp|be|be bo|ba bq], after as [av aha ar ag adb ab|ae ah ar am ap|ae|ae ao|aa aq];
    try done; intros _; simpl.
  - destruct (Z.ltb_spec av bv) as [|Hge]; [done|]. intros [= H _]. rewrite !app_nil, !on_when_nil in H. destruct H as (H1 & H2 & H3 & H4).
    b2p. split_and!; [lia|lia|by b2p|]. intros Hb. destruct ab; [by eexists|]. by rewrite (bool_decide_true _ Hb) in H4.
  - intros [= H _]. rewrite !app_nil, !on_when_nil in H. destruct H as (H1 & H2 & H3). by b2p.
  - intros [= H]. rewrite on_when_nil in H. by b2p.
  - intros [= H]. rewrite on_when_nil in H. by b2p.
  - intros [= H _]. rewrite !app_nil, !on_when_nil in H. destruct H as [H1 H2]. split.
    + intros ->. simpl in H1. by b2p.
    + intros b a -> ->. by b2p.
Qed.

Lemma alone_reasons name before after : alone before after -> exists auto, update_reasons name before after = inl ([], auto).
Proof.
  destruct before as [bv bha br bg bdb bb|be bh br bm bp|be|be bo|ba bq], after as [av aha ar ag adb ab|ae ah ar am ap|ae|ae ao|aa aq]; simpl; try done.
  - intros (-> & H2 & -> & H4). apply Z.ltb_ge in H2. rewrite Z.ltb_irrefl, H2, String.eqb_refl.
    assert (bool_decide (is_Some bb) && negb (bool_decide (is_Some ab)) = false) as -> by
      (destruct bb; [rewrite (bool_decide_true (is_Some ab)) by (apply H4; by eexists); by rewrite andb_false_r|done]). by eexists.
  - intros (-> & -> & H3). apply Z.ltb_ge in H3. rewrite !String.eqb_refl, H3. by eexists.
  - intros ->. rewrite String.eqb_refl. by eexists.
  - intros [-> ->]. rewrite String.eqb_refl, bool_decide_true by done. by eexists.
  - intros [H1 H2]. assert (String.eqb aa "public" && negb (String.eqb ba "public") = false) as ->.
    { destruct (String.eqb_spec aa "public") as [->|]; [|done]. by rewrite H1. }
    assert ((match bq, aq with Some b, Some a => a <? b | _, _ => false end) = false) as -> by
      (destruct bq, aq; try done; apply Z.ltb_ge; by apply H2). by eexists.
Qed.

(** The rule written above [gateResourceUpdate] asks for a human when durability is
    reduced: the copies of a database may all go without one, and all but one of its
    backups. *)
Lemma durability_may_drop name sig :
  fst (gateResourceUpdate (Some {| dr_name := name; dr_sig := sig; dr_spec := Postgres 17 "failover" 2 None "app" (Some {| bk_schedule := "0 3 * * *"; bk_keep := 30 |}) |})
    {| dr_name := name; dr_sig := sig; dr_spec := Postgres 17 "failover" 0 None "app" (Some {| bk_schedule := "0 3 * * 0"; bk_keep := 1 |}) |}) = auto_.
Proof. reflexivity. Qed.

(** The one change that is refused. *)
Definition downgrade (before after : ResourceSpec) : Prop :=
  match before, after with Postgres bv _ _ _ _ _, Postgres av _ _ _ _ _ => av < bv | _, _ => False end.

Lemma reasons_blocked name before after :
  (exists r, update_reasons name before after = inr r) <-> downgrade before after.
Proof.
  destruct before, after; simpl; try (split; [by intros [? ?]|done]).
  destruct (Z.ltb_spec version0 version); split; try done; [by eexists|by intros [? ?]|lia].
Qed.

Lemma gate_auto before after reason :
  gateResourceUpdate before after = (auto_, reason) ->
  exists b auto, before = Some b /\ update_reasons (dr_name after) (dr_spec b) (dr_spec after) = inl ([], auto).
Proof.
  unfold gateResourceUpdate. destruct before as [b|]; [|done].
  destruct (update_reasons _ _ _) as [[[|c cs] auto]|] eqn:E; try done. intros _. by exists b, auto.
Qed.

Lemma gate_blocked before after :
  (exists reason, gateResourceUpdate before after = (blocked_, reason)) <->
  exists b, before = Some b /\ downgrade (dr_spec b) (dr_spec after).
Proof.
  unfold gateResourceUpdate. destruct before as [b|]; [|split; [by intros [? ?]|by intros (? & ? & ?)]].
  pose proof (reasons_blocked (dr_name after) (dr_spec b) (dr_spec after)) as H.
  destruct (update_reasons _ _ _) as [[[|c cs] auto]|r]; split; try (by intros [? ?]);
    try (by intros (? & [= <-] & [? ?]%H)).
  - intros _. exists b. split; [done|]. apply H. by eexists.
  - intros _. by eexists.
Qed.

Ltac each_action := repeat (apply Forall_cons; split); try apply Forall_nil; try done.

Section facts.
Context (desired : DesiredApp) (live : LiveApp) (opts : PlanOptions).
Local Notation all := (all_actions desired live opts).

(** Actions that may be applied without a human. *)
Definition safe_action (a : PlanAction) : Prop :=
  match ac_kind a with
  | Resource_create name _ => name ∉ map lr_name (la_resources live)
  | Resource_update name r _ =>
      exists l b, live_resource live name = Some l /\ lr_applied l = Some b /\ alone (dr_spec b) (dr_spec r)
  | Resource_delete _ _ => False
  | Service_deploy name _ _ _ s => forall l, live_service live name = Some l -> forall v, v ∈ lv_volumes l -> v ∈ sv_volumes s
  | Service_remove name => exists l, l ∈ la_services live /\ lv_name l = name /\ lv_volumes l = []
  | _ => True
  end.

(** The last unit applied to a live resource has the resource's type. *)
Definition live_types_ok : Prop := forall l b, l ∈ la_resources live -> lr_applied l = Some b -> dr_type b = lr_type l.

Definition phase_of (k : ActionKind) : Z :=
  match k with
  | Resource_create _ _ | Resource_update _ _ _ => 1
  | Build_ _ _ => 2
  | Service_deploy _ _ _ _ _ => 3
  | Route_add _ _ _ | Route_update _ _ _ | Job_create _ _ | Job_update _ _ | Link_add _ => 4
  | Route_remove _ _ | Job_remove _ | Link_remove _ | Service_remove _ => 5
  | Resource_delete _ _ => 6
  end.

Lemma Forall_flat {A B} (P : B -> Prop) (f : A -> list B) l :
  (forall x, x ∈ l -> Forall P (f x)) -> Forall P (flat_map f l).
Proof.
  intros H. induction l as [|x l IH]; simpl; [constructor|]. apply Forall_app. split; [apply H; left|].
  apply IH. intros y Hy. apply H. by right.
Qed.

Lemma Forall_mapped {A B} (P : B -> Prop) (f : A -> B) l : (forall x, x ∈ l -> P (f x)) -> Forall P (map f l).
Proof. intros H. apply Forall_forall. intros y (x & -> & Hx)%list_elem_of_fmap. by apply H. Qed.

(** What holds of the actions of every kind holds of all. *)
Lemma all_actions_ind (P : PlanAction -> Prop) :
  (forall r, r ∈ da_resources desired -> Forall P (resource_actions desired live r)) ->
  (forall b, b ∈ builds desired -> Forall P (build_action live opts b)) ->
  (forall s, s ∈ da_services desired -> Forall P (deploy_actions desired live opts s)) ->
  (forall r, r ∈ da_routes desired -> Forall P (route_actions live r)) ->
  (forall j, j ∈ da_jobs desired -> Forall P (job_actions live j)) ->
  Forall P (link_adds desired live) -> Forall P (route_removals desired live) -> Forall P (job_removals desired live) ->
  Forall P (link_removals desired live) ->
  (forall l, l ∈ la_services live -> P (service_removal l)) ->
  (forall l, l ∈ la_resources live -> P (resource_removal l)) -> Forall P all.
Proof.
  intros H1 H2 H3 H4 H5 H6 H7 H8 H9 H10 H11. unfold all_actions. rewrite !Forall_app. split_and!; try done.
  - apply Forall_flat. intros r. rewrite js_sort_elem. apply H1.
  - by apply Forall_flat.
  - by apply Forall_flat.
  - by apply Forall_flat.
  - by apply Forall_flat.
  - apply Forall_mapped. intros l [Hl _]%bfilter_elem. by apply H10.
  - apply Forall_mapped. intros l [Hl _]%bfilter_elem. by apply H11.
Qed.

Lemma all_phases : Forall (fun a => ac_phase a = phase_of (ac_kind a)) all.
Proof.
  apply all_actions_ind; intros; try (by apply Forall_mapped).
  - unfold resource_actions. repeat case_match; each_action.
  - unfold build_action. case_match; each_action.
  - unfold deploy_actions. case_match; each_action.
  - unfold route_actions. repeat case_match; each_action.
  - unfold job_actions. repeat case_match; each_action.
  - unfold service_removal. by case_match.
  - done.
Qed.

Lemma all_safe : live_types_ok -> Forall (fun a => ac_gate a = auto_ -> safe_action a) all.
Proof.
  intros Hok. apply all_actions_ind; intros; try (by apply Forall_mapped).
  - unfold resource_actions. destruct (live_resource live (dr_name r)) as [l|] eqn:El.
    + case_bool_decide as Ht; simpl; [|each_action]. case_bool_decide; [each_action|].
      destruct (gateResourceUpdate (lr_applied l) r) as [g reason] eqn:Eg. each_action. simpl. intros ->.
      apply gate_auto in Eg as (b & auto & Eb & Er). exists l, b. split_and!; [done|done|].
      eapply reasons_alone; [|exact Er]. apply by_key_some in El as [Hl _]. transitivity (lr_type l); [|done].
      by apply Hok.
    + each_action. intros _. by apply (by_key_none lr_name).
  - unfold build_action. case_match; each_action.
  - unfold deploy_actions. case_match; each_action. simpl. unfold safe_action, deploy_gate. simpl.
    intros Hg l Hl v Hv. rewrite Hl in Hg. revert Hg. destruct (dropped_volumes l s) as [|] eqn:Ed; [intros _|done].
    unfold dropped_volumes in Ed. rewrite bfilter_nil in Ed. specialize (Ed v Hv).
    by apply negb_false_iff, mem_In in Ed.
  - unfold route_actions. repeat case_match; each_action.
  - unfold job_actions. repeat case_match; each_action.
  - unfold service_removal in *. destruct (lv_volumes l) eqn:E; [|done]. by exists l.
  - done.
Qed.

(** An update of a resource that [alone] allows is not held up. *)
Lemma all_free a name r ch : a ∈ all -> ac_kind a = Resource_update name r ch -> safe_action a -> ac_gate a = auto_.
Proof.
  intros Ha. assert (H : Forall (fun a => forall name r ch, ac_kind a = Resource_update name r ch -> safe_action a -> ac_gate a = auto_) all); [|rewrite Forall_forall in H; by apply H].
  clear. apply all_actions_ind; intros; try (by apply Forall_mapped).
  - unfold resource_actions. destruct (live_resource live (dr_name r)) as [l|] eqn:El; [|each_action].
    case_bool_decide; simpl; [|each_action]. case_bool_decide; [each_action|]. destruct (gateResourceUpdate (lr_applied l) r) as [g reason] eqn:Eg.
    apply Forall_cons. split; [|constructor]. intros n r' ch [= <- <- _] (l' & b & El' & Eb & Hb). simpl in *. rewrite El in El'. injection El' as <-.
    unfold gateResourceUpdate in Eg. rewrite Eb in Eg. destruct (alone_reasons (dr_name r) _ _ Hb) as [auto Er]. rewrite Er in Eg. by injection Eg as <- _.
  - unfold build_action. case_match; each_action.
  - unfold deploy_actions. case_match; each_action.
  - unfold route_actions. repeat case_match; each_action.
  - unfold job_actions. repeat case_match; each_action.
  - unfold service_removal in *. by case_match.
  - done.
Qed.

Definition plan_blocked : Prop :=
  exists r l b, r ∈ da_resources desired /\ live_resource live (dr_name r) = Some l /\ lr_type l = dr_type r /\
    lr_sig l <> Some (dr_sig r) /\ lr_applied l = Some b /\ downgrade (dr_spec b) (dr_spec r).

Lemma all_blocked : (exists a, a ∈ all /\ ac_gate a = blocked_) <-> plan_blocked.
Proof.
  split.
  - intros (a & Ha & Hg). assert (H : Forall (fun a => ac_gate a = blocked_ -> plan_blocked) all).
    { apply all_actions_ind; intros; try (by apply Forall_mapped).
      - unfold resource_actions. destruct (live_resource live (dr_name r)) as [l|] eqn:El; [|each_action].
        case_bool_decide as Ht; simpl; [|each_action]. case_bool_decide as Hs; [each_action|].
        destruct (gateResourceUpdate (lr_applied l) r) as [g reason] eqn:Eg. each_action. simpl. intros ->.
        destruct (proj1 (gate_blocked (lr_applied l) r)) as (b & Hb & Hd); [by eexists|]. by exists r, l, b.
      - unfold build_action. case_match; each_action.
      - unfold deploy_actions. case_match; each_action. simpl. unfold deploy_gate. repeat case_match; done.
      - unfold route_actions. repeat case_match; each_action.
      - unfold job_actions. repeat case_match; each_action.
      - unfold service_removal in *. by case_match.
      - done. }
    rewrite Forall_forall in H. by apply (H a).
  - intros (r & l & b & Hr & Hl & Ht & Hs & Hb & Hd).
    destruct (proj2 (gate_blocked (lr_applied l) r)) as [reason Hg]; [by exists b|].
    eexists. split; [|shelve]. unfold all_actions. apply elem_of_app. left. apply list_elem_of_In, in_flat_map. exists r.
    split; [apply list_elem_of_In; by apply js_sort_elem|]. unfold resource_actions. rewrite Hl, bool_decide_true by done. simpl.
    rewrite bool_decide_false by done. rewrite Hg. left. reflexivity. Unshelve. done.
Qed.
End facts.

Lemma phase_kind_mono k k' : phase_of k < phase_of k' -> kindRank k < kindRank k' \/ phase_of k = 4 /\ phase_of k' = 5.
Proof. destruct k, k'; simpl; lia. Qed.

(** ** Builds *)

Definition built_by (b : BuildSource) (s : DesiredService) : Prop :=
  exists b', sv_source s = S_build b' /\ bs_key b' = bs_key b.

Record groups_ok (services : list DesiredService) (m : list (BuildSource * list DesiredService)) : Prop := {
  go_keys : NoDup (map (fun g => bs_key (fst g)) m);
  go_in : forall g s, g ∈ m -> s ∈ snd g -> s ∈ services /\ built_by (fst g) s;
  go_all : forall s b, s ∈ services -> sv_source s = S_build b -> exists g, g ∈ m /\ s ∈ snd g /\ bs_key (fst g) = bs_key b
}.

Lemma group_add_keys b s m :
  map (fun g => bs_key (fst g)) (group_add b s m) =
  if decide (bs_key b ∈ map (fun g => bs_key (fst g)) m) then map (fun g => bs_key (fst g)) m
  else map (fun g => bs_key (fst g)) m ++ [bs_key b].
Proof.
  induction m as [|[b' l] m IH]; simpl; [done|].
  destruct (String.eqb_spec (bs_key b') (bs_key b)) as [E|E]; simpl.
  - rewrite decide_True; [done|]. rewrite E. left.
  - rewrite IH. repeat case_decide; try done; set_solver.
Qed.

Lemma group_add_elem b s m g : NoDup (map (fun g => bs_key (fst g)) m) ->
  g ∈ group_add b s m <->
  (g ∈ m /\ bs_key (fst g) <> bs_key b) \/
  (exists l, (fst g, l) ∈ m /\ bs_key (fst g) = bs_key b /\ snd g = l ++ [s]) \/
  (bs_key b ∉ map (fun g => bs_key (fst g)) m /\ g = (b, [s])).
Proof.
  induction m as [|[b' l] m IH]; simpl.
  - intros _. rewrite list_elem_of_singleton. split; [intros ->; right; right; split; [set_solver|done]|].
    intros [[H _]|[(? & H & _)|[_ ?]]]; [by apply not_elem_of_nil in H..|done].
  - intros [Hn Hd]%NoDup_cons. destruct (String.eqb_spec (bs_key b') (bs_key b)) as [E|E].
    + setoid_rewrite elem_of_cons. split.
      * intros [->|H]; [right; left; exists l; set_solver|]. left. split; [by right|]. intros Hk. apply Hn.
        rewrite E, <- Hk. apply list_elem_of_fmap. by exists g.
      * destruct g as [gb gl]; simpl. intros [[[[= -> ->]|H] Hk]|[(l' & [[= -> ->]|H] & Hk & Hs)|[Hx _]]]; [done|by right|left|..].
        -- by subst.
        -- exfalso. apply Hn. rewrite E, <- Hk. apply list_elem_of_fmap. by exists (gb, l').
        -- exfalso. apply Hx. by left.
    + setoid_rewrite elem_of_cons. rewrite IH by done. split.
      * intros [->|[[H Hk]|[(l' & H & Hk & Hs)|[Hx ->]]]]; [left; split; [by left|done]|left; split; [by right|done]| |].
        -- right; left. exists l'. split_and!; [by right|done|done].
        -- right; right. split; [|done]. by intros [?|?].
      * destruct g as [gb gl]; simpl. intros [[[[= -> ->]|H] Hk]|[(l' & [[= -> ->]|H] & Hk & Hs)|[Hx [= -> ->]]]]; [by left|right; left; by split|done| |].
        -- right; right; left. by exists l'.
        -- right; right; right. split; [|done]. intros ?. apply Hx. by right.
Qed.

Lemma groups_add services m s b : groups_ok services m -> sv_source s = S_build b ->
  groups_ok (services ++ [s]) (group_add b s m).
Proof.
  intros [K I A] Hs. split.
  - rewrite group_add_keys. case_decide as Hin; [done|]. apply NoDup_app. split_and!; [done| |apply NoDup_singleton].
    by intros x Hx ->%list_elem_of_singleton.
  - intros g s' Hg Hs'. rewrite elem_of_app, list_elem_of_singleton.
    apply group_add_elem in Hg as [[Hg _]|[(l & Hl & Hk & E)|[_ ->]]]; [| | |done].
    + destruct (I g s' Hg Hs') as [? ?]. split; [by left|done].
    + rewrite E in Hs'. apply elem_of_app in Hs' as [Hs'|Hs'%list_elem_of_singleton].
      * destruct (I _ _ Hl Hs') as [? ?]. split; [by left|done].
      * subst s'. split; [by right|]. by exists b.
    + simpl in *. apply list_elem_of_singleton in Hs' as ->. split; [by right|]. by exists b.
  - intros s' b' Hin Hb'. apply elem_of_app in Hin as [Hin|Hin%list_elem_of_singleton]; [|subst s'].
    + destruct (A s' b' Hin Hb') as ([bg l] & Hg & Hs' & Hk). simpl in *.
      destruct (decide (bs_key bg = bs_key b)) as [E|E].
      * exists (bg, l ++ [s]). rewrite group_add_elem by done. split_and!; [right; left; by exists l|set_solver|done].
      * exists (bg, l). rewrite group_add_elem by done. split_and!; [left; by split|done|done].
    + rewrite Hs in Hb'. injection Hb' as <-.
      destruct (decide (bs_key b ∈ map (fun g => bs_key (fst g)) m)) as [Hin|Hin].
      * apply list_elem_of_fmap in Hin as ([bg l] & Hk & Hg). exists (bg, l ++ [s]). rewrite group_add_elem by done.
        split_and!; [right; left; exists l; by split_and!|set_solver|done].
      * exists (b, [s]). rewrite group_add_elem by done. split_and!; [right; right; by split|set_solver|done].
Qed.

Lemma builds_ok desired : groups_ok (da_services desired) (builds desired).
Proof.
  unfold builds. induction (da_services desired) as [|s l IH] using rev_ind.
  - split; [constructor|..]; [intros g s H|intros s b H]; by apply not_elem_of_nil in H.
  - rewrite foldl_app. simpl. unfold group_step at 1. destruct (sv_source s) as [b|i] eqn:E; [by apply groups_add|].
    destruct IH as [K I A]. split; [done|..].
    + intros g s' Hg Hs'. destruct (I g s' Hg Hs'). split; [apply elem_of_app; by left|done].
    + intros s' b [Hin|Hin%list_elem_of_singleton]%elem_of_app Hb; [by apply A|subst s']. by rewrite E in Hb.
Qed.

Lemma groups_unique desired g g' : g ∈ builds desired -> g' ∈ builds desired -> bs_key (fst g) = bs_key (fst g') -> g = g'.
Proof.
  intros Hg Hg'. pose proof (go_keys _ _ (builds_ok desired)) as Hk.
  by apply (map_key_inj (fun g => bs_key (fst g)) (builds desired)).
Qed.

Lemma building_elem desired live opts key :
  key ∈ building desired live opts <->
  exists g, g ∈ builds desired /\ bs_key (fst g) = key /\ build_reasons live opts g <> [].
Proof.
  unfold building. rewrite list_elem_of_fmap. setoid_rewrite bfilter_elem. split.
  - intros (g & -> & Hg & Hr). exists g. b2p. by repeat split.
  - intros (g & Hg & <- & Hr). exists g. split; [done|]. split; [done|]. by rewrite bool_decide_false.
Qed.

Lemma build_action_built live opts g : build_reasons live opts g <> [] ->
  exists a, build_action live opts g = [a] /\ ac_kind a = Build_ (map sv_name (snd g)) (fst g).
Proof. unfold build_action. destruct (build_reasons live opts g); [done|]. intros _. by eexists. Qed.

(** A service new to the app has its image built. *)
Lemma new_service_built desired live opts s b : s ∈ da_services desired -> sv_source s = S_build b ->
  live_service live (sv_name s) = None -> bs_key b ∈ building desired live opts.
Proof.
  intros Hs Hb Hl. apply building_elem. destruct (go_all _ _ (builds_ok desired) s b Hs Hb) as (g & Hg & Hin & Hk).
  exists g. split_and!; [done..|]. unfold build_reasons. rewrite app_nil. intros [H _].
  rewrite flat_map_nil in H. specialize (H s Hin). unfold build_reason in H. by rewrite Hl in H.
Qed.

(** ** From the collected actions to the plan *)

Definition ungated (opts : PlanOptions) (a : PlanAction) : PlanAction :=
  if po_requireApproval opts then require_approval a else a.

Lemma plan_actions_map desired live opts :
  plan_actions desired live opts = map (ungated opts) (js_sort by_phase (all_actions desired live opts)).
Proof. unfold plan_actions, ungated. destruct (po_requireApproval opts); [done|]. by rewrite map_id. Qed.

Lemma ungated_kind opts a : ac_kind (ungated opts a) = ac_kind a.
Proof. unfold ungated, require_approval. by repeat case_match. Qed.

Lemma ungated_phase opts a : ac_phase (ungated opts a) = ac_phase a.
Proof. unfold ungated, require_approval. by repeat case_match. Qed.

Lemma ungated_auto opts a : ac_gate (ungated opts a) = auto_ -> po_requireApproval opts = false /\ ac_gate a = auto_.
Proof. unfold ungated, require_approval. destruct (po_requireApproval opts); [|done]. by destruct (ac_gate a) eqn:E; rewrite ?E. Qed.

Lemma ungated_blocked opts a : ac_gate (ungated opts a) = blocked_ <-> ac_gate a = blocked_.
Proof. unfold ungated, require_approval. destruct (po_requireApproval opts); [|done]. by destruct (ac_gate a) eqn:E; rewrite ?E. Qed.

Lemma plan_action_elem desired live opts a :
  a ∈ plan_actions desired live opts <-> exists a', a = ungated opts a' /\ a' ∈ all_actions desired live opts.
Proof. rewrite plan_actions_map, list_elem_of_fmap. by setoid_rewrite js_sort_elem. Qed.

Lemma count_gate_pos g actions : (0 <? count_gate g actions)%nat = true <-> exists a, a ∈ actions /\ ac_gate a = g.
Proof.
  unfold count_gate. rewrite Nat.ltb_lt. split.
  - intros H. destruct (List.filter _ actions) as [|a l] eqn:E; [simpl in H; lia|]. exists a.
    assert (Ha : a ∈ a :: l) by left. rewrite <- E in Ha. apply bfilter_elem in Ha as [? H']. split; [done|].
    by apply bool_decide_eq_true in H'.
  - intros (a & Ha & Hg). destruct (List.filter _ actions) as [|b l] eqn:E; [|simpl; lia]. exfalso.
    rewrite bfilter_nil in E. specialize (E a Ha). by rewrite bool_decide_true in E.
Qed.

Lemma count_gate_none g actions : (0 <? count_gate g actions)%nat = false <-> forall a, a ∈ actions -> ac_gate a <> g.
Proof.
  rewrite <- not_true_iff_false, count_gate_pos. split.
  - intros H a Ha E. apply H. by exists a.
  - intros H (a & Ha & E). by apply (H a).
Qed.

(** The status of a plan, by its gates. *)
Lemma status_spec desired live opts : let acts := plan_actions desired live opts in
  match pl_status (planApp desired live opts) with
  | blocked_plan => exists a, a ∈ acts /\ ac_gate a = blocked_
  | needs_confirmation => (forall a, a ∈ acts -> ac_gate a <> blocked_) /\ exists a, a ∈ acts /\ ac_gate a = confirm_
  | ready => acts <> [] /\ forall a, a ∈ acts -> ac_gate a = auto_
  | noop => acts = []
  end.
Proof.
  intros acts. unfold planApp. simpl. fold acts.
  destruct (0 <? count_gate blocked_ acts)%nat eqn:Eb; [by apply count_gate_pos|]. rewrite count_gate_none in Eb.
  destruct (0 <? count_gate confirm_ acts)%nat eqn:Ec; [split; [done|by apply count_gate_pos]|]. rewrite count_gate_none in Ec.
  destruct acts as [|a l]; [done|]. split; [done|]. intros x Hx. specialize (Eb x Hx). specialize (Ec x Hx).
  by destruct (ac_gate x).
Qed.


(** ** Convergence *)

(** What runs is what is declared, and the commit touches no build. *)
Record in_sync (desired : DesiredApp) (live : LiveApp) (opts : PlanOptions) : Prop := {
  is_resources : forall r, r ∈ da_resources desired ->
    exists l, live_resource live (dr_name r) = Some l /\ lr_type l = dr_type r /\ lr_sig l = Some (dr_sig r);
  is_services : forall s, s ∈ da_services desired ->
    exists l, live_service live (sv_name s) = Some l /\ lv_sig l = Some (sv_sig s) /\
      forall b, sv_source s = S_build b -> lv_buildKey l = Some (bs_key b);
  is_commit : forall g, g ∈ builds desired ->
    exists c, po_changedPaths opts = Some c /\
      touches (List.filter (fun p => negb (mem p CONFIG_FILES)) c) (bs_watch (fst g)) = false;
  is_routes : forall r, r ∈ da_routes desired -> exists l, live_route live (routeKey r) = Some l /\ lt_sig l = Some (rt_sig r);
  is_jobs : forall j, j ∈ da_jobs desired -> exists l, live_job live (jb_name j) = Some l /\ lj_sig l = Some (jb_sig j);
  is_links : forall p, p ∈ da_connect desired <-> p ∈ la_connect live;
  is_no_route : forall l, l ∈ la_routes live -> liveRouteKey l ∈ map routeKey (da_routes desired);
  is_no_job : forall l, l ∈ la_jobs live -> lj_name l ∈ map jb_name (da_jobs desired);
  is_no_service : forall l, l ∈ la_services live -> lv_name l ∈ map sv_name (da_services desired);
  is_no_resource : forall l, l ∈ la_resources live -> lr_name l ∈ map dr_name (da_resources desired)
}.

Lemma resource_actions_nil desired live r : resource_actions desired live r = [] <->
  exists l, live_resource live (dr_name r) = Some l /\ lr_type l = dr_type r /\ lr_sig l = Some (dr_sig r).
Proof.
  unfold resource_actions. destruct (live_resource live (dr_name r)) as [l|]; [|split; [done|by intros (? & ? & _)]].
  case_bool_decide as Ht; simpl; [case_bool_decide as Hs|].
  - split; [|done]. by exists l.
  - destruct (gateResourceUpdate _ _). split; [done|]. by intros (? & [= <-] & _ & ?).
  - split; [done|]. by intros (? & [= <-] & ? & _).
Qed.

Lemma build_action_nil live opts g : build_action live opts g = [] <-> build_reasons live opts g = [].
Proof. unfold build_action. by destruct (build_reasons live opts g). Qed.

Lemma build_reasons_nil live opts g : build_reasons live opts g = [] <->
  (forall s, s ∈ snd g -> exists l, live_service live (sv_name s) = Some l /\ lv_buildKey l = Some (bs_key (fst g))) /\
  exists c, po_changedPaths opts = Some c /\
    touches (List.filter (fun p => negb (mem p CONFIG_FILES)) c) (bs_watch (fst g)) = false.
Proof.
  unfold build_reasons, changed. rewrite app_nil, flat_map_nil.
  assert (H : forall s, build_reason live (bs_key (fst g)) s = [] <->
    exists l, live_service live (sv_name s) = Some l /\ lv_buildKey l = Some (bs_key (fst g))).
  { intros s. unfold build_reason. destruct (live_service live (sv_name s)) as [l|].
    - rewrite on_when_nil, negb_false_iff, bool_decide_eq_true. split; [by exists l|]. by intros (? & [= <-] & ?).
    - split; [done|]. by intros (? & ? & _). }
  setoid_rewrite H. destruct (po_changedPaths opts) as [c|]; simpl.
  - rewrite on_when_nil. split; [intros [? ?]; split; [done|by exists c]|intros (? & ? & [= <-] & ?)]. by split.
  - split; [by intros [_ ?]|by intros (_ & ? & ? & _)].
Qed.

Lemma deploy_actions_nil desired live opts s : deploy_actions desired live opts s = [] <->
  exists l, live_service live (sv_name s) = Some l /\ lv_sig l = Some (sv_sig s) /\ rebuilt desired live opts s = false.
Proof.
  unfold deploy_actions, up_to_date. destruct (live_service live (sv_name s)) as [l|]; [|split; [done|by intros (? & ? & _)]].
  case_bool_decide as Hs; simpl.
  - destruct (rebuilt desired live opts s); simpl; split; try done; [by intros (? & _ & _ & ?)|]. by exists l.
  - split; [done|]. by intros (? & [= <-] & ? & _).
Qed.

Lemma rebuilt_spec desired live opts s : rebuilt desired live opts s = true <->
  exists b g, sv_source s = S_build b /\ g ∈ builds desired /\ bs_key (fst g) = bs_key b /\ build_reasons live opts g <> [].
Proof.
  unfold rebuilt. destruct (sv_source s) as [b|i]; [|split; [done|by intros (? & ? & ? & _)]].
  rewrite mem_In, building_elem. split; [intros (g & ? & ? & ?); by exists b, g|].
  intros (b' & g & [= <-] & ? & ? & ?). by exists g.
Qed.

Lemma route_actions_nil live r : route_actions live r = [] <->
  exists l, live_route live (routeKey r) = Some l /\ lt_sig l = Some (rt_sig r).
Proof.
  unfold route_actions. destruct (live_route live (routeKey r)) as [l|]; [|split; [done|by intros (? & ? & _)]].
  case_bool_decide; split; try done; [by exists l|by intros (? & [= <-] & ?)].
Qed.

Lemma job_actions_nil live j : job_actions live j = [] <->
  exists l, live_job live (jb_name j) = Some l /\ lj_sig l = Some (jb_sig j).
Proof.
  unfold job_actions. destruct (live_job live (jb_name j)) as [l|]; [|split; [done|by intros (? & ? & _)]].
  case_bool_decide; split; try done; [by exists l|by intros (? & [= <-] & ?)].
Qed.

Lemma unlisted_nil {A B} (f : A -> B) (key : A -> string) keys l :
  map f (List.filter (fun x => negb (mem (key x) keys)) l) = [] <-> forall x, x ∈ l -> key x ∈ keys.
Proof.
  split.
  - intros H%map_eq_nil x Hx. rewrite bfilter_nil in H. by apply mem_In, negb_false_iff, H.
  - intros H. rewrite (proj2 (bfilter_nil _ l)); [done|]. intros x Hx. by apply negb_false_iff, mem_In, H.
Qed.

Lemma unlinked_nil {B} (f : string -> B) keys l :
  map f (List.filter (fun x => negb (mem x keys)) l) = [] <-> forall x, x ∈ l -> x ∈ keys.
Proof. apply (unlisted_nil f (fun x => x)). Qed.

Lemma js_sort_flat_nil {A B} (c : A -> A -> Z) (f : A -> list B) l :
  flat_map f (js_sort c l) = [] <-> forall x, x ∈ l -> f x = [].
Proof. rewrite flat_map_nil. by setoid_rewrite js_sort_elem. Qed.

Lemma all_actions_nil desired live opts : all_actions desired live opts = [] <-> in_sync desired live opts.
Proof.
  unfold all_actions. rewrite !app_nil, js_sort_flat_nil, !flat_map_nil.
  unfold link_adds, link_removals, route_removals, job_removals, service_removals, resource_removals.
  rewrite !unlinked_nil, !unlisted_nil.
  setoid_rewrite resource_actions_nil. setoid_rewrite build_action_nil. setoid_rewrite deploy_actions_nil.
  setoid_rewrite route_actions_nil. setoid_rewrite job_actions_nil. setoid_rewrite build_reasons_nil. split.
  - intros (Hr & Hb & Hs & Ht & Hj & H1 & H2 & H3 & H4 & H5 & H6). split; try done.
    + intros s Hin. destruct (Hs s Hin) as (l & Hl & Hsig & _). exists l. split_and!; [done..|]. intros b E.
      destruct (go_all _ _ (builds_ok desired) s b Hin E) as (g & Hg & Hsg & Hk).
      destruct (proj1 (Hb g Hg) s Hsg) as (l' & Hl' & Hkey). rewrite Hl in Hl'. injection Hl' as <-. by rewrite Hkey, Hk.
    + intros g Hg. by apply (Hb g Hg).
    + intros p. split; [apply H1|apply H4].
  - intros []. split_and!; try done.
    + intros g Hg. split; [|by apply is_commit0]. intros s Hsg.
      destruct (go_in _ _ (builds_ok desired) g s Hg Hsg) as (Hin & b & E & Hk).
      destruct (is_services0 s Hin) as (l & Hl & _ & Hbk). exists l. split; [done|]. by rewrite (Hbk b E), Hk.
    + intros s Hin. destruct (is_services0 s Hin) as (l & Hl & Hsig & Hbk). exists l. split_and!; [done..|].
      apply not_true_iff_false. rewrite rebuilt_spec. intros (b & g & E & Hg & Hk & Hn). apply Hn, build_reasons_nil.
      split; [|by apply is_commit0]. intros s' Hsg.
      destruct (go_in _ _ (builds_ok desired) g s' Hg Hsg) as (Hin' & b' & E' & Hk').
      destruct (is_services0 s' Hin') as (l' & Hl' & _ & Hbk'). exists l'. split; [done|]. by rewrite (Hbk' b' E'), Hk'.
    + intros p. by apply is_links0.
    + intros p. by apply is_links0.
Qed.

(** The snapshot in which everything declared runs, each built image at [image]. *)
Definition settled (desired : DesiredApp) (image : string -> string) : LiveApp :=
  {| la_stack := da_stack desired;
     la_services := map (fun s =>
       {| lv_name := sv_name s;
          lv_image := match sv_source s with S_build b => image (bs_key b) | S_image i => i end;
          lv_sig := Some (sv_sig s);
          lv_buildKey := match sv_source s with S_build b => Some (bs_key b) | S_image _ => None end;
          lv_volumes := sv_volumes s; lv_applied := Some (sv_unit s) |}) (da_services desired);
     la_resources := map (fun r =>
       {| lr_name := dr_name r; lr_type := dr_type r; lr_sig := Some (dr_sig r); lr_applied := Some r |}) (da_resources desired);
     la_routes := map (fun r =>
       {| lt_host := rt_host r; lt_path := rt_path r; lt_service := rt_service r; lt_sig := Some (rt_sig r) |}) (da_routes desired);
     la_jobs := map (fun j => {| lj_name := jb_name j; lj_sig := Some (jb_sig j) |}) (da_jobs desired);
     la_connect := da_connect desired |}.

(** What the schema of the file enforces: a name is used once. *)
Record names_unique (desired : DesiredApp) : Prop := {
  nu_resources : NoDup (map dr_name (da_resources desired));
  nu_services : NoDup (map sv_name (da_services desired));
  nu_routes : NoDup (map routeKey (da_routes desired));
  nu_jobs : NoDup (map jb_name (da_jobs desired))
}.

Lemma settled_in_sync desired image approval : names_unique desired ->
  in_sync desired (settled desired image) {| po_changedPaths := Some []; po_requireApproval := approval |}.
Proof.
  intros [Hr Hs Ht Hj]. split; simpl.
  - intros r Hin. eexists. split; [by apply by_key_mapped|done].
  - intros s Hin. eexists. split; [by apply by_key_mapped|]. split; [done|]. simpl. by intros b ->.
  - intros g _. by exists [].
  - intros r Hin. eexists. split; [by apply by_key_mapped|done].
  - intros j Hin. eexists. split; [by apply by_key_mapped|done].
  - done.
  - intros l (r & -> & Hin)%list_elem_of_fmap. apply list_elem_of_fmap. by exists r.
  - intros l (r & -> & Hin)%list_elem_of_fmap. apply list_elem_of_fmap. by exists r.
  - intros l (r & -> & Hin)%list_elem_of_fmap. apply list_elem_of_fmap. by exists r.
  - intros l (r & -> & Hin)%list_elem_of_fmap. apply list_elem_of_fmap. by exists r.
Qed.

(** C17: A plan is empty exactly when there is nothing to do: every declared
    resource, service, route and job runs with its declared signature (and
    resources with their type, built services with their build), the links are
    the same, nothing runs that is not declared, and the commit changed no
    watched path; a missing commit always rebuilds.  Once everything declared
    runs, planning again changes nothing. *)
Theorem plan_converges desired live opts :
  (pl_status (planApp desired live opts) = noop <-> in_sync desired live opts) /\
  forall image approval, names_unique desired ->
    pl_status (planApp desired (settled desired image) {| po_changedPaths := Some []; po_requireApproval := approval |}) = noop.
Proof.
  assert (H : forall live opts, pl_status (planApp desired live opts) = noop <-> in_sync desired live opts).
  { clear live opts. intros live opts. rewrite <- all_actions_nil. pose proof (status_spec desired live opts) as Hs. cbv zeta in Hs.
    assert (E : plan_actions desired live opts = [] <-> all_actions desired live opts = []).
    { rewrite plan_actions_map. split; [by intros ?%map_eq_nil%js_sort_nil|]. by intros ->. }
    rewrite <- E. split; intros Hn; [by rewrite Hn in Hs|]. rewrite Hn in Hs. destruct (pl_status _); [done|by destruct Hs|..].
    - by destruct Hs as [_ (a & ?%not_elem_of_nil & _)].
    - by destruct Hs as (a & ?%not_elem_of_nil & _). }
  split; [apply H|]. intros image approval Hu. by apply H, settled_in_sync.
Qed.

(** ** Order *)

#[export] Instance by_phase_comparator : Comparator by_phase.
Proof. unfold by_phase. apply _. Qed.

Lemma by_phase_lt a b : ac_phase a < ac_phase b -> by_phase a b < 0.
Proof. unfold by_phase, cmp_then, cmp_asc. destruct (Z.eqb_spec (ac_phase a - ac_phase b) 0); lia. Qed.

(** Earlier phases come first. *)
Lemma plan_phases desired live opts x y : let acts := plan_actions desired live opts in
  x ∈ acts -> y ∈ acts -> ac_phase x < ac_phase y -> before x y acts.
Proof.
  intros acts (x' & -> & Hx)%plan_action_elem (y' & -> & Hy)%plan_action_elem Hlt. subst acts. rewrite plan_actions_map.
  rewrite !ungated_phase in Hlt. apply before_map. apply (sorted_before (le_by by_phase)).
  - apply js_sort_sorted, _.
  - by rewrite js_sort_elem.
  - by rewrite js_sort_elem.
  - unfold le_by. pose proof (by_phase_lt _ _ Hlt). pose proof (cmp_opp (c:=by_phase) x' y'). lia.
  - intros ->. lia.
Qed.

(** The image of a deploy, and where it comes from. *)
Lemma deploy_sources desired live opts :
  Forall (fun a => forall name create k ch s, ac_kind a = Service_deploy name create (FromBuild k) ch s ->
    name = sv_name s /\ s ∈ da_services desired /\
    exists g, g ∈ builds desired /\ bs_key (fst g) = k /\ s ∈ snd g /\ build_reasons live opts g <> [])
    (all_actions desired live opts).
Proof.
  apply all_actions_ind; intros; try (by apply Forall_mapped).
  - unfold resource_actions. repeat case_match; each_action.
  - unfold build_action. case_match; each_action.
  - unfold deploy_actions. destruct (up_to_date _ _ _ _ _); each_action. simpl. intros name create k ch s' [= <- _ Hi _ <-].
    split; [done|]. split; [done|]. unfold deploy_image in Hi. destruct (sv_source s) as [b|] eqn:Eb; [|done].
    assert (bs_key b = k /\ bs_key b ∈ building desired live opts) as [<- Hb].
    { destruct (live_service live (sv_name s)) as [l|] eqn:El; [destruct (rebuilt desired live opts s) eqn:Er; [|done]|];
        (injection Hi as <-; split; [done|]); [|by eapply new_service_built]. unfold rebuilt in Er. rewrite Eb in Er. by apply mem_In. }
    apply building_elem in Hb as (g & Hg & Hk & Hn). exists g. split_and!; [done..| |done].
    destruct (go_all _ _ (builds_ok desired) s b) as (g' & Hg' & Hin & Hk'); [done..|].
    by rewrite (groups_unique desired g g'); [| | |by rewrite Hk, Hk'].
  - unfold route_actions. repeat case_match; each_action.
  - unfold job_actions. repeat case_match; each_action.
  - unfold service_removal in *. by case_match.
  - done.
Qed.

(** A service keeps a built image only when nothing asked for a new one. *)
Lemma deploy_reuses desired live opts :
  Forall (fun a => forall name create i ch s b, ac_kind a = Service_deploy name create (Image i) ch s -> sv_source s = S_build b ->
    exists l, live_service live name = Some l /\ i = lv_image l /\ lv_buildKey l = Some (bs_key b) /\
      exists c, po_changedPaths opts = Some c) (all_actions desired live opts).
Proof.
  apply all_actions_ind; intros; try (by apply Forall_mapped).
  - unfold resource_actions. repeat case_match; each_action.
  - unfold build_action. case_match; each_action.
  - unfold deploy_actions. destruct (up_to_date _ _ _ _ _); each_action. simpl. intros name create i ch s' b [= <- _ Hi _ <-] Eb.
    unfold deploy_image in Hi. rewrite Eb in Hi. destruct (live_service live (sv_name s)) as [l|] eqn:El; [|done].
    destruct (rebuilt desired live opts s) eqn:Er; [done|]. injection Hi as <-. exists l. split_and!; [done..| |].
    all: destruct (go_all _ _ (builds_ok desired) s b) as (g & Hg & Hin & Hk); [done..|].
    all: assert (Hn : build_reasons live opts g = [])
      by (destruct (build_reasons live opts g) as [|r rs] eqn:E; [done|];
          apply not_true_iff_false in Er; exfalso; apply Er, rebuilt_spec; exists b, g; by rewrite E).
    all: apply build_reasons_nil in Hn as [Hn (c & Hc & _)].
    + destruct (Hn s Hin) as (l' & Hl' & Hb). rewrite El in Hl'. injection Hl' as <-. by rewrite Hb, Hk.
    + by exists c.
  - unfold route_actions. repeat case_match; each_action.
  - unfold job_actions. repeat case_match; each_action.
  - unfold service_removal in *. by case_match.
  - done.
Qed.

Lemma resources_first desired live opts a : a ∈ flat_map (resource_actions desired live) (js_sort resource_cmp (da_resources desired)) ->
  a ∈ all_actions desired live opts.
Proof. intros H. unfold all_actions. apply elem_of_app. by left. Qed.

Lemma resource_elem desired live r a : r ∈ da_resources desired -> a ∈ resource_actions desired live r ->
  a ∈ flat_map (resource_actions desired live) (js_sort resource_cmp (da_resources desired)).
Proof. intros Hr Ha. apply list_elem_of_In, in_flat_map. exists r. split; apply list_elem_of_In; [by apply js_sort_elem|done]. Qed.

(** Databases are created before the vector stores that may live in them. *)
Lemma postgres_first desired live opts r v :
  r ∈ da_resources desired -> v ∈ da_resources desired -> dr_type r = postgres -> dr_type v = vector ->
  live_resource live (dr_name r) = None -> live_resource live (dr_name v) = None ->
  exists a b, before a b (plan_actions desired live opts) /\
    ac_kind a = Resource_create (dr_name r) r /\ ac_kind b = Resource_create (dr_name v) v.
Proof.
  intros Hr Hv Tr Tv Lr Lv.
  assert (Hb : before r v (js_sort resource_cmp (da_resources desired))).
  { apply (sorted_before (fun a b => typeRank (dr_type a) <= typeRank (dr_type b))).
    - apply js_sort_ranked; intros a b; unfold resource_cmp, cmp_then, cmp_asc;
        destruct (Z.eqb_spec (typeRank (dr_type a) - typeRank (dr_type b)) 0); lia.
    - by rewrite js_sort_elem.
    - by rewrite js_sort_elem.
    - rewrite Tr, Tv. simpl. lia.
    - intros ->. by rewrite Tr in Tv. }
  do 2 eexists. split; [|split].
  - rewrite plan_actions_map. apply before_map, js_sort_stable.
    + unfold all_actions. apply before_app_l. eapply (before_flat_map _ _ _ _ _ _ Hb); unfold resource_actions; [rewrite Lr|rewrite Lv]; left.
    + reflexivity.
  - by rewrite ungated_kind.
  - by rewrite ungated_kind.
Qed.

(** A resource that changes type is created anew before the old one is deleted. *)
Lemma replaced_order desired live opts r l :
  r ∈ da_resources desired -> live_resource live (dr_name r) = Some l -> lr_type l <> dr_type r ->
  exists c d, before c d (plan_actions desired live opts) /\ ac_kind c = Resource_create (dr_name r) r /\
    ac_kind d = Resource_delete (dr_name r) (lr_type l) /\ ac_gate c = confirm_ /\ ac_gate d = confirm_.
Proof.
  intros Hr Hl Ht. assert (Ha := fun a => resource_elem desired live r a Hr). unfold resource_actions at 1 in Ha.
  rewrite Hl, bool_decide_false in Ha by done. simpl in Ha.
  eassert (Hd := Ha _ (list_elem_of_here _ _)). eassert (Hc := Ha _ (list_elem_of_further _ _ _ (list_elem_of_here _ _))).
  apply (resources_first desired live opts) in Hd, Hc.
  match type of Hc with ?c ∈ _ => match type of Hd with ?d ∈ _ => exists (ungated opts c), (ungated opts d) end end.
  split; [apply (plan_phases desired live opts); [apply plan_action_elem; by eexists..|]|].
  - rewrite !ungated_phase. simpl. lia.
  - rewrite !ungated_kind. split_and!; [done|done|..]; unfold ungated, require_approval; by case_match.
Qed.

(** A plan is in an order that works.  Phases do not mix (resources, builds,
    deploys, then routes, jobs and links, then removals, then deletions); a
    deploy that waits for a build comes after an action that builds that key
    for that service; a deploy of a built service that keeps the running image
    does so only when the live service has the same build and the commit's
    files are known; a database is created before a vector store that may live
    in it; and a resource that changes type is created, once confirmed, before
    the old one is deleted. *)
Theorem plan_order desired live opts : let acts := pl_actions (planApp desired live opts) in
  (forall x y, x ∈ acts -> y ∈ acts -> ac_phase x < ac_phase y -> before x y acts) /\
  (forall d name create k ch s, d ∈ acts -> ac_kind d = Service_deploy name create (FromBuild k) ch s ->
    exists b services src, before b d acts /\ ac_kind b = Build_ services src /\ bs_key src = k /\ name ∈ services) /\
  (forall d name create i ch s b, d ∈ acts -> ac_kind d = Service_deploy name create (Image i) ch s -> sv_source s = S_build b ->
    exists l, live_service live name = Some l /\ i = lv_image l /\ lv_buildKey l = Some (bs_key b) /\
      exists c, po_changedPaths opts = Some c) /\
  (forall r v, r ∈ da_resources desired -> v ∈ da_resources desired -> dr_type r = postgres -> dr_type v = vector ->
    live_resource live (dr_name r) = None -> live_resource live (dr_name v) = None ->
    exists a b, before a b acts /\ ac_kind a = Resource_create (dr_name r) r /\ ac_kind b = Resource_create (dr_name v) v) /\
  (forall r l, r ∈ da_resources desired -> live_resource live (dr_name r) = Some l -> lr_type l <> dr_type r ->
    exists c d, before c d acts /\ ac_kind c = Resource_create (dr_name r) r /\
      ac_kind d = Resource_delete (dr_name r) (lr_type l) /\ ac_gate c = confirm_ /\ ac_gate d = confirm_).
Proof.
  intros acts. split_and!.
  - apply plan_phases.
  - intros d name create k ch s Hd Hk. assert (Hin := Hd). apply plan_action_elem in Hd as (d' & -> & Hd). rewrite ungated_kind in Hk.
    pose proof (deploy_sources desired live opts) as H. rewrite Forall_forall in H.
    destruct (H d' Hd _ _ _ _ _ Hk) as (-> & Hs & g & Hg & Ek & Hsg & Hr).
    destruct (build_action_built live opts g Hr) as (b & Hb & Kb).
    assert (Hbin : b ∈ all_actions desired live opts).
    { unfold all_actions. apply elem_of_app. right. apply elem_of_app. left. apply list_elem_of_In, in_flat_map. exists g.
      split; apply list_elem_of_In; [done|]. rewrite Hb. left. }
    exists (ungated opts b), (map sv_name (snd g)), (fst g). rewrite ungated_kind.
    split_and!; [apply plan_phases; [apply plan_action_elem; eauto|done|]|done|done|apply list_elem_of_fmap; by exists s].
    pose proof (all_phases desired live opts) as Hp. rewrite Forall_forall in Hp. rewrite !ungated_phase, (Hp b Hbin), (Hp d' Hd), Kb, Hk. simpl. lia.
  - intros d name create i ch s b (d' & -> & Hd)%plan_action_elem Hk Eb. rewrite ungated_kind in Hk.
    pose proof (deploy_reuses desired live opts) as H. rewrite Forall_forall in H. by eapply (H d' Hd).
  - intros r v. apply postgres_first.
  - intros r l. apply replaced_order.
Qed.

(** * A concrete application *)

Definition ex_build : BuildSource :=
  {| bs_key := "k1"; bs_context := "."; bs_dockerfile := "Dockerfile"; bs_target := None; bs_args := []; bs_watch := ["app"];
     bs_builder := None; bs_railpack := None; bs_env := None |}.

Definition ex_web : DesiredService :=
  {| sv_name := "web"; sv_source := S_build ex_build; sv_volumes := []; sv_sig := "s1"; sv_unit := VObj [] |}.

Definition ex_resource (name sig : string) (spec : ResourceSpec) : DesiredResource :=
  {| dr_name := name; dr_sig := sig; dr_spec := spec |}.

Definition ex_pg (version : Z) : DesiredResource :=
  ex_resource "db" (pretty version) (Postgres version "single" 0 None "app" None).

Definition ex_vec : DesiredResource := ex_resource "a-vec" "v" (Vector "pgvector" (Some "db")).

Definition ex_app (resources : list DesiredResource) : DesiredApp :=
  {| da_stack := "shop"; da_previewData := None; da_services := [ex_web]; da_resources := resources; da_routes := [];
     da_jobs := []; da_connect := [] |}.

Definition ex_opts : PlanOptions := {| po_changedPaths := Some ["docs/a.md"]; po_requireApproval := false |}.

Definition ex_downgrade : LiveApp := settled (ex_app [ex_pg 17]) (fun _ => "img").

Lemma ex_types_ok : live_types_ok ex_downgrade.
Proof. intros l b Hl. apply list_elem_of_singleton in Hl as ->. by intros [= <-]. Qed.


Lemma plan_converges_witness :
  pl_status (planApp (ex_app [ex_pg 16]) (settled (ex_app [ex_pg 16]) (fun _ => "img"))
    {| po_changedPaths := Some []; po_requireApproval := true |}) = noop.
Proof.
  apply (proj2 (plan_converges (ex_app [ex_pg 16]) (emptyLive "shop") ex_opts)).
  split; vm_compute; repeat constructor; intros H; inversion H.
Defined.

Lemma plan_order_witness : let acts := pl_actions (planApp (ex_app [ex_vec; ex_pg 16]) (emptyLive "shop") ex_opts) in
  map ac_id acts = ["resource.create:db"; "resource.create:a-vec"; "build:k1"; "service.deploy:web"] /\
  exists a b, before a b acts /\ ac_kind a = Resource_create "db" (ex_pg 16) /\ ac_kind b = Resource_create "a-vec" ex_vec.
Proof.
  split; [vm_compute; reflexivity|].
  apply (proj1 (proj2 (proj2 (proj2 (plan_order (ex_app [ex_vec; ex_pg 16]) (emptyLive "shop") ex_opts)))) (ex_pg 16) ex_vec);
    [right; left|left|reflexivity..].
Defined.
