(* ===== verification/DecomPicker.v ===== *)
(** Choosing where data and roles go when a server is retired
    (packages/trpc/src/services/node-decommission.plan.ts, first half): how
    reachable a server is, the [DestinationPicker], which remembers the space and
    the data services it has already promised, and the host of a platform role.

    Byte counts are integers.  The room of a disk, [total * 85 / 100 - used -
    reserved], is kept in hundredths of a byte, so nothing is rounded.  The
    sentences that explain a choice are left out. *)

From S2P Require Import Prelude Comparators Json.

(** * Inputs *)

Inductive SwarmRole := manager | worker.

#[export] Instance SwarmRole_eq_dec : EqDecision SwarmRole.
Proof. solve_decision. Defined.

Definition labels_t : Type := list (string * string).

Record SwarmNodeInfo := {
  sn_swarmNodeId : string; sn_role : SwarmRole; sn_availability : string; sn_status : string; sn_addr : option string;
  sn_labels : labels_t
}.

Record DecomNodeInput := {
  dn_nodeId : string; dn_hostname : string; dn_online : bool; dn_swarm : option SwarmNodeInfo; dn_hostsController : bool;
  dn_disk : option (Z * Z); dn_meshPeer : bool
}.

Inductive ServiceMode := replicated | global_.

#[export] Instance ServiceMode_eq_dec : EqDecision ServiceMode.
Proof. solve_decision. Defined.

Record DecomServiceInput := {
  ds_name : string; ds_mode : ServiceMode; ds_desiredReplicas : option Z; ds_labels : labels_t
}.

Definition NODE_REGION : string := "swarmy.region".
Definition NODE_PUBLIC_IP : string := "swarmy.node.public-ip".
Definition NODE_PUBLIC_IP_OVERRIDE : string := "swarmy.node.public-ip.override".
Definition NODE_REACHABILITY : string := "swarmy.node.reachability".
Definition NODE_REACHABILITY_OVERRIDE : string := "swarmy.node.reachability.override".

Definition dataPinLabel (kind : string) : string := "swarmy." +:+ kind +:+ ".node".
Definition PINNED_DATA_LABELS : list string := map dataPinLabel ["db"; "cache"; "search"; "vector"].

Definition DESTINATION_MAX_USED_PCT : Z := 85.

(** [labels[k]] of a server that may not have reported. *)
Definition node_label (n : DecomNodeInput) (k : string) : option string :=
  match dn_swarm n with Some sw => get k (sn_labels sw) | None => None end.

Definition isSchedulable (n : DecomNodeInput) : bool :=
  dn_online n && match dn_swarm n with
                 | Some sw => String.eqb (sn_status sw) "ready" && String.eqb (sn_availability sw) "active"
                 | None => false
                 end.

Definition hasPublicIp (n : DecomNodeInput) : bool :=
  bool_decide (is_Some (truthy_str (node_label n NODE_PUBLIC_IP_OVERRIDE))) ||
  bool_decide (is_Some (truthy_str (node_label n NODE_PUBLIC_IP))).

(** * Reachability *)

Inductive Reachability := public_ | probably_public | unknown_ | nat_.

#[export] Instance Reachability_eq_dec : EqDecision Reachability.
Proof. solve_decision. Defined.

Definition REACH_RANK (r : Reachability) : Z :=
  match r with public_ => 0 | probably_public => 1 | unknown_ => 2 | nat_ => 3 end.

(** [l[OVERRIDE] || l[PUBLIC_IP]], when it is not empty. *)
Definition known_ip (n : DecomNodeInput) : option string :=
  match truthy_str (node_label n NODE_PUBLIC_IP_OVERRIDE) with
  | Some ip => Some ip
  | None => truthy_str (node_label n NODE_PUBLIC_IP)
  end.

Definition node_addr (n : DecomNodeInput) : option string :=
  match dn_swarm n with Some sw => sn_addr sw | None => None end.

Definition nodeReachability (n : DecomNodeInput) : Reachability :=
  let override := node_label n NODE_REACHABILITY_OVERRIDE in
  if bool_decide (override = Some "public") then public_
  else if bool_decide (override = Some "nat") then nat_
  else
    let reported := node_label n NODE_REACHABILITY in
    if bool_decide (reported = Some "nat") then nat_
    else if bool_decide (reported = Some "public") then public_
    else
      match known_ip n with
      | Some ip => if bool_decide (node_addr n = Some ip) then public_ else probably_public
      | None => unknown_
      end.

(** * The picker *)

Record Picker := { pk_reserved : gmap string Z; pk_pinned : gmap string Z }.

(** [m.get(k) ?? 0] *)
Definition tally (m : gmap string Z) (k : string) : Z := default 0 (m !! k).

Definition tally_add (k : string) (z : Z) (m : gmap string Z) : gmap string Z := <[k := tally m k + z]> m.

(** [pinnedDataCounts], as the constructor of the picker has it. *)
Definition pin_label (s : DecomServiceInput) (m : gmap string Z) (k : string) : gmap string Z :=
  match truthy_str (get k (ds_labels s)) with Some v => tally_add v 1 m | None => m end.

Definition pinnedDataCounts (services : list DecomServiceInput) : gmap string Z :=
  foldl (fun m s => foldl (pin_label s) m PINNED_DATA_LABELS) ∅ services.

Definition new_picker (services : list DecomServiceInput) : Picker :=
  {| pk_reserved := ∅; pk_pinned := pinnedDataCounts services |}.

Section picker.
Context (localeCompare : string -> string -> Z) (nodes : list DecomNodeInput) (targetNodeId : string) (region : option string).

(** In hundredths of a byte; [None] for a disk of unknown size. *)
Definition room (p : Picker) (n : DecomNodeInput) : option Z :=
  match dn_disk n with
  | Some (used, total) =>
      if 0 <? total then Some (total * DESTINATION_MAX_USED_PCT - 100 * used - 100 * tally (pk_reserved p) (dn_nodeId n)) else None
  | None => None
  end.

Definition regionOf (n : DecomNodeInput) : option string := node_label n NODE_REGION.

Definition sameRegion (n : DecomNodeInput) : bool :=
  bool_decide (is_Some region) && bool_decide (regionOf n = region).

(** [n.swarm?.swarmNodeId ?? ''] *)
Definition swarm_id (n : DecomNodeInput) : string := match dn_swarm n with Some sw => sn_swarmNodeId sw | None => "" end.

Definition pinnedOn (p : Picker) (n : DecomNodeInput) : Z := tally (pk_pinned p) (swarm_id n).

(** [room(n) ?? -1] *)
Definition room_rank (p : Picker) (n : DecomNodeInput) : Z := default (-100) (room p n).

Definition by_id : DecomNodeInput -> DecomNodeInput -> Z := cmp_on dn_nodeId localeCompare.

(** The order of hosts for a role. *)
Definition role_cmp (p : Picker) : DecomNodeInput -> DecomNodeInput -> Z :=
  cmp_then (cmp_asc (fun n => REACH_RANK (nodeReachability n)))
    (cmp_then (cmp_true_first sameRegion)
      (cmp_then (cmp_desc (room_rank p)) (cmp_then (cmp_asc (pinnedOn p)) by_id))).

Definition role_pool (exclude : list string) (filter : DecomNodeInput -> bool) : list DecomNodeInput :=
  List.filter (fun n => negb (mem (dn_nodeId n) (targetNodeId :: exclude)) && isSchedulable n && filter n) nodes.

Record RoleHostPick := { rp_chosen : option DecomNodeInput; rp_natSkipped : list DecomNodeInput }.

Definition pickRoleHost (p : Picker) (exclude : list string) (filter : DecomNodeInput -> bool) : RoleHostPick :=
  let pool := role_pool exclude filter in
  let is_nat n := bool_decide (nodeReachability n = nat_) in
  {| rp_chosen := head (js_sort (role_cmp p) (List.filter (fun n => negb (is_nat n)) pool));
     rp_natSkipped := List.filter is_nat pool |}.

(** The order of servers for data. *)
Definition data_cmp (p : Picker) : DecomNodeInput -> DecomNodeInput -> Z :=
  cmp_then (cmp_true_first sameRegion)
    (cmp_then (cmp_asc (pinnedOn p)) (cmp_then (cmp_desc (room_rank p)) by_id)).

Definition fits (p : Picker) (bytes : option Z) (n : DecomNodeInput) : bool :=
  match room p n, bytes with Some r, Some b => 100 * b <=? r | _, _ => true end.

Definition candidates (p : Picker) (bytes : option Z) (exclude : list string) : list DecomNodeInput :=
  List.filter (fun n => negb (mem (dn_nodeId n) (targetNodeId :: exclude)) && isSchedulable n && fits p bytes n) nodes.

(** What a choice leaves promised. *)
Definition reserve (p : Picker) (bytes : option Z) (chosen : DecomNodeInput) : Picker :=
  {| pk_reserved := match bytes with
                    | Some b => if b =? 0 then pk_reserved p else tally_add (dn_nodeId chosen) b (pk_reserved p)
                    | None => pk_reserved p
                    end;
     pk_pinned := match dn_swarm chosen with
                  | Some sw => if String.eqb (sn_swarmNodeId sw) "" then pk_pinned p else tally_add (sn_swarmNodeId sw) 1 (pk_pinned p)
                  | None => pk_pinned p
                  end |}.

Definition pick (p : Picker) (bytes : option Z) (exclude : list string) : option (DecomNodeInput * Picker) :=
  match js_sort (data_cmp p) (candidates p bytes exclude) with
  | [] => None
  | chosen :: _ => Some (chosen, reserve p bytes chosen)
  end.
End picker.

(** * What a choice guarantees *)

(** A server that can take the place of the one retired. *)
Record eligible (nodes : list DecomNodeInput) (targetNodeId : string) (exclude : list string) (n : DecomNodeInput) : Prop := {
  el_node : n ∈ nodes;
  el_other : dn_nodeId n <> targetNodeId;
  el_allowed : dn_nodeId n ∉ exclude;
  el_schedulable : isSchedulable n = true
}.

Section facts.
Context (localeCompare : string -> string -> Z) `{!Comparator localeCompare}.
Context (nodes : list DecomNodeInput) (targetNodeId : string) (region : option string).
Local Notation pick := (pick localeCompare nodes targetNodeId region).
Local Notation pickRoleHost := (pickRoleHost localeCompare nodes targetNodeId region).
Local Notation eligible := (eligible nodes targetNodeId).
Local Notation candidates := (candidates nodes targetNodeId).

Lemma filter_eligible exclude n (f : DecomNodeInput -> bool) :
  n ∈ List.filter (fun n => negb (mem (dn_nodeId n) (targetNodeId :: exclude)) && isSchedulable n && f n) nodes <->
  eligible exclude n /\ f n = true.
Proof.
  rewrite bfilter_elem. split.
  - intros [Hn H]. b2p. apply mem_false in H. rewrite not_elem_of_cons in H. split; [|done]. by destruct H; split.
  - intros [[Hn Ht He Hs] Hf]. split; [done|]. rewrite Hs, Hf, !andb_true_r, negb_true_iff. apply mem_false.
    by rewrite not_elem_of_cons.
Qed.

Lemma candidates_elem p bytes exclude n : n ∈ candidates p bytes exclude <-> eligible exclude n /\ fits p bytes n = true.
Proof. apply filter_eligible. Qed.

Lemma pool_elem exclude filter n : n ∈ role_pool nodes targetNodeId exclude filter <-> eligible exclude n /\ filter n = true.
Proof. apply filter_eligible. Qed.

Lemma pick_some p bytes exclude c p' : pick p bytes exclude = Some (c, p') ->
  eligible exclude c /\ fits p bytes c = true /\ p' = reserve p bytes c /\
  forall n, eligible exclude n -> fits p bytes n = true -> data_cmp localeCompare region p c n <= 0.
Proof using Type*.
  unfold DecomPicker.pick. destruct (js_sort _ _) as [|x r] eqn:E; [done|]. intros [= -> <-].
  apply js_sort_head in E as (Hc & Hmin & _); [|apply _]. apply candidates_elem in Hc as [He Hf]. split_and!; [done..|].
  intros n Hn Hfn. apply Hmin, candidates_elem. by split.
Qed.

Lemma pick_none p bytes exclude : pick p bytes exclude = None <-> forall n, eligible exclude n -> fits p bytes n = false.
Proof.
  unfold DecomPicker.pick. destruct (js_sort _ _) as [|x r] eqn:E; split; try done.
  - intros _ n He. apply js_sort_nil in E. destruct (fits p bytes n) eqn:Ef; [|done].
    assert (Hn : n ∈ candidates p bytes exclude) by by apply candidates_elem. rewrite E in Hn. by apply not_elem_of_nil in Hn.
  - intros H. assert (Hx : x ∈ js_sort (data_cmp localeCompare region p) (candidates p bytes exclude)) by (rewrite E; left).
    apply js_sort_elem, candidates_elem in Hx as [He Hf]. by rewrite (H x He) in Hf.
Qed.

Lemma role_chosen p exclude filter c : rp_chosen (pickRoleHost p exclude filter) = Some c ->
  eligible exclude c /\ filter c = true /\ nodeReachability c <> nat_ /\
  forall n, eligible exclude n -> filter n = true -> nodeReachability n <> nat_ -> role_cmp localeCompare region p c n <= 0.
Proof using Type*.
  unfold DecomPicker.pickRoleHost. simpl. destruct (js_sort _ _) as [|x r] eqn:E; [done|]. intros [= ->].
  apply js_sort_head in E as (Hc & Hmin & _); [|apply _]. apply bfilter_elem in Hc as [[He Hf]%pool_elem Hn].
  split_and!; [done..|by apply negb_true_iff, bool_decide_eq_false in Hn|].
  intros n Hen Hfn Hnn. apply Hmin, bfilter_elem. split; [by apply pool_elem|]. by rewrite bool_decide_false.
Qed.

Lemma role_none p exclude filter : rp_chosen (pickRoleHost p exclude filter) = None <->
  forall n, eligible exclude n -> filter n = true -> nodeReachability n = nat_.
Proof.
  unfold DecomPicker.pickRoleHost. simpl. destruct (js_sort _ _) as [|x r] eqn:E; split; try done.
  - intros _ n He Hf. apply js_sort_nil in E. rewrite bfilter_nil in E.
    assert (Hn : n ∈ role_pool nodes targetNodeId exclude filter) by by apply pool_elem.
    specialize (E n Hn). by apply negb_false_iff, bool_decide_eq_true in E.
  - intros H. assert (Hx : x ∈ x :: r) by left. rewrite <- E, js_sort_elem, bfilter_elem in Hx.
    destruct Hx as [[He Hf]%pool_elem Hn]. by rewrite bool_decide_true in Hn by by apply H.
Qed.

(** No disk is promised past the pressure line. *)
Definition within (p : Picker) : Prop :=
  forall n used total, n ∈ nodes -> dn_disk n = Some (used, total) -> 0 < total ->
    tally (pk_reserved p) (dn_nodeId n) = 0 \/
    100 * (used + tally (pk_reserved p) (dn_nodeId n)) <= DESTINATION_MAX_USED_PCT * total.

Lemma tally_add_same k z m : tally (tally_add k z m) k = tally m k + z.
Proof. unfold tally at 1, tally_add. by rewrite lookup_insert_eq. Qed.

Lemma tally_add_other k k' z m : k <> k' -> tally (tally_add k z m) k' = tally m k'.
Proof. intros H. unfold tally at 1, tally_add. by rewrite lookup_insert_ne. Qed.

Lemma new_within services : within (new_picker services).
Proof. intros n used total _ _ _. left. unfold tally. simpl. by rewrite lookup_empty. Qed.

(** What is promised to a server grows by what is sent there. *)
Lemma reserve_tally p bytes c k : tally (pk_reserved (reserve p bytes c)) k =
  tally (pk_reserved p) k + if decide (k = dn_nodeId c) then default 0 bytes else 0.
Proof.
  unfold reserve. simpl. destruct bytes as [b|]; simpl; [|case_decide; lia].
  destruct (Z.eqb_spec b 0) as [->|Hb]; [case_decide; lia|]. case_decide as E.
  - subst k. apply tally_add_same.
  - rewrite tally_add_other by congruence. lia.
Qed.

Lemma pick_within p bytes exclude c p' : NoDup (map dn_nodeId nodes) ->
  within p -> pick p bytes exclude = Some (c, p') -> within p'.
Proof using Type*.
  intros Hids Hw Hp. destruct (pick_some _ _ _ _ _ Hp) as (He & Hf & -> & _). intros n used total Hn Hd Ht.
  rewrite reserve_tally. destruct (Hw n used total Hn Hd Ht) as [Hz|Hle]; case_decide as E; try (left; lia); try (right; lia).
  all: assert (n = c) as -> by (apply (map_key_inj dn_nodeId nodes); [done|done|apply He|done]).
  all: unfold fits, room in Hf; rewrite Hd in Hf; destruct (Z.ltb_spec 0 total); [|lia].
  all: destruct bytes as [b|]; simpl in *; [b2p; right; unfold DESTINATION_MAX_USED_PCT in *; lia|rewrite Z.add_0_r; auto].
Qed.
End facts.
