(* ===== verification/Decommission.v ===== *)
(** Retiring a server (packages/trpc/src/services/node-decommission.plan.ts,
    second half): the ordered plan that moves its data and its roles before it
    leaves the swarm, with what blocks it and what the operator must accept.

    The plan is built by threading an accumulator [Acc] through the loops of
    [planDecommission]; each loop is a fold of a step function.  Steps and
    blockers keep their machine-readable fields; their sentences (title, detail,
    verify, rollback, message, fix) are left out, and a warning is a constructor
    per sentence, since the plan removes repeated ones. *)

From S2P Require Import Prelude Comparators Json DecomPicker.

(** * Inputs and outputs *)

Record Mount := { mt_type : option string; mt_source : option string }.

Record DecomContainerInput := {
  dc_serviceName : option string; dc_labels : option labels_t; dc_mounts : option (list Mount)
}.

Record DecomVolumeInput := { dv_name : string; dv_driver : option string; dv_sizeBytes : option Z }.

Record DecommissionInput := {
  in_targetNodeId : string; in_nodes : list DecomNodeInput; in_services : list DecomServiceInput;
  in_containers : list DecomContainerInput; in_volumes : option (list DecomVolumeInput);
  in_lastBackupAt : option (list (string * Z)); in_backupsConfigured : bool; in_garageReplicationFactor : option Z; in_now : Z
}.

Inductive DrainStepKind :=
  | safety_backup | cordon | manager_promote | edge_handover | garage_add_member | garage_leave | db_switchover
  | db_standby_switchover | db_failover | volume_copy | volume_follow | volume_restore | drain_ | garage_await_resync
  | manager_demote | swarm_leave | mesh_remove | forget_.

#[export] Instance DrainStepKind_eq_dec : EqDecision DrainStepKind.
Proof. solve_decision. Defined.

Definition kind_text (k : DrainStepKind) : string :=
  match k with
  | safety_backup => "safety-backup"
  | cordon => "cordon"
  | manager_promote => "manager-promote"
  | edge_handover => "edge-handover"
  | garage_add_member => "garage-add-member"
  | garage_leave => "garage-leave"
  | db_switchover => "db-switchover"
  | db_standby_switchover => "db-standby-switchover"
  | db_failover => "db-failover"
  | volume_copy => "volume-copy"
  | volume_follow => "volume-follow"
  | volume_restore => "volume-restore"
  | drain_ => "drain"
  | garage_await_resync => "garage-await-resync"
  | manager_demote => "manager-demote"
  | swarm_leave => "swarm-leave"
  | mesh_remove => "mesh-remove"
  | forget_ => "forget"
  end.

Inductive Downtime := none_ | seconds_ | short_ | unknown_time.

Record DrainStep := {
  st_id : string; st_kind : DrainStepKind; st_subject : option string; st_volumes : option (list string);
  st_destination : option (string * string); st_downtime : Downtime; st_bytes : option Z
}.

Inductive BlockerCode :=
  | unknown_node | not_in_swarm | controller_host | last_node | no_manager_candidate | no_destination | data_unreachable
  | unsupported_topology | garage_no_replacement | edge_no_replacement.

Record Blocker := { bl_code : BlockerCode; bl_subject : option string }.

Inductive Warning :=
  | W_cache_promoted (cluster : string) | W_cache_empty (cluster : string) | W_folder (service source : string)
  | W_scratch (service : string) | W_copies_dropped (service : string) (copies : option Z) | W_dns (hostname : string)
  | W_even_managers (remaining : Z) | W_no_backups | W_replica_slots (service : string) (desired slots : Z).

#[export] Instance Warning_eq_dec : EqDecision Warning.
Proof. solve_decision. Defined.

Record Totals := { tt_databases : Z; tt_volumes : Z; tt_statelessServices : Z; tt_bytesToMove : Z; tt_unknownSizes : Z }.

Record PlanNode := { pn_nodeId : string; pn_hostname : string; pn_role : SwarmRole; pn_online : bool }.

Record DecommissionPlan := {
  dp_node : PlanNode; dp_steps : list DrainStep; dp_blockers : list Blocker; dp_warnings : list Warning; dp_totals : Totals;
  dp_runnable : bool
}.

Definition DB_CLUSTER : string := "swarmy.db.cluster".
Definition DB_ROLE : string := "swarmy.db.role".
Definition DB_TOPOLOGY : string := "swarmy.db.topology".
Definition DB_REPLICAS : string := "swarmy.db.replicas".
Definition DB_MEMBER : string := "swarmy.db.member".
Definition DB_DATA_VOLUME_LABEL : string := "swarmy.db.dataVolume".
Definition DB_PIN_NODE_LABEL : string := "swarmy.db.node".
Definition CACHE_CLUSTER : string := "swarmy.cache.cluster".
Definition CACHE_ROLE : string := "swarmy.cache.role".
Definition CACHE_REPLICAS : string := "swarmy.cache.replicas".
Definition NODE_INGRESS : string := "swarmy.node.ingress".
Definition NODE_OUTLET : string := "swarmy.node.outlet".
Definition GARAGE_MEMBER_NODE_LABEL : string := "swarmy.garage.member".
Definition SERVICE_NAME_LABEL : string := "com.docker.swarm.service.name".
Definition STACK_LABEL : string := "com.docker.stack.namespace".
Definition SAFETY_BACKUP_MAX_AGE_MS : Z := 24 * 60 * 60000.

(** [ANON_VOLUME_RE] *)
Definition is_anonymous (v : string) : bool := (String.length v =? 64)%nat && all_chars is_hex_lower v.

Definition step (k : DrainStepKind) (suffix : string) (subject : option string) (volumes : option (list string))
    (destination : option DecomNodeInput) (downtime : Downtime) (bytes : option Z) : DrainStep :=
  {| st_id := kind_text k +:+ ":" +:+ suffix; st_kind := k; st_subject := subject; st_volumes := volumes;
     st_destination := (fun n => (dn_nodeId n, dn_hostname n)) <$> destination; st_downtime := downtime; st_bytes := bytes |}.

(** * The accumulator: what the loops push to and add up *)

Record Acc := {
  a_blockers : list Blocker; a_warnings : list Warning; a_picker : Picker; a_data : list DrainStep; a_volume : list DrainStep;
  a_needs : list string; a_stateless : list string; a_databases : Z; a_volumes : Z; a_bytes : Z; a_unknown : Z;
  a_handled : list string; a_csi : list string
}.

Definition block (code : BlockerCode) (subject : option string) (a : Acc) : Acc :=
  {| a_blockers := a_blockers a ++ [{| bl_code := code; bl_subject := subject |}]; a_warnings := a_warnings a;
     a_picker := a_picker a; a_data := a_data a; a_volume := a_volume a; a_needs := a_needs a; a_stateless := a_stateless a;
     a_databases := a_databases a; a_volumes := a_volumes a; a_bytes := a_bytes a; a_unknown := a_unknown a;
     a_handled := a_handled a; a_csi := a_csi a |}.

Definition warn (ws : list Warning) (a : Acc) : Acc :=
  {| a_blockers := a_blockers a; a_warnings := a_warnings a ++ ws; a_picker := a_picker a; a_data := a_data a;
     a_volume := a_volume a; a_needs := a_needs a; a_stateless := a_stateless a; a_databases := a_databases a;
     a_volumes := a_volumes a; a_bytes := a_bytes a; a_unknown := a_unknown a; a_handled := a_handled a; a_csi := a_csi a |}.

Definition with_picker (p : Picker) (a : Acc) : Acc :=
  {| a_blockers := a_blockers a; a_warnings := a_warnings a; a_picker := p; a_data := a_data a; a_volume := a_volume a;
     a_needs := a_needs a; a_stateless := a_stateless a; a_databases := a_databases a; a_volumes := a_volumes a;
     a_bytes := a_bytes a; a_unknown := a_unknown a; a_handled := a_handled a; a_csi := a_csi a |}.

Definition push_data (s : DrainStep) (a : Acc) : Acc :=
  {| a_blockers := a_blockers a; a_warnings := a_warnings a; a_picker := a_picker a; a_data := a_data a ++ [s];
     a_volume := a_volume a; a_needs := a_needs a; a_stateless := a_stateless a; a_databases := a_databases a;
     a_volumes := a_volumes a; a_bytes := a_bytes a; a_unknown := a_unknown a; a_handled := a_handled a; a_csi := a_csi a |}.

Definition push_volume (s : DrainStep) (a : Acc) : Acc :=
  {| a_blockers := a_blockers a; a_warnings := a_warnings a; a_picker := a_picker a; a_data := a_data a;
     a_volume := a_volume a ++ [s]; a_needs := a_needs a; a_stateless := a_stateless a; a_databases := a_databases a;
     a_volumes := a_volumes a; a_bytes := a_bytes a; a_unknown := a_unknown a; a_handled := a_handled a; a_csi := a_csi a |}.

(** [needsBackup.add] of the volumes without a fresh backup. *)
Definition need (vs : list string) (a : Acc) : Acc :=
  {| a_blockers := a_blockers a; a_warnings := a_warnings a; a_picker := a_picker a; a_data := a_data a; a_volume := a_volume a;
     a_needs := foldl (fun s v => set_add v s) (a_needs a) vs; a_stateless := a_stateless a; a_databases := a_databases a;
     a_volumes := a_volumes a; a_bytes := a_bytes a; a_unknown := a_unknown a; a_handled := a_handled a; a_csi := a_csi a |}.

Definition float_ (s : string) (a : Acc) : Acc :=
  {| a_blockers := a_blockers a; a_warnings := a_warnings a; a_picker := a_picker a; a_data := a_data a; a_volume := a_volume a;
     a_needs := a_needs a; a_stateless := a_stateless a ++ [s]; a_databases := a_databases a; a_volumes := a_volumes a;
     a_bytes := a_bytes a; a_unknown := a_unknown a; a_handled := a_handled a; a_csi := a_csi a |}.

(** The counters: databases, volumes, known bytes, unknown sizes. *)
Definition count (databases volumes bytes unknown : Z) (a : Acc) : Acc :=
  {| a_blockers := a_blockers a; a_warnings := a_warnings a; a_picker := a_picker a; a_data := a_data a; a_volume := a_volume a;
     a_needs := a_needs a; a_stateless := a_stateless a; a_databases := a_databases a + databases;
     a_volumes := a_volumes a + volumes; a_bytes := a_bytes a + bytes; a_unknown := a_unknown a + unknown;
     a_handled := a_handled a; a_csi := a_csi a |}.

Definition set_handled (f : list string -> list string) (a : Acc) : Acc :=
  {| a_blockers := a_blockers a; a_warnings := a_warnings a; a_picker := a_picker a; a_data := a_data a; a_volume := a_volume a;
     a_needs := a_needs a; a_stateless := a_stateless a; a_databases := a_databases a; a_volumes := a_volumes a;
     a_bytes := a_bytes a; a_unknown := a_unknown a; a_handled := f (a_handled a); a_csi := a_csi a |}.

Definition handle (s : string) : Acc -> Acc := set_handled (set_add s).
Definition unhandle (s : string) : Acc -> Acc := set_handled (List.filter (fun x => negb (String.eqb x s))).

Definition follow (vs : list string) (a : Acc) : Acc :=
  {| a_blockers := a_blockers a; a_warnings := a_warnings a; a_picker := a_picker a; a_data := a_data a; a_volume := a_volume a;
     a_needs := a_needs a; a_stateless := a_stateless a; a_databases := a_databases a; a_volumes := a_volumes a;
     a_bytes := a_bytes a; a_unknown := a_unknown a; a_handled := a_handled a; a_csi := a_csi a ++ vs |}.

(** * The planner *)

Section planner.
Context (localeCompare : string -> string -> Z) (input : DecommissionInput) (target : DecomNodeInput).

Definition online : bool := dn_online target.
Definition region : option string := node_label target NODE_REGION.
Definition others : list DecomNodeInput := List.filter (fun n => negb (String.eqb (dn_nodeId n) (dn_nodeId target))) (in_nodes input).

Definition pick_node : Picker -> option Z -> list string -> option (DecomNodeInput * Picker) :=
  pick localeCompare (in_nodes input) (dn_nodeId target) region.
Definition pick_role : Picker -> list string -> (DecomNodeInput -> bool) -> RoleHostPick :=
  pickRoleHost localeCompare (in_nodes input) (dn_nodeId target) region.

Definition serviceByName (name : string) : option DecomServiceInput := by_key ds_name (in_services input) name.
Definition volumeInfo (v : string) : option DecomVolumeInput := by_key dv_name (default [] (in_volumes input)) v.
Definition sizeOf (v : string) : option Z := volumeInfo v ≫= dv_sizeBytes.
Definition lastBackup (v : string) : option Z := in_lastBackupAt input ≫= get v.
Definition hasFreshBackup (v : string) : bool :=
  match lastBackup v with Some at_ => in_now input - at_ <=? SAFETY_BACKUP_MAX_AGE_MS | None => false end.

(** A data label pins a service to the server. *)
Definition pinned_here (labels : labels_t) : bool :=
  match dn_swarm target with
  | Some sw => negb (String.eqb (sn_swarmNodeId sw) "") &&
      existsb (fun k => bool_decide (get k labels = Some (sn_swarmNodeId sw))) PINNED_DATA_LABELS
  | None => false
  end.

Definition label (s : DecomServiceInput) (k : string) : option string := get k (ds_labels s).

(** ** What runs here *)

Definition service_of (c : DecomContainerInput) : option string :=
  truthy_str (match dc_serviceName c with Some s => Some s | None => dc_labels c ≫= get SERVICE_NAME_LABEL end).

Definition container_step (m : list (string * list Mount)) (c : DecomContainerInput) : list (string * list Mount) :=
  match service_of c with
  | Some svc => obj_set svc (default [] (get svc m) ++ default [] (dc_mounts c)) m
  | None => m
  end.

Definition pinned_step (m : list (string * list Mount)) (s : DecomServiceInput) : list (string * list Mount) :=
  if pinned_here (ds_labels s) && negb (bool_decide (is_Some (get (ds_name s) m))) then
    obj_set (ds_name s)
      (match truthy_str (label s DB_DATA_VOLUME_LABEL) with
       | Some vol => [ {| mt_type := Some "volume"; mt_source := Some vol |} ]
       | None => []
       end) m
  else m.

Definition onTarget : list (string * list Mount) :=
  foldl pinned_step (foldl container_step [] (in_containers input)) (in_services input).

Definition runs_here (name : string) : bool := bool_decide (is_Some (get name onTarget)).

(** ** Managed Postgres *)

Definition cluster_step (m : list (string * list DecomServiceInput)) (s : DecomServiceInput) : list (string * list DecomServiceInput) :=
  match truthy_str (label s DB_CLUSTER), label s DB_ROLE with
  | Some c, Some _ =>
      let key := default "" (label s STACK_LABEL) +:+ "/" +:+ c in
      obj_set key (default [] (get key m) ++ [s]) m
  | _, _ => m
  end.

Definition clusters : list (string * list DecomServiceInput) := foldl cluster_step [] (in_services input).

Definition cluster_name (key : string) : string := default "" (last (split_at "/" key)).

Definition replica_of (members : list DecomServiceInput) : option DecomServiceInput :=
  List.find (fun x => bool_decide (label x DB_ROLE = Some "replica")) members.

Definition positive (o : option Z) : bool := match o with Some z => 0 <? z | None => false end.

Definition has_replica (members : list DecomServiceInput) (m : DecomServiceInput) : bool :=
  let replicaSvc := replica_of members in
  let replicaCount := match label m DB_REPLICAS with
                      | Some n => js_number n
                      | None => Some (default 0 (replicaSvc ≫= ds_desiredReplicas))
                      end in
  positive replicaCount && positive (replicaSvc ≫= ds_desiredReplicas).

Definition stale (v : string) : bool := negb (hasFreshBackup v).

(** The steps of a primary whose topology can be moved. *)
Definition move_offline_primary (cluster : string) (members : list DecomServiceInput) (m : DecomServiceInput) (a : Acc) : Acc :=
  let vol := truthy_str (label m DB_DATA_VOLUME_LABEL) in
  if has_replica members m then push_data (step db_failover (ds_name m) (Some (ds_name m)) None None seconds_ None) a
  else
    match vol, vol ≫= lastBackup with
    | Some v, Some _ =>
        match pick_node (a_picker a) (vol ≫= sizeOf) [] with
        | None => block no_destination (Some cluster) a
        | Some (d, p) =>
            push_data (step volume_restore (ds_name m) (Some (ds_name m)) (Some [v]) (Some d) unknown_time None) (with_picker p a)
        end
    | _, _ => block data_unreachable (Some (ds_name m)) a
    end.

Definition move_online_primary (cluster : string) (members : list DecomServiceInput) (m : DecomServiceInput) (a : Acc) : Acc :=
  let vol := truthy_str (label m DB_DATA_VOLUME_LABEL) in
  let bytes := vol ≫= sizeOf in
  let vols := match vol with Some v => [v] | None => [] end in
  let a := need (List.filter stale vols) a in
  if has_replica members m then push_data (step db_switchover (ds_name m) (Some (ds_name m)) None None seconds_ None) a
  else
    match pick_node (a_picker a) bytes [] with
    | None => block no_destination (Some cluster) a
    | Some (d, p) =>
        push_data (step db_standby_switchover (ds_name m) (Some (ds_name m)) ((fun v => [v]) <$> vol) (Some d) seconds_ bytes)
          (count 0 0 (default 0 bytes) (match bytes with Some _ => 0 | None => 1 end) (with_picker p a))
    end.

Definition primary_step (cluster : string) (members : list DecomServiceInput) (m : DecomServiceInput) (a : Acc) : Acc :=
  let a := count 1 0 0 0 a in
  if String.eqb (default "primary-replica" (label m DB_TOPOLOGY)) "active-active" ||
     bool_decide (is_Some (truthy_str (label m DB_MEMBER)))
  then block unsupported_topology (Some (ds_name m)) a
  else if online then move_online_primary cluster members m a else move_offline_primary cluster members m a.

Definition member_step (cluster : string) (members : list DecomServiceInput) (a : Acc) (m : DecomServiceInput) : Acc :=
  if runs_here (ds_name m) then
    let a := handle (ds_name m) a in
    if bool_decide (label m DB_ROLE = Some "replica") || bool_decide (label m DB_ROLE = Some "dcs") then float_ (ds_name m) a
    else if bool_decide (label m DB_ROLE = Some "primary") then primary_step cluster members m a
    else a
  else a.

Definition db_step (a : Acc) (kc : string * list DecomServiceInput) : Acc :=
  foldl (member_step (cluster_name (fst kc)) (snd kc)) a (snd kc).

(** ** Managed caches *)

Definition cache_step (a : Acc) (s : DecomServiceInput) : Acc :=
  match truthy_str (label s CACHE_CLUSTER) with
  | None => a
  | Some cluster =>
      if negb (runs_here (ds_name s)) || mem (ds_name s) (a_handled a) then a
      else
        let a := handle (ds_name s) a in
        if negb (bool_decide (label s CACHE_ROLE = Some "primary")) then float_ (ds_name s) a
        else if negb online then
          float_ (ds_name s)
            (warn [if positive (match label s CACHE_REPLICAS with Some n => js_number n | None => Some 0 end)
                   then W_cache_promoted cluster else W_cache_empty cluster] a)
        else unhandle (ds_name s) a
  end.

(** ** Object storage *)

Definition is_member (n : DecomNodeInput) : bool := bool_decide (node_label n GARAGE_MEMBER_NODE_LABEL = Some "true").
Definition garageMembers : list DecomNodeInput := List.filter is_member (in_nodes input).
Definition garage_rf : Z := Z.max 1 (default 1 (in_garageReplicationFactor input)).
Definition garage_remaining : Z := Z.of_nat (length garageMembers) - 1.

Definition garage_replace (a : Acc) : Acc * list DrainStep :=
  if (garage_remaining <? garage_rf) || (garage_remaining =? 0) then
    match rp_chosen (pick_role (a_picker a) (map dn_nodeId garageMembers) (fun _ => true)) with
    | None => (block garage_no_replacement None a, [])
    | Some d => (a, [step garage_add_member (dn_nodeId d) None None (Some d) none_ None])
    end
  else (a, []).

Definition garage_step (a : Acc) : Acc * list DrainStep * option DrainStep :=
  if is_member target then
    let '(a, added) := garage_replace a in
    let a := if negb online && (garage_rf <=? 1) then block data_unreachable (Some "object storage") a else a in
    (a, added ++ [step garage_leave (dn_nodeId target) None None None none_ None],
     Some (step garage_await_resync (dn_nodeId target) None None None none_ None))
  else (a, [], None).

(** ** Search, vector and other volumes *)

Definition sources_of (type : string) (mounts : list Mount) : list string :=
  omap (fun m => if bool_decide (mt_type m = Some type) then truthy_str (mt_source m) else None) mounts.

Definition named_volumes (mounts : list Mount) : list string :=
  List.filter (fun v => negb (is_anonymous v)) (js_uniq (sources_of "volume" mounts)).

Definition is_local (v : string) : bool :=
  match volumeInfo v ≫= dv_driver with None => true | Some d => String.eqb d "local" end.

Definition mode_of (svc : option DecomServiceInput) : option ServiceMode := ds_mode <$> svc.

(** A task of swarmy's own object storage. *)
Definition is_garage_task (name : string) (svc : option DecomServiceInput) : bool :=
  is_member target && bool_decide (svc ≫= (fun s => label s STACK_LABEL) = Some "swarmy-system") &&
  bool_decide (is_Some (String.index 0 "garage" name)).

(** Copies of an unpinned service keep a volume each. *)
Definition many_copies (svc : option DecomServiceInput) : bool :=
  negb (match svc with Some s => pinned_here (ds_labels s) | None => false end) &&
  (1 <? default 1 (svc ≫= ds_desiredReplicas)).

Definition total_size (vs : list string) : option Z :=
  foldr (fun v acc => match sizeOf v, acc with Some b, Some t => Some (b + t) | _, _ => None end) (Some 0) vs.

Definition unknown_size (v : string) : bool := negb (bool_decide (is_Some (sizeOf v))).

Definition move_volumes (name : string) (vols : list string) (a : Acc) : Acc :=
  let a := count 0 (Z.of_nat (length vols)) 0 0 a in
  let bytes := total_size vols in
  let a := if online then need (List.filter stale vols) a else a in
  if negb online && negb (forallb (fun v => bool_decide (is_Some (lastBackup v))) vols) then block data_unreachable (Some name) a
  else
    match pick_node (a_picker a) bytes [] with
    | None => block no_destination (Some name) a
    | Some (d, p) =>
        let a := with_picker p a in
        if online then
          push_volume (step volume_copy name (Some name) (Some vols) (Some d) short_ bytes)
            (count 0 0 (default 0 bytes) (match bytes with Some _ => 0 | None => Z.of_nat (length (List.filter unknown_size vols)) end) a)
        else push_volume (step volume_restore name (Some name) (Some vols) (Some d) unknown_time bytes) a
    end.

Definition folder_warnings (name : string) (mounts : list Mount) : list Warning :=
  map (W_folder name) (List.filter (fun b => negb (String.eqb b "/var/run/docker.sock")) (sources_of "bind" mounts)).

Definition volume_step (a : Acc) (entry : string * list Mount) : Acc :=
  let '(name, mounts) := entry in
  let svc := serviceByName name in
  if mem name (a_handled a) then a
  else if bool_decide (mode_of svc = Some global_) || is_garage_task name svc then handle name a
  else
    let named := named_volumes mounts in
    let a := warn (folder_warnings name mounts) a in
    let a := if (length named <? length (js_uniq (sources_of "volume" mounts)))%nat then warn [W_scratch name] a else a in
    let a := handle name a in
    match named with
    | [] => float_ name a
    | _ =>
        let localVols := List.filter is_local named in
        let a := follow (List.filter (fun v => negb (is_local v)) named) a in
        match localVols with
        | [] => float_ name a
        | _ =>
            if many_copies svc then float_ name (warn [W_copies_dropped name (svc ≫= ds_desiredReplicas)] a)
            else move_volumes name localVols a
        end
    end.

Definition csi_step (a : Acc) : Acc :=
  match a_csi a with
  | [] => a
  | csi => push_volume (step volume_follow "csi" None (Some (js_sort str_cmp (js_uniq csi))) None seconds_ None) a
  end.

(** ** Edge and outlet roles *)

Definition has_role (k : string) (n : DecomNodeInput) : bool := bool_decide (node_label n k = Some "true").

Definition edge_peers (k : string) : list DecomNodeInput := List.filter (fun n => has_role k n && isSchedulable n) others.

Definition edge_step (st : Acc * list DrainStep) (k : string) : Acc * list DrainStep :=
  let '(a, steps) := st in
  if negb (has_role k target) then st
  else
    match edge_peers k with
    | _ :: _ => (a, steps ++ [step edge_handover k None None None none_ None])
    | [] =>
        match rp_chosen (pick_role (a_picker a) [] hasPublicIp) with
        | None => (block edge_no_replacement None a, steps)
        | Some d =>
            (if String.eqb k NODE_INGRESS then warn [W_dns (dn_hostname d)] a else a,
             steps ++ [step edge_handover k None None (Some d) seconds_ None])
        end
    end.

Definition edge_steps (a : Acc) : Acc * list DrainStep := foldl edge_step (a, []) [NODE_INGRESS; NODE_OUTLET].

(** ** Managers *)

Definition role_of (n : DecomNodeInput) : option SwarmRole := sn_role <$> dn_swarm n.
Definition managers : list DecomNodeInput := List.filter (fun n => bool_decide (role_of n = Some manager)) (in_nodes input).
Definition remaining_managers : Z := Z.of_nat (length managers) - 1.

Definition manager_step (a : Acc) : Acc * list DrainStep * option DrainStep :=
  if bool_decide (role_of target = Some manager) then
    let chosen := rp_chosen (pick_role (a_picker a) [] (fun n => bool_decide (role_of n = Some worker))) in
    let demote := Some (step manager_demote (dn_nodeId target) None None None none_ None) in
    let even := remaining_managers mod 2 =? 0 in
    match chosen with
    | Some w =>
        if (remaining_managers =? 0) || even then (a, [step manager_promote (dn_nodeId w) None None (Some w) none_ None], demote)
        else (a, [], demote)
    | None =>
        if remaining_managers =? 0 then (block no_manager_candidate None a, [], demote)
        else if even then (warn [W_even_managers remaining_managers] a, [], demote)
        else (a, [], demote)
    end
  else (a, [], None).

(** ** Backups, capacity, and the plan *)

Definition backup_step (a : Acc) : option DrainStep :=
  match a_needs a with
  | [] => None
  | needs =>
      if online && in_backupsConfigured input then
        Some {| st_id := "safety-backup"; st_kind := safety_backup; st_subject := None;
                st_volumes := Some (js_sort str_cmp needs); st_destination := None; st_downtime := none_; st_bytes := None |}
      else None
  end.

Definition no_backup_warning (a : Acc) : Acc :=
  match a_data a, a_volume a with
  | [], [] => a
  | _, _ => if online && negb (in_backupsConfigured input) then warn [W_no_backups] a else a
  end.

(** One replica per server, never on the primary's. *)
Definition slots_for (s : DecomServiceInput) : Z :=
  let primaryNodes := List.filter (fun p =>
    bool_decide (label p DB_CLUSTER = label s DB_CLUSTER) && bool_decide (label p DB_ROLE = Some "primary") &&
    bool_decide (is_Some (truthy_str (label p DB_PIN_NODE_LABEL)))) (in_services input) in
  Z.of_nat (length (List.filter isSchedulable others)) - Z.min 1 (Z.of_nat (length primaryNodes)).

Definition slot_warnings (s : DecomServiceInput) : list Warning :=
  let desired := default 0 (ds_desiredReplicas s) in
  if bool_decide (label s DB_ROLE = Some "replica") && runs_here (ds_name s) && (0 <? desired) && (slots_for s <? desired)
  then [W_replica_slots (ds_name s) desired (slots_for s)] else [].

Definition of_option {A} (o : option A) : list A := match o with Some x => [x] | None => [] end.

Definition initial_blockers : list Blocker :=
  (if dn_hostsController target then [{| bl_code := controller_host; bl_subject := None |}] else []) ++
  (if negb (existsb isSchedulable others) then [{| bl_code := last_node; bl_subject := None |}] else []).

Definition start_acc : Acc :=
  {| a_blockers := initial_blockers; a_warnings := []; a_picker := new_picker (in_services input); a_data := []; a_volume := [];
     a_needs := []; a_stateless := []; a_databases := 0; a_volumes := 0; a_bytes := 0; a_unknown := 0; a_handled := [];
     a_csi := [] |}.

(** The loops over databases and caches, and then over the volumes. *)
Definition after_caches : Acc := foldl cache_step (foldl db_step start_acc clusters) (in_services input).
Definition after_volumes (a : Acc) : Acc := csi_step (foldl volume_step a onTarget).

Definition last_steps : list DrainStep :=
  [step swarm_leave (dn_nodeId target) None None None none_ None] ++
  (if dn_meshPeer target then [step mesh_remove (dn_nodeId target) None None None none_ None] else []) ++
  [step forget_ (dn_nodeId target) None None None none_ None].

Definition plan_target : DecommissionPlan :=
  let '(a, garageSteps, garageResync) := garage_step after_caches in
  let a := after_volumes a in
  let '(a, edgeSteps) := edge_steps a in
  let '(a, managerSteps, demote) := manager_step a in
  let a := no_backup_warning a in
  let stateless := js_uniq (a_stateless a) in
  let steps :=
    of_option (backup_step a) ++
    (if online then [step cordon (dn_nodeId target) None None None none_ None] else []) ++
    managerSteps ++ edgeSteps ++ garageSteps ++ a_data a ++ a_volume a ++
    [step drain_ (dn_nodeId target) None None None none_ None] ++
    of_option garageResync ++ of_option demote ++ last_steps in
  {| dp_node := {| pn_nodeId := dn_nodeId target; pn_hostname := dn_hostname target; pn_role := default worker (role_of target);
                   pn_online := online |};
     dp_steps := steps; dp_blockers := a_blockers a;
     dp_warnings := js_uniq (a_warnings a ++ flat_map slot_warnings (in_services input));
     dp_totals := {| tt_databases := a_databases a; tt_volumes := a_volumes a; tt_statelessServices := Z.of_nat (length stateless);
                     tt_bytesToMove := a_bytes a; tt_unknownSizes := a_unknown a |};
     dp_runnable := bool_decide (length (a_blockers a) = 0%nat) |}.
End planner.

Definition emptyPlan (node : PlanNode) (code : BlockerCode) : DecommissionPlan :=
  {| dp_node := node; dp_steps := []; dp_blockers := [{| bl_code := code; bl_subject := None |}]; dp_warnings := [];
     dp_totals := {| tt_databases := 0; tt_volumes := 0; tt_statelessServices := 0; tt_bytesToMove := 0; tt_unknownSizes := 0 |};
     dp_runnable := false |}.

Definition planDecommission (localeCompare : string -> string -> Z) (input : DecommissionInput) : DecommissionPlan :=
  match List.find (fun n => String.eqb (dn_nodeId n) (in_targetNodeId input)) (in_nodes input) with
  | None =>
      emptyPlan {| pn_nodeId := in_targetNodeId input; pn_hostname := in_targetNodeId input; pn_role := worker; pn_online := false |}
        unknown_node
  | Some target =>
      if negb (bool_decide (is_Some (dn_swarm target))) && dn_online target then
        emptyPlan {| pn_nodeId := dn_nodeId target; pn_hostname := dn_hostname target;
                     pn_role := default worker (role_of target); pn_online := dn_online target |} not_in_swarm
      else plan_target localeCompare input target
  end.

(** * How the accumulator evolves *)

(** Nothing collected is ever lost. *)
Record grows (a a' : Acc) : Prop := {
  g_blockers : a_blockers a ⊆ a_blockers a';
  g_warnings : a_warnings a ⊆ a_warnings a';
  g_data : a_data a ⊆ a_data a';
  g_volume : a_volume a ⊆ a_volume a';
  g_needs : a_needs a ⊆ a_needs a';
  g_stateless : a_stateless a ⊆ a_stateless a';
  g_csi : a_csi a ⊆ a_csi a';
  g_handled : a_handled a ⊆ a_handled a'
}.

#[export] Instance grows_preorder : PreOrder grows.
Proof.
  split; [by split|]. intros a b c [] []. split; by etransitivity.
Qed.

Lemma need_elem vs a v : v ∈ a_needs (need vs a) <-> v ∈ a_needs a \/ v ∈ vs.
Proof.
  unfold need. simpl. revert a. induction vs as [|w vs IH]; intros a; simpl; [set_solver|].
  specialize (IH (need [w] a)). unfold need in IH. simpl in IH. rewrite IH, set_add_elem. set_solver.
Qed.

(** The primitives, under whatever came before. *)
Section primitives.
Context (a b : Acc) (H : grows a b).

Lemma grows_block c s : grows a (block c s b).
Proof using H. destruct H. split; simpl; set_solver. Qed.

Lemma grows_warn ws : grows a (warn ws b).
Proof using H. destruct H. split; simpl; set_solver. Qed.

Lemma grows_picker p : grows a (with_picker p b).
Proof using H. by destruct H; split. Qed.

Lemma grows_push_data s : grows a (push_data s b).
Proof using H. destruct H. split; simpl; set_solver. Qed.

Lemma grows_push_volume s : grows a (push_volume s b).
Proof using H. destruct H. split; simpl; set_solver. Qed.

Lemma grows_need vs : grows a (need vs b).
Proof using H. destruct H. split; try done. intros v Hv. apply need_elem. auto. Qed.

Lemma grows_float s : grows a (float_ s b).
Proof using H. destruct H. split; simpl; set_solver. Qed.

Lemma grows_count w x y z : grows a (count w x y z b).
Proof using H. by destruct H; split. Qed.

Lemma grows_handle s : grows a (handle s b).
Proof using H. destruct H. split; simpl; try done. intros x Hx. apply set_add_elem. auto. Qed.

Lemma grows_follow vs : grows a (follow vs b).
Proof using H. destruct H. split; simpl; set_solver. Qed.
End primitives.

Lemma grows_refl a : grows a a.
Proof. reflexivity. Qed.

#[export] Hint Resolve grows_refl grows_block grows_warn grows_picker grows_push_data grows_push_volume grows_need grows_float
  grows_count grows_handle grows_follow : grow.

Ltac grow := repeat case_match; simplify_eq; eauto 12 with grow.

(** Changes only what blocks and what is warned of. *)
Record quiet (a a' : Acc) : Prop := {
  q_blockers : a_blockers a ⊆ a_blockers a';
  q_warnings : a_warnings a ⊆ a_warnings a';
  q_picker : a_picker a' = a_picker a;
  q_data : a_data a' = a_data a;
  q_volume : a_volume a' = a_volume a;
  q_needs : a_needs a' = a_needs a;
  q_stateless : a_stateless a' = a_stateless a;
  q_csi : a_csi a' = a_csi a;
  q_handled : a_handled a' = a_handled a
}.

Lemma quiet_refl a : quiet a a.
Proof. by split. Qed.

Lemma quiet_trans a b c : quiet a b -> quiet b c -> quiet a c.
Proof. intros [] []. split; try congruence; by etransitivity. Qed.

Lemma quiet_block c s a b : quiet a b -> quiet a (block c s b).
Proof. intros []. split; simpl; try done. set_solver. Qed.

Lemma quiet_warn ws a b : quiet a b -> quiet a (warn ws b).
Proof. intros []. split; simpl; try done. set_solver. Qed.

Lemma quiet_grows a b : quiet a b -> grows a b.
Proof. intros []. split; congruence || done. Qed.

#[export] Hint Resolve quiet_refl quiet_block quiet_warn : grow.

(** A fold over a growing accumulator: every element leaves its effect. *)
Section folds.
Context {X : Type} (f : Acc -> X -> Acc) (Hgrow : forall a x, grows a (f a x)).

Lemma fold_grows l a : grows a (foldl f a l).
Proof using Hgrow. revert a. induction l as [|x l IH]; intros a; simpl; [done|]. etransitivity; [apply Hgrow|apply IH]. Qed.

Lemma fold_effect (Q : X -> Acc -> Prop) l a :
  (forall x a, x ∈ l -> Q x (f a x)) -> (forall x a a', Q x a -> grows a a' -> Q x a') -> forall x, x ∈ l -> Q x (foldl f a l).
Proof using Hgrow.
  intros Hf Hm. revert a. induction l as [|y l IH]; intros a x; simpl; [by intros ?%not_elem_of_nil|].
  intros [->|Hx]%elem_of_cons.
  - eapply Hm; [apply Hf; left|]. apply fold_grows.
  - apply IH; [|done]. intros z b Hz. apply Hf. by right.
Qed.
End folds.

Lemma fold_inv {X} (f : Acc -> X -> Acc) (P : Acc -> Prop) l a :
  (forall x a, x ∈ l -> P a -> P (f a x)) -> P a -> P (foldl f a l).
Proof.
  revert a. induction l as [|x l IH]; intros a Hf Ha; simpl; [done|]. apply IH; [|apply Hf; [left|done]].
  intros y b Hy. apply Hf. by right.
Qed.

Section planner_facts.
Context (lc : string -> string -> Z) (input : DecommissionInput) (target : DecomNodeInput).

Lemma member_grows cluster members a m : grows a (member_step lc input target cluster members a m).
Proof. unfold member_step, primary_step, move_online_primary, move_offline_primary. grow. Qed.

Lemma db_grows a kc : grows a (db_step lc input target a kc).
Proof. apply fold_grows. intros. apply member_grows. Qed.

Lemma unhandle_handle name a x : name ∉ a_handled a -> x ∈ a_handled (unhandle name (handle name a)) <-> x ∈ a_handled a.
Proof.
  intros Hn. unfold unhandle, handle. simpl. rewrite bfilter_elem, set_add_elem, negb_true_iff, String.eqb_neq. split.
  - by intros [[->|?] ?].
  - intros Hx. split; [by right|]. by intros ->.
Qed.

Lemma cache_grows a s : grows a (cache_step input target a s).
Proof.
  unfold cache_step. destruct (truthy_str _); [|done]. destruct (negb _ || mem _ _) eqn:E; [done|].
  destruct (negb (bool_decide _)); [eauto with grow|]. destruct (negb (online target)); [eauto 6 with grow|].
  b2p. apply mem_false in H0. split; simpl; try done. intros x Hx. by apply (unhandle_handle (ds_name s) a).
Qed.

Lemma move_volumes_grows name vols a : grows a (move_volumes lc input target name vols a).
Proof. unfold move_volumes. grow. Qed.

Lemma volume_grows a entry : grows a (volume_step lc input target a entry).
Proof.
  unfold volume_step. destruct entry as [name mounts]. destruct (mem _ _); [done|]. destruct (_ || _); [eauto with grow|].
  destruct (named_volumes mounts) as [|v vs]; [case_match; eauto 8 with grow|].
  destruct (List.filter (is_local input) (v :: vs)) as [|w ws]; [case_match; eauto 8 with grow|].
  destruct (many_copies _ _); [case_match; eauto 10 with grow|].
  etransitivity; [|apply move_volumes_grows]. case_match; eauto 10 with grow.
Qed.

Lemma csi_grows a : grows a (csi_step a).
Proof. unfold csi_step. grow. Qed.

(** ** Everything that runs here is accounted for *)

Local Notation services := (in_services input).
Local Notation here := (onTarget input target).
Local Notation svc_of := (serviceByName input).

Definition db_member (s : DecomServiceInput) : Prop :=
  is_Some (truthy_str (label s DB_CLUSTER)) /\ is_Some (label s DB_ROLE).

(** A member that copies its primary's data again, or holds none. *)
Definition resyncs (s : DecomServiceInput) : Prop :=
  (db_member s /\ (label s DB_ROLE = Some "replica" \/ label s DB_ROLE = Some "dcs")) \/
  (is_Some (truthy_str (label s CACHE_CLUSTER)) /\ label s CACHE_ROLE <> Some "primary").

(** What is said of the primary of a cache on a lost server. *)
Definition cache_warning (s : DecomServiceInput) (cluster : string) : Warning :=
  if positive (match label s CACHE_REPLICAS with Some n => js_number n | None => Some 0 end) then W_cache_promoted cluster else W_cache_empty cluster.

(** The operator is told of every folder and scratch volume that stays behind. *)
Definition told (name : string) (mounts : list Mount) (ws : list Warning) : Prop :=
  (forall b, b ∈ sources_of "bind" mounts -> b <> "/var/run/docker.sock" -> W_folder name b ∈ ws) /\
  (forall v, v ∈ sources_of "volume" mounts -> is_anonymous v = true -> W_scratch name ∈ ws).

(** Where a step sends data. *)
Definition sent (st : DrainStep) : Prop :=
  exists d, eligible (in_nodes input) (dn_nodeId target) [] d /\ st_destination st = Some (dn_nodeId d, dn_hostname d).

(** How the primary of a database leaves. *)
Definition db_moved (m : DecomServiceInput) (st : DrainStep) : Prop :=
  st_subject st = Some (ds_name m) /\
  if online target then st_kind st = db_switchover \/ (st_kind st = db_standby_switchover /\ sent st)
  else st_kind st = db_failover \/
    (st_kind st = volume_restore /\ sent st /\
     exists v, truthy_str (label m DB_DATA_VOLUME_LABEL) = Some v /\ st_volumes st = Some [v] /\ is_Some (lastBackup input v)).

(** How a volume leaves: copied, or restored from the backup of each volume. *)
Definition volume_moved (name v : string) (st : DrainStep) : Prop :=
  st_subject st = Some name /\ sent st /\ (exists vs, st_volumes st = Some vs /\ v ∈ vs) /\
  if online target then st_kind st = volume_copy else st_kind st = volume_restore /\ is_Some (lastBackup input v).

(** A volume without a fresh backup is on the list of those backed up first. *)
Definition backed_up (a : Acc) (v : string) : Prop := online target = true -> stale input v = true -> v ∈ a_needs a.

Inductive accounted (name : string) (mounts : list Mount) (a : Acc) : Prop :=
  | acc_primary m st : m ∈ services -> ds_name m = name -> db_member m -> label m DB_ROLE = Some "primary" ->
      st ∈ a_data a -> db_moved m st -> (forall v, truthy_str (label m DB_DATA_VOLUME_LABEL) = Some v -> backed_up a v) ->
      accounted name mounts a
  | acc_resyncs s : s ∈ services -> ds_name s = name -> resyncs s -> accounted name mounts a
  | acc_cache s c : s ∈ services -> ds_name s = name -> truthy_str (label s CACHE_CLUSTER) = Some c -> label s CACHE_ROLE = Some "primary" ->
      online target = false -> cache_warning s c ∈ a_warnings a -> accounted name mounts a
  | acc_unplanned s r : s ∈ services -> ds_name s = name -> db_member s -> label s DB_ROLE = Some r -> r ∉ ["primary"; "replica"; "dcs"] ->
      accounted name mounts a
  | acc_stays : mode_of (svc_of name) = Some global_ \/ is_garage_task target name (svc_of name) = true -> accounted name mounts a
  | acc_volumes :
      told name mounts (a_warnings a) ->
      (forall v, v ∈ named_volumes mounts -> is_local input v = false -> v ∈ a_csi a) ->
      (forall v, v ∈ named_volumes mounts -> is_local input v = true ->
         (many_copies target (svc_of name) = true /\ exists n, W_copies_dropped name n ∈ a_warnings a) \/
         (backed_up a v /\ exists st, st ∈ a_volume a /\ volume_moved name v st)) ->
      accounted name mounts a.

Lemma backed_up_grows a a' v : grows a a' -> backed_up a v -> backed_up a' v.
Proof. intros [] H Ho Hs. auto. Qed.

Lemma accounted_grows name mounts a a' : grows a a' -> accounted name mounts a -> accounted name mounts a'.
Proof.
  intros Hg [m st H1 H2 H3 H4 H5 H6 H7|s H1 H2 H3|s c H1 H2 H3 H4 H5 H6|s r H1 H2 H3 H4 H5|H1|[Hf Hs] H1 H2]; assert (Hg' := Hg); destruct Hg'.
  - eapply acc_primary; eauto using backed_up_grows.
  - by eapply acc_resyncs.
  - eapply (acc_cache _ _ _ s c); auto.
  - by eapply acc_unplanned.
  - by apply acc_stays.
  - apply acc_volumes; [split; eauto|auto|]. intros v Hv Hl. destruct (H2 v Hv Hl) as [(Hm & n & Hn)|(Hb & st & Hst & Hmv)]; [left|right]; eauto 6 using backed_up_grows.
Qed.

Definition all_accounted (a : Acc) : Prop :=
  a_blockers a = [] -> forall name mounts, name ∈ a_handled a -> (name, mounts) ∈ here -> accounted name mounts a.

(** A step that takes charge of at most one name. *)
Lemma accounted_step a a' name : grows a a' -> (forall x, x ∈ a_handled a' -> x ∈ a_handled a \/ x = name) ->
  (a_blockers a' = [] -> forall mounts, (name, mounts) ∈ here -> accounted name mounts a') ->
  all_accounted a -> all_accounted a'.
Proof.
  intros Hg Hh Hn Ha Hb x mounts Hx Hin. destruct (Hh x Hx) as [Hold| ->]; [|auto]. eapply accounted_grows; [done|].
  apply Ha; [|done|done]. destruct (a_blockers a) as [|b l] eqn:E; [done|]. destruct Hg.
  assert (b ∈ a_blockers a') by (apply g_blockers0; rewrite E; left). rewrite Hb in *. by apply not_elem_of_nil in H.
Qed.

Lemma clusters_members k ms m : (k, ms) ∈ clusters input -> m ∈ ms -> m ∈ services /\ db_member m.
Proof.
  unfold clusters. assert (H : forall l acc, (forall k ms m, (k, ms) ∈ acc -> m ∈ ms -> m ∈ services /\ db_member m) -> l ⊆ services ->
    forall k ms m, (k, ms) ∈ foldl cluster_step acc l -> m ∈ ms -> m ∈ services /\ db_member m); [|by apply H; [intros ??? ?%not_elem_of_nil|]].
  clear k ms m. induction l as [|s l IH]; intros acc Ha Hl; simpl; [done|]. apply IH; [|set_solver].
  intros k ms m. unfold cluster_step. destruct (truthy_str (label s DB_CLUSTER)) eqn:Ec; [|apply Ha].
  destruct (label s DB_ROLE) eqn:Er; [|apply Ha]. intros [[= -> ->]|Hin]%obj_set_elem Hm; [|by eapply Ha].
  apply elem_of_app in Hm as [Hm| ->%list_elem_of_singleton]; [|split; [apply Hl; left|split; eauto]].
  destruct (get _ acc) as [ms'|] eqn:Eg; simpl in Hm; [|by apply not_elem_of_nil in Hm].
  eapply Ha; [|exact Hm]. by apply get_elem in Eg.
Qed.

Context `{!Comparator lc}.

Lemma pick_sent a bytes d p : pick_node lc input target (a_picker a) bytes [] = Some (d, p) ->
  eligible (in_nodes input) (dn_nodeId target) [] d.
Proof using Type*. intros H. by apply pick_some in H as [? _]. Qed.

Lemma need_here vs a v : v ∈ vs -> v ∈ a_needs (need vs a).
Proof. intros. apply need_elem. by right. Qed.

Lemma primary_handled cluster members m a : a_handled (primary_step lc input target cluster members m a) = a_handled a.
Proof. unfold primary_step, move_online_primary, move_offline_primary. by repeat case_match. Qed.

Lemma no_blocker c s a : a_blockers (block c s a) = [] -> False.
Proof. simpl. by destruct (a_blockers a). Qed.

Lemma pushed_data s a : s ∈ a_data (push_data s a).
Proof. simpl. apply elem_of_app. right. left. Qed.

Lemma pushed_volume s a : s ∈ a_volume (push_volume s a).
Proof. simpl. apply elem_of_app. right. left. Qed.

Lemma primary_accounted cluster members m a : m ∈ services -> db_member m -> label m DB_ROLE = Some "primary" ->
  let a' := primary_step lc input target cluster members m a in
  a_blockers a' = [] -> forall mounts, accounted (ds_name m) mounts a'.
Proof using Type*.
  intros Hm Hd Hr a' Hb mounts. subst a'. revert Hb. unfold primary_step.
  destruct (_ || _); [by intros []%no_blocker|]. destruct (online target) eqn:Eo.
  - unfold move_online_primary. destruct (has_replica members m); [intros _|destruct (pick_node _ _ _ _ _ _) as [[d p]|] eqn:Ep; [intros _|by intros []%no_blocker]].
    all: eapply (acc_primary (ds_name m) mounts _ m); [done..|apply pushed_data| |].
    + split; [done|]. rewrite Eo. by left.
    + intros v Hv Ho Hs. simpl. apply need_here. rewrite Hv. apply bfilter_elem. split; [left|done].
    + split; [done|]. rewrite Eo. right. split; [done|]. exists d. split; [by eapply pick_sent|done].
    + intros v Hv Ho Hs. simpl. apply need_here. rewrite Hv. apply bfilter_elem. split; [left|done].
  - assert (Hbk : forall a v, backed_up a v) by (intros b v Ho; congruence).
    unfold move_offline_primary. destruct (has_replica members m); [intros _|].
    + eapply (acc_primary (ds_name m) mounts _ m); [done..|apply pushed_data| |by intros; apply Hbk]. split; [done|]. rewrite Eo. by left.
    + destruct (truthy_str (label m DB_DATA_VOLUME_LABEL)) as [v|] eqn:Ev; simpl; [|by intros []%no_blocker].
      destruct (lastBackup input v) as [t|] eqn:El; [|by intros []%no_blocker].
      destruct (pick_node _ _ _ _ _ _) as [[d p]|] eqn:Ep; [intros _|by intros []%no_blocker].
      eapply (acc_primary (ds_name m) mounts _ m); [done..|apply pushed_data| |by intros; apply Hbk]. split; [done|]. rewrite Eo. right.
      split; [done|]. split; [exists d; split; [by eapply pick_sent|done]|]. exists v. by rewrite El.
Qed.

Lemma runs_here_false name mounts : runs_here input target name = false -> (name, mounts) ∈ here -> False.
Proof.
  intros H%bool_decide_eq_false Hin. apply H, get_keys, list_elem_of_fmap. by exists (name, mounts).
Qed.

Lemma member_accounted cluster members m a : m ∈ services -> db_member m ->
  all_accounted a -> all_accounted (member_step lc input target cluster members a m).
Proof using Type*.
  intros Hm Hd. apply (accounted_step _ _ (ds_name m)); [apply member_grows|..]; unfold member_step;
    destruct (runs_here input target (ds_name m)) eqn:Eh; auto.
  - intros x. destruct (_ || _); [|destruct (bool_decide _); rewrite ?primary_handled]; simpl; rewrite set_add_elem; tauto.
  - destruct (bool_decide (label m DB_ROLE = Some "primary")) eqn:Ep.
    + apply bool_decide_eq_true in Ep. rewrite Ep. simpl. intros Hb mounts _. by apply primary_accounted.
    + apply bool_decide_eq_false in Ep. intros _ mounts _. destruct Hd as [Hc [r Hr]].
      destruct (decide (r = "replica" \/ r = "dcs")) as [Hk|Hk]; [eapply (acc_resyncs _ _ _ m); [done..|]; left; split; [by split; eauto|]; rewrite Hr; by destruct Hk as [-> | ->]; [left|right]|].
      eapply (acc_unplanned _ _ _ m r); [done..|by split; eauto|done|]. intros Hin. rewrite !elem_of_cons in Hin.
      destruct Hin as [->|[->|[->|?%not_elem_of_nil]]]; [done|by destruct Hk; left|by destruct Hk; right|done].
  - intros _ mounts Hin. destruct (runs_here_false _ _ Eh Hin).
Qed.

Lemma dbs_accounted a : all_accounted a -> all_accounted (foldl (db_step lc input target) a (clusters input)).
Proof using Type*.
  apply fold_inv. intros [k ms] b Hin. apply fold_inv. intros m b' Hm. simpl in Hm.
  destruct (clusters_members k ms m Hin Hm). by apply member_accounted.
Qed.

Lemma cache_accounted a s : s ∈ services -> all_accounted a -> all_accounted (cache_step input target a s).
Proof.
  intros Hs Ha. assert (Hg := cache_grows a s). revert Hg. unfold cache_step.
  destruct (truthy_str (label s CACHE_CLUSTER)) as [c|] eqn:Ec; [|done]. destruct (negb _ || mem _ _) eqn:E; [done|]. b2p.
  apply mem_false in H0.
  destruct (bool_decide (label s CACHE_ROLE = Some "primary")) eqn:Er; simpl; [destruct (online target) eqn:Eo; simpl|]; intros Hg.
  - intros Hb name mounts Hx%(unhandle_handle (ds_name s) a) Hin; [|done]. eapply accounted_grows; [exact Hg|]. by apply Ha.
  - eapply (accounted_step _ _ (ds_name s)); [exact Hg| | |done]; [intros x; simpl; rewrite set_add_elem; tauto|].
    intros _ mounts _. eapply (acc_cache _ _ _ s c); [done..|by apply bool_decide_eq_true in Er|done|]. simpl. apply elem_of_app. right. unfold cache_warning. left.
  - apply bool_decide_eq_false in Er.
    eapply (accounted_step _ _ (ds_name s)); [exact Hg| | |done]; [intros x; simpl; rewrite set_add_elem; tauto|].
    intros _ mounts _. eapply (acc_resyncs _ _ _ s); [done..|]. right. by split; [exists c|].
Qed.

Lemma move_volumes_handled name vols a : a_handled (move_volumes lc input target name vols a) = a_handled a.
Proof. unfold move_volumes. by repeat case_match. Qed.

Lemma move_volumes_moves name vols a : let a' := move_volumes lc input target name vols a in
  a_blockers a' = [] -> forall v, v ∈ vols -> backed_up a' v /\ exists st, st ∈ a_volume a' /\ volume_moved name v st.
Proof using Type*.
  intros a' Hb v Hv. subst a'. revert Hb. unfold move_volumes. destruct (online target) eqn:Eo; simpl.
  - destruct (pick_node _ _ _ _ _ _) as [[d p]|] eqn:Ep; [intros _|by intros []%no_blocker]. split.
    + intros _ Hs. apply need_here, bfilter_elem. by split.
    + eexists. split; [apply pushed_volume|]. split_and!; [done| |by eexists|by rewrite Eo].
      exists d. split; [by eapply pick_sent|done].
  - destruct (forallb _ _) eqn:Ef; simpl; [|by intros []%no_blocker].
    destruct (pick_node _ _ _ _ _ _) as [[d p]|] eqn:Ep; [intros _|by intros []%no_blocker]. split; [intros Ho; congruence|].
    eexists. split; [apply pushed_volume|]. rewrite forallb_forall in Ef. split_and!; [done| |by eexists|].
    + exists d. split; [by eapply pick_sent|done].
    + rewrite Eo. split; [done|]. apply list_elem_of_In in Hv. specialize (Ef v Hv). by apply bool_decide_eq_true in Ef.
Qed.

Lemma onTarget_keys : NoDup (map fst here).
Proof.
  unfold onTarget. assert (H : NoDup (map fst (foldl container_step [] (in_containers input)))).
  - assert (H : forall l acc, NoDup (map fst acc) -> NoDup (map fst (foldl container_step acc l))); [|apply H; constructor].
    induction l as [|c l IH]; intros acc Ha; simpl; [done|]. apply IH. unfold container_step. case_match; [by apply obj_set_NoDup|done].
  - revert H. generalize (foldl container_step [] (in_containers input)) as acc. induction services as [|s l IH]; intros acc Ha; simpl; [done|].
    apply IH. unfold pinned_step. case_match; [by apply obj_set_NoDup|done].
Qed.

Lemma volume_handled a name mounts x :
  x ∈ a_handled (volume_step lc input target a (name, mounts)) <-> x ∈ a_handled a \/ x = name.
Proof.
  unfold volume_step. destruct (mem name (a_handled a)) eqn:Em; [apply mem_In in Em; split; [tauto|by intros [?| ->]]|].
  destruct (_ || _); [simpl; rewrite set_add_elem; tauto|].
  destruct (named_volumes mounts) as [|v vs]; [|destruct (List.filter _ _) as [|w ws]; [|destruct (many_copies _ _)]];
    rewrite ?move_volumes_handled; case_match; simpl; rewrite set_add_elem; tauto.
Qed.

Lemma told_grows name mounts ws ws' : ws ⊆ ws' -> told name mounts ws -> told name mounts ws'.
Proof. intros H [H1 H2]. split; eauto. Qed.

Lemma warned_told name mounts a : told name mounts (a_warnings
  (if (length (named_volumes mounts) <? length (js_uniq (sources_of "volume" mounts)))%nat
   then warn [W_scratch name] (warn (folder_warnings name mounts) a) else warn (folder_warnings name mounts) a)).
Proof.
  split.
  - intros b Hb Hne. assert (Hin : W_folder name b ∈ a_warnings (warn (folder_warnings name mounts) a)).
    { simpl. apply elem_of_app. right. apply list_elem_of_fmap_2, bfilter_elem. split; [done|]. by apply negb_true_iff, String.eqb_neq. }
    case_match; [|exact Hin]. simpl in *. apply elem_of_app. by left.
  - intros v Hv Ha. destruct (Nat.ltb_spec (length (named_volumes mounts)) (length (js_uniq (sources_of "volume" mounts)))) as [|Hl]; [simpl; rewrite !elem_of_app; right; left|].
    exfalso. unfold named_volumes in Hl. apply js_uniq_elem in Hv. revert Hv Hl. generalize (js_uniq (sources_of "volume" mounts)) as l.
    assert (Hle : forall l : list string, (length (List.filter (fun v => negb (is_anonymous v)) l) <= length l)%nat) by (intros; apply List.filter_length_le).
    induction l as [|w l IH]; [by intros ?%not_elem_of_nil|]. specialize (Hle l). intros [->|Hv]%elem_of_cons; simpl.
    + rewrite Ha. simpl. lia.
    + destruct (is_anonymous w); simpl; [lia|]. intros Hl. apply IH; [done|lia].
Qed.

Lemma volume_accounted a entry : entry ∈ here -> all_accounted a -> all_accounted (volume_step lc input target a entry).
Proof using Type*.
  destruct entry as [name mounts]. intros Hin Ha. destruct (mem name (a_handled a)) eqn:Em; [unfold volume_step; by rewrite Em|].
  apply (accounted_step a _ name); [apply volume_grows|intros x; apply volume_handled| |exact Ha].
  intros Hb mounts' Hin'. assert (E : (name, mounts') = (name, mounts)) by (apply (map_key_inj fst here); [apply onTarget_keys|done..]).
  injection E as ->. clear Hin'. revert Hb. unfold volume_step. rewrite Em.
  destruct (bool_decide (mode_of _ = _) || is_garage_task _ _ _) eqn:Es.
  { intros _. apply acc_stays. by apply orb_true_iff in Es as [?%bool_decide_eq_true|?]; [left|right]. }
  assert (Hsub : forall v, v ∈ named_volumes mounts -> is_local input v = true -> v ∈ List.filter (is_local input) (named_volumes mounts))
    by (intros v ? ?; apply bfilter_elem; by split).
  assert (Hcsi : forall a v, v ∈ named_volumes mounts -> is_local input v = false ->
    v ∈ a_csi (follow (List.filter (fun v => negb (is_local input v)) (named_volumes mounts)) a)).
  { intros b v Hv Hl. simpl. apply elem_of_app. right. apply bfilter_elem. by rewrite Hl. }
  set (a1 := if (_ <? _)%nat then warn [W_scratch name] _ else _). assert (Ht : told name mounts (a_warnings a1)) by apply warned_told.
  clearbody a1. assert (Htold : forall b, grows a1 b -> told name mounts (a_warnings b)) by (intros b Hg; eapply told_grows; [apply (g_warnings _ _ Hg)|done]).
  destruct (named_volumes mounts) as [|v0 vs] eqn:En;
    [intros _; apply acc_volumes; [apply Htold; eauto with grow|..]; rewrite En; intros v ?%not_elem_of_nil; done|].
  rewrite <- En in *. destruct (List.filter (is_local input) (named_volumes mounts)) as [|w ws] eqn:El.
  - intros _. apply acc_volumes; [apply Htold; eauto with grow|by apply Hcsi|]. intros v Hv Hl. specialize (Hsub v Hv Hl). by apply not_elem_of_nil in Hsub.
  - destruct (many_copies _ _) eqn:Ec.
    + intros _. apply acc_volumes; [apply Htold; eauto 8 with grow|by apply Hcsi|]. intros v Hv Hl. left. split; [done|]. eexists. simpl. apply elem_of_app. right. left.
    + intros Hb. apply acc_volumes.
      * apply Htold. etransitivity; [|apply move_volumes_grows]. eauto with grow.
      * intros v Hv Hl. eapply (g_csi _ _ (move_volumes_grows name (w :: ws) _)). by apply Hcsi.
      * intros v Hv Hl. right. by apply move_volumes_moves; [|apply Hsub].
Qed.

(** ** From the accumulator to the plan *)

Lemma garage_quiet a a' gs gr : garage_step lc input target a = (a', gs, gr) -> quiet a a'.
Proof. unfold garage_step, garage_replace. repeat case_match; intros; simplify_eq; eauto with grow. Qed.

Lemma edge_step_quiet st k : quiet (fst st) (fst (edge_step lc input target st k)).
Proof. destruct st as [b l]. unfold edge_step. repeat case_match; simpl; eauto with grow. Qed.

Lemma edge_quiet a a' es : edge_steps lc input target a = (a', es) -> quiet a a'.
Proof.
  intros E. pose proof (edge_step_quiet (a, []) NODE_INGRESS) as H1.
  pose proof (edge_step_quiet (edge_step lc input target (a, []) NODE_INGRESS) NODE_OUTLET) as H2.
  assert (E' : edge_step lc input target (edge_step lc input target (a, []) NODE_INGRESS) NODE_OUTLET = (a', es)) by exact E.
  rewrite E' in H2. by eapply quiet_trans.
Qed.

Lemma manager_quiet a a' ms d : manager_step lc input target a = (a', ms, d) -> quiet a a'.
Proof. unfold manager_step. repeat case_match; intros; simplify_eq; eauto with grow. Qed.

Lemma no_backup_quiet a : quiet a (no_backup_warning input target a).
Proof. unfold no_backup_warning. repeat case_match; eauto with grow. Qed.

(** The accumulator after garage and volumes, and the steps around its own. *)
Definition collected : Acc := after_volumes lc input target (fst (fst (garage_step lc input target (after_caches lc input target)))).

Lemma plan_shape : let p := plan_target lc input target in
  exists a gs gr es ms dm,
    quiet collected a /\
    garage_step lc input target (after_caches lc input target) = (fst (fst (garage_step lc input target (after_caches lc input target))), gs, gr) /\
    (exists a1 a2, edge_steps lc input target collected = (a1, es) /\ manager_step lc input target a1 = (a2, ms, dm) /\ quiet a2 a) /\
    dp_steps p = (of_option (backup_step input target a) ++
      (if online target then [step cordon (dn_nodeId target) None None None none_ None] else []) ++
      ms ++ es ++ gs ++ a_data a ++ a_volume a) ++
      [step drain_ (dn_nodeId target) None None None none_ None] ++ of_option gr ++ of_option dm ++ last_steps target /\
    dp_blockers p = a_blockers a /\ (forall w, w ∈ a_warnings a -> w ∈ dp_warnings p).
Proof.
  unfold plan_target, collected. destruct (garage_step _ _ _ _) as [[a0 gs] gr] eqn:Eg. simpl.
  destruct (edge_steps _ _ _ _) as [a1 es] eqn:Ee. destruct (manager_step _ _ _ _) as [[a2 ms] dm] eqn:Em.
  exists (no_backup_warning input target a2), gs, gr, es, ms, dm. split_and!; try done.
  - eapply quiet_trans; [by eapply edge_quiet|]. eapply quiet_trans; [by eapply manager_quiet|]. apply no_backup_quiet.
  - exists a1, a2. split_and!; [done|done|apply no_backup_quiet].
  - simpl. by rewrite <- !app_assoc.
  - intros w Hw. simpl. apply js_uniq_elem, elem_of_app. by left.
Qed.

Lemma accounted_quiet a a' : grows a a' -> a_handled a' ⊆ a_handled a -> all_accounted a -> all_accounted a'.
Proof.
  intros Hg Hh Ha Hb name mounts Hx Hin. eapply accounted_grows; [exact Hg|]. apply Ha; auto.
  destruct (a_blockers a) as [|b l] eqn:E; [done|]. assert (Hbb : b ∈ a_blockers a') by (apply (g_blockers _ _ Hg); rewrite E; left).
  rewrite Hb in Hbb. by apply not_elem_of_nil in Hbb.
Qed.

Lemma collected_accounted : all_accounted collected /\ forall name mounts, (name, mounts) ∈ here -> name ∈ a_handled collected.
Proof using Type*.
  unfold collected. destruct (garage_step _ _ _ _) as [[a0 gs] gr] eqn:Eg. simpl.
  assert (H0 : all_accounted a0).
  { apply (accounted_quiet (after_caches lc input target)).
    - by eapply quiet_grows, garage_quiet.
    - by rewrite (q_handled _ _ (garage_quiet _ _ _ _ Eg)).
    - unfold after_caches. apply fold_inv; [intros s a Hs; by apply cache_accounted|]. apply dbs_accounted.
      intros _ name mounts Hn. by apply not_elem_of_nil in Hn. }
  unfold after_volumes. split.
  - apply (accounted_quiet (foldl (volume_step lc input target) a0 here)); [apply csi_grows|unfold csi_step; by case_match|].
    apply fold_inv; [|done]. intros entry a Hin. by apply volume_accounted.
  - intros name mounts Hin. eapply (g_handled _ _ (csi_grows _)).
    refine (fold_effect (volume_step lc input target) volume_grows (fun e a => fst e ∈ a_handled a) here a0 _ _ (name, mounts) Hin).
    + intros [n m] a _. simpl. apply volume_handled. by right.
    + intros e a a' H Hg. by apply (g_handled _ _ Hg).
Qed.

Lemma nil_subset {A} (l l' : list A) : l ⊆ l' -> l' = [] -> l = [].
Proof. intros H ->. destruct l as [|x l]; [done|]. assert (Hx : x ∈ x :: l) by left. apply H in Hx. by apply not_elem_of_nil in Hx. Qed.

Definition drain_step : DrainStep := step drain_ (dn_nodeId target) None None None none_ None.

(** In a plan that can run, a volume that is not backed up is backed up first. *)
Definition saved_first (v : string) : Prop :=
  online target = true -> in_backupsConfigured input = true -> stale input v = true ->
  exists st vs rest, dp_steps (plan_target lc input target) = st :: rest /\ st_kind st = safety_backup /\ st_volumes st = Some vs /\ v ∈ vs.

Lemma needs_saved v : (forall a, quiet collected a -> v ∈ a_needs a \/ stale input v = false \/ online target = false) -> saved_first v.
Proof.
  intros H Ho Hc Hs. destruct plan_shape as (a & gs & gr & es & ms & dm & Hq & _ & _ & -> & _).
  destruct (H a Hq) as [Hv|[?|?]]; [|congruence..]. unfold backup_step. destruct (a_needs a) as [|n ns] eqn:En; [by apply not_elem_of_nil in Hv|].
  rewrite Ho, Hc. simpl. do 3 eexists. split_and!; [done..|]. by apply (js_sort_elem str_cmp v (n :: ns)).
Qed.

Lemma saved_backed v : backed_up collected v -> saved_first v.
Proof.
  intros Hb. apply needs_saved. intros a Hq. rewrite (q_needs _ _ Hq). destruct (online target) eqn:Eo; [|by right; right].
  destruct (stale input v) eqn:Es; [|by right; left]. left. by apply Hb.
Qed.

Lemma plan_runnable : dp_blockers (plan_target lc input target) = [] -> a_blockers collected = [].
Proof.
  destruct plan_shape as (a & gs & gr & es & ms & dm & Hq & _ & _ & _ & -> & _). intros E. by eapply nil_subset; [apply (q_blockers _ _ Hq)|].
Qed.

Lemma collected_before st : st ∈ a_data collected \/ st ∈ a_volume collected ->
  before st drain_step (dp_steps (plan_target lc input target)).
Proof.
  destruct plan_shape as (a & gs & gr & es & ms & dm & Hq & _ & _ & -> & _). intros H. apply before_app; [|left].
  rewrite <- (q_data _ _ Hq), <- (q_volume _ _ Hq) in H. rewrite !elem_of_app. tauto.
Qed.

Lemma collected_warned w : w ∈ a_warnings collected -> w ∈ dp_warnings (plan_target lc input target).
Proof. destruct plan_shape as (a & gs & gr & es & ms & dm & Hq & _ & _ & _ & _ & H). intros Hw. by apply H, (q_warnings _ _ Hq). Qed.

(** What leaves a server with nothing of [name] on it. *)
Inductive leaves (name : string) (mounts : list Mount) : Prop :=
  | lv_primary m st : m ∈ services -> ds_name m = name -> label m DB_ROLE = Some "primary" ->
      before st drain_step (dp_steps (plan_target lc input target)) -> db_moved m st ->
      (forall v, truthy_str (label m DB_DATA_VOLUME_LABEL) = Some v -> saved_first v) -> leaves name mounts
  | lv_resyncs s : s ∈ services -> ds_name s = name -> resyncs s -> leaves name mounts
  | lv_cache s c : s ∈ services -> ds_name s = name -> truthy_str (label s CACHE_CLUSTER) = Some c -> label s CACHE_ROLE = Some "primary" ->
      online target = false -> cache_warning s c ∈ dp_warnings (plan_target lc input target) -> leaves name mounts
  | lv_unplanned s r : s ∈ services -> ds_name s = name -> db_member s -> label s DB_ROLE = Some r -> r ∉ ["primary"; "replica"; "dcs"] ->
      leaves name mounts
  | lv_stays : mode_of (svc_of name) = Some global_ \/ is_garage_task target name (svc_of name) = true -> leaves name mounts
  | lv_volumes : told name mounts (dp_warnings (plan_target lc input target)) ->
      (forall v, v ∈ named_volumes mounts -> is_local input v = false ->
         exists st vs, before st drain_step (dp_steps (plan_target lc input target)) /\ st_kind st = volume_follow /\
           st_volumes st = Some vs /\ v ∈ vs) ->
      (forall v, v ∈ named_volumes mounts -> is_local input v = true ->
         (many_copies target (svc_of name) = true /\ exists n, W_copies_dropped name n ∈ dp_warnings (plan_target lc input target)) \/
         (saved_first v /\ exists st, before st drain_step (dp_steps (plan_target lc input target)) /\ volume_moved name v st)) ->
      leaves name mounts.

Lemma csi_followed v : v ∈ a_csi collected -> exists st vs, st ∈ a_volume collected /\ st_kind st = volume_follow /\
  st_volumes st = Some vs /\ v ∈ vs.
Proof.
  unfold collected, after_volumes. generalize (foldl (volume_step lc input target) (fst (fst (garage_step lc input target (after_caches lc input target)))) here).
  intros a. unfold csi_step. destruct (a_csi a) as [|c cs] eqn:E; intros Hv; [rewrite E in Hv; by apply not_elem_of_nil in Hv|].
  do 2 eexists. split; [apply pushed_volume|]. split_and!; [done..|]. apply js_sort_elem, js_uniq_elem. simpl in Hv. by rewrite E in Hv.
Qed.

Lemma all_leave : dp_blockers (plan_target lc input target) = [] -> forall name mounts, (name, mounts) ∈ here -> leaves name mounts.
Proof using Type*.
  intros Hb%plan_runnable name mounts Hin. destruct collected_accounted as [Ha Hh].
  destruct (Ha Hb name mounts (Hh _ _ Hin) Hin) as [m st H1 H2 H3 H4 H5 H6 H7|s H1 H2 H3|s c H1 H2 H3 H4 H5 H6|s r H1 H2 H3 H4 H5|H1|H0 H1 H2].
  - eapply (lv_primary _ _ m st); try done; [apply collected_before; by left|]. intros v Hv. by apply saved_backed, H7.
  - by eapply lv_resyncs.
  - eapply (lv_cache _ _ s c); try done. by apply collected_warned.
  - by eapply lv_unplanned.
  - by apply lv_stays.
  - apply lv_volumes.
    + destruct H0 as [Hf Hs]. split; eauto using collected_warned.
    + intros v Hv Hl. destruct (csi_followed v (H1 v Hv Hl)) as (st & vs & Hst & ? & ? & ?). exists st, vs.
      split; [apply collected_before; by right|done].
    + intros v Hv Hl. destruct (H2 v Hv Hl) as [(Hm & n & Hn)|(Hbk & st & Hst & Hmv)]; [left|right].
      * split; [done|]. exists n. by apply collected_warned.
      * split; [by apply saved_backed|]. exists st. split; [apply collected_before; by right|done].
Qed.

(** ** Where data is sent, and how much *)

Definition destination_id (st : DrainStep) : option string := fst <$> st_destination st.

(** What a step sends to a server: its volumes, when the size of each is known. *)
Definition weight (id : string) (st : DrainStep) : Z :=
  if decide (destination_id st = Some id) then default 0 (st_volumes st ≫= total_size input) else 0.

Definition sent_to (id : string) (steps : list DrainStep) : Z := foldr (fun st z => weight id st + z) 0 steps.

Lemma sent_to_app id l l' : sent_to id (l ++ l') = sent_to id l + sent_to id l'.
Proof. induction l as [|st l IH]; simpl; [done|]. rewrite IH. lia. Qed.

(** What the kind of a data step says of the server. *)
Definition data_kind (k : DrainStepKind) : Prop :=
  match k with
  | db_switchover | db_standby_switchover | volume_copy => online target = true
  | db_failover | volume_restore => online target = false
  | volume_follow => True
  | _ => False
  end.

Definition data_step_ok (st : DrainStep) : Prop :=
  (destination_id st = None \/ exists d, eligible (in_nodes input) (dn_nodeId target) [] d /\ destination_id st = Some (dn_nodeId d)) /\
  data_kind (st_kind st).

Record kept (p : Picker) (steps : list DrainStep) : Prop := {
  kp_steps : Forall data_step_ok steps;
  kp_within : within (in_nodes input) p;
  kp_sent : forall id, sent_to id steps <= tally (pk_reserved p) id
}.

Definition all_kept (a : Acc) : Prop := kept (a_picker a) (a_data a ++ a_volume a).

#[local] Instance sent_to_perm id : Proper ((≡ₚ) ==> eq) (sent_to id).
Proof. intros l l' Hp. induction Hp; simpl; [done|by rewrite IHHp|lia|congruence]. Qed.

Lemma kept_perm p l l' : l ≡ₚ l' -> kept p l -> kept p l'.
Proof. intros Hp [H1 H2 H3]. split; [by rewrite <- Hp|done|]. intros id. by rewrite <- Hp. Qed.

(** A step that sends nothing known. *)
Lemma kept_push p l st : data_step_ok st -> (forall id, weight id st = 0) -> kept p l -> kept p (st :: l).
Proof.
  intros Hok Hb [H1 H2 H3]. split; [by constructor|done|]. intros id. simpl. rewrite Hb. specialize (H3 id). lia.
Qed.

(** ** The order of the steps *)

Definition step_rank (st : DrainStep) : Z :=
  match st_kind st with
  | safety_backup => 0
  | cordon => 1
  | manager_promote => 2
  | edge_handover => 3
  | garage_add_member => 4
  | garage_leave => 5
  | db_switchover | db_standby_switchover | db_failover | volume_copy | volume_follow | volume_restore => 6
  | drain_ => 7
  | garage_await_resync => 8
  | manager_demote => 9
  | swarm_leave => 10
  | mesh_remove => 11
  | forget_ => 12
  end.

(** A part of the plan outside the data: one rank, and nothing sent. *)
Definition weightless (st : DrainStep) : bool := bool_decide (st_volumes st = None) || bool_decide (st_destination st = None).
Definition part (r : Z) (l : list DrainStep) : Prop := Forall (fun st => step_rank st = r /\ weightless st = true) l.

Lemma weightless_0 st id : weightless st = true -> weight id st = 0.
Proof.
  unfold weightless, weight, destination_id. intros [->%bool_decide_eq_true| ->%bool_decide_eq_true]%orb_true_iff; simpl; by repeat case_decide.
Qed.

Lemma weight_plain id k suffix subject d t b : weight id (step k suffix subject None d t b) = 0.
Proof. by apply weightless_0. Qed.

Definition from (r : Z) (l : list DrainStep) : Prop :=
  StronglySorted (fun s t => step_rank s <= step_rank t) l /\ Forall (fun st => r <= step_rank st) l.

Lemma from_nil r : from r [].
Proof. split; constructor. Qed.

Lemma from_app r r' l l' : Forall (fun st => step_rank st = r) l -> from r' l' -> r <= r' -> from r (l ++ l').
Proof.
  intros Hl [Hs Hf] Hr. assert (Hle : Forall (fun st => r <= step_rank st) l') by (eapply Forall_impl; [exact Hf|]; simpl; lia).
  induction Hl as [|st l Hst Hl [IHs IHf]]; simpl; [by split|]. split; constructor; try done; [|lia]. by rewrite Hst.
Qed.

Lemma part_rank r l : part r l -> Forall (fun st => step_rank st = r) l.
Proof. intros H. eapply Forall_impl; [exact H|]. by intros ? []. Qed.

Lemma part_sent r l id : part r l -> sent_to id l = 0.
Proof. induction 1 as [|st l [_ Hb] Hl IH]; simpl; [done|]. by rewrite IH, weightless_0. Qed.

Lemma garage_parts a a' gs gr : garage_step lc input target a = (a', gs, gr) ->
  (exists added left_, gs = added ++ left_ /\ part 4 added /\ part 5 left_) /\ part 8 (of_option gr).
Proof.
  assert (H : forall b, part 4 (snd (garage_replace lc input target b))) by (intros b; unfold garage_replace; repeat case_match; repeat constructor).
  unfold garage_step. specialize (H a). destruct (garage_replace lc input target a) as [b added]. destruct (is_member target); intros [= <- <- <-].
  - split; [|repeat constructor]. exists added. eexists. split; [reflexivity|]. split; [done|repeat constructor].
  - split; [|constructor]. exists [], []. repeat constructor.
Qed.

Lemma edge_parts a a' es : edge_steps lc input target a = (a', es) -> part 3 es.
Proof.
  assert (H : forall st k, part 3 (snd st) -> part 3 (snd (edge_step lc input target st k))).
  { intros [b l] k Hp. unfold edge_step. repeat case_match; simpl in *; try done; apply Forall_app; (split; [done|repeat constructor]). }
  intros E. pose proof (H (edge_step lc input target (a, []) NODE_INGRESS) NODE_OUTLET (H (a, []) NODE_INGRESS (Forall_nil_2 _))) as Hp.
  assert (E' : edge_step lc input target (edge_step lc input target (a, []) NODE_INGRESS) NODE_OUTLET = (a', es)) by exact E.
  by rewrite E' in Hp.
Qed.

Lemma manager_parts a a' ms dm : manager_step lc input target a = (a', ms, dm) -> part 2 ms /\ part 9 (of_option dm).
Proof. unfold manager_step. repeat case_match; intros; simplify_eq; split; repeat constructor. Qed.

Lemma data_rank l : Forall data_step_ok l -> Forall (fun st => step_rank st = 6) l.
Proof. intros H. eapply Forall_impl; [exact H|]. intros st [_ Hk]. unfold step_rank, data_kind in *. by destruct (st_kind st). Qed.

Lemma plan_sent id : sent_to id (dp_steps (plan_target lc input target)) = sent_to id (a_data collected ++ a_volume collected).
Proof.
  destruct plan_shape as (a & gs & gr & es & ms & dm & Hq & Hg & (a1 & a2 & He & Hm & _) & -> & _).
  destruct (garage_parts _ _ _ _ Hg) as [(x & y & -> & Hx & Hy) Hgr]. pose proof (edge_parts _ _ _ He) as Hes.
  destruct (manager_parts _ _ _ _ Hm) as [Hms Hdm].
  rewrite (q_data _ _ Hq), (q_volume _ _ Hq), !sent_to_app.
  rewrite (part_sent 2 ms), (part_sent 3 es), (part_sent 4 x), (part_sent 5 y), (part_sent 8 (of_option gr)), (part_sent 9 (of_option dm)),
    (part_sent 0 (of_option (backup_step input target a))) by (try done; unfold backup_step; repeat case_match; repeat constructor).
  unfold last_steps. destruct (online target), (dn_meshPeer target); cbn [app sent_to foldr]; rewrite !weight_plain; lia.
Qed.

Lemma part_other r l st : part r l -> st ∈ l -> step_rank st = 6 -> r = 6.
Proof. intros H Hin Hr. eapply Forall_forall in H as [H _]; [|exact Hin]. congruence. Qed.

(** Only the loops add data steps. *)
Lemma data_steps st : st ∈ dp_steps (plan_target lc input target) -> step_rank st = 6 -> st ∈ a_data collected ++ a_volume collected.
Proof.
  destruct plan_shape as (a & gs & gr & es & ms & dm & Hq & Hg & (a1 & a2 & He & Hm & _) & -> & _).
  destruct (garage_parts _ _ _ _ Hg) as [(x & y & -> & Hx & Hy) Hgr]. pose proof (edge_parts _ _ _ He) as Hes.
  destruct (manager_parts _ _ _ _ Hm) as [Hms Hdm]. rewrite (q_data _ _ Hq), (q_volume _ _ Hq), !elem_of_app.
  intros Hin Hr. assert (Hb : part 0 (of_option (backup_step input target a))) by (unfold backup_step; repeat case_match; repeat constructor).
  assert (Hl : Forall (fun st => step_rank st <> 6) (last_steps target)) by (unfold last_steps; destruct (dn_meshPeer target); simpl; repeat first [apply Forall_nil_2 | apply Forall_cons; split; [discriminate|]]).
  assert (Hc : Forall (fun st => step_rank st <> 6) (if online target then [step cordon (dn_nodeId target) None None None none_ None] else []))
    by (destruct (online target); simpl; repeat first [apply Forall_nil_2 | apply Forall_cons; split; [discriminate|]]).
  rewrite Forall_forall in Hl, Hc.
  destruct Hin as [[Hin|[Hin|[Hin|[Hin|[[Hin|Hin]|Hin]]]]]|[Hin|[Hin|[Hin|Hin]]]]; try done.
  all: exfalso; match goal with
    | H : part ?r ?l, H' : ?s ∈ ?l, Hk : step_rank ?s = 6 |- _ => pose proof (part_other r l s H H' Hk); lia
    | H : forall x, x ∈ ?l -> _, H' : ?s ∈ ?l |- _ => by apply (H s)
    | _ => idtac
    end.
  apply list_elem_of_singleton in Hin as ->. done.
Qed.

(** ** Roles *)

Definition replaces (exclude : list string) (ok : DecomNodeInput -> bool) (d : DecomNodeInput) : Prop :=
  eligible (in_nodes input) (dn_nodeId target) exclude d /\ ok d = true /\ nodeReachability d <> nat_.

Lemma role_replaces p exclude ok d : rp_chosen (pick_role lc input target p exclude ok) = Some d -> replaces exclude ok d.
Proof using Type*. intros H. by apply (role_chosen lc) in H as (? & ? & ? & _). Qed.

(** The swarm keeps a manager, and an odd number of them or a warning. *)
Lemma manager_kept : target ∈ in_nodes input -> role_of target = Some manager -> dp_blockers (plan_target lc input target) = [] ->
  exists promoted : list DecomNodeInput,
    Forall (replaces [] (fun n => bool_decide (role_of n = Some worker))) promoted /\
    (forall d, d ∈ promoted -> step manager_promote (dn_nodeId d) None None (Some d) none_ None ∈ dp_steps (plan_target lc input target)) /\
    0 < remaining_managers input + Z.of_nat (length promoted) /\
    ((remaining_managers input + Z.of_nat (length promoted)) mod 2 = 1 \/
     W_even_managers (remaining_managers input) ∈ dp_warnings (plan_target lc input target)).
Proof using Type*.
  intros Ht Hr Hb. destruct plan_shape as (a & gs & gr & es & ms & dm & Hq & Hg & (a1 & a2 & He & Hm & Hq2) & -> & Eb & Hw).
  rewrite Eb in Hb. apply (nil_subset _ _ (q_blockers _ _ Hq2)) in Hb.
  assert (Hrem : 0 <= remaining_managers input).
  { unfold remaining_managers, managers. assert (Hin : target ∈ List.filter (fun n => bool_decide (role_of n = Some manager)) (in_nodes input))
      by (apply bfilter_elem; split; [done|by apply bool_decide_eq_true]). destruct (List.filter _ _); [by apply not_elem_of_nil in Hin|]. simpl. lia. }
  revert Hm. unfold manager_step. rewrite bool_decide_true by done. destruct (rp_chosen _) as [w|] eqn:Ew.
  - apply role_replaces in Ew. destruct ((_ =? 0) || (_ =? 0)) eqn:E; intros [= <- <- <-].
    + exists [w]. split_and!; [by constructor| | |left].
      * intros d ->%list_elem_of_singleton. rewrite !elem_of_app. set_solver.
      * simpl. lia.
      * simpl. apply orb_true_iff in E as [E|E]; b2p; [by rewrite E|]. rewrite Z.add_mod, E by lia. done.
    + exists []. b2p. simpl. rewrite !Z.add_0_r. split_and!; [constructor|by intros ? ?%not_elem_of_nil|lia|left].
      pose proof (Z.mod_pos_bound (remaining_managers input) 2). lia.
  - destruct (remaining_managers input =? 0) eqn:E0; [intros [= <- <- <-]; by apply no_blocker in Hb|].
    destruct (remaining_managers input mod 2 =? 0) eqn:E; intros Hm; injection Hm as <- <- <-; exists []; b2p; simpl; rewrite !Z.add_0_r;
      (split_and!; [constructor|by intros ? ?%not_elem_of_nil|lia|]).
    + right. apply Hw, (q_warnings _ _ Hq2). simpl. apply elem_of_app. right. left.
    + left. pose proof (Z.mod_pos_bound (remaining_managers input) 2). lia.
Qed.

Definition garage_added (d : DecomNodeInput) : DrainStep := step garage_add_member (dn_nodeId d) None None (Some d) none_ None.
Definition garage_left : DrainStep := step garage_leave (dn_nodeId target) None None None none_ None.
Definition garage_synced : DrainStep := step garage_await_resync (dn_nodeId target) None None None none_ None.

Lemma garage_outcome a a' gs gr : is_member target = true -> garage_step lc input target a = (a', gs, gr) -> a_blockers a' = [] ->
  (garage_rf input <= garage_remaining input /\ 0 < garage_remaining input /\ gs = [garage_left] \/
   exists d, replaces (map dn_nodeId (garageMembers input)) (fun _ => true) d /\ gs = [garage_added d; garage_left]) /\
  (online target = false -> 1 < garage_rf input) /\ gr = Some garage_synced.
Proof using Type*.
  intros Hm Hg Hb. unfold garage_step in Hg. rewrite Hm in Hg.
  assert (Hl : online target = false -> 1 < garage_rf input).
  { intros Ho. rewrite Ho in Hg. destruct (garage_replace _ _ _ _) as [b added]. simpl in Hg.
    destruct (Z.leb_spec (garage_rf input) 1); [|done]. injection Hg as <- <- <-. by apply no_blocker in Hb. }
  assert (Hq : a_blockers (fst (garage_replace lc input target a)) = []).
  { destruct (garage_replace _ _ _ _) as [b added]. injection Hg as <- <- <-. simpl. by case_match; [apply no_blocker in Hb|]. }
  destruct (garage_replace lc input target a) as [b added] eqn:Er. injection Hg as <- <- <-. split_and!; [|done|done].
  unfold garage_replace in Er. simpl in Hq. destruct (_ || _) eqn:E; [destruct (rp_chosen _) as [d|] eqn:Ed|]; injection Er as <- <-.
  - right. exists d. split; [by eapply role_replaces|done].
  - by apply no_blocker in Hq.
  - left. b2p. unfold garage_remaining, garage_rf in *. split_and!; [lia|lia|done].
Qed.

Lemma collected_garage : a_blockers collected = [] ->
  a_blockers (fst (fst (garage_step lc input target (after_caches lc input target)))) = [].
Proof.
  unfold collected, after_volumes. apply nil_subset.
  etransitivity; [apply g_blockers, (fold_grows _ volume_grows)|apply g_blockers, csi_grows].
Qed.

(** The object storage keeps enough members, or gets one before the share of
    the server is given up; and an only copy is not given up unread. *)
Lemma garage_kept : is_member target = true -> dp_blockers (plan_target lc input target) = [] ->
  ((garage_rf input <= garage_remaining input /\ 0 < garage_remaining input) \/
   exists d, replaces (map dn_nodeId (garageMembers input)) (fun _ => true) d /\
     before (garage_added d) garage_left (dp_steps (plan_target lc input target))) /\
  (online target = false -> 1 < garage_rf input) /\ garage_synced ∈ dp_steps (plan_target lc input target).
Proof using Type*.
  intros Hm Hb. assert (Hb0 := collected_garage (plan_runnable Hb)).
  destruct plan_shape as (a & gs & gr & es & ms & dm & Hq & Hg & _ & -> & _).
  destruct (garage_outcome _ _ _ _ Hm Hg Hb0) as (Hgs & Hl & ->). split_and!; [|done|rewrite !elem_of_app; simpl; set_solver].
  destruct Hgs as [(? & ? & _)|(d & Hd & ->)]; [by left|right]. exists d. split; [done|].
  apply before_app_l. do 4 apply before_app_r. apply before_app_l, before_head. left.
Qed.

(** A role for the outside world is kept by a peer or handed over. *)
Lemma edge_outcome a k l : let '(a', es) := edge_step lc input target (a, l) k in
  l ⊆ es /\ (has_role k target = true -> a_blockers a' = [] ->
    (exists p, p ∈ edge_peers input target k) \/
    exists d, replaces [] hasPublicIp d /\ step edge_handover k None None (Some d) seconds_ None ∈ es).
Proof using Type*.
  unfold edge_step. destruct (has_role k target); cbn [negb]; [|by split].
  destruct (edge_peers input target k) as [|p ps]; [|split; [set_solver|]; intros _ _; left; exists p; left].
  destruct (rp_chosen _) as [d|] eqn:Ed; simpl; (split; [set_solver|]); intros _ Hb; [|by apply no_blocker in Hb].
  right. exists d. split; [by eapply role_replaces|]. set_solver.
Qed.

Lemma edge_kept k : has_role k target = true -> k = NODE_INGRESS \/ k = NODE_OUTLET -> dp_blockers (plan_target lc input target) = [] ->
  (exists p, p ∈ edge_peers input target k) \/
  exists d, replaces [] hasPublicIp d /\ step edge_handover k None None (Some d) seconds_ None ∈ dp_steps (plan_target lc input target).
Proof using Type*.
  intros Hk Hor Hb. destruct plan_shape as (a & gs & gr & es & ms & dm & Hq & Hg & (a1 & a2 & He & Hm & Hq2) & -> & Eb & _).
  rewrite Eb in Hb. apply (nil_subset _ _ (q_blockers _ _ Hq2)) in Hb. apply (nil_subset _ _ (q_blockers _ _ (manager_quiet _ _ _ _ Hm))) in Hb.
  assert (E : edge_step lc input target (edge_step lc input target (collected, []) NODE_INGRESS) NODE_OUTLET = (a1, es)) by exact He.
  pose proof (edge_outcome collected NODE_INGRESS []) as H1. destruct (edge_step lc input target (collected, []) NODE_INGRESS) as [b l].
  pose proof (edge_outcome b NODE_OUTLET l) as H2. rewrite E in H2. destruct H1 as [_ H1], H2 as [Hsub H2].
  assert (Hin : forall st, st ∈ es -> st ∈ (of_option (backup_step input target a) ++
      (if online target then [step cordon (dn_nodeId target) None None None none_ None] else []) ++
      ms ++ es ++ gs ++ a_data a ++ a_volume a) ++
      [step drain_ (dn_nodeId target) None None None none_ None] ++ of_option gr ++ of_option dm ++ last_steps target)
    by (intros st Hst; rewrite !elem_of_app; tauto).
  destruct Hor as [-> | ->].
  - destruct (H1 Hk) as [?|(d & Hd & Hst)]; [|by left|right; exists d; auto].
    pose proof (edge_step_quiet (b, l) NODE_OUTLET) as Hqe. rewrite E in Hqe. by apply (nil_subset _ _ (q_blockers _ _ Hqe)) in Hb.
  - destruct (H2 Hk Hb) as [?|(d & Hd & Hst)]; [by left|right; exists d; auto].
Qed.

(** The accumulator of the loops has the blockers found at the start. *)
Lemma initial_collected : initial_blockers input target ⊆ a_blockers collected.
Proof.
  transitivity (a_blockers (after_caches lc input target)).
  - change (initial_blockers input target) with (a_blockers (start_acc input target)). apply g_blockers.
    etransitivity; [apply (fold_grows _ db_grows)|apply (fold_grows _ cache_grows)].
  - unfold collected, after_volumes. destruct (garage_step _ _ _ _) as [[a0 gs] gr] eqn:Eg. simpl.
    transitivity (a_blockers a0); [by apply (garage_quiet _ _ _ _ Eg)|].
    etransitivity; [apply g_blockers, (fold_grows _ volume_grows)|apply g_blockers, csi_grows].
Qed.

Lemma initial_none : initial_blockers input target = [] <->
  dn_hostsController target = false /\ exists n, n ∈ others input target /\ isSchedulable n = true.
Proof.
  unfold initial_blockers. rewrite app_nil. destruct (dn_hostsController target); [split; [by intros [? _]|by intros [? _]]|].
  destruct (existsb isSchedulable (others input target)) eqn:E; simpl.
  - split; [intros _|done]. split; [done|]. apply existsb_exists in E as (n & Hn & Hs). exists n. split; [by apply list_elem_of_In|done].
  - split; [by intros [_ ?]|]. intros (_ & n & Hn & Hs). apply not_true_iff_false in E. exfalso. apply E, existsb_exists.
    exists n. split; [by apply list_elem_of_In|done].
Qed.
(** ** What is promised to a disk *)

Context (Hids : NoDup (map dn_nodeId (in_nodes input))) (Hsizes : forall v b, sizeOf input v = Some b -> 0 <= b).

(** A choice, and the step that uses it. *)
Lemma kept_send p l bytes d p' st : kept p l -> pick_node lc input target p bytes [] = Some (d, p') ->
  destination_id st = Some (dn_nodeId d) -> data_kind (st_kind st) -> 0 <= default 0 bytes -> default 0 (st_volumes st ≫= total_size input) = default 0 bytes ->
  kept p' (st :: l).
Proof using Type*.
  intros [H1 H2 H3] Hp Hd Hk Hz Hb. assert (Hw := pick_within lc (in_nodes input) (dn_nodeId target) (region target) p bytes [] d p' Hids H2 Hp).
  apply (pick_some lc) in Hp as (He & _ & -> & _). split.
  - constructor; [|done]. split; [right; by exists d|done].
  - done.
  - intros id. rewrite reserve_tally. simpl. unfold weight. rewrite Hd, Hb. specialize (H3 id).
    repeat case_decide; simplify_eq; simpl; lia.
Qed.

Lemma total_nonneg vs : 0 <= default 0 (total_size input vs).
Proof using Hsizes.
  induction vs as [|v vs IH]; simpl; [done|]. destruct (sizeOf input v) as [b|] eqn:E; [|done].
  destruct (total_size input vs) as [t|]; simpl in *; [|done]. specialize (Hsizes v b E). lia.
Qed.

Lemma size_nonneg (o : option string) : 0 <= default 0 (o ≫= sizeOf input).
Proof using Hsizes. destruct o as [v|]; simpl; [|done]. destruct (sizeOf input v) as [b|] eqn:E; [by eapply Hsizes|done]. Qed.

Lemma total_one v : default 0 (total_size input [v]) = default 0 (sizeOf input v).
Proof. simpl. destruct (sizeOf input v); simpl; lia. Qed.

Lemma pushed_perm (l l' : list DrainStep) st : (l ++ [st]) ++ l' ≡ₚ st :: (l ++ l').
Proof. rewrite <- app_assoc. simpl. symmetry. apply Permutation_middle. Qed.

Lemma primary_kept cluster members m a : all_kept a -> all_kept (primary_step lc input target cluster members m a).
Proof using Type*.
  unfold all_kept. intros Ha. unfold primary_step. destruct (_ || _); [done|]. destruct (online target) eqn:Eo.
  - unfold move_online_primary. destruct (has_replica members m); [|destruct (pick_node _ _ _ _ _ _) as [[d p]|] eqn:Ep]; simpl; [..|done].
    + apply (kept_perm _ _ _ (symmetry (pushed_perm _ _ _))), kept_push; [split; [by left|done]|intros id; apply weight_plain|done].
    + apply (kept_perm _ _ _ (symmetry (pushed_perm _ _ _))). eapply kept_send; try done; [apply size_nonneg|].
      destruct (truthy_str (label m DB_DATA_VOLUME_LABEL)) as [v|]; [apply total_one|done].
  - unfold move_offline_primary. destruct (has_replica members m); [|repeat case_match]; simpl; try done.
    + apply (kept_perm _ _ _ (symmetry (pushed_perm _ _ _))), kept_push; [split; [by left|done]|intros id; apply weight_plain|done].
    + apply (kept_perm _ _ _ (symmetry (pushed_perm _ _ _))). eapply kept_send; try done; [apply size_nonneg|apply total_one].
Qed.

Lemma member_kept cluster members m a : all_kept a -> all_kept (member_step lc input target cluster members a m).
Proof using Type*.
  intros Ha. unfold member_step. destruct (runs_here _ _ _); [|done]. destruct (_ || _); [done|]. destruct (bool_decide _); [|done].
  by apply primary_kept.
Qed.

Lemma cache_kept a s : all_kept a -> all_kept (cache_step input target a s).
Proof. intros Ha. unfold cache_step. by repeat case_match. Qed.

Lemma move_volumes_kept name vols a : all_kept a -> all_kept (move_volumes lc input target name vols a).
Proof using Type*.
  unfold all_kept. intros Ha. unfold move_volumes. destruct (online target) eqn:Eo; simpl.
  - destruct (pick_node _ _ _ _ _ _) as [[d p]|] eqn:Ep; simpl; [|done]. rewrite app_assoc.
    apply (kept_perm _ _ _ (Permutation_cons_append _ _)). eapply kept_send; try done; apply total_nonneg.
  - destruct (forallb _ _); simpl; [|done]. destruct (pick_node _ _ _ _ _ _) as [[d p]|] eqn:Ep; simpl; [|done]. rewrite app_assoc.
    apply (kept_perm _ _ _ (Permutation_cons_append _ _)). eapply kept_send; try done; apply total_nonneg.
Qed.

Lemma volume_kept a entry : all_kept a -> all_kept (volume_step lc input target a entry).
Proof using Type*.
  intros Ha. unfold volume_step. destruct entry as [name mounts]. destruct (mem _ _); [done|]. destruct (_ || _); [done|].
  destruct (named_volumes mounts) as [|v vs]; [by case_match|]. destruct (List.filter _ _) as [|w ws]; [by case_match|].
  destruct (many_copies _ _); [by case_match|]. apply move_volumes_kept. by case_match.
Qed.

Lemma collected_kept : all_kept collected.
Proof using Type*.
  assert (H : all_kept (fst (fst (garage_step lc input target (after_caches lc input target))))).
  { destruct (garage_step _ _ _ _) as [[a0 gs] gr] eqn:Eg. simpl. pose proof (garage_quiet _ _ _ _ Eg) as Hq. unfold all_kept.
    rewrite (q_picker _ _ Hq), (q_data _ _ Hq), (q_volume _ _ Hq). change (all_kept (after_caches lc input target)).
    unfold after_caches. apply fold_inv; [intros; by apply cache_kept|]. apply fold_inv.
    - intros kc b _ Hb. unfold db_step. apply fold_inv; [intros; by apply member_kept|done].
    - split; simpl; [constructor|apply new_within|]. intros id. unfold tally. by rewrite lookup_empty. }
  unfold collected, after_volumes, csi_step.
  assert (H' : all_kept (foldl (volume_step lc input target) (fst (fst (garage_step lc input target (after_caches lc input target)))) here))
    by (apply fold_inv; [intros; by apply volume_kept|done]).
  case_match; [done|]. unfold all_kept in *. simpl. rewrite app_assoc. apply (kept_perm _ _ _ (Permutation_cons_append _ _)).
  apply kept_push; [split; [by left|done]|intros id; by apply weightless_0, orb_true_r|done].
Qed.

Lemma plan_sorted : from 0 (dp_steps (plan_target lc input target)).
Proof using Type*.
  destruct plan_shape as (a & gs & gr & es & ms & dm & Hq & Hg & (a1 & a2 & He & Hm & _) & -> & _).
  destruct (garage_parts _ _ _ _ Hg) as [(x & y & -> & Hx & Hy) Hgr]. pose proof (edge_parts _ _ _ He) as Hes.
  destruct (manager_parts _ _ _ _ Hm) as [Hms Hdm]. pose proof (kp_steps _ _ collected_kept) as Hd.
  rewrite (q_data _ _ Hq), (q_volume _ _ Hq). rewrite <- !app_assoc, (app_assoc (a_data collected)).
  apply (from_app 0 1); [unfold backup_step; repeat case_match; repeat constructor| |lia].
  apply (from_app 1 2); [case_match; repeat constructor| |lia].
  apply (from_app 2 3); [by apply part_rank| |lia]. apply (from_app 3 4); [by apply part_rank| |lia].
  apply (from_app 4 5); [by apply part_rank| |lia]. apply (from_app 5 6); [by apply part_rank| |lia].
  apply (from_app 6 7); [by apply data_rank| |lia]. apply (from_app 7 8); [repeat constructor| |lia].
  apply (from_app 8 9); [by apply part_rank| |lia]. apply (from_app 9 10); [by apply part_rank| |lia].
  unfold last_steps. apply (from_app 10 11); [repeat constructor| |lia].
  apply (from_app 11 12); [case_match; repeat constructor| |lia]. apply (from_app 12 13 [_] []); [repeat constructor|apply from_nil|lia].
Qed.

End planner_facts.

Definition find_target (input : DecommissionInput) : option DecomNodeInput :=
  List.find (fun n => String.eqb (dn_nodeId n) (in_targetNodeId input)) (in_nodes input).

(** A plan that can run is one for a server that is enrolled and in the swarm. *)
Lemma runnable_target lc input : dp_runnable (planDecommission lc input) = true ->
  exists target, find_target input = Some target /\ target ∈ in_nodes input /\
    (online target = true -> is_Some (dn_swarm target)) /\
    planDecommission lc input = plan_target lc input target /\ dp_blockers (plan_target lc input target) = [].
Proof.
  unfold planDecommission. fold (find_target input). destruct (find_target input) as [target|] eqn:Et; [|done].
  destruct (negb _ && dn_online target) eqn:E; [done|]. intros Hr. exists target. split_and!; [done| | |done|].
  - apply find_some in Et as [Hin _]. by apply list_elem_of_In.
  - intros Ho. unfold online in Ho. rewrite Ho, andb_true_r in E. by apply negb_false_iff, bool_decide_eq_true in E.
  - revert Hr. unfold plan_target. destruct (garage_step _ _ _ _) as [[? ?] ?], (edge_steps _ _ _ _), (manager_step _ _ _ _) as [[? ?] ?].
    simpl. rewrite bool_decide_eq_true. apply length_zero_iff_nil.
Qed.


(** C32: The moves fit.  Server names and sizes being what they are, the data
    steps of a plan go to working servers other than the one retired, those of a
    reachable server never restore and those of a lost one never copy; and the
    volumes that all steps together send to a server, those of each step whose
    sizes are all known, never take its disk past 85%. *)
Theorem decommission_fits lc `{!Comparator lc} input target :
  NoDup (map dn_nodeId (in_nodes input)) -> (forall v b, sizeOf input v = Some b -> 0 <= b) ->
  let steps := dp_steps (plan_target lc input target) in
  (forall st, st ∈ steps -> step_rank st = 6 -> data_step_ok input target st) /\
  (forall n used total, n ∈ in_nodes input -> dn_disk n = Some (used, total) -> 0 < total ->
     sent_to input (dn_nodeId n) steps <= 0 \/
     100 * (used + sent_to input (dn_nodeId n) steps) <= DESTINATION_MAX_USED_PCT * total).
Proof.
  intros Hids Hsz steps. destruct (collected_kept lc input target Hids Hsz) as [Hok Hw Hs]. split.
  - intros st Hin Hr. rewrite Forall_forall in Hok. by apply Hok, data_steps.
  - intros n used total Hn Hd Ht. unfold steps. rewrite plan_sent. specialize (Hs (dn_nodeId n)).
    destruct (Hw n used total Hn Hd Ht) as [Hz|Hle]; [left; lia|right; lia].
Qed.

(** The order is safe.  Backups come first, then new work is stopped; roles
    are handed over before data moves; data moves before the server drains, the
    storage has re-synced before it stops being a manager, and it leaves the
    swarm, then the mesh, and is forgotten last. *)
Theorem decommission_order lc `{!Comparator lc} input target :
  NoDup (map dn_nodeId (in_nodes input)) -> (forall v b, sizeOf input v = Some b -> 0 <= b) ->
  StronglySorted (fun s t => step_rank s <= step_rank t) (dp_steps (plan_target lc input target)) /\
  exists before_ after_, dp_steps (plan_target lc input target) =
    before_ ++ drain_step target :: after_ ++ [step forget_ (dn_nodeId target) None None None none_ None] /\
    step swarm_leave (dn_nodeId target) None None None none_ None ∈ after_.
Proof.
  intros Hids Hsz. split; [by apply plan_sorted|].
  destruct (plan_shape lc input target) as (a & gs & gr & es & ms & dm & _ & _ & _ & -> & _).
  eexists; exists (of_option gr ++ of_option dm ++ [step swarm_leave (dn_nodeId target) None None None none_ None] ++
    (if dn_meshPeer target then [step mesh_remove (dn_nodeId target) None None None none_ None] else [])).
  split; [|rewrite !elem_of_app; set_solver]. unfold last_steps. simpl. f_equal. f_equal. rewrite <- !app_assoc. by destruct (dn_meshPeer target).
Qed.

(** Roles survive.  When a plan that can run retires a manager, the swarm
    keeps at least one and an odd number, or the operator is warned; a storage
    member leaves only if enough members stay or another joined before, is
    waited for until the copies are complete, and is not written off as the
    only copy; an edge or outlet role stays with a working peer or goes to a
    server with a public address.  Every replacement is a working server, and
    never one behind NAT. *)
Theorem decommission_roles lc `{!Comparator lc} input :
  dp_runnable (planDecommission lc input) = true ->
  exists target, find_target input = Some target /\
  let p := planDecommission lc input in
  (role_of target = Some manager ->
    exists promoted, Forall (replaces input target [] (fun n => bool_decide (role_of n = Some worker))) promoted /\
      (forall d, d ∈ promoted -> step manager_promote (dn_nodeId d) None None (Some d) none_ None ∈ dp_steps p) /\
      0 < remaining_managers input + Z.of_nat (length promoted) /\
      ((remaining_managers input + Z.of_nat (length promoted)) mod 2 = 1 \/
       W_even_managers (remaining_managers input) ∈ dp_warnings p)) /\
  (is_member target = true ->
    ((garage_rf input <= garage_remaining input /\ 0 < garage_remaining input) \/
     exists d, replaces input target (map dn_nodeId (garageMembers input)) (fun _ => true) d /\
       before (garage_added d) (garage_left target) (dp_steps p)) /\
    (online target = false -> 1 < garage_rf input) /\ garage_synced target ∈ dp_steps p) /\
  (forall k, has_role k target = true -> k = NODE_INGRESS \/ k = NODE_OUTLET ->
    (exists peer, peer ∈ edge_peers input target k) \/
    exists d, replaces input target [] hasPublicIp d /\ step edge_handover k None None (Some d) seconds_ None ∈ dp_steps p).
Proof.
  intros (target & Hf & Hin & _ & Hp & Hb)%runnable_target. exists target. split; [done|]. rewrite Hp. split_and!.
  - intros Hr. by apply manager_kept.
  - intros Hm. by apply garage_kept.
  - intros k Hk Hor. by apply edge_kept.
Qed.

(** * A small cluster *)

Definition ex_node (id : string) (role : SwarmRole) (labels : labels_t) (disk : option (Z * Z)) : DecomNodeInput :=
  {| dn_nodeId := id; dn_hostname := id +:+ ".example"; dn_online := true;
     dn_swarm := Some {| sn_swarmNodeId := "s-" +:+ id; sn_role := role; sn_availability := "active"; sn_status := "ready";
                         sn_addr := None; sn_labels := labels |};
     dn_hostsController := false; dn_disk := disk; dn_meshPeer := true |}.

Definition ex_old : DecomNodeInput :=
  ex_node "a" manager [(NODE_INGRESS, "true"); (GARAGE_MEMBER_NODE_LABEL, "true")] (Some (50, 100)).

(** [b] is behind NAT with the most room; [c] is public. *)
Definition ex_input : DecommissionInput :=
  {| in_targetNodeId := "a";
     in_nodes := [ex_old; ex_node "b" worker [(NODE_REACHABILITY, "nat")] (Some (0, 1000));
                  ex_node "c" worker [(NODE_PUBLIC_IP, "203.0.113.7")] (Some (20, 100))];
     in_services :=
       [ {| ds_name := "shop_files"; ds_mode := replicated; ds_desiredReplicas := Some 1; ds_labels := [] |};
         {| ds_name := "shop_db"; ds_mode := replicated; ds_desiredReplicas := Some 1;
            ds_labels := [(DB_CLUSTER, "main"); (DB_ROLE, "primary"); (DB_DATA_VOLUME_LABEL, "pg"); (DB_PIN_NODE_LABEL, "s-a")] |} ];
     in_containers :=
       [ {| dc_serviceName := Some "shop_files"; dc_labels := None;
            dc_mounts := Some [ {| mt_type := Some "volume"; mt_source := Some "files" |} ] |} ];
     in_volumes := Some [ {| dv_name := "files"; dv_driver := Some "local"; dv_sizeBytes := Some 40 |};
                          {| dv_name := "pg"; dv_driver := None; dv_sizeBytes := Some 800 |} ];
     in_lastBackupAt := Some [("files", 0)]; in_backupsConfigured := true; in_garageReplicationFactor := Some 1; in_now := 100 |}.

Example ex_steps : map (fun st => (st_id st, destination_id st)) (dp_steps (planDecommission str_cmp ex_input)) =
  [("safety-backup", None); ("cordon:a", None); ("manager-promote:c", Some "c"); ("edge-handover:swarmy.node.ingress", Some "c");
   ("garage-add-member:c", Some "c"); ("garage-leave:a", None); ("db-standby-switchover:shop_db", Some "b");
   ("volume-copy:shop_files", Some "c"); ("drain:a", None); ("garage-await-resync:a", None); ("manager-demote:a", None);
   ("swarm-leave:a", None); ("mesh-remove:a", None); ("forget:a", None)].
Proof. vm_compute. reflexivity. Qed.

(** Two services that share a volume are sent to two servers, a copy each. *)
Definition ex_shared : DecommissionInput :=
  {| in_targetNodeId := "a"; in_nodes := [ex_node "a" worker [] None; ex_node "b" worker [] None; ex_node "c" manager [] None];
     in_services := map (fun n => {| ds_name := n; ds_mode := replicated; ds_desiredReplicas := Some 1; ds_labels := [] |}) ["web"; "jobs"];
     in_containers := map (fun n => {| dc_serviceName := Some n; dc_labels := None;
       dc_mounts := Some [ {| mt_type := Some "volume"; mt_source := Some "uploads" |} ] |}) ["web"; "jobs"];
     in_volumes := None; in_lastBackupAt := None; in_backupsConfigured := false; in_garageReplicationFactor := None; in_now := 0 |}.

Lemma shared_volume_splits :
  map (fun st => (st_id st, st_volumes st, destination_id st))
    (List.filter (fun st => bool_decide (st_kind st = volume_copy)) (dp_steps (planDecommission str_cmp ex_shared))) =
  [("volume-copy:web", Some ["uploads"], Some "b"); ("volume-copy:jobs", Some ["uploads"], Some "c")].
Proof. vm_compute. reflexivity. Qed.


Lemma ex_ids : NoDup (map dn_nodeId (in_nodes ex_input)).
Proof. apply (bool_decide_unpack _). vm_compute. exact I. Qed.

Lemma ex_sizes v b : sizeOf ex_input v = Some b -> 0 <= b.
Proof.
  unfold sizeOf, volumeInfo. destruct (by_key _ _ v) as [i|] eqn:E; [|done]. apply by_key_some in E as [Hi _]. simpl in *.
  intros Hb. repeat (apply elem_of_cons in Hi as [->|Hi]; [by injection Hb as <-|]). by apply not_elem_of_nil in Hi.
Qed.

Lemma decommission_fits_witness : sent_to ex_input "b" (dp_steps (plan_target str_cmp ex_input ex_old)) <= 0 \/
  100 * (0 + sent_to ex_input "b" (dp_steps (plan_target str_cmp ex_input ex_old))) <= DESTINATION_MAX_USED_PCT * 1000.
Proof.
  apply (proj2 (decommission_fits str_cmp ex_input ex_old ex_ids ex_sizes) (ex_node "b" worker [(NODE_REACHABILITY, "nat")] (Some (0, 1000))) 0 1000);
    [right; left|reflexivity|reflexivity].
Defined.

Lemma decommission_order_witness :
  StronglySorted (fun s t => step_rank s <= step_rank t) (dp_steps (plan_target str_cmp ex_input ex_old)).
Proof. exact (proj1 (decommission_order str_cmp ex_input ex_old ex_ids ex_sizes)). Defined.

Lemma decommission_roles_witness : exists d, replaces ex_input ex_old [] hasPublicIp d /\
  step edge_handover NODE_INGRESS None None (Some d) seconds_ None ∈ dp_steps (planDecommission str_cmp ex_input).
Proof.
  destruct (decommission_roles str_cmp ex_input) as (t & Hf & _ & _ & H); [vm_compute; reflexivity|].
  vm_compute in Hf. injection Hf as <-. destruct (H NODE_INGRESS) as [[p Hp]|Hd]; [vm_compute; reflexivity|left; reflexivity| |exact Hd].
  vm_compute in Hp. by apply not_elem_of_nil in Hp.
Defined.
