(* ===== verification/ServiceSpec.v ===== *)
(** The specification of a Swarm service (packages/core/src/protocol/commands.ts)
    and its way to Docker (packages/core/src/docker.ts): the body of the create
    call, the update that keeps what a specification does not express, and the
    references it resolves.

    A payload is what JSON.parse makes of a body: [undefined] fields are not sent,
    so [obj] drops them.  A JavaScript object used as a map is the list of its
    entries in the order they were added; [own_order] is the order it lists them. *)

From S2P Require Import Prelude Comparators Json JsonText Doubles NetPolicy.

(** * Payloads *)

Inductive payload : Type :=
  | PNull
  | PBool (b : bool)
  | PNum (n : number)
  | PStr (s : string)
  | PArr (l : list payload)
  | PObj (m : list (string * payload)).

(** The fields of an object literal that are not [undefined]. *)
Fixpoint fields {A} (l : list (string * option A)) : list (string * A) :=
  match l with
  | [] => []
  | (k, Some v) :: l' => (k, v) :: fields l'
  | (_, None) :: l' => fields l'
  end.

Definition obj (l : list (string * option payload)) : payload := PObj (fields l).

Definition strs (l : list string) : payload := PArr (map PStr l).

(** * Specifications *)

Inductive Protocol := tcp | udp.
Inductive PublishMode := ingress | host.
Inductive MountType := volume | bind | tmpfs.
Inductive Condition := on_none | on_failure | on_any.
Inductive Order := stop_first | start_first.
Inductive FailureAction := f_pause | f_continue | f_rollback.

Definition protocol_str (p : Protocol) : string := match p with tcp => "tcp" | udp => "udp" end.
Definition publish_str (p : PublishMode) : string := match p with ingress => "ingress" | host => "host" end.
Definition mount_str (t : MountType) : string := match t with volume => "volume" | bind => "bind" | tmpfs => "tmpfs" end.
Definition condition_str (c : Condition) : string :=
  match c with on_none => "none" | on_failure => "on-failure" | on_any => "any" end.
Definition order_str (o : Order) : string := match o with stop_first => "stop-first" | start_first => "start-first" end.
Definition action_str (a : FailureAction) : string :=
  match a with f_pause => "pause" | f_continue => "continue" | f_rollback => "rollback" end.

Record Mode := { md_replicated : option number; md_global : bool }.
Record Port := { pt_target : number; pt_published : option number; pt_protocol : Protocol; pt_mode : PublishMode }.
Record Mount := { mt_type : MountType; mt_source : option string; mt_target : string; mt_readOnly : option bool }.
Record RegistryAuth := { ra_username : string; ra_password : string; ra_server : option string }.
Record RestartPolicy := {
  rp_condition : option Condition; rp_maxAttempts : option number; rp_delayNs : option number
}.
Record UpdateConfig := {
  uc_parallelism : option number; uc_order : option Order; uc_failureAction : option FailureAction;
  uc_monitorNs : option number; uc_delayNs : option number
}.
Record Placement := {
  pl_constraints : option (list string); pl_preferences : option (list string); pl_maxReplicasPerNode : option number
}.
Record Healthcheck := {
  hc_test : option (list string); hc_intervalNs : option number; hc_timeoutNs : option number;
  hc_startPeriodNs : option number; hc_retries : option number; hc_disable : option bool
}.
Record Bucket := { bk_cpus : option number; bk_memoryBytes : option number }.
Record Resources := { rs_limits : option Bucket; rs_reservations : option Bucket }.
Record Ref := {
  rf_source : string; rf_target : option string; rf_uid : option string; rf_gid : option string; rf_mode : option number
}.
Record Logging := { lg_driver : string; lg_options : option (list (string * string)) }.

Record ServiceSpec := {
  ss_name : string; ss_image : string; ss_mode : option Mode; ss_env : option (list (string * string));
  ss_command : option (list string); ss_args : option (list string);
  ss_labels : option (list (string * string)); ss_ports : option (list Port); ss_mounts : option (list Mount);
  ss_networks : option (list string); ss_networkAliases : option (list (string * list string));
  ss_registryAuth : option RegistryAuth; ss_restartPolicy : option RestartPolicy;
  ss_updateConfig : option UpdateConfig; ss_placement : option Placement; ss_healthcheck : option Healthcheck;
  ss_resources : option Resources; ss_configs : option (list Ref); ss_secrets : option (list Ref);
  ss_secretEnv : option (list string); ss_secretEnvFileFallback : option (list string);
  ss_stopGracePeriodNs : option number; ss_logging : option Logging
}.

(** [{ ...spec, <field>: v }]: the record rebuilt from its fields, with one of the
    projections replaced. *)
Definition spec_eta (s : ServiceSpec) : ServiceSpec :=
  {| ss_name := ss_name s; ss_image := ss_image s; ss_mode := ss_mode s; ss_env := ss_env s; ss_command := ss_command s;
     ss_args := ss_args s; ss_labels := ss_labels s; ss_ports := ss_ports s; ss_mounts := ss_mounts s;
     ss_networks := ss_networks s; ss_networkAliases := ss_networkAliases s;
     ss_registryAuth := ss_registryAuth s; ss_restartPolicy := ss_restartPolicy s;
     ss_updateConfig := ss_updateConfig s; ss_placement := ss_placement s; ss_healthcheck := ss_healthcheck s;
     ss_resources := ss_resources s; ss_configs := ss_configs s; ss_secrets := ss_secrets s;
     ss_secretEnv := ss_secretEnv s; ss_secretEnvFileFallback := ss_secretEnvFileFallback s;
     ss_stopGracePeriodNs := ss_stopGracePeriodNs s; ss_logging := ss_logging s |}.

Ltac update proj v :=
  let t := eval cbv beta delta [spec_eta] in spec_eta in
  match eval pattern proj in t with
  | ?g _ => let r := eval cbv beta in (g (fun _ => v)) in exact r
  end.

Definition set_name (v : string) : ServiceSpec -> ServiceSpec := ltac:(update ss_name v).
Definition set_image (v : string) : ServiceSpec -> ServiceSpec := ltac:(update ss_image v).
Definition set_mode (v : option Mode) : ServiceSpec -> ServiceSpec := ltac:(update ss_mode v).
Definition set_env (v : option (list (string * string))) : ServiceSpec -> ServiceSpec := ltac:(update ss_env v).
Definition set_command (v : option (list string)) : ServiceSpec -> ServiceSpec := ltac:(update ss_command v).
Definition set_args (v : option (list string)) : ServiceSpec -> ServiceSpec := ltac:(update ss_args v).
Definition set_labels (v : option (list (string * string))) : ServiceSpec -> ServiceSpec := ltac:(update ss_labels v).
Definition set_ports (v : option (list Port)) : ServiceSpec -> ServiceSpec := ltac:(update ss_ports v).
Definition set_networks (v : option (list string)) : ServiceSpec -> ServiceSpec := ltac:(update ss_networks v).
Definition set_networkAliases (v : option (list (string * list string))) : ServiceSpec -> ServiceSpec := ltac:(update ss_networkAliases v).
Definition set_updateConfig (v : option UpdateConfig) : ServiceSpec -> ServiceSpec := ltac:(update ss_updateConfig v).
Definition set_placement (v : option Placement) : ServiceSpec -> ServiceSpec := ltac:(update ss_placement v).
Definition set_configs (v : option (list Ref)) : ServiceSpec -> ServiceSpec := ltac:(update ss_configs v).
Definition set_secrets (v : option (list Ref)) : ServiceSpec -> ServiceSpec := ltac:(update ss_secrets v).
Definition set_secretEnv (v : option (list string)) : ServiceSpec -> ServiceSpec := ltac:(update ss_secretEnv v).
Definition set_secretEnvFileFallback (v : option (list string)) : ServiceSpec -> ServiceSpec := ltac:(update ss_secretEnvFileFallback v).
Definition set_restartPolicy (v : option RestartPolicy) : ServiceSpec -> ServiceSpec := ltac:(update ss_restartPolicy v).
Definition set_healthcheck (v : option Healthcheck) : ServiceSpec -> ServiceSpec := ltac:(update ss_healthcheck v).

(** [delete m[k]] *)
Definition obj_del {A} (k : string) (m : list (string * A)) : list (string * A) :=
  List.filter (fun kv => negb (String.eqb (fst kv) k)) m.

(** An object property that is set only when there is something in it. *)
Definition nonempty_list {A} (l : list A) : option (list A) := match l with [] => None | _ => Some l end.

(** * The body of a create call: toServiceCreateOptions *)

Definition map_payload (m : list (string * string)) : payload := PObj (map (fun kv => (fst kv, PStr (snd kv))) (own_order m)).

Record LogDriver := { ld_Name : string; ld_Options : list (string * string) }.

Definition DEFAULT_LOG_DRIVER : LogDriver :=
  {| ld_Name := "json-file"; ld_Options := [("max-size", "10m"); ("max-file", "3")] |}.

Definition logDriverFor (s : ServiceSpec) : LogDriver :=
  match ss_logging s with
  | None => DEFAULT_LOG_DRIVER
  | Some l => {| ld_Name := lg_driver l; ld_Options := default [] (lg_options l) |}
  end.

Definition log_body (l : LogDriver) : payload := PObj [("Name", PStr (ld_Name l)); ("Options", map_payload (ld_Options l))].

Definition env_entry (kv : string * string) : string := fst kv +:+ "=" +:+ snd kv.

Definition mode_body (m : option Mode) : payload :=
  if default false (md_global <$> m) then PObj [("Global", PObj [])]
  else PObj [("Replicated", PObj [("Replicas", PNum (default (num 1) (m ≫= md_replicated)))])].

Definition mount_body (m : Mount) : payload :=
  obj [("Type", Some (PStr (mount_str (mt_type m)))); ("Source", PStr <$> mt_source m); ("Target", Some (PStr (mt_target m)));
       ("ReadOnly", PBool <$> mt_readOnly m)].

Definition healthcheck_body (h : Healthcheck) : payload :=
  if default false (hc_disable h) then PObj [("Test", strs ["NONE"])]
  else obj [("Test", strs <$> hc_test h); ("Interval", PNum <$> hc_intervalNs h); ("Timeout", PNum <$> hc_timeoutNs h);
            ("StartPeriod", PNum <$> hc_startPeriodNs h); ("Retries", PNum <$> hc_retries h)].

Definition ref_target (r : Ref) : string := default (rf_source r) (rf_target r).

Definition refFile (r : Ref) : payload :=
  PObj [("Name", PStr (ref_target r)); ("UID", PStr (default "0" (rf_uid r))); ("GID", PStr (default "0" (rf_gid r)));
        ("Mode", PNum (default (num 292) (rf_mode r)))].

Definition ref_body (key : string) (r : Ref) : list (string * payload) := [(key, PStr (rf_source r)); ("File", refFile r)].

(** The references of a body: those of the specification, or those with their ids
    filled in. *)
Definition refs (key : string) (l : list Ref) : payload := PArr (map (fun r => PObj (ref_body key r)) l).

Definition container_body (s : ServiceSpec) (configs secrets : option payload) : payload :=
  obj [("Image", Some (PStr (ss_image s))); ("Command", strs <$> ss_command s); ("Args", strs <$> ss_args s);
       ("Env", (fun m => strs (map env_entry (own_order m))) <$> ss_env s);
       ("Mounts", (fun l => PArr (map mount_body l)) <$> ss_mounts s);
       ("Healthcheck", healthcheck_body <$> ss_healthcheck s); ("StopGracePeriod", PNum <$> ss_stopGracePeriodNs s);
       ("Configs", configs); ("Secrets", secrets)].

Definition restart_body (r : RestartPolicy) : payload :=
  obj [("Condition", (fun c => PStr (condition_str c)) <$> rp_condition r); ("MaxAttempts", PNum <$> rp_maxAttempts r);
       ("Delay", PNum <$> rp_delayNs r)].

Definition bucket_body (b : Bucket) : payload :=
  obj [("NanoCPUs", (fun c => PNum (toNanoCpus c)) <$> bk_cpus b); ("MemoryBytes", PNum <$> bk_memoryBytes b)].

Definition resources_body (r : Resources) : payload :=
  obj [("Limits", bucket_body <$> rs_limits r); ("Reservations", bucket_body <$> rs_reservations r)].

(** What follows the first [=], the whole without one. *)
Fixpoint after_eq (s : string) : option string :=
  match s with
  | EmptyString => None
  | String c s' => if Ascii.eqb c "=" then Some s' else after_eq s'
  end.

Definition descriptor (p : string) : string := default p (after_eq p).

Definition spread_body (p : string) : payload := PObj [("Spread", PObj [("SpreadDescriptor", PStr (descriptor p))])].

Definition placement_body (p : Placement) : payload :=
  obj [("Constraints", strs <$> pl_constraints p); ("Preferences", (fun l => PArr (map spread_body l)) <$> pl_preferences p);
       ("MaxReplicas", PNum <$> pl_maxReplicasPerNode p)].

(** An element of [TaskTemplate.Networks]. *)
Record Attachment := { at_Target : option string; at_Aliases : option (list string) }.

Definition attach (aliases : option (list (string * list string))) (n : string) : Attachment :=
  {| at_Target := Some n; at_Aliases := (aliases ≫= (fun m => get n m)) ≫= nonempty_list |}.

Definition attachment_body (a : Attachment) : payload :=
  obj [("Target", PStr <$> at_Target a); ("Aliases", strs <$> at_Aliases a)].

Definition task_networks (s : ServiceSpec) : option (list Attachment) := map (attach (ss_networkAliases s)) <$> ss_networks s.

Definition task_body (s : ServiceSpec) (container : payload) (networks : option (list Attachment)) (log : LogDriver) : payload :=
  obj [("ContainerSpec", Some container); ("RestartPolicy", restart_body <$> ss_restartPolicy s);
       ("Resources", resources_body <$> ss_resources s); ("Placement", placement_body <$> ss_placement s);
       ("Networks", (fun l => PArr (map attachment_body l)) <$> networks); ("LogDriver", Some (log_body log))].

Definition update_body (u : UpdateConfig) : payload :=
  obj [("Parallelism", PNum <$> uc_parallelism u); ("Order", (fun o => PStr (order_str o)) <$> uc_order u);
       ("FailureAction", (fun a => PStr (action_str a)) <$> uc_failureAction u); ("Monitor", PNum <$> uc_monitorNs u);
       ("Delay", PNum <$> uc_delayNs u)].

Definition port_body (p : Port) : payload :=
  obj [("TargetPort", Some (PNum (pt_target p))); ("PublishedPort", PNum <$> pt_published p);
       ("Protocol", Some (PStr (protocol_str (pt_protocol p)))); ("PublishMode", Some (PStr (publish_str (pt_mode p))))].

Definition service_body (s : ServiceSpec) (task : payload) : payload :=
  obj [("Name", Some (PStr (ss_name s))); ("Labels", map_payload <$> ss_labels s); ("TaskTemplate", Some task);
       ("Mode", Some (mode_body (ss_mode s))); ("UpdateConfig", update_body <$> ss_updateConfig s);
       ("EndpointSpec", (fun l => PObj [("Ports", PArr (map port_body l))]) <$> ss_ports s)].

Definition toServiceCreateOptions (s : ServiceSpec) : payload :=
  service_body s (task_body s
    (container_body s (refs "ConfigName" <$> ss_configs s) (refs "SecretName" <$> ss_secrets s))
    (task_networks s) (logDriverFor s)).

(** * What the agent resolves and carries *)

(** [carryNetworkAliases]: without aliases of its own a specification keeps those
    the live service has on the same network. *)
Definition live_aliases (live : list Attachment) (target : string) : option (list string) :=
  foldl (fun o a => match at_Target a, at_Aliases a ≫= nonempty_list with
                    | Some t, Some l => if nonempty t && String.eqb t target then Some l else o
                    | _, _ => o
                    end) None live.

Definition no_aliases (a : Attachment) : bool := match at_Aliases a ≫= nonempty_list with None => true | _ => false end.

Definition carry_alias (live : list Attachment) (a : Attachment) : Attachment :=
  match truthy_str (at_Target a) ≫= live_aliases live with
  | Some l => if no_aliases a then {| at_Target := at_Target a; at_Aliases := Some l |} else a
  | None => a
  end.

Definition carryNetworkAliases (nets : option (list Attachment)) (s : ServiceSpec) (live : option (list Attachment))
    : option (list Attachment) :=
  match ss_networkAliases s, live with
  | None, Some (a :: l) => map (carry_alias (a :: l)) <$> nets
  | _, _ => nets
  end.

(** [dropAliasesOnTargets] *)
Definition drop_alias (targets : list string) (a : Attachment) : Attachment :=
  match truthy_str (at_Target a) with
  | Some t => if mem t targets then {| at_Target := at_Target a; at_Aliases := None |} else a
  | None => a
  end.

Definition dropAliasesOnTargets (nets : option (list Attachment)) (targets : list string) : option (list Attachment) :=
  map (drop_alias targets) <$> nets.

(** [carryLogDriver] *)
Definition carryLogDriver (log : LogDriver) (s : ServiceSpec) (live : option LogDriver) : LogDriver :=
  match ss_logging s, live with
  | None, Some l => if nonempty (ld_Name l) then l else log
  | _, _ => log
  end.

(** [stripPlatformAliases] of a specification *)
Definition strip_aliases (s : ServiceSpec) : ServiceSpec :=
  match ss_networkAliases s with
  | None => s
  | Some m => set_networkAliases (Some (List.filter (fun kv => negb (isPlatformNetwork (fst kv))) (own_order m))) s
  end.

(** A Docker object of a list: name and id. *)
Record Named := { nm_name : string; nm_id : string }.

(** [new Map(xs.map((x) => [x.name, x.id])).get(name)] *)
Definition id_of (l : list Named) (name : string) : option string :=
  foldl (fun o x => if String.eqb (nm_name x) name then Some (nm_id x) else o) None l.

(** [resolveSpecNetworks]: [None] when the networks could not be listed. *)
Definition resolveSpecNetworks (listed : option (list Named)) (input : ServiceSpec) : ServiceSpec :=
  let s := strip_aliases input in
  match ss_networks s ≫= nonempty_list, listed with
  | Some ns, Some l =>
      let known := List.filter (fun x => nonempty (nm_name x) && nonempty (nm_id x)) l in
      let resolve n := default n (id_of known n) in
      let s := set_networks (Some (map resolve ns)) s in
      match ss_networkAliases s with
      | Some m => set_networkAliases (Some (from_entries (map (fun kv => (resolve (fst kv), snd kv)) (own_order m)))) s
      | None => s
      end
  | _, _ => s
  end.

(** [resolveSecretConfigIds]: a reference by name gets the id of the object. *)
Definition resolve_ref (what key id_key : string) (l : list Named) (r : Ref) : res payload :=
  if nonempty (rf_source r) then
    match truthy_str (id_of l (rf_source r)) with
    | Some id => Ok (PObj (ref_body key r ++ [(id_key, PStr id)]))
    | None => Err (what +:+ " not found: " +:+ rf_source r)
    end
  else Ok (PObj (ref_body key r)).

Definition resolve_refs (what key id_key : string) (l : list Named) (rs : option (list Ref)) : res (option payload) :=
  match rs with
  | None => Ok None
  | Some rs => let! ps := res_map (resolve_ref what key id_key l) rs in Ok (Some (PArr ps))
  end.

(** What the daemon lists, and the service being updated. *)
Record Swarm := {
  sw_networks : option (list Named); sw_secrets : list Named; sw_configs : list Named; sw_platform : list string
}.

(** [prepareServiceOptions]: the resolved specification and the bodies of its
    references. *)
Definition prepareServiceOptions (sw : Swarm) (input : ServiceSpec) : res (ServiceSpec * payload) :=
  let s := resolveSpecNetworks (sw_networks sw) input in
  let! secrets := resolve_refs "secret" "SecretName" "SecretID" (sw_secrets sw) (ss_secrets s) in
  let! configs := resolve_refs "config" "ConfigName" "ConfigID" (sw_configs sw) (ss_configs s) in
  Ok (s, container_body s configs secrets).

(** The create call of [deployOrUpdate], and its update of a live service. *)
Definition create_body (sw : Swarm) (input : ServiceSpec) : res payload :=
  let! (s, container) := prepareServiceOptions sw input in
  Ok (service_body s (task_body s container (task_networks s) (logDriverFor s))).

Record LiveTask := { lt_networks : option (list Attachment); lt_log : option LogDriver }.

Definition update_call (sw : Swarm) (live : LiveTask) (input : ServiceSpec) : res payload :=
  let! (s, container) := prepareServiceOptions sw input in
  let nets := dropAliasesOnTargets (carryNetworkAliases (task_networks s) input (lt_networks live)) (sw_platform sw) in
  Ok (service_body s (task_body s container nets (carryLogDriver (logDriverFor s) input (lt_log live)))).
