(* ===== verification/SecretEnv.v ===== *)
(** Secret variables delivered as environment (packages/core/src/app-secrets.ts,
    apps/agent/src/handlers/secret-env.ts): the wrap that runs a service through
    the shim, its inverse on a specification read back, the fallback to files for
    images without a shell, and what the agent makes of them at deploy time.

    The values never appear: a specification carries the names of variables and of
    the Docker secrets that hold them. *)

From S2P Require Import Prelude Comparators Json JsonText KvCodec Doubles NetPolicy ServiceSpec.

Definition SECRET_ENV_VAR : string := "SWARMY_SECRET_ENV".
Definition SECRET_ENV_SHIM_PATH : string := "/run/swarmy/secret-env.sh".
Definition SECRET_ENV_SHIM_CONFIG : string := "swarmy_secret-env-shim_v1".
Definition SECRET_ENV_ARGV_LABEL : string := "swarmy.secretenv.argv".
Definition SECRET_ENV_FILE_LABEL : string := "swarmy.secretenv.file".
Definition SECRETS_DIR : string := "/run/secrets".

(** [ENV_NAME_RE] *)
Definition isEnvName (name : string) : bool :=
  next_is (fun c => is_alpha c || Ascii.eqb c "_") name && all_chars is_word name.

Definition file_var (name : string) : string := name +:+ "_FILE".
Definition secret_path (name : string) : string := SECRETS_DIR +:+ "/" +:+ name.

Definition env_of (s : ServiceSpec) : list (string * string) := default [] (ss_env s).
Definition labels_of (s : ServiceSpec) : list (string * string) := default [] (ss_labels s).

(** * The fallback to files *)

(** [delete env[n]] for each of the names. *)
Definition drop_names (names : list string) (env : list (string * string)) : list (string * string) :=
  foldl (fun env n => obj_del n env) env names.

Definition point_to_file (env : list (string * string)) (n : string) : list (string * string) :=
  obj_set (file_var n) (secret_path n) (obj_del n env).

Definition applySecretEnvFileFallback (s : ServiceSpec) : ServiceSpec * list string :=
  let allowed := default [] (ss_secretEnvFileFallback s) in
  let names := js_uniq (default [] (ss_secretEnv s)) in
  let fallback := List.filter (fun n => mem n allowed) names in
  let unresolved := List.filter (fun n => negb (mem n allowed)) names in
  let rest := set_secretEnvFileFallback None s in
  match fallback with
  | [] => (rest, unresolved)
  | _ =>
      (set_secretEnv (nonempty_list unresolved)
         (set_labels (Some (obj_set SECRET_ENV_FILE_LABEL (join "," fallback) (labels_of s)))
            (set_env (Some (foldl point_to_file (env_of s) fallback)) rest)), unresolved)
  end.

Definition secretEnvFileNames (labels : option (list (string * string))) : list string :=
  List.filter isEnvName (split_at comma (default "" (labels ≫= (fun m => get SECRET_ENV_FILE_LABEL m)))).

(** [if (env[`${n}_FILE`] === `/run/secrets/${n}`) delete env[`${n}_FILE`]] *)
Definition drop_pointer (env : list (string * string)) (n : string) : list (string * string) :=
  if bool_decide (get (file_var n) env = Some (secret_path n)) then obj_del (file_var n) env else env.

Definition unwrapSecretEnvFileFallback (s : ServiceSpec) : ServiceSpec :=
  match secretEnvFileNames (ss_labels s) with
  | [] => s
  | names =>
      set_secretEnvFileFallback (Some (js_uniq (default [] (ss_secretEnvFileFallback s) ++ names)))
        (set_secretEnv (Some (js_uniq (default [] (ss_secretEnv s) ++ names)))
          (set_env (nonempty_list (foldl drop_pointer (env_of s) names))
            (set_labels (Some (obj_del SECRET_ENV_FILE_LABEL (labels_of s))) s)))
  end.

(** * The shim *)

Record ImageArgv := { im_entrypoint : list string; im_cmd : list string }.

(** [spec.command && spec.command.length > 0 ? spec.command : ...] *)
Definition own_command (s : ServiceSpec) : option (list string) := ss_command s ≫= nonempty_list.

Definition needsImageArgv (s : ServiceSpec) : bool :=
  match ss_secretEnv s ≫= nonempty_list, own_command s with Some _, None => true | _, _ => false end.

Definition originalArgv (s : ServiceSpec) (image : option ImageArgv) : res (list string) :=
  match own_command s, image with
  | Some c, _ => Ok (c ++ default [] (ss_args s))
  | None, None => Err "image entrypoint unknown"
  | None, Some i => Ok (im_entrypoint i ++ default (im_cmd i) (ss_args s ≫= nonempty_list))
  end.

Definition json_strs (l : option (list string)) : value :=
  match l with None => VNull | Some l => VArr (map VStr l) end.

Definition argv_label (s : ServiceSpec) : string :=
  json_stringify (VObj [("command", json_strs (ss_command s)); ("args", json_strs (ss_args s))]).

Definition as_str (v : value) : option string := match v with VStr s => Some s | _ => None end.

Definition strArr (v : option value) : option (list string) :=
  match v with Some (VArr l) => mapM as_str l | _ => None end.

Definition is_shim_command (c : option (list string)) : bool :=
  match c with Some [_; p] => String.eqb p SECRET_ENV_SHIM_PATH | _ => false end.

Definition isSecretEnvWrapped (s : ServiceSpec) : bool :=
  bool_decide (is_Some (get SECRET_ENV_ARGV_LABEL (labels_of s))) || is_shim_command (ss_command s).

(** What the label restores: the command and the arguments of the user.  [None]
    when the label is missing or unreadable. *)
Definition read_argv (raw : option string) : option (option (list string) * option (list string)) :=
  match truthy_str raw ≫= json_parse with
  | None | Some VNull => None
  | Some v =>
      let field k := match v with VObj m => get k m | _ => None end in
      Some (strArr (field "command") ≫= nonempty_list, strArr (field "args") ≫= nonempty_list)
  end.

Definition is_shim_config (r : Ref) : bool := String.eqb (rf_source r) SECRET_ENV_SHIM_CONFIG.

Definition unwrapSecretEnv (input : ServiceSpec) : ServiceSpec :=
  let s := unwrapSecretEnvFileFallback input in
  if negb (isSecretEnvWrapped s) then s
  else
    let labels := labels_of s in
    let '(command, args) :=
      match read_argv (get SECRET_ENV_ARGV_LABEL labels) with
      | Some ca => ca
      | None => (ss_args s ≫= nonempty_list, None)
      end in
    let names := List.filter nonempty (split_at comma (default "" (get SECRET_ENV_VAR (env_of s)))) in
    let out :=
      set_configs (nonempty_list (List.filter (fun r => negb (is_shim_config r)) (default [] (ss_configs s))))
        (set_env (nonempty_list (obj_del SECRET_ENV_VAR (env_of s)))
          (set_args args (set_command command
            (set_labels (Some (obj_del SECRET_ENV_ARGV_LABEL labels)) s)))) in
    match names with
    | [] => out
    | _ => set_secretEnv (Some (js_uniq (default [] (ss_secretEnv s) ++ names))) out
    end.

Definition targets_of (s : ServiceSpec) : list string := map ref_target (default [] (ss_secrets s)).

(** The first refusal of the loop over the names. *)
Definition name_error (targets : list string) (n : string) : option string :=
  if negb (isEnvName n) then Some (quoted n +:+ " is not a valid env var name")
  else if negb (mem n targets) then Some ("secret env " +:+ n +:+ " has no secret mounted at " +:+ secret_path n)
  else None.

Definition shim_ref : Ref :=
  {| rf_source := SECRET_ENV_SHIM_CONFIG; rf_target := Some SECRET_ENV_SHIM_PATH; rf_uid := None; rf_gid := None;
     rf_mode := Some (num 292) |}.

Definition wrapSecretEnv (input : ServiceSpec) (image : option ImageArgv) : res ServiceSpec :=
  let s := unwrapSecretEnv input in
  let names := js_uniq (default [] (ss_secretEnv s)) in
  let rest := set_secretEnvFileFallback None (set_secretEnv None s) in
  match names with
  | [] => Ok rest
  | _ =>
      match head (omap (name_error (targets_of s)) names) with
      | Some e => Err e
      | None =>
          let! argv := originalArgv s image in
          match argv with
          | [] => Err "image has no ENTRYPOINT/CMD and no command was given"
          | _ =>
              Ok (set_labels (Some (obj_set SECRET_ENV_ARGV_LABEL (argv_label s) (labels_of s)))
                   (set_configs (Some (List.filter (fun r => negb (is_shim_config r)) (default [] (ss_configs s)) ++ [shim_ref]))
                     (set_env (Some (obj_set SECRET_ENV_VAR (join "," names) (drop_names names (env_of s))))
                       (set_args (Some argv) (set_command (Some ["/bin/sh"; SECRET_ENV_SHIM_PATH]) rest)))))
          end
      end
  end.

(** * What the agent deploys: prepareSecretEnv

    [image] is the answer of the image inspection, an error when it fails; [shell]
    that of the probe for a shell; [shim] whether the shim's configuration could be
    ensured. *)
Definition no_shell (image : string) (names : list string) : string :=
  image +:+ " has no /bin/sh, so secrets cannot be delivered as env vars: switch " +:+ join ", " names +:+ " to file delivery".

Definition prepareSecretEnv (image : res ImageArgv) (shell : bool) (shim : res ()) (s : ServiceSpec) : res ServiceSpec :=
  let wanted := unwrapSecretEnv s in
  match ss_secretEnv wanted ≫= nonempty_list with
  | None => wrapSecretEnv wanted None
  | Some _ =>
      let! argv := image in
      if negb shell then
        let '(filed, unresolved) := applySecretEnvFileFallback wanted in
        match unresolved with [] => Ok filed | _ => Err (no_shell (ss_image wanted) unresolved) end
      else
        let! _ := shim in
        wrapSecretEnv wanted (if needsImageArgv wanted then Some argv else None)
  end.

(** * Entries of an object *)

Lemma obj_del_absent {A} k (m : list (string * A)) : get k m = None -> obj_del k m = m.
Proof.
  unfold obj_del. induction m as [|[k' v] m IH]; simpl; [done|]. rewrite (String.eqb_sym k' k).
  destruct (String.eqb_spec k k'); [done|]. intros H. simpl. by rewrite IH.
Qed.

Lemma get_obj_del {A} k k' (m : list (string * A)) : get k (obj_del k' m) = if String.eqb k k' then None else get k m.
Proof.
  unfold obj_del. induction m as [|[a v] m IH]; simpl; [by destruct (String.eqb k k')|].
  destruct (String.eqb_spec a k') as [->|Ha]; simpl; rewrite IH.
  - destruct (String.eqb_spec k k'); done.
  - destruct (String.eqb_spec k a) as [->|]; [|done]. apply String.eqb_neq in Ha as ->. done.
Qed.

Lemma obj_del_set {A} k (v : A) m : get k m = None -> obj_del k (obj_set k v m) = m.
Proof.
  intros H. rewrite obj_set_fresh; [|rewrite <- get_keys, H; by intros [? ?]].
  unfold obj_del. rewrite List.filter_app. simpl. rewrite String.eqb_refl. simpl. rewrite app_nil_r.
  by apply obj_del_absent.
Qed.

Lemma obj_del_comm {A} k k' (m : list (string * A)) : obj_del k (obj_del k' m) = obj_del k' (obj_del k m).
Proof.
  unfold obj_del. induction m as [|[a v] m IH]; simpl; [done|].
  destruct (String.eqb a k') eqn:E1, (String.eqb a k) eqn:E2; simpl; rewrite ?E1, ?E2; simpl; by rewrite ?IH.
Qed.

Lemma obj_del_idemp {A} k (m : list (string * A)) : obj_del k (obj_del k m) = obj_del k m.
Proof. apply obj_del_absent. by rewrite get_obj_del, String.eqb_refl. Qed.

(** Setting one key and deleting another commute. *)
Lemma obj_del_set_ne {A} k k' (v : A) m : k <> k' -> obj_del k (obj_set k' v m) = obj_set k' v (obj_del k m).
Proof.
  intros Hk. unfold obj_del. induction m as [|[a w] m IH]; simpl.
  - apply not_eq_sym, String.eqb_neq in Hk. by rewrite Hk.
  - destruct (String.eqb_spec k' a) as [->|Ha]; simpl.
    + assert (E : String.eqb a k = false) by (by apply String.eqb_neq, not_eq_sym). rewrite E. simpl. by rewrite String.eqb_refl.
    + rewrite IH. destruct (String.eqb a k); simpl; [done|]. apply String.eqb_neq in Ha. by rewrite Ha.
Qed.

Lemma default_nonempty {A} (l : list A) : default [] (nonempty_list l) = l.
Proof. by destruct l. Qed.

Lemma get_drop_names k names env : get k (drop_names names env) = if mem k names then None else get k env.
Proof.
  unfold drop_names. revert env. induction names as [|n names IH]; intros env; simpl; [done|].
  rewrite IH, get_obj_del. unfold mem at 2. simpl. fold (mem k names).
  destruct (mem k names), (String.eqb k n); done.
Qed.

Lemma drop_names_del k names env : drop_names names (obj_del k env) = obj_del k (drop_names names env).
Proof.
  unfold drop_names. revert env. induction names as [|n names IH]; intros env; simpl; [done|].
  by rewrite obj_del_comm, IH.
Qed.

Lemma drop_names_idemp names env : drop_names names (drop_names names env) = drop_names names env.
Proof.
  revert env. induction names as [|n names IH]; intros env; simpl; [done|].
  change (drop_names names (obj_del n (drop_names names (obj_del n env))) = drop_names names (obj_del n env)).
  rewrite !drop_names_del, IH. apply obj_del_idemp.
Qed.

(** * Names *)

Lemma env_name_no_comma n : isEnvName n = true -> no_char comma n = true /\ n <> "".
Proof.
  unfold isEnvName. intros [Hn Ha]%andb_true_iff. split; [|by intros ->].
  eapply all_chars_impl; [|exact Ha]. intros c Hc. by destruct c as [[] [] [] [] [] [] [] []].
Qed.

Lemma names_split names : names <> [] -> Forall (fun n => isEnvName n = true) names ->
  split_at comma (join "," names) = names /\ List.filter nonempty names = names /\ List.filter isEnvName names = names.
Proof.
  intros Hne Hn. split; [|split].
  - apply split_join; [done|]. eapply Forall_impl; [exact Hn|]. intros n H. by apply env_name_no_comma.
  - apply bfilter_id. eapply Forall_impl; [exact Hn|]. intros n H. apply env_name_no_comma in H as [_ H].
    by apply negb_true_iff, String.eqb_neq.
  - by apply bfilter_id.
Qed.

Lemma js_uniq_names (names : list string) : NoDup names -> js_uniq names = names.
Proof. intros Hd. unfold js_uniq. by rewrite js_uniq_id. Qed.

Lemma js_uniq_idemp (l : list string) : js_uniq (js_uniq l) = js_uniq l.
Proof. apply js_uniq_names, js_uniq_NoDup. Qed.

Lemma name_errors targets names : head (omap (name_error targets) names) = None ->
  Forall (fun n => isEnvName n = true /\ n ∈ targets) names.
Proof.
  induction names as [|n names IH]; simpl; [constructor|]. unfold name_error at 1.
  destruct (isEnvName n) eqn:E1; simpl; [|done]. destruct (mem_spec n targets); simpl; [|done].
  intros H. constructor; [done|by apply IH].
Qed.

Lemma no_name_errors targets names : Forall (fun n => isEnvName n = true /\ n ∈ targets) names ->
  head (omap (name_error targets) names) = None.
Proof.
  induction 1 as [|n names [H1 H2] _ IH]; simpl; [done|]. unfold name_error at 1. rewrite H1. simpl.
  apply mem_In in H2 as ->. done.
Qed.

(** * The label of the original command *)

Lemma strArr_strs l : strArr (Some (json_strs (Some l))) = Some l.
Proof. simpl. induction l as [|x l IH]; simpl; [done|]. by rewrite IH. Qed.

Lemma json_strs_ok l : wf_doc (json_strs l) = true /\ in_order (json_strs l) = true.
Proof.
  destruct l as [l|]; simpl; [|done]. rewrite !forallb_map. split; apply forallb_forall; done.
Qed.

Lemma strArr_json_strs o : strArr (Some (json_strs o)) = o.
Proof. destruct o as [l|]; [apply strArr_strs|done]. Qed.

Lemma read_argv_label s : read_argv (Some (argv_label s)) = Some (own_command s, ss_args s ≫= nonempty_list).
Proof.
  set (v := VObj [("command", json_strs (ss_command s)); ("args", json_strs (ss_args s))]).
  destruct (json_strs_ok (ss_command s)) as [Hw1 Ho1], (json_strs_ok (ss_args s)) as [Hw2 Ho2].
  assert (Hp : json_parse (argv_label s) = Some v).
  { apply json_parse_stringify; unfold v.
    - cbn [wf_doc forallb snd map fst]. rewrite Hw1, Hw2. reflexivity.
    - cbn [in_order forallb snd]. rewrite Ho1, Ho2, bool_decide_eq_true_2; reflexivity. }
  unfold read_argv. assert (E : truthy_str (Some (argv_label s)) = Some (argv_label s)) by done.
  rewrite E. simpl. rewrite Hp. unfold v.
  change (Some (strArr (Some (json_strs (ss_command s))) ≫= nonempty_list, strArr (Some (json_strs (ss_args s))) ≫= nonempty_list)
          = Some (own_command s, ss_args s ≫= nonempty_list)).
  by rewrite !strArr_json_strs.
Qed.

(** * Wrapping and reading back

    A specification as a user writes it: not itself a wrapped one, and with none
    of the plumbing of the shim among its own variables and labels. *)
Record user_spec (s : ServiceSpec) : Prop := {
  us_argv : get SECRET_ENV_ARGV_LABEL (labels_of s) = None;
  us_file : get SECRET_ENV_FILE_LABEL (labels_of s) = None;
  us_command : is_shim_command (ss_command s) = false;
  us_var : get SECRET_ENV_VAR (env_of s) = None;
  us_tidy : ss_command s <> Some [] /\ ss_args s <> Some []
}.

Definition wanted_names (s : ServiceSpec) : list string := js_uniq (default [] (ss_secretEnv s)).

(** What a specification says once it was delivered through the shim: the names
    replace plain values, the rest is as it was. *)
Definition delivered (s : ServiceSpec) : ServiceSpec :=
  set_configs (nonempty_list (List.filter (fun r => negb (is_shim_config r)) (default [] (ss_configs s))))
    (set_env (nonempty_list (drop_names (wanted_names s) (env_of s)))
      (set_labels (Some (labels_of s))
        (set_secretEnvFileFallback None (set_secretEnv (Some (wanted_names s)) s)))).

Lemma unwrap_user s : user_spec s -> unwrapSecretEnv s = s.
Proof.
  intros [Ha Hf Hc Hv Ht]. unfold unwrapSecretEnv, unwrapSecretEnvFileFallback, secretEnvFileNames.
  assert (E : ss_labels s ≫= (fun m => get SECRET_ENV_FILE_LABEL m) = None) by (unfold labels_of in Hf; by destruct (ss_labels s)).
  rewrite E. simpl. unfold isSecretEnvWrapped. rewrite Ha, Hc. done.
Qed.

Lemma tidy_bind (o : option (list string)) : o <> Some [] -> o ≫= nonempty_list = o.
Proof. by destruct o as [[|]|]. Qed.

(** The parts of a wrapped specification. *)
Lemma wrap_inv s image w : user_spec s -> wanted_names s <> [] -> wrapSecretEnv s image = Ok w ->
  Forall (fun n => isEnvName n = true /\ n ∈ targets_of s) (wanted_names s) /\
  exists argv, originalArgv s image = Ok argv /\ argv <> [] /\
    w = set_labels (Some (obj_set SECRET_ENV_ARGV_LABEL (argv_label s) (labels_of s)))
          (set_configs (Some (List.filter (fun r => negb (is_shim_config r)) (default [] (ss_configs s)) ++ [shim_ref]))
            (set_env (Some (obj_set SECRET_ENV_VAR (join "," (wanted_names s)) (drop_names (wanted_names s) (env_of s))))
              (set_args (Some argv) (set_command (Some ["/bin/sh"; SECRET_ENV_SHIM_PATH])
                (set_secretEnvFileFallback None (set_secretEnv None s)))))).
Proof.
  intros Hu Hne. unfold wrapSecretEnv. rewrite unwrap_user by done. fold (wanted_names s).
  destruct (wanted_names s) as [|n names] eqn:En; [done|]. cbn [js_uniq].
  destruct (head _) eqn:Ee; [done|]. rewrite res_bind_Ok. intros (argv & Ha & Hw). split; [by apply name_errors|].
  exists argv. destruct argv; [done|]. by injection Hw as <-.
Qed.

Lemma no_file_names s : get SECRET_ENV_FILE_LABEL (labels_of s) = None -> unwrapSecretEnvFileFallback s = s.
Proof.
  intros Hf. unfold unwrapSecretEnvFileFallback, secretEnvFileNames.
  assert (E : ss_labels s ≫= (fun m => get SECRET_ENV_FILE_LABEL m) = None) by (unfold labels_of in Hf; by destruct (ss_labels s)).
  by rewrite E.
Qed.

Lemma bfilter_idemp {A} (f : A -> bool) l : List.filter f (List.filter f l) = List.filter f l.
Proof. apply bfilter_id, Forall_forall. intros y Hy. by apply bfilter_elem in Hy as [_ Hy]. Qed.

Lemma filter_twice {A} (f : A -> bool) l x : f x = false -> List.filter f (List.filter f l ++ [x]) = List.filter f l.
Proof.
  intros Hx. rewrite List.filter_app. simpl. rewrite Hx, app_nil_r. apply bfilter_idemp.
Qed.

(** The unwrap of a specification that carries the marks of the shim for the
    command of [s] and the given names. *)
Lemma unwrap_marked x s names : get SECRET_ENV_FILE_LABEL (labels_of x) = None ->
  get SECRET_ENV_ARGV_LABEL (labels_of x) = Some (argv_label s) -> get SECRET_ENV_VAR (env_of x) = Some (join "," names) ->
  names <> [] -> NoDup names -> Forall (fun n => isEnvName n = true) names -> ss_secretEnv x = None ->
  unwrapSecretEnv x =
    set_secretEnv (Some names)
      (set_configs (nonempty_list (List.filter (fun r => negb (is_shim_config r)) (default [] (ss_configs x))))
        (set_env (nonempty_list (obj_del SECRET_ENV_VAR (env_of x)))
          (set_args (ss_args s ≫= nonempty_list) (set_command (own_command s)
            (set_labels (Some (obj_del SECRET_ENV_ARGV_LABEL (labels_of x))) x))))).
Proof.
  intros Hf Ha Hv Hne Hd Hn Hs. unfold unwrapSecretEnv. rewrite no_file_names by done. unfold isSecretEnvWrapped.
  rewrite Ha. cbn [is_Some]. rewrite bool_decide_eq_true_2 by (by eexists). cbn [orb negb]. cbv zeta.
  rewrite read_argv_label, Hv, Hs. cbn [default from_option id app]. destruct (names_split names Hne Hn) as (-> & -> & _).
  destruct names as [|n ns]; [done|]. by rewrite js_uniq_names.
Qed.

Lemma unwrap_wrapped s image w : user_spec s -> wanted_names s <> [] -> wrapSecretEnv s image = Ok w ->
  unwrapSecretEnv w = delivered s.
Proof.
  intros Hu Hne Hw. apply wrap_inv in Hw as (Hn & argv & _ & _ & ->); [|done..].
  destruct Hu as [Ha Hf Hc Hv [Ht1 Ht2]]. set (w := set_labels _ _).
  assert (Hl : labels_of w = obj_set SECRET_ENV_ARGV_LABEL (argv_label s) (labels_of s)) by done.
  assert (He : env_of w = obj_set SECRET_ENV_VAR (join "," (wanted_names s)) (drop_names (wanted_names s) (env_of s))) by done.
  assert (Hcf : default [] (ss_configs w) = List.filter (fun r => negb (is_shim_config r)) (default [] (ss_configs s)) ++ [shim_ref]) by done.
  rewrite (unwrap_marked w s (wanted_names s)); try done.
  - rewrite Hl, He, Hcf, filter_twice, !obj_del_set; try done; [|rewrite get_drop_names, Hv; by destruct (mem _ _)].
    unfold own_command. rewrite !tidy_bind by done. unfold delivered, w. by destruct s.
  - by rewrite Hl, get_obj_set.
  - by rewrite Hl, get_obj_set, String.eqb_refl.
  - by rewrite He, get_obj_set, String.eqb_refl.
  - apply js_uniq_NoDup.
  - eapply Forall_impl; [exact Hn|]. by intros ? [? _].
Qed.

Lemma delivered_user s : user_spec s -> user_spec (delivered s).
Proof.
  intros [Ha Hf Hc Hv Ht]. split; try done. unfold env_of, delivered. simpl. rewrite default_nonempty, get_drop_names, Hv.
  by destruct (mem _ _).
Qed.

Lemma delivered_names s : wanted_names (delivered s) = wanted_names s.
Proof. unfold wanted_names, delivered. simpl. apply js_uniq_names, js_uniq_NoDup. Qed.

Lemma wrap_depends a b image : unwrapSecretEnv a = unwrapSecretEnv b -> wrapSecretEnv a image = wrapSecretEnv b image.
Proof. intros E. unfold wrapSecretEnv. by rewrite E. Qed.

(** Wrapping what was read back gives the specification that was running. *)
Lemma wrap_delivered s image w : user_spec s -> wanted_names s <> [] -> wrapSecretEnv s image = Ok w ->
  wrapSecretEnv (delivered s) image = Ok w.
Proof.
  intros Hu Hne Hw. pose proof (wrap_inv s image w Hu Hne Hw) as (Hn & argv & Ha & Hav & ->).
  unfold wrapSecretEnv. rewrite unwrap_user by (by apply delivered_user). fold (wanted_names (delivered s)). rewrite delivered_names.
  change (targets_of (delivered s)) with (targets_of s). rewrite no_name_errors by done.
  change (originalArgv (delivered s) image) with (originalArgv s image). rewrite Ha.
  assert (He : env_of (delivered s) = drop_names (wanted_names s) (env_of s)) by apply default_nonempty.
  assert (Hc : default [] (ss_configs (delivered s)) = List.filter (fun r => negb (is_shim_config r)) (default [] (ss_configs s)))
    by apply default_nonempty.
  rewrite He, Hc, drop_names_idemp, bfilter_idemp.
  change (argv_label (delivered s)) with (argv_label s). change (labels_of (delivered s)) with (labels_of s).
  destruct (wanted_names s) as [|n ns]; [done|]. by destruct argv.
Qed.

(** Without names the wrap only drops the fields that Docker never sees. *)
Definition without_env (s : ServiceSpec) : ServiceSpec := set_secretEnvFileFallback None (set_secretEnv None s).

Lemma wrap_nothing s image : user_spec s -> wanted_names s = [] -> wrapSecretEnv s image = Ok (without_env s).
Proof. intros Hu E. unfold wrapSecretEnv. rewrite unwrap_user by done. fold (wanted_names s). by rewrite E. Qed.

Lemma without_env_user s : user_spec s -> user_spec (without_env s).
Proof. by intros [Ha Hf Hc Hv Ht]. Qed.

(** * The fallback and reading it back *)

Lemma string_app_cancel (a b t : string) : a +:+ t = b +:+ t -> a = b.
Proof.
  revert b. induction a as [|c a IH]; intros [|d b] E; simpl in E; [done| | |].
  - apply (f_equal String.length) in E. simpl in E. rewrite string_length_app in E. lia.
  - apply (f_equal String.length) in E. simpl in E. rewrite string_length_app in E. lia.
  - injection E as -> E. f_equal. by apply IH.
Qed.

Lemma file_var_inj a b : file_var a = file_var b -> a = b.
Proof. apply string_app_cancel. Qed.

(** The names are told apart from each other's pointers, and no pointer is set by
    hand. *)
Record independent (names : list string) (env : list (string * string)) : Prop := {
  in_names : Forall (fun n => isEnvName n = true) names;
  in_pointers : forall n, n ∈ names -> file_var n ∉ names /\ get (file_var n) env = None
}.

Definition pointers (names : list string) : list (string * string) := map (fun n => (file_var n, secret_path n)) names.

Lemma get_pointers k names : get k (pointers names) = None <-> forall n, n ∈ names -> k <> file_var n.
Proof.
  split.
  - intros H n Hn ->. assert (Hs : is_Some (get (file_var n) (pointers names))).
    { apply get_keys. unfold pointers. rewrite map_map. apply list_elem_of_fmap. by exists n. }
    rewrite H in Hs. by destruct Hs.
  - intros H. destruct (get k (pointers names)) eqn:E; [|done]. apply get_elem, list_elem_of_fmap in E as (n & [= -> _] & Hn).
    by destruct (H n Hn).
Qed.

Lemma get_app {A} k (m m' : list (string * A)) : get k (m ++ m') = match get k m with Some v => Some v | None => get k m' end.
Proof. induction m as [|[k' v] m IH]; simpl; [done|]. by destruct (String.eqb k k'). Qed.

Lemma obj_del_app {A} k (m m' : list (string * A)) : obj_del k (m ++ m') = obj_del k m ++ obj_del k m'.
Proof. apply List.filter_app. Qed.

Lemma obj_set_absent {A} k (v : A) m : get k m = None -> obj_set k v m = m ++ [(k, v)].
Proof. intros H. apply obj_set_fresh. rewrite <- get_keys, H. by intros [? ?]. Qed.

Lemma point_all names done env : NoDup (done ++ names) -> independent (done ++ names) env ->
  foldl point_to_file (env ++ pointers done) names = drop_names names env ++ pointers (done ++ names).
Proof.
  revert done env. induction names as [|n names IH]; intros done env Hd Hi; simpl; [by rewrite app_nil_r|].
  assert (Hn : n ∈ done ++ n :: names) by set_solver.
  assert (E : point_to_file (env ++ pointers done) n = obj_del n env ++ pointers (done ++ [n])).
  { unfold point_to_file. rewrite obj_del_app, (obj_del_absent n (pointers done)).
    - rewrite obj_set_absent; [unfold pointers; by rewrite map_app, app_assoc|]. rewrite get_app, get_obj_del.
      destruct (in_pointers _ _ Hi n Hn) as [_ ->]. destruct (String.eqb _ _); apply get_pointers; intros m Hm ->%file_var_inj;
      apply NoDup_app in Hd as (_ & Hd & _); apply (Hd m Hm); left.
    - apply get_pointers. intros m Hm ->. destruct (in_pointers _ _ Hi m) as [Hf _]; [set_solver|]. set_solver. }
  assert (Ea : (done ++ [n]) ++ names = done ++ n :: names) by (by rewrite <- app_assoc).
  rewrite E, IH; rewrite Ea; [done|done|]. split; [apply Hi|]. intros m Hm. split; [by apply (in_pointers _ _ Hi)|].
  rewrite get_obj_del. destruct (String.eqb _ _); [done|]. by apply (in_pointers _ _ Hi).
Qed.

Lemma drop_all names env : NoDup names -> (forall n, n ∈ names -> get (file_var n) env = None) ->
  foldl drop_pointer (env ++ pointers names) names = env.
Proof.
  induction names as [|n names IH]; intros Hd He; simpl; [apply app_nil_r|]. apply NoDup_cons in Hd as [Hn Hd].
  assert (E : drop_pointer (env ++ (file_var n, secret_path n) :: pointers names) n = env ++ pointers names).
  { unfold drop_pointer. rewrite get_app, He by left. simpl. rewrite String.eqb_refl, bool_decide_eq_true_2 by done.
    rewrite obj_del_app, (obj_del_absent _ env) by (apply He; left). f_equal. unfold obj_del. simpl. rewrite String.eqb_refl. simpl.
    apply obj_del_absent, get_pointers. by intros m Hm ->%file_var_inj. }
  rewrite E. apply IH; [done|]. intros m Hm. apply He. by right.
Qed.

(** What a specification says once its variables were delivered as files. *)
Definition filed_intent (s : ServiceSpec) : ServiceSpec :=
  set_secretEnvFileFallback (Some (wanted_names s))
    (set_secretEnv (Some (wanted_names s))
      (set_env (nonempty_list (drop_names (wanted_names s) (env_of s)))
        (set_labels (Some (labels_of s)) s))).

Definition filed (s : ServiceSpec) : ServiceSpec :=
  set_secretEnv None
    (set_labels (Some (obj_set SECRET_ENV_FILE_LABEL (join "," (wanted_names s)) (labels_of s)))
      (set_env (Some (drop_names (wanted_names s) (env_of s) ++ pointers (wanted_names s)))
        (set_secretEnvFileFallback None s))).

Lemma unresolved_nil {A} (f : A -> bool) l : List.filter (fun x => negb (f x)) l = [] -> List.filter f l = l.
Proof.
  intros H. apply bfilter_id, Forall_forall. intros x Hx.
  pose proof (proj1 (bfilter_nil _ l) H x Hx) as Hf. by apply negb_false_iff in Hf.
Qed.

Lemma fallback_filed s x : wanted_names s <> [] -> independent (wanted_names s) (env_of s) ->
  applySecretEnvFileFallback s = (x, []) -> x = filed s.
Proof.
  intros Hne Hi. unfold applySecretEnvFileFallback. fold (wanted_names s).
  destruct (List.filter (fun n => negb (mem n _)) (wanted_names s)) as [|? ?] eqn:Eu; [|by repeat case_match].
  rewrite (unresolved_nil _ _ Eu).
  assert (Hp : foldl point_to_file (env_of s) (wanted_names s) = drop_names (wanted_names s) (env_of s) ++ pointers (wanted_names s)).
  { rewrite <- (app_nil_r (env_of s)) at 1. apply (point_all _ []); [apply js_uniq_NoDup|done]. }
  rewrite Hp. unfold filed. destruct (wanted_names s) as [|n names]; [done|]. by intros [= <-].
Qed.

(** The unwrap of a specification whose variables are delivered as files. *)
Lemma unwrap_pointed x names env : get SECRET_ENV_FILE_LABEL (labels_of x) = Some (join "," names) ->
  env_of x = env ++ pointers names -> (forall n, n ∈ names -> get (file_var n) env = None) ->
  names <> [] -> NoDup names -> Forall (fun n => isEnvName n = true) names ->
  ss_secretEnv x = None -> ss_secretEnvFileFallback x = None ->
  get SECRET_ENV_ARGV_LABEL (labels_of x) = None -> is_shim_command (ss_command x) = false ->
  unwrapSecretEnv x =
    set_secretEnvFileFallback (Some names) (set_secretEnv (Some names) (set_env (nonempty_list env)
      (set_labels (Some (obj_del SECRET_ENV_FILE_LABEL (labels_of x))) x))).
Proof.
  intros Hl He Hp Hne Hd Hn Hs Hf Ha Hc. destruct (names_split names Hne Hn) as (Hsp & _ & Hfi).
  assert (Hun : unwrapSecretEnvFileFallback x =
    set_secretEnvFileFallback (Some names) (set_secretEnv (Some names) (set_env (nonempty_list env)
      (set_labels (Some (obj_del SECRET_ENV_FILE_LABEL (labels_of x))) x)))).
  { unfold unwrapSecretEnvFileFallback, secretEnvFileNames.
    assert (El : ss_labels x ≫= (fun m => get SECRET_ENV_FILE_LABEL m) = Some (join "," names)) by (unfold labels_of in Hl; by destruct (ss_labels x)).
    rewrite El. cbn [default from_option id]. rewrite Hsp, Hfi, He, Hs, Hf. cbn [default from_option app].
    destruct names as [|n ns]; [done|]. by rewrite drop_all, js_uniq_names. }
  unfold unwrapSecretEnv. rewrite Hun. unfold isSecretEnvWrapped. set (y := set_secretEnvFileFallback _ _).
  change (labels_of y) with (obj_del SECRET_ENV_FILE_LABEL (labels_of x)). change (ss_command y) with (ss_command x).
  by rewrite get_obj_del, Ha, Hc.
Qed.

Lemma unwrap_filed s : user_spec s -> wanted_names s <> [] -> independent (wanted_names s) (env_of s) ->
  unwrapSecretEnv (filed s) = filed_intent s.
Proof.
  intros [Ha Hf Hc Hv Ht] Hne Hi.
  assert (E2 : labels_of (filed s) = obj_set SECRET_ENV_FILE_LABEL (join "," (wanted_names s)) (labels_of s)) by done.
  rewrite (unwrap_pointed (filed s) (wanted_names s) (drop_names (wanted_names s) (env_of s))); try done.
  - rewrite E2, obj_del_set by done. unfold filed_intent, filed. by destruct s.
  - by rewrite E2, get_obj_set, String.eqb_refl.
  - intros n Hn. rewrite get_drop_names. destruct (mem _ _); [done|]. by apply (in_pointers _ _ Hi).
  - apply js_uniq_NoDup.
  - apply Hi.
  - by rewrite E2, get_obj_set.
Qed.

Lemma filed_intent_user s : user_spec s -> user_spec (filed_intent s).
Proof.
  intros [Ha Hf Hc Hv Ht]. split; try done. unfold env_of, filed_intent. simpl. rewrite default_nonempty, get_drop_names, Hv.
  by destruct (mem _ _).
Qed.

Lemma filed_again s : wanted_names s <> [] -> independent (wanted_names s) (env_of s) ->
  applySecretEnvFileFallback (filed_intent s) = (filed s, []).
Proof.
  intros Hne Hi.
  assert (Hw : wanted_names (filed_intent s) = wanted_names s) by (apply js_uniq_idemp).
  assert (He : env_of (filed_intent s) = drop_names (wanted_names s) (env_of s)) by apply default_nonempty.
  assert (Hall : List.filter (fun n => mem n (wanted_names s)) (wanted_names s) = wanted_names s).
  { apply bfilter_id, Forall_forall. intros n Hn. by apply mem_In. }
  assert (Hnone : List.filter (fun n => negb (mem n (wanted_names s))) (wanted_names s) = []).
  { apply bfilter_nil. intros n Hn. apply mem_In in Hn. by rewrite Hn. }
  assert (Hp : foldl point_to_file (drop_names (wanted_names s) (env_of s)) (wanted_names s) =
               drop_names (wanted_names s) (env_of s) ++ pointers (wanted_names s)).
  { rewrite <- (app_nil_r (drop_names _ _)) at 1. etransitivity; [apply (point_all _ []); [apply js_uniq_NoDup|]|by rewrite drop_names_idemp].
    split; [apply Hi|]. intros n Hn. split; [by apply (in_pointers _ _ Hi)|]. rewrite get_drop_names.
    destruct (mem _ _); [done|]. by apply (in_pointers _ _ Hi). }
  unfold applySecretEnvFileFallback. fold (wanted_names (filed_intent s)). rewrite Hw, He.
  change (default [] (ss_secretEnvFileFallback (filed_intent s))) with (wanted_names s). rewrite Hall, Hnone, Hp.
  change (labels_of (filed_intent s)) with (labels_of s). unfold filed. destruct (wanted_names s); [done|]. by destruct s.
Qed.

(** [prepareSecretEnv] reads its argument through the unwrap. *)
Lemma prepare_depends image shell shim a b : unwrapSecretEnv a = unwrapSecretEnv b ->
  prepareSecretEnv image shell shim a = prepareSecretEnv image shell shim b.
Proof. intros E. unfold prepareSecretEnv. by rewrite E. Qed.

Lemma nonempty_wanted s : wanted_names s <> [] <-> is_Some (ss_secretEnv s ≫= nonempty_list).
Proof.
  unfold wanted_names. destruct (ss_secretEnv s) as [[|n l]|]; simpl; split; try done; try by intros [? ?].
  - intros _ E. pose proof (proj2 (js_uniq_elem n (n :: l)) (list_elem_of_here _ _)) as H. rewrite E in H. by apply not_elem_of_nil in H.
Qed.

(** What reading back a deployed specification gives. *)
Definition read_back (shell : bool) (s : ServiceSpec) : ServiceSpec :=
  match wanted_names s with [] => without_env s | _ => if shell then delivered s else filed_intent s end.

(** What the agent deploys, by case. *)
Lemma prepare_cases image shell shim s w : user_spec s -> independent (wanted_names s) (env_of s) ->
  prepareSecretEnv image shell shim s = Ok w ->
  (wanted_names s = [] /\ w = without_env s) \/
  (wanted_names s <> [] /\ shell = false /\ (exists i, image = Ok i) /\ w = filed s) \/
  (wanted_names s <> [] /\ shell = true /\ shim = Ok () /\
   exists i, image = Ok i /\ wrapSecretEnv s (if needsImageArgv s then Some i else None) = Ok w).
Proof.
  intros Hu Hi. unfold prepareSecretEnv. rewrite unwrap_user by done.
  destruct (ss_secretEnv s ≫= nonempty_list) eqn:E.
  - assert (Hne : wanted_names s <> []) by (apply nonempty_wanted; by rewrite E).
    intros (i & -> & Hw)%res_bind_Ok. right. destruct shell; cbn [negb] in Hw.
    + apply res_bind_Ok in Hw as ([] & -> & Hw). right. eauto 10.
    + destruct (applySecretEnvFileFallback s) as [x un] eqn:Ef. destruct un; [|done]. injection Hw as <-.
      left. repeat split; eauto. by apply fallback_filed.
  - assert (Hz : wanted_names s = []) by (destruct (decide (wanted_names s = [])) as [?|[? H]%nonempty_wanted]; [done|by rewrite E in H]).
    rewrite wrap_nothing by done. intros [= <-]. by left.
Qed.

Lemma env_of_wrapped s image w n : user_spec s -> wanted_names s <> [] -> wrapSecretEnv s image = Ok w ->
  n ∈ wanted_names s -> n <> SECRET_ENV_VAR -> get n (env_of w) = None.
Proof.
  intros Hu Hne Hw Hn Hv. apply wrap_inv in Hw as (_ & argv & _ & _ & ->); [|done..]. unfold env_of. simpl.
  apply String.eqb_neq in Hv. rewrite get_obj_set, Hv, get_drop_names. by apply mem_In in Hn as ->.
Qed.

Lemma env_of_filed s n : independent (wanted_names s) (env_of s) -> n ∈ wanted_names s -> get n (env_of (filed s)) = None.
Proof.
  intros Hi Hn. unfold env_of, filed. simpl. rewrite get_app, get_drop_names. pose proof Hn as Hm. apply mem_In in Hm as ->.
  apply get_pointers. intros m Hm ->. by apply (in_pointers _ _ Hi) in Hm as [? _].
Qed.

(** The read-back and the deploys after it. *)
Lemma read_back_again image shell shim s w :
  user_spec s -> independent (wanted_names s) (env_of s) -> prepareSecretEnv image shell shim s = Ok w ->
  unwrapSecretEnv w = read_back shell s /\
  prepareSecretEnv image shell shim w = Ok w /\ prepareSecretEnv image shell shim (read_back shell s) = Ok w /\
  ss_secretEnv w = None /\ ss_secretEnvFileFallback w = None /\
  (forall n, n ∈ wanted_names s -> n <> SECRET_ENV_VAR -> get n (env_of w) = None).
Proof.
  intros Hu Hi Hw. destruct (prepare_cases _ _ _ _ _ Hu Hi Hw) as [[Hz ->]|[(Hne & -> & [i ->] & ->)|(Hne & -> & -> & i & -> & Hwr)]]; clear Hw.
  - assert (Er : read_back shell s = without_env s) by (unfold read_back; by rewrite Hz).
    assert (Eu : unwrapSecretEnv (without_env s) = without_env s) by (apply unwrap_user; by apply without_env_user).
    assert (Ep : prepareSecretEnv image shell shim (without_env s) = Ok (without_env s)).
    { unfold prepareSecretEnv. rewrite Eu. exact (wrap_nothing (without_env s) None (without_env_user s Hu) eq_refl). }
    rewrite Er, Hz. repeat split; try assumption. by intros n ?%not_elem_of_nil.
  - assert (Er : read_back false s = filed_intent s) by (unfold read_back; by destruct (wanted_names s)).
    assert (Eu : unwrapSecretEnv (filed s) = filed_intent s) by (by apply unwrap_filed).
    assert (Ei : unwrapSecretEnv (filed_intent s) = filed_intent s) by (apply unwrap_user; by apply filed_intent_user).
    assert (Ep : prepareSecretEnv (Ok i) false shim (filed_intent s) = Ok (filed s)).
    { unfold prepareSecretEnv. rewrite Ei. destruct (ss_secretEnv (filed_intent s) ≫= nonempty_list) eqn:E.
      - simpl. by rewrite filed_again.
      - exfalso. change (nonempty_list (wanted_names s) = None) in E. by destruct (wanted_names s). }
    rewrite Er. split; [exact Eu|]. split; [|split; [exact Ep|]]; [|split; [reflexivity|split; [reflexivity|]]].
    + by rewrite (prepare_depends _ _ _ (filed s) (filed_intent s)) by (by rewrite Eu, Ei).
    + intros n Hn _. by apply env_of_filed.
  - assert (Er : read_back true s = delivered s) by (unfold read_back; by destruct (wanted_names s)).
    pose proof (unwrap_wrapped _ _ _ Hu Hne Hwr) as Eu.
    assert (Ed : unwrapSecretEnv (delivered s) = delivered s) by (apply unwrap_user; by apply delivered_user).
    assert (Ep : prepareSecretEnv (Ok i) true (Ok ()) (delivered s) = Ok w).
    { unfold prepareSecretEnv. rewrite Ed. destruct (ss_secretEnv (delivered s) ≫= nonempty_list) eqn:E.
      - simpl. assert (En : needsImageArgv (delivered s) = needsImageArgv s).
        { unfold needsImageArgv. rewrite E. apply nonempty_wanted in Hne as [? ->]. done. }
        rewrite En. by apply wrap_delivered.
      - exfalso. change (nonempty_list (wanted_names s) = None) in E. by destruct (wanted_names s). }
    rewrite Er. pose proof (wrap_inv _ _ _ Hu Hne Hwr) as (_ & argv & _ & _ & Ew).
    split; [exact Eu|]. split; [|split; [exact Ep|]]; [|split; [by rewrite Ew|split; [by rewrite Ew|]]].
    + by rewrite (prepare_depends _ _ _ w (delivered s)) by (by rewrite Eu, Ed).
    + intros n Hn Hv. by eapply env_of_wrapped.
Qed.

(** What the specification [r] read back says of the user's own [s]: everything but
    three fields is the user's, field for field; of those, the environment is without
    the plain values of secret variables, the configurations without the shim's, and
    the permission to fall back to files is not the user's: none is recorded where the
    shim delivered, all names where files did. *)
Record reads_as (shell : bool) (s r : ServiceSpec) : Prop := {
  ra_names : wanted_names r = wanted_names s;
  ra_env k : get k (env_of r) = if mem k (wanted_names s) then None else get k (env_of s);
  ra_labels : labels_of r = labels_of s;
  ra_configs : default [] (ss_configs r) =
    if shell && negb (bool_decide (wanted_names s = [])) then List.filter (fun c => negb (is_shim_config c)) (default [] (ss_configs s))
    else default [] (ss_configs s);
  ra_fallback : ss_secretEnvFileFallback r = if shell then None else nonempty_list (wanted_names s);
  ra_rest : set_labels None (set_env None (set_configs None (set_secretEnv None (set_secretEnvFileFallback None r)))) =
            set_labels None (set_env None (set_configs None (set_secretEnv None (set_secretEnvFileFallback None s))))
}.

Lemma read_back_reads shell s : reads_as shell s (read_back shell s).
Proof.
  unfold read_back. destruct (wanted_names s) as [|n ns] eqn:E.
  - assert (Hm : forall k, mem k [] = false) by done.
    split; rewrite ?E; try done; [by rewrite andb_false_r|by destruct shell].
  - destruct shell; (split; rewrite ?E; try done).
    + change (wanted_names (delivered s)) with (js_uniq (wanted_names s)). unfold wanted_names in *. by rewrite js_uniq_idemp.
    + intros k. unfold env_of at 1. cbn [delivered set_configs set_env ss_env]. by rewrite default_nonempty, get_drop_names, E.
    + rewrite bool_decide_eq_false_2 by done. apply default_nonempty.
    + change (wanted_names (filed_intent s)) with (js_uniq (wanted_names s)). unfold wanted_names in *. by rewrite js_uniq_idemp.
    + intros k. unfold env_of at 1. cbn [filed_intent set_secretEnvFileFallback set_secretEnv set_env ss_env]. by rewrite default_nonempty, get_drop_names, E.
    + unfold filed_intent. cbn [set_secretEnvFileFallback ss_secretEnvFileFallback]. by rewrite E.
Qed.

(** C25: a deployed specification is read back as what the user wrote, except as record
    [reads_as] says: the plain values of secret variables are gone, and so is the
    permission to fall back to files, which is not part of what Docker is given (none
    is left after a delivery through the shim, all names have it after a delivery as
    files).  Deploying it again, as it is or as read back, on the same image changes
    nothing, and no plain value of a secret variable is deployed. *)
Theorem secret_env_roundtrip image shell shim s w :
  user_spec s -> independent (wanted_names s) (env_of s) -> prepareSecretEnv image shell shim s = Ok w ->
  reads_as shell s (unwrapSecretEnv w) /\
  prepareSecretEnv image shell shim w = Ok w /\ prepareSecretEnv image shell shim (unwrapSecretEnv w) = Ok w /\
  ss_secretEnv w = None /\ ss_secretEnvFileFallback w = None /\
  (forall n, n ∈ wanted_names s -> n <> SECRET_ENV_VAR -> get n (env_of w) = None).
Proof.
  intros Hu Hi Hw. destruct (read_back_again image shell shim s w Hu Hi Hw) as (-> & H). split; [apply read_back_reads|exact H].
Qed.

(** * When a deploy is refused *)

Lemma argv_of_needed s i : ss_secretEnv s ≫= nonempty_list <> None ->
  originalArgv s (if needsImageArgv s then Some i else None) = originalArgv s (Some i).
Proof. unfold needsImageArgv, originalArgv. destruct (ss_secretEnv s ≫= nonempty_list), (own_command s); done. Qed.

Lemma wrap_ok s image : user_spec s -> wanted_names s <> [] ->
  (exists w, wrapSecretEnv s image = Ok w) <->
  Forall (fun n => isEnvName n = true /\ n ∈ targets_of s) (wanted_names s) /\
  exists x l, originalArgv s image = Ok (x :: l).
Proof.
  intros Hu Hne. split.
  - intros [w Hw]. destruct (wrap_inv _ _ _ Hu Hne Hw) as (Hn & [|x l] & Ha & Hav & _); [done|]. eauto.
  - intros (Hn & x & l & Ha). unfold wrapSecretEnv. rewrite unwrap_user by done. fold (wanted_names s).
    rewrite no_name_errors, Ha by done. destruct (wanted_names s); [done|]. simpl. eauto.
Qed.

(** C36: A deploy with secret variables is refused exactly when the image cannot be
    read, when it has no shell and a variable may not fall back to a file, or when
    the shim cannot be set up: no configuration, a name without a mounted secret,
    nothing to run. *)
Theorem secret_env_accepted image shell shim s : user_spec s -> wanted_names s <> [] ->
  (exists w, prepareSecretEnv image shell shim s = Ok w) <->
  exists i, image = Ok i /\
    if shell then shim = Ok () /\ Forall (fun n => isEnvName n = true /\ n ∈ targets_of s) (wanted_names s) /\
                  exists x l, originalArgv s (Some i) = Ok (x :: l)
    else forall n, n ∈ wanted_names s -> n ∈ default [] (ss_secretEnvFileFallback s).
Proof.
  intros Hu Hne. unfold prepareSecretEnv. rewrite unwrap_user by done.
  pose proof (proj1 (nonempty_wanted s) Hne) as [l0 E]. rewrite E. destruct image as [i|e]; simpl; cycle 1.
  { split; [by intros [? ?]|by intros (? & ? & _)]. }
  destruct shell; simpl.
  - destruct shim as [[]|e]; simpl; cycle 1; [split; [by intros [? ?]|by intros (? & _ & ? & _)]|].
    rewrite wrap_ok, argv_of_needed by (done || by rewrite E). split; [intros H; exists i; tauto|]. intros (? & [= <-] & _ & H). done.
  - assert (Hf : snd (applySecretEnvFileFallback s) =
                 List.filter (fun n => negb (mem n (default [] (ss_secretEnvFileFallback s)))) (wanted_names s)).
    { unfold applySecretEnvFileFallback, wanted_names. by destruct (List.filter _ _). }
    destruct (applySecretEnvFileFallback s) as [x un]. simpl in Hf.
    assert (Hall : un = [] <-> forall n, n ∈ wanted_names s -> n ∈ default [] (ss_secretEnvFileFallback s)).
    { rewrite Hf, bfilter_nil. apply forall_proper. intros n. split; intros H Hn; specialize (H Hn).
      - apply mem_In. by apply negb_false_iff in H.
      - apply mem_In in H. by rewrite H. }
    destruct un; split.
    + intros _. exists i. tauto.
    + intros _. eauto.
    + by intros [? ?].
    + intros (? & _ & H). by apply Hall in H.
Qed.

(** * Examples *)

Definition blank_spec (name image : string) : ServiceSpec :=
  {| ss_name := name; ss_image := image; ss_mode := None; ss_env := None; ss_command := None; ss_args := None;
     ss_labels := None; ss_ports := None; ss_mounts := None; ss_networks := None; ss_networkAliases := None;
     ss_registryAuth := None; ss_restartPolicy := None; ss_updateConfig := None; ss_placement := None;
     ss_healthcheck := None; ss_resources := None; ss_configs := None; ss_secrets := None; ss_secretEnv := None;
     ss_secretEnvFileFallback := None; ss_stopGracePeriodNs := None; ss_logging := None |}.

Definition secret_at (source target : string) : Ref :=
  {| rf_source := source; rf_target := Some target; rf_uid := None; rf_gid := None; rf_mode := Some (num 292) |}.

Definition shop_spec : ServiceSpec :=
  set_args (Some ["--port"; "80"]) (set_env (Some [("LOG", "debug"); ("DB_PASSWORD", "stale")])
    (set_secrets (Some [secret_at "shop_web_DB_PASSWORD_v1" "DB_PASSWORD"])
      (set_secretEnv (Some ["DB_PASSWORD"]) (set_secretEnvFileFallback (Some ["DB_PASSWORD"]) (blank_spec "shop_web" "web:1"))))).

Definition shop_image : ImageArgv := {| im_entrypoint := ["docker-entrypoint.sh"]; im_cmd := ["node"] |}.

Lemma shop_user : user_spec shop_spec /\ independent (wanted_names shop_spec) (env_of shop_spec).
Proof.
  split; [by split|]. change (wanted_names shop_spec) with ["DB_PASSWORD"]. split.
  - repeat constructor.
  - intros n ->%list_elem_of_singleton. split; [|done]. intros H%list_elem_of_singleton. done.
Qed.

Lemma secret_env_roundtrip_witness : exists w,
  prepareSecretEnv (Ok shop_image) true (Ok ()) shop_spec = Ok w /\
  ss_args w = Some ["docker-entrypoint.sh"; "--port"; "80"] /\
  ss_env w = Some [("LOG", "debug"); ("SWARMY_SECRET_ENV", "DB_PASSWORD")] /\ get "DB_PASSWORD" (env_of w) = None.
Proof.
  eexists. split; [vm_compute; reflexivity|]. split; [reflexivity|]. split; [reflexivity|].
  refine (proj2 (proj2 (proj2 (proj2 (proj2 (secret_env_roundtrip (Ok shop_image) true (Ok ()) shop_spec _ (proj1 shop_user) (proj2 shop_user) _))))) "DB_PASSWORD" _ _).
  - vm_compute. reflexivity.
  - change (wanted_names shop_spec) with ["DB_PASSWORD"]. left.
  - done.
Defined.

Lemma secret_env_accepted_witness : exists w, prepareSecretEnv (Ok shop_image) false (Ok ()) shop_spec = Ok w.
Proof.
  apply (secret_env_accepted (Ok shop_image) false (Ok ()) shop_spec (proj1 shop_user)); [done|].
  exists shop_image. split; [reflexivity|]. change (wanted_names shop_spec) with ["DB_PASSWORD"].
  change (default [] (ss_secretEnvFileFallback shop_spec)) with ["DB_PASSWORD"]. done.
Defined.

(** The permission to fall back is not kept by a deploy through the shim: the next
    deploy of what was read back, onto an image without a shell, is refused. *)
Lemma fallback_forgotten :
  exists w, prepareSecretEnv (Ok shop_image) true (Ok ()) shop_spec = Ok w /\
    (exists f, prepareSecretEnv (Ok shop_image) false (Ok ()) shop_spec = Ok f) /\
    exists e, prepareSecretEnv (Ok shop_image) false (Ok ()) (unwrapSecretEnv w) = Err e.
Proof. eexists. split; [vm_compute; reflexivity|]. split; eexists; vm_compute; reflexivity. Qed.
