(* ===== verification/SpecRead.v ===== *)
(** Reading a service back from Docker (packages/core/src/service-inspect.ts), the
    copy of the reader the canary worker has (apps/api/src/workers/
    deploy-canary.core.ts), and the patches that ride on it
    (packages/trpc/src/services/service-patch.ts). *)

From S2P Require Import Prelude Comparators Json JsonText KvCodec Doubles NetPolicy ServiceSpec SecretEnv.

(** * Shapes of a payload *)

Definition asObj (v : option payload) : option (list (string * payload)) :=
  match v with Some (PObj m) => Some m | _ => None end.
Definition asArr (v : option payload) : list payload := match v with Some (PArr l) => l | _ => [] end.
Definition asStr (v : option payload) : option string := match v with Some (PStr s) => truthy_str (Some s) | _ => None end.
Definition asNum (v : option payload) : option number := match v with Some (PNum n) => Some n | _ => None end.

(** [o?.k] *)
Definition fld (k : string) (o : option (list (string * payload))) : option payload := o ≫= (fun m => get k m).

(** [typeof x === 'string'] *)
Definition as_string (v : payload) : option string := match v with PStr s => Some s | _ => None end.

Definition strings_of (v : option payload) : list string := omap as_string (asArr v).

(** * The parts of a specification *)

Definition read_mode (v : option payload) : option Mode :=
  let mode := asObj v in
  match asNum (fld "Replicas" (asObj (fld "Replicated" mode))) with
  | Some n => Some {| md_replicated := Some n; md_global := false |}
  | None => if bool_decide (is_Some (fld "Global" mode)) then Some {| md_replicated := None; md_global := true |} else None
  end.

(** The key and the value of [K=V], for a key that is not empty. *)
Fixpoint cut_eq (s : string) : option (string * string) :=
  match s with
  | EmptyString => None
  | String c r => if Ascii.eqb c "=" then Some ("", r) else (fun kv => (String c (fst kv), snd kv)) <$> cut_eq r
  end.

Definition env_pair (s : string) : option (string * string) :=
  match cut_eq s with Some (k, v) => if nonempty k then Some (k, v) else None | None => None end.

Definition read_env (v : option payload) : option (list (string * string)) :=
  nonempty_list (from_entries (omap env_pair (strings_of v))).

Definition read_strings (v : option payload) : option (list string) := nonempty_list (strings_of v).

Definition string_field (kv : string * payload) : option (string * string) := (fun s => (fst kv, s)) <$> as_string (snd kv).

Definition read_labels (v : option payload) : option (list (string * string)) :=
  match asObj v with
  | Some m => nonempty_list (from_entries (omap string_field (own_order m)))
  | None => None
  end.

Definition read_mount_type (o : option string) : option MountType :=
  match o with
  | Some t => if String.eqb t "volume" then Some volume else if String.eqb t "bind" then Some bind
              else if String.eqb t "tmpfs" then Some tmpfs else None
  | None => None
  end.

Definition is_true (v : option payload) : bool := match v with Some (PBool b) => b | _ => false end.

Definition read_mount (m : payload) : option Mount :=
  let mo := asObj (Some m) in
  match asStr (fld "Target" mo), read_mount_type (asStr (fld "Type" mo)) with
  | Some target, Some type =>
      Some {| mt_type := type; mt_source := asStr (fld "Source" mo); mt_target := target;
              mt_readOnly := if is_true (fld "ReadOnly" mo) then Some true else None |}
  | _, _ => None
  end.

Definition read_ref (key : string) (r : payload) : option Ref :=
  let ro := asObj (Some r) in
  match asStr (fld key ro) with
  | Some source =>
      let file := asObj (fld "File" ro) in
      Some {| rf_source := source; rf_target := asStr (fld "Name" file); rf_uid := asStr (fld "UID" file);
              rf_gid := asStr (fld "GID" file); rf_mode := asNum (fld "Mode" file) |}
  | None => None
  end.

Definition read_refs (key : string) (v : option payload) : option (list Ref) := nonempty_list (omap (read_ref key) (asArr v)).

Definition read_port (p : payload) : option Port :=
  let po := asObj (Some p) in
  match asNum (fld "TargetPort" po) with
  | Some target =>
      Some {| pt_target := target; pt_published := asNum (fld "PublishedPort" po);
              pt_protocol := if bool_decide (asStr (fld "Protocol" po) = Some "udp") then udp else tcp;
              pt_mode := if bool_decide (asStr (fld "PublishMode" po) = Some "host") then host else ingress |}
  | None => None
  end.

Definition read_ports (v : option payload) : option (list Port) := nonempty_list (omap read_port (asArr (fld "Ports" (asObj v)))).

Definition read_condition (o : option string) : option Condition :=
  match o with
  | Some c => if String.eqb c "none" then Some on_none else if String.eqb c "on-failure" then Some on_failure
              else if String.eqb c "any" then Some on_any else None
  | None => None
  end.

Definition read_restart (v : option payload) : option RestartPolicy :=
  let restart := asObj v in
  match read_condition (asStr (fld "Condition" restart)) with
  | Some c => Some {| rp_condition := Some c; rp_maxAttempts := asNum (fld "MaxAttempts" restart);
                      rp_delayNs := asNum (fld "Delay" restart) |}
  | None => None
  end.

Definition read_order (o : option string) : option Order :=
  match o with
  | Some c => if String.eqb c "start-first" then Some start_first else if String.eqb c "stop-first" then Some stop_first else None
  | None => None
  end.

Definition read_action (o : option string) : option FailureAction :=
  match o with
  | Some c => if String.eqb c "pause" then Some f_pause else if String.eqb c "continue" then Some f_continue
              else if String.eqb c "rollback" then Some f_rollback else None
  | None => None
  end.

(** [Object.keys(updateConfig).length > 0] *)
Definition has_update (u : UpdateConfig) : bool :=
  match uc_parallelism u, uc_order u, uc_failureAction u, uc_monitorNs u, uc_delayNs u with
  | None, None, None, None, None => false
  | _, _, _, _, _ => true
  end.

Definition read_update (v : option payload) : option UpdateConfig :=
  match asObj v with
  | Some upd =>
      let u := {| uc_parallelism := asNum (get "Parallelism" upd); uc_order := read_order (asStr (get "Order" upd));
                  uc_failureAction := read_action (asStr (get "FailureAction" upd)); uc_monitorNs := asNum (get "Monitor" upd);
                  uc_delayNs := asNum (get "Delay" upd) |} in
      if has_update u then Some u else None
  | None => None
  end.

Definition read_preference (p : payload) : option string :=
  (fun d => "spread=" +:+ d) <$> asStr (fld "SpreadDescriptor" (asObj (fld "Spread" (asObj (Some p))))).

Definition positive_num (o : option number) : option number :=
  match o with Some n => if 0 <? sig n then Some n else None | None => None end.

Definition read_placement (v : option payload) : option Placement :=
  let placement := asObj v in
  let p := {| pl_constraints := read_strings (fld "Constraints" placement);
              pl_preferences := nonempty_list (omap read_preference (asArr (fld "Preferences" placement)));
              pl_maxReplicasPerNode := positive_num (asNum (fld "MaxReplicas" placement)) |} in
  match pl_constraints p, pl_preferences p, pl_maxReplicasPerNode p with None, None, None => None | _, _, _ => Some p end.

Definition read_bucket (v : option payload) : option Bucket :=
  let o := asObj v in
  match asNum (fld "NanoCPUs" o), asNum (fld "MemoryBytes" o) with
  | None, None => None
  | nano, mem => Some {| bk_cpus := ofNanoCpus <$> nano; bk_memoryBytes := mem |}
  end.

Definition read_resources (v : option payload) : option Resources :=
  let res := asObj v in
  match read_bucket (fld "Limits" res), read_bucket (fld "Reservations" res) with
  | None, None => None
  | limits, reservations => Some {| rs_limits := limits; rs_reservations := reservations |}
  end.

Definition checks (hc : list (string * payload)) (test : list string) : Healthcheck :=
  {| hc_test := Some test; hc_intervalNs := asNum (get "Interval" hc); hc_timeoutNs := asNum (get "Timeout" hc);
     hc_startPeriodNs := asNum (get "StartPeriod" hc); hc_retries := asNum (get "Retries" hc); hc_disable := None |}.

Definition disabled : Healthcheck :=
  {| hc_test := None; hc_intervalNs := None; hc_timeoutNs := None; hc_startPeriodNs := None; hc_retries := None;
     hc_disable := Some true |}.

Definition read_healthcheck (v : option payload) : option Healthcheck :=
  match asObj v with
  | Some hc =>
      let test := strings_of (get "Test" hc) in
      if bool_decide (test = ["NONE"]) then Some disabled
      else match test with [] => None | _ => Some (checks hc test) end
  | None => None
  end.

(** * specFromInspect

    [read_spec] is the specification before the shim is taken off. *)
Definition read_spec (spec : list (string * payload)) (name image : string) (networks : list string) : ServiceSpec :=
  let tt := asObj (get "TaskTemplate" spec) in
  let cs := asObj (fld "ContainerSpec" tt) in
  {| ss_name := name; ss_image := image; ss_mode := read_mode (get "Mode" spec); ss_env := read_env (fld "Env" cs);
     ss_command := read_strings (fld "Command" cs); ss_args := read_strings (fld "Args" cs);
     ss_labels := read_labels (get "Labels" spec); ss_ports := read_ports (get "EndpointSpec" spec);
     ss_mounts := nonempty_list (omap read_mount (asArr (fld "Mounts" cs))); ss_networks := nonempty_list networks;
     ss_networkAliases := None; ss_registryAuth := None; ss_restartPolicy := read_restart (fld "RestartPolicy" tt);
     ss_updateConfig := read_update (get "UpdateConfig" spec); ss_placement := read_placement (fld "Placement" tt);
     ss_healthcheck := read_healthcheck (fld "Healthcheck" cs); ss_resources := read_resources (fld "Resources" tt);
     ss_configs := read_refs "ConfigName" (fld "Configs" cs); ss_secrets := read_refs "SecretName" (fld "Secrets" cs);
     ss_secretEnv := None; ss_secretEnvFileFallback := None; ss_stopGracePeriodNs := asNum (fld "StopGracePeriod" cs);
     ss_logging := None |}.

Definition spec_and_name (inspect : option payload) : option (list (string * payload) * string) :=
  match asObj (fld "Spec" (asObj inspect)) with
  | Some spec => match asStr (get "Name" spec) with Some name => Some (spec, name) | None => None end
  | None => None
  end.

Definition live_image (spec : list (string * payload)) : string :=
  default "" (asStr (fld "Image" (asObj (fld "ContainerSpec" (asObj (get "TaskTemplate" spec)))))).

Definition specFromInspect (inspect : option payload) (networks : list string) : option ServiceSpec :=
  match spec_and_name inspect with
  | Some (spec, name) => Some (unwrapSecretEnv (read_spec spec name (live_image spec) networks))
  | None => None
  end.

(** releases.service.ts: the same specification on another image. *)
Definition promoteSpecFrom (inspect : option payload) (image : string) (networks : list string) : option ServiceSpec :=
  set_image image <$> specFromInspect inspect networks.

(** * The worker's copy of the reader (deploy-canary.core.ts)

    It reads a restart policy without its delay, constraints but no spread
    preferences and no limit per node, a healthcheck without the disabled form, no
    update policy, and leaves the shim on. *)
Definition w_restart (v : option payload) : option RestartPolicy :=
  let restart := asObj v in
  match read_condition (asStr (fld "Condition" restart)) with
  | Some c => Some {| rp_condition := Some c; rp_maxAttempts := asNum (fld "MaxAttempts" restart); rp_delayNs := None |}
  | None => None
  end.

Definition w_placement (v : option payload) : option Placement :=
  match read_strings (fld "Constraints" (asObj v)) with
  | Some c => Some {| pl_constraints := Some c; pl_preferences := None; pl_maxReplicasPerNode := None |}
  | None => None
  end.

Definition w_healthcheck (v : option payload) : option Healthcheck :=
  match asObj v with
  | Some hc => match strings_of (get "Test" hc) with [] => None | test => Some (checks hc test) end
  | None => None
  end.

Definition w_promoteSpecFrom (inspect : option payload) (image : string) (networks : list string) : option ServiceSpec :=
  match spec_and_name inspect with
  | Some (spec, name) =>
      let tt := asObj (get "TaskTemplate" spec) in
      let cs := asObj (fld "ContainerSpec" tt) in
      Some {| ss_name := name; ss_image := image; ss_mode := read_mode (get "Mode" spec); ss_env := read_env (fld "Env" cs);
              ss_command := read_strings (fld "Command" cs); ss_args := read_strings (fld "Args" cs);
              ss_labels := read_labels (get "Labels" spec); ss_ports := read_ports (get "EndpointSpec" spec);
              ss_mounts := nonempty_list (omap read_mount (asArr (fld "Mounts" cs))); ss_networks := nonempty_list networks;
              ss_networkAliases := None; ss_registryAuth := None; ss_restartPolicy := w_restart (fld "RestartPolicy" tt);
              ss_updateConfig := None; ss_placement := w_placement (fld "Placement" tt);
              ss_healthcheck := w_healthcheck (fld "Healthcheck" cs); ss_resources := read_resources (fld "Resources" tt);
              ss_configs := read_refs "ConfigName" (fld "Configs" cs); ss_secrets := read_refs "SecretName" (fld "Secrets" cs);
              ss_secretEnv := None; ss_secretEnvFileFallback := None; ss_stopGracePeriodNs := asNum (fld "StopGracePeriod" cs);
              ss_logging := None |}
  | None => None
  end.

(** * What reading back a body gives

    Docker answers [service inspect] with the body it was sent under [Spec]; it
    keeps network ids, so the names come from the inventory.  What a body means to
    Docker without saying it is said by the specification read back: the number of
    replicas, the owner and mode of a mounted secret.  What it says in vain is
    dropped: empty lists, a restart policy without a condition. *)

Definition settle_mode (m : option Mode) : Mode :=
  if default false (md_global <$> m) then {| md_replicated := None; md_global := true |}
  else {| md_replicated := Some (default (num 1) (m ≫= md_replicated)); md_global := false |}.

Definition settle_entries (o : option (list (string * string))) : option (list (string * string)) :=
  o ≫= (fun m => nonempty_list (own_order m)).

Definition settle_mount (m : Mount) : Mount :=
  {| mt_type := mt_type m; mt_source := truthy_str (mt_source m); mt_target := mt_target m;
     mt_readOnly := if default false (mt_readOnly m) then Some true else None |}.

Definition settle_list {A} (f : A -> A) (o : option (list A)) : option (list A) := o ≫= (fun l => nonempty_list (map f l)).

Definition settle_ref (r : Ref) : Ref :=
  {| rf_source := rf_source r; rf_target := truthy_str (Some (ref_target r)); rf_uid := truthy_str (Some (default "0" (rf_uid r)));
     rf_gid := truthy_str (Some (default "0" (rf_gid r))); rf_mode := Some (default (num 292) (rf_mode r)) |}.

Definition settle_restart (o : option RestartPolicy) : option RestartPolicy :=
  o ≫= (fun r => match rp_condition r with Some _ => Some r | None => None end).

Definition settle_update (o : option UpdateConfig) : option UpdateConfig := o ≫= (fun u => if has_update u then Some u else None).

Definition settle_placement (o : option Placement) : option Placement :=
  o ≫= (fun p =>
    let p := {| pl_constraints := pl_constraints p ≫= nonempty_list;
                pl_preferences := settle_list (fun d => "spread=" +:+ descriptor d) (pl_preferences p);
                pl_maxReplicasPerNode := positive_num (pl_maxReplicasPerNode p) |} in
    match pl_constraints p, pl_preferences p, pl_maxReplicasPerNode p with None, None, None => None | _, _, _ => Some p end).

Definition settle_bucket (o : option Bucket) : option Bucket :=
  o ≫= (fun b => match bk_cpus b, bk_memoryBytes b with
                 | None, None => None
                 | cpus, mem => Some {| bk_cpus := (fun c => ofNanoCpus (toNanoCpus c)) <$> cpus; bk_memoryBytes := mem |}
                 end).

Definition settle_resources (o : option Resources) : option Resources :=
  o ≫= (fun r => match settle_bucket (rs_limits r), settle_bucket (rs_reservations r) with
                 | None, None => None
                 | l, r => Some {| rs_limits := l; rs_reservations := r |}
                 end).

Definition settle_healthcheck (o : option Healthcheck) : option Healthcheck :=
  o ≫= (fun h =>
    if default false (hc_disable h) then Some disabled
    else match hc_test h with
         | None | Some [] => None
         | Some test =>
             if bool_decide (test = ["NONE"]) then Some disabled
             else Some {| hc_test := Some test; hc_intervalNs := hc_intervalNs h; hc_timeoutNs := hc_timeoutNs h;
                          hc_startPeriodNs := hc_startPeriodNs h; hc_retries := hc_retries h; hc_disable := None |}
         end).

Definition settled (s : ServiceSpec) (networks : list string) : ServiceSpec :=
  {| ss_name := ss_name s; ss_image := ss_image s; ss_mode := Some (settle_mode (ss_mode s)); ss_env := settle_entries (ss_env s);
     ss_command := ss_command s ≫= nonempty_list; ss_args := ss_args s ≫= nonempty_list; ss_labels := settle_entries (ss_labels s);
     ss_ports := ss_ports s ≫= nonempty_list; ss_mounts := settle_list settle_mount (ss_mounts s);
     ss_networks := nonempty_list networks; ss_networkAliases := None; ss_registryAuth := None;
     ss_restartPolicy := settle_restart (ss_restartPolicy s); ss_updateConfig := settle_update (ss_updateConfig s);
     ss_placement := settle_placement (ss_placement s); ss_healthcheck := settle_healthcheck (ss_healthcheck s);
     ss_resources := settle_resources (ss_resources s); ss_configs := settle_list settle_ref (ss_configs s);
     ss_secrets := settle_list settle_ref (ss_secrets s); ss_secretEnv := None; ss_secretEnvFileFallback := None;
     ss_stopGracePeriodNs := ss_stopGracePeriodNs s; ss_logging := None |}.

(** Names that are not empty, keys without the sign that ends them. *)
Record spec_ok (s : ServiceSpec) : Prop := {
  so_name : ss_name s <> "";
  so_env : NoDup (map fst (env_of s)) /\ Forall (fun k => k <> "" /\ no_char "=" k = true) (map fst (env_of s));
  so_labels : NoDup (map fst (labels_of s));
  so_mounts : Forall (fun m => mt_target m <> "") (default [] (ss_mounts s));
  so_refs : Forall (fun r => rf_source r <> "") (default [] (ss_configs s) ++ default [] (ss_secrets s));
  so_spread : Forall (fun d => descriptor d <> "") (default [] (ss_placement s ≫= pl_preferences))
}.

(** * Fields of a body *)

Lemma get_fields {A} k (l : list (string * option A)) : bool_decide (NoDup (map fst l)) = true -> get k (fields l) = get k l ≫= id.
Proof.
  intros Hd%bool_decide_eq_true. induction l as [|[k' [v|]] l IH]; simpl in *; [done| |]; apply NoDup_cons in Hd as [Hn Hd];
    specialize (IH Hd); destruct (String.eqb_spec k k') as [->|]; try done.
  rewrite IH. destruct (get k' l) eqn:E; [|done]. exfalso. apply Hn, get_keys. by eexists.
Qed.

Ltac fields := rewrite ?get_fields by reflexivity; cbn [get String.eqb Ascii.eqb Bool.eqb mbind option_bind id].

Lemma omap_step {A B} (f : A -> option B) x l : omap f (x :: l) = match f x with Some y => y :: omap f l | None => omap f l end.
Proof. done. Qed.

Lemma asStr_str s : asStr (Some (PStr s)) = truthy_str (Some s).
Proof. done. Qed.

Lemma asNum_opt (o : option number) : asNum (PNum <$> o) = o.
Proof. by destruct o. Qed.

Lemma strings_strs l : strings_of (Some (strs l)) = l.
Proof. unfold strings_of, strs. cbn [asArr]. induction l as [|x l IH]; [done|]. cbn [map]. by rewrite omap_step, IH. Qed.

Lemma read_strings_opt o : read_strings (strs <$> o) = o ≫= nonempty_list.
Proof. destruct o; simpl; [|done]. unfold read_strings. by rewrite strings_strs. Qed.

Lemma truthy_ne s : s <> "" -> truthy_str (Some s) = Some s.
Proof. intros H. simpl. by apply String.eqb_neq in H as ->. Qed.

Lemma read_mode_body m : read_mode (Some (mode_body m)) = Some (settle_mode m).
Proof. unfold mode_body, settle_mode. destruct m as [[r []]|]; [done|by destruct r|done]. Qed.

Lemma read_ports_body o : read_ports ((fun l => PObj [("Ports", PArr (map port_body l))]) <$> o) = o ≫= nonempty_list.
Proof.
  destruct o as [l|]; [|done]. cbn [mbind option_bind]. unfold read_ports. f_equal.
  change (omap read_port (map port_body l) = l). induction l as [|p l IH]; [done|]. cbn [map]. rewrite omap_step, IH.
  assert (E : read_port (port_body p) = Some p); [|by rewrite E].
  unfold port_body, read_port, obj, fld. destruct p as [t pu pr md]. cbn [asObj mbind option_bind]. fields. rewrite asNum_opt.
  by destruct pr, md.
Qed.

Lemma omap_settled {A} (f : A -> A) (body : A -> payload) (read : payload -> option A) l :
  Forall (fun x => read (body x) = Some (f x)) l -> omap read (map body l) = map f l.
Proof. induction 1 as [|x l Hx _ IH]; [done|]. cbn [map]. by rewrite omap_step, Hx, IH. Qed.

Lemma read_mount_body m : mt_target m <> "" -> read_mount (mount_body m) = Some (settle_mount m).
Proof.
  intros Ht. unfold read_mount, mount_body, obj, fld. cbn [asObj mbind option_bind]. fields.
  rewrite asStr_str, truthy_ne by done. destruct m as [ty so ta ro]. unfold settle_mount. simpl in *.
  destruct ty, so, ro as [[]|]; reflexivity.
Qed.

Lemma read_ref_body key r : key <> "File" -> rf_source r <> "" -> read_ref key (PObj (ref_body key r)) = Some (settle_ref r).
Proof.
  intros Hk Hs. unfold read_ref, ref_body, fld. cbn [asObj mbind option_bind get]. rewrite String.eqb_refl.
  rewrite asStr_str, truthy_ne by done. apply not_eq_sym, String.eqb_neq in Hk. rewrite Hk. reflexivity.
Qed.

Lemma read_restart_body o : read_restart (restart_body <$> o) = settle_restart o.
Proof.
  destruct o as [[c a d]|]; [|done]. unfold read_restart, restart_body, obj, fld. cbn [fmap option_fmap option_map asObj mbind option_bind].
  fields. cbn [rp_maxAttempts rp_delayNs rp_condition]. rewrite !asNum_opt. by destruct c as [[]|].
Qed.

Lemma read_update_body o : read_update (update_body <$> o) = settle_update o.
Proof.
  destruct o as [[p or fa m d]|]; [|done]. unfold read_update, update_body, obj. cbn [fmap option_fmap option_map asObj].
  fields. cbn [uc_parallelism uc_order uc_failureAction uc_monitorNs uc_delayNs]. rewrite !asNum_opt.
  assert (Eo : read_order (asStr ((fun o => PStr (order_str o)) <$> or)) = or) by (by destruct or as [[]|]).
  assert (Ef : read_action (asStr ((fun a => PStr (action_str a)) <$> fa)) = fa) by (by destruct fa as [[]|]).
  rewrite Eo, Ef. done.
Qed.

Lemma read_bucket_body o : read_bucket (bucket_body <$> o) = settle_bucket o.
Proof.
  destruct o as [[c m]|]; [|done]. unfold read_bucket, bucket_body, obj, fld. cbn [fmap option_fmap option_map asObj mbind option_bind].
  fields. cbn [bk_cpus bk_memoryBytes]. rewrite asNum_opt. by destruct c, m.
Qed.

Lemma read_resources_body o : read_resources (resources_body <$> o) = settle_resources o.
Proof.
  destruct o as [[l r]|]; [|done]. unfold read_resources, resources_body, obj, fld. cbn [fmap option_fmap option_map asObj mbind option_bind].
  fields. cbn [rs_limits rs_reservations]. rewrite !read_bucket_body. done.
Qed.

Lemma read_preferences l : Forall (fun d => descriptor d <> "") l ->
  omap read_preference (map spread_body l) = map (fun d => "spread=" +:+ descriptor d) l.
Proof.
  intros H. induction H as [|d l Hd _ IH]; [done|]. cbn [map]. rewrite omap_step, IH.
  assert (E : read_preference (spread_body d) = Some ("spread=" +:+ descriptor d)); [|by rewrite E].
  unfold read_preference, spread_body, fld. cbn [asObj mbind option_bind get String.eqb Ascii.eqb Bool.eqb].
  by rewrite asStr_str, truthy_ne.
Qed.

Lemma read_placement_body o : Forall (fun d => descriptor d <> "") (default [] (o ≫= pl_preferences)) ->
  read_placement (placement_body <$> o) = settle_placement o.
Proof.
  destruct o as [[c p m]|]; [|done]. intros Hp. unfold read_placement, placement_body, obj, fld.
  cbn [fmap option_fmap option_map asObj mbind option_bind]. fields. cbn [pl_constraints pl_preferences pl_maxReplicasPerNode].
  rewrite asNum_opt, read_strings_opt. unfold settle_placement, settle_list. cbn [mbind option_bind pl_constraints pl_preferences pl_maxReplicasPerNode].
  destruct p as [l|]; [|done]. cbn [fmap option_fmap option_map asArr]. rewrite read_preferences by done. done.
Qed.

Lemma read_healthcheck_body o : read_healthcheck (healthcheck_body <$> o) = settle_healthcheck o.
Proof.
  destruct o as [[t i to sp r d]|]; [|done]. unfold read_healthcheck, healthcheck_body, settle_healthcheck.
  cbn [fmap option_fmap option_map mbind option_bind hc_disable hc_test]. destruct (default false d); [done|].
  unfold obj. cbn [asObj]. unfold checks. cbn [hc_intervalNs hc_timeoutNs hc_startPeriodNs hc_retries hc_test]. fields. rewrite !asNum_opt.
  destruct t as [t|]; [|done]. cbn [fmap option_fmap option_map]. rewrite strings_strs. destruct t as [|x t]; [done|]. done.
Qed.

(** ** Entries *)

Lemma cut_eq_entry k v : no_char "=" k = true -> cut_eq (k +:+ String "=" v) = Some (k, v).
Proof.
  unfold no_char. induction k as [|c k IH]; simpl; [done|]. intros [Hc Hk]%andb_true_iff. apply negb_true_iff in Hc.
  by rewrite Hc, IH.
Qed.

Lemma js_sort_of_map {A B} (f : A -> B) c l : js_sort c (map f l) = map f (js_sort (fun x y => c (f x) (f y)) l).
Proof.
  assert (Hi : forall x l, insert_by c (f x) (map f l) = map f (insert_by (fun x y => c (f x) (f y)) x l)).
  { intros x. induction l0 as [|y l0 IH]; simpl; [done|]. rewrite IH. by destruct (0 <? _). }
  induction l as [|x l IH]; simpl; [done|]. unfold js_sort in *. by rewrite IH, Hi.
Qed.

Lemma bfilter_map {A B} (f : A -> B) (g : B -> bool) l : List.filter g (map f l) = map f (List.filter (fun x => g (f x)) l).
Proof. induction l as [|x l IH]; simpl; [done|]. rewrite IH. by destruct (g (f x)). Qed.

(** The order of an object looks at its keys only. *)
Lemma own_order_map {A B} (f : A -> B) (m : list (string * A)) :
  own_order (map (fun kv => (fst kv, f (snd kv))) m) = map (fun kv => (fst kv, f (snd kv))) (own_order m).
Proof. unfold own_order. by rewrite !bfilter_map, js_sort_of_map, map_app. Qed.

Lemma from_own {A} (m : list (string * A)) : NoDup (map fst m) -> from_entries (own_order m) = own_order m.
Proof. intros Hd. apply from_entries_id; [by rewrite own_order_keys|apply own_order_idemp]. Qed.

Lemma env_pairs_back l : Forall (fun k => k <> "" /\ no_char "=" k = true) (map fst l) -> omap env_pair (map env_entry l) = l.
Proof.
  induction l as [|[k v] l IH]; [done|]. intros [[Hne Hc] Hl]%Forall_cons. cbn [map]. rewrite omap_step, IH by done.
  assert (E : env_pair (env_entry (k, v)) = Some (k, v)); [|by rewrite E]. unfold env_pair, env_entry. cbn [fst snd]. change (k +:+ "=" +:+ v) with (k +:+ String "=" v). rewrite cut_eq_entry by done.
  unfold nonempty. simpl in Hne. apply String.eqb_neq in Hne. by rewrite Hne.
Qed.

Lemma read_env_body o : NoDup (map fst (default [] o)) -> Forall (fun k => k <> "" /\ no_char "=" k = true) (map fst (default [] o)) ->
  read_env ((fun m => strs (map env_entry (own_order m))) <$> o) = settle_entries o.
Proof.
  destruct o as [m|]; [|done]. cbn [default from_option id]. intros Hd Hk. unfold read_env, settle_entries.
  cbn [fmap option_fmap option_map mbind option_bind]. rewrite strings_strs. f_equal.
  rewrite env_pairs_back; [by apply from_own|]. by rewrite own_order_keys.
Qed.

Lemma read_labels_body o : NoDup (map fst (default [] o)) -> read_labels (map_payload <$> o) = settle_entries o.
Proof.
  destruct o as [m|]; [|done]. cbn [default from_option id]. intros Hd. unfold read_labels, settle_entries, map_payload.
  cbn [fmap option_fmap option_map asObj mbind option_bind]. f_equal.
  set (body := fun kv : string * string => (fst kv, PStr (snd kv))).
  assert (Eo : own_order (map body (own_order m)) = map body (own_order m)).
  { unfold body. by rewrite (own_order_map PStr), own_order_idemp. }
  rewrite Eo. assert (E : forall l, omap string_field (map body l) = l).
  { induction l as [|[k v] l IH]; [done|]. cbn [map]. by rewrite omap_step, IH. }
  rewrite E. by apply from_own.
Qed.

(** ** The whole body *)

Lemma read_refs_body key o : key <> "File" -> Forall (fun r => rf_source r <> "") (default [] o) ->
  read_refs key (refs key <$> o) = settle_list settle_ref o.
Proof.
  intros Hk Ho. destruct o as [l|]; [|done]. unfold read_refs, settle_list. cbn [fmap option_fmap option_map asArr refs mbind option_bind].
  f_equal. apply (omap_settled settle_ref (fun r => PObj (ref_body key r))). eapply Forall_impl; [exact Ho|].
  intros r Hr. by apply read_ref_body.
Qed.

Lemma read_mounts_body o : Forall (fun m => mt_target m <> "") (default [] o) ->
  nonempty_list (omap read_mount (asArr ((fun l => PArr (map mount_body l)) <$> o))) = settle_list settle_mount o.
Proof.
  intros Ho. destruct o as [l|]; [|done]. unfold settle_list. cbn [fmap option_fmap option_map asArr mbind option_bind]. f_equal.
  apply (omap_settled settle_mount mount_body). eapply Forall_impl; [exact Ho|]. intros m. by apply read_mount_body.
Qed.

(** [docker service inspect] of a body that was sent. *)
Definition inspected (body : payload) : option payload := Some (PObj [("Spec", body)]).

Section body.
Context (s : ServiceSpec) (task : payload).

Lemma body_name : ss_name s <> "" -> spec_and_name (inspected (service_body s task)) =
  Some (match service_body s task with PObj m => m | _ => [] end, ss_name s).
Proof.
  intros Hn. unfold spec_and_name, inspected, service_body, obj, fld. cbn [asObj mbind option_bind get String.eqb Ascii.eqb Bool.eqb].
  fields. by rewrite asStr_str, truthy_ne.
Qed.
End body.

(** The image is read apart: an empty one reads as none.  The references may carry
    ids, which the reader does not look at. *)
Lemma read_spec_body s nets log configs secrets networks : spec_ok s ->
  read_refs "ConfigName" configs = settle_list settle_ref (ss_configs s) ->
  read_refs "SecretName" secrets = settle_list settle_ref (ss_secrets s) ->
  let body := service_body s (task_body s (container_body s configs secrets) nets log) in
  exists spec, spec_and_name (inspected body) = Some (spec, ss_name s) /\ live_image spec = ss_image s /\
    read_spec spec (ss_name s) (ss_image s) networks = settled s networks.
Proof.
  intros [Hn [He1 He2] Hl Hm Hr Hp] Hc Hs body. eexists. split; [by apply body_name|].
  unfold body, service_body, obj. split.
  - unfold live_image. fields. unfold task_body, obj, fld. cbn [asObj mbind option_bind]. fields. unfold container_body, obj.
    cbn [asObj mbind option_bind]. fields. rewrite asStr_str. simpl. by destruct (String.eqb_spec (ss_image s) "") as [->|].
  - unfold read_spec. fields. unfold task_body, obj, fld. cbn [asObj mbind option_bind]. fields. unfold container_body, obj.
    cbn [asObj mbind option_bind]. fields.
    rewrite read_mode_body, read_ports_body, read_restart_body, read_update_body, read_placement_body, read_healthcheck_body,
      read_resources_body, !read_strings_opt, asNum_opt, read_env_body, read_labels_body, read_mounts_body, Hc, Hs by done.
    reflexivity.
Qed.

(** ** Through the agent *)

Lemma resolve_refs_read what key id_key l rs p : key <> "File" -> id_key <> key -> id_key <> "File" ->
  Forall (fun r => rf_source r <> "") (default [] rs) ->
  resolve_refs what key id_key l rs = Ok p -> read_refs key p = settle_list settle_ref rs.
Proof.
  intros Hk Hi Hf. destruct rs as [rs|]; simpl; [|by intros _ [= <-]]. intros Hr (ps & Hp & [= <-])%res_bind_Ok.
  apply res_map_Ok in Hp. unfold read_refs, settle_list. cbn [asArr mbind option_bind]. f_equal.
  induction Hp as [|r q rs ps Hq _ IH]; [done|]. apply Forall_cons in Hr as [Hr Hrs]. cbn [map]. rewrite omap_step, IH by done.
  assert (E : read_ref key q = Some (settle_ref r)); [|by rewrite E]. unfold resolve_ref in Hq.
  unfold nonempty in Hq. pose proof Hr as Hne. apply String.eqb_neq in Hne. rewrite Hne in Hq. cbn [negb] in Hq.
  destruct (truthy_str _) as [id|]; [|done]. injection Hq as <-. rewrite <- (read_ref_body key r) by done.
  unfold read_ref, ref_body, fld. cbn [asObj mbind option_bind get app]. rewrite String.eqb_refl.
  apply not_eq_sym, String.eqb_neq in Hk as Hk'. by rewrite Hk'.
Qed.

(** Resolving the networks touches nothing that is read back. *)
Lemma resolve_networks_settled listed s nets : settled (resolveSpecNetworks listed s) nets = settled s nets /\
  (spec_ok s -> spec_ok (resolveSpecNetworks listed s)) /\
  ss_configs (resolveSpecNetworks listed s) = ss_configs s /\ ss_secrets (resolveSpecNetworks listed s) = ss_secrets s.
Proof.
  assert (Hs : settled (strip_aliases s) nets = settled s nets /\ (spec_ok s -> spec_ok (strip_aliases s)) /\
    ss_configs (strip_aliases s) = ss_configs s /\ ss_secrets (strip_aliases s) = ss_secrets s).
  { unfold strip_aliases. destruct (ss_networkAliases s); [|done]. repeat split; destruct H; try done; by destruct so_env0. }
  unfold resolveSpecNetworks. destruct (ss_networks (strip_aliases s) ≫= nonempty_list); [|done].
  destruct listed; [|done]. cbv zeta. destruct Hs as (<- & Hs2 & <- & <-).
  destruct (ss_networkAliases _); (split; [done|split; [|done]]); intros H%Hs2; destruct H as [? [? ?] ? ? ? ?]; by repeat split.
Qed.

(** What the agent sends, when it creates the service and when it updates it. *)
Definition sends (sw : Swarm) (s : ServiceSpec) (body : payload) : Prop :=
  create_body sw s = Ok body \/ exists live, update_call sw live s = Ok body.

Lemma sends_reads_back sw s body networks : spec_ok s -> sends sw s body ->
  exists spec, spec_and_name (inspected body) = Some (spec, ss_name s) /\ live_image spec = ss_image s /\
    read_spec spec (ss_name s) (ss_image s) networks = settled s networks.
Proof.
  intros Hok Hb. destruct (resolve_networks_settled (sw_networks sw) s networks) as (Hs & Hok' & Hc & Hse).
  specialize (Hok' Hok). set (r := resolveSpecNetworks (sw_networks sw) s) in *.
  assert (Hname : ss_name r = ss_name s) by (by apply (f_equal ss_name) in Hs).
  assert (Himg : ss_image r = ss_image s) by (by apply (f_equal ss_image) in Hs).
  assert (Hp : exists configs secrets nets log,
    resolve_refs "config" "ConfigName" "ConfigID" (sw_configs sw) (ss_configs r) = Ok configs /\
    resolve_refs "secret" "SecretName" "SecretID" (sw_secrets sw) (ss_secrets r) = Ok secrets /\
    body = service_body r (task_body r (container_body r configs secrets) nets log)).
  { destruct Hb as [Hb|[live Hb]]; unfold create_body, update_call, prepareServiceOptions in Hb; fold r in Hb;
    apply res_bind_Ok in Hb as ([r' cont] & Hb & Hbody); apply res_bind_Ok in Hb as (secrets & Hsec & Hb);
    apply res_bind_Ok in Hb as (configs & Hconf & Hb); injection Hb as <- <-; injection Hbody as <-; eauto 10. }
  destruct Hp as (configs & secrets & nets & log & Hconf & Hsec & ->).
  pose proof (so_refs _ Hok') as Hr. apply Forall_app in Hr as [Hr1 Hr2].
  destruct (read_spec_body r nets log configs secrets networks Hok') as (spec & H1 & H2 & H3).
  - by eapply resolve_refs_read; [..|exact Hconf].
  - by eapply resolve_refs_read; [..|exact Hsec].
  - exists spec. rewrite <- Hname, <- Himg, <- Hs. by rewrite Hname in *.
Qed.

(** ** Through the shim as well *)

Lemma get_perm {A} k (m m' : list (string * A)) : NoDup (map fst m) -> m ≡ₚ m' -> get k m = get k m'.
Proof.
  intros Hd Hp. assert (Hd' : NoDup (map fst m')) by (by rewrite <- Hp). destruct (get k m) as [v|] eqn:E.
  - symmetry. apply get_unique; [done|]. apply get_elem in E. by rewrite <- Hp.
  - destruct (get k m') as [v|] eqn:E'; [|done]. apply get_elem in E'. rewrite <- Hp in E'.
    rewrite (get_unique _ _ _ Hd E') in E. done.
Qed.

Lemma get_own_order {A} k (m : list (string * A)) : NoDup (map fst m) -> get k (own_order m) = get k m.
Proof. intros Hd. apply get_perm; [by rewrite own_order_keys|apply own_order_perm]. Qed.

Lemma own_order_app {A} (m m' : list (string * A)) : Forall (fun k => is_index k = false) (map fst m') ->
  own_order (m ++ m') = own_order m ++ m'.
Proof.
  intros H. unfold own_order. rewrite !List.filter_app.
  assert (E1 : List.filter (fun kv : string * A => is_index (fst kv)) m' = []).
  { apply bfilter_nil. intros x Hx. rewrite Forall_forall in H. apply H, list_elem_of_fmap. by exists x. }
  assert (E2 : List.filter (fun kv : string * A => negb (is_index (fst kv))) m' = m').
  { apply bfilter_id, Forall_forall. intros x Hx. rewrite Forall_forall in H. rewrite H; [done|]. apply list_elem_of_fmap. by exists x. }
  by rewrite E1, E2, app_nil_r, app_assoc.
Qed.

Lemma not_digits k : all_chars is_digit k = false -> is_index k = false.
Proof. intros H. unfold is_index, array_index, all_digits. by rewrite H, andb_false_r. Qed.

Lemma file_var_not_index n : is_index (file_var n) = false.
Proof. apply not_digits. unfold file_var. rewrite all_chars_app. by rewrite andb_false_r. Qed.

Lemma pointers_not_index names : Forall (fun k => is_index k = false) (map fst (pointers names)).
Proof.
  unfold pointers. rewrite map_map. apply Forall_forall. intros k (n & -> & _)%list_elem_of_fmap. apply file_var_not_index.
Qed.

Lemma drop_names_NoDup names env : NoDup (map fst env) -> NoDup (map fst (drop_names names env)).
Proof.
  unfold drop_names. revert env. induction names as [|n names IH]; intros env Hd; simpl; [done|]. apply IH.
  unfold obj_del. clear IH. induction env as [|[k v] env IH]; simpl in *; [done|]. apply NoDup_cons in Hd as [Hk Hd].
  destruct (String.eqb k n); simpl; [by apply IH|]. apply NoDup_cons. split; [|by apply IH].
  intros Hin. apply Hk. apply list_elem_of_fmap in Hin as ([k' v'] & -> & Hin). apply bfilter_elem in Hin as [Hin _].
  apply list_elem_of_fmap. by exists (k', v').
Qed.

Lemma drop_names_keys names env k : k ∈ map fst (drop_names names env) -> k ∈ map fst env.
Proof. rewrite <- !get_keys, get_drop_names. destruct (mem k names); [by intros [? ?]|done]. Qed.

Lemma marked_set k (v : string) m : is_index k = false -> NoDup (map fst m) -> get k m = None ->
  own_order (obj_set k v m) = own_order m ++ [(k, v)] /\ get k (own_order (obj_set k v m)) = Some v /\
  obj_del k (own_order (obj_set k v m)) = own_order m.
Proof.
  intros Hi Hd Hk. assert (E : own_order (obj_set k v m) = own_order m ++ [(k, v)]).
  { rewrite obj_set_absent by done. apply own_order_app. by repeat constructor. }
  split; [done|]. assert (Hg : get k (own_order m) = None) by (by rewrite get_own_order). rewrite E. split.
  - rewrite get_app, Hg. simpl. by rewrite String.eqb_refl.
  - rewrite obj_del_app, obj_del_absent by done. unfold obj_del. simpl. rewrite String.eqb_refl. simpl. apply app_nil_r.
Qed.

(** A service as the controller sees it after a deploy of [s]; what it keeps of
    [s] and what it loses is spelled out by [observed_kept] and
    [observed_forgotten]. *)
Definition observed (shell : bool) (s : ServiceSpec) (networks : list string) : ServiceSpec :=
  match wanted_names s with
  | [] => settled s networks
  | _ =>
      set_secretEnvFileFallback (if shell then None else Some (wanted_names s))
        (set_secretEnv (Some (wanted_names s))
          (set_configs (if shell then nonempty_list (map settle_ref (List.filter (fun r => negb (is_shim_config r)) (default [] (ss_configs s))))
                        else settle_list settle_ref (ss_configs s))
            (set_env (nonempty_list (own_order (drop_names (wanted_names s) (env_of s))))
              (set_labels (Some (own_order (labels_of s))) (settled s networks)))))
  end.

Section observed.
Context (s : ServiceSpec) (networks : list string) (Hu : user_spec s) (Hok : spec_ok s) (Hne : wanted_names s <> []).
Context (Hi : independent (wanted_names s) (env_of s)).

Lemma wrapped_ok image w : wrapSecretEnv s image = Ok w -> spec_ok w.
Proof using Hu Hok Hne Hi.
  intros Hw. destruct (wrap_inv _ _ _ Hu Hne Hw) as (_ & argv & _ & _ & ->). destruct Hok as [H1 [H2 H3] H4 H5 H6 H7].
  split; try done; unfold env_of, labels_of; cbn [set_labels set_configs set_env set_args set_command set_secretEnvFileFallback set_secretEnv ss_env ss_labels ss_configs ss_secrets default from_option id].
  - split; [by apply obj_set_NoDup, drop_names_NoDup|]. apply Forall_forall. intros k Hk%obj_set_keys_elem.
    destruct Hk as [->|Hk%drop_names_keys]; [done|]. rewrite Forall_forall in H3. by apply H3.
  - by apply obj_set_NoDup.
  - apply Forall_app in H6 as [H6 H8]. apply Forall_app. split; [|done]. apply Forall_app. split; [|by repeat constructor].
    apply Forall_forall. intros r [Hr _]%bfilter_elem. rewrite Forall_forall in H6. by apply H6.
Qed.

Lemma filed_ok : spec_ok (filed s).
Proof using Hu Hok Hne Hi.
  destruct Hok as [H1 [H2 H3] H4 H5 H6 H7]. split; try done; unfold filed, env_of, labels_of;
    cbn [set_labels set_env set_secretEnvFileFallback set_secretEnv ss_env ss_labels default from_option id].
  - pose proof (js_uniq_NoDup (default [] (ss_secretEnv s))) as Hd. fold (wanted_names s) in Hd. rewrite map_app. split.
    + apply NoDup_app. split; [by apply drop_names_NoDup|]. split.
      * intros k Hk%drop_names_keys Hp. unfold pointers in Hp. rewrite map_map in Hp. apply list_elem_of_fmap in Hp as (n & -> & Hn).
        apply get_keys in Hk as [v Hv]. apply (in_pointers _ _ Hi) in Hn as [_ Hn]. simpl in Hv. unfold env_of in Hn. by rewrite Hv in Hn.
      * unfold pointers. rewrite map_map. apply NoDup_fmap_2; [|done]. intros a b. apply file_var_inj.
    + apply Forall_app. split.
      * apply Forall_forall. intros k Hk%drop_names_keys. rewrite Forall_forall in H3. by apply H3.
      * unfold pointers. rewrite map_map. apply Forall_forall. intros k (n & -> & Hn)%list_elem_of_fmap.
        pose proof (in_names _ _ Hi) as Hnames. rewrite Forall_forall in Hnames. apply Hnames in Hn. simpl. unfold file_var. split.
        -- destruct n; done.
        -- unfold no_char. rewrite all_chars_app, andb_true_iff. split; [|done]. unfold isEnvName in Hn. apply andb_true_iff in Hn as [_ Hn].
           eapply all_chars_impl; [|exact Hn]. intros c Hc. by destruct c as [[] [] [] [] [] [] [] []].
  - by apply obj_set_NoDup.
Qed.

Lemma settle_filter l : List.filter (fun r => negb (is_shim_config r)) (map settle_ref l) =
  map settle_ref (List.filter (fun r => negb (is_shim_config r)) l).
Proof. exact (bfilter_map settle_ref _ l). Qed.

Lemma unwrap_settled_wrapped image w : wrapSecretEnv s image = Ok w ->
  unwrapSecretEnv (settled w networks) = observed true s networks.
Proof using Hu Hok Hne Hi.
  intros Hw. destruct (wrap_inv _ _ _ Hu Hne Hw) as (_ & argv & _ & _ & ->). destruct Hu as [Ha Hf Hc Hv [Ht1 Ht2]].
  set (w := set_labels _ _). destruct Hok as [_ [He _] Hl _ _ _].
  assert (El : labels_of (settled w networks) = own_order (obj_set SECRET_ENV_ARGV_LABEL (argv_label s) (labels_of s))) by apply default_nonempty.
  assert (Ee : env_of (settled w networks) = own_order (obj_set SECRET_ENV_VAR (join "," (wanted_names s)) (drop_names (wanted_names s) (env_of s))))
    by apply default_nonempty.
  destruct (marked_set SECRET_ENV_ARGV_LABEL (argv_label s) (labels_of s)) as (L1 & L2 & L3); [done..|].
  destruct (marked_set SECRET_ENV_VAR (join "," (wanted_names s)) (drop_names (wanted_names s) (env_of s))) as (E1 & E2 & E3);
    [done|by apply drop_names_NoDup|rewrite get_drop_names, Hv; by destruct (mem _ _)|].
  rewrite (unwrap_marked _ s (wanted_names s)); try done.
  - assert (Ec : default [] (ss_configs (settled w networks)) =
      map settle_ref (List.filter (fun r => negb (is_shim_config r)) (default [] (ss_configs s)) ++ [shim_ref])) by apply default_nonempty.
    rewrite El, Ee, L3, E3, Ec, settle_filter, filter_twice by done. unfold own_command. unfold observed.
    destruct (wanted_names s) as [|n ns]; [done|]. unfold w. by destruct s.
  - rewrite El, L1, get_app, get_own_order, Hf by done. done.
  - by rewrite El, L2.
  - by rewrite Ee, E2.
  - apply js_uniq_NoDup.
  - apply Hi.
Qed.

Lemma unwrap_settled_filed : unwrapSecretEnv (settled (filed s) networks) = observed false s networks.
Proof using Hu Hok Hne Hi.
  destruct Hu as [Ha Hf Hc Hv [Ht1 Ht2]]. destruct Hok as [_ [He _] Hl _ _ _].
  assert (El : labels_of (settled (filed s) networks) = own_order (obj_set SECRET_ENV_FILE_LABEL (join "," (wanted_names s)) (labels_of s))) by apply default_nonempty.
  assert (Ee : env_of (settled (filed s) networks) = own_order (drop_names (wanted_names s) (env_of s)) ++ pointers (wanted_names s)).
  { etransitivity; [apply default_nonempty|]. apply own_order_app, pointers_not_index. }
  destruct (marked_set SECRET_ENV_FILE_LABEL (join "," (wanted_names s)) (labels_of s)) as (L1 & L2 & L3); [done..|].
  rewrite (unwrap_pointed _ (wanted_names s) (own_order (drop_names (wanted_names s) (env_of s)))); try done.
  - rewrite El, L3. unfold observed. destruct (wanted_names s) as [|n ns] eqn:En; [done|]. unfold filed. by destruct s.
  - by rewrite El, L2.
  - intros n Hn. rewrite get_own_order by (by apply drop_names_NoDup). rewrite get_drop_names. destruct (mem _ _); [done|].
    by apply (in_pointers _ _ Hi).
  - apply js_uniq_NoDup.
  - apply Hi.
  - rewrite El, L1, get_app, get_own_order, Ha by done. done.
  - assert (E : ss_command (settled (filed s) networks) = ss_command s ≫= nonempty_list) by done.
    rewrite E, tidy_bind by done. done.
Qed.
End observed.

Lemma settled_user s networks : user_spec s -> spec_ok s -> user_spec (settled s networks).
Proof.
  intros [Ha Hf Hc Hv [Ht1 Ht2]] [_ [He _] Hl _ _ _].
  assert (El : labels_of (settled s networks) = own_order (labels_of s)).
  { unfold labels_of, settled, settle_entries. simpl. destruct (ss_labels s) as [m|]; [|done]. apply default_nonempty. }
  assert (Ee : env_of (settled s networks) = own_order (env_of s)).
  { unfold env_of, settled, settle_entries. simpl. destruct (ss_env s) as [m|]; [|done]. apply default_nonempty. }
  assert (Ec : ss_command (settled s networks) = ss_command s) by (by apply tidy_bind).
  assert (Eg : ss_args (settled s networks) = ss_args s) by (by apply tidy_bind).
  split; rewrite ?El, ?Ee, ?Ec, ?Eg, ?get_own_order; done.
Qed.

(** A deploy reads back as [observed] says, for a service with or without secret
    variables, created or updated. *)
Lemma read_back_observed sw image shell shim s w body networks : user_spec s -> spec_ok s ->
  independent (wanted_names s) (env_of s) -> prepareSecretEnv image shell shim s = Ok w -> sends sw w body ->
  specFromInspect (inspected body) networks = Some (observed shell s networks).
Proof.
  intros Hu Hok Hi Hw Hb. assert (Hwok : spec_ok w /\ unwrapSecretEnv (settled w networks) = observed shell s networks).
  { destruct (prepare_cases _ _ _ _ _ Hu Hi Hw) as [[Hz ->]|[(Hne & -> & _ & ->)|(Hne & -> & _ & i & _ & Hwr)]].
    - split; [by destruct Hok|]. unfold observed. rewrite Hz. change (settled (without_env s) networks) with (settled s networks).
      by apply unwrap_user, settled_user.
    - split; [by apply filed_ok|by apply unwrap_settled_filed].
    - split; [by eapply wrapped_ok|by eapply unwrap_settled_wrapped]. }
  destruct Hwok as [Hwok Hun]. destruct (sends_reads_back sw w body networks Hwok Hb) as (spec & H1 & H2 & H3).
  unfold specFromInspect. by rewrite H1, H2, H3, Hun.
Qed.

(** * Reading back twice

    Amounts of processor time that Docker's unit expresses, and no empty target or
    owner of a mounted secret. *)
Definition ref_ok (r : Ref) : Prop := rf_source r <> "" /\ rf_target r <> Some "" /\ rf_uid r <> Some "" /\ rf_gid r <> Some "".

Definition cpus_ok (o : option Bucket) : Prop :=
  forall b c, o = Some b -> bk_cpus b = Some c -> exists n, 0 <= n <= 2 ^ 50 /\ toNanoCpus c = num n.

Record settle_ok (s : ServiceSpec) : Prop := {
  st_refs : Forall ref_ok (default [] (ss_configs s) ++ default [] (ss_secrets s));
  st_limits : cpus_ok (ss_resources s ≫= rs_limits);
  st_reservations : cpus_ok (ss_resources s ≫= rs_reservations)
}.

Lemma nonempty_list_bind {A} (l : list A) : nonempty_list l ≫= nonempty_list = nonempty_list l.
Proof. by destruct l. Qed.

Lemma settle_list_idemp {A} (f : A -> A) o : Forall (fun x => f (f x) = f x) (default [] o) ->
  settle_list f (settle_list f o) = settle_list f o.
Proof.
  destruct o as [l|]; [|done]. cbn [default from_option id]. intros H. unfold settle_list. cbn [mbind option_bind].
  assert (E : map f (map f l) = map f l) by (rewrite map_map; apply map_ext_in; intros x Hx; rewrite Forall_forall in H; apply H; by apply list_elem_of_In).
  rewrite <- E at 2. by destruct (map f l).
Qed.

Lemma settle_ref_idemp r : ref_ok r -> settle_ref (settle_ref r) = settle_ref r.
Proof.
  intros (H1 & H2 & H3 & H4). assert (Ht : ref_target r <> "").
  { unfold ref_target. destruct (rf_target r); simpl; [congruence|done]. }
  unfold settle_ref. cbn [rf_source rf_target rf_uid rf_gid rf_mode]. unfold ref_target at 1. cbn [rf_source rf_target].
  rewrite (truthy_ne (ref_target r)) by done. cbn [default from_option id]. rewrite truthy_ne by done.
  assert (Hu : forall o, o <> Some "" -> truthy_str (Some (default "0" (truthy_str (Some (default "0" o))))) = truthy_str (Some (default "0" o))).
  { intros [x|] Hx; [|done]. cbn [default from_option id]. rewrite (truthy_ne x) by congruence. cbn [default from_option id]. by rewrite truthy_ne by congruence. }
  by rewrite !Hu by done.
Qed.

Lemma settle_ref_target r : ref_ok r -> ref_target (settle_ref r) = ref_target r.
Proof.
  intros (H1 & H2 & _). assert (Ht : ref_target r <> "").
  { unfold ref_target. destruct (rf_target r); simpl; [congruence|done]. }
  unfold ref_target at 1, settle_ref. cbn [rf_source rf_target]. by rewrite truthy_ne.
Qed.

Lemma settle_bucket_idemp o : cpus_ok o -> settle_bucket (settle_bucket o) = settle_bucket o.
Proof.
  destruct o as [[[c|] m]|]; [|by destruct m|done]. intros H. destruct (H _ c eq_refl eq_refl) as (n & Hn & E).
  unfold settle_bucket. cbn [mbind option_bind bk_cpus bk_memoryBytes fmap option_fmap option_map].
  by rewrite E, nano_roundtrip.
Qed.

Lemma settle_resources_idemp o : cpus_ok (o ≫= rs_limits) -> cpus_ok (o ≫= rs_reservations) ->
  settle_resources (settle_resources o) = settle_resources o.
Proof.
  destruct o as [[l r]|]; [|done]. cbn [mbind option_bind rs_limits rs_reservations]. intros Hl%settle_bucket_idemp Hr%settle_bucket_idemp.
  unfold settle_resources. cbn [mbind option_bind rs_limits rs_reservations].
  destruct (settle_bucket l) eqn:E1, (settle_bucket r) eqn:E2; cbn [mbind option_bind rs_limits rs_reservations]; by rewrite ?Hl, ?Hr.
Qed.

Lemma descriptor_spread d : descriptor ("spread=" +:+ d) = d.
Proof. done. Qed.

Lemma positive_num_idemp o : positive_num (positive_num o) = positive_num o.
Proof. destruct o as [n|]; simpl; [|done]. destruct (0 <? sig n) eqn:E; simpl; [|done]. by rewrite E. Qed.

Lemma settle_placement_idemp o : settle_placement (settle_placement o) = settle_placement o.
Proof.
  destruct o as [[c p m]|]; [|done]. unfold settle_placement at 2 3. cbn [mbind option_bind pl_constraints pl_preferences pl_maxReplicasPerNode].
  assert (E1 : (c ≫= nonempty_list) ≫= nonempty_list = c ≫= nonempty_list) by (destruct c; [apply nonempty_list_bind|done]).
  assert (E2 : settle_list (fun d => "spread=" +:+ descriptor d) (settle_list (fun d => "spread=" +:+ descriptor d) p)
             = settle_list (fun d => "spread=" +:+ descriptor d) p) by (apply settle_list_idemp, Forall_forall; done).
  pose proof (positive_num_idemp m) as E3.
  set (c' := c ≫= nonempty_list) in *. set (p' := settle_list _ p) in *. set (m' := positive_num m) in *. clearbody c' p' m'.
  destruct c', p', m'; unfold settle_placement; cbn [mbind option_bind pl_constraints pl_preferences pl_maxReplicasPerNode] in *;
    rewrite ?E1, ?E2, ?E3; done.
Qed.

Lemma settle_healthcheck_idemp o : settle_healthcheck (settle_healthcheck o) = settle_healthcheck o.
Proof.
  destruct o as [[t i to sp r d]|]; [|done]. unfold settle_healthcheck at 2 3. cbn [mbind option_bind hc_disable hc_test].
  destruct (default false d); [done|]. destruct t as [[|x t]|]; [done| |done]. destruct (bool_decide (x :: t = ["NONE"])) eqn:E; [done|].
  unfold settle_healthcheck. cbn [mbind option_bind hc_disable hc_test default from_option id]. by rewrite E.
Qed.

Lemma settle_entries_idemp o : settle_entries (settle_entries o) = settle_entries o.
Proof.
  destruct o as [m|]; [|done]. unfold settle_entries. cbn [mbind option_bind]. destruct (own_order m) as [|x l] eqn:E; [done|].
  cbn [nonempty_list mbind option_bind]. by rewrite <- E, own_order_idemp, E.
Qed.

Lemma settled_idemp s networks : settle_ok s -> settled (settled s networks) networks = settled s networks.
Proof.
  intros [Hr Hl Hs]. apply Forall_app in Hr as [Hr1 Hr2].
  assert (Hrefs : forall o, Forall ref_ok (default [] o) -> settle_list settle_ref (settle_list settle_ref o) = settle_list settle_ref o).
  { intros o Ho. apply settle_list_idemp. eapply Forall_impl; [exact Ho|]. intros r. apply settle_ref_idemp. }
  assert (Hbind : forall A (o : option (list A)), (o ≫= nonempty_list) ≫= nonempty_list = o ≫= nonempty_list)
    by (intros A [l|]; [apply nonempty_list_bind|done]).
  unfold settled at 1. cbn [settled ss_name ss_image ss_mode ss_env ss_command ss_args ss_labels ss_ports ss_mounts ss_restartPolicy
    ss_updateConfig ss_placement ss_healthcheck ss_resources ss_configs ss_secrets ss_stopGracePeriodNs].
  rewrite !settle_entries_idemp, !Hbind, settle_placement_idemp, settle_healthcheck_idemp, settle_resources_idemp, !Hrefs by done.
  assert (Em : settle_mode (Some (settle_mode (ss_mode s))) = settle_mode (ss_mode s)) by (destruct (ss_mode s) as [[r []]|]; done).
  assert (Emo : settle_list settle_mount (settle_list settle_mount (ss_mounts s)) = settle_list settle_mount (ss_mounts s)).
  { apply settle_list_idemp, Forall_forall. intros [ty so ta ro] _. unfold settle_mount. cbn [mt_source mt_readOnly mt_type mt_target].
    f_equal; [destruct so as [x|]; [|done]; simpl; destruct (String.eqb x "") eqn:E; simpl; by rewrite ?E|by destruct ro as [[]|]]. }
  assert (Er : settle_restart (settle_restart (ss_restartPolicy s)) = settle_restart (ss_restartPolicy s)).
  { destruct (ss_restartPolicy s) as [[[c|] a d]|]; done. }
  assert (Eu : settle_update (settle_update (ss_updateConfig s)) = settle_update (ss_updateConfig s)).
  { destruct (ss_updateConfig s) as [u|]; [|done]. unfold settle_update. cbn [mbind option_bind]. destruct (has_update u) eqn:E; [|done].
    cbn [mbind option_bind]. by rewrite E. }
  by rewrite Em, Emo, Er, Eu.
Qed.

Lemma drop_names_id names env : (forall n, n ∈ names -> get n env = None) -> drop_names names env = env.
Proof.
  unfold drop_names. induction names as [|n names IH]; intros H; simpl; [done|].
  rewrite obj_del_absent by (apply H; left). apply IH. intros m Hm. apply H. by right.
Qed.

Lemma settled_refs_source s : spec_ok s -> Forall (fun r => rf_source r <> "") (default [] (settle_list settle_ref (ss_configs s))) /\
  Forall (fun r => rf_source r <> "") (default [] (settle_list settle_ref (ss_secrets s))).
Proof.
  intros Hok. pose proof (so_refs _ Hok) as Hr. apply Forall_app in Hr as [H1 H2].
  assert (H : forall o, Forall (fun r => rf_source r <> "") (default [] o) -> Forall (fun r => rf_source r <> "") (default [] (settle_list settle_ref o))).
  { intros [l|] Hl; [|done]. unfold settle_list. cbn [mbind option_bind]. rewrite default_nonempty. by apply Forall_map. }
  split; by apply H.
Qed.

Lemma own_default o : default [] (settle_entries o) = own_order (default [] o).
Proof. destruct o as [m|]; [apply default_nonempty|done]. Qed.

Lemma settled_ok s networks : spec_ok s -> spec_ok (settled s networks).
Proof.
  intros Hok. destruct (settled_refs_source s Hok) as [Hc Hs]. destruct Hok as [H1 [H2 H3] H4 H5 H6 H7].
  split; try done; unfold env_of, labels_of in *; cbn [settled ss_env ss_labels ss_mounts ss_configs ss_secrets ss_placement].
  - by rewrite !own_default, own_order_keys.
  - by rewrite own_default, own_order_keys.
  - destruct (ss_mounts s) as [l|]; [|done]. unfold settle_list. cbn [mbind option_bind]. rewrite default_nonempty. by apply Forall_map.
  - by apply Forall_app.
  - destruct (ss_placement s) as [[c p m]|]; [|done]. unfold settle_placement. cbn [mbind option_bind pl_constraints pl_preferences pl_maxReplicasPerNode] in *.
    assert (Hp : Forall (fun d => descriptor d <> "") (default [] (settle_list (fun d => "spread=" +:+ descriptor d) p))).
    { destruct p as [l|]; [|done]. unfold settle_list. cbn [mbind option_bind]. rewrite default_nonempty. by apply Forall_map. }
    set (p' := settle_list _ p) in *. by destruct (c ≫= nonempty_list), p', (positive_num m).
Qed.

Section redeploy.
Context (shell : bool) (s : ServiceSpec) (networks : list string) (Hu : user_spec s) (Hok : spec_ok s) (Hst : settle_ok s).
Let o := observed shell s networks.

Lemma observed_names : wanted_names o = wanted_names s.
Proof using Type.
  unfold o, observed. destruct (wanted_names s) as [|n ns] eqn:E; [done|].
  change (js_uniq (n :: ns) = n :: ns). rewrite <- E. apply js_uniq_idemp.
Qed.

Lemma observed_labels : labels_of o = own_order (labels_of s).
Proof using Type. unfold o, observed. destruct (wanted_names s); [apply own_default|done]. Qed.

Lemma observed_env : env_of o = own_order (drop_names (wanted_names s) (env_of s)).
Proof using Type.
  unfold o, observed. destruct (wanted_names s) as [|n ns]; [apply own_default|]. apply default_nonempty.
Qed.

Lemma observed_env_get k : get k (env_of o) = if mem k (wanted_names s) then None else get k (env_of s).
Proof using Hok.
  destruct Hok as [_ [He _] _ _ _ _]. rewrite observed_env, get_own_order, get_drop_names by (by apply drop_names_NoDup). done.
Qed.

Lemma observed_user : user_spec o.
Proof using Hu Hok.
  pose proof (settled_user s networks Hu Hok) as Hsu. destruct Hu as [Ha Hf Hc Hv Ht], Hok as [_ _ Hl _ _ _].
  assert (Ec : ss_command o = ss_command (settled s networks) /\ ss_args o = ss_args (settled s networks)) by (unfold o, observed; by destruct (wanted_names s)).
  destruct Ec as [Ec Eg], Hsu as [_ _ Hc' _ Ht']. split; rewrite ?observed_labels, ?Ec, ?Eg, ?observed_env_get, ?get_own_order, ?Hv; try done.
  by destruct (mem _ _).
Qed.

Lemma observed_ok : spec_ok o.
Proof using Hok.
  pose proof (settled_ok s networks Hok) as Hs. pose proof Hok as [_ [He Hk] Hl _ _ _]. unfold o, observed.
  destruct (wanted_names s) as [|n ns] eqn:E; [done|]. destruct Hs as [H1 _ _ H4 H5 H6].
  split; try done; unfold env_of, labels_of; cbn [set_labels set_configs set_env set_secretEnvFileFallback set_secretEnv ss_env ss_labels ss_configs ss_secrets].
  - rewrite default_nonempty, own_order_keys. split; [by apply drop_names_NoDup|]. apply Forall_forall. intros k Hin%drop_names_keys.
    rewrite Forall_forall in Hk. by apply Hk.
  - cbn [default from_option id]. by rewrite own_order_keys.
  - apply Forall_app in H5 as [H5 H7]. apply Forall_app. split; [|done]. destruct shell; [|done]. rewrite default_nonempty. apply Forall_map.
    pose proof (so_refs _ Hok) as Hr. apply Forall_app in Hr as [Hr _]. apply Forall_forall. intros r [Hin _]%bfilter_elem.
    rewrite Forall_forall in Hr. exact (Hr r Hin).
Qed.

Lemma observed_independent (Hi : independent (wanted_names s) (env_of s)) : independent (wanted_names o) (env_of o).
Proof using Hok.
  rewrite observed_names. split; [apply Hi|]. intros n Hn. split; [by apply Hi|]. rewrite observed_env_get.
  destruct (mem _ _); [done|]. by apply Hi.
Qed.

(** What was observed is observed again. *)
Lemma observed_again : observed shell o networks = o.
Proof using Hok Hst.
  unfold observed at 1. rewrite observed_names. pose proof (settled_idemp s networks Hst) as Hs.
  destruct (wanted_names s) as [|n ns] eqn:E.
  { unfold o, observed. by rewrite E. }
  rewrite <- E, observed_labels, own_order_idemp, drop_names_id; cycle 1.
  { intros m Hm. rewrite observed_env_get. by apply mem_In in Hm as ->. }
  rewrite observed_env, own_order_idemp.
  assert (Ec : (if shell then nonempty_list (map settle_ref (List.filter (fun r => negb (is_shim_config r)) (default [] (ss_configs o))))
               else settle_list settle_ref (ss_configs o)) = ss_configs o).
  { destruct Hst as [Hr _ _]. apply Forall_app in Hr as [Hr _]. unfold o, observed. rewrite E.
    cbn [set_labels set_configs set_env set_secretEnvFileFallback set_secretEnv ss_configs]. destruct shell.
    - rewrite default_nonempty, settle_filter, bfilter_idemp. f_equal. rewrite map_map. apply map_ext_in. intros r Hin.
      apply settle_ref_idemp. rewrite Forall_forall in Hr. apply Hr. by apply list_elem_of_In, bfilter_elem in Hin as [? _].
    - apply settle_list_idemp. eapply Forall_impl; [exact Hr|]. intros r. apply settle_ref_idemp. }
  rewrite Ec. assert (Eo : o = set_secretEnvFileFallback (if shell then None else Some (wanted_names s)) (set_secretEnv (Some (wanted_names s))
    (set_configs (ss_configs o) (set_env (nonempty_list (own_order (drop_names (wanted_names s) (env_of s)))) (set_labels (Some (own_order (labels_of s)))
      (settled (settled s networks) networks)))))).
  { rewrite Hs. unfold o, observed. by rewrite E. }
  rewrite Eo at 3. unfold o, observed. by rewrite E.
Qed.
End redeploy.

Lemma observed_accepted image shell shim s networks : user_spec s -> spec_ok s -> settle_ok s ->
  independent (wanted_names s) (env_of s) -> (exists w, prepareSecretEnv image shell shim s = Ok w) ->
  exists w, prepareSecretEnv image shell shim (observed shell s networks) = Ok w.
Proof.
  intros Hu Hok Hst Hi Hw. pose proof (observed_user shell s networks Hu Hok) as Huo.
  pose proof (observed_names shell s networks) as Hn. destruct (decide (wanted_names s = [])) as [Hz|Hne].
  - exists (without_env (observed shell s networks)). unfold prepareSecretEnv. rewrite unwrap_user by done.
    assert (E : ss_secretEnv (observed shell s networks) = None) by (unfold observed; by rewrite Hz).
    rewrite E. cbn [mbind option_bind]. apply wrap_nothing; [done|]. by rewrite Hn.
  - apply secret_env_accepted in Hw as (i & -> & Hc); [|done..]. apply secret_env_accepted; [done|by rewrite Hn|]. exists i. split; [done|].
    rewrite Hn. destruct shell.
    + destruct Hc as (-> & Hf & x & l & Ha). split; [done|]. destruct Hu as [_ _ _ _ [Ht1 Ht2]]. split.
      * eapply Forall_impl; [exact Hf|]. intros n [? Hin]. split; [done|]. unfold targets_of in *.
        assert (E : ss_secrets (observed true s networks) = settle_list settle_ref (ss_secrets s)) by (unfold observed; by destruct (wanted_names s)).
        rewrite E. destruct Hst as [Hr _ _]. apply Forall_app in Hr as [_ Hr].
        destruct (ss_secrets s) as [rs|]; [|done]. unfold settle_list. cbn [mbind option_bind]. rewrite default_nonempty, map_map.
        cbn [default from_option id] in *. apply list_elem_of_fmap in Hin as (r & -> & Hin). rewrite Forall_forall in Hr.
        rewrite <- settle_ref_target by (by apply Hr). apply list_elem_of_fmap. by exists r.
      * exists x, l. rewrite <- Ha. assert (E : ss_command (observed true s networks) = ss_command s /\ ss_args (observed true s networks) = ss_args s).
        { unfold observed. destruct (wanted_names s); (split; [exact (tidy_bind _ Ht1)|exact (tidy_bind _ Ht2)]). }
        unfold originalArgv, own_command. by destruct E as [-> ->].
    + intros n Hin. unfold observed. by destruct (wanted_names s).
Qed.

(** ** What a deploy keeps and what it forgets *)

Definition same_mount (m m' : Mount) : Prop :=
  mt_type m' = mt_type m /\ mt_target m' = mt_target m /\ truthy_str (mt_source m') = truthy_str (mt_source m) /\
  default false (mt_readOnly m') = default false (mt_readOnly m).

(** The same file of the same secret, with the same owner and mode. *)
Definition same_ref (r r' : Ref) : Prop :=
  rf_source r' = rf_source r /\ ref_target r' = ref_target r /\ default "0" (rf_uid r') = default "0" (rf_uid r) /\
  default "0" (rf_gid r') = default "0" (rf_gid r) /\ default (num 292) (rf_mode r') = default (num 292) (rf_mode r).

(** A side of the resources; processor time goes through whole nanoseconds. *)
Definition same_bucket (b b' : option Bucket) : Prop :=
  b' ≫= bk_memoryBytes = b ≫= bk_memoryBytes /\
  b' ≫= bk_cpus = (fun c => ofNanoCpus (toNanoCpus c)) <$> (b ≫= bk_cpus).

(** What the specification [r] read back keeps of the deployed one: the replicas
    (one when nothing is said), every variable that is not a secret's, the names
    of the secret variables, every label, the command and its arguments, ports,
    mounts, a restart policy with a condition, the update policy, the placement,
    the resources, a healthcheck that is off or has a test, the secrets and
    configurations with their files, the grace period. *)
Record kept (shell : bool) (networks : list string) (s r : ServiceSpec) : Prop := {
  kp_identity : ss_name r = ss_name s /\ ss_image r = ss_image s;
  kp_mode : ss_mode r = Some (if default false (md_global <$> ss_mode s) then {| md_replicated := None; md_global := true |}
                              else {| md_replicated := Some (default (num 1) (ss_mode s ≫= md_replicated)); md_global := false |});
  kp_env k : get k (env_of r) = if mem k (wanted_names s) then None else get k (env_of s);
  kp_secret_env : wanted_names r = wanted_names s;
  kp_labels k : get k (labels_of r) = get k (labels_of s);
  kp_argv : ss_command r = ss_command s /\ ss_args r = ss_args s;
  kp_ports : default [] (ss_ports r) = default [] (ss_ports s);
  kp_mounts : Forall2 same_mount (default [] (ss_mounts s)) (default [] (ss_mounts r));
  kp_networks : default [] (ss_networks r) = networks;
  kp_restart p : ss_restartPolicy s = Some p -> rp_condition p <> None -> ss_restartPolicy r = Some p;
  kp_update u : ss_updateConfig s = Some u -> has_update u = true -> ss_updateConfig r = Some u;
  kp_constraints : default [] (ss_placement r ≫= pl_constraints) = default [] (ss_placement s ≫= pl_constraints);
  kp_preferences : map descriptor (default [] (ss_placement r ≫= pl_preferences)) =
                   map descriptor (default [] (ss_placement s ≫= pl_preferences));
  kp_per_node : positive_num (ss_placement r ≫= pl_maxReplicasPerNode) = positive_num (ss_placement s ≫= pl_maxReplicasPerNode);
  kp_limits : same_bucket (ss_resources s ≫= rs_limits) (ss_resources r ≫= rs_limits);
  kp_reservations : same_bucket (ss_resources s ≫= rs_reservations) (ss_resources r ≫= rs_reservations);
  kp_check_off h : ss_healthcheck s = Some h -> default false (hc_disable h) = true -> ss_healthcheck r = Some disabled;
  kp_check h t : ss_healthcheck s = Some h -> default false (hc_disable h) = false -> hc_test h = Some t -> t <> [] -> t <> ["NONE"] ->
    exists h', ss_healthcheck r = Some h' /\ hc_test h' = Some t /\ hc_disable h' = None /\ hc_retries h' = hc_retries h /\
      hc_intervalNs h' = hc_intervalNs h /\ hc_timeoutNs h' = hc_timeoutNs h /\ hc_startPeriodNs h' = hc_startPeriodNs h;
  kp_secrets : Forall2 same_ref (default [] (ss_secrets s)) (default [] (ss_secrets r));
  kp_configs : Forall2 same_ref
    (if shell && negb (bool_decide (wanted_names s = [])) then List.filter (fun c => negb (is_shim_config c)) (default [] (ss_configs s))
     else default [] (ss_configs s)) (default [] (ss_configs r));
  kp_silent : (ss_updateConfig s = None -> ss_updateConfig r = None) /\ (ss_healthcheck s = None -> ss_healthcheck r = None);
  kp_grace : ss_stopGracePeriodNs r = ss_stopGracePeriodNs s
}.

(** What it forgets, whatever the deployed specification says: the log driver, the
    registry's credentials, the aliases on the networks, a restart policy without a
    condition, a healthcheck without a test, and which variables were to fall back
    to files: none is recorded where the image has a shell, all of them where it
    has none. *)
Record forgotten (shell : bool) (s r : ServiceSpec) : Prop := {
  fg_logging : ss_logging r = None;
  fg_auth : ss_registryAuth r = None;
  fg_aliases : ss_networkAliases r = None;
  fg_restart : ss_restartPolicy s ≫= rp_condition = None -> ss_restartPolicy r = None;
  fg_check h : ss_healthcheck s = Some h -> default false (hc_disable h) = false -> default [] (hc_test h) = [] -> ss_healthcheck r = None;
  fg_fallback : ss_secretEnvFileFallback r = if shell then None else nonempty_list (wanted_names s)
}.

Lemma settle_list_Forall2 {A} (f : A -> A) (R : A -> A -> Prop) o : Forall (fun x => R x (f x)) (default [] o) ->
  Forall2 R (default [] o) (default [] (settle_list f o)).
Proof.
  destruct o as [l|]; [|constructor]. cbn [default from_option id]. intros H. unfold settle_list. cbn [mbind option_bind].
  rewrite default_nonempty. induction H; simpl; by constructor.
Qed.

Lemma settle_mount_same m : same_mount m (settle_mount m).
Proof.
  destruct m as [t [x|] ta [[]|]]; repeat split; unfold settle_mount, truthy_str; cbn [mt_source]; simpl;
    destruct (String.eqb x "") eqn:E; simpl; by rewrite ?E.
Qed.

Lemma settle_ref_same r : ref_ok r -> same_ref r (settle_ref r).
Proof.
  intros H. pose proof (settle_ref_target r H) as Ht. destruct H as (_ & _ & Hu & Hg).
  assert (Hd : forall o, o <> Some "" -> default "0" (truthy_str (Some (default "0" o))) = default "0" o).
  { intros [x|] Hx; [|done]. cbn [default from_option id]. by rewrite truthy_ne by congruence. }
  split; [done|]. split; [done|]. cbn [settle_ref rf_uid rf_gid rf_mode]. by rewrite !Hd.
Qed.

Lemma settle_bucket_same o : same_bucket o (settle_bucket o).
Proof. by destruct o as [[[c|] [m|]]|]. Qed.

Lemma settle_resources_same o :
  same_bucket (o ≫= rs_limits) (settle_resources o ≫= rs_limits) /\
  same_bucket (o ≫= rs_reservations) (settle_resources o ≫= rs_reservations).
Proof.
  destruct o as [[l r]|]; [|done]. cbn [mbind option_bind rs_limits rs_reservations].
  pose proof (settle_bucket_same l). pose proof (settle_bucket_same r).
  unfold settle_resources. cbn [mbind option_bind rs_limits rs_reservations]. by destruct (settle_bucket l), (settle_bucket r).
Qed.

Lemma settle_placement_same o :
  default [] (settle_placement o ≫= pl_constraints) = default [] (o ≫= pl_constraints) /\
  map descriptor (default [] (settle_placement o ≫= pl_preferences)) = map descriptor (default [] (o ≫= pl_preferences)) /\
  positive_num (settle_placement o ≫= pl_maxReplicasPerNode) = positive_num (o ≫= pl_maxReplicasPerNode).
Proof.
  destruct o as [[c p m]|]; [|done]. cbn [mbind option_bind pl_constraints pl_preferences pl_maxReplicasPerNode].
  assert (E1 : default [] (c ≫= nonempty_list) = default [] c) by (destruct c; [apply default_nonempty|done]).
  assert (E2 : map descriptor (default [] (settle_list (fun d => "spread=" +:+ descriptor d) p)) = map descriptor (default [] p)).
  { destruct p as [l|]; [|done]. unfold settle_list. cbn [mbind option_bind]. rewrite default_nonempty, map_map.
    cbn [default from_option id]. apply map_ext. intros d. apply descriptor_spread. }
  pose proof (positive_num_idemp m) as E3. unfold settle_placement. cbn [mbind option_bind pl_constraints pl_preferences pl_maxReplicasPerNode].
  set (c' := c ≫= nonempty_list) in *. set (p' := settle_list _ p) in *. set (m' := positive_num m) in *. clearbody c' p' m'.
  by destruct c', p', m'.
Qed.

Lemma observed_settled shell s networks (P : ServiceSpec -> Prop) :
  (forall o l e c n f, P (set_secretEnvFileFallback f (set_secretEnv n (set_configs c (set_env e (set_labels l o))))) <-> P o) ->
  P (settled s networks) -> P (observed shell s networks).
Proof. intros H Hs. unfold observed. destruct (wanted_names s); [done|]. by apply H. Qed.

Lemma observed_forgotten shell s networks : forgotten shell s (observed shell s networks).
Proof.
  split; try (by apply observed_settled).
  - intros Hc. apply observed_settled; [done|]. cbn [settled ss_restartPolicy]. destruct (ss_restartPolicy s) as [p|]; [|done].
    unfold settle_restart. cbn [mbind option_bind] in *. by rewrite Hc.
  - intros h Hh Hd Ht. apply observed_settled; [done|]. cbn [settled ss_healthcheck]. rewrite Hh. unfold settle_healthcheck.
    cbn [mbind option_bind]. rewrite Hd. destruct (hc_test h) as [[|x t]|]; done.
  - unfold observed. destruct (wanted_names s); by destruct shell.
Qed.

Lemma observed_configs shell s networks : Forall ref_ok (default [] (ss_configs s)) ->
  Forall2 same_ref
    (if shell && negb (bool_decide (wanted_names s = [])) then List.filter (fun c => negb (is_shim_config c)) (default [] (ss_configs s))
     else default [] (ss_configs s)) (default [] (ss_configs (observed shell s networks))).
Proof.
  intros Hr. assert (Hs : Forall2 same_ref (default [] (ss_configs s)) (default [] (settle_list settle_ref (ss_configs s)))).
  { apply settle_list_Forall2. eapply Forall_impl; [exact Hr|]. apply settle_ref_same. }
  unfold observed. destruct (wanted_names s) as [|n ns] eqn:E; [by rewrite andb_false_r|]. rewrite bool_decide_eq_false_2 by done.
  destruct shell; [|exact Hs]. cbn [andb negb set_secretEnvFileFallback set_secretEnv set_configs ss_configs]. rewrite default_nonempty.
  clear Hs. induction Hr as [|r l Hx _ IH]; [constructor|]. cbn [List.filter]. destruct (negb (is_shim_config r)); [|exact IH].
  cbn [map]. constructor; [by apply settle_ref_same|exact IH].
Qed.

Lemma observed_kept shell s networks : user_spec s -> spec_ok s -> settle_ok s ->
  kept shell networks s (observed shell s networks).
Proof.
  intros Hu Hok [Hr _ _]. apply Forall_app in Hr as [Hr1 Hr2]. destruct (us_tidy _ Hu) as [Ht1 Ht2].
  pose proof (settle_placement_same (ss_placement s)) as (Hp1 & Hp2 & Hp3). pose proof (settle_resources_same (ss_resources s)) as [Hb1 Hb2].
  pose proof (so_env _ Hok) as [He _].
  split; try (apply observed_settled; [done|]); cbn [settled ss_name ss_image ss_mode ss_command ss_args ss_ports ss_mounts ss_networks ss_restartPolicy
    ss_updateConfig ss_placement ss_resources ss_healthcheck ss_secrets ss_stopGracePeriodNs]; try done.
  - intros k. by apply observed_env_get.
  - apply observed_names.
  - intros k. rewrite observed_labels. apply get_own_order. by destruct Hok.
  - split; by apply tidy_bind.
  - destruct (ss_ports s); [apply default_nonempty|done].
  - apply settle_list_Forall2, Forall_forall. intros m _. apply settle_mount_same.
  - apply default_nonempty.
  - intros p Hp Hc. rewrite Hp. unfold settle_restart. cbn [mbind option_bind].
    by destruct (rp_condition p).
  - intros u Hp Hc. rewrite Hp. unfold settle_update. cbn [mbind option_bind].
    by rewrite Hc.
  - intros h Hh Hd. rewrite Hh. unfold settle_healthcheck.
    cbn [mbind option_bind]. by rewrite Hd.
  - intros h t Hh Hd Ht Hne Hno. rewrite Hh. unfold settle_healthcheck. cbn [mbind option_bind]. rewrite Hd, Ht.
    destruct t as [|x t]; [done|]. rewrite bool_decide_eq_false_2 by done. by eexists.
  - apply settle_list_Forall2. eapply Forall_impl; [exact Hr2|]. apply settle_ref_same.
  - by apply observed_configs.
  - split; by intros ->.
Qed.

(** C11: a deployed service is read back as a specification that keeps what the
    deployed one says (record [kept]: replicas, environment, secret variables,
    labels, command, ports, mounts, policies, placement, resources, secrets,
    configurations) and forgets exactly what record [forgotten] lists: the log
    driver and the network aliases (an update carries the live ones over), the
    registry's credentials, a restart policy without a condition, a healthcheck
    without a test, and the names that were to fall back to files.  Deploying what
    was read back is accepted whenever the first deploy was, and reads back the
    same again: a patch that changes nothing loses those fields once and nothing
    after. *)
Theorem redeploy_stable sw image shell shim s w body networks : user_spec s -> spec_ok s -> settle_ok s ->
  independent (wanted_names s) (env_of s) -> prepareSecretEnv image shell shim s = Ok w -> sends sw w body ->
  exists r, specFromInspect (inspected body) networks = Some r /\ kept shell networks s r /\ forgotten shell s r /\
    (exists w2, prepareSecretEnv image shell shim r = Ok w2) /\
    forall sw' w2 body2, prepareSecretEnv image shell shim r = Ok w2 -> sends sw' w2 body2 ->
      specFromInspect (inspected body2) networks = Some r.
Proof.
  intros Hu Hok Hst Hi Hw Hb. exists (observed shell s networks). split; [by eapply read_back_observed|].
  split; [by apply observed_kept|]. split; [apply observed_forgotten|]. split; [apply observed_accepted; eauto|].
  intros sw' w2 body2 Hw2 Hb2.
  transitivity (Some (observed shell (observed shell s networks) networks)); [|by rewrite observed_again].
  eapply read_back_observed; [by apply observed_user|by apply observed_ok|by apply observed_independent|exact Hw2|exact Hb2].
Qed.

(** * The two readers

    What the worker's copy keeps of the specification the shared reader reads. *)
Definition lossy (s : ServiceSpec) : ServiceSpec :=
  set_updateConfig None
    (set_restartPolicy ((fun r => {| rp_condition := rp_condition r; rp_maxAttempts := rp_maxAttempts r; rp_delayNs := None |}) <$> ss_restartPolicy s)
      (set_placement (ss_placement s ≫= (fun p => (fun c => {| pl_constraints := Some c; pl_preferences := None; pl_maxReplicasPerNode := None |})
                                                   <$> pl_constraints p)) s)).

(** A healthcheck that is switched off is read as the test that switches it off. *)
Definition same_check (a b : option Healthcheck) : Prop :=
  match b with
  | Some h => if default false (hc_disable h) then hc_test <$> a = Some (Some ["NONE"]) else a = b
  | None => a = None
  end.

(** The unwrap looks at the command, the arguments, the labels, the environment,
    the configurations and the names only: a change elsewhere commutes with it. *)
Record elsewhere (f : ServiceSpec -> ServiceSpec) : Prop := {
  el_labels s : ss_labels (f s) = ss_labels s; el_env s : ss_env (f s) = ss_env s; el_command s : ss_command (f s) = ss_command s;
  el_args s : ss_args (f s) = ss_args s; el_configs s : ss_configs (f s) = ss_configs s;
  el_names s : ss_secretEnv (f s) = ss_secretEnv s; el_fallback s : ss_secretEnvFileFallback (f s) = ss_secretEnvFileFallback s;
  el_filed s a b c d : f (set_secretEnvFileFallback a (set_secretEnv b (set_env c (set_labels d s)))) =
                       set_secretEnvFileFallback a (set_secretEnv b (set_env c (set_labels d (f s))));
  el_out s a b c d e : f (set_configs a (set_env b (set_args c (set_command d (set_labels e s))))) =
                       set_configs a (set_env b (set_args c (set_command d (set_labels e (f s)))));
  el_set_names s a : f (set_secretEnv a s) = set_secretEnv a (f s)
}.

Lemma unwrap_elsewhere f s : elsewhere f -> unwrapSecretEnv (f s) = f (unwrapSecretEnv s).
Proof.
  intros H. assert (Hf : unwrapSecretEnvFileFallback (f s) = f (unwrapSecretEnvFileFallback s)).
  { unfold unwrapSecretEnvFileFallback, env_of, labels_of. rewrite !(el_labels f H), (el_env f H), (el_names f H), (el_fallback f H).
    destruct (secretEnvFileNames (ss_labels s)); [done|]. by rewrite (el_filed f H). }
  unfold unwrapSecretEnv. rewrite Hf. set (t := unwrapSecretEnvFileFallback s).
  unfold isSecretEnvWrapped, env_of, labels_of. rewrite !(el_labels f H), !(el_env f H), (el_command f H), !(el_args f H), (el_configs f H), (el_names f H).
  destruct (negb _); [done|]. cbv zeta. destruct (match read_argv _ with Some ca => ca | None => _ end) as [command args].
  destruct (List.filter nonempty _); by rewrite ?(el_set_names f H), (el_out f H).
Qed.

Lemma lossy_elsewhere h : elsewhere (fun s => set_healthcheck h (lossy s)).
Proof. by split. Qed.

Lemma image_elsewhere image : elsewhere (set_image image).
Proof. by split. Qed.

Lemma unwrap_healthcheck s : ss_healthcheck (unwrapSecretEnv s) = ss_healthcheck s.
Proof.
  assert (Hf : ss_healthcheck (unwrapSecretEnvFileFallback s) = ss_healthcheck s) by (unfold unwrapSecretEnvFileFallback; by destruct (secretEnvFileNames _)).
  unfold unwrapSecretEnv. destruct (negb _); [done|]. cbv zeta. destruct (match read_argv _ with Some ca => ca | None => _ end).
  by destruct (List.filter nonempty _).
Qed.

(** The worker's promote rebuilds the specification that the shared reader does,
    except that it loses the update policy, the delay between restarts, the spread
    preferences and the limit of tasks per node. *)
Theorem worker_promote_lossy inspect image networks :
  match w_promoteSpecFrom inspect image networks, promoteSpecFrom inspect image networks with
  | Some x, Some y => same_check (ss_healthcheck x) (ss_healthcheck y) /\
                      unwrapSecretEnv x = set_healthcheck (ss_healthcheck x) (lossy y)
  | None, None => True
  | _, _ => False
  end.
Proof.
  unfold w_promoteSpecFrom, promoteSpecFrom, specFromInspect. destruct (spec_and_name inspect) as [[spec name]|]; [|done].
  cbn [fmap option_fmap option_map]. set (tt := asObj (get "TaskTemplate" spec)). set (cs := asObj (fld "ContainerSpec" tt)).
  set (x := {| ss_name := name |}). set (r := read_spec spec name image networks).
  assert (Er : w_restart (fld "RestartPolicy" tt) =
    (fun r => {| rp_condition := rp_condition r; rp_maxAttempts := rp_maxAttempts r; rp_delayNs := None |}) <$> read_restart (fld "RestartPolicy" tt)).
  { unfold w_restart, read_restart. by destruct (read_condition _). }
  assert (Ep : w_placement (fld "Placement" tt) =
    read_placement (fld "Placement" tt) ≫= (fun p => (fun c => {| pl_constraints := Some c; pl_preferences := None; pl_maxReplicasPerNode := None |})
                                                       <$> pl_constraints p)).
  { unfold w_placement, read_placement. cbv zeta. cbn [pl_constraints pl_preferences pl_maxReplicasPerNode].
    destruct (read_strings (fld "Constraints" (asObj (fld "Placement" tt)))); [done|].
    by destruct (nonempty_list (omap read_preference (asArr (fld "Preferences" (asObj (fld "Placement" tt)))))), (positive_num (asNum (fld "MaxReplicas" (asObj (fld "Placement" tt))))). }
  assert (Ex : x = set_healthcheck (ss_healthcheck x) (lossy r)) by (unfold x; rewrite Er, Ep; reflexivity).
  assert (Ey : set_image image (unwrapSecretEnv (read_spec spec name (live_image spec) networks)) = unwrapSecretEnv r).
  { symmetry. exact (unwrap_elsewhere _ (read_spec spec name (live_image spec) networks) (image_elsewhere image)). }
  rewrite Ey. split.
  - assert (Eh : ss_healthcheck (unwrapSecretEnv r) = ss_healthcheck r) by apply unwrap_healthcheck. rewrite Eh.
    unfold x, r, read_spec. fold tt. fold cs. cbn [ss_healthcheck]. unfold w_healthcheck, read_healthcheck, same_check.
    destruct (asObj (fld "Healthcheck" cs)) as [hc|]; [|done]. destruct (bool_decide_reflect (strings_of (get "Test" hc) = ["NONE"])) as [->|Hn]; [done|].
    by destruct (strings_of (get "Test" hc)).
  - rewrite Ex at 1. exact (unwrap_elsewhere _ r (lossy_elsewhere (ss_healthcheck x))).
Qed.

(** * Examples *)

Definition rolling : UpdateConfig :=
  {| uc_parallelism := Some (num 1); uc_order := Some start_first; uc_failureAction := Some f_rollback; uc_monitorNs := None; uc_delayNs := None |}.

Definition api_spec : ServiceSpec :=
  set_updateConfig (Some rolling)
    (set_placement (Some {| pl_constraints := None; pl_preferences := Some ["spread=node.labels.zone"]; pl_maxReplicasPerNode := None |})
      (set_command (Some ["node"; "server.js"]) (set_mode (Some {| md_replicated := Some (num 2); md_global := false |}) shop_spec))).

Definition shop_swarm : Swarm :=
  {| sw_networks := Some []; sw_secrets := [{| nm_name := "shop_web_DB_PASSWORD_v1"; nm_id := "s1" |}];
     sw_configs := [{| nm_name := SECRET_ENV_SHIM_CONFIG; nm_id := "c1" |}]; sw_platform := [] |}.

Lemma api_ok : user_spec api_spec /\ spec_ok api_spec /\ settle_ok api_spec /\ independent (wanted_names api_spec) (env_of api_spec).
Proof.
  split; [by split|]. split; [|split; [|apply shop_user]].
  - split; try done.
    + split; [apply (bool_decide_eq_true_1 _); by vm_compute|]. by repeat constructor.
    + constructor.
    + by repeat constructor.
    + by repeat constructor.
  - split; [repeat constructor; done|by intros ? ? ?|by intros ? ? ?].
Qed.

(** The deploy and the update that follow one another, and the specification the
    controller reads in between. *)
Definition api_deployed : ServiceSpec := match prepareSecretEnv (Ok shop_image) true (Ok ()) api_spec with Ok w => w | Err _ => api_spec end.
Definition api_body : payload := match create_body shop_swarm api_deployed with Ok b => b | Err _ => PNull end.

Lemma redeploy_stable_witness : exists r, specFromInspect (inspected api_body) ["shop_default"] = Some r /\
  ss_command r = Some ["node"; "server.js"] /\ wanted_names r = ["DB_PASSWORD"] /\ get "LOG" (env_of r) = Some "debug" /\
  ss_updateConfig r = Some rolling.
Proof.
  destruct api_ok as (H1 & H2 & H3 & H4).
  destruct (redeploy_stable shop_swarm (Ok shop_image) true (Ok ()) api_spec api_deployed api_body ["shop_default"] H1 H2 H3 H4) as (r & Hr & Hk & _).
  - by vm_compute.
  - left. by vm_compute.
  - exists r. destruct Hk. split; [done|]. split; [by destruct kp_argv0 as [-> _]|]. split; [by rewrite kp_secret_env0|].
    split; [by rewrite kp_env0|by apply (kp_update0 rolling)].
Defined.

(** A canary promoted by the worker loses the update policy and the placement that
    the same promotion from the console keeps. *)
Lemma worker_promote_drops :
  exists x y, w_promoteSpecFrom (inspected api_body) "web:2" [] = Some x /\ promoteSpecFrom (inspected api_body) "web:2" [] = Some y /\
    ss_updateConfig y = Some rolling /\ ss_updateConfig x = None /\
    (pl_preferences <$> ss_placement y) = Some (Some ["spread=node.labels.zone"]) /\ ss_placement x = None.
Proof. eexists _, _. split; [vm_compute; reflexivity|]. split; [vm_compute; reflexivity|]. by vm_compute. Qed.
