(* ===== verification/Effects.v ===== *)
(** Programs that call out (packages/trpc/src/errors.ts, and the way the services and
    workers use [await]): a computation is the tree of the calls it may make, each
    with its continuation for every answer; a call is answered with a value or it
    throws.

    [traces p t r] says that [p] can make the calls of [t] with the answers recorded
    there and end with [r].  Nothing is assumed of the answers: what holds of every
    trace holds however Docker, the agents and the database behave.  A program that
    is interrupted has made the calls of a prefix of a trace. *)

From S2P Require Import Prelude KvCodec.

(** * What is thrown *)

Inductive SwarmyCode :=
  NODE_OFFLINE | NO_MANAGER | COMMAND_TIMEOUT | COMMAND_REJECTED | NOT_FOUND | POLICY_DENIED | BROWSER_FLOW_REQUIRED.

(** An error with a message, or a TRPCError: one with a code of the platform, whose
    text is left out, or a refused input with its text. *)
Inductive failure := Failed (message : string) | Typed (code : SwarmyCode) | BadRequest (message : string).

Definition mapDispatchError (e : failure) : failure :=
  match e with
  | Typed _ | BadRequest _ => e
  | Failed m =>
      if includes "timeout" (toLowerCase m) then Typed COMMAND_TIMEOUT
      else if includes "offline" (toLowerCase m) then Typed NODE_OFFLINE
      else Typed COMMAND_REJECTED
  end.

(** * Programs *)

Inductive prog (E : Type -> Type) (A : Type) : Type :=
  | Ret (a : A)
  | Throw (e : failure)
  | Call {X : Type} (c : E X) (k : X + failure -> prog E A).
Arguments Ret {E A} a.
Arguments Throw {E A} e.
Arguments Call {E A X} c k.

(** A call with the answer it got. *)
Record event (E : Type -> Type) := Event { ev_type : Type; ev_call : E ev_type; ev_answer : ev_type + failure }.
Arguments Event {E ev_type} ev_call ev_answer.
Arguments ev_call {E}.
Arguments ev_answer {E}.

Section programs.
Context {E : Type -> Type}.

Fixpoint bind {A B} (p : prog E A) (f : A -> prog E B) : prog E B :=
  match p with
  | Ret a => f a
  | Throw e => Throw e
  | Call c k => Call c (fun x => bind (k x) f)
  end.

(** [try { p } catch (e) { h(e) }] *)
Fixpoint catch {A} (p : prog E A) (h : failure -> prog E A) : prog E A :=
  match p with
  | Ret a => Ret a
  | Throw e => h e
  | Call c k => Call c (fun x => catch (k x) h)
  end.

(** [await f(...)] *)
Definition await {X} (c : E X) : prog E X := Call c (fun x => match x with inl a => Ret a | inr e => Throw e end).

(** [await p.catch(() => undefined)] *)
Definition quietly (p : prog E ()) : prog E () := catch p (fun _ => Ret tt).

(** [for (const x of l) await f(x)] *)
Fixpoint each {A} (f : A -> prog E ()) (l : list A) : prog E () :=
  match l with
  | [] => Ret tt
  | x :: l' => bind (f x) (fun _ => each f l')
  end.

Fixpoint traces {A} (p : prog E A) (t : list (event E)) (r : A + failure) : Prop :=
  match p with
  | Ret a => t = [] /\ r = inl a
  | Throw e => t = [] /\ r = inr e
  | Call c k => exists x t', t = Event c x :: t' /\ traces (k x) t' r
  end.

(** The run on answers given by a function of the number of the call. *)
Fixpoint run {A} (answer : nat -> forall X, E X -> X + failure) (n : nat) (p : prog E A) : list (event E) * (A + failure) :=
  match p with
  | Ret a => ([], inl a)
  | Throw e => ([], inr e)
  | Call c k => let x := answer n _ c in let (t, r) := run answer (S n) (k x) in (Event c x :: t, r)
  end.

Lemma run_traces {A} answer n (p : prog E A) : traces p (fst (run answer n p)) (snd (run answer n p)).
Proof.
  revert n. induction p as [a|e|X c k IH]; intros n; simpl; [done..|].
  specialize (IH (answer n X c) (S n)). destruct (run _ _ _) as [t r]. simpl in *. by exists (answer n X c), t.
Qed.

Lemma traces_bind {A B} (p : prog E A) (f : A -> prog E B) t r : traces (bind p f) t r <->
  (exists e, traces p t (inr e) /\ r = inr e) \/
  (exists a t1 t2, t = t1 ++ t2 /\ traces p t1 (inl a) /\ traces (f a) t2 r).
Proof.
  revert t. induction p as [a|e|X c k IH]; intros t; simpl.
  - split; [intros H; right; by exists a, [], t|]. intros [(e & [_ ?] & _)|(b & t1 & t2 & -> & [-> Ha] & H)]; [done|]. by injection Ha as ->.
  - split; [intros [-> ->]; left; by exists e|]. by intros [(e' & [-> [= <-]] & ->)|(a' & t1 & t2 & _ & [_ ?] & _)].
  - split.
    + intros (x & t' & -> & H). apply IH in H as [(e & H & ->)|(a & t1 & t2 & -> & H1 & H2)].
      * left. exists e. split; [|done]. by exists x, t'.
      * right. exists a, (Event c x :: t1), t2. split; [done|]. split; [by exists x, t1|done].
    + intros [(e & (x & t' & -> & H) & ->)|(a & t1 & t2 & -> & (x & t' & -> & H1) & H2)].
      * exists x, t'. split; [done|]. apply IH. left. by exists e.
      * exists x, (t' ++ t2). split; [done|]. apply IH. right. by exists a, t', t2.
Qed.

Lemma traces_catch {A} (p : prog E A) h t r : traces (catch p h) t r <->
  (exists a, traces p t (inl a) /\ r = inl a) \/
  (exists e t1 t2, t = t1 ++ t2 /\ traces p t1 (inr e) /\ traces (h e) t2 r).
Proof.
  revert t. induction p as [a|e|X c k IH]; intros t; simpl.
  - split; [intros [-> ->]; left; by exists a|]. by intros [(a' & [-> [= <-]] & ->)|(e & t1 & t2 & _ & [_ ?] & _)].
  - split; [intros H; right; by exists e, [], t|]. intros [(a & [_ ?] & _)|(b & t1 & t2 & -> & [-> Ha] & H)]; [done|]. by injection Ha as ->.
  - split.
    + intros (x & t' & -> & H). apply IH in H as [(a & H & ->)|(e & t1 & t2 & -> & H1 & H2)].
      * left. exists a. split; [|done]. by exists x, t'.
      * right. exists e, (Event c x :: t1), t2. split; [done|]. split; [by exists x, t1|done].
    + intros [(a & (x & t' & -> & H) & ->)|(e & t1 & t2 & -> & (x & t' & -> & H1) & H2)].
      * exists x, t'. split; [done|]. apply IH. left. by exists a.
      * exists x, (t' ++ t2). split; [done|]. apply IH. right. by exists e, t', t2.
Qed.

Lemma traces_await {X} (c : E X) t r : traces (await c) t r <-> t = [Event c r].
Proof.
  simpl. split.
  - intros ([a|e] & t' & -> & [-> ->]); done.
  - intros ->. exists r, []. split; [done|]. by destruct r.
Qed.

(** What is done quietly makes its calls and never throws. *)
Lemma traces_quietly (p : prog E ()) t r : traces (quietly p) t r <-> r = inl tt /\ exists r', traces p t r'.
Proof.
  unfold quietly. rewrite traces_catch. split.
  - intros [([] & H & ->)|(e & t1 & t2 & -> & H & [-> ->])]; (split; [done|]); [by eexists|]. rewrite app_nil_r. by eexists.
  - intros [-> [[[]|e] H]]; [left; by exists tt|right]. exists e, t, []. by rewrite app_nil_r.
Qed.

(** The calls of a loop are those of its turns; it goes on while they succeed. *)
Lemma traces_each {A} (f : A -> prog E ()) l t r : (forall x t r, x ∈ l -> traces (f x) t r -> r = inl tt) ->
  traces (each f l) t r <-> r = inl tt /\ exists ts, t = concat ts /\ Forall2 (fun x t => traces (f x) t (inl tt)) l ts.
Proof.
  revert t. induction l as [|x l IH]; intros t Hf; simpl.
  - split; [intros [-> ->]; split; [done|by exists []]|]. intros [-> (ts & -> & H)]. by inversion H.
  - rewrite traces_bind. assert (Hl : forall y t r, y ∈ l -> traces (f y) t r -> r = inl tt) by (intros; eapply Hf; [by right|done]).
    split.
    + intros [(e & H & _)|([] & t1 & t2 & -> & H1 & H2)].
      * apply Hf in H; [done|left].
      * apply IH in H2 as [-> (ts & -> & H2)]; [|done]. split; [done|]. exists (t1 :: ts). split; [done|by constructor].
    + intros [-> (ts & -> & H)]. inversion H as [|x' t1 l' ts' H1 H2]; subst. right. exists tt, t1, (concat ts').
      split; [done|]. split; [done|]. apply IH; [done|]. split; [done|by exists ts'].
Qed.

(** ** Every event of a trace, with what came before it *)

Fixpoint every (P : list (event E) -> event E -> Prop) (before t : list (event E)) : Prop :=
  match t with [] => True | ev :: t' => P before ev /\ every P (before ++ [ev]) t' end.

Lemma every_app P before t1 t2 : every P before (t1 ++ t2) <-> every P before t1 /\ every P (before ++ t1) t2.
Proof.
  revert before. induction t1 as [|ev t1 IH]; intros before; simpl; [rewrite app_nil_r; tauto|].
  rewrite IH, <- app_assoc. simpl. tauto.
Qed.

Lemma every_split P before t t1 ev t2 : every P before t -> t = t1 ++ ev :: t2 -> P (before ++ t1) ev.
Proof. intros H ->. apply every_app in H as [_ [H _]]. exact H. Qed.

Lemma every_mono (P Q : list (event E) -> event E -> Prop) before t : (forall b ev, P b ev -> Q b ev) -> every P before t -> every Q before t.
Proof. intros H. revert before. induction t as [|ev t IH]; intros before; simpl; [done|]. intros [H1 H2]. split; auto. Qed.

(** Events that are all harmless. *)
Lemma every_Forall P before t : Forall (fun ev => forall b, P b ev) t -> every P before t.
Proof. intros H. revert before. induction H as [|ev t He _ IH]; intros before; simpl; [done|]. by split. Qed.

(** In a loop, each turn after those before it. *)
Lemma every_concat P before ts : (forall b t, t ∈ ts -> every P b t) -> every P before (concat ts).
Proof.
  revert before. induction ts as [|t ts IH]; intros before H; simpl; [done|]. apply every_app. split; [apply H; left|].
  apply IH. intros b t' Ht. apply H. by right.
Qed.
End programs.

Declare Scope prog_scope.
Delimit Scope prog_scope with prog.
Notation "'let*' x ':=' p 'in' k" := (bind p (fun x => k)) (at level 10, x pattern, p at level 100, k at level 200) : prog_scope.
Notation "'do*' p 'in' k" := (bind p (fun _ => k)) (at level 10, p at level 100, k at level 200) : prog_scope.
Open Scope prog_scope.

(** Takes the trace of a program apart, one call or branch at a time. *)
Ltac trace_step :=
  match goal with
  | H : traces (bind _ _) _ _ |- _ =>
      apply traces_bind in H as [(?e & H & ->)|(?a & ?t1 & ?t2 & -> & ?H1 & H)]
  | H : traces (await _) _ _ |- _ => apply traces_await in H as ->
  | H : traces (quietly _) _ _ |- _ => apply traces_quietly in H as [?Hr (?r' & H)]; simplify_eq
  | H : traces (Ret _) _ _ |- _ => destruct H as [-> ?Hr]; simplify_eq
  | H : traces (Throw _) _ _ |- _ => destruct H as [-> ?Hr]; simplify_eq
  | H : traces (if ?b then _ else _) _ _ |- _ => destruct b eqn:?
  | H : traces (match ?x with _ => _ end) _ _ |- _ => destruct x eqn:?
  end.
