(* ===== verification/ServicePatch.v ===== *)
(** Patches of a live service (packages/trpc/src/services/service-patch.ts): one
    aspect of a service is changed by reading its whole specification back from
    Docker, applying the patch to that, and deploying the result.

    The calls that the services and workers make on the way are the type [effect]. *)

From S2P Require Import Prelude Comparators Json JsonText KvCodec Doubles NetPolicy ServiceSpec SecretEnv SpecRead Effects.

(** * The calls *)

Inductive PullPolicy := pull_missing | pull_always.

(** A row of the error rates that the observability store answers. *)
Record RateRow := { rr_service : string; rr_calls : number; rr_errors : number }.

(** A secret that Docker lists; its value is never listed. *)
Record SecretRow := { sr_name : string; sr_createdAt : Z; sr_labels : list (string * string) }.

(** Where backups go, as the organisation configured it. *)
Record BackupTargetRow := {
  bt_id : string; bt_kind : string; bt_endpoint : option string; bt_bucket : string; bt_prefix : option string;
  bt_region : option string; bt_credentialRef : option string; bt_secretKeyRef : option string
}.

(** The containers that the nodes online report, and those of an organisation. *)
Record ContainerInfo := {
  ci_id : string; ci_serviceId : option string; ci_labels : list (string * string); ci_state : string
}.
Record LiveNode := { ln_nodeId : string; ln_swarmNodeId : option string; ln_containers : list ContainerInfo }.
Record LiveTasks := { ot_orgContainers : list string; ot_online : list LiveNode }.

(** What the placement of a new primary reads: the labels of the live services, the
    swarm id of the node commands go through, the nodes whose data disk is not attached. *)
Record PlacementView := { pv_services : list (list (string * string)); pv_fallback : option string; pv_broken : list string }.

(** [hub.dispatch(node, ...)] of a command to a manager, and the platform's own
    services: admission (whether each violation blocks), domain checks, whether
    ingress is configured, its rendering, the records, the policies; a failure of any
    of them throws.  A command run in a container answers its exit code and output; the
    controller's own memory of nodes and containers is read by calls too. *)
Inductive effect : Type -> Type :=
  | ServiceInspect (node service : string) : effect (option payload)
  | ServiceDeploy (node : string) (spec : ServiceSpec) (pullPolicy : PullPolicy) (timeoutMs : option Z) : effect ()
  | ServiceUpdateLabels (node service : string) (add : list (string * string)) (removeKeys : list string) : effect ()
  | ServiceRemove (node service : string) : effect ()
  | SecretList (node : string) : effect (list SecretRow)
  | SecretCreate (node name dataB64 : string) (labels : list (string * string)) : effect ()
  | SecretRemove (node name : string) : effect ()
  | Authorize (action serviceId : string) : effect ()
  | ServiceScale (node service : string) (replicas : Z) : effect ()
  | NetworkEnsure (node name : string) (labels : list (string * string)) : effect ()
  | ConfigCreate (node name dataB64 : string) (labels : list (string * string)) : effect ()
  | ReadTasks (org : string) : effect LiveTasks
  | ReadPlacement (org node : string) : effect PlacementView
  | FindBackupTarget (org : string) (id : option string) : effect (option BackupTargetRow)
  | MigrateDbCredentials (org stack cluster : string) : effect Z
  | Exec (node containerId : string) (cmd : list string) : effect (Z * string)
  | BeforeDeploy (spec : ServiceSpec) : effect ()
  | EvaluateAdmission (spec : ServiceSpec) : effect (list bool)
  | RegisterDomainHosts (routes : list attrs) : effect ()
  | IngressOn : effect bool
  | ApplyIngress : effect ()
  | ReapplyIngress (org : string) : effect ()
  | OrgErrorRates (org : string) (windowMinutes : Z) : effect (option (list RateRow))
  | WriteAudit (action targetId : string) : effect ()
  | FireAlert (signal severity resource : string) : effect ()
  | RecordIncident (groupKey kind : string) : effect ().

Definition program := prog effect.

(** What an inspection was answered. *)
Definition inspect_answer (ev : event effect) : option (option payload + failure) :=
  match ev_call ev in effect X return X + failure -> option (option payload + failure) with
  | ServiceInspect _ _ => Some
  | _ => fun _ => None
  end (ev_answer ev).

(** What an event changes: the labels of a service, its specification, or the
    service, removed; with the name it is addressed by. *)
Inductive change :=
  | Labelled (node service : string) (add : list (string * string)) (removeKeys : list string)
  | Deployed (node : string) (spec : ServiceSpec) (pullPolicy : PullPolicy)
  | Removed (node service : string).

Definition changed {X} (c : effect X) : option change :=
  match c with
  | ServiceUpdateLabels node service add rm => Some (Labelled node service add rm)
  | ServiceDeploy node spec pull _ => Some (Deployed node spec pull)
  | ServiceRemove node service => Some (Removed node service)
  | _ => None
  end.

Definition change_of (ev : event effect) : option change := changed (ev_call ev).

Definition succeeded (ev : event effect) : bool := match ev_answer ev with inl _ => true | inr _ => false end.

(** Every call succeeds and finds nothing. *)
Definition yes : nat -> forall X, effect X -> X + failure := fun _ X c =>
  match c in effect X return X + failure with
  | ServiceInspect _ _ => inl None
  | OrgErrorRates _ _ => inl None
  | EvaluateAdmission _ => inl []
  | IngressOn => inl true
  | SecretList _ => inl []
  | Exec _ _ _ => inl (0, "")
  | ReadTasks _ => inl {| ot_orgContainers := []; ot_online := [] |}
  | ReadPlacement _ _ => inl {| pv_services := []; pv_fallback := None; pv_broken := [] |}
  | FindBackupTarget _ _ => inl None
  | MigrateDbCredentials _ _ _ => inl 0
  | _ => inl tt
  end.

(** * Applying a patch *)

Inductive NameMatch := Names (l : list string) | Such (p : string -> bool).

Definition matcher (m : option NameMatch) (n : string) : bool :=
  match m with None => false | Some (Such p) => p n | Some (Names l) => mem n l end.

Abbreviation entries := (list (string * string)).

Record ServicePatch := {
  sp_image : option string; sp_removeEnv : option NameMatch; sp_setEnv : option entries;
  sp_removeLabels : option (list string); sp_setLabels : option entries;
  sp_removeSecrets : option NameMatch; sp_addSecrets : option (list Ref);
  sp_removeConfigs : option NameMatch; sp_addConfigs : option (list Ref);
  sp_removeNetworks : option (list string); sp_addNetworks : option (list string);
  sp_transform : option (ServiceSpec -> ServiceSpec)
}.

(** [Object.assign(o, m)] *)
Definition assign {A} (o m : list (string * A)) : list (string * A) :=
  foldl (fun o kv => obj_set (fst kv) (snd kv) o) o (own_order m).

Definition sources (l : list Ref) : list string := map rf_source l.

Definition patchRefs (live : option (list Ref)) (remove : option NameMatch) (add : option (list Ref)) : option (list Ref) :=
  match remove, default [] add with
  | None, [] => live
  | _, add => nonempty_list (List.filter (fun r => negb (matcher remove (rf_source r)) && negb (mem (rf_source r) (sources add)))
                               (default [] live) ++ add)
  end.

Definition patch_env (base : ServiceSpec) (p : ServicePatch) : option entries :=
  match sp_removeEnv p, sp_setEnv p with
  | None, None => ss_env base
  | drop, set => nonempty_list (assign (List.filter (fun kv => negb (matcher drop (fst kv))) (own_order (env_of base))) (default [] set))
  end.

Definition patch_labels (base : ServiceSpec) (p : ServicePatch) : option entries :=
  match default [] (sp_removeLabels p), sp_setLabels p with
  | [], None => ss_labels base
  | drop, set => Some (assign (drop_names drop (own_order (labels_of base))) (default [] set))
  end.

Definition patch_networks (base : ServiceSpec) (p : ServicePatch) : option (list string) :=
  match default [] (sp_removeNetworks p), default [] (sp_addNetworks p) with
  | [], [] => ss_networks base
  | drop, add => nonempty_list (js_uniq (List.filter (fun n => negb (mem n drop)) (default [] (ss_networks base)) ++ add))
  end.

Definition applyServicePatch (base : ServiceSpec) (p : ServicePatch) : ServiceSpec :=
  let out := set_image (default (ss_image base) (truthy_str (sp_image p))) base in
  let out := set_env (patch_env base p) out in
  let out := set_labels (patch_labels base p) out in
  let out := set_secrets (patchRefs (ss_secrets base) (sp_removeSecrets p) (sp_addSecrets p)) out in
  let out := set_configs (patchRefs (ss_configs base) (sp_removeConfigs p) (sp_addConfigs p)) out in
  let out := set_networks (patch_networks base p) out in
  match sp_transform p with Some f => f out | None => out end.

(** * On a live service *)

Record LiveServiceRef := { lr_name : string; lr_image : option string; lr_networks : list string }.

Definition networkNames (ref : LiveServiceRef) : list string := List.filter nonempty (lr_networks ref).

(** The specification read, on the image of the inventory; [None] where none is read
    or no image is known. *)
Definition live_read (ref : LiveServiceRef) (raw : option payload) : option ServiceSpec :=
  match specFromInspect raw (networkNames ref), truthy_str (lr_image ref) with
  | None, _ => None
  | Some spec, Some image => Some (set_image image spec)
  | Some spec, None => if nonempty (ss_image spec) then Some spec else None
  end.

Definition liveServiceSpec (nodeId : string) (ref : LiveServiceRef) : program ServiceSpec :=
  let* raw := catch (await (ServiceInspect nodeId (lr_name ref))) (fun e => Throw (mapDispatchError e)) in
  match live_read ref raw with Some spec => Ret spec | None => Throw (Typed COMMAND_REJECTED) end.

Record PatchLiveServiceOptions := {
  po_nodeId : option string; po_pullPolicy : option PullPolicy; po_timeoutMs : option Z; po_beforeDeploy : bool
}.

(** [managerNode] is the manager that is online, if there is one. *)
Definition patchLiveService (managerNode : option string) (ref : LiveServiceRef) (p : ServicePatch)
    (opts : PatchLiveServiceOptions) : program ServiceSpec :=
  let* nodeId := match po_nodeId opts, managerNode with
                 | Some n, _ => Ret n
                 | None, Some n => Ret n
                 | None, None => Throw (Typed NO_MANAGER)
                 end in
  let* live := liveServiceSpec nodeId ref in
  let spec := applyServicePatch live p in
  do* (if po_beforeDeploy opts then await (BeforeDeploy spec) else Ret tt) in
  let timeout := match po_timeoutMs opts with Some 0 => None | t => t end in
  do* catch (await (ServiceDeploy nodeId spec (default pull_missing (po_pullPolicy opts)) timeout))
        (fun e => Throw (mapDispatchError e)) in
  Ret spec.

(** * Lemmas *)

Lemma get_object_assign {A} k (o m : list (string * A)) : NoDup (map fst m) ->
  get k (assign o m) = match get k m with Some v => Some v | None => get k o end.
Proof.
  intros Hd. unfold assign. rewrite <- (get_own_order k m) by done.
  assert (Hn : NoDup (map fst (own_order m))) by (by rewrite own_order_keys). revert o Hn.
  induction (own_order m) as [|[k' v] l IH]; intros o Hn; simpl; [done|]. apply NoDup_cons in Hn as [Hk Hn].
  rewrite IH, get_obj_set by done. destruct (String.eqb_spec k k') as [->|]; [|done].
  destruct (get k' l) eqn:E; [|done]. exfalso. apply Hk, get_keys. by eexists.
Qed.

Lemma get_bfilter {A} k (f : string -> bool) (m : list (string * A)) :
  get k (List.filter (fun kv => f (fst kv)) m) = if f k then get k m else None.
Proof.
  induction m as [|[k' v] m IH]; simpl; [by destruct (f k)|]. destruct (String.eqb_spec k k') as [->|Hne].
  - destruct (f k') eqn:E; simpl; [by rewrite String.eqb_refl|by rewrite IH].
  - destruct (f k') eqn:E; simpl; [|done]. apply String.eqb_neq in Hne. by rewrite Hne.
Qed.

Lemma nonempty_elem {A} (l : list A) x : x ∈ default [] (nonempty_list l) <-> x ∈ l.
Proof. by destruct l. Qed.

(** A patched list of references: the added ones, and the others that were there
    unless they are removed or replaced. *)
Lemma patchRefs_elem live remove add r : r ∈ default [] (patchRefs live remove add) <->
  r ∈ default [] add \/ (r ∈ default [] live /\ matcher remove (rf_source r) = false /\ rf_source r ∉ sources (default [] add)).
Proof.
  assert (H : forall add', r ∈ default [] (nonempty_list (List.filter
      (fun r => negb (matcher remove (rf_source r)) && negb (mem (rf_source r) (sources add'))) (default [] live) ++ add')) <->
    r ∈ add' \/ (r ∈ default [] live /\ matcher remove (rf_source r) = false /\ rf_source r ∉ sources add')).
  { intros add'. rewrite nonempty_elem, elem_of_app, bfilter_elem, andb_true_iff, !negb_true_iff, mem_false. tauto. }
  unfold patchRefs. destruct remove as [m|]; [apply H|]. destruct (default [] add) as [|a l]; [|apply H].
  simpl. split; [intros Hr; right; by split_and!; [| |apply not_elem_of_nil]|intros [Hr%elem_of_nil|[? _]]; done].
Qed.

Lemma foldl_NoDup_keys {A} (o m : list (string * A)) : NoDup (map fst o) -> NoDup (map fst (assign o m)).
Proof.
  unfold assign. generalize (own_order m). intros l. revert o. induction l as [|kv l IH]; intros o Ho; simpl; [done|].
  by apply IH, obj_set_NoDup.
Qed.

Lemma bfilter_keys_NoDup {A} (f : string * A -> bool) (m : list (string * A)) :
  NoDup (map fst m) -> NoDup (map fst (List.filter f m)).
Proof.
  intros Hd. induction m as [|[k v] m IH]; simpl in *; [done|]. apply NoDup_cons in Hd as [Hk Hd].
  destruct (f (k, v)); simpl; [|by apply IH]. apply NoDup_cons. split; [|by apply IH].
  intros Hin. apply Hk. apply list_elem_of_fmap in Hin as ([k' v'] & -> & [Hin _]%bfilter_elem).
  apply list_elem_of_fmap. by exists (k', v').
Qed.

(** A specification without what a patch can name. *)
Definition rest_of (s : ServiceSpec) : ServiceSpec :=
  set_image "" (set_env None (set_labels None (set_secrets None (set_configs None (set_networks None s))))).

(** What a patch means: each field it names, key by key. *)
Record patched (base : ServiceSpec) (p : ServicePatch) (s : ServiceSpec) : Prop := {
  pd_image : ss_image s = default (ss_image base) (truthy_str (sp_image p));
  pd_env : forall k, get k (env_of s) =
    match get k (default [] (sp_setEnv p)) with
    | Some v => Some v
    | None => if matcher (sp_removeEnv p) k then None else get k (env_of base)
    end;
  pd_labels : forall k, get k (labels_of s) =
    match get k (default [] (sp_setLabels p)) with
    | Some v => Some v
    | None => if mem k (default [] (sp_removeLabels p)) then None else get k (labels_of base)
    end;
  pd_secrets : forall r, r ∈ default [] (ss_secrets s) <-> r ∈ default [] (sp_addSecrets p) \/
    (r ∈ default [] (ss_secrets base) /\ matcher (sp_removeSecrets p) (rf_source r) = false /\
     rf_source r ∉ sources (default [] (sp_addSecrets p)));
  pd_configs : forall r, r ∈ default [] (ss_configs s) <-> r ∈ default [] (sp_addConfigs p) \/
    (r ∈ default [] (ss_configs base) /\ matcher (sp_removeConfigs p) (rf_source r) = false /\
     rf_source r ∉ sources (default [] (sp_addConfigs p)));
  pd_networks : forall n, n ∈ default [] (ss_networks s) <-> n ∈ default [] (sp_addNetworks p) \/
    (n ∈ default [] (ss_networks base) /\ n ∉ default [] (sp_removeNetworks p));
  pd_rest : rest_of s = rest_of base
}.

Definition keyed (s : ServiceSpec) : Prop := NoDup (map fst (env_of s)) /\ NoDup (map fst (labels_of s)).

Definition patch_keyed (p : ServicePatch) : Prop :=
  NoDup (map fst (default [] (sp_setEnv p))) /\ NoDup (map fst (default [] (sp_setLabels p))).

Lemma patch_env_get base p k : NoDup (map fst (env_of base)) -> NoDup (map fst (default [] (sp_setEnv p))) ->
  get k (default [] (patch_env base p)) =
    match get k (default [] (sp_setEnv p)) with
    | Some v => Some v
    | None => if matcher (sp_removeEnv p) k then None else get k (env_of base)
    end.
Proof.
  intros Hb Hs. unfold patch_env. set (drop := sp_removeEnv p). set (sets := sp_setEnv p) in *.
  assert (E : get k (default [] (nonempty_list (assign (List.filter (fun kv => negb (matcher drop (fst kv))) (own_order (env_of base))) (default [] sets)))) =
    match get k (default [] sets) with Some v => Some v | None => if matcher drop k then None else get k (env_of base) end).
  { rewrite default_nonempty, get_object_assign, (get_bfilter k (fun k => negb (matcher drop k))), get_own_order by done.
    by destruct (get k (default [] sets)), (matcher drop k). }
  destruct drop, sets; done.
Qed.

Lemma patch_labels_get base p k : NoDup (map fst (labels_of base)) -> NoDup (map fst (default [] (sp_setLabels p))) ->
  get k (default [] (patch_labels base p)) =
    match get k (default [] (sp_setLabels p)) with
    | Some v => Some v
    | None => if mem k (default [] (sp_removeLabels p)) then None else get k (labels_of base)
    end.
Proof.
  intros Hb Hs. unfold patch_labels. set (drop := default [] (sp_removeLabels p)). set (sets := sp_setLabels p) in *.
  assert (E : get k (assign (drop_names drop (own_order (labels_of base))) (default [] sets)) =
    match get k (default [] sets) with Some v => Some v | None => if mem k drop then None else get k (labels_of base) end).
  { by rewrite get_object_assign, get_drop_names, get_own_order. }
  destruct drop, sets; done.
Qed.

Lemma patch_networks_elem base p n : n ∈ default [] (patch_networks base p) <-> n ∈ default [] (sp_addNetworks p) \/
  (n ∈ default [] (ss_networks base) /\ n ∉ default [] (sp_removeNetworks p)).
Proof.
  unfold patch_networks. set (drop := default [] (sp_removeNetworks p)). set (add := default [] (sp_addNetworks p)).
  assert (E : n ∈ default [] (nonempty_list (js_uniq (List.filter (fun n => negb (mem n drop)) (default [] (ss_networks base)) ++ add))) <->
    n ∈ add \/ (n ∈ default [] (ss_networks base) /\ n ∉ drop)).
  { rewrite nonempty_elem, js_uniq_elem, elem_of_app, bfilter_elem, negb_true_iff, mem_false. tauto. }
  destruct drop, add; try apply E. split; [intros H; right; by split; [|apply not_elem_of_nil]|by intros [H%elem_of_nil|[H _]]].
Qed.

(** ApplyServicePatch does what the patch says and nothing else: an environment
    variable or label is the one set, gone if it is removed and not set, and what it
    was otherwise; a mounted secret or config is there exactly when it is added, or
    was there and is neither removed nor replaced; a network when it is joined, or
    was there and is not left; every other field is carried verbatim.  Names are
    unique, so that each key has one value. *)
Theorem service_patch_exact base p : keyed base -> patch_keyed p -> sp_transform p = None ->
  patched base p (applyServicePatch base p) /\ keyed (applyServicePatch base p).
Proof.
  intros [He Hl] [Hse Hsl] Ht.
  assert (E : applyServicePatch base p = set_networks (patch_networks base p) (set_configs (patchRefs (ss_configs base) (sp_removeConfigs p) (sp_addConfigs p))
    (set_secrets (patchRefs (ss_secrets base) (sp_removeSecrets p) (sp_addSecrets p)) (set_labels (patch_labels base p)
    (set_env (patch_env base p) (set_image (default (ss_image base) (truthy_str (sp_image p))) base)))))) by (unfold applyServicePatch; by rewrite Ht).
  rewrite E. split.
  - split; try reflexivity.
    + intros k. by apply patch_env_get.
    + intros k. by apply patch_labels_get.
    + apply patchRefs_elem.
    + apply patchRefs_elem.
    + apply patch_networks_elem.
  - split.
    + unfold env_of. cbn [set_networks set_configs set_secrets set_labels set_env ss_env]. unfold patch_env.
      assert (H : NoDup (map fst (assign (List.filter (fun kv => negb (matcher (sp_removeEnv p) (fst kv))) (own_order (env_of base))) (default [] (sp_setEnv p))))).
      { apply foldl_NoDup_keys. apply bfilter_keys_NoDup. by rewrite own_order_keys. }
      destruct (sp_removeEnv p), (sp_setEnv p); try done; by rewrite default_nonempty.
    + unfold labels_of. cbn [set_networks set_configs set_secrets set_labels ss_labels]. unfold patch_labels.
      assert (H : NoDup (map fst (assign (drop_names (default [] (sp_removeLabels p)) (own_order (labels_of base))) (default [] (sp_setLabels p))))).
      { apply foldl_NoDup_keys. apply drop_names_NoDup. by rewrite own_order_keys. }
      destruct (default [] (sp_removeLabels p)), (sp_setLabels p); done.
Qed.

(** * What a live patch calls *)

Definition patch_node (m : option string) (opts : PatchLiveServiceOptions) : option string :=
  match po_nodeId opts with Some n => Some n | None => m end.

Definition patch_timeout (opts : PatchLiveServiceOptions) : option Z :=
  match po_timeoutMs opts with Some 0 => None | t => t end.

Definition deploy_call (n : string) (spec : ServiceSpec) (opts : PatchLiveServiceOptions) : effect () :=
  ServiceDeploy n spec (default pull_missing (po_pullPolicy opts)) (patch_timeout opts).

(** The end of a patch once the specification is known. *)
Definition deploys (n : string) (spec : ServiceSpec) (opts : PatchLiveServiceOptions) (t : list (event effect)) (r : ServiceSpec + failure) : Prop :=
  (exists e, po_beforeDeploy opts = true /\ t = [Event (BeforeDeploy spec) (inr e)] /\ r = inr e) \/
  (exists a, t = (if po_beforeDeploy opts then [Event (BeforeDeploy spec) (inl tt)] else []) ++ [Event (deploy_call n spec opts) a] /\
             r = match a with inl _ => inl spec | inr e => inr (mapDispatchError e) end).

Lemma traces_mapped {X} (c : effect X) t r : traces (catch (await c) (fun e => Throw (mapDispatchError e))) t r <->
  exists a, t = [Event c a] /\ r = match a with inl x => inl x | inr e => inr (mapDispatchError e) end.
Proof.
  rewrite traces_catch. split.
  - intros [(a & H%traces_await & ->)|(e & t1 & t2 & -> & H%traces_await & [-> ->])]; subst; [by exists (inl a)|].
    by exists (inr e).
  - intros ([x|e] & -> & ->); [left; exists x|right; exists e, [Event c (inr e)], []]; by rewrite traces_await.
Qed.

Lemma live_traces n ref t r : traces (liveServiceSpec n ref) t r <->
  exists a, t = [Event (ServiceInspect n (lr_name ref)) a] /\
    r = match a with
        | inr e => inr (mapDispatchError e)
        | inl raw => match live_read ref raw with Some s => inl s | None => inr (Typed COMMAND_REJECTED) end
        end.
Proof.
  unfold liveServiceSpec. rewrite traces_bind. setoid_rewrite traces_mapped.
  assert (Hk : forall raw t (r : ServiceSpec + failure),
    traces (match live_read ref raw with Some spec => Ret spec | None => Throw (Typed COMMAND_REJECTED) end : program ServiceSpec) t r <->
    t = [] /\ r = match live_read ref raw with Some s => inl s | None => inr (Typed COMMAND_REJECTED) end) by (intros raw t' r'; by destruct (live_read ref raw)).
  split.
  - intros [(e & ([a|e'] & -> & E) & ->)|(raw & t1 & t2 & -> & ([a|e'] & -> & E) & H)]; simplify_eq.
    + by exists (inr e').
    + apply Hk in H as [-> ->]. by exists (inl a).
  - intros ([raw|e] & -> & ->); [right|left].
    + exists raw, [Event (ServiceInspect n (lr_name ref)) (inl raw)], []. split; [done|]. split; [by exists (inl raw)|]. by apply Hk.
    + exists (mapDispatchError e). split; [|done]. by exists (inr e).
Qed.

Lemma patch_traces m ref p opts t r : traces (patchLiveService m ref p opts) t r ->
  (patch_node m opts = None /\ t = [] /\ r = inr (Typed NO_MANAGER)) \/
  exists n a t', patch_node m opts = Some n /\ t = Event (ServiceInspect n (lr_name ref)) a :: t' /\
    match a with
    | inr e => t' = [] /\ r = inr (mapDispatchError e)
    | inl raw => match live_read ref raw with
                 | None => t' = [] /\ r = inr (Typed COMMAND_REJECTED)
                 | Some live => deploys n (applyServicePatch live p) opts t' r
                 end
    end.
Proof.
  unfold patchLiveService, patch_node. intros H.
  assert (Hrun : forall n, traces (let* live := liveServiceSpec n ref in let spec := applyServicePatch live p in
      do* (if po_beforeDeploy opts then await (BeforeDeploy spec) else Ret tt) in
      do* catch (await (deploy_call n spec opts)) (fun e => Throw (mapDispatchError e)) in Ret spec) t r ->
    exists a t', t = Event (ServiceInspect n (lr_name ref)) a :: t' /\
    match a with
    | inr e => t' = [] /\ r = inr (mapDispatchError e)
    | inl raw => match live_read ref raw with
                 | None => t' = [] /\ r = inr (Typed COMMAND_REJECTED)
                 | Some live => deploys n (applyServicePatch live p) opts t' r
                 end
    end).
  { intros n Hn. apply traces_bind in Hn as [(e & (a & -> & E)%live_traces & ->)|(live & t1 & t2 & -> & (a & -> & E)%live_traces & Hn)].
    - exists a, []. split; [done|]. destruct a as [raw|e']; [|by simplify_eq]. by destruct (live_read ref raw); simplify_eq.
    - exists a, t2. split; [done|]. destruct a as [raw|e']; [|done]. destruct (live_read ref raw) as [s|]; [|done]. simplify_eq.
      cbv zeta in Hn. set (spec := applyServicePatch s p) in *. unfold deploys.
      assert (Hend : forall t r, traces (do* catch (await (deploy_call n spec opts)) (fun e => Throw (mapDispatchError e)) in Ret spec) t r ->
        exists a, t = [Event (deploy_call n spec opts) a] /\ r = match a with inl _ => inl spec | inr e => inr (mapDispatchError e) end).
      { intros t3 r3 H3. apply traces_bind in H3 as [(e & (a & -> & E)%traces_mapped & ->)|([] & t4 & t5 & -> & (a & -> & E)%traces_mapped & [-> ->])];
          exists a; destruct a; simplify_eq; done. }
      apply traces_bind in Hn as [(e & Hb & ->)|([] & t3 & t4 & -> & Hb & Hn)].
      + destruct (po_beforeDeploy opts); [|by destruct Hb]. apply traces_await in Hb as ->. left. by exists e.
      + right. apply Hend in Hn as (a & -> & ->). exists a. split; [|done].
        destruct (po_beforeDeploy opts); [by apply traces_await in Hb as ->|by destruct Hb as [-> _]]. }
  destruct (po_nodeId opts) as [n|]; [|destruct m as [n|]].
  - right. simpl in H. apply Hrun in H as (a & t' & -> & H). by exists n, a, t'.
  - right. simpl in H. apply Hrun in H as (a & t' & -> & H). by exists n, a, t'.
  - left. simpl in H. destruct H as [-> ->]. done.
Qed.

(** When the calls succeed, so does the patch. *)
Lemma patch_completes m n ref p opts raw live : patch_node m opts = Some n -> po_beforeDeploy opts = false -> live_read ref raw = Some live ->
  traces (patchLiveService m ref p opts)
    [Event (ServiceInspect n (lr_name ref)) (inl raw); Event (deploy_call n (applyServicePatch live p) opts) (inl tt)]
    (inl (applyServicePatch live p)).
Proof.
  unfold patch_node, patchLiveService. intros Hn Hb Hl. apply traces_bind. right. exists n, [], [Event (ServiceInspect n (lr_name ref)) (inl raw); Event (deploy_call n (applyServicePatch live p) opts) (inl tt)].
  split; [done|]. split; [destruct (po_nodeId opts); simplify_eq; done|]. apply traces_bind. right.
  exists live, [Event (ServiceInspect n (lr_name ref)) (inl raw)], [Event (deploy_call n (applyServicePatch live p) opts) (inl tt)].
  split; [done|]. split; [apply live_traces; exists (inl raw); by rewrite Hl|]. cbv zeta. rewrite Hb. simpl. exists (inl tt), []. done.
Qed.

Definition on_image (o : option string) (s : ServiceSpec) : ServiceSpec := set_image (default (ss_image s) (truthy_str o)) s.

Lemma observed_image shell s networks : ss_image (observed shell s networks) = ss_image s.
Proof. unfold observed. by destruct (wanted_names s), shell. Qed.

Lemma live_read_observed ref raw s shell : specFromInspect raw (networkNames ref) = Some (observed shell s (networkNames ref)) ->
  ss_image s <> "" -> live_read ref raw = Some (on_image (lr_image ref) (observed shell s (networkNames ref))).
Proof.
  intros E Hi. unfold live_read, on_image. rewrite E. destruct (truthy_str (lr_image ref)); [done|].
  rewrite <- (observed_image shell s (networkNames ref)) in Hi. unfold nonempty. apply String.eqb_neq in Hi as ->. simpl.
  by destruct (observed shell s (networkNames ref)).
Qed.

(** C5: A patch of a live service never deploys less than the service had: without an
    answer to the inspection, or with one that cannot be read, nothing is deployed;
    and when Docker answers with the body that the agent sent for a specification,
    with or without secret variables, the one deploy it makes, and returns when it
    succeeds, is that specification as it is observed, on the image of the
    inventory, with the patch applied; it comes last, after the admission check
    when there is one, and not at all when that refuses. *)
Theorem live_patch_faithful m n ref p opts t r :
  patch_node m opts = Some n -> traces (patchLiveService m ref p opts) t r ->
  exists a t', t = Event (ServiceInspect n (lr_name ref)) a :: t' /\
    (forall e, a = inr e -> t' = [] /\ r = inr (mapDispatchError e)) /\
    (forall raw, a = inl raw -> live_read ref raw = None -> t' = [] /\ r = inr (Typed COMMAND_REJECTED)) /\
    (forall sw image shell shim s w body, a = inl (inspected body) -> user_spec s -> spec_ok s ->
       independent (wanted_names s) (env_of s) -> ss_image s <> "" ->
       prepareSecretEnv image shell shim s = Ok w -> sends sw w body ->
       deploys n (applyServicePatch (on_image (lr_image ref) (observed shell s (networkNames ref))) p) opts t' r).
Proof.
  intros Hn [(Hn' & _)|(n' & a & t' & Hn' & -> & H)]%patch_traces; [by rewrite Hn in Hn'|].
  rewrite Hn in Hn'. injection Hn' as <-. exists a, t'. split; [done|]. split; [by intros e ->|]. split.
  - intros raw -> E. by rewrite E in H.
  - intros sw image shell shim s w body -> Hu Hok Hi Himg Hw Hb.
    rewrite (live_read_observed _ _ s shell) in H; [done| |done]. by eapply read_back_observed.
Qed.

(** * Example: a new variable for the deployed service of SpecRead *)

Definition no_patch : ServicePatch :=
  {| sp_image := None; sp_removeEnv := None; sp_setEnv := None; sp_removeLabels := None; sp_setLabels := None;
     sp_removeSecrets := None; sp_addSecrets := None; sp_removeConfigs := None; sp_addConfigs := None;
     sp_removeNetworks := None; sp_addNetworks := None; sp_transform := None |}.

Definition log_patch : ServicePatch :=
  {| sp_image := None; sp_removeEnv := Some (Names ["LOG"]); sp_setEnv := Some [("MODE", "fast")]; sp_removeLabels := None;
     sp_setLabels := Some [("tier", "web")]; sp_removeSecrets := None; sp_addSecrets := None; sp_removeConfigs := None;
     sp_addConfigs := None; sp_removeNetworks := None; sp_addNetworks := Some ["edge"; "shop_default"]; sp_transform := None |}.

Definition api_ref : LiveServiceRef := {| lr_name := ss_name api_spec; lr_image := None; lr_networks := ["shop_default"; ""] |}.
Definition by_default : PatchLiveServiceOptions :=
  {| po_nodeId := None; po_pullPolicy := None; po_timeoutMs := None; po_beforeDeploy := false |}.

Lemma service_patch_exact_witness :
  patched (observed true api_spec ["shop_default"]) log_patch (applyServicePatch (observed true api_spec ["shop_default"]) log_patch) /\
  ss_env (applyServicePatch (observed true api_spec ["shop_default"]) log_patch) = Some [("MODE", "fast")] /\
  ss_networks (applyServicePatch (observed true api_spec ["shop_default"]) log_patch) = Some ["shop_default"; "edge"].
Proof.
  split; [|by vm_compute]. refine (proj1 (service_patch_exact (observed true api_spec ["shop_default"]) log_patch _ _ eq_refl)).
  - split; apply (bool_decide_eq_true_1 _); by vm_compute.
  - split; apply (bool_decide_eq_true_1 _); by vm_compute.
Defined.

Definition api_patched : ServiceSpec := applyServicePatch (on_image None (observed true api_spec (networkNames api_ref))) log_patch.

Lemma api_sent : ss_image api_spec <> "" /\ prepareSecretEnv (Ok shop_image) true (Ok ()) api_spec = Ok api_deployed /\
  sends shop_swarm api_deployed api_body.
Proof. split; [done|]. split; [by vm_compute|]. left. by vm_compute. Qed.

Lemma api_patch_trace : traces (patchLiveService (Some "m1") api_ref log_patch by_default)
  [Event (ServiceInspect "m1" "shop_web") (inl (inspected api_body)); Event (deploy_call "m1" api_patched by_default) (inl tt)] (inl api_patched).
Proof.
  destruct api_ok as (H1 & H2 & H3 & H4). destruct api_sent as (Hi & Hw & Hs).
  apply (patch_completes (Some "m1") "m1" api_ref log_patch by_default); [done..|].
  refine (live_read_observed api_ref _ api_spec true _ Hi). by eapply read_back_observed.
Qed.

Lemma live_patch_faithful_witness : exists t' r,
  deploys "m1" api_patched by_default t' r /\ ss_env api_patched = Some [("MODE", "fast")] /\
  ss_command api_patched = Some ["node"; "server.js"] /\ ss_secretEnv api_patched = Some ["DB_PASSWORD"].
Proof.
  exists [Event (deploy_call "m1" api_patched by_default) (inl tt)], (inl api_patched). split; [|by vm_compute].
  destruct api_ok as (H1 & H2 & H3 & H4). destruct api_sent as (Hi & Hw & Hs).
  destruct (live_patch_faithful (Some "m1") "m1" api_ref log_patch by_default _ _ eq_refl api_patch_trace) as (a & t' & Et & _ & _ & Hd).
  pose proof (f_equal tail Et) as Et'. apply (f_equal (fun l => head l ≫= inspect_answer)) in Et. injection Et as <-. cbn [tail] in Et'. subst t'.
  exact (Hd shop_swarm (Ok shop_image) true (Ok ()) api_spec api_deployed api_body eq_refl H1 H2 H4 Hi Hw Hs).
Defined.
