(* ===== verification/Routes.v ===== *)
(** Ingress routes on the label of a service (packages/trpc/src/services/
    ingress-routes.ts and ingress-routes-api.ts, with the schema of the protections
    in packages/ingress/src/types.ts): the tolerant reader, the strict validator of
    written routes, and the write of a service's whole set.

    A route is the JavaScript object the code builds, the list of its properties in
    the order they are set; a number keeps the decimal text it has in the document.
    Whether a pattern compiles as a regular expression is a parameter. *)

From S2P Require Import Prelude Comparators Json JsonText KvCodec Doubles JsNumber NetPolicy ServiceSpec SecretEnv SpecRead Effects ServicePatch.

Definition INGRESS_ROUTES_LABEL : string := "swarmy.ingress.routes".
Definition INGRESS_ENABLED_LABEL : string := "swarmy.ingress".

Definition TLS_VALUES : list string := ["auto"; "off"; "manual"].
Definition WWW_MODES : list string := ["redirect-www-to-apex"; "redirect-apex-to-www"; "serve-both"].

(** A property that is set when there is a value. *)
Definition prop (k : string) (o : option value) : attrs := match o with Some v => [(k, v)] | None => [] end.

Definition as_bool (v : value) : option value := match v with VBool b => Some (VBool b) | _ => None end.
Definition as_text (v : value) : option value := match v with VStr s => Some (VStr s) | _ => None end.

(** [typeof v === 'object' && v !== null], with the properties that routes read:
    an array has none of them. *)
Definition object_of (v : value) : option attrs := match v with VObj m => Some m | VArr _ => Some [] | _ => None end.

(** [Math.min(100, Math.max(0, w))] *)
Definition clamp_pct (w : string) : string :=
  match of_text w with
  | Fin n => if nle n (num 0) then "0" else if nlt (num 100) n then "100" else w
  | _ => w
  end.

(** * Schemas

    A schema reads a property that may be missing: [None] refuses it, [Some None]
    leaves it out. *)
Definition schema := option value -> option (option value).

Definition required (p : value -> option value) : schema := fun o => match o ≫= p with Some v => Some (Some v) | None => None end.
Definition optional (p : value -> option value) : schema :=
  fun o => match o with None => Some None | Some v => Some <$> p v end.
Definition defaulted (d : value) (p : value -> option value) : schema :=
  fun o => match o with None => Some (Some d) | Some v => Some <$> p v end.

Definition z_string (v : value) : option value := match v with VStr s => Some v | _ => None end.
Definition z_nonempty (v : value) : option value := match v with VStr s => if nonempty s then Some v else None | _ => None end.
Definition z_boolean (v : value) : option value := match v with VBool _ => Some v | _ => None end.
Definition z_such (p : string -> bool) (v : value) : option value := match v with VStr s => if p s then Some v else None | _ => None end.

(** [z.number().int().min(lo).max(hi)] *)
Definition z_int (lo : Z) (hi : option Z) (v : value) : option value :=
  match v with
  | VNum s =>
      match of_text s with
      | Fin n => match integer n with
                 | Some z => if (lo <=? z) && (match hi with Some h => z <=? h | None => true end) then Some v else None
                 | None => None
                 end
      | _ => None
      end
  | _ => None
  end.

Definition z_array (p : value -> option value) (v : value) : option value :=
  match v with VArr l => VArr <$> mapM p l | _ => None end.

Fixpoint z_fields (fs : list (string * schema)) (m : attrs) : option attrs :=
  match fs with
  | [] => Some []
  | (k, p) :: fs' =>
      match p (get k m), z_fields fs' m with
      | Some o, Some r => Some (prop k o ++ r)
      | _, _ => None
      end
  end.

Definition z_object (fs : list (string * schema)) (v : value) : option value :=
  match v with VObj m => VObj <$> z_fields fs m | _ => None end.

Definition RateLimitRuleSchema : value -> option value :=
  z_object [("requests", required (z_int 1 None)); ("windowSeconds", required (z_int 1 None));
            ("key", defaulted (VStr "ip") (z_such (fun s => mem s ["ip"; "header"]))); ("header", optional z_string)].

Definition CacheRuleSchema : value -> option value :=
  z_object [("ttlSeconds", required (z_int 1 (Some 86400))); ("keyHeaders", optional (z_array z_nonempty));
            ("staleWhileRevalidateSeconds", optional (z_int 1 (Some 86400)))].

Definition is_upper (c : ascii) : bool := let n := code c in ((65 <=? n) && (n <=? 90))%N.

Definition CountryCodeSchema : value -> option value :=
  z_such (fun s => Nat.eqb (String.length s) 2 && all_chars is_upper s).

Section schemas.
(** [isCompilableRe2Pattern]: the regular expression engine. *)
Variable isCompilableRe2Pattern : string -> bool.

Definition query_pattern (s : string) : bool :=
  nonempty s && all_chars (fun c => negb (Ascii.eqb c "`")) s && all_chars (fun c => negb (Ascii.eqb c dquote)) s && isCompilableRe2Pattern s.

Definition WafRuleSchema : value -> option value :=
  z_object [("blockScannerPaths", defaulted (VBool true) z_boolean);
            ("blockMethods", defaulted (VArr []) (z_array (z_such (fun s => nonempty s && all_chars is_upper s))));
            ("denyQueryPatterns", defaulted (VArr []) (z_array (z_such query_pattern)))].

Definition HeaderRuleSchema : value -> option value :=
  z_object [("name", required z_nonempty); ("value", optional z_string)].

Definition protection_fields : list (string * schema) :=
  [("rateLimit", optional RateLimitRuleSchema); ("ipAllow", defaulted (VArr []) (z_array z_string));
            ("ipDeny", defaulted (VArr []) (z_array z_string)); ("bodyMaxSize", optional z_string);
            ("blockBots", defaulted (VBool false) z_boolean);
            ("requiredHeaders", defaulted (VArr []) (z_array HeaderRuleSchema)); ("cache", optional CacheRuleSchema);
            ("countryAllow", optional (z_array CountryCodeSchema)); ("countryDeny", optional (z_array CountryCodeSchema));
            ("waf", optional WafRuleSchema)].

Definition RouteProtectionSchema : value -> option value := z_object protection_fields.

(** * Reading *)

(** [o && o.length > 0], [if (o)] *)
Definition nonempty_arr (o : option value) : option value := match o with Some (VArr (_ :: _)) => o | _ => None end.
Definition if_truthy (o : option value) : option value := match o with Some v => if truthy_value v then o else None | None => None end.

Definition compactProtection (p : attrs) : option value :=
  let ipAllow := default (VArr []) (get "ipAllow" p) in
  let ipDeny := default (VArr []) (get "ipDeny" p) in
  let blockBots := default (VBool false) (get "blockBots" p) in
  let requiredHeaders := default (VArr []) (get "requiredHeaders" p) in
  let extra := [("rateLimit", if_truthy (get "rateLimit" p)); ("bodyMaxSize", if_truthy (get "bodyMaxSize" p));
                ("cache", if_truthy (get "cache" p)); ("countryAllow", nonempty_arr (get "countryAllow" p));
                ("countryDeny", nonempty_arr (get "countryDeny" p)); ("waf", if_truthy (get "waf" p))] in
  let active := existsb (fun kv => bool_decide (is_Some (snd kv))) extra || bool_decide (is_Some (nonempty_arr (Some ipAllow))) ||
                bool_decide (is_Some (nonempty_arr (Some ipDeny))) || truthy_value blockBots ||
                bool_decide (is_Some (nonempty_arr (Some requiredHeaders))) in
  if active then
    Some (VObj (fields ([("ipAllow", Some ipAllow); ("ipDeny", Some ipDeny); ("blockBots", Some blockBots);
                         ("requiredHeaders", Some requiredHeaders)] ++ extra)))
  else None.

Definition coerceProtection (o : option value) : option value :=
  match o ≫= RouteProtectionSchema with Some (VObj p) => compactProtection p | _ => None end.

Definition coerceCanary (o : option value) : option value :=
  match o with
  | Some (VObj v) =>
      match get "service" v, get "port" v, get "weightPct" v with
      | Some (VStr service), Some (VNum port), Some (VNum weightPct) =>
          if nonempty service && finite port && finite weightPct then
            Some (VObj [("service", VStr service); ("port", VNum port); ("weightPct", VNum (clamp_pct weightPct))])
          else None
      | _, _, _ => None
      end
  | _ => None
  end.

Definition coerceAccess (o : option value) : option value :=
  match o with
  | Some (VObj v) => if bool_decide (get "login" v = Some (VBool true)) then Some (VObj [("login", VBool true)]) else None
  | _ => None
  end.

Definition texts (o : option value) : option value := match o with Some (VArr l) => Some (VArr (omap as_text l)) | _ => None end.

Definition tls_of (o : option value) : value :=
  match o with Some (VStr t) => if mem t TLS_VALUES then VStr t else VStr "auto" | _ => VStr "auto" end.

Definition one_of (l : list string) (o : option value) : option value :=
  match o with Some (VStr s) => if mem s l then Some (VStr s) else None | _ => None end.

Definition coerceRoute (value : value) : option attrs :=
  match value with
  | VObj v =>
      match get "host" v, get "port" v with
      | Some (VStr name), Some (VNum port) =>
          if nonempty name && finite port then
            Some (fields [
              ("host", Some (VStr name)); ("port", Some (VNum port)); ("tls", Some (tls_of (get "tls" v)));
              ("path", get "path" v ≫= as_text); ("stripPrefix", get "stripPrefix" v ≫= as_bool);
              ("middlewares", texts (get "middlewares" v)); ("driver", get "driver" v ≫= as_text);
              ("canary", coerceCanary (get "canary" v)); ("protection", coerceProtection (get "protection" v));
              ("www", one_of WWW_MODES (get "www" v)); ("rum", one_of ["on"; "off"] (get "rum" v));
              ("access", coerceAccess (get "access" v))])
          else None
      | _, _ => None
      end
  | _ => None
  end.

Definition readRoutes (labels : entries) : list attrs :=
  match truthy_str (get INGRESS_ROUTES_LABEL labels) with
  | None => []
  | Some raw => match json_parse raw with Some (VArr l) => omap coerceRoute l | _ => [] end
  end.

Definition serializeRoutes (routes : list attrs) : string := json_stringify (VArr (map VObj routes)).

(** * Writing *)

Definition validCanary (at_ : string) (o : option value) : res (option value) :=
  match o ≫= object_of with
  | None => Ok None
  | Some c =>
      match get "service" c with
      | Some (VStr service) =>
          if String.eqb (trim service) "" then Err (at_ +:+ ": canary.service is required when canary is set")
          else match get "port" c ≫= z_int 1 (Some 65535) with
               | None => Err (at_ +:+ ": canary.port must be an integer in 1..65535")
               | Some port =>
                   match get "weightPct" c with
                   | Some (VNum w) =>
                       if finite w then Ok (Some (VObj [("service", VStr (trim service)); ("port", port); ("weightPct", VNum (clamp_pct w))]))
                       else Err (at_ +:+ ": canary.weightPct must be a number")
                   | _ => Err (at_ +:+ ": canary.weightPct must be a number")
                   end
               end
      | _ => Err (at_ +:+ ": canary.service is required when canary is set")
      end
  end.

(** A limit keyed by a header names the header. *)
Definition header_missing (p : attrs) : bool :=
  match get "rateLimit" p with
  | Some (VObj r) => bool_decide (get "key" r = Some (VStr "header")) && negb (bool_decide (is_Some (if_truthy (get "header" r))))
  | _ => false
  end.

Definition validProtection (at_ : string) (o : option value) : res (option value) :=
  match o with
  | Some (VObj _) | Some (VArr _) =>
      match o ≫= RouteProtectionSchema with
      | Some (VObj p) =>
          if header_missing p then Err (at_ +:+ ": protection.rateLimit.header is required when key is 'header'")
          else Ok (compactProtection p)
      | _ => Err (at_ +:+ ": protection is invalid")
      end
  | _ => Ok None
  end.

Definition validWww (at_ name : string) (o : option value) : res (option value) :=
  match o with
  | None | Some VNull => Ok None
  | _ =>
      match one_of WWW_MODES o with
      | None => Err (at_ +:+ ": www must be one of " +:+ join ", " WWW_MODES)
      | Some w => if startsWith "*." name then Err (at_ +:+ ": a wildcard host has no www companion") else Ok (Some w)
      end
  end.

Definition nonempty_text (o : option value) : option value := match o with Some (VStr s) => if nonempty s then o else None | _ => None end.

Definition clean_middlewares (o : option value) : option value :=
  match o with Some (VArr l) => nonempty_arr (Some (VArr (omap (fun m => nonempty_text (Some m)) l))) | _ => None end.

Definition validateRoute (at_ : string) (input : attrs) : res attrs :=
  match get "host" input with
  | Some (VStr h) =>
      if String.eqb (trim h) "" then Err (at_ +:+ ": host is required")
      else match get "port" input ≫= z_int 1 (Some 65535) with
           | None => Err (at_ +:+ ": port must be an integer in 1..65535")
           | Some port =>
               let! canary := validCanary at_ (get "canary" input) in
               let! protection := validProtection at_ (get "protection" input) in
               let! www := validWww at_ (trim h) (get "www" input) in
               Ok (fields [
                 ("host", Some (VStr (trim h))); ("port", Some port); ("tls", Some (tls_of (get "tls" input)));
                 ("path", nonempty_text (get "path" input)); ("stripPrefix", get "stripPrefix" input ≫= as_bool);
                 ("middlewares", clean_middlewares (get "middlewares" input)); ("driver", nonempty_text (get "driver" input));
                 ("canary", canary); ("protection", protection); ("www", www); ("access", coerceAccess (get "access" input))])
           end
  | _ => Err (at_ +:+ ": host is required")
  end.

Fixpoint validateRoutes (i : Z) (routes : list attrs) : res (list attrs) :=
  match routes with
  | [] => Ok []
  | r :: routes' =>
      let! clean := validateRoute ("routes[" +:+ pretty i +:+ "]") r in
      let! rest := validateRoutes (i + 1) routes' in
      Ok (clean :: rest)
  end.

(** ** The whole set of a service *)

Record InvService := {
  iv_id : string; iv_name : string; iv_stack : string; iv_image : string; iv_labels : entries; iv_networks : list string;
  iv_secrets : list string
}.

Definition resolveLiveService (all : list InvService) (idOrName : string) : option InvService :=
  match List.find (fun s => String.eqb (iv_id s) idOrName) all with
  | Some s => Some s
  | None => List.find (fun s => String.eqb (iv_name s) idOrName) all
  end.

Definition text_at (k : string) (r : attrs) : string := match get k r with Some (VStr s) => s | _ => "" end.

(** A host and a path, with a NUL character between them. *)
Definition route_key (h path : string) : string := h +:+ String (ascii_of_nat 0) path.

Definition by_key (m : list (string * attrs)) (r : attrs) : list (string * attrs) :=
  obj_set (route_key (text_at "host" r) (text_at "path" r)) r m.

(** A route written without [access] keeps the one it has. *)
Definition carry_access (live seen : list (string * attrs)) (r : attrs) : list (string * attrs) :=
  match get "access" r with
  | Some _ => seen
  | None =>
      let key := route_key (trim (text_at "host" r)) (text_at "path" r) in
      match get key seen, get key live ≫= get "access" with
      | Some clean, Some access => obj_set key (obj_set "access" access clean) seen
      | _, _ => seen
      end
  end.

Definition next_routes (labels : entries) (routes clean : list attrs) : list attrs :=
  let live := foldl by_key [] (readRoutes labels) in
  map snd (foldl (carry_access live) (foldl by_key [] clean) routes).

Definition setServiceRoutes (all : list InvService) (managerNode : option string) (serviceId : string) (routes : list attrs)
    : program (list attrs) :=
  match resolveLiveService all serviceId with
  | None => Throw (Typed NOT_FOUND)
  | Some service =>
      match validateRoutes 0 routes with
      | Err m => Throw (BadRequest m)
      | Ok clean =>
          let next := next_routes (iv_labels service) routes clean in
          do* await (RegisterDomainHosts next) in
          match managerNode with
          | None => Throw (Typed NO_MANAGER)
          | Some node =>
              do* (match next with
                   | [] => await (ServiceUpdateLabels node (iv_name service) [] [INGRESS_ROUTES_LABEL; INGRESS_ENABLED_LABEL])
                   | _ => await (ServiceUpdateLabels node (iv_name service)
                                   [(INGRESS_ROUTES_LABEL, serializeRoutes next); (INGRESS_ENABLED_LABEL, "true")] [])
                   end) in
              let* on := await IngressOn in
              do* (if on : bool then quietly (await ApplyIngress) else Ret tt) in
              Ret next
          end
      end
  end.
End schemas.

(** * Schemas are idempotent

    What a schema gives, it accepts and gives back. *)

Definition idem (p : value -> option value) : Prop := forall v w, p v = Some w -> p w = Some w.
Definition schema_ok (s : schema) : Prop := forall o o', s o = Some o' -> s o' = Some o'.

Lemma required_ok p : idem p -> schema_ok (required p).
Proof. intros H o o'. unfold required. destruct o as [v|]; [|done]. simpl. destruct (p v) eqn:E; [|done]. intros [= <-]. simpl. by rewrite (H _ _ E). Qed.

Lemma optional_ok p : idem p -> schema_ok (optional p).
Proof. intros H [v|] o'; simpl; [|by intros [= <-]]. destruct (p v) eqn:E; [|done]. intros [= <-]. simpl. by rewrite (H _ _ E). Qed.

Lemma defaulted_ok d p : idem p -> p d = Some d -> schema_ok (defaulted d p).
Proof.
  intros H Hd [v|] o'; simpl; [|intros [= <-]; simpl; by rewrite Hd]. destruct (p v) eqn:E; [|done]. intros [= <-]. simpl. by rewrite (H _ _ E).
Qed.

Lemma z_such_idem p : idem (z_such p).
Proof. intros v w. unfold z_such. destruct v; try done. destruct (p s) eqn:E; intros [= <-]. by rewrite E. Qed.

Lemma z_string_idem : idem z_string.
Proof. intros v w. unfold z_string. by destruct v; intros [= <-]. Qed.

Lemma z_nonempty_idem : idem z_nonempty.
Proof. intros v w. unfold z_nonempty. destruct v; try done. destruct (nonempty s) eqn:E; intros [= <-]. by rewrite E. Qed.

Lemma z_boolean_idem : idem z_boolean.
Proof. intros v w. unfold z_boolean. by destruct v; intros [= <-]. Qed.

Lemma z_int_same lo hi v w : z_int lo hi v = Some w -> v = w.
Proof. unfold z_int. repeat case_match; intros E; by simplify_eq. Qed.

Lemma z_int_idem lo hi : idem (z_int lo hi).
Proof. intros v w E. by rewrite <- (z_int_same _ _ _ _ E) at 1. Qed.

Lemma mapM_idem p l r : idem p -> mapM p l = Some r -> mapM p r = Some r.
Proof.
  intros H. revert r. induction l as [|v l IH]; intros r; simpl; [by intros [= <-]|]. destruct (p v) as [w|] eqn:E; [|done]. simpl.
  destruct (mapM p l) as [ws|] eqn:El; [|done]. intros [= <-]. simpl. by rewrite (H _ _ E), (IH _ eq_refl).
Qed.

Lemma z_array_idem p : idem p -> idem (z_array p).
Proof.
  intros H v w. unfold z_array. destruct v as [| | | |l|]; try done. destruct (mapM p l) as [r|] eqn:E; [|done]. intros [= <-].
  by rewrite (mapM_idem _ _ _ H E).
Qed.

Lemma get_prop k k' o m : get k (prop k' o ++ m) = if String.eqb k k' then match o with Some v => Some v | None => get k m end else get k m.
Proof. destruct o as [v|]; simpl; [by destruct (String.eqb k k')|by destruct (String.eqb k k')]. Qed.

(** The result of an object schema: each field is what its schema makes of the
    property, and there is nothing else. *)
Lemma z_fields_get fs m r : NoDup (map fst fs) -> z_fields fs m = Some r ->
  (forall k p, (k, p) ∈ fs -> p (get k m) = Some (get k r)) /\ (forall k, k ∉ map fst fs -> get k r = None).
Proof.
  revert r. induction fs as [|[k p] fs IH]; intros r Hd; simpl; [intros [= <-]; split; [by intros k p ?%elem_of_nil|done]|].
  apply NoDup_cons in Hd as [Hk Hd]. destruct (p (get k m)) as [o|] eqn:E; [|done]. destruct (z_fields fs m) as [r'|]; [|done].
  destruct (IH _ Hd eq_refl) as [H1 H2]. intros [= <-]. split.
  - intros k' p' [[= -> ->]|Hin]%elem_of_cons; rewrite get_prop.
    + rewrite String.eqb_refl, E. f_equal. destruct o; [done|]. by rewrite H2.
    + destruct (String.eqb_spec k' k) as [->|]; [|by apply H1]. exfalso. apply Hk, list_elem_of_fmap. by exists (k, p').
  - intros k' [Hn Hm]%not_elem_of_cons. rewrite get_prop. apply String.eqb_neq in Hn. rewrite Hn. by apply H2.
Qed.

Lemma z_fields_again fs m r m' : NoDup (map fst fs) -> z_fields fs m = Some r ->
  (forall k p, (k, p) ∈ fs -> p (get k m') = Some (get k r)) -> z_fields fs m' = Some r.
Proof.
  revert r. induction fs as [|[k p] fs IH]; intros r Hd; simpl; [done|]. apply NoDup_cons in Hd as [Hk Hd].
  destruct (p (get k m)) as [o|] eqn:E; [|done]. destruct (z_fields fs m) as [r'|] eqn:Er; [|done].
  destruct (z_fields_get _ _ _ Hd Er) as [_ H2]. intros [= <-] H.
  assert (Eo : p (get k m') = Some o).
  { rewrite (H k p) by (by left). rewrite get_prop, String.eqb_refl. f_equal. destruct o; [done|]. by rewrite H2. }
  rewrite Eo, (IH r' Hd eq_refl); [done|]. intros k' p' Hin. rewrite (H k' p') by (by right). rewrite get_prop.
  destruct (String.eqb_spec k' k) as [->|]; [|done]. exfalso. apply Hk, list_elem_of_fmap. by exists (k, p').
Qed.

Lemma z_object_idem fs : bool_decide (NoDup (map fst fs)) = true -> Forall (fun f => schema_ok (snd f)) fs -> idem (z_object fs).
Proof.
  intros Hd%bool_decide_eq_true Hs v w. unfold z_object. destruct v as [| | | | |m]; try done.
  destruct (z_fields fs m) as [r|] eqn:E; [|done]. intros [= <-]. destruct (z_fields_get _ _ _ Hd E) as [H1 _].
  rewrite (z_fields_again fs m r r); [done..|]. intros k p Hin. rewrite Forall_forall in Hs. apply (Hs _ Hin (get k m)). by apply H1.
Qed.

#[local] Hint Resolve required_ok optional_ok defaulted_ok z_such_idem z_string_idem z_nonempty_idem z_boolean_idem z_int_idem
  z_array_idem : schemas.

Ltac schema_tac := apply z_object_idem; [reflexivity|repeat constructor; cbn [snd]; auto 6 with schemas].

Lemma rate_idem : idem RateLimitRuleSchema.
Proof. schema_tac. Qed.
Lemma cache_idem : idem CacheRuleSchema.
Proof. schema_tac. Qed.
Lemma country_idem : idem CountryCodeSchema.
Proof. apply z_such_idem. Qed.
Lemma header_idem : idem HeaderRuleSchema.
Proof. schema_tac. Qed.

#[local] Hint Resolve rate_idem cache_idem country_idem header_idem : schemas.

Section protections.
Context (re2 : string -> bool).

Lemma waf_idem : idem (WafRuleSchema re2).
Proof. schema_tac. Qed.

Hint Resolve waf_idem : schemas.

Lemma protection_schemas : NoDup (map fst (protection_fields re2)) /\ Forall (fun f => schema_ok (snd f)) (protection_fields re2).
Proof. split; [by apply (bool_decide_eq_true_1 _)|]. repeat constructor; cbn [snd]; auto 6 with schemas. Qed.

(** * Compacted protections are read back *)

Definition compact_keys (p c : attrs) : Prop :=
  get "ipAllow" c = Some (default (VArr []) (get "ipAllow" p)) /\ get "ipDeny" c = Some (default (VArr []) (get "ipDeny" p)) /\
  get "blockBots" c = Some (default (VBool false) (get "blockBots" p)) /\
  get "requiredHeaders" c = Some (default (VArr []) (get "requiredHeaders" p)) /\
  get "rateLimit" c = if_truthy (get "rateLimit" p) /\ get "bodyMaxSize" c = if_truthy (get "bodyMaxSize" p) /\
  get "cache" c = if_truthy (get "cache" p) /\ get "countryAllow" c = nonempty_arr (get "countryAllow" p) /\
  get "countryDeny" c = nonempty_arr (get "countryDeny" p) /\ get "waf" c = if_truthy (get "waf" p).

Ltac keys := rewrite ?get_fields by reflexivity; cbn [get String.eqb Ascii.eqb Bool.eqb mbind option_bind id app].

Lemma compact_get p c : compactProtection p = Some (VObj c) -> compact_keys p c.
Proof.
  unfold compactProtection. cbv zeta. case_match; [|done]. intros E.
  assert (Hc : forall x, Some (VObj x) = Some (VObj c) -> x = c) by congruence. apply Hc in E as <-. unfold compact_keys. cbn [app].
  keys. done.
Qed.

Lemma if_truthy_twice o : if_truthy (if_truthy o) = if_truthy o.
Proof. destruct o as [v|]; simpl; [|done]. destruct (truthy_value v) eqn:E; simpl; [by rewrite E|done]. Qed.

Lemma nonempty_arr_twice o : nonempty_arr (nonempty_arr o) = nonempty_arr o.
Proof. by destruct o as [[| | | |[|v l]|]|]. Qed.

Lemma compact_again p c p' : compactProtection p = Some (VObj c) -> (forall k, k ∈ map fst (protection_fields re2) -> get k p' = get k c) ->
  compactProtection p' = Some (VObj c).
Proof.
  intros E H. destruct (compact_get _ _ E) as (K1 & K2 & K3 & K4 & K5 & K6 & K7 & K8 & K9 & K10).
  rewrite <- E. unfold compactProtection.
  rewrite (H "ipAllow"), (H "ipDeny"), (H "blockBots"), (H "requiredHeaders"), (H "rateLimit"), (H "bodyMaxSize"), (H "cache"),
    (H "countryAllow"), (H "countryDeny"), (H "waf") by (simpl; set_solver).
  by rewrite K1, K2, K3, K4, K5, K6, K7, K8, K9, K10, !if_truthy_twice, !nonempty_arr_twice.
Qed.

Lemma compact_obj p v : compactProtection p = Some v -> exists c, v = VObj c.
Proof. unfold compactProtection. cbv zeta. case_match; [|done]. intros [= <-]. by eexists. Qed.

(** A compacted protection satisfies the schema, which leaves its parts as they
    are. *)
Lemma compact_schema v p m : RouteProtectionSchema re2 v = Some (VObj p) -> compactProtection p = Some (VObj m) ->
  exists p', RouteProtectionSchema re2 (VObj m) = Some (VObj p') /\
    forall k, k ∈ map fst (protection_fields re2) -> get k p' = get k m.
Proof.
  intros Ev E. destruct protection_schemas as [Hd Hs].
  assert (Ep : exists v, z_fields (protection_fields re2) v = Some p).
  { unfold RouteProtectionSchema, z_object in Ev. destruct v as [| | | | |v]; try done. exists v.
    destruct (z_fields (protection_fields re2) v); [|done]. by injection Ev as ->. }
  clear v Ev. destruct Ep as [v Ep]. destruct (z_fields_get _ _ _ Hd Ep) as [Hp _].
  assert (Hq : forall k s, (k, s) ∈ protection_fields re2 -> s (get k p) = Some (get k p)).
  { intros k s Hin. rewrite Forall_forall in Hs. eapply (Hs _ Hin). by apply Hp. }
  destruct (compact_get _ _ E) as (K1 & K2 & K3 & K4 & K5 & K6 & K7 & K8 & K9 & K10).
  assert (Hm : forall k s, (k, s) ∈ protection_fields re2 -> s (get k m) = Some (get k m)).
  { assert (Hfalsy : forall k s f, s (get k p) = Some (get k p) -> s None = Some None -> f (get k p) = get k p \/ f (get k p) = None ->
      get k m = f (get k p) -> s (get k m) = Some (get k m)) by (intros k s f H1 H2 [E1|E1] H3; by rewrite H3, E1).
    assert (Hdef : forall k s d, s (get k p) = Some (get k p) -> s None = Some (Some d) -> get k m = Some (default d (get k p)) ->
      s (get k m) = Some (get k m)).
    { intros k s d H1 H2 H3. rewrite H3. destruct (get k p) as [x|]; simpl; [exact H1|]. by rewrite H2 in H1. }
    intros k s Hin. pose proof (Hq k s Hin) as H1. unfold protection_fields in Hin.
    assert (Ht : forall o, if_truthy o = o \/ if_truthy o = None) by (intros [x|]; [simpl; destruct (truthy_value x); auto|by left]).
    assert (Hn : forall o, nonempty_arr o = o \/ nonempty_arr o = None) by (intros [[| | | |[|]|]|]; auto).
    rewrite !elem_of_cons in Hin. destruct Hin as [[= -> ->]|[[= -> ->]|[[= -> ->]|[[= -> ->]|[[= -> ->]|[[= -> ->]|[[= -> ->]|[[= -> ->]|[[= -> ->]|[[= -> ->]|Hin%elem_of_nil]]]]]]]]]];
      [..|done]; first [apply (Hfalsy _ _ if_truthy H1 eq_refl (Ht _)); assumption|apply (Hfalsy _ _ nonempty_arr H1 eq_refl (Hn _)); assumption|
        eapply (Hdef _ _ _ H1 eq_refl); assumption]. }
  unfold RouteProtectionSchema, z_object.
  destruct (z_fields (protection_fields re2) m) as [p'|] eqn:Em.
  - exists p'. split; [done|]. destruct (z_fields_get _ _ _ Hd Em) as [Hp' _].
    intros k Hk. apply list_elem_of_fmap in Hk as ([k' s] & -> & Hin). specialize (Hp' _ _ Hin). rewrite (Hm _ _ Hin) in Hp'. by injection Hp'.
  - exfalso. clear -Em Hm. revert Em Hm. generalize (protection_fields re2). intros fs. induction fs as [|[k s] fs IH]; simpl; [done|].
    intros Em Hm. rewrite (Hm k s) in Em by (by left). destruct (z_fields fs m); [done|]. apply IH; [done|]. intros k' s' H. apply Hm. by right.
Qed.

Lemma coerceProtection_again o : coerceProtection re2 (coerceProtection re2 o) = coerceProtection re2 o.
Proof.
  destruct (coerceProtection re2 o) as [c|] eqn:E; [|done]. unfold coerceProtection in E. destruct o as [v|]; [|done]. cbn [mbind option_bind] in E.
  destruct (RouteProtectionSchema re2 v) as [[| | | | |p]|] eqn:Ew; try done. destruct (compact_obj _ _ E) as [m ->].
  destruct (compact_schema v p m Ew E) as (p' & Ep' & Hg). unfold coerceProtection. cbn [mbind option_bind]. rewrite Ep'. by apply (compact_again p).
Qed.

Lemma validProtection_again at_ o c : validProtection re2 at_ o = Ok (Some c) -> validProtection re2 "" (Some c) = Ok (Some c).
Proof.
  assert (H : forall v, match RouteProtectionSchema re2 v with
    | Some (VObj p) => if header_missing p then Err (at_ +:+ ": protection.rateLimit.header is required when key is 'header'") else Ok (compactProtection p)
    | _ => Err (at_ +:+ ": protection is invalid") end = Ok (Some c) -> validProtection re2 "" (Some c) = Ok (Some c)).
  { intros v E. destruct (RouteProtectionSchema re2 v) as [[| | | | |p]|] eqn:Ew; try done.
    destruct (header_missing p) eqn:Eh; [done|]. assert (Ec : compactProtection p = Some c) by congruence.
    destruct (compact_obj _ _ Ec) as [m ->]. destruct (compact_schema v p m Ew Ec) as (p' & Ep' & Hg).
    cbn [validProtection mbind option_bind]. rewrite Ep', (compact_again p m p') by done.
    assert (Em : header_missing p' = false); [|by rewrite Em]. unfold header_missing in *. rewrite Hg by (simpl; set_solver).
    destruct (compact_get _ _ Ec) as (_ & _ & _ & _ & K & _). rewrite K. destruct (get "rateLimit" p) as [v'|]; [|done]. unfold if_truthy.
    destruct v' as [| | | | |r]; [done|..|exact Eh]; by destruct (truthy_value _). }
  unfold validProtection at 1. destruct o as [v|]; [|done]. destruct v as [| | | |l|m]; try done; apply H.
Qed.

(** * Routes are read back *)

Lemma clamp_again w : clamp_pct (clamp_pct w) = clamp_pct w.
Proof.
  assert (H : forall w, clamp_pct w = "0" \/ clamp_pct w = "100" \/ clamp_pct w = w).
  { intros w'. unfold clamp_pct. destruct (of_text w') as [n| | |]; auto. destruct (nle n (num 0)); [auto|]. destruct (nlt (num 100) n); auto. }
  destruct (H w) as [E|[E|E]]; rewrite E; [by vm_compute|by vm_compute|done].
Qed.

Lemma clamp_finite w : finite w = true -> finite (clamp_pct w) = true.
Proof.
  intros H. unfold clamp_pct. unfold finite in H. destruct (of_text w) as [n| | |] eqn:E; try done.
  destruct (nle n (num 0)); [by vm_compute|]. destruct (nlt (num 100) n); [by vm_compute|]. unfold finite. by rewrite E.
Qed.

Lemma tls_again o : tls_of (Some (tls_of o)) = tls_of o.
Proof.
  assert (H : forall t, mem t TLS_VALUES = true -> tls_of (Some (VStr t)) = VStr t) by (intros t Ht; simpl in *; by rewrite Ht).
  unfold tls_of at 2 3. destruct o as [[| | |t| |]|]; try done. destruct (mem t TLS_VALUES) eqn:E; [by apply H|done].
Qed.

Lemma one_of_again l o : one_of l (one_of l o) = one_of l o.
Proof. unfold one_of at 2 3. destruct o as [[| | |s| |]|]; try done. destruct (mem s l) eqn:E; simpl; [by rewrite E|done]. Qed.

Lemma text_again o : (o ≫= as_text) ≫= as_text = o ≫= as_text.
Proof. by destruct o as [[]|]. Qed.

Lemma bool_again o : (o ≫= as_bool) ≫= as_bool = o ≫= as_bool.
Proof. by destruct o as [[]|]. Qed.

Lemma texts_again o : texts (texts o) = texts o.
Proof.
  destruct o as [[| | | |l|]|]; simpl; try done. do 2 f_equal. induction l as [|x l IH]; [done|]. rewrite !omap_step.
  destruct x; try exact IH. change (VStr s :: omap as_text (omap as_text l) = VStr s :: omap as_text l). by rewrite IH.
Qed.

Lemma coerceAccess_again o : coerceAccess (coerceAccess o) = coerceAccess o.
Proof. unfold coerceAccess at 2 3. destruct o as [[| | | | |v]|]; try done. by case_match. Qed.

Lemma coerceCanary_again o : coerceCanary (coerceCanary o) = coerceCanary o.
Proof.
  unfold coerceCanary at 2 3. destruct o as [[| | | | |v]|]; try done.
  destruct (get "service" v) as [[| | |service| |]|]; try done. destruct (get "port" v) as [[| |port| | |]|]; try done.
  destruct (get "weightPct" v) as [[| |w| | |]|]; try done. destruct (nonempty service && finite port && finite w) eqn:E; [|done].
  apply andb_true_iff in E as [[E1 E2]%andb_true_iff E3]. cbn [coerceCanary get String.eqb Ascii.eqb Bool.eqb].
  by rewrite E1, E2, (clamp_finite _ E3), clamp_again.
Qed.

(** What a reader makes of a value it reads as itself. *)
Lemma coerceRoute_again v r : coerceRoute re2 v = Some r -> coerceRoute re2 (VObj r) = Some r.
Proof.
  unfold coerceRoute at 1. destruct v as [| | | | |v]; try done. destruct (get "host" v) as [[| | |name| |]|]; try done.
  destruct (get "port" v) as [[| |port| | |]|]; try done. destruct (nonempty name && finite port) eqn:E; [|done].
  intros Hr. assert (Hc : forall x, Some x = Some r -> x = r) by congruence. apply Hc in Hr as <-.
  unfold coerceRoute. keys. rewrite E, tls_again, text_again, bool_again, texts_again, text_again, coerceCanary_again,
    coerceProtection_again, !one_of_again, coerceAccess_again. done.
Qed.

(** * Routes as documents *)

Lemma get_read k m v : read_ok (VObj m) -> get k m = Some v -> read_ok v.
Proof.
  intros [H1 H2] Hg%get_elem. simpl in H1, H2. apply andb_true_iff in H1 as [_ H1], H2 as [_ H2].
  rewrite forallb_forall in H1, H2. split; [apply (H1 (k, v))|apply (H2 (k, v))]; by apply list_elem_of_In.
Qed.

(** An object literal with names for keys. *)
Definition names_ok (ks : list string) : bool := bool_decide (NoDup ks) && forallb (fun k => negb (is_index k)) ks.

Lemma fields_keys {A} k (l : list (string * option A)) : k ∈ map fst (fields l) -> k ∈ map fst l.
Proof.
  induction l as [|[k' [v|]] l IH]; simpl; [done| |]; [intros [->|H]%elem_of_cons; [left|right; by apply IH]|intros H; right; by apply IH].
Qed.

Lemma fields_NoDup {A} (l : list (string * option A)) : NoDup (map fst l) -> NoDup (map fst (fields l)).
Proof.
  induction l as [|[k [v|]] l IH]; simpl; [done| |]; intros [Hk Hd]%NoDup_cons; [|by apply IH].
  apply NoDup_cons. split; [|by apply IH]. by intros H%fields_keys.
Qed.

Lemma names_own {A} (m : list (string * A)) : Forall (fun k => is_index k = false) (map fst m) -> own_order m = m.
Proof. intros H. exact (own_order_app [] m H). Qed.

Lemma fields_read (l : list (string * option value)) : names_ok (map fst l) = true ->
  Forall (fun kv => forall v, snd kv = Some v -> read_ok v) l -> read_ok (VObj (fields l)).
Proof.
  intros [Hd%bool_decide_eq_true Hn]%andb_true_iff Hl.
  assert (Hf : Forall (fun kv : string * value => read_ok (snd kv)) (fields l)).
  { clear Hd Hn. induction Hl as [|[k [v|]] l Hv _ IH]; simpl; [constructor| |done]. constructor; [by apply Hv|done]. }
  rewrite Forall_forall in Hf. split; simpl; apply andb_true_iff; split.
  - by apply bool_decide_eq_true, fields_NoDup.
  - apply forallb_forall. intros x Hx%list_elem_of_In. by apply Hf.
  - apply bool_decide_eq_true, names_own, Forall_forall. intros k Hk%fields_keys. rewrite forallb_forall in Hn.
    apply negb_true_iff, Hn. by apply list_elem_of_In.
  - apply forallb_forall. intros x Hx%list_elem_of_In. by apply Hf.
Qed.

Definition reads (p : value -> option value) : Prop := forall v w, read_ok v -> p v = Some w -> read_ok w.
Definition field_reads (s : schema) : Prop := forall o w, (forall v, o = Some v -> read_ok v) -> s o = Some (Some w) -> read_ok w.

Lemma mapM_reads p l r : reads p -> Forall read_ok l -> mapM p l = Some r -> Forall read_ok r.
Proof.
  intros Hp Hl. revert r. induction Hl as [|v l Hv _ IH]; intros r; simpl; [intros [= <-]; constructor|].
  destruct (p v) as [w|] eqn:E; [|done]. simpl. destruct (mapM p l) as [ws|]; [|done]. intros [= <-]. constructor; [by eapply Hp|by apply IH].
Qed.

Lemma arr_read l : read_ok (VArr l) -> Forall read_ok l.
Proof.
  intros [H1 H2]. simpl in H1, H2. rewrite forallb_forall in H1, H2. apply Forall_forall. intros x Hx%list_elem_of_In. split; auto.
Qed.

Lemma same_reads p : (forall v w, p v = Some w -> v = w) -> reads p.
Proof. intros H v w Hv E. by rewrite <- (H _ _ E). Qed.

Lemma z_array_reads p : reads p -> reads (z_array p).
Proof.
  intros Hp v w Hv. unfold z_array. destruct v as [| | | |l|]; try done. destruct (mapM p l) as [r|] eqn:E; [|done]. intros [= <-].
  apply list_read. eapply mapM_reads; [done| |exact E]. by apply arr_read.
Qed.

Lemma required_reads p : reads p -> field_reads (required p).
Proof. intros Hp [v|] w Hv; unfold required; simpl; [|done]. destruct (p v) eqn:E; [|done]. intros [= <-]. eapply Hp; [|exact E]. by apply Hv. Qed.

Lemma optional_reads p : reads p -> field_reads (optional p).
Proof. intros Hp [v|] w Hv; unfold optional; simpl; [|done]. destruct (p v) eqn:E; [|done]. intros [= <-]. eapply Hp; [|exact E]. by apply Hv. Qed.

Lemma defaulted_reads d p : reads p -> read_ok d -> field_reads (defaulted d p).
Proof.
  intros Hp Hd [v|] w Hv; unfold defaulted; simpl; [|by intros [= <-]]. destruct (p v) eqn:E; [|done]. intros [= <-]. eapply Hp; [|exact E]. by apply Hv.
Qed.

Lemma z_fields_list fs m r : z_fields fs m = Some r ->
  exists l, r = fields l /\ map fst l = map fst fs /\ Forall2 (fun f kv => snd f (get (fst f) m) = Some (snd kv)) fs l.
Proof.
  revert r. induction fs as [|[k p] fs IH]; intros r; simpl; [intros [= <-]; by exists []|].
  destruct (p (get k m)) as [o|] eqn:E; [|done]. destruct (z_fields fs m) as [r'|]; [|done]. intros [= <-].
  destruct (IH _ eq_refl) as (l & -> & Hk & Hl). exists ((k, o) :: l). split; [by destruct o|]. split; [simpl; by rewrite Hk|].
  by constructor.
Qed.

Lemma z_object_reads fs : names_ok (map fst fs) = true -> Forall (fun f => field_reads (snd f)) fs -> reads (z_object fs).
Proof.
  intros Hn Hf v w Hv. unfold z_object. destruct v as [| | | | |m]; try done. destruct (z_fields fs m) as [r|] eqn:E; [|done].
  intros [= <-]. apply z_fields_list in E as (l & -> & Hk & Hl). apply fields_read; [by rewrite Hk|]. clear Hn Hk.
  induction Hl as [|[k p] [k' o] fs l H _ IH]; [constructor|]. apply Forall_cons in Hf as [Hp Hf]. constructor; [|by apply IH].
  simpl in *. intros x ->. eapply Hp; [|exact H]. intros y Hy. by eapply get_read.
Qed.

Lemma z_string_reads : reads z_string.
Proof. apply same_reads. intros v w. by destruct v; intros [= <-]. Qed.
Lemma z_nonempty_reads : reads z_nonempty.
Proof. apply same_reads. intros v w. unfold z_nonempty. destruct v; try done. by destruct (nonempty s); intros [= <-]. Qed.
Lemma z_boolean_reads : reads z_boolean.
Proof. apply same_reads. intros v w. by destruct v; intros [= <-]. Qed.
Lemma z_such_reads p : reads (z_such p).
Proof. apply same_reads. intros v w. unfold z_such. destruct v; try done. by destruct (p s); intros [= <-]. Qed.
Lemma z_int_reads lo hi : reads (z_int lo hi).
Proof. apply same_reads. intros v w. apply z_int_same. Qed.

Lemma nil_read : read_ok (VArr []).
Proof. done. Qed.
Lemma bool_read b : read_ok (VBool b).
Proof. done. Qed.
Lemma text_read s : read_ok (VStr s).
Proof. done. Qed.

Hint Resolve required_reads optional_reads defaulted_reads z_array_reads z_string_reads z_nonempty_reads z_boolean_reads z_such_reads
  z_int_reads nil_read bool_read text_read : schemas.

Ltac reads_tac := apply z_object_reads; [reflexivity|repeat (apply Forall_cons_2; [cbn [snd]; auto 6 with schemas|]); apply Forall_nil_2].

Lemma rate_reads : reads RateLimitRuleSchema.
Proof. reads_tac. Qed.
Lemma cache_reads : reads CacheRuleSchema.
Proof. reads_tac. Qed.
Lemma country_reads : reads CountryCodeSchema.
Proof. apply z_such_reads. Qed.
Lemma header_reads : reads HeaderRuleSchema.
Proof. reads_tac. Qed.
Lemma waf_reads : reads (WafRuleSchema re2).
Proof. reads_tac. Qed.

Hint Resolve rate_reads cache_reads country_reads header_reads waf_reads : schemas.

Lemma protection_reads : reads (RouteProtectionSchema re2).
Proof. unfold RouteProtectionSchema, protection_fields. reads_tac. Qed.

(** ** Of a route *)

Definition opt_read (o : option value) : Prop := forall v, o = Some v -> read_ok v.

Lemma default_read d o : read_ok d -> opt_read o -> read_ok (default d o).
Proof. intros Hd Ho. destruct o as [v|]; [by apply Ho|done]. Qed.

Lemma if_truthy_read o : opt_read o -> opt_read (if_truthy o).
Proof. intros Ho v. unfold if_truthy. destruct o as [w|]; [|done]. destruct (truthy_value w); [apply Ho|done]. Qed.

Lemma nonempty_arr_read o : opt_read o -> opt_read (nonempty_arr o).
Proof. intros Ho v. unfold nonempty_arr. destruct o as [[| | | |[|]|]|]; try done. apply Ho. Qed.

Lemma compact_read p : read_ok (VObj p) -> opt_read (compactProtection p).
Proof.
  intros Hp v. assert (Hg : forall k, opt_read (get k p)) by (intros k w; by apply get_read).
  unfold compactProtection. cbv zeta. case_match; [|done]. intros E. assert (Hc : forall x : value, Some x = Some v -> x = v) by congruence.
  apply Hc in E as <-. apply fields_read; [reflexivity|]. cbn [app].
  repeat (apply Forall_cons_2; [cbn [snd]|]); try apply Forall_nil_2; intros w Hw; try (injection Hw as <-); try (apply default_read; [done|apply Hg]);
    first [by eapply if_truthy_read, Hw|by eapply nonempty_arr_read, Hw].
Qed.

Lemma coerceProtection_read o : opt_read o -> opt_read (coerceProtection re2 o).
Proof.
  intros Ho v. unfold coerceProtection. destruct o as [w|]; [|done]. simpl. destruct (RouteProtectionSchema re2 w) as [[| | | | |p]|] eqn:E; try done.
  apply compact_read. eapply protection_reads; [|exact E]. by apply Ho.
Qed.

Lemma clamp_read w : read_ok (VNum w) -> read_ok (VNum (clamp_pct w)).
Proof.
  intros H. unfold clamp_pct. destruct (of_text w); try done. destruct (nle n (num 0)); [done|]. by destruct (nlt (num 100) n).
Qed.

Lemma coerceCanary_read o : opt_read o -> opt_read (coerceCanary o).
Proof.
  intros Ho v. unfold coerceCanary. destruct o as [[| | | | |m]|]; try done. specialize (Ho _ eq_refl).
  destruct (get "service" m) as [[| | |service| |]|] eqn:E1; try done. destruct (get "port" m) as [[| |port| | |]|] eqn:E2; try done.
  destruct (get "weightPct" m) as [[| |w| | |]|] eqn:E3; try done. case_match; [|done]. intros [= <-].
  apply get_read in E2, E3; [|done..].
  apply (fields_read [("service", Some (VStr service)); ("port", Some (VNum port)); ("weightPct", Some (VNum (clamp_pct w)))]); [done|].
  repeat (apply Forall_cons_2; [cbn [snd]|]); try apply Forall_nil_2; intros x [= <-]; [done|done|]. by apply clamp_read.
Qed.

Lemma coerceRoute_read v r : read_ok v -> coerceRoute re2 v = Some r -> read_ok (VObj r).
Proof.
  intros Hv. unfold coerceRoute. destruct v as [| | | | |v]; try done. destruct (get "host" v) as [[| | |name| |]|] eqn:Eh; try done.
  destruct (get "port" v) as [[| |port| | |]|] eqn:Ep; try done. case_match; [|done].
  intros Hr. assert (Hc : forall x, Some x = Some r -> x = r) by congruence. apply Hc in Hr as <-.
  apply get_read in Ep; [|done]. assert (Hg : forall k, opt_read (get k v)) by (intros k w; by apply get_read).
  apply fields_read; [reflexivity|]. repeat (apply Forall_cons_2; [cbn [snd]|]); try apply Forall_nil_2; intros w Hw.
  - by injection Hw as <-.
  - by injection Hw as <-.
  - injection Hw as <-. unfold tls_of. destruct (get "tls" v) as [[| | |t| |]|]; try done. by destruct (mem t TLS_VALUES).
  - by destruct (get "path" v) as [[]|]; try done; injection Hw as <-.
  - by destruct (get "stripPrefix" v) as [[]|]; try done; injection Hw as <-.
  - destruct (get "middlewares" v) as [[| | | |l|]|]; try done. injection Hw as <-. apply list_read, Forall_forall.
    intros x (y & _ & Hy)%list_elem_of_omap. by destruct y; try done; injection Hy as <-.
  - by destruct (get "driver" v) as [[]|]; try done; injection Hw as <-.
  - by eapply coerceCanary_read, Hw.
  - by eapply coerceProtection_read, Hw.
  - unfold one_of in Hw. destruct (get "www" v) as [[]|]; try done. case_match; [|done]. by injection Hw as <-.
  - unfold one_of in Hw. destruct (get "rum" v) as [[]|]; try done. case_match; [|done]. by injection Hw as <-.
  - unfold coerceAccess in Hw. destruct (get "access" v) as [[]|]; try done. case_match; [|done]. by injection Hw as <-.
Qed.

Lemma read_serialized rs labels : Forall (fun r => coerceRoute re2 (VObj r) = Some r /\ read_ok (VObj r)) rs ->
  get INGRESS_ROUTES_LABEL labels = Some (serializeRoutes rs) -> readRoutes re2 labels = rs.
Proof.
  intros H E. unfold readRoutes. rewrite E. assert (Hok : read_ok (VArr (map VObj rs))).
  { apply list_read. apply Forall_forall. intros x (r & -> & Hr)%list_elem_of_fmap. rewrite Forall_forall in H. by apply H. }
  assert (Et : truthy_str (Some (serializeRoutes rs)) = Some (serializeRoutes rs)) by done.
  rewrite Et. unfold serializeRoutes. rewrite json_parse_stringify by apply Hok.
  clear -H. induction H as [|r rs [Hr _] _ IH]; [done|]. cbn [map]. by rewrite omap_step, Hr, IH.
Qed.

(** Every route that is read is a document that reads as itself. *)
Lemma readRoutes_read labels : Forall (fun r => coerceRoute re2 (VObj r) = Some r /\ read_ok (VObj r)) (readRoutes re2 labels).
Proof.
  unfold readRoutes. destruct (truthy_str _) as [raw|]; [|constructor].
  destruct (json_parse raw) as [[| | | |l|]|] eqn:E; try constructor.
  apply json_parse_read, arr_read in E. apply Forall_forall. intros r (v & Hv & Hr)%list_elem_of_omap. split.
  - by eapply coerceRoute_again.
  - eapply coerceRoute_read; [|exact Hr]. rewrite Forall_forall in E. by apply E.
Qed.

(** C30: What the reader of the routes label reads, it reads again from the label
    written with it, whatever label it read: nothing that was understood is lost or
    changed by a write of the routes as they are. *)
Theorem routes_label_stable labels labels' :
  get INGRESS_ROUTES_LABEL labels' = Some (serializeRoutes (readRoutes re2 labels)) ->
  readRoutes re2 labels' = readRoutes re2 labels.
Proof. apply read_serialized, readRoutes_read. Qed.

(** * The type of a written route *)

Record CanaryParts := { cn_service : string; cn_port : value; cn_weight : string }.

Record RouteParts := {
  rt_host : string; rt_port : value; rt_tls : string; rt_path : option string; rt_strip : option bool;
  rt_middlewares : option (list string); rt_driver : option string; rt_canary : option CanaryParts;
  rt_protection : option value; rt_www : option string; rt_login : bool
}.

Definition login : value := VObj [("login", VBool true)].
Definition canary_value (c : CanaryParts) : value :=
  VObj [("service", VStr (cn_service c)); ("port", cn_port c); ("weightPct", VNum (cn_weight c))].

Definition route_of (f : RouteParts) : attrs :=
  fields [("host", Some (VStr (rt_host f))); ("port", Some (rt_port f)); ("tls", Some (VStr (rt_tls f)));
          ("path", VStr <$> rt_path f); ("stripPrefix", VBool <$> rt_strip f);
          ("middlewares", (fun l => VArr (map VStr l)) <$> rt_middlewares f); ("driver", VStr <$> rt_driver f);
          ("canary", canary_value <$> rt_canary f); ("protection", rt_protection f); ("www", VStr <$> rt_www f);
          ("access", if rt_login f then Some login else None)].

(** The same with the toggle of real-user monitoring, which a route that was not written
    through the validator can have. *)
Definition stored (rum : option string) (f : RouteParts) : attrs :=
  fields [("host", Some (VStr (rt_host f))); ("port", Some (rt_port f)); ("tls", Some (VStr (rt_tls f)));
          ("path", VStr <$> rt_path f); ("stripPrefix", VBool <$> rt_strip f);
          ("middlewares", (fun l => VArr (map VStr l)) <$> rt_middlewares f); ("driver", VStr <$> rt_driver f);
          ("canary", canary_value <$> rt_canary f); ("protection", rt_protection f); ("www", VStr <$> rt_www f);
          ("rum", VStr <$> rum); ("access", if rt_login f then Some login else None)].

Definition rum_ok (rum : option string) : Prop := forall x, rum = Some x -> x ∈ ["on"; "off"].

(** A port: the text of an integer from 1 to 65535. *)
Definition is_port (v : value) : Prop :=
  read_ok v /\ exists s n z, v = VNum s /\ of_text s = Fin n /\ integer n = Some z /\ 1 <= z <= 65535.

Definition is_weight (w : string) : Prop :=
  read_ok (VNum w) /\ exists n, of_text w = Fin n /\ nle (num 0) n = true /\ nle n (num 100) = true /\ clamp_pct w = w.

Record typed (f : RouteParts) : Prop := {
  ty_host : rt_host f <> "" /\ trim (rt_host f) = rt_host f;
  ty_port : is_port (rt_port f);
  ty_tls : rt_tls f ∈ TLS_VALUES;
  ty_path : rt_path f <> Some "";
  ty_middlewares : forall l, rt_middlewares f = Some l -> l <> [] /\ Forall (fun m => m <> "") l;
  ty_driver : rt_driver f <> Some "";
  ty_canary : forall c, rt_canary f = Some c ->
    cn_service c <> "" /\ trim (cn_service c) = cn_service c /\ is_port (cn_port c) /\ is_weight (cn_weight c);
  ty_protection : forall p, rt_protection f = Some p -> read_ok p /\ validProtection re2 "" (Some p) = Ok (Some p);
  ty_www : forall w, rt_www f = Some w -> w ∈ WWW_MODES /\ startsWith "*." (rt_host f) = false
}.

(** ** What the validator gives is typed *)

Lemma port_typed o port : opt_read o -> o ≫= z_int 1 (Some 65535) = Some port -> is_port port.
Proof.
  intros Ho. destruct o as [v|]; [|done]. simpl. intros E. pose proof (z_int_same _ _ _ _ E) as <-. split; [by apply Ho|].
  unfold z_int in E. destruct v as [| |s| | |]; try done. destruct (of_text s) as [n| | |] eqn:En; try done.
  destruct (integer n) as [z|] eqn:Ez; [|done]. destruct ((1 <=? z) && (z <=? 65535)) eqn:Eb; [|done]. b2p. by exists s, n, z.
Qed.

Lemma nlt_irrefl n : nlt n n = false.
Proof. unfold nlt. apply Z.ltb_irrefl. Qed.

Lemma weight_typed w : read_ok (VNum w) -> finite w = true -> is_weight (clamp_pct w).
Proof.
  intros Hw Hf. split; [by apply clamp_read|]. pose proof (clamp_finite _ Hf) as Hc. unfold finite in Hc.
  destruct (of_text (clamp_pct w)) as [n| | |] eqn:E; try done. exists n. split; [done|]. rewrite clamp_again. 
  unfold clamp_pct in E. unfold finite in Hf. destruct (of_text w) as [m| | |] eqn:Em; try done.
  destruct (nle m (num 0)) eqn:E1.
  - assert (n = num 0) as -> by (vm_compute in E; injection E as <-; by vm_compute). split_and!; [by vm_compute..|done].
  - destruct (nlt (num 100) m) eqn:E2.
    + assert (n = num 100) as -> by (vm_compute in E; injection E as <-; by vm_compute). split_and!; [by vm_compute..|done].
    + rewrite Em in E. injection E as <-. unfold nle in *. rewrite E2. split_and!; [|done|done].
      apply negb_false_iff in E1. apply negb_true_iff. unfold nlt in *. b2p. apply Z.ltb_ge. lia.
Qed.

Lemma nonempty_ne s : nonempty s = true <-> s <> "".
Proof. unfold nonempty. rewrite negb_true_iff. apply String.eqb_neq. Qed.

Lemma nonempty_text_parts o : exists x, nonempty_text o = VStr <$> x /\ x <> Some "".
Proof.
  unfold nonempty_text. destruct o as [[| | |s| |]|]; try (by exists None). destruct (nonempty s) eqn:E; [|by exists None].
  exists (Some s). apply nonempty_ne in E. split; [done|congruence].
Qed.

Lemma as_bool_parts o : exists b, o ≫= as_bool = VBool <$> b.
Proof. destruct o as [[|b| | | |]|]; try (by exists None). by exists (Some b). Qed.

Lemma middlewares_parts o : exists x, clean_middlewares o = (fun l => VArr (map VStr l)) <$> x /\
  forall l, x = Some l -> l <> [] /\ Forall (fun m => m <> "") l.
Proof.
  unfold clean_middlewares. destruct o as [[| | | |l|]|]; try (by exists None).
  assert (H : exists k, omap (fun m => nonempty_text (Some m)) l = map VStr k /\ Forall (fun m => m <> "") k).
  { induction l as [|v l (k & Hk & Hf)]; [by exists []|]. rewrite omap_step, Hk. destruct v as [| | |s| |]; try (by exists k).
    cbn [nonempty_text]. destruct (nonempty s) eqn:E; [|by exists k]. exists (s :: k). split; [done|]. constructor; [by apply nonempty_ne|done]. }
  destruct H as (k & -> & Hf). destruct k as [|s k]; [by exists None|]. exists (Some (s :: k)). split; [done|]. by intros l' [= <-].
Qed.

Lemma access_parts o : exists b : bool, coerceAccess o = if b then Some login else None.
Proof. unfold coerceAccess. destruct o as [[| | | | |v]|]; try (by exists false). case_match; [by exists true|by exists false]. Qed.

Lemma tls_parts o : exists t, tls_of o = VStr t /\ t ∈ TLS_VALUES.
Proof.
  unfold tls_of. destruct o as [[| | |t| |]|]; try (exists "auto"; split; [done|left]). destruct (mem t TLS_VALUES) eqn:E.
  - exists t. by rewrite mem_In in E.
  - exists "auto". split; [done|left].
Qed.

Lemma object_read o m : opt_read o -> o ≫= object_of = Some m -> read_ok (VObj m).
Proof. intros Ho. destruct o as [[| | | |l|v]|]; try done; intros [= <-]; [done|by apply Ho]. Qed.

Lemma trim_trim s : trim (trim s) = trim s.
Proof. apply trim_idemp. Qed.

Lemma canary_parts at_ o c : opt_read o -> validCanary at_ o = Ok c ->
  exists x, c = canary_value <$> x /\ forall d, x = Some d ->
    cn_service d <> "" /\ trim (cn_service d) = cn_service d /\ is_port (cn_port d) /\ is_weight (cn_weight d).
Proof.
  intros Ho. unfold validCanary. destruct (o ≫= object_of) as [m|] eqn:E; [|intros [= <-]; by exists None].
  pose proof (object_read _ _ Ho E) as Hm. destruct (get "service" m) as [[| | |s| |]|]; try done.
  destruct (String.eqb_spec (trim s) "") as [|Hs]; [done|]. destruct (get "port" m ≫= _) as [port|] eqn:Ep; [|done].
  destruct (get "weightPct" m) as [[| |w| | |]|] eqn:Ew; try done. destruct (finite w) eqn:Ef; [|done]. intros [= <-].
  exists (Some {| cn_service := trim s; cn_port := port; cn_weight := clamp_pct w |}). split; [done|]. intros d [= <-]. simpl.
  split; [done|]. split; [apply trim_trim|]. split.
  - eapply port_typed; [|exact Ep]. intros v. by apply get_read.
  - apply weight_typed; [|done]. by eapply get_read.
Qed.

Lemma www_parts at_ name o w : validWww at_ name o = Ok w ->
  exists x, w = VStr <$> x /\ forall s, x = Some s -> s ∈ WWW_MODES /\ startsWith "*." name = false.
Proof.
  assert (H : match one_of WWW_MODES o with
    | None => Err (at_ +:+ ": www must be one of " +:+ join ", " WWW_MODES)
    | Some w => if startsWith "*." name then Err (at_ +:+ ": a wildcard host has no www companion") else Ok (Some w)
    end = Ok w -> exists x, w = VStr <$> x /\ forall s, x = Some s -> s ∈ WWW_MODES /\ startsWith "*." name = false).
  { unfold one_of. destruct o as [[| | |s| |]|]; try done. destruct (mem s WWW_MODES) eqn:E; [|done].
    destruct (startsWith "*." name) eqn:Es; [done|]. intros [= <-]. exists (Some s). split; [done|]. intros s' [= <-].
    split; [by apply mem_In in E|done]. }
  unfold validWww. destruct o as [[]|]; try exact H; intros [= <-]; by exists None.
Qed.

Lemma protection_typed at_ o p : opt_read o -> validProtection re2 at_ o = Ok (Some p) ->
  read_ok p /\ validProtection re2 "" (Some p) = Ok (Some p).
Proof.
  intros Ho E. split; [|by eapply validProtection_again].
  assert (H : forall v, o = Some v -> match RouteProtectionSchema re2 v with
    | Some (VObj p) => if header_missing p then Err (at_ +:+ ": protection.rateLimit.header is required when key is 'header'") else Ok (compactProtection p)
    | _ => Err (at_ +:+ ": protection is invalid") end = Ok (Some p) -> read_ok p).
  { intros v -> Ev. destruct (RouteProtectionSchema re2 v) as [[| | | | |q]|] eqn:Eq; try done. destruct (header_missing q); [done|].
    injection Ev as Ev. eapply compact_read; [|exact Ev]. eapply protection_reads; [|exact Eq]. by apply Ho. }
  unfold validProtection in E. destruct o as [v|]; [|done]. destruct v as [| | | |l|m]; try done; by apply (H _ eq_refl).
Qed.

Lemma validated_typed at_ input r : read_ok (VObj input) -> validateRoute re2 at_ input = Ok r -> exists f, r = route_of f /\ typed f.
Proof.
  intros Hin. assert (Hg : forall k, opt_read (get k input)) by (intros k w; by apply get_read).
  unfold validateRoute. destruct (get "host" input) as [[| | |h| |]|]; try done. destruct (String.eqb_spec (trim h) "") as [|Hh]; [done|].
  destruct (get "port" input ≫= _) as [port|] eqn:Ep; [|done]. intros (canary & Ec & H)%res_bind_Ok.
  apply res_bind_Ok in H as (protection & Epr & H). apply res_bind_Ok in H as (www & Ew & H).
  apply port_typed in Ep; [|done]. apply canary_parts in Ec as (c & -> & Hc); [|done]. apply www_parts in Ew as (w & -> & Hw).
  destruct (tls_parts (get "tls" input)) as (t & Et & Ht). destruct (nonempty_text_parts (get "path" input)) as (path & Epa & Hpa).
  destruct (as_bool_parts (get "stripPrefix" input)) as (strip & Es). destruct (middlewares_parts (get "middlewares" input)) as (mws & Em & Hm).
  destruct (nonempty_text_parts (get "driver" input)) as (driver & Ed & Hd). destruct (access_parts (get "access" input)) as (b & Ea).
  rewrite Et, Epa, Es, Em, Ed, Ea in H.
  exists {| rt_host := trim h; rt_port := port; rt_tls := t; rt_path := path; rt_strip := strip; rt_middlewares := mws; rt_driver := driver;
            rt_canary := c; rt_protection := protection; rt_www := w; rt_login := b |}.
  split; [unfold route_of; cbn [rt_host rt_port rt_tls rt_path rt_strip rt_middlewares rt_driver rt_canary rt_protection rt_www rt_login]; congruence|].
  split; cbn [rt_host rt_port rt_tls rt_path rt_strip rt_middlewares rt_driver rt_canary rt_protection rt_www rt_login]; try done.
  - split; [done|apply trim_trim].
  - intros p ->. by eapply protection_typed.
Qed.

(** ** A typed route is written and read as itself *)

Section typed_route.
Context (f : RouteParts) (Hf : typed f).

Lemma port_valid v : is_port v -> z_int 1 (Some 65535) v = Some v.
Proof. intros (_ & s & n & z & -> & E & Ez & Hz). simpl. rewrite E, Ez. destruct Hz as [H1%Z.leb_le H2%Z.leb_le]. by rewrite H1, H2. Qed.

Lemma port_finite v : is_port v -> exists s, v = VNum s /\ finite s = true.
Proof. intros (_ & s & n & z & -> & E & _). exists s. unfold finite. by rewrite E. Qed.

Lemma weight_finite w : is_weight w -> finite w = true /\ clamp_pct w = w.
Proof. intros (_ & n & E & _ & _ & Hc). unfold finite. by rewrite E. Qed.

Lemma tls_typed : tls_of (Some (VStr (rt_tls f))) = VStr (rt_tls f).
Proof using Hf. simpl. pose proof (ty_tls _ Hf) as H. apply mem_In in H. by rewrite H. Qed.

Lemma text_typed (o : option string) : (VStr <$> o) ≫= as_text = VStr <$> o.
Proof. by destruct o. Qed.

Lemma nonempty_typed (o : option string) : o <> Some "" -> nonempty_text (VStr <$> o) = VStr <$> o.
Proof. intros H. destruct o as [s|]; [|done]. simpl. assert (nonempty s = true) as -> by (apply nonempty_ne; congruence). done. Qed.

Lemma texts_map l : omap as_text (map VStr l) = map VStr l.
Proof. induction l as [|s l IH]; [done|]. cbn [map]. by rewrite omap_step, IH. Qed.

Lemma middlewares_typed (o : option (list string)) : (forall l, o = Some l -> l <> [] /\ Forall (fun m => m <> "") l) ->
  clean_middlewares ((fun l => VArr (map VStr l)) <$> o) = (fun l => VArr (map VStr l)) <$> o.
Proof.
  destruct o as [l|]; [|done]. intros H. destruct (H _ eq_refl) as [Hne Hl]. unfold clean_middlewares. cbn [fmap option_fmap option_map].
  assert (E : omap (fun m => nonempty_text (Some m)) (map VStr l) = map VStr l).
  { clear Hne H. induction Hl as [|s l Hs _ IH]; [done|]. cbn [map]. rewrite omap_step, IH. cbn [nonempty_text].
    apply nonempty_ne in Hs. by rewrite Hs. }
  rewrite E. by destruct l.
Qed.

Lemma canary_typed at_ : validCanary at_ (canary_value <$> rt_canary f) = Ok (canary_value <$> rt_canary f) /\
  coerceCanary (canary_value <$> rt_canary f) = canary_value <$> rt_canary f.
Proof using Hf.
  pose proof (ty_canary _ Hf) as H. destruct (rt_canary f) as [c|]; [|done]. destruct (H _ eq_refl) as (H1 & H2 & H3 & H4).
  destruct (weight_finite _ H4) as [E1 E2]. destruct (port_finite _ H3) as (s & Es & E3). pose proof (port_valid _ H3) as E4.
  cbn [fmap option_fmap option_map]. unfold canary_value. split.
  - unfold validCanary. cbn [mbind option_bind object_of get String.eqb Ascii.eqb Bool.eqb]. rewrite H2.
    apply String.eqb_neq in H1 as E5. rewrite E5. cbn [mbind option_bind]. by rewrite E4, E1, E2.
  - unfold coerceCanary. cbn [get String.eqb Ascii.eqb Bool.eqb]. rewrite Es. apply nonempty_ne in H1. by rewrite H1, E3, E1, E2.
Qed.

Lemma validProtection_where at_ p : validProtection re2 "" (Some p) = Ok (Some p) ->
  validProtection re2 at_ (Some p) = Ok (Some p) /\ coerceProtection re2 (Some p) = Some p.
Proof.
  unfold validProtection, coerceProtection. destruct p as [| | | |l|m]; try done; cbn [mbind option_bind];
    (destruct (RouteProtectionSchema re2 _) as [[| | | | |q]|]; try done; destruct (header_missing q); try done; intros [= E]; by rewrite E).
Qed.

Lemma protection_valid at_ : validProtection re2 at_ (rt_protection f) = Ok (rt_protection f) /\
  coerceProtection re2 (rt_protection f) = rt_protection f.
Proof using Hf.
  pose proof (ty_protection _ Hf) as H. destruct (rt_protection f) as [p|]; [|done]. destruct (H _ eq_refl) as [_ E].
  by apply validProtection_where.
Qed.

Lemma www_valid at_ : validWww at_ (rt_host f) (VStr <$> rt_www f) = Ok (VStr <$> rt_www f) /\
  one_of WWW_MODES (VStr <$> rt_www f) = VStr <$> rt_www f.
Proof using Hf.
  pose proof (ty_www _ Hf) as H. destruct (rt_www f) as [w|]; [|done]. destruct (H _ eq_refl) as [Hw%mem_In Hs].
  unfold validWww. cbn [fmap option_fmap option_map one_of]. by rewrite Hw, Hs.
Qed.

Lemma login_again (b : bool) : coerceAccess (if b then Some login else None) = if b then Some login else None.
Proof. by destruct b. Qed.

Lemma strip_typed (o : option bool) : (VBool <$> o) ≫= as_bool = VBool <$> o.
Proof. by destruct o. Qed.

(** Written again, it is the same. *)
Lemma typed_valid at_ : validateRoute re2 at_ (route_of f) = Ok (route_of f).
Proof using Hf.
  destruct (ty_host _ Hf) as [Hh Ht]. pose proof (port_valid _ (ty_port _ Hf)) as Hp.
  unfold validateRoute, route_of. keys. rewrite Ht. apply String.eqb_neq in Hh as ->. cbn [mbind option_bind]. rewrite Hp.
  rewrite (proj1 (canary_typed at_)). cbn [res_bind]. rewrite (proj1 (protection_valid at_)). cbn [res_bind].
  rewrite (proj1 (www_valid at_)). cbn [res_bind]. rewrite tls_typed, nonempty_typed, strip_typed, middlewares_typed, nonempty_typed, login_again; [done|..];
    apply Hf.
Qed.

(** Read, it is the same. *)
Lemma stored_coerced rum : rum_ok rum -> coerceRoute re2 (VObj (stored rum f)) = Some (stored rum f).
Proof using Hf.
  intros Hrum. destruct (ty_host _ Hf) as [Hh _]. destruct (port_finite _ (ty_port _ Hf)) as (s & Es & Ef).
  unfold coerceRoute, stored. keys. rewrite Es. apply nonempty_ne in Hh as ->. rewrite Ef. cbn [andb].
  rewrite tls_typed, text_typed, strip_typed, text_typed, (proj2 (canary_typed "")), (proj2 (protection_valid "")), (proj2 (www_valid "")), login_again.
  assert (Em : texts ((fun l => VArr (map VStr l)) <$> rt_middlewares f) = (fun l => VArr (map VStr l)) <$> rt_middlewares f).
  { destruct (rt_middlewares f) as [l|]; [|done]. cbn [texts fmap option_fmap option_map]. by rewrite texts_map. }
  assert (Eo : one_of ["on"; "off"] (VStr <$> rum) = VStr <$> rum).
  { destruct rum as [x|]; [|done]. unfold one_of. cbn [fmap option_fmap option_map]. by rewrite (proj2 (mem_In _ _) (Hrum x eq_refl)). }
  rewrite Em, Eo. done.
Qed.

Lemma typed_coerced : coerceRoute re2 (VObj (route_of f)) = Some (route_of f).
Proof using Hf. by apply (stored_coerced None). Qed.

Lemma stored_read rum : read_ok (VObj (stored rum f)).
Proof using Hf.
  apply fields_read; [reflexivity|]. repeat (apply Forall_cons_2; [cbn [snd]|]); try apply Forall_nil_2; intros w Hw.
  - by injection Hw as <-.
  - injection Hw as <-. apply (ty_port _ Hf).
  - by injection Hw as <-.
  - by destruct (rt_path f); [injection Hw as <-|].
  - by destruct (rt_strip f); [injection Hw as <-|].
  - destruct (rt_middlewares f) as [l|]; [|done]. injection Hw as <-. apply list_read, Forall_forall.
    by intros x (y & -> & _)%list_elem_of_fmap.
  - by destruct (rt_driver f); [injection Hw as <-|].
  - destruct (rt_canary f) as [c|] eqn:Ec; [|done]. injection Hw as <-. destruct (ty_canary _ Hf _ Ec) as (_ & _ & [H1 _] & [H2 _]).
    apply (fields_read [("service", Some (VStr (cn_service c))); ("port", Some (cn_port c)); ("weightPct", Some (VNum (cn_weight c)))]); [done|].
    repeat (apply Forall_cons_2; [cbn [snd]|]); try apply Forall_nil_2; by intros x [= <-].
  - by eapply ty_protection.
  - by destruct (rt_www f); [injection Hw as <-|].
  - by destruct rum; [injection Hw as <-|].
  - destruct (rt_login f); [|done]. by injection Hw as <-.
Qed.

Lemma typed_read : read_ok (VObj (route_of f)).
Proof using Hf. apply (stored_read None). Qed.
End typed_route.

(** * The write of a whole set *)

Lemma with_login f : typed f -> exists g, obj_set "access" login (route_of f) = route_of g /\ typed g.
Proof.
  intros Hf. set (g := {| rt_host := rt_host f; rt_port := rt_port f; rt_tls := rt_tls f; rt_path := rt_path f; rt_strip := rt_strip f;
    rt_middlewares := rt_middlewares f; rt_driver := rt_driver f; rt_canary := rt_canary f; rt_protection := rt_protection f;
    rt_www := rt_www f; rt_login := true |}).
  assert (Hg : typed g) by (destruct Hf; by split). exists g. split; [|done].
  set (front := [("host", Some (VStr (rt_host f))); ("port", Some (rt_port f)); ("tls", Some (VStr (rt_tls f)));
          ("path", VStr <$> rt_path f); ("stripPrefix", VBool <$> rt_strip f);
          ("middlewares", (fun l => VArr (map VStr l)) <$> rt_middlewares f); ("driver", VStr <$> rt_driver f);
          ("canary", canary_value <$> rt_canary f); ("protection", rt_protection f); ("www", VStr <$> rt_www f)]).
  assert (Ef : forall o, fields (front ++ [("access", o)]) = fields front ++ match o with Some v => [("access", v)] | None => [] end).
  { intros o. clearbody front. induction front as [|[k [v|]] l IH]; simpl; [by destruct o|by rewrite IH|done]. }
  assert (E1 : route_of f = fields (front ++ [("access", if rt_login f then Some login else None)])) by done.
  assert (E2 : route_of g = fields (front ++ [("access", Some login)])) by done.
  assert (Hn : get "access" (fields front) = None) by (rewrite get_fields by reflexivity; reflexivity).
  rewrite E1, E2, !Ef. revert Hn. generalize (fields front). intros m Hn. destruct (rt_login f).
  - induction m as [|[k v] m IH]; [done|]. cbn [app get] in *. change (obj_set "access" login ((k, v) :: m ++ [("access", login)])) with
      (if String.eqb "access" k then (k, login) :: m ++ [("access", login)] else (k, v) :: obj_set "access" login (m ++ [("access", login)])).
    destruct (String.eqb "access" k); [done|]. by rewrite IH.
  - rewrite app_nil_r. by apply obj_set_absent.
Qed.

Lemma coerce_login v r a : coerceRoute re2 v = Some r -> get "access" r = Some a -> a = login.
Proof.
  unfold coerceRoute. destruct v as [| | | | |v]; try done. destruct (get "host" v) as [[| | |name| |]|]; try done.
  destruct (get "port" v) as [[| |port| | |]|]; try done. case_match; [|done].
  intros Hr. assert (Hc : forall x, Some x = Some r -> x = r) by congruence. apply Hc in Hr as <-. keys.
  destruct (access_parts (get "access" v)) as ([] & ->); [by intros [= <-]|done].
Qed.

Definition is_typed (r : attrs) : Prop := exists f, r = route_of f /\ typed f.

Lemma by_key_snd rs acc (P : attrs -> Prop) : Forall (fun kv => P (snd kv)) acc -> Forall P rs -> Forall (fun kv => P (snd kv)) (foldl by_key acc rs).
Proof.
  intros Ha Hr. revert acc Ha. induction Hr as [|r rs Hr _ IH]; intros acc Ha; simpl; [done|]. apply IH. apply Forall_forall. intros x Hx.
  apply obj_set_elem in Hx as [->|Hx]; [done|]. rewrite Forall_forall in Ha. by apply Ha.
Qed.

Lemma validateRoutes_typed i rs clean : Forall (fun r => read_ok (VObj r)) rs -> validateRoutes re2 i rs = Ok clean -> Forall is_typed clean.
Proof.
  intros H. revert i clean. induction H as [|r rs Hr _ IH]; intros i clean; simpl; [intros [= <-]; constructor|].
  intros (c & Ec & (cs & Ecs & [= <-])%res_bind_Ok)%res_bind_Ok. constructor; [by eapply validated_typed|by eapply IH].
Qed.

Lemma readRoutes_login labels : Forall (fun r => forall a, get "access" r = Some a -> a = login) (readRoutes re2 labels).
Proof.
  unfold readRoutes. destruct (truthy_str _) as [raw|]; [|constructor]. destruct (json_parse raw) as [[| | | |l|]|]; try constructor.
  apply Forall_forall. intros r (v & _ & Hr)%list_elem_of_omap a. by eapply coerce_login.
Qed.

Lemma carry_typed live seen rs : Forall (fun kv => forall a, get "access" (snd kv) = Some a -> a = login) live ->
  Forall (fun kv => is_typed (snd kv)) seen -> Forall (fun kv => is_typed (snd kv)) (foldl (carry_access live) seen rs).
Proof.
  intros Hl. revert seen. induction rs as [|r rs IH]; intros seen Hs; simpl; [done|]. apply IH. unfold carry_access.
  destruct (get "access" r); [done|]. set (key := route_key _ _). destruct (get key seen) as [clean|] eqn:Ec; [|done].
  destruct (get key live ≫= get "access") as [a|] eqn:Ea; [|done]. destruct (get key live) as [lr|] eqn:El; [|done]. cbn [mbind option_bind] in Ea.
  apply get_elem in El, Ec. rewrite Forall_forall in Hl. rewrite (Hl _ El a Ea). rewrite Forall_forall in Hs.
  apply Forall_forall. intros x [->|Hx]%obj_set_elem; [|by apply Hs]. cbn [snd].
  destruct (Hs _ Ec) as (f & Er & Hf). cbn [snd] in Er. rewrite Er. destruct (with_login f Hf) as (g & -> & Hg). by exists g.
Qed.

Lemma next_routes_typed labels rs clean : Forall is_typed clean -> Forall is_typed (next_routes re2 labels rs clean).
Proof.
  intros Hc. unfold next_routes. cbv zeta.
  assert (Hlive : Forall (fun kv => forall a, get "access" (snd kv) = Some a -> a = login) (foldl by_key [] (readRoutes re2 labels))).
  { apply (by_key_snd (readRoutes re2 labels) [] (fun r => forall a, get "access" r = Some a -> a = login)); [constructor|apply readRoutes_login]. }
  assert (Hseen : Forall (fun kv => is_typed (snd kv)) (foldl by_key [] clean)) by (apply (by_key_snd clean [] is_typed); [constructor|done]).
  pose proof (carry_typed _ _ rs Hlive Hseen) as H. apply Forall_forall. intros r ([k r'] & -> & Hr)%list_elem_of_fmap.
  rewrite Forall_forall in H. by apply (H _ Hr).
Qed.

(** The calls of a write, the answers left open. *)
Definition label_write (node name : string) (next : list attrs) : effect () :=
  match next with
  | [] => ServiceUpdateLabels node name [] [INGRESS_ROUTES_LABEL; INGRESS_ENABLED_LABEL]
  | _ => ServiceUpdateLabels node name [(INGRESS_ROUTES_LABEL, serializeRoutes next); (INGRESS_ENABLED_LABEL, "true")] []
  end.

Lemma set_routes_traces all m id routes t r : traces (setServiceRoutes re2 all m id routes) t r ->
  (t = [] /\ exists e, r = inr e) \/
  exists service clean, resolveLiveService all id = Some service /\ validateRoutes re2 0 routes = Ok clean /\
    let next := next_routes re2 (iv_labels service) routes clean in
    exists a t', t = Event (RegisterDomainHosts next) a :: t' /\
      ((t' = [] /\ exists e, r = inr e) \/
       exists node b t'', m = Some node /\ a = inl tt /\ t' = Event (label_write node (iv_name service) next) b :: t'' /\
         ((exists e, b = inr e /\ t'' = [] /\ r = inr e) \/
          (b = inl tt /\ exists c, (c <> inl true /\ t'' = [Event IngressOn c] \/ exists d, c = inl true /\ t'' = [Event IngressOn c; Event ApplyIngress d]) /\
             r = match c with inl _ => inl next | inr e => inr e end))).
Proof.
  unfold setServiceRoutes. destruct (resolveLiveService all id) as [service|]; [|intros [-> ->]; left; split; [done|by eexists]].
  destruct (validateRoutes re2 0 routes) as [clean|msg] eqn:Ev; [|intros [-> ->]; left; split; [done|by eexists]].
  intros H. right. exists service, clean. split; [done|]. split; [done|]. cbv zeta. set (next := next_routes re2 (iv_labels service) routes clean) in *.
  apply traces_bind in H as [(e & H%traces_await & ->)|([] & t1 & t2 & -> & ->%traces_await & H)].
  { exists (inr e), []. subst. split; [done|]. left. split; [done|by eexists]. }
  exists (inl tt), t2. split; [done|]. destruct m as [node|]; [|destruct H as [-> ->]; left; split; [done|by eexists]].
  right. exists node. assert (Hw : forall t r, traces (match next with
      | [] => await (ServiceUpdateLabels node (iv_name service) [] [INGRESS_ROUTES_LABEL; INGRESS_ENABLED_LABEL])
      | _ => await (ServiceUpdateLabels node (iv_name service) [(INGRESS_ROUTES_LABEL, serializeRoutes next); (INGRESS_ENABLED_LABEL, "true")] [])
      end) t r -> t = [Event (label_write node (iv_name service) next) r]).
  { intros t r'. unfold label_write. by destruct next; intros ->%traces_await. }
  apply traces_bind in H as [(e & ->%Hw & ->)|([] & t3 & t4 & -> & ->%Hw & H)].
  { exists (inr e), []. do 3 (split; [done|]). left. by exists e. }
  exists (inl tt), t4. do 3 (split; [done|]). right. split; [done|].
  apply traces_bind in H as [(e & ->%traces_await & ->)|(on & t5 & t6 & -> & ->%traces_await & H)].
  { exists (inr e). split; [by left|done]. }
  exists (inl on). apply traces_bind in H as [(e & H & ->)|([] & t7 & t8 & -> & H & [-> ->])].
  - exfalso. destruct on; [by apply traces_quietly in H as [? _]|by destruct H].
  - split; [|done]. destruct on; [|left; destruct H as [-> _]; split; [congruence|done]].
    right. apply traces_quietly in H as (_ & r' & ->%traces_await). by exists r'.
Qed.

(** C18: Routes are typed where they are written: a call of setServiceRoutes changes at
    most the labels of the service it names, and the routes it writes each have a
    trimmed non-empty host, a port from 1 to 65535, a known TLS mode, no empty
    texts, a canary with a weight from 0 to 100, a protection its schema accepts and
    a www mode only on a host that can have one; the reader gives back from the
    written label exactly those routes, which are also the result.  The routes given
    are documents, whatever they hold. *)
Theorem set_routes_typed all m id routes t r : Forall (fun r => read_ok (VObj r)) routes ->
  traces (setServiceRoutes re2 all m id routes) t r ->
  forall ev c, ev ∈ t -> change_of ev = Some c ->
  exists service node next, resolveLiveService all id = Some service /\ m = Some node /\ Forall is_typed next /\
    readRoutes re2 match c with Labelled _ _ add _ => add | _ => [] end = next /\ (forall x, r = inl x -> x = next) /\
    (next = [] /\ c = Labelled node (iv_name service) [] [INGRESS_ROUTES_LABEL; INGRESS_ENABLED_LABEL] \/
     next <> [] /\ c = Labelled node (iv_name service) [(INGRESS_ROUTES_LABEL, serializeRoutes next); (INGRESS_ENABLED_LABEL, "true")] []).
Proof.
  intros Hin Ht ev c Hev Hc. apply set_routes_traces in Ht as [[-> _]|(service & clean & Hs & Hv & a & t' & -> & H)]; [by apply elem_of_nil in Hev|].
  apply elem_of_cons in Hev as [->|Hev]; [done|]. destruct H as [[-> _]|(node & b & t'' & -> & -> & -> & H)]; [by apply elem_of_nil in Hev|].
  set (next := next_routes re2 (iv_labels service) routes clean) in *.
  assert (Hn : Forall is_typed next) by (eapply next_routes_typed, validateRoutes_typed; [exact Hin|exact Hv]).
  exists service, node, next. do 3 (split; [done|]).
  assert (Ec : Some c = changed (label_write node (iv_name service) next)).
  { apply elem_of_cons in Hev as [->|Hev]; [by rewrite <- Hc|]. exfalso.
    destruct H as [(e & _ & -> & _)|(_ & d & [[_ ->]|(f & _ & ->)] & _)]; [by apply elem_of_nil in Hev| |].
    - apply list_elem_of_singleton in Hev as ->. done.
    - apply elem_of_cons in Hev as [->|Hev]; [done|]. apply list_elem_of_singleton in Hev as ->. done. }
  assert (Hr : forall x, r = inl x -> x = next).
  { destruct H as [(e & _ & _ & ->)|(_ & d & _ & ->)]; [done|]. destruct d; [by intros x [= <-]|done]. }
  unfold label_write in Ec. destruct next as [|r0 rs]; cbn [changed] in Ec; injection Ec as ->; [by auto|].
  split; [|split; [done|by right]]. apply read_serialized; [|done].
  eapply Forall_impl; [exact Hn|]. intros r' (f & -> & Hf). split; [by apply typed_coerced|by apply typed_read].
Qed.

(** A written route has no toggle for real-user monitoring. *)
Lemma validated_no_rum at_ input r : read_ok (VObj input) -> validateRoute re2 at_ input = Ok r -> get "rum" r = None.
Proof. intros Hr H. apply validated_typed in H as (f & -> & _); [|done]. unfold route_of. by keys. Qed.
End protections.

(** * Examples *)

(** Every pattern compiles. *)
Definition any_pattern (_ : string) : bool := true.

Definition shop_routes : list attrs :=
  [[("host", VStr " shop.example.com"); ("port", VNum "8080"); ("rum", VStr "off"); ("access", VObj [("login", VBool true)]);
    ("protection", VObj [("blockBots", VBool true); ("ipDeny", VArr [VStr "10.0.0.0/8"])])]].

Definition shop_service : InvService :=
  {| iv_id := "x1"; iv_name := "shop_web"; iv_stack := "shop"; iv_image := "web:1"; iv_labels := [(INGRESS_ROUTES_LABEL, serializeRoutes shop_routes)];
     iv_networks := ["shop_default"]; iv_secrets := [] |}.

Definition shop_write : program (list attrs) :=
  setServiceRoutes any_pattern [shop_service] (Some "m1") "x1" (readRoutes any_pattern (iv_labels shop_service)).

Lemma routes_label_stable_witness :
  readRoutes any_pattern [(INGRESS_ROUTES_LABEL, serializeRoutes (readRoutes any_pattern (iv_labels shop_service)))] =
    readRoutes any_pattern (iv_labels shop_service) /\ length (readRoutes any_pattern (iv_labels shop_service)) = 1%nat.
Proof. split; [by apply routes_label_stable|by vm_compute]. Defined.

Definition shop_next : list attrs :=
  match snd (run yes 0 shop_write) with inl next => next | inr _ => [] end.

Lemma shop_write_run : Forall (fun r => read_ok (VObj r)) (readRoutes any_pattern (iv_labels shop_service)) /\
  Event (label_write "m1" "shop_web" shop_next) (inl tt) ∈ fst (run yes 0 shop_write) /\
  change_of (Event (label_write "m1" "shop_web" shop_next) (inl tt)) =
    Some (Labelled "m1" "shop_web" [(INGRESS_ROUTES_LABEL, serializeRoutes shop_next); (INGRESS_ENABLED_LABEL, "true")] []).
Proof.
  split; [|split; vm_compute; [right; left|reflexivity]].
  eapply Forall_impl; [apply readRoutes_read|]. by intros r [_ H].
Qed.

Lemma set_routes_typed_witness : exists next, Forall (is_typed any_pattern) next /\
  readRoutes any_pattern [(INGRESS_ROUTES_LABEL, serializeRoutes shop_next); (INGRESS_ENABLED_LABEL, "true")] = next.
Proof.
  destruct shop_write_run as (Hd & Hev & Hc).
  destruct (set_routes_typed any_pattern [shop_service] (Some "m1") "x1" _ _ _ Hd (run_traces yes 0 shop_write) _ _ Hev Hc) as (_ & _ & next & _ & _ & Hn & Hr & _).
  exact (ex_intro _ next (conj Hn Hr)).
Defined.

(** Writing back the routes of a service as they are read forgets that one of them
    opted out of real-user monitoring. *)
Lemma rewrite_forgets_rum :
  map (get "rum") (readRoutes any_pattern (iv_labels shop_service)) = [Some (VStr "off")] /\
  exists next, snd (run yes 0 shop_write) = inl next /\ map (get "rum") next = [None] /\ map (get "access") next = [Some login].
Proof. split; [by vm_compute|]. eexists. split; [vm_compute; reflexivity|]. by vm_compute. Qed.
