(* ===== verification/Canary.v ===== *)
(** Canary deploys (the canary half of packages/trpc/src/services/
    releases.service.ts, and the watcher in apps/api/src/workers/deploy-canary.ts
    with its core deploy-canary.core.ts): a weighted sibling service is started on a
    candidate image, judged every tick from its labels, the clock and the error
    rates, and promoted or rolled back.

    All state is on Docker labels.  Date.parse is a parameter; texts of errors and
    records are left out. *)

From Stdlib Require Import QArith Qabs Lqa.
From S2P Require Import Prelude Comparators Json JsonText KvCodec Doubles JsNumber NetPolicy ServiceSpec SecretEnv SpecRead Effects ServicePatch Routes.

Definition CANARY_OF_LABEL : string := "swarmy.canary.of".
Definition CANARY_PARAMS_LABEL : string := "swarmy.canary.params".
Definition CANARY_SUFFIX : string := "--canary".
Definition STACK_LABEL : string := "com.docker.stack.namespace".
Definition UNGROUPED : string := "(ungrouped)".

(** * The parameters of a rollout *)

Record CanaryParams := {
  cp_trafficPct : number; cp_durationMin : number; cp_rollbackOnErrorRatePct : option number; cp_stableImage : string;
  cp_startedAt : string
}.

(** What startCanary writes: whole percents and minutes, and the ceiling with the
    decimal text it has. *)
Record CanaryRequest := {
  cr_stack : string; cr_service : string; cr_image : string; cr_trafficPct : Z; cr_durationMin : Z;
  cr_rollbackOnErrorRatePct : option string
}.

Definition params_value (req : CanaryRequest) (stableImage startedAt : string) : value :=
  VObj [("trafficPct", vint (cr_trafficPct req)); ("durationMin", vint (cr_durationMin req));
        ("rollbackOnErrorRatePct", match cr_rollbackOnErrorRatePct req with Some s => VNum s | None => VNull end);
        ("stableImage", VStr stableImage); ("startedAt", VStr startedAt)].

Section canary.
(** [Date.parse]: milliseconds, [None] where it is NaN. *)
Variable Date_parse : string -> option Z.

Definition at_field (k : string) (v : value) : option value := match v with VObj m => get k m | _ => None end.
Definition str_field (o : option value) : string := match o with Some (VStr s) => s | _ => "" end.
Definition positive (x : jsnum) : option number := match x with Fin n => if nlt (num 0) n then Some n else None | _ => None end.

Definition parseCanaryParams (raw : option string) : option CanaryParams :=
  match truthy_str raw ≫= json_parse with
  | None => None
  | Some v =>
      let startedAt := str_field (at_field "startedAt" v) in
      match positive (js_Number (at_field "trafficPct" v)), positive (js_Number (at_field "durationMin" v)) with
      | Some trafficPct, Some durationMin =>
          if nlt (num 100) trafficPct then None
          else if String.eqb startedAt "" || bool_decide (Date_parse startedAt = None) then None
          else Some {| cp_trafficPct := js_round trafficPct; cp_durationMin := js_round durationMin;
                       cp_rollbackOnErrorRatePct := positive (js_Number (at_field "rollbackOnErrorRatePct" v));
                       cp_stableImage := str_field (at_field "stableImage" v); cp_startedAt := startedAt |}
      | _, _ => None
      end
  end.

(** * The decision *)

Inductive CanaryDecision := wait | promote | rollback.

Definition decideCanary (elapsedMin durationMin : number) (rollbackOnErrorRatePct canaryErrorRatePct : option number) (canaryDown : bool)
    : CanaryDecision :=
  if canaryDown then rollback
  else if match rollbackOnErrorRatePct, canaryErrorRatePct with Some ceiling, Some rate => nlt ceiling rate | _, _ => false end then rollback
  else if nle durationMin elapsedMin then promote else wait.

(** * Error rates *)

(** The rate of a service, to four digits. *)
Definition red_rate (r : RateRow) : number := div (js_round (mul (div (rr_errors r) (rr_calls r)) (num 10000))) (num 10000).

Definition red_rates (rows : list RateRow) : list (string * number) :=
  foldl (fun m r => obj_set (rr_service r) (red_rate r) m) [] (List.filter (fun r => nlt (num 0) (rr_calls r)) rows).

Definition RED_WINDOW_MINUTES : Z := 15.
Definition DOWN_GRACE_MIN : Z := 2.

Definition redErrorRates (org : string) : program (option (list (string * number))) :=
  let* rows := await (OrgErrorRates org RED_WINDOW_MINUTES) in
  Ret (red_rates <$> (rows : option (list RateRow))).

Definition rate_names (stack : option string) (name : string) : list string :=
  name :: match truthy_str stack with
          | Some st => if startsWith (st +:+ "_") name then [sdrop (String.length st + 1) name] else []
          | None => []
          end.

Definition errorRatePctFor (rates : option (list (string * number))) (stack : option string) (name : string) : option number :=
  match rates with
  | None => None
  | Some m => (fun rate => div (js_round (mul rate (num 10000))) (num 100)) <$> head (omap (fun c => get c m) (rate_names stack name))
  end.

(** * Routes of the stable service *)

(** The worker keeps every property of a route; the elements of an array are its
    properties. *)
Fixpoint indexed (i : Z) (l : list value) : attrs := match l with [] => [] | v :: l' => (pretty i, v) :: indexed (i + 1) l' end.

Definition label_route (v : value) : option attrs := match v with VObj m => Some m | VArr l => Some (indexed 0 l) | _ => None end.

Definition parseRoutesLabel (raw : option string) : list attrs :=
  match truthy_str raw with
  | None => []
  | Some s => match json_parse s with Some (VArr l) => omap label_route l | _ => [] end
  end.

Definition has_canary (r : attrs) : bool := match get "canary" r with Some v => truthy_value v | None => false end.

Definition stripCanaryFromRoutes (routes : list attrs) : list attrs := map (obj_del "canary") routes.

(** The same over the routes of the service, in releases.service.ts. *)
Definition routesWithCanary (routes : list attrs) (canaryService : string) (weightPct : Z) : list attrs :=
  map (fun r => obj_set "canary" (VObj (fields [("service", Some (VStr canaryService)); ("port", get "port" r);
                                                ("weightPct", Some (vint (Z.min 100 (Z.max 0 weightPct))))])) r) routes.

Definition routesWithoutCanary (routes : list attrs) : list attrs := map (obj_del "canary") routes.

(** * Starting and ending a canary: releases.service.ts *)

Definition canaryNameFor (stable : string) : string := stable +:+ CANARY_SUFFIX.

Definition canary_labels (stable : InvService) (params : string) : entries :=
  [(CANARY_OF_LABEL, iv_name stable); (CANARY_PARAMS_LABEL, params)] ++
  (if String.eqb (iv_stack stable) UNGROUPED then [] else [(STACK_LABEL, iv_stack stable)]).

Definition canarySpecFor (live : ServiceSpec) (stable : InvService) (image params : string) : ServiceSpec :=
  set_ports None (set_labels (Some (canary_labels stable params))
    (set_mode (Some {| md_replicated := Some (num 1); md_global := false |})
      (set_image image (set_name (canaryNameFor (iv_name stable)) live)))).

Definition requireStableService (all : list InvService) (stack service : string) : InvService + failure :=
  match List.find (fun s => String.eqb (iv_stack s) stack && negb (bool_decide (is_Some (truthy_str (get CANARY_OF_LABEL (iv_labels s))))) &&
                    (String.eqb (iv_name s) service || String.eqb (iv_id s) service || String.eqb (iv_name s) (stack +:+ "_" +:+ service))) all with
  | None => inr (Typed NOT_FOUND)
  | Some s => if endsWith CANARY_SUFFIX (iv_name s) then inr (Typed COMMAND_REJECTED) else inl s
  end.

Definition settled_on {A} (x : A + failure) : program A := match x with inl a => Ret a | inr e => Throw e end.
Definition manager_or_throw (m : option string) : program string := settled_on (match m with Some n => inl n | None => inr (Typed NO_MANAGER) end).

Definition is_canary_of (stable : InvService) (s : InvService) : bool :=
  bool_decide (get CANARY_OF_LABEL (iv_labels s) = Some (iv_name stable)).

Section console.
Variable re2 : string -> bool.

Definition startCanary (all : list InvService) (m : option string) (req : CanaryRequest) (startedAt : string) : program () :=
  let* stable := settled_on (requireStableService all (cr_stack req) (cr_service req)) in
  let canaryName := canaryNameFor (iv_name stable) in
  if existsb (fun s => is_canary_of stable s || String.eqb (iv_name s) canaryName) all then Throw (Typed COMMAND_REJECTED)
  else if String.eqb (cr_image req) (iv_image stable) then Throw (Typed COMMAND_REJECTED)
  else
    let* node := manager_or_throw m in
    let* live := liveServiceSpec node {| lr_name := iv_name stable; lr_image := Some (iv_image stable); lr_networks := iv_networks stable |} in
    let spec := canarySpecFor live stable (cr_image req) (json_stringify (params_value req (iv_image stable) startedAt)) in
    let* violations := await (EvaluateAdmission spec) in
    if existsb id violations then Throw (Typed COMMAND_REJECTED)
    else
      do* catch (await (ServiceDeploy node spec pull_always None)) (fun e => Throw (mapDispatchError e)) in
      let routes := readRoutes re2 (iv_labels stable) in
      do* (match routes with
           | [] => Ret tt
           | _ => let* _ := setServiceRoutes re2 all m (iv_id stable) (routesWithCanary routes canaryName (cr_trafficPct req)) in Ret tt
           end) in
      await (WriteAudit "release.canary.start" (iv_name stable)).

(** Traffic back to the stable service, then the canary is removed. *)
Definition retire (all : list InvService) (m : option string) (node : string) (stable canary : InvService) : program () :=
  let routes := readRoutes re2 (iv_labels stable) in
  do* (if existsb has_canary routes then let* _ := setServiceRoutes re2 all m (iv_id stable) (routesWithoutCanary routes) in Ret tt else Ret tt) in
  await (ServiceRemove node (iv_name canary)).

Definition canary_in (all : list InvService) (stable : InvService) : program InvService :=
  settled_on (match List.find (is_canary_of stable) all with Some c => inl c | None => inr (Typed NOT_FOUND) end).

Definition promoteCanary (all : list InvService) (m : option string) (stack service : string) : program () :=
  let* stable := settled_on (requireStableService all stack service) in
  let* canary := canary_in all stable in
  let* node := manager_or_throw m in
  do* catch
    (let* raw := await (ServiceInspect node (iv_name stable)) in
     match promoteSpecFrom raw (iv_image canary) (iv_networks stable) with
     | None => Throw (Typed COMMAND_REJECTED)
     | Some spec =>
         do* await (ServiceDeploy node spec pull_always None) in
         retire all m node stable canary
     end)
    (fun e => Throw (mapDispatchError e)) in
  await (WriteAudit "release.canary.promote" (iv_name stable)).

Definition abortCanary (all : list InvService) (m : option string) (stack service : string) : program () :=
  let* stable := settled_on (requireStableService all stack service) in
  let* canary := canary_in all stable in
  let* node := manager_or_throw m in
  do* catch (retire all m node stable canary) (fun e => Throw (mapDispatchError e)) in
  await (WriteAudit "release.canary.abort" (iv_name stable)).
End console.

(** * The watcher: deploy-canary.ts *)

Record SwarmServiceInfo := {
  sv_name : string; sv_image : string; sv_labels : entries; sv_networks : list string; sv_desired : option Z; sv_running : Z;
  sv_secrets : list string; sv_updateStatus : option string; sv_updatedAt : Z
}.

Definition restoreStableRoutes (org node : string) (stable : SwarmServiceInfo) : program () :=
  let routes := parseRoutesLabel (get INGRESS_ROUTES_LABEL (sv_labels stable)) in
  if negb (existsb has_canary routes) then Ret tt
  else
    do* await (ServiceUpdateLabels node (sv_name stable) [(INGRESS_ROUTES_LABEL, serializeRoutes (stripCanaryFromRoutes routes))] []) in
    quietly (await (ReapplyIngress org)).

Definition promote_canary (org node : string) (stable canary : SwarmServiceInfo) : program () :=
  let* raw := await (ServiceInspect node (sv_name stable)) in
  match w_promoteSpecFrom raw (sv_image canary) (sv_networks stable) with
  | None => Throw (Failed ("cannot rebuild spec for " +:+ sv_name stable))
  | Some spec =>
      do* await (ServiceDeploy node spec pull_always None) in
      do* restoreStableRoutes org node stable in
      do* await (ServiceRemove node (sv_name canary)) in
      do* await (WriteAudit "release.canary.promote" (sv_name stable)) in
      await (FireAlert "deploy-canary" "info" ("service:" +:+ sv_name stable))
  end.

Definition rollback_canary (org node : string) (stable canary : SwarmServiceInfo) : program () :=
  do* restoreStableRoutes org node stable in
  do* await (ServiceRemove node (sv_name canary)) in
  do* await (WriteAudit "release.canary.rollback" (sv_name stable)) in
  do* await (FireAlert "deploy-rolled-back" "critical" ("service:" +:+ sv_name stable)) in
  await (RecordIncident ("release:" +:+ default (sv_name stable) (get STACK_LABEL (sv_labels stable))) "deploy.canary.rollback").

(** The canary, the service it shadows and its parameters, if they can be read. *)
Definition judged (services : list SwarmServiceInfo) (canary : SwarmServiceInfo) : option (SwarmServiceInfo * CanaryParams) :=
  match List.find (fun s => bool_decide (Some (sv_name s) = get CANARY_OF_LABEL (sv_labels canary))) services,
        parseCanaryParams (get CANARY_PARAMS_LABEL (sv_labels canary)) with
  | Some stable, Some params => Some (stable, params)
  | _, _ => None
  end.

(** Minutes since the start; the parameters have a start that parses. *)
Definition elapsed (now : Z) (params : CanaryParams) : number := div (num (now - default 0 (Date_parse (cp_startedAt params)))) (num 60000).

Definition canary_down (canary : SwarmServiceInfo) (elapsedMin : number) : bool :=
  (0 <? default 0 (sv_desired canary)) && (sv_running canary =? 0) && nle (num DOWN_GRACE_MIN) elapsedMin.

Definition decision (canary : SwarmServiceInfo) (params : CanaryParams) (rates : option (list (string * number))) (now : Z) : CanaryDecision :=
  let elapsedMin := elapsed now params in
  decideCanary elapsedMin (cp_durationMin params) (cp_rollbackOnErrorRatePct params)
    (errorRatePctFor rates (get STACK_LABEL (sv_labels canary)) (sv_name canary)) (canary_down canary elapsedMin).

Definition judgeCanary (org : string) (m : option string) (services : list SwarmServiceInfo) (canary : SwarmServiceInfo)
    (rates : option (list (string * number))) (now : Z) : program () :=
  match judged services canary, m with
  | Some (stable, params), Some node =>
      match decision canary params rates now with
      | wait => Ret tt
      | promote => promote_canary org node stable canary
      | rollback => rollback_canary org node stable canary
      end
  | _, _ => Ret tt
  end.

(** What the hub holds: the services of an organisation when its turn comes, its
    manager, and the time at which a canary is judged. *)
Record Hub := {
  hb_orgs : list string; hb_services : string -> list SwarmServiceInfo; hb_manager : string -> option string;
  hb_now : string -> SwarmServiceInfo -> Z
}.

Definition canaries_of (services : list SwarmServiceInfo) : list SwarmServiceInfo :=
  List.filter (fun s => bool_decide (is_Some (truthy_str (get CANARY_OF_LABEL (sv_labels s))))) services.

Definition tick_org (h : Hub) (org : string) : program () :=
  let services := hb_services h org in
  match canaries_of services with
  | [] => Ret tt
  | canaries =>
      let* rates := redErrorRates org in
      each (fun canary => quietly (judgeCanary org (hb_manager h org) services canary rates (hb_now h org canary))) canaries
  end.

Definition canaryTick (h : Hub) : program () := each (tick_org h) (js_uniq (hb_orgs h)).

(** * The parameters that are written are those that are read *)

Definition ceiling_of (req : CanaryRequest) : option number := cr_rollbackOnErrorRatePct req ≫= (fun s => positive (of_text s)).

Lemma positive_num z : 0 < z < 2 ^ 53 -> positive (Fin (num z)) = Some (num z).
Proof. intros Hz. unfold positive. rewrite nlt_num by lia. by destruct (Z.ltb_spec 0 z); [|lia]. Qed.

Lemma vint_number z : 0 < z < 2 ^ 53 -> js_Number (Some (vint z)) = Fin (num z).
Proof. intros Hz. unfold vint, js_Number. by apply of_text_pretty. Qed.

(** The parameters that startCanary writes on the label of a canary are the ones
    its watcher reads back: the share and the window as they were asked, the ceiling
    of the error rate as the number its text denotes, or none, the stable image and
    the start. *)
Theorem canary_params_roundtrip req stableImage startedAt :
  0 < cr_trafficPct req <= 100 -> 0 < cr_durationMin req < 2 ^ 53 -> startedAt <> "" -> is_Some (Date_parse startedAt) ->
  (forall s, cr_rollbackOnErrorRatePct req = Some s -> wf_doc (VNum s) = true) ->
  forall labels, get CANARY_PARAMS_LABEL labels = Some (json_stringify (params_value req stableImage startedAt)) ->
  parseCanaryParams (get CANARY_PARAMS_LABEL labels) =
    Some {| cp_trafficPct := num (cr_trafficPct req); cp_durationMin := num (cr_durationMin req); cp_rollbackOnErrorRatePct := ceiling_of req;
            cp_stableImage := stableImage; cp_startedAt := startedAt |}.
Proof.
  intros Ht Hd Hs [ms Hp] Hr labels ->.
  set (rb := match cr_rollbackOnErrorRatePct req with Some s => VNum s | None => VNull end).
  assert (Hrb : read_ok rb) by (unfold rb; destruct (cr_rollbackOnErrorRatePct req) as [s|]; [by split; [apply Hr|]|done]).
  assert (Hv : forall z, 0 < z -> read_ok (vint z)).
  { intros z Hz. split; [|done]. apply vint_wf; lia. }
  set (fs := [("trafficPct", Some (vint (cr_trafficPct req))); ("durationMin", Some (vint (cr_durationMin req)));
    ("rollbackOnErrorRatePct", Some rb); ("stableImage", Some (VStr stableImage)); ("startedAt", Some (VStr startedAt))]).
  assert (Hok : read_ok (params_value req stableImage startedAt)).
  { apply (fields_read fs); [done|]. repeat (apply Forall_cons_2; [cbn [snd]|]); try apply Forall_nil_2; intros w [= <-]; try (apply Hv; lia); done. }
  assert (Ej : truthy_str (Some (json_stringify (params_value req stableImage startedAt))) = Some (json_stringify (params_value req stableImage startedAt))) by done.
  unfold parseCanaryParams. rewrite Ej. cbn [mbind option_bind]. rewrite json_parse_stringify by apply Hok.
  unfold params_value. cbn [at_field get String.eqb Ascii.eqb Bool.eqb str_field]. fold rb.
  rewrite !vint_number, !positive_num by lia. rewrite nlt_num by lia.
  destruct (Z.ltb_spec 100 (cr_trafficPct req)); [lia|]. apply String.eqb_neq in Hs as ->. rewrite Hp. cbn [orb].
  rewrite bool_decide_eq_false_2 by done. rewrite !js_round_num by lia. do 2 f_equal.
  unfold rb, ceiling_of. by destruct (cr_rollbackOnErrorRatePct req).
Qed.

(** * A split is stamped and taken back *)

Section split.
Context (re2 : string -> bool).

Definition rt_with (c : option CanaryParts) (f : RouteParts) : RouteParts :=
  {| rt_host := rt_host f; rt_port := rt_port f; rt_tls := rt_tls f; rt_path := rt_path f; rt_strip := rt_strip f;
     rt_middlewares := rt_middlewares f; rt_driver := rt_driver f; rt_canary := c; rt_protection := rt_protection f;
     rt_www := rt_www f; rt_login := rt_login f |}.

Lemma obj_del_fields {A} k (l : list (string * option A)) :
  obj_del k (fields l) = fields (map (fun kv => if String.eqb (fst kv) k then (fst kv, None) else kv) l).
Proof.
  induction l as [|[k' [v|]] l IH]; [done| |]; cbn [fields map fst].
  - unfold obj_del in *. cbn [List.filter fst]. rewrite IH. by destruct (String.eqb k' k).
  - rewrite IH. by destruct (String.eqb k' k).
Qed.

Lemma strip_route f : obj_del "canary" (route_of f) = route_of (rt_with None f).
Proof. unfold route_of. rewrite obj_del_fields. reflexivity. Qed.

Lemma get_route_ne k c f : k <> "canary" -> get k (route_of (rt_with c f)) = get k (route_of f).
Proof.
  intros Hk. apply String.eqb_neq in Hk. pose proof (get_obj_del k "canary" (route_of (rt_with c f))) as H1.
  pose proof (get_obj_del k "canary" (route_of f)) as H2. rewrite Hk in H1, H2. rewrite <- H1, <- H2, !strip_route. done.
Qed.

(** The validator does not look at the toggle of real-user monitoring. *)
Lemma validate_cong at_ a b : (forall k, k <> "rum" -> get k a = get k b) -> validateRoute re2 at_ a = validateRoute re2 at_ b.
Proof. intros H. unfold validateRoute. by rewrite !H by done. Qed.

(** A stored route: the toggle of real-user monitoring, if any, and the rest. *)
Definition raw (fo : option string * RouteParts) : attrs := stored (fst fo) (snd fo).

Lemma strip_rum fo : obj_del "rum" (raw fo) = route_of (snd fo).
Proof. unfold raw, stored. rewrite obj_del_fields. reflexivity. Qed.

Lemma get_raw k fo : k <> "rum" -> get k (raw fo) = get k (route_of (snd fo)).
Proof. intros Hk. rewrite <- strip_rum, get_obj_del. by apply String.eqb_neq in Hk as ->. Qed.

Lemma weight_of z : 0 <= z <= 100 -> is_weight (pretty z).
Proof.
  intros Hz. destruct (decide (z = 0)) as [->|Hne].
  - split; [done|]. exists (num 0). split_and!; by vm_compute.
  - assert (E : of_text (pretty z) = Fin (num z)) by (apply of_text_pretty; lia).
    split; [split; [apply (vint_wf z); lia|done]|]. exists (num z). split; [done|]. unfold clamp_pct, nle. rewrite E, !nlt_num by lia.
    destruct (Z.ltb_spec z 0), (Z.ltb_spec 100 z), (Z.ltb_spec 0 z); try lia. done.
Qed.

Lemma typed_with c f : typed re2 f -> (forall d, c = Some d -> cn_service d <> "" /\ trim (cn_service d) = cn_service d /\
  is_port (cn_port d) /\ is_weight (cn_weight d)) -> typed re2 (rt_with c f).
Proof. intros H Hc. destruct H. by split. Qed.

Definition share (weightPct : Z) : Z := Z.min 100 (Z.max 0 weightPct).

Definition stamp (service : string) (weightPct : Z) (f : RouteParts) : RouteParts :=
  rt_with (Some {| cn_service := service; cn_port := rt_port f; cn_weight := pretty (share weightPct) |}) f.

Lemma typed_stamp service w f : typed re2 f -> service <> "" -> trim service = service -> typed re2 (stamp service w f).
Proof.
  intros Hf Hs Ht. apply typed_with; [done|]. intros d [= <-]. cbn. split; [done|]. split; [done|]. split; [apply Hf|].
  apply weight_of. unfold share. lia.
Qed.

(** A stamped route is validated to the route with the split, without the toggle. *)
Lemma stamp_valid at_ service w fo : typed re2 (snd fo) -> service <> "" -> trim service = service ->
  validateRoute re2 at_ (obj_set "canary" (VObj (fields [("service", Some (VStr service)); ("port", get "port" (raw fo));
    ("weightPct", Some (vint (share w)))])) (raw fo)) = Ok (route_of (stamp service w (snd fo))).
Proof.
  intros Hf Hs Ht. rewrite <- (typed_valid re2 (stamp service w (snd fo)) (typed_stamp _ _ _ Hf Hs Ht) at_).
  apply validate_cong. intros k Hr. rewrite get_obj_set, !get_raw by done. destruct (String.eqb_spec k "canary") as [->|Hk].
  - unfold stamp, route_of. rewrite !get_fields by reflexivity. reflexivity.
  - unfold stamp. by rewrite get_route_ne.
Qed.

Lemma stamped_valid i service w fos : Forall (typed re2) (map snd fos) -> service <> "" -> trim service = service ->
  validateRoutes re2 i (routesWithCanary (map raw fos) service w) = Ok (map (fun fo => route_of (stamp service w (snd fo))) fos).
Proof.
  intros H Hs Ht. revert i. induction fos as [|fo l IH]; intros i; [done|]. apply Forall_cons in H as [Hf H]. specialize (IH H).
  cbn [map routesWithCanary validateRoutes].
  rewrite (stamp_valid _ service w fo) by done. cbn [res_bind]. unfold routesWithCanary in IH. by rewrite IH.
Qed.

(** ** The whole set keeps its routes when no two have the same host and path *)

Definition key_of (f : RouteParts) : string := route_key (rt_host f) (default "" (rt_path f)).

Lemma text_host f : text_at "host" (route_of f) = rt_host f.
Proof. reflexivity. Qed.

Lemma text_path f : text_at "path" (route_of f) = default "" (rt_path f).
Proof. unfold text_at, route_of. rewrite get_fields by reflexivity. cbn. by destruct (rt_path f). Qed.

Lemma text_raw k fo : k <> "rum" -> text_at k (raw fo) = text_at k (route_of (snd fo)).
Proof. intros Hk. unfold text_at. by rewrite get_raw. Qed.

Lemma by_key_all fos acc : NoDup (map fst acc ++ map key_of (map snd fos)) ->
  foldl by_key acc (map raw fos) = acc ++ map (fun fo => (key_of (snd fo), raw fo)) fos.
Proof.
  revert acc. induction fos as [|f fs IH]; intros acc Hd; [by rewrite app_nil_r|]. cbn [map foldl].
  assert (E : by_key acc (raw f) = acc ++ [(key_of (snd f), raw f)]).
  { unfold by_key. rewrite !text_raw, text_host, text_path by done. apply obj_set_fresh. intros Hin. apply NoDup_app in Hd as (_ & Hd & _).
    apply (Hd _ Hin). left. }
  rewrite E, IH, <- app_assoc; [done|]. rewrite map_app, <- app_assoc. exact Hd.
Qed.

Lemma get_access f : get "access" (route_of f) = if rt_login f then Some login else None.
Proof. unfold route_of. rewrite get_fields by reflexivity. cbn. by destruct (rt_login f). Qed.

Lemma get_keyed fos fo : NoDup (map key_of (map snd fos)) -> fo ∈ fos ->
  get (key_of (snd fo)) (map (fun fo => (key_of (snd fo), raw fo)) fos) = Some (raw fo).
Proof.
  intros Hd Hin. apply get_unique; [rewrite map_map in *; exact Hd|]. apply list_elem_of_fmap. by exists fo.
Qed.

(** The routes written carry their own [access], so nothing is carried over. *)
Lemma carry_nothing live seen fs : (forall f, f ∈ fs -> rt_login f = false -> forall r, get (key_of f) live = Some r -> get "access" r = None) ->
  Forall (fun f => trim (rt_host f) = rt_host f) fs -> forall rs, Forall2 (fun f r => get "access" r = get "access" (route_of f) /\
    text_at "host" r = rt_host f /\ text_at "path" r = default "" (rt_path f)) fs rs -> foldl (carry_access live) seen rs = seen.
Proof.
  intros Hl Ht rs H. revert seen. induction H as [|f r fs rs (Ha & Hh & Hp) _ IH]; intros seen; [done|].
  apply Forall_cons in Ht as [Htf Ht]. cbn [foldl].
  assert (E : carry_access live seen r = seen).
  { unfold carry_access. rewrite Ha, get_access. destruct (rt_login f) eqn:El; [done|]. rewrite Hh, Htf, Hp. fold (key_of f).
    destruct (get (key_of f) seen); [|done]. destruct (get (key_of f) live) as [lr|] eqn:Er; [|done]. cbn [mbind option_bind].
    by rewrite (Hl f) by (done || by left). }
  rewrite E. apply IH; [|done]. intros f' Hf'. apply Hl. by right.
Qed.

(** A route written without a toggle is stored as it is. *)
Lemma raw_plain gs : map raw (map (pair None) gs) = map route_of gs.
Proof. rewrite map_map. reflexivity. Qed.

Lemma parts_plain {A} (gs : list A) : map snd (map (pair (@None string)) gs) = gs.
Proof. rewrite map_map. apply map_id. Qed.

Lemma next_of_set labels fos gs rs : Forall (typed re2) (map snd fos) -> NoDup (map key_of (map snd fos)) -> readRoutes re2 labels = map raw fos ->
  map key_of gs = map key_of (map snd fos) ->
  Forall2 (fun f r => get "access" r = get "access" (route_of f) /\ text_at "host" r = rt_host f /\ text_at "path" r = default "" (rt_path f)) (map snd fos) rs ->
  next_routes re2 labels rs (map route_of gs) = map route_of gs.
Proof.
  intros Hf Hd Hr Hk Hrs. unfold next_routes. rewrite Hr, (by_key_all fos []) by done. rewrite <- (raw_plain gs).
  rewrite (by_key_all (map (pair None) gs) []) by (cbn [map app]; by rewrite parts_plain, Hk). cbn [app].
  rewrite (carry_nothing _ _ (map snd fos)); [rewrite !map_map; reflexivity| | |done].
  - intros f (fo & -> & Hin)%list_elem_of_fmap Hlog r. rewrite get_keyed by done. intros [= <-]. by rewrite get_raw, get_access, Hlog.
  - eapply Forall_impl; [exact Hf|]. intros f H. apply H.
Qed.

Lemma stored_routes_read fos : Forall (typed re2) (map snd fos) -> Forall (fun fo => rum_ok (fst fo)) fos ->
  Forall (fun r => coerceRoute re2 (VObj r) = Some r /\ read_ok (VObj r)) (map raw fos).
Proof.
  intros H Hr. apply Forall_forall. intros r (fo & -> & Hf)%list_elem_of_fmap. rewrite Forall_forall in H. rewrite Forall_forall in Hr.
  assert (Ht : typed re2 (snd fo)) by (by apply H, list_elem_of_fmap_2).
  split; [by apply stored_coerced; [|apply Hr]|by eapply stored_read].
Qed.

Lemma typed_routes_read fs : Forall (typed re2) fs -> Forall (fun r => coerceRoute re2 (VObj r) = Some r /\ read_ok (VObj r)) (map route_of fs).
Proof.
  intros H. rewrite <- raw_plain. apply stored_routes_read; [by rewrite parts_plain|]. apply Forall_forall. by intros fo (f & -> & _)%list_elem_of_fmap x.
Qed.

Lemma parse_serialized rs : Forall (fun r => read_ok (VObj r)) rs -> parseRoutesLabel (Some (serializeRoutes rs)) = rs.
Proof.
  intros H. assert (Hok : read_ok (VArr (map VObj rs))).
  { apply list_read, Forall_forall. intros x (r & -> & Hr)%list_elem_of_fmap. rewrite Forall_forall in H. by apply H. }
  unfold parseRoutesLabel. assert (Et : truthy_str (Some (serializeRoutes rs)) = Some (serializeRoutes rs)) by done. rewrite Et.
  unfold serializeRoutes. rewrite json_parse_stringify by apply Hok. clear. induction rs as [|r rs IH]; [done|]. cbn [map]. by rewrite omap_step, IH.
Qed.

Lemma same_access f g : rt_login g = rt_login f -> rt_host g = rt_host f -> rt_path g = rt_path f ->
  forall r, (forall k, k <> "canary" -> get k r = get k (route_of g)) -> get "access" r = get "access" (route_of f) /\
    text_at "host" r = rt_host f /\ text_at "path" r = default "" (rt_path f).
Proof.
  intros H1 H2 H3 r Hr. rewrite Hr by done. rewrite !get_access, H1. split; [done|]. unfold text_at. rewrite !Hr by done.
  change (match get "host" (route_of g) with Some (VStr s) => s | _ => "" end) with (text_at "host" (route_of g)).
  change (match get "path" (route_of g) with Some (VStr s) => s | _ => "" end) with (text_at "path" (route_of g)).
  by rewrite text_host, text_path, H2, H3.
Qed.

End split.

(** * What the watcher does *)

Definition stripped_label (stable : SwarmServiceInfo) : entries :=
  [(INGRESS_ROUTES_LABEL, serializeRoutes (stripCanaryFromRoutes (parseRoutesLabel (get INGRESS_ROUTES_LABEL (sv_labels stable)))))].

Definition splits (stable : SwarmServiceInfo) : bool :=
  existsb has_canary (parseRoutesLabel (get INGRESS_ROUTES_LABEL (sv_labels stable))).

(** The label of the stable service names the canary no more, and the edge was asked
    to render it. *)
Definition restored (org node : string) (stable : SwarmServiceInfo) (t : list (event effect)) : Prop :=
  splits stable = true -> exists t1 a t2,
    t = t1 ++ [Event (ServiceUpdateLabels node (sv_name stable) (stripped_label stable) []) (inl tt); Event (ReapplyIngress org) a] ++ t2.

Lemma restored_app org node stable t t' : restored org node stable t -> restored org node stable (t ++ t').
Proof. intros H Hs. destruct (H Hs) as (t1 & a & t2 & ->). exists t1, a, (t2 ++ t'). by rewrite <- !app_assoc. Qed.

Lemma restored_before org node stable t0 t : restored org node stable t -> restored org node stable (t0 ++ t).
Proof. intros H Hs. destruct (H Hs) as (t1 & a & t2 & ->). exists (t0 ++ t1), a, t2. by rewrite <- !app_assoc. Qed.

Lemma restore_traces org node stable t r : traces (restoreStableRoutes org node stable) t r ->
  (splits stable = false /\ t = [] /\ r = inl tt) \/
  (splits stable = true /\ exists a, (exists e, a = inr e /\ r = inr e /\
     t = [Event (ServiceUpdateLabels node (sv_name stable) (stripped_label stable) []) a]) \/
   (a = inl tt /\ r = inl tt /\ exists b, t = [Event (ServiceUpdateLabels node (sv_name stable) (stripped_label stable) []) a; Event (ReapplyIngress org) b])).
Proof.
  unfold restoreStableRoutes. fold (splits stable). destruct (splits stable); [|intros [-> ->]; by left].
  simpl (negb true). cbn iota. fold (stripped_label stable). intros H. right. split; [done|].
  apply traces_bind in H as [(e & ->%traces_await & ->)|([] & t1 & t2 & -> & ->%traces_await & H)].
  - exists (inr e). left. by exists e.
  - exists (inl tt). right. apply traces_quietly in H as (-> & r' & ->%traces_await). do 2 (split; [done|]). by exists r'.
Qed.

Lemma restore_done org node stable t : traces (restoreStableRoutes org node stable) t (inl tt) -> restored org node stable t.
Proof.
  intros [(Hs & _)|(_ & a & [(e & _ & ? & _)|(-> & _ & b & ->)])]%restore_traces Ht; [congruence|done|]. by exists [], b, [].
Qed.

(** A change that the watcher may make for a canary it has decided on. *)
Record justified (h : Hub) (org : string) (canary : SwarmServiceInfo) (before : list (event effect)) (c : change) : Prop := {
  ju_org : org ∈ hb_orgs h;
  ju_canary : canary ∈ canaries_of (hb_services h org);
  ju_change : exists stable params node rates, judged (hb_services h org) canary = Some (stable, params) /\ hb_manager h org = Some node /\
    Event (OrgErrorRates org RED_WINDOW_MINUTES) (inl rates) ∈ before /\
    let d := decision canary params (red_rates <$> (rates : option (list RateRow))) (hb_now h org canary) in
    match c with
    | Deployed n spec pull => d = promote /\ n = node /\ pull = pull_always /\
        exists raw, Event (ServiceInspect node (sv_name stable)) (inl raw) ∈ before /\
          w_promoteSpecFrom raw (sv_image canary) (sv_networks stable) = Some spec
    | Labelled n s add rm => d <> wait /\ n = node /\ s = sv_name stable /\ add = stripped_label stable /\ rm = []
    | Removed n s => d <> wait /\ n = node /\ s = sv_name canary /\ restored org node stable before /\
        (d = promote -> exists raw spec, w_promoteSpecFrom raw (sv_image canary) (sv_networks stable) = Some spec /\
           Event (ServiceDeploy node spec pull_always None) (inl tt) ∈ before)
    end
}.

Definition watched (h : Hub) (before : list (event effect)) (ev : event effect) : Prop :=
  forall c, change_of ev = Some c -> exists org canary, justified h org canary before c.

(** An event that changes nothing. *)
Lemma watched_quiet h before ev : change_of ev = None -> watched h before ev.
Proof. intros H c Hc. by rewrite H in Hc. Qed.

Section judge.
Context (h : Hub) (org : string) (canary stable : SwarmServiceInfo) (params : CanaryParams) (node : string).
Context (rates : option (list RateRow)) (before : list (event effect)).
Context (Horg : org ∈ hb_orgs h) (Hcan : canary ∈ canaries_of (hb_services h org)).
Context (Hj : judged (hb_services h org) canary = Some (stable, params)) (Hm : hb_manager h org = Some node).
Context (Hr : Event (OrgErrorRates org RED_WINDOW_MINUTES) (inl rates) ∈ before).

Let d := decision canary params (red_rates <$> rates) (hb_now h org canary).

Lemma seen_later (ev : event effect) t : ev ∈ before -> ev ∈ before ++ t.
Proof. intros H. apply elem_of_app. by left. Qed.

Lemma restore_watched t0 t r : d <> wait -> traces (restoreStableRoutes org node stable) t r -> every (watched h) (before ++ t0) t.
Proof using Horg Hcan Hj Hm Hr.
  intros Hd H. assert (Hu : forall a, watched h (before ++ t0) (Event (ServiceUpdateLabels node (sv_name stable) (stripped_label stable) []) a)).
  { intros a c [= <-]. exists org, canary. split; [done..|]. exists stable, params, node, rates.
    split; [done|]. split; [done|]. split; [by apply seen_later|done]. }
  apply restore_traces in H as [(_ & -> & _)|(_ & a & [(e & _ & _ & ->)|(-> & _ & b & ->)])]; simpl; [done|by split|].
  split; [apply Hu|]. split; [by apply watched_quiet|done].
Qed.

Lemma remove_watched t0 t1 a : d <> wait -> traces (restoreStableRoutes org node stable) t1 (inl tt) ->
  (d = promote -> exists raw spec, w_promoteSpecFrom raw (sv_image canary) (sv_networks stable) = Some spec /\
     Event (ServiceDeploy node spec pull_always None) (inl tt) ∈ t0) ->
  watched h (before ++ t0 ++ t1) (Event (ServiceRemove node (sv_name canary)) a).
Proof using Horg Hcan Hj Hm Hr.
  intros Hd H1 H0 c [= <-]. exists org, canary. split; [done..|]. exists stable, params, node, rates.
  split; [done|]. split; [done|]. split; [by apply seen_later|]. fold d. do 3 (split; [done|]). split.
  - by apply restored_before, restored_before, restore_done.
  - intros (raw & spec & E & Hin)%H0. exists raw, spec. split; [done|]. rewrite !elem_of_app. auto.
Qed.

(** The records at the end change nothing. *)
Lemma records_quiet b (p : program ()) t r : (forall t r, traces p t r -> Forall (fun ev => change_of ev = None) t) ->
  traces p t r -> every (watched h) b t.
Proof.
  intros Hp H. apply Hp in H. apply every_Forall. eapply Forall_impl; [exact H|]. intros ev He b'. by apply watched_quiet.
Qed.

Lemma rollback_watched t r : d = rollback -> traces (rollback_canary org node stable canary) t r -> every (watched h) before t.
Proof using Horg Hcan Hj Hm Hr.
  intros Hd H. assert (Hw : d <> wait) by congruence. assert (Hp : d <> promote) by congruence. unfold rollback_canary in H.
  pose proof (restore_watched []) as Hrest. rewrite app_nil_r in Hrest.
  apply traces_bind in H as [(e & H & ->)|([] & t1 & t2 & -> & H1 & H)]; [by eapply Hrest|].
  apply every_app. split; [by eapply Hrest|].
  apply traces_bind in H as [(e & ->%traces_await & ->)|([] & t3 & t4 & -> & ->%traces_await & H)].
  - simpl. split; [by apply (remove_watched [])|done].
  - simpl. split; [by apply (remove_watched [])|]. eapply records_quiet; [|exact H]. clear. intros t r H.
    repeat trace_step; subst; repeat constructor.
Qed.

Lemma promote_watched t r : d = promote -> traces (promote_canary org node stable canary) t r -> every (watched h) before t.
Proof using Horg Hcan Hj Hm Hr.
  intros Hd H. assert (Hw : d <> wait) by congruence. unfold promote_canary in H.
  apply traces_bind in H as [(e & ->%traces_await & ->)|(raw & t1 & t2 & -> & ->%traces_await & H)]; [by split; [apply watched_quiet|]|].
  apply every_app. split; [by split; [apply watched_quiet|]|].
  destruct (w_promoteSpecFrom raw (sv_image canary) (sv_networks stable)) as [spec|] eqn:Es; [|by destruct H as [-> _]].
  set (look := [Event (ServiceInspect node (sv_name stable)) (inl raw)]) in *.
  assert (Hdep : forall a, watched h (before ++ look) (Event (ServiceDeploy node spec pull_always None) a)).
  { intros a c [= <-]. exists org, canary. split; [done..|]. exists stable, params, node, rates.
    split; [done|]. split; [done|]. split; [by apply seen_later|]. fold d. do 3 (split; [done|]). exists raw. split; [|done].
    apply elem_of_app. right. left. }
  apply traces_bind in H as [(e & ->%traces_await & ->)|([] & t3 & t4 & -> & ->%traces_await & H)]; [by split|].
  apply every_app. split; [by split|]. rewrite <- app_assoc.
  set (t0 := look ++ [Event (ServiceDeploy node spec pull_always None) (inl tt)]).
  apply traces_bind in H as [(e & H & ->)|([] & t5 & t6 & -> & H1 & H)]; [by eapply restore_watched|].
  apply every_app. split; [by eapply restore_watched|]. rewrite <- app_assoc.
  assert (Hrem : forall a, watched h (before ++ t0 ++ t5) (Event (ServiceRemove node (sv_name canary)) a)).
  { intros a. apply remove_watched; [done|done|]. intros _. exists raw, spec. split; [done|]. apply elem_of_app. right. left. }
  apply traces_bind in H as [(e & ->%traces_await & ->)|([] & t7 & t8 & -> & ->%traces_await & H)]; [by split|].
  apply every_app. split; [by split|]. eapply records_quiet; [|exact H]. clear. intros t r H. repeat trace_step; subst; repeat constructor.
Qed.
End judge.

Lemma judge_watched h org canary (rates : option (list RateRow)) before t r : org ∈ hb_orgs h -> canary ∈ canaries_of (hb_services h org) ->
  Event (OrgErrorRates org RED_WINDOW_MINUTES) (inl rates) ∈ before ->
  traces (judgeCanary org (hb_manager h org) (hb_services h org) canary (red_rates <$> rates) (hb_now h org canary)) t r ->
  every (watched h) before t.
Proof.
  intros Horg Hcan Hr. unfold judgeCanary. destruct (judged (hb_services h org) canary) as [[stable params]|] eqn:Ej; [|by intros [-> _]].
  destruct (hb_manager h org) as [node|] eqn:Em; [|by intros [-> _]].
  destruct (decision canary params (red_rates <$> rates) (hb_now h org canary)) eqn:Ed; [by intros [-> _]| |].
  - by eapply promote_watched.
  - by eapply rollback_watched.
Qed.

(** ** The whole tick *)

Lemma red_traces org t r : traces (redErrorRates org) t r <->
  exists a, t = [Event (OrgErrorRates org RED_WINDOW_MINUTES) a] /\
    r = match a with inl rows => inl (red_rates <$> (rows : option (list RateRow))) | inr e => inr e end.
Proof.
  unfold redErrorRates. rewrite traces_bind. setoid_rewrite traces_await. split.
  - intros [(e & -> & ->)|(rows & t1 & t2 & -> & -> & [-> ->])]; by eexists.
  - intros ([rows|e] & -> & ->); [right|left; by exists e]. by exists rows, [Event (OrgErrorRates org RED_WINDOW_MINUTES) (inl rows)], [].
Qed.

(** A turn of an organisation: its error rates, then every canary in order, each
    whatever happened to the others. *)
Lemma org_traces h org t r : traces (tick_org h org) t r ->
  (canaries_of (hb_services h org) = [] /\ t = [] /\ r = inl tt) \/
  (exists e, canaries_of (hb_services h org) <> [] /\ t = [Event (OrgErrorRates org RED_WINDOW_MINUTES) (inr e)] /\ r = inr e) \/
  (exists rows ts, t = Event (OrgErrorRates org RED_WINDOW_MINUTES) (inl rows) :: concat ts /\ r = inl tt /\
     Forall2 (fun canary t => exists r, traces (judgeCanary org (hb_manager h org) (hb_services h org) canary
        (red_rates <$> (rows : option (list RateRow))) (hb_now h org canary)) t r) (canaries_of (hb_services h org)) ts).
Proof.
  unfold tick_org. destruct (canaries_of (hb_services h org)) as [|c cs]; [intros [-> ->]; by left|]. intros H. right.
  apply traces_bind in H as [(e & (a & -> & Ea)%red_traces & ->)|(rates & t1 & t2 & -> & (a & -> & Ea)%red_traces & H)].
  - left. exists e. split; [done|]. destruct a; by simplify_eq.
  - right. destruct a as [rows|e]; [|done]. simplify_eq.
    apply traces_each in H as [-> (ts & -> & H)]; [|by intros x t0 r0 _ [? _]%traces_quietly]. exists rows, ts. split; [done|]. split; [done|].
    eapply Forall2_impl; [exact H|]. intros canary t0 Ht. apply traces_quietly in Ht as [_ Ht]. exact Ht.
Qed.

Lemma every_judged h org rows cs ts before : org ∈ hb_orgs h -> (forall c, c ∈ cs -> c ∈ canaries_of (hb_services h org)) ->
  Event (OrgErrorRates org RED_WINDOW_MINUTES) (inl rows) ∈ before ->
  Forall2 (fun canary t => exists r, traces (judgeCanary org (hb_manager h org) (hb_services h org) canary
        (red_rates <$> (rows : option (list RateRow))) (hb_now h org canary)) t r) cs ts -> every (watched h) before (concat ts).
Proof.
  intros Horg Hc Hr H. revert before Hr. induction H as [|c t cs ts [r Ht] _ IH]; intros before Hr; simpl; [done|]. apply every_app. split.
  - eapply judge_watched; [exact Horg|apply Hc; left|exact Hr|exact Ht].
  - apply IH; [intros c' Hc'; apply Hc; by right|]. apply elem_of_app. by left.
Qed.

Lemma org_watched h org before t r : org ∈ hb_orgs h -> traces (tick_org h org) t r -> every (watched h) before t.
Proof.
  intros Horg [(_ & -> & _)|[(e & _ & -> & _)|(rows & ts & -> & _ & H)]]%org_traces; [done|by split; [apply watched_quiet|]|].
  simpl. split; [by apply watched_quiet|]. eapply every_judged; [exact Horg| |apply elem_of_app; right; left|exact H]. done.
Qed.

(** The organisations before one whose error rates cannot be had are served. *)
Lemma orgs_watched h orgs before t r : (forall org, org ∈ orgs -> org ∈ hb_orgs h) -> traces (each (tick_org h) orgs) t r -> every (watched h) before t.
Proof.
  revert before t. induction orgs as [|org orgs IH]; intros before t Ho H; simpl in H; [by destruct H as [-> _]|].
  assert (Horg : org ∈ hb_orgs h) by (apply Ho; left).
  apply traces_bind in H as [(e & H & ->)|([] & t1 & t2 & -> & H1 & H2)]; [by eapply org_watched|].
  apply every_app. split; [by eapply org_watched|]. apply IH; [|done]. intros o Hin. apply Ho. by right.
Qed.

(** C7: Whatever Docker, the agents and the store answer, and wherever the worker is
    interrupted, every change a tick of the canary watcher makes is justified: it is
    made for a service with the canary label whose stable service and parameters are
    readable, under a decision taken from the error rates answered in this tick; the
    stable service is redeployed only to promote, from its own inspection on the
    canary's image; its label is only rewritten without the split; and a canary is
    removed only after the split was taken off the label and the edge asked to render
    it, and, when it is promoted, after the deploy of its image succeeded. *)
Theorem canary_tick_justified h t r : traces (canaryTick h) t r ->
  forall t1 ev t2 c, t = t1 ++ ev :: t2 -> change_of ev = Some c -> exists org canary, justified h org canary t1 c.
Proof.
  intros H t1 ev t2 c E. assert (Ho : forall org, org ∈ js_uniq (hb_orgs h) -> org ∈ hb_orgs h) by (intros org; by rewrite js_uniq_elem).
  pose proof (orgs_watched h _ [] t r Ho H) as Hw. exact (every_split _ [] t t1 ev t2 Hw E c).
Qed.

(** ** Every canary gets its turn *)

(** The canary was judged in [t], on the rates of its organisation. *)
Definition judged_in (h : Hub) (t : list (event effect)) (org : string) (canary : SwarmServiceInfo) : Prop :=
  exists t1 tj t2 rows rj, t = t1 ++ tj ++ t2 /\ Event (OrgErrorRates org RED_WINDOW_MINUTES) (inl rows) ∈ t1 /\
    traces (judgeCanary org (hb_manager h org) (hb_services h org) canary (red_rates <$> (rows : option (list RateRow))) (hb_now h org canary)) tj rj.

(** The tick stopped at an organisation with canaries, whose rates could not be had. *)
Definition stopped_at (h : Hub) (t : list (event effect)) (r : () + failure) (org : string) : Prop :=
  exists e t0, canaries_of (hb_services h org) <> [] /\ t = t0 ++ [Event (OrgErrorRates org RED_WINDOW_MINUTES) (inr e)] /\ r = inr e.

Lemma org_served h org t r : traces (tick_org h org) t r ->
  (r = inl tt /\ forall canary, canary ∈ canaries_of (hb_services h org) -> judged_in h t org canary) \/ stopped_at h t r org.
Proof.
  intros [(Ez & -> & ->)|[(e & Hne & -> & ->)|(rows & ts & -> & -> & Hts)]]%org_traces.
  - left. split; [done|]. rewrite Ez. by intros canary ?%elem_of_nil.
  - right. by exists e, [].
  - left. split; [done|]. intros canary Hc. apply list_elem_of_lookup in Hc as [i Hi].
    destruct (Forall2_lookup_l _ _ _ _ _ Hts Hi) as (tj & Hj & rj & Ht).
    exists (Event (OrgErrorRates org RED_WINDOW_MINUTES) (inl rows) :: concat (take i ts)), tj, (concat (drop (S i) ts)), rows, rj.
    split; [|split; [left|done]]. simpl. f_equal. rewrite <- (take_drop_middle ts i tj) at 1 by done. by rewrite concat_app.
Qed.

Lemma judged_in_app h t1 t t2 org canary : judged_in h t org canary -> judged_in h (t1 ++ t ++ t2) org canary.
Proof.
  intros (ta & tj & tb & rows & rj & -> & Hr & Ht). exists (t1 ++ ta), tj, (tb ++ t2), rows, rj.
  split; [by rewrite <- !app_assoc|]. split; [apply elem_of_app; by right|done].
Qed.

(** The organisations before the first that stops the tick have their turn. *)
Lemma orgs_served h orgs t r : traces (each (tick_org h) orgs) t r ->
  exists served rest, orgs = served ++ rest /\
    match rest with [] => r = inl tt | org :: _ => stopped_at h t r org end /\
    forall org canary, org ∈ served -> canary ∈ canaries_of (hb_services h org) -> judged_in h t org canary.
Proof.
  revert t. induction orgs as [|org orgs IH]; intros t H; simpl in H.
  { destruct H as [-> ->]. exists [], []. split; [done|]. split; [done|]. by intros org canary ?%elem_of_nil. }
  apply traces_bind in H as [(e & H & ->)|([] & t1 & t2 & -> & H1 & H2)].
  - apply org_served in H as [[? _]|H]; [done|]. exists [], (org :: orgs). split; [done|].
    split; [|by intros o canary ?%elem_of_nil]. by destruct H as (e' & t0 & H1 & H2 & [= ->]); exists e', t0.
  - apply org_served in H1 as [[_ Hs]|(e & t0 & _ & _ & ?)]; [|done]. destruct (IH _ H2) as (served & rest & -> & Hr & Hrest).
    exists (org :: served), rest. split; [done|]. split.
    + destruct rest as [|o rest]; [done|]. destruct Hr as (e & t0 & Hn & -> & ->). exists e, (t1 ++ t0). by rewrite <- app_assoc.
    + intros o canary [->|Ho]%elem_of_cons Hc; [by apply (judged_in_app h [] t1 t2), Hs|].
      specialize (Hrest _ _ Ho Hc). apply (judged_in_app h t1 t2 []) in Hrest. by rewrite app_nil_r in Hrest.
Qed.

(** The rates of one organisation that cannot be had end the tick for those after it. *)
Lemma failing_rates_stop h org orgs e : js_uniq (hb_orgs h) = org :: orgs -> canaries_of (hb_services h org) <> [] ->
  traces (canaryTick h) [Event (OrgErrorRates org RED_WINDOW_MINUTES) (inr e)] (inr e).
Proof.
  intros Eo Hc. unfold canaryTick. rewrite Eo. cbn [each]. apply traces_bind. left. exists e. split; [|done].
  unfold tick_org. destruct (canaries_of (hb_services h org)) as [|c cs]; [done|]. apply traces_bind. left. exists e. split; [|done].
  apply red_traces. exists (inr e). by split.
Qed.

Definition all_succeed (t : list (event effect)) : Prop := Forall (fun ev => succeeded ev = true) t.

Lemma succeed_bind {A} (p : program A) (f : A -> program ()) t r : traces (bind p f) t r -> all_succeed t ->
  (exists e, traces p t (inr e)) \/ exists a t1 t2, t = t1 ++ t2 /\ traces p t1 (inl a) /\ traces (f a) t2 r /\ all_succeed t1 /\ all_succeed t2.
Proof.
  intros [(e & H & ->)|(a & t1 & t2 & -> & H1 & H2)]%traces_bind Hs; [left; by exists e|right].
  apply Forall_app in Hs as [Hs1 Hs2]. by exists a, t1, t2.
Qed.

Lemma await_succeeds {X} (c : effect X) e t : traces (await c) t (inr e) -> all_succeed t -> False.
Proof. intros ->%traces_await Hs. by apply Forall_cons in Hs as [Hs _]. Qed.

Lemma restore_succeeds org node stable e t : traces (restoreStableRoutes org node stable) t (inr e) -> all_succeed t -> False.
Proof.
  intros [(_ & _ & ?)|(_ & a & [(e' & -> & _ & ->)|(_ & ? & _)])]%restore_traces Hs; [done| |done]. by apply Forall_cons in Hs as [Hs _].
Qed.

(** Removal and records, when the calls succeed. *)
Lemma retire_succeeds (q : program ()) node name t r : (forall t e, traces q t (inr e) -> all_succeed t -> False) ->
  traces (let* _ := await (ServiceRemove node name) in q) t r -> all_succeed t -> r = inl tt /\ Event (ServiceRemove node name) (inl tt) ∈ t.
Proof.
  intros Hq H Hs. destruct (succeed_bind _ _ _ _ H Hs) as [(e & He)|([] & t1 & t2 & -> & ->%traces_await & H2 & _ & Hs2)]; [by eapply await_succeeds in He|].
  split; [|apply elem_of_app; left; left]. destruct r as [[]|e]; [done|]. by eapply Hq in H2.
Qed.

Lemma audit_succeeds (c1 c2 : effect ()) t e : traces (let* _ := await c1 in await c2 : program ()) t (inr e) -> all_succeed t -> False.
Proof.
  intros H Hs. destruct (succeed_bind _ _ _ _ H Hs) as [(e' & He)|([] & t1 & t2 & -> & _ & H2 & _ & Hs2)]; by eapply await_succeeds.
Qed.

Lemma judge_completes h org canary rates stable params node t r :
  judged (hb_services h org) canary = Some (stable, params) -> hb_manager h org = Some node ->
  traces (judgeCanary org (hb_manager h org) (hb_services h org) canary rates (hb_now h org canary)) t r ->
  let d := decision canary params rates (hb_now h org canary) in
  (d = wait -> t = [] /\ r = inl tt) /\
  (d <> wait -> all_succeed t ->
   (d = promote -> forall raw, Event (ServiceInspect node (sv_name stable)) (inl raw) ∈ t ->
      is_Some (w_promoteSpecFrom raw (sv_image canary) (sv_networks stable))) ->
   r = inl tt /\ Event (ServiceRemove node (sv_name canary)) (inl tt) ∈ t).
Proof.
  intros Hj Hm. unfold judgeCanary. rewrite Hj, Hm. intros H. destruct (decision _ _ _ _); [split; [by destruct H as [-> ->]|done]|split; [done|]|split; [done|]].
  - intros _ Hs Hread. unfold promote_canary in H.
    destruct (succeed_bind _ _ _ _ H Hs) as [(e & He)|(raw & t1 & t2 & -> & ->%traces_await & H2 & _ & Hs2)]; [by eapply await_succeeds in He|].
    destruct (Hread eq_refl raw) as [spec Es]; [left|]. rewrite Es in H2.
    destruct (succeed_bind _ _ _ _ H2 Hs2) as [(e & He)|([] & t3 & t4 & -> & ->%traces_await & H4 & _ & Hs4)]; [by eapply await_succeeds in He|].
    destruct (succeed_bind _ _ _ _ H4 Hs4) as [(e & He)|([] & t5 & t6 & -> & _ & H6 & _ & Hs6)]; [by eapply restore_succeeds in He|].
    eapply retire_succeeds in H6 as [-> Hin]; [|by intros t e; apply audit_succeeds|done]. split; [done|]. rewrite !elem_of_app. auto.
  - intros _ Hs _. unfold rollback_canary in H.
    destruct (succeed_bind _ _ _ _ H Hs) as [(e & He)|([] & t1 & t2 & -> & _ & H2 & _ & Hs2)]; [by eapply restore_succeeds in He|].
    eapply retire_succeeds in H2 as [-> Hin]; [|clear|done].
    + split; [done|]. rewrite !elem_of_app. auto.
    + intros t e H Hs. destruct (succeed_bind _ _ _ _ H Hs) as [(e' & He)|([] & t1 & t2 & -> & _ & H2 & _ & Hs2)]; [by eapply await_succeeds|].
      by eapply audit_succeeds.
Qed.

(** C28: the organisations are served in turn until the error rates of one that has a
    canary cannot be had, which ends the tick with that failure; without one the tick
    ends well.  Every canary of an organisation before it is judged on the rates of its
    organisation, whatever went wrong with the other canaries, and one that is decided
    on whose calls all succeed, with an inspection that can be read when it is promoted,
    is removed.  The organisations after the failing one get no turn
    ([failing_rates_stop]). *)
Theorem canary_tick_serves h t r : traces (canaryTick h) t r ->
  exists served rest, js_uniq (hb_orgs h) = served ++ rest /\
  match rest with [] => r = inl tt | org :: _ => stopped_at h t r org end /\
  forall org canary stable params node, org ∈ served -> canary ∈ canaries_of (hb_services h org) ->
    judged (hb_services h org) canary = Some (stable, params) -> hb_manager h org = Some node ->
    exists t1 tj t2 rows, t = t1 ++ tj ++ t2 /\ Event (OrgErrorRates org RED_WINDOW_MINUTES) (inl rows) ∈ t1 /\
      let d := decision canary params (red_rates <$> (rows : option (list RateRow))) (hb_now h org canary) in
      (d = wait -> tj = []) /\
      (d <> wait -> all_succeed tj ->
       (d = promote -> forall raw, Event (ServiceInspect node (sv_name stable)) (inl raw) ∈ tj ->
          is_Some (w_promoteSpecFrom raw (sv_image canary) (sv_networks stable))) ->
       Event (ServiceRemove node (sv_name canary)) (inl tt) ∈ tj).
Proof.
  intros H. destruct (orgs_served h _ t r H) as (served & rest & E & Hr & Hs). exists served, rest. split; [done|]. split; [done|].
  intros org canary stable params node Ho Hc Hj Hm. destruct (Hs org canary Ho Hc) as (t1 & tj & t2 & rows & rj & -> & Hrows & Ht).
  exists t1, tj, t2, rows. split; [done|]. split; [done|]. destruct (judge_completes _ _ _ _ _ _ _ _ _ Hj Hm Ht) as [H1 H2].
  split; [by intros [-> _]%H1|]. intros Hd Ha Hread. by apply H2.
Qed.

(** * Ending a canary from the console *)

Section ending.
Context (re2 : string -> bool) (all : list InvService) (m : option string).

Definition unsplit (next : list attrs) : Prop := Forall (fun r => get "canary" r = None) next.

Lemma validated_unsplit at_ input r : get "canary" input = None -> validateRoute re2 at_ input = Ok r -> get "canary" r = None.
Proof.
  intros Hc. unfold validateRoute. destruct (get "host" input) as [[| | |h| |]|]; try done. destruct (String.eqb (trim h) ""); [done|].
  destruct (get "port" input ≫= _) as [port|]; [|done]. rewrite Hc. cbn [validCanary mbind option_bind res_bind].
  intros (protection & _ & (www & _ & H)%res_bind_Ok)%res_bind_Ok.
  assert (E : forall x y : attrs, Ok x = Ok y -> x = y) by congruence. apply E in H as <-. rewrite get_fields by reflexivity. reflexivity.
Qed.

Lemma next_unsplit labels rs clean : Forall (fun r => get "canary" r = None) rs -> validateRoutes re2 0 rs = Ok clean ->
  unsplit (next_routes re2 labels rs clean).
Proof.
  intros Hrs Hv. assert (Hc : Forall (fun r => get "canary" r = None) clean).
  { revert clean Hv. generalize 0. induction Hrs as [|r rs Hr _ IH]; intros i clean; simpl; [intros [= <-]; constructor|].
    intros (c & Ec & (cs & Ecs & [= <-])%res_bind_Ok)%res_bind_Ok. constructor; [by eapply validated_unsplit|by eapply IH]. }
  unfold unsplit, next_routes. cbv zeta. set (live := foldl by_key [] (readRoutes re2 labels)). clearbody live.
  assert (Hs : Forall (fun kv => get "canary" (snd kv) = None) (foldl by_key [] clean)) by (by apply (by_key_snd clean [] (fun r => get "canary" r = None))).
  clear Hv Hc. revert Hs. generalize (foldl by_key [] clean). clear Hrs. induction rs as [|r rs IH]; intros seen Hs; simpl.
  - apply Forall_forall. intros x ([k y] & -> & Hin)%list_elem_of_fmap. rewrite Forall_forall in Hs. by apply (Hs _ Hin).
  - apply IH. unfold carry_access. destruct (get "access" r); [done|]. set (key := route_key _ _). destruct (get key seen) as [c|] eqn:Ec; [|done].
    destruct (get key live ≫= get "access") as [a|]; [|done]. apply get_elem in Ec. rewrite Forall_forall in Hs.
    apply Forall_forall. intros x [->|Hx]%obj_set_elem; [|by apply Hs]. cbn [snd]. rewrite get_obj_set. by apply (Hs _ Ec).
Qed.

Lemma set_routes_done id routes t next : traces (setServiceRoutes re2 all m id routes) t (inl next) ->
  exists service node clean, resolveLiveService all id = Some service /\ m = Some node /\ validateRoutes re2 0 routes = Ok clean /\
    next = next_routes re2 (iv_labels service) routes clean /\ Event (label_write node (iv_name service) next) (inl tt) ∈ t.
Proof.
  intros [[_ [e He]]|(service & clean & Hs & Hv & a & t' & -> & H)]%set_routes_traces; [done|].
  destruct H as [[_ [e He]]|(node & b & t'' & -> & _ & -> & H)]; [done|]. exists service, node, clean. do 3 (split; [done|]).
  destruct H as [(e & _ & _ & He)|(-> & c & _ & Hr)]; [done|]. destruct c; [|done]. injection Hr as ->. split; [done|]. right. left.
Qed.

Definition taken_off (stable : InvService) (t : list (event effect)) : Prop :=
  existsb has_canary (readRoutes re2 (iv_labels stable)) = true ->
  exists service node next, resolveLiveService all (iv_id stable) = Some service /\ unsplit next /\
    Event (label_write node (iv_name service) next) (inl tt) ∈ t.

Definition ended (stable canary : InvService) (before : list (event effect)) (ev : event effect) : Prop :=
  forall n s, change_of ev = Some (Removed n s) -> s = iv_name canary /\ taken_off stable before.

Lemma never_removes p (stable canary : InvService) before (t : list (event effect)) r : traces p t r ->
  (forall t r, traces (A := ()) p t r -> Forall (fun ev => forall n s, change_of ev <> Some (Removed n s)) t) -> every (ended stable canary) before t.
Proof.
  intros H Hp. apply Hp in H. apply every_Forall. eapply Forall_impl; [exact H|]. intros ev He b n s Hc. by apply He in Hc.
Qed.

Lemma write_removes_nothing id routes t r : traces (let* _ := setServiceRoutes re2 all m id routes in Ret tt : program ()) t r ->
  Forall (fun ev => forall n s, change_of ev <> Some (Removed n s)) t.
Proof.
  intros H. assert (Hs : exists r', traces (setServiceRoutes re2 all m id routes) t r').
  { apply traces_bind in H as [(e & H & _)|(a & t1 & t2 & -> & H & [-> _])]; [by eexists|]. rewrite app_nil_r. by eexists. }
  destruct Hs as [r' [[-> _]|(service & clean & _ & _ & a & t' & -> & H')]%set_routes_traces]; [constructor|].
  constructor; [done|]. destruct H' as [[-> _]|(node & b & t'' & _ & _ & -> & H')]; [constructor|].
  constructor; [intros n s; unfold change_of; cbn [ev_call]; unfold label_write; by case_match|].
  destruct H' as [(e & _ & -> & _)|(_ & c & [[_ ->]|(d & _ & ->)] & _)]; repeat constructor; done.
Qed.

Lemma retire_ended node stable canary before t r : traces (retire re2 all m node stable canary) t r -> every (ended stable canary) before t.
Proof.
  unfold retire. set (routes := readRoutes re2 (iv_labels stable)). intros H.
  set (q := if existsb has_canary routes then _ else _) in H.
  assert (Hq : forall t r, traces q t r -> Forall (fun ev => forall n s, change_of ev <> Some (Removed n s)) t).
  { intros t' r'. unfold q. destruct (existsb has_canary routes); [apply write_removes_nothing|]. intros [-> _]. constructor. }
  assert (Hoff : forall t, traces q t (inl tt) -> taken_off stable t).
  { intros t' Ht' Hs. unfold q in Ht'. fold routes in Hs. rewrite Hs in Ht'.
    apply traces_bind in Ht' as [(e & _ & ?)|(next & t1 & t2 & -> & H1 & [-> _])]; [done|]. rewrite app_nil_r.
    apply set_routes_done in H1 as (service & node' & clean & Hres & _ & Hv & -> & Hin). exists service, node', (next_routes re2 (iv_labels service) (routesWithoutCanary routes) clean).
    split; [done|]. split; [|done]. apply next_unsplit; [|done]. apply Forall_forall. intros r0 (r1 & -> & _)%list_elem_of_fmap.
    by rewrite get_obj_del. }
  apply traces_bind in H as [(e & H & ->)|([] & t1 & t2 & -> & H1 & ->%traces_await)].
  - by eapply never_removes.
  - apply every_app. split; [by eapply never_removes|]. simpl. split; [|done]. intros n s [= <- <-]. split; [done|].
    intros Hs. destruct (Hoff _ H1 Hs) as (service & node' & next & Hr & Hu & Hin). exists service, node', next. do 2 (split; [done|]).
    apply elem_of_app. by right.
Qed.

Lemma mapped_trace (p : program ()) t r : traces (catch p (fun e => Throw (mapDispatchError e))) t r -> exists r', traces p t r'.
Proof.
  intros [(a & H & ->)|(e & t1 & t2 & -> & H & [-> _])]%traces_catch; [by eexists|]. rewrite app_nil_r. by eexists.
Qed.

Lemma settled_trace {A} (x : A + failure) t r : traces (settled_on x : program A) t r <-> t = [] /\ r = x.
Proof. by destruct x. Qed.

Lemma canary_found stable canary : List.find (is_canary_of stable) all = Some canary -> canary ∈ all /\ is_canary_of stable canary = true.
Proof. intros H%find_some. by rewrite list_elem_of_In. Qed.

(** The shape the two share: the stable service and its canary are found, a manager
    is there, then the body runs, and the record is written. *)
Lemma ended_by (body : string -> InvService -> InvService -> program ()) action stack service t r :
  (forall node stable canary before t r, traces (body node stable canary) t r -> every (ended stable canary) before t) ->
  traces (let* stable := settled_on (requireStableService all stack service) in
    let* canary := canary_in all stable in
    let* node := manager_or_throw m in
    do* catch (body node stable canary) (fun e => Throw (mapDispatchError e)) in
    await (WriteAudit action (iv_name stable))) t r ->
  t = [] \/ exists stable canary, requireStableService all stack service = inl stable /\ canary ∈ all /\ is_canary_of stable canary = true /\
    every (ended stable canary) [] t.
Proof.
  intros Hb H. apply traces_bind in H as [(e & [-> _]%settled_trace & ->)|(stable & t1 & t2 & -> & [-> Es]%settled_trace & H)]; [by left|].
  unfold canary_in in H. apply traces_bind in H as [(e & [-> _]%settled_trace & ->)|(canary & t3 & t4 & -> & [-> Ec]%settled_trace & H)]; [by left|].
  destruct (List.find (is_canary_of stable) all) as [c|] eqn:Ef; [|done]. injection Ec as ->. apply canary_found in Ef as [Hin His].
  unfold manager_or_throw in H. apply traces_bind in H as [(e & [-> _]%settled_trace & ->)|(node & t5 & t6 & -> & [-> _]%settled_trace & H)]; [by left|].
  right. exists stable, c. split; [done|]. split; [done|]. split; [done|]. cbn [app].
  apply traces_bind in H as [(e & [r' H]%mapped_trace & ->)|([] & t7 & t8 & -> & [r' H]%mapped_trace & ->%traces_await)]; [by eapply Hb|].
  apply every_app. split; [by eapply Hb|]. simpl. split; [|done]. by intros n s.
Qed.

Lemma promote_ended node stable canary before t r :
  traces (let* raw := await (ServiceInspect node (iv_name stable)) in
     match promoteSpecFrom raw (iv_image canary) (iv_networks stable) with
     | None => Throw (Typed COMMAND_REJECTED)
     | Some spec => do* await (ServiceDeploy node spec pull_always None) in retire re2 all m node stable canary
     end) t r -> every (ended stable canary) before t.
Proof.
  intros [(e & ->%traces_await & ->)|(raw & t1 & t2 & -> & ->%traces_await & H)]%traces_bind; [by split|]. apply every_app. split; [by split|].
  destruct (promoteSpecFrom _ _ _) as [spec|]; [|by destruct H as [-> _]].
  apply traces_bind in H as [(e & ->%traces_await & ->)|([] & t3 & t4 & -> & ->%traces_await & H)]; [by split|].
  apply every_app. split; [by split|]. by eapply retire_ended.
Qed.

(** Ended from the console, by promotion or by abort, a canary is removed only
    after the split was taken off: the one service such a call removes is the canary
    of the stable service it found, and before the removal, when the routes of the
    stable service carry a split, a write of routes of which none carries one
    succeeded. *)
Theorem console_canary_ending stack service t r :
  traces (promoteCanary re2 all m stack service) t r \/ traces (abortCanary re2 all m stack service) t r ->
  forall t1 ev t2 n s, t = t1 ++ ev :: t2 -> change_of ev = Some (Removed n s) ->
  exists stable canary, requireStableService all stack service = inl stable /\ canary ∈ all /\ is_canary_of stable canary = true /\
    s = iv_name canary /\ taken_off stable t1.
Proof.
  intros H t1 ev t2 n s Et Hc.
  assert (Hs : t = [] \/ exists stable canary, requireStableService all stack service = inl stable /\ canary ∈ all /\ is_canary_of stable canary = true /\
    every (ended stable canary) [] t).
  { destruct H as [H|H].
    - eapply (ended_by (fun node stable canary => _) "release.canary.promote"); [|exact H]. intros node stable canary before t' r'. apply promote_ended.
    - eapply (ended_by (fun node stable canary => retire re2 all m node stable canary) "release.canary.abort"); [|exact H].
      intros node stable canary before t' r'. apply retire_ended. }
  destruct Hs as [->|(stable & canary & H1 & H2 & H3 & H4)]; [by destruct t1|]. exists stable, canary. do 3 (split; [done|]).
  exact (every_split _ [] t t1 ev t2 H4 Et n s Hc).
Qed.
End ending.

(** * Starting a canary *)

Section starting.
Context (re2 : string -> bool) (all : list InvService) (m : option string) (req : CanaryRequest) (startedAt : string).

Definition stable_ref (stable : InvService) : LiveServiceRef :=
  {| lr_name := iv_name stable; lr_image := Some (iv_image stable); lr_networks := iv_networks stable |}.

Definition started_spec (stable : InvService) (live : ServiceSpec) : ServiceSpec :=
  canarySpecFor live stable (cr_image req) (json_stringify (params_value req (iv_image stable) startedAt)).

Record starts (stable : InvService) (node : string) (live : ServiceSpec) (before : list (event effect)) : Prop := {
  sr_stable : requireStableService all (cr_stack req) (cr_service req) = inl stable;
  sr_alone : forall s, s ∈ all -> is_canary_of stable s = false /\ iv_name s <> canaryNameFor (iv_name stable);
  sr_image : cr_image req <> iv_image stable;
  sr_node : m = Some node;
  sr_live : exists raw, Event (ServiceInspect node (iv_name stable)) (inl raw) ∈ before /\ live_read (stable_ref stable) raw = Some live;
  sr_admitted : exists vs, Event (EvaluateAdmission (started_spec stable live)) (inl vs) ∈ before /\ existsb id vs = false
}.

Lemma starts_later stable node live before t : starts stable node live before -> starts stable node live (before ++ t).
Proof.
  intros [H1 H2 H3 H4 (raw & H5 & H6) (vs & H7 & H8)]. split; try done; eexists; (split; [apply elem_of_app; left|]; eassumption).
Qed.

(** The deploy of the sibling, or the labels of the stable service once it stands. *)
Definition start_change (before : list (event effect)) (ev : event effect) : Prop := forall c, change_of ev = Some c ->
  exists stable node live, starts stable node live before /\
  match c with
  | Deployed n spec pull => n = node /\ pull = pull_always /\ spec = started_spec stable live
  | Labelled n s add rm => n = node /\ Event (ServiceDeploy node (started_spec stable live) pull_always None) (inl tt) ∈ before /\
      exists service clean, resolveLiveService all (iv_id stable) = Some service /\ s = iv_name service /\
        let routes := routesWithCanary (readRoutes re2 (iv_labels stable)) (canaryNameFor (iv_name stable)) (cr_trafficPct req) in
        validateRoutes re2 0 routes = Ok clean /\
        c = match changed (label_write node (iv_name service) (next_routes re2 (iv_labels service) routes clean)) with Some w => w | None => c end
  | Removed _ _ => False
  end.

Lemma stamp_changes stable node live before t r : starts stable node live before ->
  Event (ServiceDeploy node (started_spec stable live) pull_always None) (inl tt) ∈ before ->
  traces (let* _ := setServiceRoutes re2 all m (iv_id stable)
    (routesWithCanary (readRoutes re2 (iv_labels stable)) (canaryNameFor (iv_name stable)) (cr_trafficPct req)) in Ret tt : program ()) t r ->
  every start_change before t.
Proof.
  intros Hst Hdep H. assert (Hs : exists r', traces (setServiceRoutes re2 all m (iv_id stable)
    (routesWithCanary (readRoutes re2 (iv_labels stable)) (canaryNameFor (iv_name stable)) (cr_trafficPct req))) t r').
  { apply traces_bind in H as [(e & H & _)|(a & t1 & t2 & -> & H & [-> _])]; [by eexists|]. rewrite app_nil_r. by eexists. }
  destruct Hs as [r' [[-> _]|(service & clean & Hr & Hv & a & t' & -> & H')]%set_routes_traces]; [done|].
  simpl. split; [by intros c|]. set (reg := Event _ a).
  destruct H' as [[-> _]|(node' & b & t'' & Hm & _ & -> & H')]; [done|]. simpl. split.
  - intros c Hc. exists stable, node, live. split; [by apply starts_later|]. pose proof (sr_node _ _ _ _ Hst) as Hm'. rewrite Hm in Hm'. injection Hm' as <-.
    assert (Hc' : changed (label_write node' (iv_name service) (next_routes re2 (iv_labels service)
      (routesWithCanary (readRoutes re2 (iv_labels stable)) (canaryNameFor (iv_name stable)) (cr_trafficPct req)) clean)) = Some c) by exact Hc.
    assert (Hl : exists add rm, c = Labelled node' (iv_name service) add rm).
    { unfold label_write in Hc'. destruct (next_routes _ _ _ _); injection Hc' as <-; by eexists _, _. }
    destruct Hl as (add & rm & ->). split; [done|]. split; [apply elem_of_app; by left|]. exists service, clean. do 2 (split; [done|]).
    cbv zeta. split; [done|]. by rewrite Hc'.
  - destruct H' as [(e & _ & -> & _)|(_ & c & [[_ ->]|(d & _ & ->)] & _)]; simpl; repeat split; by intros c'.
Qed.

(** StartCanary changes nothing unless every guard holds: the stable service is
    found, is no canary and has none, in label or in name, the image differs, its live
    specification was read, and admission blocked nothing; then it deploys the sibling
    cut from that specification with the parameters on its label, and only after that
    deploy succeeded does it write the split on the routes of the stable service; it
    removes nothing. *)
Theorem canary_start_guarded t r : traces (startCanary re2 all m req startedAt) t r ->
  forall t1 ev t2, t = t1 ++ ev :: t2 -> start_change t1 ev.
Proof.
  intros H t1 ev t2 Et. cut (every start_change [] t); [intros He; exact (every_split _ [] t t1 ev t2 He Et)|]. clear t1 ev t2 Et.
  unfold startCanary in H. apply traces_bind in H as [(e & [-> _]%settled_trace & ->)|(stable & t1 & t2 & -> & [-> Es]%settled_trace & H)]; [done|].
  cbn [app]. cbv zeta in H. destruct (existsb _ all) eqn:Ea; [by destruct H as [-> _]|].
  destruct (String.eqb_spec (cr_image req) (iv_image stable)) as [|Hi]; [by destruct H as [-> _]|].
  unfold manager_or_throw in H. apply traces_bind in H as [(e & [-> _]%settled_trace & ->)|(node & t3 & t4 & -> & [-> En]%settled_trace & H)]; [done|].
  assert (Hm : m = Some node) by (destruct m; [congruence|done]). cbn [app].
  apply traces_bind in H as [(e & (a & -> & _)%live_traces & ->)|(live & t5 & t6 & -> & (a & -> & El)%live_traces & H)]; [by split; [intros c|]|].
  destruct a as [raw|e]; [|done]. destruct (live_read _ raw) as [l|] eqn:Hl; [|done]. injection El as ->.
  apply every_app. split; [by split; [intros c|]|]. cbn [app].
  set (look := Event (ServiceInspect node (lr_name _)) (inl raw)). fold (started_spec stable l) in H.
  apply traces_bind in H as [(e & ->%traces_await & ->)|(vs & t7 & t8 & -> & ->%traces_await & H)]; [by split; [intros c|]|].
  apply every_app. split; [by split; [intros c|]|]. cbn [app].
  destruct (existsb id vs) eqn:Ev; [by destruct H as [-> _]|].
  assert (Hst : starts stable node l [look; Event (EvaluateAdmission (started_spec stable l)) (inl vs)]).
  { split; try done.
    - intros s Hs. split.
      + apply not_true_is_false. intros Hc. rewrite <- not_true_iff_false, existsb_exists in Ea. apply Ea. exists s.
        split; [by apply list_elem_of_In|]. by rewrite Hc.
      + intros Hc. rewrite <- not_true_iff_false, existsb_exists in Ea. apply Ea. exists s.
        split; [by apply list_elem_of_In|]. by rewrite Hc, String.eqb_refl, orb_true_r.
    - exists raw. split; [left|exact Hl].
    - exists vs. split; [right; left|done]. }
  set (before := [look; _]) in *. clearbody before look.
  assert (Hdep : forall a, start_change before (Event (ServiceDeploy node (started_spec stable l) pull_always None) a)).
  { intros a c [= <-]. by exists stable, node, l. }
  apply traces_bind in H as [(e & (a & -> & _)%traces_mapped & ->)|([] & t9 & t10 & -> & (a & -> & Eo)%traces_mapped & H)]; [by split|].
  destruct a as [[]|]; [|done]. apply every_app. split; [by split|].
  apply (starts_later _ _ _ _ [Event (ServiceDeploy node (started_spec stable l) pull_always None) (inl tt)]) in Hst.
  set (b2 := before ++ _) in *. assert (Hin : Event (ServiceDeploy node (started_spec stable l) pull_always None) (inl tt) ∈ b2)
    by (apply elem_of_app; right; left). clearbody b2.
  set (q := match readRoutes re2 (iv_labels stable) with [] => _ | _ => _ end) in H.
  assert (Hq : forall t r, traces q t r -> every start_change b2 t).
  { intros t' r'. unfold q. pose proof (fun t r => stamp_changes stable node l b2 t r Hst Hin) as Hs. revert Hs.
    destruct (readRoutes re2 (iv_labels stable)); [by intros _ [-> _]|]. intros Hs. apply Hs. }
  apply traces_bind in H as [(e & H & ->)|([] & t11 & t12 & -> & H & ->%traces_await)]; [by eapply Hq|].
  apply every_app. split; [by eapply Hq|]. simpl. split; [by intros c|done].
Qed.
End starting.
End canary.

(** * Examples *)

Definition epoch (s : string) : option Z := if String.eqb s "2026-01-01T00:00:00.000Z" then Some 0 else None.

Definition shop_request : CanaryRequest :=
  {| cr_stack := "shop"; cr_service := "web"; cr_image := "web:2"; cr_trafficPct := 10; cr_durationMin := 15;
     cr_rollbackOnErrorRatePct := Some "2.5" |}.

Definition shop_params : string := json_stringify (params_value shop_request "web:1" "2026-01-01T00:00:00.000Z").

Lemma canary_params_roundtrip_witness :
  exists p, parseCanaryParams epoch (get CANARY_PARAMS_LABEL [(CANARY_PARAMS_LABEL, shop_params)]) = Some p /\
    cp_trafficPct p = num 10 /\ cp_rollbackOnErrorRatePct p = Some (Num 5 (-1)).
Proof.
  eexists. split; [|split].
  - apply (canary_params_roundtrip epoch shop_request "web:1" "2026-01-01T00:00:00.000Z"); [done|done|done|by eexists| |reflexivity].
    intros s [= <-]. by vm_compute.
  - reflexivity.
  - vm_compute. reflexivity.
Defined.

Definition web_route : RouteParts :=
  {| rt_host := "shop.example.com"; rt_port := VNum "8080"; rt_tls := "auto"; rt_path := None; rt_strip := None; rt_middlewares := None;
     rt_driver := None; rt_canary := None; rt_protection := None; rt_www := Some "serve-both"; rt_login := true |}.

Lemma web_typed : Forall (typed any_pattern) [web_route].
Proof.
  constructor; [|constructor]. split; try done.
  - split; [done|]. exists "8080", (num 8080), 8080. split; [done|]. split; [by vm_compute|]. split; [by vm_compute|lia].
  - left.
  - intros w [= <-]. split; [right; right; left|done].
Qed.

Definition web_labels : entries := [(INGRESS_ROUTES_LABEL, serializeRoutes (map route_of [web_route]))].

(** The route that opted out of real-user monitoring. *)
Definition quiet_labels : entries := [(INGRESS_ROUTES_LABEL, serializeRoutes (map raw [(Some "off", web_route)]))].


(** A stable service whose only route sends a tenth of its traffic to a canary with
    no task running. *)
Definition web_stable : SwarmServiceInfo :=
  {| sv_name := "shop_web"; sv_image := "web:1"; sv_networks := ["shop_default"]; sv_desired := Some 2; sv_running := 2; sv_secrets := []; sv_updateStatus := None; sv_updatedAt := 0;
     sv_labels := [(STACK_LABEL, "shop");
                   (INGRESS_ROUTES_LABEL, serializeRoutes (routesWithCanary (map route_of [web_route]) "shop_web--canary" 10))] |}.

Definition web_canary : SwarmServiceInfo :=
  {| sv_name := "shop_web--canary"; sv_image := "web:2"; sv_networks := ["shop_default"]; sv_desired := Some 1; sv_running := 0; sv_secrets := []; sv_updateStatus := None; sv_updatedAt := 0;
     sv_labels := [(STACK_LABEL, "shop"); (CANARY_OF_LABEL, "shop_web"); (CANARY_PARAMS_LABEL, shop_params)] |}.

Definition web_hub : Hub :=
  {| hb_orgs := ["o1"; "o1"]; hb_services := fun _ => [web_stable; web_canary]; hb_manager := fun _ => Some "m1"; hb_now := fun _ _ => 180000 |}.

(** Everything succeeds but the rendering of the edge. *)
Definition edge_down : nat -> forall X, effect X -> X + failure := fun n X c =>
  match c in effect X return X + failure with
  | ReapplyIngress _ => inr (Failed "edge unreachable")
  | c => yes n _ c
  end.

Definition web_removal : event effect := Event (ServiceRemove "m1" "shop_web--canary") (inl tt).

(** The calls of the tick. *)
Lemma web_tick : exists before after, fst (run edge_down 0 (canaryTick epoch web_hub)) = before ++ web_removal :: after /\
  snd (run edge_down 0 (canaryTick epoch web_hub)) = inl tt /\
  length before = 3%nat /\ length after = 3%nat.
Proof.
  exists (firstn 3 (fst (run edge_down 0 (canaryTick epoch web_hub)))), (skipn 4 (fst (run edge_down 0 (canaryTick epoch web_hub)))).
  split; [vm_compute; reflexivity|]. split; [vm_compute; reflexivity|]. split; vm_compute; reflexivity.
Qed.

Lemma canary_tick_justified_witness : exists before org canary, justified epoch web_hub org canary before (Removed "m1" "shop_web--canary").
Proof.
  destruct web_tick as (before & after & E & _). exists before.
  exact (canary_tick_justified epoch web_hub _ _ (run_traces edge_down 0 (canaryTick epoch web_hub)) before web_removal after _ E eq_refl).
Defined.

Lemma canary_tick_serves_witness : exists served rest,
  js_uniq (hb_orgs web_hub) = served ++ rest /\
  match rest with [] => snd (run edge_down 0 (canaryTick epoch web_hub)) = inl tt
  | org :: _ => stopped_at web_hub (fst (run edge_down 0 (canaryTick epoch web_hub))) (snd (run edge_down 0 (canaryTick epoch web_hub))) org end /\
  snd (run edge_down 0 (canaryTick epoch web_hub)) = inl tt.
Proof.
  destruct (canary_tick_serves epoch web_hub _ _ (run_traces edge_down 0 (canaryTick epoch web_hub))) as (served & rest & E & Hr & _).
  exists served, rest. split; [exact E|]. split; [exact Hr|]. vm_compute. reflexivity.
Defined.

(** The watcher removes a canary although the edge was not rendered: requests are
    still sent to it. *)
Lemma removed_under_traffic : exists t1 t2 e, splits web_stable = true /\
  traces (rollback_canary "o1" "m1" web_stable web_canary) (t1 ++ Event (ReapplyIngress "o1") (inr e) :: web_removal :: t2) (inl tt).
Proof.
  pose proof (run_traces edge_down 0 (rollback_canary "o1" "m1" web_stable web_canary)) as H.
  exists (firstn 1 (fst (run edge_down 0 (rollback_canary "o1" "m1" web_stable web_canary)))),
    (skipn 3 (fst (run edge_down 0 (rollback_canary "o1" "m1" web_stable web_canary)))), (Failed "edge unreachable").
  split; [by vm_compute|].
  assert (E : fst (run edge_down 0 (rollback_canary "o1" "m1" web_stable web_canary)) =
    firstn 1 (fst (run edge_down 0 (rollback_canary "o1" "m1" web_stable web_canary))) ++
      Event (ReapplyIngress "o1") (inr (Failed "edge unreachable")) :: web_removal ::
      skipn 3 (fst (run edge_down 0 (rollback_canary "o1" "m1" web_stable web_canary)))) by (vm_compute; reflexivity).
  assert (Er : snd (run edge_down 0 (rollback_canary "o1" "m1" web_stable web_canary)) = inl tt) by (vm_compute; reflexivity).
  rewrite <- E, <- Er. exact H.
Qed.

(** The same from the console. *)
Definition inv_stable : InvService :=
  {| iv_id := "s1"; iv_name := "shop_web"; iv_stack := "shop"; iv_image := "web:1"; iv_networks := ["shop_default"]; iv_secrets := [];
     iv_labels := sv_labels web_stable |}.

Definition inv_canary : InvService :=
  {| iv_id := "c1"; iv_name := "shop_web--canary"; iv_stack := "shop"; iv_image := "web:2"; iv_networks := ["shop_default"]; iv_secrets := [];
     iv_labels := sv_labels web_canary |}.

Definition inv_before : InvService :=
  {| iv_id := "s1"; iv_name := "shop_web"; iv_stack := "shop"; iv_image := "web:1"; iv_networks := ["shop_default"]; iv_secrets := []; iv_labels := web_labels |}.

Abbreviation web_abort := (abortCanary any_pattern [inv_stable; inv_canary] (Some "m1") "shop" "web").

Lemma web_abort_run : exists before after, fst (run yes 0 web_abort) = before ++ web_removal :: after.
Proof. exists (firstn 4 (fst (run yes 0 web_abort))), (skipn 5 (fst (run yes 0 web_abort))). vm_compute. reflexivity. Qed.

Lemma console_canary_ending_witness : exists before stable, taken_off any_pattern [inv_stable; inv_canary] stable before /\
  requireStableService [inv_stable; inv_canary] "shop" "web" = inl stable.
Proof.
  destruct web_abort_run as (before & after & E).
  destruct (console_canary_ending any_pattern [inv_stable; inv_canary] (Some "m1") "shop" "web" _ _ (or_intror (run_traces yes 0 web_abort))
    before web_removal after "m1" "shop_web--canary" E eq_refl) as (stable & _ & Hs & _ & _ & _ & Ht).
  exact (ex_intro _ before (ex_intro _ stable (conj Ht Hs))).
Defined.

Definition with_api : nat -> forall X, effect X -> X + failure := fun n X c =>
  match c in effect X return X + failure with
  | ServiceInspect _ _ => inl (inspected api_body)
  | c => yes n _ c
  end.

Abbreviation web_start := (startCanary any_pattern [inv_before] (Some "m1") shop_request "2026-01-01T00:00:00.000Z").

Definition web_live : ServiceSpec :=
  match live_read (stable_ref inv_before) (inspected api_body) with Some s => s | None => api_spec end.

Definition web_deploy : event effect :=
  Event (ServiceDeploy "m1" (started_spec shop_request "2026-01-01T00:00:00.000Z" inv_before web_live) pull_always None) (inl tt).

Lemma web_start_run : exists before after, fst (run with_api 0 web_start) = before ++ web_deploy :: after /\ length after = 5%nat.
Proof.
  exists (firstn 2 (fst (run with_api 0 web_start))), (skipn 3 (fst (run with_api 0 web_start))).
  split; vm_compute; reflexivity.
Qed.

Lemma canary_start_guarded_witness : exists before,
  start_change any_pattern [inv_before] (Some "m1") shop_request "2026-01-01T00:00:00.000Z" before web_deploy.
Proof.
  destruct web_start_run as (before & after & E & _). exists before.
  exact (canary_start_guarded any_pattern [inv_before] (Some "m1") shop_request "2026-01-01T00:00:00.000Z" _ _ (run_traces with_api 0 web_start)
    before web_deploy after E).
Defined.
