(* ===== verification/AppSecrets.v ===== *)
(** Secret variables of applications (packages/core/src/app-secrets.ts,
    packages/trpc/src/services/app-secrets.service.ts and the worker
    apps/api/src/workers/app-secret-gc.ts): a variable is a Docker secret per
    version, identified by its labels and mounted at the name of the variable; the
    console sets, rotates and removes variables, a redeploy carries them, and a
    worker removes the versions nothing needs.

    The keyed digest of a value (an HMAC under the controller's key), and the
    locale's order of strings are parameters. *)

From S2P Require Import Prelude Comparators Json JsonText KvCodec Doubles JsNumber NetPolicy ServiceSpec SecretEnv SpecRead Effects ServicePatch Routes Canary.

(** * Versions on Docker *)

Definition APP_SECRET_SERVICE_LABEL : string := "swarmy.appsecret.service".
Definition APP_SECRET_KEY_LABEL : string := "swarmy.appsecret.key".
Definition APP_SECRET_VERSION_LABEL : string := "swarmy.appsecret.version".
Definition APP_SECRET_ORG_LABEL : string := "swarmy.appsecret.org".
Definition APP_SECRET_BY_LABEL : string := "swarmy.appsecret.by".
Definition APP_SECRET_DIGEST_LABEL : string := "swarmy.appsecret.digest".
Definition DOCKER_NAME_MAX : nat := 64.

Inductive SecretDelivery := by_env | by_file.

#[export] Instance SecretDelivery_eq_dec : EqDecision SecretDelivery.
Proof. solve_decision. Defined.

Definition is_name_end (c : ascii) : bool := Ascii.eqb c "_" || Ascii.eqb c "." || Ascii.eqb c "-".

(** [fnv8] is the fingerprint of the document store. *)
Definition appSecretName (service key : string) (version : Z) : string :=
  let suffix := "_v" +:+ pretty version in
  let full := service +:+ "_" +:+ key +:+ suffix in
  if (String.length full <=? DOCKER_NAME_MAX)%nat then full
  else
    let hash := kvFingerprint (service +:+ nul +:+ key) in
    let room := (DOCKER_NAME_MAX - String.length suffix - String.length hash - 1)%nat in
    drop_suffix_while is_name_end (String.substring 0 room full) +:+ "_" +:+ hash +:+ suffix.

(** [o ? { [k]: f(o) } : {}] *)
Definition if_text (k : string) (o : option string) (f : string -> string) : entries :=
  match truthy_str o with Some s => [(k, f s)] | None => [] end.

Definition appSecretLabels (service key : string) (version : Z) (orgId : string) (by_ digest : option string) : entries :=
  [("swarmy.managed", "true"); (APP_SECRET_SERVICE_LABEL, service); (APP_SECRET_KEY_LABEL, key);
   (APP_SECRET_VERSION_LABEL, pretty version); (APP_SECRET_ORG_LABEL, orgId)] ++
  if_text APP_SECRET_BY_LABEL by_ (fun s => String.substring 0 200 s) ++ if_text APP_SECRET_DIGEST_LABEL digest id.

Record AppSecretVersion := {
  av_name : string; av_service : string; av_key : string; av_version : Z; av_createdAt : Z; av_by : option string;
  av_digest : option string
}.

(** [Number.parseInt(raw ?? '', 10)], or 1 when that is no safe positive integer. *)
Definition version_of (raw : option string) : Z :=
  match parse_int (default "" raw) with
  | Some v => if (0 <? v) && (v <? 2 ^ 53) then v else 1
  | None => 1
  end.

(** A row that carries the labels of a version, of the organisation or of none. *)
Definition decode_row (orgId : string) (s : SecretRow) : option AppSecretVersion :=
  let l := sr_labels s in
  match truthy_str (get APP_SECRET_SERVICE_LABEL l), truthy_str (get APP_SECRET_KEY_LABEL l) with
  | Some service, Some key =>
      if match truthy_str (get APP_SECRET_ORG_LABEL l) with Some o => negb (String.eqb o orgId) | None => false end then None
      else Some {| av_name := sr_name s; av_service := service; av_key := key; av_version := version_of (get APP_SECRET_VERSION_LABEL l);
                   av_createdAt := sr_createdAt s; av_by := get APP_SECRET_BY_LABEL l; av_digest := get APP_SECRET_DIGEST_LABEL l |}
  | _, _ => None
  end.

Definition decodeAppSecrets (localeCompare : string -> string -> Z) (secrets : list SecretRow) (orgId : string) : list AppSecretVersion :=
  js_sort (cmp_then (cmp_on av_service localeCompare) (cmp_then (cmp_on av_key localeCompare) (cmp_desc av_version)))
    (omap (decode_row orgId) secrets).

(** * The variables of a specification *)

Record SecretVarDesired := { sd_key : string; sd_delivery : SecretDelivery; sd_secretName : string }.

Definition desired_ref (d : SecretVarDesired) : Ref :=
  {| rf_source := sd_secretName d; rf_target := Some (sd_key d); rf_uid := None; rf_gid := None; rf_mode := Some (num 292) |}.

(** One desired variable in the environment: its plain value goes, a file gets its
    pointer. *)
Definition put_var (env : entries) (d : SecretVarDesired) : entries :=
  match sd_delivery d with by_file => point_to_file env (sd_key d) | by_env => obj_del (sd_key d) env end.

Definition put_name (names : list string) (d : SecretVarDesired) : list string :=
  match sd_delivery d with by_env => set_add (sd_key d) names | by_file => names end.

Definition managed_targets (s : ServiceSpec) (managed : list string) : list string :=
  js_uniq (map ref_target (List.filter (fun r => mem (rf_source r) managed) (default [] (ss_secrets s)))).

Definition applySecretVars (base : ServiceSpec) (desired : list SecretVarDesired) (managed : list string) : ServiceSpec :=
  let s := unwrapSecretEnv base in
  let keys := map sd_key desired in
  let prev := managed_targets s managed in
  let refs := List.filter (fun r => negb (mem (rf_source r) managed) && negb (mem (ref_target r) keys)) (default [] (ss_secrets s)) ++
              map desired_ref desired in
  let env := foldl put_var (foldl drop_pointer (env_of s) prev) desired in
  let names := foldl put_name (js_uniq (List.filter (fun n => negb (mem n prev) && negb (mem n keys)) (default [] (ss_secretEnv s)))) desired in
  set_secretEnv (nonempty_list (js_sort str_cmp names)) (set_env (nonempty_list env) (set_secrets (nonempty_list refs) s)).

Definition secretVarDelivery (env : option entries) (secretEnv : option (list string)) (key : string) : SecretDelivery :=
  if mem key (default [] secretEnv) then by_env
  else if bool_decide (get (file_var key) (default [] env) = Some (secret_path key)) then by_file else by_env.

Definition versionsOf (all : list AppSecretVersion) (service : string) : list AppSecretVersion :=
  List.filter (fun v => String.eqb (av_service v) service) all.

(** [mountedVersions]: per key, the newest of the versions that are referenced. *)
Definition mount_step (refs : list string) (m : list (string * AppSecretVersion)) (v : AppSecretVersion) : list (string * AppSecretVersion) :=
  if mem (av_name v) refs then
    match get (av_key v) m with
    | Some cur => if av_version cur <? av_version v then obj_set (av_key v) v m else m
    | None => obj_set (av_key v) v m
    end
  else m.

Definition mountedVersions (versions : list AppSecretVersion) (refs : list string) : list (string * AppSecretVersion) :=
  foldl (mount_step refs) [] versions.

(** [new Map(owned.map((v) => [v.name, v])).get(name)] *)
Definition version_named (owned : list AppSecretVersion) (name : string) : option AppSecretVersion :=
  foldl (fun o v => if String.eqb (av_name v) name then Some v else o) None owned.

Definition current_var (s : ServiceSpec) (owned : list AppSecretVersion) (r : Ref) : option SecretVarDesired :=
  match version_named owned (rf_source r) with
  | Some v => let key := default (av_key v) (rf_target r) in
              Some {| sd_key := key; sd_delivery := secretVarDelivery (ss_env s) (ss_secretEnv s) key; sd_secretName := rf_source r |}
  | None => None
  end.

Definition currentDesired (spec : ServiceSpec) (owned : list AppSecretVersion) : list SecretVarDesired :=
  let s := unwrapSecretEnv spec in omap (current_var s owned) (default [] (ss_secrets s)).

Record Change := { ch_upserts : list SecretVarDesired; ch_remove : list string; ch_demote : list string }.

Definition set_var (m : list (string * SecretVarDesired)) (d : SecretVarDesired) : list (string * SecretVarDesired) := obj_set (sd_key d) d m.

(** The merge of what a live specification has with a change. *)
Definition merged_vars (live : list SecretVarDesired) (c : Change) : list SecretVarDesired :=
  let drop := ch_remove c ++ ch_demote c in
  map snd (foldl set_var (foldl set_var [] (List.filter (fun d => negb (mem (sd_key d) drop)) live)) (ch_upserts c)).

Definition planSecretSpec (spec : ServiceSpec) (owned : list AppSecretVersion) (c : Change) (live : ServiceSpec) : ServiceSpec :=
  applySecretVars spec (merged_vars (currentDesired live owned) c) (map av_name owned).

(** * Setting and removing a variable: app-secrets.service.ts *)

Record SecretUpsert := { su_key : string; su_value : option string; su_delivery : SecretDelivery }.
Record Rotation := { ro_key : string; ro_version : Z; ro_bytes : Z }.

(** The loop [while (takenNames.has(name)) name = appSecretName(..., ++version)]. *)
Fixpoint free_version (fuel : nat) (service key : string) (version : Z) (taken : list string) : Z * string :=
  let name := appSecretName service key version in
  match fuel with
  | O => (version, name)
  | S n => if mem name taken then free_version n service key (version + 1) taken else (version, name)
  end.

Definition next_version (owned : list AppSecretVersion) (key : string) : Z :=
  foldl Z.max 0 (map av_version (List.filter (fun v => String.eqb (av_key v) key) owned)) + 1.

Section service.
Variable localeCompare : string -> string -> Z.
(** [secretValueDigest]: service, key and value; none without a vault key. *)
Variable secretValueDigest : string -> string -> string -> option string.

(** The mounted version, when its digest is the one of the value. *)
Definition unchanged (current : option AppSecretVersion) (digest : option string) : option AppSecretVersion :=
  match current, truthy_str digest with
  | Some c, Some d => if bool_decide (av_digest c = Some d) then Some c else None
  | _, _ => None
  end.

Definition kept_var (u : SecretUpsert) (c : AppSecretVersion) : SecretVarDesired :=
  {| sd_key := su_key u; sd_delivery := su_delivery u; sd_secretName := av_name c |}.

Fixpoint materialize (orgId : string) (actor : option string) (nodeId service : string) (owned : list AppSecretVersion)
    (mounted : list (string * AppSecretVersion)) (takenNames : list string) (upserts : list SecretUpsert)
    : program (list SecretVarDesired * list Rotation) :=
  match upserts with
  | [] => Ret ([], [])
  | u :: us =>
      let current := get (su_key u) mounted in
      let next taken d rotated :=
        let* (desired, rs) := materialize orgId actor nodeId service owned mounted taken us in Ret (d :: desired, rotated ++ rs) in
      match truthy_str (su_value u) with
      | None => match current with
                | Some c => next takenNames (kept_var u c) []
                | None => Throw (Typed COMMAND_REJECTED)
                end
      | Some value =>
          let digest := secretValueDigest service (su_key u) value in
          match unchanged current digest with
          | Some c => next takenNames (kept_var u c) []
          | None =>
              let '(version, name) := free_version (length takenNames) service (su_key u) (next_version owned (su_key u)) takenNames in
              do* catch (await (SecretCreate nodeId name (toB64 value) (appSecretLabels service (su_key u) version orgId actor digest)))
                    (fun e => Throw (mapDispatchError e)) in
              next (name :: takenNames) {| sd_key := su_key u; sd_delivery := su_delivery u; sd_secretName := name |}
                [{| ro_key := su_key u; ro_version := version; ro_bytes := Z.of_nat (length (utf8 value)) |}]
          end
      end
  end.

Definition materializeSecretVars (orgId : string) (actor : option string) (nodeId service : string) (upserts : list SecretUpsert)
    (owned : list AppSecretVersion) (mounted : list (string * AppSecretVersion)) : program (list SecretVarDesired * list Rotation) :=
  materialize orgId actor nodeId service owned mounted (map av_name owned) upserts.

Definition listAppSecretVersions (orgId nodeId : string) : program (list AppSecretVersion) :=
  let* rows := catch (await (SecretList nodeId)) (fun e => Throw (mapDispatchError e)) in
  Ret (decodeAppSecrets localeCompare rows orgId).

Definition require_service (all : list InvService) (id : string) : program InvService :=
  settled_on (match resolveLiveService all id with Some s => inl s | None => inr (Typed NOT_FOUND) end).

(** [{ transform: (spec) => planSecretSpec(spec, owned, change) }] *)
Definition transform_patch (f : ServiceSpec -> ServiceSpec) : ServicePatch :=
  {| sp_image := None; sp_removeEnv := None; sp_setEnv := None; sp_removeLabels := None; sp_setLabels := None;
     sp_removeSecrets := None; sp_addSecrets := None; sp_removeConfigs := None; sp_addConfigs := None;
     sp_removeNetworks := None; sp_addNetworks := None; sp_transform := Some f |}.

Definition DEPLOY_TIMEOUT_MS : Z := 60000.

Definition deploy_options (nodeId : string) : PatchLiveServiceOptions :=
  {| po_nodeId := Some nodeId; po_pullPolicy := None; po_timeoutMs := Some DEPLOY_TIMEOUT_MS; po_beforeDeploy := false |}.

Definition service_ref (svc : InvService) : LiveServiceRef :=
  {| lr_name := iv_name svc; lr_image := Some (iv_image svc); lr_networks := iv_networks svc |}.

Record VarResult := { vr_key : string; vr_version : Z; vr_rotated : bool }.

Definition setSecretVar (orgId : string) (actor : option string) (all : list InvService) (m : option string) (id : string) (u : SecretUpsert)
    : program VarResult :=
  let* svc := require_service all id in
  let* node := manager_or_throw m in
  let* versions := listAppSecretVersions orgId node in
  let owned := versionsOf versions (iv_name svc) in
  let mounted := mountedVersions owned (iv_secrets svc) in
  let* (desired, rotated) := materializeSecretVars orgId actor node (iv_name svc) [u] owned mounted in
  let* _ := patchLiveService m (service_ref svc)
              (transform_patch (fun spec => planSecretSpec spec owned {| ch_upserts := desired; ch_remove := []; ch_demote := [] |} spec))
              (deploy_options node) in
  do* await (WriteAudit "secrets.appVar.set" (iv_id svc)) in
  Ret {| vr_key := su_key u;
         vr_version := match rotated with
                       | r :: _ => ro_version r
                       | [] => match get (su_key u) mounted with Some c => av_version c | None => 1 end
                       end;
         vr_rotated := match rotated with [] => false | _ => true end |}.

Definition removeSecretVar (orgId : string) (all : list InvService) (m : option string) (id key : string) : program () :=
  let* svc := require_service all id in
  let* node := manager_or_throw m in
  let* versions := listAppSecretVersions orgId node in
  let owned := versionsOf versions (iv_name svc) in
  if bool_decide (is_Some (get key (mountedVersions owned (iv_secrets svc)))) then
    let* _ := patchLiveService m (service_ref svc)
                (transform_patch (fun spec => planSecretSpec spec owned {| ch_upserts := []; ch_remove := [key]; ch_demote := [] |} spec))
                (deploy_options node) in
    await (WriteAudit "secrets.appVar.remove" (iv_id svc))
  else Throw (Typed COMMAND_REJECTED).
End service.

(** ** Revealing a value *)

Record LiveContainer := { lc_id : string; lc_serviceId : option string; lc_labels : entries; lc_running : bool; lc_createdAt : Z }.

Definition SWARM_SERVICE_ID_LABEL : string := "com.docker.swarm.service.id".

(** The containers each online node last reported, and the ones the inventory
    attributes to the organisation. *)
Record Fleet := { fl_nodes : list (string * list LiveContainer); fl_org : list string }.

Definition is_task (f : Fleet) (serviceId : string) (c : LiveContainer) : bool :=
  mem (lc_id c) (fl_org f) && lc_running c &&
  bool_decide (match lc_serviceId c with Some s => Some s | None => get SWARM_SERVICE_ID_LABEL (lc_labels c) end = Some serviceId).

(** [resolveExecTarget] with [newest]: the node and the container. *)
Definition newest_task (f : Fleet) (serviceId : string) : option (string * LiveContainer) :=
  foldl (fun best nc => if is_task f serviceId (snd nc)
                        then match best with
                             | Some b => if lc_createdAt (snd b) <? lc_createdAt (snd nc) then Some nc else best
                             | None => Some nc
                             end
                        else best)
    None (flat_map (fun n => map (pair (fst n)) (snd n)) (fl_nodes f)).

Definition revealSecretVar (localeCompare : string -> string -> Z) (orgId : string) (all : list InvService) (fleet : Fleet) (m : option string)
    (id key : string) : program (Z * string) :=
  let* svc := require_service all id in
  do* await (Authorize "secrets.read" (iv_id svc)) in
  let* node := manager_or_throw m in
  let* versions := listAppSecretVersions localeCompare orgId node in
  match get key (mountedVersions (versionsOf versions (iv_name svc)) (iv_secrets svc)) with
  | None => Throw (Typed NOT_FOUND)
  | Some current =>
      match newest_task fleet (iv_id svc) with
      | None => Throw (Typed COMMAND_REJECTED)
      | Some (n, c) =>
          let* (exitCode, output) :=
            catch (await (Exec n (lc_id c) ["cat"; secret_path key]))
              (fun e => do* await (WriteAudit "secrets.reveal" (iv_id svc)) in Throw (mapDispatchError e)) in
          do* await (WriteAudit "secrets.reveal" (iv_id svc)) in
          if exitCode =? 0 then Ret (av_version current, output) else Throw (Typed COMMAND_REJECTED)
      end
  end.

(** * Removing what nothing needs *)

Record GcServiceView := {
  gs_name : string; gs_secrets : list string; gs_converged : bool; gs_updatedAt : Z; gs_gateWindowSec : option number
}.

Definition APP_SECRET_GC_GRACE_MS : number := num 600000.

(** The wait after a change: the default, or the window of the health gate and a
    minute where that is longer. *)
Definition grace_of (gateWindowSec : option number) : number :=
  js_max APP_SECRET_GC_GRACE_MS (mul (add (default (num 0) gateWindowSec) (num 60)) (num 1000)).

Definition past (grace : number) (now since : Z) : bool := nle grace (num (now - since)).

Definition group_version (m : list (string * list AppSecretVersion)) (v : AppSecretVersion) : list (string * list AppSecretVersion) :=
  let k := av_service v +:+ nul +:+ av_key v in obj_set k (default [] (get k m) ++ [v]) m.

(** [new Map(services.map((s) => [s.name, s])).get(name)] *)
Definition service_named (services : list GcServiceView) (name : string) : option GcServiceView :=
  foldl (fun o s => if String.eqb (gs_name s) name then Some s else o) None services.

Definition prune_group (services : list GcServiceView) (now : Z) (group : list AppSecretVersion) : list AppSecretVersion :=
  let sorted := js_sort (cmp_desc av_version) group in
  let svc := head sorted ≫= (fun v => service_named services (av_service v)) in
  let grace := grace_of (svc ≫= gs_gateWindowSec) in
  let unused v := negb (mem (av_name v) (flat_map gs_secrets services)) && past grace now (av_createdAt v) in
  match svc with
  | None => List.filter unused (tail sorted)
  | Some s => if negb (gs_converged s) || negb (past grace now (gs_updatedAt s)) then [] else List.filter unused sorted
  end.

Definition appSecretsToPrune (versions : list AppSecretVersion) (services : list GcServiceView) (now : Z) : list string :=
  js_sort str_cmp (map av_name (flat_map (fun g => prune_group services now (snd g)) (foldl group_version [] versions))).

Definition DEPLOY_SAFETY_LABEL : string := "swarmy.deploy.safety".

Definition gateWindowSec (labels : entries) : option number :=
  match truthy_str (get DEPLOY_SAFETY_LABEL labels) ≫= json_parse with
  | Some v => positive (js_Number (at_field "windowSec" v))
  | None => None
  end.

Definition gcServiceViews (services : list SwarmServiceInfo) : list GcServiceView :=
  map (fun s => {| gs_name := sv_name s; gs_secrets := sv_secrets s;
                   gs_converged := match truthy_str (sv_updateStatus s) with
                                   | Some st => mem st ["none"; "completed"; "rollback_completed"]
                                   | None => true
                                   end;
                   gs_updatedAt := sv_updatedAt s; gs_gateWindowSec := gateWindowSec (sv_labels s) |}) services.

(** One sweep of an organisation; [services] is the inventory once the secrets were
    listed. *)
Definition sweepOrg (localeCompare : string -> string -> Z) (orgId : string) (m : option string) (services : list SwarmServiceInfo) (now : Z)
    : program () :=
  match m with
  | None => Ret tt
  | Some node =>
      let* rows := await (SecretList node) in
      let raw := List.filter (fun s => bool_decide (get APP_SECRET_ORG_LABEL (sr_labels s) = Some orgId)) rows in
      match raw with
      | [] => Ret tt
      | _ => each (fun name => quietly (await (SecretRemove node name)))
               (appSecretsToPrune (decodeAppSecrets localeCompare raw orgId) (gcServiceViews services) now)
      end
  end.

(** * Carrying the variables of a live service across a compose deploy *)

(** The number after the last [_v] of a physical name. *)
Definition name_version (n : string) : option Z :=
  let p := drop_suffix_while is_digit n in
  let d := sdrop (String.length p) n in
  if negb (String.eqb d "") && endsWith "_v" p then Some (decimal d) else None.

Definition liveAppSecretFor (service key : string) (names : list string) : option string :=
  fst <$> foldl (fun best n =>
    match name_version n with
    | Some v =>
        if String.eqb (appSecretName service key v) n
        then match best with Some (_, b) => if b <? v then Some (n, v) else best | None => Some (n, v) end
        else best
    | None => best
    end) None names.

Record LiveVars := { lv_name : string; lv_env : list string; lv_secrets : list string }.

(** The name of the variable whose pointer an entry is. *)
Definition pointed (kv : string * string) : option string :=
  if endsWith "_FILE" (fst kv) then
    let k := String.substring 0 (String.length (fst kv) - 5) (fst kv) in
    if isEnvName k && String.eqb (snd kv) (secret_path k) then Some k else None
  else None.

Definition taken (s : ServiceSpec) (k : string) : bool :=
  mem k (map ref_target (default [] (ss_secrets s))) || bool_decide (is_Some (get k (env_of s))) ||
  bool_decide (is_Some (get (file_var k) (env_of s))) || mem k (default [] (ss_secretEnv s)).

Definition carry_key (s : ServiceSpec) (live : LiveVars) (delivery : SecretDelivery) (desired : list SecretVarDesired) (key : string)
    : list SecretVarDesired :=
  if taken s key || mem key (map sd_key desired) then desired
  else match liveAppSecretFor (lv_name live) key (lv_secrets live) with
       | Some name => desired ++ [{| sd_key := key; sd_delivery := delivery; sd_secretName := name |}]
       | None => desired
       end.

Definition carried (s : ServiceSpec) (live : LiveVars) : list SecretVarDesired :=
  let env := from_entries (omap env_pair (lv_env live)) in
  let envKeys := List.filter isEnvName (split_at comma (default "" (get SECRET_ENV_VAR env))) in
  foldl (carry_key s live by_file) (foldl (carry_key s live by_env) [] envKeys) (omap pointed (own_order env)).

Definition carrySecretVars (s : ServiceSpec) (live : option LiveVars) : ServiceSpec :=
  match live with
  | Some l => match lv_secrets l, carried s l with
              | [], _ | _, [] => s
              | _, desired => applySecretVars s desired []
              end
  | None => s
  end.

Example ex_secret_name : appSecretName "shop_web" "DB_PASSWORD" 3 = "shop_web_DB_PASSWORD_v3" /\ name_version "shop_web_DB_PASSWORD_v3" = Some 3.
Proof. by vm_compute. Qed.

(** What the secrets were listed as. *)
Definition list_answer (ev : event effect) : option (list SecretRow + failure) :=
  match ev_call ev in effect X return X + failure -> option (list SecretRow + failure) with
  | SecretList _ => Some
  | _ => fun _ => None
  end (ev_answer ev).

(** * Names of versions *)

Lemma drop_suffix_all p a d : all_chars p d = true -> drop_suffix_while p (a +:+ d) = drop_suffix_while p a.
Proof.
  intros Hd. induction a as [|c a IH]; simpl.
  - induction d as [|c d IH]; [done|]. simpl in *. apply andb_true_iff in Hd as [Hc Hd]. by rewrite IH, Hc.
  - by rewrite IH.
Qed.

Lemma drop_suffix_length p s : (String.length (drop_suffix_while p s) <= String.length s)%nat.
Proof.
  induction s as [|c s IH]; [done|]. simpl. destruct (drop_suffix_while p s); simpl in *; [|lia]. destruct (p c); simpl; lia.
Qed.

Lemma digits_pretty v : 0 <= v -> all_chars is_digit (pretty v) = true /\ pretty v <> "" /\ decimal (pretty v) = v.
Proof.
  intros Hv. destruct (decide (v = 0)) as [->|Hne]; [by vm_compute|]. destruct (pretty_pos v) as (Hd & Hz & _); [lia|].
  unfold all_digits in Hd. apply andb_true_iff in Hd as [He Hd]. split; [done|]. split; [|done]. apply negb_true_iff in He. by apply String.eqb_neq.
Qed.

(** A name that ends in a version is read as that version. *)
Lemma name_version_suffix p v : 0 <= v -> name_version (p +:+ "_v" +:+ pretty v) = Some v.
Proof.
  intros Hv. destruct (digits_pretty v Hv) as (Hd & Hne & Hz). unfold name_version.
  rewrite <- string_app_assoc, drop_suffix_all, (drop_suffix_app is_digit p "_v"), sdrop_app by done.
  assert (endsWith "_v" (p +:+ "_v") = true) as -> by (apply endsWith_spec; by exists p).
  apply String.eqb_neq in Hne as ->. simpl. by rewrite Hz.
Qed.

Lemma appSecretName_shape service key v : exists p, appSecretName service key v = p +:+ "_v" +:+ pretty v.
Proof.
  unfold appSecretName. generalize ("_v" +:+ pretty v). intros x. destruct (_ <=? _)%nat.
  - exists (service +:+ "_" +:+ key). by rewrite (string_app_assoc service), (string_app_assoc "_" key).
  - set (h := kvFingerprint _). set (a := drop_suffix_while _ _). exists (a +:+ "_" +:+ h).
    by rewrite (string_app_assoc a), (string_app_assoc "_" h).
Qed.

Lemma name_version_name service key v : 0 <= v -> name_version (appSecretName service key v) = Some v.
Proof. intros Hv. destruct (appSecretName_shape service key v) as [p ->]. by apply name_version_suffix. Qed.

Lemma appSecretName_inj service key v w : 0 <= v -> 0 <= w -> appSecretName service key v = appSecretName service key w -> v = w.
Proof.
  intros Hv Hw E. apply (f_equal name_version) in E. rewrite !name_version_name in E by done. by injection E.
Qed.

Lemma fnv32_range h s : 0 <= h < 2 ^ 32 -> 0 <= fnv32 h s < 2 ^ 32.
Proof. revert h. induction s as [|c s IH]; intros h Hh; [done|]. simpl. apply IH, imul32_range. Qed.

Lemma fingerprint_length s : String.length (kvFingerprint s) = 8%nat.
Proof. unfold kvFingerprint. pose proof (fnv32_range 2166136261 s) as H. apply hex_digits_ok. change (16 ^ Z.of_nat 8) with (2 ^ 32). lia. Qed.

Lemma substring_0_length n s : String.length (String.substring 0 n s) = Nat.min n (String.length s).
Proof. revert n. induction s as [|c s IH]; intros [|n]; simpl; [done..|]. by rewrite IH. Qed.

(** A name fits Docker's limit. *)
Lemma appSecretName_length service key v : 0 <= v < 2 ^ 53 -> (String.length (appSecretName service key v) <= DOCKER_NAME_MAX)%nat.
Proof.
  intros Hv. unfold appSecretName. set (full := service +:+ _). destruct (Nat.leb_spec (String.length full) DOCKER_NAME_MAX) as [H|H]; [done|].
  assert (Hp : (String.length (pretty v) <= 16)%nat).
  { destruct (decide (v = 0)) as [->|Hne]; [vm_compute; lia|]. destruct (pretty_pos v) as (_ & _ & Hl); [lia|]. apply (Hl 16%nat). lia. }
  rewrite !string_length_app, fingerprint_length. cbn [String.length].
  set (room := (DOCKER_NAME_MAX - _ - _ - 1)%nat).
  pose proof (drop_suffix_length is_name_end (String.substring 0 room full)) as Hd. rewrite substring_0_length in Hd.
  unfold DOCKER_NAME_MAX in *. lia.
Qed.

(** The search for a free name: it ends at one that is not taken, at the version it
    started from or above. *)
Lemma free_version_steps fuel service key v taken : let '(w, n) := free_version fuel service key v taken in
  v <= w <= v + Z.of_nat fuel /\ n = appSecretName service key w /\
  (n ∉ taken \/ w = v + Z.of_nat fuel /\ forall i, v <= i < w -> appSecretName service key i ∈ taken).
Proof.
  revert v. induction fuel as [|fuel IH]; intros v; cbn [free_version].
  - split; [lia|]. split; [done|]. right. split; [lia|]. intros i Hi. lia.
  - destruct (mem_spec (appSecretName service key v) taken) as [Hm|Hm]; [|split; [lia|split; [done|by left]]].
    specialize (IH (v + 1)). destruct (free_version fuel service key (v + 1) taken) as [w n]. destruct IH as (Hr & -> & Hn).
    split; [lia|]. split; [done|]. destruct Hn as [Hn|[Hw Hi]]; [by left|]. right. split; [lia|].
    intros i Hi'. destruct (decide (i = v)) as [->|]; [done|]. apply Hi. lia.
Qed.

Lemma free_version_fresh service key v taken : 0 <= v -> let '(w, n) := free_version (length taken) service key v taken in
  v <= w <= v + Z.of_nat (length taken) /\ n = appSecretName service key w /\ n ∉ taken.
Proof.
  intros Hv. pose proof (free_version_steps (length taken) service key v taken) as H.
  destruct (free_version (length taken) service key v taken) as [w n]. destruct H as (Hr & Hn & Hf). split; [done|]. split; [done|].
  destruct Hf as [Hf|[Hw Hi]]; [done|]. intros Hin. subst n.
  set (names := map (appSecretName service key) (seqZ v (Z.of_nat (length taken) + 1))).
  assert (Hd : NoDup names).
  { apply NoDup_fmap_2_strong; [|apply NoDup_seqZ]. intros x y Hx%elem_of_seqZ Hy%elem_of_seqZ. apply appSecretName_inj; lia. }
  assert (Hs : names ⊆ taken).
  { intros x (i & -> & Hi'%elem_of_seqZ)%list_elem_of_fmap. destruct (decide (i = w)) as [->|]; [done|]. apply Hi. lia. }
  pose proof (submseteq_length _ _ (NoDup_submseteq _ _ Hd Hs)) as Hl. unfold names in Hl.
  rewrite length_map, length_seqZ in Hl. lia.
Qed.

(** * What applying variables leaves *)

(** No name is the pointer of another. *)
Definition apart (keys : list string) : Prop := forall k k', k ∈ keys -> k' ∈ keys -> file_var k <> k'.

Lemma get_drop_pointer k env t : get k (drop_pointer env t) =
  if String.eqb k (file_var t) && bool_decide (get k env = Some (secret_path t)) then None else get k env.
Proof.
  unfold drop_pointer. destruct (String.eqb_spec k (file_var t)) as [->|Hne]; simpl; case_bool_decide as H; try done.
  - by rewrite get_obj_del, String.eqb_refl.
  - rewrite get_obj_del. by apply String.eqb_neq in Hne as ->.
Qed.

(** Only the pointers of the given names go, and only those that are as they were
    set. *)
Lemma get_drop_pointers k env ts : get k (foldl drop_pointer env ts) = get k env \/
  get k (foldl drop_pointer env ts) = None /\ exists t, t ∈ ts /\ k = file_var t /\ get k env = Some (secret_path t).
Proof.
  revert env. induction ts as [|t ts IH]; intros env; simpl; [by left|]. pose proof (get_drop_pointer k env t) as E.
  destruct (String.eqb_spec k (file_var t)) as [Hk|_]; simpl in E; [case_bool_decide as Hp|].
  - right. destruct (IH (drop_pointer env t)) as [->|(-> & _)]; (split; [done|]; exists t; split; [left|done]).
  - destruct (IH (drop_pointer env t)) as [->|(-> & t' & Ht & Hk' & H)]; [by left|]. right. split; [done|]. exists t'. rewrite E in H. split; [by right|done].
  - destruct (IH (drop_pointer env t)) as [->|(-> & t' & Ht & Hk' & H)]; [by left|]. right. split; [done|]. exists t'. rewrite E in H. split; [by right|done].
Qed.

Lemma get_put_var k env d : get k (put_var env d) =
  if bool_decide (sd_delivery d = by_file) && String.eqb k (file_var (sd_key d)) then Some (secret_path (sd_key d))
  else if String.eqb k (sd_key d) then None else get k env.
Proof.
  unfold put_var, point_to_file. destruct (sd_delivery d); rewrite ?get_obj_set, get_obj_del; simpl; [done|]. by destruct (String.eqb k (file_var _)).
Qed.

Lemma put_vars_key env desired k : apart (map sd_key desired) -> k ∈ map sd_key desired -> get k (foldl put_var env desired) = None.
Proof.
  induction desired as [|d desired IH] using rev_ind; intros Ha Hk; [by apply not_elem_of_nil in Hk|].
  rewrite foldl_app. simpl. rewrite get_put_var, map_app in *. simpl in *. destruct (String.eqb_spec k (file_var (sd_key d))) as [->|_].
  { exfalso. apply (Ha (sd_key d) (file_var (sd_key d))); [set_solver|done|done]. }
  rewrite andb_false_r. destruct (String.eqb_spec k (sd_key d)) as [->|Hne]; [done|]. apply IH; [|set_solver].
  intros a b Ha' Hb'. apply Ha; set_solver.
Qed.

Lemma put_vars_pointer env desired d : apart (map sd_key desired) -> d ∈ desired -> sd_delivery d = by_file ->
  get (file_var (sd_key d)) (foldl put_var env desired) = Some (secret_path (sd_key d)).
Proof.
  intros Ha Hd Hf. induction desired as [|x desired IH] using rev_ind; [by apply not_elem_of_nil in Hd|].
  rewrite foldl_app. simpl. rewrite get_put_var. rewrite map_app in Ha. simpl in Ha. apply elem_of_app in Hd as [Hd| ->%list_elem_of_singleton].
  - destruct (bool_decide_reflect (sd_delivery x = by_file)); simpl;
      [destruct (String.eqb_spec (file_var (sd_key d)) (file_var (sd_key x))) as [E|_]; [by apply file_var_inj in E as ->|]|];
      (destruct (String.eqb_spec (file_var (sd_key d)) (sd_key x)) as [E|_];
       [destruct (Ha (sd_key d) (sd_key x)); [apply elem_of_app; left; by apply list_elem_of_fmap_2|set_solver|done]|]);
      (apply IH; [|done]; intros a b Ha' Hb'; apply Ha; set_solver).
  - by rewrite Hf, String.eqb_refl.
Qed.

Lemma put_vars_other env desired k : k ∉ map sd_key desired ->
  (forall d, d ∈ desired -> sd_delivery d = by_file -> k <> file_var (sd_key d)) -> get k (foldl put_var env desired) = get k env.
Proof.
  revert env. induction desired as [|d desired IH]; intros env Hk Hf; simpl in *; [done|].
  rewrite IH; [|set_solver|intros d' Hd'; apply Hf; by right]. rewrite get_put_var.
  destruct (String.eqb_spec k (sd_key d)) as [->|_]; [set_solver|]. case_bool_decide as Hd; simpl; [|done].
  destruct (String.eqb_spec k (file_var (sd_key d))) as [E|_]; [|done]. destruct (Hf d ltac:(left) Hd E).
Qed.

Lemma put_names_elem names desired n : n ∈ foldl put_name names desired <->
  n ∈ names \/ exists d, d ∈ desired /\ sd_delivery d = by_env /\ sd_key d = n.
Proof.
  revert names. induction desired as [|d desired IH]; intros names; simpl.
  { split; [by left|]. by intros [?|(d & ?%not_elem_of_nil & _)]. }
  assert (E : n ∈ put_name names d <-> n ∈ names \/ sd_delivery d = by_env /\ sd_key d = n).
  { unfold put_name. destruct (sd_delivery d); rewrite ?set_add_elem; naive_solver. }
  rewrite IH, E. split.
  - intros [[H|[H1 H2]]|(x & H1 & H2 & H3)]; [by left|right; exists d; split; [left|done]|right; exists x; split; [by right|done]].
  - intros [H|(x & H1%elem_of_cons & H2 & H3)]; [by left; left|]. destruct H1 as [->|H1]; [by left; right|right; by exists x].
Qed.

Lemma omap_none {A B} (f : A -> option B) l : (forall x, x ∈ l -> f x = None) -> omap f l = [].
Proof. intros H. induction l as [|x l IH]; [done|]. rewrite omap_step, H by left. apply IH. intros y Hy. apply H. by right. Qed.

(** A specification after [applySecretVars]. *)
Section applied.
Context (s : ServiceSpec) (desired : list SecretVarDesired) (managed : list string).
Context (Hu : user_spec s) (Ha : apart (map sd_key desired)) (Hd : NoDup (map sd_key desired)).
Local Abbreviation out := (applySecretVars s desired managed).

Lemma applied_secrets : default [] (ss_secrets out) =
  List.filter (fun r => negb (mem (rf_source r) managed) && negb (mem (ref_target r) (map sd_key desired))) (default [] (ss_secrets s)) ++
  map desired_ref desired.
Proof using Hu. unfold applySecretVars. rewrite unwrap_user by done. apply default_nonempty. Qed.

Lemma applied_env : env_of out = foldl put_var (foldl drop_pointer (env_of s) (managed_targets s managed)) desired.
Proof using Hu. unfold applySecretVars. rewrite unwrap_user by done. apply default_nonempty. Qed.

Lemma applied_names n : n ∈ default [] (ss_secretEnv out) <->
  (n ∈ default [] (ss_secretEnv s) /\ n ∉ managed_targets s managed /\ n ∉ map sd_key desired) \/
  exists d, d ∈ desired /\ sd_delivery d = by_env /\ sd_key d = n.
Proof using Hu.
  assert (E : default [] (ss_secretEnv out) = js_sort str_cmp (foldl put_name (js_uniq (List.filter (fun n =>
    negb (mem n (managed_targets s managed)) && negb (mem n (map sd_key desired))) (default [] (ss_secretEnv s)))) desired)).
  { unfold applySecretVars. rewrite unwrap_user by done. apply default_nonempty. }
  rewrite E, js_sort_elem, put_names_elem, js_uniq_elem, bfilter_elem, andb_true_iff, !negb_true_iff, !mem_false. tauto.
Qed.

Lemma key_unique d d' : d ∈ desired -> d' ∈ desired -> sd_key d = sd_key d' -> d = d'.
Proof using Hd. by apply map_key_inj. Qed.

(** A desired variable is read back with its delivery. *)
Lemma applied_delivery d : d ∈ desired -> secretVarDelivery (ss_env out) (ss_secretEnv out) (sd_key d) = sd_delivery d.
Proof using Hu Ha Hd.
  intros Hin. unfold secretVarDelivery. fold (env_of out). destruct (mem_spec (sd_key d) (default [] (ss_secretEnv out))) as [H|H].
  - apply applied_names in H as [(_ & _ & H)|(d' & Hin' & He & E)]; [by destruct H; apply list_elem_of_fmap_2|].
    apply key_unique in E as ->; [done..].
  - destruct (sd_delivery d) eqn:E.
    + destruct H. apply applied_names. right. by exists d.
    + rewrite applied_env, put_vars_pointer by done. by rewrite bool_decide_eq_true_2.
Qed.

(** No plain value of a variable is left. *)
Lemma applied_no_value k : k ∈ map sd_key desired -> get k (env_of out) = None.
Proof using Hu Ha. intros Hk. rewrite applied_env. by apply put_vars_key. Qed.

(** What the environment keeps. *)
Lemma applied_other k : k ∉ map sd_key desired -> (forall d, d ∈ desired -> sd_delivery d = by_file -> k <> file_var (sd_key d)) ->
  get k (env_of out) = get k (env_of s) \/
  get k (env_of out) = None /\ exists t, t ∈ managed_targets s managed /\ k = file_var t /\ get k (env_of s) = Some (secret_path t).
Proof using Hu. intros Hk Hf. rewrite applied_env, put_vars_other by done. apply get_drop_pointers. Qed.

Lemma applied_rest : set_secretEnv None (set_env None (set_secrets None out)) = set_secretEnv None (set_env None (set_secrets None s)).
Proof using Hu. unfold applySecretVars. by rewrite unwrap_user by done. Qed.

Lemma file_var_plumbing k : file_var k <> SECRET_ENV_VAR.
Proof. intros E. assert (H : endsWith "_FILE" (file_var k) = true) by (apply endsWith_spec; by exists k). rewrite E in H. by vm_compute in H. Qed.

Lemma applied_user : user_spec out.
Proof using Hu Ha.
  pose proof Hu as [H1 H2 H3 H4 H5].
  assert (El : labels_of out = labels_of s /\ ss_command out = ss_command s /\ ss_args out = ss_args s).
  { unfold applySecretVars. by rewrite unwrap_user. }
  destruct El as (El & Ec & Eg). split; rewrite ?El, ?Ec, ?Eg; try done.
  destruct (decide (SECRET_ENV_VAR ∈ map sd_key desired)) as [Hk|Hk]; [by apply applied_no_value|].
  destruct (applied_other SECRET_ENV_VAR Hk) as [->|(-> & _)]; [|done..].
  intros d _ _ E. by destruct (file_var_plumbing (sd_key d)).
Qed.

(** Read with the versions there are, it has the desired variables and no others. *)
Lemma applied_current owned : (forall d, d ∈ desired -> is_Some (version_named owned (sd_secretName d))) ->
  (forall r, r ∈ default [] (ss_secrets s) -> rf_source r ∉ managed -> version_named owned (rf_source r) = None) ->
  currentDesired out owned = desired.
Proof using Hu Ha Hd.
  intros Hv Hr. unfold currentDesired. rewrite unwrap_user by apply applied_user. rewrite applied_secrets, omap_app.
  assert (E : omap (current_var out owned) (List.filter (fun r => negb (mem (rf_source r) managed) && negb (mem (ref_target r) (map sd_key desired)))
    (default [] (ss_secrets s))) = []).
  { apply omap_none. intros r [Hin [Hm%negb_true_iff%mem_false _]%andb_true_iff]%bfilter_elem. unfold current_var. by rewrite Hr. }
  rewrite E. simpl. assert (H : Forall (fun d => current_var out owned (desired_ref d) = Some d) desired).
  { apply Forall_forall. intros d Hin. unfold current_var. cbn [desired_ref rf_source rf_target]. destruct (Hv d Hin) as [v ->].
    cbn [default from_option id]. rewrite applied_delivery by done. by destruct d. }
  revert H. generalize (current_var out owned). clear. intros f H. induction H as [|d l E _ IH]; [done|]. cbn [map]. by rewrite omap_step, E, IH.
Qed.
End applied.

(** * The variables as a map

    The secret variables of a service are a map from keys; a change sets some and
    drops some. *)
Definition var_of (l : list SecretVarDesired) (k : string) : option SecretVarDesired :=
  foldl (fun o d => if String.eqb (sd_key d) k then Some d else o) None l.

Definition change_vars (vars : string -> option SecretVarDesired) (c : Change) (k : string) : option SecretVarDesired :=
  match var_of (ch_upserts c) k with
  | Some d => Some d
  | None => if mem k (ch_remove c ++ ch_demote c) then None else vars k
  end.

Lemma var_of_snoc l d k : var_of (l ++ [d]) k = if String.eqb (sd_key d) k then Some d else var_of l k.
Proof. unfold var_of. by rewrite foldl_app. Qed.

Lemma var_of_some l k d : var_of l k = Some d -> d ∈ l /\ sd_key d = k.
Proof.
  induction l as [|x l IH] using rev_ind; [done|]. rewrite var_of_snoc. destruct (String.eqb_spec (sd_key x) k) as [E|_].
  - intros [= <-]. set_solver.
  - intros H. apply IH in H. set_solver.
Qed.

Lemma var_of_keys l k : is_Some (var_of l k) <-> k ∈ map sd_key l.
Proof.
  induction l as [|x l IH] using rev_ind; [split; [by intros [? ?]|by intros ?%not_elem_of_nil]|]. rewrite var_of_snoc, map_app, elem_of_app, <- IH.
  simpl. rewrite list_elem_of_singleton. destruct (String.eqb_spec (sd_key x) k) as [E|E]; split; naive_solver.
Qed.

Lemma var_of_unique l d : NoDup (map sd_key l) -> d ∈ l -> var_of l (sd_key d) = Some d.
Proof.
  intros Hd Hin. destruct (proj2 (var_of_keys l (sd_key d)) (list_elem_of_fmap_2 _ _ _ Hin)) as [d' E].
  rewrite E. apply var_of_some in E as [Hin' E]. f_equal. by eapply map_key_inj.
Qed.

Lemma get_set_vars m l k : get k (foldl set_var m l) = match var_of l k with Some d => Some d | None => get k m end.
Proof.
  induction l as [|x l IH] using rev_ind; [done|]. rewrite foldl_app, var_of_snoc. simpl. unfold set_var at 1. rewrite get_obj_set, IH.
  rewrite String.eqb_sym. by destruct (String.eqb _ _).
Qed.

Definition keyed_vars (m : list (string * SecretVarDesired)) : Prop := NoDup (map fst m) /\ Forall (fun kd => fst kd = sd_key (snd kd)) m.

Lemma set_vars_keyed m l : keyed_vars m -> keyed_vars (foldl set_var m l).
Proof.
  revert m. induction l as [|x l IH]; intros m [Hn Hf]; [done|]. simpl. apply IH. split; [by apply obj_set_NoDup|].
  apply Forall_forall. intros kd [->|Hin]%obj_set_elem; [done|]. rewrite Forall_forall in Hf. by apply Hf.
Qed.

Lemma keyed_keys m : keyed_vars m -> map sd_key (map snd m) = map fst m.
Proof. intros [_ Hf]. induction Hf as [|kd m E _ IH]; [done|]. simpl. by rewrite IH, E. Qed.

Lemma var_of_keyed m k : keyed_vars m -> var_of (map snd m) k = get k m.
Proof.
  intros Hm. pose proof (keyed_keys m Hm) as Ek. destruct Hm as [Hn Hf]. destruct (get k m) as [d|] eqn:E.
  - apply get_elem in E. rewrite Forall_forall in Hf. pose proof (Hf _ E) as Hk. simpl in Hk. subst k. apply var_of_unique; [by rewrite Ek|].
    apply list_elem_of_fmap. by exists (sd_key d, d).
  - destruct (var_of (map snd m) k) as [d|] eqn:Ev; [|done]. assert (H : is_Some (get k m)); [|rewrite E in H; by destruct H].
    apply get_keys. rewrite <- Ek. apply var_of_keys. by rewrite Ev.
Qed.

Lemma merged_keyed live c : NoDup (map sd_key (merged_vars live c)).
Proof.
  unfold merged_vars. set (m := foldl set_var _ _). assert (Hm : keyed_vars m).
  { apply set_vars_keyed, set_vars_keyed. split; [constructor|constructor]. }
  rewrite keyed_keys by done. apply Hm.
Qed.

Lemma var_of_filter f l k : var_of (List.filter (fun d => f (sd_key d)) l) k = if f k then var_of l k else None.
Proof.
  induction l as [|x l IH] using rev_ind; [by destruct (f k)|]. rewrite List.filter_app. simpl. destruct (f (sd_key x)) eqn:E.
  - rewrite !var_of_snoc, IH. destruct (String.eqb_spec (sd_key x) k) as [<-|]; [by rewrite E|done].
  - rewrite app_nil_r, var_of_snoc, IH. destruct (String.eqb_spec (sd_key x) k) as [<-|]; [by rewrite E|done].
Qed.

Lemma merged_change live c k : var_of (merged_vars live c) k = change_vars (var_of live) c k.
Proof.
  unfold merged_vars, change_vars. rewrite var_of_keyed by (apply set_vars_keyed, set_vars_keyed; split; constructor).
  rewrite !get_set_vars. destruct (var_of (ch_upserts c) k); [done|].
  rewrite (var_of_filter (fun k => negb (mem k (ch_remove c ++ ch_demote c)))). destruct (mem k _); simpl; [done|]. by destruct (var_of live k).
Qed.
