(* ===== verification/SecretRotation.v ===== *)
(** Secret variables over time (packages/trpc/src/services/app-secrets.service.ts):
    the versions that setting a variable creates and the deploy that moves the
    service onto them, through Docker and back.  The abstract state is the map of
    the variables a service has; the requests refine its update. *)

From S2P Require Import Prelude Comparators Json JsonText KvCodec Doubles JsNumber NetPolicy ServiceSpec SecretEnv SpecRead Effects ServicePatch Routes Canary AppSecrets.

(** * The variables of a deployed service *)

(** The mounts of versions are where variables are, and no variable is the pointer of
    one that is delivered by the shim. *)
Record var_spec (s : ServiceSpec) (owned : list AppSecretVersion) : Prop := {
  vs_target r : r ∈ default [] (ss_secrets s) -> is_Some (version_named owned (rf_source r)) ->
    exists t, rf_target r = Some t /\ t <> "" /\ file_var t ∉ wanted_names s
}.

Lemma wanted_mem s k : mem k (default [] (ss_secretEnv s)) = mem k (wanted_names s).
Proof. apply eq_bool_prop_intro. unfold wanted_names. by rewrite !Is_true_true, !mem_In, js_uniq_elem. Qed.

Lemma delivery_cong a b k : mem k (default [] (ss_secretEnv a)) = mem k (default [] (ss_secretEnv b)) ->
  get (file_var k) (env_of a) = get (file_var k) (env_of b) ->
  secretVarDelivery (ss_env a) (ss_secretEnv a) k = secretVarDelivery (ss_env b) (ss_secretEnv b) k.
Proof. unfold secretVarDelivery. fold (env_of a) (env_of b). by intros -> ->. Qed.

Lemma omap_map_ext {A B C} (f : A -> B) (g : B -> option C) (h : A -> option C) l :
  Forall (fun x => g (f x) = h x) l -> omap g (map f l) = omap h l.
Proof. induction 1 as [|x l E _ IH]; [done|]. cbn [map]. by rewrite !omap_step, E, IH. Qed.

(** What Docker was told and what is read back has the same variables. *)
Lemma current_observed shell s networks owned : user_spec s -> spec_ok s -> var_spec s owned ->
  currentDesired (observed shell s networks) owned = currentDesired s owned.
Proof.
  intros Hu Hok [Ht]. unfold currentDesired. rewrite (unwrap_user _ (observed_user shell s networks Hu Hok)), (unwrap_user s Hu).
  assert (E : default [] (ss_secrets (observed shell s networks)) = map settle_ref (default [] (ss_secrets s))).
  { assert (E : ss_secrets (observed shell s networks) = settle_list settle_ref (ss_secrets s)) by (unfold observed; by destruct (wanted_names s)).
    rewrite E. unfold settle_list. destruct (ss_secrets s); [apply default_nonempty|done]. }
  rewrite E. clear E. assert (H : Forall (fun r => current_var (observed shell s networks) owned (settle_ref r) = current_var s owned r) (default [] (ss_secrets s))).
  { apply Forall_forall. intros r Hr. unfold current_var. change (rf_source (settle_ref r)) with (rf_source r).
    destruct (version_named owned (rf_source r)) as [v|] eqn:Ev; [|done]. destruct (Ht r Hr) as (t & Et & Hne & Hf); [by rewrite Ev|].
    assert (Es : rf_target (settle_ref r) = Some t) by (unfold settle_ref; cbn [rf_target]; unfold ref_target; rewrite Et; by apply truthy_ne).
    rewrite Es, Et. cbn [default from_option id]. f_equal. f_equal. apply delivery_cong.
    - by rewrite !wanted_mem, observed_names.
    - rewrite observed_env_get by done. apply mem_false in Hf. rewrite Hf. done. }
  by apply omap_map_ext.
Qed.

Lemma current_image image s owned : user_spec s -> currentDesired (set_image image s) owned = currentDesired s owned.
Proof. intros Hu. unfold currentDesired. rewrite (unwrap_elsewhere _ s (image_elsewhere image)), unwrap_user by done. done. Qed.

Lemma set_image_user image s : user_spec s -> user_spec (set_image image s).
Proof. by intros [H1 H2 H3 H4 H5]. Qed.

(** * Materializing values *)

Lemma next_version_above owned key v : v ∈ owned -> av_key v = key -> av_version v < next_version owned key.
Proof.
  intros Hin Hk. unfold next_version. set (l := map av_version _).
  assert (Hl : av_version v ∈ l) by (apply list_elem_of_fmap_2, bfilter_elem; split; [done|]; by apply String.eqb_eq).
  assert (H : forall a, a <= foldl Z.max a l /\ forall x, x ∈ l -> x <= foldl Z.max a l); [|specialize (H 0) as [_ H]; specialize (H _ Hl); lia].
  clear. induction l as [|y l IH]; intros a; simpl; [split; [lia|by intros x ?%not_elem_of_nil]|].
  destruct (IH (Z.max a y)) as [H1 H2]. split; [lia|]. intros x [->|Hx]%elem_of_cons; [lia|by apply H2].
Qed.

Lemma next_version_pos owned key : 0 < next_version owned key.
Proof.
  unfold next_version. set (l := map av_version _). assert (H : forall a, a <= foldl Z.max a l); [|specialize (H 0); lia].
  clear. induction l as [|y l IH]; intros a; simpl; [lia|]. specialize (IH (Z.max a y)). lia.
Qed.

Section materialize.
Context (secretValueDigest : string -> string -> string -> option string) (orgId : string) (actor : option string).
Context (node service : string) (owned : list AppSecretVersion) (mounted : list (string * AppSecretVersion)).

(** The creation of a version for an upsert: a new name, for a version above every
    one of its key, holding the value, labelled as what it is. *)
Record creates (taken : list string) (u : SecretUpsert) (name : string) (ev : event effect) (version : Z) : Prop := {
  cr_fresh : name ∉ taken;
  cr_name : name = appSecretName service (su_key u) version;
  cr_above : 0 < version /\ forall v, v ∈ owned -> av_key v = su_key u -> av_version v < version;
  cr_value : exists value dataB64 labels a, su_value u = Some value /\ value <> "" /\ fromB64 dataB64 = Some value /\
    labels = appSecretLabels service (su_key u) version orgId actor (secretValueDigest service (su_key u) value) /\
    ev = Event (SecretCreate node name dataB64 labels) a
}.

(** The secret of an upsert: the mounted version when no value is given or it has the
    digest of the value, and otherwise one that was created. *)
Definition keeps (u : SecretUpsert) (name : string) : Prop :=
  exists c, get (su_key u) mounted = Some c /\ name = av_name c /\
    forall value, truthy_str (su_value u) = Some value -> exists d, secretValueDigest service (su_key u) value = Some d /\ av_digest c = Some d.

Definition sourced (taken : list string) (t : list (event effect)) (u : SecretUpsert) (d : SecretVarDesired) : Prop :=
  sd_key d = su_key u /\ sd_delivery d = su_delivery u /\
  (keeps u (sd_secretName d) \/
   exists ev version, ev ∈ t /\ creates taken u (sd_secretName d) ev version /\ succeeded ev = true).

Lemma unchanged_keeps u c value : unchanged (get (su_key u) mounted) (secretValueDigest service (su_key u) value) = Some c ->
  truthy_str (su_value u) = Some value -> keeps u (av_name c).
Proof.
  unfold unchanged. intros H Hv. destruct (get (su_key u) mounted) as [c'|] eqn:Em; [|done].
  destruct (truthy_str (secretValueDigest service (su_key u) value)) as [d|] eqn:Ed; [|done]. case_bool_decide as Hd; [|done].
  injection H as <-. exists c'. split; [done|]. split; [done|]. intros value' Hv'. rewrite Hv in Hv'. injection Hv' as <-. exists d.
  split; [|done]. unfold truthy_str in Ed. destruct (secretValueDigest _ _ _) as [d'|]; [|done]. by destruct (String.eqb d' "").
Qed.

Lemma sourced_mono taken taken' t t' u d : (forall n, n ∈ taken -> n ∈ taken') -> sourced taken' t u d -> sourced taken (t' ++ t) u d.
Proof.
  intros Ht (H1 & H2 & H3). split; [done|]. split; [done|]. destruct H3 as [H3|(ev & v & Hin & [F N A V] & Hs)]; [by left|right].
  exists ev, v. split; [apply elem_of_app; by right|]. split; [|done]. split; try done. intros Hn. by apply F, Ht.
Qed.

(** Every call creates a version of its own for an upsert, and when all is done each
    upsert has its secret. *)
Lemma materialize_spec taken ups t x :
  traces (materialize secretValueDigest orgId actor node service owned mounted taken ups) t x ->
  Forall (fun ev => exists u name version, u ∈ ups /\ creates taken u name ev version) t /\
  (forall ds rs, x = inl (ds, rs) -> Forall2 (sourced taken t) ups ds).
Proof.
  revert taken t x. induction ups as [|u ups IH]; intros taken t x.
  { intros [-> ->]. split; [constructor|]. intros ds rs [= <- <-]. constructor. }
  cbn [materialize].
  assert (Hnext : forall taken' d rot t x, (forall n, n ∈ taken -> n ∈ taken') ->
    traces (let* (desired, rs) := materialize secretValueDigest orgId actor node service owned mounted taken' ups in
            Ret (d :: desired, rot ++ rs)) t x ->
    Forall (fun ev => exists u0 name version, u0 ∈ u :: ups /\ creates taken u0 name ev version) t /\
    forall ds rs, x = inl (ds, rs) -> exists ds', ds = d :: ds' /\ Forall2 (sourced taken' t) ups ds').
  { intros taken' d rot t' x' Hsub H. apply traces_bind in H as [(e & H & ->)|([ds rs] & t1 & t2 & -> & H & [-> ->])]; apply IH in H as [H1 H2]; (split; [|]).
    - eapply Forall_impl; [exact H1|]. intros ev (u0 & name & v & Hu & [F N A V]). exists u0, name, v. split; [by right|]. split; try done. intros Hn. by apply F, Hsub.
    - by intros ? ? [=].
    - rewrite app_nil_r. eapply Forall_impl; [exact H1|]. intros ev (u0 & name & v & Hu & [F N A V]). exists u0, name, v. split; [by right|]. split; try done. intros Hn. by apply F, Hsub.
    - intros ds' rs' [= <- <-]. exists ds. split; [done|]. rewrite app_nil_r. by apply (H2 ds rs). }
  assert (Hkeep : forall c, get (su_key u) mounted = Some c \/ True -> keeps u (av_name c) -> forall t x,
    traces (let* (desired, rs) := materialize secretValueDigest orgId actor node service owned mounted taken ups in
            Ret (kept_var u c :: desired, [] ++ rs)) t x ->
    Forall (fun ev => exists u0 name version, u0 ∈ u :: ups /\ creates taken u0 name ev version) t /\
    forall ds rs, x = inl (ds, rs) -> Forall2 (sourced taken t) (u :: ups) ds).
  { intros c _ Hk t' x' H. apply Hnext in H as [H1 H2]; [|done]. split; [done|]. intros ds rs E. destruct (H2 _ _ E) as (ds' & -> & Hf).
    constructor; [|done]. split; [done|]. split; [done|]. by left. }
  destruct (truthy_str (su_value u)) as [value|] eqn:Ev.
  - cbv zeta. destruct (unchanged _ _) as [c|] eqn:Eu.
    { intros H. apply (Hkeep c); [by right|by eapply unchanged_keeps|done]. }
    pose proof (free_version_fresh service (su_key u) (next_version owned (su_key u)) taken) as Hfree.
    destruct (free_version _ _ _ _ _) as [v name]. pose proof (next_version_pos owned (su_key u)) as Hpos.
    destruct Hfree as (Hr & Hn & Hf); [lia|]. intros H.
    assert (Hval : su_value u = Some value /\ value <> "").
    { unfold truthy_str in Ev. destruct (su_value u) as [v'|]; [|done]. destruct (String.eqb_spec v' ""); [done|]. by injection Ev as <-. }
    assert (Hc : forall a, creates taken u name (Event (SecretCreate node name (toB64 value)
      (appSecretLabels service (su_key u) v orgId actor (secretValueDigest service (su_key u) value))) a) v).
    { intros a. split; [done|done| |].
      - split; [lia|]. intros w Hw Hkw. pose proof (next_version_above owned (su_key u) w Hw Hkw). lia.
      - destruct Hval. eexists value, _, _, a. split; [done|]. split; [done|]. split; [|by split]. by apply toB64_roundtrip. }
    apply traces_bind in H as [(e & (a & -> & E)%traces_mapped & ->)|([] & t1 & t2 & -> & (a & -> & E)%traces_mapped & H)].
    + split; [|by intros ? ? [=]]. constructor; [|constructor]. exists u, name, v. split; [left|apply Hc].
    + destruct a as [[]|]; [|done]. apply Hnext in H as [H1 H2]; [|by right]. split.
      * constructor; [|done]. exists u, name, v. split; [left|apply Hc].
      * intros ds rs Ex. destruct (H2 _ _ Ex) as (ds' & -> & Hf2). constructor.
        -- split; [done|]. split; [done|]. right. eexists _, v. split; [left|]. split; [apply Hc|done].
        -- eapply Forall2_impl; [exact Hf2|]. intros u0 d0 H0. refine (sourced_mono taken (name :: taken) _ [_] _ _ _ H0). by right.
  - destruct (get (su_key u) mounted) as [c|] eqn:Em; cycle 1.
    { intros [-> ->]. split; [constructor|]. by intros ? ? [=]. }
    intros H. apply (Hkeep c); [by left| |done]. exists c. split; [done|]. split; [done|]. intros value Hv'. by rewrite Ev in Hv'.
Qed.
End materialize.

(** One upsert makes at most one call. *)
Lemma materialize_one digest orgId actor node service owned mounted taken u t x :
  traces (materialize digest orgId actor node service owned mounted taken [u]) t x -> (length t <= 1)%nat.
Proof.
  cbn [materialize]. intros H.
  assert (Hret : forall d rot t x, traces (let* (desired, rs) := (Ret ([], []) : program (list SecretVarDesired * list Rotation)) in
    Ret (d :: desired, rot ++ rs)) t x -> t = []) by (by intros d rot t' x' [-> _]).
  destruct (truthy_str (su_value u)) as [value|]; [|destruct (get _ _) as [c|]].
  - cbv zeta in H. destruct (unchanged _ _); [apply Hret in H as ->; simpl; lia|]. destruct (free_version _ _ _ _ _) as [v name].
    apply traces_bind in H as [(e & (a & -> & E)%traces_mapped & ->)|([] & t1 & t2 & -> & (a & -> & E)%traces_mapped & H%Hret)]; [simpl; lia|].
    subst t2. simpl. lia.
  - apply Hret in H as ->. simpl. lia.
  - destruct H as [-> _]. simpl. lia.
Qed.

(** * Setting and removing a variable *)

Inductive VarRequest := SetVar (u : SecretUpsert) | RemoveVar (key : string).

(** The calls that change something of Docker's. *)
Definition touches {X} (c : effect X) : bool :=
  match c with
  | ServiceDeploy _ _ _ _ | ServiceUpdateLabels _ _ _ _ | ServiceRemove _ _ | SecretCreate _ _ _ _ | SecretRemove _ _ => true
  | _ => false
  end.

Definition quiet (t : list (event effect)) : Prop := Forall (fun e => touches (ev_call e) = false) t.

Definition is_ok {A} (r : A + failure) : bool := match r with inl _ => true | inr _ => false end.

Section requests.
Context (localeCompare : string -> string -> Z) (secretValueDigest : string -> string -> string -> option string).
Context (orgId : string) (actor : option string) (all : list InvService) (m : option string) (id : string).

(** A run of a request, with whether it succeeded. *)
Definition request (q : VarRequest) (t : list (event effect)) (ok : bool) : Prop :=
  match q with
  | SetVar u => exists r, traces (setSecretVar localeCompare secretValueDigest orgId actor all m id u) t r /\ ok = is_ok r
  | RemoveVar key => exists r, traces (removeSecretVar localeCompare orgId all m id key) t r /\ ok = is_ok r
  end.

(** The versions of a service among the rows that were listed. *)
Definition owned_by (svc : InvService) (rows : list SecretRow) : list AppSecretVersion :=
  versionsOf (decodeAppSecrets localeCompare rows orgId) (iv_name svc).

(** The change a request stands for, given what it called before. *)
Definition asks (q : VarRequest) (node : string) (svc : InvService) (owned : list AppSecretVersion) (before : list (event effect)) (c : Change) : Prop :=
  let mounted := mountedVersions owned (iv_secrets svc) in
  match q with
  | SetVar u => exists d, sourced secretValueDigest orgId actor node (iv_name svc) owned mounted (map av_name owned) before u d /\
                          c = {| ch_upserts := [d]; ch_remove := []; ch_demote := [] |}
  | RemoveVar key => is_Some (get key mounted) /\ c = {| ch_upserts := []; ch_remove := [key]; ch_demote := [] |}
  end.

(** What a request deploys: the change planned on what was read back. *)
Definition var_deploy (q : VarRequest) (node : string) (svc : InvService) (owned : list AppSecretVersion) (before : list (event effect)) (spec : ServiceSpec) : Prop :=
  exists raw live c, Event (ServiceInspect node (iv_name svc)) (inl raw) ∈ before /\ live_read (service_ref svc) raw = Some live /\
    asks q node svc owned before c /\ spec = planSecretSpec live owned c live.

Definition var_event (q : VarRequest) (before : list (event effect)) (ev : event effect) : Prop :=
  touches (ev_call ev) = true ->
  exists svc node rows, resolveLiveService all id = Some svc /\ m = Some node /\ Event (SecretList node) (inl rows) ∈ before /\
    let owned := owned_by svc rows in
    (exists u name version, q = SetVar u /\ quiet before /\
       creates secretValueDigest orgId actor node (iv_name svc) owned (map av_name owned) u name ev version) \/
    (exists spec, change_of ev = Some (Deployed node spec pull_missing) /\ var_deploy q node svc owned before spec).

(** A patch with a planned change, after the calls that prepared it. *)
Lemma patched_events q node svc rows before c t r : resolveLiveService all id = Some svc -> m = Some node ->
  Event (SecretList node) (inl rows) ∈ before -> asks q node svc (owned_by svc rows) before c ->
  traces (patchLiveService m (service_ref svc) (transform_patch (fun spec => planSecretSpec spec (owned_by svc rows) c spec)) (deploy_options node)) t r ->
  every (var_event q) before t /\
  match r with
  | inl spec => exists raw live, live_read (service_ref svc) raw = Some live /\ spec = planSecretSpec live (owned_by svc rows) c live /\
                  t = [Event (ServiceInspect node (iv_name svc)) (inl raw);
                       Event (ServiceDeploy node spec pull_missing (Some DEPLOY_TIMEOUT_MS)) (inl tt)]
  | inr _ => True
  end.
Proof.
  intros Hsvc Hm Hrows Hc [(Hn & _)|(n & a & t' & [= <-] & -> & H)]%patch_traces; [done|].
  assert (Hquiet : forall b, var_event q b (Event (ServiceInspect node (iv_name svc)) a)) by done.
  destruct a as [raw|e]; [|destruct H as [-> ->]; by split].
  destruct (live_read (service_ref svc) raw) as [live|] eqn:El; [|destruct H as [-> ->]; by split].
  assert (Ep : applyServicePatch live (transform_patch (fun spec => planSecretSpec spec (owned_by svc rows) c spec)) = planSecretSpec live (owned_by svc rows) c live)
    by (by destruct live).
  rewrite Ep in H. destruct H as [(e & [=] & _)|(a & -> & ->)]. split.
  - cbn [deploy_options po_beforeDeploy app every]. split; [done|]. split; [|done]. intros _. exists svc, node, rows. split; [done|]. split; [done|]. split; [apply elem_of_app; by left|].
    right. eexists. split; [done|]. exists raw, live, c. split; [apply elem_of_app; right; left|]. split; [done|]. split; [|done].
    destruct q as [u|key]; [|done]. destruct Hc as (d & Hs & ->). exists d. split; [|done]. destruct Hs as (H1 & H2 & H3). split; [done|]. split; [done|].
    destruct H3 as [H3|(ev & v & Hin & H3)]; [by left|]. right. exists ev, v. split; [apply elem_of_app; by left|done].
  - destruct a as [[]|]; [|done]. exists raw, live. by split_and!.
Qed.

(** The deploy a request ends with. *)
Definition deployed_last (t : list (event effect)) : Prop :=
  exists t1 node spec t2, t = t1 ++ Event (ServiceDeploy node spec pull_missing (Some DEPLOY_TIMEOUT_MS)) (inl tt) :: t2 /\ quiet t2.

Lemma quiet_events q before t : quiet t -> every (var_event q) before t.
Proof. intros H. apply every_Forall. eapply Forall_impl; [exact H|]. intros ev E b Ht. by rewrite E in Ht. Qed.

Lemma patched_then {A} q node svc rows before c (k : program A) t r : resolveLiveService all id = Some svc -> m = Some node ->
  Event (SecretList node) (inl rows) ∈ before -> asks q node svc (owned_by svc rows) before c -> (forall t r, traces k t r -> quiet t) ->
  traces (do* patchLiveService m (service_ref svc) (transform_patch (fun spec => planSecretSpec spec (owned_by svc rows) c spec)) (deploy_options node) in k) t r ->
  every (var_event q) before t /\ (is_ok r = true -> deployed_last t).
Proof.
  intros Hs Hm Hl Hc Hk H. pose proof (fun t r => patched_events q node svc rows before c t r Hs Hm Hl Hc) as Hp.
  apply traces_bind in H as [(e & H & ->)|(spec & t1 & t2 & -> & H & H2)]; apply Hp in H as [He Hr]; [by split|].
  apply Hk in H2. split; [apply every_app; split; [exact He|by apply quiet_events]|]. intros _.
  destruct Hr as (raw & live & _ & _ & ->). by exists [Event (ServiceInspect node (iv_name svc)) (inl raw)], node, spec, t2.
Qed.

Lemma list_traces node t r : traces (listAppSecretVersions localeCompare orgId node) t r ->
  exists a, t = [Event (SecretList node) a] /\ r = match a with inl rows => inl (decodeAppSecrets localeCompare rows orgId) | inr e => inr (mapDispatchError e) end.
Proof.
  unfold listAppSecretVersions. intros [(e & (a & -> & E)%traces_mapped & ->)|(rows & t1 & t2 & -> & (a & -> & E)%traces_mapped & [-> ->])]%traces_bind;
    exists a; destruct a; by simplify_eq.
Qed.

(** The way a request starts: a known service, a manager, the versions there are. *)
Lemma request_starts {A} (body : InvService -> string -> list AppSecretVersion -> program A) q t r :
  traces (let* svc := require_service all id in let* node := manager_or_throw m in
          let* versions := listAppSecretVersions localeCompare orgId node in body svc node versions) t r ->
  ((every (var_event q) [] t /\ exists e, r = inr e) \/
   exists svc node rows t', resolveLiveService all id = Some svc /\ m = Some node /\ t = Event (SecretList node) (inl rows) :: t' /\
     traces (body svc node (decodeAppSecrets localeCompare rows orgId)) t' r).
Proof.
  unfold require_service, manager_or_throw. intros H.
  apply traces_bind in H as [(e & [-> _]%settled_trace & ->)|(svc & t1 & t2 & -> & [-> Es]%settled_trace & H)]; [by left; split; [|eexists]|].
  destruct (resolveLiveService all id) as [svc'|] eqn:El; [|done]. injection Es as ->.
  apply traces_bind in H as [(e & [-> _]%settled_trace & ->)|(node & t3 & t4 & -> & [-> En]%settled_trace & H)]; [by left; split; [|eexists]|].
  assert (Hm : m = Some node) by (destruct m; congruence). cbn [app].
  apply traces_bind in H as [(e & (a & -> & _)%list_traces & ->)|(versions & t5 & t6 & -> & (a & -> & Ev)%list_traces & H)].
  { left. split; [by split|by eexists]. }
  right. destruct a as [rows|]; [|done]. injection Ev as ->. by exists svc', node, rows, t6.
Qed.

Lemma request_events q t ok : request q t ok -> every (var_event q) [] t /\ (ok = true -> deployed_last t).
Proof.
  intros H. destruct q as [u|key]; destruct H as (r & H & ->).
  - unfold setSecretVar in H. apply (request_starts _ (SetVar u)) in H as [(He & e & ->)|(svc & node & rows & t' & Es & Em & -> & H)]; [by split|].
    cbv beta in H. fold (owned_by svc rows) in H. set (listed := Event (SecretList node) (inl rows)) in *. set (owned := owned_by svc rows) in *.
    assert (Hmat : forall t x, traces (materializeSecretVars secretValueDigest orgId actor node (iv_name svc) [u] owned (mountedVersions owned (iv_secrets svc))) t x ->
      every (var_event (SetVar u)) [listed] t).
    { intros t2 x H2. pose proof (materialize_one _ _ _ _ _ _ _ _ _ _ _ H2) as Hl. apply materialize_spec in H2 as [H2 _].
      destruct t2 as [|ev [|]]; [done| |simpl in Hl; lia]. split; [|done]. intros _. exists svc, node, rows. split; [done|]. split; [done|]. split; [by left|].
      left. apply Forall_singleton in H2 as (u' & name & v & ->%list_elem_of_singleton & Hc). exists u, name, v. split; [done|]. split; [by repeat constructor|exact Hc]. }
    apply traces_bind in H as [(e & H & ->)|([desired rotated] & t1 & t2 & -> & H1 & H)].
    { split; [|done]. split; [done|]. cbn [app]. by eapply Hmat. }
    pose proof (Hmat _ _ H1) as He1. apply materialize_spec in H1 as [_ Hd]. specialize (Hd _ _ eq_refl).
    inversion Hd as [|? d ? l Hs Hd']; subst. inversion Hd'; subst.
    assert (Hask : asks (SetVar u) node svc owned (listed :: t1) {| ch_upserts := [d]; ch_remove := []; ch_demote := [] |}).
    { exists d. split; [|done]. destruct Hs as (Ha & Hb & Hs). split; [done|]. split; [done|]. destruct Hs as [Hs|(ev & v & Hin & Hs)]; [by left|right].
      exists ev, v. split; [by right|done]. }
    eapply (patched_then (SetVar u) node svc rows (listed :: t1)) in H as [Hp Hok]; [|done|done|by left|exact Hask|].
    + split; [|intros E; apply Hok in E as (t3 & n & spec & t4 & -> & Hq); exists (listed :: t1 ++ t3), n, spec, t4; by rewrite <- app_comm_cons, <- app_assoc].
      split; [done|]. cbn [app]. apply every_app. by split.
    + intros t3 r3 [(e & ->%traces_await & ->)|([] & t4 & t5 & -> & ->%traces_await & [-> ->])]%traces_bind; by repeat constructor.
  - unfold removeSecretVar in H. apply (request_starts _ (RemoveVar key)) in H as [(He & e & ->)|(svc & node & rows & t' & Es & Em & -> & H)]; [by split|].
    cbv beta in H. fold (owned_by svc rows) in H. set (listed := Event (SecretList node) (inl rows)) in *. set (owned := owned_by svc rows) in *.
    case_bool_decide as Hk; [|destruct H as [-> ->]; by split].
    assert (Hask : asks (RemoveVar key) node svc owned [listed] {| ch_upserts := []; ch_remove := [key]; ch_demote := [] |}) by done.
    eapply (patched_then (RemoveVar key) node svc rows [listed]) in H as [Hp Hok]; [|done|done|by left|exact Hask|].
    + split; [by split|]. intros E. apply Hok in E as (t3 & n & spec & t4 & -> & Hq). by exists (listed :: t3), n, spec, t4.
    + intros t3 r3 ->%traces_await. by repeat constructor.
Qed.
(** C23: Setting or removing a secret variable of a deployed service changes Docker
    in at most two ways, in this order.  A version is created only for a value that
    was given: under a name that no version of the service has, with a version
    number above all of the variable's, holding exactly the value, and nothing was
    changed before.  A specification is deployed only once the service was read back
    and, where a version was needed, its creation had succeeded: it is what was read
    with the change planned on it.  Nothing is ever removed, and the request answers
    with success only when the deploy was accepted. *)
Theorem secret_request_justified q t ok : request q t ok ->
  (forall t1 ev t2, t = t1 ++ ev :: t2 -> var_event q t1 ev) /\ (ok = true -> deployed_last t).
Proof. intros [He Hok]%request_events. split; [|exact Hok]. intros t1 ev t2 E. exact (every_split _ [] t t1 ev t2 He E). Qed.

End requests.

(** ** What the variables are after a request *)

Lemma version_named_mem owned n : is_Some (version_named owned n) <-> n ∈ map av_name owned.
Proof.
  unfold version_named. induction owned as [|v owned IH] using rev_ind; [split; [by intros [? ?]|by intros ?%not_elem_of_nil]|].
  rewrite foldl_app, map_app, elem_of_app. simpl. rewrite list_elem_of_singleton.
  destruct (String.eqb_spec (av_name v) n) as [->|Hne]; [split; [by right|done]|]. rewrite IH. naive_solver.
Qed.

Lemma current_named s owned d : d ∈ currentDesired s owned -> sd_secretName d ∈ map av_name owned.
Proof.
  unfold currentDesired. intros (r & _ & Hr)%list_elem_of_omap. unfold current_var in Hr. destruct (version_named owned (rf_source r)) as [v|] eqn:E; [|done].
  injection Hr as <-. apply version_named_mem. cbn [sd_secretName]. by rewrite E.
Qed.

Lemma merged_elem live c d : d ∈ merged_vars live c -> d ∈ ch_upserts c \/ d ∈ live.
Proof.
  intros Hin. pose proof (merged_change live c (sd_key d)) as E. rewrite (var_of_unique _ d (merged_keyed live c) Hin) in E. unfold change_vars in E.
  destruct (var_of (ch_upserts c) (sd_key d)) as [d'|] eqn:Eu; [left|right]; [injection E as <-; by apply var_of_some in Eu as [? _]|].
  destruct (mem _ _); [done|]. symmetry in E. by apply var_of_some in E as [? _].
Qed.

Definition upserted (c : Change) : list string := map sd_secretName (ch_upserts c).

(** What a planned change leaves, compared to what was observed [o] of a service with
    the variables [live]: the variables, read with the versions there are then; how
    each is mounted, and that no plain value shadows it; the other mounts and
    environment variables; every other field. *)
Record var_outcome (o : ServiceSpec) (live : list SecretVarDesired) (owned : list AppSecretVersion) (c : Change) (spec : ServiceSpec) : Prop := {
  vo_vars owned' : (forall n, n ∈ map av_name owned' <-> n ∈ map av_name owned \/ n ∈ upserted c) ->
    (forall r, r ∈ default [] (ss_secrets o) -> rf_source r ∈ upserted c -> rf_source r ∈ map av_name owned) ->
    forall k, var_of (currentDesired spec owned') k = change_vars (var_of live) c k;
  vo_mounted k d : change_vars (var_of live) c k = Some d ->
    get k (env_of spec) = None /\ forall r, r ∈ default [] (ss_secrets spec) /\ ref_target r = k <-> r = desired_ref d;
  vo_others r : change_vars (var_of live) c (ref_target r) = None ->
    r ∈ default [] (ss_secrets spec) <-> r ∈ default [] (ss_secrets o) /\ rf_source r ∉ map av_name owned;
  vo_env k : change_vars (var_of live) c k = None -> (forall k' d, change_vars (var_of live) c k' = Some d -> k <> file_var k') ->
    get k (env_of spec) = get k (env_of o) \/ get k (env_of spec) = None /\ exists t, k = file_var t /\ get k (env_of o) = Some (secret_path t);
  vo_rest : set_secretEnv None (set_env None (set_secrets None spec)) = set_secretEnv None (set_env None (set_secrets None o))
}.

Lemma plan_outcome o owned c live : user_spec o -> currentDesired o owned = live -> apart (map sd_key (ch_upserts c ++ live)) ->
  var_outcome o live owned c (planSecretSpec o owned c o).
Proof.
  intros Hu El Ha. unfold planSecretSpec. rewrite El. pose proof (merged_keyed live c) as Hd.
  pose proof (merged_change live c) as Em. pose proof (fun d => merged_elem live c d) as He. set (l := merged_vars live c) in *.
  assert (Ha' : apart (map sd_key l)).
  { intros k k' (d & -> & Hd1%He)%list_elem_of_fmap (d' & -> & Hd2%He)%list_elem_of_fmap. apply Ha; apply list_elem_of_fmap_2, elem_of_app; done. }
  assert (Hk : forall k, change_vars (var_of live) c k = None <-> k ∉ map sd_key l).
  { intros k. rewrite <- Em, <- var_of_keys, <- not_eq_None_Some. destruct (var_of l k); [|tauto]. split; [done|]. intros H. by destruct H. }
  split.
  - intros owned' Ho Hf k. rewrite (applied_current o l _ Hu Ha' Hd), Em; [done| |].
    + intros d Hin. apply version_named_mem, Ho. apply He in Hin as [Hin|Hin]; [right; by apply list_elem_of_fmap_2|left]. rewrite <- El in Hin. by apply current_named in Hin.
    + intros r Hr Hm. apply eq_None_not_Some. rewrite version_named_mem, Ho. intros [?|Hs]; [done|]. by apply Hm, Hf.
  - intros k d E. rewrite <- Em in E. apply var_of_some in E as [Hin <-]. split; [apply applied_no_value; [done..|by apply list_elem_of_fmap_2]|].
    intros r. rewrite applied_secrets by done. rewrite elem_of_app, bfilter_elem, andb_true_iff, !negb_true_iff, !mem_false. split.
    + intros [[(_ & _ & Ht)|(d' & -> & Hin')%list_elem_of_fmap] Et].
      * destruct Ht. rewrite Et. by apply list_elem_of_fmap_2.
      * f_equal. symmetry. by apply (map_key_inj sd_key l).
    + intros ->. split; [|done]. right. by apply list_elem_of_fmap_2.
  - intros r E%Hk. rewrite applied_secrets by done. rewrite elem_of_app, bfilter_elem, andb_true_iff, !negb_true_iff, !mem_false. split.
    + intros [(H1 & H2 & _)|(d & -> & Hin)%list_elem_of_fmap]; [done|]. destruct E. by apply (list_elem_of_fmap_2 sd_key).
    + intros [H1 H2]. by left.
  - intros k E%Hk Hf. destruct (applied_other o l (map av_name owned) Hu k E) as [H|(H & t & _ & Hp)].
    + intros d Hin _. apply (Hf (sd_key d) d). rewrite <- Em. by apply var_of_unique.
    + by left.
    + right. split; [exact H|]. by exists t.
  - by apply applied_rest.
Qed.

Section rotation.
Context (localeCompare : string -> string -> Z) (secretValueDigest : string -> string -> string -> option string).
Context (orgId : string) (actor : option string) (all : list InvService) (m : option string) (id : string).

(** Docker answered the inspections with the body that an agent sent for [s]. *)
Record answered (node : string) (svc : InvService) (t : list (event effect)) (shell : bool) (s : ServiceSpec) : Prop := {
  aw_user : user_spec s;
  aw_ok : spec_ok s;
  aw_apart : independent (wanted_names s) (env_of s);
  aw_image : ss_image s <> "";
  aw_body : exists sw image shim w body, prepareSecretEnv image shell shim s = Ok w /\ sends sw w body /\
    forall raw, Event (ServiceInspect node (iv_name svc)) (inl raw) ∈ t -> raw = inspected body
}.

(** The specification that a patch starts from. *)
Definition read_of (svc : InvService) (shell : bool) (s : ServiceSpec) : ServiceSpec :=
  on_image (Some (iv_image svc)) (observed shell s (networkNames (service_ref svc))).

Lemma answered_read node svc t shell s raw live : answered node svc t shell s ->
  Event (ServiceInspect node (iv_name svc)) (inl raw) ∈ t -> live_read (service_ref svc) raw = Some live -> live = read_of svc shell s.
Proof.
  intros [Hu Hok Hi Himg (sw & image & shim & w & body & Hw & Hb & Hr)] Hin Hl. rewrite (Hr _ Hin) in Hl.
  rewrite (live_read_observed _ _ s shell) in Hl; [by injection Hl| |done]. by eapply read_back_observed.
Qed.

Lemma answered_current node svc t shell s owned : answered node svc t shell s -> var_spec s owned ->
  user_spec (read_of svc shell s) /\ currentDesired (read_of svc shell s) owned = currentDesired s owned.
Proof.
  intros [Hu Hok _ _ _] Hv. pose proof (observed_user shell s (networkNames (service_ref svc)) Hu Hok) as Ho.
  split; [by apply set_image_user|]. unfold read_of, on_image. rewrite current_image by done. by apply current_observed.
Qed.

(** C12: A request on a secret variable refines an update of the map of variables that
    it is: when Docker answers with the body the agent sent for a specification, the
    one the request deploys has, read back, the variables of that specification with
    the one that was set or removed changed, its secret being the mounted version or
    the created one that holds the value; each variable is mounted at its key exactly
    once and leaves no plain value behind; what is mounted otherwise, the other
    environment variables and every other field are as they were observed, on the
    image of the inventory, except for the pointers of variables that were files. *)
Theorem secret_rotation_refines q t1 ev t2 ok node spec pull :
  request localeCompare secretValueDigest orgId actor all m id q (t1 ++ ev :: t2) ok -> change_of ev = Some (Deployed node spec pull) ->
  exists svc rows c, resolveLiveService all id = Some svc /\ Event (SecretList node) (inl rows) ∈ t1 /\
    let owned := owned_by localeCompare orgId svc rows in
    asks secretValueDigest orgId actor q node svc owned t1 c /\
    forall shell s, answered node svc t1 shell s -> var_spec s owned -> apart (map sd_key (ch_upserts c ++ currentDesired s owned)) ->
      var_outcome (read_of svc shell s) (currentDesired s owned) owned c spec.
Proof.
  intros [He _]%request_events Hc. pose proof (every_split _ _ _ _ _ _ He eq_refl) as Hev. cbn [app] in Hev.
  destruct Hev as (svc & node' & rows & Es & Em & Hl & Hev); [by destruct ev as [X [] a]|]. cbv zeta in Hev.
  destruct Hev as [(u & name & v & _ & _ & [_ _ _ (? & ? & ? & ? & _ & _ & _ & _ & ->)])|(spec' & Hs & raw & live & c & Hraw & Hlive & Hask & ->)]; [done|].
  rewrite Hs in Hc. injection Hc as <- <- <-. exists svc, rows, c. split; [done|]. split; [done|]. split; [done|].
  intros shell s Ha Hv Hap. pose proof (answered_read _ _ _ _ _ _ _ Ha Hraw Hlive) as ->. destruct (answered_current _ _ _ _ _ _ Ha Hv) as [Hu Ec].
  by apply plan_outcome.
Qed.
End rotation.

(** * Example: a new password for the deployed service of SpecRead *)

Definition rot_service : InvService :=
  {| iv_id := "x1"; iv_name := "shop_web"; iv_stack := "shop"; iv_image := "web:1"; iv_labels := []; iv_networks := ["shop_default"];
     iv_secrets := ["shop_web_DB_PASSWORD_v1"] |}.

Definition rot_rows : list SecretRow :=
  [{| sr_name := "shop_web_DB_PASSWORD_v1"; sr_createdAt := 0; sr_labels := appSecretLabels "shop_web" "DB_PASSWORD" 1 "org" None None |}].

(** Docker lists the first version and reads the service back. *)
Definition rot_answer : nat -> forall X, effect X -> X + failure := fun n X c =>
  match c in effect X return X + failure with
  | ServiceInspect _ _ => inl (inspected api_body)
  | SecretList _ => inl rot_rows
  | c => yes n _ c
  end.

Definition rot_upsert : SecretUpsert := {| su_key := "DB_PASSWORD"; su_value := Some "s3cret"; su_delivery := by_file |}.
Definition rot_read : ServiceSpec := read_of rot_service true api_spec.
Definition rot_owned : list AppSecretVersion := owned_by str_cmp "org" rot_service rot_rows.
Definition rot_new : SecretVarDesired := {| sd_key := "DB_PASSWORD"; sd_delivery := by_file; sd_secretName := "shop_web_DB_PASSWORD_v2" |}.
Definition rot_spec : ServiceSpec := planSecretSpec rot_read rot_owned {| ch_upserts := [rot_new]; ch_remove := []; ch_demote := [] |} rot_read.

Definition rot_before : list (event effect) :=
  [Event (SecretList "m1") (inl rot_rows);
   Event (SecretCreate "m1" "shop_web_DB_PASSWORD_v2" (toB64 "s3cret") (appSecretLabels "shop_web" "DB_PASSWORD" 2 "org" None None)) (inl tt);
   Event (ServiceInspect "m1" "shop_web") (inl (inspected api_body))].
Definition rot_deploy : event effect := Event (ServiceDeploy "m1" rot_spec pull_missing (Some DEPLOY_TIMEOUT_MS)) (inl tt).

Definition rot_program : program VarResult :=
  setSecretVar str_cmp (fun _ _ _ => None) "org" None [rot_service] (Some "m1") "x1" rot_upsert.
Definition rot_trace : list (event effect) := rot_before ++ rot_deploy :: [Event (WriteAudit "secrets.appVar.set" "x1") (inl tt)].

Lemma rot_ran : run rot_answer 0 rot_program = (rot_trace, inl {| vr_key := "DB_PASSWORD"; vr_version := 2; vr_rotated := true |}).
Proof. by vm_compute. Qed.

Lemma rot_runs : request str_cmp (fun _ _ _ => None) "org" None [rot_service] (Some "m1") "x1" (SetVar rot_upsert) rot_trace true.
Proof.
  pose proof (run_traces rot_answer 0 rot_program) as H. rewrite rot_ran in H. eexists. split; [exact H|done].
Qed.

Lemma secret_request_justified_witness :
  var_event str_cmp (fun _ _ _ => None) "org" None [rot_service] (Some "m1") "x1" (SetVar rot_upsert) rot_before rot_deploy /\
  deployed_last rot_trace.
Proof.
  destruct (secret_request_justified _ _ _ _ _ _ _ _ _ _ rot_runs) as [H1 H2]. split; [exact (H1 rot_before rot_deploy _ eq_refl)|exact (H2 eq_refl)].
Defined.

Lemma rot_answered t : (forall raw, Event (ServiceInspect "m1" "shop_web") (inl raw) ∈ t -> raw = inspected api_body) ->
  answered "m1" rot_service t true api_spec.
Proof.
  intros H. destruct api_ok as (H1 & H2 & _ & H4), api_sent as (H5 & H6 & H7). split; [exact H1|exact H2|exact H4|exact H5|].
  exists shop_swarm, (Ok shop_image), (Ok ()), api_deployed, api_body. split; [exact H6|]. split; [exact H7|exact H].
Qed.

Lemma rot_listed node rows : Event (SecretList node) (inl rows) ∈ rot_before -> rows = rot_rows.
Proof.
  intros H. apply (list_elem_of_fmap_2 list_answer) in H. cbn [rot_before fmap list_fmap list_answer ev_call ev_answer] in H.
  apply elem_of_cons in H as [H|[H|[H|H%elem_of_nil]%elem_of_cons]%elem_of_cons]; [|discriminate|discriminate|done]. injection H as ->. reflexivity.
Qed.

Lemma rot_inspected raw : Event (ServiceInspect "m1" "shop_web") (inl raw) ∈ rot_before -> raw = inspected api_body.
Proof.
  intros H. apply (list_elem_of_fmap_2 inspect_answer) in H. cbn [rot_before fmap list_fmap inspect_answer ev_call ev_answer] in H.
  apply elem_of_cons in H as [H|[H|[H|H%elem_of_nil]%elem_of_cons]%elem_of_cons]; [discriminate|discriminate| |done]. injection H as ->. reflexivity.
Qed.

Lemma rot_vars : var_spec api_spec rot_owned.
Proof.
  split. intros r Hr _. apply list_elem_of_singleton in Hr as ->. exists "DB_PASSWORD". split; [done|]. split; [done|].
  change (wanted_names api_spec) with ["DB_PASSWORD"]. by intros H%list_elem_of_singleton.
Qed.

Lemma secret_rotation_refines_witness : exists c,
  asks (fun _ _ _ => None) "org" None (SetVar rot_upsert) "m1" rot_service rot_owned rot_before c /\
  var_outcome rot_read (currentDesired api_spec rot_owned) rot_owned c rot_spec /\
  ss_secrets rot_spec = Some [desired_ref rot_new] /\ ss_secretEnv rot_spec = None /\
  ss_env rot_spec = Some [("LOG", "debug"); ("DB_PASSWORD_FILE", "/run/secrets/DB_PASSWORD")].
Proof.
  destruct (secret_rotation_refines _ _ _ _ _ _ _ (SetVar rot_upsert) rot_before rot_deploy
    [Event (WriteAudit "secrets.appVar.set" "x1") (inl tt)] true "m1" rot_spec pull_missing rot_runs eq_refl) as (svc & rows & c & Es & Hl & Hask & H).
  injection Es as <-. apply rot_listed in Hl as ->. exists c. split; [exact Hask|]. split; [|by vm_compute].
  refine (H true api_spec (rot_answered _ rot_inspected) rot_vars _). destruct Hask as (d & (Hk & _) & ->).
  change (apart [sd_key d; "DB_PASSWORD"]). rewrite Hk. intros k k' Hin Hin'.
  apply elem_of_cons in Hin as [Hin|Hin%list_elem_of_singleton]; apply elem_of_cons in Hin' as [Hin'|Hin'%list_elem_of_singleton]; by subst.
Defined.
