(* ===== verification/SecretSweep.v ===== *)
(** The sweep of secret versions (appSecretsToPrune of packages/core/src/app-secrets.ts
    and the worker apps/api/src/workers/app-secret-gc.ts): a version is removed when
    no service uses it, a rollback cannot need it any more, and, for a service that is
    gone, a newer one is kept. *)

From Stdlib Require Import QArith Qabs Lqa.
From S2P Require Import Prelude Comparators Json JsonText KvCodec Doubles JsNumber NetPolicy ServiceSpec SecretEnv SpecRead Effects ServicePatch Routes Canary AppSecrets.

Open Scope Z_scope.

(** * Waiting *)

Lemma nlt_trans_max x y z : nlt z (js_max x y) = false -> nlt z x = false.
Proof.
  unfold js_max. destruct (nlt x y) eqn:E; [|done]. unfold nlt in *. rewrite !Z.ltb_ge. apply Z.ltb_lt in E. intros H.
  pose proof (den_pos x) as Hx. pose proof (den_pos y) as Hy. pose proof (den_pos z) as Hz.
  set (a := num_of x) in *. set (b := num_of y) in *. set (c := num_of z) in *. set (p := den_of x) in *. set (q := den_of y) in *. set (r := den_of z) in *.
  assert (Hc : a * q * r <= b * r * p) by nia. assert (Hd : b * r * p <= c * q * p) by (apply Z.mul_le_mono_nonneg_r; lia). nia.
Qed.

Lemma num_neg_num z : z < 0 -> num_of (num z) < 0.
Proof.
  intros Hz. unfold num, rnd. destruct (Z.eqb_spec z 0); [lia|]. destruct (Z.ltb_spec 0 z); [lia|].
  assert (Hn : 0 < num_of (rnd_pos (- z) 1)).
  { apply num_pos. pose proof (rnd_pos_error (- z) 1 ltac:(lia) ltac:(lia)) as He. pose proof (inject_pos (- z) ltac:(lia)) as Hp.
    assert (E : (inject_Z (- z) / inject_Z 1 == inject_Z (- z))%Q) by (change (inject_Z 1) with 1%Q; field).
    rewrite E in He. apply Qabs_Qle_condition in He as [He _]. 
    assert (Hu : (inject_Z (- z) * ulp2 <= inject_Z (- z) * (1 # 2))%Q) by (apply Qmult_le_l; [done|by vm_compute]). lra. }
  revert Hn. unfold num_of, neg. simpl. lia.
Qed.

Lemma nle_num a b : 0 <= a < 2 ^ 53 -> b < 2 ^ 53 -> nle (num a) (num b) = true -> a <= b.
Proof.
  intros Ha Hb. unfold nle. destruct (Z.lt_ge_cases b 0) as [Hneg|Hpos].
  - assert (Hl : nlt (num b) (num a) = true); [|by rewrite Hl]. unfold nlt. apply Z.ltb_lt. pose proof (num_neg_num b Hneg). pose proof (den_pos (num a)).
    pose proof (den_pos (num b)). rewrite (num_frac a) by done. nia.
  - rewrite nlt_num by lia. intros H%negb_true_iff%Z.ltb_ge. lia.
Qed.

(** The wait of a service's labels is over. *)
Definition waited (labels : entries) (now since : Z) : Prop := past (grace_of (gateWindowSec labels)) now since = true.

Lemma past_grace w now since : now - since < 2 ^ 53 -> past (grace_of w) now since = true -> 600000 <= now - since.
Proof.
  intros Hr. unfold past, grace_of, nle. intros H%negb_true_iff%nlt_trans_max. apply nle_num; [lia|done|]. unfold nle. change (num 600000) with APP_SECRET_GC_GRACE_MS. by rewrite H.
Qed.

(** * Grouping *)

Definition vkey (v : AppSecretVersion) : string := av_service v +:+ nul +:+ av_key v.
Definition same_var (v w : AppSecretVersion) : Prop := av_service v = av_service w /\ av_key v = av_key w.
Definition of_key (k : string) (vs : list AppSecretVersion) : list AppSecretVersion := List.filter (fun v => String.eqb (vkey v) k) vs.
Definition plain_service (v : AppSecretVersion) : Prop := no_char (ascii_of_nat 0) (av_service v) = true.

Lemma nul_split a b a' b' : no_char (ascii_of_nat 0) a = true -> no_char (ascii_of_nat 0) a' = true -> a +:+ nul +:+ b = a' +:+ nul +:+ b' -> a = a' /\ b = b'.
Proof.
  revert a'. induction a as [|c a IH]; intros [|c' a']; cbn [no_char all_chars String.append]; intros Ha Ha' E.
  - injection E as ->. done.
  - exfalso. injection E as <- _. by rewrite Ascii.eqb_refl in Ha'.
  - exfalso. injection E as -> _. by rewrite Ascii.eqb_refl in Ha.
  - injection E as -> E. apply andb_true_iff in Ha as [_ Ha], Ha' as [_ Ha']. by destruct (IH a' Ha Ha' E) as [-> ->].
Qed.

Lemma vkey_same v w : plain_service v -> plain_service w -> vkey v = vkey w <-> same_var v w.
Proof. intros Hv Hw. split; [by apply nul_split|]. unfold vkey. by intros [-> ->]. Qed.

Lemma groups_get vs k : get k (foldl group_version [] vs) = match of_key k vs with [] => None | l => Some l end.
Proof.
  induction vs as [|v vs IH] using rev_ind; [done|]. rewrite foldl_app. unfold of_key. rewrite List.filter_app. fold (of_key k vs). simpl.
  unfold group_version at 1. fold (vkey v). rewrite get_obj_set, (String.eqb_sym k). destruct (String.eqb_spec (vkey v) k) as [<-|Hne].
  - rewrite IH. destruct (of_key (vkey v) vs); done.
  - by rewrite app_nil_r.
Qed.

Lemma groups_NoDup vs : NoDup (map fst (foldl group_version [] vs)).
Proof.
  assert (H : forall m, NoDup (map fst m) -> NoDup (map fst (foldl group_version m vs))); [|apply H; constructor].
  induction vs as [|v vs IH]; intros m Hm; simpl; [done|]. apply IH. by apply obj_set_NoDup.
Qed.

Lemma groups_elem vs k l : (k, l) ∈ foldl group_version [] vs <-> l = of_key k vs /\ l <> [].
Proof.
  split.
  - intros H%get_unique; [|apply groups_NoDup]. rewrite groups_get in H. by destruct (of_key k vs); simplify_eq.
  - intros [-> Hl]. apply get_elem. rewrite groups_get. by destruct (of_key k vs).
Qed.

Lemma of_key_elem k vs v : v ∈ of_key k vs <-> v ∈ vs /\ vkey v = k.
Proof. unfold of_key. by rewrite bfilter_elem, String.eqb_eq. Qed.

(** What the sweep prunes, version by version. *)
Lemma pruned_elem vs services now n : n ∈ appSecretsToPrune vs services now <->
  exists v, v ∈ vs /\ n = av_name v /\ v ∈ prune_group services now (of_key (vkey v) vs).
Proof.
  unfold appSecretsToPrune. rewrite js_sort_elem, list_elem_of_fmap. setoid_rewrite list_elem_of_In. setoid_rewrite in_flat_map. setoid_rewrite <- list_elem_of_In.
  assert (Hsub : forall g v, v ∈ prune_group services now g -> v ∈ g).
  { intros g v. unfold prune_group. cbv zeta. set (svc := head _ ≫= _). clearbody svc.
    assert (Ht : forall v, v ∈ tail (js_sort (cmp_desc av_version) g) -> v ∈ g).
    { intros w Hw. apply (js_sort_elem (cmp_desc av_version)). destruct (js_sort _ g); [done|by right]. }
    destruct svc as [s|]; [destruct (_ || _); [by intros ?%not_elem_of_nil|]|]; intros [Hin _]%bfilter_elem; [by apply js_sort_elem in Hin|by apply Ht]. }
  split.
  - intros (v & -> & [k l] & [-> _]%groups_elem & Hv). exists v. pose proof (Hsub _ _ Hv) as [Hin <-]%of_key_elem. done.
  - intros (v & Hin & -> & Hv). exists v. split; [done|]. exists (vkey v, of_key (vkey v) vs). split; [|done]. apply groups_elem. split; [done|].
    intros E. pose proof (Hsub _ _ Hv) as H. rewrite E in H. by apply elem_of_nil in H.
Qed.

(** * What may go *)

(** No update or rollback is running. *)
Definition idle (s : SwarmServiceInfo) : Prop :=
  forall st, truthy_str (sv_updateStatus s) = Some st -> st ∈ ["none"; "completed"; "rollback_completed"].

Definition in_use (services : list SwarmServiceInfo) (v : AppSecretVersion) : Prop := exists s, s ∈ services /\ av_name v ∈ sv_secrets s.
Definition gone (services : list SwarmServiceInfo) (v : AppSecretVersion) : Prop := forall s, s ∈ services -> sv_name s <> av_service v.

(** A version no service uses may go once its service is idle and both the last
    change of the service and the version are past the wait; for a service that is
    gone, once the version is past the default wait and superseded. *)
Definition may_go (services : list SwarmServiceInfo) (now : Z) (superseded : Prop) (v : AppSecretVersion) : Prop :=
  ~ in_use services v /\
  ((exists s, s ∈ services /\ sv_name s = av_service v /\ idle s /\ waited (sv_labels s) now (sv_updatedAt s) /\ waited (sv_labels s) now (av_createdAt v)) \/
   (gone services v /\ waited [] now (av_createdAt v) /\ superseded)).

Definition superseded (le : Z -> Z -> Prop) (vs : list AppSecretVersion) (v : AppSecretVersion) : Prop :=
  exists w, w ∈ vs /\ same_var v w /\ av_name v <> av_name w /\ le (av_version v) (av_version w).

Definition gc_view (s : SwarmServiceInfo) : GcServiceView :=
  {| gs_name := sv_name s; gs_secrets := sv_secrets s;
     gs_converged := match truthy_str (sv_updateStatus s) with Some st => mem st ["none"; "completed"; "rollback_completed"] | None => true end;
     gs_updatedAt := sv_updatedAt s; gs_gateWindowSec := gateWindowSec (sv_labels s) |}.

Lemma view_converged s : gs_converged (gc_view s) = true <-> idle s.
Proof.
  unfold idle. simpl. destruct (truthy_str (sv_updateStatus s)) as [st|]; [|split; [by intros _ st|done]].
  rewrite mem_In. split; [by intros H ? [= <-]|intros H; by apply H].
Qed.

Lemma service_named_spec views n : match service_named views n with
  | Some s => s ∈ views /\ gs_name s = n
  | None => forall s, s ∈ views -> gs_name s <> n
  end.
Proof.
  unfold service_named. induction views as [|s views IH] using rev_ind; [by intros s ?%not_elem_of_nil|].
  rewrite foldl_app. simpl. destruct (String.eqb_spec (gs_name s) n) as [E|E].
  - split; [apply elem_of_app; right; left|done].
  - destruct (foldl _ None views) as [s'|]; [destruct IH; split; [apply elem_of_app; by left|done]|].
    intros s' [Hin|Hin%list_elem_of_singleton]%elem_of_app; [by apply IH|by subst].
Qed.

Lemma used_spec services v : mem (av_name v) (flat_map gs_secrets (gcServiceViews services)) = true <-> in_use services v.
Proof.
  rewrite mem_In, list_elem_of_In, in_flat_map. unfold in_use. split.
  - intros (g & (s & <- & Hs)%in_map_iff & Hin). exists s. by rewrite !list_elem_of_In.
  - intros (s & Hs & Hin). exists (gc_view s). split; [apply in_map_iff; exists s; by rewrite <- list_elem_of_In|by apply list_elem_of_In].
Qed.

Lemma bfilter_NoDup {A} (f : A -> bool) l : NoDup l -> NoDup (List.filter f l).
Proof. rewrite !NoDup_ListNoDup. apply List.NoDup_filter. Qed.

Section sweep.
Context (services : list SwarmServiceInfo) (now : Z) (vs : list AppSecretVersion).
Context (Hnames : NoDup (map sv_name services)) (Hids : NoDup (map av_name vs)) (Hplain : Forall plain_service vs).
Local Abbreviation views := (gcServiceViews services).

(** The group of a version, newest first. *)
Lemma group_head v : v ∈ vs -> exists w rest, js_sort (cmp_desc av_version) (of_key (vkey v) vs) = w :: rest /\
  w ∈ vs /\ same_var v w /\ av_version v <= av_version w /\ (v = w \/ v ∈ rest) /\ w ∉ rest.
Proof using Hids Hplain.
  intros Hv. assert (Hg : v ∈ js_sort (cmp_desc av_version) (of_key (vkey v) vs)) by (by apply js_sort_elem, of_key_elem).
  destruct (js_sort _ _) as [|w rest] eqn:E; [by apply elem_of_nil in Hg|]. exists w, rest. split; [done|].
  destruct (js_sort_head (cmp_desc av_version) _ _ _ E) as (Hw & Hmax & _). apply of_key_elem in Hw as [Hw Hk]. split; [done|].
  rewrite Forall_forall in Hplain. split; [apply vkey_same; [by apply Hplain..|done]|]. split.
  - specialize (Hmax v). unfold cmp_desc in Hmax. enough (av_version v - av_version w <= 0) by lia. apply Hmax. by apply of_key_elem.
  - split; [by apply elem_of_cons in Hg|]. assert (Hd : NoDup (w :: rest)); [|by apply NoDup_cons in Hd as [? _]].
    rewrite <- E, (js_sort_perm (cmp_desc av_version)). unfold of_key. apply bfilter_NoDup. by eapply NoDup_fmap_1.
Qed.

Definition pruned (v : AppSecretVersion) : Prop := v ∈ prune_group views now (of_key (vkey v) vs).

(** The cases of a group. *)
Lemma pruned_cases v : v ∈ vs -> pruned v <->
  ~ in_use services v /\
  match service_named views (av_service v) with
  | Some g => gs_converged g = true /\ past (grace_of (gs_gateWindowSec g)) now (gs_updatedAt g) = true /\ past (grace_of (gs_gateWindowSec g)) now (av_createdAt v) = true
  | None => waited [] now (av_createdAt v) /\ v ∈ tail (js_sort (cmp_desc av_version) (of_key (vkey v) vs))
  end.
Proof using Hids Hplain.
  intros Hv. destruct (group_head v Hv) as (w & rest & E & Hw & [Hs _] & _ & Hin & _). unfold pruned, prune_group. cbv zeta.
  assert (Hg : v ∈ w :: rest) by (apply elem_of_cons; tauto).
  rewrite E. cbn [head mbind option_bind tail]. rewrite <- Hs, <- used_spec.
  destruct (service_named views (av_service v)) as [g|]; cbn [mbind option_bind].
  - destruct (gs_converged g); cbn [negb orb]; [|split; [by intros ?%elem_of_nil|by intros (_ & ? & _)]].
    destruct (past _ now (gs_updatedAt g)); cbn [negb]; [|split; [by intros ?%elem_of_nil|by intros (_ & _ & ? & _)]].
    rewrite bfilter_elem, andb_true_iff, negb_true_iff, <- not_true_iff_false. tauto.
  - rewrite bfilter_elem, andb_true_iff, negb_true_iff, <- not_true_iff_false. unfold waited. change (gateWindowSec []) with (@None number). tauto.
Qed.

Lemma named_view g n : service_named views n = Some g -> exists s, s ∈ services /\ sv_name s = n /\ g = gc_view s.
Proof using Type. intros E. pose proof (service_named_spec views n) as H. rewrite E in H. destruct H as [(s & -> & Hs)%list_elem_of_fmap Hn]. by exists s. Qed.

Lemma unnamed_gone v : service_named views (av_service v) = None <-> gone services v.
Proof using Type.
  pose proof (service_named_spec views (av_service v)) as H. split.
  - intros E. rewrite E in H. intros s Hs. apply (H (gc_view s)). by apply (list_elem_of_fmap_2 gc_view).
  - intros Hg. destruct (service_named views (av_service v)) as [g|]; [|done]. destruct H as [(s & -> & Hs)%list_elem_of_fmap Hn]. by destruct (Hg s).
Qed.

Lemma pruned_may_go v : v ∈ vs -> pruned v -> may_go services now (superseded Z.le vs v) v.
Proof using Hids Hplain.
  intros Hv [Hu Hc]%pruned_cases; [|done]. split; [done|]. destruct (service_named views (av_service v)) as [g|] eqn:E.
  - apply named_view in E as (s & Hs & Hn & ->). left. exists s. destruct Hc as (Hi & H1 & H2). split; [done|]. split; [done|]. split; [by apply view_converged|done].
  - right. split; [by apply unnamed_gone|]. destruct Hc as [Hw Ht]. split; [done|].
    destruct (group_head v Hv) as (w & rest & Eg & Hwin & Hs & Hle & _ & Hnin). rewrite Eg in Ht. exists w. split; [done|]. split; [done|]. split; [|done].
    intros En. apply Hnin. by replace w with v by (by apply (map_key_inj av_name vs)).
Qed.

Lemma may_go_pruned v : v ∈ vs -> may_go services now (superseded Z.lt vs v) v -> pruned v.
Proof using Hids Hplain Hnames.
  intros Hv [Hu Hc]. apply pruned_cases; [done|]. split; [done|]. destruct Hc as [(s & Hs & Hn & Hi & H1 & H2)|(Hg & Hw & (w & Hw' & [Hsame Hk] & Hne & Hlt))].
  - destruct (service_named views (av_service v)) as [g|] eqn:E.
    + apply named_view in E as (s' & Hs' & Hn' & ->). assert (s' = s) as -> by (apply (map_key_inj sv_name services); congruence).
      split; [by apply view_converged|done].
    + apply unnamed_gone in E. by destruct (E s Hs).
  - apply unnamed_gone in Hg as ->. split; [done|]. destruct (group_head v Hv) as (x & rest & Eg & Hx & _ & _ & [->|Hin] & _); rewrite Eg; [|done].
    exfalso. destruct (js_sort_head (cmp_desc av_version) _ _ _ Eg) as (_ & Hmax & _). specialize (Hmax w). unfold cmp_desc in Hmax.
    assert (av_version w - av_version x <= 0); [|lia]. apply Hmax, of_key_elem. split; [done|]. unfold vkey. by rewrite Hsame, Hk.
Qed.

(** The newest version of a service that is gone stays. *)
Lemma gone_keeps v : v ∈ vs -> gone services v -> exists w, w ∈ vs /\ same_var v w /\ av_version v <= av_version w /\ av_name w ∉ appSecretsToPrune vs views now.
Proof using Hids Hplain.
  intros Hv Hg. destruct (group_head v Hv) as (w & rest & Eg & Hw & Hs & Hle & _ & Hnin). exists w. split; [done|]. split; [done|]. split; [done|].
  intros (w' & Hw' & En & Hp)%pruned_elem. assert (w' = w) as -> by (by apply (map_key_inj av_name vs)).
  apply pruned_cases in Hp as [_ Hp]; [|done]. destruct Hs as [Hs Hk]. rewrite <- Hs in Hp. apply unnamed_gone in Hg. rewrite Hg in Hp. destruct Hp as [_ Hp].
  unfold vkey in Hp, Eg. rewrite <- Hs, <- Hk, Eg in Hp. done.
Qed.
End sweep.

(** * The sweep *)

Definition secret_removed {X} (c : effect X) : option (string * string) := match c with SecretRemove node name => Some (node, name) | _ => None end.
Definition removes (t : list (event effect)) (node name : string) : Prop := exists ev, ev ∈ t /\ secret_removed (ev_call ev) = Some (node, name).

Definition rows_of (orgId : string) (rows : list SecretRow) : list SecretRow :=
  List.filter (fun s => bool_decide (get APP_SECRET_ORG_LABEL (sr_labels s) = Some orgId)) rows.

Lemma decode_name orgId s v : decode_row orgId s = Some v -> av_name v = sr_name s.
Proof.
  unfold decode_row. cbv zeta. intros H. repeat case_match; simplify_eq; done.
Qed.

Lemma decoded_elem lc orgId rows v : v ∈ decodeAppSecrets lc rows orgId <-> exists s, s ∈ rows /\ decode_row orgId s = Some v.
Proof. unfold decodeAppSecrets. by rewrite js_sort_elem, list_elem_of_omap. Qed.

Lemma decoded_NoDup lc orgId rows : NoDup (map sr_name rows) -> NoDup (map av_name (decodeAppSecrets lc rows orgId)).
Proof.
  intros Hd. unfold decodeAppSecrets. rewrite (js_sort_perm _ (omap (decode_row orgId) rows)). induction rows as [|s rows IH]; [constructor|].
  rewrite omap_step. apply NoDup_cons in Hd as [Hs Hd]. destruct (decode_row orgId s) as [v|] eqn:E; [|by apply IH].
  apply NoDup_cons. split; [|by apply IH]. apply decode_name in E. rewrite E.
  intros (w & Hw & (s' & Hs' & E')%list_elem_of_omap)%list_elem_of_fmap. apply decode_name in E'. apply Hs. rewrite Hw, E'. by apply list_elem_of_fmap_2.
Qed.

Lemma removal_traces node names t r :
  traces (each (fun name => quietly (await (SecretRemove node name))) names) t r ->
  r = inl tt /\ Forall (fun ev => exists n, n ∈ names /\ secret_removed (ev_call ev) = Some (node, n)) t /\ forall n, n ∈ names -> removes t node n.
Proof.
  intros [-> (ts & -> & H)]%traces_each; [|by intros x t' r' _ [-> _]%traces_quietly]. split; [done|].
  induction H as [|n t names ts Hq _ [IH1 IH2]]; [split; [constructor|by intros n ?%elem_of_nil]|].
  apply traces_quietly in Hq as [_ (a & ->%traces_await)]. cbn [concat app]. split.
  - constructor; [exists n; split; [left|done]|]. eapply Forall_impl; [exact IH1|]. intros ev (n' & Hn & E). exists n'. split; [by right|done].
  - intros n' [->|Hn]%elem_of_cons; [eexists; split; [left|done]|]. destruct (IH2 n' Hn) as (ev & Hev & E). exists ev. split; [by right|done].
Qed.

(** C24: The sweep of an organisation removes exactly what nothing needs, whatever
    single removals answer.  Every call after the listing removes a version of the
    organisation that no service uses, whose service is idle and which, like the last
    change of the service, is past the wait, at least ten minutes, or whose service
    is gone and which has a version at least as new; and every version is removed of
    which this holds, a newer one being there where the service is gone.  The newest
    version of each variable of a service that is gone stays. *)
Theorem secret_sweep_exact lc orgId node services now rows t r :
  NoDup (map sr_name rows) -> NoDup (map sv_name services) -> Forall plain_service (decodeAppSecrets lc (rows_of orgId rows) orgId) ->
  traces (sweepOrg lc orgId (Some node) services now) (Event (SecretList node) (inl rows) :: t) r ->
  let vs := decodeAppSecrets lc (rows_of orgId rows) orgId in
  r = inl tt /\
  Forall (fun ev => exists v, v ∈ vs /\ secret_removed (ev_call ev) = Some (node, av_name v) /\ may_go services now (superseded Z.le vs v) v /\
            (now - av_createdAt v < 2 ^ 53 -> 600000 <= now - av_createdAt v) /\
            exists s, s ∈ rows /\ sr_name s = av_name v /\ get APP_SECRET_ORG_LABEL (sr_labels s) = Some orgId) t /\
  (forall v, v ∈ vs -> may_go services now (superseded Z.lt vs v) v -> removes t node (av_name v)) /\
  (forall v, v ∈ vs -> gone services v -> exists w, w ∈ vs /\ same_var v w /\ av_version v <= av_version w /\ ~ removes t node (av_name w)).
Proof.
  intros Hrows Hnames Hplain H vs.
  assert (Hids : NoDup (map av_name vs)).
  { apply decoded_NoDup. unfold rows_of. set (f := fun s : SecretRow => _). clear -Hrows. induction rows as [|s l IH]; [constructor|].
    apply NoDup_cons in Hrows as [Hs Hd]. simpl. destruct (f s); [|by apply IH]. apply NoDup_cons. split; [|by apply IH].
    intros (s' & E & [Hin _]%bfilter_elem)%list_elem_of_fmap. apply Hs. rewrite E. by apply list_elem_of_fmap_2. }
  assert (Hsweep : traces (each (fun name => quietly (await (SecretRemove node name))) (appSecretsToPrune vs (gcServiceViews services) now)) t r).
  { unfold sweepOrg in H. apply traces_bind in H as [(e & [=]%traces_await & _)|(rows' & t1 & t2 & Et & ->%traces_await & H)].
    pose proof (f_equal (fun l => head l ≫= list_answer) Et) as Er. injection Er as <-. apply (f_equal tail) in Et. cbn [tail app] in Et. subst t2.
    fold (rows_of orgId rows) in H. unfold vs. destruct (rows_of orgId rows); [|exact H]. exact H. }
  clear H. apply removal_traces in Hsweep as (-> & Hall & Hcov). split; [done|]. split; [|split].
  - eapply Forall_impl; [exact Hall|]. intros ev (n & (v & Hv & -> & Hp)%pruned_elem & E). exists v. split; [done|]. split; [done|].
    split; [by apply pruned_may_go|]. split; [|].
    + intros Hr. apply pruned_cases in Hp as [_ Hp]; [|done..]. destruct (service_named _ _) as [g|]; [destruct Hp as (_ & _ & Hp)|destruct Hp as [Hp _]]; by eapply past_grace.
    + apply decoded_elem in Hv as (s & [Hs Ho%bool_decide_eq_true]%bfilter_elem & Hd). exists s. split; [done|]. split; [|done]. symmetry. by eapply decode_name.
  - intros v Hv Hm. apply Hcov, pruned_elem. exists v. split; [done|]. split; [done|]. by apply may_go_pruned.
  - intros v Hv Hg. destruct (gone_keeps services now vs Hids Hplain v Hv Hg) as (w & Hw & Hs & Hle & Hn). exists w. split; [done|]. split; [done|]. split; [done|].
    intros (ev & Hev & E). rewrite Forall_forall in Hall. destruct (Hall ev Hev) as (n & Hin & E'). rewrite E in E'. by injection E' as <-.
Qed.

(** * Example: the first password of a service that was moved onto a second *)

Definition swept_rows : list SecretRow :=
  [{| sr_name := "shop_web_DB_PASSWORD_v1"; sr_createdAt := 0; sr_labels := appSecretLabels "shop_web" "DB_PASSWORD" 1 "org" None None |};
   {| sr_name := "shop_web_DB_PASSWORD_v2"; sr_createdAt := 1000; sr_labels := appSecretLabels "shop_web" "DB_PASSWORD" 2 "org" None None |};
   {| sr_name := "other_KEY_v1"; sr_createdAt := 0; sr_labels := appSecretLabels "other" "KEY" 1 "org2" None None |}].

Definition swept_service (st : option string) : SwarmServiceInfo :=
  {| sv_name := "shop_web"; sv_image := "web:1"; sv_labels := [(DEPLOY_SAFETY_LABEL, "{" +:+ quoted "windowSec" +:+ ":900}")]; sv_networks := [];
     sv_desired := Some 1; sv_running := 1; sv_secrets := ["shop_web_DB_PASSWORD_v2"]; sv_updateStatus := st; sv_updatedAt := 2000 |}.

(** The removal fails, for a secret that is in use. *)
Definition swept_answer : nat -> forall X, effect X -> X + failure := fun n X c =>
  match c in effect X return X + failure with
  | SecretList _ => inl swept_rows
  | SecretRemove _ _ => inr (Failed "in use")
  | c => yes n _ c
  end.

Abbreviation swept st now := (run swept_answer 0 (sweepOrg str_cmp "org" (Some "m1") [swept_service st] now)).

Lemma swept_runs : swept None 1000000 = ([Event (SecretList "m1") (inl swept_rows); Event (SecretRemove "m1" "shop_web_DB_PASSWORD_v1") (inr (Failed "in use"))], inl tt) /\
  swept (Some "updating") 1000000 = ([Event (SecretList "m1") (inl swept_rows)], inl tt) /\
  swept None 900000 = ([Event (SecretList "m1") (inl swept_rows)], inl tt).
Proof. by vm_compute. Qed.

Lemma secret_sweep_exact_witness :
  removes [Event (SecretRemove "m1" "shop_web_DB_PASSWORD_v1") (inr (Failed "in use"))] "m1" "shop_web_DB_PASSWORD_v1" /\
  exists v, v ∈ decodeAppSecrets str_cmp (rows_of "org" swept_rows) "org" /\ av_version v = 1 /\
    may_go [swept_service None] 1000000 (superseded Z.le (decodeAppSecrets str_cmp (rows_of "org" swept_rows) "org") v) v.
Proof.
  pose proof (run_traces swept_answer 0 (sweepOrg str_cmp "org" (Some "m1") [swept_service None] 1000000)) as H. rewrite (proj1 swept_runs) in H.
  assert (H1 : NoDup (map sr_name swept_rows)) by (apply (bool_decide_eq_true_1 _); by vm_compute).
  assert (H2 : NoDup (map sv_name [swept_service None])) by (apply NoDup_singleton).
  assert (H3 : Forall plain_service (decodeAppSecrets str_cmp (rows_of "org" swept_rows) "org")) by (vm_compute; repeat constructor).
  destruct (secret_sweep_exact _ _ _ _ _ _ _ _ H1 H2 H3 H) as (_ & Hall & _).
  apply Forall_singleton in Hall as (v & Hv & E & Hm & _). split; [eexists; exact (conj (list_elem_of_here _ _) eq_refl)|].
  exists v. split; [exact Hv|]. split; [|exact Hm]. injection E as E.
  assert (Ev : decodeAppSecrets str_cmp (rows_of "org" swept_rows) "org" =
    [{| av_name := "shop_web_DB_PASSWORD_v2"; av_service := "shop_web"; av_key := "DB_PASSWORD"; av_version := 2; av_createdAt := 1000; av_by := None; av_digest := None |};
     {| av_name := "shop_web_DB_PASSWORD_v1"; av_service := "shop_web"; av_key := "DB_PASSWORD"; av_version := 1; av_createdAt := 0; av_by := None; av_digest := None |}])
    by (by vm_compute).
  rewrite Ev in Hv. apply elem_of_cons in Hv as [->|Hv]; [discriminate|]. apply list_elem_of_singleton in Hv as ->. done.
Defined.
