(* ===== verification/SecretCarry.v ===== *)
(** Secret variables across a compose deploy (carrySecretVars of
    packages/core/src/app-secrets.ts): the deployed service is the only record of
    them; what is carried is read off its environment and its mounts. *)

From S2P Require Import Prelude Comparators Json JsonText KvCodec Doubles JsNumber NetPolicy ServiceSpec SecretEnv SpecRead Effects ServicePatch Routes Canary AppSecrets.

(** * The version that is mounted *)

Lemma drop_suffix_split p s : exists d, s = drop_suffix_while p s +:+ d /\ all_chars p d = true.
Proof.
  induction s as [|c s (d & E & Hd)]; [by exists ""|]. simpl. destruct (drop_suffix_while p s) as [|c' s'] eqn:Es.
  - destruct (p c) eqn:Hc; [exists (String c d)|exists d]; simpl in *; rewrite E at 1; [by rewrite Hc|done].
  - exists d. simpl. simpl in E. by rewrite E at 1.
Qed.

Lemma name_version_pos n v : name_version n = Some v -> 0 <= v.
Proof.
  unfold name_version. destruct (drop_suffix_split is_digit n) as (d & E & Hd). set (p := drop_suffix_while is_digit n) in *.
  assert (Es : sdrop (String.length p) n = d) by (rewrite E; apply sdrop_app). rewrite Es. destruct (_ && _); [|done]. intros [= <-].
  unfold decimal. by apply decimal_from_bound.
Qed.

(** A mounted version of a variable, and the newest one. *)
Definition version_for (service key : string) (names : list string) (v : Z) : Prop := 0 <= v /\ appSecretName service key v ∈ names.
Definition newest_for (service key : string) (names : list string) (v : Z) : Prop :=
  version_for service key names v /\ forall w, version_for service key names w -> w <= v.

Definition best_step (service key : string) (best : option (string * Z)) (n : string) : option (string * Z) :=
  match name_version n with
  | Some v =>
      if String.eqb (appSecretName service key v) n
      then match best with Some (_, b) => if b <? v then Some (n, v) else best | None => Some (n, v) end
      else best
  | None => best
  end.

Lemma best_spec service key names : match foldl (best_step service key) None names with
  | Some (n, v) => newest_for service key names v /\ n = appSecretName service key v
  | None => forall v, ~ version_for service key names v
  end.
Proof.
  induction names as [|n names IH] using rev_ind; [by intros v [_ ?%not_elem_of_nil]|]. rewrite foldl_app. cbn [foldl]. unfold best_step at 1.
  assert (Hstep : forall v, version_for service key (names ++ [n]) v <-> version_for service key names v \/ 0 <= v /\ appSecretName service key v = n).
  { intros v. unfold version_for. rewrite elem_of_app, list_elem_of_singleton. tauto. }
  assert (Hold : (forall v, ~ (0 <= v /\ appSecretName service key v = n)) -> match foldl (best_step service key) None names with
    | Some (m, v) => newest_for service key (names ++ [n]) v /\ m = appSecretName service key v
    | None => forall v, ~ version_for service key (names ++ [n]) v end).
  { intros Hno. destruct (foldl _ None names) as [[m b]|].
    - destruct IH as [[Hb Hm] E]. split; [|done]. split; [apply Hstep; by left|]. intros w [Hw|Hw]%Hstep; [by apply Hm|by destruct (Hno w)].
    - intros v [Hv|Hv]%Hstep; [by apply (IH v)|by apply (Hno v)]. }
  destruct (name_version n) as [v|] eqn:Ev; cycle 1.
  { apply Hold. intros v [Hv E]. rewrite <- E, name_version_name in Ev by done. done. }
  destruct (String.eqb_spec (appSecretName service key v) n) as [E|E]; cycle 1.
  { apply Hold. intros w [Hw Ew]. rewrite <- Ew, name_version_name in Ev by done. injection Ev as ->. done. }
  assert (Hn : forall w, 0 <= w /\ appSecretName service key w = n -> w = v).
  { intros w [Hw Ew]. rewrite <- Ew, name_version_name in Ev by done. by injection Ev. }
  pose proof (name_version_pos n v Ev) as Hv. assert (Hnew : version_for service key (names ++ [n]) v) by (apply Hstep; by right).
  destruct (foldl _ None names) as [[m b]|].
  - destruct IH as [[Hb Hm] Em]. destruct (Z.ltb_spec b v).
    + split; [|done]. split; [done|]. intros w [Hw%Hm|Hw%Hn]%Hstep; lia.
    + split; [|done]. split; [apply Hstep; by left|]. intros w [Hw%Hm|Hw%Hn]%Hstep; lia.
  - split; [|done]. split; [done|]. intros w [Hw|Hw%Hn]%Hstep; [by destruct (IH w)|lia].
Qed.

Lemma live_for_spec service key names n : liveAppSecretFor service key names = Some n <->
  exists v, newest_for service key names v /\ n = appSecretName service key v.
Proof.
  change (liveAppSecretFor service key names) with (fst <$> foldl (best_step service key) None names).
  pose proof (best_spec service key names) as H. destruct (foldl _ None names) as [[m b]|]; simpl.
  - destruct H as [Hb ->]. split; [intros [= <-]; by exists b|]. intros (v & [Hv Hm] & ->). destruct Hb as [Hb Hm']. f_equal. f_equal.
    apply Hm in Hb. apply Hm' in Hv. lia.
  - split; [done|]. intros (v & [Hv _] & _). by destruct (H v).
Qed.

(** * What is carried *)

Section carried.
Context (s : ServiceSpec) (live : LiveVars).

Definition carries (x : SecretVarDesired) : Prop :=
  taken s (sd_key x) = false /\ liveAppSecretFor (lv_name live) (sd_key x) (lv_secrets live) = Some (sd_secretName x).

Lemma carry_keys_spec d keys acc : NoDup (map sd_key acc) ->
  NoDup (map sd_key (foldl (carry_key s live d) acc keys)) /\
  forall x, x ∈ foldl (carry_key s live d) acc keys <->
    x ∈ acc \/ sd_key x ∉ map sd_key acc /\ sd_key x ∈ keys /\ carries x /\ sd_delivery x = d.
Proof.
  revert acc. induction keys as [|k keys IH]; intros acc Hd; cbn [foldl].
  { split; [done|]. intros x. split; [by left|]. intros [?|(_ & ?%not_elem_of_nil & _)]; done. }
  assert (Hk : carry_key s live d acc k = acc /\ (forall x, carries x -> sd_key x = k -> k ∈ map sd_key acc) \/
    exists n, k ∉ map sd_key acc /\ carries {| sd_key := k; sd_delivery := d; sd_secretName := n |} /\
      carry_key s live d acc k = acc ++ [{| sd_key := k; sd_delivery := d; sd_secretName := n |}]).
  { unfold carry_key, carries. destruct (taken s k) eqn:Et; simpl.
    - left. split; [done|]. intros x [Hx _] <-. by rewrite Et in Hx.
    - destruct (mem_spec k (map sd_key acc)) as [Hm|Hm]; [left; by split|]. destruct (liveAppSecretFor _ _ _) as [n|] eqn:El.
      + right. exists n. by split_and!.
      + left. split; [done|]. intros x [_ Hx] <-. by rewrite El in Hx. }
  destruct Hk as [[-> Hk]|(n & Hn & Hc & ->)].
  - destruct (IH acc Hd) as [H1 H2]. split; [done|]. intros x. rewrite H2, elem_of_cons. split; [naive_solver|].
    intros [?|(Hx & [Ex|Hin] & Hcx & Edx)]; [by left| |right; by split_and!]. exfalso. apply Hx. rewrite Ex. by apply (Hk x).
  - set (y := {| sd_key := k; sd_delivery := d; sd_secretName := n |}) in *.
    assert (Hd' : NoDup (map sd_key (acc ++ [y]))).
    { rewrite map_app. apply NoDup_app. split; [done|]. split; [|apply NoDup_singleton]. intros z Hz ->%list_elem_of_singleton. done. }
    destruct (IH _ Hd') as [H1 H2]. split; [done|]. intros x. rewrite H2, map_app, !elem_of_app, (elem_of_cons keys), list_elem_of_singleton.
    change (map sd_key [y]) with [k]. rewrite list_elem_of_singleton.
    split.
    + intros [[?| ->]|(Hx & Hin & Hcx & Edx)]; [by left| |right]; [right; split_and!; [done|by left|done|done]|].
      split; [tauto|]. split; [by right|done].
    + intros [?|(Hx & Hin & Hcx & Edx)]; [by left; left|]. destruct (decide (sd_key x = k)) as [E|E].
      * left. right. destruct Hc as [_ Hc], Hcx as [_ Hcx]. destruct x as [xk xd xn]. simpl in *. subst xk xd. rewrite Hc in Hcx. by injection Hcx as ->.
      * right. split; [tauto|]. split; [tauto|]. done.
Qed.

Definition live_env : entries := from_entries (omap env_pair (lv_env live)).
Definition env_keys : list string := List.filter isEnvName (split_at comma (default "" (get SECRET_ENV_VAR live_env))).
Definition file_keys : list string := omap pointed (own_order live_env).

(** The carried variables: those of the name list, then those with a pointer. *)
Lemma carried_spec : NoDup (map sd_key (carried s live)) /\ forall x, x ∈ carried s live <->
  carries x /\ (sd_key x ∈ env_keys /\ sd_delivery x = by_env \/ sd_key x ∉ env_keys /\ sd_key x ∈ file_keys /\ sd_delivery x = by_file).
Proof.
  change (carried s live) with (foldl (carry_key s live by_file) (foldl (carry_key s live by_env) [] env_keys) file_keys).
  destruct (carry_keys_spec by_env env_keys [] (NoDup_nil_2)) as [H1 H2]. destruct (carry_keys_spec by_file file_keys _ H1) as [H3 H4].
  split; [done|]. intros x. rewrite H4, H2.
  assert (Hk : carries x -> sd_key x ∈ map sd_key (foldl (carry_key s live by_env) [] env_keys) <-> sd_key x ∈ env_keys).
  { intros Hc. rewrite list_elem_of_fmap. split.
    - intros (y & Ey & Hy%H2). destruct Hy as [Hy|(_ & Hin & _)]; [by apply elem_of_nil in Hy|by rewrite Ey].
    - intros Hin. exists {| sd_key := sd_key x; sd_delivery := by_env; sd_secretName := sd_secretName x |}. split; [done|]. apply H2. right.
      split; [by apply not_elem_of_nil|]. by split_and!. }
  split.
  - intros [[Hx|(_ & H)]|(Hn & Hin & Hc & Hd)]; [by apply elem_of_nil in Hx|naive_solver|]. split; [done|]. right. by rewrite <- (Hk Hc).
  - intros [Hc [[Hin Hd]|(Hn & Hin & Hd)]].
    + left. right. split; [by apply not_elem_of_nil|]. by split_and!.
    + right. rewrite Hk by done. by split_and!.
Qed.
End carried.

(** * From a deployed service

    What the inventory shows of a specification as it was sent. *)
Definition live_of (w : ServiceSpec) : LiveVars :=
  {| lv_name := ss_name w; lv_env := map env_entry (own_order (env_of w)); lv_secrets := map rf_source (default [] (ss_secrets w)) |}.

Lemma live_env_of w k : spec_ok w -> get k (live_env (live_of w)) = get k (env_of w).
Proof.
  intros [_ [Hd Hk] _ _ _ _]. unfold live_env, live_of. cbn [lv_env]. rewrite env_pairs_back by (by rewrite own_order_keys). rewrite from_own by done.
  by apply get_own_order.
Qed.

Lemma live_env_NoDup w : spec_ok w -> NoDup (map fst (live_env (live_of w))).
Proof.
  intros [_ [Hd Hk] _ _ _ _]. unfold live_env, live_of. cbn [lv_env]. rewrite env_pairs_back by (by rewrite own_order_keys). rewrite from_own by done.
  by rewrite own_order_keys.
Qed.

Lemma pointed_spec kv k : pointed kv = Some k <-> kv = (file_var k, secret_path k) /\ isEnvName k = true.
Proof.
  destruct kv as [a b]. unfold pointed. cbn [fst snd]. split.
  - destruct (endsWith "_FILE" a) eqn:E; [|done]. apply endsWith_spec in E as [p ->].
    assert (Es : String.substring 0 (String.length (p +:+ "_FILE") - 5) (p +:+ "_FILE") = p).
    { rewrite string_length_app. cbn [String.length]. replace (String.length p + 5 - 5)%nat with (String.length p) by lia. apply (substring_app "" p). }
    rewrite Es. destruct (isEnvName p) eqn:Ep; [|done]. destruct (String.eqb_spec b (secret_path p)) as [->|]; [|done]. by intros [= <-].
  - intros [[= -> ->] Hk]. assert (E : endsWith "_FILE" (file_var k) = true) by (apply endsWith_spec; by exists k). rewrite E.
    assert (Es : String.substring 0 (String.length (file_var k) - 5) (file_var k) = k).
    { unfold file_var. rewrite string_length_app. cbn [String.length]. replace (String.length k + 5 - 5)%nat with (String.length k) by lia. apply (substring_app "" k). }
    by rewrite Es, Hk, String.eqb_refl.
Qed.

Lemma file_keys_spec w k : spec_ok w -> k ∈ file_keys (live_of w) <-> get (file_var k) (env_of w) = Some (secret_path k) /\ isEnvName k = true.
Proof.
  intros Hw. unfold file_keys. rewrite list_elem_of_omap. setoid_rewrite pointed_spec. setoid_rewrite own_order_perm. rewrite <- live_env_of by done. split.
  - intros (kv & Hin & -> & Hk). split; [|done]. apply get_unique; [by apply live_env_NoDup|done].
  - intros [H Hk]. exists (file_var k, secret_path k). split; [by apply get_elem|done].
Qed.

Section deployed.
Context (image : res ImageArgv) (shell : bool) (shim : res ()) (s w : ServiceSpec).
Context (Hu : user_spec s) (Hok : spec_ok s) (Hi : independent (wanted_names s) (env_of s)) (Hw : prepareSecretEnv image shell shim s = Ok w).

Lemma prepared_ok : spec_ok w /\ ss_name w = ss_name s /\ ss_secrets w = ss_secrets s.
Proof using Type*.
  destruct (prepare_cases _ _ _ _ _ Hu Hi Hw) as [[_ ->]|[(Hne & -> & _ & ->)|(Hne & -> & _ & i & _ & Hwr)]].
  - by destruct Hok.
  - split; [by apply filed_ok|done].
  - split; [by eapply wrapped_ok|]. by destruct (wrap_inv _ _ _ Hu Hne Hwr) as (_ & argv & _ & _ & ->).
Qed.

(** The names listed for the shim, and the pointers. *)
Lemma env_keys_deployed k : k ∈ env_keys (live_of w) <-> shell = true /\ k ∈ wanted_names s.
Proof using Type*.
  destruct prepared_ok as [Hwok _]. unfold env_keys. rewrite live_env_of by done.
  assert (Hnone : get SECRET_ENV_VAR (env_of w) = None -> forall k, ~ k ∈ List.filter isEnvName (split_at comma (default "" (get SECRET_ENV_VAR (env_of w))))).
  { intros -> k' [->%list_elem_of_singleton E]%bfilter_elem. by vm_compute in E. }
  destruct (prepare_cases _ _ _ _ _ Hu Hi Hw) as [[Hz E]|[(Hne & Hs & _ & E)|(Hne & Hs & _ & i & _ & Hwr)]].
  - rewrite Hz. split; [|by intros [_ ?%not_elem_of_nil]]. intros H. exfalso. revert H. apply Hnone. rewrite E. apply Hu.
  - rewrite Hs. split; [|by intros [? _]]. intros H. exfalso. revert H. apply Hnone. rewrite E. unfold env_of, filed. simpl.
    rewrite get_app, get_drop_names. rewrite (us_var s Hu). assert (Ep : get SECRET_ENV_VAR (pointers (wanted_names s)) = None).
    { apply get_pointers. intros n _ E'. symmetry in E'. revert E'. apply file_var_plumbing. }
    rewrite Ep. by destruct (mem _ _).
  - destruct (wrap_inv _ _ _ Hu Hne Hwr) as (Hn & argv & _ & _ & E).
    assert (Ev : get SECRET_ENV_VAR (env_of w) = Some (join "," (wanted_names s))) by (rewrite E; unfold env_of; simpl; by rewrite get_obj_set, String.eqb_refl).
    rewrite Ev, bfilter_elem. cbn [default from_option id]. rewrite split_join; [|done|].
    + rewrite Forall_forall in Hn. split; [tauto|]. intros [_ Hk]. split; [done|]. by apply Hn.
    + eapply Forall_impl; [exact Hn|]. intros n [H _]. by apply env_name_no_comma.
Qed.

Lemma file_keys_deployed k : k ∉ env_keys (live_of w) -> k ∈ file_keys (live_of w) <->
  isEnvName k = true /\ (k ∈ wanted_names s \/ get (file_var k) (env_of s) = Some (secret_path k) /\ file_var k ∉ wanted_names s).
Proof using Type*.
  destruct prepared_ok as [Hwok _]. rewrite env_keys_deployed, file_keys_spec by done. intros Hk.
  destruct (prepare_cases _ _ _ _ _ Hu Hi Hw) as [[Hz E]|[(Hne & Hs & _ & E)|(Hne & Hs & _ & i & _ & Hwr)]].
  - rewrite Hz, E. change (env_of (without_env s)) with (env_of s). split; [|by intros [? [?%elem_of_nil|[? _]]]]. intros [H1 H2]. split; [done|]. right. split; [done|]. apply not_elem_of_nil.
  - rewrite E. unfold env_of, filed. simpl. fold (env_of s). rewrite get_app, get_drop_names. split.
    + intros [H1 H2]. split; [done|]. destruct (mem_spec (file_var k) (wanted_names s)) as [Hm|Hm].
      * left. apply get_elem, list_elem_of_fmap in H1 as (n & [= En%file_var_inj _] & Hn). by subst.
      * destruct (get (file_var k) (env_of s)) as [x|] eqn:Ex; [injection H1 as ->; by right|].
        left. apply get_elem, list_elem_of_fmap in H1 as (n & [= En%file_var_inj _] & Hn). by subst.
    + intros [H2 H1]. split; [|done]. destruct H1 as [Hin|[H1 Hm%mem_false]].
      * destruct (in_pointers _ _ Hi k Hin) as [Hm%mem_false ->]. rewrite Hm. apply get_unique.
        -- unfold pointers. rewrite map_map. apply NoDup_fmap_2; [intros a b; apply file_var_inj|apply js_uniq_NoDup].
        -- unfold pointers. by apply (list_elem_of_fmap_2 (fun n => (file_var n, secret_path n))).
      * by rewrite Hm, H1.
  - destruct (wrap_inv _ _ _ Hu Hne Hwr) as (Hn & argv & _ & _ & E). rewrite E. unfold env_of. simpl. fold (env_of s).
    assert (Ef : String.eqb (file_var k) SECRET_ENV_VAR = false) by (apply String.eqb_neq, file_var_plumbing). rewrite get_obj_set, Ef, get_drop_names.
    split.
    + intros [H1 H2]. split; [done|]. destruct (mem_spec (file_var k) (wanted_names s)); [done|]. by right.
    + intros [H2 [Hin|[H1 Hm%mem_false]]]; [by destruct Hk|]. by rewrite Hm.
Qed.
End deployed.

(** * A compose deploy of a service with variables *)

(** A variable of a deployed service: its newest mounted version, and how the service
    is given it. *)
Record own_var (s : ServiceSpec) (k : string) (v : Z) (d : SecretDelivery) : Prop := {
  ov_version : newest_for (ss_name s) k (map rf_source (default [] (ss_secrets s))) v;
  ov_name : isEnvName k = true;
  ov_how : match d with
           | by_env => k ∈ wanted_names s
           | by_file => k ∉ wanted_names s /\ file_var k ∉ wanted_names s /\ get (file_var k) (env_of s) = Some (secret_path k)
           end
}.

(** On an image without a shell every variable was delivered as a file, and is carried as
    one, also one that the user asked to have in the environment. *)
Definition carried_as (shell : bool) (d : SecretDelivery) : SecretDelivery := if shell then d else by_file.

Definition carried_var (s : ServiceSpec) (shell : bool) (k : string) (v : Z) (d : SecretDelivery) : SecretVarDesired :=
  {| sd_key := k; sd_delivery := carried_as shell d; sd_secretName := appSecretName (ss_name s) k v |}.

Lemma carry_apply c l : carrySecretVars c (Some l) = match carried c l with [] => c | desired => applySecretVars c desired [] end.
Proof.
  unfold carrySecretVars. destruct (lv_secrets l) eqn:E; [|by destruct (carried c l)].
  destruct (carried c l) as [|x xs] eqn:Ec; [done|]. destruct (carried_spec c l) as [_ H].
  assert (Hx : x ∈ carried c l) by (rewrite Ec; left). apply H in Hx as [[_ (v & [[_ Hv] _] & _)%live_for_spec] _]. rewrite E in Hv. by apply elem_of_nil in Hv.
Qed.

Section carry.
Context (image : res ImageArgv) (shell : bool) (shim : res ()) (s w c : ServiceSpec).
Context (Hu : user_spec s) (Hok : spec_ok s) (Hi : independent (wanted_names s) (env_of s)) (Hw : prepareSecretEnv image shell shim s = Ok w).

Lemma carried_own x : x ∈ carried c (live_of w) <->
  taken c (sd_key x) = false /\ exists v d, own_var s (sd_key x) v d /\ x = carried_var s shell (sd_key x) v d.
Proof using Hu Hok Hi Hw.
  destruct (prepared_ok _ _ _ _ _ Hu Hok Hi Hw) as (_ & En & Es). destruct (carried_spec c (live_of w)) as [_ H]. rewrite H. clear H. unfold carries.
  rewrite live_for_spec. change (lv_name (live_of w)) with (ss_name w). change (lv_secrets (live_of w)) with (map rf_source (default [] (ss_secrets w))).
  rewrite En, Es. split.
  - intros [[Ht (v & Hv & Ename)] Hd]. split; [done|].
    destruct Hd as [[Hk%(env_keys_deployed _ _ _ _ _ Hu Hok Hi Hw) Hd]|(Hk & Hf%(file_keys_deployed _ _ _ _ _ Hu Hok Hi Hw) & Hd)]; [| |done].
    + destruct Hk as [Hs Hk]. exists v, by_env. split; [split; [done| |done]|].
      * pose proof (in_names _ _ Hi) as Hn. rewrite Forall_forall in Hn. by apply Hn.
      * unfold carried_var, carried_as. rewrite Hs. destruct x as [xk xd xn]. simpl in *. by subst.
    + destruct Hf as [Hn [Hin|[Hp Hfn]]].
      * exists v, by_env. split; [by split|]. assert (Hs : shell = false).
        { destruct shell; [|done]. exfalso. apply Hk, (env_keys_deployed _ _ _ _ _ Hu Hok Hi Hw). done. }
        unfold carried_var, carried_as. rewrite Hs. destruct x as [xk xd xn]. simpl in *. by subst.
      * destruct (mem_spec (sd_key x) (wanted_names s)) as [Hin|Hnin].
        { exfalso. destruct (in_pointers _ _ Hi _ Hin) as [_ E]. by rewrite E in Hp. }
        exists v, by_file. split; [by split|]. destruct x as [xk xd xn]. simpl in *. subst xd xn. unfold carried_var, carried_as. by destruct shell.
  - intros [Ht (v & d & [Hv Hn Hd] & E)]. split; [split; [done|]; exists v; split; [done|]; by rewrite E|].
    destruct (decide (sd_key x ∈ env_keys (live_of w))) as [Hk|Hk].
    + left. split; [done|]. apply (env_keys_deployed _ _ _ _ _ Hu Hok Hi Hw) in Hk as [Hs Hk]. rewrite E. cbn [carried_var sd_delivery]. rewrite Hs. simpl. destruct d; [done|]. by destruct Hd.
    + right. split; [done|]. split.
      * apply (file_keys_deployed _ _ _ _ _ Hu Hok Hi Hw); [done|]. split; [done|]. destruct d; [by left|right]. tauto.
      * rewrite E. cbn [carried_var sd_delivery]. destruct d; [|by destruct shell]. destruct shell eqn:Es'; [|done]. destruct Hk.
        apply (env_keys_deployed _ _ _ _ _ Hu Hok Hi Hw). done.
Qed.
End carry.

(** What a compose deploy leaves of its own specification [c] and the variables of the
    deployed one [s]. *)
Record carry_outcome (shell : bool) (s c s' : ServiceSpec) : Prop := {
  co_secrets r : r ∈ default [] (ss_secrets s') <-> r ∈ default [] (ss_secrets c) \/
    exists k v d, own_var s k v d /\ taken c k = false /\ r = desired_ref (carried_var s shell k v d);
  co_vars k v d : own_var s k v d -> taken c k = false ->
    secretVarDelivery (ss_env s') (ss_secretEnv s') k = carried_as shell d /\ get k (env_of s') = None;
  co_env k x : get k (env_of c) = Some x -> get k (env_of s') = Some x;
  co_names n : n ∈ default [] (ss_secretEnv c) -> n ∈ default [] (ss_secretEnv s');
  co_rest : set_secretEnv None (set_env None (set_secrets None s')) = set_secretEnv None (set_env None (set_secrets None c))
}.

Lemma not_taken c k : taken c k = false <-> k ∉ map ref_target (default [] (ss_secrets c)) /\ get k (env_of c) = None /\
  get (file_var k) (env_of c) = None /\ k ∉ default [] (ss_secretEnv c).
Proof.
  unfold taken. rewrite !orb_false_iff, !mem_false, !bool_decide_eq_false, <- !eq_None_not_Some. tauto.
Qed.


(** * Example *)

(** A compose file for the deployed service of SpecRead, without its secret. *)
Definition compose_spec : ServiceSpec := set_env (Some [("LOG", "info")]) (blank_spec "shop_web" "web:2").

Lemma api_own k v d : own_var api_spec k v d -> k = "DB_PASSWORD".
Proof.
  intros [_ _ Hd]. destruct d; [by change (wanted_names api_spec) with ["DB_PASSWORD"] in Hd; apply list_elem_of_singleton in Hd|].
  destruct Hd as (_ & _ & H%get_elem). apply elem_of_cons in H as [H|H%list_elem_of_singleton]; discriminate.
Qed.

Lemma api_has : own_var api_spec "DB_PASSWORD" 1 by_env.
Proof.
  split; [|done|left]. split; [by split; [|left]|]. intros v [Hv H]. apply list_elem_of_singleton in H.
  change "shop_web_DB_PASSWORD_v1" with (appSecretName (ss_name api_spec) "DB_PASSWORD" 1) in H. apply appSecretName_inj in H; lia.
Qed.

Lemma compose_user : user_spec compose_spec.
Proof. by split. Qed.


(** On an image without a shell the variable is a file; carried, it is a file for
    good: what the next deploy of the carried specification asks of an image with a
    shell is the pointer, where the deployed specification, read back, asks for the
    variable again (compare unwrapSecretEnvFileFallback). *)
Definition api_filed : ServiceSpec := match prepareSecretEnv (Ok shop_image) false (Ok ()) api_spec with Ok w => w | Err _ => api_spec end.

Lemma carried_file_for_good :
  ss_secretEnv (carrySecretVars compose_spec (Some (live_of api_filed))) = None /\
  ss_env (carrySecretVars compose_spec (Some (live_of api_filed))) = Some [("LOG", "info"); ("DB_PASSWORD_FILE", "/run/secrets/DB_PASSWORD")] /\
  ss_secretEnv (unwrapSecretEnv api_filed) = Some ["DB_PASSWORD"].
Proof. by vm_compute. Qed.
