(* ===== verification/PgMembers.v ===== *)
(** Members of a managed Postgres cluster: names and delivery of their credential,
    the boot layer (packages/core/src/manageddb-pg.ts), the storage layout
    (manageddb-storage.ts), and the specifications that the reconcile worker rebuilds
    from a running member (apps/api/src/workers/manageddb-reconcile.ts,
    manageddb-pitr.core.ts).

    The text of the boot script and the hash that names contents are parameters; the
    script's behaviour is in PgBoot.v. *)

From S2P Require Import Prelude Comparators Json JsonText KvCodec Doubles NetPolicy ServiceSpec SecretEnv SpecRead Effects ServicePatch.

(** * Names *)

Definition MANAGED_PG_ROOT : string := "/var/lib/postgresql/data".
Definition MANAGED_PG_PGDATA : string := "/var/lib/postgresql/data/pgdata".
Definition MANAGED_PG_PITR_CONF_TARGET : string := "/etc/swarmy/postgresql.conf.d/swarmy-pitr.conf".
Definition WAL_ARCHIVE_MOUNT : string := "/wal-archive".

Definition PG_PASSWORD : string := "POSTGRES_PASSWORD".
Definition PG_PASSWORD_FILE : string := "POSTGRES_PASSWORD_FILE".
Definition PG_DATABASE : string := "POSTGRES_DB".
Definition PG_PGDATA : string := "PGDATA".
Definition PG_ROLE : string := "SWARMY_PG_ROLE".
Definition PG_REPLICATION_USER : string := "SWARMY_PG_REPLICATION_USER".
Definition PG_REPLICATION_PASSWORD : string := "SWARMY_PG_REPLICATION_PASSWORD".
Definition PG_REPLICATION_PASSWORD_FILE : string := "SWARMY_PG_REPLICATION_PASSWORD_FILE".
Definition PG_PRIMARY_HOST : string := "SWARMY_PG_PRIMARY_HOST".
Definition PG_PRIMARY_PORT : string := "SWARMY_PG_PRIMARY_PORT".
Definition PG_REJOIN : string := "SWARMY_PG_REJOIN".

Definition DB_PASSWORD_SECRET_LABEL : string := "swarmy.db.passwordSecret".
Definition DB_DATA_VOLUME_LABEL : string := "swarmy.db.dataVolume".
Definition DB_PIN_NODE_LABEL : string := "swarmy.db.node".
Definition DB_AVOID_NODE_LABEL : string := "swarmy.db.avoidNode".
Definition DB_ENGINE_LABEL : string := "swarmy.db.engine".
Definition DB_ROLE_LABEL : string := "swarmy.db.role".
Definition DB_CLUSTER_LABEL : string := "swarmy.db.cluster".
Definition DB_REPLICAS_LABEL : string := "swarmy.db.replicas".
Definition DB_TOPOLOGY_LABEL : string := "swarmy.db.topology".
Definition DB_PLACED_REGION_LABEL : string := "swarmy.db.placedRegion".
Definition DB_REGION_LABEL : string := "swarmy.db.region".
Definition DB_MEMBER_LABEL : string := "swarmy.db.member".
Definition DB_LEADER_LABEL : string := "swarmy.db.leader".
Definition DB_FAILOVER_PENDING_LABEL : string := "swarmy.db.failover.pending".
Definition DB_FAILOVER_CONFIRM_LABEL : string := "swarmy.db.failover.confirm".
Definition DB_SWITCHOVER_LABEL : string := "swarmy.db.switchover".
Definition DB_PITR_APPLIED_LABEL : string := "swarmy.db.pitr.applied".
Definition DB_PITR_ARCHIVE_CMD_LABEL : string := "swarmy.db.pitr.archiveCommand".
Definition DB_WAL_SHIPPER_LABEL : string := "swarmy.db.walShipper".
Definition DB_WAL_SHIPPER_REV_LABEL : string := "swarmy.db.walShipper.rev".
Definition MANAGED_LABEL : string := "swarmy.managed".
Definition SCALE_TO_ZERO_EXEMPT_LABEL : string := "swarmy.scaleToZero.exempt".
Definition STACK_LABEL : string := "com.docker.stack.namespace".
Definition REGION_NODE_LABEL : string := "swarmy.region".
Definition REPLICATION_USER : string := "repl".
Definition DEFAULT_DATABASE : string := "app".
Definition PG_PORT : Z := 5432.
Definition DEFAULT_WALG_IMAGE : string := "ghcr.io/requestflo/swarmy-walg:latest".

(** * Running members *)

(** A mount as the agent reports it. *)
Record ObservedMount := { om_type : option string; om_source : option string; om_target : string }.

(** A service of the live inventory; an older agent reports no mounts. *)
Record Member := {
  mb_id : string; mb_name : string; mb_image : string; mb_labels : entries; mb_env : list string;
  mb_networks : list string; mb_secrets : list string; mb_configs : list string; mb_mounts : option (list ObservedMount);
  mb_desired : option Z; mb_running : option Z
}.

Definition with_labels (labels : entries) (m : Member) : Member :=
  {| mb_id := mb_id m; mb_name := mb_name m; mb_image := mb_image m; mb_labels := labels; mb_env := mb_env m;
     mb_networks := mb_networks m; mb_secrets := mb_secrets m; mb_configs := mb_configs m; mb_mounts := mb_mounts m;
     mb_desired := mb_desired m; mb_running := mb_running m |}.

Definition with_env (env : list string) (m : Member) : Member :=
  {| mb_id := mb_id m; mb_name := mb_name m; mb_image := mb_image m; mb_labels := mb_labels m; mb_env := env;
     mb_networks := mb_networks m; mb_secrets := mb_secrets m; mb_configs := mb_configs m; mb_mounts := mb_mounts m;
     mb_desired := mb_desired m; mb_running := mb_running m |}.

(** [KEY=value] strings as an object. *)
Definition env_put (out : entries) (kv : string) : entries :=
  match cut_eq kv with Some (k, v) => obj_set k v out | None => obj_set kv "" out end.

Definition envRecord (env : list string) : entries := foldl env_put [] env.

(** * The credential: a Docker secret, [<family>__v<n>] *)

Inductive DbSecretKind := k_password | k_url | k_ro_url.

Definition KIND_SUFFIX (k : DbSecretKind) : string :=
  match k with k_password => "-pg-password" | k_url => "-pg-url" | k_ro_url => "-pg-ro-url" end.

Definition FAMILY_MAX : nat := 64 - 3 - 5.

Definition familyName (stack cluster suffix : string) : string :=
  let full := stack +:+ "_" +:+ cluster +:+ suffix in
  if (String.length full <=? FAMILY_MAX)%nat then full
  else String.substring 0 (FAMILY_MAX - String.length suffix - 9) full +:+ "-" +:+ kvFingerprint full +:+ suffix.

Definition dbSecretFamily (stack cluster : string) (kind : DbSecretKind) : string := familyName stack cluster (KIND_SUFFIX kind).

Definition dbSecretName (stack cluster : string) (kind : DbSecretKind) (version : Z) : string :=
  dbSecretFamily stack cluster kind +:+ "__v" +:+ pretty version.

(** What [.] matches. *)
Definition in_line (c : ascii) : bool := negb (code c =? 10)%N && negb (code c =? 13)%N.

Definition parseDbSecretName (name : string) : option (string * Z) :=
  let p := drop_suffix_while is_digit name in
  let d := sdrop (String.length p) name in
  let family := String.substring 0 (String.length p - 3) p in
  if endsWith "__v" p && nonempty family && all_chars in_line family && nonempty d && (decimal d <=? 2 ^ 53 - 1) && (1 <=? decimal d)
  then Some (family, decimal d) else None.

Definition isDbPasswordSecret (name : string) : bool :=
  match parseDbSecretName name with Some (f, _) => endsWith (KIND_SUFFIX k_password) f | None => false end.

Definition family_of (secret : string) : string := default secret (fst <$> parseDbSecretName secret).

(** [labels?.[k] ?? spec.labels?.[k] ?? the password secret that is mounted] *)
Definition pgPasswordSecretOf (spec : ServiceSpec) (labels : entries) : option string :=
  match get DB_PASSWORD_SECRET_LABEL labels with
  | Some s => Some s
  | None =>
      match get DB_PASSWORD_SECRET_LABEL (labels_of spec) with
      | Some s => Some s
      | None => rf_source <$> List.find (fun r => isDbPasswordSecret (rf_source r)) (default [] (ss_secrets spec))
      end
  end.

(** A reference that is neither this secret, nor another version of it, nor mounted
    in its place. *)
Definition unrelated (secret family : string) (r : Ref) : bool :=
  negb (String.eqb (rf_source r) secret) &&
  match parseDbSecretName (rf_source r) with Some (f, _) => negb (String.eqb f family) | None => true end &&
  negb (String.eqb (ref_target r) family).

Definition plain_ref (source : string) (target : option string) : Ref :=
  {| rf_source := source; rf_target := target; rf_uid := None; rf_gid := None; rf_mode := None |}.

Definition applyPgCredential (spec : ServiceSpec) (labels : entries) : ServiceSpec :=
  match truthy_str (pgPasswordSecretOf spec labels) with
  | None => spec
  | Some secret =>
      let family := family_of secret in
      let path := "/run/secrets/" +:+ family in
      let env := obj_del PG_REPLICATION_PASSWORD (obj_del PG_PASSWORD (env_of spec)) in
      let env := obj_set PG_REPLICATION_PASSWORD_FILE path (obj_set PG_PASSWORD_FILE path env) in
      let secrets := List.filter (unrelated secret family) (default [] (ss_secrets spec)) ++ [plain_ref secret (Some family)] in
      let out := set_secrets (Some secrets) (set_env (Some env) spec) in
      match ss_labels spec with
      | Some l => set_labels (Some (obj_set DB_PASSWORD_SECRET_LABEL secret l)) out
      | None => out
      end
  end.

Definition pgNeedsCredentialMigration (env labels : entries) : bool :=
  bool_decide (truthy_str (get DB_PASSWORD_SECRET_LABEL labels) = None) &&
  (bool_decide (is_Some (truthy_str (get PG_PASSWORD env))) || bool_decide (is_Some (truthy_str (get PG_REPLICATION_PASSWORD env)))).

(** An application wired to the cluster that still carries a connection URL. *)
Definition dbConsumerHasPlaintextUrl (env labels : entries) (cluster : string) : bool :=
  if bool_decide (get "swarmy.db.inject" labels = Some cluster) then
    let envVar := default "DATABASE_URL" (truthy_str (get "swarmy.db.inject.var" labels)) in
    let roVar := if endsWith "_URL" envVar then String.substring 0 (String.length envVar - 4) envVar +:+ "_RO_URL"
                 else envVar +:+ "_RO" in
    bool_decide (is_Some (get envVar env)) || bool_decide (is_Some (get roVar env))
  else false.

(** * Storage, declared on labels *)

Definition set_mounts (v : option (list Mount)) : ServiceSpec -> ServiceSpec := ltac:(update ss_mounts v).

Definition volume_mount (source target : string) : Mount :=
  {| mt_type := volume; mt_source := Some source; mt_target := target; mt_readOnly := None |}.

Definition primaryDataVolumeName (stack cluster : string) : string := stack +:+ "_" +:+ cluster +:+ "-primary-data".
Definition replicaDataVolumeName (stack cluster : string) : string := stack +:+ "_" +:+ cluster +:+ "-replica-data".
Definition regionReplicaDataVolumeName (base region : string) : string := base +:+ "-replica-" +:+ region +:+ "-data".
Definition extraPrimaryDataVolumeName (base : string) (index : Z) : string := base +:+ "-primary-" +:+ pretty index +:+ "-data".

(** A property that is spread only when it is truthy. *)
Definition labelled (k : string) (v : option string) : entries :=
  match truthy_str v with Some x => [(k, x)] | None => [] end.

Definition dbStorageLabels (dataVolume : string) (pinNode avoidNode : option string) : entries :=
  (DB_DATA_VOLUME_LABEL, dataVolume) :: labelled DB_PIN_NODE_LABEL pinNode ++ labelled DB_AVOID_NODE_LABEL avoidNode.

(** [/^node\.id\s*[!=]=/] *)
Definition is_node_id (c : string) : bool :=
  startsWith "node.id" c &&
  match drop_while is_space (sdrop 7 c) with
  | String a (String b _) => (Ascii.eqb a "!" || Ascii.eqb a "=") && Ascii.eqb b "="
  | _ => false
  end.

Definition label_in (k : string) (labels : entries) : option string := truthy_str (get k labels).

Definition no_placement : Placement := {| pl_constraints := None; pl_preferences := None; pl_maxReplicasPerNode := None |}.

Definition data_mounts (dataVolume : option string) (mounts : list Mount) : list Mount :=
  match dataVolume with
  | Some v => volume_mount v MANAGED_PG_ROOT :: List.filter (fun m => negb (String.eqb (mt_target m) MANAGED_PG_ROOT)) mounts
  | None => mounts
  end.

Definition node_constraints (pin avoid : option string) (cs : list string) : list string :=
  List.filter (fun c => negb (is_node_id c)) cs ++
  match pin, avoid with
  | Some p, _ => ["node.id==" +:+ p]
  | None, Some a => ["node.id!=" +:+ a]
  | None, None => []
  end.

Definition storage_placement (dataVolume pin avoid : option string) (p : option Placement) : Placement :=
  let pl := default no_placement p in
  {| pl_constraints := nonempty_list (node_constraints pin avoid (default [] (pl_constraints pl)));
     pl_preferences := pl_preferences pl;
     pl_maxReplicasPerNode := match dataVolume with Some _ => Some (num 1) | None => pl_maxReplicasPerNode pl end |}.

Definition applyDbStorage (spec : ServiceSpec) (labels : entries) : ServiceSpec :=
  let dataVolume := label_in DB_DATA_VOLUME_LABEL labels in
  let pin := label_in DB_PIN_NODE_LABEL labels in
  let avoid := label_in DB_AVOID_NODE_LABEL labels in
  match dataVolume, pin, avoid with
  | None, None, None => spec
  | _, _, _ =>
      set_placement (Some (storage_placement dataVolume pin avoid (ss_placement spec)))
        (set_mounts (Some (data_mounts dataVolume (default [] (ss_mounts spec)))) spec)
  end.

(** What live truth says of a member's storage. *)
Inductive DbStorageState :=
  | persistent (dataVolume : string) (undeclared : bool)
  | unmounted
  | unknown_storage.

Definition is_data_mount (m : ObservedMount) : bool :=
  (String.eqb (om_target m) MANAGED_PG_ROOT || String.eqb (om_target m) MANAGED_PG_PGDATA) &&
  match om_type m with None => true | Some t => String.eqb t "volume" || String.eqb t "bind" end &&
  bool_decide (is_Some (truthy_str (om_source m))).

Definition dbStorageState (labels : entries) (mounts : option (list ObservedMount)) : DbStorageState :=
  match mounts with
  | None => match label_in DB_DATA_VOLUME_LABEL labels with Some d => persistent d false | None => unknown_storage end
  | Some ms =>
      match List.find is_data_mount ms ≫= om_source with
      | None => unmounted
      | Some v => persistent v (negb (bool_decide (get DB_DATA_VOLUME_LABEL labels = Some v)))
      end
  end.

Definition storage_of (m : Member) : DbStorageState := dbStorageState (mb_labels m) (mb_mounts m).

(** * The boot layer *)

(** [pgPrimaryEnv]: an empty password is left out. *)
Definition pgPrimaryEnv (password database replicationUser replicationPassword : string) : entries :=
  [(PG_ROLE, "primary")] ++ labelled PG_PASSWORD (Some password) ++
  [(PG_DATABASE, database); (PG_PGDATA, MANAGED_PG_PGDATA); (PG_REPLICATION_USER, replicationUser)] ++
  labelled PG_REPLICATION_PASSWORD (Some replicationPassword).

Definition pgReplicaEnv (password replicationUser replicationPassword primaryHost : string) (primaryPort : Z) (rejoin : option string)
    : entries :=
  [(PG_ROLE, "replica")] ++ labelled PG_PASSWORD (Some password) ++
  [(PG_PGDATA, MANAGED_PG_PGDATA); (PG_REPLICATION_USER, replicationUser)] ++
  labelled PG_REPLICATION_PASSWORD (Some replicationPassword) ++
  [(PG_PRIMARY_HOST, primaryHost); (PG_PRIMARY_PORT, pretty primaryPort)] ++ labelled PG_REJOIN rejoin.

Inductive PgBootRole := boot_primary | boot_replica.

Definition pgBootRole (env : entries) : PgBootRole :=
  if bool_decide (get PG_ROLE env = Some "replica") then boot_replica else boot_primary.

Section members.
Variable pgBootScript : string.
Variable contentHash : string -> string.

Definition pgBootCommand : list string := ["/bin/sh"; "-c"; pgBootScript].

Definition applyPgBoot (spec : ServiceSpec) : ServiceSpec :=
  set_args None (set_env (Some (obj_set PG_PGDATA MANAGED_PG_PGDATA (env_of spec))) (set_command (Some pgBootCommand) spec)).

Definition applyPgMember (spec : ServiceSpec) (labels : entries) : ServiceSpec :=
  applyPgBoot (applyPgCredential (applyDbStorage spec labels) labels).

(** * Specifications rebuilt from running members *)

Record Cluster := {
  cl_stack : string; cl_cluster : string; cl_base : string; cl_primary : option Member; cl_replica : option Member;
  cl_dcs : option Member; cl_shipper : option Member; cl_extraPrimaries : list (Z * Member);
  cl_regionReplicas : list (string * Member)
}.

Definition clusterNet (c : Cluster) : string := cl_base c +:+ "-net".

(** The literal that every builder writes; the properties it does not name are left
    [undefined]. *)
Definition member_spec (name image : string) (replicas : Z) (env labels : entries) (networks : list string)
    (mounts : option (list Mount)) (configs secrets : option (list Ref)) (region : option string) : ServiceSpec :=
  {| ss_name := name; ss_image := image; ss_mode := Some {| md_replicated := Some (num replicas); md_global := false |};
     ss_env := Some env; ss_command := None; ss_args := None; ss_labels := Some labels; ss_ports := None; ss_mounts := mounts;
     ss_networks := Some networks; ss_networkAliases := None; ss_registryAuth := None; ss_restartPolicy := None;
     ss_updateConfig := None;
     ss_placement := (fun r => {| pl_constraints := Some ["node.labels." +:+ REGION_NODE_LABEL +:+ "==" +:+ r];
                                  pl_preferences := None; pl_maxReplicasPerNode := None |}) <$> truthy_str region;
     ss_healthcheck := None; ss_resources := None; ss_configs := configs; ss_secrets := secrets; ss_secretEnv := None;
     ss_secretEnvFileFallback := None; ss_stopGracePeriodNs := None; ss_logging := None |}.

(** The networks of a member, or the cluster's. *)
Definition member_networks (m : Member) (net : string) : list string :=
  match List.filter nonempty (mb_networks m) with [] => [net] | l => l end.

Definition named_refs (names : list string) : option (list Ref) := nonempty_list (map (fun n => plain_ref n None) names).

Definition memberLabels (c : Cluster) (role topology : string) (extra : entries) : entries :=
  assign [(MANAGED_LABEL, "true"); (STACK_LABEL, cl_stack c); (DB_ENGINE_LABEL, "postgres"); (DB_CLUSTER_LABEL, cl_cluster c);
          (DB_ROLE_LABEL, role); (DB_TOPOLOGY_LABEL, topology); (SCALE_TO_ZERO_EXEMPT_LABEL, "true")] extra.

Definition credentialLabel (primary : Member) : entries :=
  labelled DB_PASSWORD_SECRET_LABEL (get DB_PASSWORD_SECRET_LABEL (mb_labels primary)).

Definition env_password (env : entries) : string := default "" (get PG_PASSWORD env).
Definition env_replicationUser (env : entries) : string := default REPLICATION_USER (get PG_REPLICATION_USER env).
Definition env_replicationPassword (env : entries) : string := default (env_password env) (get PG_REPLICATION_PASSWORD env).

Definition regionReplicaSpec (c : Cluster) (primary : Member) (region : string) (n : Z) (multiNode : bool) : ServiceSpec :=
  let env := envRecord (mb_env primary) in
  let avoid := if multiNode then get DB_PIN_NODE_LABEL (mb_labels primary) else None in
  let labels := memberLabels c "replica" "geo"
    (credentialLabel primary ++ [(DB_REGION_LABEL, region); (DB_REPLICAS_LABEL, pretty n)] ++
     dbStorageLabels (regionReplicaDataVolumeName (cl_base c) region) None avoid) in
  applyPgMember
    (set_placement (Some {| pl_constraints := Some ["node.labels." +:+ REGION_NODE_LABEL +:+ "==" +:+ region];
                            pl_preferences := None; pl_maxReplicasPerNode := None |})
      (member_spec (cl_base c +:+ "-replica-" +:+ region) (mb_image primary) n
        (pgReplicaEnv (env_password env) (env_replicationUser env) (env_replicationPassword env) (mb_name primary) PG_PORT None)
        labels [clusterNet c] None None None None)) labels.

Definition extraPrimarySpec (c : Cluster) (primary : Member) (index : Z) (pinNode : option string) : ServiceSpec :=
  let env := envRecord (mb_env primary) in
  let labels := memberLabels c "primary" "active-active"
    (credentialLabel primary ++ [(DB_MEMBER_LABEL, pretty index)] ++
     dbStorageLabels (extraPrimaryDataVolumeName (cl_base c) index) pinNode None) in
  applyPgMember
    (member_spec (cl_base c +:+ "-primary-" +:+ pretty index) (mb_image primary) 1
      (pgPrimaryEnv (env_password env) (default DEFAULT_DATABASE (get PG_DATABASE env)) (env_replicationUser env)
        (env_replicationPassword env))
      labels [clusterNet c] None None None None) labels.

Definition placePrimarySpec (primary : Member) (region net : string) : ServiceSpec :=
  let labels := obj_set DB_PLACED_REGION_LABEL region (mb_labels primary) in
  applyPgMember
    (set_placement (Some {| pl_constraints := Some ["node.labels." +:+ REGION_NODE_LABEL +:+ "==" +:+ region];
                            pl_preferences := None; pl_maxReplicasPerNode := None |})
      (member_spec (mb_name primary) (mb_image primary) (default 1 (mb_desired primary)) (envRecord (mb_env primary)) labels
        (member_networks primary net) None None None None)) labels.

Definition replicaStorageSpec (replica : Member) (labels : entries) (net : string) : ServiceSpec :=
  applyPgMember
    (member_spec (mb_name replica) (mb_image replica) (default 0 (mb_desired replica)) (envRecord (mb_env replica)) labels
      (member_networks replica net) None None (named_refs (mb_secrets replica)) None) labels.

Definition stripPitrSpec (primary : Member) (c : Cluster) : ServiceSpec :=
  let labels := obj_del DB_PITR_ARCHIVE_CMD_LABEL (obj_del DB_PITR_APPLIED_LABEL (mb_labels primary)) in
  applyPgMember
    (member_spec (mb_name primary) (mb_image primary) (default 1 (mb_desired primary)) (envRecord (mb_env primary)) labels
      (member_networks primary (clusterNet c)) None None None (get DB_PLACED_REGION_LABEL (mb_labels primary))) labels.

Definition repointSpec (s : Member) (promoted net epoch : string) : ServiceSpec :=
  let env := envRecord (mb_env s) in
  let labels := obj_set DB_LEADER_LABEL promoted (obj_set DB_ROLE_LABEL "replica" (mb_labels s)) in
  let labels := drop_names [DB_FAILOVER_PENDING_LABEL; DB_FAILOVER_CONFIRM_LABEL; DB_SWITCHOVER_LABEL; DB_PITR_APPLIED_LABEL] labels in
  let replEnv := pgReplicaEnv (env_password env) (env_replicationUser env) (env_replicationPassword env) promoted PG_PORT (Some epoch) in
  applyPgMember
    (member_spec (mb_name s) (mb_image s) (default 1 (mb_desired s)) (assign env replEnv) labels (member_networks s net) None
      (named_refs (mb_configs s)) (named_refs (mb_secrets s)) (get DB_REGION_LABEL (mb_labels s))) labels.

(** * Point-in-time recovery *)

(** The primary the archive bits are put on, or why they have to wait. *)
Inductive PitrPrimaryPrep :=
  | Ready (primary : Member) (promoted : bool)
  | Wait.

Definition preparePitrPrimary (primary : Member) (runningOnSwarmNode : option string) : PitrPrimaryPrep :=
  let env := envRecord (mb_env primary) in
  match pgBootRole env with
  | boot_primary => Ready primary false
  | boot_replica =>
      if 1 <? default 1 (mb_desired primary) then Wait
      else
        let pin := match get DB_PIN_NODE_LABEL (mb_labels primary) with Some p => Some p | None => runningOnSwarmNode end in
        match truthy_str pin with
        | None => Wait
        | Some p =>
            let labels := obj_del DB_AVOID_NODE_LABEL (obj_set DB_PIN_NODE_LABEL p (mb_labels primary)) in
            let writerEnv := drop_names [PG_PRIMARY_HOST; PG_PRIMARY_PORT; PG_REJOIN] (obj_set PG_ROLE "primary" env) in
            Ready (with_env (map env_entry (own_order writerEnv)) (with_labels labels primary)) true
        end
  end.

Definition PITR_ARCHIVE_COMMAND : string :=
  "test ! -f /wal-archive/%f && cp %p /wal-archive/.%f.tmp && mv /wal-archive/.%f.tmp /wal-archive/%f".

Definition newline : string := String (ascii_of_nat 10) "".

Definition pitrExtraConf : string := "archive_mode = on" +:+ newline +:+ "archive_command = '" +:+ PITR_ARCHIVE_COMMAND +:+ "'" +:+ newline.

Definition PITR_ARCHIVE_COMMAND_HASH : string := contentHash PITR_ARCHIVE_COMMAND.

Definition pitrConfName (base : string) : string := base +:+ "-pitr-conf-" +:+ contentHash pitrExtraConf.

Definition isPitrConf (base name : string) : bool :=
  String.eqb name (base +:+ "-pitr-conf") || startsWith (base +:+ "-pitr-conf-") name.

Definition archiveCommandStale (primary : Member) (base : string) : bool :=
  if bool_decide (get DB_PITR_ARCHIVE_CMD_LABEL (mb_labels primary) = Some PITR_ARCHIVE_COMMAND_HASH) then false
  else negb (mem (pitrConfName base) (mb_configs primary)).

Definition pitrPrimarySpec (primary : Member) (base net version : string) (dataVolume : option string) : ServiceSpec :=
  let labels := obj_set DB_PITR_ARCHIVE_CMD_LABEL PITR_ARCHIVE_COMMAND_HASH (obj_set DB_PITR_APPLIED_LABEL version (mb_labels primary)) in
  applyPgMember
    (member_spec (mb_name primary) (mb_image primary) (default 1 (mb_desired primary)) (envRecord (mb_env primary)) labels
      (member_networks primary net)
      (Some (volume_mount (base +:+ "-wal-archive") WAL_ARCHIVE_MOUNT ::
             match truthy_str dataVolume with Some v => [volume_mount v MANAGED_PG_ROOT] | None => [] end))
      (Some (map (fun n => plain_ref n None) (List.filter (fun n => negb (isPitrConf base n)) (mb_configs primary)) ++
             [plain_ref (pitrConfName base) (Some MANAGED_PG_PITR_CONF_TARGET)]))
      (named_refs (mb_secrets primary)) (get DB_PLACED_REGION_LABEL (mb_labels primary))) labels.

(** [renderWalCredsEnv]: the environment of the shipper. *)
Record WalCreds := {
  wc_endpoint : option string; wc_bucket : string; wc_prefix : option string; wc_region : option string;
  wc_accessKeyId : option string; wc_secretAccessKey : option string
}.

Definition env_line (k : string) (v : option string) : list string := match truthy_str v with Some x => [k +:+ "=" +:+ x] | None => [] end.

Definition wal_endpoint (t : WalCreds) : option string :=
  (fun e => if startsWith "http://" e || startsWith "https://" e then e else "https://" +:+ e) <$> truthy_str (wc_endpoint t).

Definition renderWalCredsEnv (t : WalCreds) : string :=
  let prefix := match truthy_str (wc_prefix t) with Some p => "/" +:+ drop_while (fun c => Ascii.eqb c "/") p | None => "" end in
  join newline
    (["WALG_S3_PREFIX=s3://" +:+ wc_bucket t +:+ prefix] ++ env_line "AWS_ENDPOINT" (wal_endpoint t) ++ ["AWS_S3_FORCE_PATH_STYLE=true"] ++
     env_line "AWS_ACCESS_KEY_ID" (wc_accessKeyId t) ++ env_line "AWS_SECRET_ACCESS_KEY" (wc_secretAccessKey t) ++
     env_line "AWS_REGION" (wc_region t) ++ env_line "AWS_DEFAULT_REGION" (wc_region t)) +:+ newline.

Definition pitrVersion (credsEnv : string) (dataVolume : option string) : string :=
  contentHash (credsEnv +:+ newline +:+ default "" dataVolume).

(** The sidecar that pushes archived segments. *)
Definition shipperScript : string :=
  join newline
    ["set -u"; "set -a; . /run/secrets/wal-creds; set +a"; "export WALG_UPLOAD_CONCURRENCY=1"; "while true; do";
     "  mkdir -p /wal-archive/archive_status"; "  for f in /wal-archive/*; do"; "    [ -f " +:+ quoted "$f" +:+ " ] || continue";
     "    case " +:+ quoted "${f##*/}" +:+ " in .*) continue ;; esac";
     "    if wal-g wal-push " +:+ quoted "$f" +:+ "; then rm -f -- " +:+ quoted "$f" +:+ "; fi"; "  done"; "  sleep 10"; "done"].

Definition walShipperRev (networks : list string) : string :=
  contentHash (shipperScript +:+ newline +:+ join "," (js_sort str_cmp networks)).

Definition walShipperNetworks (clusterNet : string) (storageNetwork : option string) : list string :=
  match truthy_str storageNetwork with
  | Some n => if String.eqb n clusterNet then [clusterNet] else [clusterNet; n]
  | None => [clusterNet]
  end.

Definition walShipperUpToDate (shipper : option Member) (version : string) (networks : list string) : bool :=
  match shipper with
  | None => false
  | Some s => bool_decide (get DB_PITR_APPLIED_LABEL (mb_labels s) = Some version) &&
              bool_decide (get DB_WAL_SHIPPER_REV_LABEL (mb_labels s) = Some (walShipperRev networks))
  end.

Definition walShipperSpec (c : Cluster) (version secretName : string) (primary : Member) (networks : list string) : ServiceSpec :=
  let constraints :=
    match label_in DB_PLACED_REGION_LABEL (mb_labels primary) with
    | Some r => ["node.labels." +:+ REGION_NODE_LABEL +:+ "==" +:+ r]
    | None => []
    end ++
    match label_in DB_PIN_NODE_LABEL (mb_labels primary) with Some p => ["node.id==" +:+ p] | None => [] end in
  set_command (Some ["/bin/sh"; "-c"; shipperScript])
    (set_env None
      (set_placement ((fun cs => {| pl_constraints := Some cs; pl_preferences := None; pl_maxReplicasPerNode := None |}) <$>
                      nonempty_list constraints)
        (member_spec (cl_base c +:+ "-wal-shipper") DEFAULT_WALG_IMAGE 1 []
          [(MANAGED_LABEL, "true"); (STACK_LABEL, cl_stack c); (DB_CLUSTER_LABEL, cl_cluster c); (DB_WAL_SHIPPER_LABEL, "true");
           (DB_PITR_APPLIED_LABEL, version); (DB_WAL_SHIPPER_REV_LABEL, walShipperRev networks); (SCALE_TO_ZERO_EXEMPT_LABEL, "true")]
          networks (Some [volume_mount (cl_base c +:+ "-wal-archive") WAL_ARCHIVE_MOUNT]) None
          (Some [plain_ref secretName (Some "wal-creds")]) None))).
End members.

(** * What a rebuilt member keeps *)

Definition at_root (m : Mount) : bool := String.eqb (mt_target m) MANAGED_PG_ROOT.
Definition mounts_of (s : ServiceSpec) : list Mount := default [] (ss_mounts s).
Definition constraints_of (s : ServiceSpec) : list string := default [] (ss_placement s ≫= pl_constraints).
Definition secrets_of (s : ServiceSpec) : list Ref := default [] (ss_secrets s).

(** The constraint on the node that labels declare. *)
Definition declared_node (labels : entries) : list string :=
  match label_in DB_PIN_NODE_LABEL labels, label_in DB_AVOID_NODE_LABEL labels with
  | Some p, _ => ["node.id==" +:+ p]
  | None, Some a => ["node.id!=" +:+ a]
  | None, None => []
  end.

(** [s] is a member of the cluster as [labels] declare it: it boots through the
    platform's entrypoint on the fixed data directory; a declared volume is the one
    thing mounted at the data root, one task per server; it is bound to the declared
    server; a declared secret is the only one delivered as password, by file. *)
Record member_of (script : string) (labels : entries) (s : ServiceSpec) : Prop := {
  mo_command : ss_command s = Some ["/bin/sh"; "-c"; script];
  mo_args : ss_args s = None;
  mo_pgdata : get PG_PGDATA (env_of s) = Some MANAGED_PG_PGDATA;
  mo_volume : forall v, label_in DB_DATA_VOLUME_LABEL labels = Some v ->
    List.filter at_root (mounts_of s) = [volume_mount v MANAGED_PG_ROOT] /\
    (ss_placement s ≫= pl_maxReplicasPerNode) = Some (num 1);
  mo_node : declared_node labels <> [] \/ is_Some (label_in DB_DATA_VOLUME_LABEL labels) ->
    List.filter is_node_id (constraints_of s) = declared_node labels;
  mo_secret : forall secret, get DB_PASSWORD_SECRET_LABEL labels = Some secret -> secret <> "" ->
    get PG_PASSWORD (env_of s) = None /\ get PG_REPLICATION_PASSWORD (env_of s) = None /\
    get PG_PASSWORD_FILE (env_of s) = Some ("/run/secrets/" +:+ family_of secret) /\
    get PG_REPLICATION_PASSWORD_FILE (env_of s) = Some ("/run/secrets/" +:+ family_of secret) /\
    List.filter (fun r => String.eqb (ref_target r) (family_of secret)) (secrets_of s) = [plain_ref secret (Some (family_of secret))]
}.

Lemma filter_negb {A} (f : A -> bool) l : List.filter f (List.filter (fun x => negb (f x)) l) = [].
Proof. induction l as [|x l IH]; simpl; [done|]. destruct (f x) eqn:E; simpl; [done|]. by rewrite E. Qed.

Lemma filter_none {A} (f : A -> bool) l : (forall x, x ∈ l -> f x = false) -> List.filter f l = [].
Proof.
  induction l as [|x l IH]; simpl; [done|]. intros H. rewrite (H x) by left. apply IH. intros y Hy. apply H. by right.
Qed.

Lemma filter_idemp {A} (f : A -> bool) l : List.filter f (List.filter f l) = List.filter f l.
Proof. induction l as [|x l IH]; simpl; [done|]. destruct (f x) eqn:E; simpl; by rewrite ?E, IH. Qed.

Lemma declared_is_node_id labels : List.filter is_node_id (declared_node labels) = declared_node labels.
Proof. unfold declared_node. repeat case_match; done. Qed.

Lemma node_constraints_declared labels cs :
  node_constraints (label_in DB_PIN_NODE_LABEL labels) (label_in DB_AVOID_NODE_LABEL labels) cs =
  List.filter (fun c => negb (is_node_id c)) cs ++ declared_node labels.
Proof. done. Qed.

Section rebuilt.
Context (script : string).

Lemma data_mounts_root v ms : List.filter at_root (data_mounts (Some v) ms) = [volume_mount v MANAGED_PG_ROOT].
Proof. unfold data_mounts. simpl. by rewrite (filter_negb at_root). Qed.

(** The storage of a specification that went through [applyDbStorage]. *)
Lemma storage_applied spec labels : let s := applyDbStorage spec labels in
  (forall v, label_in DB_DATA_VOLUME_LABEL labels = Some v ->
     List.filter at_root (mounts_of s) = [volume_mount v MANAGED_PG_ROOT] /\ (ss_placement s ≫= pl_maxReplicasPerNode) = Some (num 1)) /\
  (declared_node labels <> [] \/ is_Some (label_in DB_DATA_VOLUME_LABEL labels) -> List.filter is_node_id (constraints_of s) = declared_node labels).
Proof.
  unfold applyDbStorage. cbv zeta. destruct (label_in DB_DATA_VOLUME_LABEL labels) as [v|] eqn:Ev.
  - split.
    + intros v' [= <-]. split; [|done]. apply data_mounts_root.
    + intros _. unfold constraints_of. simpl. rewrite default_nonempty, node_constraints_declared, List.filter_app, filter_negb. apply declared_is_node_id.
  - split; [done|]. unfold declared_node at 1.
    destruct (label_in DB_PIN_NODE_LABEL labels) as [p|] eqn:Ep, (label_in DB_AVOID_NODE_LABEL labels) as [a|] eqn:Ea;
      [..|by intros [?|[? ?]]]; intros _; unfold constraints_of; simpl; rewrite default_nonempty;
      rewrite <- Ep, <- Ea, node_constraints_declared, List.filter_app, filter_negb; apply declared_is_node_id.
Qed.

Lemma unrelated_target secret family l : List.filter (fun r => String.eqb (ref_target r) family) (List.filter (unrelated secret family) l) = [].
Proof.
  apply filter_none. intros r Hr. apply list_elem_of_In, filter_In in Hr as [_ Hr]. unfold unrelated in Hr. b2p. by apply String.eqb_neq.
Qed.

Lemma credential_applied spec labels secret : truthy_str (pgPasswordSecretOf spec labels) = Some secret ->
  let s := applyPgCredential spec labels in let family := family_of secret in
  get PG_PASSWORD (env_of s) = None /\ get PG_REPLICATION_PASSWORD (env_of s) = None /\
  get PG_PASSWORD_FILE (env_of s) = Some ("/run/secrets/" +:+ family) /\
  get PG_REPLICATION_PASSWORD_FILE (env_of s) = Some ("/run/secrets/" +:+ family) /\
  List.filter (fun r => String.eqb (ref_target r) family) (secrets_of s) = [plain_ref secret (Some family)].
Proof.
  intros Hs. unfold applyPgCredential. rewrite Hs. cbv zeta. set (family := family_of secret). set (path := "/run/secrets/" +:+ family).
  set (env := obj_set PG_REPLICATION_PASSWORD_FILE path _). set (sec := _ ++ [plain_ref secret (Some family)]).
  set (out := set_secrets (Some sec) _). assert (Hout : env_of (match ss_labels spec with Some l => set_labels (Some (obj_set DB_PASSWORD_SECRET_LABEL secret l)) out | None => out end) = env /\
    secrets_of (match ss_labels spec with Some l => set_labels (Some (obj_set DB_PASSWORD_SECRET_LABEL secret l)) out | None => out end) = sec) by (by destruct (ss_labels spec)).
  destruct Hout as [-> ->]. subst env sec. rewrite !get_obj_set, !get_obj_del. split_and!; try done.
  rewrite List.filter_app, unrelated_target. simpl. change (ref_target (plain_ref secret (Some family))) with family. by rewrite String.eqb_refl.
Qed.

Lemma credential_storage spec labels : let s := applyPgCredential spec labels in
  mounts_of s = mounts_of spec /\ ss_placement s = ss_placement spec.
Proof. unfold applyPgCredential. destruct (truthy_str _); [|done]. by destruct (ss_labels spec). Qed.

(** Whatever is rebuilt through [applyPgMember] is a member as its labels declare. *)
Lemma applyPgMember_member spec labels : member_of script labels (applyPgMember script spec labels).
Proof.
  unfold applyPgMember. set (st := applyDbStorage spec labels). set (cr := applyPgCredential st labels).
  destruct (storage_applied spec labels) as [Hv Hn]. fold st in Hv, Hn. destruct (credential_storage st labels) as [Hm Hp]. fold cr in Hm, Hp.
  split; [done..|by unfold env_of; simpl; rewrite get_obj_set| | |].
  - intros v H. unfold mounts_of. simpl. fold (mounts_of cr). rewrite Hm, Hp. by apply Hv.
  - intros H. unfold constraints_of. simpl. rewrite Hp. by apply Hn.
  - intros secret Hs Hne. destruct (credential_applied st labels secret) as (H1 & H2 & H3 & H4 & H5).
    { unfold pgPasswordSecretOf. rewrite Hs. simpl. by apply String.eqb_neq in Hne as ->. }
    fold cr in H1, H2, H3, H4, H5.
    unfold env_of at 1 2 3 4. simpl. rewrite !get_obj_set. by split_and!.
Qed.

Lemma truthy_some o x : truthy_str o = Some x -> o = Some x /\ x <> "".
Proof. destruct o as [y|]; simpl; [|done]. destruct (String.eqb_spec y ""); [done|]. by intros [= ->]. Qed.

Lemma boot_secrets s k : k <> PG_PGDATA -> get k (env_of (applyPgBoot script s)) = get k (env_of s).
Proof. intros Hk. unfold env_of at 1. simpl. rewrite get_obj_set. by apply String.eqb_neq in Hk as ->. Qed.

(** The labels it ends up with: those it was given, with the password secret it found. *)
Lemma applyPgMember_labels spec l : ss_labels spec = Some l -> let s := applyPgMember script spec l in exists l', ss_labels s = Some l' /\
  (forall k, k <> DB_PASSWORD_SECRET_LABEL -> get k l' = get k l) /\
  (forall x, get DB_PASSWORD_SECRET_LABEL l = Some x -> get DB_PASSWORD_SECRET_LABEL l' = Some x) /\ member_of script l' s.
Proof.
  intros Hl s. pose proof (applyPgMember_member spec l) as Hm. fold s in Hm. set (st := applyDbStorage spec l).
  assert (Hst : ss_labels st = Some l) by (unfold st, applyDbStorage; repeat case_match; done).
  destruct (truthy_str (pgPasswordSecretOf st l)) as [secret|] eqn:E.
  - exists (obj_set DB_PASSWORD_SECRET_LABEL secret l). split; [unfold s, applyPgMember, applyPgCredential; fold st; rewrite E; simpl; by rewrite Hst|].
    split; [intros k Hk; rewrite get_obj_set; by apply String.eqb_neq in Hk as ->|]. rewrite get_obj_set, String.eqb_refl. split.
    + intros x Hx. apply truthy_some in E as [E _]. unfold pgPasswordSecretOf in E. rewrite Hx in E. by rewrite E.
    + assert (Hg : forall k, k <> DB_PASSWORD_SECRET_LABEL -> label_in k (obj_set DB_PASSWORD_SECRET_LABEL secret l) = label_in k l).
      { intros k Hk. unfold label_in. rewrite get_obj_set. by apply String.eqb_neq in Hk as ->. }
      assert (Hd : declared_node (obj_set DB_PASSWORD_SECRET_LABEL secret l) = declared_node l) by (unfold declared_node; by rewrite !Hg).
      destruct Hm as [H1 H2 H3 H4 H5 _]. split; [done..| | |].
      * intros v. rewrite Hg by done. apply H4.
      * rewrite Hd, Hg by done. exact H5.
      * intros x. rewrite get_obj_set, String.eqb_refl. intros [= <-] _. destruct (credential_applied st l secret E) as (G1 & G2 & G3 & G4 & G5).
        unfold s, applyPgMember. fold st. rewrite !boot_secrets by done. by split_and!.
  - exists l. assert (Hs : ss_labels s = Some l) by (unfold s, applyPgMember, applyPgCredential; fold st; by rewrite E). by split_and!.
Qed.

Lemma obj_set_same {A} k (v : A) m : get k m = Some v -> obj_set k v m = m.
Proof.
  induction m as [|[k' w] m IH]; simpl; [done|]. destruct (String.eqb_spec k k') as [->|]; [by intros [= ->]|]. intros H. by rewrite IH.
Qed.

Lemma spec_eq_eta (s : ServiceSpec) : spec_eta s = s.
Proof. by destruct s. Qed.

Lemma data_mounts_idemp dv ms : data_mounts dv (data_mounts dv ms) = data_mounts dv ms.
Proof. destruct dv as [v|]; [|done]. simpl. by rewrite filter_idemp. Qed.

Lemma declared_not_plain labels : List.filter (fun c => negb (is_node_id c)) (declared_node labels) = [].
Proof. unfold declared_node. repeat case_match; done. Qed.

Lemma storage_placement_idemp labels p :
  let go := storage_placement (label_in DB_DATA_VOLUME_LABEL labels) (label_in DB_PIN_NODE_LABEL labels) (label_in DB_AVOID_NODE_LABEL labels) in
  go (Some (go p)) = go p.
Proof.
  cbv zeta. unfold storage_placement at 1. cbn [default pl_constraints pl_preferences pl_maxReplicasPerNode].
  change (default no_placement (Some ?x)) with x. unfold storage_placement. cbn [pl_constraints pl_preferences pl_maxReplicasPerNode].
  f_equal; [|by destruct (label_in DB_DATA_VOLUME_LABEL labels)].
  unfold id. cbn [pl_constraints]. rewrite default_nonempty, !node_constraints_declared, List.filter_app, filter_idemp, declared_not_plain. by rewrite app_nil_r.
Qed.

Lemma spec_mounts_placement s m p : ss_mounts s = m -> ss_placement s = p -> set_placement p (set_mounts m s) = s.
Proof. destruct s; simpl. by intros -> ->. Qed.

(** What has been applied already is not changed. *)
Lemma storage_fixed spec s labels : ss_mounts s = ss_mounts (applyDbStorage spec labels) -> ss_placement s = ss_placement (applyDbStorage spec labels) ->
  applyDbStorage s labels = s.
Proof.
  intros Hm Hp. pose proof (storage_placement_idemp labels (ss_placement spec)) as Hi. cbv zeta in Hi. unfold applyDbStorage in *.
  destruct (label_in DB_DATA_VOLUME_LABEL labels) as [v|] eqn:Ev, (label_in DB_PIN_NODE_LABEL labels) as [q|] eqn:Eq,
    (label_in DB_AVOID_NODE_LABEL labels) as [a|] eqn:Ea; try done;
  cbn [ss_mounts ss_placement set_placement set_mounts] in Hm, Hp; apply spec_mounts_placement; rewrite ?Hm, ?Hp; cbn [default];
    unfold id; rewrite ?data_mounts_idemp, ?Hi; done.
Qed.

Lemma unrelated_filter secret family l :
  List.filter (unrelated secret family) (List.filter (unrelated secret family) l ++ [plain_ref secret (Some family)]) =
  List.filter (unrelated secret family) l.
Proof.
  rewrite List.filter_app, filter_idemp. simpl. unfold unrelated at 2. cbn [rf_source plain_ref]. by rewrite String.eqb_refl, app_nil_r.
Qed.

Lemma spec_env_secrets_labels s e x l : ss_env s = Some e -> ss_secrets s = Some x -> ss_labels s = Some l ->
  set_labels (Some l) (set_secrets (Some x) (set_env (Some e) s)) = s.
Proof. destruct s; simpl. by intros -> -> ->. Qed.

(** The secret found once is found again. *)
Lemma secret_again spec s labels : is_Some (ss_labels spec) -> ss_secrets s = ss_secrets (applyPgCredential spec labels) ->
  ss_labels s = ss_labels (applyPgCredential spec labels) -> truthy_str (pgPasswordSecretOf s labels) = truthy_str (pgPasswordSecretOf spec labels).
Proof.
  intros [l Hl]. unfold applyPgCredential. destruct (truthy_str (pgPasswordSecretOf spec labels)) as [x|] eqn:Ex.
  - rewrite Hl. intros _ Hlab. simpl in Hlab. apply truthy_some in Ex as [Ex Hne]. unfold pgPasswordSecretOf in *.
    apply String.eqb_neq in Hne. destruct (get DB_PASSWORD_SECRET_LABEL labels) as [y|]; [injection Ex as ->; simpl; by rewrite Hne|].
    assert (labels_of s = obj_set DB_PASSWORD_SECRET_LABEL x l) as -> by (unfold labels_of; by rewrite Hlab).
    rewrite get_obj_set, String.eqb_refl. simpl. by rewrite Hne.
  - intros Hsec Hlab. rewrite <- Ex. unfold pgPasswordSecretOf, labels_of. by rewrite Hsec, Hlab.
Qed.

Lemma credential_fixed spec s labels : is_Some (ss_labels spec) -> ss_secrets s = ss_secrets (applyPgCredential spec labels) ->
  ss_labels s = ss_labels (applyPgCredential spec labels) ->
  (forall k, k <> PG_PGDATA -> get k (env_of s) = get k (env_of (applyPgCredential spec labels))) -> is_Some (ss_env s) ->
  applyPgCredential s labels = s.
Proof.
  intros Hsl Hsec Hlab Henv [e He]. pose proof (secret_again spec s labels Hsl Hsec Hlab) as Hw. destruct Hsl as [l Hl].
  unfold applyPgCredential in *. rewrite Hw. destruct (truthy_str (pgPasswordSecretOf spec labels)) as [secret|]; [|done].
  rewrite Hl in *. cbn [ss_secrets ss_labels set_labels set_secrets set_env] in *. rewrite Hlab.
  assert (Ee : env_of s = e) by (unfold env_of; by rewrite He).
  assert (Hget : forall k v, k <> PG_PGDATA -> get k (obj_set PG_REPLICATION_PASSWORD_FILE ("/run/secrets/" +:+ family_of secret)
     (obj_set PG_PASSWORD_FILE ("/run/secrets/" +:+ family_of secret) (obj_del PG_REPLICATION_PASSWORD (obj_del PG_PASSWORD (env_of spec))))) = v -> get k e = v).
  { intros k v Hk <-. rewrite <- Ee, (Henv k Hk). done. }
  apply spec_env_secrets_labels.
  - rewrite He, Ee. f_equal. rewrite (obj_del_absent PG_PASSWORD), (obj_del_absent PG_REPLICATION_PASSWORD).
    + rewrite (obj_set_same PG_PASSWORD_FILE); [rewrite obj_set_same; [done|]|]; apply Hget; try done; by rewrite ?get_obj_set.
    + apply Hget; [done|]. by rewrite !get_obj_set, get_obj_del.
    + apply Hget; [done|]. by rewrite !get_obj_set, !get_obj_del.
  - rewrite Hsec. f_equal. change (default [] (Some ?x)) with x. by rewrite unrelated_filter.
  - rewrite Hlab. f_equal. symmetry. apply obj_set_same. by rewrite get_obj_set, String.eqb_refl.
Qed.

Lemma applyPgBoot_idemp s : applyPgBoot script (applyPgBoot script s) = applyPgBoot script s.
Proof.
  assert (E : obj_set PG_PGDATA MANAGED_PG_PGDATA (env_of (applyPgBoot script s)) = env_of (applyPgBoot script s))
    by (apply obj_set_same; unfold env_of; simpl; by rewrite get_obj_set, String.eqb_refl).
  unfold applyPgBoot at 1. rewrite E. by destruct s.
Qed.

(** Rebuilding what was rebuilt changes nothing. *)
Lemma applyPgMember_idemp spec labels : is_Some (ss_labels spec) -> applyPgMember script (applyPgMember script spec labels) labels = applyPgMember script spec labels.
Proof.
  intros Hl. set (s := applyPgMember script spec labels). set (st := applyDbStorage spec labels).
  destruct (credential_storage st labels) as [_ Hp].
  assert (Hs1 : ss_mounts s = ss_mounts st /\ ss_placement s = ss_placement st).
  { unfold s, applyPgMember. fold st. simpl. unfold applyPgCredential. destruct (truthy_str _); [|done]. by destruct (ss_labels st). }
  destruct Hs1 as [Hm Hpl]. unfold applyPgMember at 1. rewrite (storage_fixed spec s labels) by done.
  rewrite (credential_fixed st s labels).
  - apply applyPgBoot_idemp.
  - unfold st, applyDbStorage. by repeat case_match.
  - done.
  - done.
  - intros k Hk. unfold s, applyPgMember. unfold env_of at 1. simpl. rewrite get_obj_set. by apply String.eqb_neq in Hk as ->.
  - done.
Qed.
End rebuilt.
