(* ===== verification/PgPlacement.v ===== *)
(** Where a new primary goes (packages/core/src/manageddb-storage.ts, second half, with
    the disks a server declares of disk-inventory.ts), and whether a pinned one can be
    placed in a region (apps/api/src/workers/manageddb-reconcile.core.ts).

    The locale's order of strings is a parameter; the sentences that explain a choice
    are left out. *)

From S2P Require Import Prelude Comparators Json JsonText NetPolicy ServiceSpec SecretEnv SpecRead Effects ServicePatch PgMembers.

(** * The disks of a server *)

Definition SWARMY_DISK_ROOT : string := "/var/lib/swarmy/disks/".
Definition DISK_LABEL_PREFIX : string := "swarmy.disk.".
Definition DISK_DEFAULT_LABEL : string := "swarmy.disk.default".

Record NodeDisk := { nd_id : string; nd_mountpoint : string; nd_isDefault : bool }.

(** [/^[A-Za-z0-9_][A-Za-z0-9_.-]{0,63}$/] *)
Definition safe_id_char (c : ascii) : bool := is_alpha c || is_digit c || Ascii.eqb c "_" || Ascii.eqb c "." || Ascii.eqb c "-".

Definition safe_id (s : string) : bool :=
  next_is (fun c => is_alpha c || is_digit c || Ascii.eqb c "_") s && all_chars safe_id_char s && (String.length s <=? 64)%nat.

Definition disk_entry (def : option string) (kv : string * string) : option NodeDisk :=
  let '(k, v) := kv in
  if startsWith DISK_LABEL_PREFIX k && negb (String.eqb k DISK_DEFAULT_LABEL) then
    let id := sdrop (String.length DISK_LABEL_PREFIX) k in
    if safe_id id && String.eqb v (SWARMY_DISK_ROOT +:+ id) then
      Some {| nd_id := id; nd_mountpoint := v; nd_isDefault := bool_decide (Some id = def) |}
    else None
  else None.

Definition nodeDisks (labels : entries) : list NodeDisk := omap (disk_entry (get DISK_DEFAULT_LABEL labels)) (own_order labels).

Definition defaultDiskMount (labels : entries) : option string := nd_mountpoint <$> List.find nd_isDefault (nodeDisks labels).

(** * The choice *)

Inductive NodeRole := n_manager | n_worker.
Inductive Availability := active | pause | drain.
Inductive NodeStatus := s_unknown | s_down | s_ready | s_disconnected.

#[export] Instance NodeRole_eq_dec : EqDecision NodeRole.
Proof. solve_decision. Defined.
#[export] Instance Availability_eq_dec : EqDecision Availability.
Proof. solve_decision. Defined.
#[export] Instance NodeStatus_eq_dec : EqDecision NodeStatus.
Proof. solve_decision. Defined.

Record PinCandidateNode := {
  pc_id : string; pc_role : NodeRole; pc_availability : Availability; pc_status : NodeStatus; pc_labels : entries
}.

Record PinChoiceInput := {
  pi_nodes : list PinCandidateNode; pi_pinnedCounts : list (string * Z); pi_fallback : option string; pi_unmounted : list string
}.

(** The node, with those passed over; or nothing, for there is no usable inventory;
    or a refusal naming the nodes whose disk is not attached. *)
Inductive PinChoice :=
  | No_inventory (fallback : option string)
  | Placed (node : string) (skipped : list string)
  | Refused (skipped : list string).

Definition usable (n : PinCandidateNode) : bool := bool_decide (pc_status n = s_ready) && bool_decide (pc_availability n = active).

Definition has_disk (n : PinCandidateNode) : bool := bool_decide (is_Some (defaultDiskMount (pc_labels n))).

Definition broken (i : PinChoiceInput) (n : PinCandidateNode) : bool := mem (pc_id n) (pi_unmounted i) && has_disk n.

Definition load (i : PinChoiceInput) (n : PinCandidateNode) : Z := default 0 (get (pc_id n) (pi_pinnedCounts i)).

Definition flag (b : bool) : Z := if b then 1 else 0.

Section choice.
Variable localeCompare : string -> string -> Z.

Definition pin_order (i : PinChoiceInput) : PinCandidateNode -> PinCandidateNode -> Z :=
  cmp_then (cmp_desc (fun n => flag (has_disk n)))
    (cmp_then (cmp_asc (load i))
      (cmp_then (cmp_desc (fun n => flag (bool_decide (Some (pc_id n) = pi_fallback i))))
        (cmp_then (cmp_desc (fun n => flag (bool_decide (pc_role n = n_manager)))) (cmp_on pc_id localeCompare)))).

Definition explainPinNode (i : PinChoiceInput) : PinChoice :=
  let us := List.filter usable (pi_nodes i) in
  match us with
  | [] => No_inventory (pi_fallback i)
  | _ =>
      let skipped := map pc_id (List.filter (broken i) us) in
      match js_sort (pin_order i) (List.filter (fun n => negb (broken i n)) us) with
      | [] => Refused skipped
      | n :: _ => Placed (pc_id n) skipped
      end
  end.

Definition choosePinNode (i : PinChoiceInput) : option string :=
  match explainPinNode i with No_inventory f => f | Placed n _ => Some n | Refused _ => None end.
End choice.

Definition count_pin (out : list (string * Z)) (labels : entries) : list (string * Z) :=
  if bool_decide (get DB_ROLE_LABEL labels = Some "primary") then
    match label_in DB_PIN_NODE_LABEL labels with
    | Some pin => obj_set pin (default 0 (get pin out) + 1) out
    | None => out
    end
  else out.

Definition pinnedPrimaryCounts (services : list entries) : list (string * Z) := foldl count_pin [] services.

(** * The region of a pinned primary *)

Inductive RegionFit := fit_ok | fit_mismatch | fit_unknown | fit_unpinned.

Definition pinnedRegionFit (pin : option string) (region : string) (nodes : list PinCandidateNode) : RegionFit :=
  match truthy_str pin with
  | None => fit_unpinned
  | Some p =>
      match List.find (fun n => String.eqb (pc_id n) p) nodes with
      | None => fit_unknown
      | Some n => if bool_decide (get REGION_NODE_LABEL (pc_labels n) = Some region) then fit_ok else fit_mismatch
      end
  end.

(** * Properties *)

(** A primary holds a pin. *)
Definition pins (id : string) (labels : entries) : bool :=
  bool_decide (get DB_ROLE_LABEL labels = Some "primary") && bool_decide (label_in DB_PIN_NODE_LABEL labels = Some id).

Lemma pinned_counts services id : default 0 (get id (pinnedPrimaryCounts services)) = Z.of_nat (length (List.filter (pins id) services)).
Proof.
  unfold pinnedPrimaryCounts. enough (H : forall out, default 0 (get id (foldl count_pin out services)) =
    default 0 (get id out) + Z.of_nat (length (List.filter (pins id) services))) by (rewrite H; simpl; lia).
  induction services as [|l services IH]; intros out; simpl; [lia|]. rewrite IH. unfold count_pin, pins at 2.
  destruct (bool_decide (get DB_ROLE_LABEL l = Some "primary")); simpl; [|lia].
  destruct (label_in DB_PIN_NODE_LABEL l) as [p|]; simpl; [|lia]. rewrite get_obj_set.
  case_bool_decide as E; simpl.
  - injection E as ->. rewrite String.eqb_refl. simpl. lia.
  - destruct (String.eqb_spec id p) as [->|]; [done|lia].
Qed.

(** What it means that a node is a better place: a data disk, then fewer primaries. *)
Definition better (i : PinChoiceInput) (a b : PinCandidateNode) : Prop :=
  (has_disk b = false /\ has_disk a = true) \/ (has_disk a = has_disk b /\ load i a < load i b).

Definition schedulable (i : PinChoiceInput) (n : PinCandidateNode) : Prop :=
  n ∈ pi_nodes i /\ pc_status n = s_ready /\ pc_availability n = active.

Definition eligible (i : PinChoiceInput) (n : PinCandidateNode) : Prop := schedulable i n /\ broken i n = false.

Lemma schedulable_elem i n : n ∈ List.filter usable (pi_nodes i) <-> schedulable i n.
Proof.
  rewrite list_elem_of_In, filter_In, <- list_elem_of_In. unfold usable, schedulable.
  by rewrite andb_true_iff, !bool_decide_eq_true.
Qed.

Lemma eligible_elem i n : n ∈ List.filter (fun n => negb (broken i n)) (List.filter usable (pi_nodes i)) <-> eligible i n.
Proof. by rewrite list_elem_of_In, filter_In, <- list_elem_of_In, schedulable_elem, negb_true_iff. Qed.

Lemma broken_elem i id : id ∈ map pc_id (List.filter (broken i) (List.filter usable (pi_nodes i))) <->
  exists m, pc_id m = id /\ schedulable i m /\ broken i m = true.
Proof.
  rewrite list_elem_of_fmap. setoid_rewrite list_elem_of_In. setoid_rewrite filter_In.
  setoid_rewrite <- list_elem_of_In. setoid_rewrite schedulable_elem. naive_solver.
Qed.

Lemma pin_order_better lc i a b : better i a b -> pin_order lc i a b < 0.
Proof.
  unfold better, pin_order, cmp_then, cmp_desc, cmp_asc. intros [[-> ->]|[-> H]]; simpl; [done|].
  rewrite Z.sub_diag. simpl. destruct (Z.eqb_spec (load i a - load i b) 0); lia.
Qed.

(** C35: A new primary goes to a server that is ready, active and has its declared data
    disk attached, and there is no better one: none with a data disk where the chosen
    has none, and none as good with fewer primaries pinned to it.  It is refused
    exactly when there are schedulable servers and every one of them has its disk
    missing, which are the servers named, and falls back to the dispatching node
    exactly when no server can be scheduled. *)
Theorem pin_choice_exact lc `{!Comparator lc} i :
  match explainPinNode lc i with
  | Placed node skipped =>
      (exists n, pc_id n = node /\ eligible i n /\ forall m, eligible i m -> ~ better i m n) /\
      (forall id, id ∈ skipped <-> exists m, pc_id m = id /\ schedulable i m /\ broken i m = true)
  | Refused skipped =>
      (exists m, schedulable i m) /\ (forall m, ~ eligible i m) /\
      (forall id, id ∈ skipped <-> exists m, pc_id m = id /\ schedulable i m)
  | No_inventory f => f = pi_fallback i /\ forall m, ~ schedulable i m
  end.
Proof.
  unfold explainPinNode. pose proof (schedulable_elem i) as Hu. pose proof (eligible_elem i) as He. pose proof (broken_elem i) as Hb.
  destruct (List.filter usable (pi_nodes i)) as [|u us]; [split; [done|]; by intros m Hm%Hu%not_elem_of_nil|].
  destruct (js_sort _ _) as [|n r] eqn:Es.
  - apply js_sort_nil in Es. rewrite Es in He. assert (Hn : forall m, ~ eligible i m) by (by intros m Hm%He%not_elem_of_nil).
    split; [exists u; apply Hu; left|]. split; [done|]. intros id. rewrite Hb. split; [naive_solver|].
    intros (m & <- & Hm). exists m. split; [done|]. split; [done|]. destruct (broken i m) eqn:B; [done|]. by destruct (Hn m).
  - apply js_sort_head in Es as (Hin & Hmin & _); [|apply _]. split; [|exact Hb]. exists n. split; [done|].
    split; [by apply He|]. intros m Hm Hlt. apply (pin_order_better lc) in Hlt. apply He, Hmin in Hm.
    pose proof (cmp_opp (c:=pin_order lc i) m n). lia.
Qed.

(** Of three ready servers one has a data disk that is not attached, one an attached one. *)
Definition disk_server (id : string) (disk : bool) : PinCandidateNode :=
  {| pc_id := id; pc_role := n_worker; pc_availability := active; pc_status := s_ready;
     pc_labels := if disk then [("swarmy.disk.d1", "/var/lib/swarmy/disks/d1"); ("swarmy.disk.default", "d1")] else [] |}.

Definition three_servers : PinChoiceInput :=
  {| pi_nodes := [disk_server "n1" false; disk_server "n2" true; disk_server "n3" true]; pi_pinnedCounts := [("n3", 4)];
     pi_fallback := Some "n1"; pi_unmounted := ["n2"] |}.

Lemma pin_choice_exact_witness : explainPinNode str_cmp three_servers = Placed "n3" ["n2"] /\
  (exists n, pc_id n = "n3" /\ eligible three_servers n /\ forall m, eligible three_servers m -> ~ better three_servers m n) /\
  (forall id, id ∈ ["n2"] <-> exists m, pc_id m = id /\ schedulable three_servers m /\ broken three_servers m = true).
Proof. split; [by vm_compute|]. exact (pin_choice_exact str_cmp three_servers). Defined.
