(* ===== verification/PgReconcile.v ===== *)
(** The reconcile worker of managed Postgres clusters
    (apps/api/src/workers/manageddb-reconcile.ts, with its cores
    manageddb-reconcile.core.ts and manageddb-pitr.core.ts): what one pass does to a
    cluster, up to the telemetry of lag and the promotion, which are in PgPromote.v.

    A pass is a program of Effects.v: it reads the inventory it was started with, and
    calls Docker through the hub.  The warnings that are raised once per episode are
    state that a pass takes and returns. *)

From S2P Require Import Prelude Comparators Json JsonText KvCodec Doubles NetPolicy ServiceSpec SecretEnv SpecRead Effects ServicePatch PgMembers PgPlacement.

Definition DB_WRITE_REGION_LABEL : string := "swarmy.db.writeRegion".
Definition DB_PRIMARIES_LABEL : string := "swarmy.db.primaries".
Definition DB_BACKUP_SCHEDULE_LABEL : string := "swarmy.db.backup.schedule".
Definition DB_BACKUP_LAST_RUN_LABEL : string := "swarmy.db.backup.lastRun".
Definition DB_BACKUP_PITR_LABEL : string := "swarmy.db.backup.pitr".
Definition DB_BACKUP_AUTO_LABEL : string := "swarmy.db.backup.auto".
Definition SWARM_SERVICE_ID_LABEL : string := "com.docker.swarm.service.id".

(** * The clusters of an organisation *)

Inductive DbTopology := t_single | t_primary_replica | t_failover | t_geo | t_active_active.

#[export] Instance DbTopology_eq_dec : EqDecision DbTopology.
Proof. solve_decision. Defined.

Definition topologyOf (labels : entries) : DbTopology :=
  match get DB_TOPOLOGY_LABEL labels with
  | Some v =>
      if String.eqb v "single" then t_single else if String.eqb v "failover" then t_failover
      else if String.eqb v "geo" then t_geo else if String.eqb v "active-active" then t_active_active else t_primary_replica
  | None => t_primary_replica
  end.

(** [/^swarmy\.db\.region\.(.+)\.replicas$/] *)
Definition region_key (k : string) : option string :=
  let p := "swarmy.db.region." in let q := ".replicas" in
  if startsWith p k && endsWith q k && (String.length p + String.length q <? String.length k)%nat then
    let r := String.substring (String.length p) (String.length k - String.length p - String.length q) k in
    if all_chars in_line r then Some r else None
  else None.

Definition region_count (out : list (string * Z)) (kv : string * string) : list (string * Z) :=
  match region_key (fst kv), parse_int (snd kv) with
  | Some r, Some n => if n <? 0 then out else obj_set r n out
  | _, _ => out
  end.

Definition parseRegionReplicas (labels : entries) : list (string * Z) := foldl region_count [] (own_order labels).

Definition no_cluster (stack cluster : string) : Cluster :=
  {| cl_stack := stack; cl_cluster := cluster; cl_base := stack +:+ "_" +:+ cluster; cl_primary := None; cl_replica := None;
     cl_dcs := None; cl_shipper := None; cl_extraPrimaries := []; cl_regionReplicas := [] |}.

Definition cluster_with (primary replica dcs shipper : option Member) (c : Cluster) : Cluster :=
  {| cl_stack := cl_stack c; cl_cluster := cl_cluster c; cl_base := cl_base c; cl_primary := primary; cl_replica := replica;
     cl_dcs := dcs; cl_shipper := shipper; cl_extraPrimaries := cl_extraPrimaries c; cl_regionReplicas := cl_regionReplicas c |}.

Definition set_primary (p : option Member) (c : Cluster) : Cluster := cluster_with p (cl_replica c) (cl_dcs c) (cl_shipper c) c.
Definition set_replica (r : option Member) (c : Cluster) : Cluster := cluster_with (cl_primary c) r (cl_dcs c) (cl_shipper c) c.
Definition set_dcs (d : option Member) (c : Cluster) : Cluster := cluster_with (cl_primary c) (cl_replica c) d (cl_shipper c) c.
Definition set_shipper (s : option Member) (c : Cluster) : Cluster := cluster_with (cl_primary c) (cl_replica c) (cl_dcs c) s c.

Definition set_siblings (extra : list (Z * Member)) (regions : list (string * Member)) (c : Cluster) : Cluster :=
  {| cl_stack := cl_stack c; cl_cluster := cl_cluster c; cl_base := cl_base c; cl_primary := cl_primary c;
     cl_replica := cl_replica c; cl_dcs := cl_dcs c; cl_shipper := cl_shipper c; cl_extraPrimaries := extra;
     cl_regionReplicas := regions |}.

(** [map.set(i, s)] on a map keyed by numbers. *)
Fixpoint index_set {A} (i : Z) (v : A) (m : list (Z * A)) : list (Z * A) :=
  match m with
  | [] => [(i, v)]
  | (j, w) :: m' => if i =? j then (j, v) :: m' else (j, w) :: index_set i v m'
  end.

(** The place a service takes in its cluster. *)
Definition place (s : Member) (c : Cluster) : Cluster :=
  let l := mb_labels s in
  let role := get DB_ROLE_LABEL l in
  if bool_decide (get DB_WAL_SHIPPER_LABEL l = Some "true") then set_shipper (Some s) c
  else if negb (bool_decide (get DB_ENGINE_LABEL l = Some "postgres")) then c
  else if bool_decide (role = Some "dcs") then set_dcs (Some s) c
  else if bool_decide (role = Some "primary") then
    match parse_int (default "" (get DB_MEMBER_LABEL l)) with
    | Some i => if 2 <=? i then set_siblings (index_set i s (cl_extraPrimaries c)) (cl_regionReplicas c) c else set_primary (Some s) c
    | None => set_primary (Some s) c
    end
  else if bool_decide (role = Some "replica") then
    match label_in DB_REGION_LABEL l with
    | Some r => set_siblings (cl_extraPrimaries c) (obj_set r s (cl_regionReplicas c)) c
    | None => set_replica (Some s) c
    end
  else c.

(** The clusters, keyed by stack and name in the order they are met.  A service that is
    neither the shipper nor Postgres makes no cluster. *)
Definition index_service (m : list (string * Cluster)) (s : Member) : list (string * Cluster) :=
  match label_in DB_CLUSTER_LABEL (mb_labels s) with
  | None => m
  | Some cluster =>
      let stack := default "" (get STACK_LABEL (mb_labels s)) in
      let key := stack +:+ " " +:+ cluster in
      if bool_decide (get DB_WAL_SHIPPER_LABEL (mb_labels s) = Some "true") ||
         bool_decide (get DB_ENGINE_LABEL (mb_labels s) = Some "postgres")
      then obj_set key (place s (default (no_cluster stack cluster) (get key m))) m
      else m
  end.

Definition index_clusters (services : list Member) : list (string * Cluster) := foldl index_service [] services.

Definition topology_of (c : Cluster) : DbTopology :=
  topologyOf (default [] (match cl_primary c with Some p => Some (mb_labels p) | None => mb_labels <$> cl_replica c end)).

Definition replicaMembers (c : Cluster) : list Member := option_list (cl_replica c) ++ map snd (cl_regionReplicas c).

Definition members (c : Cluster) : list Member :=
  option_list (cl_primary c) ++ option_list (cl_replica c) ++ map snd (cl_extraPrimaries c) ++ map snd (cl_regionReplicas c).

Definition needsCredentialMigration (c : Cluster) : bool :=
  existsb (fun m => pgNeedsCredentialMigration (envRecord (mb_env m)) (mb_labels m)) (members c).

Definition consumersNeedCredentialMigration (services : list Member) (c : Cluster) : bool :=
  existsb (fun s => String.eqb (default "" (get STACK_LABEL (mb_labels s))) (cl_stack c) &&
                    dbConsumerHasPlaintextUrl (envRecord (mb_env s)) (mb_labels s) (cl_cluster c)) services.

(** * The storage layout of a cluster *)

Inductive StorageAction :=
  | WarnLegacy
  | Adopt (add : entries) (removeKeys : list string) (redeploy : bool)
  | ConvergeReplica (labels : entries).

(** [{ ...replica.labels, ...dbStorageLabels(...) }], without the label of an
    anti-affinity that is not wanted. *)
Definition converged_labels (replica : Member) (dataVolume : string) (avoid : option string) : entries :=
  let l := assign (mb_labels replica) (dbStorageLabels dataVolume None avoid) in
  match truthy_str avoid with Some _ => l | None => obj_del DB_AVOID_NODE_LABEL l end.

Definition replica_actions (base : string) (replica : option Member) (avoid : option string) : list StorageAction :=
  match replica with
  | Some r =>
      if String.eqb (mb_name r) (base +:+ "-replica") then
        let declared := get DB_DATA_VOLUME_LABEL (mb_labels r) in
        let dataVolume := default (base +:+ "-replica-data") declared in
        let drift := negb (bool_decide (declared = Some dataVolume)) || negb (bool_decide (get DB_AVOID_NODE_LABEL (mb_labels r) = avoid)) ||
                     match storage_of r with unmounted => true | _ => false end in
        if drift then [ConvergeReplica (converged_labels r dataVolume avoid)] else []
      else []
  | None => []
  end.

Definition planClusterStorage (base : string) (primary replica : option Member) (primaryTaskSwarmNode : option string) (multiNode : bool)
    : list StorageAction :=
  match primary with
  | None => []
  | Some p =>
      if negb (String.eqb (mb_name p) (base +:+ "-primary")) then []
      else
        match storage_of p with
        | unmounted => [WarnLegacy]
        | unknown_storage => []
        | persistent dataVolume undeclared =>
            let pinned := label_in DB_PIN_NODE_LABEL (mb_labels p) in
            match (if undeclared then true else bool_decide (pinned = None)) with
            | true =>
                match (match pinned with Some x => Some x | None => truthy_str primaryTaskSwarmNode end) with
                | None => []
                | Some pin =>
                    let pitr := bool_decide (get DB_BACKUP_PITR_LABEL (mb_labels p) = Some "true") in
                    let marked := bool_decide (is_Some (label_in DB_PITR_APPLIED_LABEL (mb_labels p))) in
                    Adopt (dbStorageLabels dataVolume (Some pin) None) (if pitr && marked then [DB_PITR_APPLIED_LABEL] else []) (negb pitr) ::
                    replica_actions base replica (if multiNode then Some pin else None)
                end
            | false => replica_actions base replica (if multiNode then pinned else None)
            end
        end
  end.

(** * Backup intent follows the live primary *)

Definition BACKUP_INTENT_LABELS : list string :=
  [DB_BACKUP_SCHEDULE_LABEL; DB_BACKUP_PITR_LABEL; DB_BACKUP_LAST_RUN_LABEL; DB_BACKUP_AUTO_LABEL].

Definition isAutoSchedule (raw : option string) : bool :=
  match truthy_str raw ≫= json_parse with
  | Some (VObj v) => match get "auto" v with Some (VBool b) => b | _ => false end
  | _ => false
  end.

Definition rehomeScheduleLabel (raw : string) : string :=
  match json_parse raw with
  | Some (VObj v) => if mem "dataVolume" (map fst v) then json_stringify (VObj (obj_del "dataVolume" v)) else raw
  | _ => raw
  end.

Record Carry := { ca_have : entries; ca_add : entries; ca_remove : list string }.

(** [delete have[k]; delete add[k]; removeFromPrimary.push(k)] *)
Definition opt_out (c : Carry) (k : string) : Carry :=
  match get k (ca_have c) with
  | Some _ => {| ca_have := obj_del k (ca_have c); ca_add := obj_del k (ca_add c); ca_remove := ca_remove c ++ [k] |}
  | None => c
  end.

Definition schedule_group (k : string) : bool := String.eqb k DB_BACKUP_SCHEDULE_LABEL || String.eqb k DB_BACKUP_PITR_LABEL.

Definition take_label (donor : entries) (overrides : bool) (c : Carry) (k : string) : Carry :=
  match get k donor with
  | None => c
  | Some v =>
      if bool_decide (is_Some (get k (ca_have c))) && negb (overrides && schedule_group k) then c
      else
        let value := if String.eqb k DB_BACKUP_SCHEDULE_LABEL then rehomeScheduleLabel v else v in
        {| ca_have := obj_set k value (ca_have c); ca_add := obj_set k value (ca_add c); ca_remove := ca_remove c |}
  end.

Definition carry_from (c : Carry) (donor : entries) : Carry :=
  let schedule := get DB_BACKUP_SCHEDULE_LABEL donor in
  let auto := isAutoSchedule (get DB_BACKUP_SCHEDULE_LABEL (ca_have c)) in
  let overrides := auto && bool_decide (is_Some schedule) && negb (isAutoSchedule schedule) in
  let opted_out := auto && bool_decide (get DB_BACKUP_AUTO_LABEL donor = Some "off") && bool_decide (schedule = None) in
  let c := if opted_out then foldl opt_out c [DB_BACKUP_SCHEDULE_LABEL; DB_BACKUP_PITR_LABEL] else c in
  let c := foldl (take_label donor overrides) c BACKUP_INTENT_LABELS in
  if overrides && bool_decide (get DB_BACKUP_PITR_LABEL donor = None) && bool_decide (is_Some (get DB_BACKUP_PITR_LABEL (ca_have c))) then
    {| ca_have := obj_del DB_BACKUP_PITR_LABEL (ca_have c); ca_add := ca_add c; ca_remove := ca_remove c ++ [DB_BACKUP_PITR_LABEL] |}
  else c.

Record BackupIntentCarry := { bi_add : entries; bi_removeFromPrimary : list string; bi_donors : list (string * list string) }.

Definition intent_keys (labels : entries) : list string :=
  List.filter (fun k => bool_decide (is_Some (get k labels))) BACKUP_INTENT_LABELS.

Definition donors_of (primary : Member) (others : list Member) : list Member :=
  List.filter (fun m => match intent_keys (mb_labels m) with [] => false | _ => true end)
    (List.filter (fun m => negb (String.eqb (mb_name m) (mb_name primary))) others).

Definition carried_intent (primary : Member) (donors : list Member) : Carry :=
  foldl carry_from {| ca_have := mb_labels primary; ca_add := []; ca_remove := [] |} (map mb_labels donors).

Definition planBackupIntentCarry (primary : Member) (others : list Member) : option BackupIntentCarry :=
  match donors_of primary others with
  | [] => None
  | donors =>
      let c := carried_intent primary donors in
      Some {| bi_add := ca_add c;
              bi_removeFromPrimary := List.filter (fun k => bool_decide (get k (ca_add c) = None)) (js_uniq (ca_remove c));
              bi_donors := map (fun m => (mb_name m, intent_keys (mb_labels m))) donors |}
  end.

(** [parseScheduleLite]: the target and the volume a schedule names. *)
Definition str_field (k : string) (v : list (string * value)) : option string :=
  match get k v with Some (VStr s) => truthy_str (Some s) | _ => None end.

Definition parseScheduleLite (raw : option string) : option (option string * option string) :=
  match truthy_str raw ≫= json_parse with
  | Some (VObj v) => Some (str_field "targetId" v, str_field "dataVolume" v)
  | _ => None
  end.

(** [shq] *)
Definition squote : ascii := "'".
Fixpoint shq_body (s : string) : string :=
  match s with
  | EmptyString => ""
  | String c r => (if Ascii.eqb c squote then "'\''" else str1 c) +:+ shq_body r
  end.
Definition shq (v : string) : string := "'" +:+ shq_body v +:+ "'".

(** [PGPASSWORD=...] of the member, and the reload of the archive command in place. *)
Definition PG_PASSWORD_FROM_MEMBER : string :=
  "PGPASSWORD=" +:+ quoted ("${POSTGRES_PASSWORD:-$(cat " +:+ quoted "${POSTGRES_PASSWORD_FILE:-/dev/null}" +:+ " 2>/dev/null)}").

Definition archiveCommandReloadScript (passwordPrefix : string) : string :=
  join newline
    [passwordPrefix +:+ " psql -U postgres -d postgres -v ON_ERROR_STOP=1 -tA -v cmd=" +:+ shq PITR_ARCHIVE_COMMAND +:+ " <<'SWARMY_SQL'";
     "ALTER SYSTEM SET archive_command = :'cmd';"; "SELECT pg_reload_conf();"; "SWARMY_SQL"].

(** * The calls of a pass *)

(** [execTarget]: a running container of the service, on the first node that has one. *)
Definition runs_service (t : LiveTasks) (serviceId : string) (c : ContainerInfo) : bool :=
  mem (ci_id c) (ot_orgContainers t) &&
  bool_decide (match ci_serviceId c with Some s => Some s | None => get SWARM_SERVICE_ID_LABEL (ci_labels c) end = Some serviceId) &&
  String.eqb (ci_state c) "running".

Fixpoint exec_target (t : LiveTasks) (serviceId : string) (nodes : list LiveNode) : option (LiveNode * string) :=
  match nodes with
  | [] => None
  | n :: nodes' =>
      match List.find (runs_service t serviceId) (ln_containers n) with
      | Some c => Some (n, ci_id c)
      | None => exec_target t serviceId nodes'
      end
  end.

Definition execTarget (org : string) (m : Member) : program (option (LiveNode * string)) :=
  let* t := await (ReadTasks org) in
  Ret (exec_target t (mb_id m) (ot_online t)).

(** The swarm node that runs a task of the member. *)
Definition task_node (org : string) (m : Member) : program (option string) :=
  let* target := execTarget org m in
  Ret (target ≫= (fun t => ln_swarmNodeId (fst t))).

(** [execIn]: nothing when there is no task or the command could not be run. *)
Definition execIn (org : string) (m : Member) (script : string) : program (option (Z * string)) :=
  let* target := execTarget org m in
  match target with
  | None => Ret None
  | Some (n, container) =>
      catch (let* r := await (Exec (ln_nodeId n) container ["sh"; "-c"; script]) in Ret (Some r)) (fun _ => Ret None)
  end.

Definition update_labels (node service : string) (add : entries) (removeKeys : list string) : program () :=
  quietly (await (ServiceUpdateLabels node service add removeKeys)).

Definition deploy (node : string) (spec : ServiceSpec) (pull : PullPolicy) : program () :=
  quietly (await (ServiceDeploy node spec pull None)).

Definition object_labels (c : Cluster) : entries := [(MANAGED_LABEL, "true"); (DB_CLUSTER_LABEL, cl_cluster c)].

Definition ensureNet (node : string) (c : Cluster) : program () := quietly (await (NetworkEnsure node (clusterNet c) (object_labels c))).

Definition resource_of (c : Cluster) : string := "db:" +:+ cl_stack c +:+ "/" +:+ cl_cluster c.
Definition target_of (c : Cluster) : string := cl_stack c +:+ "/" +:+ cl_cluster c.

(** What is warned of, per cluster: storage that is not persistent, regions asked for. *)
Record Warned := { wn_legacy : bool; wn_regions : list string }.

(** * Moving the intent: the primary first, the donors after it has it *)

Definition carryBackupIntent (node : string) (c : Cluster) (primary : Member) : program Cluster :=
  match planBackupIntentCarry primary (replicaMembers c) with
  | None => Ret c
  | Some carry =>
      let drop_donors := each (fun d => update_labels node (fst d) [] (snd d)) (bi_donors carry) in
      match bi_add carry, bi_removeFromPrimary carry with
      | [], [] => do* drop_donors in Ret c
      | _, _ =>
          let* ok := catch (do* await (ServiceUpdateLabels node (mb_name primary) (bi_add carry) (bi_removeFromPrimary carry)) in Ret true)
                           (fun _ => Ret false) in
          if ok : bool then
            do* drop_donors in
            Ret (set_primary (Some (with_labels (drop_names (bi_removeFromPrimary carry) (assign (mb_labels primary) (bi_add carry))) primary)) c)
          else Ret c
      end
  end.

(** * The pass *)

Section reconcile.
Variable pgBootScript : string.
Variable contentHash : string -> string.
Variable localeCompare : string -> string -> Z.
(** [decryptSecret], and the host of a URL, if it parses. *)
Variable decryptSecret : string -> res string.
Variable URL_hostname : string -> option string.
Variable org : string.
Variable node : string.

(** The overlay on which a destination inside the cluster resolves. *)
Definition resticNetworkFor (endpoint : option string) : option string :=
  match truthy_str endpoint with
  | None => None
  | Some e =>
      match URL_hostname (if includes "://" e then e else "http://" +:+ e) with
      | Some h => if String.eqb h "swarmy-garage" then Some "swarmy" else None
      | None => None
      end
  end.

Definition opened (ref : option string) : program (option string) :=
  match truthy_str ref with
  | None => Ret None
  | Some r => match decryptSecret r with Ok s => Ret (Some s) | Err m => Throw (Failed m) end
  end.

Definition cleanupStaleWalSecrets (c : Cluster) (keep : string) : program () :=
  quietly (let* rows := await (SecretList node) in
           each (fun n => quietly (await (SecretRemove node n)))
             (List.filter (fun n => startsWith (cl_base c +:+ "-wal-creds-") n && negb (String.eqb n keep)) (map sr_name rows))).

(** Tear the archiving down: the shipper goes, a marked primary is redeployed without
    the archive. *)
Definition pitr_off (c : Cluster) : program () :=
  do* (match cl_shipper c with Some s => quietly (await (ServiceRemove node (mb_name s))) | None => Ret tt end) in
  match cl_primary c with
  | Some p =>
      match label_in DB_PITR_APPLIED_LABEL (mb_labels p), storage_of p with
      | Some _, persistent _ _ => deploy node (stripPitrSpec pgBootScript p c) pull_missing
      | _, _ => Ret tt
      end
  | None => Ret tt
  end.

(** The archive command of an applied primary, brought up to date in place. *)
Definition reload_archive (c : Cluster) (primary : Member) : program () :=
  let* r := execIn org primary (archiveCommandReloadScript PG_PASSWORD_FROM_MEMBER) in
  match r with
  | Some (0, _) =>
      do* update_labels node (mb_name primary) [(DB_PITR_ARCHIVE_CMD_LABEL, PITR_ARCHIVE_COMMAND_HASH contentHash)] [] in
      quietly (await (WriteAudit "db.pitr.archiveCommand" (target_of c)))
  | _ => Ret tt
  end.

(** What the archiving of a primary is to be. *)
Record PitrPlan := { pp_version : string; pp_secretName : string; pp_dataVolume : option string; pp_nets : list string; pp_creds : string }.

Definition apply_pitr (c : Cluster) (primary writer : Member) (plan : PitrPlan) (primaryOk shipperOk : bool) : program () :=
  do* ensureNet node c in
  do* quietly (await (ConfigCreate node (pitrConfName contentHash (cl_base c)) (toB64 pitrExtraConf) (object_labels c))) in
  do* quietly (await (SecretCreate node (pp_secretName plan) (toB64 (pp_creds plan)) (object_labels c))) in
  do* (if primaryOk then Ret tt
       else deploy node (pitrPrimarySpec pgBootScript contentHash writer (cl_base c) (clusterNet c) (pp_version plan) (pp_dataVolume plan)) pull_missing) in
  do* (if shipperOk then Ret tt
       else deploy node (walShipperSpec contentHash c (pp_version plan) (pp_secretName plan) writer (pp_nets plan)) pull_always) in
  do* cleanupStaleWalSecrets c (pp_secretName plan) in
  do* quietly (await (WriteAudit "db.pitr.apply" (target_of c))) in
  quietly (await (FireAlert "db-pitr" "info" (resource_of c))).

Definition pitr_on (c : Cluster) (primary writer : Member) (promoted : bool) (t : BackupTargetRow) (schedule : option (option string * option string))
    : program () :=
  let* accessKeyId := opened (bt_credentialRef t) in
  let* secretAccessKey := opened (bt_secretKeyRef t) in
  let creds := renderWalCredsEnv
    {| wc_endpoint := bt_endpoint t; wc_bucket := bt_bucket t; wc_prefix := bt_prefix t; wc_region := bt_region t;
       wc_accessKeyId := accessKeyId; wc_secretAccessKey := secretAccessKey |} in
  let dataVolume := match get DB_DATA_VOLUME_LABEL (mb_labels writer) with Some v => Some v | None => schedule ≫= snd end in
  let version := pitrVersion contentHash creds dataVolume in
  let nets := walShipperNetworks (clusterNet c) (resticNetworkFor (bt_endpoint t)) in
  let primaryOk := negb promoted && bool_decide (get DB_PITR_APPLIED_LABEL (mb_labels primary) = Some version) in
  let shipperOk := walShipperUpToDate contentHash (cl_shipper c) version nets in
  do* (if primaryOk && archiveCommandStale contentHash primary (cl_base c) then reload_archive c primary else Ret tt) in
  if primaryOk && shipperOk then Ret tt
  else
    apply_pitr c primary writer
      {| pp_version := version; pp_secretName := cl_base c +:+ "-wal-creds-" +:+ version; pp_dataVolume := dataVolume; pp_nets := nets;
         pp_creds := creds |} primaryOk shipperOk.

Definition ensurePitr (c : Cluster) : program () :=
  match cl_primary c with
  | None => pitr_off c
  | Some primary =>
      if negb (bool_decide (get DB_BACKUP_PITR_LABEL (mb_labels primary) = Some "true")) then pitr_off c
      else
        match storage_of primary with
        | persistent _ _ =>
            let* running := task_node org primary in
            match preparePitrPrimary primary running with
            | Wait => Ret tt
            | Ready writer promoted =>
                let schedule := parseScheduleLite (get DB_BACKUP_SCHEDULE_LABEL (mb_labels primary)) in
                let* target := catch (await (FindBackupTarget org (schedule ≫= fst))) (fun _ => Ret None) in
                match target with
                | Some t =>
                    if String.eqb (toLowerCase (bt_kind t)) "s3" then pitr_on c primary writer promoted t schedule
                    else quietly (await (FireAlert "db-pitr" "warning" (resource_of c)))
                | None => quietly (await (FireAlert "db-pitr" "warning" (resource_of c)))
                end
            end
        | _ => Ret tt
        end
  end.

(** (-1) Members that carry their password in the clear are migrated; whether any moved. *)
Definition migrate_credentials (contract : bool) (services : list Member) (c : Cluster) : program bool :=
  if contract && (needsCredentialMigration c || consumersNeedCredentialMigration services c) then
    let* moved := catch (await (MigrateDbCredentials org (cl_stack c) (cl_cluster c))) (fun _ => Ret 0) in
    Ret (0 <? moved)
  else Ret false.

(** (0) The storage layout. *)
Definition storage_action (c : Cluster) (a : StorageAction) : program () :=
  match a, cl_primary c, cl_replica c with
  | Adopt add removeKeys redeploy, Some primary, _ =>
      do* update_labels node (mb_name primary) add removeKeys in
      if redeploy then deploy node (stripPitrSpec pgBootScript (with_labels (assign (mb_labels primary) add) primary) c) pull_always
      else Ret tt
  | ConvergeReplica labels, _, Some replica => deploy node (replicaStorageSpec pgBootScript replica labels (clusterNet c)) pull_always
  | _, _, _ => Ret tt
  end.

Definition warns (actions : list StorageAction) : bool := existsb (fun a => match a with WarnLegacy => true | _ => false end) actions.

Definition warn_storage (contract : bool) (c : Cluster) (legacy warned : bool) : program bool :=
  if legacy then
    if negb warned && contract then do* quietly (await (FireAlert "db-storage" "warning" (resource_of c))) in Ret true
    else Ret warned
  else
    do* (if warned && contract then quietly (await (FireAlert "db-storage" "info" (resource_of c))) else Ret tt) in
    Ret false.

Definition converge_storage (contract multiNode : bool) (c : Cluster) (w : Warned) : program Warned :=
  let* running := match cl_primary c with Some p => task_node org p | None => Ret None end in
  let actions := planClusterStorage (cl_base c) (cl_primary c) (cl_replica c) running multiNode in
  let* legacy := warn_storage contract c (warns actions) (wn_legacy w) in
  do* each (storage_action c) actions in
  Ret {| wn_legacy := legacy; wn_regions := wn_regions w |}.

(** (1) The count of the base replica, and (2) the consensus member of old and the leader. *)
Definition scale_replica (topology : DbTopology) (c : Cluster) : program () :=
  match cl_replica c with
  | Some r =>
      let label m := get DB_REPLICAS_LABEL (mb_labels m) in
      let raw := match cl_primary c ≫= label with Some x => x | None => default "0" (label r) end in
      let declared := match parse_int raw with Some n => if n <? 0 then 0 else n | None => 0 end in
      let target := match topology with t_single | t_geo => 0 | _ => declared end in
      if default 0 (mb_desired r) =? target then Ret tt else quietly (await (ServiceScale node (mb_name r) target))
  | None => Ret tt
  end.

Definition remove (name : string) : program () := quietly (await (ServiceRemove node name)).

Definition stamp_leader (m : Member) (leader : string) : program () :=
  if bool_decide (get DB_LEADER_LABEL (mb_labels m) = Some leader) then Ret tt
  else update_labels node (mb_name m) [(DB_LEADER_LABEL, leader)] [].

Definition healthy (m : Member) : bool := 0 <? default 0 (mb_running m).

Definition observe_leader (topology : DbTopology) (c : Cluster) : program () :=
  do* (match cl_dcs c with Some d => remove (mb_name d) | None => Ret tt end) in
  match topology, cl_primary c with
  | t_failover, Some p =>
      let want := if healthy p then mb_name p else default "" (get DB_LEADER_LABEL (mb_labels p)) in
      if nonempty want then stamp_leader p want else Ret tt
  | _, _ => Ret tt
  end.

(** (3) Geo: the primary in its write region, a replica per region. *)
Definition place_primary (contract : bool) (nodes : list PinCandidateNode) (c : Cluster) (p : Member) (w : Warned) : program Warned :=
  match label_in DB_WRITE_REGION_LABEL (mb_labels p) with
  | None => Ret w
  | Some region =>
      if bool_decide (get DB_PLACED_REGION_LABEL (mb_labels p) = Some region) then Ret w
      else
        let persists := match storage_of p with persistent _ _ => true | _ => false end in
        match (if persists then pinnedRegionFit (get DB_PIN_NODE_LABEL (mb_labels p)) region nodes else fit_unpinned) with
        | fit_ok => do* deploy node (placePrimarySpec pgBootScript p region (clusterNet c)) pull_always in Ret w
        | fit_mismatch =>
            if contract && negb (mem region (wn_regions w)) then
              do* quietly (await (FireAlert "db-storage" "warning" (resource_of c))) in
              Ret {| wn_legacy := wn_legacy w; wn_regions := wn_regions w ++ [region] |}
            else Ret w
        | _ => Ret w
        end
  end.

Definition want_region (multiNode : bool) (c : Cluster) (p : option Member) (rn : string * Z) : program () :=
  let '(region, n) := rn in
  let sib := get region (cl_regionReplicas c) in
  if n <=? 0 then match sib with Some s => remove (mb_name s) | None => Ret tt end
  else
    match sib, p with
    | None, Some p => deploy node (regionReplicaSpec pgBootScript c p region n multiNode) pull_always
    | None, None => Ret tt
    | Some s, _ => if default 0 (mb_desired s) =? n then Ret tt else quietly (await (ServiceScale node (mb_name s) n))
    end.

Definition regions_wanted (c : Cluster) : list (string * Z) :=
  match cl_primary c with Some p => parseRegionReplicas (mb_labels p) | None => [] end.

Definition drop_region (wanted : list (string * Z)) (rs : string * Member) : program () :=
  match get (fst rs) wanted with
  | Some n => if n <=? 0 then remove (mb_name (snd rs)) else Ret tt
  | None => remove (mb_name (snd rs))
  end.

Definition converge_geo (contract multiNode : bool) (nodes : list PinCandidateNode) (topology : DbTopology) (c : Cluster) (w : Warned)
    : program Warned :=
  match topology with
  | t_geo =>
      do* ensureNet node c in
      let* w := match cl_primary c with Some p => place_primary contract nodes c p w | None => Ret w end in
      do* each (want_region multiNode c (cl_primary c)) (regions_wanted c) in
      do* each (drop_region (regions_wanted c)) (cl_regionReplicas c) in
      Ret w
  | _ =>
      do* each (fun rs => remove (mb_name (snd rs))) (cl_regionReplicas c) in
      Ret w
  end.

(** (4) Active-active: primaries 2 to N. *)
Definition want_primary (nodes : list PinCandidateNode) (c : Cluster) (primary : Member) (i : Z) : program () :=
  if existsb (fun e => fst e =? i) (cl_extraPrimaries c) then Ret tt
  else
    let* v := await (ReadPlacement org node) in
    let pin := choosePinNode localeCompare
      {| pi_nodes := nodes; pi_pinnedCounts := pinnedPrimaryCounts (pv_services v); pi_fallback := pv_fallback v; pi_unmounted := pv_broken v |} in
    deploy node (extraPrimarySpec pgBootScript c primary i pin) pull_always.

Definition primaries_wanted (c : Cluster) : Z :=
  let n := match parse_int (default "2" (cl_primary c ≫= (fun p => get DB_PRIMARIES_LABEL (mb_labels p)))) with
           | Some n => if n =? 0 then 2 else n
           | None => 2
           end in
  Z.max 2 n.

Definition converge_primaries (nodes : list PinCandidateNode) (topology : DbTopology) (c : Cluster) : program () :=
  match topology with
  | t_active_active =>
      do* ensureNet node c in
      let n := primaries_wanted c in
      do* (match cl_primary c with
           | Some p => each (want_primary nodes c p) (map (fun k => 2 + Z.of_nat k) (seq 0 (Z.to_nat (n - 1))))
           | None => Ret tt
           end) in
      each (fun e => if n <? fst e then remove (mb_name (snd e)) else Ret tt) (cl_extraPrimaries c)
  | _ => each (fun e => remove (mb_name (snd e))) (cl_extraPrimaries c)
  end.

(** The leader of a cluster with one writer. *)
Definition stamp_writer (topology : DbTopology) (c : Cluster) : program () :=
  match topology, cl_primary c with
  | t_failover, _ | t_active_active, _ | _, None => Ret tt
  | _, Some p => if healthy p then stamp_leader p (mb_name p) else Ret tt
  end.

Definition orphaned (c : Cluster) : bool :=
  match cl_primary c, cl_replica c, cl_extraPrimaries c, cl_regionReplicas c with
  | None, None, [], [] => true
  | _, _, _, _ => false
  end.

(** One turn of the loop over the clusters, up to step (5): with the cluster that the
    steps after it see, unless the turn ends before them. *)
Definition reconcileCluster (contract : bool) (services : list Member) (nodes : list PinCandidateNode) (c : Cluster) (w : Warned)
    : program (Warned * option Cluster) :=
  let multiNode := (1 <? length nodes)%nat in
  let topology := topology_of c in
  if orphaned c then
    do* (match cl_shipper c with Some s => remove (mb_name s) | None => Ret tt end) in Ret (w, None)
  else
    let* moved := migrate_credentials contract services c in
    if moved : bool then Ret (w, None)
    else
      let* w := converge_storage contract multiNode c w in
      do* scale_replica topology c in
      do* observe_leader topology c in
      let* w := converge_geo contract multiNode nodes topology c w in
      do* converge_primaries nodes topology c in
      do* stamp_writer topology c in
      let* c := match cl_primary c with Some p => carryBackupIntent node c p | None => Ret c end in
      do* (if contract then quietly (ensurePitr c) else Ret tt) in
      Ret (w, Some c).
End reconcile.

(** * Calls that satisfy a predicate *)

Section calls.
Context {P : event effect -> Prop}.

Definition calls {A} (p : program A) : Prop := forall t r, traces p t r -> Forall P t.

Lemma calls_ret {A} (a : A) : calls (Ret a).
Proof. intros t r [-> _]. constructor. Qed.

Lemma calls_throw {A} e : calls (Throw (A:=A) e).
Proof. intros t r [-> _]. constructor. Qed.

Lemma calls_await {X} (c : effect X) : (forall a, P (Event c a)) -> calls (await c).
Proof. intros H t r ->%traces_await. by constructor. Qed.

(** The continuation may use how its argument was come by. *)
Lemma calls_bind_with {A B} (p : program A) (f : A -> program B) :
  calls p -> (forall a t, traces p t (inl a) -> calls (f a)) -> calls (bind p f).
Proof.
  intros Hp Hf t r [(e & H & ->)|(a & t1 & t2 & -> & H1 & H2)]%traces_bind; [by eapply Hp|].
  apply Forall_app. split; [by eapply Hp|]. by eapply Hf.
Qed.

Lemma calls_bind {A B} (p : program A) (f : A -> program B) : calls p -> (forall a, calls (f a)) -> calls (bind p f).
Proof. intros Hp Hf. by apply calls_bind_with. Qed.

Lemma calls_catch {A} (p : program A) h : calls p -> (forall e, calls (h e)) -> calls (catch p h).
Proof.
  intros Hp Hh t r [(a & H & ->)|(e & t1 & t2 & -> & H1 & H2)]%traces_catch; [by eapply Hp|].
  apply Forall_app. split; [by eapply Hp|by eapply Hh].
Qed.

Lemma calls_quietly (p : program ()) : calls p -> calls (quietly p).
Proof. intros H t r [_ [r' Ht]]%traces_quietly. by eapply H. Qed.

Lemma calls_each {A} (f : A -> program ()) l : (forall x, x ∈ l -> calls (f x)) -> calls (each f l).
Proof.
  induction l as [|x l IH]; intros H; simpl; [apply calls_ret|]. apply calls_bind; [apply H; by left|].
  intros _. apply IH. intros y Hy. apply H. by right.
Qed.
End calls.
Arguments calls P {A} p.

#[export] Hint Resolve calls_ret calls_throw calls_await calls_bind calls_catch calls_quietly : calls.

(** The keys of a literal are distinct. *)
Ltac distinct_keys := simpl; repeat (apply NoDup_cons; split; [by apply mem_false|]); apply NoDup_nil_2.

(** * What the carry leaves alone *)

Lemma get_assign_absent {A} k (o m : list (string * A)) : k ∉ map fst m -> get k (assign o m) = get k o.
Proof.
  intros H. unfold assign. rewrite <- own_order_keys in H. revert o. induction (own_order m) as [|[k' v] l IH]; intros o; simpl; [done|].
  apply not_elem_of_cons in H as [Hk Hl]. rewrite IH, get_obj_set by done. simpl in *. by apply String.eqb_neq in Hk as ->.
Qed.

(** The keys a carry adds and removes are those of the backup intent. *)
Definition carry_keys (c : Carry) : Prop :=
  Forall (fun k => k ∈ BACKUP_INTENT_LABELS) (map fst (ca_add c)) /\ Forall (fun k => k ∈ BACKUP_INTENT_LABELS) (ca_remove c).

Lemma keys_obj_set {A} (P : string -> Prop) k (v : A) m : P k -> Forall P (map fst m) -> Forall P (map fst (obj_set k v m)).
Proof. intros Hk Hm. apply Forall_forall. intros x [->|Hx]%obj_set_keys_elem; [done|]. by eapply Forall_forall in Hm. Qed.

Lemma keys_obj_del {A} (P : string -> Prop) k (m : list (string * A)) : Forall P (map fst m) -> Forall P (map fst (obj_del k m)).
Proof.
  rewrite !Forall_forall. intros H x (kv & -> & Hk)%list_elem_of_fmap. apply list_elem_of_In, filter_In in Hk as [Hk _].
  apply H, list_elem_of_fmap. exists kv. split; [done|]. by apply list_elem_of_In.
Qed.

Lemma carry_step_keys c donor : carry_keys c -> carry_keys (carry_from c donor).
Proof.
  intros Hc. unfold carry_from. set (ov := isAutoSchedule _ && _ && negb _). set (oo := isAutoSchedule _ && _ && _). cbv zeta.
  set (c1 := if oo then _ else c). assert (H1 : carry_keys c1).
  { subst c1. destruct oo; [|done]. assert (Ho : forall c k, k ∈ BACKUP_INTENT_LABELS -> carry_keys c -> carry_keys (opt_out c k)).
    { intros d k Hk [Ha Hr]. unfold opt_out. destruct (get k (ca_have d)); [|done]. split; simpl; [by apply keys_obj_del|].
      apply Forall_app. split; [done|]. by constructor. }
    simpl. apply Ho; [by apply mem_In|]. apply Ho; [by apply mem_In|done]. }
  set (c2 := foldl _ c1 _). assert (H2 : carry_keys c2).
  { subst c2. revert H1. generalize c1. assert (Hin : forall k, k ∈ BACKUP_INTENT_LABELS -> k ∈ BACKUP_INTENT_LABELS) by done. revert Hin.
    generalize BACKUP_INTENT_LABELS at 1 3. induction l as [|k l IH]; intros Hin d Hd; simpl; [done|]. apply IH; [intros x Hx; apply Hin; by right|].
    unfold take_label. destruct (get k donor); [|done]. case_match; [done|]. destruct Hd as [Ha Hr]. split; simpl; [|done].
    apply keys_obj_set; [|done]. apply Hin. by left. }
  case_match; [|done]. destruct H2 as [Ha Hr]. split; simpl; [done|]. apply Forall_app. split; [done|].
  constructor; [by apply mem_In|constructor].
Qed.

Lemma carried_keys primary donors : carry_keys (carried_intent primary donors).
Proof.
  unfold carried_intent. assert (H0 : carry_keys {| ca_have := mb_labels primary; ca_add := []; ca_remove := [] |}) by (split; constructor).
  revert H0. generalize {| ca_have := mb_labels primary; ca_add := []; ca_remove := [] |}.
  induction (map mb_labels donors) as [|d l IH]; intros c Hc; simpl; [done|]. by apply IH, carry_step_keys.
Qed.

(** Two members that differ in labels of the backup intent only. *)
Record same_member (a b : Member) : Prop := {
  sm_rest : with_labels [] a = with_labels [] b;
  sm_labels : forall k, k ∉ BACKUP_INTENT_LABELS -> get k (mb_labels a) = get k (mb_labels b)
}.

Lemma same_member_refl a : same_member a a.
Proof. by split. Qed.

Lemma carry_same primary carry others : planBackupIntentCarry primary others = Some carry ->
  same_member (with_labels (drop_names (bi_removeFromPrimary carry) (assign (mb_labels primary) (bi_add carry))) primary) primary.
Proof.
  unfold planBackupIntentCarry. destruct (donors_of primary others) as [|d ds]; [done|]. intros [= <-]. simpl.
  destruct (carried_keys primary (d :: ds)) as [Ha Hr]. split; [done|]. intros k Hk. simpl. rewrite get_drop_names.
  assert (mem k (List.filter (fun k => bool_decide (get k (ca_add (carried_intent primary (d :: ds))) = None)) (js_uniq (ca_remove (carried_intent primary (d :: ds))))) = false) as ->.
  { apply mem_false. rewrite list_elem_of_In, filter_In, <- list_elem_of_In, js_uniq_elem. intros [H _]. rewrite Forall_forall in Hr. by apply Hr in H. }
  apply get_assign_absent. intros H. rewrite Forall_forall in Ha. by apply Ha in H.
Qed.

(** * The siblings that the labels ask for *)

Lemma app_prefix (a b c d : string) : a +:+ b = c +:+ d -> (String.length a <= String.length c)%nat -> exists e, c = a +:+ e.
Proof.
  revert c. induction a as [|x a IH]; intros c H Hl; [by exists c|]. destruct c as [|y c]; [simpl in Hl; lia|].
  simpl in H. injection H as <- H. destruct (IH c H) as [e ->]; [simpl in Hl; lia|]. by exists e.
Qed.

(** The cluster spans regions, and a label of the primary asks for replicas in [r]. *)
Definition wants_region (c : Cluster) (r : string) : Prop :=
  topology_of c = t_geo /\ exists p k v n, cl_primary c = Some p /\ region_key k = Some r /\ get k (mb_labels p) = Some v /\ parse_int v = Some n /\ 0 < n.

(** The cluster has several writers, and its primary asks for [i] of them; two at least. *)
Definition wants_writer (c : Cluster) (i : Z) : Prop :=
  topology_of c = t_active_active /\
  (i <= 2 \/ exists p v n, cl_primary c = Some p /\ get DB_PRIMARIES_LABEL (mb_labels p) = Some v /\ parse_int v = Some n /\ i <= n).

(** What a pass may remove: the sidecar, the consensus member of old, and the siblings that
    the labels do not ask for. *)
Inductive removable (c : Cluster) : Member -> Prop :=
  | R_shipper m : cl_shipper c = Some m -> removable c m
  | R_dcs m : cl_dcs c = Some m -> removable c m
  | R_region r m : (r, m) ∈ cl_regionReplicas c -> ~ wants_region c r -> removable c m
  | R_extra i m : (i, m) ∈ cl_extraPrimaries c -> ~ wants_writer c i -> removable c m.

(** The label of a region's replicas. *)
Lemma region_key_shape k r : region_key k = Some r -> k = "swarmy.db.region." +:+ (r +:+ ".replicas").
Proof.
  unfold region_key. set (p := "swarmy.db.region."). set (q := ".replicas"). cbv zeta. destruct (_ && _) eqn:E; [|done]. b2p.
  apply startsWith_spec in H as [x Hx]. apply endsWith_spec in H1 as [y Hy]. assert (Exy : p +:+ x = y +:+ q) by congruence.
  rewrite Hy in H0. rewrite string_length_app in H0. destruct (app_prefix _ _ _ _ Exy) as [z ->]; [lia|].
  rewrite string_app_assoc in Hy. rewrite Hy. replace (_ - _ - _)%nat with (String.length z) by (rewrite !string_length_app; lia).
  rewrite substring_app. destruct (all_chars in_line z); [|done]. by intros [= <-].
Qed.

Lemma region_count_other r out kv : region_key (fst kv) <> Some r -> get r (region_count out kv) = get r out.
Proof.
  unfold region_count. intros H. destruct (region_key (fst kv)) as [r'|]; [|done]. destruct (parse_int _) as [n|]; [|done].
  destruct (n <? 0); [done|]. rewrite get_obj_set. by destruct (String.eqb_spec r r') as [->|].
Qed.

Lemma region_counts_other r l out : (forall k v, (k, v) ∈ l -> region_key k <> Some r) -> get r (foldl region_count out l) = get r out.
Proof.
  revert out. induction l as [|[k v] l IH]; intros out H; simpl; [done|].
  rewrite IH by (intros k' v' Hin; apply (H k' v'); by right). apply region_count_other. apply (H k v). by left.
Qed.

Lemma region_counts k v r n l out : NoDup (map fst l) -> (k, v) ∈ l -> region_key k = Some r -> parse_int v = Some n -> 0 < n ->
  get r (foldl region_count out l) = Some n.
Proof.
  intros Hd Hin Hk Hv Hn. revert out. induction l as [|[k' v'] l IH]; intros out; [by apply not_elem_of_nil in Hin|].
  cbn [map fst] in Hd. apply NoDup_cons in Hd as [Hk' Hd]. cbn [foldl]. apply elem_of_cons in Hin as [[= <- <-]|Hin]; [|by apply IH].
  rewrite region_counts_other.
  - unfold region_count. simpl. rewrite Hk, Hv. destruct (Z.ltb_spec n 0); [lia|]. by rewrite get_obj_set, String.eqb_refl.
  - intros k2 v2 H2 E%region_key_shape. apply region_key_shape in Hk. apply Hk'. rewrite Hk, <- E. apply list_elem_of_fmap. by exists (k2, v2).
Qed.

Lemma regions_wanted_NoDup c : NoDup (map fst (regions_wanted c)).
Proof.
  unfold regions_wanted, parseRegionReplicas. destruct (cl_primary c) as [p|]; [|constructor].
  assert (H : NoDup (map fst ([] : list (string * Z)))) by constructor. revert H. generalize ([] : list (string * Z)).
  induction (own_order (mb_labels p)) as [|kv l IH]; intros out H; simpl; [done|]. apply IH. unfold region_count.
  destruct (region_key _); [|done]. destruct (parse_int _); [|done]. destruct (_ <? 0); [done|]. by apply obj_set_NoDup.
Qed.

Lemma wants_region_counted c r : (forall p, cl_primary c = Some p -> NoDup (map fst (mb_labels p))) -> wants_region c r ->
  exists n, get r (regions_wanted c) = Some n /\ 0 < n.
Proof.
  intros Hd (_ & p & k & v & n & Hp & Hk & Hv & Hn & Hpos). exists n. split; [|done]. unfold regions_wanted. rewrite Hp.
  apply (region_counts k v); [|rewrite own_order_perm; by apply get_elem|done..]. rewrite own_order_keys. by apply Hd.
Qed.

Lemma wants_writer_counted c i : wants_writer c i -> i <= primaries_wanted c.
Proof.
  intros [_ [H|(p & v & n & Hp & Hv & Hn & Hi)]]; unfold primaries_wanted; [lia|]. rewrite Hp. simpl. rewrite Hv. simpl. rewrite Hn.
  destruct (Z.eqb_spec n 0); lia.
Qed.

(** * What a pass may do to the services of a cluster *)

Section safety.
Context (script : string) (contentHash : string -> string) (localeCompare : string -> string -> Z).
Context (decryptSecret : string -> res string) (URL_hostname : string -> option string) (org node : string).

(** [labels] still declare the server and the password secret that [p] declares. *)
Record still_declares (p : Member) (labels : entries) : Prop := {
  sd_pin : forall n, label_in DB_PIN_NODE_LABEL (mb_labels p) = Some n -> label_in DB_PIN_NODE_LABEL labels = Some n;
  sd_secret : forall x, get DB_PASSWORD_SECRET_LABEL (mb_labels p) = Some x -> get DB_PASSWORD_SECRET_LABEL labels = Some x
}.

Inductive deploy_ok (c : Cluster) (s : ServiceSpec) : Prop :=
  | D_primary p v undeclared labels : cl_primary c = Some p -> storage_of p = persistent v undeclared ->
      ss_name s = mb_name p -> ss_image s = mb_image p -> ss_labels s = Some labels -> member_of script labels s -> still_declares p labels ->
      (undeclared = false -> label_in DB_DATA_VOLUME_LABEL labels = Some v) -> deploy_ok c s
  | D_replica r labels : cl_replica c = Some r -> mb_name r = cl_base c +:+ "-replica" -> ss_name s = mb_name r ->
      ss_image s = mb_image r -> ss_labels s = Some labels -> member_of script labels s ->
      get DB_DATA_VOLUME_LABEL labels = Some (default (cl_base c +:+ "-replica-data") (get DB_DATA_VOLUME_LABEL (mb_labels r))) -> deploy_ok c s
  | D_region p region labels : cl_primary c = Some p -> get region (cl_regionReplicas c) = None ->
      ss_name s = cl_base c +:+ "-replica-" +:+ region -> ss_labels s = Some labels -> member_of script labels s ->
      label_in DB_DATA_VOLUME_LABEL labels = Some (regionReplicaDataVolumeName (cl_base c) region) -> deploy_ok c s
  | D_extra p i labels : cl_primary c = Some p -> 2 <= i -> (forall m, (i, m) ∉ cl_extraPrimaries c) ->
      ss_name s = cl_base c +:+ "-primary-" +:+ pretty i -> ss_labels s = Some labels -> member_of script labels s ->
      label_in DB_DATA_VOLUME_LABEL labels = Some (extraPrimaryDataVolumeName (cl_base c) i) -> deploy_ok c s
  | D_shipper : ss_name s = cl_base c +:+ "-wal-shipper" -> mounts_of s = [volume_mount (cl_base c +:+ "-wal-archive") WAL_ARCHIVE_MOUNT] ->
      deploy_ok c s.

(** No label of the storage layout is taken away; a volume is declared only for the
    primary that has it mounted. *)
Definition labels_ok (c : Cluster) (service : string) (add : entries) (removeKeys : list string) : Prop :=
  (forall k, k ∈ removeKeys -> k ∈ BACKUP_INTENT_LABELS \/ k = DB_PITR_APPLIED_LABEL) /\
  (forall v, (DB_DATA_VOLUME_LABEL, v) ∈ add -> exists p u, cl_primary c = Some p /\ service = mb_name p /\ storage_of p = persistent v u).

(** A change, when the members that may be removed are those of [gone]. *)
Definition change_ok (gone : Member -> Prop) (c : Cluster) (ch : change) : Prop :=
  match ch with
  | Deployed n s _ => n = node /\ deploy_ok c s
  | Removed n name => n = node /\ exists m, gone m /\ mb_name m = name
  | Labelled n name add rm => n = node /\ labels_ok c name add rm
  end.

Section changes.
Context (gone : Member -> Prop).

Definition tick_ok (c : Cluster) (ev : event effect) : Prop := forall ch, change_of ev = Some ch -> change_ok gone c ch.

Lemma harmless c {X} (e : effect X) a : changed e = None -> tick_ok c (Event e a).
Proof. intros H ch Hch. unfold change_of in Hch. simpl in Hch. by rewrite H in Hch. Qed.

Lemma calls_harmless c {X} (e : effect X) : changed e = None -> calls (tick_ok c) (await e).
Proof. intros H. apply calls_await. intros a. by apply harmless. Qed.

Lemma calls_deploy c s pull : deploy_ok c s -> calls (tick_ok c) (deploy node s pull).
Proof. intros H. apply calls_quietly, calls_await. intros a ch [= <-]. by split. Qed.

Lemma calls_remove c m : gone m -> calls (tick_ok c) (remove node (mb_name m)).
Proof. intros H. apply calls_quietly, calls_await. intros a ch [= <-]. split; [done|]. by exists m. Qed.

Lemma calls_labels c service add rm : labels_ok c service add rm -> calls (tick_ok c) (update_labels node service add rm).
Proof. intros H. apply calls_quietly, calls_await. intros a ch [= <-]. by split. Qed.

(** Labels that do not touch the storage layout. *)
Lemma labels_plain c service add : DB_DATA_VOLUME_LABEL ∉ map fst add -> labels_ok c service add [].
Proof.
  intros H. split; [by intros k ?%not_elem_of_nil|]. intros v Hv. exfalso. apply H, list_elem_of_fmap. by exists (DB_DATA_VOLUME_LABEL, v).
Qed.

Lemma declared_storage p v : storage_of p = persistent v false -> label_in DB_DATA_VOLUME_LABEL (mb_labels p) = Some v.
Proof.
  unfold storage_of, dbStorageState, label_in. destruct (mb_mounts p) as [ms|].
  - destruct (List.find is_data_mount ms) as [m|] eqn:E; simpl; [|done]. apply find_some in E as [_ E]. unfold is_data_mount in E. b2p.
    destruct (om_source m) as [w|]; [|by destruct H0]. intros [= <- Hd]. apply negb_false_iff, bool_decide_eq_true in Hd as ->.
    simpl in *. destruct (String.eqb w ""); [by destruct H0|done].
  - destruct (truthy_str _); [by intros [= ->]|done].
Qed.

(** ** The specifications rebuilt from the primary *)

Lemma member_named spec labels : ss_name (applyPgMember script spec labels) = ss_name spec /\ ss_image (applyPgMember script spec labels) = ss_image spec.
Proof.
  unfold applyPgMember, applyPgBoot, applyPgCredential, applyDbStorage. simpl. repeat case_match; done.
Qed.

(** A specification built with the labels [l], themselves those of the primary as far as
    its storage and its credential go, is a fit deploy of it. *)
Lemma primary_ok c p v u spec l : cl_primary c = Some p -> storage_of p = persistent v u -> ss_name spec = mb_name p ->
  ss_image spec = mb_image p -> ss_labels spec = Some l ->
  (forall n, label_in DB_PIN_NODE_LABEL (mb_labels p) = Some n -> label_in DB_PIN_NODE_LABEL l = Some n) ->
  get DB_PASSWORD_SECRET_LABEL l = get DB_PASSWORD_SECRET_LABEL (mb_labels p) ->
  (u = false -> label_in DB_DATA_VOLUME_LABEL l = Some v) -> deploy_ok c (applyPgMember script spec l).
Proof.
  intros Hp Hst Hn Hi Hl Hpin Hsec Hvol. destruct (applyPgMember_labels script spec l Hl) as (l' & Hl' & Hk & Hx & Hm).
  destruct (member_named spec l) as [En Ei]. eapply (D_primary c _ p v u l'); [done|done|by rewrite En|by rewrite Ei|done|done| |].
  - split.
    + intros n H. unfold label_in. rewrite Hk by done. by apply Hpin.
    + intros x H. apply Hx. by rewrite Hsec.
  - intros H. unfold label_in. rewrite Hk by done. by apply Hvol.
Qed.

Ltac read_labels := unfold label_in; rewrite ?get_obj_set, ?get_obj_del, ?get_obj_set; try done.

Lemma strip_ok c p v u : cl_primary c = Some p -> storage_of p = persistent v u -> deploy_ok c (stripPitrSpec script p c).
Proof.
  intros Hp Hs. eapply (primary_ok c p v u); try done; [read_labels| |intros ->; rewrite <- (declared_storage p v Hs)];
    unfold label_in; by rewrite !get_obj_del.
Qed.

Lemma place_ok c p v u region net : cl_primary c = Some p -> storage_of p = persistent v u -> deploy_ok c (placePrimarySpec script p region net).
Proof.
  intros Hp Hs. eapply (primary_ok c p v u); try done; [| |intros ->; rewrite <- (declared_storage p v Hs)];
    unfold label_in; by rewrite !get_obj_set.
Qed.

(** The primary that the archive is put on. *)
Lemma prepared p running writer promoted : preparePitrPrimary p running = Ready writer promoted ->
  mb_name writer = mb_name p /\ mb_image writer = mb_image p /\
  (forall n, label_in DB_PIN_NODE_LABEL (mb_labels p) = Some n -> label_in DB_PIN_NODE_LABEL (mb_labels writer) = Some n) /\
  (forall k, k <> DB_PIN_NODE_LABEL -> k <> DB_AVOID_NODE_LABEL -> get k (mb_labels writer) = get k (mb_labels p)).
Proof.
  unfold preparePitrPrimary. destruct (pgBootRole _); [by intros [= <- <-]|]. destruct (1 <? _); [done|].
  destruct (truthy_str _) as [q|] eqn:E; [|done]. intros [= <- <-]. simpl. split_and!; [done..| |].
  - intros n Hn. unfold label_in in *. rewrite get_obj_del, get_obj_set. simpl. apply truthy_some in Hn as [Hn Hne]. rewrite Hn in E.
    simpl in E. apply String.eqb_neq in Hne. rewrite Hne in E. injection E as <-. by rewrite Hne.
  - intros k Hk Ha. rewrite get_obj_del, get_obj_set. apply String.eqb_neq in Hk as ->. by apply String.eqb_neq in Ha as ->.
Qed.

Lemma pitr_ok c p v u running writer promoted net version dv : cl_primary c = Some p -> storage_of p = persistent v u ->
  preparePitrPrimary p running = Ready writer promoted ->
  deploy_ok c (pitrPrimarySpec script contentHash writer (cl_base c) net version dv).
Proof.
  intros Hp Hs Hw. destruct (prepared _ _ _ _ Hw) as (Hn & Hi & Hpin & Hk).
  eapply (primary_ok c p v u); try done.
  - intros n H. apply Hpin in H. unfold label_in in *. by rewrite !get_obj_set.
  - rewrite !get_obj_set. by apply Hk.
  - intros ->. rewrite <- (declared_storage p v Hs). unfold label_in. rewrite !get_obj_set. simpl. by rewrite Hk.
Qed.

Lemma adopt_ok c p v u pin : cl_primary c = Some p -> storage_of p = persistent v u -> v <> "" ->
  (forall n, label_in DB_PIN_NODE_LABEL (mb_labels p) = Some n -> n = pin) -> pin <> "" ->
  deploy_ok c (stripPitrSpec script (with_labels (assign (mb_labels p) (dbStorageLabels v (Some pin) None)) p) c).
Proof.
  intros Hp Hs Hv Hpin Hne. apply String.eqb_neq in Hne. apply String.eqb_neq in Hv.
  assert (Hg : forall k, get k (assign (mb_labels p) (dbStorageLabels v (Some pin) None)) =
    match get k (dbStorageLabels v (Some pin) None) with Some x => Some x | None => get k (mb_labels p) end).
  { intros k. apply get_object_assign. unfold dbStorageLabels, labelled. simpl. rewrite Hne. simpl. by apply (bool_decide_eq_true_1 (NoDup [DB_DATA_VOLUME_LABEL; DB_PIN_NODE_LABEL])). }
  eapply (primary_ok c p v u); try done; simpl.
  - intros n H. rewrite (Hpin n H). unfold label_in. rewrite !get_obj_del, Hg. unfold dbStorageLabels, labelled. simpl. rewrite Hne. simpl. by rewrite Hne.
  - rewrite !get_obj_del, Hg. unfold dbStorageLabels, labelled. simpl. by rewrite Hne.
  - intros _. unfold label_in. rewrite !get_obj_del, Hg. unfold dbStorageLabels, labelled. simpl. by rewrite Hv.
Qed.
Lemma storage_nonempty p v u : storage_of p = persistent v u -> v <> "".
Proof.
  unfold storage_of, dbStorageState. destruct (mb_mounts p) as [ms|].
  - destruct (List.find is_data_mount ms) as [m|] eqn:E; simpl; [|done]. apply find_some in E as [_ E]. unfold is_data_mount in E. b2p.
    destruct (om_source m) as [w|]; [|done]. intros [= <- _] ->. by destruct H0.
  - destruct (label_in _ _) as [w|] eqn:E; [|done]. intros [= <- _]. by apply truthy_some in E as [_ E].
Qed.

Ltac calls_step :=
  match goal with
  | |- calls _ (bind _ _) => apply calls_bind; [|intros ?]
  | |- calls _ (quietly _) => apply calls_quietly
  | |- calls _ (catch _ _) => apply calls_catch; [|intros ?]
  | |- calls _ (await (ServiceUpdateLabels _ _ _ _)) => apply calls_await; intros ? ? [= <-]; split; [done|]
  | |- calls _ (await _) => apply calls_harmless; done
  | |- calls _ (Ret _) => apply calls_ret
  | |- calls _ (Throw _) => apply calls_throw
  | |- calls _ (if ?b then _ else _) => destruct b eqn:?
  | |- calls _ (match ?x with _ => _ end) => destruct x eqn:?
  end.

Lemma calls_execIn c m text : calls (tick_ok c) (execIn org m text).
Proof. unfold execIn, execTarget. repeat calls_step. Qed.

Lemma calls_task_node c m : calls (tick_ok c) (task_node org m).
Proof. unfold task_node, execTarget. repeat calls_step. Qed.

Lemma calls_cleanup c keep : calls (tick_ok c) (cleanupStaleWalSecrets node c keep).
Proof. unfold cleanupStaleWalSecrets. repeat calls_step. apply calls_each. intros x _. repeat calls_step. Qed.

Lemma shipper_ok c version secretName writer nets : deploy_ok c (walShipperSpec contentHash c version secretName writer nets).
Proof. by apply D_shipper. Qed.

Lemma calls_pitr_off c : (forall m, cl_shipper c = Some m -> gone m) -> calls (tick_ok c) (pitr_off script node c).
Proof.
  intros Hsh. unfold pitr_off. apply calls_bind; [|intros _].
  - destruct (cl_shipper c) as [m|] eqn:E; [|apply calls_ret]. by apply (calls_remove c m), Hsh.
  - destruct (cl_primary c) as [p|] eqn:E; [|apply calls_ret]. destruct (label_in _ _); [|apply calls_ret].
    destruct (storage_of p) as [v u| |] eqn:Es; [|apply calls_ret..]. by eapply calls_deploy, strip_ok.
Qed.

Lemma calls_reload c p : calls (tick_ok c) (reload_archive contentHash org node c p).
Proof.
  unfold reload_archive. apply calls_bind; [apply calls_execIn|intros [[[] t]|]]; repeat calls_step.
  apply calls_labels, labels_plain. by apply mem_false.
Qed.

Lemma calls_pitr_on c p v u running writer promoted t schedule : cl_primary c = Some p -> storage_of p = persistent v u ->
  preparePitrPrimary p running = Ready writer promoted ->
  calls (tick_ok c) (pitr_on script contentHash decryptSecret URL_hostname org node c p writer promoted t schedule).
Proof.
  intros Hp Hs Hw. assert (Ho : forall ref, calls (tick_ok c) (opened decryptSecret ref)) by (intros ref; unfold opened; repeat calls_step).
  unfold pitr_on. apply calls_bind; [apply Ho|intros a]. apply calls_bind; [apply Ho|intros b]. cbv zeta.
  apply calls_bind; [destruct (_ && _); [apply calls_reload|apply calls_ret]|intros _]. destruct (_ && _); [apply calls_ret|].
  unfold apply_pitr, ensureNet. repeat calls_step.
  - by eapply calls_deploy, pitr_ok.
  - apply calls_deploy, shipper_ok.
  - apply calls_cleanup.
Qed.

Lemma calls_ensurePitr c : (forall m, cl_shipper c = Some m -> gone m) ->
  calls (tick_ok c) (ensurePitr script contentHash decryptSecret URL_hostname org node c).
Proof.
  intros Hsh. unfold ensurePitr. destruct (cl_primary c) as [p|] eqn:E; [|by apply calls_pitr_off]. destruct (negb _); [by apply calls_pitr_off|].
  destruct (storage_of p) as [v u| |] eqn:Es; [|apply calls_ret..]. apply calls_bind; [apply calls_task_node|intros running].
  destruct (preparePitrPrimary p running) as [writer promoted|] eqn:Ew; [|apply calls_ret]. cbv zeta.
  apply calls_bind; [repeat calls_step|intros [t|]]; [|repeat calls_step]. destruct (String.eqb _ _); [|repeat calls_step].
  by eapply calls_pitr_on.
Qed.

(** ** Storage *)

Lemma planned_adopt base p replica running multiNode add rm redeploy :
  Adopt add rm redeploy ∈ planClusterStorage base (Some p) replica running multiNode ->
  exists v u pin, storage_of p = persistent v u /\ add = dbStorageLabels v (Some pin) None /\ pin <> "" /\
    (forall n, label_in DB_PIN_NODE_LABEL (mb_labels p) = Some n -> n = pin) /\ (rm = [] \/ rm = [DB_PITR_APPLIED_LABEL]).
Proof.
  unfold planClusterStorage. destruct (negb _); [by intros ?%not_elem_of_nil|]. destruct (storage_of p) as [v u| |] eqn:Es;
    [|by intros [?|?%not_elem_of_nil]%elem_of_cons|by intros ?%not_elem_of_nil].
  assert (Hr : forall r avoid, Adopt add rm redeploy ∉ replica_actions base r avoid).
  { intros r avoid. unfold replica_actions. destruct r as [r|]; [|by intros ?%not_elem_of_nil]. destruct (String.eqb _ _); [|by intros ?%not_elem_of_nil].
    cbv zeta. case_match; [by intros ?%list_elem_of_singleton|by intros ?%not_elem_of_nil]. }
  destruct (if u then true else _); [|by intros ?%Hr].
  destruct (match label_in _ _ with Some x => Some x | None => _ end) as [pin|] eqn:Ep; [|by intros ?%not_elem_of_nil].
  intros [[= -> -> _]|?%Hr]%elem_of_cons; [|done]. exists v, u, pin. split_and!; try done.
  - destruct (label_in DB_PIN_NODE_LABEL (mb_labels p)) as [n|] eqn:En; [|by apply truthy_some in Ep as [_ ?]].
    injection Ep as <-. by apply truthy_some in En as [_ ?].
  - intros n Hn. rewrite Hn in Ep. by injection Ep.
  - destruct (_ && _); auto.
Qed.

Lemma planned_replica base primary replica running multiNode labels :
  ConvergeReplica labels ∈ planClusterStorage base primary replica running multiNode ->
  exists r avoid, replica = Some r /\ mb_name r = base +:+ "-replica" /\
    labels = converged_labels r (default (base +:+ "-replica-data") (get DB_DATA_VOLUME_LABEL (mb_labels r))) avoid.
Proof.
  unfold planClusterStorage. destruct primary as [p|]; [|by intros ?%not_elem_of_nil]. destruct (negb _); [by intros ?%not_elem_of_nil|].
  assert (Hr : forall avoid, ConvergeReplica labels ∈ replica_actions base replica avoid ->
    exists r avoid, replica = Some r /\ mb_name r = base +:+ "-replica" /\
      labels = converged_labels r (default (base +:+ "-replica-data") (get DB_DATA_VOLUME_LABEL (mb_labels r))) avoid).
  { intros avoid. unfold replica_actions. destruct replica as [r|]; [|by intros ?%not_elem_of_nil].
    destruct (String.eqb_spec (mb_name r) (base +:+ "-replica")) as [En|]; [|by intros ?%not_elem_of_nil].
    cbv zeta. case_match; [|by intros ?%not_elem_of_nil]. intros [= ->]%list_elem_of_singleton. by exists r, avoid. }
  destruct (storage_of p) as [v u| |]; [|by intros [?|?%not_elem_of_nil]%elem_of_cons|by intros ?%not_elem_of_nil].
  destruct (if u then true else _); [|apply Hr]. destruct (match label_in _ _ with Some x => Some x | None => _ end); [|by intros ?%not_elem_of_nil].
  intros [?|H]%elem_of_cons; [done|]. by apply Hr in H.
Qed.
Lemma storage_labels_keys v pin : pin <> "" -> forall x, (DB_DATA_VOLUME_LABEL, x) ∈ dbStorageLabels v (Some pin) None -> x = v.
Proof.
  intros Hne x. unfold dbStorageLabels, labelled. simpl. apply String.eqb_neq in Hne as ->. simpl.
  by intros [[= ->]|[?|?%not_elem_of_nil]%elem_of_cons]%elem_of_cons.
Qed.

Lemma converged_volume r v avoid : get DB_DATA_VOLUME_LABEL (converged_labels r v avoid) = Some v.
Proof.
  unfold converged_labels, dbStorageLabels, labelled. destruct (truthy_str avoid) as [a|]; rewrite ?get_obj_del, get_object_assign; try done;
    [by apply (bool_decide_eq_true_1 (NoDup [DB_DATA_VOLUME_LABEL; DB_AVOID_NODE_LABEL]))|by apply (bool_decide_eq_true_1 (NoDup [DB_DATA_VOLUME_LABEL]))].
Qed.

Lemma calls_storage_action c running multiNode a :
  a ∈ planClusterStorage (cl_base c) (cl_primary c) (cl_replica c) running multiNode -> calls (tick_ok c) (storage_action script node c a).
Proof.
  intros Ha. unfold storage_action. destruct a as [|add rm redeploy|labels]; [apply calls_ret| |].
  - destruct (cl_primary c) as [p|] eqn:Ep; [|apply calls_ret].
    destruct (planned_adopt _ _ _ _ _ _ _ _ Ha) as (v & u & pin & Hs & -> & Hne & Hpin & Hrm). apply calls_bind; [|intros _].
    + apply calls_labels. split.
      * intros k Hk. right. destruct Hrm as [-> | ->]; [by apply not_elem_of_nil in Hk|by apply list_elem_of_singleton in Hk].
      * intros x Hx. apply storage_labels_keys in Hx as ->; [|done]. by exists p, u.
    + destruct redeploy; [|apply calls_ret]. apply calls_deploy. eapply adopt_ok; try done. by eapply storage_nonempty.
  - destruct (planned_replica _ _ _ _ _ _ Ha) as (r & avoid & Er & En & ->). rewrite Er. destruct (cl_primary c); (apply calls_deploy;
    unfold replicaStorageSpec; match goal with |- deploy_ok _ (applyPgMember _ ?spec ?l) => destruct (applyPgMember_labels script spec l eq_refl) as (l' & Hl' & Hk & _ & Hm);
      destruct (member_named spec l) as [Hn Hi] end;
    apply (D_replica c _ r l'); [done|done|by rewrite Hn|by rewrite Hi|done|done|]; rewrite Hk by done; apply converged_volume).
Qed.

Lemma calls_warn c contract legacy warned : calls (tick_ok c) (warn_storage contract c legacy warned).
Proof. unfold warn_storage. repeat calls_step. Qed.

Lemma calls_storage c contract multiNode w : calls (tick_ok c) (converge_storage script org node contract multiNode c w).
Proof.
  unfold converge_storage. apply calls_bind; [destruct (cl_primary c); [apply calls_task_node|apply calls_ret]|intros running]. cbv zeta.
  apply calls_bind; [apply calls_warn|intros legacy]. apply calls_bind; [|intros _; apply calls_ret].
  apply calls_each. intros a Ha. by eapply calls_storage_action.
Qed.

(** ** The siblings *)

Lemma calls_scale c topology : calls (tick_ok c) (scale_replica node topology c).
Proof. unfold scale_replica. repeat calls_step. Qed.

Lemma calls_stamp c m leader : calls (tick_ok c) (stamp_leader node m leader).
Proof. unfold stamp_leader. destruct (bool_decide _); [apply calls_ret|]. apply calls_labels, labels_plain. by apply mem_false. Qed.

Lemma calls_leader c topology : (forall m, cl_dcs c = Some m -> gone m) -> calls (tick_ok c) (observe_leader node topology c).
Proof.
  intros Hd. unfold observe_leader. apply calls_bind; [|intros _].
  - destruct (cl_dcs c) as [m|] eqn:E; [|apply calls_ret]. by apply (calls_remove c m), Hd.
  - repeat calls_step. apply calls_stamp.
Qed.

Lemma calls_stamp_writer c topology : calls (tick_ok c) (stamp_writer node topology c).
Proof. unfold stamp_writer. repeat calls_step; apply calls_stamp. Qed.

Lemma calls_place_primary c contract nodes p w : cl_primary c = Some p ->
  calls (tick_ok c) (place_primary script node contract nodes c p w).
Proof.
  intros Hp. unfold place_primary. destruct (label_in _ _) as [region|]; [|apply calls_ret]. destruct (bool_decide _); [apply calls_ret|]. cbv zeta.
  destruct (storage_of p) as [v u| |] eqn:Es; [|repeat calls_step..].
  destruct (pinnedRegionFit _ _ _); repeat calls_step. by eapply calls_deploy, place_ok.
Qed.

(** The labels of a new member: those of every member, then its own. *)
Lemma member_label c role topology extra k : NoDup (map fst extra) ->
  get k (memberLabels c role topology extra) = match get k extra with Some v => Some v | None => get k (memberLabels c role topology []) end.
Proof. intros Hd. unfold memberLabels. rewrite get_object_assign by done. by destruct (get k extra). Qed.

Lemma region_ok c p region n multiNode : cl_primary c = Some p -> get region (cl_regionReplicas c) = None ->
  deploy_ok c (regionReplicaSpec script c p region n multiNode).
Proof.
  intros Hp Hr. unfold regionReplicaSpec. cbv zeta. match goal with |- deploy_ok _ (applyPgMember _ ?spec ?l) =>
    destruct (applyPgMember_labels script spec l eq_refl) as (l' & Hl' & Hk & _ & Hm); destruct (member_named spec l) as [Hn Hi] end.
  apply (D_region c _ p region l'); [done|done|by rewrite Hn|done|done|]. unfold label_in. rewrite Hk by done.
  unfold credentialLabel, dbStorageLabels, labelled. simpl truthy_str.
  set (x := truthy_str (get DB_PASSWORD_SECRET_LABEL (mb_labels p))). set (y := truthy_str (if multiNode then _ else None)).
  rewrite member_label by (destruct x, y; distinct_keys).
  assert (Hv : String.eqb (regionReplicaDataVolumeName (cl_base c) region) "" = false)
    by (unfold regionReplicaDataVolumeName; by destruct (cl_base c)).
  revert Hv. generalize (regionReplicaDataVolumeName (cl_base c) region). intros v Hv. destruct x; simpl; by rewrite Hv.
Qed.

Lemma extra_ok c p i pin : cl_primary c = Some p -> 2 <= i -> (forall m, (i, m) ∉ cl_extraPrimaries c) ->
  deploy_ok c (extraPrimarySpec script c p i pin).
Proof.
  intros Hp Hi Hn. unfold extraPrimarySpec. cbv zeta. match goal with |- deploy_ok _ (applyPgMember _ ?spec ?l) =>
    destruct (applyPgMember_labels script spec l eq_refl) as (l' & Hl' & Hk & _ & Hm); destruct (member_named spec l) as [Hname _] end.
  apply (D_extra c _ p i l'); [done|done|done|by rewrite Hname|done|done|]. unfold label_in. rewrite Hk by done.
  unfold credentialLabel, dbStorageLabels, labelled. simpl (truthy_str None).
  set (x := truthy_str (get DB_PASSWORD_SECRET_LABEL (mb_labels p))). set (y := truthy_str pin).
  rewrite member_label by (destruct x, y; distinct_keys).
  assert (Hv : String.eqb (extraPrimaryDataVolumeName (cl_base c) i) "" = false)
    by (unfold extraPrimaryDataVolumeName; by destruct (cl_base c)).
  revert Hv. generalize (extraPrimaryDataVolumeName (cl_base c) i). intros v Hv. destruct x; simpl; by rewrite Hv.
Qed.
Lemma calls_geo c contract multiNode nodes w :
  (forall r m, (r, m) ∈ cl_regionReplicas c -> (topology_of c = t_geo -> forall n, get r (regions_wanted c) = Some n -> n <= 0) -> gone m) ->
  calls (tick_ok c) (converge_geo script node contract multiNode nodes (topology_of c) c w).
Proof.
  intros Hgone. unfold converge_geo.
  assert (Hrm : topology_of c <> t_geo -> calls (tick_ok c) (do* each (fun rs => remove node (mb_name (snd rs))) (cl_regionReplicas c) in Ret w)).
  { intros Hn. apply calls_bind; [|intros _; apply calls_ret]. apply calls_each. intros [r m] H. by eapply calls_remove, Hgone. }
  destruct (topology_of c); try (by apply Hrm). apply calls_bind; [unfold ensureNet; repeat calls_step|intros _].
  apply calls_bind; [destruct (cl_primary c) as [p|] eqn:E; [by apply calls_place_primary|apply calls_ret]|intros w'].
  apply calls_bind; [|intros _; apply calls_bind; [|intros _; apply calls_ret]].
  - apply calls_each. intros [region n] Hin. unfold want_region. destruct (get region (cl_regionReplicas c)) as [m|] eqn:Em.
    + apply get_elem in Em. destruct (Z.leb_spec n 0) as [Hn|]; [|repeat calls_step]. eapply calls_remove, Hgone; [exact Em|].
      intros _ n' Hn'. pose proof (get_unique _ _ _ (regions_wanted_NoDup c) Hin) as E. rewrite E in Hn'. by injection Hn' as <-.
    + destruct (n <=? 0); [apply calls_ret|]. destruct (cl_primary c) as [p|] eqn:Ep; [|apply calls_ret]. by eapply calls_deploy, region_ok.
  - apply calls_each. intros [r m] H. unfold drop_region. simpl. destruct (get r (regions_wanted c)) as [n|] eqn:En.
    + destruct (Z.leb_spec n 0) as [Hn|]; [|apply calls_ret]. eapply calls_remove, Hgone; [exact H|]. intros _ n' Hn'. rewrite En in Hn'. by injection Hn' as <-.
    + eapply calls_remove, Hgone; [exact H|]. intros _ n' Hn'. by rewrite En in Hn'.
Qed.

Lemma calls_primaries c nodes :
  (forall i m, (i, m) ∈ cl_extraPrimaries c -> (topology_of c = t_active_active -> primaries_wanted c < i) -> gone m) ->
  calls (tick_ok c) (converge_primaries script localeCompare org node nodes (topology_of c) c).
Proof.
  intros Hgone. unfold converge_primaries.
  destruct (topology_of c) eqn:Et; try (apply calls_each; intros [i m] H; by eapply calls_remove, Hgone).
  apply calls_bind; [unfold ensureNet; repeat calls_step|intros _]. cbv zeta. apply calls_bind; [|intros _].
  - destruct (cl_primary c) as [p|] eqn:Ep; [|apply calls_ret]. apply calls_each. intros i (k & -> & _)%list_elem_of_fmap.
    unfold want_primary. destruct (existsb _ _) eqn:Ex; [apply calls_ret|]. apply calls_bind; [by apply calls_harmless|intros v]. cbv zeta.
    apply calls_deploy, extra_ok; [done|lia|]. intros m Hm. apply Bool.not_true_iff_false in Ex. apply Ex, existsb_exists.
    exists (2 + Z.of_nat k, m). split; [by apply list_elem_of_In|]. apply Z.eqb_refl.
  - apply calls_each. intros [i m] H. simpl. destruct (Z.ltb_spec (primaries_wanted c) i); [|apply calls_ret]. by eapply calls_remove, Hgone.
Qed.

(** ** The carry, and the pass after it *)

Lemma same_storage a b : same_member a b -> storage_of a = storage_of b.
Proof.
  intros [Hr Hl]. assert (Hm : mb_mounts a = mb_mounts b) by (apply (f_equal mb_mounts) in Hr; done).
  unfold storage_of, dbStorageState, label_in. rewrite Hm, Hl by (by apply mem_false). done.
Qed.

Lemma change_ok_same c p p' ch : cl_primary c = Some p -> same_member p' p -> change_ok gone (set_primary (Some p') c) ch -> change_ok gone c ch.
Proof.
  intros Hp Hsame. pose proof (same_storage _ _ Hsame) as Hst. destruct Hsame as [Hr Hl].
  assert (Hname : mb_name p' = mb_name p) by (apply (f_equal mb_name) in Hr; done).
  assert (Himage : mb_image p' = mb_image p) by (apply (f_equal mb_image) in Hr; done).
  destruct ch as [n name add rm|n s pull|n name]; intros [-> H]; (split; [done|]).
  - destruct H as [H1 H2]. split; [done|]. intros v Hv. destruct (H2 v Hv) as (q & u & [= <-] & -> & Hq). exists p, u. by rewrite <- Hst.
  - destruct H as [q v u l [= <-] Hq H1 H2 H3 H4 [H5 H6] H7|r l|q region l [= <-]|q i l [= <-]|].
    + apply (D_primary c _ p v u l); try done; [by rewrite <- Hst|by rewrite H1|by rewrite H2|]. split.
      * intros n Hn. apply H5. unfold label_in. by rewrite Hl by (by apply mem_false).
      * intros x Hx. apply H6. by rewrite Hl by (by apply mem_false).
    + by apply (D_replica c _ r l).
    + by apply (D_region c _ p region l).
    + by apply (D_extra c _ p i l).
    + by apply D_shipper.
  - exact H.
Qed.

Lemma carry_labels_ok c primary others carry : planBackupIntentCarry primary others = Some carry ->
  labels_ok c (mb_name primary) (bi_add carry) (bi_removeFromPrimary carry) /\
  forall d, d ∈ bi_donors carry -> labels_ok c (fst d) [] (snd d).
Proof.
  unfold planBackupIntentCarry. destruct (donors_of primary others) as [|d ds]; [done|]. intros [= <-]. simpl.
  destruct (carried_keys primary (d :: ds)) as [Ha Hr]. rewrite Forall_forall in Ha, Hr. split; [split|].
  - intros k. rewrite list_elem_of_In, filter_In, <- list_elem_of_In, js_uniq_elem. intros [H _]. left. by apply Hr.
  - intros v Hv. assert (DB_DATA_VOLUME_LABEL ∈ map fst (ca_add (carried_intent primary (d :: ds)))) as H by (apply list_elem_of_fmap; by exists (DB_DATA_VOLUME_LABEL, v)).
    apply Ha in H. by apply mem_In in H.
  - change ((mb_name d, intent_keys (mb_labels d)) :: map (fun m => (mb_name m, intent_keys (mb_labels m))) ds) with
      (map (fun m => (mb_name m, intent_keys (mb_labels m))) (d :: ds)). intros x (m & -> & _)%list_elem_of_fmap. split; simpl; [|by intros v ?%not_elem_of_nil].
    intros k Hk. left. apply list_elem_of_In, filter_In in Hk as [Hk _]. by apply list_elem_of_In.
Qed.

Lemma calls_carry c p : cl_primary c = Some p -> calls (tick_ok c) (carryBackupIntent node c p) /\
  forall t c', traces (carryBackupIntent node c p) t (inl c') -> c' = c \/ exists p', c' = set_primary (Some p') c /\ same_member p' p.
Proof.
  intros Hp. unfold carryBackupIntent. destruct (planBackupIntentCarry p (replicaMembers c)) as [carry|] eqn:E.
  2: { split; [apply calls_ret|]. intros t c' [_ [= ->]]. by left. }
  destruct (carry_labels_ok c p _ _ E) as [H1 H2].
  assert (Hd : calls (tick_ok c) (each (fun d => update_labels node (fst d) [] (snd d)) (bi_donors carry)))
    by (apply calls_each; intros d Hd; by apply calls_labels, H2).
  assert (Hm : calls (tick_ok c) (let* ok := catch (do* await (ServiceUpdateLabels node (mb_name p) (bi_add carry) (bi_removeFromPrimary carry)) in Ret true) (fun _ => Ret false) in
    if ok : bool then do* each (fun d => update_labels node (fst d) [] (snd d)) (bi_donors carry) in
      Ret (set_primary (Some (with_labels (drop_names (bi_removeFromPrimary carry) (assign (mb_labels p) (bi_add carry))) p)) c)
    else Ret c) /\ forall t c', traces (let* ok := catch (do* await (ServiceUpdateLabels node (mb_name p) (bi_add carry) (bi_removeFromPrimary carry)) in Ret true) (fun _ => Ret false) in
    if ok : bool then do* each (fun d => update_labels node (fst d) [] (snd d)) (bi_donors carry) in
      Ret (set_primary (Some (with_labels (drop_names (bi_removeFromPrimary carry) (assign (mb_labels p) (bi_add carry))) p)) c)
    else Ret c) t (inl c') -> c' = c \/ exists p', c' = set_primary (Some p') c /\ same_member p' p).
  { split.
    - apply calls_bind; [repeat calls_step; exact H1|]. intros []; [|apply calls_ret]. apply calls_bind; [exact Hd|intros _; apply calls_ret].
    - intros t c' [(e & _ & ?)|([] & t1 & t2 & -> & _ & H)]%traces_bind; [done| |by destruct H as [_ [= ->]]; left].
      apply traces_bind in H as [(e & _ & ?)|(a & t3 & t4 & -> & _ & [_ [= ->]])]; [done|]. right.
      eexists. split; [done|]. by eapply carry_same. }
  destruct (bi_add carry), (bi_removeFromPrimary carry); try exact Hm. split.
  - apply calls_bind; [exact Hd|intros _; apply calls_ret].
  - intros t c' [(e & _ & ?)|(a & t1 & t2 & -> & _ & [_ [= ->]])]%traces_bind; [done|]. by left.
Qed.

Lemma calls_mono {A} (P Q : event effect -> Prop) (p : program A) : (forall ev, P ev -> Q ev) -> calls P p -> calls Q p.
Proof. intros H Hp t r Ht. eapply Forall_impl; [by eapply Hp|done]. Qed.

Lemma calls_pass contract services nodes c w :
  (forall m, cl_shipper c = Some m -> gone m) -> (forall m, cl_dcs c = Some m -> gone m) ->
  (forall r m, (r, m) ∈ cl_regionReplicas c -> (topology_of c = t_geo -> forall n, get r (regions_wanted c) = Some n -> n <= 0) -> gone m) ->
  (forall i m, (i, m) ∈ cl_extraPrimaries c -> (topology_of c = t_active_active -> primaries_wanted c < i) -> gone m) ->
  calls (tick_ok c) (reconcileCluster script contentHash localeCompare decryptSecret URL_hostname org node contract services nodes c w).
Proof.
  intros Hsh Hdcs Hreg Hext. unfold reconcileCluster. cbv zeta. destruct (orphaned c).
  { apply calls_bind; [|intros _; apply calls_ret]. destruct (cl_shipper c) as [m|] eqn:E; [|apply calls_ret]. by apply (calls_remove c m), Hsh. }
  apply calls_bind; [unfold migrate_credentials; repeat calls_step|intros moved]. destruct moved; [apply calls_ret|].
  apply calls_bind; [apply calls_storage|intros w1]. apply calls_bind; [apply calls_scale|intros _].
  apply calls_bind; [by apply calls_leader|intros _]. apply calls_bind; [by apply calls_geo|intros w2].
  apply calls_bind; [by apply calls_primaries|intros _]. apply calls_bind; [apply calls_stamp_writer|intros _].
  assert (Hpitr : forall c', (c' = c \/ exists p p', cl_primary c = Some p /\ c' = set_primary (Some p') c /\ same_member p' p) ->
    calls (tick_ok c) (do* (if contract then quietly (ensurePitr script contentHash decryptSecret URL_hostname org node c') else Ret tt) in Ret (w2, Some c'))).
  { intros c' Hc. apply calls_bind; [|intros _; apply calls_ret]. destruct contract; [|apply calls_ret]. apply calls_quietly.
    apply (calls_mono (tick_ok c')); [|apply calls_ensurePitr; by destruct Hc as [-> |(p & p' & Hp & -> & Hs)]].
    destruct Hc as [-> |(p & p' & Hp & -> & Hs)]; [done|]. intros ev Hev ch Hch. by eapply change_ok_same, Hev. }
  destruct (cl_primary c) as [p|] eqn:Ep; [|apply (Hpitr c); by left].
  destruct (calls_carry c p Ep) as [H1 H2]. apply calls_bind_with; [exact H1|]. intros c' t Ht. apply Hpitr.
  destruct (H2 t c' Ht) as [-> |(p' & -> & Hs)]; [by left|]. right. by exists p, p'.
Qed.
End changes.

End safety.

(** * A cluster *)

Definition json_obj (k v : string) : string := "{" +:+ quoted k +:+ ":" +:+ quoted v +:+ "}".

Definition db_member (name : string) (labels : entries) (env : list string) (mounts : list ObservedMount) : Member :=
  {| mb_id := "id-" +:+ name; mb_name := name; mb_image := "pgvector/pgvector:pg17";
     mb_labels := [(STACK_LABEL, "shop"); (DB_ENGINE_LABEL, "postgres"); (DB_CLUSTER_LABEL, "main")] ++ labels;
     mb_env := env; mb_networks := ["shop_main-net"]; mb_secrets := []; mb_configs := []; mb_mounts := Some mounts;
     mb_desired := Some 1; mb_running := Some 1 |}.

Definition data_on (volume target : string) : ObservedMount := {| om_type := Some "volume"; om_source := Some volume; om_target := target |}.

Definition archiving : entries := [(DB_BACKUP_PITR_LABEL, "true"); (DB_BACKUP_SCHEDULE_LABEL, json_obj "targetId" "t1")].

(** A primary that declares its storage, and one whose volume is only mounted. *)
Definition declared_primary : Member :=
  db_member "shop_main-primary" ([(DB_ROLE_LABEL, "primary"); (DB_DATA_VOLUME_LABEL, "pg"); (DB_PIN_NODE_LABEL, "n1");
    (DB_PASSWORD_SECRET_LABEL, "shop_main-pg-password__v1")] ++ archiving) ["SWARMY_PG_ROLE=primary"; "POSTGRES_PASSWORD=hunter2"] [data_on "pg" MANAGED_PG_ROOT].

Definition mounted_primary : Member :=
  db_member "shop_main-primary" ((DB_ROLE_LABEL, "primary") :: archiving) ["SWARMY_PG_ROLE=primary"] [data_on "pg" MANAGED_PG_ROOT].

Definition cluster_of (services : list Member) : Cluster := default (no_cluster "" "") (get "shop main" (index_clusters services)).

(** Everything succeeds; a task of the primary runs on n1, and backups go to S3. *)
Definition db_answer : nat -> forall X, effect X -> X + failure := fun n X e =>
  match e in effect X return X + failure with
  | ReadTasks _ => inl {| ot_orgContainers := ["c1"]; ot_online :=
      [{| ln_nodeId := "agent1"; ln_swarmNodeId := Some "n1"; ln_containers :=
            [{| ci_id := "c1"; ci_serviceId := Some "id-shop_main-primary"; ci_labels := []; ci_state := "running" |}] |}] |}
  | FindBackupTarget _ _ => inl (Some {| bt_id := "t1"; bt_kind := "S3"; bt_endpoint := Some "s3.example.com"; bt_bucket := "b"; bt_prefix := None;
      bt_region := None; bt_credentialRef := None; bt_secretKeyRef := None |})
  | e => yes n _ e
  end.

Definition db_pass (services : list Member) : program (Warned * option Cluster) :=
  reconcileCluster "boot" kvFingerprint str_cmp Ok (fun _ => None) "org" "m1" true services [] (cluster_of services) {| wn_legacy := false; wn_regions := [] |}.

Definition deploys_of (t : list (event effect)) : list ServiceSpec :=
  omap (fun ev => match change_of ev with Some (Deployed _ s _) => Some s | _ => None end) t.

Definition db_trace (services : list Member) : list (event effect) := fst (run db_answer 0 (db_pass services)).

Definition pitr_event : event effect := Event (ServiceDeploy "m1" (default (member_spec "" "" 0 [] [] [] None None None None) (head (deploys_of (db_trace [declared_primary])))) pull_missing None) (inl tt).

Lemma pitr_event_made : exists t1 t2, db_trace [declared_primary] = t1 ++ pitr_event :: t2.
Proof. exists (firstn 7 (db_trace [declared_primary])), (skipn 8 (db_trace [declared_primary])). vm_compute. reflexivity. Qed.

Lemma db_labels_distinct p : cl_primary (cluster_of [declared_primary]) = Some p -> NoDup (map fst (mb_labels p)).
Proof.
  intros E. assert (H : bool_decide (NoDup (map fst (default [] (mb_labels <$> cl_primary (cluster_of [declared_primary]))))) = true) by (vm_compute; reflexivity).
  rewrite E in H. by apply bool_decide_eq_true_1 in H.
Qed.

