(* ===== verification/PgPromote.v ===== *)
(** Replication lag and promotion in the reconcile worker of managed Postgres
    (steps (6) and (7) of apps/api/src/workers/manageddb-reconcile.ts, its core
    manageddb-reconcile.core.ts, and the labels of packages/core/src/manageddb-failover.ts
    and volume-move.ts): the samples taken in running containers, the decision of
    Failover.v on them, and the calls that carry a promotion out.

    Lags are doubles; their texts are the ones JavaScript prints below 10^15 tenths of a
    second, as those of byte counts are below 2^53.  [Date.parse] and the ISO form of a
    time are parameters.  The pause between two checks of a promotion is left out. *)

From Stdlib Require Import QArith Qround.
From S2P Require Import Prelude Comparators Failover Json JsonText KvCodec Doubles JsNumber NetPolicy ServiceSpec SecretEnv SpecRead Effects ServicePatch PgMembers PgPlacement PgReconcile.
Open Scope Z_scope.

(** * Samples *)

Definition LAG_SQL : string :=
  "SELECT COALESCE(EXTRACT(EPOCH FROM (now() - pg_last_xact_replay_timestamp())),0)::text || '|' || COALESCE(pg_last_wal_replay_lsn()::text,'')".
Definition PRIMARY_LSN_SQL : string := "SELECT pg_current_wal_flush_lsn()::text".
Definition IN_RECOVERY_SQL : string := "SELECT pg_is_in_recovery()".
Definition PG_PROMOTE_SQL : string := "SELECT pg_promote(true, 25)".

Definition psql (sql : string) : string := PG_PASSWORD_FROM_MEMBER +:+ " psql -U postgres -d postgres -tAc " +:+ quoted sql.

Definition DB_LAG_LABEL_PREFIX : string := "swarmy.db.lag.".
Definition DB_SWITCHOVER_MAX_AGE_MS : Z := 10 * 60000.

Definition lf : ascii := ascii_of_nat 10.
Definition pipe : ascii := "|".

(** The lines of an output, each trimmed. *)
Definition lines (out : string) : list string := map trim (split_at lf out).

(** ** Number.parseFloat *)

(** The exponent a literal may end with, 0 when it has none. *)
Definition exponent_prefix (s : string) : Z :=
  match s with
  | String c r =>
      if mem (str1 c) ["e"; "E"] then
        let '(minus, d) := match r with
                           | String x r' => if Ascii.eqb x "-" then (true, r') else if Ascii.eqb x "+" then (false, r') else (false, r)
                           | EmptyString => (false, r)
                           end in
        match take_while is_digit d with
        | EmptyString => 0
        | digits => if minus : bool then - decimal digits else decimal digits
        end
      else 0
  | EmptyString => 0
  end.

Definition unsigned_prefix (s : string) : jsnum :=
  if startsWith "Infinity" s then PInf
  else
    let i := take_while is_digit s in
    let r := drop_while is_digit s in
    let '(f, r) := match r with
                   | String c r' => if Ascii.eqb c "." then (take_while is_digit r', drop_while is_digit r') else ("", r)
                   | EmptyString => ("", r)
                   end in
    match i +:+ f with
    | EmptyString => NaN
    | digits => scale10 (decimal digits) (exponent_prefix r - Z.of_nat (String.length f))
    end.

Definition parseFloat (s : string) : jsnum :=
  match trim_start s with
  | String c r => if Ascii.eqb c "-" then opposite (unsigned_prefix r) else if Ascii.eqb c "+" then unsigned_prefix r else unsigned_prefix (String c r)
  | EmptyString => NaN
  end.

(** ** Lag *)

(** [Math.round(n * 10)] *)
Definition tenths (n : number) : Z := let x := mul n (num 10) in (2 * num_of x + den_of x) / (2 * den_of x).

(** [Math.max(0, Math.round(n * 10) / 10)] *)
Definition round_lag (n : number) : number := js_max (num 0) (div (num (tenths n)) (num 10)).

(** What [String] prints for [k / 10]. *)
Definition tenths_text (k : Z) : string := pretty (k / 10) +:+ (if k mod 10 =? 0 then "" else "." +:+ pretty (k mod 10)).

Definition formatLagSeconds (n : number) : string := tenths_text (Z.max 0 (tenths n)).

(** [<seconds>|<replay position>], the position left out when it is empty. *)
Definition parseLagOutput (raw : string) : option (number * option string) :=
  match List.find (fun t => nonempty t && includes "|" t) (lines raw) with
  | None => None
  | Some line =>
      match split_at pipe line with
      | secs :: rest =>
          match parseFloat secs with
          | Fin n => Some (round_lag n, truthy_str (Some (trim (join "|" rest))))
          | _ => None
          end
      | [] => None
      end
  end.

(** [parseLsn] is the pattern and the sum of [lsnPos]. *)
Definition lsnDiffBytes (primaryLsn replicaLsn : string) : option Z := behindWatermarkBytes primaryLsn replicaLsn.

Record MemberLag := { ml_lagSeconds : number; ml_lsnDiffBytes : option Z; ml_replayLsn : option string }.
Record ClusterLag := { lg_members : list (string * MemberLag); lg_primaryLsn : option string }.

Definition no_lag : ClusterLag := {| lg_members := []; lg_primaryLsn := None |}.

(** Labels to add and to remove, nothing at a steady state. *)
Definition lagLabelUpdates (currentLabels : entries) (measured : list (string * number)) (liveMembers : list string) : option (entries * list string) :=
  let stamped := map (fun kv => (DB_LAG_LABEL_PREFIX +:+ fst kv, formatLagSeconds (snd kv))) (own_order measured) in
  let add := List.filter (fun kv => negb (bool_decide (get (fst kv) currentLabels = Some (snd kv)))) stamped in
  let removeKeys := List.filter (fun k => startsWith DB_LAG_LABEL_PREFIX k && negb (mem (sdrop (String.length DB_LAG_LABEL_PREFIX) k) liveMembers))
                      (map fst (own_order currentLabels)) in
  match add, removeKeys with
  | [], [] => None
  | _, _ => Some (add, removeKeys)
  end.

(** * Labels of the handshake *)

(** Numbers of the label of a pending failover may be any; its lag in seconds is not used. *)
Record PendingLabel := { pd_target : string; pd_behindBytes : option jsnum; pd_reason : string; pd_since : string }.

Definition text_field (k : string) (v : attrs) : string := match get k v with Some (VStr s) => s | _ => "" end.
Definition number_field (k : string) (v : attrs) : option jsnum := match get k v with Some (VNum s) => Some (of_text s) | _ => None end.

Definition parsePendingFailover (raw : option string) : option PendingLabel :=
  match truthy_str raw ≫= json_parse with
  | Some (VObj v) =>
      if String.eqb (text_field "target" v) "" then None
      else Some {| pd_target := text_field "target" v; pd_behindBytes := number_field "behindBytes" v;
                   pd_reason := text_field "reason" v; pd_since := text_field "since" v |}
  | _ => None
  end.

(** [prev.behindBytes === next.behindBytes] *)
Definition same_bytes (a : option jsnum) (b : option Z) : bool :=
  match a, b with
  | None, None => true
  | Some (Fin n), Some z => bool_decide (n = num z)
  | _, _ => false
  end.

Definition pendingChanged (prev : option PendingLabel) (target : string) (bytes : option Z) (reason : string) : bool :=
  match prev with
  | None => true
  | Some p => negb (String.eqb (pd_target p) target) || negb (same_bytes (pd_behindBytes p) bytes) || negb (String.eqb (pd_reason p) reason)
  end.

Definition null_or {A} (f : A -> value) (x : option A) : value := match x with Some a => f a | None => VNull end.

(** The text of a lag that was rounded to tenths. *)
Definition lag_text (q : Q) : string := tenths_text (Qfloor (q * 10 + (1 # 2))).

Definition encodePendingFailover (target : string) (bytes : option Z) (seconds : option Q) (reason since : string) : string :=
  json_stringify (VObj [("target", VStr target); ("behindBytes", null_or (fun z => VNum (pretty z)) bytes);
    ("behindSeconds", null_or (fun q => VNum (lag_text q)) seconds); ("reason", VStr reason); ("since", VStr since)]).

(** Who confirmed, and when, go to the audit only. *)
Definition parseFailoverConfirmation (raw : option string) : option FailoverConfirmation :=
  match truthy_str raw ≫= json_parse with
  | Some (VObj v) =>
      if String.eqb (text_field "target" v) "" then None
      else
        match get "acceptBehindBytes" v with
        | Some (VStr s) => if String.eqb s "unknown" then Some {| cf_target := text_field "target" v; cf_acceptBehindBytes := None |} else None
        | Some (VNum s) =>
            match of_text s with
            | Fin n => if 0 <=? sig n then Some {| cf_target := text_field "target" v; cf_acceptBehindBytes := Some (val n) |} else None
            | _ => None
            end
        | _ => None
        end
  | _ => None
  end.

Definition failover_topology (t : DbTopology) : FailoverTopology :=
  match t with
  | t_single => single | t_primary_replica => primary_replica | t_failover => failover | t_geo => geo | t_active_active => active_active
  end.

Definition running (m : Member) : Z := default 0 (mb_running m).

Definition member_named (name : string) (l : list Member) : option Member := List.find (fun m => String.eqb (mb_name m) name) l.

(** The primary, when there is one, and the replicas. *)
Definition anchored (c : Cluster) : list Member := option_list (cl_primary c) ++ replicaMembers c.

Definition has_label (k : string) (m : Member) : bool := bool_decide (is_Some (get k (mb_labels m))).

(** The members that carry the handshake. *)
Definition handshakeHolders (c : Cluster) : list Member :=
  List.filter (fun m => has_label DB_FAILOVER_PENDING_LABEL m || has_label DB_FAILOVER_CONFIRM_LABEL m) (anchored c).

(** The first text that is not empty under [k]. *)
Definition first_text (k : string) (l : list Member) : option string := head (omap (fun m => label_in k (mb_labels m)) l).

Definition candidates_of (c : Cluster) (lag : ClusterLag) : list FailoverCandidate :=
  map (fun m => let sample := get (mb_name m) (lg_members lag) in
         {| fc_service := mb_name m; fc_running := running m; fc_replayLsn := sample ≫= ml_replayLsn;
            fc_lagSeconds := (fun x => val (ml_lagSeconds x)) <$> sample |}) (replicaMembers c).

(** What the worker remembers of a cluster. *)
Record PgWatch := { pw_watch : Watch; pw_alerted : bool }.

Definition first_watch : PgWatch := {| pw_watch := no_watch; pw_alerted := false |}.

Section worker.
Variable pgBootScript : string.
Variable localeCompare : string -> string -> Z.
Variable Date_parse : string -> option Z.
Variable toISOString : Z -> string.
Variable org : string.
Variable node : string.

(** * (6) Lag *)

Definition primary_lsn (c : Cluster) : program (option string) :=
  match cl_primary c with
  | Some p =>
      if healthy p then
        let* r := execIn org p (psql PRIMARY_LSN_SQL) in
        Ret (match r with Some (0, out) => truthy_str (head (lines (trim out))) | _ => None end)
      else Ret None
  | None => Ret None
  end.

Fixpoint measure_replicas (primaryLsn : option string) (l : list Member) (measured : list (string * MemberLag)) : program (list (string * MemberLag)) :=
  match l with
  | [] => Ret measured
  | m :: l' =>
      let* r := execIn org m (psql LAG_SQL) in
      measure_replicas primaryLsn l'
        (match (match r with Some (0, out) => parseLagOutput out | _ => None end) with
         | Some (secs, replay) =>
             obj_set (mb_name m)
               {| ml_lagSeconds := secs; ml_lsnDiffBytes := match primaryLsn, replay with Some p, Some q => lsnDiffBytes p q | _, _ => None end;
                  ml_replayLsn := replay |} measured
         | None => measured
         end)
  end.

Definition measureClusterLag (c : Cluster) : program ClusterLag :=
  match List.filter (fun m => 0 <? default 0 (mb_desired m)) (replicaMembers c) with
  | [] => Ret no_lag
  | replicas =>
      let* lsn := primary_lsn c in
      let* measured := measure_replicas lsn replicas [] in
      do* (match cl_primary c, measured with
           | Some p, _ :: _ =>
               match lagLabelUpdates (mb_labels p) (map (fun kv => (fst kv, ml_lagSeconds (snd kv))) measured) (map mb_name (anchored c)) with
               | Some (add, removeKeys) => update_labels node (mb_name p) add removeKeys
               | None => Ret tt
               end
           | _, _ => Ret tt
           end) in
      Ret {| lg_members := measured; lg_primaryLsn := lsn |}
  end.

(** * (7) Promotion *)

(** Up to [attempts] checks that recovery has ended. *)
Fixpoint recovery_ended (m : Member) (attempts : nat) : program bool :=
  match attempts with
  | O => Ret false
  | S n =>
      let* r := execIn org m (psql IN_RECOVERY_SQL) in
      match r with
      | Some (0, out) => if startsWith "f" (trim out) then Ret true else recovery_ended m n
      | _ => recovery_ended m n
      end
  end.

Definition promoteInPlace (m : Member) : program bool :=
  let* r := execIn org m (psql PG_PROMOTE_SQL) in
  match r with Some (0, _) => recovery_ended m 5 | _ => Ret false end.

Definition switchoverRequested (labels : entries) (now : Z) : bool :=
  match Date_parse (default "" (get DB_SWITCHOVER_LABEL labels)) with
  | Some t => (0 <=? now - t) && (now - t <=? DB_SWITCHOVER_MAX_AGE_MS)
  | None => false
  end.

Definition alert (c : Cluster) (signal severity : string) : program () := quietly (await (FireAlert signal severity (resource_of c))).
Definition incident (c : Cluster) (kind : string) : program () := quietly (await (RecordIncident (resource_of c) kind)).
Definition audit (c : Cluster) (action : string) : program () := quietly (await (WriteAudit action (target_of c))).

Definition clearHandshake (c : Cluster) : program () :=
  each (fun m => update_labels node (mb_name m) [] [DB_FAILOVER_PENDING_LABEL; DB_FAILOVER_CONFIRM_LABEL]) (handshakeHolders c).

Definition when (b : bool) (p : program ()) : program () := if b then p else Ret tt.

(** The primary is healthy: the episode, if there was one, is over. *)
Definition stand_down (c : Cluster) (lag : ClusterLag) (now : Z) (st : PgWatch) : program PgWatch :=
  let w := pw_watch st in
  do* clearHandshake c in
  do* when (pw_alerted st) (alert c "db-failover-confirm" "info") in
  do* when (0 <? unhealthyTicks w) (do* alert c "db-degraded" "info" in incident c "db.resolved") in
  Ret {| pw_watch := {| unhealthyTicks := 0;
                        watermark := match truthy_str (lg_primaryLsn lag) with Some l => Some {| wm_lsn := l; wm_sampledAt := now |} | None => watermark w end;
                        lastHealthyAt := Some now |};
         pw_alerted := false |}.

(** Not provably caught up: the window is stamped, and an admin alerted once. *)
Definition hold (c : Cluster) (now : Z) (alerted : bool) (target : string) (bytes : option Z) (seconds : option Q) (reason : string) : program () :=
  let prev := parsePendingFailover (first_text DB_FAILOVER_PENDING_LABEL (handshakeHolders c)) in
  let since := default (toISOString now) (truthy_str (pd_since <$> prev)) in
  do* (match (match cl_primary c with Some p => Some p | None => member_named target (replicaMembers c) end) with
       | Some anchor =>
           when (pendingChanged prev target bytes reason)
             (update_labels node (mb_name anchor) [(DB_FAILOVER_PENDING_LABEL, encodePendingFailover target bytes seconds reason since)] [])
       | None => Ret tt
       end) in
  when (negb alerted)
    (do* alert c "db-failover-confirm" "critical" in
     do* incident c "db.failover.pending" in
     audit c "db.failover.held").

(** The other members, and whether each is the primary that was. *)
Definition others (c : Cluster) (target : string) : list (bool * Member) :=
  List.filter (fun x => negb (String.eqb (mb_name (snd x)) target))
    (map (fun m => (true, m)) (option_list (cl_primary c)) ++ map (fun m => (false, m)) (replicaMembers c)).

Definition flip_other (target : string) (x : bool * Member) : program () :=
  update_labels node (mb_name (snd x)) ((DB_LEADER_LABEL, target) :: (if fst x then [(DB_ROLE_LABEL, "replica")] else [])) [].

Definition is_dcs (m : Member) : bool := bool_decide (get DB_ROLE_LABEL (mb_labels m) = Some "dcs").

Definition repointed (c : Cluster) (target : string) : list Member := List.filter (fun m => negb (is_dcs m)) (map snd (others c target)).

(** The roles are flipped on the labels, then everyone else is pointed at the writer. *)
Definition proclaim (c : Cluster) (now : Z) (target : string) : program () :=
  let epoch := target +:+ "@" +:+ toISOString now in
  do* update_labels node target [(DB_ROLE_LABEL, "primary"); (DB_LEADER_LABEL, target)] [] in
  do* each (flip_other target) (others c target) in
  do* each (fun m => deploy node (repointSpec pgBootScript m target (clusterNet c) epoch) pull_missing) (repointed c target) in
  do* clearHandshake c in
  do* incident c "db.failover" in
  do* when (match repointed c target with [] => false | _ => true end) (incident c "db.repoint") in
  do* alert c "db-failover" "critical" in
  audit c "db.failover.promote".

(** A throw of the promotion ends the pass as its failure does. *)
Definition maybePromote (c : Cluster) (topology : DbTopology) (lag : ClusterLag) (now : Z) (st : PgWatch) : program PgWatch :=
  let w := pw_watch st in
  let planned := switchoverRequested (default [] (mb_labels <$> cl_primary c)) now in
  if negb (gated (failover_topology topology)) then
    do* clearHandshake c in
    Ret {| pw_watch := {| unhealthyTicks := 0; watermark := watermark w; lastHealthyAt := lastHealthyAt w |}; pw_alerted := pw_alerted st |}
  else if match cl_primary c with Some p => healthy p | None => false end then stand_down c lag now st
  else
    let w' := {| unhealthyTicks := unhealthyTicks w + 1; watermark := watermark w; lastHealthyAt := lastHealthyAt w |} in
    let st' := {| pw_watch := w'; pw_alerted := pw_alerted st |} in
    do* when ((unhealthyTicks w' =? 1) && negb planned) (do* alert c "db-degraded" "critical" in incident c "db.degraded") in
    if negb planned && negb (promotionDue (unhealthyTicks w')) then Ret st'
    else
      match decideFailover localeCompare
              {| df_topology := failover_topology topology; df_candidates := candidates_of c lag; df_watermark := watermark w';
                 df_lastHealthyAt := lastHealthyAt w';
                 df_confirmation := parseFailoverConfirmation (first_text DB_FAILOVER_CONFIRM_LABEL (handshakeHolders c)) |} with
      | D_never _ | D_wait _ => Ret st'
      | D_confirm target bytes seconds reason =>
          do* hold c now (pw_alerted st) target bytes seconds reason in
          Ret {| pw_watch := w'; pw_alerted := true |}
      | D_promote target _ _ _ =>
          match member_named target (replicaMembers c) with
          | None => Ret st'
          | Some m =>
              let* promoted := catch (promoteInPlace m) (fun _ => Ret false) in
              if promoted : bool then do* proclaim c now (mb_name m) in Ret first_watch
              else Ret st'
          end
      end.

(** Steps (6) and (7) of a turn. *)
Definition watch_cluster (contract : bool) (c : Cluster) (topology : DbTopology) (now : Z) (st : PgWatch) : program PgWatch :=
  let* lag := catch (measureClusterLag c) (fun _ => Ret no_lag) in
  if contract then maybePromote c topology lag now st else Ret st.
End worker.

(** * What a pass changes *)

Definition changes (t : list (event effect)) : list change := omap change_of t.

Lemma changes_app t1 t2 : changes (t1 ++ t2) = changes t1 ++ changes t2.
Proof. apply omap_app. Qed.

(** Programs that make exactly the changes [l] and do not throw, and that make none. *)
Definition does (p : program ()) (l : list change) : Prop := forall t r, traces p t r -> r = inl tt /\ changes t = l.
Definition reads {A} (p : program A) : Prop := forall t r, traces p t r -> changes t = [].

Lemma does_ret : does (Ret tt) [].
Proof. by intros t r [-> ->]. Qed.

Lemma does_bind p (f : () -> program ()) l l' : does p l -> does (f tt) l' -> does (bind p f) (l ++ l').
Proof.
  intros Hp Hf t r [(e & [? _]%Hp & _)|([] & t1 & t2 & -> & [_ H1]%Hp & [Hr H2]%Hf)]%traces_bind; [done|].
  by rewrite changes_app, H1, H2.
Qed.

Lemma does_call (c : effect ()) : does (quietly (await c)) (option_list (changed c)).
Proof.
  intros t r [-> [r' ->%traces_await]]%traces_quietly. split; [done|]. unfold changes. simpl. unfold change_of. simpl. by destruct (changed c).
Qed.

Lemma does_each {A} (f : A -> program ()) (g : A -> list change) l : (forall x, does (f x) (g x)) -> does (each f l) (flat_map g l).
Proof. intros H. induction l as [|x l IH]; simpl; [apply does_ret|by apply does_bind]. Qed.

Lemma does_when b p l : does p l -> does (when b p) (if b then l else []).
Proof. intros H. destruct b; [exact H|apply does_ret]. Qed.

Lemma reads_ret {A} (a : A) : reads (Ret a).
Proof. by intros t r [-> _]. Qed.

Lemma reads_await {X} (c : effect X) : changed c = None -> reads (await c).
Proof. intros H t r ->%traces_await. unfold changes. simpl. unfold change_of. simpl. by rewrite H. Qed.

Lemma reads_bind {A B} (p : program A) (f : A -> program B) : reads p -> (forall a, reads (f a)) -> reads (bind p f).
Proof.
  intros Hp Hf t r [(e & H & _)|(a & t1 & t2 & -> & H1 & H2)]%traces_bind; [by eapply Hp|].
  by rewrite changes_app, (Hp _ _ H1), (Hf _ _ _ H2).
Qed.

Lemma reads_catch {A} (p : program A) h : reads p -> (forall e, reads (h e)) -> reads (catch p h).
Proof.
  intros Hp Hh t r [(a & H & _)|(e & t1 & t2 & -> & H1 & H2)]%traces_catch; [by eapply Hp|].
  by rewrite changes_app, (Hp _ _ H1), (Hh _ _ _ H2).
Qed.

Lemma does_bind_ret {A} (p : program ()) (a : A) l t r : does p l -> traces (do* p in Ret a) t r -> r = inl a /\ changes t = l.
Proof.
  intros Hp [(e & [? _]%Hp & _)|([] & t1 & t2 & -> & [_ H1]%Hp & [-> ->])]%traces_bind; [done|].
  by rewrite changes_app, H1, app_nil_r.
Qed.

Lemma does_then {A} (p : program ()) (f : () -> program A) l t r : does p l -> traces (bind p f) t r ->
  exists t1 t2, t = t1 ++ t2 /\ changes t1 = l /\ traces (f tt) t2 r.
Proof. intros Hp [(e & [? _]%Hp & _)|([] & t1 & t2 & -> & [_ H1]%Hp & H2)]%traces_bind; [done|]. by exists t1, t2. Qed.

(** * What was run, and where *)

(** [script] ran to its end in a container of [m] and printed [out]. *)
Definition ran (org : string) (m : Member) (script out : string) (t : list (event effect)) : Prop :=
  exists a b tasks n k, t = a ++ [Event (ReadTasks org) (inl tasks); Event (Exec (ln_nodeId n) k ["sh"; "-c"; script]) (inl (0, out))] ++ b /\
    exec_target tasks (mb_id m) (ot_online tasks) = Some (n, k).

Lemma ran_app org m script out t1 t t2 : ran org m script out t -> ran org m script out (t1 ++ t ++ t2).
Proof. intros (a & b & tasks & n & k & -> & H). exists (t1 ++ a), (b ++ t2), tasks, n, k. split; [by rewrite !app_assoc|done]. Qed.

Lemma ran_l org m script out t t2 : ran org m script out t -> ran org m script out (t ++ t2).
Proof. intros H. by apply (ran_app org m script out [] t t2). Qed.

Lemma ran_r org m script out t1 t : ran org m script out t -> ran org m script out (t1 ++ t).
Proof. intros H. rewrite <- (app_nil_r t). by apply ran_app. Qed.

Lemma reads_execIn org m script : reads (execIn org m script).
Proof.
  unfold execIn, execTarget. apply reads_bind; [apply reads_bind; [by apply reads_await|intros; apply reads_ret]|].
  intros [[n k]|]; [|apply reads_ret]. apply reads_catch; [|intros; apply reads_ret].
  apply reads_bind; [by apply reads_await|intros; apply reads_ret].
Qed.

Lemma execIn_ran org m script t out : traces (execIn org m script) t (inl (Some (0, out))) -> ran org m script out t.
Proof.
  unfold execIn, execTarget. intros [(e & _ & ?)|(target & t1 & t2 & -> & H1 & H2)]%traces_bind; [done|].
  apply traces_bind in H1 as [(e & _ & ?)|(tasks & t3 & t4 & -> & ->%traces_await & [-> [= ->]])]; [done|].
  destruct (exec_target _ _ _) as [[n k]|] eqn:E; [|by destruct H2 as [_ ?]].
  apply traces_catch in H2 as [(a & H2 & [= <-])|(e & t3 & t4 & -> & _ & [_ ?])]; [|done].
  apply traces_bind in H2 as [(e & _ & ?)|(x & t3 & t4 & -> & ->%traces_await & [-> [= <-]])]; [done|].
  by exists [], [], tasks, n, k.
Qed.

(** [m] was promoted, and then answered that it is not in recovery. *)
Definition writes_now (org : string) (m : Member) (t : list (event effect)) : Prop :=
  exists ta tb o o', t = ta ++ tb /\ ran org m (psql PG_PROMOTE_SQL) o ta /\ ran org m (psql IN_RECOVERY_SQL) o' tb /\ startsWith "f" (trim o') = true.

Lemma writes_later org m t1 t : writes_now org m t -> writes_now org m (t1 ++ t).
Proof. intros (ta & tb & o & o' & -> & Ho & Ho' & Hf). exists (t1 ++ ta), tb, o, o'. split; [by rewrite app_assoc|]. split; [by apply ran_r|done]. Qed.

Lemma reads_recovery org m n : reads (recovery_ended org m n).
Proof.
  induction n as [|n IH]; cbn [recovery_ended]; [apply reads_ret|]. apply reads_bind; [apply reads_execIn|]. intros [[[] out]|]; try exact IH.
  destruct (startsWith _ _); [apply reads_ret|exact IH].
Qed.

Lemma recovery_ran org m n t : traces (recovery_ended org m n) t (inl true) -> exists o, ran org m (psql IN_RECOVERY_SQL) o t /\ startsWith "f" (trim o) = true.
Proof.
  revert t. induction n as [|n IH]; intros t; cbn [recovery_ended]; [by intros [_ ?]|].
  intros [(e & _ & ?)|(r & t1 & t2 & -> & H1 & H2)]%traces_bind; [done|].
  assert (Hagain : traces (recovery_ended org m n) t2 (inl true) -> exists o, ran org m (psql IN_RECOVERY_SQL) o (t1 ++ t2) /\ startsWith "f" (trim o) = true)
    by (intros (o & Ho & Hf)%IH; exists o; split; [by apply ran_r|done]).
  destruct r as [[[] out]|]; try by apply Hagain. destruct (startsWith "f" (trim out)) eqn:E; [|by apply Hagain].
  exists out. split; [|done]. by apply ran_l, execIn_ran.
Qed.

Lemma reads_promote org m : reads (promoteInPlace org m).
Proof.
  apply reads_bind; [apply reads_execIn|]. intros [[[] out]|]; try apply reads_ret. apply reads_recovery.
Qed.

Lemma promote_ran org m t : traces (promoteInPlace org m) t (inl true) -> writes_now org m t.
Proof.
  intros [(e & _ & ?)|(r & t1 & t2 & -> & H1 & H2)]%traces_bind; [done|].
  destruct r as [[[] out]|]; try by destruct H2 as [_ ?]. apply recovery_ran in H2 as (o & Ho & Hf). apply execIn_ran in H1.
  by exists t1, t2, out, o.
Qed.

Section exact.
Context (script : string) (lc : string -> string -> Z) (Date_parse : string -> option Z) (toISOString : Z -> string) (org node : string).

Definition cleared (c : Cluster) : list change :=
  map (fun m => Labelled node (mb_name m) [] [DB_FAILOVER_PENDING_LABEL; DB_FAILOVER_CONFIRM_LABEL]) (handshakeHolders c).

Definition flipped_other (target : string) (x : bool * Member) : change :=
  Labelled node (mb_name (snd x)) ((DB_LEADER_LABEL, target) :: (if fst x then [(DB_ROLE_LABEL, "replica")] else [])) [].

(** The changes of a promotion: the roles, then the members that follow the writer. *)
Definition proclaimed (c : Cluster) (now : Z) (target : string) : list change :=
  [Labelled node target [(DB_ROLE_LABEL, "primary"); (DB_LEADER_LABEL, target)] []] ++ map (flipped_other target) (others c target) ++
  map (fun m => Deployed node (repointSpec script m target (clusterNet c) (target +:+ "@" +:+ toISOString now)) pull_missing) (repointed c target) ++ cleared c.

Definition held_label (c : Cluster) (now : Z) (target : string) (bytes : option Z) (seconds : option Q) (reason : string) : list change :=
  let prev := parsePendingFailover (first_text DB_FAILOVER_PENDING_LABEL (handshakeHolders c)) in
  let since := default (toISOString now) (truthy_str (pd_since <$> prev)) in
  match (match cl_primary c with Some p => Some p | None => member_named target (replicaMembers c) end) with
  | Some anchor =>
      if pendingChanged prev target bytes reason
      then [Labelled node (mb_name anchor) [(DB_FAILOVER_PENDING_LABEL, encodePendingFailover target bytes seconds reason since)] []] else []
  | None => []
  end.

Definition healthy_primary (c : Cluster) : bool := match cl_primary c with Some p => healthy p | None => false end.

(** The pass as Failover.v sees it. *)
Definition tick_of (c : Cluster) (topology : DbTopology) (lag : ClusterLag) (now : Z) (promotes : bool) : Tick :=
  {| tk_topology := failover_topology topology; tk_healthy := healthy_primary c; tk_now := now; tk_primaryLsn := lg_primaryLsn lag;
     tk_planned := switchoverRequested Date_parse (default [] (mb_labels <$> cl_primary c)) now; tk_candidates := candidates_of c lag;
     tk_confirmation := parseFailoverConfirmation (first_text DB_FAILOVER_CONFIRM_LABEL (handshakeHolders c)); tk_promotes := promotes |}.

Definition outcome_changes (c : Cluster) (topology : DbTopology) (now : Z) (out : Outcome) : list change :=
  match out with
  | Idle => if gated (failover_topology topology) && negb (healthy_primary c) then [] else cleared c
  | Held (D_confirm target bytes seconds reason) => held_label c now target bytes seconds reason
  | Promoted (D_promote target _ _ _) => proclaimed c now target
  | _ => []
  end.

Lemma does_labels name add rm : does (update_labels node name add rm) [Labelled node name add rm].
Proof. apply (does_call (ServiceUpdateLabels node name add rm)). Qed.

Lemma does_alert c signal severity : does (alert c signal severity) [].
Proof. apply (does_call (FireAlert signal severity (resource_of c))). Qed.
Lemma does_incident c kind : does (incident c kind) [].
Proof. apply (does_call (RecordIncident (resource_of c) kind)). Qed.
Lemma does_audit c action : does (audit c action) [].
Proof. apply (does_call (WriteAudit action (target_of c))). Qed.

Lemma does_quiet_bind p (f : () -> program ()) : does p [] -> does (f tt) [] -> does (bind p f) [].
Proof. intros Hp Hf. by apply (does_bind p f [] []). Qed.

Lemma does_quiet_when b p : does p [] -> does (when b p) [].
Proof. intros H. by destruct b; [|apply does_ret]. Qed.

Lemma flat_map_single {A B} (f : A -> B) l : flat_map (fun x => [f x]) l = map f l.
Proof. induction l; simpl; congruence. Qed.

Lemma does_map {A} (f : A -> program ()) (g : A -> change) l : (forall x, does (f x) [g x]) -> does (each f l) (map g l).
Proof. intros H. rewrite <- flat_map_single. by apply does_each. Qed.

Lemma does_clear c : does (clearHandshake node c) (cleared c).
Proof. apply does_map. intros m. apply does_labels. Qed.

Ltac quiet := repeat first [apply does_quiet_bind | apply does_quiet_when | apply does_alert | apply does_incident | apply does_audit | apply does_ret].

Lemma does_proclaim c now target : does (proclaim script toISOString node c now target) (proclaimed c now target).
Proof.
  unfold proclaim, proclaimed. cbv zeta. apply does_bind; [apply does_labels|]. apply does_bind; [apply does_map; intros x; apply does_labels|].
  apply does_bind; [apply does_map; intros m; apply (does_call (ServiceDeploy node _ pull_missing None))|].
  rewrite <- (app_nil_r (cleared c)). apply does_bind; [apply does_clear|]. quiet.
Qed.

Lemma does_hold c now alerted target bytes seconds reason :
  does (hold toISOString node c now alerted target bytes seconds reason) (held_label c now target bytes seconds reason).
Proof.
  unfold hold. cbv zeta. rewrite <- (app_nil_r (held_label _ _ _ _ _ _)). apply does_bind; [|quiet].
  unfold held_label. destruct (match cl_primary c with Some p => Some p | None => _ end); [|apply does_ret].
  apply does_when, does_labels.
Qed.

Lemma member_named_spec name l m : member_named name l = Some m -> m ∈ l /\ mb_name m = name.
Proof. intros [H E]%find_some. apply String.eqb_eq in E. split; [by apply list_elem_of_In|done]. Qed.

Lemma candidate_member c lag x : x ∈ candidates_of c lag -> exists m, m ∈ replicaMembers c /\ mb_name m = fc_service x /\ running m = fc_running x /\
  fc_replayLsn x = get (mb_name m) (lg_members lag) ≫= ml_replayLsn.
Proof. intros (m & -> & Hm)%list_elem_of_fmap. by exists m. Qed.

Lemma candidate_named c lag x : x ∈ candidates_of c lag -> is_Some (member_named (fc_service x) (replicaMembers c)).
Proof.
  intros (m & Hm & En & _)%candidate_member. unfold member_named. destruct (List.find _ _) eqn:E; [done|]. exfalso.
  apply list_elem_of_In in Hm. pose proof (find_none _ _ E m Hm) as H. simpl in H. by rewrite En, String.eqb_refl in H.
Qed.

(** A pass takes the decision of Failover.v, remembers what it does, and makes exactly
    the changes of its outcome. *)
Definition pass_exact (c : Cluster) (topology : DbTopology) (lag : ClusterLag) (now : Z) (st st' : PgWatch) (t : list (event effect)) : Prop :=
  exists ok out, Failover.maybePromote lc (pw_watch st) (tick_of c topology lag now ok) = (pw_watch st', out) /\
    changes t = outcome_changes c topology now out /\
    (ok = true -> exists m target b s k t1 t2, out = Promoted (D_promote target b s k) /\ m ∈ replicaMembers c /\ mb_name m = target /\
       t = t1 ++ t2 /\ writes_now org m t1 /\ changes t1 = []).

Lemma exact_calm c topology lag now st st' t out :
  Failover.maybePromote lc (pw_watch st) (tick_of c topology lag now false) = (pw_watch st', out) ->
  changes t = outcome_changes c topology now out -> pass_exact c topology lag now st st' t.
Proof. intros H1 H2. exists false, out. by split. Qed.

Lemma promote_name i t b s k : Comparator lc -> decideFailover lc i = D_promote t b s k -> exists x, x ∈ df_candidates i /\ fc_service x = t.
Proof.
  intros HC E. pose proof (decide_cases lc i) as H. rewrite E in H. destruct H as (_ & x & (Hx & _) & En & _). by exists x.
Qed.

(** Failover.v on an unhealthy primary of a gated topology. *)
Lemma unhealthy_step w tk : gated (tk_topology tk) = true -> tk_healthy tk = false -> Failover.maybePromote lc w tk =
  let w' := {| unhealthyTicks := unhealthyTicks w + 1; watermark := watermark w; lastHealthyAt := lastHealthyAt w |} in
  if negb (tk_planned tk) && negb (promotionDue (unhealthyTicks w + 1)) then (w', Idle)
  else match decideFailover lc (decide_input w' tk) with
       | D_never _ | D_wait _ => (w', Idle)
       | D_confirm _ _ _ _ as d => (w', Held d)
       | D_promote _ _ _ _ as d => if tk_promotes tk then (no_watch, Promoted d) else (w', Failed_promotion d)
       end.
Proof. intros H1 H2. unfold Failover.maybePromote. by rewrite H1, H2. Qed.

Lemma maybePromote_exact c topology lag now st t r : Comparator lc ->
  traces (maybePromote script lc Date_parse toISOString org node c topology lag now st) t r ->
  exists st', r = inl st' /\ pass_exact c topology lag now st st' t.
Proof.
  intros HC. unfold maybePromote. cbv zeta. destruct (gated (failover_topology topology)) eqn:Eg; cbn [negb].
  2: { intros [-> Ht]%(does_bind_ret _ _ _ _ _ (does_clear c)). eexists. split; [done|]. eapply exact_calm; [unfold Failover.maybePromote; simpl; rewrite Eg; reflexivity|].
       simpl. by rewrite Eg. }
  destruct (match cl_primary c with Some p => healthy p | None => false end) eqn:Eh.
  { unfold stand_down. cbv zeta. intros H. apply (does_then _ _ _ _ _ (does_clear c)) in H as (t1 & t2 & -> & H1 & H).
    apply (does_then _ _ []) in H as (t3 & t4 & -> & H2 & H); [|apply does_quiet_when, does_alert].
    apply (does_bind_ret _ _ []) in H as [-> H3]; [|apply does_quiet_when, does_quiet_bind; [apply does_alert|apply does_incident]].
    eexists. split; [done|]. eapply exact_calm; [unfold Failover.maybePromote; simpl; unfold healthy_primary; rewrite Eg, Eh; simpl|].
    - unfold truthy_str. destruct (lg_primaryLsn lag) as [l|]; [|reflexivity]. by destruct (String.eqb l "").
    - simpl. unfold healthy_primary. by rewrite Eg, Eh, !changes_app, H1, H2, H3, app_nil_r. }
  intros H. apply (does_then _ _ []) in H as (t1 & t2 & -> & H1 & H); [|apply does_quiet_when, does_quiet_bind; [apply does_alert|apply does_incident]].
  assert (Hidle : outcome_changes c topology now Idle = []) by (simpl; unfold healthy_primary; by rewrite Eg, Eh).
  set (w' := {| unhealthyTicks := unhealthyTicks (pw_watch st) + 1; watermark := _; lastHealthyAt := _ |}) in *.
  assert (Hstep : forall ok, Failover.maybePromote lc (pw_watch st) (tick_of c topology lag now ok) = _)
    by (intros ok; apply (unhealthy_step (pw_watch st) (tick_of c topology lag now ok) Eg Eh)).
  cbv zeta in Hstep. cbn [tick_of tk_planned tk_promotes] in Hstep. fold w' in Hstep. change (unhealthyTicks w') with (unhealthyTicks (pw_watch st) + 1) in H.
  match type of H with traces (if ?b then _ else _) _ _ => destruct b end.
  { destruct H as [-> ->]. eexists. split; [done|]. eapply exact_calm; [by rewrite Hstep|]. by rewrite changes_app, H1, Hidle. }
  match type of H with traces (match decideFailover lc ?i with _ => _ end) _ _ => set (i0 := i) in *; assert (Hi : forall ok, decide_input w' (tick_of c topology lag now ok) = i0) by done end.
  destruct (decideFailover lc i0) as [x|x|target b s k|target b s reason] eqn:Ed.
  - destruct H as [-> ->]. eexists. split; [done|]. eapply exact_calm; [by rewrite Hstep, Hi, Ed|]. by rewrite changes_app, H1, Hidle.
  - destruct H as [-> ->]. eexists. split; [done|]. eapply exact_calm; [by rewrite Hstep, Hi, Ed|]. by rewrite changes_app, H1, Hidle.
  - destruct (promote_name i0 target b s k HC Ed) as (y & Hy & En). apply candidate_named in Hy. rewrite En in Hy.
    destruct (member_named target (replicaMembers c)) as [m|] eqn:Em; [|by destruct Hy]. apply member_named_spec in Em as [Hm Hname].
    apply traces_bind in H as [(e & H & ->)|(ok & t3 & t4 & -> & H2 & H)].
    { apply traces_catch in H as [(a & _ & ?)|(e' & ? & ? & _ & _ & [_ ?])]; done. }
    assert (Hr : changes t3 = []) by (revert H2; apply (reads_catch (promoteInPlace org m)); [apply reads_promote|intros; apply reads_ret]).
    destruct ok.
    + apply (does_bind_ret _ _ _ _ _ (does_proclaim c now (mb_name m))) in H as [-> H3]. eexists. split; [done|].
      exists true, (Promoted (D_promote target b s k)). split; [by rewrite Hstep, Hi, Ed|]. split; [by rewrite !changes_app, H1, Hr, H3, Hname|].
      intros _. exists m, target, b, s, k, (t1 ++ t3), t4. split; [done|]. split; [done|]. split; [done|]. split; [by rewrite app_assoc|].
      split; [|by rewrite changes_app, H1, Hr].
      apply traces_catch in H2 as [(a & H2 & [= <-])|(e & ? & ? & _ & _ & [_ ?])]; [|done]. by apply writes_later, promote_ran.
    + destruct H as [-> ->]. eexists. split; [done|]. eapply exact_calm; [by rewrite Hstep, Hi, Ed|]. by rewrite !changes_app, H1, Hr.
  - apply (does_bind_ret _ _ _ _ _ (does_hold c now (pw_alerted st) target b s reason)) in H as [-> H2]. eexists. split; [done|].
    eapply exact_calm; [by rewrite Hstep, Hi, Ed|]. by rewrite changes_app, H1, H2.
Qed.
End exact.

(** * Where the samples come from *)

(** What the containers of the cluster printed in [t]. *)
Record lag_from (org : string) (c : Cluster) (t : list (event effect)) (lag : ClusterLag) : Prop := {
  lf_primary : forall l, lg_primaryLsn lag = Some l -> exists p out, cl_primary c = Some p /\ ran org p (psql PRIMARY_LSN_SQL) out t /\
    head (lines (trim out)) = Some l;
  lf_member : forall name x, get name (lg_members lag) = Some x -> exists m out, m ∈ replicaMembers c /\ mb_name m = name /\
    ran org m (psql LAG_SQL) out t /\ parseLagOutput out = Some (ml_lagSeconds x, ml_replayLsn x)
}.

Lemma lag_from_more org c t t' lag : lag_from org c t lag -> lag_from org c (t ++ t') lag.
Proof.
  intros [H1 H2]. split.
  - intros l (p & out & Hp & Hr & Hl)%H1. exists p, out. split; [done|]. split; [by apply ran_l|done].
  - intros name x (m & out & Hm & Hn & Hr & Hl)%H2. exists m, out. do 2 (split; [done|]). split; [by apply ran_l|done].
Qed.

Lemma no_lag_from org c t : lag_from org c t no_lag.
Proof. by split. Qed.

Lemma measured_from org lsn l measured t r : traces (measure_replicas org lsn l measured) t (inl r) ->
  forall name x, get name r = Some x -> get name measured = Some x \/
    exists m out, m ∈ l /\ mb_name m = name /\ ran org m (psql LAG_SQL) out t /\ parseLagOutput out = Some (ml_lagSeconds x, ml_replayLsn x).
Proof.
  revert measured t. induction l as [|m l IH]; intros measured t; cbn [measure_replicas]; [intros [-> [= ->]]; by left|].
  intros [(e & _ & ?)|(res & t1 & t2 & -> & H1 & H2)]%traces_bind; [done|]. intros name x Hx.
  apply (IH _ _ H2) in Hx as [Hx|(m' & out & Hm & Hn & Hr & Hp)].
  - destruct (match res with Some (0, out) => parseLagOutput out | _ => None end) as [[secs replay]|] eqn:E; [|by left].
    rewrite get_obj_set in Hx. destruct (String.eqb_spec name (mb_name m)) as [->|]; [|by left]. injection Hx as <-. right.
    destruct res as [[[] out]|]; try done. exists m, out. split; [by left|]. split; [done|]. split; [by apply ran_l, execIn_ran|]. exact E.
  - right. exists m', out. split; [by right|]. split; [done|]. split; [by apply ran_r|done].
Qed.

Lemma reads_measured org lsn l measured : reads (measure_replicas org lsn l measured).
Proof.
  revert measured. induction l as [|m l IH]; intros measured; cbn [measure_replicas]; [apply reads_ret|].
  apply reads_bind; [apply reads_execIn|]. intros res. apply IH.
Qed.

Lemma reads_primary_lsn org c : reads (primary_lsn org c).
Proof.
  unfold primary_lsn. destruct (cl_primary c) as [p|]; [|apply reads_ret]. destruct (healthy p); [|apply reads_ret].
  apply reads_bind; [apply reads_execIn|intros; apply reads_ret].
Qed.

(** A stamp of lags, or nothing. *)
Definition lag_stamps (ch : list change) : Prop :=
  Forall (fun x => match x with Labelled _ _ add _ => forall k v, (k, v) ∈ add -> startsWith DB_LAG_LABEL_PREFIX k = true | _ => False end) ch.

Lemma lag_updates_stamps labels measured live add rm : lagLabelUpdates labels measured live = Some (add, rm) ->
  forall k v, (k, v) ∈ add -> startsWith DB_LAG_LABEL_PREFIX k = true.
Proof.
  unfold lagLabelUpdates. cbv zeta. set (a := List.filter _ _). set (b := List.filter _ _). intros H.
  assert (a = add) as <- by (clear -H; destruct a, b; congruence). intros k v Hkv. subst a. apply list_elem_of_In, filter_In in Hkv as [Hkv _].
  apply list_elem_of_In, list_elem_of_fmap in Hkv as ((n & x) & [= -> ->] & _). apply startsWith_spec. by eexists.
Qed.

Lemma measure_from org node c t lag : traces (measureClusterLag org node c) t (inl lag) -> lag_from org c t lag /\ lag_stamps (changes t).
Proof.
  unfold measureClusterLag. destruct (List.filter _ (replicaMembers c)) as [|r0 rs] eqn:Ef; [by intros [-> [= ->]]; split; [apply no_lag_from|constructor]|].
  intros [(e & _ & ?)|(lsn & t1 & t2 & -> & H1 & H)]%traces_bind; [done|].
  apply traces_bind in H as [(e & _ & ?)|(measured & t3 & t4 & -> & H2 & H)]; [done|].
  apply traces_bind in H as [(e & _ & ?)|([] & t5 & t6 & -> & H3 & [-> [= ->]])]; [done|]. split.
  - rewrite app_assoc. apply lag_from_more. split; simpl.
    + intros l ->. unfold primary_lsn in H1. destruct (cl_primary c) as [p|]; [|by destruct H1 as [_ ?]].
      destruct (healthy p); [|by destruct H1 as [_ ?]].
      apply traces_bind in H1 as [(e & _ & ?)|(res & t7 & t8 & -> & H1 & [-> [= E]])]; [done|]. destruct res as [[[] out]|]; try done.
      symmetry in E. apply truthy_some in E as [E _]. exists p, out. split; [done|]. split; [|done].
      rewrite app_nil_r. by apply ran_l, execIn_ran.
    + intros name x Hx. destruct (measured_from _ _ _ _ _ _ H2 name x Hx) as [?|(m & out & Hm & Hn & Hr & Hp)]; [done|].
      exists m, out. split; [|split; [done|split; [by apply ran_r|done]]].
      rewrite <- Ef in Hm. apply list_elem_of_In, filter_In in Hm as [Hm _]. by apply list_elem_of_In.
  - rewrite !changes_app, (reads_primary_lsn _ _ _ _ H1), (reads_measured _ _ _ _ _ _ H2). simpl. rewrite app_nil_r.
    destruct (cl_primary c) as [p|], measured as [|m0 ms]; try (by destruct H3 as [-> _]; constructor).
    destruct (lagLabelUpdates _ _ _) as [[add rm]|] eqn:E; [|by destruct H3 as [-> _]; constructor].
    apply does_call in H3 as [_ ->]. constructor; [|constructor]. by eapply lag_updates_stamps.
Qed.

Lemma measure_thrown org node c t e : traces (measureClusterLag org node c) t (inr e) -> changes t = [].
Proof.
  unfold measureClusterLag. destruct (List.filter _ (replicaMembers c)) as [|r0 rs]; [by intros [_ ?]|].
  intros [(x & H & _)|(lsn & t1 & t2 & -> & H1 & H)]%traces_bind; [by apply reads_primary_lsn in H|].
  rewrite changes_app, (reads_primary_lsn _ _ _ _ H1).
  apply traces_bind in H as [(x & H & _)|(measured & t3 & t4 & -> & H2 & H)]; [by apply reads_measured in H|].
  exfalso. apply traces_bind in H as [(x & H & _)|(u & t5 & t6 & _ & _ & [_ ?])]; [|done].
  destruct (cl_primary c) as [p|], measured as [|m0 ms]; try (by destruct H as [_ ?]).
  destruct (lagLabelUpdates _ _ _) as [[add rm]|]; [by apply does_call in H as [? _]|by destruct H as [_ ?]].
Qed.

(** Steps (6) and (7) together. *)
Lemma watch_traces script lc Date_parse toISOString org node contract c topology now st t r :
  traces (watch_cluster script lc Date_parse toISOString org node contract c topology now st) t r ->
  exists lag t1 t2, t = t1 ++ t2 /\ lag_from org c t1 lag /\ lag_stamps (changes t1) /\
    traces (if contract then maybePromote script lc Date_parse toISOString org node c topology lag now st else Ret st) t2 r.
Proof.
  unfold watch_cluster. intros [(e & H & ->)|(lag & t1 & t2 & -> & H & Hr)]%traces_bind.
  - apply traces_catch in H as [(a & _ & ?)|(x & ? & ? & _ & _ & [_ ?])]; done.
  - exists lag, t1, t2. split; [done|]. apply traces_catch in H as [(a & H & [= <-])|(x & t3 & t4 & -> & H & [-> [= ->]])].
    + apply measure_from in H as [H1 H2]. by split.
    + split; [apply no_lag_from|]. split; [|done]. rewrite changes_app, (measure_thrown _ _ _ _ _ H). constructor.
Qed.

(** * The worker over passes *)

Record Pass := { ps_cluster : Cluster; ps_topology : DbTopology; ps_now : Z; ps_trace : list (event effect) }.

Section passes.
Context (script : string) (lc : string -> string -> Z) `{!Comparator lc} (Date_parse : string -> option Z) (toISOString : Z -> string) (org node : string).

(** Passes over one cluster by a worker that was just started, with what it remembers
    after them: any number, each with any answers. *)
Inductive watched : list Pass -> PgWatch -> Prop :=
  | W_start : watched [] first_watch
  | W_pass h st p st' : watched h st ->
      traces (watch_cluster script lc Date_parse toISOString org node true (ps_cluster p) (ps_topology p) (ps_now p) st) (ps_trace p) (inl st') ->
      watched (h ++ [p]) st'.

Definition pass_tick (p : Pass) (k : Tick) : Prop :=
  exists lag ok, lag_from org (ps_cluster p) (ps_trace p) lag /\ k = tick_of Date_parse (ps_cluster p) (ps_topology p) lag (ps_now p) ok.

Lemma watched_ticks h st : watched h st -> exists ks, Forall2 pass_tick h ks /\ pw_watch st = watch lc ks.
Proof using Type*.
  induction 1 as [|h st p st' _ (ks & Hks & Hw) (lag & t1 & t2 & Et & Hlag & _ & Ht)%watch_traces]; [by exists []|].
  apply maybePromote_exact in Ht as (st2 & [= <-] & ok & out & Hm & _); [|done].
  exists (ks ++ [tick_of Date_parse (ps_cluster p) (ps_topology p) lag (ps_now p) ok]). split.
  - apply Forall2_app; [done|]. constructor; [|constructor]. exists lag, ok. split; [|done]. rewrite Et. by apply lag_from_more.
  - unfold watch. rewrite foldl_app. simpl. fold (watch lc ks). by rewrite <- Hw, Hm.
Qed.

(** The primary of the pass was healthy, in a topology that fails over. *)
Definition pass_healthy (p : Pass) : bool := gated (failover_topology (ps_topology p)) && healthy_primary (ps_cluster p).

(** In the pass the primary answered that it had flushed up to [l]. *)
Definition flushed (p : Pass) (l : string) : Prop :=
  exists m out, cl_primary (ps_cluster p) = Some m /\ ran org m (psql PRIMARY_LSN_SQL) out (ps_trace p) /\ head (lines (trim out)) = Some l.

(** A replica that has replayed what the primary was last known to have flushed. *)
Definition proven_caught_up (h : list Pass) (m : Member) (t : list (event effect)) : Prop :=
  exists pre last post sample l r out secs, h = pre ++ last :: post /\ pass_healthy last = true /\ Forall (fun p => pass_healthy p = false) post /\
    sample ∈ pre ++ [last] /\ pass_healthy sample = true /\ flushed sample l /\ ps_now last - ps_now sample <= 20000 /\
    ran org m (psql LAG_SQL) out t /\ parseLagOutput out = Some (secs, Some r) /\ caught_up l r.

(** An admin confirmed the promotion, and accepted what the replica trails by. *)
Definition confirmed_by_admin (c : Cluster) (st : PgWatch) (m : Member) (t : list (event effect)) : Prop :=
  exists conf, parseFailoverConfirmation (first_text DB_FAILOVER_CONFIRM_LABEL (handshakeHolders c)) = Some conf /\ cf_target conf = mb_name m /\
    match cf_acceptBehindBytes conf with
    | None => True
    | Some a => exists l b r out secs, watermark (pw_watch st) = Some l /\ ran org m (psql LAG_SQL) out t /\ parseLagOutput out = Some (secs, Some r) /\
                  behindWatermarkBytes (wm_lsn l) r = Some b /\ (inject_Z b <= a)%Q
    end.

(** The primary was unhealthy in this pass and, unless the switch was asked for, in the two before. *)
Definition grace_over (h : list Pass) (c : Cluster) (now : Z) : Prop :=
  switchoverRequested Date_parse (default [] (mb_labels <$> cl_primary c)) now = true \/
  exists pre a b, h = pre ++ [a; b] /\ healthy_primary (ps_cluster a) = false /\ healthy_primary (ps_cluster b) = false.

(** What entitles a pass to make [m] the primary. *)
Definition entitled (h : list Pass) (st : PgWatch) (c : Cluster) (now : Z) (m : Member) (t : list (event effect)) : Prop :=
  m ∈ replicaMembers c /\ 0 < running m /\ healthy_primary c = false /\ grace_over h c now /\
  (confirmed_by_admin c st m t \/ proven_caught_up h m t).

(** No role label is moved. *)
Definition keeps_roles (ch : list change) : Prop :=
  forall name add rm, Labelled node name add rm ∈ ch -> (DB_ROLE_LABEL, "primary") ∉ add.

(** ** Lemmas *)

Lemma promoted_inv w tk w' target b s k : Failover.maybePromote lc w tk = (w', Promoted (D_promote target b s k)) ->
  gated (tk_topology tk) = true /\ tk_healthy tk = false /\ tk_promotes tk = true /\ w' = no_watch /\
  (tk_planned tk = true \/ promotionDue (unhealthyTicks w + 1) = true) /\
  promote_ok (decide_input {| unhealthyTicks := unhealthyTicks w + 1; watermark := watermark w; lastHealthyAt := lastHealthyAt w |} tk) target b k.
Proof using Type*.
  intros H. destruct (gated (tk_topology tk)) eqn:Eg; [|by unfold Failover.maybePromote in H; rewrite Eg in H].
  destruct (tk_healthy tk) eqn:Eh; [by unfold Failover.maybePromote in H; rewrite Eg, Eh in H|].
  rewrite unhealthy_step in H by done. cbv zeta in H. destruct (negb (tk_planned tk) && _) eqn:Ed; [done|].
  set (i := decide_input _ _) in *. pose proof (decide_cases lc i) as Hc. destruct (decideFailover lc i) as [| |t' b' s' k'|]; try done.
  destruct (tk_promotes tk); [|done]. injection H as <- <- <- <- <-. split_and!; [done..| |done].
  destruct (tk_planned tk), (promotionDue (unhealthyTicks w + 1)); auto.
Qed.

Lemma flips c topology now out name add rm : Labelled node name add rm ∈ outcome_changes script toISOString node c topology now out ->
  (DB_ROLE_LABEL, "primary") ∈ add -> exists b s k, out = Promoted (D_promote name b s k).
Proof using Type.
  assert (Hclear : Labelled node name add rm ∈ cleared node c -> (DB_ROLE_LABEL, "primary") ∈ add -> False).
  { intros (m & [= -> -> ->] & _)%list_elem_of_fmap. by intros ?%not_elem_of_nil. }
  intros H Ha. destruct out as [|d|d|d]; simpl in H.
  - destruct (_ && _); [by apply not_elem_of_nil in H|by destruct (Hclear H Ha)].
  - destruct d as [| | |target b s reason]; try by apply not_elem_of_nil in H. exfalso. revert H. unfold held_label. cbv zeta.
    destruct (match cl_primary c with Some p => Some p | None => _ end); [|by intros ?%not_elem_of_nil].
    destruct (pendingChanged _ _ _ _); [|by intros ?%not_elem_of_nil]. intros [= -> -> ->]%list_elem_of_singleton.
    by apply list_elem_of_singleton in Ha.
  - by apply not_elem_of_nil in H.
  - destruct d as [| |target b s k|]; try by apply not_elem_of_nil in H. unfold proclaimed in H. rewrite !elem_of_app in H.
    destruct H as [[= -> -> ->]%list_elem_of_singleton|[H|[H|H]]]; [by exists b, s, k|exfalso..].
    + apply list_elem_of_fmap in H as (x & [= -> -> ->] & _). apply elem_of_cons in Ha as [?|Ha]; [done|].
      destruct (fst x); [by apply list_elem_of_singleton in Ha|by apply not_elem_of_nil in Ha].
    + by apply list_elem_of_fmap in H as (m & ? & _).
    + by destruct (Hclear H Ha).
Qed.

Lemma stamps_no_role ch name add rm : lag_stamps ch -> Labelled node name add rm ∈ ch -> (DB_ROLE_LABEL, "primary") ∈ add -> False.
Proof using Type. intros H Hin Ha. unfold lag_stamps in H. rewrite Forall_forall in H. by specialize (H _ Hin _ _ Ha). Qed.

(** What Failover.v knows of a tick, of its pass. *)
Lemma tick_pass p k : pass_tick p k -> seen_healthy k = pass_healthy p /\ tk_healthy k = healthy_primary (ps_cluster p) /\ tk_now k = ps_now p /\
  forall l, tk_primaryLsn k = Some l -> flushed p l.
Proof using Type. intros (lag & ok & [Hl _] & ->). split_and!; [done..|]. exact Hl. Qed.

Lemma ticks_pass h ks : Forall2 pass_tick h ks -> Forall (fun k => seen_healthy k = false) ks -> Forall (fun p => pass_healthy p = false) h.
Proof using Type. induction 1 as [|p k h ks (E & _)%tick_pass]; inversion 1; constructor; [congruence|auto]. Qed.

Lemma pass_of h ks k : Forall2 pass_tick h ks -> k ∈ ks -> exists p, p ∈ h /\ pass_tick p k.
Proof using Type.
  induction 1 as [|p k' h ks Hp _ IH]; [by intros ?%not_elem_of_nil|]. intros [->|(p' & Hp' & Hk)%IH]%elem_of_cons; [exists p|exists p'];
    (split; [|done]); [by left|by right].
Qed.

Lemma grace_of h ks c topology lag now ok : Forall2 pass_tick h ks ->
  tk_planned (tick_of Date_parse c topology lag now ok) = true \/ promotionDue (unhealthyTicks (watch lc ks) + 1) = true -> grace_over h c now.
Proof using Type.
  intros Hk [Hp|Hd]; [by left|right]. apply (grace_passed _ _ (watch_correct lc ks)) in Hd as (pre & a & b & -> & Ha & Hb).
  apply Forall2_app_inv_r in Hk as (h1 & h2 & _ & Hk & ->). inversion Hk as [|p ? l ? (_ & Ep & _)%tick_pass Hk']. subst.
  inversion Hk' as [|q ? l' ? (_ & Eq & _)%tick_pass Hk'']. subst. inversion Hk''. subst. exists h1, p, q. split_and!; congruence.
Qed.

(** What a replica replayed, of the sample its candidate carries. *)
Lemma replayed_by c t lag m r : lag_from org c t lag -> NoDup (map mb_name (replicaMembers c)) -> m ∈ replicaMembers c ->
  get (mb_name m) (lg_members lag) ≫= ml_replayLsn = Some r ->
  exists out secs, ran org m (psql LAG_SQL) out t /\ parseLagOutput out = Some (secs, Some r).
Proof using Type.
  intros [_ Hl] Hd Hm (x & Hx & Hr)%bind_Some. destruct (Hl _ _ Hx) as (m' & out & Hm' & En & Hran & Hp).
  rewrite (map_key_inj mb_name _ _ _ Hd Hm' Hm En) in *. exists out, (ml_lagSeconds x). by rewrite Hp, Hr.
Qed.

Lemma proven_of h ks c topology lag now ok t m i : Forall2 pass_tick h ks -> lag_from org c t lag ->
  NoDup (map mb_name (replicaMembers c)) -> m ∈ replicaMembers c -> fc_replayLsn i = get (mb_name m) (lg_members lag) ≫= ml_replayLsn ->
  proven (decide_input {| unhealthyTicks := unhealthyTicks (watch lc ks) + 1; watermark := watermark (watch lc ks); lastHealthyAt := lastHealthyAt (watch lc ks) |}
            (tick_of Date_parse c topology lag now ok)) i -> proven_caught_up h m t.
Proof using Type.
  intros Hk Hlag Hd Hm Er (wm & at_ & r & Ew & Eat & Ei & Hgap & Hcu). simpl in Ew, Eat.
  destruct (replayed_by c t lag m r Hlag Hd Hm) as (out & secs & Hran & Hout); [congruence|].
  destruct (watch_correct lc ks) as [_ Hh]. rewrite Eat in Hh. destruct Hh as (k & upto & (pre & post & -> & -> & Hkh & Hpost) & <- & Hsam).
  destruct (Hsam _ Ew) as (k' & Hin & Hkh' & Hl & Hnow). apply Forall2_app_inv_r in Hk as (h1 & h2 & H1 & Hk & ->).
  inversion Hk as [|p ? l2 ? Hp H2]. subst. destruct (pass_of (h1 ++ [p]) (pre ++ [k]) k') as (q & Hq & Hqk); [by apply Forall2_app; [|repeat constructor]|done|].
  apply tick_pass in Hp as (Ep & _ & Epn & _), Hqk as (Eq & _ & Eqn & Hfl).
  exists h1, p, l2, q, (wm_lsn wm), r, out, secs. split_and!; try done; [congruence|by eapply ticks_pass|congruence|by apply Hfl|].
  rewrite <- Epn, <- Eqn, Hnow. exact Hgap.
Qed.

Lemma confirmed_of st ks c topology lag now ok t m b : pw_watch st = watch lc ks -> lag_from org c t lag ->
  NoDup (map mb_name (replicaMembers c)) -> m ∈ replicaMembers c ->
  promote_ok (decide_input {| unhealthyTicks := unhealthyTicks (watch lc ks) + 1; watermark := watermark (watch lc ks); lastHealthyAt := lastHealthyAt (watch lc ks) |}
                (tick_of Date_parse c topology lag now ok)) (mb_name m) b true -> confirmed_by_admin c st m t.
Proof using Type.
  intros Ew Hlag Hd Hm (_ & i & (Hi & _ & Hs) & En & conf & Hc & Ht & Ha). simpl in Hi, Hc. exists conf. split_and!; [done..|].
  destruct (cf_acceptBehindBytes conf) as [a|]; [|done]. destruct Ha as (z & -> & Hz).
  apply candidate_member in Hi as (m' & Hm' & En' & _ & Er). rewrite En in En'. rewrite (map_key_inj mb_name _ _ _ Hd Hm' Hm En') in Er.
  unfold score in Hs. simpl in Hs. rewrite Ew. destruct (watermark (watch lc ks)) as [wm|], (fc_replayLsn i) as [r|] eqn:Ei; try done.
  destruct (replayed_by c t lag m r Hlag Hd Hm) as (out & secs & Hran & Hout); [congruence|].
  exists wm, z, r, out, secs. split_and!; try done. by destruct (_ && _) in Hs.
Qed.
Lemma entitled_of h ks st c topology lag now ok w' target b s k t m : Forall2 pass_tick h ks -> pw_watch st = watch lc ks -> lag_from org c t lag ->
  NoDup (map mb_name (replicaMembers c)) -> m ∈ replicaMembers c -> mb_name m = target ->
  Failover.maybePromote lc (pw_watch st) (tick_of Date_parse c topology lag now ok) = (w', Promoted (D_promote target b s k)) ->
  entitled h st c now m t.
Proof using Type*.
  intros Hk Ew Hlag Hd Hm <- H. rewrite Ew in H. apply promoted_inv in H as (_ & Hu & _ & _ & Hgr & Hok).
  pose proof Hok as (_ & i & (Hi & Hrun & _) & En & Hwhy). simpl in Hi. apply candidate_member in Hi as (m' & Hm' & En' & Er & El). rewrite En in En'.
  rewrite (map_key_inj mb_name _ _ _ Hd Hm' Hm En') in Er, El. split_and!; [done|congruence|done|by eapply grace_of|].
  destruct k; [left; by eapply confirmed_of|right]. destruct Hwhy as [_ Hp]. by eapply proven_of.
Qed.

Lemma no_roles t : lag_stamps (changes t) -> keeps_roles (changes t).
Proof using Type. intros H name add rm Hin Ha. by eapply stamps_no_role. Qed.

(** C15: the reconcile worker over the passes of a cluster, from its start. When a
    pass labels a replica as the primary, the topology fails over, the primary was
    not healthy in this pass nor, unless the switch was asked for, in the two
    before, and the replica runs. Either an admin confirmed that replica and any
    known gap is within what was accepted, or the replica printed, in this pass,
    that it has replayed all that the primary printed as flushed in the last pass
    that sampled it, at most 20 seconds before the last healthy one. Before the
    label moves, the replica was promoted by its own server, and then answered
    that it is out of recovery. *)
Theorem promotion_justified h st c topology now t st' name add rm :
  watched h st ->
  traces (watch_cluster script lc Date_parse toISOString org node true c topology now st) t (inl st') ->
  NoDup (map mb_name (replicaMembers c)) ->
  Labelled node name add rm ∈ changes t -> (DB_ROLE_LABEL, "primary") ∈ add ->
  gated (failover_topology topology) = true /\ pw_watch st' = no_watch /\
  exists m t1 t2, mb_name m = name /\ entitled h st c now m t /\ t = t1 ++ t2 /\ keeps_roles (changes t1) /\ writes_now org m t1.
Proof using Type*.
  intros (ks & Hk & Ew)%watched_ticks (lag & ta & tb & -> & Hlag & Hst & Ht)%watch_traces Hd Hin Ha.
  apply maybePromote_exact in Ht as (st2 & [= <-] & ok & out & Hm & Hc & Hok); [|done].
  rewrite changes_app, Hc in Hin. apply elem_of_app in Hin as [Hin|Hin]; [by destruct (stamps_no_role _ _ _ _ Hst Hin Ha)|].
  apply flips in Hin as (b & s & k & ->); [|done]. pose proof Hm as (Hg & _ & Hpr & Hw & _)%promoted_inv. split_and!; [done|done|].
  destruct (Hok Hpr) as (m & target & b' & s' & k' & t1 & t2 & [= <- <- <- <-] & Hmem & En & -> & Hwr & Hq). exists m, (ta ++ t1), t2.
  split_and!; [done|exact (entitled_of _ _ _ _ _ _ _ _ _ _ _ _ _ _ _ Hk Ew (lag_from_more _ _ _ _ _ Hlag) Hd Hmem En Hm)|by rewrite app_assoc| |by apply writes_later].
  rewrite changes_app, Hq, app_nil_r. by apply no_roles.
Qed.
(** C13: a pass of the worker always ends, and refines the worker of Failover.v. After
    any passes the worker remembers what Failover.v does after ticks made of what the
    containers printed in them; the next pass first stamps lags only, then takes the
    step of Failover.v, remembers its state, and makes exactly the changes of its
    outcome: none while waiting, the label of a held failover, the roles and the
    members that follow the new writer, or the removal of the handshake. *)
Theorem pass_refines_failover h st c topology now t r :
  watched h st ->
  traces (watch_cluster script lc Date_parse toISOString org node true c topology now st) t r ->
  exists ks st' lag ok out t1 t2, Forall2 pass_tick h ks /\ r = inl st' /\ t = t1 ++ t2 /\
    lag_from org c t1 lag /\ lag_stamps (changes t1) /\
    Failover.maybePromote lc (watch lc ks) (tick_of Date_parse c topology lag now ok) = (pw_watch st', out) /\
    changes t2 = outcome_changes script toISOString node c topology now out.
Proof using Type*.
  intros (ks & Hk & Ew)%watched_ticks (lag & t1 & t2 & -> & Hlag & Hst & Ht)%watch_traces.
  apply maybePromote_exact in Ht as (st' & -> & ok & out & Hm & Hc & _); [|done]. rewrite Ew in Hm. by exists ks, st', lag, ok, out, t1, t2.
Qed.
End passes.

(** * A cluster whose primary fails *)

Definition pg_node (running : Z) (name : string) (labels : entries) : Member :=
  let m := db_member name labels [] [data_on "pg" MANAGED_PG_ROOT] in
  {| mb_id := mb_id m; mb_name := name; mb_image := mb_image m; mb_labels := mb_labels m; mb_env := []; mb_networks := mb_networks m;
     mb_secrets := []; mb_configs := []; mb_mounts := mb_mounts m; mb_desired := Some 1; mb_running := Some running |}.

(** The primary runs [n] tasks, and its replica one. *)
Definition pg_pair (n : Z) : Cluster :=
  cluster_of [pg_node n "shop_main-primary" [(DB_ROLE_LABEL, "primary"); (DB_DATA_VOLUME_LABEL, "pg")];
    pg_node 1 "shop_main-r1" [(DB_ROLE_LABEL, "replica"); (DB_DATA_VOLUME_LABEL, "pg")]].

Definition pg_container (id service : string) : ContainerInfo := {| ci_id := id; ci_serviceId := Some service; ci_labels := []; ci_state := "running" |}.

(** What the containers of the pair print; the replica has replayed everything. *)
Definition pg_prints (container script : string) : string :=
  if String.eqb container "c1" then "16/B374D848"
  else if includes "xact_replay" script then "0.5|16/B374D848" else if includes "pg_promote" script then "t" else "f".

Definition pg_answer : nat -> forall X, effect X -> X + failure := fun n X e =>
  match e in effect X return X + failure with
  | ReadTasks _ => inl {| ot_orgContainers := ["c1"; "c2"]; ot_online :=
      [{| ln_nodeId := "agent1"; ln_swarmNodeId := Some "n1"; ln_containers :=
            [pg_container "c1" "id-shop_main-primary"; pg_container "c2" "id-shop_main-r1"] |}] |}
  | Exec _ container argv => inl (0, pg_prints container (List.last argv ""))
  | e => yes n _ e
  end.

Definition pg_watched (n now : Z) (st : PgWatch) : program PgWatch :=
  watch_cluster "boot" str_cmp (fun _ => None) (fun _ => "2026-01-01T00:00:00.000Z") "org" "m1" true (pg_pair n) t_failover now st.

Definition pg_trace (n now : Z) (st : PgWatch) : list (event effect) := fst (run pg_answer 0 (pg_watched n now st)).
Definition pg_next (n now : Z) (st : PgWatch) : PgWatch := match snd (run pg_answer 0 (pg_watched n now st)) with inl st' => st' | inr _ => st end.

(** Healthy once, then not. *)
Definition pg_clock : list (Z * Z) := [(1, 1000); (0, 16000); (0, 31000)].
Definition pg_states : list PgWatch := foldl (fun l x => l ++ [pg_next (fst x) (snd x) (List.last l first_watch)]) [first_watch] pg_clock.
Definition pg_state (k : nat) : PgWatch := nth k pg_states first_watch.

Definition pg_history : list Pass :=
  map (fun x => {| ps_cluster := pg_pair (fst (snd x)); ps_topology := t_failover; ps_now := snd (snd x);
                   ps_trace := pg_trace (fst (snd x)) (snd (snd x)) (pg_state (fst x)) |}) (combine (seq 0 3) pg_clock).

Definition now_primary : change := Labelled "m1" "shop_main-r1" [(DB_ROLE_LABEL, "primary"); (DB_LEADER_LABEL, "shop_main-r1")] [].

Notation pg_seen := (watched "boot" str_cmp (fun _ => None) (fun _ => "2026-01-01T00:00:00.000Z") "org" "m1").

(** A pass that the answers above end. *)
Lemma pg_pass_seen h n now st : pg_seen h st -> match snd (run pg_answer 0 (pg_watched n now st)) with inl _ => True | inr _ => False end ->
  pg_seen (h ++ [{| ps_cluster := pg_pair n; ps_topology := t_failover; ps_now := now; ps_trace := pg_trace n now st |}]) (pg_next n now st).
Proof.
  intros Hh Hr. apply (W_pass _ _ _ _ _ _ h st _ _ Hh). simpl. pose proof (run_traces pg_answer 0 (pg_watched n now st)) as H.
  unfold pg_next, pg_trace. by destruct (snd (run _ _ _)).
Qed.

Lemma pg_history_seen : pg_seen pg_history (pg_state 3).
Proof.
  apply (pg_pass_seen (firstn 2 pg_history) 0 31000 (pg_state 2)); [|by vm_compute].
  apply (pg_pass_seen (firstn 1 pg_history) 0 16000 (pg_state 1)); [|by vm_compute].
  apply (pg_pass_seen [] 1 1000 first_watch); [constructor|by vm_compute].
Qed.

Lemma pg_last_pass : traces (pg_watched 0 46000 (pg_state 3)) (pg_trace 0 46000 (pg_state 3)) (inl (pg_next 0 46000 (pg_state 3))).
Proof.
  pose proof (run_traces pg_answer 0 (pg_watched 0 46000 (pg_state 3))) as H.
  replace (snd (run pg_answer 0 (pg_watched 0 46000 (pg_state 3)))) with (inl (B := failure) (pg_next 0 46000 (pg_state 3))) in H by (vm_compute; reflexivity).
  exact H.
Qed.

Lemma promotion_justified_witness : exists m, m ∈ replicaMembers (pg_pair 0) /\ mb_name m = "shop_main-r1" /\
  grace_over (fun _ => None) pg_history (pg_pair 0) 46000 /\ now_primary ∈ changes (pg_trace 0 46000 (pg_state 3)).
Proof.
  assert (Hin : now_primary ∈ changes (pg_trace 0 46000 (pg_state 3))) by (apply list_elem_of_lookup; exists 1%nat; vm_compute; reflexivity).
  destruct (promotion_justified "boot" str_cmp (fun _ => None) (fun _ => "2026-01-01T00:00:00.000Z") "org" "m1" pg_history (pg_state 3) (pg_pair 0) t_failover 46000
    (pg_trace 0 46000 (pg_state 3)) (pg_next 0 46000 (pg_state 3)) "shop_main-r1" [(DB_ROLE_LABEL, "primary"); (DB_LEADER_LABEL, "shop_main-r1")] []
    pg_history_seen pg_last_pass) as (_ & _ & m & _ & _ & En & (Hm & _ & _ & Hg & _) & _); [|exact Hin|left|by exists m].
  apply (bool_decide_eq_true_1 (NoDup (map mb_name (replicaMembers (pg_pair 0))))). vm_compute. reflexivity.
Defined.

Lemma pass_refines_failover_witness : exists ks st' lag ok out t1 t2, length ks = 3%nat /\
  inl (B := failure) (pg_next 0 46000 (pg_state 3)) = inl st' /\ pg_trace 0 46000 (pg_state 3) = t1 ++ t2 /\
  Failover.maybePromote str_cmp (watch str_cmp ks) (tick_of (fun _ => None) (pg_pair 0) t_failover lag 46000 ok) = (pw_watch st', out) /\
  changes t2 = outcome_changes "boot" (fun _ => "2026-01-01T00:00:00.000Z") "m1" (pg_pair 0) t_failover 46000 out.
Proof.
  destruct (pass_refines_failover "boot" str_cmp (fun _ => None) (fun _ => "2026-01-01T00:00:00.000Z") "org" "m1" pg_history (pg_state 3) (pg_pair 0) t_failover 46000
    (pg_trace 0 46000 (pg_state 3)) (inl (pg_next 0 46000 (pg_state 3))) pg_history_seen pg_last_pass) as (ks & st' & lag & ok & out & t1 & t2 & Hk & E & Et & _ & _ & Hm & Hc).
  exists ks, st', lag, ok, out, t1, t2. split; [|by repeat (split; [assumption|])]. symmetry. exact (Forall2_length _ _ _ Hk).
Defined.

(** The call that labels the new primary fails, and nothing else does. *)
Definition label_lost : nat -> forall X, effect X -> X + failure := fun n X e =>
  match e in effect X return X + failure with
  | ServiceUpdateLabels _ name add _ => if String.eqb name "shop_main-r1" && bool_decide (is_Some (get DB_ROLE_LABEL add)) then inr (Failed "timeout") else inl tt
  | e => pg_answer n _ e
  end.

(** The replica then still bears the role of a replica although it writes; the primary
    that was is made a replica all the same, and the episode is forgotten. *)
Example lost_label_leaves_no_primary :
  let t := run label_lost 0 (pg_watched 0 46000 (pg_state 3)) in
  existsb (fun ev => match ev with Event (ServiceUpdateLabels _ name add _) (inr _) => String.eqb name "shop_main-r1" && mem "primary" (map snd add) | _ => false end) (fst t) = true /\
  Labelled "m1" "shop_main-primary" [(DB_LEADER_LABEL, "shop_main-r1"); (DB_ROLE_LABEL, "replica")] [] ∈ changes (fst t) /\ snd t = inl first_watch.
Proof. split; [vm_compute; reflexivity|split; [|vm_compute; reflexivity]]. apply list_elem_of_lookup. exists 2%nat. vm_compute. reflexivity. Qed.
