(* ===== verification/PgIntent.v ===== *)
(** What the reconcile worker of managed Postgres achieves over passes
    (apps/api/src/workers/manageddb-pitr.core.ts, manageddb-reconcile.core.ts): backup
    intent moves onto the live primary without being lost on the way, the storage layout
    settles, and the cases in which a pass works against itself. *)

From S2P Require Import Prelude Comparators Json JsonText KvCodec Doubles NetPolicy ServiceSpec SecretEnv SpecRead Effects ServicePatch PgMembers PgPlacement PgReconcile.

(** * The labels of running services *)

(** [updateServiceLabels] of docker.ts: add, then delete. *)
Definition updateServiceLabels (add : entries) (removeKeys : list string) (labels : entries) : entries :=
  drop_names removeKeys (assign labels add).

(** One call: an update that succeeded was made, one that failed may have been. *)
Definition label_event (ev : event effect) (live live' : gmap string entries) : Prop :=
  match change_of ev with
  | Some (Labelled _ name add rm) =>
      live' = alter (updateServiceLabels add rm) name live \/ (succeeded ev = false /\ live' = live)
  | _ => live' = live
  end.

Inductive label_run : gmap string entries -> list (event effect) -> gmap string entries -> Prop :=
  | LR_nil live : label_run live [] live
  | LR_cons live ev t live' live'' : label_event ev live live' -> label_run live' t live'' -> label_run live (ev :: t) live''.

(** * What the primary's intent becomes *)

(** The donor's schedule replaces an automatic one, or its opt-out removes it. *)
Definition overrides (h : string -> option string) (d : entries) : bool :=
  isAutoSchedule (h DB_BACKUP_SCHEDULE_LABEL) && bool_decide (is_Some (get DB_BACKUP_SCHEDULE_LABEL d)) &&
  negb (isAutoSchedule (get DB_BACKUP_SCHEDULE_LABEL d)).

Definition opts_out (h : string -> option string) (d : entries) : bool :=
  isAutoSchedule (h DB_BACKUP_SCHEDULE_LABEL) && bool_decide (get DB_BACKUP_AUTO_LABEL d = Some "off") &&
  bool_decide (get DB_BACKUP_SCHEDULE_LABEL d = None).

Definition rehomed (k v : string) : string := if String.eqb k DB_BACKUP_SCHEDULE_LABEL then rehomeScheduleLabel v else v.

(** What is held wins, and otherwise the donor's label is taken; a schedule and its
    recovery flag are the donor's when the schedule held is only the default. *)
Definition intent_step (h : string -> option string) (d : Member) (k : string) : option string :=
  if (overrides h (mb_labels d) || opts_out h (mb_labels d)) && schedule_group k then rehomed k <$> get k (mb_labels d)
  else match h k with Some v => Some v | None => rehomed k <$> get k (mb_labels d) end.

(** The intent of the primary and of the donors, taken in their order. *)
Definition intent_of (p : Member) (donors : list Member) : string -> option string :=
  foldl intent_step (fun k => get k (mb_labels p)) donors.

(** ** The fold *)

(** The label that the plan leaves on a primary with labels [L]. *)
Definition planned (L : entries) (c : Carry) (k : string) : option string :=
  match get k (ca_add c) with Some v => Some v | None => if mem k (ca_remove c) then None else get k L end.

(** What is held is what will be written over what there was; of the recovery flag
    this is known only in one direction unless [exact]. *)
Definition tracks (exact : bool) (L : entries) (c : Carry) : Prop :=
  NoDup (map fst (ca_add c)) /\
  forall k, (k <> DB_BACKUP_PITR_LABEL \/ exact = true -> get k (ca_have c) = planned L c k) /\
            (forall v, get k (ca_have c) = Some v -> planned L c k = Some v).

Lemma tracks_take b L donor ov c k : tracks b L c -> tracks b L (take_label donor ov c k).
Proof.
  intros [Hd Hc]. unfold take_label. destruct (get k donor); [|done]. case_match; [done|]. split; simpl; [by apply obj_set_NoDup|].
  intros x. unfold planned. simpl. rewrite !get_obj_set. destruct (String.eqb x k); [done|]. apply Hc.
Qed.

Lemma tracks_takes b L donor ov ks c : tracks b L c -> tracks b L (foldl (take_label donor ov) c ks).
Proof. revert c. induction ks as [|k ks IH]; intros c Hc; simpl; [done|]. by apply IH, tracks_take. Qed.

Lemma obj_del_NoDup {A} k (m : list (string * A)) : NoDup (map fst m) -> NoDup (map fst (obj_del k m)).
Proof.
  unfold obj_del. induction m as [|[x v] m IH]; simpl; [done|]. intros [Hx Hm]%NoDup_cons. destruct (String.eqb x k); simpl; [by apply IH|].
  apply NoDup_cons. split; [|by apply IH]. intros Hin. apply Hx. apply list_elem_of_fmap in Hin as ([y w] & -> & Hin).
  apply bfilter_elem in Hin as [Hin _]. apply list_elem_of_fmap. by exists (y, w).
Qed.

Lemma tracks_opt_out b L c k : tracks b L c -> tracks b L (opt_out c k).
Proof.
  intros [Hd Hc]. unfold opt_out. destruct (get k (ca_have c)); [|done]. split; simpl; [by apply obj_del_NoDup|].
  intros x. unfold planned. simpl. rewrite !get_obj_del. unfold mem. rewrite existsb_app. simpl. rewrite orb_false_r.
  destruct (String.eqb x k); [rewrite orb_true_r; done|rewrite orb_false_r; apply Hc].
Qed.

Lemma opt_out_adds c k : ca_add c = [] -> ca_add (opt_out c k) = [].
Proof. intros H. unfold opt_out. destruct (get k (ca_have c)); simpl; by rewrite H. Qed.

Lemma opt_out_have c k x : get x (ca_have (opt_out c k)) = if String.eqb x k then None else get x (ca_have c).
Proof.
  unfold opt_out. destruct (get k (ca_have c)) eqn:E; [apply get_obj_del|]. by destruct (String.eqb_spec x k) as [->|].
Qed.

Lemma take_have donor ov c k x : get x (ca_have (take_label donor ov c k)) =
  if String.eqb x k then
    match get k donor with
    | Some v => if bool_decide (is_Some (get k (ca_have c))) && negb (ov && schedule_group k) then get k (ca_have c) else Some (rehomed k v)
    | None => get k (ca_have c)
    end
  else get x (ca_have c).
Proof.
  unfold take_label, rehomed. destruct (String.eqb_spec x k) as [->|Hx]; destruct (get k donor) as [v|]; try done.
  - case_match; [done|]. simpl. by rewrite get_obj_set, String.eqb_refl.
  - case_match; [done|]. simpl. rewrite get_obj_set. by apply String.eqb_neq in Hx as ->.
Qed.

Lemma take_other donor ov c k x : x <> k -> get x (ca_have (take_label donor ov c k)) = get x (ca_have c).
Proof. intros H. rewrite take_have. by apply String.eqb_neq in H as ->. Qed.

Lemma takes_have donor ov ks c x : NoDup ks -> get x (ca_have (foldl (take_label donor ov) c ks)) =
  if mem x ks then get x (ca_have (take_label donor ov c x)) else get x (ca_have c).
Proof.
  revert c. induction ks as [|k ks IH]; intros c Hd; simpl; [done|]. apply NoDup_cons in Hd as [Hk Hd]. rewrite IH by done.
  unfold mem at 2. simpl. fold (mem x ks). destruct (String.eqb_spec x k) as [->|Hx]; simpl.
  - apply mem_false in Hk as ->. done.
  - pose proof (take_other donor ov c k x Hx) as E. destruct (mem x ks); [|exact E].
    by rewrite (take_have donor ov (take_label donor ov c k) x x), (take_have donor ov c x x), E.
Qed.

(** A label that the donor has not is not added. *)
Lemma takes_add donor ov ks c k : get k donor = None -> get k (ca_add (foldl (take_label donor ov) c ks)) = get k (ca_add c).
Proof.
  intros Hk. revert c. induction ks as [|x ks IH]; intros c; simpl; [done|]. rewrite IH. unfold take_label.
  destruct (get x donor) as [v|] eqn:E; [|done]. case_match; [done|]. simpl. rewrite get_obj_set.
  destruct (String.eqb_spec k x) as [->|]; [by rewrite Hk in E|done].
Qed.

Lemma intents_distinct : NoDup BACKUP_INTENT_LABELS.
Proof. unfold BACKUP_INTENT_LABELS. distinct_keys. Qed.

(** The three stages for one donor: its opt-out, its labels, the stale flag. *)
Definition after_opt_out (c : Carry) (d : entries) : Carry :=
  if opts_out (fun k => get k (ca_have c)) d then foldl opt_out c [DB_BACKUP_SCHEDULE_LABEL; DB_BACKUP_PITR_LABEL] else c.

Definition after_takes (c : Carry) (d : entries) : Carry :=
  foldl (take_label d (overrides (fun k => get k (ca_have c)) d)) (after_opt_out c d) BACKUP_INTENT_LABELS.

Definition stale_flag (c : Carry) (d : entries) : bool :=
  overrides (fun k => get k (ca_have c)) d && bool_decide (get DB_BACKUP_PITR_LABEL d = None) &&
  bool_decide (is_Some (get DB_BACKUP_PITR_LABEL (ca_have (after_takes c d)))).

Lemma carry_from_stages c d : carry_from c d =
  if stale_flag c d then
    {| ca_have := obj_del DB_BACKUP_PITR_LABEL (ca_have (after_takes c d)); ca_add := ca_add (after_takes c d);
       ca_remove := ca_remove (after_takes c d) ++ [DB_BACKUP_PITR_LABEL] |}
  else after_takes c d.
Proof. reflexivity. Qed.

Lemma tracks_stages b L c d : tracks b L c -> tracks b L (after_takes c d).
Proof.
  intros H. apply tracks_takes. unfold after_opt_out. destruct (opts_out _ _); [|done]. simpl. by apply tracks_opt_out, tracks_opt_out.
Qed.

(** Only the removal of a stale flag can lose track, of a flag that an earlier donor
    has added. *)
Lemma tracks_carry b L c d : tracks b L c -> b = false \/ ca_add c = [] -> tracks b L (carry_from c d).
Proof.
  intros Hc Hb. pose proof (tracks_stages b L c d Hc) as [Hd Ht]. rewrite carry_from_stages. destruct (stale_flag c d) eqn:Es; [|done].
  split; [done|]. intros k. unfold planned. simpl. rewrite get_obj_del. unfold mem. rewrite existsb_app. simpl. rewrite orb_false_r.
  destruct (String.eqb_spec k DB_BACKUP_PITR_LABEL) as [->|Hk]; [|rewrite orb_false_r; apply Ht].
  split; [|done]. intros [?|Hx]; [done|]. destruct Hb as [?|Ha]; [congruence|].
  apply andb_true_iff in Es as [[_ Ed]%andb_true_iff _]. apply bool_decide_eq_true in Ed. unfold after_takes. rewrite takes_add by done.
  rewrite orb_true_r. unfold after_opt_out. destruct (opts_out _ _); [|by rewrite Ha]. simpl.
  by rewrite (opt_out_adds _ _ (opt_out_adds _ _ Ha)).
Qed.

(** What is held after a donor is the step of the intent. *)
Lemma carry_step c d k : k ∈ BACKUP_INTENT_LABELS ->
  get k (ca_have (carry_from c (mb_labels d))) = intent_step (fun k => get k (ca_have c)) d k.
Proof.
  intros Hk. set (h := fun k => get k (ca_have c)). set (l := mb_labels d).
  assert (H1 : get k (ca_have (after_opt_out c l)) = if opts_out h l && schedule_group k then None else h k).
  { unfold after_opt_out. fold h. destruct (opts_out h l); [|done]. simpl. rewrite !opt_out_have. unfold schedule_group.
    by destruct (String.eqb k DB_BACKUP_SCHEDULE_LABEL), (String.eqb k DB_BACKUP_PITR_LABEL). }
  assert (Ho : overrides h l = true -> opts_out h l = false /\ is_Some (get DB_BACKUP_SCHEDULE_LABEL l)).
  { unfold overrides, opts_out. intros [[_ H]%andb_true_iff _]%andb_true_iff. apply bool_decide_eq_true in H as [x Hx]. rewrite Hx.
    rewrite (bool_decide_eq_false_2 (Some x = None)) by done. rewrite andb_false_r. by split. }
  assert (H2 : get k (ca_have (after_takes c l)) = match get k l with
    | Some v => if bool_decide (is_Some (get k (ca_have (after_opt_out c l)))) && negb (overrides h l && schedule_group k)
                then get k (ca_have (after_opt_out c l)) else Some (rehomed k v)
    | None => get k (ca_have (after_opt_out c l)) end).
  { unfold after_takes. fold h. rewrite takes_have by apply intents_distinct. apply mem_In in Hk as ->. by rewrite take_have, String.eqb_refl. }
  rewrite carry_from_stages. unfold intent_step. fold l. destruct (stale_flag c l && String.eqb k DB_BACKUP_PITR_LABEL) eqn:Es.
  - apply andb_true_iff in Es as [Es ->%String.eqb_eq]. rewrite Es. simpl. rewrite get_obj_del, String.eqb_refl.
    unfold stale_flag in Es. fold h in Es. apply andb_true_iff in Es as [[-> Ed]%andb_true_iff _]. apply bool_decide_eq_true in Ed.
    simpl. by rewrite Ed.
  - assert (E : get k (ca_have (if stale_flag c l then {| ca_have := obj_del DB_BACKUP_PITR_LABEL (ca_have (after_takes c l));
        ca_add := ca_add (after_takes c l); ca_remove := ca_remove (after_takes c l) ++ [DB_BACKUP_PITR_LABEL] |} else after_takes c l))
      = get k (ca_have (after_takes c l))).
    { destruct (stale_flag c l); [|done]. simpl. rewrite get_obj_del. simpl in Es. by rewrite Es. }
    rewrite E, H2, H1. destruct (overrides h l) eqn:Eo.
    + destruct (Ho eq_refl) as [-> [x Hx]]. simpl. destruct (schedule_group k) eqn:Eg; simpl.
      * destruct (get k l) as [v|] eqn:Ek; simpl; [by rewrite andb_false_r|]. apply orb_true_iff in Eg as [Eg|Eg]; apply String.eqb_eq in Eg; subst k; [congruence|].
        rewrite String.eqb_refl, andb_true_r in Es. unfold stale_flag in Es. fold h in Es. rewrite Eo, bool_decide_eq_true_2, H2, H1 in Es by done.
        rewrite (proj1 (Ho eq_refl)) in Es. simpl in Es.
        apply bool_decide_eq_false in Es. destruct (h DB_BACKUP_PITR_LABEL); [by destruct Es|done].
      * destruct (get k l), (h k); done.
    + simpl. destruct (opts_out h l && schedule_group k); destruct (get k l), (h k); done.
Qed.

(** ** All donors *)

Lemma intent_step_ext h h' d k : (forall k, k ∈ BACKUP_INTENT_LABELS -> h k = h' k) -> k ∈ BACKUP_INTENT_LABELS ->
  intent_step h d k = intent_step h' d k.
Proof.
  intros H Hk. unfold intent_step, overrides, opts_out. rewrite (H k Hk), (H DB_BACKUP_SCHEDULE_LABEL); [done|].
  apply mem_In. by vm_compute.
Qed.

Lemma foldl_carry_have ds c h : (forall k, k ∈ BACKUP_INTENT_LABELS -> get k (ca_have c) = h k) ->
  forall k, k ∈ BACKUP_INTENT_LABELS -> get k (ca_have (foldl carry_from c (map mb_labels ds))) = foldl intent_step h ds k.
Proof.
  revert c h. induction ds as [|d ds IH]; intros c h Hh; simpl; [done|]. apply IH.
  intros k Hk. rewrite carry_step by done. by apply intent_step_ext.
Qed.

Lemma foldl_carry_tracks L ds c : tracks false L c -> tracks false L (foldl carry_from c (map mb_labels ds)).
Proof. revert c. induction ds as [|d ds IH]; intros c Hc; simpl; [done|]. apply IH, tracks_carry; auto. Qed.

Lemma carried_tracks p ds : let c := carried_intent p ds in
  tracks false (mb_labels p) c /\ ((length ds <= 1)%nat -> tracks true (mb_labels p) c) /\
  forall k, k ∈ BACKUP_INTENT_LABELS -> get k (ca_have c) = intent_of p ds k.
Proof.
  cbv zeta. set (c0 := {| ca_have := mb_labels p; ca_add := []; ca_remove := [] |}).
  assert (H0 : forall b, tracks b (mb_labels p) c0) by (intros b; split; [constructor|done]).
  split; [by apply foldl_carry_tracks|]. split; [|by apply foldl_carry_have].
  destruct ds as [|d [|d' ds]]; simpl; [by intros _|intros _|lia]. apply tracks_carry; [apply H0|by right].
Qed.

(** The labels say the intent of the primary and the donors.  With several donors a
    recovery flag may be there that the last schedule is without. *)
Definition holds_intent (p : Member) (donors : list Member) (labels : entries) : Prop :=
  forall k, k ∈ BACKUP_INTENT_LABELS ->
    (k <> DB_BACKUP_PITR_LABEL \/ (length donors <= 1)%nat -> get k labels = intent_of p donors k) /\
    (forall v, intent_of p donors k = Some v -> get k labels = Some v).

(** Whether a call succeeded. *)
Lemma traces_tried (e : effect ()) t r : traces (catch (do* await e in Ret true) (fun _ => Ret false)) t r ->
  (t = [Event e (inl tt)] /\ r = inl true) \/ exists x, t = [Event e (inr x)] /\ r = inl false.
Proof.
  intros [(a & H & ->)|(x & t1 & t2 & -> & H & [-> ->])]%traces_catch;
    apply traces_bind in H as [(y & H & E)|([] & u1 & u2 & -> & H & [-> E])]; simplify_eq; apply traces_await in H as ->.
  - by left.
  - right. by exists y.
Qed.

Section carry.
Context (node : string) (c : Cluster) (p : Member).
Let donors := donors_of p (replicaMembers c).
Let add := ca_add (carried_intent p donors).
Let rm := List.filter (fun k => bool_decide (get k (ca_add (carried_intent p donors)) = None)) (js_uniq (ca_remove (carried_intent p donors))).
Let final := updateServiceLabels add rm (mb_labels p).

Lemma carry_planned :
  (planBackupIntentCarry p (replicaMembers c) = None /\ donors = [] /\ add = [] /\ rm = []) \/
  planBackupIntentCarry p (replicaMembers c) =
    Some {| bi_add := add; bi_removeFromPrimary := rm; bi_donors := map (fun m => (mb_name m, intent_keys (mb_labels m))) donors |}.
Proof using Type. unfold planBackupIntentCarry, add, rm, donors. destruct (donors_of p (replicaMembers c)); [by left|by right]. Qed.

Lemma final_planned k : get k final = planned (mb_labels p) (carried_intent p donors) k.
Proof using Type.
  destruct (carried_tracks p donors) as [[Hn _] _]. unfold final, updateServiceLabels, planned. rewrite get_drop_names, get_object_assign by exact Hn.
  fold add. assert (Hm : mem k rm = bool_decide (get k add = None) && mem k (ca_remove (carried_intent p donors))).
  { apply eq_iff_eq_true. rewrite andb_true_iff, !mem_In. unfold rm. rewrite list_elem_of_In, filter_In, <- list_elem_of_In, js_uniq_elem. tauto. }
  rewrite Hm. by destruct (get k add).
Qed.

Lemma final_holds : holds_intent p donors final.
Proof using Type.
  destruct (carried_tracks p donors) as ([_ H1] & H2 & H3). intros k Hk. rewrite final_planned, <- H3 by done. split; [|apply H1].
  intros [?|Hl]; symmetry; [apply H1; by left|]. apply H2 in Hl as [_ Hl]. apply Hl. by right.
Qed.

Lemma final_rest k : k ∉ BACKUP_INTENT_LABELS -> get k final = get k (mb_labels p).
Proof using Type.
  intros Hk. destruct carry_planned as [(_ & _ & Ea & Er)|E]; [unfold final; by rewrite Ea, Er|].
  destruct (carry_same _ _ _ E) as [_ H]. by apply H.
Qed.

(** A donor loses its intent and nothing else. *)
Definition donor_after (m : Member) : entries := updateServiceLabels [] (intent_keys (mb_labels m)) (mb_labels m).

Lemma donor_after_get m k : get k (donor_after m) = if mem k BACKUP_INTENT_LABELS then None else get k (mb_labels m).
Proof using Type.
  unfold donor_after, updateServiceLabels. rewrite get_drop_names, get_assign_absent by apply not_elem_of_nil.
  assert (Hm : mem k (intent_keys (mb_labels m)) = mem k BACKUP_INTENT_LABELS && bool_decide (is_Some (get k (mb_labels m)))).
  { apply eq_iff_eq_true. unfold intent_keys. by rewrite andb_true_iff, !mem_In, list_elem_of_In, filter_In, <- list_elem_of_In. }
  rewrite Hm. destruct (mem k BACKUP_INTENT_LABELS); simpl; [|done]. destruct (get k (mb_labels m)); done.
Qed.

Definition drop_event (m : Member) (ev : event effect) : Prop :=
  exists a, ev = Event (ServiceUpdateLabels node (mb_name m) [] (intent_keys (mb_labels m))) a.

Lemma drops_calls ds t r : traces (each (fun x => update_labels node (fst x) [] (snd x)) (map (fun m => (mb_name m, intent_keys (mb_labels m))) ds)) t r ->
  r = inl tt /\ Forall2 drop_event ds t.
Proof using Type.
  clear. revert t r. induction ds as [|d ds IH]; intros t r; [intros [-> ->]; by split|]. cbn [map each fst snd].
  intros [(e & H & _)|([] & t1 & t2 & -> & H & Hr)]%traces_bind; apply traces_quietly in H as [? [r' ->%traces_await]]; [done|].
  apply IH in Hr as [-> Hr]. split; [done|]. simpl. constructor; [by eexists|done].
Qed.

(** Whether the primary is updated, and that the donors are told only after it. *)
Lemma carry_calls t r : traces (carryBackupIntent node c p) t r ->
  (add = [] /\ rm = [] /\ Forall2 drop_event donors t) \/
  (exists e, t = [Event (ServiceUpdateLabels node (mb_name p) add rm) (inr e)]) \/
  (exists t', t = Event (ServiceUpdateLabels node (mb_name p) add rm) (inl tt) :: t' /\ Forall2 drop_event donors t').
Proof using Type.
  unfold carryBackupIntent. destruct carry_planned as [(-> & Ed & Ea & Er)| -> ].
  { intros [-> _]. left. rewrite Ed. by repeat split. }
  cbn [bi_add bi_removeFromPrimary bi_donors]. intros H.
  assert (Hmain : forall c' t r, traces (let* ok := catch (do* await (ServiceUpdateLabels node (mb_name p) add rm) in Ret true) (fun _ => Ret false) in
      if ok : bool then do* each (fun x => update_labels node (fst x) [] (snd x)) (map (fun m => (mb_name m, intent_keys (mb_labels m))) donors) in Ret c' else Ret c) t r ->
    (exists e, t = [Event (ServiceUpdateLabels node (mb_name p) add rm) (inr e)]) \/
    (exists t', t = Event (ServiceUpdateLabels node (mb_name p) add rm) (inl tt) :: t' /\ Forall2 drop_event donors t')).
  { clear. intros c' t r [(e & H & _)|(ok & t1 & t2 & -> & H1 & H2)]%traces_bind; [by apply traces_tried in H as [[_ ?]|(x & _ & ?)]|].
    apply traces_tried in H1 as [[-> [= ->]]|(x & -> & [= ->])]; [right|left; exists x; by destruct H2 as [-> _]].
    apply traces_bind in H2 as [(e & H & _)|([] & t3 & t4 & -> & H & [-> _])]; apply drops_calls in H as [? H]; [done|].
    rewrite app_nil_r. by eexists. }
  destruct add as [|kv add'] eqn:Ea, rm as [|k rm'] eqn:Er; [|right; by eapply Hmain..].
  left. split; [done|]. split; [done|]. apply traces_bind in H as [(e & H & _)|([] & t1 & t2 & -> & H & [-> _])]; apply drops_calls in H as [? H]; [done|].
  by rewrite app_nil_r.
Qed.

(** ** What the calls leave *)

Lemma run_drops ds t live live' : Forall2 drop_event ds t -> label_run live t live' -> NoDup (map mb_name ds) ->
  (forall m, m ∈ ds -> live !! mb_name m = Some (mb_labels m)) ->
  (forall name, name ∉ map mb_name ds -> live' !! name = live !! name) /\
  (forall m, m ∈ ds -> live' !! mb_name m = Some (mb_labels m) \/ live' !! mb_name m = Some (donor_after m)) /\
  (forallb succeeded t = true -> forall m, m ∈ ds -> live' !! mb_name m = Some (donor_after m)).
Proof using Type.
  intros H. revert live. induction H as [|d ev ds t [a ->] _ IH]; intros live Hr Hn Hl.
  - inversion Hr; subst. split; [done|]. split; [|intros _]; intros m Hm; by apply not_elem_of_nil in Hm.
  - apply NoDup_cons in Hn as [Hd Hn]. fold (map mb_name ds) in Hd. inversion Hr as [|? ? ? live1 ? He Hr']; subst.
    assert (H1 : (forall name, name <> mb_name d -> live1 !! name = live !! name) /\
      (live1 !! mb_name d = Some (mb_labels d) \/ live1 !! mb_name d = Some (donor_after d)) /\
      ((exists b, a = inl b) -> live1 !! mb_name d = Some (donor_after d))).
    { pose proof (Hl d ltac:(by left)) as Hd'. destruct He as [->|[Hf ->]].
      - split; [intros; by apply lookup_alter_ne|]. rewrite lookup_alter_eq, Hd'. by split; [right|].
      - split; [done|]. split; [by left|]. intros [b ->]. done. }
    destruct H1 as (Ha & Hb & Hc). destruct (IH live1 Hr' Hn) as (I1 & I2 & I3).
    { intros m Hm. rewrite Ha; [apply Hl; by right|]. intros E. apply Hd. rewrite <- E. apply list_elem_of_fmap. by exists m. }
    split; [|split].
    + intros name Hname. simpl in Hname. apply not_elem_of_cons in Hname as [H1 H2]. rewrite I1 by done. by apply Ha.
    + intros m [->|Hm]%elem_of_cons; [by rewrite I1|by apply I2].
    + simpl. intros [Hs Ht]%andb_true_iff m [->|Hm]%elem_of_cons; [|by apply I3]. rewrite I1 by done. apply Hc.
      destruct a as [b|]; [by exists b|done].
Qed.

Lemma donor_not_primary m : m ∈ donors -> mb_name m <> mb_name p.
Proof using Type.
  unfold donors, donors_of. rewrite list_elem_of_In, filter_In. intros [H _]. apply filter_In in H as [_ H]. by apply negb_true_iff, String.eqb_neq in H.
Qed.

Lemma primary_not_donor : mb_name p ∉ map mb_name donors.
Proof using Type. intros (m & E & Hm)%list_elem_of_fmap. by apply donor_not_primary in Hm. Qed.

(** The donors' part of the run, once the primary has the intent. *)
Lemma run_donors live t t1 t2 live' : Forall2 drop_event donors t -> t = t1 ++ t2 -> label_run live t1 live' ->
  NoDup (map mb_name donors) -> (forall m, m ∈ donors -> live !! mb_name m = Some (mb_labels m)) -> live !! mb_name p = Some final ->
  live' !! mb_name p = Some final /\ (forall name, name ∉ map mb_name donors -> live' !! name = live !! name) /\
  (forall m, m ∈ donors -> live' !! mb_name m = Some (mb_labels m) \/ live' !! mb_name m = Some (donor_after m)) /\
  (t2 = [] -> forallb succeeded t = true -> forall m, m ∈ donors -> live' !! mb_name m = Some (donor_after m)).
Proof using Type.
  intros Hf -> Hr Hn Hds Hp. apply Forall2_app_inv_r in Hf as (ds1 & ds2 & F1 & F2 & E).
  assert (Hn1 : NoDup (map mb_name ds1)) by (rewrite E, map_app in Hn; by apply NoDup_app in Hn as [? _]).
  destruct (run_drops ds1 t1 live live' F1 Hr Hn1) as (R1 & R2 & R3); [intros m Hm; apply Hds; rewrite E; apply elem_of_app; by left|].
  assert (Hout : forall name, name ∉ map mb_name donors -> live' !! name = live !! name).
  { intros name Hx. apply R1. rewrite E, map_app in Hx. by apply not_elem_of_app in Hx as [? _]. }
  split; [rewrite Hout; [done|apply primary_not_donor]|]. split; [done|]. split.
  - intros m Hm. assert (Hm' := Hm). rewrite E in Hm, Hn. apply elem_of_app in Hm as [Hm|Hm]; [by destruct (R2 m Hm); auto|]. left.
    rewrite R1; [by apply Hds|]. rewrite map_app in Hn. apply NoDup_app in Hn as (_ & Hn & _).
    intros Hx. apply (Hn _ Hx). apply list_elem_of_fmap. by exists m.
  - intros -> Hs m Hm. rewrite app_nil_r in Hs. inversion F2; subst ds2. rewrite E, app_nil_r in Hm. by apply R3.
Qed.

Lemma run_primary a live live1 : label_event (Event (ServiceUpdateLabels node (mb_name p) add rm) a) live live1 ->
  live !! mb_name p = Some (mb_labels p) ->
  (forall name, name <> mb_name p -> live1 !! name = live !! name) /\
  (live1 !! mb_name p = Some (mb_labels p) \/ live1 !! mb_name p = Some final) /\
  ((exists b, a = inl b) -> live1 !! mb_name p = Some final).
Proof using Type.
  intros He Hp. destruct He as [->|[Hf ->]].
  - split; [intros; by apply lookup_alter_ne|]. rewrite lookup_alter_eq, Hp. by split; [right|].
  - split; [done|]. split; [by left|]. by intros [b ->].
Qed.

(** Whether the primary was updated, and each donor. *)
Lemma carry_run t r t1 t2 live live' : traces (carryBackupIntent node c p) t r -> t = t1 ++ t2 -> label_run live t1 live' ->
  NoDup (map mb_name donors) -> (forall m, m ∈ p :: donors -> live !! mb_name m = Some (mb_labels m)) ->
  exists lp, live' !! mb_name p = Some lp /\ (lp = mb_labels p \/ lp = final) /\
    (forall name, name <> mb_name p -> name ∉ map mb_name donors -> live' !! name = live !! name) /\
    (forall m, m ∈ donors -> live' !! mb_name m = Some (mb_labels m) \/ live' !! mb_name m = Some (donor_after m) /\ lp = final) /\
    (t2 = [] -> forallb succeeded t = true -> lp = final /\ forall m, m ∈ donors -> live' !! mb_name m = Some (donor_after m)).
Proof using Type.
  intros Ht Et Hr Hn Hl. pose proof (Hl p ltac:(by left)) as Hp.
  assert (Hds : forall m, m ∈ donors -> live !! mb_name m = Some (mb_labels m)) by (intros; apply Hl; by right).
  destruct (carry_calls t r Ht) as [(Ea & Er & Hf)|H].
  - assert (Efin : mb_labels p = final) by (unfold final; by rewrite Ea, Er). rewrite Efin in Hp.
    destruct (run_donors live t t1 t2 live' Hf Et Hr Hn Hds Hp) as (D1 & D2 & D3 & D4). exists final.
    split_and!; [done|by right|auto| |auto]. intros m Hm. destruct (D3 m Hm); auto.
  - destruct t1 as [|ev t1].
    { inversion Hr; subst. exists (mb_labels p). split_and!; [done|by left|done|by auto|]. intros ->.
      destruct H as [[e H]|(t' & H & _)]; discriminate H. }
    inversion Hr as [|? ? ? live1 ? He Hr1]; subst ev0 t0 live0 live''.
    destruct H as [[e ->]|(t' & -> & Hf)]; simpl in Et; injection Et as <- Et; destruct (run_primary _ _ _ He Hp) as (P1 & P2 & P3).
    + symmetry in Et. apply app_nil in Et as [-> ->]. inversion Hr1; subst.
      assert (Hsame : forall m, m ∈ donors -> live' !! mb_name m = Some (mb_labels m)).
      { intros m Hm. rewrite P1 by (by apply donor_not_primary). by apply Hds. }
      destruct P2 as [P2|P2]; eexists; (split_and!; [exact P2|auto|auto|auto|done]).
    + assert (Hds1 : forall m, m ∈ donors -> live1 !! mb_name m = Some (mb_labels m)).
      { intros m Hm. rewrite P1 by (by apply donor_not_primary). by apply Hds. }
      destruct (run_donors live1 t' t1 t2 live' Hf Et Hr1 Hn Hds1 (P3 ltac:(by eexists))) as (D1 & D2 & D3 & D4). exists final.
      split_and!; [done|by right| | |auto].
      * intros name H1 H2. rewrite D2 by done. by apply P1.
      * intros m Hm. destruct (D3 m Hm); auto.
Qed.
End carry.

(** C16: moving the backup intent of a cluster (its schedule, recovery flag, last run and
    opt-out) from the demoted members to the live primary loses nothing, wherever the
    worker is stopped and whichever calls fail, even when a call that failed was carried
    out, for any number of donors: at every point a donor still has all of its intent,
    or the primary already has what it is to have ([intent_of]: its own label or else
    that of the first donor with one; of an automatic schedule and its recovery flag,
    what a donor's own schedule or opt-out says instead, without the volume of the old
    writer).  Other labels and other services are untouched.  When the calls succeed the
    primary has it and no donor holds any of it.  One thing is exact for a single donor
    only: with several, a recovery flag taken from an earlier donor stays on the primary
    although the last schedule is without one ([stale_recovery_flag]). *)
Theorem backup_intent_carried node c p t r t1 t2 live live' :
  let donors := donors_of p (replicaMembers c) in
  NoDup (map mb_name donors) -> traces (carryBackupIntent node c p) t r -> t = t1 ++ t2 ->
  (forall m, m ∈ p :: donors -> live !! mb_name m = Some (mb_labels m)) -> label_run live t1 live' ->
  exists lp, live' !! mb_name p = Some lp /\
    (forall k, k ∉ BACKUP_INTENT_LABELS -> get k lp = get k (mb_labels p)) /\
    (lp = mb_labels p \/ holds_intent p donors lp) /\
    (forall d, d ∈ donors -> exists ld, live' !! mb_name d = Some ld /\
       (forall k, k ∉ BACKUP_INTENT_LABELS -> get k ld = get k (mb_labels d)) /\
       (ld = mb_labels d \/ holds_intent p donors lp)) /\
    (forall name, name <> mb_name p -> name ∉ map mb_name donors -> live' !! name = live !! name) /\
    (t2 = [] -> forallb succeeded t = true -> holds_intent p donors lp /\
       forall d, d ∈ donors -> exists ld, live' !! mb_name d = Some ld /\ forall k, k ∈ BACKUP_INTENT_LABELS -> get k ld = None).
Proof.
  intros donors Hn Ht Et Hl Hr. destruct (carry_run node c p t r t1 t2 live live' Ht Et Hr Hn Hl) as (lp & H1 & H2 & H3 & H4 & H5).
  pose proof (final_holds c p) as Hh. assert (Hrest : forall m k, k ∉ BACKUP_INTENT_LABELS -> get k (donor_after m) = get k (mb_labels m)).
  { intros m k Hk. rewrite donor_after_get. by apply mem_false in Hk as ->. }
  exists lp. split; [done|]. split; [intros k Hk; destruct H2 as [->| ->]; [done|by apply final_rest]|].
  split; [destruct H2 as [->| ->]; auto|]. split; [|split; [done|]].
  - intros d Hd. destruct (H4 d Hd) as [E|[E ->]]; eexists; (split; [exact E|]); auto.
  - intros E Hs. destruct (H5 E Hs) as [-> Hd]. split; [done|]. intros d Hx. exists (donor_after d). split; [by apply Hd|].
    intros k Hk. rewrite donor_after_get. by apply mem_In in Hk as ->.
Qed.

(** * The storage layout settles *)

Definition observed (m : Mount) : ObservedMount :=
  {| om_type := Some (mount_str (mt_type m)); om_source := mt_source m; om_target := mt_target m |}.

(** What the inventory reports of a member deployed with [s]. *)
Definition deployed (s : ServiceSpec) (m : Member) : Member :=
  {| mb_id := mb_id m; mb_name := ss_name s; mb_image := ss_image s; mb_labels := labels_of s;
     mb_env := map env_entry (own_order (env_of s)); mb_networks := default [] (ss_networks s);
     mb_secrets := map rf_source (secrets_of s); mb_configs := map rf_source (default [] (ss_configs s));
     mb_mounts := Some (map observed (mounts_of s)); mb_desired := mb_desired m; mb_running := mb_running m |}.

Section settle.
Context (script : string).

(** The primary after its action was carried out, and the replica after its. *)
Definition primary_after (c : Cluster) (a : StorageAction) (p : Member) : Member :=
  match a with
  | Adopt add rm true => deployed (stripPitrSpec script (with_labels (assign (mb_labels p) add) p) c) p
  | Adopt add rm false => with_labels (updateServiceLabels add rm (mb_labels p)) p
  | _ => p
  end.

Definition replica_after (c : Cluster) (a : StorageAction) (r : Member) : Member :=
  match a with ConvergeReplica labels => deployed (replicaStorageSpec script r labels (clusterNet c)) r | _ => r end.

Lemma applyPgMember_mounts spec l v : ss_mounts spec = None -> label_in DB_DATA_VOLUME_LABEL l = Some v ->
  mounts_of (applyPgMember script spec l) = [volume_mount v MANAGED_PG_ROOT].
Proof.
  intros Hm Hv. unfold applyPgMember. destruct (credential_storage (applyDbStorage spec l) l) as [E _]. unfold mounts_of in *. simpl. rewrite E.
  unfold applyDbStorage. rewrite Hv. simpl. by rewrite Hm.
Qed.

(** A member deployed on a volume it declares is persistent on it. *)
Lemma deployed_storage spec l m v : ss_labels spec = Some l -> ss_mounts spec = None -> get DB_DATA_VOLUME_LABEL l = Some v -> v <> "" ->
  storage_of (deployed (applyPgMember script spec l) m) = persistent v false.
Proof.
  intros Hl Hm Hv Hne. destruct (applyPgMember_labels script spec l Hl) as (l' & Hl' & Hk & _ & _). unfold storage_of, deployed. cbn [mb_labels mb_mounts].
  assert (Hin : label_in DB_DATA_VOLUME_LABEL l = Some v) by (unfold label_in; rewrite Hv; simpl; by apply String.eqb_neq in Hne as ->).
  rewrite (applyPgMember_mounts spec l v Hm Hin). unfold labels_of. rewrite Hl'. cbn. apply String.eqb_neq in Hne. rewrite Hne. cbn.
  rewrite bool_decide_eq_true_2; [done|]. unfold id. by rewrite Hk.
Qed.

Lemma deployed_label spec l m k : ss_labels spec = Some l -> k <> DB_PASSWORD_SECRET_LABEL ->
  get k (mb_labels (deployed (applyPgMember script spec l) m)) = get k l.
Proof.
  intros Hl Hk. destruct (applyPgMember_labels script spec l Hl) as (l' & Hl' & H & _ & _). unfold deployed, labels_of. cbn [mb_labels]. rewrite Hl'. by apply H.
Qed.

Lemma adopt_labels p v pin k : v <> "" -> pin <> "" -> get k (assign (mb_labels p) (dbStorageLabels v (Some pin) None)) =
  if String.eqb k DB_DATA_VOLUME_LABEL then Some v else if String.eqb k DB_PIN_NODE_LABEL then Some pin else get k (mb_labels p).
Proof.
  intros Hv Hp. unfold dbStorageLabels, labelled. simpl. apply String.eqb_neq in Hp as ->. rewrite get_object_assign by distinct_keys. simpl.
  by destruct (String.eqb k DB_DATA_VOLUME_LABEL), (String.eqb k DB_PIN_NODE_LABEL).
Qed.

Lemma storage_declared p v u l : storage_of p = persistent v u -> get DB_DATA_VOLUME_LABEL l = Some v -> storage_of (with_labels l p) = persistent v false.
Proof.
  intros Hs Hl. pose proof (storage_nonempty p v u Hs) as Hne. unfold storage_of, dbStorageState in *. simpl. unfold label_in. rewrite Hl.
  destruct (mb_mounts p) as [ms|].
  - destruct (List.find is_data_mount ms ≫= om_source); [|done]. injection Hs as -> _. by rewrite bool_decide_eq_true_2.
  - simpl. by apply String.eqb_neq in Hne as ->.
Qed.

(** After adoption the primary declares its volume and its server. *)
Lemma adopted_settled c p v u pin rm redeploy : storage_of p = persistent v u -> pin <> "" -> (rm = [] \/ rm = [DB_PITR_APPLIED_LABEL]) ->
  let p' := primary_after c (Adopt (dbStorageLabels v (Some pin) None) rm redeploy) p in
  mb_name p' = mb_name p /\ storage_of p' = persistent v false /\ label_in DB_PIN_NODE_LABEL (mb_labels p') = Some pin.
Proof.
  intros Hs Hpin Hrm. pose proof (storage_nonempty p v u Hs) as Hne. simpl.
  assert (Hp : truthy_str (Some pin) = Some pin) by (simpl; by apply String.eqb_neq in Hpin as ->). destruct redeploy.
  - split; [by apply member_named|]. split.
    + apply deployed_storage; try done. rewrite !get_obj_del. cbn [mb_labels with_labels]. by rewrite adopt_labels.
    + unfold label_in. unfold stripPitrSpec. rewrite deployed_label by done.
      rewrite !get_obj_del. cbn [mb_labels with_labels]. by rewrite adopt_labels.
  - split; [done|]. assert (Hk : forall k, k <> DB_PITR_APPLIED_LABEL -> get k (updateServiceLabels (dbStorageLabels v (Some pin) None) rm (mb_labels p)) =
      get k (assign (mb_labels p) (dbStorageLabels v (Some pin) None))).
    { intros k Hk. unfold updateServiceLabels. rewrite get_drop_names. assert (mem k rm = false) as ->; [|done]. apply mem_false.
      destruct Hrm as [-> | ->]; [apply not_elem_of_nil|]. by intros ?%list_elem_of_singleton. }
    split; [eapply storage_declared; [done|]; by rewrite Hk, adopt_labels|]. unfold label_in. simpl. by rewrite Hk, adopt_labels.
Qed.

(** A replica that was converged stays. *)
Lemma converged_settled c base r avoid labels : get DB_DATA_VOLUME_LABEL (mb_labels r) <> Some "" -> avoid <> Some "" ->
  ConvergeReplica labels ∈ replica_actions base (Some r) avoid ->
  replica_actions base (Some (replica_after c (ConvergeReplica labels) r)) avoid = [].
Proof.
  intros Hd Ha H. unfold replica_actions in H. destruct (String.eqb (mb_name r) _) eqn:En; [|by apply not_elem_of_nil in H].
  cbv zeta in H. destruct (_ || _); [|by apply not_elem_of_nil in H]. apply list_elem_of_singleton in H as [= ->].
  set (dv := default _ _). assert (Hdv : dv <> "") by (subst dv; destruct (get DB_DATA_VOLUME_LABEL (mb_labels r)) as [x|]; simpl; [intros ->; by apply Hd|by destruct base]).
  set (l := converged_labels r dv avoid). assert (Hv : get DB_DATA_VOLUME_LABEL l = Some dv) by apply converged_volume.
  assert (Hav : get DB_AVOID_NODE_LABEL l = avoid).
  { unfold l, converged_labels, dbStorageLabels, labelled. destruct avoid as [a|]; simpl.
    - destruct (String.eqb_spec a "") as [->|]; [done|]. rewrite get_object_assign by distinct_keys. done.
    - by rewrite get_obj_del. }
  unfold replica_actions, replica_after. unfold replicaStorageSpec. set (s := member_spec _ _ _ _ _ _ _ _ _ _).
  assert (Hn : mb_name (deployed (applyPgMember script s l) r) = mb_name r) by (exact (proj1 (member_named script s l))).
  rewrite Hn, En. cbv zeta. rewrite !deployed_label by done. rewrite Hv, Hav, (deployed_storage s l r dv) by done. simpl.
  by rewrite !bool_decide_eq_true_2.
Qed.

(** The actions on a replica, carried out, leave none. *)
Lemma replica_settled c base r avoid : get DB_DATA_VOLUME_LABEL (mb_labels r) <> Some "" -> avoid <> Some "" ->
  let acts := replica_actions base (Some r) avoid in
  replica_actions base (Some (foldl (fun r a => replica_after c a r) r acts)) avoid = [] /\
  forall p, foldl (fun p a => primary_after c a p) p acts = p.
Proof.
  intros Hd Ha. cbv zeta. pose proof (converged_settled c base r avoid) as H. destruct (replica_actions base (Some r) avoid) as [|a l] eqn:E; [done|].
  assert (Hl : exists labels, a = ConvergeReplica labels /\ l = []).
  { unfold replica_actions in E. destruct (String.eqb _ _); [|done]. cbv zeta in E. destruct (_ || _); [|done]. injection E as <- <-. by eexists. }
  destruct Hl as (labels & -> & ->). cbn [foldl]. split; [|done]. by apply H, list_elem_of_singleton.
Qed.

(** A primary that declares its volume and its server needs nothing itself. *)
Lemma plan_declared base p v pin replica running multiNode : mb_name p = base +:+ "-primary" -> storage_of p = persistent v false ->
  label_in DB_PIN_NODE_LABEL (mb_labels p) = Some pin ->
  planClusterStorage base (Some p) replica running multiNode = replica_actions base replica (if multiNode then Some pin else None).
Proof. intros Hn Hs Hp. unfold planClusterStorage. by rewrite Hn, String.eqb_refl, Hs, Hp. Qed.
End settle.

(** ** The calls of the storage step *)

(** What a call that succeeded makes of a member. *)
Definition on_member (m : Member) (ev : event effect) : Member :=
  if succeeded ev then
    match change_of ev with
    | Some (Labelled _ name add rm) =>
        if String.eqb name (mb_name m) then with_labels (updateServiceLabels add rm (mb_labels m)) m else m
    | Some (Deployed _ spec _) => if String.eqb (ss_name spec) (mb_name m) then deployed spec m else m
    | _ => m
    end
  else m.

Lemma on_members_name t m : mb_name (foldl on_member m t) = mb_name m.
Proof.
  revert m. induction t as [|ev t IH]; intros m; simpl; [done|]. rewrite IH. unfold on_member. destruct (succeeded ev); [|done].
  destruct (change_of ev) as [[n name add rm|n spec pull|n name]|]; try done.
  - by destruct (String.eqb _ _).
  - by destruct (String.eqb_spec (ss_name spec) (mb_name m)).
Qed.

(** No change of a service failed. *)
Definition went_well (t : list (event effect)) : Prop := Forall (fun ev => change_of ev <> None -> succeeded ev = true) t.

(** A call that neither redeploys one of the two members nor touches the labels of its
    storage. *)
Definition spares (p r : string) (ev : event effect) : Prop :=
  match change_of ev with
  | Some (Deployed _ spec _) => ss_name spec <> p /\ ss_name spec <> r
  | Some (Labelled _ name add rm) => name = p \/ name = r ->
      forall k, k ∈ [DB_DATA_VOLUME_LABEL; DB_PIN_NODE_LABEL; DB_AVOID_NODE_LABEL] -> k ∉ map fst add /\ k ∉ rm
  | _ => True
  end.

(** The declared volume and server, and what is mounted. *)
Definition same_storage (m m' : Member) : Prop :=
  mb_name m' = mb_name m /\ mb_mounts m' = mb_mounts m /\
  forall k, k ∈ [DB_DATA_VOLUME_LABEL; DB_PIN_NODE_LABEL; DB_AVOID_NODE_LABEL] -> get k (mb_labels m') = get k (mb_labels m).

Lemma spared p r m t : mb_name m = p \/ mb_name m = r -> Forall (spares p r) t -> same_storage m (foldl on_member m t).
Proof.
  intros Hm H. revert m Hm. induction H as [|ev t He _ IH]; intros m Hm; simpl; [done|].
  assert (E : same_storage m (on_member m ev)).
  { unfold on_member, spares in *. destruct (succeeded ev); [|done]. destruct (change_of ev) as [[n name add rm|n spec pull|n name]|]; try done.
    - destruct (String.eqb_spec name (mb_name m)) as [->|]; [|done]. split; [done|]. split; [done|]. intros k Hk. simpl.
      destruct (He Hm k Hk) as [H1 H2]. unfold updateServiceLabels. rewrite get_drop_names. apply mem_false in H2 as ->. by apply get_assign_absent.
    - destruct (String.eqb_spec (ss_name spec) (mb_name m)) as [E|]; [|done]. destruct He, Hm; congruence. }
  destruct E as (E1 & E2 & E3). destruct (IH (on_member m ev)) as (F1 & F2 & F3); [by rewrite E1|]. split; [congruence|]. split; [congruence|].
  intros k Hk. by rewrite F3, E3.
Qed.

Lemma same_storage_of m m' : same_storage m m' -> storage_of m' = storage_of m.
Proof. intros (_ & Hm & Hl). unfold storage_of, dbStorageState, label_in. rewrite Hm, (Hl DB_DATA_VOLUME_LABEL); [done|]. by left. Qed.

Lemma same_replica base r r' avoid : same_storage r r' -> replica_actions base (Some r) avoid = [] -> replica_actions base (Some r') avoid = [].
Proof.
  intros Hs. pose proof (same_storage_of r r' Hs) as Es. destruct Hs as (Hn & _ & Hl). unfold replica_actions. cbv zeta.
  rewrite Hn, Es, (Hl DB_DATA_VOLUME_LABEL), (Hl DB_AVOID_NODE_LABEL) by (apply mem_In; by vm_compute).
  destruct (String.eqb _ _); [|done]. by destruct (_ || _).
Qed.

Lemma on_label m node name add rm a : succeeded (Event (ServiceUpdateLabels node name add rm) a) = true ->
  on_member m (Event (ServiceUpdateLabels node name add rm) a) =
  if String.eqb name (mb_name m) then with_labels (updateServiceLabels add rm (mb_labels m)) m else m.
Proof. intros H. unfold on_member. by rewrite H. Qed.

Lemma on_deploy m node spec pull old a : succeeded (Event (ServiceDeploy node spec pull old) a) = true ->
  on_member m (Event (ServiceDeploy node spec pull old) a) = if String.eqb (ss_name spec) (mb_name m) then deployed spec m else m.
Proof. intros H. unfold on_member. by rewrite H. Qed.

Section storage_step.
Context (script org node : string) (c : Cluster) (p r : Member) (Hp : cl_primary c = Some p) (Hr : cl_replica c = Some r)
        (Hne : mb_name r <> mb_name p).

(** The calls of one action, seen on each of the two members. *)
Lemma action_calls a t res : traces (storage_action script node c a) t res -> went_well t ->
  res = inl tt /\
  match a with
  | WarnLegacy => t = []
  | Adopt _ _ _ => foldl on_member p t = primary_after script c a p /\ foldl on_member r t = r
  | ConvergeReplica _ => foldl on_member r t = replica_after script c a r /\ forall p1, mb_name p1 = mb_name p -> foldl on_member p1 t = p1
  end.
Proof using Hp Hr Hne.
  intros Ht Hw. unfold storage_action in Ht. rewrite Hp, Hr in Ht. assert (Hne' : mb_name p <> mb_name r) by done.
  apply String.eqb_neq in Hne as E, Hne' as E'. destruct a as [|add rm redeploy|labels]; [by destruct Ht as [-> ->]| |].
  - apply traces_bind in Ht as [(e & H & _)|([] & t1 & t2 & -> & H & Ht)]; apply traces_quietly in H as [? [r1 ->%traces_await]]; [done|].
    inversion Hw as [|? ? W1 Hw2]; subst. specialize (W1 ltac:(done)). cbn [app foldl]. rewrite !on_label, String.eqb_refl, E' by done.
    destruct redeploy; [|by destruct Ht as [-> ->]]. apply traces_quietly in Ht as [-> [r2 ->%traces_await]]. inversion Hw2 as [|? ? W2 _]; subst.
    specialize (W2 ltac:(done)). cbn [foldl]. rewrite !on_deploy by done. split; [done|].
    assert (Hs : ss_name (stripPitrSpec script (with_labels (assign (mb_labels p) add) p) c) = mb_name p) by (exact (proj1 (member_named script _ _))).
    cbn [mb_name with_labels]. by rewrite Hs, String.eqb_refl, E'.
  - apply traces_quietly in Ht as [-> [r2 ->%traces_await]]. inversion Hw as [|? ? W1 _]; subst. specialize (W1 ltac:(done)).
    cbn [foldl]. rewrite on_deploy by done.
    assert (Hs : ss_name (replicaStorageSpec script r labels (clusterNet c)) = mb_name r) by (exact (proj1 (member_named script _ _))).
    rewrite Hs, String.eqb_refl. split; [done|]. split; [done|]. intros p1 E1. rewrite on_deploy by done. by rewrite Hs, E1, E.
Qed.

(** A plan adopts the primary at most, and then converges the replica at most. *)
Definition storage_shape (acts : list StorageAction) : Prop :=
  exists adopts converges, acts = adopts ++ converges /\ (length adopts <= 1)%nat /\ (length converges <= 1)%nat /\
    Forall (fun a => match a with ConvergeReplica _ => False | _ => True end) adopts /\
    Forall (fun a => match a with ConvergeReplica _ => True | _ => False end) converges.

Lemma replica_shape base rep avoid : let acts := replica_actions base rep avoid in
  (length acts <= 1)%nat /\ Forall (fun a => match a with ConvergeReplica _ => True | _ => False end) acts.
Proof using Type.
  cbv zeta. unfold replica_actions. destruct rep as [m|]; [|by split; [simpl; lia|]]. destruct (String.eqb _ _); [|by split; [simpl; lia|]].
  cbv zeta. destruct (_ || _); (split; [simpl; lia|by repeat constructor]).
Qed.

Lemma planned_shape base primary rep running multiNode : storage_shape (planClusterStorage base primary rep running multiNode).
Proof using Type.
  assert (H0 : storage_shape []) by (exists [], []; repeat split; simpl; try lia; constructor).
  assert (Hrep : forall avoid, storage_shape (replica_actions base rep avoid)).
  { intros avoid. destruct (replica_shape base rep avoid) as [H1 H2]. exists [], (replica_actions base rep avoid). repeat split; [simpl; lia|done|constructor|done]. }
  unfold planClusterStorage. destruct primary as [m|]; [|done]. destruct (negb _); [done|]. destruct (storage_of m) as [v u| |]; [| |done].
  - destruct (if u then true else _); [|apply Hrep]. destruct (match label_in _ _ with Some x => Some x | None => _ end) as [pin|]; [|done].
    destruct (replica_shape base rep (if multiNode then Some pin else None)) as [H1 H2]. eexists [_], _. repeat split; [simpl; lia|exact H1|by constructor|exact H2].
  - exists [WarnLegacy], []. repeat split; simpl; try lia; by constructor.
Qed.

(** The calls of all actions. *)
Lemma actions_calls acts t res : storage_shape acts -> traces (each (storage_action script node c) acts) t res -> went_well t ->
  foldl on_member p t = foldl (fun p a => primary_after script c a p) p acts /\
  foldl on_member r t = foldl (fun r a => replica_after script c a r) r acts.
Proof using Hp Hr Hne.
  intros (ad & co & -> & Ha & Hc & Fa & Fc) Ht Hw.
  assert (Hco : forall p1 t res, mb_name p1 = mb_name p -> traces (each (storage_action script node c) co) t res -> went_well t ->
    foldl on_member p1 t = foldl (fun p a => primary_after script c a p) p1 co /\
    foldl on_member r t = foldl (fun r a => replica_after script c a r) r co).
  { clear -Hc Fc Hp Hr Hne. intros p1 t res E1 Ht Hw. destruct co as [|a [|? ?]]; [|inversion Fc as [|? ? H _]; subst|simpl in Hc; lia].
    - by destruct Ht as [-> ->].
    - destruct a as [| |labels]; try done. cbn [each] in Ht. apply traces_bind in Ht as [(e & H' & ->)|([] & t1 & t2 & -> & H' & [-> ->])].
      + apply action_calls in H' as [? _]; [done|done].
      + rewrite app_nil_r in *. apply action_calls in H' as (_ & R1 & R2); [|done]. split; [by rewrite R2|done]. }
  destruct ad as [|a [|? ?]]; [by apply (Hco p t res)|inversion Fa as [|? ? H _]; subst|simpl in Ha; lia].
  cbn [app each] in Ht. apply traces_bind in Ht as [(e & H' & ->)|([] & t1 & t2 & -> & H' & Ht)]; [by apply action_calls in H' as [? _]|].
  apply Forall_app in Hw as [W1 W2]. apply action_calls in H' as [_ H']; [|done]. cbn [app foldl]. rewrite !foldl_app. destruct a as [|add rm b|]; [| |done].
  - subst t1. by apply (Hco p t2 res).
  - destruct H' as [-> ->]. apply (Hco _ t2 res); [|done|done]. destruct b; [exact (proj1 (member_named script _ _))|done].
Qed.
End storage_step.
(** After the actions of a plan, the primary declares its volume and its server and the
    replica has drifted from neither. *)
Lemma plan_settled script c p r v undeclared running multiNode :
  let acts := planClusterStorage (cl_base c) (Some p) (Some r) running multiNode in
  let p' := foldl (fun p a => primary_after script c a p) p acts in
  let r' := foldl (fun r a => replica_after script c a r) r acts in
  storage_of p = persistent v undeclared -> acts <> [] -> get DB_DATA_VOLUME_LABEL (mb_labels r) <> Some "" ->
  mb_name p' = cl_base c +:+ "-primary" /\ storage_of p' = persistent v false /\
  exists pin, label_in DB_PIN_NODE_LABEL (mb_labels p') = Some pin /\
    replica_actions (cl_base c) (Some r') (if multiNode then Some pin else None) = [].
Proof.
  cbv zeta. intros Hs Hne Hd. unfold planClusterStorage in Hne |- *.
  destruct (String.eqb_spec (mb_name p) (cl_base c +:+ "-primary")) as [En|]; [|done]. cbn [negb] in *. rewrite Hs in *.
  set (pinned := label_in DB_PIN_NODE_LABEL (mb_labels p)) in *.
  destruct (if undeclared then true else _) eqn:Eu.
  - destruct (match pinned with Some x => Some x | None => _ end) as [pin|] eqn:Ep; [|done].
    assert (Hpin : pin <> "") by (unfold pinned, label_in in Ep; destruct (truthy_str (get _ _)) as [x|] eqn:Ex; [injection Ep as <-; by apply truthy_some in Ex as [_ ?]|by apply truthy_some in Ep as [_ ?]]).
    set (rm := if _ && _ then _ else _). set (redeploy := negb _). cbn [foldl].
    assert (Hrm : rm = [] \/ rm = [DB_PITR_APPLIED_LABEL]) by (unfold rm; destruct (_ && _); auto).
    destruct (adopted_settled script c p v undeclared pin rm redeploy Hs Hpin Hrm) as (Hn & Hst & Hpn).
    change (replica_after script c (Adopt _ _ _) r) with r.
    destruct (replica_settled script c (cl_base c) r (if multiNode then Some pin else None) Hd) as [Hr Hp]; [by destruct multiNode; [injection|]|].
    rewrite Hp. split; [by rewrite Hn|]. split; [done|]. by exists pin.
  - destruct undeclared; [done|]. apply bool_decide_eq_false in Eu. destruct pinned as [pin|] eqn:Ep; [|done].
    assert (Hpin : pin <> "") by (by apply truthy_some in Ep as [_ ?]).
    destruct (replica_settled script c (cl_base c) r (if multiNode then Some pin else None) Hd) as [Hr Hp]; [by destruct multiNode; [injection|]|].
    rewrite Hp. split; [done|]. split; [done|]. by exists pin.
Qed.

Definition quiet (ev : event effect) : Prop := change_of ev = None.

Lemma quiet_on t m : Forall quiet t -> foldl on_member m t = m.
Proof.
  intros H. revert m. induction H as [|ev t He _ IH]; intros m; simpl; [done|]. rewrite IH. unfold on_member. rewrite He.
  by destruct (succeeded ev).
Qed.

Lemma quiet_task_node org m : calls quiet (task_node org m).
Proof. unfold task_node, execTarget. repeat first [apply calls_bind|apply calls_ret|apply calls_await|intros ?|done]. Qed.

Lemma warn_quiet contract c legacy warned : calls quiet (warn_storage contract c legacy warned).
Proof. unfold warn_storage. repeat case_match; repeat first [apply calls_bind|apply calls_ret|apply calls_quietly|apply calls_await|intros ?|done]. Qed.


(** * A handover *)

(** Two members hand their intent over, the one an automatic schedule with recovery,
    the other the user's own. *)
Definition new_primary : Member := db_member "shop_main-replica" [(DB_ROLE_LABEL, "primary")] ["SWARMY_PG_ROLE=replica"] [].
Definition auto_donor : Member :=
  db_member "shop_main-primary" [(DB_ROLE_LABEL, "replica"); (DB_BACKUP_SCHEDULE_LABEL, "{" +:+ quoted "auto" +:+ ":true}"); (DB_BACKUP_PITR_LABEL, "true")] [] [].
Definition user_donor : Member :=
  db_member "shop_main-replica-eu" [(DB_ROLE_LABEL, "replica"); (DB_REGION_LABEL, "eu"); (DB_BACKUP_SCHEDULE_LABEL, json_obj "targetId" "t1")] [] [].

Definition handover : Cluster := cluster_of [auto_donor; user_donor; new_primary].
Definition carry_program : program Cluster := carryBackupIntent "m1" handover new_primary.
Definition live_labels : gmap string entries :=
  list_to_map (map (fun m => (mb_name m, mb_labels m)) [auto_donor; user_donor; new_primary]).

(** Stopped after the second of its three calls. *)
Lemma backup_intent_carried_witness : exists t1 ev live' lp, fst (run yes 0 carry_program) = t1 ++ [ev] /\ length t1 = 2%nat /\
  label_run live_labels t1 live' /\ live' !! "shop_main-replica" = Some lp /\
  (lp = mb_labels new_primary \/ get DB_BACKUP_SCHEDULE_LABEL lp = Some (json_obj "targetId" "t1")).
Proof.
  set (t1 := firstn 2 (fst (run yes 0 carry_program))). set (t2 := skipn 2 (fst (run yes 0 carry_program))).
  assert (Hr : exists live', label_run live_labels t1 live')
    by (eexists; eapply LR_cons; [left; reflexivity|]; eapply LR_cons; [left; reflexivity|apply LR_nil]).
  destruct Hr as [live' Hr].
  assert (Hn : NoDup (map mb_name (donors_of new_primary (replicaMembers handover)))) by (apply (bool_decide_eq_true_1 _); by vm_compute).
  assert (Hl : forall m, m ∈ new_primary :: donors_of new_primary (replicaMembers handover) -> live_labels !! mb_name m = Some (mb_labels m)).
  { apply Forall_forall. repeat constructor. }
  destruct (backup_intent_carried "m1" handover new_primary _ _ t1 t2 live_labels live'
    Hn (run_traces yes 0 carry_program) eq_refl Hl Hr) as (lp & H1 & _ & H2 & _).
  exists t1, (default (Event (ServiceRemove "" "") (inl tt)) (head t2)), live', lp.
  split; [vm_compute; reflexivity|]. split; [reflexivity|]. split; [exact Hr|]. split; [exact H1|].
  destruct H2 as [H2|H2]; [by left|right]. apply (H2 DB_BACKUP_SCHEDULE_LABEL); [apply mem_In|]; by vm_compute.
Defined.

Definition base_replica : Member := db_member "shop_main-replica" [(DB_ROLE_LABEL, "replica")] ["SWARMY_PG_ROLE=replica"] [].

(** A primary that is only mounted is adopted, its replica converged; the step then
    stamps the leader, and the scaler changes the replica's count. *)
Definition mounted_cluster : Cluster := cluster_with (Some mounted_primary) (Some base_replica) None None (no_cluster "shop" "main").
Definition storage_program : program Warned :=
  converge_storage "boot" "org1" "m1" true true mounted_cluster {| wn_legacy := false; wn_regions := [] |}.
Definition storage_trace : list (event effect) := fst (run db_answer 0 storage_program).
Definition later_calls : list (event effect) :=
  [Event (ServiceUpdateLabels "m1" "shop_main-primary" [(DB_LEADER_LABEL, "shop_main-primary")] []) (inl tt); Event (ServiceScale "m1" "shop_main-replica" 2) (inl tt)].


(** * Where a pass works against itself *)

(** A primary whose volume is mounted but not declared, with recovery asked for and not
    applied: the pass stamps the labels of its storage, and goes on to redeploy it from
    the inventory it started with, without a data volume. *)
Lemma recovery_before_adoption : storage_of mounted_primary = persistent "pg" true /\
  exists t1 s t2, db_trace [mounted_primary] = t1 ++ Event (ServiceDeploy "m1" s pull_missing None) (inl tt) :: t2 /\
    ss_name s = "shop_main-primary" /\ mounts_of s = [volume_mount "shop_main-wal-archive" WAL_ARCHIVE_MOUNT] /\
    get DB_DATA_VOLUME_LABEL (labels_of s) = None.
Proof.
  split; [by vm_compute|]. set (t := db_trace [mounted_primary]).
  exists (firstn 8 t), (default (member_spec "" "" 0 [] [] [] None None None None) (head (deploys_of t))), (skipn 9 t).
  split; [vm_compute; reflexivity|]. by vm_compute.
Qed.

(** Placing the primary in its write region drops the archive volume and the archive's
    configuration, and keeps the label that says they are applied. *)
Lemma placement_drops_archive script p region net : let s := placePrimarySpec script p region net in
  ss_configs s = None /\ (forall m, m ∈ mounts_of s -> mt_target m = MANAGED_PG_ROOT) /\
  get DB_PITR_APPLIED_LABEL (labels_of s) = get DB_PITR_APPLIED_LABEL (mb_labels p).
Proof.
  cbv zeta. unfold placePrimarySpec. set (l := obj_set _ _ _). set (spec := set_placement _ _).
  destruct (applyPgMember_labels script spec l eq_refl) as (l' & Hl' & Hk & _ & _). split; [|split].
  - unfold applyPgMember, applyPgBoot, applyPgCredential, applyDbStorage. simpl. repeat case_match; done.
  - intros m. destruct (label_in DB_DATA_VOLUME_LABEL l) as [v|] eqn:E.
    + rewrite (applyPgMember_mounts script spec l v) by done. by intros ->%list_elem_of_singleton.
    + unfold applyPgMember. destruct (credential_storage (applyDbStorage spec l) l) as [Em _]. unfold mounts_of in *. simpl. rewrite Em.
      unfold applyDbStorage. rewrite E. destruct (label_in DB_PIN_NODE_LABEL l), (label_in DB_AVOID_NODE_LABEL l); by intros ?%not_elem_of_nil.
  - unfold labels_of. rewrite Hl'. simpl. rewrite Hk by done. unfold l. by rewrite get_obj_set.
Qed.

(** A repointed member keeps the configurations it had, the archive's with them. *)
Lemma repoint_keeps_configs script s promoted net epoch : ss_configs (repointSpec script s promoted net epoch) = named_refs (mb_configs s).
Proof. unfold repointSpec, applyPgMember, applyPgBoot, applyPgCredential, applyDbStorage. simpl. repeat case_match; done. Qed.

(** After a promotion in a geo cluster the new primary declares no regions, so the
    replicas of the other regions are removed. *)
Definition promoted_region : Member :=
  db_member "shop_main-replica-eu" [(DB_ROLE_LABEL, "primary"); (DB_TOPOLOGY_LABEL, "geo"); (DB_REGION_LABEL, "eu"); (DB_LEADER_LABEL, "shop_main-replica-eu")] [] [].
Definition demoted_primary : Member :=
  db_member "shop_main-primary" [(DB_ROLE_LABEL, "replica"); (DB_TOPOLOGY_LABEL, "geo"); ("swarmy.db.region.eu.replicas", "1"); ("swarmy.db.region.us.replicas", "1")] [] [].
Definition other_region : Member :=
  db_member "shop_main-replica-us" [(DB_ROLE_LABEL, "replica"); (DB_TOPOLOGY_LABEL, "geo"); (DB_REGION_LABEL, "us")] [] [].

Lemma promotion_removes_regions :
  exists t1 t2, db_trace [promoted_region; demoted_primary; other_region] = t1 ++ Event (ServiceRemove "m1" "shop_main-replica-us") (inl tt) :: t2.
Proof.
  set (t := db_trace [promoted_region; demoted_primary; other_region]). exists (firstn 3 t), (skipn 4 t). vm_compute. reflexivity.
Qed.

(** A volume mounted at the data directory itself counts as persistent, and adoption
    mounts it one level up. *)
Lemma adoption_moves_mount : let p := db_member "shop_main-primary" [(DB_ROLE_LABEL, "primary")] [] [data_on "pg" MANAGED_PG_PGDATA] in
  storage_of p = persistent "pg" true /\ map mounts_of (deploys_of (db_trace [p])) = [[volume_mount "pg" MANAGED_PG_ROOT]].
Proof. by vm_compute. Qed.

(** Of two donors, the recovery flag of the first survives a user's schedule without it. *)
Lemma stale_recovery_flag : (bi_add <$> planBackupIntentCarry new_primary [auto_donor; user_donor]) =
  Some [(DB_BACKUP_SCHEDULE_LABEL, json_obj "targetId" "t1"); (DB_BACKUP_PITR_LABEL, "true")] /\
  intent_of new_primary [auto_donor; user_donor] DB_BACKUP_PITR_LABEL = None.
Proof. by vm_compute. Qed.
