(* ===== verification/PgBoot.v ===== *)
(** The entrypoint of a managed Postgres member (pgBootScript of packages/core/src/
    manageddb-pg.ts): what the shell script does to the directories of the data volume
    before it hands over to the image's own entrypoint.

    The script runs under [set -e], so it is a program of Effects.v whose commands may
    fail.  A command that fails may have done part of its work, and a container that is
    killed has run a prefix of the script.  Ownership, modes, the passfile and the
    contents of the generated configuration are left out. *)

From S2P Require Import Prelude Comparators Json JsonText KvCodec NetPolicy ServiceSpec SecretEnv SpecRead Effects ServicePatch PgMembers.

(** * The volume *)

(** A directory under the data root: whose data it holds, whether it has PG_VERSION and
    standby.signal, and the epoch in swarmy.rejoined. *)
Record Dir := { dr_data : Z; dr_empty : bool; dr_version : bool; dr_standby : bool; dr_rejoined : string }.

Abbreviation Volume := (list (string * Dir)).

Definition empty_dir : Dir := {| dr_data := 0; dr_empty := true; dr_version := false; dr_standby := false; dr_rejoined := "" |}.

Definition PGDATA : string := "pgdata".
Definition CLONE : string := "pgdata.clone".
Definition DRILL : string := "pgdata.drill-".
Definition DIVERGED : string := "pgdata.diverged-".
Definition INCOMPLETE : string := "pgdata.incomplete-".

(** [d] itself, or something in it. *)
Definition under (d n : string) : bool := String.eqb n d || startsWith (d +:+ "/") n.

(** * The commands of the script *)

Inductive shell : Type -> Type :=
  | TestVersion (d : string) : shell bool
  | TestStandby (d : string) : shell bool
  | TestExists (d : string) : shell bool
  | ReadRejoined (d : string) : shell string
  | Date : shell string
  | WaitPrimary (host : string) : shell ()
  | RemoveTree (d : string) : shell ()
  | RemoveDrills : shell ()
  | MakeDir (d : string) : shell ()
  | Basebackup (host d : string) : shell ()
  | RemoveEmpty (d : string) : shell bool
  | Move (a b : string) : shell ()
  | ClearSignals (d : string) : shell ()
  | TouchStandby (d : string) : shell ()
  | WriteRejoined (d epoch : string) : shell ()
  | WriteConf (d mode : string) : shell ()
  | Start : shell ().

Record BootEnv := { be_role : PgBootRole; be_host : string; be_epoch : string }.

(** The epoch of a failover drill. *)
Definition is_drill (epoch : string) : bool := startsWith "drill:" epoch.

(** A clone is made beside the data, verified, and renamed into place. *)
Definition clone (e : BootEnv) : prog shell () :=
  if String.eqb (be_host e) "" then Throw (Failed "a replica needs SWARMY_PG_PRIMARY_HOST")
  else
    do* await (WaitPrimary (be_host e)) in
    do* await (RemoveTree CLONE) in
    do* await (MakeDir CLONE) in
    do* await (Basebackup (be_host e) CLONE) in
    let* verified := await (TestVersion CLONE) in
    if negb verified then Throw (Failed "clone verification failed (PG_VERSION missing)")
    else
      let* there := await (TestExists PGDATA) in
      do* (if there : bool then
             let* gone := await (RemoveEmpty PGDATA) in
             if gone : bool then Ret tt
             else let* stamp := await Date in await (Move PGDATA (INCOMPLETE +:+ stamp))
           else Ret tt) in
      do* await (Move CLONE PGDATA) in
      do* await (ClearSignals PGDATA) in
      await (TouchStandby PGDATA).

(** A demoted writer's data is moved aside before it is cloned again; of a drill only the
    last copy is kept. *)
Definition set_aside (e : BootEnv) : prog shell () :=
  let* aside := (if is_drill (be_epoch e) then
                   do* await RemoveDrills in
                   let* stamp := await Date in Ret (DRILL +:+ stamp)
                 else let* stamp := await Date in Ret (DIVERGED +:+ stamp)) in
  await (Move PGDATA aside).

Definition replica_boot (e : BootEnv) : prog shell () :=
  let* version := await (TestVersion PGDATA) in
  do* (if negb version then clone e
       else
         let* standby := await (TestStandby PGDATA) in
         if standby : bool then Ret tt
         else if String.eqb (be_epoch e) "" then Ret tt
         else
           let* rejoined := await (ReadRejoined PGDATA) in
           if String.eqb rejoined (be_epoch e) then Ret tt
           else do* set_aside e in clone e) in
  if String.eqb (be_epoch e) "" then Ret tt
  else
    let* version := await (TestVersion PGDATA) in
    if version : bool then await (WriteRejoined PGDATA (be_epoch e)) else Ret tt.

(** A writer is not started empty beside the data of an older layout. *)
Definition primary_boot : prog shell () :=
  let* version := await (TestVersion PGDATA) in
  if version : bool then Ret tt
  else
    let* old := await (TestVersion "data") in
    if old : bool then Throw (Failed "refusing to start") else Ret tt.

Definition write_conf (e : BootEnv) : prog shell () :=
  let* version := await (TestVersion PGDATA) in
  if version : bool then
    let* standby := await (TestStandby PGDATA) in
    await (WriteConf PGDATA (if standby : bool then if String.eqb (be_host e) "" then "keep" else "standby" else "writer"))
  else Ret tt.

Definition boot (e : BootEnv) : prog shell () :=
  do* (match be_role e with boot_primary => primary_boot | boot_replica => replica_boot e end) in
  do* write_conf e in
  await Start.

(** * What the commands do *)

Definition has (f : Dir -> bool) (v : Volume) (d : string) : bool := default false (f <$> get d v).

Definition change_dir (d : string) (f : Dir -> Dir) (v : Volume) : Volume :=
  map (fun x => (fst x, if String.eqb (fst x) d then f (snd x) else snd x)) v.

Definition all_empty (d : string) (v : Volume) : bool := forallb (fun x => negb (under d (fst x)) || dr_empty (snd x)) v.

Definition removed (gone : string -> bool) (v : Volume) : Volume := List.filter (fun x => negb (gone (fst x))) v.

(** [mv a b]: into [b] when that is a directory, in its place otherwise. *)
Definition move_target (v : Volume) (a b : string) : string := match get b v with Some _ => b +:+ "/" +:+ a | None => b end.

Definition renamed (a t : string) (v : Volume) : Volume :=
  map (fun x => (if under a (fst x) then t +:+ sdrop (String.length a) (fst x) else fst x, snd x)) v.

Definition set_standby (x : Dir) : Dir :=
  {| dr_data := dr_data x; dr_empty := false; dr_version := dr_version x; dr_standby := true; dr_rejoined := dr_rejoined x |}.
Definition set_rejoined (epoch : string) (x : Dir) : Dir :=
  {| dr_data := dr_data x; dr_empty := false; dr_version := dr_version x; dr_standby := dr_standby x; dr_rejoined := epoch |}.

(** Two volumes that differ in what [f] covers only. *)
Definition differs_in (f : string -> bool) (v v' : Volume) : Prop := removed f v = removed f v'.

(** A command that succeeded, and one that failed. *)
Definition done_ {X} (c : shell X) (v : Volume) : X -> Volume -> Prop :=
  match c in shell X return X -> Volume -> Prop with
  | TestVersion d => fun b v' => v' = v /\ b = has dr_version v d
  | TestStandby d => fun b v' => v' = v /\ b = has dr_standby v d
  | TestExists d => fun b v' => v' = v /\ b = bool_decide (is_Some (get d v))
  | ReadRejoined d => fun s v' => v' = v /\ s = default "" (dr_rejoined <$> get d v)
  | Date | WaitPrimary _ | ClearSignals _ | WriteConf _ _ | Start => fun _ v' => v' = v
  | RemoveTree d => fun _ v' => v' = removed (under d) v
  | RemoveDrills => fun _ v' => v' = removed (startsWith DRILL) v
  | MakeDir d => fun _ v' => v' = match get d v with Some _ => v | None => v ++ [(d, empty_dir)] end
  | Basebackup _ d => fun _ v' => exists x, dr_empty x = false /\ v' = obj_set d x v
  | RemoveEmpty d => fun b v' => if b : bool then all_empty d v = true /\ v' = removed (under d) v else v' = v
  | Move a b => fun _ v' => is_Some (get a v) /\ get (move_target v a b) v = None /\ v' = renamed a (move_target v a b) v
  | TouchStandby d => fun _ v' => v' = change_dir d set_standby v
  | WriteRejoined d e => fun _ v' => v' = change_dir d (set_rejoined e) v
  end.

Definition failed {X} (c : shell X) (v v' : Volume) : Prop :=
  match c with
  | RemoveTree d | MakeDir d | Basebackup _ d => differs_in (under d) v v'
  | RemoveDrills => differs_in (startsWith DRILL) v v'
  | WriteRejoined d _ => v' = v \/ exists e, v' = change_dir d (set_rejoined e) v
  | _ => v' = v
  end.

Definition sh_step (v : Volume) (ev : event shell) (v' : Volume) : Prop :=
  match ev_answer ev with inl a => done_ (ev_call ev) v a v' | inr _ => failed (ev_call ev) v v' end.

Inductive sh_run : Volume -> list (event shell) -> Volume -> Prop :=
  | SR_nil v : sh_run v [] v
  | SR_cons v ev t v1 v2 : sh_step v ev v1 -> sh_run v1 t v2 -> sh_run v (ev :: t) v2.

(** A start of the container that came as far as [v']: it was killed, a command failed,
    or the image's entrypoint was reached. *)
Definition started (e : BootEnv) (v v' : Volume) : Prop :=
  exists t r t1 t2, traces (boot e) t r /\ t = t1 ++ t2 /\ sh_run v t1 v'.

(** A start that reached the image's entrypoint. *)
Definition booted (e : BootEnv) (v v' : Volume) : Prop := exists t, traces (boot e) t (inl tt) /\ sh_run v t v'.

(** A container that is started again and again, with the environments [es]. *)
Inductive restarts : list BootEnv -> Volume -> Volume -> Prop :=
  | RS_nil v : restarts [] v v
  | RS_cons e es v v1 v2 : started e v v1 -> restarts es v1 v2 -> restarts (e :: es) v v2.

(** * A crash logic for scripts *)

(** [crash_wp I p v Q]: started on [v], [p] keeps [I] after every command, and [Q] holds when it
    returns. *)
Fixpoint crash_wp {A} (I : Volume -> Prop) (p : prog shell A) (v : Volume) (Q : A -> Volume -> Prop) : Prop :=
  I v /\ match p with
         | Ret a => Q a v
         | Throw _ => True
         | Call c k => forall x v', sh_step v (Event c x) v' -> crash_wp I (k x) v' Q
         end.

Section logic.
Context (I : Volume -> Prop).

Lemma crash_inv {A} (p : prog shell A) v Q : crash_wp I p v Q -> I v.
Proof. destruct p; by intros [H _]. Qed.

Lemma crash_sound {A} (p : prog shell A) v Q t r t1 t2 v' : crash_wp I p v Q -> traces p t r -> t = t1 ++ t2 -> sh_run v t1 v' ->
  I v' /\ (t2 = [] -> forall a, r = inl a -> Q a v').
Proof.
  revert v t t1. induction p as [a|x|X c k IH]; intros v t t1 Hp Ht -> Hr.
  - destruct Ht as [[-> ->]%app_nil ->]. inversion Hr; subst. destruct Hp as [Hi Hq]. split; [done|]. by intros _ b [= <-].
  - destruct Ht as [[-> ->]%app_nil ->]. inversion Hr; subst. destruct Hp as [Hi _]. by split.
  - destruct Ht as (y & t' & Et & Ht). inversion Hr as [|v0 ev t1' v1 v2 Hs Hr']; subst.
    + split; [by apply crash_inv in Hp|]. simpl in Et. by intros ->.
    + injection Et as -> <-. destruct Hp as [_ Hp]. by eapply (IH y _ _ t1' (Hp _ _ Hs) Ht).
Qed.

Lemma crash_bind {A B} (p : prog shell A) (f : A -> prog shell B) v Q : crash_wp I p v (fun a v' => crash_wp I (f a) v' Q) -> crash_wp I (bind p f) v Q.
Proof.
  revert v. induction p as [a|x|X c k IH]; intros v H; simpl in *; [by destruct H|done|].
  destruct H as [Hi H]. split; [done|]. intros y v' Hs. by apply IH, H.
Qed.

Lemma crash_await {X} (c : shell X) v (Q : X -> Volume -> Prop) : I v -> (forall v', failed c v v' -> I v') ->
  (forall a v', done_ c v a v' -> I v' /\ Q a v') -> crash_wp I (await c) v Q.
Proof. intros Hi Hf Hd. split; [done|]. intros [a|x] v' Hs; [by apply Hd|]. split; [|done]. by apply (Hf v'). Qed.

Lemma crash_ret {A} (a : A) v (Q : A -> Volume -> Prop) : I v -> Q a v -> crash_wp I (Ret a) v Q.
Proof. by split. Qed.

Lemma crash_mono {A} (p : prog shell A) v (Q R : A -> Volume -> Prop) : (forall a v', I v' -> Q a v' -> R a v') -> crash_wp I p v Q -> crash_wp I p v R.
Proof.
  intros H. revert v. induction p as [a|x|X c k IH]; intros v [Hi Hp]; (split; [done|]); [by apply H|done|].
  intros y v' Hs. by apply IH, Hp.
Qed.

(** A command that looks only. *)
Lemma crash_look {X} (c : shell X) v (Q : X -> Volume -> Prop) : I v -> (forall v', failed c v v' -> v' = v) ->
  (forall a v', done_ c v a v' -> v' = v /\ Q a v) -> crash_wp I (await c) v Q.
Proof. intros Hi Hf Hd. apply crash_await; [done|by intros v' ->%Hf|]. by intros a v' [-> H]%Hd. Qed.
End logic.

(** * What a start may lose *)

(** The names whose data is kept: not the side directory of a clone, nor, unless [drills],
    the copies of failover drills. *)
Definition kept_name (drills : bool) (n : string) : bool := negb (under CLONE n) && (drills || negb (startsWith DRILL n)).

(** The data of [x] is in [v], under a name of [K]. *)
Definition holds (K : string -> bool) (v : Volume) (x : Dir) : Prop :=
  exists n y, (n, y) ∈ v /\ K n = true /\ dr_data y = dr_data x /\ dr_version y = dr_version x /\ dr_empty y = false.

Definition keeps (d d' : string -> bool) (v v' : Volume) : Prop := forall x, holds d v x -> holds d' v' x.

(** PGDATA is what it was, or a copy that was verified. *)
Definition whole (v v' : Volume) : Prop :=
  forall x, get PGDATA v' = Some x -> dr_version x = true \/ (exists y, get PGDATA v = Some y /\ dr_data y = dr_data x /\ dr_version y = dr_version x /\ dr_empty y = dr_empty x).

Lemma keeps_refl d v : keeps d d v v.
Proof. by intros x H. Qed.

Lemma keeps_trans d1 d2 d3 v1 v2 v3 : keeps d1 d2 v1 v2 -> keeps d2 d3 v2 v3 -> keeps d1 d3 v1 v3.
Proof. intros H1 H2 x H. by apply H2, H1. Qed.

Lemma keeps_sub (K K' : string -> bool) v : (forall n, K n = true -> K' n = true) -> keeps K K' v v.
Proof. intros HK x (n & y & Hin & Hn & H). exists n, y. split; [done|]. split; [by apply HK|done]. Qed.

(** The names outside PGDATA whose data a start keeps. *)
Definition outside (n : string) : bool := kept_name false n && negb (under PGDATA n).

(** A start keeps what was under the names [K], under those of [K']. *)
Record names (drill : bool) (K K' : string -> bool) : Prop := {
  nm_clone : forall n, K' n = true -> under CLONE n = false;
  nm_sub : forall n, K n = true -> K' n = true;
  nm_drills : drill = true -> forall n, K n = true -> startsWith DRILL n = false;
  nm_aside : forall r s, under PGDATA (PGDATA +:+ r) = true -> K (PGDATA +:+ r) = true -> K' ((if drill then DRILL else DIVERGED) +:+ s) = true;
  nm_incomplete : forall r s, under PGDATA (PGDATA +:+ r) = true -> K' (PGDATA +:+ r) = true -> K' (INCOMPLETE +:+ s) = true
}.

Lemma kept_clone d n : kept_name d n = true -> under CLONE n = false.
Proof. unfold kept_name. by destruct (under CLONE n). Qed.

(** Of a drill, the copy it makes is not among the names kept by the next one. *)
Lemma names_drill : names true (kept_name false) (kept_name true).
Proof. split; [apply kept_clone| | |done|done]; intros; unfold kept_name in *; by destruct (under CLONE n), (startsWith DRILL n). Qed.

Lemma names_usual b : names false (kept_name b) (kept_name b).
Proof. split; [apply kept_clone|done|done|by destruct b|by destruct b]. Qed.

Lemma names_outside : names true outside outside.
Proof.
  assert (Hn : forall r, under PGDATA (PGDATA +:+ r) = true -> outside (PGDATA +:+ r) = false) by (intros r H; unfold outside; by rewrite H, andb_false_r).
  split; [|done| | |].
  - by intros n [H _]%andb_true_iff; apply kept_clone in H.
  - intros _ n [H _]%andb_true_iff. unfold kept_name in H. by destruct (startsWith DRILL n), (under CLONE n).
  - intros r s H1 H2. by rewrite Hn in H2.
  - intros r s H1 H2. by rewrite Hn in H2.
Qed.

Lemma removed_elem f v x : x ∈ removed f v <-> x ∈ v /\ f (fst x) = false.
Proof. unfold removed. rewrite !list_elem_of_In, filter_In. by rewrite negb_true_iff. Qed.

(** What is removed or rewritten elsewhere is not missed. *)
Lemma keeps_differs d f v v' : (forall n, (d n : bool) = true -> f n = false) -> differs_in f v v' -> keeps d d v v'.
Proof.
  intros Hf Hv x (n & y & Hin & Hn & H). exists n, y. split; [|done].
  assert (Hr : (n, y) ∈ removed f v') by (rewrite <- Hv; apply removed_elem; split; [done|by apply Hf]). by apply removed_elem in Hr as [? _].
Qed.

Lemma keeps_empty d k v : all_empty k v = true -> keeps d d v (removed (under k) v).
Proof.
  intros He x (n & y & Hin & Hn & H1 & H2 & H3). exists n, y. split; [|done]. apply removed_elem. split; [done|]. simpl.
  unfold all_empty in He. rewrite forallb_forall in He. specialize (He (n, y)). rewrite <- list_elem_of_In in He. specialize (He Hin). simpl in He.
  by destruct (under k n); [rewrite H3 in He|].
Qed.

Lemma keeps_change d k f v : (forall x, dr_data (f x) = dr_data x /\ dr_version (f x) = dr_version x /\ dr_empty (f x) = false) -> keeps d d v (change_dir k f v).
Proof.
  intros Hf x (n & y & Hin & Hn & H1 & H2 & H3). destruct (Hf y) as (F1 & F2 & F3).
  exists n, (if String.eqb n k then f y else y). split; [|split; [done|]; destruct (String.eqb n k); [split; [congruence|split; congruence]|done]].
  unfold change_dir. apply list_elem_of_fmap. by exists (n, y).
Qed.

Lemma under_split a n : under a n = true -> n = a +:+ sdrop (String.length a) n.
Proof.
  unfold under. intros [->%String.eqb_eq|[r ->]%startsWith_spec]%orb_true_iff.
  - rewrite <- (string_app_nil_r a) at 4. by rewrite sdrop_app, string_app_nil_r.
  - rewrite string_app_assoc. by rewrite sdrop_app.
Qed.

Lemma keeps_renamed d d' a t v : (forall n, (d n : bool) = true -> d' n = true) ->
  (forall r, under a (a +:+ r) = true -> d (a +:+ r) = true -> d' (t +:+ r) = true) -> keeps d d' v (renamed a t v).
Proof.
  intros Hv Ht x (n & y & Hin & Hn & H).
  exists (if under a n then t +:+ sdrop (String.length a) n else n), y. split; [unfold renamed; apply list_elem_of_fmap; by exists (n, y)|].
  split; [|done]. destruct (under a n) eqn:E; [|by apply Hv]. apply Ht; by rewrite <- under_split.
Qed.

(** ** Looking a directory up after a command *)

Lemma get_removed f n v : f n = false -> get n (removed f v) = get n v.
Proof.
  intros Hf. induction v as [|[m x] v IH]; [done|]. unfold removed in *. simpl.
  destruct (String.eqb n m) eqn:E; [apply String.eqb_eq in E as <-; rewrite Hf; simpl; by rewrite String.eqb_refl|].
  destruct (f m); simpl; by rewrite ?E.
Qed.

Lemma get_removed_gone f n v : f n = true -> get n (removed f v) = None.
Proof.
  intros Hf. induction v as [|[m x] v IH]; [done|]. unfold removed in *. simpl. destruct (f m) eqn:Em; simpl; [done|].
  destruct (String.eqb_spec n m) as [->|]; [congruence|done].
Qed.

Lemma get_change n k f v : get n (change_dir k f v) = if String.eqb n k then f <$> get n v else get n v.
Proof.
  induction v as [|[m x] v IH]; simpl; [by destruct (String.eqb n k)|].
  destruct (String.eqb_spec n m) as [<-|]; [by destruct (String.eqb n k)|done].
Qed.

Lemma get_renamed_other a t n v : under a n = false -> (forall r, t +:+ r <> n) -> get n (renamed a t v) = get n v.
Proof.
  intros Ha Ht. induction v as [|[m x] v IH]; simpl; [done|]. destruct (under a m) eqn:E.
  - destruct (String.eqb_spec n (t +:+ sdrop (String.length a) m)) as [H|_]; [by destruct (Ht _ (eq_sym H))|].
    destruct (String.eqb_spec n m) as [->|_]; [congruence|done].
  - by rewrite IH.
Qed.

Lemma under_refl a : under a a = true.
Proof. unfold under. by rewrite String.eqb_refl. Qed.

Lemma get_renamed_gone a t v : (forall r, t +:+ r <> a) -> get a (renamed a t v) = None.
Proof.
  intros Ht. induction v as [|[m x] v IH]; simpl; [done|]. destruct (under a m) eqn:E.
  - destruct (String.eqb_spec a (t +:+ sdrop (String.length a) m)) as [H|_]; [by destruct (Ht _ (eq_sym H))|done].
  - destruct (String.eqb_spec a m) as [<-|_]; [by rewrite under_refl in E|done].
Qed.

Lemma app_self (t r : string) : t +:+ r = t -> r = "".
Proof. intros H. apply (f_equal String.length) in H. rewrite string_length_app in H. destruct r; [done|simpl in H; lia]. Qed.

Lemma get_renamed_to a t v : get t v = None -> get t (renamed a t v) = get a v.
Proof.
  induction v as [|[m x] v IH]; simpl; [done|]. destruct (String.eqb_spec t m) as [|Hm]; [done|]. intros Ht.
  destruct (under a m) eqn:E.
  - apply under_split in E. destruct (String.eqb_spec t (t +:+ sdrop (String.length a) m)) as [H|H].
    + symmetry in H. apply app_self in H. rewrite H, string_app_nil_r in E. subst m. by rewrite String.eqb_refl.
    + destruct (String.eqb_spec a m) as [<-|_]; [|by apply IH]. destruct H.
      rewrite <- (string_app_nil_r a) at 2. by rewrite sdrop_app, string_app_nil_r.
  - destruct (String.eqb_spec t m) as [|_]; [done|]. destruct (String.eqb_spec a m) as [<-|_]; [by rewrite under_refl in E|by apply IH].
Qed.

(** ** Commands that lose nothing *)

Definition fine (d : string -> bool) (v v' : Volume) : Prop := keeps d d v v' /\ whole v v'.

Lemma whole_same v v' : get PGDATA v' = get PGDATA v -> whole v v'.
Proof. intros H x Hx. right. exists x. by rewrite <- H. Qed.

Lemma whole_none v v' : get PGDATA v' = None -> whole v v'.
Proof. by intros H x Hx; rewrite H in Hx. Qed.

Lemma fine_beside (d : string -> bool) v v' : (forall n, d n = true -> under CLONE n = false) -> differs_in (under CLONE) v v' -> fine d v v'.
Proof.
  intros Hd H. split; [by apply (keeps_differs d (under CLONE))|].
  apply whole_same. by rewrite <- (get_removed (under CLONE) PGDATA v), H, get_removed.
Qed.

Lemma fine_drills (d : string -> bool) v v' : (forall n, d n = true -> startsWith DRILL n = false) -> differs_in (startsWith DRILL) v v' -> fine d v v'.
Proof.
  intros Hd H. split.
  - by apply (keeps_differs d (startsWith DRILL)).
  - apply whole_same. by rewrite <- (get_removed (startsWith DRILL) PGDATA v), H, get_removed.
Qed.

Lemma removed_twice f v : removed f (removed f v) = removed f v.
Proof. unfold removed. induction v as [|x v IH]; simpl; [done|]. destruct (f (fst x)) eqn:E; simpl; [done|]. by rewrite E, IH. Qed.

Lemma differs_removed f v : differs_in f v (removed f v).
Proof. unfold differs_in. by rewrite removed_twice. Qed.

Lemma differs_made k x v : differs_in (under k) v (v ++ [(k, x)]).
Proof. unfold differs_in, removed. rewrite List.filter_app. simpl. by rewrite under_refl, app_nil_r. Qed.

Lemma differs_set k x v : differs_in (under k) v (obj_set k x v).
Proof.
  unfold differs_in, removed. induction v as [|[m y] v IH]; simpl; [by rewrite under_refl|].
  destruct (String.eqb_spec k m) as [<-|]; simpl; [by rewrite under_refl|]. by rewrite IH.
Qed.

Lemma fine_empty d v : all_empty PGDATA v = true -> fine d v (removed (under PGDATA) v).
Proof. intros H. split; [by apply keeps_empty|]. apply whole_none. by rewrite get_removed_gone. Qed.

(** [mv] to a fresh name. *)
Lemma move_target_app v a p s : exists s', move_target v a (p +:+ s) = p +:+ s'.
Proof. unfold move_target. destruct (get _ _); [|by eexists]. rewrite string_app_assoc. by eexists. Qed.

Lemma moved_aside (d d' : string -> bool) p s v : (forall r s, under PGDATA (PGDATA +:+ r) = true -> d (PGDATA +:+ r) = true -> d' (p +:+ s) = true) ->
  (forall r, p +:+ r <> PGDATA) -> (forall n, d n = true -> d' n = true) ->
  let v' := renamed PGDATA (p +:+ s) v in keeps d d' v v' /\ whole v v' /\ get PGDATA v' = None.
Proof.
  intros Hp Hn Hd. assert (Hg : get PGDATA (renamed PGDATA (p +:+ s) v) = None).
  { apply get_renamed_gone. intros r. rewrite string_app_assoc. apply Hn. }
  split; [|split; [by apply whole_none|done]]. apply keeps_renamed; [done|].
  intros r Hu Hr. rewrite string_app_assoc. by apply (Hp r).
Qed.

Lemma usual_names b : exists K K', names b K K'.
Proof. destruct b; eexists _, _; [apply names_drill|apply (names_usual true)]. Qed.

Section start.
Context (e : BootEnv) (v0 : Volume) (K K' : string -> bool) (HK : names (is_drill (be_epoch e)) K K').

(** What holds at every moment of a start. *)
Definition so_far (d : string -> bool) (v : Volume) : Prop := keeps K d v0 v /\ whole v0 v.

Lemma so_far_fine d v v' : so_far d v -> fine d v v' -> so_far d v'.
Proof.
  intros [H1 H2] [H3 H4]. split; [by eapply keeps_trans|]. intros x Hx. destruct (H4 x Hx) as [?|(y & Hy & E1 & E2 & E3)]; [by left|].
  destruct (H2 y Hy) as [?|(z & Hz & F1 & F2 & F3)]; [left; congruence|]. right. exists z. repeat split; congruence.
Qed.

(** A verified clone takes the place of PGDATA. *)
Lemma fine_installed v x : get PGDATA v = None -> get CLONE v = Some x -> dr_version x = true -> fine K' v (renamed CLONE PGDATA v).
Proof using Type*.
  intros Hp Hc Hx. split.
  - apply keeps_renamed; [done|]. intros r Hu Hk%(nm_clone _ _ _ HK). congruence.
  - intros y. rewrite get_renamed_to, Hc by done. intros [= <-]. by left.
Qed.

(** A mark in PGDATA. *)
Lemma fine_marked d f v : (forall x, dr_data (f x) = dr_data x /\ dr_version (f x) = dr_version x /\ dr_empty (f x) = false) ->
  has dr_version v PGDATA = true -> fine d v (change_dir PGDATA f v).
Proof.
  intros Hf Hv. split; [by apply keeps_change|]. intros x. rewrite get_change, String.eqb_refl. unfold has in Hv.
  destruct (get PGDATA v) as [y|]; [|done]. simpl in *. intros [= <-]. left. by destruct (Hf y) as (_ & -> & _).
Qed.

Definition cloned (v : Volume) : Prop := exists x, get PGDATA v = Some x /\ dr_version x = true /\ dr_standby x = true.

Lemma crash_beside v v' : so_far K' v -> differs_in (under CLONE) v v' -> so_far K' v'.
Proof using Type*. intros H Hd. eapply so_far_fine; [done|]. apply fine_beside; [apply (nm_clone _ _ _ HK)|done]. Qed.

Lemma crash_install v x : so_far K' v -> get PGDATA v = None -> get CLONE v = Some x -> dr_version x = true ->
  crash_wp (so_far K') (do* await (Move CLONE PGDATA) in do* await (ClearSignals PGDATA) in await (TouchStandby PGDATA)) v (fun _ => cloned).
Proof using Type*.
  intros Hi Hp Hc Hx. apply crash_bind, crash_await; [done|by intros v' ->|]. intros [] v' (_ & _ & ->).
  unfold move_target. rewrite Hp. assert (Hi' : so_far K' (renamed CLONE PGDATA v)) by (eapply so_far_fine; [done|by eapply fine_installed]).
  assert (Hg : get PGDATA (renamed CLONE PGDATA v) = Some x) by (by rewrite get_renamed_to).
  split; [done|]. apply crash_bind, crash_look; [done|done|]. intros [] v' ->. split; [done|].
  apply crash_await; [done|by intros v' ->|]. intros [] v' ->. split.
  - eapply so_far_fine; [done|]. apply fine_marked; [done|]. unfold has. by rewrite Hg.
  - exists (set_standby x). rewrite get_change, String.eqb_refl, Hg. by simpl.
Qed.

(** PGDATA is moved out of the way. *)
Lemma crash_aside d p stamp v (Q : () -> Volume -> Prop) : so_far d v ->
  (forall r s, under PGDATA (PGDATA +:+ r) = true -> d (PGDATA +:+ r) = true -> K' (p +:+ s) = true) -> (forall r, p +:+ r <> PGDATA) ->
  (forall n, d n = true -> K' n = true) ->
  (forall s, so_far K' (renamed PGDATA (p +:+ s) v) -> get PGDATA (renamed PGDATA (p +:+ s) v) = None -> Q tt (renamed PGDATA (p +:+ s) v)) ->
  crash_wp (so_far K') (await (Move PGDATA (p +:+ stamp))) v Q.
Proof using Type.
  intros Hi Hk Hn Hd HQ. assert (Hi' : so_far K' v) by (destruct Hi as [H1 H2]; split; [by eapply keeps_trans; [done|apply keeps_sub]|done]).
  apply crash_await; [done|by intros v' ->|]. intros [] v' (_ & _ & ->).
  destruct (move_target_app v PGDATA p stamp) as [s ->]. destruct (moved_aside d K' p s v) as (H1 & H2 & H3); [done..|].
  assert (H : so_far K' (renamed PGDATA (p +:+ s) v)); [|by split; [|apply HQ]].
  split; [by eapply keeps_trans; [apply Hi|]|by intros x Hx; rewrite H3 in Hx].
Qed.

Lemma crash_clone v : so_far K' v -> crash_wp (so_far K') (clone e) v (fun _ => cloned).
Proof using Type*.
  intros Hi. unfold clone. destruct (String.eqb (be_host e) ""); [by split|].
  apply crash_bind, crash_look; [done|done|]. intros [] v' ->. split; [done|].
  apply crash_bind, crash_await; [done|intros v1 H; by eapply crash_beside|]. intros [] v1 ->.
  assert (Hi1 : so_far K' (removed (under CLONE) v)) by (eapply crash_beside, differs_removed; done). split; [done|].
  clear Hi. set (v1 := removed _ _) in *. clearbody v1. clear v.
  apply crash_bind, crash_await; [done|intros v2 H; by eapply crash_beside|]. intros [] v2 E2.
  assert (Hi2 : so_far K' v2).
  { eapply crash_beside; [done|]. rewrite E2. destruct (get CLONE v1); [done|apply differs_made]. } split; [done|].
  clear v1 Hi1 E2. apply crash_bind, crash_await; [done|intros v3 H; by eapply crash_beside|]. intros [] v3 (x0 & _ & ->).
  assert (Hi3 : so_far K' (obj_set CLONE x0 v2)) by (eapply crash_beside, differs_set; done). split; [done|].
  set (v3 := obj_set CLONE x0 v2) in *. clearbody v3. clear v2 Hi2 x0.
  apply crash_bind, crash_look; [done|done|]. intros b v' [-> ->]. split; [done|].
  destruct (has dr_version v3 CLONE) eqn:Hv; simpl; [|by split]. unfold has in Hv.
  destruct (get CLONE v3) as [x|] eqn:Hc; [|done]. simpl in Hv.
  apply (crash_bind _ (await (TestExists PGDATA))), crash_look; [done|done|]. intros there v' [-> ->]. split; [done|].
  eapply crash_bind, crash_mono with (Q := fun _ v' => get PGDATA v' = None /\ get CLONE v' = Some x).
  { intros [] v' Hi' [Hp Hc']. by eapply crash_install. }
  case_bool_decide as Hex; [|apply crash_ret; [done|]; split; [|done]; destruct (get PGDATA v3); [by destruct Hex|done]].
  apply (crash_bind _ (await (RemoveEmpty PGDATA))), crash_await; [done|by intros v' ->|]. intros [] v' H; simpl in H.
  - destruct H as [He ->]. assert (Hi' : so_far K' (removed (under PGDATA) v3)) by (eapply so_far_fine, fine_empty; done).
    split; [done|]. apply crash_ret; [done|]. split; [by rewrite get_removed_gone|by rewrite get_removed].
  - subst v'. split; [done|]. apply (crash_bind _ (await Date)), crash_look; [done|by intros v' ->|]. intros stamp v' ->. split; [done|].
    apply (crash_aside K' INCOMPLETE); [done|by apply (nm_incomplete _ _ _ HK)|done|done|].
    intros s _ Hp. split; [done|]. by rewrite get_renamed_other.
Qed.

Lemma so_far_sub v : so_far K v -> so_far K' v.
Proof using Type*. intros [H1 H2]. split; [|done]. eapply keeps_trans; [done|]. apply keeps_sub, (nm_sub _ _ _ HK). Qed.

Lemma crash_set_aside v : so_far K v -> crash_wp (so_far K') (set_aside e) v (fun _ _ => True).
Proof using Type*.
  intros Hi. pose proof (nm_drills _ _ _ HK) as Hd. pose proof (nm_aside _ _ _ HK) as Ha.
  pose proof (nm_sub _ _ _ HK) as Hn. pose proof so_far_sub as Hsub. unfold set_aside. clear HK. destruct (is_drill _).
  - apply crash_bind, (crash_bind _ (await RemoveDrills)), crash_await; [by apply Hsub| |].
    + intros v' H. apply Hsub. eapply so_far_fine; [done|]. by apply fine_drills; [apply Hd|].
    + intros [] v' ->. assert (Hi' : so_far K (removed (startsWith DRILL) v)) by (eapply so_far_fine; [done|]; apply fine_drills; [by apply Hd|apply differs_removed]).
      split; [by apply Hsub|]. apply (crash_bind _ (await Date)), crash_look; [by apply Hsub|by intros v' ->|].
      intros stamp v' ->. split; [done|]. apply crash_ret; [by apply Hsub|].
      by apply (crash_aside K DRILL); [|apply Ha| |exact Hn|].
  - apply Hsub in Hi as Hi'. apply crash_bind, (crash_bind _ (await Date)), crash_look; [done|by intros v' ->|]. intros stamp v' ->. split; [done|].
    apply crash_ret; [done|]. by apply (crash_aside K DIVERGED); [|apply Ha| |exact Hn|].
Qed.

(** What a replica keeps: a standby, and the data of a writer unless it is told to rejoin
    with an epoch it has not rejoined with. *)
Definition keeps_data (v : Volume) : bool :=
  has dr_version v PGDATA &&
  (has dr_standby v PGDATA || String.eqb (be_epoch e) "" || String.eqb (default "" (dr_rejoined <$> get PGDATA v)) (be_epoch e)).

Definition marked (v : Volume) : Volume := if String.eqb (be_epoch e) "" then v else change_dir PGDATA (set_rejoined (be_epoch e)) v.

(** A start of a replica that ends: its data is what it was, or a clone. *)
Definition replica_outcome (v : Volume) : Prop :=
  if keeps_data v0 then v = marked v0 else exists v1, cloned v1 /\ v = marked v1.

Lemma so_far_start : so_far K v0.
Proof using Type. split; [apply keeps_refl|by apply whole_same]. Qed.

Lemma crash_mark v : so_far K' v -> has dr_version v PGDATA = true ->
  crash_wp (so_far K') (if String.eqb (be_epoch e) "" then Ret tt
    else let* version := await (TestVersion PGDATA) in if version : bool then await (WriteRejoined PGDATA (be_epoch e)) else Ret tt) v (fun _ v' => v' = marked v).
Proof.
  intros Hi Hv. unfold marked. destruct (String.eqb _ _); [by apply crash_ret|].
  apply (crash_bind _ (await (TestVersion PGDATA))), crash_look; [done|done|]. intros b v' [-> ->]. split; [done|]. rewrite Hv.
  apply crash_await; [done| |].
  - intros v' [->|[x ->]]; [done|]. eapply so_far_fine; [done|]. by apply fine_marked.
  - intros [] v' ->. split; [|done]. eapply so_far_fine; [done|]. by apply fine_marked.
Qed.

Lemma crash_replica : crash_wp (so_far K') (replica_boot e) v0 (fun _ => replica_outcome).
Proof using Type*.
  unfold replica_boot, replica_outcome, keeps_data. assert (Hi := so_far_sub v0 so_far_start).
  apply (crash_bind _ (await (TestVersion PGDATA))), crash_look; [done|done|]. intros b v' [-> ->]. split; [done|].
  assert (Hclone : forall v, so_far K' v -> crash_wp (so_far K') (clone e) v (fun _ v' => cloned v' /\ has dr_version v' PGDATA = true)).
  { intros v H. eapply crash_mono; [|by apply crash_clone]. intros _ v' _ (x & Hx & Hv & Hs). split; [by exists x|]. unfold has. by rewrite Hx. }
  assert (Hend : forall v, so_far K' v -> crash_wp (so_far K') (clone e) v (fun _ v' =>
    crash_wp (so_far K') (if String.eqb (be_epoch e) "" then Ret tt
      else let* version := await (TestVersion PGDATA) in if version : bool then await (WriteRejoined PGDATA (be_epoch e)) else Ret tt) v'
      (fun _ w => exists v1, cloned v1 /\ w = marked v1))).
  { intros v H. eapply crash_mono; [|by apply Hclone]. intros _ v' Hi' [Hc Hv]. eapply crash_mono; [|by apply crash_mark]. intros _ w _ ->. by exists v'. }
  apply crash_bind. destruct (has dr_version v0 PGDATA) eqn:Hv; simpl andb; simpl negb; cbv iota; [|by apply Hend].
  apply (crash_bind _ (await (TestStandby PGDATA))), crash_look; [done|done|]. intros b v' [-> ->]. split; [done|].
  destruct (has dr_standby v0 PGDATA); simpl orb; [apply crash_ret; [done|]; by apply crash_mark|].
  destruct (String.eqb (be_epoch e) "") eqn:Ee; simpl orb; cbv iota; [apply crash_ret; [done|]; apply crash_ret; [done|]; unfold marked; by rewrite Ee|].
  apply (crash_bind _ (await (ReadRejoined PGDATA))), crash_look; [done|done|]. intros m v' [-> ->]. split; [done|].
  destruct (String.eqb (default _ _) _) eqn:Em; cbv iota.
  - apply crash_ret; [done|]. pose proof (crash_mark v0 Hi Hv) as H. by rewrite Ee in H.
  - apply crash_bind. eapply crash_mono; [|apply crash_set_aside, so_far_start]. intros _ v Hv' _. by apply Hend.
Qed.
End start.

Section boots.
Context (e : BootEnv) (v : Volume).

(** What a start that reached the image's entrypoint has done. *)
Definition boot_result (v' : Volume) : Prop :=
  match be_role e with
  | boot_primary => v' = v /\ (has dr_version v PGDATA = true \/ has dr_version v "data" = false)
  | boot_replica => replica_outcome e v v'
  end.

Section kept.
Context (K K' : string -> bool) (HK : names (is_drill (be_epoch e)) K K').

Lemma crash_primary : crash_wp (so_far v K K') primary_boot v (fun _ v' => v' = v /\ (has dr_version v PGDATA = true \/ has dr_version v "data" = false)).
Proof using Type*.
  assert (Hi := so_far_sub e v K K' HK v (so_far_start v K)). unfold primary_boot.
  apply (crash_bind _ (await (TestVersion PGDATA))), crash_look; [done|done|]. intros b v' [-> ->]. split; [done|].
  destruct (has dr_version v PGDATA); [apply crash_ret; [done|]; split; [done|by left]|].
  apply (crash_bind _ (await (TestVersion "data"))), crash_look; [done|done|]. intros b v' [-> ->]. split; [done|].
  destruct (has dr_version v "data") eqn:E; [by split|]. apply crash_ret; [done|]. split; [done|by right].
Qed.

Lemma crash_conf w : so_far v K K' w -> crash_wp (so_far v K K') (do* write_conf e in await Start) w (fun _ w' => w' = w).
Proof using Type*.
  intros Hi. apply crash_bind. eapply crash_mono with (Q := fun _ w' => w' = w).
  { intros [] w' Hi' ->. apply crash_look; [done|by intros w'' ->|]. by intros [] w'' ->. }
  unfold write_conf. apply (crash_bind _ (await (TestVersion PGDATA))), crash_look; [done|done|]. intros b w' [-> ->]. split; [done|].
  destruct (has dr_version w PGDATA); [|by apply crash_ret].
  apply (crash_bind _ (await (TestStandby PGDATA))), crash_look; [done|done|]. intros b w' [-> ->]. split; [done|].
  apply crash_look; [done|by intros w' ->|]. by intros [] w' ->.
Qed.

Lemma crash_boot : crash_wp (so_far v K K') (boot e) v (fun _ => boot_result).
Proof using Type*.
  unfold boot, boot_result. apply crash_bind. eapply crash_mono with (Q := fun _ w => match be_role e with
    | boot_primary => w = v /\ (has dr_version v PGDATA = true \/ has dr_version v "data" = false)
    | boot_replica => replica_outcome e v w end).
  - intros [] w Hi HQ. eapply crash_mono; [|by apply crash_conf]. by intros [] w' _ ->.
  - destruct (be_role e); [apply crash_primary|by apply crash_replica].
Qed.

Lemma started_so_far v' : started e v v' -> so_far v K K' v'.
Proof using Type*. intros (t & r & t1 & t2 & Ht & E & Hr). by eapply (crash_sound _ _ _ _ _ _ _ _ _ crash_boot). Qed.
End kept.

Lemma booted_result v' : booted e v v' -> boot_result v'.
Proof. intros (t & Ht & Hr). destruct (usual_names (is_drill (be_epoch e))) as (K & K' & HK). by eapply (crash_sound _ _ _ _ _ _ t [] _ (crash_boot K K' HK)); [done|by rewrite app_nil_r| | |]. Qed.

Lemma marked_get w x : get PGDATA w = Some x ->
  exists y, get PGDATA (marked e w) = Some y /\ dr_version y = dr_version x /\ dr_standby y = dr_standby x /\ dr_data y = dr_data x /\ (be_epoch e = "" \/ dr_rejoined y = be_epoch e).
Proof.
  intros H. unfold marked. destruct (String.eqb_spec (be_epoch e) "") as [Ee|Ee]; [exists x; repeat split; by try left|].
  exists (set_rejoined (be_epoch e) x). rewrite get_change, String.eqb_refl, H. repeat split; by right.
Qed.

Lemma outcome_settled v' : replica_outcome e v v' -> keeps_data e v' = true.
Proof.
  assert (Hk : forall w x, get PGDATA w = Some x -> dr_version x = true -> keeps_data e (marked e w) = true).
  { intros w x Hx Hv. destruct (marked_get w x Hx) as (y & Hy & Ey & _ & _ & Em). unfold keeps_data, has. rewrite Hy. simpl. rewrite Ey, Hv. simpl.
    destruct Em as [-> | ->]; rewrite String.eqb_refl; by rewrite ?orb_true_r. }
  unfold replica_outcome. destruct (keeps_data e v) eqn:E.
  - intros ->. unfold keeps_data, has in E. destruct (get PGDATA v) as [x|] eqn:Hx; [|done]. apply (Hk v x Hx). by apply andb_true_iff in E as [E _].
  - by intros (v1 & (x & Hx & Hv & _) & ->); apply (Hk v1 x).
Qed.
End boots.

Lemma started_whole e v v' : started e v v' -> whole v v'.
Proof. destruct (usual_names (is_drill (be_epoch e))) as (K & K' & HK). by intros [_ H]%(started_so_far e v K K' HK). Qed.

Lemma restarts_whole es v v' : restarts es v v' -> whole v v'.
Proof.
  induction 1 as [v|e es v v1 v2 Hs%started_whole _ IH]; [by apply whole_same|]. intros x Hx.
  destruct (IH x Hx) as [?|(y & Hy & E1 & E2 & E3)]; [by left|]. destruct (Hs y Hy) as [?|(z & Hz & F1 & F2 & F3)]; [left; congruence|].
  right. exists z. repeat split; congruence.
Qed.

(** A start for a failover drill. *)
Definition drill (e : BootEnv) : bool := is_drill (be_epoch e).

Lemma usual_keeps b e v v' : started e v v' -> drill e = false -> keeps (kept_name b) (kept_name b) v v'.
Proof. intros Hs He. eapply (started_so_far e v); [|done]. unfold drill in He. rewrite He. apply names_usual. Qed.

Lemma usuals_keep b es v v' : restarts es v v' -> existsb drill es = false -> keeps (kept_name b) (kept_name b) v v'.
Proof.
  induction 1 as [v|e es v v1 v2 Hs _ IH]; [intros _; apply keeps_refl|]. cbn [existsb]. intros [He Hd]%orb_false_iff.
  eapply keeps_trans; [by apply (usual_keeps b e)|by apply IH].
Qed.

(** The data of [x] was in PGDATA when a drill set it aside, and stays in the copy of the
    drill at least until the next drill. *)
Definition set_aside_by_drill (es : list BootEnv) (v v' : Volume) (x : Dir) : Prop :=
  exists es1 e es2 v1, es = es1 ++ e :: es2 /\ drill e = true /\ restarts es1 v v1 /\ holds (under PGDATA) v1 x /\
    (holds (kept_name true) v' x \/ existsb drill es2 = true).

Lemma drill_start e v v' x : started e v v' -> drill e = true -> holds (kept_name false) v x ->
  holds (kept_name false) v' x \/ holds (under PGDATA) v x /\ holds (kept_name true) v' x.
Proof.
  intros Hs He (n & y & Hin & Hn & Hx). unfold drill in He. destruct (under PGDATA n) eqn:Eu.
  - right. split; [by exists n, y|]. destruct (started_so_far e v (kept_name false) (kept_name true)) with (v' := v') as [H _]; [rewrite He; apply names_drill|done|].
    apply H. by exists n, y.
  - left. destruct (started_so_far e v outside outside) with (v' := v') as [H _]; [rewrite He; apply names_outside|done|].
    apply (keeps_sub outside); [by intros m [? _]%andb_true_iff|]. apply H. exists n, y. split; [done|]. split; [|done]. unfold outside. by rewrite Hn, Eu.
Qed.

Lemma restarts_keep es v v' x : restarts es v v' -> holds (kept_name false) v x -> holds (kept_name false) v' x \/ set_aside_by_drill es v v' x.
Proof.
  induction 1 as [v|e es v v1 v2 Hs Hr IH]; intros Hx; [by left|]. destruct (drill e) eqn:He.
  - destruct (drill_start e v v1 x Hs He Hx) as [H|[Hp Ht]].
    + destruct (IH H) as [?|(es1 & e' & es2 & w & -> & He' & Hr' & Hw)]; [by left|right].
      exists (e :: es1), e', es2, w. split; [done|]. split; [done|]. split; [by eapply RS_cons|done].
    + right. exists [], e, es, v. split; [done|]. split; [done|]. split; [constructor|]. split; [done|].
      destruct (existsb drill es) eqn:Ed; [by right|left]. by apply (usuals_keep true es v1 v2 Hr).
  - destruct (IH (usual_keeps false e v v1 Hs He x Hx)) as [?|(es1 & e' & es2 & w & -> & He' & Hr' & Hw)]; [by left|right].
    exists (e :: es1), e', es2, w. split; [done|]. split; [done|]. split; [by eapply RS_cons|done].
Qed.


(** C19: A start that reaches the image's entrypoint has done what the role asks.  A writer's
    volume is left alone, and an empty PGDATA is not handed over beside a cluster of the
    older layout.  A replica's PGDATA is what it was when that is a standby, or a writer
    not told to rejoin (or that has rejoined already), with the epoch noted; otherwise it
    is a verified standby.  And the same start again changes nothing more than the note. *)
Theorem boot_outcome e v v' : booted e v v' ->
  match be_role e with
  | boot_primary => v' = v /\ (has dr_version v PGDATA = true \/ has dr_version v "data" = false)
  | boot_replica =>
      (if keeps_data e v then v' = marked e v
       else exists x, get PGDATA v' = Some x /\ dr_version x = true /\ dr_standby x = true /\ (be_epoch e = "" \/ dr_rejoined x = be_epoch e)) /\
      (forall v2, booted e v' v2 -> v2 = marked e v')
  end.
Proof.
  intros H. pose proof (booted_result e v v' H) as Hr. unfold boot_result in Hr. destruct (be_role e) eqn:Er; [done|]. split.
  - unfold replica_outcome in Hr. destruct (keeps_data e v); [done|]. destruct Hr as (v1 & (x & Hx & Hv & Hs) & ->).
    destruct (marked_get e v1 x Hx) as (y & Hy & Ev & Es & _ & Em). exists y. repeat split; congruence || done.
  - intros v2 H2%booted_result. unfold boot_result in H2. rewrite Er in H2. unfold replica_outcome in H2.
    by rewrite (outcome_settled e v v' Hr) in H2.
Qed.

(** * Starts on concrete volumes *)

Section simulated.
Context (stamp : string) (copy : Dir).

(** Every command succeeds that can, the clone brings [copy]. *)
Definition perform {X} (c : shell X) (v : Volume) : (X + failure) * Volume :=
  match c in shell X return (X + failure) * Volume with
  | TestVersion d => (inl (has dr_version v d), v)
  | TestStandby d => (inl (has dr_standby v d), v)
  | TestExists d => (inl (bool_decide (is_Some (get d v))), v)
  | ReadRejoined d => (inl (default "" (dr_rejoined <$> get d v)), v)
  | Date => (inl stamp, v)
  | WaitPrimary _ | ClearSignals _ | WriteConf _ _ | Start => (inl tt, v)
  | RemoveTree d => (inl tt, removed (under d) v)
  | RemoveDrills => (inl tt, removed (startsWith DRILL) v)
  | MakeDir d => (inl tt, match get d v with Some _ => v | None => v ++ [(d, empty_dir)] end)
  | Basebackup _ d => if dr_empty copy then (inr (Failed "pg_basebackup"), v) else (inl tt, obj_set d copy v)
  | RemoveEmpty d => if all_empty d v then (inl true, removed (under d) v) else (inl false, v)
  | Move a b => match get a v, get (move_target v a b) v with
                | Some _, None => (inl tt, renamed a (move_target v a b) v)
                | _, _ => (inr (Failed "mv"), v)
                end
  | TouchStandby d => (inl tt, change_dir d set_standby v)
  | WriteRejoined d e => (inl tt, change_dir d (set_rejoined e) v)
  end.

Lemma perform_step {X} (c : shell X) v : sh_step v (Event c (fst (perform c v))) (snd (perform c v)).
Proof.
  unfold sh_step. destruct c; simpl; try done.
  - destruct (dr_empty copy) eqn:E; simpl; [done|by exists copy].
  - by destruct (all_empty d v) eqn:E; simpl.
  - destruct (get a v) eqn:Ea; simpl; [|done]. destruct (get (move_target v a b) v) eqn:Eb; simpl; [done|]. by split.
Qed.

(** The start, killed after [n] commands: what it has done, and whether it was over. *)
Fixpoint simulate {A} (n : nat) (p : prog shell A) (v : Volume) : Volume * option (A + failure) :=
  match p with
  | Ret a => (v, Some (inl a))
  | Throw x => (v, Some (inr x))
  | Call c k => match n with
                | O => (v, None)
                | S n' => simulate n' (k (fst (perform c v))) (snd (perform c v))
                end
  end.

Lemma simulate_sound {A} n (p : prog shell A) v : exists t r t1 t2,
  traces p t r /\ t = t1 ++ t2 /\ sh_run v t1 (fst (simulate n p v)) /\ forall r', snd (simulate n p v) = Some r' -> r = r' /\ t2 = [].
Proof.
  revert n v. induction p as [a|x|X c k IH]; intros n v.
  - exists [], (inl a), [], []. split; [done|]. split; [done|]. split; [destruct n; constructor|]. destruct n; by intros r' [= <-].
  - exists [], (inr x), [], []. split; [done|]. split; [done|]. split; [destruct n; constructor|]. destruct n; by intros r' [= <-].
  - destruct n as [|n]; simpl.
    + destruct (IH (inr (Failed "")) O v) as (t & r & _ & _ & Ht & _). exists (Event c (inr (Failed "")) :: t), r, [], (Event c (inr (Failed "")) :: t).
      split; [by exists (inr (Failed "")), t|]. split; [done|]. split; [constructor|done].
    + destruct (IH (fst (perform c v)) n (snd (perform c v))) as (t & r & t1 & t2 & Ht & -> & Hr & Hs).
      exists (Event c (fst (perform c v)) :: t1 ++ t2), r, (Event c (fst (perform c v)) :: t1), t2.
      split; [by eexists _, _|]. split; [done|]. split; [econstructor; [apply perform_step|done]|done].
Qed.

Lemma simulate_started n e v : started e v (fst (simulate n (boot e) v)).
Proof. destruct (simulate_sound n (boot e) v) as (t & r & t1 & t2 & Ht & E & Hr & _). by exists t, r, t1, t2. Qed.

Lemma simulate_booted n e v : snd (simulate n (boot e) v) = Some (inl tt) -> booted e v (fst (simulate n (boot e) v)).
Proof.
  intros H. destruct (simulate_sound n (boot e) v) as (t & r & t1 & t2 & Ht & E & Hr & Hs). destruct (Hs _ H) as [-> ->].
  rewrite app_nil_r in E. subst t1. by exists t.
Qed.
End simulated.

Definition standby_env (epoch : string) : BootEnv := {| be_role := boot_replica; be_host := "shop_main"; be_epoch := epoch |}.

Definition writer_dir (data : Z) : Dir := {| dr_data := data; dr_empty := false; dr_version := true; dr_standby := false; dr_rejoined := "" |}.

(** A demoted writer, told to rejoin. *)
Definition old_writer : Volume := [(PGDATA, writer_dir 1)].
Definition rejoin_run (n : nat) (v : Volume) : Volume := fst (simulate "20260101T000000Z" (writer_dir 2) n (boot (standby_env "f1")) v).


Lemma boot_outcome_witness : keeps_data (standby_env "f1") old_writer = false /\
  exists x, get PGDATA (rejoin_run 40 old_writer) = Some x /\ dr_version x = true /\ dr_standby x = true /\ (be_epoch (standby_env "f1") = "" \/ dr_rejoined x = be_epoch (standby_env "f1")).
Proof.
  split; [reflexivity|]. refine (proj1 (boot_outcome (standby_env "f1") old_writer (rejoin_run 40 old_writer) _)).
  apply simulate_booted. by vm_compute.
Defined.

(** ** A start killed between the renaming of a clone and its standby.signal *)

Definition first_run (n : nat) (v : Volume) : Volume := fst (simulate "20260101T000000Z" (writer_dir 2) n (boot (standby_env "")) v).

(** A new replica, which has no epoch to rejoin with, starts its copy of the primary as a
    writer of its own. *)
Lemma clone_window : exists n, started (standby_env "") [] (first_run n []) /\ booted (standby_env "") (first_run n []) (first_run 40 (first_run n [])) /\
  has dr_version (first_run 40 (first_run n [])) PGDATA = true /\ has dr_standby (first_run 40 (first_run n [])) PGDATA = false.
Proof.
  exists 8%nat. split; [apply simulate_started|]. split; [apply simulate_booted; by vm_compute|]. by vm_compute.
Qed.
